(* ===== verification/_CoqProject ===== *)
-Q . S2P
Prelude.v
RustInt.v
Bits.v
Arithmetic.v
Conditions.v
Shifts.v
Immediate.v
Bytes.v
RustList.v
Lifecycle.v
Topology.v
Scheduler.v
SchedulerSpec.v
SchedulerInv.v
SchedulerRefine.v
SchedulerProps.v
Allocation.v
DecodeTable.v
DecodeBase.v
DecodeFpSimd.v
DecodeA64.v
A64State.v
A64Semantics.v
FloatFormat.v
FloatOps.v
FloatConv.v
FloatRound.v
FloatPack.v
FloatArith.v
FloatDivide.v
FloatFused.v
FloatConvProps.v
FloatConversions.v
FloatProps.v
FloatTotal.v
Vector.v
SimdOps.v
A64FpSimd.v
A64FpSimdProps.v
SimdAccepted.v
SimdProps.v
GuestAddress.v
Invalidation.v
MemoryContracts.v
MemoryCommon.v
Synthetic.v
SyntheticInv.v
SyntheticData.v
SyntheticProps.v
SyntheticMap.v
SyntheticAlias.v
SyntheticBulk.v
SyntheticInstall.v
Interp.v
InterpInteger.v
InterpIntegerProps.v
InterpIntegerSpec.v
InterpIntegerSupport.v
InterpControl.v
InterpMachine.v
SyntheticCpu.v
SyntheticReach.v
InterpMemory.v
InterpMemoryProps.v
InterpMemorySpec.v
InterpBackend.v
InterpSystem.v
InterpSimd.v
InterpSimdProps.v
InterpProcess.v
InterpProcessProps.v
InterpSamples.v
HipcMessage.v
HipcProps.v
HipcResponse.v
Parcel.v
Events.v
Handles.v
Sessions.v
AddressWait.v
