(* ===== verification/Prelude.v ===== *)
(** * Nixe: a verification of the CPU, its memory, the scheduler, runtime objects and IPC formats

    Nixe ([src/]) runs console programs on a host.  Its parts that decide
    whether a guest program behaves as on the hardware are the A64 CPU front end
    with its reference interpreter ([crates/cpu], [crates/cpu-interpreter]), the
    guest memory they run on ([crates/memory], [crates/cpu/src/memory]), the
    scheduler that hands guest threads to virtual CPUs ([crates/scheduler]), the
    runtime objects guest threads synchronize on ([crates/runtime]), and the
    message formats they exchange with system services ([crates/horizon]).

    The runtime takes a lease from the scheduler and runs a slice of the leased
    thread ([InterpProcess.run_slice]): the loop polls interrupts and control
    requests, fetches a word from memory, decodes and normalizes it, and executes
    it on the register state; loads and stores go to memory directly or through
    the direct front end, mapping changes are announced on the invalidation
    stream, and the slice ends with a report.  The lease goes back to the
    scheduler with an outcome.  A system call finds its object through the
    process's handle table; events, address waits and sessions put threads to
    sleep and wake them; a session carries messages in the HIPC and CMIF formats,
    and those to the display service hold Binder parcels.

    ** Conventions

    A Rust integer of width [w] is a [Z] in [0, 2^w) ([RustInt.fits]); wrapping,
    shifting and complementing at a width are written out ([wrap], [shl_w],
    [not_w]); signed integers are their values ([as_signed]).  A call returns
    [Ok], [Err] or [Panic] ([res]): [expect], [unwrap], [unreachable!],
    [debug_assert!] and an index out of range are [Panic], so that "does not
    panic" is always a theorem.  Two [debug_assert!]s of [a64_fp_simd.rs] are
    left out: the width test of [scaled_quotient], which holds in both its uses
    ([FloatDivide.scaled_numerator_width]), and the test of [read] and [write]
    that register 31 is not the stack pointer, an argument every caller passes
    as [false].  [&mut] code is a state-passing computation
    ([M]) whose state survives an error.  A [BTreeMap] is a [gmap] read in key
    order, a [BTreeSet] a sorted list.

    ** Files

    - [Prelude], [RustInt], [RustList], [Bytes]: outcomes, the state monad with its
      weakest preconditions ([wp], [wp_step]), machine integers and bit reasoning
      (the [zbits] tactic and databases), sorting and binary search,
      little-endian bytes and slices.
    - [Bits], [Arithmetic], [Conditions], [Shifts], [Immediate]: the primitives of
      [crates/cpu/src/semantics], one file each, under the names of the source.
    - [Allocation]: [decode/allocation.rs], the second decode stage.
    - [DecodeTable]: [decode/table.rs], validation and compilation of a pattern
      table into byte-indexed buckets, decoding, operand extraction.
    - [DecodeBase], [DecodeFpSimd]: the instruction catalog and the operand
      normalizers of the five families ([decode/a64/*.rs]), as data.
    - [DecodeA64]: [decode/a64/mod.rs] and [platform.rs], the two platforms'
      tables and the routing to families.
    - [A64State]: [state/a64.rs].  [A64Semantics]: [semantics/a64.rs].
    - [Vector]: [semantics/vector.rs].  [FloatFormat]: the formats, control and
      status of [semantics/floating_point.rs] and [semantics/a64_fp_simd.rs].
      [FloatOps], [FloatConv]: the soft-float arithmetic and conversions of
      [a64_fp_simd.rs].  [SimdOps]: its lane, permutation and move instructions.
      [A64FpSimd]: its floating-point instructions and dispatch.
      [FloatRound]: what correct rounding means.  [FloatPack], [FloatArith],
      [FloatDivide], [FloatFused], [FloatConvProps], [FloatConversions],
      [FloatTotal]: the arithmetic against it, and that it returns.
      [FloatProps]: the results.  [A64FpSimdProps], [SimdAccepted], [SimdProps]:
      what the instructions change and compute, and the fields of accepted
      encodings.
    - [GuestAddress], [Invalidation]: [crates/memory/src/lib.rs], [access.rs] and
      [invalidation.rs].
    - [MemoryContracts], [MemoryCommon]: [memory/contracts.rs] and
      [memory/common.rs], with [exclusive.rs] and the fetch faults of [error.rs].
    - [Synthetic]: [memory/synthetic.rs], one definition per operation.
      [SyntheticInv]: its invariant and the bytes it stands for.
      [SyntheticData], [SyntheticProps]: data accesses.  [SyntheticMap],
      [SyntheticAlias]: protection and aliases.
      [SyntheticBulk]: bulk transfers.  [SyntheticInstall]: resizing and atomic
      installation.  [SyntheticReach]: fixtures and all reachable states.
    - [Interp]: step results, errors and register access of the interpreter.
      [InterpMachine]: what an instruction runs on; the traits it calls
      ([CpuMemory], the direct front end) are type classes with their laws.
      [SyntheticCpu]: the synthetic backend is an instance.
    - [InterpInteger], [InterpControl], [InterpMemory], [InterpSystem],
      [InterpSimd]: [interpreter/a64/*.rs], one definition per handler.
      [InterpIntegerProps], [InterpIntegerSpec], [InterpIntegerSupport],
      [InterpMemoryProps], [InterpMemorySpec], [InterpBackend],
      [InterpSimdProps]: what the handlers preserve and what they compute.
    - [InterpProcess]: [interpreter/mod.rs], [interpreter/a64/mod.rs],
      [process.rs] and the control word of [execution.rs].  [InterpProcessProps]:
      dispatch and slices.  [InterpSamples]: the reference step and instructions
      run on a small memory.
    - [Lifecycle], [Topology], [Scheduler]: [crates/scheduler], one definition per
      handler of [scheduler.rs].  [SchedulerSpec]: what the scheduler promises,
      as a transition system over threads and their status.  [SchedulerInv]: the
      invariant of the concrete state.  [SchedulerRefine]: every handler keeps
      the invariant and takes a step of the specification.  [SchedulerProps]: the
      consequences.
    - [Events], [Handles], [Sessions]: [crates/runtime/src/handle/event.rs],
      [handle.rs] and [handle/session.rs].  [AddressWait]: [address_wait.rs].
      Each file has its component's operations, then what it promises.
    - [HipcMessage]: [crates/horizon/src/ipc_wire/message.rs].  [HipcProps]: the
      wire format and HIPC requests.  [HipcResponse]: the CMIF layer and
      responses.  [Parcel]: [crates/horizon/src/parcel.rs].

    ** What is shown

    Scheduler.  Along every sequence of commands that does not make a running or
    waiting thread ready by hand ([SchedulerRefine.admissible]), no [expect] or
    [debug_assert!] is reached and every command is a step of the specification
    or a rejection it allows; rejected commands change nothing, in any state; a
    thread is leased to at most one virtual CPU; selection is by priority, then
    first come first served, and work conserving; leases and wake tokens are
    spent once; lifecycles follow the transition table.  The two theorems
    [make_ready_*] show what happens outside the admissible commands: a running
    thread made ready is leased a second time, in every reachable state.

    Decoder.  A compiled table decodes exactly as a scan of the whole table in
    priority order, with a unique winner; the A64 catalog compiles, each entry is
    reached by its fixture, and decoding followed by normalization is total on
    32-bit words and never reaches [unreachable!].  Operand extraction is exact,
    and structure transfers have a shape exactly when they are allocated.

    Primitives.  The adder, the subtracter, the shifts, the bit-mask decoder and
    the bit-field operations are exact at every width they accept.

    Memory.  Every state the synthetic backend reaches is well formed, and the
    only operation that can panic on it is the removal of an alias between ranges
    that overlap and are to have the same properties.  Loads return what was stored, through every alias
    and across page boundaries; an access that faults changes no byte; an
    exclusive pair succeeds exactly when the reserved bytes are unchanged;
    atomic functions compute their fixed-width meaning.  Mapping operations,
    bulk writes, resizing and installation happen in full or not at all, change
    exactly what they name, and announce it.  The invalidation ring refines the
    history of all changes, as publications make it: a reader sees each change
    once, in order, or is told that it fell behind.
    [unmap_alias_onto_itself_panics] records an alias request that is accepted
    and then panics.

    Interpreter.  Every 32-bit word can be executed on a well-formed machine: the
    reserved DUP forms panic; of the others none panics in a build without
    overflow checks, and in a build with them only the words of
    [A64FpSimdProps.overflowing] can.  Instructions change only their
    destinations and are precise on errors: a faulting access leaves the
    registers as they were.  Comparisons make every condition code mean what it
    says; integer instructions compute their mathematical meaning; branches go to
    their architectural targets; loads and stores access exactly the address
    their encoding says and a load returns what a store put there; a reservation
    is spent by one store; system registers hold what is written; an event wakes
    one wait.  Every allocated integer encoding and vector transfer is executed,
    with the exceptions that [allocated_integer_supported] lists.  A slice
    returns within its budget whatever other threads do, or panics at one of the
    words just named.
    [add_to_zero_register_writes_sp] records an instruction form that writes the
    stack pointer where the architecture writes nothing.

    Floating point and SIMD.  Values are integers in units of the smallest
    subnormal, and "correctly rounded" is a statement on these: the result is
    the neighbour of the exact value, an integer, a ratio or a square root, that
    the rounding mode selects, with the flags of that rounding.  Addition,
    multiplication, division, square root, the fused forms, the conversions and
    rounding to integral are shown to be so for both precisions and every FPCR,
    flushing included; the fused forms where their aligned terms stay in 128 bits
    ([fused_in_range], [fused_zero_near]).  Every accepted FP and SIMD word
    changes its destination and flags only, and changes nothing when it traps,
    with one exception: the reserved DUP forms
    ([SimdAccepted.reserved_duplicate]), which the allocation rules accept and
    which panic.  In a build with overflow checks the forms of [overflowing]
    panic too.  [fused_sum_overflows] and [long_shift_of_doublewords_accepted]
    show what they do in each build profile.

    Runtime objects.  Threads that signal, clear and wait on an event interleave
    section by section: no signal is lost, no wait times out early, and an
    observer is called once.  The handle table refines a map that hands out the
    lowest free handle, and a transfer between processes happens in full or not
    at all.  A session is indistinguishable from its specification, a queue
    served in order with one reply per request, under every interleaving of its
    lock sections.  A thread that ends hands its mutexes to the first waiters, on
    every registry that callers who queue a thread once can make.
    [repeated_signal_one_lost] records that a second signal before the woken
    thread runs wakes nobody.

    IPC formats.  Decoding accepts exactly the messages that follow the layout,
    written out as bytes, and returns their fields; the domain framing likewise;
    an encoded response is read back as it was given; no decoder panics.  A
    parcel is read back as it was written, reading never leaves the payload, and
    an interface token is accepted exactly when it spells the expected name.

    ** Parameters

    The objects behind handles, the observers of events, device handlers
    ([SyntheticMmio]), the direct memory front end
    ([DirectMemory], [DirectSlice]), the timer, host allocation
    ([can_reserve]) and what other threads do during a slice are parameters.
    The build profile is an argument ([checks]) where unsigned overflow can
    occur: overflow is [Panic] when it is set and wraps otherwise; theorems on
    such code hold for both profiles and say what differs.
    Their contracts say that calls return and keep values in range; each theorem
    that uses one has a witness with a concrete instance.

    ** Bounds and fuel

    Running out of fuel is [Panic], never a result, and each bound is shown
    sufficient.  [Bits.replicate] and [RustList.binary_search_is_ok] bound their
    loops by 128 and by the length searched ([replicate_total],
    [binary_search_spec]); [allocate_page_id] and the coalescing loops by the
    pages and mappings in use, each of which a loop meets once; the bulk loops by
    the number of bytes; [run_loop] by the budget and the external inputs
    ([slice_fuel], [run_slice_bounded]).  [InterpInteger.reverse_each] has the
    length of its list as fuel.  All other recursion is structural.  The theorems on
    events and sessions are about runs of fewer than 2^64 steps, since the source
    counts generations, registrations and requests in 64 bits.  Where a
    statement ranges over a small finite field (an opcode, a condition), it is
    checked by evaluation on all its values.

    ** Not modelled

    The formatting of errors and diagnostics, except the disassembly text an
    unsupported instruction carries and the text of invalidation errors.  Host
    fences and locks: a section under a component's own lock is atomic, and
    where a call takes the lock more than once or races on an atomic flag, its
    sections are separate steps ([Events], [Sessions]).  One call is an
    exception: [store_exclusive] of the synthetic backend releases its lock
    between testing the reservation and the compare-and-exchange and is one step
    here, so that a mapping changed by another thread in between is not seen.  Of the runtime, the
    coordinator, ports, shared and transfer memory, virtual time and process
    construction; of the services, dispatch and the copying of messages through
    guest memory; the content loaders and the GPU command front end.  The
    production memory backends and the direct front end (host
    mappings, signal handlers), native code generation, the GPU back end, host
    video, input and configuration, and vendored code stay out: they are
    third-party code or glue to the host. *)

From Stdlib Require Import ZArith Lia Bool.
From stdpp Require Import base gmap list strings sorting numbers option.

#[global] Open Scope Z_scope.

(** ** Outcomes of Rust code

    A call returns a value, returns an [Err], or panics ([expect], [unwrap],
    [unreachable!], an out-of-range index).  The three are kept apart, so that
    absence of panics is a statement about the model and not an assumption. *)

Inductive res (E A : Type) : Type :=
  | Ok (a : A)
  | Err (e : E)
  | Panic.
Arguments Ok {E A} a.
Arguments Err {E A} e.
Arguments Panic {E A}.

#[export] Instance res_ret {E} : MRet (res E) := fun A a => Ok a.
#[export] Instance res_bind {E} : MBind (res E) := fun A B f m =>
  match m with Ok a => f a | Err e => Err e | Panic => Panic end.

(** [Option::expect] and [Result::expect] inside a computation. *)
Definition expect {E A} (o : option A) : res E A :=
  match o with Some a => Ok a | None => Panic end.

Definition expect_ok {E F A} (r : res F A) : res E A :=
  match r with Ok a => Ok a | _ => Panic end.

(** [Option::ok_or] followed by [?]. *)
Definition ok_or {E A} (o : option A) (e : E) : res E A :=
  match o with Some a => Ok a | None => Err e end.

(** [Result::ok]. *)
Definition res_ok {E A} (r : res E A) : option A :=
  match r with Ok a => Some a | _ => None end.

Definition is_ok {E A} (r : res E A) : bool :=
  match r with Ok _ => true | _ => false end.

(** ** State-passing computations

    [&mut self] methods that can fail.  The state survives an error, so what a
    rejected call leaves behind is visible in the model. *)

Definition M (S E A : Type) : Type := S -> S * res E A.

#[export] Instance M_ret {S E} : MRet (M S E) := fun A a s => (s, Ok a).
#[export] Instance M_bind {S E} : MBind (M S E) := fun A B f m s =>
  match m s with
  | (s', Ok a) => f a s'
  | (s', Err e) => (s', Err e)
  | (s', Panic) => (s', Panic)
  end.

Section Ops.
Context {S E : Type}.

Definition gets {A} (f : S -> A) : M S E A := fun s => (s, Ok (f s)).
Definition modify (f : S -> S) : M S E unit := fun s => (f s, Ok tt).
Definition throw {A} (e : E) : M S E A := fun s => (s, Err e).
Definition lift {A} (r : res E A) : M S E A := fun s => (s, r).
Definition guard_err (b : bool) (e : E) : M S E unit :=
  fun s => if b then (s, Err e) else (s, Ok tt).
End Ops.

(** Running the first step of a sequence. *)
Lemma M_bind_ok {S E A B} (m : M S E A) (f : A -> M S E B) s s' a :
  m s = (s', Ok a) -> (m ≫= f) s = f a s'.
Proof. unfold mbind, M_bind. by intros ->. Qed.

Lemma M_bind_lift_ok {S E A B} (r : res E A) (a : A) (f : A -> M S E B) (s0 : S) :
  r = Ok a -> (lift r ≫= f) s0 = f a s0.
Proof. by intros ->. Qed.

(** Weakest precondition of a computation: it never panics, [Q] holds of its
    value and [Qe] of its error, each with the state it leaves. *)
Definition wp {S E A} (m : M S E A) (Q : A -> S -> Prop) (Qe : E -> S -> Prop)
    (s : S) : Prop :=
  match m s with
  | (s', Ok a) => Q a s'
  | (s', Err e) => Qe e s'
  | (_, Panic) => False
  end.

Section WpRules.
Context {S E : Type}.
Implicit Types (s : S).

Lemma wp_ret {A} (a : A) (Q : A -> S -> Prop) (Qe : E -> S -> Prop) s :
  Q a s -> wp (mret a) Q Qe s.
Proof. done. Qed.

Lemma wp_bind {A B} (m : M S E A) (f : A -> M S E B) Q Qe s :
  wp m (fun a => wp (f a) Q Qe) Qe s -> wp (m ≫= f) Q Qe s.
Proof. unfold wp, mbind, M_bind. by destruct (m s) as [s' [a|e|]]. Qed.

Lemma wp_gets {A} (f : S -> A) (Q : A -> S -> Prop) (Qe : E -> S -> Prop) s :
  Q (f s) s -> wp (gets f) Q Qe s.
Proof. done. Qed.

Lemma wp_modify (f : S -> S) Q (Qe : E -> S -> Prop) s :
  Q tt (f s) -> wp (modify f) Q Qe s.
Proof. done. Qed.

Lemma wp_throw {A} (e : E) (Q : A -> S -> Prop) Qe s :
  Qe e s -> wp (throw e) Q Qe s.
Proof. done. Qed.

Lemma wp_guard_err b (e : E) Q (Qe : E -> S -> Prop) s :
  (b = true -> Qe e s) -> (b = false -> Q tt s) -> wp (guard_err b e) Q Qe s.
Proof. unfold wp, guard_err. destruct b; naive_solver. Qed.

Lemma wp_lift {A} (r : res E A) Q (Qe : E -> S -> Prop) s :
  match r with Ok a => Q a s | Err e => Qe e s | Panic => False end ->
  wp (lift r) Q Qe s.
Proof. unfold wp, lift. by destruct r. Qed.

Lemma wp_lift_ok_or {A} (o : option A) (e : E) Q (Qe : E -> S -> Prop) s :
  (forall a, o = Some a -> Q a s) -> (o = None -> Qe e s) ->
  wp (lift (ok_or o e)) Q Qe s.
Proof. intros. apply wp_lift. destruct o; naive_solver. Qed.

Lemma wp_mono {A} (m : M S E A) (Q Q' : A -> S -> Prop) (Qe Qe' : E -> S -> Prop) s :
  wp m Q Qe s -> (forall a s', Q a s' -> Q' a s') ->
  (forall e s', Qe e s' -> Qe' e s') -> wp m Q' Qe' s.
Proof. unfold wp. destruct (m s) as [s' [a|e|]]; naive_solver. Qed.

(** What a [wp] says about a run. *)
Lemma wp_ok {A} (m : M S E A) Q (Qe : E -> S -> Prop) s s' a :
  wp m Q Qe s -> m s = (s', Ok a) -> Q a s'.
Proof. unfold wp. intros H Hm. by rewrite Hm in H. Qed.

Lemma wp_err {A} (m : M S E A) Q (Qe : E -> S -> Prop) s s' e :
  wp m Q Qe s -> m s = (s', Err e) -> Qe e s'.
Proof. unfold wp. intros H Hm. by rewrite Hm in H. Qed.

Lemma wp_no_panic {A} (m : M S E A) Q (Qe : E -> S -> Prop) s : wp m Q Qe s -> snd (m s) <> Panic.
Proof. unfold wp. by destruct (m s) as [? []]. Qed.

Lemma wp_discard {A} (m : M S E A) (Q : unit -> S -> Prop) (Qe : E -> S -> Prop) s :
  wp m (fun _ => Q tt) Qe s -> wp (_ ← m; mret tt) Q Qe s.
Proof. intros Hm. apply wp_bind. eapply wp_mono; [done| |done]. intros a s' HQ. by apply wp_ret. Qed.
End WpRules.

(** Steps through a computation in a [wp] goal. *)
Ltac wp_step :=
  lazymatch goal with
  | |- wp (mbind _ _) _ _ _ => apply wp_bind
  | |- wp (mret _) _ _ _ => apply wp_ret
  | |- wp (gets _) _ _ _ => apply wp_gets
  | |- wp (modify _) _ _ _ => apply wp_modify
  | |- wp (throw _) _ _ _ => apply wp_throw
  | |- wp (guard_err _ _) _ _ _ => apply wp_guard_err; intros ?
  | |- wp (lift (ok_or _ _)) _ _ _ => apply wp_lift_ok_or; intros
  end.
