(* ===== verification/RustInt.v ===== *)
(** * Machine integers

    A Rust [uN] value is a [Z] in [0, 2^N); what Rust truncates is written out
    with [wrap].  [iN] values are the [Z] in [-2^(N-1), 2^(N-1)) that
    [as_signed] computes from the same bits. *)

From Stdlib Require Import ZArith Lia Bool Btauto.
From stdpp Require Import base numbers.
From S2P Require Import Prelude.

Definition wrap (w x : Z) : Z := x mod 2 ^ w.

(** [x as iN] on the bits of [x], and back. *)
Definition as_signed (w x : Z) : Z :=
  let r := wrap w x in if r <? 2 ^ (w - 1) then r else r - 2 ^ w.

(** [!x], [x << n] and [x.wrapping_add(y)] at width [w]. *)
Definition not_w (w x : Z) : Z := wrap w (Z.lnot x).
Definition shl_w (w x n : Z) : Z := wrap w (Z.shiftl x n).
Definition wrapping_add (w x y : Z) : Z := wrap w (x + y).
Definition wrapping_sub (w x y : Z) : Z := wrap w (x - y).
Definition wrapping_mul (w x y : Z) : Z := wrap w (x * y).

Definition checked_add (w x y : Z) : option Z :=
  if x + y <? 2 ^ w then Some (x + y) else None.

(** [x.overflowing_add(y)]. *)
Definition overflowing_add (w x y : Z) : Z * bool :=
  (wrap w (x + y), 2 ^ w <=? x + y).

(** [x & (1 << n) != 0] for an unsigned [x]. *)
Definition bit_set (x n : Z) : bool := negb (Z.land x (Z.shiftl 1 n) =? 0).

(** [x.leading_zeros()], [x.trailing_zeros()] and [x.is_power_of_two()]. *)
Definition leading_zeros (w x : Z) : Z := if x =? 0 then w else w - 1 - Z.log2 x.
Definition trailing_zeros (w x : Z) : Z :=
  if x =? 0 then w else Z.log2 (Z.land x (- x)).
Definition is_power_of_two (x : Z) : bool :=
  (0 <? x) && (Z.land x (x - 1) =? 0).

Definition fits (w x : Z) : Prop := 0 <= x < 2 ^ w.

(** ** Powers of two *)

Lemma pow2_pos w : 0 <= w -> 0 < 2 ^ w.
Proof. intros. apply Z.pow_pos_nonneg; lia. Qed.

Lemma pow2_le a b : 0 <= a <= b -> 2 ^ a <= 2 ^ b.
Proof. intros. apply Z.pow_le_mono_r; lia. Qed.

Lemma pow2_lt a b : 0 <= a < b -> 2 ^ a < 2 ^ b.
Proof. intros. apply Z.pow_lt_mono_r; lia. Qed.

Lemma pow2_half w : 0 < w -> 2 ^ w = 2 * 2 ^ (w - 1).
Proof. intros. rewrite <- Z.pow_succ_r by lia. f_equal. lia. Qed.

(** ** Wrapping *)

Lemma wrap_fits w x : 0 <= w -> fits w (wrap w x).
Proof. intros. unfold fits, wrap. apply Z.mod_pos_bound, pow2_pos; lia. Qed.

Lemma wrap_small w x : fits w x -> wrap w x = x.
Proof. unfold fits, wrap. intros. by apply Z.mod_small. Qed.

Lemma wrap_wrap w x : wrap w (wrap w x) = wrap w x.
Proof. unfold wrap. apply Zmod_mod. Qed.

Lemma wrap_wrap_le w v x : 0 <= v <= w -> wrap v (wrap w x) = wrap v x.
Proof.
  intros. unfold wrap. apply Z.mod_mod_divide.
  exists (2 ^ (w - v)). rewrite <- Z.pow_add_r by lia. f_equal. lia.
Qed.

Lemma wrap_add_l w x y : wrap w (wrap w x + y) = wrap w (x + y).
Proof. unfold wrap. by rewrite Zplus_mod_idemp_l. Qed.

Lemma wrap_plus_pow w x k : wrap w (x + k * 2 ^ w) = wrap w x.
Proof. unfold wrap. destruct (decide (2 ^ w = 0)) as [->|]; [f_equal; lia|]. by apply Z.mod_add. Qed.

Lemma wrap_congr w x y k : x = y + k * 2 ^ w -> wrap w x = wrap w y.
Proof. intros ->. apply wrap_plus_pow. Qed.

Lemma wrap_eq w x : wrap w x = x - x / 2 ^ w * 2 ^ w.
Proof. unfold wrap. destruct (decide (2 ^ w = 0)) as [->|]; [rewrite Z.mod_0_r; lia|]. rewrite Z.mod_eq by done. lia. Qed.

Lemma fits_le v w x : 0 <= v <= w -> fits v x -> fits w x.
Proof. unfold fits. intros ? ?. pose proof (pow2_le v w). lia. Qed.

Lemma wrap_land w x : 0 <= w -> Z.land x (Z.ones w) = wrap w x.
Proof. intros. unfold wrap. by apply Z.land_ones. Qed.

Lemma as_signed_range w x : 0 < w -> - 2 ^ (w - 1) <= as_signed w x < 2 ^ (w - 1).
Proof.
  intros Hw. unfold as_signed. pose proof (wrap_fits w x ltac:(lia)) as [Hl Hu].
  pose proof (pow2_half w Hw). destruct (Z.ltb_spec (wrap w x) (2 ^ (w - 1))); lia.
Qed.

Lemma wrap_as_signed w x : 0 <= w -> wrap w (as_signed w x) = wrap w x.
Proof.
  intros. unfold as_signed. destruct (Z.ltb_spec (wrap w x) (2 ^ (w - 1))).
  - apply wrap_wrap.
  - replace (wrap w x - 2 ^ w) with (wrap w x + (-1) * 2 ^ w) by lia.
    by rewrite wrap_plus_pow, wrap_wrap.
Qed.

(** ** Bits *)

Create Rewrite HintDb zbits.

Lemma testbit_wrap w x i :
  0 <= w -> Z.testbit (wrap w x) i = (i <? w) && Z.testbit x i.
Proof. intros. unfold wrap. by apply Z.testbit_mod_pow2. Qed.

Lemma testbit_not_w w x i :
  0 <= w -> 0 <= i -> Z.testbit (not_w w x) i = (i <? w) && negb (Z.testbit x i).
Proof. intros. unfold not_w. rewrite testbit_wrap by done. by rewrite Z.lnot_spec. Qed.

Lemma testbit_shl_w w x n i :
  0 <= w -> 0 <= i ->
  Z.testbit (shl_w w x n) i = (i <? w) && Z.testbit x (i - n).
Proof. intros. unfold shl_w. rewrite testbit_wrap by done. by rewrite Z.shiftl_spec. Qed.

Lemma testbit_fits w x i : 0 <= w -> fits w x -> w <= i -> Z.testbit x i = false.
Proof.
  intros ? Hf ?. rewrite <- (wrap_small w x Hf), testbit_wrap by done.
  by destruct (Z.ltb_spec i w); [lia|].
Qed.

Lemma fits_testbit w x :
  0 <= w -> (forall i, w <= i -> Z.testbit x i = false) -> fits w x.
Proof.
  intros Hw Hb. replace x with (wrap w x); [by apply wrap_fits|].
  apply Z.bits_inj'. intros i Hi. rewrite testbit_wrap by done.
  destruct (Z.ltb_spec i w); [done|]. by rewrite Hb by lia.
Qed.

Lemma fits_ext w x y :
  0 <= w -> fits w x -> fits w y ->
  (forall i, 0 <= i < w -> Z.testbit x i = Z.testbit y i) -> x = y.
Proof.
  intros Hw Hx Hy Hxy. apply Z.bits_inj'. intros i Hi.
  destruct (Z.lt_ge_cases i w); [by apply Hxy|].
  by rewrite (testbit_fits w x), (testbit_fits w y).
Qed.

#[export] Hint Rewrite Z.land_spec Z.lor_spec Z.lxor_spec : zbits.
#[export] Hint Rewrite Z.shiftl_spec Z.shiftr_spec Z.lnot_spec
  testbit_wrap testbit_not_w testbit_shl_w Z.testbit_ones_nonneg
  Z.pow2_bits_eqb Z.bits_0 using lia : zbits.

(** Bitwise equality: compare bit [i], rewrite it down to the operands and
    decide the positions by arithmetic. *)
Ltac zbits_split :=
  repeat match goal with
  | |- context [?a <? ?b] => destruct (Z.ltb_spec a b)
  | |- context [?a <=? ?b] => destruct (Z.leb_spec a b)
  | |- context [?a =? ?b] => destruct (Z.eqb_spec a b)
  end.

Ltac zbits :=
  apply Z.bits_inj';
  let i := fresh "i" in let Hi := fresh "Hi" in
  intros i Hi; autorewrite with zbits; zbits_split; simpl;
  try lia; try btauto; try (f_equal; lia).

Lemma fits_land_l w x y : 0 <= w -> fits w x -> fits w (Z.land x y).
Proof.
  intros. apply fits_testbit; [done|]. intros i ?.
  by rewrite Z.land_spec, (testbit_fits w x).
Qed.

Lemma fits_land_r w x y : 0 <= w -> fits w y -> fits w (Z.land x y).
Proof. intros. rewrite Z.land_comm. by apply fits_land_l. Qed.

Lemma fits_lor w x y : 0 <= w -> fits w x -> fits w y -> fits w (Z.lor x y).
Proof.
  intros. apply fits_testbit; [done|]. intros i ?.
  by rewrite Z.lor_spec, (testbit_fits w x), (testbit_fits w y).
Qed.

Lemma fits_lxor w x y : 0 <= w -> fits w x -> fits w y -> fits w (Z.lxor x y).
Proof.
  intros. apply fits_testbit; [done|]. intros i ?.
  by rewrite Z.lxor_spec, (testbit_fits w x), (testbit_fits w y).
Qed.

Lemma fits_shiftr w x n : 0 <= w -> 0 <= n -> fits w x -> fits w (Z.shiftr x n).
Proof.
  intros. apply fits_testbit; [done|]. intros i ?.
  rewrite Z.shiftr_spec by lia. apply (testbit_fits w); [done..|lia].
Qed.

Lemma fits_not_w w x : 0 <= w -> fits w (not_w w x).
Proof. apply wrap_fits. Qed.

Lemma fits_shl_w w x n : 0 <= w -> fits w (shl_w w x n).
Proof. apply wrap_fits. Qed.

Create HintDb fits.
#[export] Hint Resolve wrap_fits fits_land_l fits_land_r fits_lor fits_lxor
  fits_shiftr fits_not_w fits_shl_w : fits.

Lemma bit_set_spec x n : 0 <= n -> bit_set x n = Z.testbit x n.
Proof.
  intros Hn. unfold bit_set. rewrite Z.shiftl_1_l.
  destruct (Z.testbit x n) eqn:Hb.
  - apply negb_true_iff, Z.eqb_neq. intros H0.
    assert (Z.testbit (Z.land x (2 ^ n)) n = false) as Hf by (rewrite H0; apply Z.bits_0).
    by rewrite Z.land_spec, Hb, Z.pow2_bits_true in Hf.
  - apply negb_false_iff, Z.eqb_eq. zbits. subst i. by rewrite Hb.
Qed.

Lemma fits_testbit_top w x :
  0 < w -> fits w x -> Z.testbit x (w - 1) = negb (x <? 2 ^ (w - 1)).
Proof.
  intros Hw [Hl Hu]. pose proof (pow2_half w Hw). pose proof (pow2_pos (w - 1)).
  rewrite Z.testbit_eqb by lia.
  destruct (Z.ltb_spec x (2 ^ (w - 1))).
  - rewrite Z.div_small by lia. done.
  - replace (x / 2 ^ (w - 1)) with 1; [done|].
    apply (Z.div_unique x (2 ^ (w - 1)) 1 (x - 2 ^ (w - 1))); lia.
Qed.

Lemma add_high w a b : 0 <= w -> fits w a -> a + b * 2 ^ w = Z.lor a (Z.shiftl b w).
Proof.
  intros Hw Ha. rewrite <- Z.shiftl_mul_pow2 by done.
  assert (Z.land a (Z.shiftl b w) = 0) as Hd.
  { apply Z.bits_inj'. intros i Hi. rewrite Z.land_spec, Z.shiftl_spec, Z.bits_0 by done.
    destruct (Z.lt_ge_cases i w); [by rewrite (Z.testbit_neg_r b) by lia; rewrite andb_false_r|].
    by rewrite (testbit_fits w a) by done. }
  rewrite Z.add_nocarry_lxor by done. by apply Z.lxor_lor.
Qed.

(** ** Signed readings *)

Lemma as_signed_unique w x y :
  0 < w -> - 2 ^ (w - 1) <= y < 2 ^ (w - 1) -> wrap w y = wrap w x -> y = as_signed w x.
Proof.
  intros Hw Hy Hxy. pose proof (pow2_half w Hw). unfold as_signed. rewrite <- Hxy.
  destruct (Z.le_gt_cases 0 y).
  - rewrite wrap_small by (unfold fits; lia). destruct (Z.ltb_spec y (2 ^ (w - 1))); lia.
  - assert (wrap w y = y + 2 ^ w) as ->.
    { rewrite <- (wrap_plus_pow w y 1), Z.mul_1_l. apply wrap_small. unfold fits. lia. }
    destruct (Z.ltb_spec (y + 2 ^ w) (2 ^ (w - 1))); lia.
Qed.

Lemma as_signed_small w y : 0 < w -> - 2 ^ (w - 1) <= y < 2 ^ (w - 1) -> as_signed w y = y.
Proof. intros. symmetry. by apply as_signed_unique. Qed.

Lemma as_signed_wrap w x : as_signed w (wrap w x) = as_signed w x.
Proof. unfold as_signed. by rewrite wrap_wrap. Qed.

Lemma testbit_neg_above n a i : 0 <= n <= i -> - 2 ^ n <= a < 0 -> Z.testbit a i = true.
Proof.
  intros. replace a with (Z.lnot (- a - 1)) by (unfold Z.lnot; lia).
  rewrite Z.lnot_spec by lia. rewrite (testbit_fits n); [done|lia|unfold fits; lia|lia].
Qed.

Lemma testbit_as_signed w x i :
  0 < w -> 0 <= i ->
  Z.testbit (as_signed w x) i = Z.testbit x (if i <? w then i else w - 1).
Proof.
  intros Hw Hi. pose proof (as_signed_range w x Hw) as Hr.
  assert (forall j, j < w -> 0 <= j -> Z.testbit (as_signed w x) j = Z.testbit x j) as Hlow.
  { intros j Hj Hj0. pose proof (wrap_as_signed w x ltac:(lia)) as Hwr.
    assert (Z.testbit (wrap w (as_signed w x)) j = Z.testbit (wrap w x) j) as Hb by congruence.
    rewrite !testbit_wrap in Hb by lia. destruct (Z.ltb_spec j w); [done|lia]. }
  destruct (Z.ltb_spec i w); [by apply Hlow|]. rewrite <- (Hlow (w - 1)) by lia.
  destruct (Z.le_gt_cases 0 (as_signed w x)).
  - rewrite !(testbit_fits (w - 1)) by (unfold fits; lia). done.
  - rewrite !(testbit_neg_above (w - 1)) by lia. done.
Qed.

#[export] Hint Rewrite testbit_as_signed using lia : zbits.

(** ** Finite checks by evaluation *)

Fixpoint forall_below (n : nat) (f : Z -> bool) : bool :=
  match n with O => true | S k => f (Z.of_nat k) && forall_below k f end.

Lemma forall_below_spec n f x :
  forall_below n f = true -> 0 <= x < Z.of_nat n -> f x = true.
Proof.
  induction n as [|n IH]; simpl; intros Hf Hx; [lia|].
  apply andb_true_iff in Hf as [Hn Hr].
  destruct (decide (x = Z.of_nat n)) as [->|]; [done|]. apply IH; [done|lia].
Qed.

Lemma forall_below_dec (P : Z -> Prop) `{!forall x, Decision (P x)} n x :
  forall_below n (fun y => bool_decide (P y)) = true -> 0 <= x < Z.of_nat n -> P x.
Proof. intros Hf Hx. by eapply bool_decide_eq_true_1, (forall_below_spec n _ x Hf Hx). Qed.

(** Proves a decidable goal about [x] in [0, n) by evaluating every case. *)
Ltac check_below n x :=
  pattern x;
  lazymatch goal with |- ?P _ => apply (forall_below_dec P n) end;
  [by vm_compute|simpl; lia].
