(* ===== verification/Bits.v ===== *)
(** * Fixed-width bit vectors: [crates/cpu/src/semantics/bits.rs]

    [BitWidth], field extraction and insertion, sign extension, rotation and
    tiling on [u128] bit vectors, with the bit-level meaning of each. *)

From Stdlib Require Import ZArith Lia Bool Btauto.
From stdpp Require Import base numbers.
From S2P Require Import Prelude RustInt.

Record BitWidth : Type := mkBitWidth { bits : Z }.

Inductive BitError : Type :=
  | InvalidWidth (width : Z)
  | RangeOutsideValue (lsb width value_width : Z)
  | ExtensionNarrows (source_width destination_width : Z)
  | NonIntegralReplication (pattern_width destination_width : Z).

Definition BitWidth_new (b : Z) : res BitError BitWidth :=
  if (b =? 0) || (128 <? b) then Err (InvalidWidth b) else Ok (mkBitWidth b).

Definition mask (self : BitWidth) : Z :=
  if self.(bits) =? 128 then 2 ^ 128 - 1 else shl_w 128 1 self.(bits) - 1.

Definition truncate (self : BitWidth) (value : Z) : Z := Z.land value (mask self).

Definition checked_range (lsb : Z) (width value_width : BitWidth) : res BitError unit :=
  if value_width.(bits) <? lsb + width.(bits)
  then Err (RangeOutsideValue lsb width.(bits) value_width.(bits))
  else Ok tt.

Definition extract (value : Z) (value_width : BitWidth) (lsb : Z) (field_width : BitWidth)
    : res BitError Z :=
  _ ← checked_range lsb field_width value_width;
  mret (Z.land (Z.shiftr value lsb) (mask field_width)).

Definition insert (base : Z) (value_width : BitWidth) (field lsb : Z)
    (field_width : BitWidth) : res BitError Z :=
  _ ← checked_range lsb field_width value_width;
  let field_mask := shl_w 128 (mask field_width) lsb in
  mret (Z.land (Z.lor (Z.land base (not_w 128 field_mask))
                      (shl_w 128 (Z.land field (mask field_width)) lsb))
               (mask value_width)).

Definition sign_extend (value : Z) (source_width destination_width : BitWidth)
    : res BitError Z :=
  if destination_width.(bits) <? source_width.(bits)
  then Err (ExtensionNarrows source_width.(bits) destination_width.(bits))
  else
    let value := truncate source_width value in
    let sign := shl_w 128 1 (source_width.(bits) - 1) in
    let extended :=
      if Z.land value sign =? 0 then value
      else Z.lor value (Z.land (mask destination_width) (not_w 128 (mask source_width))) in
    Ok (truncate destination_width extended).

Definition rotate_right (value : Z) (width : BitWidth) (amount : Z) : Z :=
  let b := width.(bits) in
  let amount := amount mod b in
  let value := truncate width value in
  if amount =? 0 then value
  else truncate width (Z.lor (Z.shiftr value amount) (shl_w 128 value (b - amount))).

Definition rotate_left (value : Z) (width : BitWidth) (amount : Z) : Z :=
  rotate_right value width (width.(bits) - amount mod width.(bits)).

(** The [while offset < destination_width.bits()] loop of [replicate]; [None]
    when the fuel runs out. *)
Fixpoint replicate_loop (fuel : nat) (pattern pw dw result offset : Z) : option Z :=
  if offset <? dw then
    match fuel with
    | O => None
    | S fuel =>
        replicate_loop fuel pattern pw dw
          (Z.lor result (shl_w 128 pattern offset)) (offset + pw)
    end
  else Some result.

(** 128 iterations suffice: the offset grows by at least one and stays below
    the destination width ([replicate_total]). *)
Definition replicate (pattern : Z) (pattern_width destination_width : BitWidth)
    : res BitError Z :=
  if negb (destination_width.(bits) mod pattern_width.(bits) =? 0)
  then Err (NonIntegralReplication pattern_width.(bits) destination_width.(bits))
  else
    let pattern := truncate pattern_width pattern in
    match replicate_loop 128 pattern pattern_width.(bits) destination_width.(bits) 0 0 with
    | Some result => Ok (truncate destination_width result)
    | None => Panic
    end.

(** ** Well-formed widths *)

Definition wf_width (w : BitWidth) : Prop := 1 <= w.(bits) <= 128.

Lemma mask_ones w : wf_width w -> mask w = Z.ones w.(bits).
Proof.
  unfold wf_width, mask. intros Hw. destruct (Z.eqb_spec (bits w) 128) as [->|]; [done|].
  unfold shl_w. rewrite Z.shiftl_1_l, wrap_small.
  - rewrite Z.ones_equiv. lia.
  - split; [apply Z.pow_nonneg; lia|apply Z.pow_lt_mono_r; lia].
Qed.

Lemma truncate_wrap w x : wf_width w -> truncate w x = wrap w.(bits) x.
Proof.
  intros Hw. unfold truncate. rewrite mask_ones by done. apply wrap_land.
  unfold wf_width in Hw. lia.
Qed.

Lemma truncate_fits w x : wf_width w -> fits w.(bits) (truncate w x).
Proof. intros Hw. rewrite truncate_wrap by done. apply wrap_fits. unfold wf_width in Hw. lia. Qed.

(** ** Extraction and insertion *)

Lemma extract_testbit v vw lsb fw r i :
  wf_width fw -> 0 <= lsb -> 0 <= i ->
  extract v vw lsb fw = Ok r ->
  Z.testbit r i = (i <? fw.(bits)) && Z.testbit v (i + lsb).
Proof.
  intros Hf ? ?. unfold extract, checked_range. unfold wf_width in Hf.
  destruct (_ <? _); simpl; [done|]. intros [= <-].
  rewrite mask_ones by done. autorewrite with zbits. btauto.
Qed.

Lemma insert_testbit base vw field lsb fw r i :
  wf_width vw -> wf_width fw -> 0 <= lsb -> 0 <= i ->
  insert base vw field lsb fw = Ok r ->
  Z.testbit r i =
    (i <? vw.(bits)) &&
    (if (lsb <=? i) && (i <? lsb + fw.(bits)) then Z.testbit field (i - lsb)
     else Z.testbit base i).
Proof.
  intros Hv Hf ? ?. unfold insert, checked_range. pose proof Hv as Hv'. pose proof Hf as Hf'.
  unfold wf_width in Hv', Hf'.
  destruct (Z.ltb_spec (bits vw) (lsb + bits fw)); simpl; [done|]. intros [= <-].
  rewrite !mask_ones by done. autorewrite with zbits.
  destruct (Z.leb_spec lsb i).
  - autorewrite with zbits. zbits_split; simpl; try lia; btauto.
  - rewrite !(Z.testbit_neg_r _ (i - lsb)) by lia. zbits_split; simpl; try lia; btauto.
Qed.

(** [insert] followed by [extract] of the same field returns the inserted
    value truncated to the field, for every base, position and width that the
    range check of [insert] accepts; the check of [extract] then accepts too. *)
Theorem extract_insert base vw field lsb fw r :
  wf_width vw -> wf_width fw -> 0 <= lsb ->
  insert base vw field lsb fw = Ok r ->
  extract r vw lsb fw = Ok (wrap fw.(bits) field).
Proof.
  intros Hv Hf Hl Hi.
  assert (extract r vw lsb fw = Ok (Z.land (Z.shiftr r lsb) (mask fw))) as He.
  { unfold insert, extract, checked_range in *. by destruct (_ <? _). }
  rewrite He. f_equal. pose proof Hf as Hf'. unfold wf_width in Hf'.
  apply Z.bits_inj'. intros i Hi0.
  rewrite (extract_testbit r vw lsb fw _ i Hf Hl Hi0 He).
  rewrite (insert_testbit base vw field lsb fw r) by (done || lia).
  autorewrite with zbits. unfold insert, checked_range in Hi.
  destruct (Z.ltb_spec (bits vw) (lsb + bits fw)); [done|].
  replace (i + lsb - lsb) with i by lia. zbits_split; simpl; try lia; done.
Qed.

Lemma extract_insert_witness :
  insert 0xff (mkBitWidth 8) 0 2 (mkBitWidth 4) = Ok 0xc3 /\
  extract 0xc3 (mkBitWidth 8) 2 (mkBitWidth 4) = Ok (wrap 4 0).
Proof.
  split; [reflexivity|].
  apply (extract_insert 0xff (mkBitWidth 8) 0 2 (mkBitWidth 4) 0xc3);
    [unfold wf_width; simpl; lia..|lia|reflexivity].
Defined.

(** ** Sign extension *)

Lemma sign_extend_testbit v sw dw r i :
  wf_width sw -> wf_width dw -> 0 <= i ->
  sign_extend v sw dw = Ok r ->
  Z.testbit r i = (i <? dw.(bits)) &&
    Z.testbit v (if i <? sw.(bits) then i else sw.(bits) - 1).
Proof.
  intros Hs Hd Hi. unfold sign_extend.
  destruct (Z.ltb_spec (bits dw) (bits sw)); [done|]. intros [= <-].
  pose proof Hs as Hs'. pose proof Hd as Hd'. unfold wf_width in Hs', Hd'.
  rewrite truncate_wrap by done. rewrite testbit_wrap by lia.
  assert (shl_w 128 1 (bits sw - 1) = Z.shiftl 1 (bits sw - 1)) as ->.
  { unfold shl_w. apply wrap_small. rewrite Z.shiftl_1_l.
    split; [apply Z.pow_nonneg; lia|apply Z.pow_lt_mono_r; lia]. }
  pose proof (bit_set_spec (truncate sw v) (bits sw - 1) ltac:(lia)) as Hb.
  unfold bit_set in Hb. rewrite truncate_wrap in * by done.
  rewrite testbit_wrap in Hb by lia.
  destruct (Z.ltb_spec (bits sw - 1) (bits sw)); [|lia]. simpl in Hb.
  rewrite !mask_ones by done.
  destruct (_ =? 0) eqn:E; simpl in Hb.
  - autorewrite with zbits. zbits_split; simpl; try lia; try done; by rewrite <- Hb.
  - autorewrite with zbits. zbits_split; simpl; try lia; try done; by rewrite <- ?Hb, ?orb_false_r, ?orb_true_r.
Qed.

(** [sign_extend] preserves the signed value: read as a two's-complement
    number of the destination width, the result is the source read as a
    two's-complement number of the source width. *)
Theorem sign_extend_value v sw dw r :
  wf_width sw -> wf_width dw -> sign_extend v sw dw = Ok r ->
  as_signed dw.(bits) r = as_signed sw.(bits) v.
Proof.
  intros Hs Hd He. pose proof Hs as Hs'. pose proof Hd as Hd'. unfold wf_width in Hs', Hd'.
  assert (bits sw <= bits dw) as Hle.
  { unfold sign_extend in He. destruct (Z.ltb_spec (bits dw) (bits sw)); [done|lia]. }
  assert (r = wrap (bits dw) (as_signed (bits sw) v)) as ->.
  { apply Z.bits_inj'. intros i Hi. rewrite (sign_extend_testbit v sw dw r) by done.
    by autorewrite with zbits. }
  rewrite as_signed_wrap. apply as_signed_small; [lia|].
  pose proof (as_signed_range (bits sw) v ltac:(lia)).
  pose proof (pow2_le (bits sw - 1) (bits dw - 1)). lia.
Qed.

Lemma sign_extend_value_witness :
  sign_extend 0x80 (mkBitWidth 8) (mkBitWidth 16) = Ok 0xff80 /\
  as_signed 16 0xff80 = as_signed 8 0x80 /\ as_signed 8 0x80 = -128.
Proof.
  split; [reflexivity|]. split; [|reflexivity].
  apply (sign_extend_value 0x80 (mkBitWidth 8) (mkBitWidth 16) 0xff80);
    [unfold wf_width; simpl; lia..|reflexivity].
Defined.

(** ** Rotation *)

Lemma rotate_right_testbit v w a i :
  wf_width w -> 0 <= i < w.(bits) ->
  Z.testbit (rotate_right v w a) i = Z.testbit v ((i + a) mod w.(bits)).
Proof.
  intros Hw Hi. pose proof Hw as Hw'. unfold wf_width in Hw'. unfold rotate_right.
  rewrite !truncate_wrap by done.
  pose proof (Z.mod_pos_bound a (bits w) ltac:(lia)) as Ha.
  rewrite <- (Zplus_mod_idemp_r a). set (k := a mod bits w) in *.
  destruct (Z.eqb_spec k 0) as [->|Hk].
  - rewrite Z.add_0_r, Z.mod_small, testbit_wrap by lia.
    by destruct (Z.ltb_spec i (bits w)); [|lia].
  - autorewrite with zbits. destruct (Z.lt_ge_cases (i + k) (bits w)).
    + rewrite (Z.mod_small (i + k)) by lia. rewrite (Z.testbit_neg_r _ (i - _)) by lia.
      zbits_split; simpl; try lia. by rewrite ?andb_false_r, ?orb_false_r.
    + rewrite <- (Z.mod_unique (i + k) (bits w) 1 (i + k - bits w)) by lia.
      replace (i - (bits w - k)) with (i + k - bits w) by lia.
      zbits_split; simpl; try lia. done.
Qed.

Lemma rotate_right_fits v w a : wf_width w -> fits w.(bits) (rotate_right v w a).
Proof.
  intros Hw. unfold rotate_right. destruct (_ =? 0); by apply truncate_fits.
Qed.

(** Rotating left undoes rotating right by the same amount, at every width
    from 1 to 128 and for every amount, reduced modulo the width or not; what
    comes back is the value truncated to the width. *)
Theorem rotate_left_right v w a :
  wf_width w -> rotate_left (rotate_right v w a) w a = truncate w v.
Proof.
  intros Hw. pose proof Hw as Hw'. unfold wf_width in Hw'.
  unfold rotate_left. apply (fits_ext (bits w)); [lia|by apply rotate_right_fits|by apply truncate_fits|].
  intros i Hi. rewrite truncate_wrap, testbit_wrap by done || lia.
  rewrite rotate_right_testbit by done.
  rewrite rotate_right_testbit by (done || (apply Z.mod_pos_bound; lia)).
  rewrite Zplus_mod_idemp_l.
  replace (i + (bits w - a mod bits w) + a) with (i + (a - a mod bits w) + 1 * bits w) by lia.
  rewrite Z.mod_add by lia. rewrite <- Zplus_mod_idemp_r.
  rewrite (Zminus_mod_idemp_r a a), Z.sub_diag, Z.mod_0_l, Z.add_0_r, Z.mod_small by lia.
  by destruct (Z.ltb_spec i (bits w)); [|lia].
Qed.

Lemma rotate_left_right_witness :
  rotate_left (rotate_right 0x181 (mkBitWidth 8) 11) (mkBitWidth 8) 11 = 0x81.
Proof.
  exact (rotate_left_right 0x181 (mkBitWidth 8) 11 ltac:(unfold wf_width; simpl; lia)).
Defined.

(** ** Tiling *)

(** Bit [i] of the accumulated tiles: everything below [offset] is the pattern
    repeated. *)
Definition tiled (pattern pw result offset : Z) : Prop :=
  forall i, 0 <= i -> Z.testbit result i = (i <? offset) && Z.testbit pattern (i mod pw).

Lemma replicate_loop_tiled fuel pattern pw dw result offset :
  0 < pw -> fits pw pattern -> 0 <= offset <= dw -> dw <= 128 ->
  (pw | offset) -> (pw | dw) -> dw - offset <= Z.of_nat fuel ->
  tiled pattern pw result offset ->
  exists r, replicate_loop fuel pattern pw dw result offset = Some r /\ tiled pattern pw r dw.
Proof.
  intros Hpw Hp. revert result offset. induction fuel as [|fuel IH];
    intros result offset Ho Hdw [k Hk] [m Hm] Hf Ht; simpl;
    destruct (Z.ltb_spec offset dw) as [Hlt|Hge].
  - lia.
  - exists result. split; [done|]. by replace dw with offset by lia.
  - assert (k + 1 <= m) by (enough (~ m <= k) by lia; intros ?; nia).
    assert (offset + pw <= dw) by (rewrite Hk, Hm; nia).
    apply IH; [lia|lia|exists (k + 1); lia|by exists m|lia|].
    intros i Hi. autorewrite with zbits. rewrite Ht by done.
    destruct (Z.lt_ge_cases i offset).
    { rewrite (Z.testbit_neg_r _ (i - _)) by lia. zbits_split; simpl; try lia.
      by rewrite orb_false_r. }
    destruct (Z.lt_ge_cases i (offset + pw)).
    + rewrite <- (Z.mod_unique i pw k (i - offset)) by lia.
      zbits_split; simpl; try lia; done.
    + rewrite (testbit_fits pw pattern (i - offset)) by (done || lia).
      zbits_split; simpl; try lia; done.
  - exists result. split; [done|]. by replace dw with offset by lia.
Qed.

Lemma replicate_tiles pattern pw dw :
  wf_width pw -> wf_width dw -> (pw.(bits) | dw.(bits)) ->
  exists r, replicate pattern pw dw = Ok r /\ fits dw.(bits) r /\
    forall i, 0 <= i < dw.(bits) -> Z.testbit r i = Z.testbit pattern (i mod pw.(bits)).
Proof.
  intros Hp Hd Hdiv. pose proof Hp as Hp'. pose proof Hd as Hd'. unfold wf_width in Hp', Hd'.
  unfold replicate. rewrite (proj2 (Z.mod_divide (bits dw) (bits pw) ltac:(lia)) Hdiv).
  rewrite Z.eqb_refl. cbn [negb].
  destruct (replicate_loop_tiled 128 (truncate pw pattern) (bits pw) (bits dw) 0 0)
    as (r & Hr & Ht).
  - lia.
  - by apply truncate_fits.
  - lia.
  - lia.
  - apply Z.divide_0_r.
  - done.
  - lia.
  - intros i Hi. rewrite Z.bits_0. by destruct (Z.ltb_spec i 0); [lia|].
  - rewrite Hr. exists (truncate dw r). split; [done|]. split; [by apply truncate_fits|].
    intros i Hi. rewrite !truncate_wrap in * by done. rewrite testbit_wrap by lia.
    rewrite Ht, testbit_wrap by lia. pose proof (Z.mod_pos_bound i (bits pw)).
    zbits_split; simpl; try lia; done.
Qed.

(** [replicate] returns a value whenever the pattern width divides the
    destination width, and bit [i] of that value is bit [i mod pattern_width]
    of the pattern; the loop of the source terminates within 128 iterations. *)
Theorem replicate_total pattern pw dw :
  wf_width pw -> wf_width dw -> (pw.(bits) | dw.(bits)) ->
  exists r, replicate pattern pw dw = Ok r /\ fits dw.(bits) r /\
    forall i, 0 <= i < dw.(bits) -> Z.testbit r i = Z.testbit pattern (i mod pw.(bits)).
Proof. apply replicate_tiles. Qed.

Lemma replicate_total_witness :
  exists r, replicate 2 (mkBitWidth 2) (mkBitWidth 8) = Ok r /\ fits 8 r /\
    forall i, 0 <= i < 8 -> Z.testbit r i = Z.testbit 2 (i mod 2).
Proof.
  apply (replicate_total 2 (mkBitWidth 2) (mkBitWidth 8)).
  - unfold wf_width; simpl; lia.
  - unfold wf_width; simpl; lia.
  - exists 4. reflexivity.
Defined.
