(* ===== verification/Arithmetic.v ===== *)
(** * Addition and subtraction with carry: [crates/cpu/src/semantics/arithmetic.rs]

    The width-parametric adder both execution engines use, and its agreement
    with unsigned and signed integer arithmetic at every width from 1 to 128. *)

From Stdlib Require Import ZArith Lia Bool.
From stdpp Require Import base numbers.
From S2P Require Import Prelude RustInt Bits.

Record AddWithCarryResult : Type := mkAddWithCarryResult {
  result : Z;
  carry_out : bool;
  overflow : bool;
}.

Definition add_with_carry (lhs rhs : Z) (carry_in : bool) (width : BitWidth)
    : AddWithCarryResult :=
  let lhs := truncate width lhs in
  let rhs := truncate width rhs in
  let carry := Z.b2z carry_in in
  let '(partial, first_carry) := overflowing_add 128 lhs rhs in
  let '(sum, second_carry) := overflowing_add 128 partial carry in
  let result := truncate width sum in
  let carry_out :=
    if width.(bits) =? 128 then first_carry || second_carry else mask width <? sum in
  let sign := shl_w 128 1 (width.(bits) - 1) in
  let overflow :=
    negb (Z.land (Z.land (not_w 128 (Z.lxor lhs rhs)) (Z.lxor lhs result)) sign =? 0) in
  mkAddWithCarryResult result carry_out overflow.

Definition subtract_with_carry (lhs rhs : Z) (carry_in : bool) (width : BitWidth)
    : AddWithCarryResult :=
  add_with_carry lhs (not_w 128 (truncate width rhs)) carry_in width.

Definition subtract (lhs rhs : Z) (width : BitWidth) : AddWithCarryResult :=
  subtract_with_carry lhs rhs true width.

(** ** Reference: the mathematical sum *)

Section Adder.
Context (w : BitWidth) (Hw : wf_width w).
Implicit Types (a b : Z) (c : bool).

Local Abbreviation n := (w.(bits)).

(** The unsigned sum of the truncated operands and the carry. *)
Definition usum a b c : Z := wrap n a + wrap n b + Z.b2z c.

(** The sum of the operands read as two's-complement numbers, and the carry. *)
Definition ssum a b c : Z := as_signed n a + as_signed n b + Z.b2z c.

Definition signed_range (x : Z) : bool := (- 2 ^ (n - 1) <=? x) && (x <? 2 ^ (n - 1)).

Lemma n_bounds : 1 <= n <= 128.
Proof. exact Hw. Qed.

Lemma b2z_bounds c : 0 <= Z.b2z c <= 1.
Proof. destruct c; simpl; lia. Qed.

Lemma adder_sum a b c :
  wrap 128 (wrap 128 (truncate w a + truncate w b) + Z.b2z c) = wrap 128 (usum a b c).
Proof. unfold usum. by rewrite !truncate_wrap, wrap_add_l. Qed.

Lemma adder_result a b c : result (add_with_carry a b c w) = wrap n (usum a b c).
Proof.
  unfold add_with_carry, overflowing_add. cbn [result].
  rewrite adder_sum, truncate_wrap by done. apply wrap_wrap_le. pose proof n_bounds. lia.
Qed.

Lemma adder_carry a b c : carry_out (add_with_carry a b c w) = (2 ^ n <=? usum a b c).
Proof.
  unfold add_with_carry, overflowing_add. cbn [carry_out].
  pose proof n_bounds as Hn. pose proof (b2z_bounds c) as Hc.
  pose proof (wrap_fits n a ltac:(lia)) as Ha. pose proof (wrap_fits n b ltac:(lia)) as Hb.
  unfold fits in Ha, Hb. rewrite adder_sum. unfold usum.
  rewrite !truncate_wrap by done.
  destruct (Z.eqb_spec n 128) as [He|He].
  - rewrite He in *. set (x := wrap 128 a) in *. set (y := wrap 128 b) in *.
    destruct (Z.leb_spec (2 ^ 128) (x + y)).
    + simpl. symmetry. apply Z.leb_le. lia.
    + rewrite wrap_small by (unfold fits; lia). done.
  - pose proof (pow2_le n 127 ltac:(lia)).
    rewrite mask_ones, Z.ones_equiv by done.
    rewrite wrap_small by (unfold fits; lia).
    destruct (Z.ltb_spec (Z.pred (2 ^ n)) (wrap n a + wrap n b + Z.b2z c)); symmetry;
      [apply Z.leb_le|apply Z.leb_gt]; lia.
Qed.

Lemma adder_overflow a b c :
  overflow (add_with_carry a b c w) = negb (signed_range (ssum a b c)).
Proof.
  unfold add_with_carry, overflowing_add. cbn [overflow]. rewrite adder_sum.
  pose proof n_bounds as Hn. pose proof (b2z_bounds c) as Hc.
  assert (shl_w 128 1 (n - 1) = Z.shiftl 1 (n - 1)) as ->.
  { unfold shl_w. apply wrap_small. rewrite Z.shiftl_1_l.
    pose proof (pow2_lt (n - 1) 128 ltac:(lia)). pose proof (pow2_pos (n - 1)).
    unfold fits. lia. }
  change (negb (Z.land ?x (Z.shiftl 1 ?k) =? 0)) with (bit_set x k).
  rewrite bit_set_spec by lia. autorewrite with zbits.
  rewrite !truncate_wrap by done. rewrite wrap_wrap_le by lia.
  pose proof (wrap_fits n a ltac:(lia)) as Ha. pose proof (wrap_fits n b ltac:(lia)) as Hb.
  pose proof (wrap_fits n (usum a b c) ltac:(lia)) as Hr.
  rewrite !(fits_testbit_top n) by (done || lia).
  unfold signed_range, ssum, as_signed. destruct (Z.ltb_spec (n - 1) 128); [|lia].
  assert (wrap n (usum a b c) =
    if usum a b c <? 2 ^ n then usum a b c else usum a b c - 2 ^ n) as Hsum.
  { pose proof (pow2_half n ltac:(lia)). unfold fits in *.
    destruct (Z.ltb_spec (usum a b c) (2 ^ n)) as [Hlt|Hge]; unfold usum in *.
    - apply wrap_small. unfold fits. lia.
    - rewrite <- (wrap_plus_pow n _ (-1)). replace (-1 * 2 ^ n) with (- 2 ^ n) by lia.
      apply wrap_small. unfold fits. lia. }
  unfold usum, fits in *. pose proof (pow2_half n ltac:(lia)).
  set (x := wrap n a) in *. set (y := wrap n b) in *. set (k := Z.b2z c) in *.
  set (s := wrap n (x + y + k)) in *. set (h := 2 ^ (n - 1)) in *.
  destruct (Z.ltb_spec (x + y + k) (2 ^ n)), (Z.ltb_spec x h), (Z.ltb_spec y h),
    (Z.ltb_spec s h); cbn [negb xorb andb]; try lia;
    symmetry; rewrite ?negb_true_iff, ?negb_false_iff, ?andb_true_iff, ?andb_false_iff,
      ?Z.leb_le, ?Z.leb_gt, ?Z.ltb_lt, ?Z.ltb_ge; lia.
Qed.
Lemma add_result a b c : result (add_with_carry a b c w) = wrap n (a + b + Z.b2z c).
Proof.
  rewrite adder_result. unfold usum.
  rewrite <- Z.add_assoc, wrap_add_l, Z.add_comm, <- Z.add_assoc, wrap_add_l. f_equal. lia.
Qed.

End Adder.

(** The adder is exact at every width from 1 to 128, the 128-bit case with
    its two separate carries included: the result is the sum modulo [2^n], the
    carry says that the unsigned sum does not fit, and the overflow flag that
    the signed sum does not. *)
Theorem add_with_carry_correct (w : BitWidth) (a b : Z) (c : bool) :
  wf_width w ->
  let r := add_with_carry a b c w in
  result r = wrap w.(bits) (a + b + Z.b2z c) /\
  (carry_out r = true <->
     2 ^ w.(bits) <= wrap w.(bits) a + wrap w.(bits) b + Z.b2z c) /\
  (overflow r = true <->
     ~ (- 2 ^ (w.(bits) - 1) <= as_signed w.(bits) a + as_signed w.(bits) b + Z.b2z c
        < 2 ^ (w.(bits) - 1))).
Proof.
  intros Hw r. subst r. rewrite add_result, adder_carry, adder_overflow by done.
  unfold usum, signed_range, ssum. split; [done|split].
  - apply Z.leb_le.
  - rewrite negb_true_iff, andb_false_iff, Z.leb_gt, Z.ltb_ge. lia.
Qed.

Lemma add_with_carry_correct_witness :
  let w := mkBitWidth 32 in
  let r := add_with_carry 0x7fffffff 1 false w in
  result r = 0x80000000 /\ carry_out r = false /\ overflow r = true /\
  (overflow r = true <->
     ~ (- 2 ^ 31 <= as_signed 32 0x7fffffff + as_signed 32 1 + Z.b2z false < 2 ^ 31)).
Proof.
  cbv zeta. split; [reflexivity|]. split; [reflexivity|]. split; [reflexivity|].
  apply (add_with_carry_correct (mkBitWidth 32) 0x7fffffff 1 false).
  unfold wf_width; simpl; lia.
Defined.

(** ** Subtraction *)

Section Subtractor.
Context (w : BitWidth) (Hw : wf_width w).
Implicit Types (a b : Z) (c : bool).

Local Abbreviation n := (w.(bits)).

Lemma complement_wrap b :
  wrap n (not_w 128 (truncate w b)) = 2 ^ n - 1 - wrap n b.
Proof.
  pose proof (n_bounds w Hw) as Hn. pose proof (wrap_fits n b ltac:(lia)) as Hb.
  unfold not_w. rewrite truncate_wrap, wrap_wrap_le by (done || lia).
  rewrite <- (wrap_plus_pow n _ 1). unfold Z.lnot. unfold fits in Hb.
  rewrite wrap_small; [lia|unfold fits; lia].
Qed.

Lemma complement_signed b :
  as_signed n (not_w 128 (truncate w b)) = - as_signed n b - 1.
Proof.
  pose proof (n_bounds w Hw) as Hn. symmetry. apply as_signed_unique; [lia| |].
  - pose proof (as_signed_range n b ltac:(lia)). lia.
  - rewrite complement_wrap. pose proof (wrap_fits n b ltac:(lia)) as Hb. unfold fits in Hb.
    replace (- as_signed n b - 1) with ((- 1) - as_signed n b) by lia.
    unfold wrap at 1. rewrite <- Zminus_mod_idemp_r.
    fold (wrap n (as_signed n b)). rewrite wrap_as_signed by lia.
    fold (wrap n (-1 - wrap n b)). rewrite <- (wrap_plus_pow n _ 1).
    rewrite wrap_small; [lia|unfold fits; lia].
Qed.
Lemma sub_result a b c :
  result (subtract_with_carry a b c w) = wrap n (a - b - (1 - Z.b2z c)).
Proof.
  unfold subtract_with_carry. rewrite adder_result by done. unfold usum.
  rewrite complement_wrap. apply (wrap_congr _ _ _ (1 - a / 2 ^ n + b / 2 ^ n)).
  rewrite !wrap_eq. lia.
Qed.

Lemma sub_carry a b c :
  carry_out (subtract_with_carry a b c w) = (wrap n b + (1 - Z.b2z c) <=? wrap n a).
Proof.
  unfold subtract_with_carry. rewrite adder_carry by done. unfold usum.
  rewrite complement_wrap. apply eq_true_iff_eq. rewrite !Z.leb_le. lia.
Qed.

Lemma sub_overflow a b c :
  overflow (subtract_with_carry a b c w) =
  negb (signed_range w (as_signed n a - as_signed n b - (1 - Z.b2z c))).
Proof.
  unfold subtract_with_carry. rewrite adder_overflow by done. unfold ssum.
  rewrite complement_signed. do 2 f_equal. lia.
Qed.

End Subtractor.

(** Subtraction follows Arm's carry-is-not-borrow rule at every width: the
    result is [a - b - !c] modulo [2^n], the carry is set exactly when no
    unsigned borrow occurs, and the overflow flag exactly when the signed
    difference does not fit. *)
Theorem subtract_with_carry_correct (w : BitWidth) (a b : Z) (c : bool) :
  wf_width w ->
  let r := subtract_with_carry a b c w in
  let borrow := 1 - Z.b2z c in
  result r = wrap w.(bits) (a - b - borrow) /\
  (carry_out r = true <-> wrap w.(bits) b + borrow <= wrap w.(bits) a) /\
  (overflow r = true <->
     ~ (- 2 ^ (w.(bits) - 1) <= as_signed w.(bits) a - as_signed w.(bits) b - borrow
        < 2 ^ (w.(bits) - 1))).
Proof.
  intros Hw. cbv zeta. rewrite sub_result, sub_carry, sub_overflow by done.
  unfold signed_range. split; [done|split].
  - by rewrite Z.leb_le.
  - rewrite negb_true_iff, andb_false_iff, Z.leb_gt, Z.ltb_ge. lia.
Qed.

Lemma subtract_with_carry_correct_witness :
  let r := subtract_with_carry 0 1 true (mkBitWidth 32) in
  result r = 0xffffffff /\ carry_out r = false /\
  (carry_out r = true <-> wrap 32 1 + (1 - Z.b2z true) <= wrap 32 0).
Proof.
  cbv zeta. split; [reflexivity|]. split; [reflexivity|].
  apply (subtract_with_carry_correct (mkBitWidth 32) 0 1 true).
  unfold wf_width; simpl; lia.
Defined.
