(* ===== verification/Conditions.v ===== *)
(** * Condition codes: [crates/cpu/src/semantics/conditions.rs] *)

From Stdlib Require Import ZArith Lia Bool.
From stdpp Require Import base numbers.
From S2P Require Import Prelude RustInt.

Inductive Condition : Type :=
  | Eq | Ne | Cs | Cc | Mi | Pl | Vs | Vc | Hi | Ls | Ge | Lt_ | Gt_ | Le | Al | Nv.

#[export] Instance Condition_eq_dec : EqDecision Condition.
Proof. solve_decision. Defined.

Definition from_encoding (encoding : Z) : Condition :=
  match Z.land encoding 0xf with
  | 0 => Eq | 1 => Ne | 2 => Cs | 3 => Cc
  | 4 => Mi | 5 => Pl | 6 => Vs | 7 => Vc
  | 8 => Hi | 9 => Ls | 10 => Ge | 11 => Lt_
  | 12 => Gt_ | 13 => Le | 14 => Al | _ => Nv
  end.

(** [self as u8]. *)
Definition encoding (self : Condition) : Z :=
  match self with
  | Eq => 0 | Ne => 1 | Cs => 2 | Cc => 3
  | Mi => 4 | Pl => 5 | Vs => 6 | Vc => 7
  | Hi => 8 | Ls => 9 | Ge => 10 | Lt_ => 11
  | Gt_ => 12 | Le => 13 | Al => 14 | Nv => 15
  end.

Record Nzcv : Type := mkNzcv {
  negative : bool;
  zero : bool;
  carry : bool;
  overflow_flag : bool;
}.

Definition from_a64_nzcv (value : Z) : Nzcv :=
  mkNzcv (bit_set value 31) (bit_set value 30) (bit_set value 29) (bit_set value 28).

Definition packed (self : Nzcv) : Z :=
  Z.lor (Z.lor (Z.lor (Z.shiftl (Z.b2z self.(negative)) 31)
                      (Z.shiftl (Z.b2z self.(zero)) 30))
               (Z.shiftl (Z.b2z self.(carry)) 29))
        (Z.shiftl (Z.b2z self.(overflow_flag)) 28).

Definition base_condition (flags : Nzcv) (condition : Condition) : bool :=
  match condition with
  | Eq | Ne => flags.(zero)
  | Cs | Cc => flags.(carry)
  | Mi | Pl => flags.(negative)
  | Vs | Vc => flags.(overflow_flag)
  | Hi | Ls => flags.(carry) && negb flags.(zero)
  | Ge | Lt_ => Bool.eqb flags.(negative) flags.(overflow_flag)
  | Gt_ | Le => negb flags.(zero) && Bool.eqb flags.(negative) flags.(overflow_flag)
  | Al | Nv => true
  end.

Definition inverted (condition : Condition) : bool :=
  match condition with
  | Ne | Cc | Pl | Vc | Ls | Lt_ | Le => true
  | _ => false
  end.

Definition evaluate_a64 (condition : Condition) (nzcv : Z) : bool :=
  let flags := from_a64_nzcv nzcv in
  let result := base_condition flags condition in
  if inverted condition then negb result else result.

(** ** Packing *)

Lemma from_a64_nzcv_packed f : from_a64_nzcv (packed f) = f.
Proof. by destruct f as [[] [] [] []]. Qed.

Lemma from_encoding_encoding c : from_encoding (encoding c) = c.
Proof. by destruct c. Qed.

(** The architectural complement of a condition: the low encoding bit flipped. *)
Definition complement (c : Condition) : Condition := from_encoding (Z.lxor (encoding c) 1).

(** Conditions come in complementary pairs (the low bit of the encoding):
    for every flag value exactly one of the two holds, except for the pair AL
    and NV, which both always hold. *)
Theorem evaluate_complement c nzcv :
  evaluate_a64 (complement c) nzcv =
    if bool_decide (c = Al) || bool_decide (c = Nv) then true
    else negb (evaluate_a64 c nzcv).
Proof.
  destruct c; cbn [complement encoding Z.lxor from_encoding];
    unfold evaluate_a64, complement; simpl; by rewrite ?negb_involutive.
Qed.
