(* ===== verification/Shifts.v ===== *)
(** * Shifts with carry: [crates/cpu/src/semantics/shifts.rs] *)

From Stdlib Require Import ZArith Lia Bool.
From stdpp Require Import base numbers.
From S2P Require Import Prelude RustInt Bits.

Inductive ShiftError : Type := InvalidA64Width (width : Z).

Inductive ShiftKind : Type :=
  | LogicalLeft | LogicalRight | ArithmeticRight | RotateRight.

Record ShiftWithCarryResult : Type := mkShiftWithCarryResult {
  shift_result : Z;
  shift_carry_out : bool;
}.

Definition shift (value : Z) (width : BitWidth) (kind : ShiftKind) (amount : Z)
    (carry_in : bool) : ShiftWithCarryResult :=
  let b := width.(bits) in
  let value := truncate width value in
  if amount =? 0 then mkShiftWithCarryResult value carry_in
  else
    match kind with
    | LogicalLeft =>
        let carry_out := (amount <=? b) && bit_set value (b - amount) in
        let result := if b <=? amount then 0 else truncate width (shl_w 128 value amount) in
        mkShiftWithCarryResult result carry_out
    | LogicalRight =>
        let carry_out := (amount <=? b) && bit_set value (amount - 1) in
        let result := if b <=? amount then 0 else Z.shiftr value amount in
        mkShiftWithCarryResult result carry_out
    | ArithmeticRight =>
        let negative := bit_set value (b - 1) in
        if b <=? amount then
          mkShiftWithCarryResult (if negative then mask width else 0) negative
        else
          let logical := Z.shiftr value amount in
          let fill := if negative then shl_w 128 (mask width) (b - amount) else 0 in
          mkShiftWithCarryResult (truncate width (Z.lor logical fill))
            (bit_set value (amount - 1))
    | RotateRight =>
        let result := rotate_right value width amount in
        mkShiftWithCarryResult result (bit_set result (b - 1))
    end.

Definition a64_shift_with_carry (value : Z) (width : BitWidth) (kind : ShiftKind)
    (amount : Z) (carry_in : bool) : res ShiftError ShiftWithCarryResult :=
  if negb ((width.(bits) =? 32) || (width.(bits) =? 64))
  then Err (InvalidA64Width width.(bits))
  else Ok (shift value width kind amount carry_in).

(** ** Arithmetic meaning *)

(** The shift as an operation on integers: multiplication and flooring division
    by a power of two, signed for the arithmetic shift; a rotation moves bit
    [i + amount], modulo the width, to bit [i]. *)
Definition shift_spec (n value : Z) (kind : ShiftKind) (amount r : Z) : Prop :=
  match kind with
  | LogicalLeft => r = wrap n (wrap n value * 2 ^ amount)
  | LogicalRight => r = wrap n value / 2 ^ amount
  | ArithmeticRight => r = wrap n (as_signed n value / 2 ^ amount)
  | RotateRight => forall i, 0 <= i < n -> Z.testbit r i = Z.testbit value ((i + amount) mod n)
  end.

(** The last bit shifted out. *)
Definition shift_carry_spec (n value : Z) (kind : ShiftKind) (amount : Z) : bool :=
  match kind with
  | LogicalLeft => Z.testbit (wrap n value * 2 ^ amount) n
  | LogicalRight => Z.testbit (wrap n value) (amount - 1)
  | ArithmeticRight => Z.testbit (as_signed n value) (amount - 1)
  | RotateRight => Z.testbit value ((amount - 1) mod n)
  end.

Section Shift.
Context (w : BitWidth) (Hw : wf_width w).
Implicit Types (v a : Z) (c : bool).

Local Abbreviation n := (w.(bits)).

Lemma width_bounds : 1 <= n <= 128.
Proof. exact Hw. Qed.

Lemma shift_zero v k c :
  shift_spec n v k 0 (shift_result (shift v w k 0 c)) /\
  shift_carry_out (shift v w k 0 c) = c.
Proof.
  pose proof width_bounds. unfold shift. cbn [Z.eqb]. split; [|done].
  rewrite truncate_wrap by done. cbn [shift_result]. destruct k; simpl.
  - by rewrite Z.mul_1_r, wrap_wrap.
  - by rewrite Z.div_1_r.
  - by rewrite Z.div_1_r, wrap_as_signed by lia.
  - intros i Hi. rewrite Z.add_0_r, Z.mod_small, testbit_wrap by lia.
    by destruct (Z.ltb_spec i n); [|lia].
Qed.

Lemma shift_left_result v a c :
  0 < a -> shift_spec n v LogicalLeft a (shift_result (shift v w LogicalLeft a c)).
Proof.
  intros Ha. pose proof width_bounds. unfold shift, shift_spec.
  rewrite <- Z.shiftl_mul_pow2, truncate_wrap by (done || lia).
  destruct (Z.eqb_spec a 0) as [|_]; [lia|]. cbn [shift_result].
  destruct (Z.leb_spec n a).
  - zbits. by rewrite (Z.testbit_neg_r _ (i - a)) by lia.
  - rewrite truncate_wrap by done. unfold shl_w. by rewrite wrap_wrap_le by lia.
Qed.

Lemma shift_right_result v a c :
  0 < a -> shift_spec n v LogicalRight a (shift_result (shift v w LogicalRight a c)).
Proof.
  intros Ha. pose proof width_bounds. unfold shift, shift_spec.
  rewrite <- Z.shiftr_div_pow2, truncate_wrap by (done || lia).
  destruct (Z.eqb_spec a 0) as [|_]; [lia|]. cbn [shift_result].
  destruct (Z.leb_spec n a); [|done]. zbits.
Qed.

Lemma shift_arithmetic_result v a c :
  0 < a -> shift_spec n v ArithmeticRight a (shift_result (shift v w ArithmeticRight a c)).
Proof.
  intros Ha. pose proof width_bounds. unfold shift, shift_spec.
  rewrite <- Z.shiftr_div_pow2, !truncate_wrap by (done || lia).
  rewrite !bit_set_spec, testbit_wrap by lia. destruct (Z.ltb_spec (n - 1) n); [|lia].
  rewrite mask_ones by done. destruct (Z.eqb_spec a 0) as [|_]; [lia|]. cbn [andb].
  destruct (Z.leb_spec n a); cbn [shift_result]; rewrite ?truncate_wrap by done;
    destruct (Z.testbit v (n - 1)) eqn:Hs; zbits; rewrite ?Hs; try done.
  - rewrite (Z.testbit_neg_r (Z.ones n)) by lia. by rewrite orb_false_r.
  - autorewrite with zbits. zbits_split; lia || done.
Qed.

Lemma shift_rotate_result v a c :
  0 < a -> shift_spec n v RotateRight a (shift_result (shift v w RotateRight a c)).
Proof.
  intros Ha i Hi. pose proof width_bounds. unfold shift.
  destruct (Z.eqb_spec a 0) as [|_]; [lia|]. cbn [shift_result].
  rewrite rotate_right_testbit, truncate_wrap, testbit_wrap by (done || lia).
  pose proof (Z.mod_pos_bound (i + a) n ltac:(lia)).
  by destruct (Z.ltb_spec ((i + a) mod n) n); [|lia].
Qed.

Lemma shift_carry v k a c :
  0 < a -> shift_carry_out (shift v w k a c) = shift_carry_spec n v k a.
Proof.
  intros Ha. pose proof width_bounds. unfold shift, shift_carry_spec.
  destruct (Z.eqb_spec a 0) as [|_]; [lia|].
  destruct k; cbn [shift_carry_out];
    rewrite <- ?Z.shiftl_mul_pow2, ?truncate_wrap by (done || lia).
  - destruct (Z.leb_spec a n); cbn [andb].
    + rewrite bit_set_spec by lia. autorewrite with zbits. done.
    + rewrite Z.shiftl_spec, testbit_wrap, Z.testbit_neg_r by lia. by rewrite andb_false_r.
  - destruct (Z.leb_spec a n); cbn [andb].
    + by rewrite bit_set_spec by lia.
    + rewrite testbit_wrap by lia. by destruct (Z.ltb_spec (a - 1) n); [lia|].
  - destruct (Z.leb_spec n a); cbn [shift_carry_out]; rewrite bit_set_spec by lia;
      autorewrite with zbits; zbits_split; simpl; solve [lia | done | f_equal; lia].
  - rewrite bit_set_spec, rotate_right_testbit, testbit_wrap by (done || lia).
    replace (n - 1 + a) with (a - 1 + 1 * n) by lia. rewrite Z.mod_add by lia.
    pose proof (Z.mod_pos_bound (a - 1) n ltac:(lia)).
    by destruct (Z.ltb_spec ((a - 1) mod n) n); [|lia].
Qed.
End Shift.

(** On 32- and 64-bit operands the shift primitive always returns, its
    result is the integer operation of its kind for every amount (zero, below,
    at and above the width), and its carry is the last bit shifted out, or the
    carry input when nothing is shifted. *)
Theorem a64_shift_correct v w k a c :
  w.(bits) = 32 \/ w.(bits) = 64 -> 0 <= a ->
  exists r, a64_shift_with_carry v w k a c = Ok r /\
    shift_spec w.(bits) v k a (shift_result r) /\
    shift_carry_out r = if a =? 0 then c else shift_carry_spec w.(bits) v k a.
Proof.
  intros Hb Ha. assert (wf_width w) as Hw by (unfold wf_width; lia).
  unfold a64_shift_with_carry.
  assert ((bits w =? 32) || (bits w =? 64) = true) as ->.
  { apply orb_true_iff. rewrite !Z.eqb_eq. lia. }
  cbn [negb]. eexists. split; [done|].
  destruct (Z.eqb_spec a 0) as [->|Ha0]; [by apply shift_zero|].
  split; [|apply shift_carry; done || lia].
  destruct k; [apply shift_left_result|apply shift_right_result
    |apply shift_arithmetic_result|apply shift_rotate_result]; done || lia.
Qed.

Lemma a64_shift_correct_witness :
  exists r, a64_shift_with_carry 0x80000000 (mkBitWidth 32) ArithmeticRight 4 false = Ok r /\
    shift_spec 32 0x80000000 ArithmeticRight 4 (shift_result r) /\
    shift_carry_out r = false.
Proof.
  exact (a64_shift_correct 0x80000000 (mkBitWidth 32) ArithmeticRight 4 false
    (or_introl eq_refl) ltac:(lia)).
Defined.
