(* ===== verification/Immediate.v ===== *)
(** * Logical immediates: [crates/cpu/src/semantics/immediate.rs]

    [DecodeBitMasks] for 32- and 64-bit instructions, shown to be total and to
    produce the Arm masks bit by bit. *)

From Stdlib Require Import ZArith Lia Bool.
From stdpp Require Import base numbers list.
From S2P Require Import Prelude RustInt Bits.

Inductive ImmediateError : Type :=
  | FieldOutOfRange
  | InvalidDataSize (size : Z)
  | ReservedEncoding.

Record A64BitMasks : Type := mkA64BitMasks { write_mask : Z; test_mask : Z }.

(** [(0..=6).rev().find(|bit| combined & (1 << bit) != 0)]. *)
Definition highest_set_bit (combined : Z) : option Z :=
  List.find (fun bit => bit_set combined bit) [6; 5; 4; 3; 2; 1; 0].

(** The closure [ones]. *)
Definition ones (count : Z) : Z :=
  if count =? 128 then 2 ^ 128 - 1 else shl_w 128 1 count - 1.

Definition decode_a64_bit_masks (imm_n : bool) (imm_r imm_s data_size : Z) (immediate : bool)
    : res ImmediateError A64BitMasks :=
  if (64 <=? imm_r) || (64 <=? imm_s) then Err FieldOutOfRange
  else if negb ((data_size =? 32) || (data_size =? 64)) then Err (InvalidDataSize data_size)
  else
    let combined := Z.lor (shl_w 8 (Z.b2z imm_n) 6) (Z.land (not_w 8 imm_s) 0x3f) in
    match highest_set_bit combined with
    | None => Err ReservedEncoding
    | Some length =>
        if length <? 1 then Err ReservedEncoding
        else
          let element_size := shl_w 8 1 length in
          if data_size <? element_size then Err ReservedEncoding
          else
            let levels := element_size - 1 in
            let s := Z.land imm_s levels in
            let r := Z.land imm_r levels in
            if immediate && (s =? levels) then Err ReservedEncoding
            else
              element_width ← expect_ok (BitWidth_new element_size);
              data_width ← expect_ok (BitWidth_new data_size);
              let write_element := rotate_right (ones (s + 1)) element_width r in
              let diff := Z.land (wrapping_sub 8 s r) levels in
              let test_element := ones (diff + 1) in
              write ← expect_ok (replicate write_element element_width data_width);
              test ← expect_ok (replicate test_element element_width data_width);
              mret (mkA64BitMasks (wrap 64 write) (wrap 64 test))
    end.

Definition decode_a64_logical_immediate (imm_n : bool) (imm_r imm_s data_size : Z)
    : res ImmediateError Z :=
  masks ← decode_a64_bit_masks imm_n imm_r imm_s data_size true;
  mret (masks.(write_mask)).

(** ** Arm's [DecodeBitMasks] *)

(** [immN:NOT(imms)], whose highest set bit is [log2] of the element size. *)
Definition bitmask_key (imm_n : bool) (imm_s : Z) : Z := Z.b2z imm_n * 64 + (63 - imm_s).

Definition element_bits (imm_n : bool) (imm_s : Z) : Z := 2 ^ Z.log2 (bitmask_key imm_n imm_s).

(** The encodings the architecture reserves. *)
Definition reserved_bitmask (imm_n : bool) (imm_s data_size : Z) (immediate : bool) : Prop :=
  bitmask_key imm_n imm_s < 2 \/ data_size < element_bits imm_n imm_s \/
  (immediate = true /\ imm_s mod element_bits imm_n imm_s = element_bits imm_n imm_s - 1).

Lemma highest_set_bit_log2 c :
  0 <= c < 128 -> highest_set_bit c = if c =? 0 then None else Some (Z.log2 c).
Proof.
  intros Hc. check_below 128%nat c.
Qed.

Lemma combined_key imm_n imm_s :
  0 <= imm_s < 64 ->
  Z.lor (shl_w 8 (Z.b2z imm_n) 6) (Z.land (not_w 8 imm_s) 0x3f) = bitmask_key imm_n imm_s.
Proof.
  intros Hs. destruct imm_n; check_below 64%nat imm_s.
Qed.

Lemma ones_spec count : 0 <= count <= 127 -> ones count = Z.ones count.
Proof.
  intros Hc. unfold ones. destruct (Z.eqb_spec count 128); [lia|].
  unfold shl_w. rewrite Z.shiftl_1_l, wrap_small.
  - rewrite Z.ones_equiv. lia.
  - pose proof (pow2_pos count). pose proof (pow2_lt count 128). unfold fits. lia.
Qed.

Lemma element_shl len : 1 <= len <= 6 -> shl_w 8 1 len = 2 ^ len.
Proof.
  intros Hl. unfold shl_w. rewrite Z.shiftl_1_l. apply wrap_small.
  pose proof (pow2_pos len). pose proof (pow2_lt len 8). unfold fits. lia.
Qed.

Section Masks.
Context (len r s ds : Z).
Context (Hlen : 1 <= len <= 6) (Hr : 0 <= r < 64) (Hs : 0 <= s < 64).
Context (Hds : ds = 32 \/ ds = 64) (Hle : 2 ^ len <= ds).

Local Abbreviation es := (2 ^ len).

Lemma es_bounds : 2 <= es <= 64.
Proof. pose proof (pow2_le 1 len). pose proof (pow2_le len 6). lia. Qed.

Lemma es_divides : (es | ds).
Proof.
  assert (len <= 5 \/ len = 6) as [H5| ->] by lia.
  - assert (es | 32) as H. { exists (2 ^ (5 - len)). rewrite <- Z.pow_add_r by lia.
      replace (5 - len + len) with 5 by lia. done. }
    destruct Hds as [-> | ->]; [done|]. replace 64 with (32 * 2) by lia. by apply Z.divide_mul_l.
  - destruct Hds as [-> | ->]; [simpl in Hle; lia|done].
Qed.

Lemma land_levels x : Z.land x (es - 1) = x mod es.
Proof. rewrite <- Z.land_ones by lia. by rewrite Z.ones_equiv. Qed.

Lemma write_element_bit i :
  0 <= i < es ->
  Z.testbit (rotate_right (ones (s mod es + 1)) (mkBitWidth es) (r mod es)) i =
    ((i + r) mod es <=? s mod es).
Proof.
  intros Hi. pose proof es_bounds. pose proof (Z.mod_pos_bound s es ltac:(lia)).
  rewrite ones_spec by lia.
  rewrite rotate_right_testbit by (unfold wf_width; simpl; lia). cbn [bits].
  rewrite Zplus_mod_idemp_r. pose proof (Z.mod_pos_bound (i + r) es ltac:(lia)).
  rewrite Z.testbit_ones_nonneg by lia. zbits_split; lia.
Qed.

Lemma test_element_bit i :
  0 <= i < es ->
  Z.testbit (ones (Z.land (wrapping_sub 8 (s mod es) (r mod es)) (es - 1) + 1)) i =
    (i <=? (s - r) mod es).
Proof.
  intros Hi. pose proof es_bounds. rewrite land_levels.
  assert (wrapping_sub 8 (s mod es) (r mod es) mod es = (s - r) mod es) as ->.
  { fold (wrap len (wrapping_sub 8 (s mod es) (r mod es))). unfold wrapping_sub.
    rewrite wrap_wrap_le by lia. unfold wrap. by rewrite <- Zminus_mod. }
  pose proof (Z.mod_pos_bound (s - r) es ltac:(lia)).
  rewrite ones_spec, Z.testbit_ones_nonneg by lia. zbits_split; lia.
Qed.

(** Tiling an element whose bit [i] is [f i]. *)
Lemma tile_element element f :
  (forall i, 0 <= i < es -> Z.testbit element i = f i) ->
  exists v, replicate element (mkBitWidth es) (mkBitWidth ds) = Ok v /\ fits ds v /\
    forall i, 0 <= i < ds -> Z.testbit v i = f (i mod es).
Proof.
  intros Hf. pose proof es_bounds.
  destruct (replicate_tiles element (mkBitWidth es) (mkBitWidth ds)) as (v & Hv & Hfit & Hbit).
  - unfold wf_width; simpl; lia.
  - unfold wf_width; simpl; lia.
  - apply es_divides.
  - exists v. split; [done|]. split; [done|]. intros i Hi. simpl in Hbit.
    rewrite Hbit, Hf by (done || (apply Z.mod_pos_bound; lia)). done.
Qed.
End Masks.

Lemma bitmask_key_bounds imm_n imm_s :
  0 <= imm_s < 64 -> 0 <= bitmask_key imm_n imm_s < 128.
Proof. unfold bitmask_key. destruct imm_n; simpl; lia. Qed.

Lemma element_log_le imm_n s : 0 <= s < 64 -> Z.log2 (bitmask_key imm_n s) <= 6.
Proof.
  intros Hs. pose proof (bitmask_key_bounds imm_n s Hs).
  change 6 with (Z.log2 127). apply Z.log2_le_mono. lia.
Qed.

Lemma element_log_ge imm_n s :
  2 <= bitmask_key imm_n s -> 1 <= Z.log2 (bitmask_key imm_n s).
Proof. intros. change 1 with (Z.log2 2). apply Z.log2_le_mono. lia. Qed.

#[export] Instance reserved_bitmask_dec imm_n s ds immediate :
  Decision (reserved_bitmask imm_n s ds immediate).
Proof. unfold reserved_bitmask. apply _. Defined.

(** The decoder's answer on a reserved encoding. *)
Lemma decode_bit_masks_reserved imm_n r s ds immediate :
  0 <= r < 64 -> 0 <= s < 64 -> ds = 32 \/ ds = 64 ->
  reserved_bitmask imm_n s ds immediate ->
  decode_a64_bit_masks imm_n r s ds immediate = Err ReservedEncoding.
Proof.
  intros Hr Hs Hds Hres. unfold decode_a64_bit_masks.
  destruct (Z.leb_spec 64 r), (Z.leb_spec 64 s); try lia. cbn [orb].
  assert (negb ((ds =? 32) || (ds =? 64)) = false) as -> by (by destruct Hds as [-> | ->]).
  pose proof (bitmask_key_bounds imm_n s Hs) as Hk.
  rewrite combined_key, highest_set_bit_log2 by done.
  destruct (Z.eqb_spec (bitmask_key imm_n s) 0); [done|].
  unfold reserved_bitmask, element_bits in Hres. pose proof (element_log_le imm_n s Hs).
  set (len := Z.log2 (bitmask_key imm_n s)) in *.
  destruct (Z.ltb_spec len 1) as [|Hlen1]; [done|].
  rewrite element_shl by lia. destruct (Z.ltb_spec ds (2 ^ len)) as [|Hle]; [done|].
  destruct Hres as [Hlt|[Hlt|[-> He]]]; [|lia|].
  - assert (bitmask_key imm_n s = 1) as Hone by lia. subst len. rewrite Hone in Hlen1. simpl in Hlen1. lia.
  - rewrite land_levels, He, Z.eqb_refl by lia. done.
Qed.

(** The decoder's value on a non-reserved encoding. *)
Lemma decode_bit_masks_ok imm_n r s ds immediate :
  0 <= r < 64 -> 0 <= s < 64 -> ds = 32 \/ ds = 64 ->
  ~ reserved_bitmask imm_n s ds immediate ->
  exists m, decode_a64_bit_masks imm_n r s ds immediate = Ok m /\
    fits ds m.(write_mask) /\ fits ds m.(test_mask) /\
    let es := element_bits imm_n s in
    forall i, 0 <= i < ds ->
      Z.testbit m.(write_mask) i = ((i + r) mod es <=? s mod es) /\
      Z.testbit m.(test_mask) i = (i mod es <=? (s - r) mod es).
Proof.
  intros Hr Hs Hds Hres. unfold reserved_bitmask, element_bits in *.
  set (len := Z.log2 (bitmask_key imm_n s)) in *.
  assert (1 <= len <= 6) as Hlen.
  { split; [apply element_log_ge; lia|by apply element_log_le]. }
  assert (2 ^ len <= ds) as Hle by lia.
  pose proof (es_bounds len Hlen) as Hes.
  destruct (tile_element len ds Hlen Hds Hle _ _ (write_element_bit len r s ds Hlen Hle))
    as (wm & Hwm & Hwf & Hwb).
  destruct (tile_element len ds Hlen Hds Hle _ _ (test_element_bit len r s ds Hlen Hle))
    as (tm & Htm & Htf & Htb).
  exists (mkA64BitMasks wm tm). split; [|split; [done|split; [done|]]].
  - unfold decode_a64_bit_masks.
    destruct (Z.leb_spec 64 r), (Z.leb_spec 64 s); try lia. cbn [orb].
    assert (negb ((ds =? 32) || (ds =? 64)) = false) as -> by (by destruct Hds as [-> | ->]).
    rewrite combined_key, highest_set_bit_log2 by (done || by apply bitmask_key_bounds).
    destruct (Z.eqb_spec (bitmask_key imm_n s) 0); [lia|]. fold len.
    destruct (Z.ltb_spec len 1); [lia|]. rewrite element_shl by done.
    destruct (Z.ltb_spec ds (2 ^ len)); [lia|]. rewrite !land_levels by done.
    assert (immediate && (s mod 2 ^ len =? 2 ^ len - 1) = false) as ->.
    { destruct immediate; [|done]. cbn [andb]. apply Z.eqb_neq. intros ?. apply Hres. auto. }
    unfold BitWidth_new.
    assert ((2 ^ len =? 0) || (128 <? 2 ^ len) = false) as ->.
    { rewrite orb_false_iff, Z.eqb_neq, Z.ltb_ge. lia. }
    assert ((ds =? 0) || (128 <? ds) = false) as -> by (by destruct Hds as [-> | ->]).
    cbn [expect_ok mbind res_bind]. rewrite Hwm. cbn [expect_ok mbind res_bind].
    rewrite <- (land_levels len Hlen (wrapping_sub _ _ _)) in *. rewrite Htm.
    cbn [expect_ok mbind res_bind mret res_ret].
    rewrite !wrap_small by (apply (fits_le ds); done || lia). done.
  - cbv zeta. intros i Hi. cbn [write_mask test_mask]. rewrite Hwb, Htb by done.
    by rewrite Zplus_mod_idemp_l.
Qed.

(** The bit-mask decoder is total on six-bit fields and 32- or 64-bit data
    sizes: it never reaches one of its [expect]s, it rejects exactly the
    encodings the architecture reserves, and otherwise bit [i] of the write
    mask is set exactly when [(i + immr) mod esize <= imms mod esize] and bit
    [i] of the test mask exactly when [i mod esize <= (imms - immr) mod esize]. *)
Theorem decode_bit_masks_correct imm_n r s ds immediate :
  0 <= r < 64 -> 0 <= s < 64 -> ds = 32 \/ ds = 64 ->
  match decode_a64_bit_masks imm_n r s ds immediate with
  | Ok m =>
      ~ reserved_bitmask imm_n s ds immediate /\
      fits ds m.(write_mask) /\ fits ds m.(test_mask) /\
      let es := element_bits imm_n s in
      forall i, 0 <= i < ds ->
        Z.testbit m.(write_mask) i = ((i + r) mod es <=? s mod es) /\
        Z.testbit m.(test_mask) i = (i mod es <=? (s - r) mod es)
  | Err e => e = ReservedEncoding /\ reserved_bitmask imm_n s ds immediate
  | Panic => False
  end.
Proof.
  intros Hr Hs Hds.
  destruct (decide (reserved_bitmask imm_n s ds immediate)) as [Hres|Hres].
  - by rewrite decode_bit_masks_reserved.
  - destruct (decode_bit_masks_ok imm_n r s ds immediate Hr Hs Hds Hres) as (m & -> & ?).
    by split.
Qed.

Lemma decode_bit_masks_correct_witness :
  decode_a64_bit_masks false 0 0x38 64 true = Ok (mkA64BitMasks 0x1111111111111111 0x1111111111111111) /\
  ~ reserved_bitmask false 0x38 64 true.
Proof.
  pose proof (decode_bit_masks_correct false 0 0x38 64 true ltac:(lia) ltac:(lia)
    (or_intror eq_refl)) as H.
  assert (decode_a64_bit_masks false 0 0x38 64 true
    = Ok (mkA64BitMasks 0x1111111111111111 0x1111111111111111)) as E by (vm_compute; reflexivity).
  rewrite E in H. split; [exact E|exact (proj1 H)].
Defined.

(** ** The set of encodable immediates *)

(** [v] is a run of [count] ones rotated right by [rot] inside elements of
    [2^len] bits, repeated over [ds] bits. *)
Definition rotated_run (ds len count rot v : Z) : Prop :=
  1 <= len <= 6 /\ 2 ^ len <= ds /\ 1 <= count < 2 ^ len /\ 0 <= rot < 2 ^ len /\
  fits ds v /\
  forall i, 0 <= i < ds -> Z.testbit v i = ((i + rot) mod 2 ^ len <? count).

Lemma logical_immediate_sound imm_n r s ds v :
  0 <= r < 64 -> 0 <= s < 64 -> ds = 32 \/ ds = 64 ->
  decode_a64_logical_immediate imm_n r s ds = Ok v ->
  exists len count rot, rotated_run ds len count rot v.
Proof.
  intros Hr Hs Hds. unfold decode_a64_logical_immediate.
  destruct (decode_a64_bit_masks imm_n r s ds true) as [m|e|] eqn:E; cbn [mbind res_bind mret res_ret]; try done.
  intros [= <-].
  assert (~ reserved_bitmask imm_n s ds true) as Hres.
  { intros Hres. by rewrite decode_bit_masks_reserved in E. }
  destruct (decode_bit_masks_ok imm_n r s ds true Hr Hs Hds Hres) as (m' & E' & Hf & _ & Hb).
  rewrite E in E'. injection E' as <-.
  unfold reserved_bitmask, element_bits in *. set (len := Z.log2 (bitmask_key imm_n s)) in *.
  assert (1 <= len <= 6) as Hlen.
  { split; [apply element_log_ge; lia|by apply element_log_le]. }
  pose proof (es_bounds len Hlen). pose proof (Z.mod_pos_bound s (2 ^ len) ltac:(lia)).
  exists len, (s mod 2 ^ len + 1), (r mod 2 ^ len).
  split; [done|]. split; [lia|]. split; [lia|]. split; [apply Z.mod_pos_bound; lia|].
  split; [done|]. intros i Hi. destruct (Hb i Hi) as [-> _].
  rewrite Zplus_mod_idemp_r. zbits_split; lia.
Qed.

(** The encoding of a rotated run: the element size is written in the high
    bits of [N:NOT(imms)], the run length minus one in its low bits. *)
Lemma logical_immediate_complete ds len count rot v :
  ds = 32 \/ ds = 64 -> rotated_run ds len count rot v ->
  exists imm_n r s, 0 <= r < 64 /\ 0 <= s < 64 /\
    decode_a64_logical_immediate imm_n r s ds = Ok v.
Proof.
  intros Hds (Hlen & Hle & Hc & Hrot & Hf & Hb). pose proof (es_bounds len Hlen) as Hes.
  set (imm_n := len =? 6).
  set (s := 63 + Z.b2z imm_n * 64 - (2 * 2 ^ len - count)).
  assert (bitmask_key imm_n s = 2 * 2 ^ len - count) as Hkey by (unfold bitmask_key; lia).
  assert (Z.log2 (bitmask_key imm_n s) = len) as Hlog.
  { rewrite Hkey. apply Z.log2_unique; [lia|]. rewrite Z.pow_succ_r by lia. lia. }
  assert (exists q, 64 + Z.b2z imm_n * 64 - 2 * 2 ^ len = q * 2 ^ len /\ 0 <= q) as (q & Hq & Hq0).
  { unfold imm_n. destruct (Z.eqb_spec len 6) as [->|]; simpl.
    - by exists 0.
    - exists (2 ^ (6 - len) - 2). pose proof (pow2_le 1 (6 - len)).
      rewrite Z.mul_sub_distr_r, <- Z.pow_add_r by lia.
      replace (6 - len + len) with 6 by lia. lia. }
  assert (0 <= s < 64) as Hs.
  { split; [unfold s; nia|]. unfold s, imm_n. destruct (Z.eqb_spec len 6) as [->|]; simpl Z.b2z;
      simpl in *; lia. }
  assert (s mod 2 ^ len = count - 1) as Hmod.
  { symmetry. apply (Z.mod_unique s (2 ^ len) q); [lia|]. unfold s. lia. }
  exists imm_n, rot, s. split; [lia|]. split; [done|].
  destruct (decode_bit_masks_ok imm_n rot s ds true) as (m & E & Hfm & _ & Hbm);
    [lia|done|done| |].
  { unfold reserved_bitmask, element_bits. rewrite Hlog, Hmod. lia. }
  unfold decode_a64_logical_immediate. rewrite E. cbn [mbind res_bind mret res_ret].
  f_equal. apply (fits_ext ds); [lia|done|done|]. intros i Hi.
  unfold element_bits in Hbm. rewrite Hlog in Hbm. destruct (Hbm i Hi) as [-> _].
  rewrite Hb, Hmod by done. zbits_split; lia.
Qed.

(** The values that some field combination decodes to as a 32- or 64-bit
    logical immediate are exactly the repeated rotated runs of ones, neither
    empty nor full: every decoded value is one, and every one has an encoding. *)
Theorem logical_immediate_image ds v :
  ds = 32 \/ ds = 64 ->
  (exists imm_n r s, 0 <= r < 64 /\ 0 <= s < 64 /\
     decode_a64_logical_immediate imm_n r s ds = Ok v) <->
  (exists len count rot, rotated_run ds len count rot v).
Proof.
  intros Hds. split.
  - intros (imm_n & r & s & Hr & Hs & E). by apply (logical_immediate_sound imm_n r s).
  - intros (len & count & rot & H). by apply (logical_immediate_complete ds len count rot).
Qed.

Lemma logical_immediate_image_witness :
  exists len count rot, rotated_run 64 len count rot 0x8000000000000000.
Proof.
  apply (logical_immediate_image 64 0x8000000000000000 (or_intror eq_refl)).
  exists true, 1, 0. split; [lia|]. split; [lia|]. vm_compute. reflexivity.
Defined.
