(* ===== verification/Bytes.v ===== *)
(** * Bytes: little-endian integers and slices of byte arrays

    A byte is a [Z] in [0, 256).  [from_le_bytes] and [to_le_bytes] are Rust's
    [uN::from_le_bytes] and [uN::to_le_bytes]; [slice] is [&l[from..from + n]],
    whose range check is left to the caller, and [list_inserts] is
    [copy_from_slice] into such a slice. *)

From Stdlib Require Import ZArith Lia Bool.
From stdpp Require Import base numbers list option.
From S2P Require Import Prelude RustInt.
Local Open Scope Z_scope.

Definition bytes_ok (l : list Z) : Prop := Forall (fits 8) l.

Fixpoint from_le_bytes (l : list Z) : Z :=
  match l with
  | [] => 0
  | b :: l => b + 2 ^ 8 * from_le_bytes l
  end.

Fixpoint to_le_bytes (n : nat) (x : Z) : list Z :=
  match n with
  | O => []
  | S n => wrap 8 x :: to_le_bytes n (x / 2 ^ 8)
  end.

Definition slice {A} (l : list A) (from n : nat) : list A := take n (drop from l).

(** ** Little endian *)

Lemma to_le_bytes_length n x : length (to_le_bytes n x) = n.
Proof. revert x. induction n; simpl; auto. Qed.

Lemma to_le_bytes_ok n x : bytes_ok (to_le_bytes n x).
Proof. revert x. induction n; constructor; [by apply wrap_fits|apply IHn]. Qed.

Lemma from_le_bytes_fits l : bytes_ok l -> fits (8 * Z.of_nat (length l)) (from_le_bytes l).
Proof.
  induction 1 as [|b l Hb _ IH]; [done|]. cbn [from_le_bytes length].
  replace (8 * Z.of_nat (S (length l))) with (8 + 8 * Z.of_nat (length l)) by lia.
  unfold fits in *. rewrite Z.pow_add_r by lia. change (2 ^ 8) with 256 in *. lia.
Qed.

Lemma from_to_le_bytes n x : from_le_bytes (to_le_bytes n x) = wrap (8 * Z.of_nat n) x.
Proof.
  revert x. induction n as [|n IH]; intros x; [symmetry; apply Z.mod_1_r|].
  cbn [from_le_bytes to_le_bytes]. rewrite IH. unfold wrap.
  replace (8 * Z.of_nat (S n)) with (8 + 8 * Z.of_nat n) by lia.
  rewrite Z.pow_add_r by lia. rewrite Z.rem_mul_r; [done|lia|apply pow2_pos; lia].
Qed.

Lemma to_from_le_bytes l : bytes_ok l -> to_le_bytes (length l) (from_le_bytes l) = l.
Proof.
  induction 1 as [|b l Hb _ IH]; [done|]. cbn [from_le_bytes to_le_bytes length].
  f_equal.
  - unfold wrap. rewrite Z.mul_comm, Z.mod_add by done. by apply Z.mod_small.
  - rewrite Z.mul_comm, Z.div_add, Z.div_small by done. done.
Qed.

Lemma from_le_bytes_inj l k :
  bytes_ok l -> bytes_ok k -> length l = length k -> from_le_bytes l = from_le_bytes k -> l = k.
Proof.
  intros Hl Hk Hlen Heq. rewrite <- (to_from_le_bytes l), <- (to_from_le_bytes k) by done.
  by rewrite Hlen, Heq.
Qed.

Lemma from_le_bytes_zeros l n : from_le_bytes (l ++ replicate n 0) = from_le_bytes l.
Proof.
  induction l as [|b l IH]; cbn [app from_le_bytes]; [|by rewrite IH].
  induction n as [|n IH]; cbn [replicate from_le_bytes]; [done|]. rewrite IH. done.
Qed.

(** Bytes of a wider integer, cut to the low [n]. *)
Lemma take_to_le_bytes n m x : (n <= m)%nat -> take n (to_le_bytes m x) = to_le_bytes n x.
Proof.
  revert m x. induction n as [|n IH]; intros m x Hn; [done|].
  destruct m as [|m]; [lia|]. simpl. by rewrite IH by lia.
Qed.

(** ** Slices *)

Section Slices.
Context {A : Type}.
Implicit Types (l k : list A).

Lemma slice_length l from n : (from + n <= length l)%nat -> length (slice l from n) = n.
Proof. intros. unfold slice. rewrite length_take, length_drop. lia. Qed.

Lemma lookup_slice l from n i :
  (i < n)%nat -> slice l from n !! i = l !! (from + i)%nat.
Proof. intros. unfold slice. by rewrite lookup_take_lt, lookup_drop. Qed.

Lemma slice_ext l k from n :
  length l = length k ->
  (forall i, (from <= i < from + n)%nat -> l !! i = k !! i) -> slice l from n = slice k from n.
Proof.
  intros Hlen H. apply list_eq. intros i. destruct (decide (i < n)%nat).
  - rewrite !lookup_slice by done. apply H. lia.
  - unfold slice. rewrite !lookup_take_ge by lia. done.
Qed.

Lemma slice_inserts l from k :
  (from + length k <= length l)%nat -> slice (list_inserts from k l) from (length k) = k.
Proof.
  intros H. apply list_eq. intros i. destruct (decide (i < length k)%nat).
  - rewrite lookup_slice by done. rewrite list_lookup_inserts by lia.
    f_equal. lia.
  - unfold slice. rewrite lookup_take_ge by lia. symmetry. apply lookup_ge_None. lia.
Qed.

Lemma slice_inserts_disjoint l from k from' n :
  (from' + n <= from \/ from + length k <= from')%nat ->
  slice (list_inserts from k l) from' n = slice l from' n.
Proof.
  intros H. apply slice_ext; [apply length_inserts|]. intros i Hi.
  destruct H; [apply list_lookup_inserts_lt|apply list_lookup_inserts_ge]; lia.
Qed.

Lemma slice_app l from n m : slice l from n ++ slice l (from + n) m = slice l from (n + m).
Proof.
  unfold slice. rewrite <- drop_drop, <- (take_take_drop (drop from l) n m). done.
Qed.
End Slices.

Lemma bytes_ok_slice l from n : bytes_ok l -> bytes_ok (slice l from n).
Proof. intros H. by apply Forall_take, Forall_drop. Qed.

Lemma bytes_ok_inserts l from k : bytes_ok l -> bytes_ok k -> bytes_ok (list_inserts from k l).
Proof.
  intros Hl Hk. revert from. induction Hk as [|b k Hb _ IH]; intros from; [done|].
  simpl. apply Forall_insert; [apply IH|done].
Qed.

Lemma bytes_ok_zeros n : bytes_ok (replicate n 0).
Proof. apply Forall_replicate. done. Qed.

(** ** Ranges of byte slices

    Lengths as [Z], [bytes.get(first..last)] and [try_into] an array. *)

Definition len {A} (l : list A) : Z := Z.of_nat (length l).

(** [bytes.get(first..last)]. *)
Definition get_range (bytes : list Z) (first last : Z) : option (list Z) :=
  if (first <=? last) && (last <=? len bytes)
  then Some (slice bytes (Z.to_nat first) (Z.to_nat (last - first))) else None.

(** [value.try_into()] for an array of [n] bytes. *)
Definition try_into (n : nat) (value : list Z) : option (list Z) :=
  if decide (length value = n) then Some value else None.

Lemma len_nonneg {A} (l : list A) : 0 <= len l.
Proof. unfold len. lia. Qed.

Lemma len_nil {A} : len (@nil A) = 0.
Proof. done. Qed.

Lemma len_app {A} (l k : list A) : len (l ++ k) = len l + len k.
Proof. unfold len. rewrite length_app. lia. Qed.

Lemma len_replicate {A} (x : A) n : len (replicate n x) = Z.of_nat n.
Proof. unfold len. by rewrite length_replicate. Qed.

Lemma len_to_le_bytes n v : len (to_le_bytes n v) = Z.of_nat n.
Proof. unfold len. by rewrite to_le_bytes_length. Qed.

(** The bytes after a prefix that is there. *)
Lemma get_range_rest piece rest : get_range (piece ++ rest) (len piece) (len (piece ++ rest)) = Some rest.
Proof.
  unfold get_range. pose proof (len_nonneg rest). rewrite len_app.
  rewrite (proj2 (Z.leb_le (len piece) _)), (proj2 (Z.leb_le _ (len piece + len rest))) by lia. cbn. f_equal.
  unfold slice, len. rewrite Nat2Z.id, drop_app_length. apply take_ge. lia.
Qed.

Lemma get_range_middle a b c first last : first = len a -> last = len a + len b -> get_range (a ++ b ++ c) first last = Some b.
Proof.
  intros -> ->. pose proof (len_nonneg b). pose proof (len_nonneg c). unfold get_range. rewrite !len_app.
  rewrite (proj2 (Z.leb_le (len a) _)), (proj2 (Z.leb_le _ (len a + (len b + len c)))) by lia. cbn. f_equal.
  unfold slice. replace (Z.to_nat (len a)) with (length a) by (unfold len; lia).
  replace (Z.to_nat (len a + len b - len a)) with (length b) by (unfold len; lia).
  by rewrite drop_app_length, take_app_length.
Qed.


(** Clearing the low bits of a word rounds down. *)
Lemma clear_low v k : 0 <= k <= 64 -> 0 <= v < 2 ^ 64 -> Z.land v (not_w 64 (2 ^ k - 1)) = v / 2 ^ k * 2 ^ k.
Proof.
  intros Hk Hv. replace (2 ^ k - 1) with (Z.ones k) by (rewrite Z.ones_equiv; lia).
  rewrite <- Z.shiftr_div_pow2, <- Z.shiftl_mul_pow2 by lia.
  apply Z.bits_inj'. intros i Hi. autorewrite with zbits. zbits_split; cbn; rewrite ?andb_true_r, ?andb_false_r.
  - by rewrite Z.testbit_neg_r by lia.
  - rewrite Z.shiftr_spec by lia. f_equal. lia.
  - by rewrite Z.testbit_neg_r by lia.
  - rewrite Z.shiftr_spec by lia. symmetry. apply (testbit_fits 64); [lia|done|lia].
Qed.
