(* ===== verification/RustList.v ===== *)
(** * Slices and ordered collections

    The parts of [slice] and [BTreeSet] the sources use: binary search on a
    sorted slice, stable sorting, [dedup], and an ordered set as its sorted
    list of elements. *)

From Stdlib Require Import ZArith Lia Bool.
From stdpp Require Import base gmap list sorting numbers.
From S2P Require Import Prelude.

(** ** Strictly sorted lists of integers *)

Fixpoint strictly_sorted (l : list Z) : bool :=
  match l with
  | x :: (y :: _) as l' => (x <? y) && strictly_sorted l'
  | _ => true
  end.

Lemma strictly_sorted_lt l :
  strictly_sorted l = true <-> StronglySorted Z.lt l.
Proof.
  split.
  - intros H. apply Sorted_StronglySorted; [intros x y z; lia|].
    induction l as [|x [|y l] IH]; [by constructor|by repeat constructor|].
    simpl in H. apply andb_true_iff in H as [Hxy Hl]. apply Z.ltb_lt in Hxy.
    constructor; [by apply IH|by constructor].
  - induction l as [|x [|y l] IH]; intros H; [done|done|].
    inversion H as [|? ? Hs Hf]; subst. inversion Hf; subst. simpl.
    apply andb_true_iff. split; [by apply Z.ltb_lt|by apply IH].
Qed.

Lemma strictly_sorted_lookup l i j x y :
  StronglySorted Z.lt l -> l !! i = Some x -> l !! j = Some y -> (i < j)%nat -> x < y.
Proof.
  intros Hs. revert i j. induction Hs as [|a l Hl IH Hf]; intros [|i] [|j]; simpl; try done.
  - lia.
  - intros [= <-] Hj _. rewrite list.Forall_forall in Hf. apply Hf. by eapply list_elem_of_lookup_2.
  - lia.
  - intros Hi Hj Hij. apply (IH i j); [done|done|lia].
Qed.

(** ** [slice::binary_search]

    The loop of the standard library: [size] halves until one candidate is
    left at [base].  Only the [is_ok] of the answer is used. *)
Fixpoint binary_search_loop (fuel : nat) (l : list Z) (x : Z) (base size : nat) : nat :=
  match fuel with
  | O => base
  | S fuel =>
      if (size <=? 1)%nat then base
      else
        let half := (size / 2)%nat in
        let mid := (base + half)%nat in
        let base' :=
          match l !! mid with
          | Some y => if x <? y then base else mid
          | None => base
          end in
        binary_search_loop fuel l x base' (size - half)
  end.

Definition binary_search_is_ok (l : list Z) (x : Z) : bool :=
  match l with
  | [] => false
  | _ =>
      match l !! binary_search_loop (length l) l x 0 (length l) with
      | Some y => y =? x
      | None => false
      end
  end.

Lemma binary_search_loop_finds fuel l x base size i :
  StronglySorted Z.lt l -> l !! i = Some x ->
  (base <= i < base + size)%nat -> (base + size <= length l)%nat -> (size <= S fuel)%nat ->
  binary_search_loop fuel l x base size = i.
Proof.
  intros Hs Hi. revert base size. induction fuel as [|fuel IH]; intros base size Hb Hl Hf; cbn [binary_search_loop]; [lia|].
  destruct (Nat.leb_spec size 1); [lia|].
  assert (1 <= size / 2 < size)%nat as Hhalf.
  { split; [apply Nat.div_le_lower_bound; lia|apply Nat.div_lt; lia]. }
  set (half := (size / 2)%nat) in *.
  destruct (lookup_lt_is_Some_2 l (base + half)) as [y Hy]; [lia|]. rewrite Hy.
  destruct (Z.ltb_spec x y).
  - assert (i < base + half)%nat.
    { destruct (Nat.lt_ge_cases i (base + half)) as [|Hge]; [done|].
      destruct (decide (i = base + half)%nat) as [->|]; [rewrite Hi in Hy; injection Hy; lia|].
      pose proof (strictly_sorted_lookup l _ _ _ _ Hs Hy Hi). lia. }
    assert (half <= size - half)%nat.
    { unfold half. pose proof (Nat.Div0.mul_div_le size 2). lia. }
    apply IH; lia.
  - assert (base + half <= i)%nat.
    { destruct (Nat.lt_ge_cases i (base + half)) as [Hlt|]; [|done].
      pose proof (strictly_sorted_lookup l _ _ _ _ Hs Hi Hy Hlt). lia. }
    apply IH; lia.
Qed.

Lemma binary_search_spec l x :
  StronglySorted Z.lt l -> binary_search_is_ok l x = true <-> x ∈ l.
Proof.
  intros Hs. destruct l as [|a l']; [split; [done|by intros ?%elem_of_nil]|].
  unfold binary_search_is_ok. set (l := a :: l') in *. split.
  - destruct (l !! _) as [y|] eqn:E; [|done]. intros ->%Z.eqb_eq.
    by eapply list_elem_of_lookup_2.
  - intros [i Hi]%list_elem_of_lookup.
    rewrite (binary_search_loop_finds _ l x 0 (length l) i); try done.
    + rewrite Hi. apply Z.eqb_refl.
    + apply lookup_lt_Some in Hi. lia.
    + lia.
Qed.

(** ** [sort_by_key] (stable), [sort_unstable] on integers, and [dedup] *)

Section Sort.
Context {A : Type} (key : A -> Z).

Fixpoint insert_by_key (x : A) (l : list A) : list A :=
  match l with
  | [] => [x]
  | y :: l' => if key x <=? key y then x :: l else y :: insert_by_key x l'
  end.

Definition sort_by_key (l : list A) : list A := foldr insert_by_key [] l.

Lemma insert_by_key_perm x l : insert_by_key x l ≡ₚ x :: l.
Proof.
  induction l as [|y l IH]; simpl; [done|]. destruct (_ <=? _); [done|].
  rewrite IH. by apply Permutation_swap.
Qed.

Lemma sort_by_key_perm l : sort_by_key l ≡ₚ l.
Proof. induction l as [|x l IH]; simpl; [done|]. by rewrite insert_by_key_perm, IH. Qed.

Lemma insert_by_key_sorted x l :
  StronglySorted (fun a b => key a <= key b) l ->
  StronglySorted (fun a b => key a <= key b) (insert_by_key x l).
Proof.
  induction 1 as [|y l Hl IH Hf]; simpl; [by repeat constructor|].
  destruct (Z.leb_spec (key x) (key y)).
  - constructor; [by constructor|]. constructor; [done|].
    eapply list.Forall_impl; [done|]. simpl. lia.
  - constructor; [done|]. rewrite insert_by_key_perm. constructor; [lia|done].
Qed.

Lemma sort_by_key_sorted l : StronglySorted (fun a b => key a <= key b) (sort_by_key l).
Proof. induction l; simpl; [constructor|]. by apply insert_by_key_sorted. Qed.

Lemma insert_by_key_filter p x l :
  StronglySorted (fun a b => key a <= key b) l ->
  List.filter p (insert_by_key x l) =
  if p x then insert_by_key x (List.filter p l) else List.filter p l.
Proof.
  induction 1 as [|y l Hl IH Hf]; simpl; [by destruct (p x)|].
  destruct (Z.leb_spec (key x) (key y)) as [Hle|Hgt]; simpl.
  - destruct (p x), (p y) eqn:Hy; simpl; try done.
    + by destruct (Z.leb_spec (key x) (key y)); [|lia].
    + clear IH Hl. induction l as [|z l IH]; simpl; [done|]. inversion Hf; subst.
      destruct (p z); simpl; [|by apply IH]. by destruct (Z.leb_spec (key x) (key z)); [|lia].
  - rewrite IH. destruct (p y), (p x); simpl; try done.
    by destruct (Z.leb_spec (key x) (key y)); [lia|].
Qed.

(** A stable sort commutes with dropping elements. *)
Lemma sort_by_key_filter p l :
  List.filter p (sort_by_key l) = sort_by_key (List.filter p l).
Proof.
  induction l as [|x l IH]; [done|].
  change (sort_by_key (x :: l)) with (insert_by_key x (sort_by_key l)).
  rewrite insert_by_key_filter by apply sort_by_key_sorted. rewrite IH. simpl.
  by destruct (p x).
Qed.
End Sort.

(** Sorting two related lists by agreeing keys keeps them related. *)
Lemma sort_by_key_Forall2 {A B} (R : A -> B -> Prop) (f : A -> Z) (g : B -> Z) l l' :
  (forall a b, R a b -> f a = g b) ->
  Forall2 R l l' -> Forall2 R (sort_by_key f l) (sort_by_key g l').
Proof.
  intros Hk. induction 1 as [|a b l l' Hab _ IH]; [constructor|].
  change (sort_by_key f (a :: l)) with (insert_by_key f a (sort_by_key f l)).
  change (sort_by_key g (b :: l')) with (insert_by_key g b (sort_by_key g l')).
  induction IH as [|x y m m' Hxy Hm IH']; simpl; [by constructor; [|constructor]|].
  rewrite (Hk _ _ Hab), (Hk _ _ Hxy). case_match; repeat (constructor; try done).
Qed.

(** [Vec::dedup]: drops an element equal to the one kept before it. *)
Fixpoint dedup (l : list Z) : list Z :=
  match l with
  | x :: (y :: _) as l' => if x =? y then dedup l' else x :: dedup l'
  | _ => l
  end.

Lemma dedup_elem_of l x : x ∈ dedup l <-> x ∈ l.
Proof.
  induction l as [|a [|b l] IH]; simpl; [done|done|].
  destruct (Z.eqb_spec a b) as [->|].
  - rewrite IH, !elem_of_cons. tauto.
  - rewrite elem_of_cons, IH, !elem_of_cons. done.
Qed.

Lemma dedup_sorted l : StronglySorted Z.le l -> StronglySorted Z.lt (dedup l).
Proof.
  induction l as [|a [|b l] IH]; intros Hs; simpl; [constructor|by repeat constructor|].
  inversion Hs as [|? ? Hl Hf]; subst. destruct (Z.eqb_spec a b) as [|Hne]; [by apply IH|].
  constructor; [by apply IH|]. apply list.Forall_forall. intros y Hy.
  apply (dedup_elem_of (b :: l)) in Hy.
  inversion Hf; subst. inversion Hl as [|? ? _ Hfb]; subst. rewrite list.Forall_forall in Hfb.
  apply elem_of_cons in Hy as [->|Hy]; [lia|]. specialize (Hfb y Hy). lia.
Qed.

(** ** Maps in key order *)

(** A [BTreeMap] read in key order. *)
Definition in_key_order {A} (m : gmap Z A) : list (Z * A) := sort_by_key fst (map_to_list m).

Lemma in_key_order_elem {A} (m : gmap Z A) p a : (p, a) ∈ in_key_order m <-> m !! p = Some a.
Proof. unfold in_key_order. rewrite sort_by_key_perm. apply elem_of_map_to_list. Qed.

Lemma in_key_order_key {A} (m : gmap Z A) p : p ∈ (in_key_order m).*1 <-> is_Some (m !! p).
Proof.
  rewrite list_elem_of_fmap. split.
  - intros ([q a] & -> & Hin). exists a. by apply in_key_order_elem.
  - intros [a Ha]. exists (p, a). split; [done|]. by apply in_key_order_elem.
Qed.

Lemma in_key_order_filter {A} (m : gmap Z A) i :
  base.filter (fun c => c.1 = i) (in_key_order m) = match m !! i with Some a => [(i, a)] | None => [] end.
Proof.
  assert (NoDup (in_key_order m)) as Hnd by (unfold in_key_order; rewrite sort_by_key_perm; apply NoDup_map_to_list).
  pose proof (list.NoDup_filter (fun c => c.1 = i) _ Hnd) as Hf.
  assert (forall c, c ∈ base.filter (fun c => c.1 = i) (in_key_order m) <-> c.1 = i /\ m !! i = Some c.2) as Hin.
  { intros [j a]. rewrite list_elem_of_filter, in_key_order_elem. cbn. split; intros [-> ?]; done. }
  destruct (base.filter _ _) as [|c l].
  - destruct (m !! i) as [a|]; [|done]. assert ((i, a) ∈ @nil (Z * A)) as H%not_elem_of_nil by (by apply Hin). done.
  - destruct (proj1 (Hin c)) as [Hi Hm]; [left|]. rewrite Hm. destruct c as [j a]; cbn in *; subst j. f_equal.
    destruct l as [|d l]; [done|]. destruct (proj1 (Hin d)) as [Hj Hd]; [right; left|].
    destruct d as [j b]; cbn in *; subst. replace b with a in Hf by congruence.
    apply list.NoDup_cons in Hf as [Hf _]. destruct Hf. left.
Qed.
