(* ===== verification/Lifecycle.v ===== *)
(** * Process and thread lifecycles

    [crates/scheduler/src/lifecycle.rs]: the two lifecycle enumerations and
    their table-driven transition functions, as computations on the [&mut]
    lifecycle they receive. *)

From Stdlib Require Import ZArith Bool.
From stdpp Require Import base decidable tactics.
From S2P Require Import Prelude.

Inductive LifecycleTransitionError (S : Type) : Type :=
  | Duplicate (state : S)
  | Illegal (current target : S).
Arguments Duplicate {S} state.
Arguments Illegal {S} current target.

Module Process.

Inductive ProcessLifecycle : Set :=
  | Created | Running | Terminating | Exited | Faulted.

#[export] Instance ProcessLifecycle_eq_dec : EqDecision ProcessLifecycle.
Proof. solve_decision. Defined.

Definition transition_process (target : ProcessLifecycle) :
    M ProcessLifecycle (LifecycleTransitionError ProcessLifecycle) unit :=
  fun state =>
    if bool_decide (state = target) then (state, Err (Duplicate target))
    else
      let allowed :=
        match state, target with
        | Created, Running
        | Created, Terminating
        | Created, Faulted
        | Running, Terminating
        | Running, Faulted
        | Terminating, Exited => true
        | _, _ => false
        end in
      if negb allowed then (state, Err (Illegal state target))
      else (target, Ok tt).

(** How far a process has got; [Exited] and [Faulted] are final. *)
Definition process_rank (s : ProcessLifecycle) : Z :=
  match s with Created => 0 | Running => 1 | Terminating => 2 | Exited | Faulted => 3 end.

End Process.

Inductive ThreadLifecycle : Set :=
  | Created | Ready | Running | Waiting | Preempted | Suspended
  | Terminating | Exited | Faulted.

#[export] Instance ThreadLifecycle_eq_dec : EqDecision ThreadLifecycle.
Proof. solve_decision. Defined.

Definition transition_thread (target : ThreadLifecycle) :
    M ThreadLifecycle (LifecycleTransitionError ThreadLifecycle) unit :=
  fun state =>
    if bool_decide (state = target) then (state, Err (Duplicate target))
    else
      let allowed :=
        match state, target with
        | Created, Ready
        | Created, Terminating
        | Ready, Running
        | Ready, Terminating
        | Ready, Suspended
        | Running, Ready
        | Running, Waiting
        | Running, Preempted
        | Running, Terminating
        | Running, Faulted
        | Waiting, Ready
        | Waiting, Terminating
        | Waiting, Faulted
        | Preempted, Ready
        | Preempted, Running
        | Preempted, Terminating
        | Suspended, Ready
        | Suspended, Terminating
        | Terminating, Exited => true
        | _, _ => false
        end in
      if negb allowed then (state, Err (Illegal state target))
      else (target, Ok tt).

(** A transition that the caller has already taken, as a relation. *)
Definition thread_step (a b : ThreadLifecycle) : Prop := transition_thread b a = (b, Ok tt).

#[export] Instance thread_step_dec a b : Decision (thread_step a b).
Proof.
  unfold thread_step. destruct (transition_thread b a) as [c [[]|e|]]; [|right; congruence..].
  destruct (decide (c = b)) as [->|]; [by left|right; congruence].
Defined.

Definition terminal (s : ThreadLifecycle) : bool :=
  match s with Exited | Faulted => true | _ => false end.

(** A process lifecycle only ever moves forward: an accepted transition
    lands on its target and strictly increases the stage of the process
    (created, running, terminating, then exited or faulted), and a rejected one
    leaves the lifecycle untouched, naming a duplicate exactly when the target
    is the current state. *)
Theorem transition_process_progress (state target : Process.ProcessLifecycle) :
  match Process.transition_process target state with
  | (state', Ok _) =>
      state' = target /\ Process.process_rank state < Process.process_rank target
  | (state', Err e) =>
      state' = state /\
      (e = Duplicate target <-> state = target) /\
      (state <> target -> e = Illegal state target)
  | (_, Panic) => False
  end.
Proof. by destruct state, target; vm_compute; repeat split. Qed.

(** The transitions the scheduler takes without a check of its own. *)
Lemma transition_final a target : terminal a = true -> ~ thread_step a target.
Proof. by destruct a, target. Qed.

(** [transition_thread] either reaches its target or changes nothing. *)
Lemma transition_thread_cases a target :
  (thread_step a target /\ transition_thread target a = (target, Ok tt)) \/
  (~ thread_step a target /\ exists e, transition_thread target a = (a, Err e)).
Proof.
  unfold thread_step.
  destruct a, target; vm_compute; first [by left|right; split; [done|by eexists]].
Qed.
