(* ===== verification/Topology.v ===== *)
(** * Machine topology

    [crates/scheduler/src/topology.rs]: priority ranges, virtual CPU
    descriptors, the machine profile and the core sets checked against it.
    Identities ([crates/scheduler/src/identity.rs]) are their raw integers. *)

From Stdlib Require Import ZArith Lia Bool.
From stdpp Require Import base decidable tactics list sorting sets.
From S2P Require Import Prelude RustList.

Definition ProcessId : Type := Z.
Definition GuestThreadId : Type := Z.
Definition VirtualCpuId : Type := Z.
Definition SchedulerSequence : Type := Z.
Definition WakeGeneration : Type := Z.
Definition LeaseGeneration : Type := Z.

Inductive MachineSchedulerProfileError : Type :=
  | EmptyTopology
  | DuplicateVirtualCpu (id : VirtualCpuId)
  | InvalidPriorityRange (highest lowest : Z)
  | ZeroTimeslice.

Inductive CoreSetError : Type :=
  | Empty
  | UnknownVirtualCpu (id : VirtualCpuId).

Record PriorityRange := { highest : Z; lowest : Z }.

Definition PriorityRange_new (high low : Z) : res MachineSchedulerProfileError PriorityRange :=
  if high >? low then Err (InvalidPriorityRange high low)
  else Ok {| highest := high; lowest := low |}.

Definition priority_contains (r : PriorityRange) (priority : Z) : bool :=
  (priority >=? highest r) && (priority <=? lowest r).

Record VirtualCpuDescriptor := { descriptor_id : VirtualCpuId; cluster : Z }.

Record MachineSchedulerProfile := {
  profile_vcpus : list VirtualCpuDescriptor;
  priorities : PriorityRange;
  default_timeslice_instructions : Z
}.

(** [vcpus.windows(2).find(|pair| pair[0].id() == pair[1].id())]. *)
Fixpoint duplicate_window (vcpus : list VirtualCpuDescriptor) : option VirtualCpuId :=
  match vcpus with
  | a :: (b :: _) as rest =>
      if descriptor_id a =? descriptor_id b then Some (descriptor_id a)
      else duplicate_window rest
  | _ => None
  end.

Definition MachineSchedulerProfile_new (vcpus : list VirtualCpuDescriptor)
    (range : PriorityRange) (timeslice : Z) :
    res MachineSchedulerProfileError MachineSchedulerProfile :=
  match vcpus with
  | [] => Err EmptyTopology
  | _ =>
      if timeslice =? 0 then Err ZeroTimeslice
      else
        let sorted := sort_by_key descriptor_id vcpus in
        match duplicate_window sorted with
        | Some duplicate => Err (DuplicateVirtualCpu duplicate)
        | None =>
            Ok {| profile_vcpus := sorted; priorities := range;
                  default_timeslice_instructions := timeslice |}
        end
  end.

Definition vcpu_ids (p : MachineSchedulerProfile) : list VirtualCpuId :=
  map descriptor_id (profile_vcpus p).

Definition profile_contains (p : MachineSchedulerProfile) (id : VirtualCpuId) : bool :=
  binary_search_is_ok (vcpu_ids p) id.

Record CoreSet := { cores : list VirtualCpuId }.

Definition all_cores (p : MachineSchedulerProfile) : CoreSet := {| cores := vcpu_ids p |}.

Definition CoreSet_new (p : MachineSchedulerProfile) (ids : list VirtualCpuId) :
    res CoreSetError CoreSet :=
  let ids := dedup (sort_by_key id ids) in
  match ids with
  | [] => Err Empty
  | _ =>
      match List.find (fun core => negb (profile_contains p core)) ids with
      | Some core => Err (UnknownVirtualCpu core)
      | None => Ok {| cores := ids |}
      end
  end.

Definition core_set (p : MachineSchedulerProfile) (ids : list VirtualCpuId) :
    res CoreSetError CoreSet := CoreSet_new p ids.

Definition core_contains (c : CoreSet) (id : VirtualCpuId) : bool :=
  binary_search_is_ok (cores c) id.

(** ** The invariants the constructors establish *)

Definition profile_wf (p : MachineSchedulerProfile) : Prop :=
  vcpu_ids p <> [] /\ StronglySorted Z.lt (vcpu_ids p) /\
  default_timeslice_instructions p <> 0.

Definition CoreSet_wf (c : CoreSet) : Prop :=
  cores c <> [] /\ StronglySorted Z.lt (cores c).

Lemma duplicate_window_none l :
  StronglySorted (fun a b => descriptor_id a <= descriptor_id b) l ->
  duplicate_window l = None -> StronglySorted Z.lt (map descriptor_id l).
Proof.
  intros Hs Hd. apply strictly_sorted_lt. revert Hs Hd.
  induction l as [|a [|b l] IH]; intros Hs Hd; [done|done|].
  inversion Hs as [|? ? Hl Hf]; subst. inversion Hf; subst. simpl in Hd.
  destruct (Z.eqb_spec (descriptor_id a) (descriptor_id b)) as [|Hne]; [done|].
  change (map descriptor_id (a :: b :: l)) with (descriptor_id a :: map descriptor_id (b :: l)).
  specialize (IH Hl Hd). simpl in *. rewrite IH, andb_true_r. apply Z.ltb_lt. lia.
Qed.

Lemma duplicate_window_some l d :
  duplicate_window l = Some d -> ~ NoDup (map descriptor_id l).
Proof.
  induction l as [|a [|b l] IH]; intros Hd; [done|done|]. simpl in Hd.
  destruct (Z.eqb_spec (descriptor_id a) (descriptor_id b)) as [He|Hne].
  - intros [Hn _]%NoDup_cons. apply Hn. simpl. rewrite He. left.
  - intros [_ Hn]%NoDup_cons. by apply IH.
Qed.

Lemma profile_contains_spec p id :
  profile_wf p -> profile_contains p id = true <-> id ∈ vcpu_ids p.
Proof. intros (_ & Hs & _). by apply binary_search_spec. Qed.

Lemma core_contains_spec c id :
  CoreSet_wf c -> core_contains c id = true <-> id ∈ cores c.
Proof. intros [_ Hs]. by apply binary_search_spec. Qed.

Lemma find_unknown_none p ids :
  List.find (fun core => negb (profile_contains p core)) ids = None ->
  Forall (fun core => profile_contains p core = true) ids.
Proof.
  induction ids as [|a ids IH]; simpl; [done|].
  destruct (profile_contains p a) eqn:E; simpl; [|done]. intros. constructor; auto.
Qed.

Lemma find_unknown_some p ids core :
  List.find (fun core => negb (profile_contains p core)) ids = Some core ->
  core ∈ ids /\ profile_contains p core = false.
Proof. intros [Hin Hc]%find_some. rewrite list_elem_of_In. by apply negb_true_iff in Hc. Qed.

Lemma all_cores_wf p : profile_wf p -> CoreSet_wf (all_cores p).
Proof. by intros (? & ? & ?). Qed.

Lemma sorted_ids_wf ids :
  dedup (sort_by_key id ids) <> [] -> CoreSet_wf {| cores := dedup (sort_by_key id ids) |}.
Proof.
  intros. split; [done|]. apply dedup_sorted. apply (sort_by_key_sorted (A := Z) (fun z => z)).
Qed.

Lemma sorted_ids_elem ids x : x ∈ dedup (sort_by_key id ids) <-> x ∈ ids.
Proof. rewrite dedup_elem_of. by rewrite sort_by_key_perm. Qed.

(** The topology constructor decides its input: an empty list, a zero
    timeslice and a repeated virtual CPU are rejected in that order, and every
    accepted profile is well formed (strictly sorted identities) and holds
    exactly the descriptors it was given, with [contains] deciding membership. *)
Theorem profile_new_decides vcpus range timeslice :
  match MachineSchedulerProfile_new vcpus range timeslice with
  | Ok p =>
      profile_wf p /\ profile_vcpus p ≡ₚ vcpus /\ priorities p = range /\
      default_timeslice_instructions p = timeslice /\
      (forall id, profile_contains p id = true <-> id ∈ map descriptor_id vcpus)
  | Err EmptyTopology => vcpus = []
  | Err ZeroTimeslice => vcpus <> [] /\ timeslice = 0
  | Err (DuplicateVirtualCpu _) =>
      vcpus <> [] /\ timeslice <> 0 /\ ~ NoDup (map descriptor_id vcpus)
  | Err (InvalidPriorityRange _ _) => False
  | Panic => False
  end.
Proof.
  unfold MachineSchedulerProfile_new. destruct vcpus as [|v vcpus']; [done|].
  set (vcpus := v :: vcpus'). destruct (Z.eqb_spec timeslice 0); [done|].
  pose proof (sort_by_key_perm descriptor_id vcpus) as Hp.
  destruct (duplicate_window _) as [d|] eqn:Hd; cbn [is_ok].
  - split; [done|]. split; [done|]. apply duplicate_window_some in Hd.
    intros Hn. apply Hd. by rewrite Hp.
  - set (p := {| profile_vcpus := _ |}).
    assert (profile_wf p) as Hwf.
    { split; [|split; [|done]].
      - unfold vcpu_ids, p; cbn [profile_vcpus]. intros Hnil%map_eq_nil. rewrite Hnil in Hp.
        by apply Permutation_nil in Hp.
      - apply duplicate_window_none; [apply sort_by_key_sorted|done]. }
    split_and!; try done. intros id. rewrite profile_contains_spec by done.
    unfold vcpu_ids, p; cbn [profile_vcpus]. by rewrite Hp.
Qed.

(** Core sets are checked by identity: against a well-formed profile,
    [CoreSet::new] accepts a non-empty collection of its virtual CPUs exactly,
    and the accepted set is sorted, has no duplicates and [contains] exactly
    the requested identities; a rejection names an identity that was requested
    and is not in the topology. *)
Theorem core_set_checked p ids :
  profile_wf p ->
  match CoreSet_new p ids with
  | Ok c =>
      CoreSet_wf c /\ ids <> [] /\
      (forall id, core_contains c id = true <-> id ∈ ids) /\
      (forall id, id ∈ ids -> profile_contains p id = true)
  | Err Empty => ids = []
  | Err (UnknownVirtualCpu id) => id ∈ ids /\ profile_contains p id = false
  | Panic => False
  end.
Proof.
  intros Hp. unfold CoreSet_new. pose proof (sorted_ids_elem ids) as Hel.
  destruct (dedup (sort_by_key id ids)) as [|a l] eqn:Hl.
  - destruct ids as [|i ids]; [done|]. specialize (Hel i). set_solver.
  - destruct (List.find _ _) as [core|] eqn:Hf.
    + apply find_unknown_some in Hf as [Hin Hc]. by rewrite Hel in Hin.
    + apply find_unknown_none in Hf.
      assert (CoreSet_wf {| cores := a :: l |}) as Hwf.
      { rewrite <- Hl. apply sorted_ids_wf. by rewrite Hl. }
      split_and!; [done| |..].
      * intros ->. specialize (Hel a). set_solver.
      * intros id. rewrite core_contains_spec by done. apply Hel.
      * intros id Hid. apply Hel in Hid. rewrite list.Forall_forall in Hf. by apply Hf.
Qed.

Lemma core_set_checked_witness :
  let p := {| profile_vcpus := [{| descriptor_id := 2; cluster := 0 |};
                                {| descriptor_id := 9; cluster := 1 |}];
              priorities := {| highest := -4; lowest := 12 |};
              default_timeslice_instructions := 1 |} in
  CoreSet_new p [9; 2; 9] = Ok {| cores := [2; 9] |} /\
  core_contains {| cores := [2; 9] |} 9 = true.
Proof.
  intros p. assert (profile_wf p) as Hp.
  { split; [done|]. split; [|done]. by apply strictly_sorted_lt. }
  pose proof (core_set_checked p [9; 2; 9] Hp) as H.
  change (CoreSet_new p [9; 2; 9]) with (@Ok CoreSetError CoreSet {| cores := [2; 9] |}) in *.
  split; [reflexivity|]. destruct H as (_ & _ & Hc & _). apply Hc. left.
Defined.
