(* ===== verification/Scheduler.v ===== *)
(** * The guest-thread scheduler

    [crates/scheduler/src/scheduler.rs]: the scheduler state machine, one
    definition per handler.  [&mut self] handlers are computations in
    [M SchedulerState SchedulerError]; [expect] and [debug_assert!] are
    [Panic], so that their absence is something to prove.  [BTreeMap]s are
    [gmap]s read in key order, [BTreeSet<ReadyKey>] is the sorted list of its
    elements. *)

From Stdlib Require Import ZArith Lia Bool.
From stdpp Require Import base decidable tactics gmap list sorting.
From S2P Require Import Prelude RustInt RustList Lifecycle Topology.

Record ScheduledThreadConfig := {
  process : ProcessId;
  thread : GuestThreadId;
  base_priority : Z;
  effective_priority : Z;
  ideal_vcpu : option VirtualCpuId;
  affinity : CoreSet
}.

Record Lease := {
  lease_process : ProcessId;
  lease_thread : GuestThreadId;
  lease_vcpu : VirtualCpuId;
  lease_generation : LeaseGeneration
}.

Record WakeToken := {
  token_thread : GuestThreadId;
  token_generation : WakeGeneration
}.

#[export] Instance Lease_eq_dec : EqDecision Lease.
Proof. solve_decision. Defined.
#[export] Instance WakeToken_eq_dec : EqDecision WakeToken.
Proof. solve_decision. Defined.

Record ScheduledThreadView := {
  view_process : ProcessId;
  view_thread : GuestThreadId;
  view_lifecycle : ThreadLifecycle;
  view_base_priority : Z;
  view_effective_priority : Z;
  view_ideal_vcpu : option VirtualCpuId;
  view_affinity : CoreSet;
  view_last_vcpu : option VirtualCpuId;
  view_paused : bool;
  view_active_wait : option WakeToken
}.

Inductive Readiness : Set := ReadyNow | Pending.

Inductive Completion : Set :=
  | CompletionReady | CompletionPreempted | CompletionWaiting
  | CompletionExited | CompletionFaulted.

Inductive MigrationEffect : Type :=
  | NoEffect
  | ClearOldLocalExclusive (old_vcpu : VirtualCpuId).

Inductive SchedulerCommand : Type :=
  | Register (config : ScheduledThreadConfig)
  | Unregister (thread : GuestThreadId)
  | MakeReady (thread : GuestThreadId)
  | SelectNext
  | Select (vcpu : VirtualCpuId)
  | Complete (lease : Lease) (outcome : Completion)
  | RegisterWait (thread : GuestThreadId) (readiness : Readiness)
  | Wake (token : WakeToken)
  | CancelWait (token : WakeToken)
  | Terminate (thread : GuestThreadId) (faulted : bool)
  | Migrate (thread : GuestThreadId) (ideal_vcpu : option VirtualCpuId) (affinity : CoreSet)
  | SetPriority (thread : GuestThreadId) (priority : Z)
  | SetEffectivePriority (thread : GuestThreadId) (priority : Z)
  | SetActivity (thread : GuestThreadId) (paused : bool).

Inductive SchedulerDecision : Type :=
  | Registered (thread : GuestThreadId)
  | Unregistered (thread : GuestThreadId)
  | Enqueued (thread : GuestThreadId) (sequence : SchedulerSequence)
  | Selected (lease : option Lease)
  | Completed (thread : GuestThreadId)
  | WaitRegistered (token : WakeToken)
  | ReadyImmediately (thread : GuestThreadId)
  | Woken (thread : GuestThreadId)
  | WaitCancelled (thread : GuestThreadId)
  | Terminated (thread : GuestThreadId)
  | Migrated (thread : GuestThreadId) (effect : MigrationEffect)
  | PriorityChanged (thread : GuestThreadId)
  | ActivityChanged (thread : GuestThreadId).

Inductive SchedulerError : Type :=
  | DuplicateThread (thread : GuestThreadId)
  | UnknownThread (thread : GuestThreadId)
  | UnknownVcpu (vcpu : VirtualCpuId)
  | InvalidPriority (priority : Z)
  | IdealOutsideAffinity (thread : GuestThreadId) (ideal : VirtualCpuId)
  | InvalidThreadState (thread : GuestThreadId) (state : ThreadLifecycle)
  | ThreadLeased (thread : GuestThreadId)
  | VirtualCpuBusy (vcpu : VirtualCpuId)
  | StaleLease (lease : Lease)
  | DuplicateWait (thread : GuestThreadId)
  | StaleWake (token : WakeToken)
  | SequenceExhausted
  | LeaseGenerationExhausted
  | WakeGenerationExhausted.

(** ** Ready keys, ordered lexicographically as [derive(Ord)] orders them *)

Record ReadyKey := {
  key_priority : Z;
  key_sequence : SchedulerSequence;
  key_thread : GuestThreadId
}.

#[export] Instance ReadyKey_eq_dec : EqDecision ReadyKey.
Proof. solve_decision. Defined.

Definition key_compare (a b : ReadyKey) : comparison :=
  match Z.compare (key_priority a) (key_priority b) with
  | Eq =>
      match Z.compare (key_sequence a) (key_sequence b) with
      | Eq => Z.compare (key_thread a) (key_thread b)
      | c => c
      end
  | c => c
  end.

(** [BTreeSet::insert], with whether the key was new, and [BTreeSet::remove]. *)
Fixpoint ready_insert (k : ReadyKey) (l : list ReadyKey) : list ReadyKey * bool :=
  match l with
  | [] => ([k], true)
  | x :: l' =>
      match key_compare k x with
      | Lt => (k :: l, true)
      | Eq => (l, false)
      | Gt => let '(r, b) := ready_insert k l' in (x :: r, b)
      end
  end.

Fixpoint ready_remove (k : ReadyKey) (l : list ReadyKey) : list ReadyKey * bool :=
  match l with
  | [] => ([], false)
  | x :: l' =>
      match key_compare k x with
      | Lt => (l, false)
      | Eq => (l', true)
      | Gt => let '(r, b) := ready_remove k l' in (x :: r, b)
      end
  end.

(** ** State *)

Record ScheduledThread := {
  config : ScheduledThreadConfig;
  lifecycle : ThreadLifecycle;
  ready_key : option ReadyKey;
  active_lease : option Lease;
  active_wait : option WakeToken;
  last_vcpu : option VirtualCpuId
}.

Record VirtualCpuSlot := { slot_lease : option Lease }.

Record SchedulerState := {
  profile : MachineSchedulerProfile;
  threads : gmap GuestThreadId ScheduledThread;
  ready : list ReadyKey;
  vcpus : gmap VirtualCpuId VirtualCpuSlot;
  next_sequence : Z;
  next_lease_generation : Z;
  next_wake_generation : Z
}.

Definition Sched : Type -> Type := M SchedulerState SchedulerError.

(** Field updates. *)
Definition with_threads f (s : SchedulerState) : SchedulerState :=
  {| profile := profile s; threads := f (threads s); ready := ready s; vcpus := vcpus s;
     next_sequence := next_sequence s; next_lease_generation := next_lease_generation s;
     next_wake_generation := next_wake_generation s |}.
Definition with_ready r (s : SchedulerState) : SchedulerState :=
  {| profile := profile s; threads := threads s; ready := r; vcpus := vcpus s;
     next_sequence := next_sequence s; next_lease_generation := next_lease_generation s;
     next_wake_generation := next_wake_generation s |}.
Definition with_vcpus f (s : SchedulerState) : SchedulerState :=
  {| profile := profile s; threads := threads s; ready := ready s; vcpus := f (vcpus s);
     next_sequence := next_sequence s; next_lease_generation := next_lease_generation s;
     next_wake_generation := next_wake_generation s |}.
Definition with_counters sq lg wg (s : SchedulerState) : SchedulerState :=
  {| profile := profile s; threads := threads s; ready := ready s; vcpus := vcpus s;
     next_sequence := sq; next_lease_generation := lg; next_wake_generation := wg |}.

Definition set_lifecycle l (t : ScheduledThread) : ScheduledThread :=
  {| config := config t; lifecycle := l; ready_key := ready_key t;
     active_lease := active_lease t; active_wait := active_wait t; last_vcpu := last_vcpu t |}.
Definition set_ready_key k (t : ScheduledThread) : ScheduledThread :=
  {| config := config t; lifecycle := lifecycle t; ready_key := k;
     active_lease := active_lease t; active_wait := active_wait t; last_vcpu := last_vcpu t |}.
Definition set_active_lease l (t : ScheduledThread) : ScheduledThread :=
  {| config := config t; lifecycle := lifecycle t; ready_key := ready_key t;
     active_lease := l; active_wait := active_wait t; last_vcpu := last_vcpu t |}.
Definition set_active_wait w (t : ScheduledThread) : ScheduledThread :=
  {| config := config t; lifecycle := lifecycle t; ready_key := ready_key t;
     active_lease := active_lease t; active_wait := w; last_vcpu := last_vcpu t |}.
Definition set_last_vcpu v (t : ScheduledThread) : ScheduledThread :=
  {| config := config t; lifecycle := lifecycle t; ready_key := ready_key t;
     active_lease := active_lease t; active_wait := active_wait t; last_vcpu := v |}.
Definition set_config c (t : ScheduledThread) : ScheduledThread :=
  {| config := c; lifecycle := lifecycle t; ready_key := ready_key t;
     active_lease := active_lease t; active_wait := active_wait t; last_vcpu := last_vcpu t |}.
Definition set_base_priority p (c : ScheduledThreadConfig) : ScheduledThreadConfig :=
  {| process := process c; thread := thread c; base_priority := p;
     effective_priority := effective_priority c; ideal_vcpu := ideal_vcpu c;
     affinity := affinity c |}.
Definition set_effective p (c : ScheduledThreadConfig) : ScheduledThreadConfig :=
  {| process := process c; thread := thread c; base_priority := base_priority c;
     effective_priority := p; ideal_vcpu := ideal_vcpu c; affinity := affinity c |}.
Definition set_placement i a (c : ScheduledThreadConfig) : ScheduledThreadConfig :=
  {| process := process c; thread := thread c; base_priority := base_priority c;
     effective_priority := effective_priority c; ideal_vcpu := i; affinity := a |}.

(** [self.threads.get(&id).ok_or(UnknownThread(id))?]. *)
Definition get_thread (id : GuestThreadId) : Sched ScheduledThread :=
  fun s => (s, ok_or (threads s !! id) (UnknownThread id)).

(** [self.threads.get_mut(&id).expect(..)], then the update [f] of the thread
    through the reference; [f] panics where the update calls [expect]. *)
Definition thread_mut (id : GuestThreadId)
    (f : ScheduledThread -> res SchedulerError ScheduledThread) : Sched unit :=
  fun s =>
    match threads s !! id with
    | None => (s, Panic)
    | Some t =>
        match f t with
        | Ok t' => (with_threads <[id := t']> s, Ok tt)
        | Err e => (s, Err e)
        | Panic => (s, Panic)
        end
    end.

(** [self.vcpus.get_mut(&id).expect(..).lease = lease]. *)
Definition vcpu_set_lease (id : VirtualCpuId) (lease : option Lease) : Sched unit :=
  fun s =>
    match vcpus s !! id with
    | None => (s, Panic)
    | Some _ => (with_vcpus <[id := {| slot_lease := lease |}]> s, Ok tt)
    end.

(** [transition_thread(&mut thread.lifecycle, target).expect(..)]. *)
Definition expect_transition (target : ThreadLifecycle) (t : ScheduledThread) :
    res SchedulerError ScheduledThread :=
  match transition_thread target (lifecycle t) with
  | (l, Ok _) => Ok (set_lifecycle l t)
  | _ => Panic
  end.

(** [debug_assert!]. *)
Definition debug_assert (b : bool) : Sched unit := fun s => (s, if b then Ok tt else Panic).

Definition ready_insert_m (k : ReadyKey) : Sched bool :=
  fun s => let '(r, b) := ready_insert k (ready s) in (with_ready r s, Ok b).
Definition ready_remove_m (k : ReadyKey) : Sched bool :=
  fun s => let '(r, b) := ready_remove k (ready s) in (with_ready r s, Ok b).

(** [if let Some(key) = key { self.ready.remove(&key); }]. *)
Definition ready_remove_opt (k : option ReadyKey) : Sched unit :=
  match k with
  | Some key => _ ← ready_remove_m key; mret tt
  | None => mret tt
  end.

(** ** Construction and allocators *)

Definition SchedulerState_new (p : MachineSchedulerProfile) : SchedulerState :=
  {| profile := p;
     threads := ∅;
     ready := [];
     vcpus := list_to_map (map (fun d => (descriptor_id d, {| slot_lease := None |}))
                (profile_vcpus p));
     next_sequence := 1;
     next_lease_generation := 1;
     next_wake_generation := 1 |}.

Definition allocate_sequence : Sched SchedulerSequence :=
  fun s =>
    let value := next_sequence s in
    match checked_add 64 value 1 with
    | None => (s, Err SequenceExhausted)
    | Some next =>
        (with_counters next (next_lease_generation s) (next_wake_generation s) s, Ok value)
    end.

Definition allocate_lease_generation : Sched LeaseGeneration :=
  fun s =>
    let value := next_lease_generation s in
    match checked_add 64 value 1 with
    | None => (s, Err LeaseGenerationExhausted)
    | Some next =>
        (with_counters (next_sequence s) next (next_wake_generation s) s, Ok value)
    end.

Definition allocate_wake_generation : Sched WakeGeneration :=
  fun s =>
    let value := next_wake_generation s in
    match checked_add 64 value 1 with
    | None => (s, Err WakeGenerationExhausted)
    | Some next =>
        (with_counters (next_sequence s) (next_lease_generation s) next s, Ok value)
    end.

Definition validate_policy (c : ScheduledThreadConfig) (s : SchedulerState) :
    res SchedulerError unit :=
  match List.find (fun vcpu => negb (profile_contains (profile s) vcpu))
          (cores (affinity c)) with
  | Some vcpu => Err (UnknownVcpu vcpu)
  | None =>
      if negb (priority_contains (priorities (profile s)) (base_priority c))
      then Err (InvalidPriority (base_priority c))
      else if negb (priority_contains (priorities (profile s)) (effective_priority c))
      then Err (InvalidPriority (effective_priority c))
      else
        match ideal_vcpu c with
        | Some ideal =>
            if negb (core_contains (affinity c) ideal)
            then Err (IdealOutsideAffinity (thread c) ideal)
            else Ok tt
        | None => Ok tt
        end
  end.

(** ** Queries *)

Definition thread_view (s : SchedulerState) (id : GuestThreadId) : option ScheduledThreadView :=
  t ← threads s !! id;
  Some {| view_process := process (config t);
          view_thread := thread (config t);
          view_lifecycle := lifecycle t;
          view_base_priority := base_priority (config t);
          view_effective_priority := effective_priority (config t);
          view_ideal_vcpu := ideal_vcpu (config t);
          view_affinity := affinity (config t);
          view_last_vcpu := last_vcpu t;
          view_paused := bool_decide (lifecycle t = Suspended);
          view_active_wait := active_wait t |}.

Definition lease_for_vcpu (s : SchedulerState) (id : VirtualCpuId) : option Lease :=
  slot ← vcpus s !! id; slot_lease slot.

(** Iteration over a [BTreeMap] is in key order. *)
Definition btree_entries {A} (m : gmap Z A) : list (Z * A) :=
  sort_by_key fst (map_to_list m).

Definition idle_vcpus (s : SchedulerState) : list VirtualCpuId :=
  omap (fun '(id, slot) => match slot_lease slot with None => Some id | Some _ => None end)
    (btree_entries (vcpus s)).

Definition active_leases (s : SchedulerState) : list Lease :=
  omap (fun '(_, slot) => slot_lease slot) (btree_entries (vcpus s)).

Definition thread_count (s : SchedulerState) : nat := size (threads s).

Definition active_waits (s : SchedulerState) : list WakeToken :=
  omap (fun '(_, t) => active_wait t) (btree_entries (threads s)).

Definition active_wait_count (s : SchedulerState) : nat :=
  length (List.filter (fun '(_, t) => bool_decide (is_Some (active_wait t)))
            (btree_entries (threads s))).

(** ** Handlers *)

Definition register (c : ScheduledThreadConfig) : Sched SchedulerDecision :=
  known ← gets (fun s => bool_decide (is_Some (threads s !! thread c)));
  _ ← guard_err known (DuplicateThread (thread c));
  _ ← (fun s => (s, validate_policy c s));
  let id := thread c in
  _ ← modify (with_threads
        <[id := {| config := c; lifecycle := Created; ready_key := None;
                   active_lease := None; active_wait := None; last_vcpu := None |}]>);
  mret (Registered id).

Definition unregister (id : GuestThreadId) : Sched SchedulerDecision :=
  t ← get_thread id;
  _ ← guard_err (bool_decide (is_Some (active_lease t))) (ThreadLeased id);
  _ ← ready_remove_opt (ready_key t);
  _ ← modify (with_threads (delete id));
  mret (Unregistered id).

Definition make_ready (id : GuestThreadId) : Sched SchedulerDecision :=
  t ← get_thread id;
  l ← lift (match transition_thread Ready (lifecycle t) with
            | (l, Ok _) => Ok l
            | (_, Err _) => Err (InvalidThreadState id (lifecycle t))
            | (_, Panic) => Panic
            end);
  sequence ← allocate_sequence;
  let key t := {| key_priority := effective_priority (config t);
                  key_sequence := sequence; key_thread := id |} in
  t ← (fun s => (s, expect (threads s !! id)));
  _ ← thread_mut id (fun t => Ok (set_ready_key (Some (key t)) (set_lifecycle l t)));
  inserted ← ready_insert_m (key t);
  _ ← debug_assert inserted;
  mret (Enqueued id sequence).

Definition select (vcpu : VirtualCpuId) : Sched SchedulerDecision :=
  slot ← (fun s => (s, ok_or (vcpus s !! vcpu) (UnknownVcpu vcpu)));
  _ ← guard_err (bool_decide (is_Some (slot_lease slot))) (VirtualCpuBusy vcpu);
  found ← gets (fun s =>
    List.find (fun key =>
      match threads s !! key_thread key with
      | Some t => core_contains (affinity (config t)) vcpu
      | None => false
      end) (ready s));
  match found with
  | None => mret (Selected None)
  | Some key =>
      generation ← allocate_lease_generation;
      removed ← ready_remove_m key;
      _ ← debug_assert removed;
      t ← (fun s => (s, expect (threads s !! key_thread key)));
      let lease := {| lease_process := process (config t);
                      lease_thread := key_thread key;
                      lease_vcpu := vcpu;
                      lease_generation := generation |} in
      _ ← thread_mut (key_thread key) (fun t =>
            t ← expect_transition Running t;
            Ok (set_active_lease (Some lease) (set_ready_key None t)));
      _ ← vcpu_set_lease vcpu (Some lease);
      mret (Selected (Some lease))
  end.

(** [self.vcpus.get(&vcpu).is_some_and(|slot| slot.lease.is_none())]. *)
Definition vcpu_idle (s : SchedulerState) (vcpu : VirtualCpuId) : bool :=
  match vcpus s !! vcpu with
  | Some slot => bool_decide (slot_lease slot = None)
  | None => false
  end.

(** [Option::filter] and [Option::or]. *)
Definition option_filter {A} (f : A -> bool) (o : option A) : option A :=
  match o with Some a => if f a then Some a else None | None => None end.
Definition option_or {A} (a b : option A) : option A :=
  match a with Some _ => a | None => b end.

Definition select_target (s : SchedulerState) (t : ScheduledThread) : option VirtualCpuId :=
  let ideal := option_filter (vcpu_idle s) (ideal_vcpu (config t)) in
  let local := option_filter (fun vcpu =>
                 core_contains (affinity (config t)) vcpu && vcpu_idle s vcpu) (last_vcpu t) in
  option_or (option_or ideal local)
    (List.find (vcpu_idle s) (cores (affinity (config t)))).

Definition select_next : Sched SchedulerDecision :=
  found ← gets (fun s =>
    List.find (fun key =>
      match threads s !! key_thread key with
      | Some t => existsb (vcpu_idle s) (cores (affinity (config t)))
      | None => false
      end) (ready s));
  match found with
  | None => mret (Selected None)
  | Some key =>
      t ← (fun s => (s, expect (threads s !! key_thread key)));
      target ← (fun s => (s, expect (select_target s t)));
      select target
  end.

Definition enqueue_existing_with_sequence (id : GuestThreadId) (sequence : SchedulerSequence) :
    Sched unit :=
  t ← (fun s => (s, expect (threads s !! id)));
  let key := {| key_priority := effective_priority (config t);
                key_sequence := sequence; key_thread := id |} in
  _ ← thread_mut id (fun t => Ok (set_ready_key (Some key) t));
  inserted ← ready_insert_m key;
  debug_assert inserted.

(** The lifecycle steps of the [match outcome] in [complete]. *)
Definition complete_outcome (outcome : Completion) (t : ScheduledThread) :
    res SchedulerError ScheduledThread :=
  match outcome with
  | CompletionReady => expect_transition Ready t
  | CompletionPreempted => t ← expect_transition Preempted t; expect_transition Ready t
  | CompletionWaiting => expect_transition Waiting t
  | CompletionExited => t ← expect_transition Terminating t; expect_transition Exited t
  | CompletionFaulted => expect_transition Faulted t
  end.

Definition complete (lease : Lease) (outcome : Completion) : Sched SchedulerDecision :=
  t ← get_thread (lease_thread lease);
  _ ← guard_err (bool_decide (active_lease t <> Some lease)) (StaleLease lease);
  held ← gets (fun s => lease_for_vcpu s (lease_vcpu lease));
  _ ← guard_err (bool_decide (held <> Some lease)) (StaleLease lease);
  ready_sequence ←
    match outcome with
    | CompletionReady | CompletionPreempted =>
        sequence ← allocate_sequence; mret (Some sequence)
    | _ => mret None
    end;
  _ ← vcpu_set_lease (lease_vcpu lease) None;
  _ ← thread_mut (lease_thread lease) (fun t =>
        complete_outcome outcome
          (set_last_vcpu (Some (lease_vcpu lease)) (set_active_lease None t)));
  _ ← match ready_sequence with
      | Some sequence => enqueue_existing_with_sequence (lease_thread lease) sequence
      | None => mret tt
      end;
  mret (Completed (lease_thread lease)).

Definition register_wait (id : GuestThreadId) (readiness : Readiness) :
    Sched SchedulerDecision :=
  t ← get_thread id;
  _ ← guard_err (bool_decide (lifecycle t <> Waiting)) (InvalidThreadState id (lifecycle t));
  _ ← guard_err (bool_decide (is_Some (active_wait t))) (DuplicateWait id);
  match readiness with
  | ReadyNow =>
      sequence ← allocate_sequence;
      _ ← thread_mut id (expect_transition Ready);
      _ ← enqueue_existing_with_sequence id sequence;
      mret (ReadyImmediately id)
  | Pending =>
      generation ← allocate_wake_generation;
      let token := {| token_thread := id; token_generation := generation |} in
      _ ← thread_mut id (fun t => Ok (set_active_wait (Some token) t));
      mret (WaitRegistered token)
  end.

Definition finish_wait (token : WakeToken) (cancelled : bool) : Sched SchedulerDecision :=
  t ← get_thread (token_thread token);
  _ ← guard_err (bool_decide (active_wait t <> Some token)) (StaleWake token);
  sequence ← allocate_sequence;
  _ ← thread_mut (token_thread token) (fun t =>
        expect_transition Ready (set_active_wait None t));
  _ ← enqueue_existing_with_sequence (token_thread token) sequence;
  mret (if cancelled then WaitCancelled (token_thread token) else Woken (token_thread token)).

Definition migrate (id : GuestThreadId) (ideal : option VirtualCpuId) (cores' : CoreSet) :
    Sched SchedulerDecision :=
  _ ← match ideal with
      | Some i => guard_err (negb (core_contains cores' i)) (IdealOutsideAffinity id i)
      | None => mret tt
      end;
  unknown ← gets (fun s =>
    List.find (fun vcpu => negb (profile_contains (profile s) vcpu)) (cores cores'));
  _ ← match unknown with
      | Some vcpu => throw (UnknownVcpu vcpu)
      | None => mret tt
      end;
  t ← get_thread id;
  _ ← guard_err (bool_decide (is_Some (active_lease t))) (ThreadLeased id);
  let effect :=
    match last_vcpu t with
    | Some old_vcpu =>
        if negb (core_contains cores' old_vcpu) then ClearOldLocalExclusive old_vcpu
        else NoEffect
    | None => NoEffect
    end in
  _ ← thread_mut id (fun t => Ok (set_config (set_placement ideal cores' (config t)) t));
  mret (Migrated id effect).

(** [if let Some(old_key) = old_key { .. }] at the end of the priority setters. *)
Definition requeue (id : GuestThreadId) (priority : Z) (old_key : option ReadyKey) : Sched unit :=
  match old_key with
  | Some old =>
      let key := {| key_priority := priority; key_sequence := key_sequence old;
                    key_thread := key_thread old |} in
      _ ← thread_mut id (fun t => Ok (set_ready_key (Some key) t));
      inserted ← ready_insert_m key;
      debug_assert inserted
  | None => mret tt
  end.

Definition set_priority (id : GuestThreadId) (priority : Z) : Sched SchedulerDecision :=
  valid ← gets (fun s => priority_contains (priorities (profile s)) priority);
  _ ← guard_err (negb valid) (InvalidPriority priority);
  t ← get_thread id;
  _ ← guard_err (bool_decide (is_Some (active_lease t))) (ThreadLeased id);
  let old_key := ready_key t in
  _ ← ready_remove_opt old_key;
  _ ← thread_mut id (fun t =>
        Ok (set_config (set_effective priority (set_base_priority priority (config t))) t));
  _ ← requeue id priority old_key;
  mret (PriorityChanged id).

Definition set_effective_priority (id : GuestThreadId) (priority : Z) :
    Sched SchedulerDecision :=
  valid ← gets (fun s => priority_contains (priorities (profile s)) priority);
  _ ← guard_err (negb valid) (InvalidPriority priority);
  t ← get_thread id;
  _ ← guard_err (bool_decide (is_Some (active_lease t))) (ThreadLeased id);
  let old_key := ready_key t in
  _ ← ready_remove_opt old_key;
  _ ← thread_mut id (fun t => Ok (set_config (set_effective priority (config t)) t));
  _ ← requeue id priority old_key;
  mret (PriorityChanged id).

Definition set_activity (id : GuestThreadId) (paused : bool) : Sched SchedulerDecision :=
  t ← get_thread id;
  _ ← guard_err
        (bool_decide (is_Some (active_lease t))
         || (paused && bool_decide (lifecycle t = Suspended))
         || (negb paused && bool_decide (lifecycle t = Ready)))
        (InvalidThreadState id (lifecycle t));
  _ ← guard_err (paused && bool_decide (lifecycle t <> Ready))
        (InvalidThreadState id (lifecycle t));
  _ ← guard_err (negb paused && bool_decide (lifecycle t <> Suspended))
        (InvalidThreadState id (lifecycle t));
  let old_key := ready_key t in
  _ ← (if paused then
         _ ← ready_remove_opt old_key;
         thread_mut id (fun t => expect_transition Suspended (set_ready_key None t))
       else
         sequence ← allocate_sequence;
         _ ← thread_mut id (expect_transition Ready);
         enqueue_existing_with_sequence id sequence);
  mret (ActivityChanged id).

(** The lifecycle computed by [terminate] before it changes anything. *)
Definition terminate_lifecycle (id : GuestThreadId) (state : ThreadLifecycle) (faulted : bool) :
    res SchedulerError ThreadLifecycle :=
  if faulted then
    match transition_thread Faulted state with
    | (l, Ok _) => Ok l
    | (_, Err _) => Err (InvalidThreadState id state)
    | (_, Panic) => Panic
    end
  else
    match transition_thread Terminating state with
    | (l, Ok _) =>
        match transition_thread Exited l with
        | (l', Ok _) => Ok l'
        | _ => Panic
        end
    | (_, Err _) => Err (InvalidThreadState id state)
    | (_, Panic) => Panic
    end.

Definition terminate (id : GuestThreadId) (faulted : bool) : Sched SchedulerDecision :=
  t ← get_thread id;
  _ ← guard_err (bool_decide (is_Some (active_lease t))) (ThreadLeased id);
  _ ← guard_err
        (match lifecycle t with Exited | Faulted => true | _ => false end)
        (InvalidThreadState id (lifecycle t));
  l ← lift (terminate_lifecycle id (lifecycle t) faulted);
  _ ← ready_remove_opt (ready_key t);
  _ ← thread_mut id (fun t => Ok (set_lifecycle l (set_active_wait None (set_ready_key None t))));
  mret (Terminated id).

Definition apply (command : SchedulerCommand) : Sched SchedulerDecision :=
  match command with
  | Register c => register c
  | Unregister id => unregister id
  | MakeReady id => make_ready id
  | SelectNext => select_next
  | Select vcpu => select vcpu
  | Complete lease outcome => complete lease outcome
  | RegisterWait id readiness => register_wait id readiness
  | Wake token => finish_wait token false
  | CancelWait token => finish_wait token true
  | Terminate id faulted => terminate id faulted
  | Migrate id ideal cores' => migrate id ideal cores'
  | SetPriority id priority => set_priority id priority
  | SetEffectivePriority id priority => set_effective_priority id priority
  | SetActivity id paused => set_activity id paused
  end.
