(* ===== verification/SchedulerSpec.v ===== *)
(** * Abstract scheduler

    What the scheduler promises, with every fact stored once: a thread has one
    status, which holds its queue position, its lease or its wait; a virtual
    CPU is idle when no thread runs on it; the next thread is the least by
    priority, then by arrival.  [abs] forgets the redundant ready queue, lease
    slots and keys of [SchedulerState]; [astep] and [arejects] are the allowed
    outcomes of a command. *)

From Stdlib Require Import ZArith Lia Bool.
From stdpp Require Import base decidable tactics gmap list sorting.
From S2P Require Import Prelude RustInt RustList Lifecycle Topology Scheduler.

Inductive Status : Set :=
  | ACreated
  | AReady (sequence : Z)
  | ARunning (vcpu generation : Z)
  | AWaiting (token : option Z)
  | ASuspended
  | AExited
  | AFaulted
  | ATransient.

#[export] Instance Status_eq_dec : EqDecision Status.
Proof. solve_decision. Defined.

Record AThread := {
  a_config : ScheduledThreadConfig;
  a_status : Status;
  a_last : option VirtualCpuId
}.

Record AState := {
  a_profile : MachineSchedulerProfile;
  a_threads : gmap GuestThreadId AThread;
  a_sequence : Z;
  a_lease : Z;
  a_wake : Z
}.

(** ** Abstraction *)

Definition abs_status (t : ScheduledThread) : Status :=
  match lifecycle t with
  | Created => ACreated
  | Ready => match ready_key t with Some k => AReady (key_sequence k) | None => ATransient end
  | Running =>
      match active_lease t with
      | Some l => ARunning (lease_vcpu l) (lease_generation l)
      | None => ATransient
      end
  | Waiting => AWaiting (token_generation <$> active_wait t)
  | Suspended => ASuspended
  | Exited => AExited
  | Faulted => AFaulted
  | Preempted | Terminating => ATransient
  end.

Definition abs_thread (t : ScheduledThread) : AThread :=
  {| a_config := config t; a_status := abs_status t; a_last := last_vcpu t |}.

Definition abs (s : SchedulerState) : AState :=
  {| a_profile := profile s;
     a_threads := abs_thread <$> threads s;
     a_sequence := next_sequence s;
     a_lease := next_lease_generation s;
     a_wake := next_wake_generation s |}.

(** ** Vocabulary *)

Definition a_idle (a : AState) (v : VirtualCpuId) : Prop :=
  v ∈ vcpu_ids (a_profile a) /\
  forall id t g, a_threads a !! id = Some t -> a_status t <> ARunning v g.

Definition policy_ok (p : MachineSchedulerProfile) (c : ScheduledThreadConfig) : Prop :=
  CoreSet_wf (affinity c) /\
  (forall v, v ∈ cores (affinity c) -> v ∈ vcpu_ids p) /\
  priority_contains (priorities p) (base_priority c) = true /\
  priority_contains (priorities p) (effective_priority c) = true /\
  (forall i, ideal_vcpu c = Some i -> i ∈ cores (affinity c)).

(** Thread [id] is queued with priority [p] and arrival number [q]. *)
Definition queued (a : AState) (id : GuestThreadId) (p q : Z) : Prop :=
  exists t, a_threads a !! id = Some t /\ a_status t = AReady q /\
            effective_priority (a_config t) = p.

(** [id] is the thread that goes first among the queued ones in [P]. *)
Definition first_of (a : AState) (P : GuestThreadId -> Prop) (id : GuestThreadId) : Prop :=
  P id /\ exists p q, queued a id p q /\
  forall id' p' q', P id' -> queued a id' p' q' -> p < p' \/ (p = p' /\ q <= q').

Definition may_run (a : AState) (v : VirtualCpuId) (id : GuestThreadId) : Prop :=
  exists t, a_threads a !! id = Some t /\ v ∈ cores (affinity (a_config t)).

Definition has_idle_core (a : AState) (id : GuestThreadId) : Prop :=
  exists v, may_run a v id /\ a_idle a v.

(** The placement rule of [select_next]: the ideal core, else the last one,
    else the least idle core of the affinity. *)
Definition placed (a : AState) (t : AThread) (v : VirtualCpuId) : Prop :=
  v ∈ cores (affinity (a_config t)) /\ a_idle a v /\
  (forall i, ideal_vcpu (a_config t) = Some i -> a_idle a i -> v = i) /\
  ((forall i, ideal_vcpu (a_config t) = Some i -> ~ a_idle a i) ->
   (forall l, a_last t = Some l -> l ∈ cores (affinity (a_config t)) -> a_idle a l -> v = l) /\
   ((forall l, a_last t = Some l -> l ∈ cores (affinity (a_config t)) -> ~ a_idle a l) ->
    forall w, w ∈ cores (affinity (a_config t)) -> a_idle a w -> v <= w)).

Definition put (id : GuestThreadId) (t : AThread) (a : AState) : AState :=
  {| a_profile := a_profile a; a_threads := <[id := t]> (a_threads a);
     a_sequence := a_sequence a; a_lease := a_lease a; a_wake := a_wake a |}.
Definition drop_thread (id : GuestThreadId) (a : AState) : AState :=
  {| a_profile := a_profile a; a_threads := delete id (a_threads a);
     a_sequence := a_sequence a; a_lease := a_lease a; a_wake := a_wake a |}.
Definition next_seq (a : AState) : AState :=
  {| a_profile := a_profile a; a_threads := a_threads a;
     a_sequence := a_sequence a + 1; a_lease := a_lease a; a_wake := a_wake a |}.
Definition next_lease (a : AState) : AState :=
  {| a_profile := a_profile a; a_threads := a_threads a;
     a_sequence := a_sequence a; a_lease := a_lease a + 1; a_wake := a_wake a |}.
Definition next_wake (a : AState) : AState :=
  {| a_profile := a_profile a; a_threads := a_threads a;
     a_sequence := a_sequence a; a_lease := a_lease a; a_wake := a_wake a + 1 |}.
Definition with_status (st : Status) (t : AThread) : AThread :=
  {| a_config := a_config t; a_status := st; a_last := a_last t |}.
Definition with_config (f : ScheduledThreadConfig -> ScheduledThreadConfig) (t : AThread) :
    AThread :=
  {| a_config := f (a_config t); a_status := a_status t; a_last := a_last t |}.

(** The thread [t] at the back of its queue. *)
Definition enqueue (id : GuestThreadId) (t : AThread) (a : AState) : AState :=
  next_seq (put id (with_status (AReady (a_sequence a)) t) a).

Definition is_running (st : Status) : bool :=
  match st with ARunning _ _ => true | _ => false end.

Definition a_lease_of (id : GuestThreadId) (t : AThread) (v g : Z) : Lease :=
  {| lease_process := process (a_config t); lease_thread := id;
     lease_vcpu := v; lease_generation := g |}.

Definition outcome_status (o : Completion) : option Status :=
  match o with
  | CompletionReady | CompletionPreempted => None
  | CompletionWaiting => Some (AWaiting None)
  | CompletionExited => Some AExited
  | CompletionFaulted => Some AFaulted
  end.

Definition terminable (st : Status) (faulted : bool) : bool :=
  match st, faulted with
  | AWaiting _, _ => true
  | (ACreated | AReady _ | ASuspended), false => true
  | _, _ => false
  end.

(** ** Accepted commands *)

Inductive astep (a : AState) : SchedulerCommand -> SchedulerDecision -> AState -> Prop :=
  | astep_register c :
      a_threads a !! thread c = None -> policy_ok (a_profile a) c ->
      astep a (Register c) (Registered (thread c))
        (put (thread c) {| a_config := c; a_status := ACreated; a_last := None |} a)
  | astep_unregister id t :
      a_threads a !! id = Some t -> is_running (a_status t) = false ->
      astep a (Unregister id) (Unregistered id) (drop_thread id a)
  | astep_make_ready id t :
      a_threads a !! id = Some t ->
      a_status t = ACreated \/ a_status t = ASuspended \/ a_status t = AWaiting None ->
      astep a (MakeReady id) (Enqueued id (a_sequence a)) (enqueue id t a)
  | astep_select_none v :
      a_idle a v -> (forall id p q, may_run a v id -> ~ queued a id p q) ->
      astep a (Select v) (Selected None) a
  | astep_select v id t :
      a_idle a v -> first_of a (may_run a v) id -> a_threads a !! id = Some t ->
      astep a (Select v) (Selected (Some (a_lease_of id t v (a_lease a))))
        (next_lease (put id (with_status (ARunning v (a_lease a)) t) a))
  | astep_select_next_none :
      (forall id p q, has_idle_core a id -> ~ queued a id p q) ->
      astep a SelectNext (Selected None) a
  | astep_select_next v id t :
      first_of a (has_idle_core a) id -> a_threads a !! id = Some t -> placed a t v ->
      astep a SelectNext (Selected (Some (a_lease_of id t v (a_lease a))))
        (next_lease (put id (with_status (ARunning v (a_lease a)) t) a))
  | astep_complete id t v g o :
      a_threads a !! id = Some t -> a_status t = ARunning v g ->
      astep a (Complete (a_lease_of id t v g) o) (Completed id)
        (let t' := {| a_config := a_config t; a_status := a_status t; a_last := Some v |} in
         match outcome_status o with
         | None => enqueue id t' a
         | Some st => put id (with_status st t') a
         end)
  | astep_wait_ready id t :
      a_threads a !! id = Some t -> a_status t = AWaiting None ->
      astep a (RegisterWait id ReadyNow) (ReadyImmediately id) (enqueue id t a)
  | astep_wait_pending id t :
      a_threads a !! id = Some t -> a_status t = AWaiting None ->
      astep a (RegisterWait id Pending)
        (WaitRegistered {| token_thread := id; token_generation := a_wake a |})
        (next_wake (put id (with_status (AWaiting (Some (a_wake a))) t) a))
  | astep_wake id t g :
      a_threads a !! id = Some t -> a_status t = AWaiting (Some g) ->
      astep a (Wake {| token_thread := id; token_generation := g |}) (Woken id)
        (enqueue id t a)
  | astep_cancel id t g :
      a_threads a !! id = Some t -> a_status t = AWaiting (Some g) ->
      astep a (CancelWait {| token_thread := id; token_generation := g |}) (WaitCancelled id)
        (enqueue id t a)
  | astep_terminate id t (faulted : bool) :
      a_threads a !! id = Some t -> terminable (a_status t) faulted = true ->
      astep a (Terminate id faulted) (Terminated id)
        (put id (with_status (if faulted then AFaulted else AExited) t) a)
  | astep_migrate id t ideal c effect :
      a_threads a !! id = Some t -> is_running (a_status t) = false ->
      policy_ok (a_profile a) (set_placement ideal c (a_config t)) ->
      effect =
        match a_last t with
        | Some old => if core_contains c old then NoEffect else ClearOldLocalExclusive old
        | None => NoEffect
        end ->
      astep a (Migrate id ideal c) (Migrated id effect)
        (put id (with_config (set_placement ideal c) t) a)
  | astep_set_priority id t p :
      a_threads a !! id = Some t -> is_running (a_status t) = false ->
      priority_contains (priorities (a_profile a)) p = true ->
      astep a (SetPriority id p) (PriorityChanged id)
        (put id (with_config (fun c => set_effective p (set_base_priority p c)) t) a)
  | astep_set_effective id t p :
      a_threads a !! id = Some t -> is_running (a_status t) = false ->
      priority_contains (priorities (a_profile a)) p = true ->
      astep a (SetEffectivePriority id p) (PriorityChanged id)
        (put id (with_config (set_effective p) t) a)
  | astep_pause id t q :
      a_threads a !! id = Some t -> a_status t = AReady q ->
      astep a (SetActivity id true) (ActivityChanged id) (put id (with_status ASuspended t) a)
  | astep_resume id t :
      a_threads a !! id = Some t -> a_status t = ASuspended ->
      astep a (SetActivity id false) (ActivityChanged id) (enqueue id t a).

(** The commands that queue a thread, and those that lease one. *)
Definition takes_sequence (cmd : SchedulerCommand) : bool :=
  match cmd with
  | MakeReady _ | RegisterWait _ ReadyNow | Wake _ | CancelWait _ | SetActivity _ false => true
  | Complete _ o => bool_decide (outcome_status o = None)
  | _ => false
  end.
Definition takes_lease (cmd : SchedulerCommand) : bool :=
  match cmd with Select _ | SelectNext => true | _ => false end.

(** ** Rejected commands: the condition each error reports *)

Inductive arejects (a : AState) : SchedulerCommand -> SchedulerError -> Prop :=
  | rej_duplicate c t :
      a_threads a !! thread c = Some t -> arejects a (Register c) (DuplicateThread (thread c))
  | rej_policy c e :
      a_threads a !! thread c = None ->
      match e with
      | UnknownVcpu v => v ∈ cores (affinity c) /\ v ∉ vcpu_ids (a_profile a)
      | InvalidPriority p =>
          (p = base_priority c \/ p = effective_priority c) /\
          priority_contains (priorities (a_profile a)) p = false
      | IdealOutsideAffinity id i =>
          id = thread c /\ ideal_vcpu c = Some i /\ i ∉ cores (affinity c)
      | _ => False
      end ->
      arejects a (Register c) e
  | rej_unknown cmd id :
      a_threads a !! id = None ->
      match cmd with
      | Unregister i | MakeReady i | RegisterWait i _ | Terminate i _ | Migrate i _ _
      | SetPriority i _ | SetEffectivePriority i _ | SetActivity i _ => i = id
      | Complete l _ => lease_thread l = id
      | Wake tok | CancelWait tok => token_thread tok = id
      | _ => False
      end ->
      arejects a cmd (UnknownThread id)
  | rej_leased cmd id t :
      a_threads a !! id = Some t -> is_running (a_status t) = true ->
      match cmd with
      | Unregister i | Terminate i _ | Migrate i _ _
      | SetPriority i _ | SetEffectivePriority i _ => i = id
      | _ => False
      end ->
      arejects a cmd (ThreadLeased id)
  | rej_not_startable id t l :
      a_threads a !! id = Some t ->
      match a_status t with ACreated | ASuspended | AWaiting None => False | _ => True end ->
      arejects a (MakeReady id) (InvalidThreadState id l)
  | rej_not_waiting id t l r :
      a_threads a !! id = Some t -> (forall tok, a_status t <> AWaiting tok) ->
      arejects a (RegisterWait id r) (InvalidThreadState id l)
  | rej_duplicate_wait id t g r :
      a_threads a !! id = Some t -> a_status t = AWaiting (Some g) ->
      arejects a (RegisterWait id r) (DuplicateWait id)
  | rej_not_terminable id t l faulted :
      a_threads a !! id = Some t -> terminable (a_status t) faulted = false ->
      arejects a (Terminate id faulted) (InvalidThreadState id l)
  | rej_activity id t l (paused : bool) :
      a_threads a !! id = Some t ->
      (if paused then forall q, a_status t <> AReady q else a_status t <> ASuspended) ->
      arejects a (SetActivity id paused) (InvalidThreadState id l)
  | rej_unknown_vcpu v :
      v ∉ vcpu_ids (a_profile a) -> arejects a (Select v) (UnknownVcpu v)
  | rej_busy v id t g :
      a_threads a !! id = Some t -> a_status t = ARunning v g ->
      arejects a (Select v) (VirtualCpuBusy v)
  | rej_stale_lease l o t :
      a_threads a !! lease_thread l = Some t ->
      (forall v g, a_status t = ARunning v g -> l <> a_lease_of (lease_thread l) t v g) ->
      arejects a (Complete l o) (StaleLease l)
  | rej_stale_wake cmd tok t :
      a_threads a !! token_thread tok = Some t ->
      a_status t <> AWaiting (Some (token_generation tok)) ->
      cmd = Wake tok \/ cmd = CancelWait tok ->
      arejects a cmd (StaleWake tok)
  | rej_ideal id c i :
      i ∉ cores c -> arejects a (Migrate id (Some i) c) (IdealOutsideAffinity id i)
  | rej_affinity id ideal c v :
      v ∈ cores c -> v ∉ vcpu_ids (a_profile a) -> arejects a (Migrate id ideal c) (UnknownVcpu v)
  | rej_priority cmd p :
      priority_contains (priorities (a_profile a)) p = false ->
      (exists id, cmd = SetPriority id p \/ cmd = SetEffectivePriority id p) ->
      arejects a cmd (InvalidPriority p)
  | rej_sequence cmd :
      2 ^ 64 <= a_sequence a + 1 -> takes_sequence cmd = true ->
      arejects a cmd SequenceExhausted
  | rej_lease_generation cmd :
      2 ^ 64 <= a_lease a + 1 -> takes_lease cmd = true ->
      arejects a cmd LeaseGenerationExhausted
  | rej_wake_generation id :
      2 ^ 64 <= a_wake a + 1 -> arejects a (RegisterWait id Pending) WakeGenerationExhausted.

(** ** Commands in order: a rejected command leaves the state as it was *)

Inductive atrace :
    AState -> list (SchedulerCommand * res SchedulerError SchedulerDecision) -> AState -> Prop :=
  | atrace_nil a : atrace a [] a
  | atrace_accept a cmd d a' tr a'' :
      astep a cmd d a' -> atrace a' tr a'' -> atrace a ((cmd, Ok d) :: tr) a''
  | atrace_reject a cmd e tr a'' :
      arejects a cmd e -> atrace a tr a'' -> atrace a ((cmd, Err e) :: tr) a''.
