(* ===== verification/SchedulerInv.v ===== *)
(** * The scheduler invariant

    The redundant parts of [SchedulerState] agree: the ready queue is the
    sorted set of the keys of ready threads, a lease is in a virtual CPU slot
    exactly when its thread holds it, the fields of a thread are those its
    lifecycle calls for, and every generation in use was allocated before.
    The file has the lemmas on the ready queue and the one update lemma that
    every handler's proof uses. *)

From Stdlib Require Import ZArith Lia Bool.
From stdpp Require Import base decidable tactics gmap list sorting sets.
From S2P Require Import Prelude RustInt RustList Lifecycle Topology Scheduler SchedulerSpec.

(** ** The order of the ready queue *)

Definition key_lt (a b : ReadyKey) : Prop := key_compare a b = Lt.

Lemma key_compare_eq a b : key_compare a b = Eq <-> a = b.
Proof.
  unfold key_compare. destruct a as [p q t], b as [p' q' t']; simpl.
  destruct (Z.compare_spec p p'), (Z.compare_spec q q'), (Z.compare_spec t t');
    split; intros ?; simplify_eq; try done; lia.
Qed.

Lemma key_lt_spec a b :
  key_lt a b <->
  key_priority a < key_priority b \/
  (key_priority a = key_priority b /\
   (key_sequence a < key_sequence b \/
    (key_sequence a = key_sequence b /\ key_thread a < key_thread b))).
Proof.
  unfold key_lt, key_compare.
  destruct (Z.compare_spec (key_priority a) (key_priority b)),
    (Z.compare_spec (key_sequence a) (key_sequence b)),
    (Z.compare_spec (key_thread a) (key_thread b)); split; intros; try done; lia.
Qed.

Lemma key_compare_gt a b : key_compare a b = Gt -> key_lt b a.
Proof.
  rewrite key_lt_spec. unfold key_compare.
  destruct (Z.compare_spec (key_priority a) (key_priority b)),
    (Z.compare_spec (key_sequence a) (key_sequence b)),
    (Z.compare_spec (key_thread a) (key_thread b)); intros; try done; lia.
Qed.

Lemma key_lt_trans a b c : key_lt a b -> key_lt b c -> key_lt a c.
Proof. rewrite !key_lt_spec. lia. Qed.

Lemma key_lt_irrefl a : ~ key_lt a a.
Proof. rewrite key_lt_spec. lia. Qed.

Lemma ready_insert_elem k l x : x ∈ (ready_insert k l).1 <-> x = k \/ x ∈ l.
Proof.
  induction l as [|y l IH]; simpl; [set_solver|].
  destruct (key_compare k y) eqn:E; simpl; [|set_solver|].
  - apply key_compare_eq in E as ->. set_solver.
  - destruct (ready_insert k l) as [r b]; simpl in *. set_solver.
Qed.

Lemma ready_insert_sorted k l :
  StronglySorted key_lt l -> StronglySorted key_lt (ready_insert k l).1.
Proof.
  induction 1 as [|y l Hl IH Hf]; simpl; [by repeat constructor|].
  destruct (key_compare k y) eqn:E; simpl.
  - by constructor.
  - constructor; [by constructor|]. constructor; [done|].
    eapply list.Forall_impl; [done|]. intros z. by apply key_lt_trans.
  - pose proof (ready_insert_elem k l) as Hel. destruct (ready_insert k l) as [r b]; simpl in *.
    constructor; [done|]. apply list.Forall_forall. intros x [->|Hx]%Hel.
    + by apply key_compare_gt.
    + rewrite list.Forall_forall in Hf. by apply Hf.
Qed.

Lemma sorted_tail_notin y l x :
  Forall (key_lt y) l -> x = y \/ key_lt x y -> x ∉ l.
Proof.
  rewrite list.Forall_forall. intros Hf [->|Hlt] Hx.
  - by eapply key_lt_irrefl, Hf.
  - eapply key_lt_irrefl, key_lt_trans; [done|by apply Hf].
Qed.

Lemma ready_insert_new k l :
  StronglySorted key_lt l -> k ∉ l -> (ready_insert k l).2 = true.
Proof.
  induction 1 as [|y l Hl IH Hf]; simpl; [done|]. intros Hk.
  destruct (key_compare k y) eqn:E; simpl; [|done|].
  - apply key_compare_eq in E as ->. set_solver.
  - destruct (ready_insert k l) as [r b]; simpl in *. apply IH. set_solver.
Qed.

Lemma ready_remove_elem k l x :
  StronglySorted key_lt l -> x ∈ (ready_remove k l).1 <-> x ∈ l /\ x <> k.
Proof.
  induction 1 as [|y l Hl IH Hf]; simpl; [set_solver|].
  destruct (key_compare k y) eqn:E; simpl.
  - apply key_compare_eq in E as ->. pose proof (sorted_tail_notin y l y Hf). set_solver.
  - assert (k ∉ l) by (eapply sorted_tail_notin; eauto).
    pose proof (key_lt_irrefl y). set_solver.
  - pose proof (key_compare_gt _ _ E). pose proof (key_lt_irrefl y).
    destruct (ready_remove k l) as [r b]; simpl in *. set_solver.
Qed.

Lemma ready_remove_sorted k l :
  StronglySorted key_lt l -> StronglySorted key_lt (ready_remove k l).1.
Proof.
  induction 1 as [|y l Hl IH Hf]; simpl; [by constructor|].
  destruct (key_compare k y) eqn:E; simpl; [done|by constructor|].
  pose proof (ready_remove_elem k l) as Hel. destruct (ready_remove k l) as [r b]; simpl in *.
  constructor; [done|]. apply list.Forall_forall. intros x [Hx _]%(Hel x Hl).
  rewrite list.Forall_forall in Hf. by apply Hf.
Qed.

Lemma ready_remove_present k l :
  StronglySorted key_lt l -> k ∈ l -> (ready_remove k l).2 = true.
Proof.
  induction 1 as [|y l Hl IH Hf]; simpl; [set_solver|]. intros Hk.
  destruct (key_compare k y) eqn:E; simpl; [done| |].
  - exfalso. assert (k ∉ l) by (eapply sorted_tail_notin; eauto).
    apply elem_of_cons in Hk as [->|]; [by eapply key_lt_irrefl|done].
  - pose proof (key_compare_gt _ _ E). pose proof (key_lt_irrefl y).
    destruct (ready_remove k l) as [r b]; simpl in *. apply IH. set_solver.
Qed.

Lemma ready_reinsert k l :
  StronglySorted key_lt l -> k ∈ l -> (ready_insert k (ready_remove k l).1).1 = l.
Proof.
  induction 1 as [|y l Hl IH Hf]; simpl; [set_solver|]. intros Hk.
  destruct (key_compare k y) eqn:E; simpl.
  - apply key_compare_eq in E as ->. destruct l as [|z l]; [done|]. simpl.
    inversion Hf as [|? ? Hyz]; subst. by rewrite Hyz.
  - exfalso. assert (k ∉ l) by (eapply sorted_tail_notin; eauto).
    apply elem_of_cons in Hk as [->|]; [by eapply key_lt_irrefl|done].
  - assert (k ∈ l) as Hin.
    { apply elem_of_cons in Hk as [->|]; [|done].
      apply key_compare_gt in E. by apply key_lt_irrefl in E. }
    specialize (IH Hin). destruct (ready_remove k l) as [r b]. simpl in *. rewrite E.
    destruct (ready_insert k r); simpl in *. by subst.
Qed.

(** [find] on the sorted queue returns the least key that qualifies. *)
Lemma find_least f l k :
  StronglySorted key_lt l -> List.find f l = Some k ->
  k ∈ l /\ f k = true /\ forall k', k' ∈ l -> f k' = true -> k' = k \/ key_lt k k'.
Proof.
  induction 1 as [|y l Hl IH Hf]; simpl; [done|]. destruct (f y) eqn:Hy.
  - intros [= ->]. split_and!; [left|done|]. intros k' [->|Hk]%elem_of_cons _; [by left|].
    rewrite list.Forall_forall in Hf. right. by apply Hf.
  - intros (? & ? & Hmin)%IH. split_and!; [by right|done|].
    intros k' [->|Hk]%elem_of_cons; [congruence|by apply Hmin].
Qed.

Lemma find_none_all {A} (f : A -> bool) l : List.find f l = None -> forall k, k ∈ l -> f k = false.
Proof. intros Hf k Hk. eapply find_none; [done|]. by apply list_elem_of_In. Qed.

(** ** The invariant *)

(** The fields of thread [id], given the next values of the three allocators. *)
Definition thread_ok (p : MachineSchedulerProfile) (sq lg wg : Z) (id : GuestThreadId)
    (t : ScheduledThread) : Prop :=
  thread (config t) = id /\
  policy_ok p (config t) /\
  match lifecycle t with
  | Created | Suspended | Exited | Faulted =>
      ready_key t = None /\ active_lease t = None /\ active_wait t = None
  | Ready =>
      active_lease t = None /\ active_wait t = None /\
      exists k, ready_key t = Some k /\ key_priority k = effective_priority (config t) /\
                key_thread k = id /\ 1 <= key_sequence k < sq
  | Running =>
      ready_key t = None /\ active_wait t = None /\
      exists l, active_lease t = Some l /\ lease_thread l = id /\
                lease_process l = process (config t) /\
                lease_vcpu l ∈ cores (affinity (config t)) /\ 1 <= lease_generation l < lg
  | Waiting =>
      ready_key t = None /\ active_lease t = None /\
      forall w, active_wait t = Some w -> token_thread w = id /\ 1 <= token_generation w < wg
  | Preempted | Terminating => False
  end.

Record inv (s : SchedulerState) : Prop := {
  inv_profile : profile_wf (profile s);
  inv_vcpus : forall v, is_Some (vcpus s !! v) <-> v ∈ vcpu_ids (profile s);
  inv_sorted : StronglySorted key_lt (ready s);
  inv_ready : forall k, k ∈ ready s <->
    exists t, threads s !! key_thread k = Some t /\ ready_key t = Some k;
  inv_slots : forall v l, lease_for_vcpu s v = Some l <->
    exists t, threads s !! lease_thread l = Some t /\ active_lease t = Some l /\ lease_vcpu l = v;
  inv_threads : forall id t, threads s !! id = Some t ->
    thread_ok (profile s) (next_sequence s) (next_lease_generation s)
      (next_wake_generation s) id t;
  inv_sequences : forall k k', k ∈ ready s -> k' ∈ ready s ->
    key_sequence k = key_sequence k' -> k = k';
  inv_counters : 1 <= next_sequence s < 2 ^ 64 /\ 1 <= next_lease_generation s < 2 ^ 64 /\
    1 <= next_wake_generation s < 2 ^ 64
}.

Lemma thread_ok_mono p sq lg wg sq' lg' wg' id t :
  thread_ok p sq lg wg id t -> sq <= sq' -> lg <= lg' -> wg <= wg' ->
  thread_ok p sq' lg' wg' id t.
Proof.
  unfold thread_ok. intros (? & ? & H) ? ? ?. split; [done|]. split; [done|].
  destruct (lifecycle t); try done.
  - destruct H as (? & ? & k & ?). split_and!; [done..|]. exists k. naive_solver lia.
  - destruct H as (? & ? & l & ?). split_and!; [done..|]. exists l. naive_solver lia.
  - destruct H as (? & ? & Hw). split_and!; [done..|]. intros w [? ?]%Hw. split; [done|lia].
Qed.

Lemma thread_ok_key p sq lg wg id t k :
  thread_ok p sq lg wg id t -> ready_key t = Some k ->
  key_thread k = id /\ 1 <= key_sequence k < sq /\ lifecycle t = Ready /\
  key_priority k = effective_priority (config t).
Proof.
  unfold thread_ok. intros (? & ? & H) Hk. destruct (lifecycle t); naive_solver.
Qed.

Lemma thread_ok_lease p sq lg wg id t l :
  thread_ok p sq lg wg id t -> active_lease t = Some l ->
  lease_thread l = id /\ 1 <= lease_generation l < lg /\ lifecycle t = Running /\
  lease_process l = process (config t) /\ lease_vcpu l ∈ cores (affinity (config t)).
Proof.
  unfold thread_ok. intros (? & ? & H) Hk. destruct (lifecycle t); naive_solver.
Qed.

Lemma thread_ok_wait p sq lg wg id t w :
  thread_ok p sq lg wg id t -> active_wait t = Some w ->
  token_thread w = id /\ 1 <= token_generation w < wg /\ lifecycle t = Waiting /\
  ready_key t = None /\ active_lease t = None.
Proof.
  unfold thread_ok. intros (? & ? & H) Hk. destruct (lifecycle t); naive_solver.
Qed.

(** The update lemma: thread [id] goes from [old] to [new], the queue and the
    slots follow, the allocators only grow. *)
Section Update.
Context (s s' : SchedulerState) (id : GuestThreadId) (old new : option ScheduledThread).
Hypothesis Hinv : inv s.
Hypothesis Hprofile : profile s' = profile s.
Hypothesis Hold : threads s !! id = old.
Hypothesis Hnew : threads s' !! id = new.
Hypothesis Hother : forall j, j <> id -> threads s' !! j = threads s !! j.
Hypothesis Hsq : next_sequence s <= next_sequence s' < 2 ^ 64.
Hypothesis Hlg : next_lease_generation s <= next_lease_generation s' < 2 ^ 64.
Hypothesis Hwg : next_wake_generation s <= next_wake_generation s' < 2 ^ 64.
Hypothesis Hok : forall t, new = Some t ->
  thread_ok (profile s) (next_sequence s') (next_lease_generation s')
    (next_wake_generation s') id t.
Hypothesis Hsorted : StronglySorted key_lt (ready s').
Hypothesis Hready : forall k, k ∈ ready s' <->
  (k ∈ ready s /\ old ≫= ready_key <> Some k) \/ new ≫= ready_key = Some k.
Hypothesis Hfresh : forall k, new ≫= ready_key = Some k ->
  next_sequence s <= key_sequence k \/
  exists k0, old ≫= ready_key = Some k0 /\ key_sequence k0 = key_sequence k.
Hypothesis Hdom : forall v, is_Some (vcpus s' !! v) <-> is_Some (vcpus s !! v).
Hypothesis Hslots : forall v l, lease_for_vcpu s' v = Some l <->
  (lease_for_vcpu s v = Some l /\ old ≫= active_lease <> Some l) \/
  (new ≫= active_lease = Some l /\ lease_vcpu l = v).

Lemma update_key_old k : old ≫= ready_key = Some k -> k ∈ ready s /\ key_thread k = id.
Proof.
  destruct old as [t|] eqn:Ho; [|done]. simpl. intros Hk.
  destruct (thread_ok_key _ _ _ _ _ _ _ (inv_threads _ Hinv _ _ Hold) Hk) as (Ht & _).
  split; [|done]. apply (inv_ready _ Hinv). exists t. by rewrite Ht.
Qed.

Lemma update_ready k : k ∈ ready s' <->
  exists t, threads s' !! key_thread k = Some t /\ ready_key t = Some k.
Proof.
  rewrite Hready, (inv_ready _ Hinv). destruct (decide (key_thread k = id)) as [Hid|Hne].
  - rewrite Hid, Hold, Hnew. destruct old, new; naive_solver.
  - rewrite (Hother _ Hne). split; [intros [[? ?]|Hk]|].
    + done.
    + destruct new as [t|]; [|done]. simpl in Hk.
      apply (thread_ok_key _ _ _ _ _ _ _ (Hok _ eq_refl)) in Hk. naive_solver.
    + intros ?. left. split; [done|]. intros [_ ?]%update_key_old. done.
Qed.

Lemma update_slots v l : lease_for_vcpu s' v = Some l <->
  exists t, threads s' !! lease_thread l = Some t /\ active_lease t = Some l /\ lease_vcpu l = v.
Proof.
  rewrite Hslots, (inv_slots _ Hinv). destruct (decide (lease_thread l = id)) as [Hid|Hne].
  - rewrite Hid, Hold, Hnew. destruct old, new; naive_solver.
  - rewrite (Hother _ Hne). split; [intros [[? ?]|[Hl ?]]|].
    + done.
    + destruct new as [t|]; [|done]. simpl in Hl.
      apply (thread_ok_lease _ _ _ _ _ _ _ (Hok _ eq_refl)) in Hl. naive_solver.
    + intros ?. left. split; [done|]. destruct old as [t|]; [|done]. intros Hl.
      apply (thread_ok_lease _ _ _ _ _ _ _ (inv_threads _ Hinv _ _ Hold)) in Hl. naive_solver.
Qed.

Lemma ready_key_bound k : k ∈ ready s -> key_sequence k < next_sequence s.
Proof.
  intros (t & Ht & Hk)%(inv_ready _ Hinv).
  apply (thread_ok_key _ _ _ _ _ _ _ (inv_threads _ Hinv _ _ Ht)) in Hk. lia.
Qed.

Lemma update_fresh k k' :
  new ≫= ready_key = Some k -> k' ∈ ready s -> old ≫= ready_key <> Some k' ->
  key_sequence k <> key_sequence k'.
Proof.
  intros Hk Hk' Hno He. destruct (Hfresh k Hk) as [Hge|(k0 & Hk0 & Hs)].
  - pose proof (ready_key_bound k' Hk'). lia.
  - apply Hno. destruct (update_key_old k0 Hk0) as [Hin _].
    rewrite (inv_sequences _ Hinv k' k0); [done|done|done|congruence].
Qed.

Lemma inv_update : inv s'.
Proof.
  split.
  - rewrite Hprofile. apply Hinv.
  - intros v. rewrite Hdom, Hprofile. apply Hinv.
  - done.
  - apply update_ready.
  - apply update_slots.
  - rewrite Hprofile. intros j t Hj. destruct (decide (j = id)) as [->|Hne].
    + apply Hok. congruence.
    + rewrite (Hother _ Hne) in Hj.
      eapply thread_ok_mono; [by apply (inv_threads _ Hinv)|lia..].
  - intros k k' Hk Hk' He. rewrite Hready in Hk, Hk'.
    destruct Hk as [[Hk Hn]|Hk], Hk' as [[Hk' Hn']|Hk'].
    + by apply (inv_sequences _ Hinv).
    + exfalso. eapply update_fresh; [exact Hk'|exact Hk|done|done].
    + exfalso. eapply update_fresh; [exact Hk|exact Hk'|done|done].
    + congruence.
  - destruct (inv_counters _ Hinv). lia.
Qed.
End Update.

(** ** Updates that leave the virtual CPUs alone *)

(** Remove an old key, then insert a new one. *)
Definition requeued (ko kn : option ReadyKey) (l : list ReadyKey) : list ReadyKey :=
  let l1 := match ko with Some k => (ready_remove k l).1 | None => l end in
  match kn with Some k => (ready_insert k l1).1 | None => l1 end.

Lemma requeued_sorted ko kn l :
  StronglySorted key_lt l -> StronglySorted key_lt (requeued ko kn l).
Proof.
  intros. unfold requeued.
  destruct ko, kn; repeat (apply ready_insert_sorted || apply ready_remove_sorted); done.
Qed.

Lemma requeued_elem ko kn l k :
  StronglySorted key_lt l ->
  k ∈ requeued ko kn l <-> (k ∈ l /\ ko <> Some k) \/ kn = Some k.
Proof.
  intros Hs. unfold requeued.
  destruct ko, kn; rewrite ?ready_insert_elem, ?ready_remove_elem by done; naive_solver.
Qed.

Lemma inv_update_queue s s' id old new :
  inv s -> profile s' = profile s -> vcpus s' = vcpus s ->
  threads s !! id = old -> threads s' !! id = new ->
  (forall j, j <> id -> threads s' !! j = threads s !! j) ->
  old ≫= active_lease = None -> new ≫= active_lease = None ->
  ready s' = requeued (old ≫= ready_key) (new ≫= ready_key) (ready s) ->
  next_sequence s <= next_sequence s' < 2 ^ 64 ->
  next_lease_generation s' = next_lease_generation s ->
  next_wake_generation s <= next_wake_generation s' < 2 ^ 64 ->
  (forall t, new = Some t ->
    thread_ok (profile s) (next_sequence s') (next_lease_generation s')
      (next_wake_generation s') id t) ->
  (forall k, new ≫= ready_key = Some k ->
    next_sequence s <= key_sequence k \/
    exists k0, old ≫= ready_key = Some k0 /\ key_sequence k0 = key_sequence k) ->
  inv s'.
Proof.
  intros Hinv Hp Hv Hold Hnew Hother Hlo Hln Hr Hsq Hlg Hwg Hok Hfr.
  pose proof (inv_sorted _ Hinv) as Hs. pose proof (inv_counters _ Hinv) as Hc.
  eapply (inv_update s s' id old new); try done.
  - rewrite Hlg. lia.
  - rewrite Hr. by apply requeued_sorted.
  - intros k. rewrite Hr. by apply requeued_elem.
  - intros v. by rewrite Hv.
  - intros v l. unfold lease_for_vcpu. rewrite Hv, Hlo, Hln. naive_solver.
Qed.

(** A key that is not queued is new to [BTreeSet::insert]. *)
Lemma fresh_key_inserted s k :
  inv s -> next_sequence s <= key_sequence k -> (ready_insert k (ready s)).2 = true.
Proof.
  intros Hinv Hk. apply ready_insert_new; [apply Hinv|].
  intros Hin%(ready_key_bound _ Hinv). lia.
Qed.

(** Re-keying a queued thread keeps its place in the arrival order, so the new
    key cannot be present once the old one is removed. *)
Lemma rekey_inserted s k k' :
  inv s -> k ∈ ready s -> key_sequence k' = key_sequence k ->
  (ready_insert k' (ready_remove k (ready s)).1).2 = true.
Proof.
  intros Hinv Hk Hseq. pose proof (inv_sorted _ Hinv) as Hs.
  apply ready_insert_new; [by apply ready_remove_sorted|].
  rewrite ready_remove_elem by done. intros [Hin Hne]. apply Hne.
  by apply (inv_sequences _ Hinv).
Qed.

Lemma thread_key_ready s id t k :
  inv s -> threads s !! id = Some t -> ready_key t = Some k -> k ∈ ready s /\ key_thread k = id.
Proof.
  intros Hinv Ht Hk. destruct (thread_ok_key _ _ _ _ _ _ _ (inv_threads _ Hinv _ _ Ht) Hk) as (He & _).
  split; [|done]. apply (inv_ready _ Hinv). exists t. by rewrite He.
Qed.

(** ** The initial state *)

Lemma new_vcpus p v :
  vcpus (SchedulerState_new p) !! v = Some {| slot_lease := None |} <-> v ∈ vcpu_ids p.
Proof.
  unfold SchedulerState_new, vcpu_ids; cbn [vcpus].
  induction (profile_vcpus p) as [|d l IH]; simpl; [rewrite lookup_empty; set_solver|].
  rewrite elem_of_cons.
  destruct (decide (v = descriptor_id d)) as [->|Hne].
  - rewrite lookup_insert_eq. naive_solver.
  - rewrite lookup_insert_ne by done. rewrite IH. naive_solver.
Qed.

Lemma new_slots p v slot :
  vcpus (SchedulerState_new p) !! v = Some slot -> slot = {| slot_lease := None |}.
Proof.
  unfold SchedulerState_new; cbn [vcpus].
  induction (profile_vcpus p) as [|d l IH]; simpl; [by rewrite lookup_empty|].
  destruct (decide (v = descriptor_id d)) as [->|Hne].
  - rewrite lookup_insert_eq. naive_solver.
  - by rewrite lookup_insert_ne.
Qed.

Lemma new_inv p : profile_wf p -> inv (SchedulerState_new p).
Proof.
  intros Hp. split.
  - done.
  - intros v. change (profile (SchedulerState_new p)) with p. rewrite <- new_vcpus.
    split; [|by intros ->].
    intros [slot Hs]. by rewrite (new_slots _ _ _ Hs) in Hs.
  - constructor.
  - intros k. simpl. rewrite lookup_empty. set_solver.
  - intros v l. simpl. rewrite lookup_empty. unfold lease_for_vcpu.
    destruct (vcpus _ !! v) as [slot|] eqn:Hs; simpl; [|naive_solver].
    apply new_slots in Hs as ->. naive_solver.
  - intros id t. simpl. by rewrite lookup_empty.
  - intros k k' Hk. simpl in Hk. set_solver.
  - simpl. lia.
Qed.
