(* ===== verification/SchedulerRefine.v ===== *)
(** * The scheduler refines its specification

    Every handler, started in a state that satisfies the invariant, never
    panics; it either takes a step of the abstract scheduler and keeps the
    invariant, or rejects the command for the reason the error names and
    changes nothing. *)

From Stdlib Require Import ZArith Lia Bool.
From stdpp Require Import base decidable tactics gmap list sorting sets.
From S2P Require Import Prelude RustInt RustList Lifecycle Topology Scheduler.
From S2P Require Import SchedulerSpec SchedulerInv.

(** ** Rules for the scheduler's primitives *)

Section Rules.
Implicit Types (s : SchedulerState).

Lemma wp_get_thread id Q Qe s :
  (forall t, threads s !! id = Some t -> Q t s) ->
  (threads s !! id = None -> Qe (UnknownThread id) s) ->
  wp (get_thread id) Q Qe s.
Proof. unfold wp, get_thread. destruct (threads s !! id); simpl; auto. Qed.

Lemma wp_read {A} (r : SchedulerState -> res SchedulerError A) Q Qe s :
  match r s with Ok a => Q a s | Err e => Qe e s | Panic => False end ->
  wp (fun s => (s, r s)) Q Qe s.
Proof. unfold wp. by destruct (r s). Qed.

Lemma wp_thread_mut id f t t' Q Qe s :
  threads s !! id = Some t -> f t = Ok t' ->
  Q tt (with_threads <[id := t']> s) -> wp (thread_mut id f) Q Qe s.
Proof. intros Ht Hf HQ. unfold wp, thread_mut. by rewrite Ht, Hf. Qed.

Lemma wp_vcpu_set_lease v l Q Qe s :
  is_Some (vcpus s !! v) ->
  Q tt (with_vcpus <[v := {| slot_lease := l |}]> s) -> wp (vcpu_set_lease v l) Q Qe s.
Proof. intros [slot Hs] HQ. unfold wp, vcpu_set_lease. by rewrite Hs. Qed.

Lemma wp_debug_assert b (Q : unit -> SchedulerState -> Prop) Qe s :
  b = true -> Q tt s -> wp (debug_assert b) Q Qe s.
Proof. by intros ->. Qed.

Lemma wp_ready_insert k Q Qe s :
  Q (ready_insert k (ready s)).2 (with_ready (ready_insert k (ready s)).1 s) ->
  wp (ready_insert_m k) Q Qe s.
Proof. unfold wp, ready_insert_m. by destruct (ready_insert k (ready s)). Qed.

Lemma wp_ready_remove k Q Qe s :
  Q (ready_remove k (ready s)).2 (with_ready (ready_remove k (ready s)).1 s) ->
  wp (ready_remove_m k) Q Qe s.
Proof. unfold wp, ready_remove_m. by destruct (ready_remove k (ready s)). Qed.

Lemma wp_ready_remove_opt k Q Qe s :
  Q tt (with_ready (requeued k None (ready s)) s) -> wp (ready_remove_opt k) Q Qe s.
Proof.
  intros HQ. destruct k as [k|]; cbn [ready_remove_opt requeued] in *.
  - wp_step. apply wp_ready_remove. by wp_step.
  - wp_step. by destruct s.
Qed.

Lemma wp_allocate_sequence Q Qe s :
  (next_sequence s + 1 < 2 ^ 64 ->
   Q (next_sequence s) (with_counters (next_sequence s + 1) (next_lease_generation s)
                          (next_wake_generation s) s)) ->
  (2 ^ 64 <= next_sequence s + 1 -> Qe SequenceExhausted s) ->
  wp allocate_sequence Q Qe s.
Proof.
  intros. unfold wp, allocate_sequence, checked_add.
  destruct (Z.ltb_spec (next_sequence s + 1) (2 ^ 64)); auto.
Qed.

Lemma wp_allocate_lease_generation Q Qe s :
  (next_lease_generation s + 1 < 2 ^ 64 ->
   Q (next_lease_generation s) (with_counters (next_sequence s) (next_lease_generation s + 1)
                          (next_wake_generation s) s)) ->
  (2 ^ 64 <= next_lease_generation s + 1 -> Qe LeaseGenerationExhausted s) ->
  wp allocate_lease_generation Q Qe s.
Proof.
  intros. unfold wp, allocate_lease_generation, checked_add.
  destruct (Z.ltb_spec (next_lease_generation s + 1) (2 ^ 64)); auto.
Qed.

Lemma wp_allocate_wake_generation Q Qe s :
  (next_wake_generation s + 1 < 2 ^ 64 ->
   Q (next_wake_generation s) (with_counters (next_sequence s) (next_lease_generation s)
                          (next_wake_generation s + 1) s)) ->
  (2 ^ 64 <= next_wake_generation s + 1 -> Qe WakeGenerationExhausted s) ->
  wp allocate_wake_generation Q Qe s.
Proof.
  intros. unfold wp, allocate_wake_generation, checked_add.
  destruct (Z.ltb_spec (next_wake_generation s + 1) (2 ^ 64)); auto.
Qed.

Lemma wp_enqueue_existing id seq t Q Qe s :
  threads s !! id = Some t ->
  let key := {| key_priority := effective_priority (config t);
                key_sequence := seq; key_thread := id |} in
  (ready_insert key (ready s)).2 = true ->
  Q tt (with_ready (ready_insert key (ready s)).1
          (with_threads <[id := set_ready_key (Some key) t]> s)) ->
  wp (enqueue_existing_with_sequence id seq) Q Qe s.
Proof.
  intros Ht key Hins HQ. unfold enqueue_existing_with_sequence.
  wp_step. apply wp_read. rewrite Ht. simpl.
  wp_step. eapply wp_thread_mut; [done..|].
  wp_step. apply wp_ready_insert. by apply wp_debug_assert.
Qed.
End Rules.

(** Splits the boolean guards a handler tests. *)
Ltac guards :=
  repeat match goal with
  | H : bool_decide _ = true |- _ => apply bool_decide_eq_true in H
  | H : bool_decide _ = false |- _ => apply bool_decide_eq_false in H
  | H : negb _ = true |- _ => apply negb_true_iff in H
  | H : negb _ = false |- _ => apply negb_false_iff in H
  | H : ~ is_Some _ |- _ => apply eq_None_not_Some in H
  | H : ~ (_ <> _) |- _ => apply dec_stable in H
  end.

(** ** Facts about the abstraction *)

Lemma abs_lookup s id t :
  threads s !! id = Some t -> a_threads (abs s) !! id = Some (abs_thread t).
Proof. intros Ht. simpl. by rewrite lookup_fmap, Ht. Qed.

Lemma abs_lookup_none s id :
  threads s !! id = None -> a_threads (abs s) !! id = None.
Proof. intros Ht. simpl. by rewrite lookup_fmap, Ht. Qed.

Lemma abs_lookup_inv s id a :
  a_threads (abs s) !! id = Some a -> exists t, threads s !! id = Some t /\ a = abs_thread t.
Proof. simpl. rewrite lookup_fmap. destruct (threads s !! id); naive_solver. Qed.

Create HintDb sched.
#[export] Hint Resolve abs_lookup abs_lookup_none : sched.

Lemma abs_put_eq a b :
  a_profile a = a_profile b -> a_threads a = a_threads b -> a_sequence a = a_sequence b ->
  a_lease a = a_lease b -> a_wake a = a_wake b -> a = b.
Proof. destruct a, b. simpl. congruence. Qed.

Section Facts.
Context (s : SchedulerState) (Hinv : inv s).

Lemma status_running id t :
  threads s !! id = Some t ->
  is_running (abs_status t) = bool_decide (is_Some (active_lease t)).
Proof.
  intros Ht. pose proof (inv_threads _ Hinv _ _ Ht) as (_ & _ & H). unfold abs_status.
  destruct (lifecycle t).
  all: try (destruct H as (? & Hl & ?); by rewrite Hl).
  - by destruct H as (Hl & ? & k & Hk & ?); rewrite Hl, Hk.
  - by destruct H as (? & ? & l & Hl & ?); rewrite Hl.
  - done.
  - done.
Qed.

Lemma status_is_running id t v g :
  threads s !! id = Some t ->
  abs_status t = ARunning v g <->
  active_lease t = Some (a_lease_of id (abs_thread t) v g).
Proof.
  intros Ht. pose proof (inv_threads _ Hinv _ _ Ht) as Hok. split.
  - destruct Hok as (_ & _ & H). unfold abs_status. destruct (lifecycle t); try done.
    + by destruct H as (? & ? & k & -> & ?).
    + destruct H as (? & ? & [] & -> & ? & ? & ?). simpl in *. by intros [= -> ->]; subst.
  - intros Hl. destruct (thread_ok_lease _ _ _ _ _ _ _ Hok Hl) as (_ & _ & Hr & _).
    unfold abs_status. by rewrite Hr, Hl.
Qed.

Lemma queued_ready id p q :
  queued (abs s) id p q <->
  {| key_priority := p; key_sequence := q; key_thread := id |} ∈ ready s.
Proof.
  rewrite (inv_ready _ Hinv). simpl. split.
  - intros (at_ & (t & Ht & ->)%abs_lookup_inv & Hs & Hp). exists t. split; [done|].
    pose proof (inv_threads _ Hinv _ _ Ht) as (_ & _ & H). simpl in Hs, Hp.
    unfold abs_status in Hs. destruct (lifecycle t); try done.
    + destruct H as (? & ? & [] & Hk & ? & ? & ?). rewrite Hk in *. simpl in *. naive_solver.
    + by destruct (active_lease t).
  - intros (t & Ht & Hk). exists (abs_thread t). split; [by apply abs_lookup|].
    destruct (thread_ok_key _ _ _ _ _ _ _ (inv_threads _ Hinv _ _ Ht) Hk) as (_ & _ & Hl & Hp).
    unfold abs_thread, abs_status. simpl. by rewrite Hl, Hk.
Qed.

Lemma vcpu_idle_spec v : vcpu_idle s v = true <-> a_idle (abs s) v.
Proof.
  unfold vcpu_idle, a_idle. change (a_profile (abs s)) with (profile s).
  rewrite <- (inv_vcpus _ Hinv v).
  destruct (vcpus s !! v) as [slot|] eqn:Hv.
  - rewrite bool_decide_eq_true. split.
    + intros Hn. split; [done|]. intros id a g (t & Ht & ->)%abs_lookup_inv Hs.
      simpl in Hs. rewrite (status_is_running id) in Hs by done.
      assert (lease_for_vcpu s v = Some (a_lease_of id (abs_thread t) v g)) as Hl.
      { apply (inv_slots _ Hinv). exists t. done. }
      unfold lease_for_vcpu in Hl. rewrite Hv in Hl. simpl in Hl. congruence.
    + intros [_ Hr]. destruct (slot_lease slot) as [l|] eqn:Hl; [|done].
      assert (lease_for_vcpu s v = Some l) as Hs by (unfold lease_for_vcpu; by rewrite Hv).
      apply (inv_slots _ Hinv) in Hs as (t & Ht & Ha & Hvl). exfalso.
      eapply (Hr (lease_thread l) (abs_thread t) (lease_generation l)); [by apply abs_lookup|].
      pose proof (thread_ok_lease _ _ _ _ _ _ _ (inv_threads _ Hinv _ _ Ht) Ha) as (_ & _ & Hrun & _).
      unfold abs_thread, abs_status. simpl. by rewrite Hrun, Ha, Hvl.
  - split; [done|]. by intros [[? ?] _].
Qed.

Lemma affinity_contains id t v :
  threads s !! id = Some t ->
  core_contains (affinity (config t)) v = true <-> v ∈ cores (affinity (config t)).
Proof.
  intros Ht. pose proof (inv_threads _ Hinv _ _ Ht) as (_ & (Hwf & _) & _).
  by apply core_contains_spec.
Qed.

Lemma may_run_spec v id t :
  threads s !! id = Some t ->
  may_run (abs s) v id <-> core_contains (affinity (config t)) v = true.
Proof.
  intros Ht. rewrite affinity_contains by done. split.
  - intros (a & Ha & Hv). rewrite (abs_lookup _ _ _ Ht) in Ha. by simplify_eq.
  - intros Hv. exists (abs_thread t). by split; [apply abs_lookup|].
Qed.

Lemma has_idle_core_spec id t :
  threads s !! id = Some t ->
  has_idle_core (abs s) id <-> existsb (vcpu_idle s) (cores (affinity (config t))) = true.
Proof.
  intros Ht. rewrite existsb_exists. split.
  - intros (v & (a & Ha & Hv) & Hi). rewrite (abs_lookup _ _ _ Ht) in Ha. simplify_eq.
    exists v. split; [by apply list_elem_of_In|by apply vcpu_idle_spec].
  - intros (v & Hv%list_elem_of_In & Hi). exists v.
    split; [|by apply vcpu_idle_spec]. exists (abs_thread t). by split; [apply abs_lookup|].
Qed.
End Facts.

(** ** Handlers *)

Definition accepted (s : SchedulerState) (c : SchedulerCommand) (d : SchedulerDecision)
    (s' : SchedulerState) : Prop := inv s' /\ astep (abs s) c d (abs s').
Definition rejected (s : SchedulerState) (c : SchedulerCommand) (e : SchedulerError)
    (s' : SchedulerState) : Prop := s' = s /\ arejects (abs s) c e.

Lemma astep_eq a c d a' a'' : astep a c d a' -> a' = a'' -> astep a c d a''.
Proof. by intros ? ->. Qed.

(** The abstraction of a state whose threads were updated at one identity. *)
Ltac abs_eq :=
  apply abs_put_eq; simpl; try done;
  rewrite ?insert_insert_eq, ?fmap_insert, ?fmap_delete, ?insert_insert_eq; f_equal; try done.

(** The update lemma at thread [id], with the map and counter facts discharged. *)
Ltac queue_update s id old new :=
  eapply (inv_update_queue s _ id old new); simpl;
  try first [done | lia | by simplify_map_eq | by intros; simplify_map_eq].

Ltac unknown_thread := split; [done|]; eapply rej_unknown; [by apply abs_lookup_none|done].

Section Handlers.
Context (s : SchedulerState) (Hinv : inv s).

Lemma thread_ok_of id t : threads s !! id = Some t ->
  thread_ok (profile s) (next_sequence s) (next_lease_generation s)
    (next_wake_generation s) id t.
Proof. apply (inv_threads _ Hinv). Qed.

Lemma leased_rejected id t cmd :
  threads s !! id = Some t -> is_Some (active_lease t) ->
  match cmd with
  | Unregister i | Terminate i _ | Migrate i _ _
  | SetPriority i _ | SetEffectivePriority i _ => i = id
  | _ => False
  end ->
  rejected s cmd (ThreadLeased id) s.
Proof.
  intros Ht Hl Hc. split; [done|]. eapply rej_leased; [by apply abs_lookup| |done].
  simpl. rewrite (status_running s Hinv id) by done. by apply bool_decide_eq_true.
Qed.

Lemma not_running id t :
  threads s !! id = Some t -> active_lease t = None -> is_running (a_status (abs_thread t)) = false.
Proof.
  intros Ht Hl. simpl. rewrite (status_running s Hinv id) by done. rewrite Hl.
  by apply bool_decide_eq_false; intros [].
Qed.

Lemma unknown_core v c :
  List.find (fun vcpu => negb (profile_contains (profile s) vcpu)) c = Some v ->
  v ∈ c /\ v ∉ vcpu_ids (profile s).
Proof.
  intros [Hin Hc]%find_unknown_some. split; [done|]. intros Hv.
  apply (profile_contains_spec _ _ (inv_profile _ Hinv)) in Hv. congruence.
Qed.

Lemma known_cores c :
  List.find (fun vcpu => negb (profile_contains (profile s) vcpu)) c = None ->
  forall v, v ∈ c -> v ∈ vcpu_ids (profile s).
Proof.
  intros Hf%find_unknown_none v Hv. rewrite list.Forall_forall in Hf.
  by apply (profile_contains_spec _ _ (inv_profile _ Hinv)), Hf.
Qed.

Lemma outside_core c i : CoreSet_wf c -> core_contains c i = false -> i ∉ cores c.
Proof. intros Hwf Hc Hi. apply (core_contains_spec _ _ Hwf) in Hi. congruence. Qed.

Lemma validate_policy_spec c :
  CoreSet_wf (affinity c) -> threads s !! thread c = None ->
  match validate_policy c s with
  | Ok _ => policy_ok (profile s) c
  | Err e => rejected s (Register c) e s
  | Panic => False
  end.
Proof.
  intros Hwf Hn%abs_lookup_none. unfold validate_policy.
  destruct (List.find _ _) as [v|] eqn:Hf.
  { split; [done|]. apply rej_policy; [done|]. by apply unknown_core. }
  destruct (priority_contains _ (base_priority c)) eqn:Hb; simpl.
  2: { split; [done|]. apply rej_policy; simpl; auto. }
  destruct (priority_contains _ (effective_priority c)) eqn:He; simpl.
  2: { split; [done|]. apply rej_policy; simpl; auto. }
  destruct (ideal_vcpu c) as [i|] eqn:Hi.
  - destruct (core_contains (affinity c) i) eqn:Hci; simpl.
    + split_and!; [done|by apply known_cores|done|done|].
      intros j. rewrite Hi. intros [= <-]. by apply core_contains_spec.
    + split; [done|]. apply rej_policy; [done|]. split_and!; [done..|]. by apply outside_core.
  - split_and!; [done|by apply known_cores|done|done|]. intros j. by rewrite Hi.
Qed.

Lemma register_sound c :
  CoreSet_wf (affinity c) ->
  wp (register c) (accepted s (Register c)) (rejected s (Register c)) s.
Proof.
  intros Hwf. unfold register. do 2 wp_step. do 2 wp_step; guards.
  { split; [done|]. destruct H as [t Ht]. eapply rej_duplicate. by apply abs_lookup. }
  wp_step. apply wp_read. pose proof (validate_policy_spec c Hwf H) as Hv.
  destruct (validate_policy c s) as [[]|e|]; [|done|done]. do 3 wp_step.
  pose proof (inv_counters _ Hinv) as Hc. split.
  - queue_update s (thread c) (@None ScheduledThread) (Some
      {| config := c; lifecycle := Created; ready_key := None;
         active_lease := None; active_wait := None; last_vcpu := None |}).
  - eapply astep_eq; [by apply astep_register; [apply abs_lookup_none|]|]. abs_eq.
Qed.

Lemma unregister_sound id :
  wp (unregister id) (accepted s (Unregister id)) (rejected s (Unregister id)) s.
Proof.
  unfold unregister. wp_step. apply wp_get_thread; [|intros; unknown_thread].
  intros t Ht. do 2 wp_step; guards; [by eapply leased_rejected|].
  wp_step. apply wp_ready_remove_opt. do 3 wp_step.
  pose proof (inv_counters _ Hinv) as Hc. split.
  - queue_update s id (Some t) (@None ScheduledThread).
  - eapply astep_eq; [eapply astep_unregister; [by apply abs_lookup|by eapply not_running]|].
    abs_eq.
Qed.

(** A thread whose lease, wait and key are gone goes to the back of the queue. *)
Lemma enqueued_ok id t seq sq :
  policy_ok (profile s) (config t) -> thread (config t) = id ->
  lifecycle t = Ready -> active_lease t = None -> active_wait t = None -> 1 <= seq < sq ->
  thread_ok (profile s) sq (next_lease_generation s) (next_wake_generation s) id
    (set_ready_key (Some {| key_priority := effective_priority (config t);
                            key_sequence := seq; key_thread := id |}) t).
Proof.
  intros ? ? Hl ? ? ?. unfold thread_ok. simpl. rewrite Hl. split_and!; [done..|].
  eexists. split; [done|]. simpl. split_and!; [done..|lia|lia].
Qed.

(** The state shared by the handlers that queue a thread: from [s], with [t]
    updated to [t1], a fresh sequence number is allocated and the thread enqueued. *)
Definition enqueued_state (id : GuestThreadId) (t1 : ScheduledThread) : SchedulerState :=
  let key := {| key_priority := effective_priority (config t1);
                key_sequence := next_sequence s; key_thread := id |} in
  with_ready (ready_insert key (ready s)).1
    (with_threads <[id := set_ready_key (Some key) t1]>
      (with_counters (next_sequence s + 1) (next_lease_generation s)
        (next_wake_generation s) s)).

Lemma enqueue_accepted id t t1 cmd d :
  threads s !! id = Some t -> next_sequence s + 1 < 2 ^ 64 ->
  ready_key t = None -> active_lease t = None ->
  config t1 = config t -> lifecycle t1 = Ready ->
  active_lease t1 = None -> active_wait t1 = None -> last_vcpu t1 = last_vcpu t ->
  astep (abs s) cmd d (enqueue id (abs_thread t) (abs s)) ->
  accepted s cmd d (enqueued_state id t1).
Proof.
  intros Ht Hsq Hk Hl Hcfg Hlc Hl1 Hw1 Hlast Hstep.
  pose proof (inv_counters _ Hinv) as Hc.
  pose proof (thread_ok_of _ _ Ht) as (Hid & Hpol & _). split.
  - queue_update s id (Some t)
      (Some (set_ready_key (Some {| key_priority := effective_priority (config t1);
               key_sequence := next_sequence s; key_thread := id |}) t1)).
    + intros ? [= <-]. apply enqueued_ok; rewrite ?Hcfg; try done; lia.
    + intros k [= <-]. simpl. left. lia.
  - eapply astep_eq; [exact Hstep|]. abs_eq.
    unfold with_status, abs_thread, abs_status. simpl. by rewrite Hcfg, Hlc, Hlast.
Qed.

Lemma with_threads_twice id t1 t2 (s0 : SchedulerState) :
  with_threads <[id := t2]> (with_threads <[id := t1]> s0) = with_threads <[id := t2]> s0.
Proof. unfold with_threads. simpl. f_equal. apply insert_insert_eq. Qed.

Lemma wp_enqueue_postlude id t1 (Q : unit -> SchedulerState -> Prop)
    (Qe : SchedulerError -> SchedulerState -> Prop) :
  Q tt (enqueued_state id t1) ->
  wp (enqueue_existing_with_sequence id (next_sequence s)) Q Qe
    (with_threads <[id := t1]>
      (with_counters (next_sequence s + 1) (next_lease_generation s)
        (next_wake_generation s) s)).
Proof.
  intros HQ. eapply (wp_enqueue_existing id _ t1); [simpl; by simplify_map_eq|simpl|].
  - apply (fresh_key_inserted s); [done|simpl; lia].
  - rewrite with_threads_twice. exact HQ.
Qed.

(** [make_ready] on a thread that holds no lease and waits for no token. *)
Definition startable (id : GuestThreadId) : Prop :=
  forall t, threads s !! id = Some t -> lifecycle t <> Running /\ active_wait t = None.

Lemma make_ready_sound id :
  startable id ->
  wp (make_ready id) (accepted s (MakeReady id)) (rejected s (MakeReady id)) s.
Proof.
  intros Hst. unfold make_ready. wp_step. apply wp_get_thread; [|intros; unknown_thread].
  intros t Ht. destruct (Hst t Ht) as [Hnr Hnw]. pose proof (thread_ok_of _ _ Ht) as (_ & _ & Hf).
  pose proof (abs_lookup _ _ _ Ht) as Ha.
  wp_step. apply wp_lift.
  destruct (transition_thread_cases (lifecycle t) Ready) as [[Hs ->]|[Hs [e ->]]].
  2: { split; [done|]. eapply rej_not_startable; [exact Ha|]. simpl. unfold abs_status.
       destruct (lifecycle t); try done; by destruct (ready_key t). }
  wp_step. apply wp_allocate_sequence; [intros Hsq|intros; by split; [|apply rej_sequence]].
  assert (ready_key t = None /\ active_lease t = None) as [Hk Hl].
  { destruct (lifecycle t); naive_solver. }
  wp_step. apply wp_read. simpl. rewrite Ht. simpl. wp_step. eapply wp_thread_mut; [done..|].
  wp_step. apply wp_ready_insert. wp_step.
  apply wp_debug_assert; [by apply (fresh_key_inserted s); [|simpl; lia]|]. wp_step.
  eapply (enqueue_accepted id t (set_lifecycle Ready t)); try done.
  eapply (astep_make_ready (abs s)); [exact Ha|]. simpl. unfold abs_status.
  destruct (lifecycle t); try done; rewrite ?Hnw; auto.
Qed.

Lemma register_wait_sound id r :
  wp (register_wait id r) (accepted s (RegisterWait id r)) (rejected s (RegisterWait id r)) s.
Proof.
  unfold register_wait. wp_step. apply wp_get_thread; [|intros; unknown_thread].
  intros t Ht. pose proof (thread_ok_of _ _ Ht) as (Hid & Hpol & Hf).
  pose proof (abs_lookup _ _ _ Ht) as Ha.
  do 2 wp_step; guards.
  { split; [done|]. eapply rej_not_waiting; [exact Ha|]. simpl. unfold abs_status.
    destruct (lifecycle t); try done.
    - by destruct (ready_key t).
    - by destruct (active_lease t). }
  rewrite H in Hf. destruct Hf as (Hk & Hl & Hw). do 2 wp_step; guards.
  { destruct H0 as [w Hwt]. split; [done|]. eapply (rej_duplicate_wait _ _ _ (token_generation w));
      [exact Ha|]. simpl. unfold abs_status. by rewrite H, Hwt. }
  assert (a_status (abs_thread t) = AWaiting None) as Hst.
  { simpl. unfold abs_status. by rewrite H, H0. }
  pose proof (inv_counters _ Hinv) as Hc. destruct r.
  - wp_step. apply wp_allocate_sequence; [intros Hsq|intros; by split; [|apply rej_sequence]].
    wp_step. eapply wp_thread_mut; [done|by unfold expect_transition; rewrite H|].
    wp_step. apply wp_enqueue_postlude. wp_step.
    eapply (enqueue_accepted id t (set_lifecycle Ready t)); try done.
    by eapply (astep_wait_ready (abs s)).
  - wp_step. apply wp_allocate_wake_generation;
      [intros Hwg|intros; by split; [|apply rej_wake_generation]].
    wp_step. eapply wp_thread_mut; [done..|]. wp_step.
    set (w := {| token_thread := id; token_generation := next_wake_generation s |}). split.
    + queue_update s id (Some t) (Some (set_active_wait (Some w) t)).
      { by rewrite Hk. }
      intros ? [= <-]. split_and!; [done..|]. simpl. rewrite H. split_and!; [done..|].
      intros ? [= <-]. simpl. lia.
    + eapply astep_eq; [by eapply (astep_wait_pending (abs s))|]. abs_eq.
      unfold with_status, abs_thread, abs_status. simpl. by rewrite H.
Qed.

Lemma finish_wait_sound w (cancelled : bool) :
  let cmd := if cancelled then CancelWait w else Wake w in
  wp (finish_wait w cancelled) (accepted s cmd) (rejected s cmd) s.
Proof.
  intros cmd. unfold finish_wait. wp_step. apply wp_get_thread.
  2: { intros Hn. split; [done|]. eapply rej_unknown; [by apply abs_lookup_none|].
       unfold cmd. by destruct cancelled. }
  intros t Ht. pose proof (abs_lookup _ _ _ Ht) as Ha. pose proof (thread_ok_of _ _ Ht) as Hok.
  do 2 wp_step; guards.
  { split; [done|]. eapply rej_stale_wake; [exact Ha| |unfold cmd; destruct cancelled; auto].
    simpl. intros Hst. apply H. destruct Hok as (_ & _ & Hf). unfold abs_status in Hst.
    destruct (lifecycle t); try done; [by destruct (ready_key t)|by destruct (active_lease t)|].
    destruct (active_wait t) as [[i g]|] eqn:Hw; [|done]. destruct w as [i' g']. simpl in *.
    destruct Hf as (_ & _ & Hf). destruct (Hf _ eq_refl) as [? _]. simpl in *. by simplify_eq. }
  destruct (thread_ok_wait _ _ _ _ _ _ _ Hok H) as (_ & _ & Hlc & Hk & Hl).
  wp_step. apply wp_allocate_sequence; [intros Hsq|intros; split; [done|apply rej_sequence; [done|]; by destruct cancelled]].
  wp_step. eapply wp_thread_mut; [done|by unfold expect_transition; simpl; rewrite Hlc|].
  wp_step. apply wp_enqueue_postlude. wp_step.
  eapply (enqueue_accepted (token_thread w) t (set_lifecycle Ready (set_active_wait None t)));
    try done.
  assert (a_status (abs_thread t) = AWaiting (Some (token_generation w))) as Hst.
  { simpl. unfold abs_status. by rewrite Hlc, H. }
  unfold cmd. destruct w as [i g]. destruct cancelled; simpl.
  - by eapply (astep_cancel (abs s)).
  - by eapply (astep_wake (abs s)).
Qed.

Lemma set_activity_sound id paused :
  wp (set_activity id paused) (accepted s (SetActivity id paused))
    (rejected s (SetActivity id paused)) s.
Proof.
  unfold set_activity. wp_step. apply wp_get_thread; [|intros; unknown_thread].
  intros t Ht. pose proof (abs_lookup _ _ _ Ht) as Ha.
  pose proof (thread_ok_of _ _ Ht) as (Hid & Hpol & Hf).
  assert (forall l, (if paused then lifecycle t <> Ready else lifecycle t <> Suspended) ->
    rejected s (SetActivity id paused) (InvalidThreadState id l) s) as Hrej.
  { intros l Hp. split; [done|]. eapply rej_activity; [exact Ha|]. simpl. unfold abs_status.
    destruct paused, (lifecycle t); try done;
      first [by destruct (active_lease t)|by destruct (ready_key t)]. }
  do 2 wp_step.
  { apply Hrej. apply orb_true_iff in H as [[H|H]%orb_true_iff|H].
    - guards. destruct H as [l Hl]. pose proof (thread_ok_lease _ _ _ _ _ _ _ (thread_ok_of _ _ Ht) Hl).
      destruct paused; naive_solver congruence.
    - apply andb_true_iff in H as [-> H]. guards. by rewrite H.
    - apply andb_true_iff in H as [Hp H]. destruct paused; [done|]. guards. by rewrite H. }
  do 2 wp_step; [apply Hrej; destruct paused; simpl in *; by guards|].
  do 2 wp_step; [apply Hrej; destruct paused; simpl in *; by guards|].
  pose proof (inv_counters _ Hinv) as Hc. destruct paused; simpl in *; guards.
  - rewrite H0 in Hf. destruct Hf as (Hl & Hw & k & Hk & _).
    do 2 wp_step. apply wp_ready_remove_opt.
    eapply wp_thread_mut; [done|by unfold expect_transition; simpl; rewrite H0|]. wp_step. split.
    + by queue_update s id (Some t) (Some (set_lifecycle Suspended (set_ready_key None t))).
    + eapply astep_eq; [eapply (astep_pause (abs s)); [exact Ha|]|].
      * simpl. unfold abs_status. by rewrite H0, Hk.
      * abs_eq.
  - rewrite H1 in Hf. destruct Hf as (Hk & Hl & Hw).
    do 2 wp_step. apply wp_allocate_sequence; [intros Hsq|intros; by split; [|apply rej_sequence]].
    wp_step. eapply wp_thread_mut; [done|by unfold expect_transition; rewrite H1|].
    apply wp_enqueue_postlude. wp_step.
    eapply (enqueue_accepted id t (set_lifecycle Ready t)); try done.
    eapply (astep_resume (abs s)); [exact Ha|]. simpl. unfold abs_status. by rewrite H1.
Qed.

Lemma terminate_lifecycle_spec id t faulted :
  threads s !! id = Some t -> active_lease t = None ->
  match terminate_lifecycle id (lifecycle t) faulted with
  | Ok l => l = (if faulted then Faulted else Exited) /\ terminable (abs_status t) faulted = true
  | Err e => e = InvalidThreadState id (lifecycle t) /\ terminable (abs_status t) faulted = false
  | Panic => False
  end.
Proof.
  intros Ht Hl. pose proof (thread_ok_of _ _ Ht) as (_ & _ & Hf). unfold abs_status.
  destruct (lifecycle t), faulted; simpl; try done; try by destruct (active_wait t).
  all: try by destruct Hf as (? & ? & k & -> & ?).
  all: by destruct Hf as (? & ? & l & Hl' & ?); congruence.
Qed.

Lemma terminate_sound id faulted :
  wp (terminate id faulted) (accepted s (Terminate id faulted))
    (rejected s (Terminate id faulted)) s.
Proof.
  unfold terminate. wp_step. apply wp_get_thread; [|intros; unknown_thread].
  intros t Ht. pose proof (abs_lookup _ _ _ Ht) as Ha. do 2 wp_step; guards;
    [by eapply leased_rejected|].
  do 2 wp_step.
  { split; [done|]. eapply rej_not_terminable; [exact Ha|]. simpl. unfold abs_status.
    by destruct (lifecycle t), faulted. }
  pose proof (terminate_lifecycle_spec id t faulted Ht H) as Hspec.
  wp_step. apply wp_lift. destruct (terminate_lifecycle id (lifecycle t) faulted) as [l|e|]; [|..|done].
  2: { destruct Hspec as [-> Hterm]. split; [done|]. by eapply rej_not_terminable. }
  destruct Hspec as [-> Hterm]. wp_step. apply wp_ready_remove_opt.
  wp_step. eapply wp_thread_mut; [done..|]. wp_step.
  pose proof (inv_counters _ Hinv) as Hc. pose proof (thread_ok_of _ _ Ht) as (Hid & Hpol & _). split.
  - queue_update s id (Some t) (Some (set_lifecycle (if faulted then Faulted else Exited)
      (set_active_wait None (set_ready_key None t)))).
    intros ? [= <-]. split_and!; [done..|]. by destruct faulted.
  - eapply astep_eq; [by eapply (astep_terminate (abs s))|]. abs_eq.
    unfold with_status, abs_thread, abs_status. simpl. by destruct faulted.
Qed.

(** A change of the configuration alone leaves the rest of the thread's fields valid. *)
Lemma thread_ok_config id t c k :
  threads s !! id = Some t -> active_lease t = None -> thread c = id ->
  policy_ok (profile s) c ->
  match ready_key t with
  | Some k0 => exists p, p = effective_priority c /\
      k = Some {| key_priority := p; key_sequence := key_sequence k0; key_thread := key_thread k0 |}
  | None => k = None
  end ->
  thread_ok (profile s) (next_sequence s) (next_lease_generation s) (next_wake_generation s) id
    (set_ready_key k (set_config c t)).
Proof.
  intros Ht Hl Hc Hp Hk. pose proof (thread_ok_of _ _ Ht) as (_ & _ & Hf). unfold thread_ok. simpl.
  split_and!; [done..|]. destruct (lifecycle t); try done.
  all: try (by destruct Hf as (Hk0 & ? & ?); rewrite Hk0 in Hk; subst).
  - destruct Hf as (? & ? & k0 & Hk0 & ? & ? & ?). rewrite Hk0 in Hk. destruct Hk as (p & -> & ->).
    split_and!; [done..|]. eexists. split; [done|]. simpl. done.
  - destruct Hf as (? & ? & l & ? & ?). congruence.
Qed.

Lemma set_ready_key_same t : set_ready_key (ready_key t) t = t.
Proof. by destruct t. Qed.

Lemma migrate_sound id ideal c :
  CoreSet_wf c ->
  wp (migrate id ideal c) (accepted s (Migrate id ideal c)) (rejected s (Migrate id ideal c)) s.
Proof.
  intros Hwf. unfold migrate. wp_step.
  eapply (wp_mono _ (fun _ s' => s' = s /\ forall i, ideal = Some i -> i ∈ cores c) _
    (rejected s (Migrate id ideal c))); [|intros [] s' [-> Hideal]|done].
  { destruct ideal as [i|]; wp_step; guards.
    - split; [done|]. apply rej_ideal. by apply outside_core.
    - split; [done|]. intros ? [= <-]. by apply core_contains_spec.
    - done. }
  do 2 wp_step. destruct (List.find _ _) as [v|] eqn:Hf.
  { do 2 wp_step. destruct (unknown_core v _ Hf) as [? ?]. split; [done|]. by eapply rej_affinity. }
  do 2 wp_step. wp_step. apply wp_get_thread; [|intros; unknown_thread].
  intros t Ht. pose proof (abs_lookup _ _ _ Ht) as Ha. do 2 wp_step; guards;
    [by eapply leased_rejected|].
  wp_step. eapply wp_thread_mut; [done..|]. wp_step.
  pose proof (inv_counters _ Hinv) as Hc.
  pose proof (thread_ok_of _ _ Ht) as (Hid & (_ & _ & Hb & He & _) & Hfld).
  assert (policy_ok (profile s) (set_placement ideal c (config t))) as Hpol.
  { split_and!; simpl; [done|by apply known_cores|done..]. }
  set (t' := set_config (set_placement ideal c (config t)) t). split.
  - eapply (inv_update_queue s _ id (Some t) (Some t')); simpl;
      try first [done | lia | by simplify_map_eq | by intros; simplify_map_eq].
    + unfold requeued. destruct (ready_key t) as [k|] eqn:Hk; [|done].
      symmetry. apply ready_reinsert; [apply Hinv|]. by eapply thread_key_ready.
    + intros ? [= <-]. rewrite <- (set_ready_key_same t'). apply thread_ok_config; try done.
      simpl. destruct (ready_key t) as [[p q j]|] eqn:Hk; [|done]. exists p. split; [|done].
      by destruct (thread_ok_key _ _ _ _ _ _ _ (thread_ok_of _ _ Ht) Hk) as (_ & _ & _ & ?).
    + intros k Hk. right. by exists k.
  - eapply astep_eq; [eapply (astep_migrate (abs s)); [done|by eapply not_running|done|]|].
    + simpl. by destruct (last_vcpu t) as [v|]; [destruct (core_contains c v)|].
    + abs_eq.
Qed.

(** The postlude of the priority setters: the thread is re-keyed in place. *)
Lemma requeue_postlude id t f priority cmd :
  threads s !! id = Some t -> active_lease t = None ->
  policy_ok (profile s) (f (config t)) -> thread (f (config t)) = id ->
  effective_priority (f (config t)) = priority ->
  astep (abs s) cmd (PriorityChanged id) (put id (with_config f (abs_thread t)) (abs s)) ->
  wp (_ ← requeue id priority (ready_key t); mret (PriorityChanged id))
    (accepted s cmd) (rejected s cmd)
    (with_threads <[id := set_config (f (config t)) t]>
      (with_ready (requeued (ready_key t) None (ready s)) s)).
Proof.
  intros Ht Hl Hpol Hid Hp Hstep. pose proof (inv_counters _ Hinv) as Hc.
  pose proof (thread_ok_config id t (f (config t))) as Hok. wp_step.
  destruct (ready_key t) as [k|] eqn:Hk; cbn [requeue].
  - set (key := {| key_priority := priority |}).
    wp_step. eapply wp_thread_mut; [simpl; by simplify_map_eq|done|].
    wp_step. apply wp_ready_insert. apply wp_debug_assert.
    { by apply (rekey_inserted s); [|eapply thread_key_ready|]. }
    wp_step. rewrite with_threads_twice. split.
    + queue_update s id (Some t) (Some (set_ready_key (Some key) (set_config (f (config t)) t))).
      * intros ? [= <-]. apply Hok; try done. by exists priority.
      * intros ? [= <-]. right. by exists k.
    + eapply astep_eq; [exact Hstep|]. abs_eq.
      unfold with_config, abs_thread, abs_status. simpl. by rewrite Hk.
  - do 2 wp_step. split.
    + queue_update s id (Some t) (Some (set_config (f (config t)) t)).
      { by rewrite Hk. }
      intros ? [= <-]. rewrite <- (set_ready_key_same (set_config _ t)). by apply Hok.
    + eapply astep_eq; [exact Hstep|]. abs_eq.
Qed.

Lemma set_priority_sound id p :
  wp (set_priority id p) (accepted s (SetPriority id p)) (rejected s (SetPriority id p)) s.
Proof.
  unfold set_priority. do 4 wp_step; guards.
  { split; [done|]. apply rej_priority; [done|eauto]. }
  wp_step. apply wp_get_thread; [|intros; unknown_thread].
  intros t Ht. pose proof (abs_lookup _ _ _ Ht) as Ha. do 2 wp_step; guards;
    [by eapply leased_rejected|].
  wp_step. apply wp_ready_remove_opt. wp_step. eapply wp_thread_mut; [done..|].
  pose proof (thread_ok_of _ _ Ht) as (Hid & (? & ? & ? & ? & ?) & _).
  apply (requeue_postlude id t (fun c => set_effective p (set_base_priority p c))); try done.
  eapply (astep_set_priority (abs s)); [done|by eapply not_running|done].
Qed.

Lemma set_effective_priority_sound id p :
  wp (set_effective_priority id p) (accepted s (SetEffectivePriority id p))
    (rejected s (SetEffectivePriority id p)) s.
Proof.
  unfold set_effective_priority. do 4 wp_step; guards.
  { split; [done|]. apply rej_priority; [done|eauto]. }
  wp_step. apply wp_get_thread; [|intros; unknown_thread].
  intros t Ht. pose proof (abs_lookup _ _ _ Ht) as Ha. do 2 wp_step; guards;
    [by eapply leased_rejected|].
  wp_step. apply wp_ready_remove_opt. wp_step. eapply wp_thread_mut; [done..|].
  pose proof (thread_ok_of _ _ Ht) as (Hid & (? & ? & ? & ? & ?) & _).
  apply (requeue_postlude id t (set_effective p)); try done.
  eapply (astep_set_effective (abs s)); [done|by eapply not_running|done].
Qed.

(** The lease of a running thread is given back. *)
Lemma inv_release s' t t' lease :
  threads s !! lease_thread lease = Some t -> active_lease t = Some lease ->
  profile s' = profile s ->
  vcpus s' = <[lease_vcpu lease := {| slot_lease := None |}]> (vcpus s) ->
  threads s' = <[lease_thread lease := t']> (threads s) ->
  active_lease t' = None -> ready s' = requeued None (ready_key t') (ready s) ->
  next_sequence s <= next_sequence s' < 2 ^ 64 ->
  next_lease_generation s' = next_lease_generation s ->
  next_wake_generation s' = next_wake_generation s ->
  thread_ok (profile s) (next_sequence s') (next_lease_generation s) (next_wake_generation s)
    (lease_thread lease) t' ->
  (forall k, ready_key t' = Some k -> next_sequence s <= key_sequence k) ->
  inv s'.
Proof.
  intros Ht Hl Hp Hv Hts Hl' Hr Hsq Hlg Hwg Hok Hfr.
  pose proof (inv_counters _ Hinv) as Hc. pose proof (inv_sorted _ Hinv) as Hs.
  pose proof (thread_ok_lease _ _ _ _ _ _ _ (thread_ok_of _ _ Ht) Hl) as (_ & _ & Hrun & _).
  assert (ready_key t = None) as Hk.
  { pose proof (thread_ok_of _ _ Ht) as (_ & _ & Hf). rewrite Hrun in Hf. naive_solver. }
  assert (lease_for_vcpu s (lease_vcpu lease) = Some lease) as Hheld.
  { apply (inv_slots _ Hinv). by exists t. }
  eapply (inv_update s s' (lease_thread lease) (Some t) (Some t')); simpl; rewrite ?Hlg, ?Hwg;
    try done; try lia.
  - rewrite Hts. by simplify_map_eq.
  - intros j Hj. rewrite Hts. by simplify_map_eq.
  - by intros ? [= <-].
  - rewrite Hr. by apply requeued_sorted.
  - intros k. rewrite Hr, requeued_elem by done. by rewrite Hk.
  - intros k Hk'. left. by apply Hfr.
  - intros v. rewrite Hv, lookup_insert_is_Some. split; [|by destruct (decide (lease_vcpu lease = v)); auto].
    intros [<-|[? ?]]; [|done]. unfold lease_for_vcpu in Hheld.
    by destruct (vcpus s !! lease_vcpu lease).
  - intros v l. rewrite Hl, Hl'. unfold lease_for_vcpu in *. rewrite Hv.
    destruct (decide (lease_vcpu lease = v)) as [<-|Hne].
    + rewrite lookup_insert_eq, Hheld. naive_solver.
    + rewrite lookup_insert_ne by done. split; [|naive_solver].
      intros Hlv. left. split; [done|]. intros [= <-].
      apply (inv_slots _ Hinv) in Hlv as (? & ? & ? & ?). congruence.
Qed.

Lemma complete_outcome_running o t :
  lifecycle t = Running ->
  complete_outcome o t =
    Ok (set_lifecycle match o with
                      | CompletionReady | CompletionPreempted => Ready
                      | CompletionWaiting => Waiting
                      | CompletionExited => Exited
                      | CompletionFaulted => Faulted
                      end t).
Proof. by destruct t as [? l ? ? ? ?], o; simpl; intros ->. Qed.

(** [t] as [complete] leaves it before the outcome's transitions. *)
Definition released (lease : Lease) (t : ScheduledThread) : ScheduledThread :=
  set_last_vcpu (Some (lease_vcpu lease)) (set_active_lease None t).

Section Complete.
Context (lease : Lease) (t : ScheduledThread).
Hypothesis Ht : threads s !! lease_thread lease = Some t.
Hypothesis Hl : active_lease t = Some lease.

Lemma lease_fields :
  lifecycle t = Running /\ ready_key t = None /\ active_wait t = None /\
  thread (config t) = lease_thread lease /\ policy_ok (profile s) (config t).
Proof.
  pose proof (thread_ok_of _ _ Ht) as Hok.
  pose proof (thread_ok_lease _ _ _ _ _ _ _ Hok Hl) as (_ & _ & Hrun & _).
  destruct Hok as (Hid & Hpol & Hf). rewrite Hrun in Hf. naive_solver.
Qed.

Lemma lease_completes o :
  astep (abs s) (Complete lease o) (Completed (lease_thread lease))
    (let t' := {| a_config := config t; a_status := abs_status t;
                  a_last := Some (lease_vcpu lease) |} in
     match outcome_status o with
     | None => enqueue (lease_thread lease) t' (abs s)
     | Some st => put (lease_thread lease) (with_status st t') (abs s)
     end).
Proof.
  pose proof (thread_ok_lease _ _ _ _ _ _ _ (thread_ok_of _ _ Ht) Hl) as (_ & _ & Hrun & Hproc & _).
  pose proof (astep_complete (abs s) (lease_thread lease) (abs_thread t) (lease_vcpu lease)
    (lease_generation lease) o (abs_lookup _ _ _ Ht)) as Hstep.
  unfold a_lease_of in Hstep. simpl in Hstep. rewrite <- Hproc in Hstep.
  destruct lease. apply Hstep. unfold abs_status. by rewrite Hrun, Hl.
Qed.

Lemma complete_stopped o l st :
  outcome_status o = Some st ->
  match l, st with
  | Waiting, AWaiting None | Exited, AExited | Faulted, AFaulted => True
  | _, _ => False
  end ->
  accepted s (Complete lease o) (Completed (lease_thread lease))
    (with_threads <[lease_thread lease := set_lifecycle l (released lease t)]>
      (with_vcpus <[lease_vcpu lease := {| slot_lease := None |}]> s)).
Proof.
  intros Ho Hls. destruct lease_fields as (Hrun & Hk & Hw & Hid & Hpol).
  pose proof (inv_counters _ Hinv) as Hc. split.
  - eapply (inv_release _ t (set_lifecycle l (released lease t))); simpl; rewrite ?Hk;
      try done; try lia.
    split_and!; [done..|]. simpl. rewrite Hw. by destruct l, st.
  - pose proof (lease_completes o) as Hstep. rewrite Ho in Hstep.
    eapply astep_eq; [exact Hstep|]. abs_eq.
    unfold with_status, abs_thread, abs_status. simpl. rewrite Hw.
    destruct l; try done; destruct st as [| | |[]| | | |]; done.
Qed.

Lemma complete_queued o :
  outcome_status o = None -> next_sequence s + 1 < 2 ^ 64 ->
  let key := {| key_priority := effective_priority (config t);
                key_sequence := next_sequence s; key_thread := lease_thread lease |} in
  accepted s (Complete lease o) (Completed (lease_thread lease))
    (with_ready (ready_insert key (ready s)).1
      (with_threads <[lease_thread lease :=
          set_ready_key (Some key) (set_lifecycle Ready (released lease t))]>
        (with_vcpus <[lease_vcpu lease := {| slot_lease := None |}]>
          (with_counters (next_sequence s + 1) (next_lease_generation s)
            (next_wake_generation s) s)))).
Proof.
  intros Ho Hsq key. destruct lease_fields as (Hrun & Hk & Hw & Hid & Hpol).
  pose proof (inv_counters _ Hinv) as Hc. split.
  - eapply (inv_release _ t (set_ready_key (Some key) (set_lifecycle Ready (released lease t))));
      simpl; try done; try lia.
    + apply (enqueued_ok _ (set_lifecycle Ready (released lease t))); simpl; try done; lia.
    + intros k [= <-]. simpl. lia.
  - pose proof (lease_completes o) as Hstep. rewrite Ho in Hstep.
    eapply astep_eq; [exact Hstep|]. abs_eq.
Qed.
End Complete.

Lemma complete_sound lease o :
  wp (complete lease o) (accepted s (Complete lease o)) (rejected s (Complete lease o)) s.
Proof.
  unfold complete. wp_step. apply wp_get_thread; [|intros; unknown_thread].
  intros t Ht. pose proof (abs_lookup _ _ _ Ht) as Ha. do 2 wp_step; guards.
  { split; [done|]. eapply rej_stale_lease; [exact Ha|]. intros v g Hst Hle. apply H.
    apply (status_is_running s Hinv (lease_thread lease)) in Hst; [|done]. congruence. }
  do 4 wp_step; guards.
  { exfalso. apply H0. apply (inv_slots _ Hinv). by exists t. }
  destruct (lease_fields lease t Ht H) as (Hrun & _).
  assert (is_Some (vcpus s !! lease_vcpu lease)) as Hv.
  { unfold lease_for_vcpu in H0. by destruct (vcpus s !! lease_vcpu lease). }
  wp_step. destruct (outcome_status o) as [st|] eqn:Ho.
  - assert (match o with
            | CompletionReady | CompletionPreempted =>
                sequence ← allocate_sequence; mret (Some sequence)
            | _ => mret None
            end = (mret None : Sched (option Z))) as -> by by destruct o.
    do 2 wp_step. apply wp_vcpu_set_lease; [done|].
    wp_step. eapply wp_thread_mut; [done|by apply (complete_outcome_running _ (released lease t))|]. do 3 wp_step.
    eapply (complete_stopped lease t); [done|done|done|].
    by destruct o; simpl in Ho; simplify_eq.
  - assert (match o with
            | CompletionReady | CompletionPreempted =>
                sequence ← allocate_sequence; mret (Some sequence)
            | _ => mret None
            end = (sequence ← allocate_sequence; mret (Some sequence) : Sched (option Z))) as ->
      by by destruct o.
    wp_step. apply wp_allocate_sequence; [intros Hsq|intros; split; [done|apply rej_sequence; [done|]; by destruct o]].
    do 2 wp_step. apply wp_vcpu_set_lease; [done|].
    wp_step. eapply wp_thread_mut; [done|by apply (complete_outcome_running _ (released lease t))|]. wp_step.
    eapply wp_enqueue_existing; [simpl; by simplify_map_eq|simpl|].
    { apply (fresh_key_inserted s); [done|simpl; lia]. }
    wp_step. rewrite with_threads_twice. simpl.
    replace (match o with CompletionReady | CompletionPreempted => Ready | _ => _ end)
      with Ready by by destruct o.
    by apply complete_queued.
Qed.

(** *** Selection *)

(** A search of the ready queue by a property of the thread. *)
Definition queue_find (g : ScheduledThread -> bool) : option ReadyKey :=
  List.find (fun key =>
    match threads s !! key_thread key with Some t => g t | None => false end) (ready s).

Lemma queue_find_first g (P : GuestThreadId -> Prop) k :
  (forall id t, threads s !! id = Some t -> P id <-> g t = true) ->
  queue_find g = Some k ->
  exists t, threads s !! key_thread k = Some t /\ ready_key t = Some k /\ g t = true /\
            first_of (abs s) P (key_thread k).
Proof.
  intros HP (Hin & Hg & Hmin)%find_least; [|apply Hinv].
  pose proof Hin as (t & Ht & Hk)%(inv_ready _ Hinv). rewrite Ht in Hg.
  exists t. split_and!; [done..|]. split; [by apply (HP _ _ Ht)|].
  exists (key_priority k), (key_sequence k). split.
  { apply (queued_ready s Hinv). by destruct k. }
  intros id' p' q' HP' Hq'%(queued_ready s Hinv).
  pose proof Hq' as (t' & Ht' & _)%(inv_ready _ Hinv). simpl in Ht'.
  destruct (Hmin _ Hq') as [<-|Hlt%key_lt_spec]; simpl in *.
  - rewrite Ht'. by apply (HP _ _ Ht').
  - lia.
  - lia.
Qed.

Lemma queue_find_none g (P : GuestThreadId -> Prop) :
  (forall id t, threads s !! id = Some t -> P id <-> g t = true) ->
  queue_find g = None -> forall id p q, P id -> ~ queued (abs s) id p q.
Proof.
  intros HP Hf id p q Hid Hq%(queued_ready s Hinv).
  pose proof Hq as (t & Ht & _)%(inv_ready _ Hinv). simpl in Ht.
  pose proof (find_none_all _ _ Hf _ Hq) as Hn. simpl in Hn. rewrite Ht in Hn.
  apply (HP _ _ Ht) in Hid. congruence.
Qed.

Lemma inv_acquire s' t k v g :
  threads s !! key_thread k = Some t -> ready_key t = Some k ->
  v ∈ cores (affinity (config t)) -> vcpu_idle s v = true ->
  g = next_lease_generation s ->
  let lease := {| lease_process := process (config t); lease_thread := key_thread k;
                  lease_vcpu := v; lease_generation := g |} in
  profile s' = profile s ->
  vcpus s' = <[v := {| slot_lease := Some lease |}]> (vcpus s) ->
  threads s' = <[key_thread k := set_active_lease (Some lease)
                   (set_ready_key None (set_lifecycle Running t))]> (threads s) ->
  ready s' = (ready_remove k (ready s)).1 ->
  next_sequence s' = next_sequence s ->
  next_lease_generation s' = g + 1 -> g + 1 < 2 ^ 64 ->
  next_wake_generation s' = next_wake_generation s ->
  inv s'.
Proof.
  intros Ht Hk Haff Hidle -> lease Hp Hv Hts Hr Hsq Hlg Hlt Hwg.
  pose proof (inv_counters _ Hinv) as Hc. pose proof (inv_sorted _ Hinv) as Hs.
  pose proof (thread_ok_of _ _ Ht) as (Hid & Hpol & Hf).
  destruct (thread_ok_key _ _ _ _ _ _ _ (thread_ok_of _ _ Ht) Hk) as (_ & _ & Hrdy & _).
  rewrite Hrdy in Hf. destruct Hf as (Hl & Hw & _).
  unfold vcpu_idle in Hidle. destruct (vcpus s !! v) as [slot|] eqn:Hslot; [|done]. guards.
  eapply (inv_update s s' (key_thread k) (Some t) (Some (set_active_lease (Some lease)
    (set_ready_key None (set_lifecycle Running t))))); simpl; rewrite ?Hsq, ?Hlg, ?Hwg;
    try done; try lia.
  - rewrite Hts. by simplify_map_eq.
  - intros j Hj. rewrite Hts. by simplify_map_eq.
  - intros ? [= <-]. split_and!; [done..|]. simpl. split_and!; [done..|].
    eexists. split; [done|]. simpl. split_and!; try done; lia.
  - rewrite Hr. by apply ready_remove_sorted.
  - intros k'. simpl. rewrite Hr, ready_remove_elem, Hk by done. naive_solver.
  - intros v'. rewrite Hv, lookup_insert_is_Some'. naive_solver.
  - intros v' l. simpl. rewrite Hl. unfold lease_for_vcpu. rewrite Hv.
    destruct (decide (v = v')) as [<-|Hne].
    + rewrite lookup_insert_eq, Hslot. simpl. rewrite Hidle. naive_solver.
    + rewrite lookup_insert_ne by done. naive_solver.
Qed.

(** [select] on an idle virtual CPU: the outcome of the search decides. *)
Lemma select_idle vcpu cmd Qe :
  vcpu_idle s vcpu = true ->
  (queue_find (fun t => core_contains (affinity (config t)) vcpu) = None ->
   astep (abs s) cmd (Selected None) (abs s)) ->
  (forall k t, queue_find (fun t => core_contains (affinity (config t)) vcpu) = Some k ->
   threads s !! key_thread k = Some t -> ready_key t = Some k ->
   astep (abs s) cmd
     (Selected (Some (a_lease_of (key_thread k) (abs_thread t) vcpu (next_lease_generation s))))
     (next_lease (put (key_thread k)
        (with_status (ARunning vcpu (next_lease_generation s)) (abs_thread t)) (abs s)))) ->
  (2 ^ 64 <= next_lease_generation s + 1 -> Qe LeaseGenerationExhausted s) ->
  wp (select vcpu) (accepted s cmd) Qe s.
Proof.
  intros Hidle Hnone Hsome Hexh. pose proof Hidle as Hidle'. unfold vcpu_idle in Hidle.
  destruct (vcpus s !! vcpu) as [slot|] eqn:Hslot; [|done]. guards.
  unfold select. wp_step. apply wp_read. rewrite Hslot. simpl.
  do 2 wp_step; guards; [by rewrite Hidle in H; destruct H|]. do 2 wp_step.
  change (List.find _ (ready s)) with
    (queue_find (fun t => core_contains (affinity (config t)) vcpu)).
  destruct (queue_find _) as [k|] eqn:Hfind; [|by wp_step; split; auto].
  destruct (queue_find_first _ (may_run (abs s) vcpu) k
    (fun id t Ht => may_run_spec s Hinv vcpu id t Ht) Hfind) as (t & Ht & Hk & Hg & _).
  destruct (thread_ok_key _ _ _ _ _ _ _ (thread_ok_of _ _ Ht) Hk) as (_ & _ & Hrdy & _).
  wp_step. apply wp_allocate_lease_generation; [intros Hlt|done].
  wp_step. apply wp_ready_remove. wp_step. apply wp_debug_assert.
  { apply ready_remove_present; [apply Hinv|]. by eapply (thread_key_ready s). }
  wp_step. apply wp_read. simpl. rewrite Ht. simpl.
  wp_step. eapply wp_thread_mut; [done|unfold expect_transition; by rewrite Hrdy|].
  wp_step. apply wp_vcpu_set_lease; [by exists slot|]. wp_step. split.
  - eapply (inv_acquire _ t k vcpu); simpl; try done. by apply (affinity_contains s Hinv (key_thread k)).
  - eapply astep_eq; [by eapply Hsome|]. abs_eq.
Qed.

Lemma select_sound vcpu :
  wp (select vcpu) (accepted s (Select vcpu)) (rejected s (Select vcpu)) s.
Proof.
  destruct (vcpu_idle s vcpu) eqn:Hidle.
  - assert (forall id t, threads s !! id = Some t ->
      may_run (abs s) vcpu id <-> core_contains (affinity (config t)) vcpu = true) as HP
      by (intros; by apply may_run_spec).
    pose proof (proj1 (vcpu_idle_spec s Hinv vcpu) Hidle) as Ha.
    apply select_idle; [done|..].
    + intros Hn. apply astep_select_none; [done|]. exact (queue_find_none _ _ HP Hn).
    + intros k t Hf Ht Hk. destruct (queue_find_first _ _ _ HP Hf) as (? & ? & ? & ? & ?).
      apply (astep_select (abs s)); [done|done|by apply abs_lookup].
    + intros. by split; [|apply rej_lease_generation].
  - unfold select. wp_step. apply wp_read. unfold vcpu_idle in Hidle.
    destruct (vcpus s !! vcpu) as [slot|] eqn:Hslot; simpl.
    + do 2 wp_step; guards.
      * destruct H as [l Hl]. split; [done|].
        assert (lease_for_vcpu s vcpu = Some l) as Hlv by (unfold lease_for_vcpu; by rewrite Hslot).
        apply (inv_slots _ Hinv) in Hlv as (t & Ht & Hal & <-).
        eapply (rej_busy _ _ (lease_thread l) _ (lease_generation l)); [by apply abs_lookup|].
        pose proof (thread_ok_lease _ _ _ _ _ _ _ (thread_ok_of _ _ Ht) Hal) as (_ & _ & Hrun & _).
        simpl. unfold abs_status. by rewrite Hrun, Hal.
      * done.
    + split; [done|]. apply rej_unknown_vcpu. simpl. rewrite <- (inv_vcpus _ Hinv), Hslot.
      by intros [].
Qed.

(** [find] on a core set returns its least idle core. *)
Lemma find_least_core f l v :
  StronglySorted Z.lt l -> List.find f l = Some v ->
  v ∈ l /\ f v = true /\ forall w, w ∈ l -> f w = true -> v <= w.
Proof.
  induction 1 as [|y l Hl IH Hf]; simpl; [done|]. destruct (f y) eqn:Hy.
  - intros [= ->]. split_and!; [left|done|]. intros w [->|Hw]%elem_of_cons _; [lia|].
    rewrite list.Forall_forall in Hf. specialize (Hf w Hw). lia.
  - intros (? & ? & Hmin)%IH. split_and!; [by right|done|].
    intros w [->|Hw]%elem_of_cons; [congruence|by apply Hmin].
Qed.

Lemma option_filter_some {A} f (o : option A) a :
  option_filter f o = Some a <-> o = Some a /\ f a = true.
Proof. destruct o as [b|]; simpl; [destruct (f b) eqn:?|]; naive_solver congruence. Qed.

Lemma option_filter_none {A} f (o : option A) :
  option_filter f o = None -> forall a, o = Some a -> f a <> true.
Proof. intros Hn a -> Hf. simpl in Hn. by rewrite Hf in Hn. Qed.

Lemma select_target_placed id t :
  threads s !! id = Some t -> has_idle_core (abs s) id ->
  exists v, select_target s t = Some v /\ placed (abs s) (abs_thread t) v /\ vcpu_idle s v = true.
Proof.
  intros Ht (w & (a & Ha & Hw) & Hwi). rewrite (abs_lookup _ _ _ Ht) in Ha. simplify_eq.
  pose proof (vcpu_idle_spec s Hinv) as Hspec.
  pose proof (thread_ok_of _ _ Ht) as (_ & ((_ & Hsorted) & _ & _ & _ & Hideal) & _).
  assert (forall v, core_contains (affinity (config t)) v = true <-> v ∈ cores (affinity (config t)))
    as Hcc by (intros; by apply (affinity_contains s Hinv id)).
  unfold select_target, option_or, placed. simpl.
  destruct (option_filter _ (ideal_vcpu _)) as [i|] eqn:Hi.
  { apply option_filter_some in Hi as [Hi Hidle]. exists i.
    pose proof (proj1 (Hspec i) Hidle) as Hia. split_and!; try done; [by apply Hideal|..].
    - intros i' Hi' _. congruence.
    - intros Hno. by destruct (Hno i Hi). }
  assert (forall i, ideal_vcpu (config t) = Some i -> ~ a_idle (abs s) i) as Hnoideal.
  { intros i Hic Hia. eapply option_filter_none; [exact Hi|exact Hic|by apply Hspec]. }
  destruct (option_filter _ (last_vcpu t)) as [l|] eqn:Hlast.
  { apply option_filter_some in Hlast as [Hlast [Hla Hli]%andb_true_iff]. exists l.
    split_and!; [done|by apply Hcc|by apply Hspec|naive_solver| |done].
    intros _. split; [naive_solver|]. intros Hno.
    by destruct (Hno l Hlast); [apply Hcc|apply Hspec]. }
  assert (forall l, last_vcpu t = Some l -> l ∈ cores (affinity (config t)) -> ~ a_idle (abs s) l)
    as Hnolast.
  { intros l Hll Hla Hia. eapply option_filter_none; [exact Hlast|exact Hll|].
    apply andb_true_iff. split; [by apply Hcc|by apply Hspec]. }
  destruct (List.find (vcpu_idle s) _) as [v|] eqn:Hf.
  - apply find_least_core in Hf as (Hv & Hvi & Hmin); [|done]. exists v.
    split_and!; [done|done|by apply Hspec|naive_solver| |done].
    intros _. split; [naive_solver|]. intros _ w' Hw' Hwi'. by apply Hmin; [|apply Hspec].
  - apply Hspec in Hwi. by rewrite (find_none_all _ _ Hf w Hw) in Hwi.
Qed.

(** The virtual CPU chosen for the first thread selects that thread. *)
Lemma select_same_thread k v t :
  queue_find (fun t => existsb (vcpu_idle s) (cores (affinity (config t)))) = Some k ->
  threads s !! key_thread k = Some t -> v ∈ cores (affinity (config t)) ->
  vcpu_idle s v = true ->
  queue_find (fun t => core_contains (affinity (config t)) v) = Some k.
Proof.
  intros Hf Ht Hv Hidle. pose proof (inv_sorted _ Hinv) as Hs.
  apply find_least in Hf as (Hin & _ & Hmin); [|done].
  destruct (queue_find _) as [k'|] eqn:Hf'.
  - apply find_least in Hf' as (Hin' & Hc' & Hmin'); [|done]. f_equal.
    pose proof Hin' as (t' & Ht' & _)%(inv_ready _ Hinv). rewrite Ht' in Hc'.
    destruct (Hmin k') as [|Hlt]; [done| |done|].
    { rewrite Ht'. apply existsb_exists. exists v. split; [|done].
      apply list_elem_of_In. by apply (affinity_contains s Hinv (key_thread k')). }
    destruct (Hmin' k) as [|Hlt']; [done| |done|].
    { rewrite Ht. by apply (affinity_contains s Hinv (key_thread k)). }
    destruct (key_lt_irrefl k). by eapply key_lt_trans.
  - pose proof (find_none_all _ _ Hf' k Hin) as Hn. simpl in Hn. rewrite Ht in Hn.
    apply (affinity_contains s Hinv (key_thread k) t v Ht) in Hv. congruence.
Qed.

Lemma select_next_sound :
  wp select_next (accepted s SelectNext) (rejected s SelectNext) s.
Proof.
  unfold select_next. do 2 wp_step.
  change (List.find _ (ready s)) with
    (queue_find (fun t => existsb (vcpu_idle s) (cores (affinity (config t))))).
  assert (forall id t, threads s !! id = Some t ->
    has_idle_core (abs s) id <-> existsb (vcpu_idle s) (cores (affinity (config t))) = true) as HP
    by (intros; by apply has_idle_core_spec).
  destruct (queue_find _) as [k|] eqn:Hf.
  - destruct (queue_find_first _ _ _ HP Hf) as (t & Ht & Hk & Hg & Hfirst).
    destruct (select_target_placed _ t Ht) as (v & Htar & Hplaced & Hidle); [by apply Hfirst|].
    wp_step. apply wp_read. rewrite Ht. simpl. wp_step. apply wp_read. rewrite Htar. simpl.
    pose proof (select_same_thread k v t Hf Ht (proj1 Hplaced) Hidle) as Hsame.
    apply select_idle; [done|congruence|..].
    + intros k' t' Hf' Ht' Hk'. rewrite Hsame in Hf'. simplify_eq.
      apply (astep_select_next (abs s)); [done|by apply abs_lookup|done].
    + intros. by split; [|apply rej_lease_generation].
  - wp_step. split; [done|]. apply astep_select_next_none. exact (queue_find_none _ _ HP Hf).
Qed.

(** *** The whole scheduler *)

(** Core sets come from their checked constructors; [MakeReady] is sent for a
    thread that is not running and has no registered wait. *)
Definition admissible (cmd : SchedulerCommand) : Prop :=
  match cmd with
  | Register c => CoreSet_wf (affinity c)
  | Migrate _ _ c => CoreSet_wf c
  | MakeReady id => startable id
  | _ => True
  end.

Lemma apply_sound cmd :
  admissible cmd -> wp (apply cmd) (accepted s cmd) (rejected s cmd) s.
Proof.
  destruct cmd; simpl; intros Hadm.
  - by apply register_sound.
  - apply unregister_sound.
  - by apply make_ready_sound.
  - apply select_next_sound.
  - apply select_sound.
  - apply complete_sound.
  - apply register_wait_sound.
  - apply (finish_wait_sound _ false).
  - apply (finish_wait_sound _ true).
  - apply terminate_sound.
  - by apply migrate_sound.
  - apply set_priority_sound.
  - apply set_effective_priority_sound.
  - apply set_activity_sound.
Qed.
End Handlers.
