(* ===== verification/SchedulerProps.v ===== *)
(** * Properties of the scheduler

    Theorems about sequences of commands from a fresh scheduler, and the two
    ways in which [MakeReady] breaks the contract the rest of the scheduler
    relies on. *)

From Stdlib Require Import ZArith Lia Bool Relations.
From stdpp Require Import base decidable tactics gmap list sorting sets relations.
From S2P Require Import Prelude RustInt RustList Lifecycle Topology Scheduler.
From S2P Require Import SchedulerSpec SchedulerInv SchedulerRefine.

(** Commands applied one after the other, each with its result. *)
Inductive steps : SchedulerState ->
    list (SchedulerCommand * res SchedulerError SchedulerDecision) -> SchedulerState -> Prop :=
  | steps_nil s : steps s [] s
  | steps_cons s cmd s' r tr s'' :
      admissible s cmd -> apply cmd s = (s', r) -> steps s' tr s'' ->
      steps s ((cmd, r) :: tr) s''.

(** The same as a function, without the restriction to admissible commands. *)
Fixpoint run (cmds : list SchedulerCommand) (s : SchedulerState) :
    SchedulerState * list (res SchedulerError SchedulerDecision) :=
  match cmds with
  | [] => (s, [])
  | c :: cs =>
      let '(s1, r) := apply c s in
      let '(s2, rs) := run cs s1 in (s2, r :: rs)
  end.

Lemma apply_cases s cmd s' r :
  inv s -> admissible s cmd -> apply cmd s = (s', r) ->
  (exists d, r = Ok d /\ inv s' /\ astep (abs s) cmd d (abs s')) \/
  (exists e, r = Err e /\ s' = s /\ arejects (abs s) cmd e).
Proof.
  intros Hinv Hadm Happ. pose proof (apply_sound s Hinv cmd Hadm) as Hwp. unfold wp in Hwp.
  rewrite Happ in Hwp. destruct r as [d|e|]; [left|right|done].
  - by exists d.
  - by exists e.
Qed.

Lemma apply_inv s cmd s' r :
  inv s -> admissible s cmd -> apply cmd s = (s', r) -> inv s'.
Proof. intros Hinv Hadm [(? & _ & ? & _)|(? & _ & -> & _)]%apply_cases; done. Qed.

Lemma steps_inv s tr s' : inv s -> steps s tr s' -> inv s'.
Proof. intros Hinv Hs. induction Hs; [done|]. eauto using apply_inv. Qed.

(** ** Rejected commands change nothing *)

Definition reads {A} (m : Sched A) : Prop := forall s, (m s).1 = s.
Definition never_errs {A} (m : Sched A) : Prop := forall s e, (m s).2 <> Err e.
Definition atomic {A} (m : Sched A) : Prop := forall s e, (m s).2 = Err e -> (m s).1 = s.

Section Atomic.
Context {A B : Type}.

Lemma atomic_reads (m : Sched A) : reads m -> atomic m.
Proof. intros Hm s e _. apply Hm. Qed.

Lemma atomic_never_errs (m : Sched A) : never_errs m -> atomic m.
Proof. intros Hm s e He. by destruct (Hm s e). Qed.

Lemma atomic_bind_reads (m : Sched A) (f : A -> Sched B) :
  reads m -> (forall a, atomic (f a)) -> atomic (m ≫= f).
Proof.
  intros Hm Hf s e. unfold mbind, M_bind. specialize (Hm s).
  destruct (m s) as [s' [a|e'|]]; simpl in *; subst; [|done..]. apply Hf.
Qed.

Lemma atomic_bind_commit (m : Sched A) (f : A -> Sched B) :
  atomic m -> (forall a, never_errs (f a)) -> atomic (m ≫= f).
Proof.
  intros Hm Hf s e. unfold mbind, M_bind. specialize (Hm s).
  destruct (m s) as [s' [a|e'|]]; simpl in *; [|eauto|done].
  intros He. by destruct (Hf a s' e).
Qed.

Lemma never_errs_bind (m : Sched A) (f : A -> Sched B) :
  never_errs m -> (forall a, never_errs (f a)) -> never_errs (m ≫= f).
Proof.
  intros Hm Hf s e. unfold mbind, M_bind. specialize (Hm s).
  destruct (m s) as [s' [a|e'|]]; simpl in *; [apply Hf|by destruct (Hm e')|done].
Qed.

Lemma never_errs_ret (a : A) : never_errs (mret a).
Proof. done. Qed.
End Atomic.

Lemma reads_guard b e : reads (guard_err b e).
Proof. by destruct b. Qed.
Lemma atomic_allocate : atomic allocate_sequence.
Proof. intros s e. unfold allocate_sequence. by destruct (checked_add _ _ _). Qed.
Lemma atomic_allocate_lease : atomic allocate_lease_generation.
Proof. intros s e. unfold allocate_lease_generation. by destruct (checked_add _ _ _). Qed.
Lemma atomic_allocate_wake : atomic allocate_wake_generation.
Proof. intros s e. unfold allocate_wake_generation. by destruct (checked_add _ _ _). Qed.

Lemma never_errs_thread_mut id f :
  (forall t e, f t <> Err e) -> never_errs (thread_mut id f).
Proof.
  intros Hf s e. unfold thread_mut. destruct (threads s !! id) as [t|]; [|done].
  specialize (Hf t). destruct (f t) as [|e'|]; try done. by destruct (Hf e').
Qed.
Lemma never_errs_set_lease v l : never_errs (vcpu_set_lease v l).
Proof. intros s e. unfold vcpu_set_lease. by destruct (vcpus s !! v). Qed.
Lemma never_errs_insert k : never_errs (ready_insert_m k).
Proof. intros s e. unfold ready_insert_m. by destruct (ready_insert k (ready s)). Qed.
Lemma never_errs_remove k : never_errs (ready_remove_m k).
Proof. intros s e. unfold ready_remove_m. by destruct (ready_remove k (ready s)). Qed.
Lemma never_errs_assert b : never_errs (debug_assert b).
Proof. by destruct b. Qed.
Lemma never_errs_expect {A} (f : SchedulerState -> option A) :
  never_errs (fun s => (s, expect (f s))).
Proof. intros s e. simpl. by destruct (f s). Qed.
Lemma never_errs_modify f : never_errs (modify f).
Proof. done. Qed.

Lemma expect_transition_no_err l t e : expect_transition l t <> Err e.
Proof. unfold expect_transition. by destruct (transition_thread l (lifecycle t)) as [? [[]| |]]. Qed.

Lemma never_errs_remove_opt k : never_errs (ready_remove_opt k).
Proof.
  destruct k; simpl; [|done]. apply never_errs_bind; [apply never_errs_remove|done].
Qed.

Create HintDb atomic.
#[export] Hint Resolve reads_guard atomic_allocate atomic_allocate_lease atomic_allocate_wake
  never_errs_thread_mut never_errs_set_lease never_errs_insert never_errs_remove
  never_errs_assert never_errs_expect never_errs_modify never_errs_remove_opt
  expect_transition_no_err never_errs_ret atomic_never_errs atomic_reads : atomic.

Ltac reads_solve :=
  lazymatch goal with
  | |- reads (match ?x with _ => _ end) => destruct x; reads_solve
  | |- _ => first [done|by auto with atomic|by intros ?]
  end.

(** Splits a handler into its checks, its allocation and its commit. *)
Ltac atomic_step :=
  intros;
  first
    [ lazymatch goal with
      | |- never_errs (mbind _ _) => apply never_errs_bind
      | |- never_errs (match ?x with _ => _ end) => destruct x
      | |- atomic (match ?x with _ => _ end) => destruct x
      end
    | solve [auto with atomic]
    | done
    | lazymatch goal with
      | |- atomic (mbind _ _) =>
          first [ apply atomic_bind_reads; [solve [reads_solve]|]
                | apply atomic_bind_commit ]
      end ].

Lemma never_errs_enqueue id q : never_errs (enqueue_existing_with_sequence id q).
Proof. unfold enqueue_existing_with_sequence. repeat atomic_step. Qed.

Lemma never_errs_requeue id p k : never_errs (requeue id p k).
Proof. unfold requeue. repeat atomic_step. Qed.

Lemma complete_outcome_no_err o t e : complete_outcome o t <> Err e.
Proof.
  destruct o; simpl; unfold expect_transition.
  all: repeat (unfold mbind, res_bind; simpl; case_match; simplify_eq; try done).
Qed.
#[export] Hint Resolve never_errs_enqueue never_errs_requeue complete_outcome_no_err : atomic.

Lemma atomic_select v : atomic (select v).
Proof.
  unfold select. repeat atomic_step. apply never_errs_thread_mut. intros t e.
  unfold expect_transition.
  by destruct (transition_thread Running (lifecycle t)) as [? [[]| |]].
Qed.

#[export] Hint Resolve atomic_select : atomic.

Lemma apply_atomic cmd : atomic (apply cmd).
Proof.
  destruct cmd; simpl; [unfold register|unfold unregister|unfold make_ready|unfold select_next
    |apply atomic_select|unfold complete|unfold register_wait|unfold finish_wait
    |unfold finish_wait|unfold terminate|unfold migrate|unfold set_priority
    |unfold set_effective_priority|unfold set_activity].
  all: repeat atomic_step.
Qed.

(** ** Facts carried along command sequences *)

(** Wake generation [g] of thread [id] was issued and is no longer waited on. *)
Definition wake_spent (id g : Z) (a : AState) : Prop :=
  g < a_wake a /\ forall t, a_threads a !! id = Some t -> a_status t <> AWaiting (Some g).

(** Lease generation [g] was issued to [id] on [v] and has been given back. *)
Definition lease_spent (id v g : Z) (a : AState) : Prop :=
  g < a_lease a /\ forall t, a_threads a !! id = Some t -> a_status t <> ARunning v g.

Ltac astep_cases id :=
  let H := fresh "H" in
  intros H; inversion H; subst; unfold enqueue in *; simpl in *;
  try match goal with o : Completion |- _ => destruct o; simpl in * end.

Ltac at_thread :=
  repeat match goal with
  | H : <[_ := _]> _ !! _ = Some _ |- _ => apply lookup_insert_Some in H as [[? <-]|[? H]]
  | H : delete _ _ !! _ = Some _ |- _ => apply lookup_delete_Some in H as [? H]
  end; subst.

Lemma wake_spent_step id g a cmd d a' :
  wake_spent id g a -> astep a cmd d a' -> wake_spent id g a'.
Proof.
  intros [Hg Hs]. astep_cases id; (split; [simpl; lia|]); simpl; intros t' Ht'; at_thread;
    simplify_eq; simpl; try (by apply Hs); try done.
  - intros [=]. lia.
  - by destruct faulted.
Qed.

Lemma lease_spent_step id v g a cmd d a' :
  lease_spent id v g a -> astep a cmd d a' -> lease_spent id v g a'.
Proof.
  intros [Hg Hs]. astep_cases id; (split; [simpl; lia|]); simpl; intros t' Ht'; at_thread;
    simplify_eq; simpl; try (by apply Hs); try done.
  - intros [=]. lia.
  - intros [=]. lia.
  - by destruct faulted.
Qed.

Lemma steps_preserve (P : AState -> Prop) s tr s' :
  (forall a cmd d a', P a -> astep a cmd d a' -> P a') ->
  inv s -> steps s tr s' -> P (abs s) -> P (abs s').
Proof.
  intros HP Hinv Hs. induction Hs as [|s cmd s1 r tr s2 Hadm Happ _ IH]; [done|]. intros HPs.
  pose proof (apply_inv _ _ _ _ Hinv Hadm Happ) as Hinv1. apply IH; [done|].
  destruct (apply_cases _ _ _ _ Hinv Hadm Happ) as [(d & _ & _ & Hst)|(e & _ & -> & _)]; [|done].
  by eapply HP.
Qed.

Lemma wake_accepted_spent s w cmd s' d :
  inv s -> cmd = Wake w \/ cmd = CancelWait w -> apply cmd s = (s', Ok d) ->
  wake_spent (token_thread w) (token_generation w) (abs s').
Proof.
  intros Hinv Hcmd Happ.
  destruct (apply_cases s cmd s' (Ok d) Hinv) as [(d' & [= <-] & Hinv' & Hst)|(e & ? & _)];
    [by destruct Hcmd as [-> | ->]|done| |done].
  assert (exists t, a_threads (abs s) !! token_thread w = Some t /\
    a_status t = AWaiting (Some (token_generation w)) /\
    abs s' = enqueue (token_thread w) t (abs s)) as (a & Ha & Hw & ->).
  { generalize dependent (abs s'). intros a' Hst. destruct Hcmd as [-> | ->]; inversion Hst; subst; simpl;
      eexists; split_and!; eauto. }
  apply abs_lookup_inv in Ha as (t & Ht & ->). split.
  - simpl. simpl in Hw. unfold abs_status in Hw.
    pose proof (inv_threads _ Hinv _ _ Ht) as (_ & _ & Hf).
    destruct (lifecycle t); try done; [by destruct (ready_key t)|by destruct (active_lease t)|].
    destruct (active_wait t) as [w'|]; [|done]. destruct Hf as (_ & _ & Hf).
    destruct (Hf w' eq_refl). simpl in Hw. simplify_eq. lia.
  - intros t'. simpl. rewrite lookup_insert_eq. intros [= <-]. done.
Qed.

Lemma spent_wake_rejected s w b :
  wake_spent (token_thread w) (token_generation w) (abs s) -> inv s ->
  finish_wait w b s = (s, Err (UnknownThread (token_thread w))) \/
  finish_wait w b s = (s, Err (StaleWake w)).
Proof.
  intros [_ Hs] Hinv. unfold finish_wait, mbind, M_bind, get_thread.
  destruct (threads s !! token_thread w) as [t|] eqn:Ht; simpl; [|by left]. right.
  unfold guard_err. destruct (bool_decide _) eqn:Hb; [done|]. guards. exfalso.
  apply (Hs _ (abs_lookup _ _ _ Ht)).
  destruct (thread_ok_wait _ _ _ _ _ _ _ (inv_threads _ Hinv _ _ Ht) Hb) as (_ & _ & Hl & _).
  simpl. unfold abs_status. by rewrite Hl, Hb.
Qed.

Lemma complete_accepted_spent s l o s' d :
  inv s -> apply (Complete l o) s = (s', Ok d) ->
  lease_spent (lease_thread l) (lease_vcpu l) (lease_generation l) (abs s').
Proof.
  intros Hinv Happ.
  destruct (apply_cases s (Complete l o) s' (Ok d) Hinv I Happ) as [(d' & [= <-] & Hinv' & Hst)|(e & ? & _)];
    [|done].
  generalize dependent (abs s'). intros a' Hst.
  inversion Hst as [| | | | | | | id a v g o' Ha Hr| | | | | | | | | |]; subst.
  apply abs_lookup_inv in Ha as (t & Ht & ->). simpl in *.
  apply (status_is_running s Hinv id) in Hr; [|done].
  apply (thread_ok_lease _ _ _ _ _ _ _ (inv_threads _ Hinv _ _ Ht)) in Hr as (_ & Hg & _).
  simpl in Hg. split.
  - destruct o; simpl; lia.
  - intros t'. destruct o; simpl; rewrite lookup_insert_eq; by intros [= <-].
Qed.

Lemma spent_lease_rejected s l o :
  lease_spent (lease_thread l) (lease_vcpu l) (lease_generation l) (abs s) -> inv s ->
  complete l o s = (s, Err (UnknownThread (lease_thread l))) \/
  complete l o s = (s, Err (StaleLease l)).
Proof.
  intros [_ Hs] Hinv. unfold complete, mbind, M_bind, get_thread.
  destruct (threads s !! lease_thread l) as [t|] eqn:Ht; simpl; [|by left]. right.
  unfold guard_err. destruct (bool_decide (active_lease t <> Some l)) eqn:Hb; [done|]. guards.
  exfalso. apply (Hs _ (abs_lookup _ _ _ Ht)).
  destruct (thread_ok_lease _ _ _ _ _ _ _ (inv_threads _ Hinv _ _ Ht) Hb) as (_ & _ & Hl & _).
  simpl. unfold abs_status. by rewrite Hl, Hb.
Qed.

(** ** Lifecycles *)

Definition status_lifecycle (st : Status) : ThreadLifecycle :=
  match st with
  | ACreated => Created
  | AReady _ => Ready
  | ARunning _ _ => Running
  | AWaiting _ => Waiting
  | ASuspended => Suspended
  | AExited => Exited
  | AFaulted => Faulted
  | ATransient => Preempted
  end.

Lemma lifecycle_status s id t :
  inv s -> threads s !! id = Some t -> lifecycle t = status_lifecycle (abs_status t).
Proof.
  intros Hinv Ht. pose proof (inv_threads _ Hinv _ _ Ht) as (_ & _ & Hf). unfold abs_status.
  destruct (lifecycle t); try done; destruct Hf as (? & ? & x & Hx & ?); by rewrite Hx.
Qed.

(** A path of at most two transitions of [transition_thread]. *)
Definition lifecycle_path (a b : ThreadLifecycle) : bool :=
  bool_decide (a = b) || bool_decide (thread_step a b) ||
  existsb (fun m => bool_decide (thread_step a m) && bool_decide (thread_step m b))
    [Preempted; Terminating].

Lemma lifecycle_path_rtc a b : lifecycle_path a b = true -> rtc thread_step a b.
Proof.
  unfold lifecycle_path. intros [[H|H]%orb_true_iff|H]%orb_true_iff.
  - apply bool_decide_eq_true in H as ->. done.
  - apply bool_decide_eq_true in H. by apply rtc_once.
  - apply existsb_exists in H as (m & _ & [H1 H2]%andb_true_iff).
    apply bool_decide_eq_true in H1, H2. by eapply rtc_l, rtc_once.
Qed.

Lemma astep_lifecycle a cmd d a' id t t' :
  astep a cmd d a' -> (forall i x, a_threads a !! i = Some x -> a_status x <> ATransient) ->
  a_threads a !! id = Some t -> a_threads a' !! id = Some t' ->
  lifecycle_path (status_lifecycle (a_status t)) (status_lifecycle (a_status t')) = true.
Proof.
  intros Hst Hno Ht Ht'. revert Hst.
  assert (forall x, lifecycle_path x x = true) as Hrefl by by intros [].
  astep_cases id; at_thread; simplify_eq; simpl; try apply Hrefl.
  all: try match goal with H : first_of _ _ _ |- _ =>
         destruct H as (_ & p & q & (x & Hx & Hq & _) & _);
         rewrite Ht in Hx; injection Hx as <-; by rewrite Hq end.
  all: repeat match goal with
         | H : a_status _ = _ \/ _ |- _ => destruct H as [H|H]
         | H : a_status ?x = _ |- context [a_status ?x] => rewrite H
         end; try done.
  match goal with H : terminable _ _ = true |- _ => revert H end.
  by destruct (a_status t), faulted.
Qed.

Lemma no_transient s id a : inv s -> a_threads (abs s) !! id = Some a -> a_status a <> ATransient.
Proof.
  intros Hinv (t & Ht & ->)%abs_lookup_inv Hst. simpl in Hst.
  pose proof (lifecycle_status s id t Hinv Ht) as Hl. rewrite Hst in Hl. simpl in Hl.
  pose proof (inv_threads _ Hinv _ _ Ht) as (_ & _ & Hf). by rewrite Hl in Hf.
Qed.

(** ** A concrete machine *)

Definition demo_profile : MachineSchedulerProfile :=
  {| profile_vcpus := [{| descriptor_id := 0; cluster := 0 |}; {| descriptor_id := 1; cluster := 0 |};
                       {| descriptor_id := 2; cluster := 0 |}];
     priorities := {| highest := 0; lowest := 63 |};
     default_timeslice_instructions := 100 |}.

Definition demo_config (id priority : Z) : ScheduledThreadConfig :=
  {| process := 1; thread := id; base_priority := priority; effective_priority := priority;
     ideal_vcpu := Some 0; affinity := all_cores demo_profile |}.

Definition demo_lease (id vcpu generation : Z) : Lease :=
  {| lease_process := 1; lease_thread := id; lease_vcpu := vcpu; lease_generation := generation |}.

Lemma demo_profile_wf : profile_wf demo_profile.
Proof. split; [done|]. split; [|done]. by apply strictly_sorted_lt. Qed.

(** [admissible] as a test, to replay concrete commands. *)
Definition admissibleb (s : SchedulerState) (cmd : SchedulerCommand) : bool :=
  match cmd with
  | Register c =>
      bool_decide (cores (affinity c) <> []) && strictly_sorted (cores (affinity c))
  | Migrate _ _ c => bool_decide (cores c <> []) && strictly_sorted (cores c)
  | MakeReady id =>
      match threads s !! id with
      | Some t => bool_decide (lifecycle t <> Running) && bool_decide (active_wait t = None)
      | None => true
      end
  | _ => true
  end.

Lemma admissibleb_ok s cmd : admissibleb s cmd = true -> admissible s cmd.
Proof.
  destruct cmd; simpl; try done.
  - intros [H1 H2]%andb_true_iff. guards. split; [done|]. by apply strictly_sorted_lt.
  - intros H t Ht. rewrite Ht in H. apply andb_true_iff in H as [H1 H2]. by guards.
  - intros [H1 H2]%andb_true_iff. guards. split; [done|]. by apply strictly_sorted_lt.
Qed.

Fixpoint run_admissible (cmds : list SchedulerCommand) (s : SchedulerState) : bool :=
  match cmds with
  | [] => true
  | c :: cs => admissibleb s c && run_admissible cs (apply c s).1
  end.

Lemma run_steps cmds s :
  run_admissible cmds s = true ->
  steps s (zip cmds (run cmds s).2) (run cmds s).1.
Proof.
  revert s. induction cmds as [|c cs IH]; intros s; simpl; [constructor|].
  intros [Hc Hcs]%andb_true_iff. destruct (apply c s) as [s1 r] eqn:Happ. simpl in *.
  specialize (IH s1 Hcs). destruct (run cs s1) as [s2 rs]. simpl in *.
  econstructor; [by apply admissibleb_ok|done|done].
Qed.

Definition demo_commands : list SchedulerCommand :=
  [Register (demo_config 1 20); Register (demo_config 2 10); Register (demo_config 3 10);
   MakeReady 1; MakeReady 2; MakeReady 3; Select 0; SelectNext;
   Complete (demo_lease 2 0 1) CompletionWaiting; RegisterWait 2 Pending].

Definition demo_state : SchedulerState := (run demo_commands (SchedulerState_new demo_profile)).1.

Lemma demo_steps :
  steps (SchedulerState_new demo_profile)
    (zip demo_commands (run demo_commands (SchedulerState_new demo_profile)).2) demo_state.
Proof. apply run_steps. by vm_compute. Qed.

(** ** Theorems *)

(** C32: the scheduler never reaches one of its [expect]s or [debug_assert!]s:
    from a fresh scheduler on a well-formed profile, after any sequence of
    admissible commands, accepted or rejected, no command has panicked and the
    invariant tying ready queue, leases, waits and lifecycles together holds. *)
Theorem scheduler_safety p tr s :
  profile_wf p -> steps (SchedulerState_new p) tr s ->
  inv s /\ Forall (fun cr => cr.2 <> Panic) tr.
Proof.
  intros Hp%new_inv Hs. split; [by eapply steps_inv|].
  induction Hs as [|s cmd s1 r tr s2 Hadm Happ _ IH]; [done|].
  pose proof (apply_inv _ _ _ _ Hp Hadm Happ) as Hinv1. constructor; [|by apply IH].
  by destruct (apply_cases _ _ _ _ Hp Hadm Happ) as [(d & -> & _)|(e & -> & _)].
Qed.

Lemma scheduler_safety_witness :
  profile_wf demo_profile /\ active_wait_count demo_state = 1%nat /\ inv demo_state.
Proof.
  split; [exact demo_profile_wf|]. split; [by vm_compute|].
  exact (proj1 (scheduler_safety _ _ _ demo_profile_wf demo_steps)).
Defined.

(** C1: the scheduler refines its abstract specification: every sequence of
    admissible commands, with the decisions and errors it produced, is a trace
    of the abstract scheduler between the abstractions of the first and last
    states. *)
Theorem scheduler_refines p tr s :
  profile_wf p -> steps (SchedulerState_new p) tr s ->
  atrace (abs (SchedulerState_new p)) tr (abs s).
Proof.
  intros Hp%new_inv Hs. induction Hs as [|s cmd s1 r tr s2 Hadm Happ _ IH]; [constructor|].
  pose proof (apply_inv _ _ _ _ Hp Hadm Happ) as Hinv1.
  destruct (apply_cases _ _ _ _ Hp Hadm Happ) as [(d & -> & _ & Hst)|(e & -> & -> & Hrej)].
  - eapply atrace_accept; [done|by apply IH].
  - eapply atrace_reject; [done|by apply IH].
Qed.

Lemma scheduler_refines_witness :
  exists tr, length tr = 10%nat /\
    atrace (abs (SchedulerState_new demo_profile)) tr (abs demo_state).
Proof.
  eexists. split; [|exact (scheduler_refines _ _ _ demo_profile_wf demo_steps)].
  by vm_compute.
Defined.

(** A rejected command has no effect: whatever the state, reachable or
    not, a handler that returns an error leaves every field of the scheduler,
    counters included, as it found it. *)
Theorem rejected_commands_change_nothing cmd s s' e :
  apply cmd s = (s', Err e) -> s' = s.
Proof.
  intros Happ. pose proof (apply_atomic cmd s e) as Ha. rewrite Happ in Ha. by apply Ha.
Qed.

Lemma rejected_commands_change_nothing_witness :
  (apply (Wake {| token_thread := 2; token_generation := 7 |}) demo_state).1 = demo_state.
Proof.
  apply (rejected_commands_change_nothing (Wake {| token_thread := 2; token_generation := 7 |})
    demo_state _ (StaleWake {| token_thread := 2; token_generation := 7 |})).
  by vm_compute.
Defined.

(** C35: selection is by priority, then first come first served: the thread
    [Select] leases to a virtual CPU was ready, may run there, now runs there
    under the returned lease, and no other ready thread that may run there has
    a more urgent effective priority, or the same one and an earlier arrival.
    This holds in every state that admissible commands reach. *)
Theorem select_priority_then_fifo p tr s v s' l :
  profile_wf p -> steps (SchedulerState_new p) tr s ->
  apply (Select v) s = (s', Ok (Selected (Some l))) ->
  exists t k, threads s !! lease_thread l = Some t /\ lifecycle t = Ready /\
    ready_key t = Some k /\ core_contains (affinity (config t)) v = true /\
    lease_for_vcpu s v = None /\ lease_for_vcpu s' v = Some l /\
    forall id' t', threads s !! id' = Some t' -> lifecycle t' = Ready ->
      core_contains (affinity (config t')) v = true ->
      exists k', ready_key t' = Some k' /\
        (effective_priority (config t) < effective_priority (config t') \/
         effective_priority (config t) = effective_priority (config t') /\
         key_sequence k <= key_sequence k').
Proof.
  intros Hp%new_inv Hs Happ. pose proof (steps_inv _ _ _ Hp Hs) as Hinv.
  destruct (apply_cases s (Select v) s' _ Hinv I Happ) as [(d & [= <-] & Hinv' & Hst)|(? & ? & _)];
    [|done].
  assert (exists id t, a_idle (abs s) v /\ first_of (abs s) (may_run (abs s) v) id /\
    a_threads (abs s) !! id = Some t /\ l = a_lease_of id t v (next_lease_generation s) /\
    abs s' = next_lease (put id (with_status (ARunning v (next_lease_generation s)) t) (abs s)))
    as (id & at_ & Hidle & (Hrun & pr & q & Hq & Hmin) & (t & Ht & ->)%abs_lookup_inv & -> & Habs).
  { generalize dependent (abs s'). intros a' Hst. inversion Hst; subst. eauto 10. }
  pose proof Hq as (k0 & Hk0 & Hkey)%(queued_ready s Hinv)%(inv_ready _ Hinv). simpl in Hk0.
  rewrite Ht in Hk0. injection Hk0 as <-.
  destruct (thread_ok_key _ _ _ _ _ _ _ (inv_threads _ Hinv _ _ Ht) Hkey) as (_ & _ & Hrdy & Hpr).
  exists t, {| key_priority := pr; key_sequence := q; key_thread := id |}. simpl in *.
  split_and!; [done..| | | |].
  - by apply (may_run_spec s Hinv v id t Ht).
  - apply (vcpu_idle_spec s Hinv) in Hidle. unfold vcpu_idle in Hidle. unfold lease_for_vcpu.
    destruct (vcpus s !! v) as [slot|]; [|done]. by guards.
  - assert (a_threads (abs s') !! id = Some (with_status (ARunning v (next_lease_generation s))
      (abs_thread t))) as Ha' by (rewrite Habs; simpl; by rewrite lookup_insert_eq).
    apply abs_lookup_inv in Ha' as (t1 & Ht1 & He1). apply (inv_slots _ Hinv').
    exists t1. split; [done|]. split; [|done]. injection He1 as Hc1 Hs1 Hl1.
    symmetry in Hs1. apply (status_is_running s' Hinv' id) in Hs1 as ->; [|done].
    unfold a_lease_of. simpl. by rewrite Hc1.
  - intros id' t' Ht' Hr' Hc'. pose proof (inv_threads _ Hinv _ _ Ht') as (_ & _ & Hf).
    rewrite Hr' in Hf. destruct Hf as (_ & _ & k' & Hk' & Hp' & Hid' & _). exists k'.
    split; [done|]. rewrite <- Hpr, <- Hp'. apply (Hmin id').
    + by apply (may_run_spec s Hinv v id' t' Ht').
    + apply (queued_ready s Hinv). apply (inv_ready _ Hinv). exists t'. simpl.
      split; [done|]. destruct k'. simpl in *. by subst.
Qed.

Lemma select_priority_then_fifo_witness :
  let cmds := take 6 demo_commands in
  let s := (run cmds (SchedulerState_new demo_profile)).1 in
  exists t, threads s !! 2 = Some t /\ lifecycle t = Ready /\
    forall t', threads s !! 3 = Some t' -> lifecycle t' = Ready ->
      core_contains (affinity (config t')) 0 = true ->
      effective_priority (config t) <= effective_priority (config t').
Proof.
  intros cmds s.
  assert (steps (SchedulerState_new demo_profile)
    (zip cmds (run cmds (SchedulerState_new demo_profile)).2) s) as Hs
    by (apply run_steps; by vm_compute).
  destruct (select_priority_then_fifo _ _ _ 0 (apply (Select 0) s).1 (demo_lease 2 0 1)
    demo_profile_wf Hs) as (t & k & Ht & Hr & _ & _ & _ & _ & Hmin); [by vm_compute|].
  exists t. split; [exact Ht|]. split; [exact Hr|]. intros t' Ht' Hr' Hc'.
  destruct (Hmin 3 t' Ht' Hr' Hc') as (k' & _ & Hle). lia.
Defined.

Lemma vcpu_idle_lease s v :
  inv s -> v ∈ vcpu_ids (profile s) -> vcpu_idle s v = true <-> lease_for_vcpu s v = None.
Proof.
  intros Hinv [slot Hslot]%(inv_vcpus _ Hinv). unfold vcpu_idle, lease_for_vcpu.
  rewrite Hslot. simpl. by rewrite bool_decide_eq_true.
Qed.

Lemma ready_queued s id t :
  inv s -> threads s !! id = Some t -> lifecycle t = Ready ->
  exists q, queued (abs s) id (effective_priority (config t)) q.
Proof.
  intros Hinv Ht Hr. pose proof (inv_threads _ Hinv _ _ Ht) as (_ & _ & Hf).
  rewrite Hr in Hf. destruct Hf as (_ & _ & k & Hk & _). exists (key_sequence k), (abs_thread t).
  split; [by apply abs_lookup|]. simpl. unfold abs_status. by rewrite Hr, Hk.
Qed.

Lemma select_next_no_other_error s e :
  inv s -> (apply SelectNext s).2 = Err e -> e = LeaseGenerationExhausted.
Proof.
  intros Hinv He. destruct (apply SelectNext s) as [s' r] eqn:Happ. simpl in He. subst.
  destruct (apply_cases s SelectNext s' _ Hinv I Happ) as [(? & ? & _)|(e' & [= <-] & -> & Hrej)];
    [done|].
  inversion Hrej; subst; try done; naive_solver.
Qed.

(** Four ready threads and three [SelectNext]s on the two-core profile. *)
Definition busy_commands : list SchedulerCommand :=
  [Register (demo_config 1 20); Register (demo_config 2 10); Register (demo_config 3 10);
   Register (demo_config 4 5); MakeReady 1; MakeReady 2; MakeReady 3; MakeReady 4;
   SelectNext; SelectNext; SelectNext].

Definition busy_state : SchedulerState :=
  (run busy_commands (SchedulerState_new demo_profile)).1.

(** C36: selection is work conserving: while lease generations last,
    [SelectNext] always succeeds in every state that admissible commands reach,
    and it finds nothing to run exactly when every core of every ready thread's
    affinity is already leased. *)
Theorem select_next_work_conserving p tr s :
  profile_wf p -> steps (SchedulerState_new p) tr s ->
  next_lease_generation s + 1 < 2 ^ 64 ->
  exists s' r, apply SelectNext s = (s', Ok (Selected r)) /\
  (r = None <->
   forall id t v, threads s !! id = Some t -> lifecycle t = Ready ->
     v ∈ cores (affinity (config t)) -> lease_for_vcpu s v <> None).
Proof.
  intros Hp%new_inv Hs Hgen. pose proof (steps_inv _ _ _ Hp Hs) as Hinv.
  destruct (apply SelectNext s) as [s' r] eqn:Happ.
  destruct (apply_cases s SelectNext s' r Hinv I Happ) as [(d & -> & _ & Hst)|(e & -> & -> & Hrej)].
  2: { assert (e = LeaseGenerationExhausted) as ->
         by (eapply select_next_no_other_error; [done|by rewrite Happ]).
       exfalso. inversion Hrej; simpl in *; lia. }
  assert (forall id t v, threads s !! id = Some t -> v ∈ cores (affinity (config t)) ->
    lease_for_vcpu s v = None <-> a_idle (abs s) v) as Hidle.
  { intros id t v Ht Hv. pose proof (inv_threads _ Hinv _ _ Ht) as (_ & (_ & Hin & _) & _).
    rewrite <- (vcpu_idle_spec s Hinv). symmetry. apply vcpu_idle_lease; auto. }
  generalize dependent (abs s'). intros a' Hst. inversion Hst as [| | | | |Hno Heq|v id a Hfirst Ha Hpl| | | | | | | | | | |]; subst.
  - exists s', None. split; [done|]. split; [|done]. intros _ id t v Ht Hr Hv Hnone.
    destruct (ready_queued s id t Hinv Ht Hr) as [q Hq]. eapply (Hno id _ q); [|exact Hq].
    exists v. split; [exists (abs_thread t); by split; [apply abs_lookup|]|by eapply Hidle].
  - exists s', (Some (a_lease_of id a v (next_lease_generation s))). split; [done|].
    split; [done|]. intros Hbusy. exfalso. apply abs_lookup_inv in Ha as (t & Ht & ->).
    destruct Hfirst as (_ & pr & q & Hq & _).
    apply (queued_ready s Hinv), (inv_ready _ Hinv) in Hq as (t' & Ht' & Hk). simpl in Ht'.
    rewrite Ht in Ht'. injection Ht' as <-. destruct Hpl as (Hv & Hvi & _).
    destruct (thread_ok_key _ _ _ _ _ _ _ (inv_threads _ Hinv _ _ Ht) Hk) as (_ & _ & Hr & _).
    by apply (Hbusy id t v Ht Hr Hv), (Hidle id t v Ht Hv).
Qed.

Lemma select_next_work_conserving_witness :
  exists s' r, apply SelectNext busy_state = (s', Ok (Selected r)) /\
  (r = None <->
   forall id t v, threads busy_state !! id = Some t -> lifecycle t = Ready ->
     v ∈ cores (affinity (config t)) -> lease_for_vcpu busy_state v <> None).
Proof.
  apply (select_next_work_conserving demo_profile
    (zip busy_commands (run busy_commands (SchedulerState_new demo_profile)).2)).
  - exact demo_profile_wf.
  - apply run_steps; by vm_compute.
  - by vm_compute.
Defined.

(** A guest thread runs on at most one virtual CPU: in every state reached
    by admissible commands, two leases on one thread are the same lease on the
    same virtual CPU, and the thread they name is running. *)
Theorem one_lease_per_thread p tr s v v' l l' :
  profile_wf p -> steps (SchedulerState_new p) tr s ->
  lease_for_vcpu s v = Some l -> lease_for_vcpu s v' = Some l' ->
  lease_thread l = lease_thread l' ->
  v = v' /\ l = l' /\ exists t, threads s !! lease_thread l = Some t /\ lifecycle t = Running.
Proof.
  intros Hp%new_inv Hs Hl Hl' He. pose proof (steps_inv _ _ _ Hp Hs) as Hinv.
  apply (inv_slots _ Hinv) in Hl as (t & Ht & Ha & <-), Hl' as (t' & Ht' & Ha' & <-).
  rewrite <- He, Ht in Ht'. injection Ht' as <-. rewrite Ha in Ha'. injection Ha' as <-.
  split_and!; [done..|]. exists t. split; [done|].
  by destruct (thread_ok_lease _ _ _ _ _ _ _ (inv_threads _ Hinv _ _ Ht) Ha) as (_ & _ & ? & _).
Qed.

Lemma one_lease_per_thread_witness :
  exists t, threads demo_state !! 3 = Some t /\ lifecycle t = Running.
Proof.
  exact (proj2 (proj2 (one_lease_per_thread _ _ _ 1 1 (demo_lease 3 1 2) (demo_lease 3 1 2)
    demo_profile_wf demo_steps ltac:(by vm_compute) ltac:(by vm_compute) eq_refl))).
Defined.

(** A wake token has one winner: once a wake or a cancellation of a token
    is accepted, every later wake or cancellation of the same token, after any
    admissible commands, is rejected as stale (or its thread is gone). *)
Theorem wake_token_single_use p tr s w cmd s1 d tr' s2 (cancel : bool) :
  profile_wf p -> steps (SchedulerState_new p) tr s ->
  cmd = Wake w \/ cmd = CancelWait w -> apply cmd s = (s1, Ok d) ->
  steps s1 tr' s2 ->
  let again := apply (if cancel then CancelWait w else Wake w) s2 in
  again = (s2, Err (UnknownThread (token_thread w))) \/ again = (s2, Err (StaleWake w)).
Proof.
  intros Hp%new_inv Hs Hcmd Happ Hs' again. pose proof (steps_inv _ _ _ Hp Hs) as Hinv.
  assert (inv s1) as Hinv1.
  { eapply (apply_inv s cmd); [done| |done]. by destruct Hcmd as [-> | ->]. }
  pose proof (wake_accepted_spent s w cmd s1 d Hinv Hcmd Happ) as Hsp.
  eapply steps_preserve in Hsp; [|apply wake_spent_step|done|done].
  unfold again. destruct cancel; apply spent_wake_rejected; try done; by eapply steps_inv.
Qed.

Lemma wake_token_single_use_witness :
  let w := {| token_thread := 2; token_generation := 1 |} in
  let s1 := (apply (Wake w) demo_state).1 in
  let again := apply (CancelWait w) s1 in
  again = (s1, Err (UnknownThread 2)) \/ again = (s1, Err (StaleWake w)).
Proof.
  intros w s1. apply (wake_token_single_use _ _ demo_state w (Wake w) s1 (Woken 2) [] s1 true
    demo_profile_wf demo_steps); [by left|by vm_compute|constructor].
Defined.

(** A lease is given back once: after a completion of a lease is accepted,
    completing the same lease again, after any admissible commands, is rejected
    as stale (or its thread is gone) and changes nothing. *)
Theorem lease_single_use p tr s l o s1 d tr' s2 o' :
  profile_wf p -> steps (SchedulerState_new p) tr s ->
  apply (Complete l o) s = (s1, Ok d) -> steps s1 tr' s2 ->
  let again := apply (Complete l o') s2 in
  again = (s2, Err (UnknownThread (lease_thread l))) \/ again = (s2, Err (StaleLease l)).
Proof.
  intros Hp%new_inv Hs Happ Hs' again. pose proof (steps_inv _ _ _ Hp Hs) as Hinv.
  pose proof (apply_inv s (Complete l o) s1 _ Hinv I Happ) as Hinv1.
  pose proof (complete_accepted_spent s l o s1 d Hinv Happ) as Hsp.
  eapply steps_preserve in Hsp; [|apply lease_spent_step|done|done].
  apply spent_lease_rejected; [done|]. by eapply steps_inv.
Qed.

Lemma lease_single_use_witness :
  let l := demo_lease 3 1 2 in
  let s1 := (apply (Complete l CompletionPreempted) demo_state).1 in
  let again := apply (Complete l CompletionExited) s1 in
  again = (s1, Err (UnknownThread 3)) \/ again = (s1, Err (StaleLease l)).
Proof.
  intros l s1. apply (lease_single_use _ _ demo_state l CompletionPreempted s1 (Completed 3) [] s1
    CompletionExited demo_profile_wf demo_steps); [by vm_compute|constructor].
Defined.

(** Commands move a thread only along the lifecycle table: when a thread
    is registered before and after an admissible command, its lifecycle has
    changed by transitions [transition_thread] allows; in particular an exited
    or faulted thread stays so. *)
Theorem lifecycles_follow_the_table p tr s cmd s' r id t t' :
  profile_wf p -> steps (SchedulerState_new p) tr s -> admissible s cmd ->
  apply cmd s = (s', r) -> threads s !! id = Some t -> threads s' !! id = Some t' ->
  rtc thread_step (lifecycle t) (lifecycle t') /\
  (terminal (lifecycle t) = true -> lifecycle t' = lifecycle t).
Proof.
  intros Hp%new_inv Hs Hadm Happ Ht Ht'. pose proof (steps_inv _ _ _ Hp Hs) as Hinv.
  pose proof (apply_inv _ _ _ _ Hinv Hadm Happ) as Hinv'.
  assert (rtc thread_step (lifecycle t) (lifecycle t')) as Hrtc.
  { destruct (apply_cases _ _ _ _ Hinv Hadm Happ) as [(d & _ & _ & Hst)|(e & _ & -> & _)].
    - rewrite (lifecycle_status s id t), (lifecycle_status s' id t') by done.
      apply lifecycle_path_rtc.
      exact (astep_lifecycle _ _ _ _ id _ _ Hst (fun i x => no_transient s i x Hinv)
        (abs_lookup _ _ _ Ht) (abs_lookup _ _ _ Ht')).
    - rewrite Ht in Ht'. by injection Ht' as <-. }
  split; [done|]. intros Hterm. inversion Hrtc as [|? y ? Hy]; [done|].
  by destruct (transition_final _ y Hterm).
Qed.

Lemma lifecycles_follow_the_table_witness :
  exists t t', threads demo_state !! 3 = Some t /\ rtc thread_step (lifecycle t) (lifecycle t').
Proof.
  set (s' := (apply (Complete (demo_lease 3 1 2) CompletionExited) demo_state).1).
  destruct (threads demo_state !! 3) as [t|] eqn:Ht; [|by vm_compute in Ht].
  destruct (threads s' !! 3) as [t'|] eqn:Ht'; [|by vm_compute in Ht'].
  exists t, t'. split; [done|].
  apply (lifecycles_follow_the_table demo_profile _ demo_state
    (Complete (demo_lease 3 1 2) CompletionExited) s' (Ok (Completed 3)) 3 t t'
    demo_profile_wf demo_steps I); [by vm_compute|exact Ht|exact Ht'].
Defined.

(** ** [MakeReady] outside its contract *)

Lemma Sched_bind_ok {A B} (m : Sched A) (f : A -> Sched B) s s' a :
  m s = (s', Ok a) -> (m ≫= f) s = f a s'.
Proof. apply M_bind_ok. Qed.

(** The key under which [MakeReady] queues a thread. *)
Definition next_key (s : SchedulerState) (id : GuestThreadId) (t : ScheduledThread) : ReadyKey :=
  {| key_priority := effective_priority (config t); key_sequence := next_sequence s; key_thread := id |}.

(** A running thread after [MakeReady]: queued, and still leased. *)
Definition requeued (s : SchedulerState) (id : GuestThreadId) (t : ScheduledThread) : SchedulerState :=
  with_ready (ready_insert (next_key s id t) (ready s)).1
    (with_threads <[id := set_ready_key (Some (next_key s id t)) (set_lifecycle Ready t)]>
      (with_counters (next_sequence s + 1) (next_lease_generation s) (next_wake_generation s) s)).

Lemma make_ready_running s id t :
  inv s -> threads s !! id = Some t -> lifecycle t = Running -> next_sequence s + 1 < 2 ^ 64 ->
  apply (MakeReady id) s = (requeued s id t, Ok (Enqueued id (next_sequence s))).
Proof.
  intros Hinv Ht Hr Hseq. cbn [apply]. unfold make_ready.
  assert (get_thread id s = (s, Ok t)) as Hg by (unfold get_thread; by rewrite Ht).
  rewrite (Sched_bind_ok _ _ _ _ _ Hg). rewrite Hr. rewrite (Sched_bind_ok _ _ s s Ready) by done.
  set (s1 := with_counters (next_sequence s + 1) (next_lease_generation s) (next_wake_generation s) s).
  assert (allocate_sequence s = (s1, Ok (next_sequence s))) as Ha.
  { unfold allocate_sequence, checked_add. by rewrite (proj2 (Z.ltb_lt _ _) Hseq). }
  rewrite (Sched_bind_ok _ _ _ _ _ Ha). cbv zeta.
  rewrite (Sched_bind_ok _ _ s1 s1 t) by (cbn; by rewrite Ht).
  set (s2 := with_threads <[id := set_ready_key (Some (next_key s id t)) (set_lifecycle Ready t)]> s1).
  rewrite (Sched_bind_ok _ _ s1 s2 tt) by (unfold thread_mut; cbn; by rewrite Ht).
  rewrite (Sched_bind_ok _ _ s2 (requeued s id t) true); [done|].
  pose proof (fresh_key_inserted s (next_key s id t) Hinv (Z.le_refl _)) as Hi.
  unfold ready_insert_m, requeued. fold s1. fold s2. cbn [ready s2 s1 with_threads with_counters].
  fold (next_key s id t). by destruct (ready_insert _ _) as [r b]; simpl in *; subst.
Qed.

(** [vcpu] may run thread [t], and no queued thread that [vcpu] may run has its
    priority or a better one. *)
Definition first_for (s : SchedulerState) (vcpu : VirtualCpuId) (t : ScheduledThread) : Prop :=
  core_contains (affinity (config t)) vcpu = true /\
  forall k u, k ∈ ready s -> threads s !! key_thread k = Some u ->
    core_contains (affinity (config u)) vcpu = true -> effective_priority (config t) < key_priority k.

Lemma requeued_found s id t vcpu :
  inv s -> threads s !! id = Some t -> lifecycle t = Running -> first_for s vcpu t ->
  List.find (fun key => match threads (requeued s id t) !! key_thread key with
                        | Some u => core_contains (affinity (config u)) vcpu
                        | None => false
                        end) (ready (requeued s id t)) = Some (next_key s id t).
Proof.
  intros Hinv Ht Hr [Hc Hfirst]. set (f := fun key : ReadyKey => _).
  assert (f (next_key s id t) = true) as Hk by (unfold f; cbn; by rewrite lookup_insert_eq).
  destruct (List.find f _) as [k|] eqn:Hf.
  2: { eapply find_none_all in Hf; [by rewrite Hk in Hf|]. cbn. apply ready_insert_elem. by left. }
  eapply find_least in Hf as (Hin & Hfk & Hmin); [|apply ready_insert_sorted, Hinv].
  cbn in Hin, Hmin. apply ready_insert_elem in Hin as [->|Hin]; [done|exfalso].
  destruct (Hmin (next_key s id t)) as [<-|Hlt]; [apply ready_insert_elem; by left|done|..].
  - apply (ready_key_bound _ Hinv) in Hin. cbn in Hin. lia.
  - apply key_lt_spec in Hlt. cbn in Hlt.
    destruct (proj1 (inv_ready _ Hinv k) Hin) as (u & Hu & Huk).
    unfold f in Hfk. cbn in Hfk. destruct (decide (key_thread k = id)) as [E|E].
    + rewrite E, Ht in Hu. injection Hu as <-.
      destruct (thread_ok_key _ _ _ _ _ _ _ (inv_threads _ Hinv _ _ Ht) Huk) as (_ & _ & ? & _). congruence.
    + rewrite lookup_insert_ne, Hu in Hfk by done. specialize (Hfirst k u Hin Hu Hfk). lia.
Qed.

Lemma select_requeued s id t vcpu :
  inv s -> threads s !! id = Some t -> lifecycle t = Running -> first_for s vcpu t ->
  lease_for_vcpu s vcpu = None -> next_lease_generation s + 1 < 2 ^ 64 ->
  let l := {| lease_process := process (config t); lease_thread := id; lease_vcpu := vcpu;
              lease_generation := next_lease_generation s |} in
  exists s2, apply (Select vcpu) (requeued s id t) = (s2, Ok (Selected (Some l))) /\
    (threads s2 !! id = Some (set_active_lease (Some l) (set_ready_key None (set_lifecycle Running
                                (set_ready_key (Some (next_key s id t)) (set_lifecycle Ready t)))))) /\
    vcpus s2 = <[vcpu := {| slot_lease := Some l |}]> (vcpus s).
Proof.
  intros Hinv Ht Hr Hfirst Hidle Hgen l. set (s1 := requeued s id t).
  assert (is_Some (vcpus s !! vcpu)) as [slot Hslot].
  { apply (inv_vcpus _ Hinv). destruct (inv_threads _ Hinv _ _ Ht) as (_ & Hp & _).
    apply Hp, core_contains_spec; [apply Hp|apply Hfirst]. }
  unfold lease_for_vcpu in Hidle. rewrite Hslot in Hidle. cbn in Hidle.
  cbn [apply]. unfold select.
  rewrite (Sched_bind_ok _ _ s1 s1 slot) by (cbn; by rewrite Hslot).
  rewrite Hidle. rewrite (Sched_bind_ok _ _ s1 s1 tt) by done.
  rewrite (Sched_bind_ok _ _ s1 s1 (Some (next_key s id t))) by (unfold gets; do 2 f_equal; by apply requeued_found).
  set (s2 := with_counters (next_sequence s1) (next_lease_generation s + 1) (next_wake_generation s) s1).
  assert (allocate_lease_generation s1 = (s2, Ok (next_lease_generation s))) as Ha.
  { unfold allocate_lease_generation, checked_add. cbn [s1 requeued next_lease_generation with_ready with_threads with_counters].
    by rewrite (proj2 (Z.ltb_lt _ _) Hgen). }
  rewrite (Sched_bind_ok _ _ _ _ _ Ha).
  set (s3 := with_ready (ready_remove (next_key s id t) (ready s1)).1 s2).
  assert (ready_remove_m (next_key s id t) s2 = (s3, Ok true)) as Hrm.
  { pose proof (ready_remove_present (next_key s id t) (ready s1)
      (ready_insert_sorted _ _ (inv_sorted _ Hinv)) (proj2 (ready_insert_elem _ _ _) (or_introl eq_refl))) as Hp.
    unfold ready_remove_m, s3. cbn [s2 ready with_counters]. by destruct (ready_remove _ _) as [r b]; simpl in *; subst. }
  rewrite (Sched_bind_ok _ _ _ _ _ Hrm). rewrite (Sched_bind_ok _ _ s3 s3 tt) by done.
  set (t1 := set_ready_key (Some (next_key s id t)) (set_lifecycle Ready t)).
  assert (threads s3 !! id = Some t1) as Ht3 by (cbn; by rewrite lookup_insert_eq).
  rewrite (Sched_bind_ok _ _ s3 s3 t1) by (cbn [key_thread next_key]; by rewrite Ht3). cbv zeta.
  change (key_thread (next_key s id t)) with id. change (process (config t1)) with (process (config t)). fold l.
  set (t2 := set_active_lease (Some l) (set_ready_key None (set_lifecycle Running t1))).
  rewrite (Sched_bind_ok _ _ s3 (with_threads <[id := t2]> s3) tt) by (unfold thread_mut; by rewrite Ht3).
  set (s4 := with_threads _ s3).
  rewrite (Sched_bind_ok _ _ s4 (with_vcpus <[vcpu := {| slot_lease := Some l |}]> s4) tt)
    by (unfold vcpu_set_lease; cbn [s4 s3 s2 s1 requeued vcpus with_threads with_ready with_counters]; by rewrite Hslot).
  eexists. split; [reflexivity|]. split; [cbn; by rewrite lookup_insert_eq|done].
Qed.

(** C37: [MakeReady] accepts a running thread, which is then leased twice.  In
    any state a sequence of admissible commands reaches, take a lease [l] and
    another virtual CPU that is idle, may run the leased thread, and has no
    queued candidate of the same or a better priority, with both counters below
    their limits.  Then [MakeReady] of the leased thread is accepted and queues
    it while it stays leased, selecting on the idle CPU leases it a second
    time, both virtual CPUs hold a lease on it, and the first lease can no
    longer be completed, whatever its outcome. *)
Theorem make_ready_running_leases_twice p tr s v l t vcpu o :
  profile_wf p -> steps (SchedulerState_new p) tr s ->
  lease_for_vcpu s v = Some l -> threads s !! lease_thread l = Some t ->
  lease_for_vcpu s vcpu = None -> first_for s vcpu t ->
  next_sequence s + 1 < 2 ^ 64 -> next_lease_generation s + 1 < 2 ^ 64 ->
  let '(s1, r1) := apply (MakeReady (lease_thread l)) s in
  let '(s2, r2) := apply (Select vcpu) s1 in
  exists l', r1 = Ok (Enqueued (lease_thread l) (next_sequence s)) /\ r2 = Ok (Selected (Some l')) /\
    lease_for_vcpu s1 v = Some l /\ next_key s (lease_thread l) t ∈ ready s1 /\
    lease_thread l' = lease_thread l /\ l' <> l /\
    lease_for_vcpu s2 v = Some l /\ lease_for_vcpu s2 vcpu = Some l' /\
    apply (Complete l o) s2 = (s2, Err (StaleLease l)).
Proof.
  intros Hp%new_inv Hs Hl Ht Hidle Hfirst Hseq Hgen. pose proof (steps_inv _ _ _ Hp Hs) as Hinv.
  destruct (proj1 (inv_slots _ Hinv v l) Hl) as (t' & Ht' & Ha & Hv). rewrite Ht in Ht'. injection Ht' as <-.
  destruct (thread_ok_lease _ _ _ _ _ _ _ (inv_threads _ Hinv _ _ Ht) Ha) as (_ & Hlt & Hrun & _).
  rewrite (make_ready_running s _ t Hinv Ht Hrun Hseq).
  destruct (select_requeued s _ t vcpu Hinv Ht Hrun Hfirst Hidle Hgen) as (s2 & -> & Ht2 & Hv2).
  eexists. split; [done|]. split; [done|]. split; [done|].
  split; [apply ready_insert_elem; by left|]. split; [done|].
  assert (v <> vcpu) as Hne by congruence. split; [intros E; rewrite <- E in Hv; simpl in Hv; congruence|].
  split; [unfold lease_for_vcpu in *; by rewrite Hv2, lookup_insert_ne|].
  split; [unfold lease_for_vcpu; by rewrite Hv2, lookup_insert_eq|].
  cbn [apply]. unfold complete. rewrite (Sched_bind_ok _ _ s2 s2 _) by (unfold get_thread; by rewrite Ht2).
  rewrite bool_decide_true; [done|]. cbn. intros [= E]. rewrite <- E in Hv. simpl in Hv. congruence.
Qed.

(** Thread 3 runs on virtual CPU 1 while thread 1, of a lower priority, is
    queued; virtual CPU 2 is idle. *)
Lemma make_ready_running_leases_twice_witness :
  let s1 := (apply (MakeReady 3) demo_state).1 in
  let s2 := (apply (Select 2) s1).1 in
  (exists l', lease_for_vcpu s2 1 = Some (demo_lease 3 1 2) /\ lease_for_vcpu s2 2 = Some l' /\
     lease_thread l' = 3) /\
  apply (Complete (demo_lease 3 1 2) CompletionReady) s2 = (s2, Err (StaleLease (demo_lease 3 1 2))).
Proof.
  destruct (threads demo_state !! 3) as [t|] eqn:Ht; [|by vm_compute in Ht].
  pose proof (make_ready_running_leases_twice _ _ _ 1 (demo_lease 3 1 2) t 2 CompletionReady
    demo_profile_wf demo_steps ltac:(by vm_compute) Ht ltac:(by vm_compute)) as H.
  assert (first_for demo_state 2 t) as Hfirst.
  { vm_compute in Ht. injection Ht as <-. split; [by vm_compute|]. intros k u Hk _ _.
    assert (ready demo_state = [{| key_priority := 20; key_sequence := 1; key_thread := 1 |}]) as Er by (by vm_compute).
    rewrite Er in Hk. apply list_elem_of_singleton in Hk as ->. by vm_compute. }
  specialize (H Hfirst eq_refl eq_refl). cbn [lease_thread demo_lease] in H.
  destruct (apply (MakeReady 3) demo_state) as [s1 r1] eqn:E1. cbn [fst].
  destruct (apply (Select 2) s1) as [s2 r2] eqn:E2. cbn [fst].
  destruct H as (l' & _ & _ & _ & _ & H3 & _ & H4 & H5 & H6). split; [|exact H6].
  exists l'. split; [exact H4|]. split; [exact H5|exact H3].
Defined.

(** [MakeReady] accepts a thread with a registered wait and leaves its wake
    token in place: waking that token afterwards panics. *)
Theorem make_ready_waiting_wake_panics :
  let w := {| token_thread := 1; token_generation := 1 |} in
  let '(s, rs) := run [Register (demo_config 1 10); MakeReady 1; Select 0;
                       Complete (demo_lease 1 0 1) CompletionWaiting; RegisterWait 1 Pending;
                       MakeReady 1] (SchedulerState_new demo_profile) in
  forallb is_ok rs = true /\ (apply (Wake w) s).2 = Panic.
Proof. by vm_compute. Qed.
