(* ===== verification/Allocation.v ===== *)
(** * Architectural allocation rules

    [crates/cpu/src/decode/allocation.rs]: which encodings of a decoder entry
    are allocated.  The arms of the Rust [match] are kept in order, guards
    included; a coverage identity is its [u32]. *)

From Stdlib Require Import ZArith Lia Bool String.
From stdpp Require Import base decidable tactics list.
From S2P Require Import Prelude RustInt Bits Immediate.

Local Open Scope string_scope.
Local Open Scope Z_scope.

Inductive AllocationStatus : Type :=
  | Allocated
  | Reserved (reason : string)
  | Unallocated (reason : string).

(** [(bits >> lsb) & mask]. *)
Definition fld (bits lsb mask : Z) : Z := Z.land (Z.shiftr bits lsb) mask.

(** [bits & mask == value]. *)
Definition masked (bits mask value : Z) : bool := Z.land bits mask =? value.

(** [matches!(x, a | b | ..)] and [a..=b]. *)
Definition one_of (x : Z) (l : list Z) : bool := existsb (Z.eqb x) l.
Definition in_range (x a b : Z) : bool := (a <=? x) && (x <=? b).

Definition validate_a64_simd_shift_right_immediate (scalar : bool) (bits : Z) : AllocationStatus :=
  let immediate_high := fld bits 19 0xf in
  let vector_128 := bit_set bits 30 in
  if immediate_high =? 0 then Unallocated "SIMD right shift has no element-size bit"
  else if scalar && (Z.land immediate_high 8 =? 0)
  then Unallocated "scalar SIMD right shift requires a 64-bit element"
  else if negb scalar && negb vector_128 && negb (Z.land immediate_high 8 =? 0)
  then Reserved "64-bit SIMD lanes require a 128-bit vector"
  else Allocated.

Definition validate_a64_simd_shift_left_immediate (scalar : bool) (bits : Z) : AllocationStatus :=
  let immediate_high := fld bits 19 0xf in
  let vector_128 := bit_set bits 30 in
  if immediate_high =? 0 then Unallocated "SIMD left shift has no element-size bit"
  else if scalar && (Z.land immediate_high 8 =? 0)
  then Unallocated "scalar SIMD left shift requires a 64-bit element"
  else if negb scalar && negb vector_128 && negb (Z.land immediate_high 8 =? 0)
  then Reserved "64-bit SIMD lanes require a 128-bit vector"
  else Allocated.

Definition validate_a64_simd_shift_register (bits : Z) : AllocationStatus :=
  let lane_size := fld bits 22 3 in
  let vector_128 := bit_set bits 30 in
  if (lane_size =? 3) && negb vector_128
  then Reserved "64-bit SIMD lanes require a 128-bit vector"
  else Allocated.

Definition validate_a64_simd_add_across_vector (bits : Z) : AllocationStatus :=
  let size := fld bits 22 3 in
  let vector_128 := bit_set bits 30 in
  if size =? 3 then Unallocated "ADDV has no 64-bit element form"
  else if (size =? 2) && negb vector_128
  then Reserved "ADDV 32-bit elements require a 128-bit vector"
  else Allocated.

Definition validate_a64_fp_move_general (bits : Z) : AllocationStatus :=
  let general_64 := bit_set bits 31 in
  let fp_type := fld bits 22 3 in
  if (negb general_64 && (fp_type =? 0)) || (negb general_64 && (fp_type =? 3))
     || (general_64 && (fp_type =? 1)) || (general_64 && (fp_type =? 2))
  then Allocated
  else Unallocated "floating-point move register widths do not form an allocated encoding".

Definition validate_a64_simd_add_sub (bits : Z) : AllocationStatus :=
  if (fld bits 22 3 =? 3) && negb (bit_set bits 30)
  then Reserved "64-bit SIMD vector cannot contain a 64-bit lane"
  else Allocated.

Definition validate_a64_simd_integer_to_float (bits : Z) : AllocationStatus :=
  if bit_set bits 22 && negb (bit_set bits 30)
  then Reserved "64-bit SIMD conversion requires a 128-bit vector"
  else Allocated.

Definition validate_a64_simd_float_vector (bits : Z) : AllocationStatus :=
  if bit_set bits 22 && negb (bit_set bits 30)
  then Reserved "64-bit floating-point lanes require a 128-bit vector"
  else Allocated.

Definition validate_a64_simd_float_immediate (bits : Z) : AllocationStatus :=
  let quad := bit_set bits 30 in
  let double_precision := bit_set bits 29 in
  if double_precision && negb quad
  then Unallocated "64-bit vector floating-point immediate requires a 128-bit vector"
  else Allocated.

Definition validate_a64_simd_extract_narrow (bits : Z) : AllocationStatus :=
  if fld bits 22 3 =? 3 then Reserved "invalid SIMD extract-narrow element size"
  else Allocated.

Definition validate_a64_simd_duplicate_element (bits : Z) : AllocationStatus :=
  let immediate := fld bits 16 0x1f in
  let quad := bit_set bits 30 in
  if immediate =? 0 then Reserved "SIMD duplicate element has no element size"
  else if (trailing_zeros 8 immediate =? 3) && negb quad
  then Reserved "64-bit SIMD duplicate requires a 128-bit vector"
  else Allocated.

Definition validate_a64_simd_add_pairwise (bits : Z) : AllocationStatus :=
  if (fld bits 22 3 =? 3) && negb (bit_set bits 30)
  then Reserved "64-bit SIMD vector cannot contain a pair of 64-bit lanes"
  else Allocated.

Definition validate_a64_simd_min_max_pairwise (bits : Z) : AllocationStatus :=
  if fld bits 22 3 =? 3
  then Reserved "pairwise integer minimum/maximum has no 64-bit lane form"
  else Allocated.

Definition validate_a64_simd_integer_compare (bits : Z) : AllocationStatus :=
  if (fld bits 22 3 =? 3) && negb (bit_set bits 30)
  then Reserved "64-bit SIMD vector cannot contain a 64-bit lane"
  else Allocated.

Definition is_a64_simd_integer_compare (bits : Z) : bool :=
  one_of (Z.land bits 0xbf20_fc00)
    [0x0e20_3400; 0x2e20_3400; 0x0e20_3c00; 0x2e20_3c00; 0x0e20_8c00; 0x2e20_8c00].

Definition is_a64_simd_integer_compare_zero (bits : Z) : bool :=
  one_of (Z.land bits 0xbf3f_fc00)
    [0x0e20_8800; 0x2e20_8800; 0x0e20_9800; 0x2e20_9800; 0x0e20_a800].

Definition validate_a64_umov (bits : Z) : AllocationStatus :=
  let immediate := fld bits 16 0x1f in
  let destination_64 := bit_set bits 30 in
  if (immediate =? 0) || (trailing_zeros 8 immediate >? 3)
  then Reserved "invalid SIMD element size"
  else if negb (Bool.eqb destination_64 (trailing_zeros 8 immediate =? 3))
  then Reserved "UMOV destination width does not match element size"
  else Allocated.

Definition validate_a64_simd_insert (id bits : Z) : AllocationStatus :=
  let immediate_5 := fld bits 16 0x1f in
  if (immediate_5 =? 0) || (trailing_zeros 8 immediate_5 >? 3)
  then Reserved "invalid SIMD insert element size"
  else if (id =? 0x0000_0060)
          && negb (Z.land (fld bits 11 0xf)
                     (Z.shiftl 1 (trailing_zeros 8 immediate_5) - 1) =? 0)
  then Reserved "SIMD insert source index is misaligned for its element size"
  else Allocated.

Definition validate_a64_simd_extract (bits : Z) : AllocationStatus :=
  let vector_128 := bit_set bits 30 in
  let immediate := fld bits 11 0xf in
  if negb vector_128 && (immediate >=? 8)
  then Reserved "64-bit SIMD EXT byte index is outside the vector"
  else Allocated.

(** The last arm is [unreachable!]; [None] stands for the panic. *)
Definition validate_a64_simd_single_structure (bits : Z) : option AllocationStatus :=
  let opcode := fld bits 13 7 in
  let s := bit_set bits 12 in
  let size := fld bits 10 3 in
  if one_of opcode [0; 1] then Some Allocated
  else if one_of opcode [2; 3] && (Z.land size 1 =? 0) then Some Allocated
  else if one_of opcode [4; 5] && ((size =? 0) || ((size =? 1) && negb s)) then Some Allocated
  else if one_of opcode [2; 3]
  then Some (Reserved "16-bit single-structure lane requires size<0> == 0")
  else if one_of opcode [4; 5]
  then Some (Reserved "invalid 32-bit or 64-bit single-structure lane index")
  else if one_of opcode [6; 7] && bit_set bits 22 then Some Allocated
  else if one_of opcode [6; 7]
  then Some (Unallocated "replicate single-structure operation is load-only")
  else None.

Definition validate_a64_simd_permute_two_source (bits : Z) : AllocationStatus :=
  let operation := fld bits 12 7 in
  if negb (one_of operation [1; 2; 3; 5; 6; 7])
  then Unallocated "unallocated Advanced SIMD two-source permute operation"
  else if (fld bits 22 3 =? 3) && negb (bit_set bits 30)
  then Reserved "64-bit SIMD vector cannot contain two 64-bit lanes"
  else Allocated.

(** The arms of [validate_a64] for the base instruction families. *)
Definition validate_base (id bits : Z) : option AllocationStatus :=
  let sf := negb (Z.shiftr bits 31 =? 0) in
  let immr := fld bits 16 0x3f in
  let imms := fld bits 10 0x3f in
  if id =? 0x0000_0010 then
    let opc := fld bits 29 3 in
    let hw := fld bits 21 3 in
    Some (if opc =? 1 then Unallocated "unallocated move-wide opcode"
          else if negb sf && (hw >=? 2) then Reserved "32-bit move-wide halfword is reserved"
          else Allocated)
  else if id =? 0x0000_0011 then
    let shift := fld bits 22 3 in
    let amount := fld bits 10 0x3f in
    Some (if (shift =? 3) || (negb sf && (amount >=? 32))
          then Reserved "invalid add/subtract shifted-register shift"
          else Allocated)
  else if (id =? 0x0000_0012) && (fld bits 10 7 >? 4) then
    Some (Reserved "extended-register shift exceeds four")
  else if id =? 0x0000_0014 then
    let n := bit_set bits 22 in
    Some (if is_ok (decode_a64_logical_immediate n immr imms (if sf then 64 else 32))
          then Allocated
          else Reserved "invalid logical-immediate bitmask")
  else if (id =? 0x0000_0015) && (negb sf && (fld bits 10 0x3f >=? 32)) then
    Some (Reserved "32-bit logical shift exceeds register width")
  else if id =? 0x0000_0016 then
    let n := bit_set bits 22 in
    let opc := fld bits 29 3 in
    Some (if negb (Bool.eqb n sf) || (negb sf && ((immr >=? 32) || (imms >=? 32)))
          then Reserved "invalid bitfield width fields"
          else if opc =? 3 then Unallocated "unallocated bitfield opcode"
          else Allocated)
  else if id =? 0x0000_0017 then
    let n := bit_set bits 22 in
    Some (if negb (Bool.eqb n sf) || (negb sf && (imms >=? 32))
          then Reserved "invalid extract width fields"
          else Allocated)
  else if (id =? 0x0000_002d) && (fld bits 12 0xf >? 8) then
    Some (Unallocated "unallocated LSE atomic read-modify-write opcode")
  else None.

(** The arms for [0x38], the catch-all SIMD entry, in order. *)
Definition validate_simd_catch_all (bits : Z) : option AllocationStatus :=
  if masked bits 0x9f20_fc00 0x0e20_8400 then Some (validate_a64_simd_add_sub bits)
  else if masked bits 0xbf3f_fc00 0x0e31_b800 then
    Some (validate_a64_simd_add_across_vector bits)
  else if masked bits 0xbf20_fc00 0x0e20_bc00 then Some (validate_a64_simd_add_pairwise bits)
  else if one_of (Z.land bits 0xbf20_fc00)
            [0x0e20_a400; 0x0e20_ac00; 0x2e20_a400; 0x2e20_ac00] then
    Some (validate_a64_simd_min_max_pairwise bits)
  else if is_a64_simd_integer_compare bits then Some (validate_a64_simd_integer_compare bits)
  else if is_a64_simd_integer_compare_zero bits then
    Some (validate_a64_simd_integer_compare bits)
  else if masked bits 0xbf20_8c00 0x0e00_0800 then
    Some (validate_a64_simd_permute_two_source bits)
  else if masked bits 0xbf20_8400 0x2e00_0000 then Some (validate_a64_simd_extract bits)
  else if masked bits 0x9f80_fc00 0x0f00_0400 then
    Some (validate_a64_simd_shift_right_immediate false bits)
  else if masked bits 0xbf80_fc00 0x0f00_5400 then
    Some (validate_a64_simd_shift_left_immediate false bits)
  else if one_of (Z.land bits 0xbf20_fc00) [0x0e20_4400; 0x2e20_4400] then
    Some (validate_a64_simd_shift_register bits)
  else if one_of (Z.land bits 0xbfbf_fc00) [0x0e21_d800; 0x2e21_d800] then
    Some (validate_a64_simd_integer_to_float bits)
  else if masked bits 0xbfa0_fc00 0x2e20_fc00 then Some (validate_a64_simd_float_vector bits)
  else if one_of (Z.land bits 0xbfbf_fc00) [0x0ea0_f800; 0x2ea0_f800] then
    Some (validate_a64_simd_float_vector bits)
  else if masked bits 0x9ff8_fc00 0x0f00_f400 then
    Some (validate_a64_simd_float_immediate bits)
  else if masked bits 0xbf3f_fc00 0x0e21_2800 then
    Some (validate_a64_simd_extract_narrow bits)
  else if masked bits 0xbf20_fc00 0x0e00_0400 then
    Some (validate_a64_simd_duplicate_element bits)
  else if masked bits 0xbfe0_fc00 0x0e00_3c00 then Some (validate_a64_umov bits)
  else None.

(** [validate_a64]: [None] is the panic of an [unreachable!] arm. *)
Definition validate_a64 (id bits : Z) : option AllocationStatus :=
  let sf := negb (Z.shiftr bits 31 =? 0) in
  match validate_base id bits with
  | Some status => Some status
  | None =>
  if id =? 0x0000_0048 then
    let immediate := fld bits 16 0x1f in
    let quad := bit_set bits 30 in
    Some (if negb (is_power_of_two immediate)
          then Reserved "SIMD duplicate element size is not one-hot"
          else if (immediate =? 8) && negb quad
          then Reserved "64-bit SIMD duplicate requires a 128-bit vector"
          else Allocated)
  else if id =? 0x0000_008c then Some (validate_a64_simd_duplicate_element bits)
  else if (id =? 0x0000_0049) && (Z.shiftr bits 30 =? 3) then
    Some (Reserved "invalid SIMD pair transfer size")
  else if (id =? 0x0000_004a) && (fld bits 12 0xf =? 0xf) then
    Some (Unallocated "floating-point immediate belongs to a different instruction family")
  else if id =? 0x0000_0086 then Some (validate_a64_simd_float_immediate bits)
  else if one_of id [0x0000_003e; 0x0000_003f] then Some (validate_a64_fp_move_general bits)
  else if id =? 0x0000_0031 then Some (validate_a64_simd_add_sub bits)
  else if id =? 0x0000_0038 then
    Some (match validate_simd_catch_all bits with Some status => status | None => Allocated end)
  else if (id =? 0x0000_0039) && masked bits 0xff20_1fe0 0x1e20_1000 then
    Some (Unallocated "unallocated scalar floating-point immediate type")
  else if id =? 0x0000_004b then Some (validate_a64_umov bits)
  else if one_of id [0x0000_0060; 0x0000_0061] then Some (validate_a64_simd_insert id bits)
  else if in_range id 0x0000_004e 0x0000_0058 then Some (validate_a64_simd_integer_compare bits)
  else if id =? 0x0000_0059 then Some (validate_a64_simd_add_pairwise bits)
  else if in_range id 0x0000_005a 0x0000_005d then Some (validate_a64_simd_min_max_pairwise bits)
  else if one_of id [0x0000_004c; 0x0000_004d] then
    let opcode := fld bits 12 0xf in
    Some (if one_of opcode [0; 2; 4; 6; 7; 8; 10] then Allocated
          else Unallocated "unallocated Advanced SIMD multiple-structures opcode")
  else if one_of id [0x0000_0062; 0x0000_0063] then validate_a64_simd_single_structure bits
  else if id =? 0x0000_0064 then Some (validate_a64_simd_permute_two_source bits)
  else if id =? 0x0000_0085 then Some (validate_a64_simd_extract bits)
  else if id =? 0x0000_0065 then
    Some (if fld bits 19 0xf =? 0 then Reserved "SIMD narrow shift has no element-size bit"
          else Allocated)
  else if one_of id [0x0000_0091; 0x0000_0092] then
    Some (validate_a64_simd_shift_right_immediate (id =? 0x0000_0091) bits)
  else if one_of id [0x0000_0099; 0x0000_009a] then
    Some (validate_a64_simd_shift_left_immediate (id =? 0x0000_0099) bits)
  else if id =? 0x0000_00a0 then
    Some (if fld bits 19 0xf =? 0 then Unallocated "SIMD long shift has no element-size bit"
          else Allocated)
  else if one_of id [0x0000_009c; 0x0000_009d; 0x0000_00a1] then
    Some (validate_a64_simd_float_vector bits)
  else if one_of id [0x0000_009e; 0x0000_009f] then
    Some (if negb sf && (fld bits 10 0x3f <? 32)
          then Reserved "32-bit fixed-point floating conversion exceeds 32 fractional bits"
          else Allocated)
  else if one_of id [0x0000_0095; 0x0000_0096] then Some (validate_a64_simd_shift_register bits)
  else if id =? 0x0000_0094 then Some (validate_a64_simd_add_across_vector bits)
  else if id =? 0x0000_0088 then Some (validate_a64_simd_extract_narrow bits)
  else if in_range id 0x0000_0066 0x0000_0069 then Some (validate_a64_simd_min_max_pairwise bits)
  else if one_of id [0x0000_006a; 0x0000_006b] then Some (validate_a64_simd_integer_to_float bits)
  else if id =? 0x0000_006c then Some (validate_a64_simd_float_vector bits)
  else if in_range id 0x0000_006d 0x0000_0084 || (id =? 0x0000_0087)
          || in_range id 0x0000_0089 0x0000_0090 then Some Allocated
  else if one_of id [0x0000_0033; 0x0000_0034] || in_range id 0x0000_0040 0x0000_0042 then
    let size := wrap 8 (Z.shiftr bits 30) in
    let opc := fld bits 22 3 in
    Some (if negb (Z.land opc 2 =? 0) && negb (size =? 0)
          then Reserved "invalid 128-bit SIMD transfer size"
          else if (id =? 0x0000_0042) && (Z.land (Z.shiftr bits 13) 2 =? 0)
          then Reserved "invalid SIMD register-offset extension"
          else Allocated)
  else Some Allocated
  end.

Definition validate (id bits : Z) : option AllocationStatus := validate_a64 id bits.

(** ** The [unreachable!] arm is unreachable *)

Lemma fld_bound bits lsb w : 0 <= w -> 0 <= fld bits lsb (Z.ones w) < 2 ^ w.
Proof. intros. unfold fld. rewrite wrap_land by done. by apply wrap_fits. Qed.

Lemma single_structure_total bits : is_Some (validate_a64_simd_single_structure bits).
Proof.
  unfold validate_a64_simd_single_structure. pose proof (fld_bound bits 13 3 ltac:(lia)) as Hop.
  change (Z.ones 3) with 7 in Hop. set (op := fld bits 13 7) in *. clearbody op.
  assert (one_of op [0; 1] || one_of op [2; 3] || one_of op [4; 5] || one_of op [6; 7] = true) as Hc.
  { check_below 8%nat op. }
  destruct (one_of op [0; 1]); [by eexists|].
  destruct (one_of op [2; 3]); cbn [andb]; [repeat case_match; by eexists|].
  destruct (one_of op [4; 5]); cbn [andb]; [repeat case_match; by eexists|].
  destruct (one_of op [6; 7]); [|done]. cbn [andb]. repeat case_match; by eexists.
Qed.

Lemma validate_total id bits : is_Some (validate id bits).
Proof.
  unfold validate, validate_a64. destruct (validate_base id bits); [by eexists|].
  repeat (case_match; [first [by eexists|apply single_structure_total]|]). by eexists.
Qed.
