(* ===== verification/DecodeTable.v ===== *)
(** * Declarative decoder tables

    [crates/cpu/src/decode/table.rs] with the result types of
    [decode/mod.rs], [location.rs] and [error.rs]: instruction patterns, their
    validation, the byte-indexed table compiled from them, decoding, and
    operand extraction. *)

From Stdlib Require Import ZArith Lia Bool String.
From stdpp Require Import base decidable tactics list sorting sets.
From S2P Require Import Prelude RustInt RustList Allocation.

Local Open Scope string_scope.
Local Open Scope Z_scope.

Definition BUCKET_COUNT : Z := 256.
Definition MAX_OPERANDS : nat := 8.

Inductive DecodeSupport : Set := ReadyToDecode | RecognizedUnimplemented.

Inductive RegisterClass : Set := A64General.

Inductive OperandId : Set := Destination | FirstSource | SecondSource | ImmediateId | ConditionId.

Inductive OperandKind : Type :=
  | Unsigned
  | SignedScaled (scale : Z)
  | RegisterKind (class : RegisterClass).

Record OperandField := { field_id : OperandId; lsb : Z; width : Z; kind : OperandKind }.

(** [InstructionEncoding] is its 32 bits, [CoverageId] its [u32]. *)
Record InstructionPattern := {
  pattern_name : string;
  pattern_mask : Z;
  pattern_value : Z;
  pattern_operands : list OperandField;
  coverage_id : Z;
  priority : Z;
  decoder : DecodeSupport;
  regression_fixture : option Z
}.

Definition fixture32 (p : InstructionPattern) (bits : Z) : InstructionPattern :=
  {| pattern_name := pattern_name p; pattern_mask := pattern_mask p;
     pattern_value := pattern_value p; pattern_operands := pattern_operands p;
     coverage_id := coverage_id p; priority := priority p; decoder := decoder p;
     regression_fixture := Some bits |}.

Definition recognized_unimplemented (p : InstructionPattern) : InstructionPattern :=
  {| pattern_name := pattern_name p; pattern_mask := pattern_mask p;
     pattern_value := pattern_value p; pattern_operands := pattern_operands p;
     coverage_id := coverage_id p; priority := priority p;
     decoder := RecognizedUnimplemented; regression_fixture := regression_fixture p |}.

Inductive OperandValue : Type :=
  | UnsignedValue (value : Z)
  | SignedValue (value : Z)
  | RegisterValue (class : RegisterClass) (index : Z).

#[export] Instance OperandId_eq_dec : EqDecision OperandId.
Proof. solve_decision. Defined.
#[export] Instance DecodeSupport_eq_dec : EqDecision DecodeSupport.
Proof. solve_decision. Defined.

(** The filled prefix of the fixed-capacity array. *)
Definition DecodedOperands : Type := list (OperandId * OperandValue).

Definition operands_get (ops : DecodedOperands) (id : OperandId) : option OperandValue :=
  snd <$> List.find (fun '(present, _) => bool_decide (present = id)) ops.

Record DecodedOpcode := { opcode_pattern : InstructionPattern; opcode_bits : Z }.

Record LocationDescriptor := { location_pc : Z; profile_id : Z }.

Record DecodedInstruction := {
  location : LocationDescriptor;
  encoding : Z;
  instruction : DecodedOpcode
}.

Record InstructionDiagnostic := {
  diagnostic_location : LocationDescriptor;
  diagnostic_encoding : Z
}.

Inductive DecodeResult : Type :=
  | Decoded (d : DecodedInstruction)
  | UnallocatedEncoding (instruction : InstructionDiagnostic) (reason : string)
  | ReservedEncoding (instruction : InstructionDiagnostic) (name reason : string)
  | RecognizedUnimplementedInstruction (d : DecodedInstruction).

Inductive TableError : Type :=
  | EmptyTable
  | TooManyPatterns
  | InvalidPattern (name reason : string)
  | Overlap (first second : string)
  | DuplicateCoverageId (id : Z).

(** ** Validation *)

Definition low_mask (w : Z) : Z := if w =? 32 then 2 ^ 32 - 1 else wrap 32 (Z.shiftl 1 w) - 1.

Definition field_mask (f : OperandField) : Z := shl_w 32 (low_mask (width f)) (lsb f).

(** The kinds of field the [match field.kind] rejects. *)
Definition kind_error (f : OperandField) : option string :=
  match kind f with
  | RegisterKind A64General =>
      if width f >? 5 then Some "A64 register field exceeds five bits" else None
  | SignedScaled scale =>
      match checked_add 8 (width f) scale with
      | Some w => if w >? 63 then Some "signed scaled operand does not fit i64" else None
      | None => Some "signed scaled operand does not fit i64"
      end
  | Unsigned => None
  end.

(** The loop over the operand fields of one pattern. *)
Fixpoint validate_fields (fields : list OperandField) (operand_bits : Z)
    (seen : list OperandId) : option string :=
  match fields with
  | [] => None
  | f :: rest =>
      if (width f =? 0)
         || match checked_add 8 (lsb f) (width f) with Some e => e >? 32 | None => true end
      then Some "operand field lies outside encoding"
      else
        match kind_error f with
        | Some reason => Some reason
        | None =>
            if negb (Z.land operand_bits (field_mask f) =? 0)
            then Some "operand fields overlap"
            else if bool_decide (field_id f ∈ seen) then Some "duplicate operand role"
            else validate_fields rest (Z.lor operand_bits (field_mask f)) (field_id f :: seen)
        end
  end.

Definition matches_pattern (bits : Z) (p : InstructionPattern) : bool :=
  Z.land bits (pattern_mask p) =? pattern_value p.

Definition pattern_error (p : InstructionPattern) : option string :=
  if negb (Z.land (pattern_value p) (not_w 32 (pattern_mask p)) =? 0)
     || negb (Z.land (pattern_mask p) (not_w 32 (2 ^ 32 - 1)) =? 0)
  then Some "mask/value exceeds width or value has unmasked bits"
  else if (MAX_OPERANDS <? length (pattern_operands p))%nat then Some "too many operands"
  else
    match validate_fields (pattern_operands p) 0 [] with
    | Some reason => Some reason
    | None =>
        match regression_fixture p with
        | Some fixture =>
            if negb (matches_pattern fixture p)
            then Some "regression fixture does not match its decoder entry" else None
        | None => None
        end
    end.

Fixpoint validate_each (patterns : list InstructionPattern) : res TableError unit :=
  match patterns with
  | [] => Ok tt
  | p :: rest =>
      match pattern_error p with
      | Some reason => Err (InvalidPattern (pattern_name p) reason)
      | None => validate_each rest
      end
  end.

(** Two entries match a common encoding. *)
Definition overlap (l r : InstructionPattern) : bool :=
  Z.land (Z.lxor (pattern_value l) (pattern_value r))
    (Z.land (pattern_mask l) (pattern_mask r)) =? 0.

Fixpoint validate_against (lhs : InstructionPattern) (rest : list InstructionPattern) :
    res TableError unit :=
  match rest with
  | [] => Ok tt
  | rhs :: rest' =>
      if coverage_id lhs =? coverage_id rhs then Err (DuplicateCoverageId (coverage_id lhs))
      else if overlap lhs rhs && (priority lhs =? priority rhs)
      then Err (Overlap (pattern_name lhs) (pattern_name rhs))
      else validate_against lhs rest'
  end.

Fixpoint validate_pairs (patterns : list InstructionPattern) : res TableError unit :=
  match patterns with
  | [] => Ok tt
  | lhs :: rest => _ ← validate_against lhs rest; validate_pairs rest
  end.

Definition validate_patterns (patterns : list InstructionPattern) : res TableError unit :=
  match patterns with
  | [] => Err EmptyTable
  | _ =>
      if Z.of_nat (length patterns) >? 2 ^ 16 - 1 + 1 then Err TooManyPatterns
      else _ ← validate_each patterns; validate_pairs patterns
  end.

(** ** The compiled index *)

Definition bucket_can_match (p : InstructionPattern) (shift byte : Z) : bool :=
  let m := wrap 8 (Z.land (Z.shiftr (pattern_mask p) shift) 0xff) in
  let v := wrap 8 (Z.land (Z.shiftr (pattern_value p) shift) 0xff) in
  Z.land byte m =? v.

(** [u8::MIN..=u8::MAX]. *)
Definition all_bytes : list Z := Z.of_nat <$> seq 0 256.

Definition index_cost (patterns : list InstructionPattern) (shift : Z) : Z :=
  let counts := map (fun byte =>
    Z.of_nat (length (List.filter (fun p => bucket_can_match p shift byte) patterns))) all_bytes in
  foldl Z.max 0 counts * BUCKET_COUNT + foldl Z.add 0 counts.

(** The loop over the four byte positions: the first cheapest one wins. *)
Definition best_index_shift (patterns : list InstructionPattern) : Z :=
  (foldl (fun '(best_shift, best_cost) shift =>
     let cost := index_cost patterns shift in
     if cost <? best_cost then (shift, cost) else (best_shift, best_cost))
   (0, 2 ^ 64 - 1) [0; 8; 16; 24]).1.

(** What the two nested loops push to the bucket of one byte: the indices, as
    [u16], of the patterns that can match it, in table order. *)
Fixpoint bucket_indices (patterns : list InstructionPattern) (next shift byte : Z) : list Z :=
  match patterns with
  | [] => []
  | p :: rest =>
      let tail := bucket_indices rest (next + 1) shift byte in
      if bucket_can_match p shift byte then wrap 16 next :: tail else tail
  end.

Record DecoderTable := {
  table_patterns : list InstructionPattern;
  index_shift : Z;
  buckets : list (list Z)
}.

(** [patterns[usize::from(index)].priority], negated for [Reverse]. *)
Definition reverse_priority (patterns : list InstructionPattern) (index : Z) : Z :=
  match patterns !! Z.to_nat index with Some p => - priority p | None => 0 end.

Definition compile (patterns : list InstructionPattern) : res TableError DecoderTable :=
  _ ← validate_patterns patterns;
  let best_shift := best_index_shift patterns in
  Ok {| table_patterns := patterns;
        index_shift := best_shift;
        buckets := map (fun byte =>
          sort_by_key (reverse_priority patterns) (bucket_indices patterns 0 best_shift byte))
          all_bytes |}.

(** ** Decoding *)

(** What the candidate loop found: an allocated entry, or the first rejection. *)
Inductive ScanResult : Type :=
  | ScanFound (p : InstructionPattern)
  | ScanRejected (rejection : option (bool * string * string)).

Definition get_or_insert {A} (o : option A) (a : A) : option A :=
  match o with Some _ => o | None => Some a end.

(** One candidate: go on with the new rejection, or stop with the entry. *)
Definition try_pattern (bits : Z) (p : InstructionPattern)
    (rejection : option (bool * string * string)) :
    res Empty_set (option InstructionPattern * option (bool * string * string)) :=
  if negb (matches_pattern bits p) then Ok (None, rejection)
  else
    match validate (coverage_id p) bits with
    | None => Panic
    | Some Allocated => Ok (Some p, rejection)
    | Some (Reserved reason) =>
        Ok (None, get_or_insert rejection (true, pattern_name p, reason))
    | Some (Unallocated reason) =>
        Ok (None, get_or_insert rejection (false, pattern_name p, reason))
    end.

Fixpoint scan (patterns : list InstructionPattern) (bits : Z) (indices : list Z)
    (rejection : option (bool * string * string)) : res Empty_set ScanResult :=
  match indices with
  | [] => Ok (ScanRejected rejection)
  | index :: rest =>
      p ← expect (patterns !! Z.to_nat index);
      '(found, rejection) ← try_pattern bits p rejection;
      match found with
      | Some p => Ok (ScanFound p)
      | None => scan patterns bits rest rejection
      end
  end.

Definition decode_result (loc : LocationDescriptor) (bits : Z) (r : ScanResult) : DecodeResult :=
  let diagnostic := {| diagnostic_location := loc; diagnostic_encoding := bits |} in
  match r with
  | ScanFound p =>
      let decoded := {| location := loc; encoding := bits;
                        instruction := {| opcode_pattern := p; opcode_bits := bits |} |} in
      match decoder p with
      | ReadyToDecode => Decoded decoded
      | RecognizedUnimplemented => RecognizedUnimplementedInstruction decoded
      end
  | ScanRejected (Some (true, name, reason)) => ReservedEncoding diagnostic name reason
  | ScanRejected (Some (false, _, reason)) => UnallocatedEncoding diagnostic reason
  | ScanRejected None =>
      UnallocatedEncoding diagnostic "no allocated instruction pattern matched"
  end.

Definition decode (table : DecoderTable) (loc : LocationDescriptor) (bits : Z) :
    res Empty_set DecodeResult :=
  let bucket := Z.land (Z.shiftr bits (index_shift table)) 0xff in
  indices ← expect (buckets table !! Z.to_nat bucket);
  r ← scan (table_patterns table) bits indices None;
  Ok (decode_result loc bits r).

Definition candidate_count (table : DecoderTable) (bits : Z) : option nat :=
  length <$> buckets table !! Z.to_nat (Z.land (Z.shiftr bits (index_shift table)) 0xff).

(** ** Operands *)

Definition field_value (f : OperandField) (bits : Z) : OperandValue :=
  let raw := Z.land (Z.shiftr bits (lsb f)) (low_mask (width f)) in
  match kind f with
  | Unsigned => UnsignedValue raw
  | RegisterKind class => RegisterValue class (wrap 8 raw)
  | SignedScaled scale =>
      let shift := 64 - width f in
      let signed := Z.shiftr (as_signed 64 (shl_w 64 raw shift)) shift in
      SignedValue (as_signed 64 (Z.shiftl signed scale))
  end.

(** The [while] loop: an index past [MAX_OPERANDS] panics. *)
Fixpoint extract_loop (fields : list OperandField) (bits : Z) (result : DecodedOperands) :
    res Empty_set DecodedOperands :=
  match fields with
  | [] => Ok result
  | f :: rest =>
      if (MAX_OPERANDS <=? length result)%nat then Panic
      else extract_loop rest bits (result ++ [(field_id f, field_value f bits)])%list
  end.

Definition extract_operands (p : InstructionPattern) (bits : Z) : res Empty_set DecodedOperands :=
  extract_loop (pattern_operands p) bits [].

(** ** Reference decoder: a scan of the whole table in priority order *)

Definition by_priority (patterns : list InstructionPattern) : list InstructionPattern :=
  sort_by_key (fun p => - priority p) patterns.

Fixpoint scan_patterns (bits : Z) (candidates : list InstructionPattern)
    (rejection : option (bool * string * string)) : res Empty_set ScanResult :=
  match candidates with
  | [] => Ok (ScanRejected rejection)
  | p :: rest =>
      '(found, rejection) ← try_pattern bits p rejection;
      match found with
      | Some p => Ok (ScanFound p)
      | None => scan_patterns bits rest rejection
      end
  end.

Definition decode_reference (patterns : list InstructionPattern) (loc : LocationDescriptor)
    (bits : Z) : res Empty_set DecodeResult :=
  r ← scan_patterns bits (by_priority patterns) None;
  Ok (decode_result loc bits r).

(** The entry is at this index of the table. *)
Definition at_index (patterns : list InstructionPattern) (i : Z) (p : InstructionPattern) : Prop :=
  patterns !! Z.to_nat i = Some p.

Lemma scan_by_index patterns bits indices candidates rejection :
  Forall2 (at_index patterns) indices candidates ->
  scan patterns bits indices rejection = scan_patterns bits candidates rejection.
Proof.
  intros H. revert rejection. induction H as [|i p ids ps Hip _ IH]; intros rejection; [done|].
  simpl. rewrite Hip. unfold mbind, res_bind; simpl.
  by destruct (try_pattern bits p rejection) as [[[q|] rej]|e|].
Qed.

Lemma bucket_indices_at patterns pre rest shift byte :
  patterns = (pre ++ rest)%list -> Z.of_nat (List.length patterns) <= 2 ^ 16 ->
  Forall2 (at_index patterns) (bucket_indices rest (Z.of_nat (List.length pre)) shift byte)
    (List.filter (fun p => bucket_can_match p shift byte) rest).
Proof.
  revert pre. induction rest as [|p rest IH]; intros pre Hp Hlen; simpl; [constructor|].
  assert (Forall2 (at_index patterns)
    (bucket_indices rest (Z.of_nat (List.length pre) + 1) shift byte)
    (List.filter (fun p => bucket_can_match p shift byte) rest)) as Hrest.
  { replace (Z.of_nat (List.length pre) + 1) with (Z.of_nat (List.length (pre ++ [p])%list))
      by (rewrite length_app; simpl; lia).
    apply IH; [|done]. by rewrite <- app_assoc. }
  destruct (bucket_can_match p shift byte); [|done]. constructor; [|done].
  unfold at_index. subst. rewrite length_app in Hlen. simpl in Hlen.
  rewrite wrap_small by (unfold fits; lia). rewrite Nat2Z.id.
  by rewrite lookup_app_r, Nat.sub_diag by lia.
Qed.

Lemma scan_patterns_filter bits candidates rejection :
  scan_patterns bits candidates rejection =
  scan_patterns bits (List.filter (matches_pattern bits) candidates) rejection.
Proof.
  revert rejection. induction candidates as [|p ps IH]; intros rejection; [done|]. simpl.
  unfold try_pattern. destruct (matches_pattern bits p) eqn:Hm; simpl.
  - unfold try_pattern. rewrite Hm. simpl.
    destruct (validate (coverage_id p) bits) as [[| |]|]; try done; apply IH.
  - apply IH.
Qed.

Lemma wrap_byte x : wrap 8 (Z.land x 0xff) = Z.land x 0xff.
Proof. apply wrap_small. change 0xff with (Z.ones 8). rewrite wrap_land by lia. by apply wrap_fits. Qed.

(** An entry that matches is a candidate of its bucket. *)
Lemma matches_can_match bits p shift :
  0 <= shift -> matches_pattern bits p = true ->
  bucket_can_match p shift (Z.land (Z.shiftr bits shift) 0xff) = true.
Proof.
  intros Hs [=Hm%Z.eqb_eq]. unfold bucket_can_match. rewrite !wrap_byte. apply Z.eqb_eq.
  rewrite <- Hm, Z.shiftr_land. change 0xff with (Z.ones 8). zbits.
Qed.

Lemma filter_filter_implies {A} (f g : A -> bool) l :
  (forall x, f x = true -> g x = true) -> List.filter f (List.filter g l) = List.filter f l.
Proof.
  intros Hfg. induction l as [|x l IH]; simpl; [done|]. destruct (g x) eqn:Hg; simpl.
  - by rewrite IH.
  - destruct (f x) eqn:Hf; [|done]. apply Hfg in Hf. congruence.
Qed.

Lemma best_index_shift_bounds patterns : 0 <= best_index_shift patterns.
Proof.
  unfold best_index_shift. generalize (index_cost patterns). intros cost.
  generalize (2 ^ 64 - 1). intros limit. cbn [foldl].
  repeat (destruct (_ <? _); cbn [foldl fst]); lia.
Qed.

Lemma compile_ok patterns table :
  compile patterns = Ok table ->
  validate_patterns patterns = Ok tt /\
  table = {| table_patterns := patterns; index_shift := best_index_shift patterns;
             buckets := map (fun byte => sort_by_key (reverse_priority patterns)
               (bucket_indices patterns 0 (best_index_shift patterns) byte)) all_bytes |}.
Proof.
  unfold compile, mbind, res_bind. destruct (validate_patterns patterns) as [[]| |]; try done.
  by intros [= <-].
Qed.

Lemma validate_patterns_length patterns :
  validate_patterns patterns = Ok tt -> Z.of_nat (List.length patterns) <= 2 ^ 16.
Proof.
  unfold validate_patterns. destruct patterns as [|p ps]; [done|].
  destruct (_ >? _) eqn:Hl; [done|]. rewrite Z.gtb_ltb in Hl. apply Z.ltb_ge in Hl. lia.
Qed.

Lemma all_bytes_lookup b : 0 <= b < 256 -> all_bytes !! Z.to_nat b = Some b.
Proof.
  intros Hb. unfold all_bytes. rewrite list_lookup_fmap, lookup_seq_lt by lia. simpl.
  f_equal. lia.
Qed.

Lemma compile_decode patterns table loc bits :
  compile patterns = Ok table -> decode table loc bits = decode_reference patterns loc bits.
Proof.
  intros (Hv & ->)%compile_ok. pose proof (validate_patterns_length _ Hv) as Hlen.
  unfold decode, decode_reference. cbn [index_shift buckets table_patterns].
  set (shift := best_index_shift patterns).
  set (b := Z.land (Z.shiftr bits shift) 0xff).
  assert (0 <= b < 256) as Hb.
  { unfold b. change 0xff with (Z.ones 8). rewrite wrap_land by lia. by apply wrap_fits. }
  rewrite list_lookup_fmap, all_bytes_lookup by done. cbn [fmap option_fmap option_map expect].
  unfold mbind at 1, res_bind at 1.
  assert (Forall2 (at_index patterns)
    (sort_by_key (reverse_priority patterns) (bucket_indices patterns 0 shift b))
    (by_priority (List.filter (fun p => bucket_can_match p shift b) patterns))) as Hf.
  { apply sort_by_key_Forall2; [|by apply (bucket_indices_at _ [])].
    intros i p Hip. unfold reverse_priority. unfold at_index in Hip. by rewrite Hip. }
  assert (List.filter (matches_pattern bits)
    (by_priority (List.filter (fun p => bucket_can_match p shift b) patterns)) =
    List.filter (matches_pattern bits) (by_priority patterns)) as Hsame.
  { unfold by_priority. rewrite !sort_by_key_filter. f_equal.
    apply filter_filter_implies. intros p Hp. apply matches_can_match; [|done].
    apply best_index_shift_bounds. }
  rewrite (scan_by_index _ _ _ _ _ Hf), scan_patterns_filter, Hsame.
  by rewrite <- scan_patterns_filter.
Qed.

(** ** Who wins *)

Definition allocated_match (bits : Z) (p : InstructionPattern) : Prop :=
  matches_pattern bits p = true /\ validate (coverage_id p) bits = Some Allocated.

Lemma try_pattern_cases bits p rejection :
  (allocated_match bits p /\ try_pattern bits p rejection = Ok (Some p, rejection)) \/
  (~ allocated_match bits p /\ exists rejection',
     try_pattern bits p rejection = Ok (None, rejection') /\
     (rejection' = rejection \/
      exists reserved reason, rejection = None /\
        rejection' = Some (reserved, pattern_name p, reason) /\ matches_pattern bits p = true /\
        validate (coverage_id p) bits =
          Some (if reserved then Reserved reason else Unallocated reason))).
Proof.
  unfold allocated_match, try_pattern. destruct (matches_pattern bits p) eqn:Hm; simpl.
  2: { right. split; [by intros [? _]|]. exists rejection. split; [done|by left]. }
  destruct (validate_total (coverage_id p) bits) as [[|reason|reason] Hv]; rewrite Hv.
  - by left.
  - right. split; [by intros [_ ?]|]. eexists. split; [done|].
    destruct rejection; [by left|]. right. by exists true, reason.
  - right. split; [by intros [_ ?]|]. eexists. split; [done|].
    destruct rejection; [by left|]. right. by exists false, reason.
Qed.

(** A rejection recorded by the scan names a matching entry and its reason. *)
Definition rejection_ok (bits : Z) (ps : list InstructionPattern)
    (r : option (bool * string * string)) : Prop :=
  forall (reserved : bool) name reason, r = Some (reserved, name, reason) ->
  exists p, p ∈ ps /\ pattern_name p = name /\ matches_pattern bits p = true /\
    validate (coverage_id p) bits = Some (if reserved then Reserved reason else Unallocated reason).

Lemma scan_patterns_spec bits ps rejection :
  StronglySorted (fun a b => - priority a <= - priority b) ps ->
  exists r, scan_patterns bits ps rejection = Ok r /\
  match r with
  | ScanFound p =>
      p ∈ ps /\ allocated_match bits p /\
      forall q, q ∈ ps -> allocated_match bits q -> priority q <= priority p
  | ScanRejected r' =>
      (forall q, q ∈ ps -> ~ allocated_match bits q) /\
      (rejection_ok bits ps r' \/ r' = rejection)
  end.
Proof.
  intros Hs. revert rejection. induction Hs as [|p ps Hs IH Hf]; intros rejection.
  { exists (ScanRejected rejection). split; [done|]. split; [set_solver|by right]. }
  simpl. destruct (try_pattern_cases bits p rejection) as [[Ha ->]|(Hn & rej' & -> & Hrej)].
  - exists (ScanFound p). split; [done|]. split_and!; [left|done|].
    intros q [->|Hq]%elem_of_cons _; [lia|]. rewrite list.Forall_forall in Hf.
    specialize (Hf q Hq). simpl in Hf. lia.
  - destruct (IH rej') as (r & Hr & Hspec). exists r. split; [done|]. destruct r as [w|r'].
    + destruct Hspec as (Hw & Hwa & Hmax). split_and!; [by right|done|].
      intros q [->|Hq]%elem_of_cons Hqa; [by destruct Hn|by apply Hmax].
    + destruct Hspec as [Hnone Hr']. split.
      { intros q [->|Hq]%elem_of_cons; [done|by apply Hnone]. }
      destruct Hr' as [Hok| ->].
      { left. intros b n e He. destruct (Hok b n e He) as (q & Hq & ?). exists q.
        split; [by right|done]. }
      destruct Hrej as [-> |(b & e & -> & -> & Hm & Hv)]; [by right|]. left.
      intros b' n' e' [= <- <- <-]. exists p. split; [left|done].
Qed.

Lemma validate_against_spec l rest :
  validate_against l rest = Ok tt ->
  Forall (fun r => coverage_id l <> coverage_id r /\
                   (overlap l r = true -> priority l <> priority r)) rest.
Proof.
  induction rest as [|r rest IH]; simpl; [done|].
  destruct (Z.eqb_spec (coverage_id l) (coverage_id r)); [done|].
  destruct (overlap l r) eqn:Ho; simpl.
  - destruct (Z.eqb_spec (priority l) (priority r)); [done|]. intros ?. constructor; auto.
  - intros ?. constructor; [split; [done|congruence]|auto].
Qed.

Lemma overlap_sym l r : overlap l r = overlap r l.
Proof. unfold overlap. by rewrite Z.lxor_comm, (Z.land_comm (pattern_mask l)). Qed.

Lemma validate_pairs_spec ps p q :
  validate_pairs ps = Ok tt -> p ∈ ps -> q ∈ ps ->
  p = q \/ (coverage_id p <> coverage_id q /\ (overlap p q = true -> priority p <> priority q)).
Proof.
  induction ps as [|l rest IH]; [set_solver|]. simpl. unfold mbind, res_bind.
  destruct (validate_against l rest) as [[]| |] eqn:Hl; try done. intros Hr.
  apply validate_against_spec in Hl. rewrite list.Forall_forall in Hl.
  intros [->|Hp]%elem_of_cons [->|Hq]%elem_of_cons; [by left|right; by apply Hl| |by apply IH].
  right. destruct (Hl p Hp) as [? Ho]. split; [done|]. rewrite overlap_sym. intros ?%Ho. done.
Qed.

Lemma matches_overlap bits p q :
  matches_pattern bits p = true -> matches_pattern bits q = true -> overlap p q = true.
Proof.
  unfold matches_pattern, overlap. rewrite !Z.eqb_eq. intros <- <-. zbits.
Qed.

Lemma validate_patterns_pairs ps : validate_patterns ps = Ok tt -> validate_pairs ps = Ok tt.
Proof.
  unfold validate_patterns. destruct ps as [|p ps]; [done|]. destruct (_ >? _); [done|].
  unfold mbind, res_bind. by destruct (validate_each _) as [[]| |].
Qed.

(** The outcome of the reference scan over a validated table. *)
Lemma reference_winner patterns bits :
  validate_patterns patterns = Ok tt ->
  exists r, scan_patterns bits (by_priority patterns) None = Ok r /\
  match r with
  | ScanFound p =>
      p ∈ patterns /\ allocated_match bits p /\
      forall q, q ∈ patterns -> allocated_match bits q -> q = p \/ priority q < priority p
  | ScanRejected r' =>
      (forall q, q ∈ patterns -> ~ allocated_match bits q) /\ rejection_ok bits patterns r'
  end.
Proof.
  intros Hv. pose proof (sort_by_key_perm (fun p => - priority p) patterns) as Hperm.
  destruct (scan_patterns_spec bits (by_priority patterns) None (sort_by_key_sorted _ _))
    as (r & Hr & Hspec). exists r. split; [done|].
  unfold by_priority in Hspec. destruct r as [p|r'].
  - destruct Hspec as (Hp & Ha & Hmax). rewrite Hperm in Hp. split_and!; [done|done|].
    intros q Hq Hqa. specialize (Hmax q). rewrite Hperm in Hmax. specialize (Hmax Hq Hqa).
    destruct (validate_pairs_spec patterns q p) as [|[_ Hne]]; auto using validate_patterns_pairs.
    right. assert (priority q <> priority p); [|lia]. apply Hne.
    by apply (matches_overlap bits); [apply Hqa|apply Ha].
  - destruct Hspec as [Hnone Hrej]. split.
    + intros q Hq. apply Hnone. by rewrite Hperm.
    + destruct Hrej as [Hok| ->]; [|done]. intros b n e He.
      destruct (Hok b n e He) as (p & Hp & ?). exists p. by rewrite Hperm in Hp.
Qed.

(** ** Operand fields of a validated entry *)

Lemma low_mask_ones w : 0 <= w <= 32 -> low_mask w = Z.ones w.
Proof.
  intros Hw. unfold low_mask. destruct (Z.eqb_spec w 32) as [->|]; [done|].
  rewrite wrap_small; [rewrite Z.shiftl_1_l; by rewrite Z.ones_equiv, Z.sub_1_r|].
  rewrite Z.shiftl_1_l. unfold fits. pose proof (pow2_lt w 32). pose proof (pow2_pos w). lia.
Qed.

(** What a field holds, by its kind. *)
Definition field_spec (f : OperandField) (bits : Z) : OperandValue :=
  let raw := wrap (width f) (Z.shiftr bits (lsb f)) in
  match kind f with
  | Unsigned => UnsignedValue raw
  | RegisterKind class => RegisterValue class raw
  | SignedScaled scale => SignedValue (as_signed (width f) raw * 2 ^ scale)
  end.

(** The conditions [validate_patterns] puts on one field; scales and positions
    are [u8] values. *)
Definition field_ok (f : OperandField) : Prop :=
  0 < width f /\ 0 <= lsb f /\ lsb f + width f <= 32 /\
  match kind f with
  | RegisterKind _ => width f <= 5
  | SignedScaled scale => 0 <= scale /\ width f + scale <= 63
  | Unsigned => True
  end.

Lemma signed_field_value w raw scale :
  0 < w <= 32 -> 0 <= scale -> w + scale <= 63 -> fits w raw ->
  as_signed 64 (Z.shiftl (Z.shiftr (as_signed 64 (shl_w 64 raw (64 - w))) (64 - w)) scale) =
  as_signed w raw * 2 ^ scale.
Proof.
  intros Hw Hsc Hsum Hraw.
  assert (Z.shiftr (as_signed 64 (shl_w 64 raw (64 - w))) (64 - w) = as_signed w raw) as ->.
  { apply Z.bits_inj'. intros i Hi.
    rewrite Z.shiftr_spec, !testbit_as_signed, testbit_shl_w by (try case_match; lia).
    destruct (Z.ltb_spec (i + (64 - w)) 64), (Z.ltb_spec i w); try lia;
      (replace (_ <? 64) with true by (symmetry; apply Z.ltb_lt; lia)); simpl; f_equal; lia. }
  rewrite Z.shiftl_mul_pow2 by done. apply as_signed_small; [lia|].
  pose proof (as_signed_range w raw ltac:(lia)) as Hr. pose proof (pow2_pos scale Hsc).
  assert (2 ^ (w - 1) * 2 ^ scale <= 2 ^ (64 - 1)) as Hbound.
  { rewrite <- Z.pow_add_r by lia. apply pow2_le. lia. }
  nia.
Qed.

Lemma field_value_spec f bits : field_ok f -> field_value f bits = field_spec f bits.
Proof.
  intros (Hw & Hl & Hs & Hk). unfold field_value, field_spec.
  rewrite low_mask_ones, wrap_land by lia.
  pose proof (wrap_fits (width f) (Z.shiftr bits (lsb f)) ltac:(lia)) as Hf.
  destruct (kind f) as [|scale|class]; [done| |].
  - f_equal. apply signed_field_value; [lia|lia|lia|done].
  - f_equal. apply wrap_small. eapply fits_le; [|exact Hf]. lia.
Qed.

Lemma extract_loop_spec fields bits result :
  (List.length result + List.length fields <= MAX_OPERANDS)%nat ->
  extract_loop fields bits result =
  Ok (result ++ map (fun f => (field_id f, field_value f bits)) fields)%list.
Proof.
  revert result. induction fields as [|f fields IH]; intros result Hlen;
    cbn [extract_loop List.length map] in *.
  - by rewrite app_nil_r.
  - destruct (Nat.leb_spec MAX_OPERANDS (List.length result)); [lia|].
    rewrite IH by (rewrite length_app; simpl; lia). by rewrite <- app_assoc.
Qed.

Lemma validate_fields_range fields ob seen f :
  validate_fields fields ob seen = None -> f ∈ fields ->
  width f <> 0 /\ lsb f + width f <= 32 /\ kind_error f = None.
Proof.
  revert ob seen. induction fields as [|g fields IH]; intros ob seen; simpl; [set_solver|].
  destruct (Z.eqb_spec (width g) 0); [done|]. simpl. unfold checked_add.
  destruct (Z.ltb_spec (lsb g + width g) (2 ^ 8)); [|done].
  destruct (_ >? 32) eqn:Hg; [done|]. rewrite Z.gtb_ltb in Hg. apply Z.ltb_ge in Hg.
  destruct (kind_error g) eqn:Hk; [done|]. destruct (negb _); [done|].
  destruct (bool_decide _); [done|]. intros Hv [->|Hf]%elem_of_cons; [done|]. by eapply IH.
Qed.

Lemma validated_field_ok f :
  width f <> 0 -> lsb f + width f <= 32 -> kind_error f = None ->
  0 <= width f -> 0 <= lsb f ->
  match kind f with SignedScaled scale => 0 <= scale | _ => True end -> field_ok f.
Proof.
  unfold field_ok, kind_error, checked_add. intros ? ? Hk ? ? ?. split_and!; try lia.
  destruct (kind f) as [|scale|[]]; [done| |].
  - destruct (_ <? _); [|done]. destruct (_ >? 63) eqn:Hg; [done|].
    rewrite Z.gtb_ltb in Hg. apply Z.ltb_ge in Hg. lia.
  - destruct (_ >? 5) eqn:Hg; [done|]. rewrite Z.gtb_ltb in Hg. apply Z.ltb_ge in Hg. lia.
Qed.

(** ** Theorems *)

(** The byte index loses nothing: for any table that compiles, decoding
    through the 256 buckets gives the same result, diagnostics included, as
    scanning the whole table in order of decreasing priority. *)
Theorem decode_is_priority_scan patterns table loc bits :
  compile patterns = Ok table ->
  decode table loc bits = decode_reference patterns loc bits.
Proof. apply compile_decode. Qed.

(** A small table: an entry and a more specific one that overrides it. *)
Definition demo_patterns : list InstructionPattern :=
  [{| pattern_name := "hint"; pattern_mask := 0xffff_f01f; pattern_value := 0xd503_201f;
      pattern_operands := []; coverage_id := 0x0b; priority := 190; decoder := ReadyToDecode;
      regression_fixture := Some 0xd503_203f |};
   {| pattern_name := "nop"; pattern_mask := 0xffff_ffff; pattern_value := 0xd503_201f;
      pattern_operands := []; coverage_id := 0x01; priority := 200; decoder := ReadyToDecode;
      regression_fixture := Some 0xd503_201f |};
   {| pattern_name := "b"; pattern_mask := 0xfc00_0000; pattern_value := 0x1400_0000;
      pattern_operands := [{| field_id := ImmediateId; lsb := 0; width := 26;
                              kind := SignedScaled 2 |}];
      coverage_id := 0x02; priority := 199; decoder := ReadyToDecode;
      regression_fixture := Some 0x1400_0000 |}].

Definition demo_location : LocationDescriptor := {| location_pc := 0x1000; profile_id := 1 |}.

Lemma decode_is_priority_scan_witness :
  exists table, compile demo_patterns = Ok table /\
    decode table demo_location 0xd503_201f = decode_reference demo_patterns demo_location 0xd503_201f.
Proof.
  destruct (compile demo_patterns) as [table|e|] eqn:Hc; [|by vm_compute in Hc..].
  exists table. split; [reflexivity|]. exact (decode_is_priority_scan _ _ _ _ Hc).
Defined.

(** C5: decoding is decided by the table alone: it never panics; an encoding
    that decodes does so to an entry of the table that matches it, is allocated
    for it and has strictly the highest priority among all such entries; one
    that does not has no allocated matching entry, and a reserved diagnostic
    names a matching entry and the reason its allocation rule gives. *)
Theorem decode_unique_winner patterns table loc bits :
  compile patterns = Ok table ->
  exists r, decode table loc bits = Ok r /\
  match r with
  | Decoded d | RecognizedUnimplementedInstruction d =>
      let p := opcode_pattern (instruction d) in
      location d = loc /\ encoding d = bits /\ opcode_bits (instruction d) = bits /\
      decoder p = (match r with Decoded _ => ReadyToDecode | _ => RecognizedUnimplemented end) /\
      p ∈ patterns /\ allocated_match bits p /\
      forall q, q ∈ patterns -> allocated_match bits q -> q = p \/ priority q < priority p
  | UnallocatedEncoding _ _ => forall q, q ∈ patterns -> ~ allocated_match bits q
  | ReservedEncoding _ name reason =>
      (forall q, q ∈ patterns -> ~ allocated_match bits q) /\
      exists p, p ∈ patterns /\ pattern_name p = name /\ matches_pattern bits p = true /\
        validate (coverage_id p) bits = Some (Reserved reason)
  end.
Proof.
  intros Hc. rewrite (compile_decode _ _ _ _ Hc). destruct (compile_ok _ _ Hc) as [Hv _].
  destruct (reference_winner patterns bits Hv) as (r & Hr & Hspec).
  exists (decode_result loc bits r). unfold decode_reference. rewrite Hr. split; [done|].
  destruct r as [p|[[[[] n] e]|]]; simpl.
  - destruct (decoder p) eqn:Hd; simpl; rewrite Hd; naive_solver.
  - destruct Hspec as [Hn Hrej]. split; [done|]. by apply (Hrej true n e).
  - apply Hspec.
  - apply Hspec.
Qed.

Lemma decode_unique_winner_witness :
  exists table d, compile demo_patterns = Ok table /\
    decode table demo_location 0xd503_201f = Ok (Decoded d) /\
    pattern_name (opcode_pattern (instruction d)) = "nop" /\
    allocated_match 0xd503_201f (opcode_pattern (instruction d)).
Proof.
  destruct (compile demo_patterns) as [table|e|] eqn:Hc; [|by vm_compute in Hc..].
  destruct (decode_unique_winner _ _ demo_location 0xd503_201f Hc) as (r & Hr & Hspec).
  assert (decode table demo_location 0xd503_201f =
    decode_reference demo_patterns demo_location 0xd503_201f) as He by (by apply compile_decode).
  rewrite Hr in He. vm_compute in He. injection He as ->. simpl in Hspec.
  eexists table, _. split; [done|]. split; [exact Hr|]. split; [done|].
  by destruct Hspec as (_ & _ & _ & _ & _ & Ha & _).
Defined.

(** Operand extraction is exact: for an entry that passes validation (its
    field positions and scales being unsigned bytes) extraction fills the
    fixed-capacity operand set without overflowing it, one value per field in
    table order, each the contiguous bits of its field: unsigned, a register
    number below 32, or sign-extended and scaled without losing bits. *)
Theorem extract_operands_exact p bits :
  pattern_error p = None ->
  Forall (fun f => 0 <= width f /\ 0 <= lsb f /\
    match kind f with SignedScaled scale => 0 <= scale | _ => True end) (pattern_operands p) ->
  extract_operands p bits =
    Ok (map (fun f => (field_id f, field_spec f bits)) (pattern_operands p)) /\
  Forall (fun f => match field_spec f bits with
                   | RegisterValue _ index => 0 <= index < 32
                   | SignedValue v => - 2 ^ 62 <= v < 2 ^ 62
                   | UnsignedValue v => 0 <= v < 2 ^ 32
                   end) (pattern_operands p).
Proof.
  intros Hp Hb. assert (Forall field_ok (pattern_operands p) /\
    (List.length (pattern_operands p) <= MAX_OPERANDS)%nat) as [Hok Hlen].
  { unfold pattern_error in Hp. destruct (negb _ || negb _); [done|].
    destruct (Nat.ltb_spec MAX_OPERANDS (List.length (pattern_operands p))); [done|].
    split; [|lia]. destruct (validate_fields _ 0 []) eqn:Hv; [done|].
    rewrite list.Forall_forall in *. intros f Hf. destruct (Hb f Hf) as (? & ? & ?).
    destruct (validate_fields_range _ _ _ f Hv Hf) as (? & ? & ?). by apply validated_field_ok. }
  split.
  - unfold extract_operands. rewrite extract_loop_spec by (simpl; lia). simpl. f_equal.
    apply map_ext_in. intros f Hf%list_elem_of_In. rewrite list.Forall_forall in Hok.
    f_equal. by apply field_value_spec, Hok.
  - eapply list.Forall_impl; [exact Hok|]. intros f (Hw & Hl & Hs & Hk). unfold field_spec.
    pose proof (wrap_fits (width f) (Z.shiftr bits (lsb f)) ltac:(lia)) as Hfit.
    unfold fits in Hfit. destruct (kind f) as [|scale|class].
    + pose proof (pow2_le (width f) 32). lia.
    + pose proof (as_signed_range (width f) (wrap (width f) (Z.shiftr bits (lsb f))) ltac:(lia)).
      pose proof (pow2_pos scale ltac:(lia)).
      assert (2 ^ (width f - 1) * 2 ^ scale <= 2 ^ 62).
      { rewrite <- Z.pow_add_r by lia. apply pow2_le. lia. }
      nia.
    + pose proof (pow2_le (width f) 5). lia.
Qed.

Lemma extract_operands_exact_witness :
  extract_operands (fixture32 {| pattern_name := "b"; pattern_mask := 0xfc00_0000;
      pattern_value := 0x1400_0000;
      pattern_operands := [{| field_id := ImmediateId; lsb := 0; width := 26;
                              kind := SignedScaled 2 |}];
      coverage_id := 0x02; priority := 199; decoder := ReadyToDecode;
      regression_fixture := None |} 0x1400_0000) 0x17ff_ffff =
  Ok [(ImmediateId, SignedValue (-4))].
Proof.
  match goal with |- extract_operands ?p ?b = _ =>
    rewrite (proj1 (extract_operands_exact p b ltac:(reflexivity)
      ltac:(constructor; [split; [done|]; split; done|constructor]))) end.
  reflexivity.
Defined.
