(* ===== verification/DecodeBase.v ===== *)
(** * Control, system, integer and memory encodings

    [crates/cpu/src/decode/a64/{control,system,integer,memory}.rs]: for each
    family its pattern table, its normalized operands and instructions, and
    [normalize], which splits the 32 bits into fields.  An [unreachable!] arm is
    [Panic]. *)

From Stdlib Require Import ZArith Bool String.
From stdpp Require Import base list.
From S2P Require Import Prelude RustInt Allocation DecodeTable.

Local Open Scope string_scope.
Local Open Scope Z_scope.

(** [pattern] of [a64/mod.rs]: the entry's value is its first fixture. *)
Definition pattern (name : string) (mask value id priority : Z) (operands : list OperandField) :
    InstructionPattern :=
  {| pattern_name := name; pattern_mask := mask; pattern_value := value;
     pattern_operands := operands; coverage_id := id; priority := priority;
     decoder := ReadyToDecode; regression_fixture := Some value |}.

(** The outcome of a normalization: an instruction, or the panic of [unreachable!]. *)
Abbreviation normalized := (res Empty_set).

Module Control.

Definition B_FIELDS : list OperandField :=
  [{| field_id := ImmediateId; lsb := 0; width := 26; kind := SignedScaled 2 |}].

Definition PATTERNS : list InstructionPattern :=
  [fixture32 (pattern "nop"
      0xffff_ffff 0xd503_201f 0x0000_0001 200 []) 0xd503201f;
   fixture32 (pattern "b"
      0xfc00_0000 0x1400_0000 0x0000_0002 199 B_FIELDS) 0x14000000;
   fixture32 (pattern "bl"
      0xfc00_0000 0x9400_0000 0x0000_0004 198 []) 0x94000000;
   fixture32 (pattern "br"
      0xffff_fc1f 0xd61f_0000 0x0000_0005 194 []) 0xd61f0000;
   fixture32 (pattern "blr"
      0xffff_fc1f 0xd63f_0000 0x0000_0044 194 []) 0xd63f0000;
   fixture32 (pattern "ret"
      0xffff_fc1f 0xd65f_0000 0x0000_0045 194 []) 0xd65f03c0;
   recognized_unimplemented (pattern "eret"
      0xffff_ffff 0xd69f_03e0 0x0000_0046 194 []);
   recognized_unimplemented (pattern "drps"
      0xffff_ffff 0xd6bf_03e0 0x0000_0047 194 []);
   fixture32 (pattern "b.cond"
      0xff00_0010 0x5400_0000 0x0000_0006 197 []) 0x54000000;
   fixture32 (pattern "compare-branch"
      0x7e00_0000 0x3400_0000 0x0000_0007 78 []) 0x34000000;
   fixture32 (pattern "test-branch"
      0x7e00_0000 0x3600_0000 0x0000_0008 77 []) 0x36000000;
   fixture32 (pattern "svc"
      0xffe0_001f 0xd400_0001 0x0000_0009 196 []) 0xd4000001;
   fixture32 (pattern "brk"
      0xffe0_001f 0xd420_0000 0x0000_000a 195 []) 0xd4200000].

Record Operands := {
  rd : Z; rn : Z; condition : Z; bit_index : Z; branch_register_key : Z;
  immediate_14 : Z; immediate_16 : Z; immediate_19 : Z; immediate_26 : Z;
  nonzero : bool; width_64 : bool
}.

Inductive Instruction : Type :=
  | Nop (o : Operands)
  | BranchImmediate (o : Operands)
  | BranchLinkImmediate (o : Operands)
  | BranchRegister (o : Operands)
  | ConditionalBranch (o : Operands)
  | CompareBranch (o : Operands)
  | TestBranch (o : Operands)
  | SupervisorCall (o : Operands)
  | Breakpoint (o : Operands).

Definition operands_of (bits : Z) : Operands :=
  {| rd := Z.land bits 0x1f;
     rn := fld bits 5 0x1f;
     condition := Z.land bits 0xf;
     bit_index := Z.lor (shl_w 32 (fld bits 31 1) 5) (fld bits 19 0x1f);
     branch_register_key := Z.land bits 0xffff_fc1f;
     immediate_14 := fld bits 5 0x3fff;
     immediate_16 := fld bits 5 0xffff;
     immediate_19 := fld bits 5 0x7ffff;
     immediate_26 := Z.land bits 0x03ff_ffff;
     nonzero := bit_set bits 24;
     width_64 := bit_set bits 31 |}.

Definition normalize (instruction_id bits : Z) : normalized Instruction :=
  let operands := operands_of bits in
  if instruction_id =? 0x0000_0001 then Ok (Nop operands)
  else if instruction_id =? 0x0000_0002 then Ok (BranchImmediate operands)
  else if instruction_id =? 0x0000_0004 then Ok (BranchLinkImmediate operands)
  else if (instruction_id =? 0x0000_0005) || in_range instruction_id 0x0000_0044 0x0000_0047
  then Ok (BranchRegister operands)
  else if instruction_id =? 0x0000_0006 then Ok (ConditionalBranch operands)
  else if instruction_id =? 0x0000_0007 then Ok (CompareBranch operands)
  else if instruction_id =? 0x0000_0008 then Ok (TestBranch operands)
  else if instruction_id =? 0x0000_0009 then Ok (SupervisorCall operands)
  else if instruction_id =? 0x0000_000a then Ok (Breakpoint operands)
  else Panic.

End Control.

Module SystemFamily.

Definition PATTERNS : list InstructionPattern :=
  [fixture32 (pattern "hint"
      0xffff_f01f 0xd503_201f 0x0000_000b 190 []) 0xd503_203f;
   fixture32 (pattern "clear-exclusive"
      0xffff_f0ff 0xd503_305f 0x0000_001e 191 []) 0xd503_3f5f;
   fixture32 (pattern "mrs"
      0xfff0_0000 0xd530_0000 0x0000_000c 70 []) 0xd53b_4200;
   fixture32 (pattern "msr-register"
      0xfff0_0000 0xd510_0000 0x0000_000d 69 []) 0xd51b_4200;
   fixture32 (pattern "barrier"
      0xffff_f01f 0xd503_301f 0x0000_000e 189 []) 0xd503_3bbf;
   fixture32 (pattern "system"
      0xffc0_0000 0xd500_0000 0x0000_000f 20 []) 0xd508_7500].

Record Operands := {
  rt : Z; hint : Z; barrier_opcode : Z; barrier_option : Z; system_key : Z
}.

Inductive Instruction : Type :=
  | Hint (o : Operands)
  | ReadRegister (o : Operands)
  | WriteRegister (o : Operands)
  | Barrier (o : Operands)
  | ClearExclusive (o : Operands)
  | System (o : Operands).

Definition operands_of (bits : Z) : Operands :=
  {| rt := Z.land bits 0x1f;
     hint := fld bits 5 0x7f;
     barrier_opcode := fld bits 5 7;
     barrier_option := fld bits 8 0xf;
     system_key := Z.land bits 0xffff_ffe0 |}.

Definition normalize (instruction_id bits : Z) : normalized Instruction :=
  let operands := operands_of bits in
  if instruction_id =? 0x0000_000b then Ok (Hint operands)
  else if instruction_id =? 0x0000_000c then Ok (ReadRegister operands)
  else if instruction_id =? 0x0000_000d then Ok (WriteRegister operands)
  else if instruction_id =? 0x0000_000e then Ok (Barrier operands)
  else if instruction_id =? 0x0000_000f then Ok (System operands)
  else if instruction_id =? 0x0000_001e then Ok (ClearExclusive operands)
  else Panic.

End SystemFamily.

Module Integer.

Definition PATTERNS : list InstructionPattern :=
  [fixture32 (pattern "add-sub-immediate"
      0x1f00_0000 0x1100_0000 0x0000_0003 80 []) 0x9100_0000;
   pattern "move-wide"
      0x1f80_0000 0x1280_0000 0x0000_0010 79 [];
   pattern "add-sub-shifted"
      0x1f20_0000 0x0b00_0000 0x0000_0011 66 [];
   pattern "add-sub-extended"
      0x1f20_0000 0x0b20_0000 0x0000_0012 67 [];
   pattern "add-sub-carry"
      0x1fe0_fc00 0x1a00_0000 0x0000_0013 150 [];
   pattern "logical-immediate"
      0x1f80_0000 0x1200_0000 0x0000_0014 75 [];
   pattern "logical-shifted"
      0x1f00_0000 0x0a00_0000 0x0000_0015 65 [];
   pattern "bitfield"
      0x1f80_0000 0x1300_0000 0x0000_0016 74 [];
   pattern "extract"
      0x1f80_0000 0x1380_0000 0x0000_0017 73 [];
   fixture32 (pattern "data-processing-two-source"
      0x1fe0_0000 0x1ac0_0000 0x0000_0018 72 []) 0x9ac1_2000;
   pattern "conditional-compare-register"
      0x1fe0_0c00 0x1a40_0000 0x0000_0019 149 [];
   pattern "conditional-compare-immediate"
      0x1fe0_0c00 0x1a40_0800 0x0000_001a 148 [];
   pattern "conditional-select"
      0x1fe0_0000 0x1a80_0000 0x0000_001b 71 [];
   fixture32 (pattern "data-processing-three-source"
      0x1f00_0000 0x1b00_0000 0x0000_001c 64 []) 0x9b01_0800;
   fixture32 (pattern "data-processing-one-source"
      0x5fe0_0000 0x5ac0_0000 0x0000_001d 76 []) 0xdac0_1000;
   pattern "adr"
      0x9f00_0000 0x1000_0000 0x0000_0020 63 [];
   pattern "adrp"
      0x9f00_0000 0x9000_0000 0x0000_0021 62 []].

Record Operands := {
  rd : Z; rn : Z; ra : Z; rm : Z; nzcv : Z; condition : Z; shift_amount : Z; small_shift : Z;
  shift_kind : Z; immediate_6_high : Z; immediate_12 : Z; immediate_16 : Z; extension : Z;
  opcode_2 : Z; opcode_3 : Z; n : bool; bit10 : bool; invert : bool; immediate_form : bool;
  subtract_product : bool; set_flags : bool; subtract : bool; width_64 : bool; adr_immediate : Z
}.

Inductive Instruction : Type :=
  | MoveWide (o : Operands)
  | AddSubImmediate (o : Operands)
  | AddSubShifted (o : Operands)
  | AddSubExtended (o : Operands)
  | AddSubCarry (o : Operands)
  | LogicalImmediate (o : Operands)
  | LogicalShifted (o : Operands)
  | Bitfield (o : Operands)
  | Extract (o : Operands)
  | TwoSource (o : Operands)
  | ConditionalCompareRegister (o : Operands)
  | ConditionalCompareImmediate (o : Operands)
  | ConditionalSelect (o : Operands)
  | ThreeSource (o : Operands)
  | OneSource (o : Operands)
  | Adr (o : Operands)
  | Adrp (o : Operands).

Definition operands (i : Instruction) : Operands :=
  match i with
  | MoveWide o | AddSubImmediate o | AddSubShifted o | AddSubExtended o | AddSubCarry o
  | LogicalImmediate o | LogicalShifted o | Bitfield o | Extract o | TwoSource o
  | ConditionalCompareRegister o | ConditionalCompareImmediate o | ConditionalSelect o
  | ThreeSource o | OneSource o | Adr o | Adrp o => o
  end.

Definition operands_of (bits : Z) : Operands :=
  {| rd := Z.land bits 0x1f;
     rn := fld bits 5 0x1f;
     ra := fld bits 10 0x1f;
     rm := fld bits 16 0x1f;
     nzcv := Z.land bits 0xf;
     condition := fld bits 12 0xf;
     shift_amount := fld bits 10 0x3f;
     small_shift := fld bits 10 7;
     shift_kind := fld bits 22 3;
     immediate_6_high := fld bits 16 0x3f;
     immediate_12 := fld bits 10 0xfff;
     immediate_16 := fld bits 5 0xffff;
     extension := fld bits 13 7;
     opcode_2 := fld bits 21 3;
     opcode_3 := fld bits 21 7;
     n := bit_set bits 22;
     bit10 := bit_set bits 10;
     invert := bit_set bits 21;
     immediate_form := bit_set bits 11;
     subtract_product := bit_set bits 15;
     set_flags := bit_set bits 29;
     subtract := bit_set bits 30;
     width_64 := bit_set bits 31;
     adr_immediate := Z.lor (fld bits 3 0x1f_fffc) (fld bits 29 3) |}.

Definition normalize (instruction_id bits : Z) : normalized Instruction :=
  let operands := operands_of bits in
  if instruction_id =? 0x0000_0010 then Ok (MoveWide operands)
  else if instruction_id =? 0x0000_0003 then Ok (AddSubImmediate operands)
  else if instruction_id =? 0x0000_0011 then Ok (AddSubShifted operands)
  else if instruction_id =? 0x0000_0012 then Ok (AddSubExtended operands)
  else if instruction_id =? 0x0000_0013 then Ok (AddSubCarry operands)
  else if instruction_id =? 0x0000_0014 then Ok (LogicalImmediate operands)
  else if instruction_id =? 0x0000_0015 then Ok (LogicalShifted operands)
  else if instruction_id =? 0x0000_0016 then Ok (Bitfield operands)
  else if instruction_id =? 0x0000_0017 then Ok (Extract operands)
  else if instruction_id =? 0x0000_0018 then Ok (TwoSource operands)
  else if instruction_id =? 0x0000_0019 then Ok (ConditionalCompareRegister operands)
  else if instruction_id =? 0x0000_001a then Ok (ConditionalCompareImmediate operands)
  else if instruction_id =? 0x0000_001b then Ok (ConditionalSelect operands)
  else if instruction_id =? 0x0000_001c then Ok (ThreeSource operands)
  else if instruction_id =? 0x0000_001d then Ok (OneSource operands)
  else if instruction_id =? 0x0000_0020 then Ok (Adr operands)
  else if instruction_id =? 0x0000_0021 then Ok (Adrp operands)
  else Panic.

End Integer.

Module Memory.

Definition PATTERNS : list InstructionPattern :=
  [pattern "load-literal"
      0x3f00_0000 0x1800_0000 0x0000_0022 61 [];
   pattern "load-store-unsigned"
      0x3f00_0000 0x3900_0000 0x0000_0023 60 [];
   pattern "load-store-unscaled"
      0x3f20_0c00 0x3800_0000 0x0000_0024 120 [];
   fixture32 (pattern "load-store-post-index"
      0x3f20_0c00 0x3800_0400 0x0000_0025 119 []) 0x3800_0401;
   fixture32 (pattern "load-store-pre-index"
      0x3f20_0c00 0x3800_0c00 0x0000_0026 118 []) 0x3800_0c01;
   fixture32 (pattern "load-store-register"
      0x3f20_0c00 0x3820_0800 0x0000_0027 117 []) 0xf861_6800;
   pattern "load-store-pair"
      0x3e00_0000 0x2800_0000 0x0000_0028 59 [];
   pattern "load-acquire"
      0x3fe0_fc00 0x08c0_fc00 0x0000_0029 147 [];
   pattern "store-release"
      0x3fe0_fc00 0x0880_fc00 0x0000_002a 146 [];
   pattern "load-exclusive"
      0x3fe0_7c00 0x0840_7c00 0x0000_002b 145 [];
   pattern "store-exclusive"
      0x3f20_7c00 0x0800_7c00 0x0000_002c 144 [];
   fixture32 (pattern "load-exclusive-pair"
      0xbfe0_0000 0x8860_0000 0x0000_005e 150 []) 0xc87f_0c20;
   fixture32 (pattern "store-exclusive-pair"
      0xbf20_0000 0x8820_0000 0x0000_005f 149 []) 0xc822_0c20;
   fixture32 (pattern "atomic-read-modify-write"
      0x3f20_0c00 0x3820_0000 0x0000_002d 151 []) 0xb8e0_0041;
   fixture32 (pattern "compare-and-swap"
      0x3fa0_7c00 0x08a0_7c00 0x0000_002e 153 []) 0x88e0_fc41;
   fixture32 (pattern "compare-and-swap-pair"
      0xbfa0_7c00 0x0820_7c00 0x0000_002f 152 []) 0x4860_fc82].

Record Operands := {
  rt : Z; rn : Z; rt2 : Z; rm : Z; size : Z; opc : Z; mode : Z; option : Z; immediate_7 : Z;
  immediate_9 : Z; immediate_12 : Z; immediate_19 : Z; load : bool; ordered : bool;
  scaled : bool; acquire : bool; release : bool; atomic_opcode : Z
}.

Inductive Instruction : Type :=
  | Literal (o : Operands)
  | Unsigned (o : Operands)
  | Unscaled (o : Operands)
  | PostIndex (o : Operands)
  | PreIndex (o : Operands)
  | Register (o : Operands)
  | Pair (o : Operands)
  | LoadAcquire (o : Operands)
  | StoreRelease (o : Operands)
  | LoadExclusive (o : Operands)
  | StoreExclusive (o : Operands)
  | LoadExclusivePair (o : Operands)
  | StoreExclusivePair (o : Operands)
  | AtomicReadModifyWrite (o : Operands)
  | CompareAndSwap (o : Operands)
  | CompareAndSwapPair (o : Operands).

Definition operands_of (instruction_id bits : Z) : Operands :=
  let '(acquire_, release_) :=
    if instruction_id =? 0x0000_002d then (bit_set bits 23, bit_set bits 22)
    else if one_of instruction_id [0x0000_002e; 0x0000_002f]
    then (bit_set bits 22, bit_set bits 15)
    else (false, false) in
  {| rt := Z.land bits 0x1f;
     rn := fld bits 5 0x1f;
     rt2 := fld bits 10 0x1f;
     rm := fld bits 16 0x1f;
     size := wrap 8 (Z.shiftr bits 30);
     opc := fld bits 22 3;
     mode := fld bits 23 3;
     option := fld bits 13 7;
     immediate_7 := fld bits 15 0x7f;
     immediate_9 := fld bits 12 0x1ff;
     immediate_12 := fld bits 10 0xfff;
     immediate_19 := fld bits 5 0x7ffff;
     load := bit_set bits 22;
     ordered := bit_set bits 15;
     scaled := bit_set bits 12;
     acquire := acquire_;
     release := release_;
     atomic_opcode := fld bits 12 0xf |}.

Definition normalize (instruction_id bits : Z) : normalized Instruction :=
  let operands := operands_of instruction_id bits in
  if instruction_id =? 0x0000_0022 then Ok (Literal operands)
  else if instruction_id =? 0x0000_0023 then Ok (Unsigned operands)
  else if instruction_id =? 0x0000_0024 then Ok (Unscaled operands)
  else if instruction_id =? 0x0000_0025 then Ok (PostIndex operands)
  else if instruction_id =? 0x0000_0026 then Ok (PreIndex operands)
  else if instruction_id =? 0x0000_0027 then Ok (Register operands)
  else if instruction_id =? 0x0000_0028 then Ok (Pair operands)
  else if instruction_id =? 0x0000_0029 then Ok (LoadAcquire operands)
  else if instruction_id =? 0x0000_002a then Ok (StoreRelease operands)
  else if instruction_id =? 0x0000_002b then Ok (LoadExclusive operands)
  else if instruction_id =? 0x0000_002c then Ok (StoreExclusive operands)
  else if instruction_id =? 0x0000_002d then Ok (AtomicReadModifyWrite operands)
  else if instruction_id =? 0x0000_002e then Ok (CompareAndSwap operands)
  else if instruction_id =? 0x0000_002f then Ok (CompareAndSwapPair operands)
  else if instruction_id =? 0x0000_005e then Ok (LoadExclusivePair operands)
  else if instruction_id =? 0x0000_005f then Ok (StoreExclusivePair operands)
  else Panic.

End Memory.
