(* ===== verification/DecodeFpSimd.v ===== *)
(** * Floating-point and Advanced SIMD encodings

    [crates/cpu/src/decode/a64/fp_simd.rs]: the pattern table, in source order
    and split into consecutive parts, the normalized operands with their
    operation enumerations, and [normalize]. *)

From Stdlib Require Import ZArith Bool String.
From stdpp Require Import base list.
From S2P Require Import Prelude RustInt Allocation DecodeTable DecodeBase.

Local Open Scope string_scope.
Local Open Scope Z_scope.

Module FpSimd.

Definition PATTERNS_1 : list InstructionPattern :=
  [fixture32 (pattern "simd-duplicate-general"
      0xbfe0_fc00 0x0e00_0c00 0x0000_0048 130 []) 0x4e01_0c20;
   fixture32 (pattern "simd-duplicate-element"
      0xbfe0_fc00 0x0e00_0400 0x0000_008c 174 []) 0x0e04_07ff;
   pattern "fp-simd-load-store-pair"
      0x3e00_0000 0x2c00_0000 0x0000_0049 131 [];
   pattern "simd-bitwise"
      0x9f20_fc00 0x0e20_1c00 0x0000_0030 110 [];
   pattern "simd-integer"
      0x9f20_fc00 0x0e20_8400 0x0000_0031 58 [];
   pattern "simd-add-pairwise"
      0xbf20_fc00 0x0e20_bc00 0x0000_0059 151 [];
   pattern "simd-signed-max-pairwise"
      0xbf20_fc00 0x0e20_a400 0x0000_005a 152 [];
   pattern "simd-signed-min-pairwise"
      0xbf20_fc00 0x0e20_ac00 0x0000_005b 153 [];
   pattern "simd-unsigned-max-pairwise"
      0xbf20_fc00 0x2e20_a400 0x0000_005c 154 [];
   pattern "simd-unsigned-min-pairwise"
      0xbf20_fc00 0x2e20_ac00 0x0000_005d 155 [];
   pattern "simd-signed-max"
      0xbf20_fc00 0x0e20_6400 0x0000_0066 156 [];
   pattern "simd-signed-min"
      0xbf20_fc00 0x0e20_6c00 0x0000_0067 157 [];
   pattern "simd-unsigned-max"
      0xbf20_fc00 0x2e20_6400 0x0000_0068 158 [];
   pattern "simd-unsigned-min"
      0xbf20_fc00 0x2e20_6c00 0x0000_0069 159 []].

Definition PATTERNS_2 : list InstructionPattern :=
  [pattern "simd-compare-signed-greater-than"
      0xbf20_fc00 0x0e20_3400 0x0000_004e 140 [];
   pattern "simd-compare-unsigned-higher"
      0xbf20_fc00 0x2e20_3400 0x0000_004f 141 [];
   pattern "simd-compare-signed-greater-equal"
      0xbf20_fc00 0x0e20_3c00 0x0000_0050 142 [];
   pattern "simd-compare-unsigned-higher-same"
      0xbf20_fc00 0x2e20_3c00 0x0000_0051 143 [];
   pattern "simd-compare-test-nonzero"
      0xbf20_fc00 0x0e20_8c00 0x0000_0052 144 [];
   pattern "simd-compare-equal"
      0xbf20_fc00 0x2e20_8c00 0x0000_0053 145 [];
   pattern "simd-compare-zero-signed-greater-than"
      0xbf3f_fc00 0x0e20_8800 0x0000_0054 146 [];
   pattern "simd-compare-zero-signed-greater-equal"
      0xbf3f_fc00 0x2e20_8800 0x0000_0055 147 [];
   pattern "simd-compare-zero-equal"
      0xbf3f_fc00 0x0e20_9800 0x0000_0056 148 [];
   pattern "simd-compare-zero-signed-less-equal"
      0xbf3f_fc00 0x2e20_9800 0x0000_0057 149 [];
   pattern "simd-compare-zero-signed-less-than"
      0xbf3f_fc00 0x0e20_a800 0x0000_0058 150 [];
   recognized_unimplemented (fixture32 (pattern "fp-scalar-two-source"
      0x5f20_0c00 0x1e20_0800 0x0000_0032 30 []) 0x1e20_4800);
   pattern "fp-simd-load-store-unsigned"
      0x3f00_0000 0x3d00_0000 0x0000_0033 122 [];
   pattern "fp-simd-load-store-unscaled"
      0x3f20_0c00 0x3c00_0000 0x0000_0034 121 [];
   pattern "fp-scalar-move"
      0xffbf_fc00 0x1e20_4000 0x0000_0035 109 []].

Definition PATTERNS_3 : list InstructionPattern :=
  [pattern "fp-scalar-move-half"
      0xffff_fc00 0x1ee0_4000 0x0000_0089 110 [];
   pattern "fp-scalar-absolute"
      0xffbf_fc00 0x1e20_c000 0x0000_008d 175 [];
   pattern "fp-scalar-negate"
      0xffbf_fc00 0x1e21_4000 0x0000_008e 175 [];
   pattern "fp-scalar-absolute-half"
      0xffff_fc00 0x1ee0_c000 0x0000_008f 176 [];
   pattern "fp-scalar-negate-half"
      0xffff_fc00 0x1ee1_4000 0x0000_0090 176 [];
   pattern "simd-floating-point-absolute"
      0xbfbf_fc00 0x0ea0_f800 0x0000_009c 210 [];
   pattern "simd-floating-point-negate"
      0xbfbf_fc00 0x2ea0_f800 0x0000_009d 210 [];
   pattern "fp-scalar-square-root"
      0xffbf_fc00 0x1e21_c000 0x0000_0098 208 [];
   pattern "fp-compare-register"
      0xffa0_fc0f 0x1e20_2000 0x0000_0036 108 [];
   pattern "fp-compare-zero"
      0xffbf_fc0f 0x1e20_2008 0x0000_0037 107 [];
   pattern "fp-scalar-floating-point-conditional-compare"
      0xffa0_0c00 0x1e20_0400 0x0000_009b 209 [];
   pattern "simd-modified-immediate"
      0x9ff8_0c00 0x0f00_0400 0x0000_004a 132 [];
   pattern "simd-floating-point-immediate"
      0x9ff8_fc00 0x0f00_f400 0x0000_0086 201 []].

Definition PATTERNS_4 : list InstructionPattern :=
  [fixture32 (pattern "simd-unsigned-move-to-general"
      0xbfe0_fc00 0x0e00_3c00 0x0000_004b 133 []) 0x4e08_3c01;
   fixture32 (pattern "simd-insert-element"
      0xffe0_8400 0x6e00_0400 0x0000_0060 160 []) 0x6e03_07be;
   fixture32 (pattern "simd-insert-general"
      0xffe0_fc00 0x4e00_1c00 0x0000_0061 159 []) 0x4e03_1d28;
   fixture32 (pattern "simd-permute-two-source"
      0xbf20_8c00 0x0e00_0800 0x0000_0064 161 []) 0x4e1d_3bde;
   pattern "simd-extract"
      0xbf20_8400 0x2e00_0000 0x0000_0085 171 [];
   fixture32 (pattern "simd-shift-right-narrow"
      0xbf80_fc00 0x0f00_8400 0x0000_0065 162 []) 0x0f0c_8400;
   fixture32 (pattern "simd-scalar-shift-right-immediate"
      0xdf80_fc00 0x5f00_0400 0x0000_0091 203 []) 0x7f60_07fe;
   fixture32 (pattern "simd-vector-shift-right-immediate"
      0x9f80_fc00 0x0f00_0400 0x0000_0092 202 []) 0x2f0f_0420;
   fixture32 (pattern "simd-scalar-shift-left-immediate"
      0xff80_fc00 0x5f00_5400 0x0000_0099 208 []) 0x5f60_57de;
   fixture32 (pattern "simd-vector-shift-left-immediate"
      0xbf80_fc00 0x0f00_5400 0x0000_009a 207 []) 0x4f3f_556a;
   fixture32 (pattern "simd-shift-left-long"
      0x9f80_fc00 0x0f00_a400 0x0000_00a0 210 []) 0x0f20_a7fe;
   pattern "simd-signed-shift-left-register"
      0xbf20_fc00 0x0e20_4400 0x0000_0095 206 []].

Definition PATTERNS_5 : list InstructionPattern :=
  [pattern "simd-unsigned-shift-left-register"
      0xbf20_fc00 0x2e20_4400 0x0000_0096 206 [];
   pattern "simd-count-bits"
      0xbfff_fc00 0x0e20_5800 0x0000_0093 204 [];
   pattern "simd-add-across-vector"
      0xbf3f_fc00 0x0e31_b800 0x0000_0094 205 [];
   pattern "simd-extract-narrow"
      0xbf3f_fc00 0x0e21_2800 0x0000_0088 172 [];
   fixture32 (pattern "simd-load-store-multiple-structures"
      0xbfbf_0000 0x0c00_0000 0x0000_004c 135 []) 0x4c40_a020;
   fixture32 (pattern "simd-load-store-multiple-structures-post-index"
      0xbfa0_0000 0x0c80_0000 0x0000_004d 136 []) 0x4cdf_a041;
   fixture32 (pattern "simd-load-store-single-structure"
      0xbf9f_0000 0x0d00_0000 0x0000_0062 158 []) 0x0d40_183d;
   fixture32 (pattern "simd-load-store-single-structure-post-index"
      0xbf80_0000 0x0d80_0000 0x0000_0063 157 []) 0x0ddf_1e30;
   pattern "simd-signed-int-to-float"
      0xbfbf_fc00 0x0e21_d800 0x0000_006a 160 [];
   pattern "simd-unsigned-int-to-float"
      0xbfbf_fc00 0x2e21_d800 0x0000_006b 160 [];
   pattern "simd-scalar-signed-int-to-float"
      0xffbf_fc00 0x5e21_d800 0x0000_008a 173 [];
   pattern "simd-scalar-unsigned-int-to-float"
      0xffbf_fc00 0x7e21_d800 0x0000_008b 173 [];
   pattern "simd-floating-point-divide"
      0xbfa0_fc00 0x2e20_fc00 0x0000_006c 161 []].

Definition PATTERNS_6 : list InstructionPattern :=
  [fixture32 (pattern "simd-floating-point-multiply-by-element"
      0xbf00_f400 0x0f00_9000 0x0000_00a1 211 []) 0x4f96_93fb;
   pattern "fp-scalar-immediate"
      0xffa0_1fe0 0x1e20_1000 0x0000_006d 163 [];
   pattern "fp-scalar-immediate-half"
      0xffe0_1fe0 0x1ee0_1000 0x0000_006e 164 [];
   pattern "fp-convert-single-to-double"
      0xffff_fc00 0x1e22_c000 0x0000_006f 165 [];
   pattern "fp-convert-double-to-single"
      0xffff_fc00 0x1e62_4000 0x0000_0070 165 [];
   pattern "fp-scalar-floating-point-divide"
      0xffa0_fc00 0x1e20_1800 0x0000_0071 166 [];
   pattern "fp-scalar-floating-point-add"
      0xffa0_fc00 0x1e20_2800 0x0000_0079 168 [];
   pattern "fp-scalar-floating-point-subtract"
      0xffa0_fc00 0x1e20_3800 0x0000_007a 168 [];
   pattern "fp-scalar-floating-point-multiply"
      0xffa0_fc00 0x1e20_0800 0x0000_007b 169 [];
   pattern "fp-scalar-floating-point-negated-multiply"
      0xffa0_fc00 0x1e20_8800 0x0000_007c 169 [];
   pattern "fp-scalar-fused-multiply-add"
      0xff80_0000 0x1f00_0000 0x0000_0097 207 [];
   pattern "fp-scalar-floating-point-conditional-select"
      0xffa0_0c00 0x1e20_0c00 0x0000_0087 170 [];
   pattern "fp-scalar-round-nearest-even"
      0xffbf_fc00 0x1e24_4000 0x0000_0072 167 []].

Definition PATTERNS_7 : list InstructionPattern :=
  [pattern "fp-scalar-round-positive"
      0xffbf_fc00 0x1e24_c000 0x0000_0073 167 [];
   pattern "fp-scalar-round-negative"
      0xffbf_fc00 0x1e25_4000 0x0000_0074 167 [];
   pattern "fp-scalar-round-zero"
      0xffbf_fc00 0x1e25_c000 0x0000_0075 167 [];
   pattern "fp-scalar-round-nearest-away"
      0xffbf_fc00 0x1e26_4000 0x0000_0076 167 [];
   pattern "fp-scalar-round-exact"
      0xffbf_fc00 0x1e27_4000 0x0000_0077 167 [];
   pattern "fp-scalar-round-current-mode"
      0xffbf_fc00 0x1e27_c000 0x0000_0078 167 [];
   recognized_unimplemented (pattern "advanced-simd-unsupported"
      0x1e00_0000 0x0e00_0000 0x0000_0038 2 []);
   recognized_unimplemented (pattern "floating-point-unsupported"
      0x1f00_0000 0x1e00_0000 0x0000_0039 1 []);
   pattern "fp-signed-int-to-float"
      0x5fbf_fc00 0x1e22_0000 0x0000_003a 106 [];
   pattern "fp-unsigned-int-to-float"
      0x5fbf_fc00 0x1e23_0000 0x0000_003b 105 [];
   pattern "fp-float-to-signed-int"
      0x5fbf_fc00 0x1e38_0000 0x0000_003c 104 [];
   pattern "fp-float-to-unsigned-int"
      0x5fbf_fc00 0x1e39_0000 0x0000_003d 103 [];
   fixture32 (pattern "fp-float-to-signed-fixed-int"
      0x7fbf_0000 0x1e18_0000 0x0000_009e 176 []) 0x1e18_e027;
   fixture32 (pattern "fp-float-to-unsigned-fixed-int"
      0x7fbf_0000 0x1e19_0000 0x0000_009f 175 []) 0x1e19_e027].

Definition PATTERNS_8 : list InstructionPattern :=
  [pattern "fp-float-to-signed-int-nearest-even"
      0x5fbf_fc00 0x1e20_0000 0x0000_007d 170 [];
   pattern "fp-float-to-unsigned-int-nearest-even"
      0x5fbf_fc00 0x1e21_0000 0x0000_007e 170 [];
   pattern "fp-float-to-signed-int-nearest-away"
      0x5fbf_fc00 0x1e24_0000 0x0000_007f 170 [];
   pattern "fp-float-to-unsigned-int-nearest-away"
      0x5fbf_fc00 0x1e25_0000 0x0000_0080 170 [];
   pattern "fp-float-to-signed-int-positive"
      0x5fbf_fc00 0x1e28_0000 0x0000_0081 170 [];
   pattern "fp-float-to-unsigned-int-positive"
      0x5fbf_fc00 0x1e29_0000 0x0000_0082 170 [];
   pattern "fp-float-to-signed-int-negative"
      0x5fbf_fc00 0x1e30_0000 0x0000_0083 170 [];
   pattern "fp-float-to-unsigned-int-negative"
      0x5fbf_fc00 0x1e31_0000 0x0000_0084 170 [];
   pattern "fp-move-to-general"
      0x5f37_fc00 0x1e26_0000 0x0000_003e 102 [];
   pattern "fp-move-from-general"
      0x5f37_fc00 0x1e27_0000 0x0000_003f 101 [];
   pattern "fp-simd-load-store-post-index"
      0x3f20_0c00 0x3c00_0400 0x0000_0040 120 [];
   pattern "fp-simd-load-store-pre-index"
      0x3f20_0c00 0x3c00_0c00 0x0000_0041 119 [];
   fixture32 (pattern "fp-simd-load-store-register"
      0x3f20_0c00 0x3c20_0800 0x0000_0042 118 []) 0x3c22_4820;
   recognized_unimplemented (pattern "fp-simd-load-literal"
      0x3f00_0000 0x1c00_0000 0x0000_0043 123 [])].

Definition PATTERNS : list InstructionPattern :=
  (PATTERNS_1 ++ PATTERNS_2 ++ PATTERNS_3 ++ PATTERNS_4 ++ PATTERNS_5 ++ PATTERNS_6 ++ PATTERNS_7 ++ PATTERNS_8)%list.

Inductive BitwiseOperation : Set :=
  | And | BitClear | Or | OrNot | ExclusiveOr | Select | InsertIfTrue | InsertIfFalse.

Inductive IntegerComparison : Set :=
  | SignedGreaterThan | UnsignedGreaterThan | SignedGreaterThanOrEqual
  | UnsignedGreaterThanOrEqual | SignedLessThan | SignedLessThanOrEqual | NonzeroBitTest | Equal.

Inductive PairwiseOperation : Set :=
  | PairwiseAdd | SignedMaximum | SignedMinimum | UnsignedMaximum | UnsignedMinimum.

Inductive PermuteOperation : Set :=
  | UnzipPrimary | UnzipSecondary | TransposePrimary | TransposeSecondary | ZipPrimary
  | ZipSecondary.

Inductive FloatConversion : Set := SingleToDouble | DoubleToSingle.

Inductive FloatToIntegerRounding : Set :=
  | ToIntegerNearestEven | ToIntegerNearestAway | ToIntegerTowardPositive
  | ToIntegerTowardNegative | ToIntegerTowardZero.

Inductive FloatRoundOperation : Set :=
  | RoundNearestEven | RoundTowardPositive | RoundTowardNegative | RoundTowardZero
  | RoundNearestAway | RoundExact | RoundCurrentMode.

Inductive FloatAddOperation : Set := FloatAdd | FloatSubtract.

Inductive FloatMultiplyOperation : Set := Multiply | NegatedMultiply.

Inductive FloatFusedMultiplyOperation : Set :=
  | MultiplyAdd | MultiplySubtract | NegatedMultiplyAdd | NegatedMultiplySubtract.

Record Operands := {
  rd : Z; rn : Z; rm : Z; ra : Z; size : Z; opc : Z; option_field : Z; immediate_9 : Z;
  immediate_12 : Z; immediate_19 : Z; load : bool; quad : bool; vector_128 : bool;
  subtract : bool; scaled : bool; immediate_5 : Z; rt2 : Z; immediate_7 : Z;
  shift_immediate : Z; mode : Z; immediate_8 : Z; cmode : Z; structure_opcode : Z;
  structure_r : bool;
  bitwise_op : option BitwiseOperation;
  integer_cmp : option IntegerComparison;
  pairwise_op : option PairwiseOperation;
  permute_op : option PermuteOperation;
  compare_with_zero : bool; signaling_compare : bool; operation_bit : bool; immediate_4 : Z;
  nzcv_immediate : Z; condition : Z; element_size : Z; fp_immediate_8 : Z; fp_element_lane : Z;
  float_conversion : option FloatConversion;
  float_to_integer_rounding : option FloatToIntegerRounding;
  fixed_point_fraction_bits : option Z;
  float_round_operation : option FloatRoundOperation;
  float_add_operation : option FloatAddOperation;
  float_multiply_operation : option FloatMultiplyOperation;
  float_fused_multiply_operation : option FloatFusedMultiplyOperation
}.

Inductive Instruction : Type :=
  | DuplicateGeneral (o : Operands)
  | DuplicateElement (o : Operands)
  | MemoryPair (o : Operands)
  | Bitwise (o : Operands)
  | IntegerArithmetic (o : Operands)
  | ScalarMove (o : Operands)
  | ScalarAbsolute (o : Operands)
  | ScalarNegate (o : Operands)
  | VectorFloatAbsolute (o : Operands)
  | VectorFloatNegate (o : Operands)
  | CompareRegister (o : Operands)
  | CompareZero (o : Operands)
  | ConditionalCompare (o : Operands)
  | ModifiedImmediate (o : Operands)
  | UnsignedMoveToGeneral (o : Operands)
  | InsertElement (o : Operands)
  | InsertGeneral (o : Operands)
  | SignedIntToFloat (o : Operands)
  | UnsignedIntToFloat (o : Operands)
  | FloatToSignedInt (o : Operands)
  | FloatToUnsignedInt (o : Operands)
  | MoveToGeneral (o : Operands)
  | MoveFromGeneral (o : Operands)
  | MemoryUnsigned (o : Operands)
  | MemoryUnscaled (o : Operands)
  | MemoryPostIndex (o : Operands)
  | MemoryPreIndex (o : Operands)
  | MemoryRegister (o : Operands)
  | MemoryMultipleStructures (o : Operands)
  | MemoryMultipleStructuresPostIndex (o : Operands)
  | MemorySingleStructure (o : Operands)
  | MemorySingleStructurePostIndex (o : Operands)
  | PermuteTwoSource (o : Operands)
  | Extract (o : Operands)
  | IntegerCompare (o : Operands)
  | IntegerPairwise (o : Operands)
  | IntegerMinMax (o : Operands)
  | ShiftRightNarrow (o : Operands)
  | ScalarShiftRightImmediate (o : Operands)
  | VectorShiftRightImmediate (o : Operands)
  | ScalarShiftLeftImmediate (o : Operands)
  | VectorShiftLeftImmediate (o : Operands)
  | ShiftLeftLong (o : Operands)
  | VectorSignedShiftRegister (o : Operands)
  | VectorUnsignedShiftRegister (o : Operands)
  | CountBits (o : Operands)
  | AddAcrossVector (o : Operands)
  | ExtractNarrow (o : Operands)
  | VectorSignedIntToFloat (o : Operands)
  | VectorUnsignedIntToFloat (o : Operands)
  | ScalarVectorSignedIntToFloat (o : Operands)
  | ScalarVectorUnsignedIntToFloat (o : Operands)
  | VectorFloatDivide (o : Operands)
  | VectorFloatMultiplyElement (o : Operands)
  | VectorFloatImmediate (o : Operands)
  | ScalarFloatImmediate (o : Operands)
  | ScalarFloatConvert (o : Operands)
  | ScalarFloatDivide (o : Operands)
  | ScalarFloatRound (o : Operands)
  | ScalarFloatAdd (o : Operands)
  | ScalarFloatMultiply (o : Operands)
  | ScalarFloatFusedMultiplyAdd (o : Operands)
  | ScalarFloatSquareRoot (o : Operands)
  | ScalarFloatConditionalSelect (o : Operands).

Definition permute_operation (bits : Z) : option PermuteOperation :=
  match fld bits 12 7 with
  | 1 => Some UnzipPrimary
  | 2 => Some TransposePrimary
  | 3 => Some ZipPrimary
  | 5 => Some UnzipSecondary
  | 6 => Some TransposeSecondary
  | 7 => Some ZipSecondary
  | _ => None
  end.

Definition bitwise_operation (bits : Z) : option BitwiseOperation :=
  match Z.lor (shl_w 32 (fld bits 29 1) 2) (fld bits 22 3) with
  | 0 => Some And
  | 1 => Some BitClear
  | 2 => Some Or
  | 3 => Some OrNot
  | 4 => Some ExclusiveOr
  | 5 => Some Select
  | 6 => Some InsertIfTrue
  | 7 => Some InsertIfFalse
  | _ => None
  end.

Definition integer_comparison (instruction_id : Z) : option IntegerComparison :=
  match instruction_id with
  | 0x0000_004e => Some SignedGreaterThan
  | 0x0000_004f => Some UnsignedGreaterThan
  | 0x0000_0050 => Some SignedGreaterThanOrEqual
  | 0x0000_0051 => Some UnsignedGreaterThanOrEqual
  | 0x0000_0052 => Some NonzeroBitTest
  | 0x0000_0053 => Some Equal
  | 0x0000_0054 => Some SignedGreaterThan
  | 0x0000_0055 => Some SignedGreaterThanOrEqual
  | 0x0000_0056 => Some Equal
  | 0x0000_0057 => Some SignedLessThanOrEqual
  | 0x0000_0058 => Some SignedLessThan
  | _ => None
  end.

Definition pairwise_operation (instruction_id : Z) : option PairwiseOperation :=
  match instruction_id with
  | 0x0000_0059 => Some PairwiseAdd
  | 0x0000_005a => Some SignedMaximum
  | 0x0000_005b => Some SignedMinimum
  | 0x0000_005c => Some UnsignedMaximum
  | 0x0000_005d => Some UnsignedMinimum
  | 0x0000_0066 => Some SignedMaximum
  | 0x0000_0067 => Some SignedMinimum
  | 0x0000_0068 => Some UnsignedMaximum
  | 0x0000_0069 => Some UnsignedMinimum
  | _ => None
  end.

(** [(id == x).then(|| option.expect(..))]: the panic of the [expect] is kept. *)
Definition then_expect {A} (b : bool) (o : option A) : normalized (option A) :=
  if b then match o with Some a => Ok (Some a) | None => Panic end else Ok None.

(** [64 - scale] at [u8], where [scale] is a six-bit field. *)
Definition fraction_bits (instruction_id bits : Z) : option Z :=
  if one_of instruction_id [0x0000_009e; 0x0000_009f] then Some (64 - fld bits 10 0x3f) else None.

Definition fused_multiply_operation (bits : Z) : option FloatFusedMultiplyOperation :=
  match Z.lor (Z.land (Z.shiftr bits 20) 2) (fld bits 15 1) with
  | 0 => Some MultiplyAdd
  | 1 => Some MultiplySubtract
  | 2 => Some NegatedMultiplyAdd
  | 3 => Some NegatedMultiplySubtract
  | _ => None
  end.

Definition operands_of (instruction_id bits : Z) : normalized Operands :=
  bitwise_operation_ ← then_expect (instruction_id =? 0x0000_0030) (bitwise_operation bits);
  permute_operation_ ← then_expect (instruction_id =? 0x0000_0064) (permute_operation bits);
  fused_operation_ ← then_expect (instruction_id =? 0x0000_0097) (fused_multiply_operation bits);
  Ok
  {| rd := Z.land bits 0x1f;
     rn := fld bits 5 0x1f;
     rm := fld bits 16 0x1f;
     ra := fld bits 10 0x1f;
     size := wrap 8 (Z.shiftr bits 30);
     opc := if instruction_id =? 0x0000_00a1 then fld bits 22 1 else fld bits 22 3;
     option_field := fld bits 13 7;
     immediate_9 := fld bits 12 0x1ff;
     immediate_12 := fld bits 10 0xfff;
     immediate_19 := fld bits 5 0x7ffff;
     load := bit_set bits 22;
     quad := bit_set bits 23;
     vector_128 := bit_set bits 30;
     subtract := bit_set bits 29;
     scaled := bit_set bits 12;
     immediate_5 := fld bits 16 0x1f;
     rt2 := fld bits 10 0x1f;
     immediate_7 := fld bits 15 0x7f;
     shift_immediate := fld bits 16 0x7f;
     mode := fld bits 23 3;
     immediate_8 := Z.lor (shl_w 32 (fld bits 16 7) 5) (fld bits 5 0x1f);
     cmode := fld bits 12 0xf;
     structure_opcode := fld bits 12 0xf;
     structure_r := bit_set bits 21;
     bitwise_op := bitwise_operation_;
     integer_cmp := integer_comparison instruction_id;
     pairwise_op := pairwise_operation instruction_id;
     permute_op := permute_operation_;
     compare_with_zero := in_range instruction_id 0x0000_0054 0x0000_0058;
     signaling_compare := bit_set bits 4;
     operation_bit := bit_set bits 29;
     immediate_4 := fld bits 11 0xf;
     nzcv_immediate := Z.land bits 0xf;
     condition := fld bits 12 0xf;
     element_size := fld bits 10 3;
     fp_immediate_8 := fld bits 13 0xff;
     fp_element_lane :=
       if instruction_id =? 0x0000_00a1 then
         if negb (bit_set bits 22) then Z.lor (fld bits 21 1) (shl_w 32 (fld bits 11 1) 1)
         else fld bits 11 1
       else 0;
     float_conversion :=
       match instruction_id with
       | 0x0000_006f => Some SingleToDouble
       | 0x0000_0070 => Some DoubleToSingle
       | _ => None
       end;
     float_to_integer_rounding :=
       if one_of instruction_id [0x0000_007d; 0x0000_007e] then Some ToIntegerNearestEven
       else if one_of instruction_id [0x0000_007f; 0x0000_0080] then Some ToIntegerNearestAway
       else if one_of instruction_id [0x0000_0081; 0x0000_0082] then Some ToIntegerTowardPositive
       else if one_of instruction_id [0x0000_0083; 0x0000_0084] then Some ToIntegerTowardNegative
       else if one_of instruction_id [0x0000_003c; 0x0000_003d; 0x0000_009e; 0x0000_009f]
       then Some ToIntegerTowardZero
       else None;
     fixed_point_fraction_bits := fraction_bits instruction_id bits;
     float_round_operation :=
       match instruction_id with
       | 0x0000_0072 => Some RoundNearestEven
       | 0x0000_0073 => Some RoundTowardPositive
       | 0x0000_0074 => Some RoundTowardNegative
       | 0x0000_0075 => Some RoundTowardZero
       | 0x0000_0076 => Some RoundNearestAway
       | 0x0000_0077 => Some RoundExact
       | 0x0000_0078 => Some RoundCurrentMode
       | _ => None
       end;
     float_add_operation :=
       match instruction_id with
       | 0x0000_0079 => Some FloatAdd
       | 0x0000_007a => Some FloatSubtract
       | _ => None
       end;
     float_multiply_operation :=
       match instruction_id with
       | 0x0000_007b => Some Multiply
       | 0x0000_007c => Some NegatedMultiply
       | _ => None
       end;
     float_fused_multiply_operation := fused_operation_ |}.

(** The [match instruction_id] that names the instruction. *)
Definition instruction_of (instruction_id : Z) (o : Operands) : normalized Instruction :=
  if instruction_id =? 0x0000_0048 then Ok (DuplicateGeneral o)
  else if instruction_id =? 0x0000_008c then Ok (DuplicateElement o)
  else if instruction_id =? 0x0000_0049 then Ok (MemoryPair o)
  else if instruction_id =? 0x0000_0030 then Ok (Bitwise o)
  else if instruction_id =? 0x0000_0031 then Ok (IntegerArithmetic o)
  else if one_of instruction_id [0x0000_0035; 0x0000_0089] then Ok (ScalarMove o)
  else if one_of instruction_id [0x0000_008d; 0x0000_008f] then Ok (ScalarAbsolute o)
  else if one_of instruction_id [0x0000_008e; 0x0000_0090] then Ok (ScalarNegate o)
  else if instruction_id =? 0x0000_009c then Ok (VectorFloatAbsolute o)
  else if instruction_id =? 0x0000_009d then Ok (VectorFloatNegate o)
  else if instruction_id =? 0x0000_0036 then Ok (CompareRegister o)
  else if instruction_id =? 0x0000_0037 then Ok (CompareZero o)
  else if instruction_id =? 0x0000_009b then Ok (ConditionalCompare o)
  else if instruction_id =? 0x0000_004a then Ok (ModifiedImmediate o)
  else if instruction_id =? 0x0000_004b then Ok (UnsignedMoveToGeneral o)
  else if instruction_id =? 0x0000_0060 then Ok (InsertElement o)
  else if instruction_id =? 0x0000_0061 then Ok (InsertGeneral o)
  else if instruction_id =? 0x0000_003a then Ok (SignedIntToFloat o)
  else if instruction_id =? 0x0000_003b then Ok (UnsignedIntToFloat o)
  else if one_of instruction_id [0x0000_003c; 0x0000_007d; 0x0000_007f; 0x0000_0081; 0x0000_0083; 0x0000_009e]
  then Ok (FloatToSignedInt o)
  else if one_of instruction_id [0x0000_003d; 0x0000_007e; 0x0000_0080; 0x0000_0082; 0x0000_0084; 0x0000_009f]
  then Ok (FloatToUnsignedInt o)
  else if instruction_id =? 0x0000_003e then Ok (MoveToGeneral o)
  else if instruction_id =? 0x0000_003f then Ok (MoveFromGeneral o)
  else if instruction_id =? 0x0000_0033 then Ok (MemoryUnsigned o)
  else if instruction_id =? 0x0000_0034 then Ok (MemoryUnscaled o)
  else if instruction_id =? 0x0000_0040 then Ok (MemoryPostIndex o)
  else if instruction_id =? 0x0000_0041 then Ok (MemoryPreIndex o)
  else if instruction_id =? 0x0000_0042 then Ok (MemoryRegister o)
  else if instruction_id =? 0x0000_004c then Ok (MemoryMultipleStructures o)
  else if instruction_id =? 0x0000_004d then Ok (MemoryMultipleStructuresPostIndex o)
  else if instruction_id =? 0x0000_0062 then Ok (MemorySingleStructure o)
  else if instruction_id =? 0x0000_0063 then Ok (MemorySingleStructurePostIndex o)
  else if instruction_id =? 0x0000_0064 then Ok (PermuteTwoSource o)
  else if instruction_id =? 0x0000_0085 then Ok (Extract o)
  else if in_range instruction_id 0x0000_004e 0x0000_0058 then Ok (IntegerCompare o)
  else if in_range instruction_id 0x0000_0059 0x0000_005d then Ok (IntegerPairwise o)
  else if instruction_id =? 0x0000_0065 then Ok (ShiftRightNarrow o)
  else if instruction_id =? 0x0000_0091 then Ok (ScalarShiftRightImmediate o)
  else if instruction_id =? 0x0000_0092 then Ok (VectorShiftRightImmediate o)
  else if instruction_id =? 0x0000_0099 then Ok (ScalarShiftLeftImmediate o)
  else if instruction_id =? 0x0000_009a then Ok (VectorShiftLeftImmediate o)
  else if instruction_id =? 0x0000_00a0 then Ok (ShiftLeftLong o)
  else if instruction_id =? 0x0000_0095 then Ok (VectorSignedShiftRegister o)
  else if instruction_id =? 0x0000_0096 then Ok (VectorUnsignedShiftRegister o)
  else if instruction_id =? 0x0000_0093 then Ok (CountBits o)
  else if instruction_id =? 0x0000_0094 then Ok (AddAcrossVector o)
  else if instruction_id =? 0x0000_0088 then Ok (ExtractNarrow o)
  else if in_range instruction_id 0x0000_0066 0x0000_0069 then Ok (IntegerMinMax o)
  else if instruction_id =? 0x0000_006a then Ok (VectorSignedIntToFloat o)
  else if instruction_id =? 0x0000_006b then Ok (VectorUnsignedIntToFloat o)
  else if instruction_id =? 0x0000_008a then Ok (ScalarVectorSignedIntToFloat o)
  else if instruction_id =? 0x0000_008b then Ok (ScalarVectorUnsignedIntToFloat o)
  else if instruction_id =? 0x0000_006c then Ok (VectorFloatDivide o)
  else if instruction_id =? 0x0000_00a1 then Ok (VectorFloatMultiplyElement o)
  else if instruction_id =? 0x0000_0086 then Ok (VectorFloatImmediate o)
  else if in_range instruction_id 0x0000_006d 0x0000_006e then Ok (ScalarFloatImmediate o)
  else if in_range instruction_id 0x0000_006f 0x0000_0070 then Ok (ScalarFloatConvert o)
  else if instruction_id =? 0x0000_0071 then Ok (ScalarFloatDivide o)
  else if in_range instruction_id 0x0000_0072 0x0000_0078 then Ok (ScalarFloatRound o)
  else if in_range instruction_id 0x0000_0079 0x0000_007a then Ok (ScalarFloatAdd o)
  else if in_range instruction_id 0x0000_007b 0x0000_007c then Ok (ScalarFloatMultiply o)
  else if instruction_id =? 0x0000_0097 then Ok (ScalarFloatFusedMultiplyAdd o)
  else if instruction_id =? 0x0000_0098 then Ok (ScalarFloatSquareRoot o)
  else if instruction_id =? 0x0000_0087 then Ok (ScalarFloatConditionalSelect o)
  else Panic.

Definition normalize (instruction_id bits : Z) : normalized Instruction :=
  operands ← operands_of instruction_id bits;
  instruction_of instruction_id operands.

End FpSimd.
