(* ===== verification/DecodeA64.v ===== *)
(** * The A64 decoder

    [crates/cpu/src/decode/a64/mod.rs], [decode/mod.rs] and [platform.rs]: the
    aggregate pattern catalog, the table compiled from it for a platform, and
    the routing of a decoded opcode to its family's [normalize]. *)

From Stdlib Require Import ZArith Lia Bool String.
From stdpp Require Import base decidable tactics list sets.
From S2P Require Import Prelude RustInt RustList Allocation DecodeTable DecodeBase DecodeFpSimd.

Local Open Scope string_scope.
Local Open Scope Z_scope.

Inductive A64Instruction : Type :=
  | ControlInstruction (i : Control.Instruction)
  | SystemInstruction (i : SystemFamily.Instruction)
  | IntegerInstruction (i : Integer.Instruction)
  | MemoryInstruction (i : Memory.Instruction)
  | FpSimdInstruction (i : FpSimd.Instruction)
  | RecognizedUnsupported (coverage_id : Z).

(** The family each coverage identity is routed to. *)
Definition is_control (id : Z) : bool :=
  one_of id [0x0000_0001; 0x0000_0002] || in_range id 0x0000_0004 0x0000_000a
  || in_range id 0x0000_0044 0x0000_0047.
Definition is_system (id : Z) : bool := in_range id 0x0000_000b 0x0000_000f || (id =? 0x0000_001e).
Definition is_integer (id : Z) : bool :=
  (id =? 0x0000_0003) || in_range id 0x0000_0010 0x0000_001d
  || in_range id 0x0000_0020 0x0000_0021.
Definition is_memory (id : Z) : bool :=
  in_range id 0x0000_0022 0x0000_002f || in_range id 0x0000_005e 0x0000_005f.
Definition is_fp_simd (id : Z) : bool :=
  in_range id 0x0000_0030 0x0000_0043 || in_range id 0x0000_0048 0x0000_005d
  || in_range id 0x0000_0060 0x0000_00a1.

Definition normalize (opcode : DecodedOpcode) (bits : Z) : normalized A64Instruction :=
  let instruction_id := coverage_id (opcode_pattern opcode) in
  if bool_decide (decoder (opcode_pattern opcode) = RecognizedUnimplemented)
  then Ok (RecognizedUnsupported instruction_id)
  else if is_control instruction_id then
    i ← Control.normalize instruction_id bits; Ok (ControlInstruction i)
  else if is_system instruction_id then
    i ← SystemFamily.normalize instruction_id bits; Ok (SystemInstruction i)
  else if is_integer instruction_id then
    i ← Integer.normalize instruction_id bits; Ok (IntegerInstruction i)
  else if is_memory instruction_id then
    i ← Memory.normalize instruction_id bits; Ok (MemoryInstruction i)
  else if is_fp_simd instruction_id then
    i ← FpSimd.normalize instruction_id bits; Ok (FpSimdInstruction i)
  else Panic.

(** [patterns()]. *)
Definition patterns : list InstructionPattern :=
  (Control.PATTERNS ++ SystemFamily.PATTERNS ++ Integer.PATTERNS ++ Memory.PATTERNS
   ++ FpSimd.PATTERNS)%list.

Inductive TargetPlatform : Set := Switch1 | Switch2.

Definition platform_profile_id (p : TargetPlatform) : Z :=
  match p with Switch1 => 1 | Switch2 => 2 end.
Definition data_zero_block_bytes (p : TargetPlatform) : Z :=
  match p with Switch1 | Switch2 => 64 end.
Definition user_cache_maintenance_prohibited (p : TargetPlatform) : bool :=
  match p with Switch1 => true | Switch2 => false end.

(** [compile_for_platform]: both platforms share the table. *)
Definition compile_for_platform (ps : list InstructionPattern) (_ : TargetPlatform) :
    res TableError DecoderTable := compile ps.

(** [platform_table]: the [expect] on the compiled table. *)
Definition platform_table (platform : TargetPlatform) : res Empty_set DecoderTable :=
  expect_ok (compile_for_platform patterns platform).

Definition decode_a64 (platform : TargetPlatform) (loc : LocationDescriptor) (bits : Z) :
    res Empty_set DecodeResult :=
  table ← platform_table platform; decode table loc bits.

(** ** The catalog passes its own validation *)

Lemma patterns_validate : validate_patterns patterns = Ok tt.
Proof. by vm_compute. Qed.

Lemma platform_table_ok platform :
  exists table, platform_table platform = Ok table /\ compile patterns = Ok table.
Proof.
  unfold platform_table, compile_for_platform, compile, mbind, res_bind.
  rewrite patterns_validate. eexists. split; reflexivity.
Qed.

(** ** Normalization never meets an [unreachable!] *)

(** The families accept every identity of the catalog that is routed to them. *)
Definition routed (p : InstructionPattern) : bool :=
  let id := coverage_id p in
  bool_decide (decoder p = RecognizedUnimplemented) ||
  (if is_control id then is_ok (Control.normalize id 0)
   else if is_system id then is_ok (SystemFamily.normalize id 0)
   else if is_integer id then is_ok (Integer.normalize id 0)
   else if is_memory id then is_ok (Memory.normalize id 0)
   else if is_fp_simd id then true else false).

Lemma patterns_routed : forallb routed patterns = true.
Proof. by vm_compute. Qed.

Lemma fp_simd_routed :
  forallb (fun p => bool_decide (decoder p = RecognizedUnimplemented) ||
    negb (is_fp_simd (coverage_id p)) ||
    forallb (fun o => is_ok (FpSimd.instruction_of (coverage_id p) o))
      match FpSimd.operands_of 0 0 with Ok o => [o] | _ => [] end) patterns = true.
Proof. by vm_compute. Qed.

Lemma control_id_only id bits : is_ok (Control.normalize id bits) = is_ok (Control.normalize id 0).
Proof. unfold Control.normalize. by repeat case_match. Qed.
Lemma system_id_only id bits :
  is_ok (SystemFamily.normalize id bits) = is_ok (SystemFamily.normalize id 0).
Proof. unfold SystemFamily.normalize. by repeat case_match. Qed.
Lemma integer_id_only id bits : is_ok (Integer.normalize id bits) = is_ok (Integer.normalize id 0).
Proof. unfold Integer.normalize. by repeat case_match. Qed.
Lemma memory_id_only id bits : is_ok (Memory.normalize id bits) = is_ok (Memory.normalize id 0).
Proof. unfold Memory.normalize. by repeat case_match. Qed.
Lemma fp_simd_id_only id o o' :
  is_ok (FpSimd.instruction_of id o) = is_ok (FpSimd.instruction_of id o').
Proof. unfold FpSimd.instruction_of. by repeat case_match. Qed.

Lemma bitwise_operation_some bits : is_Some (FpSimd.bitwise_operation bits).
Proof.
  unfold FpSimd.bitwise_operation. pose proof (fld_bound bits 29 1 ltac:(lia)) as H1.
  pose proof (fld_bound bits 22 2 ltac:(lia)) as H2.
  change (Z.ones 1) with 1 in H1. change (Z.ones 2) with 3 in H2.
  set (a := fld bits 29 1) in *. set (b := fld bits 22 3) in *. clearbody a b.
  assert (a = 0 \/ a = 1) as [->| ->] by lia;
    assert (b = 0 \/ b = 1 \/ b = 2 \/ b = 3) as [->|[->|[->| ->]]] by lia; by eexists.
Qed.

Lemma fused_operation_some bits : is_Some (FpSimd.fused_multiply_operation bits).
Proof.
  unfold FpSimd.fused_multiply_operation. pose proof (fld_bound bits 15 1 ltac:(lia)) as H1.
  change (Z.ones 1) with 1 in H1. set (a := fld bits 15 1) in *.
  assert (Z.land (Z.shiftr bits 20) 2 = 0 \/ Z.land (Z.shiftr bits 20) 2 = 2) as Hb.
  { change 2 with (2 ^ 1). destruct (Z.testbit (Z.shiftr bits 20) 1) eqn:Hb; [right|left];
      apply Z.bits_inj'; intros i Hi; rewrite Z.land_spec, ?Z.pow2_bits_eqb, ?Z.bits_0 by lia;
      (destruct (Z.eqb_spec 1 i) as [<-|]; [by rewrite Hb|by rewrite andb_false_r]). }
  assert (a = 0 \/ a = 1) as [->| ->] by lia; destruct Hb as [->| ->]; by eexists.
Qed.

Lemma permute_operation_some bits :
  validate 0x0000_0064 bits = Some Allocated -> is_Some (FpSimd.permute_operation bits).
Proof.
  change (validate 0x64 bits) with (Some (validate_a64_simd_permute_two_source bits)).
  unfold validate_a64_simd_permute_two_source, FpSimd.permute_operation.
  destruct (one_of (fld bits 12 7) [1; 2; 3; 5; 6; 7]) eqn:Ho; [|done]. intros _.
  apply existsb_exists in Ho as (x & Hx & ->%Z.eqb_eq).
  repeat destruct Hx as [<-|Hx]; [by eexists..|done].
Qed.

Lemma fp_simd_operands_some id bits :
  validate id bits = Some Allocated -> exists o, FpSimd.operands_of id bits = Ok o.
Proof.
  intros Hv. unfold FpSimd.operands_of.
  destruct (bitwise_operation_some bits) as [b ->], (fused_operation_some bits) as [f ->].
  assert (exists o, FpSimd.then_expect (id =? 0x64) (FpSimd.permute_operation bits) = Ok o) as [o ->].
  { destruct (Z.eqb_spec id 0x64) as [->|]; [|by eexists].
    destruct (permute_operation_some bits Hv) as [o ->]. by eexists. }
  unfold FpSimd.then_expect. destruct (id =? 48), (id =? 151); by eexists.
Qed.

(** An entry of the catalog that is allocated for [bits] normalizes. *)
Lemma normalize_ok p bits :
  p ∈ patterns -> decoder p = ReadyToDecode -> validate (coverage_id p) bits = Some Allocated ->
  exists i, normalize {| opcode_pattern := p; opcode_bits := bits |} bits = Ok i /\
    forall id, i <> RecognizedUnsupported id.
Proof.
  intros Hp Hd Hv. pose proof patterns_routed as Hr. pose proof fp_simd_routed as Hf.
  rewrite forallb_forall in Hr, Hf. rewrite list_elem_of_In in Hp.
  specialize (Hr p Hp). specialize (Hf p Hp). unfold routed in Hr. unfold normalize. simpl.
  rewrite Hd in *. rewrite bool_decide_eq_false_2 in * by done. cbn [orb] in *.
  set (id := coverage_id p) in *. clearbody id.
  destruct (is_control id).
  { rewrite <- (control_id_only id bits) in Hr.
    destruct (Control.normalize id bits); [by eexists|done..]. }
  destruct (is_system id).
  { rewrite <- (system_id_only id bits) in Hr.
    destruct (SystemFamily.normalize id bits); [by eexists|done..]. }
  destruct (is_integer id).
  { rewrite <- (integer_id_only id bits) in Hr.
    destruct (Integer.normalize id bits); [by eexists|done..]. }
  destruct (is_memory id).
  { rewrite <- (memory_id_only id bits) in Hr.
    destruct (Memory.normalize id bits); [by eexists|done..]. }
  destruct (is_fp_simd id); [|done]. cbn [negb orb] in Hf.
  destruct (fp_simd_operands_some id bits Hv) as [o Ho]. unfold FpSimd.normalize. rewrite Ho.
  destruct (FpSimd.operands_of 0 0) as [o0|e|] eqn:Ho0; [|by vm_compute in Ho0..].
  cbn [forallb] in Hf. rewrite andb_true_r in Hf. rewrite (fp_simd_id_only id o0 o) in Hf.
  cbn [mbind res_bind]. destruct (FpSimd.instruction_of id o); [by eexists|done..].
Qed.

(** ** Theorems *)

(** Decoding is total, and an accepted word matches an allocated entry of the
    catalog. *)
Lemma decode_a64_cases platform loc bits :
  exists r, decode_a64 platform loc bits = Ok r /\
  forall d, r = Decoded d \/ r = RecognizedUnimplementedInstruction d ->
    location d = loc /\ encoding d = bits /\
    exists p, p ∈ patterns /\ instruction d = {| opcode_pattern := p; opcode_bits := bits |} /\
      allocated_match bits p /\ (r = Decoded d -> decoder p = ReadyToDecode).
Proof.
  destruct (platform_table_ok platform) as (table & Ht & Hc). unfold decode_a64. rewrite Ht.
  destruct (compile_ok _ _ Hc) as [Hv _].
  destruct (reference_winner patterns bits Hv) as (r & Hr & Hspec).
  exists (decode_result loc bits r). split.
  { cbn [mbind res_bind]. rewrite (compile_decode _ _ _ _ Hc). unfold decode_reference.
    by rewrite Hr. }
  clear Ht Hc Hv Hr. intros d Hd. destruct r as [p|[[[[] n] e]|]]; simpl in Hd; try (by destruct Hd).
  destruct Hspec as (Hp & Ha & _).
  destruct (decoder p) eqn:Hdec; destruct Hd as [[= <-]|[= <-]]; (split; [done|split; [done|]]);
    exists p; (split; [done|split; [done|split; [done|]]]); simpl; rewrite Hdec; done.
Qed.

(** Decoding and normalizing a 32-bit word is total: on every platform and
    for every word the decoder answers without panicking, and an instruction it
    accepts as decoded is normalized to a typed instruction of one family; no
    [unreachable!] or [expect] of the normalizers is met. *)
Theorem decode_then_normalize_total platform loc bits :
  exists r, decode_a64 platform loc bits = Ok r /\
  forall d, r = Decoded d ->
    exists i, normalize (instruction d) (encoding d) = Ok i /\
      forall id, i <> RecognizedUnsupported id.
Proof.
  destruct (decode_a64_cases platform loc bits) as (r & Hr & Hd). exists r. split; [done|].
  intros d Hrd. destruct (Hd d (or_introl Hrd)) as (_ & -> & p & Hp & -> & [_ Ha] & Hr'). by apply normalize_ok; [|apply Hr'|].
Qed.

(** The coverage identity a word decodes to. *)
Definition decoded_id (r : res Empty_set DecodeResult) : option Z :=
  match r with
  | Ok (Decoded d) | Ok (RecognizedUnimplementedInstruction d) =>
      Some (coverage_id (opcode_pattern (instruction d)))
  | _ => None
  end.

Lemma fixtures_check :
  forallb (fun p => match regression_fixture p with
                    | Some f => bool_decide
                        (decoded_id (decode_reference patterns demo_location f) = Some (coverage_id p))
                    | None => true
                    end) patterns = true.
Proof. by vm_compute. Qed.

Lemma decoded_id_location ps loc loc' bits :
  decoded_id (decode_reference ps loc bits) = decoded_id (decode_reference ps loc' bits).
Proof.
  unfold decode_reference, mbind, res_bind.
  destruct (scan_patterns bits (by_priority ps) None) as [[p|[[[[] n] e]|]]| |]; try done.
  simpl. by destruct (decoder p).
Qed.

(** No entry of the A64 catalog is dead: the catalog compiles, and the
    regression fixture of every entry decodes, through the compiled index, to
    that very entry and not to a higher-priority one that overlaps it. *)
Theorem fixtures_decode_to_their_entry p fixture platform loc :
  p ∈ patterns -> regression_fixture p = Some fixture ->
  decoded_id (decode_a64 platform loc fixture) = Some (coverage_id p).
Proof.
  intros Hp Hf. destruct (platform_table_ok platform) as (table & Ht & Hc).
  unfold decode_a64. rewrite Ht. cbn [mbind res_bind]. rewrite (compile_decode _ _ _ _ Hc).
  pose proof fixtures_check as Hall. rewrite forallb_forall in Hall.
  specialize (Hall p). rewrite <- list_elem_of_In in Hall. specialize (Hall Hp).
  rewrite Hf in Hall. apply bool_decide_eq_true in Hall.
  by rewrite (decoded_id_location _ loc demo_location).
Qed.

(** Membership of the catalog, by evaluation. *)
Lemma patterns_member i p : patterns !! i = Some p -> p ∈ patterns.
Proof. apply list_elem_of_lookup_2. Qed.

Lemma fixtures_decode_to_their_entry_witness :
  decoded_id (decode_a64 Switch1 demo_location 0x9ac1_2000) = Some 0x18.
Proof.
  apply (fixtures_decode_to_their_entry
    (fixture32 (pattern "data-processing-two-source" 0x1fe0_0000 0x1ac0_0000 0x0000_0018 72 [])
       0x9ac1_2000) 0x9ac1_2000 Switch1 demo_location); [|reflexivity].
  by apply (patterns_member 28%nat).
Defined.
