(* ===== verification/A64State.v ===== *)
(** * A64 register state: [crates/cpu/src/state/a64.rs]

    The canonical register file of one guest thread.  The two register arrays
    are vectors of the array's length and an [A64GeneralRegister] is an index
    below 31, so an access is in range by its type, as it is in the source. *)

From Stdlib Require Import ZArith Lia Bool.
From stdpp Require Import base numbers list vector fin option sets.
From S2P Require Import Prelude RustInt.
Local Open Scope Z_scope.

Definition GENERAL_REGISTER_COUNT : nat := 31.
Definition VECTOR_REGISTER_COUNT : nat := 32.

(** A validated X0-X30 index. *)
Definition A64GeneralRegister : Type := fin GENERAL_REGISTER_COUNT.

Definition A64GeneralRegister_new (index : Z) : option A64GeneralRegister :=
  match decide (Z.to_nat index < GENERAL_REGISTER_COUNT)%nat with
  | left H => Some (nat_to_fin H)
  | right _ => None
  end.

Definition register_index (r : A64GeneralRegister) : Z := Z.of_nat (fin_to_nat r).

Inductive A64Register : Type :=
  | General (register : A64GeneralRegister)
  | StackPointer
  | Zero.

(** The packed flags keep only their four architectural bits. *)
Module Nzcv.

Definition MASK : Z := 0xf000_0000.
Definition N : Z := Z.shiftl 1 31.
Definition Z_ : Z := Z.shiftl 1 30.
Definition C : Z := Z.shiftl 1 29.
Definition V : Z := Z.shiftl 1 28.

Definition from_bits (bits : Z) : Z := Z.land bits MASK.
Definition carry (self : Z) : bool := negb (Z.land self C =? 0).

End Nzcv.

Record A64State := mkA64State {
  st_x : vec Z GENERAL_REGISTER_COUNT;
  st_sp : Z;
  st_pc : Z;
  st_nzcv : Z;
  st_vector : vec Z VECTOR_REGISTER_COUNT;
  st_fpcr : Z;
  st_fpsr : Z;
  st_tpidr_el0 : Z;
  st_tpidrro_el0 : Z
}.

Definition A64State_default : A64State :=
  mkA64State (vreplicate _ 0) 0 0 0 (vreplicate _ 0) 0 0 0 0.

(** The diagnostic subset. *)
Record RegisterContext := {
  context_x : vec Z GENERAL_REGISTER_COUNT;
  context_sp : Z;
  context_pc : Z;
  context_nzcv : Z
}.

Definition register_context (st : A64State) : RegisterContext :=
  {| context_x := st_x st; context_sp := st_sp st; context_pc := st_pc st;
     context_nzcv := st_nzcv st |}.

Definition read_x (st : A64State) (register : A64Register) : Z :=
  match register with
  | General r => st_x st !!! r
  | StackPointer => st_sp st
  | Zero => 0
  end.

Definition set_x (f : vec Z GENERAL_REGISTER_COUNT -> vec Z GENERAL_REGISTER_COUNT)
    (st : A64State) : A64State :=
  mkA64State (f (st_x st)) (st_sp st) (st_pc st) (st_nzcv st) (st_vector st) (st_fpcr st)
    (st_fpsr st) (st_tpidr_el0 st) (st_tpidrro_el0 st).

Definition set_sp (value : Z) (st : A64State) : A64State :=
  mkA64State (st_x st) value (st_pc st) (st_nzcv st) (st_vector st) (st_fpcr st)
    (st_fpsr st) (st_tpidr_el0 st) (st_tpidrro_el0 st).

Definition write_x (register : A64Register) (value : Z) (st : A64State) : A64State :=
  match register with
  | General r => set_x (vinsert r value) st
  | StackPointer => set_sp value st
  | Zero => st
  end.

Definition read_w (st : A64State) (register : A64Register) : Z := wrap 32 (read_x st register).

Definition write_w (register : A64Register) (value : Z) (st : A64State) : A64State :=
  write_x register value st.

Definition set_pc (value : Z) (st : A64State) : A64State :=
  mkA64State (st_x st) (st_sp st) value (st_nzcv st) (st_vector st) (st_fpcr st)
    (st_fpsr st) (st_tpidr_el0 st) (st_tpidrro_el0 st).

Definition set_nzcv (value : Z) (st : A64State) : A64State :=
  mkA64State (st_x st) (st_sp st) (st_pc st) value (st_vector st) (st_fpcr st)
    (st_fpsr st) (st_tpidr_el0 st) (st_tpidrro_el0 st).

(** [self.vector.get(index).copied()] and the bounds-checked store. *)
Definition vector (st : A64State) (index : Z) : option Z :=
  match decide (Z.to_nat index < VECTOR_REGISTER_COUNT)%nat with
  | left H => Some (st_vector st !!! nat_to_fin H)
  | right _ => None
  end.

Definition set_vector (index value : Z) (st : A64State) : A64State * bool :=
  match decide (Z.to_nat index < VECTOR_REGISTER_COUNT)%nat with
  | left H =>
      (mkA64State (st_x st) (st_sp st) (st_pc st) (st_nzcv st)
         (vinsert (nat_to_fin H) value (st_vector st)) (st_fpcr st) (st_fpsr st)
         (st_tpidr_el0 st) (st_tpidrro_el0 st), true)
  | right _ => (st, false)
  end.

Definition set_fpcr (value : Z) (st : A64State) : A64State :=
  mkA64State (st_x st) (st_sp st) (st_pc st) (st_nzcv st) (st_vector st) value
    (st_fpsr st) (st_tpidr_el0 st) (st_tpidrro_el0 st).

Definition set_fpsr (value : Z) (st : A64State) : A64State :=
  mkA64State (st_x st) (st_sp st) (st_pc st) (st_nzcv st) (st_vector st) (st_fpcr st)
    value (st_tpidr_el0 st) (st_tpidrro_el0 st).

Definition set_tpidr_el0 (value : Z) (st : A64State) : A64State :=
  mkA64State (st_x st) (st_sp st) (st_pc st) (st_nzcv st) (st_vector st) (st_fpcr st)
    (st_fpsr st) value (st_tpidrro_el0 st).

Definition set_tpidrro_el0_from_runtime (value : Z) (st : A64State) : A64State :=
  mkA64State (st_x st) (st_sp st) (st_pc st) (st_nzcv st) (st_vector st) (st_fpcr st)
    (st_fpsr st) (st_tpidr_el0 st) value.

(** ** Well-formed states: every register holds a value of its width, and the
    flag word only flag bits *)

Record state_wf (st : A64State) : Prop := {
  wf_x : forall r, fits 64 (st_x st !!! r);
  wf_sp : fits 64 (st_sp st);
  wf_pc : fits 64 (st_pc st);
  wf_nzcv : Nzcv.from_bits (st_nzcv st) = st_nzcv st;
  wf_vector : forall r, fits 128 (st_vector st !!! r);
  wf_fpcr : fits 32 (st_fpcr st);
  wf_fpsr : fits 32 (st_fpsr st);
  wf_tpidr : fits 64 (st_tpidr_el0 st);
  wf_tpidrro : fits 64 (st_tpidrro_el0 st)
}.

Create HintDb a64.
#[export] Hint Resolve wf_x wf_sp wf_pc wf_nzcv wf_vector wf_fpcr wf_fpsr wf_tpidr wf_tpidrro : a64.

Lemma fits_0 w : 0 <= w -> fits w 0.
Proof. intros. pose proof (pow2_pos w). unfold fits. lia. Qed.

Lemma default_wf : state_wf A64State_default.
Proof.
  split; try done; intros r; unfold A64State_default; cbn [st_x st_vector];
    rewrite vlookup_replicate; by apply fits_0.
Qed.

Lemma read_x_fits st r : state_wf st -> fits 64 (read_x st r).
Proof. intros Hwf. destruct r; simpl; auto with a64. by apply fits_0. Qed.

Lemma write_x_wf st r v : state_wf st -> fits 64 v -> state_wf (write_x r v st).
Proof.
  intros Hwf Hv. destruct r as [r| |]; [..|done]; split; simpl; auto with a64.
  intros r'. destruct (decide (r = r')) as [->|].
  - by rewrite vlookup_insert.
  - rewrite vlookup_insert_ne by done. auto with a64.
Qed.

Lemma set_pc_wf st v : state_wf st -> fits 64 v -> state_wf (set_pc v st).
Proof. intros Hwf ?. split; simpl; auto with a64. Qed.

Lemma from_bits_idem b : Nzcv.from_bits (Nzcv.from_bits b) = Nzcv.from_bits b.
Proof. unfold Nzcv.from_bits. by rewrite <- Z.land_assoc, Z.land_diag. Qed.

Lemma set_nzcv_wf st v : state_wf st -> state_wf (set_nzcv (Nzcv.from_bits v) st).
Proof. intros Hwf. split; simpl; auto using from_bits_idem with a64. Qed.

#[export] Hint Resolve fits_0 read_x_fits write_x_wf set_pc_wf set_nzcv_wf : a64.

Lemma general_new (i : Z) :
  0 <= i -> A64GeneralRegister_new i = None <-> 31 <= i.
Proof.
  intros. unfold A64GeneralRegister_new, GENERAL_REGISTER_COUNT.
  destruct (decide _); split; try done; lia.
Qed.

Lemma general_new_index i r :
  0 <= i -> A64GeneralRegister_new i = Some r -> register_index r = i.
Proof.
  unfold A64GeneralRegister_new, register_index. destruct (decide _); [|done].
  intros ? [= <-]. rewrite fin_to_nat_to_fin. lia.
Qed.

(** What a state update leaves alone: everything but the general registers, the
    stack pointer, the program counter and the flags. *)
Definition same_system (st st' : A64State) : Prop :=
  st_vector st' = st_vector st /\ st_fpcr st' = st_fpcr st /\ st_fpsr st' = st_fpsr st /\
  st_tpidr_el0 st' = st_tpidr_el0 st /\ st_tpidrro_el0 st' = st_tpidrro_el0 st.

#[export] Instance same_system_preorder : PreOrder same_system.
Proof. unfold same_system. split; [done|]. intros ? ? ?; naive_solver congruence. Qed.

Lemma write_x_same_system r v st : same_system st (write_x r v st).
Proof. by destruct r. Qed.

(** ** Vector registers of the A64 state: what a write changes *)

(** ** Frames *)

(** Only the vector registers in [vs] may change. *)
Record vector_framed (vs : list Z) (st st' : A64State) : Prop := {
  vector_wf : state_wf st';
  vector_x : st_x st' = st_x st; vector_sp : st_sp st' = st_sp st; vector_pc : st_pc st' = st_pc st;
  vector_nzcv : st_nzcv st' = st_nzcv st; vector_fpcr : st_fpcr st' = st_fpcr st;
  vector_fpsr : st_fpsr st' = st_fpsr st; vector_tpidr : st_tpidr_el0 st' = st_tpidr_el0 st;
  vector_tpidrro : st_tpidrro_el0 st' = st_tpidrro_el0 st;
  vector_other : forall r, 0 <= r < 32 -> r ∉ vs -> vector st' r = vector st r }.

Lemma vector_framed_refl vs st : state_wf st -> vector_framed vs st st.
Proof. done. Qed.

Lemma vector_framed_trans vs st st1 st2 :
  vector_framed vs st st1 -> vector_framed vs st1 st2 -> vector_framed vs st st2.
Proof.
  intros [] []. split; try congruence. intros r Hr Hv. rewrite vector_other1, vector_other0; done.
Qed.

Lemma vector_some st r : 0 <= r < 32 -> state_wf st -> exists v, vector st r = Some v /\ fits 128 v.
Proof.
  intros Hr Hwf. unfold vector, VECTOR_REGISTER_COUNT. destruct (decide _) as [Hd|Hd]; [|lia].
  eexists. split; [done|]. auto with a64.
Qed.

Lemma set_vector_spec st r v :
  0 <= r < 32 -> state_wf st -> fits 128 v ->
  exists st', set_vector r v st = (st', true) /\ vector_framed [r] st st' /\ vector st' r = Some v.
Proof.
  intros Hr Hwf Hv. unfold set_vector, VECTOR_REGISTER_COUNT. destruct (decide _) as [Hd|Hd]; [|lia].
  eexists. split; [done|]. split.
  - split; try done.
    + split; simpl; auto with a64. intros r'. destruct (decide (nat_to_fin Hd = r')) as [<-|Hne].
      * by rewrite vlookup_insert.
      * rewrite vlookup_insert_ne by done. auto with a64.
    + intros r' Hr' Hn. unfold vector, VECTOR_REGISTER_COUNT. simpl. destruct (decide _) as [Hd'|]; [|done].
      f_equal. apply vlookup_insert_ne. intros E%(f_equal fin_to_nat). rewrite !fin_to_nat_to_fin in E.
      set_solver by lia.
  - unfold vector, VECTOR_REGISTER_COUNT. simpl. destruct (decide _) as [Hd'|]; [|done]. f_equal.
    rewrite (proof_irrel Hd' Hd). apply vlookup_insert.
Qed.
