(* ===== verification/A64Semantics.v ===== *)
(** * Shared A64 decisions: [crates/cpu/src/semantics/a64.rs]

    The pure decisions both execution engines take from decoded operands:
    transfer sizes, structure shapes, hints, barriers, cache maintenance,
    shift kinds and signed immediates, with the small enumerations they return
    ([crates/cpu/src/memory/contracts.rs]). *)

From Stdlib Require Import ZArith Lia Bool.
From stdpp Require Import base numbers list strings sets.
From S2P Require Import Prelude RustInt Shifts Allocation DecodeTable DecodeBase DecodeFpSimd.
From S2P Require Import DecodeA64.

Inductive MemoryAccessSize : Set := Byte | Halfword | Word | Doubleword | Quadword.

#[export] Instance MemoryAccessSize_eq_dec : EqDecision MemoryAccessSize.
Proof. solve_decision. Defined.

Definition bytes (self : MemoryAccessSize) : Z :=
  match self with Byte => 1 | Halfword => 2 | Word => 4 | Doubleword => 8 | Quadword => 16 end.

Inductive MemoryOrdering : Set :=
  | Relaxed | Acquire | Release | AcquireRelease | SequentiallyConsistent.

Definition has_release (self : MemoryOrdering) : bool :=
  match self with Release | AcquireRelease | SequentiallyConsistent => true | _ => false end.
Definition has_acquire (self : MemoryOrdering) : bool :=
  match self with Acquire | AcquireRelease | SequentiallyConsistent => true | _ => false end.

Inductive BarrierDomain : Set := NonShareable | InnerShareable | OuterShareable | FullSystem.
Inductive BarrierAccess : Set := Reads | Writes | ReadsAndWrites.

Inductive BarrierOperation : Type :=
  | DataMemory (domain : BarrierDomain) (access : BarrierAccess)
  | DataSynchronization (domain : BarrierDomain) (access : BarrierAccess)
  | InstructionSynchronization.

Inductive AtomicRmwKind : Set :=
  | Add | Clear | Xor | Set_ | SignedMaximum | SignedMinimum | UnsignedMaximum
  | UnsignedMinimum | Swap.

Inductive CacheMaintenanceKind : Set :=
  | InstructionInvalidate | DataInvalidate | DataClean | DataCleanAndInvalidate
  | InstructionPrefetch.

(** ** Advanced SIMD structure transfers *)

Inductive SimdMemoryMode : Type := Multiple | Lane (index : Z) | Replicate.

Record SimdMemoryShape := {
  shape_element_size : MemoryAccessSize;
  vector_bytes : Z;
  repetitions : Z;
  elements_per_register : Z;
  structure_registers : Z;
  shape_mode : SimdMemoryMode;
  transfer_bytes : Z;
  immediate_post_index : Z
}.

Definition register_count (self : SimdMemoryShape) : Z :=
  repetitions self * structure_registers self.

Definition element_access_size (element_size : Z) : option MemoryAccessSize :=
  match element_size with
  | 0 => Some Byte | 1 => Some Halfword | 2 => Some Word | 3 => Some Doubleword | _ => None
  end.

Definition structure_counts (structure_opcode : Z) : option (Z * Z) :=
  match structure_opcode with
  | 0 => Some (4, 1) | 2 => Some (1, 4) | 4 => Some (3, 1) | 6 => Some (1, 3)
  | 7 => Some (1, 1) | 8 => Some (2, 1) | 10 => Some (1, 2) | _ => None
  end.

Definition simd_multiple_structure_shape (fields : FpSimd.Operands) : option SimdMemoryShape :=
  '(structure_registers, repetitions) ← structure_counts (FpSimd.structure_opcode fields);
  element_size ← element_access_size (FpSimd.element_size fields);
  let vector_bytes := if FpSimd.vector_128 fields then 16 else 8 in
  let elements_per_register := vector_bytes / bytes element_size in
  let transfer_bytes := vector_bytes * structure_registers * repetitions in
  Some {| shape_element_size := element_size; vector_bytes := vector_bytes;
          repetitions := repetitions; elements_per_register := elements_per_register;
          structure_registers := structure_registers; shape_mode := Multiple;
          transfer_bytes := transfer_bytes; immediate_post_index := transfer_bytes |}.

(** The [match opcode] of [simd_single_structure_shape]. *)
Definition single_structure_element (opcode : Z) (fields : FpSimd.Operands) :
    option (MemoryAccessSize * SimdMemoryMode) :=
  let q := Z.b2z (FpSimd.vector_128 fields) in
  let structure_opcode := FpSimd.structure_opcode fields in
  let element_size := FpSimd.element_size fields in
  if one_of opcode [0; 1] then
    Some (Byte, Lane (Z.lor (Z.lor (shl_w 8 q 3) (shl_w 8 (Z.land structure_opcode 1) 2))
                        element_size))
  else if one_of opcode [2; 3] && (Z.land element_size 1 =? 0) then
    Some (Halfword, Lane (Z.lor (Z.lor (shl_w 8 q 2) (shl_w 8 (Z.land structure_opcode 1) 1))
                            (Z.shiftr element_size 1)))
  else if one_of opcode [4; 5] && (element_size =? 0) then
    Some (Word, Lane (Z.lor (shl_w 8 q 1) (Z.land structure_opcode 1)))
  else if one_of opcode [4; 5] && ((element_size =? 1) && (Z.land structure_opcode 1 =? 0)) then
    Some (Doubleword, Lane q)
  else if one_of opcode [6; 7] && FpSimd.load fields then
    element_size ← element_access_size element_size;
    Some (element_size, Replicate)
  else None.

Definition simd_single_structure_shape (fields : FpSimd.Operands) : option SimdMemoryShape :=
  let opcode := Z.shiftr (FpSimd.structure_opcode fields) 1 in
  let structure_registers := 1 + Z.b2z (FpSimd.structure_r fields) + 2 * Z.land opcode 1 in
  let vector_bytes := if FpSimd.vector_128 fields then 16 else 8 in
  '(element_size, mode) ← single_structure_element opcode fields;
  let elements_per_register := vector_bytes / bytes element_size in
  let transfer_bytes := structure_registers * bytes element_size in
  Some {| shape_element_size := element_size; vector_bytes := vector_bytes;
          repetitions := 1; elements_per_register := elements_per_register;
          structure_registers := structure_registers; shape_mode := mode;
          transfer_bytes := transfer_bytes; immediate_post_index := transfer_bytes |}.

Definition simd_pair_access_size (size_bits : Z) : option MemoryAccessSize :=
  match size_bits with
  | 0 => Some Word | 1 => Some Doubleword | 2 => Some Quadword | _ => None
  end.

Definition simd_memory_access_size (size_bits opcode : Z) : option MemoryAccessSize :=
  match size_bits + shl_w 8 (Z.land opcode 2) 1 with
  | 0 => Some Byte | 1 => Some Halfword | 2 => Some Word | 3 => Some Doubleword
  | 4 => Some Quadword | _ => None
  end.

(** ** Hints, system registers, barriers and cache maintenance *)

Inductive HintOperation : Set :=
  | NoOperation | HintYield | HintWaitForEvent | HintWaitForInterrupt | HintSendEvent
  | HintSendEventLocal.

Definition hint_operation (platform : TargetPlatform) (immediate : Z) : option HintOperation :=
  match immediate with
  | 0 => Some NoOperation
  | 1 => Some HintYield
  | 2 => Some HintWaitForEvent
  | 3 => Some HintWaitForInterrupt
  | 4 => Some HintSendEvent
  | 5 => Some HintSendEventLocal
  | _ =>
      if (one_of immediate [7; 8; 10; 12; 14] || in_range immediate 24 31) &&
         match platform with Switch1 => true | Switch2 => false end
      then Some NoOperation else None
  end.

Inductive RuntimeRegisterRead : Type :=
  | Constant (value : Z) | TimerFrequency | TimerCounter.

Definition runtime_register_read (platform : TargetPlatform) (system_key : Z) :
    option RuntimeRegisterRead :=
  if system_key =? 0xd53b_0020 then Some (Constant (Z.lor (shl_w 64 4 16) 4))
  else if system_key =? 0xd53b_00e0 then
    let bytes := data_zero_block_bytes platform in
    let prohibited := if user_cache_maintenance_prohibited platform then Z.shiftl 1 4 else 0 in
    Some (Constant (Z.lor prohibited (trailing_zeros 32 bytes - 2)))
  else if system_key =? 0xd53b_e000 then Some TimerFrequency
  else if system_key =? 0xd53b_e020 then Some TimerCounter
  else None.

Definition barrier_access (option_field : Z) : option BarrierAccess :=
  match Z.land option_field 3 with
  | 1 => Some Reads | 2 => Some Writes | 3 => Some ReadsAndWrites | _ => None
  end.

Definition barrier_domain (option_field : Z) : option BarrierDomain :=
  match Z.shiftr option_field 2 with
  | 0 => Some OuterShareable | 1 => Some NonShareable | 2 => Some InnerShareable
  | 3 => Some FullSystem | _ => None
  end.

Definition barrier_operation (opcode option_field : Z) : option BarrierOperation :=
  if opcode =? 6 then
    if option_field =? 15 then Some InstructionSynchronization else None
  else if negb (opcode =? 4) && negb (opcode =? 5) then None
  else
    access ← barrier_access option_field;
    domain ← barrier_domain option_field;
    Some (if opcode =? 4 then DataSynchronization domain access else DataMemory domain access).

Record CacheMaintenanceOperation := {
  maintenance_kind : CacheMaintenanceKind;
  uses_address : bool
}.

Definition cache_maintenance_operation (system_key : Z) : option CacheMaintenanceOperation :=
  '(kind, uses_address) ←
    (if system_key =? 0xd508_7500 then Some (InstructionInvalidate, false)
     else if system_key =? 0xd50b_7520 then Some (InstructionInvalidate, true)
     else if system_key =? 0xd508_7620 then Some (DataInvalidate, true)
     else if system_key =? 0xd50b_7b20 then Some (DataClean, true)
     else if system_key =? 0xd50b_7e20 then Some (DataCleanAndInvalidate, true)
     else None);
  Some {| maintenance_kind := kind; uses_address := uses_address |}.

(** ** Scalar transfers *)

Record LoadSpec := { signed : bool; destination_bits : Z }.

Definition LoadSpec_unsigned (size : MemoryAccessSize) : LoadSpec :=
  {| signed := false;
     destination_bits := match size with Doubleword => 64 | _ => 32 end |}.
Definition LoadSpec_signed (destination_bits : Z) : LoadSpec :=
  {| signed := true; destination_bits := destination_bits |}.

Inductive ScalarTransfer : Type := Store | Load (spec : LoadSpec).

Definition memory_size (size_bits : Z) : res Empty_set MemoryAccessSize :=
  match size_bits with
  | 0 => Ok Byte | 1 => Ok Halfword | 2 => Ok Word | 3 => Ok Doubleword | _ => Panic
  end.

Definition scalar_transfer (opc : Z) (size : MemoryAccessSize) : option ScalarTransfer :=
  match opc, size with
  | 0, _ => Some Store
  | 1, _ => Some (Load (LoadSpec_unsigned size))
  | 2, (Byte | Halfword | Word) => Some (Load (LoadSpec_signed 64))
  | 3, (Byte | Halfword) => Some (Load (LoadSpec_signed 32))
  | _, _ => None
  end.

Definition literal_load (opc : Z) : option (MemoryAccessSize * LoadSpec) :=
  match opc with
  | 0 => Some (Word, LoadSpec_unsigned Word)
  | 1 => Some (Doubleword, LoadSpec_unsigned Doubleword)
  | 2 => Some (Word, LoadSpec_signed 64)
  | _ => None
  end.

Definition pair_transfer (size_bits : Z) (load : bool) : option (MemoryAccessSize * LoadSpec) :=
  match size_bits, load with
  | 0, _ => Some (Word, LoadSpec_unsigned Word)
  | 1, true => Some (Word, LoadSpec_signed 64)
  | 2, _ => Some (Doubleword, LoadSpec_unsigned Doubleword)
  | _, _ => None
  end.

Definition atomic_ordering (acquire release : bool) : MemoryOrdering :=
  match acquire, release with
  | false, false => Relaxed
  | true, false => Acquire
  | false, true => Release
  | true, true => AcquireRelease
  end.

Definition atomic_rmw_kind (opcode : Z) : option AtomicRmwKind :=
  match opcode with
  | 0 => Some Add | 1 => Some Clear | 2 => Some Xor | 3 => Some Set_
  | 4 => Some SignedMaximum | 5 => Some SignedMinimum | 6 => Some UnsignedMaximum
  | 7 => Some UnsignedMinimum | 8 => Some Swap | _ => None
  end.

Definition compare_exchange_pair_sizes (size_bits : Z) :
    option (MemoryAccessSize * MemoryAccessSize) :=
  match size_bits with
  | 0 => Some (Word, Doubleword) | 1 => Some (Doubleword, Quadword) | _ => None
  end.

Definition exclusive_transfer_sizes (size_bits : Z) (pair : bool) :
    res Empty_set (option (MemoryAccessSize * MemoryAccessSize)) :=
  if negb pair then
    size ← memory_size size_bits; Ok (Some (size, size))
  else
    Ok match size_bits with
       | 2 => Some (Word, Doubleword) | 3 => Some (Doubleword, Quadword) | _ => None
       end.

Definition shift_kind (encoded : Z) (allow_rotate : bool) : option ShiftKind :=
  match encoded with
  | 0 => Some LogicalLeft | 1 => Some LogicalRight | 2 => Some ArithmeticRight
  | 3 => if allow_rotate then Some RotateRight else None
  | _ => None
  end.

(** [((value << (64 - bits)) as i64) >> (64 - bits)]. *)
Definition signed_immediate (value bits : Z) : Z :=
  let shift := 64 - bits in
  Z.shiftr (as_signed 64 (shl_w 64 value shift)) shift.

(** ** Signed immediates are two's-complement readings of their low bits *)

Lemma signed_immediate_as_signed value bits :
  1 <= bits <= 64 -> signed_immediate value bits = as_signed bits value.
Proof.
  intros Hb. unfold signed_immediate. apply Z.bits_inj'. intros i Hi.
  rewrite Z.shiftr_spec, !testbit_as_signed by lia.
  destruct (Z.ltb_spec (i + (64 - bits)) 64), (Z.ltb_spec i bits); try lia;
    rewrite testbit_shl_w by lia;
    [destruct (Z.ltb_spec (i + (64 - bits)) 64)|destruct (Z.ltb_spec (64 - 1) 64)]; try lia;
    cbn [andb]; f_equal; lia.
Qed.

(** ** Structure transfers *)

(** A shape describes whole elements: the lanes of a register fill it, a lane
    index is inside the register, at most four registers take part, and the
    post-index step is the bytes transferred. *)
Definition shape_ok (s : SimdMemoryShape) : Prop :=
  elements_per_register s * bytes (shape_element_size s) = vector_bytes s /\
  1 <= register_count s <= 4 /\
  immediate_post_index s = transfer_bytes s /\
  match shape_mode s with
  | Multiple => transfer_bytes s = vector_bytes s * register_count s
  | Lane index =>
      0 <= index < elements_per_register s /\
      transfer_bytes s = bytes (shape_element_size s) * register_count s
  | Replicate => transfer_bytes s = bytes (shape_element_size s) * register_count s
  end.
#[export] Instance shape_ok_dec s : Decision (shape_ok s).
Proof. unfold shape_ok. destruct (shape_mode s); apply _. Defined.

Lemma single_opcode bits : fld bits 13 7 = Z.shiftr (fld bits 12 0xf) 1.
Proof.
  unfold fld. change 7 with (Z.ones 3). change 0xf with (Z.ones 4).
  rewrite !wrap_land by lia. zbits.
Qed.

Lemma single_s bits : bit_set bits 12 = bit_set (fld bits 12 0xf) 0.
Proof.
  rewrite !bit_set_spec by lia. unfold fld. rewrite Z.land_spec, Z.shiftr_spec by lia. simpl.
  by rewrite andb_true_r.
Qed.

(** The operand fields a structure transfer is described by. *)
Lemma structure_operands id bits o :
  FpSimd.operands_of id bits = Ok o ->
  FpSimd.structure_opcode o = fld bits 12 0xf /\ FpSimd.element_size o = fld bits 10 3 /\
  FpSimd.structure_r o = bit_set bits 21 /\ FpSimd.load o = bit_set bits 22 /\
  FpSimd.vector_128 o = bit_set bits 30.
Proof.
  unfold FpSimd.operands_of.
  destruct (FpSimd.then_expect _ (FpSimd.bitwise_operation _)); [|done..].
  destruct (FpSimd.then_expect _ (FpSimd.permute_operation _)); [|done..].
  destruct (FpSimd.then_expect _ (FpSimd.fused_multiply_operation _)); [|done..].
  cbn [mbind res_bind]. intros [= <-]. by cbn.
Qed.

(** Case analysis on two-bit and four-bit fields. *)
Ltac field2_cases x :=
  let H := fresh in
  assert (x = 0 \/ x = 1 \/ x = 2 \/ x = 3) as H by lia;
  repeat destruct H as [H|H]; subst x.
Ltac field4_cases x :=
  let H := fresh in
  assert (x = 0 \/ x = 1 \/ x = 2 \/ x = 3 \/ x = 4 \/ x = 5 \/ x = 6 \/ x = 7 \/ x = 8 \/
          x = 9 \/ x = 10 \/ x = 11 \/ x = 12 \/ x = 13 \/ x = 14 \/ x = 15) as H by lia;
  repeat destruct H as [H|H]; subst x.

Lemma one_of_spec x l : one_of x l = true <-> x ∈ l.
Proof.
  unfold one_of. rewrite existsb_exists. setoid_rewrite Z.eqb_eq.
  rewrite list_elem_of_In. naive_solver.
Qed.

Ltac shape_case :=
  split;
  [split; [intros H; first [discriminate H|eexists; reflexivity]
          |intros [s H]; first [reflexivity|discriminate H]]
  |intros ? [= <-]; apply (bool_decide_unpack _); by vm_compute].

Lemma multiple_shape o op :
  FpSimd.structure_opcode o = op -> 0 <= op < 16 -> 0 <= FpSimd.element_size o < 4 ->
  let shape := simd_multiple_structure_shape o in
  (one_of op [0; 2; 4; 6; 7; 8; 10] = true <-> is_Some shape) /\
  (forall s, shape = Some s -> shape_ok s).
Proof.
  intros Ho Hop Hsz. unfold simd_multiple_structure_shape. rewrite Ho. clear Ho.
  remember (FpSimd.element_size o) as sz eqn:E. clear E.
  destruct (FpSimd.vector_128 o); field4_cases op; field2_cases sz; shape_case.
Qed.

Lemma single_shape o op l :
  FpSimd.structure_opcode o = op -> FpSimd.load o = l -> 0 <= op < 16 ->
  0 <= FpSimd.element_size o < 4 ->
  let shape := simd_single_structure_shape o in
  let opcode := Z.shiftr op 1 in
  (one_of opcode [0; 1] ||
   (one_of opcode [2; 3] && (Z.land (FpSimd.element_size o) 1 =? 0)) ||
   (one_of opcode [4; 5] && ((FpSimd.element_size o =? 0) ||
      ((FpSimd.element_size o =? 1) && negb (bit_set op 0)))) ||
   (one_of opcode [6; 7] && l) = true <-> is_Some shape) /\
  (forall s, shape = Some s -> shape_ok s).
Proof.
  intros Ho Hl Hop Hsz. unfold simd_single_structure_shape, single_structure_element.
  rewrite Ho, Hl. clear Ho Hl.
  remember (FpSimd.element_size o) as sz eqn:E. clear E.
  destruct (FpSimd.vector_128 o), (FpSimd.structure_r o), l;
    field4_cases op; field2_cases sz; shape_case.
Qed.

Lemma single_allocated bits :
  let opcode := fld bits 13 7 in
  let size := fld bits 10 3 in
  validate_a64_simd_single_structure bits = Some Allocated <->
  one_of opcode [0; 1] ||
   (one_of opcode [2; 3] && (Z.land size 1 =? 0)) ||
   (one_of opcode [4; 5] && ((size =? 0) || ((size =? 1) && negb (bit_set bits 12)))) ||
   (one_of opcode [6; 7] && bit_set bits 22) = true.
Proof.
  cbv zeta. unfold validate_a64_simd_single_structure.
  pose proof (fld_bound bits 13 3 ltac:(lia)) as B. change (Z.ones 3) with 7 in B.
  remember (fld bits 13 7) as op eqn:E. clear E.
  assert (op = 0 \/ op = 1 \/ op = 2 \/ op = 3 \/ op = 4 \/ op = 5 \/ op = 6 \/ op = 7) as Hop by lia.
  destruct (Z.land (fld bits 10 3) 1 =? 0), (fld bits 10 3 =? 0), (fld bits 10 3 =? 1),
    (bit_set bits 12), (bit_set bits 22);
    repeat destruct Hop as [->|Hop]; subst; cbn; done.
Qed.

(** Shapes and allocation. *)
Lemma structure_shape_allocated id bits o :
  one_of id [0x4c; 0x4d; 0x62; 0x63] = true -> FpSimd.operands_of id bits = Ok o ->
  let shape := if one_of id [0x4c; 0x4d] then simd_multiple_structure_shape o
               else simd_single_structure_shape o in
  (validate id bits = Some Allocated <-> is_Some shape) /\
  (forall s, shape = Some s -> shape_ok s).
Proof.
  intros Hid (Hop & Hsz & _ & Hl & _)%structure_operands.
  pose proof (fld_bound bits 12 4 ltac:(lia)) as Bop.
  pose proof (fld_bound bits 10 2 ltac:(lia)) as Bsz.
  change (Z.ones 4) with 0xf in Bop. change (Z.ones 2) with 3 in Bsz. rewrite <- Hsz in Bsz.
  destruct (multiple_shape o _ Hop Bop Bsz) as [Hm1 Hm2].
  destruct (single_shape o _ _ Hop Hl Bop Bsz) as [Hs1 Hs2].
  cbv zeta. destruct (one_of id [0x4c; 0x4d]) eqn:Hc.
  - split; [|done]. rewrite <- Hm1.
    assert (validate id bits = Some (if one_of (fld bits 12 0xf) [0; 2; 4; 6; 7; 8; 10]
      then Allocated else Unallocated "unallocated Advanced SIMD multiple-structures opcode")) as ->.
    { apply one_of_spec in Hc. by apply elem_of_cons in Hc as [->| ->%list_elem_of_singleton]. }
    by destruct (one_of (fld bits 12 0xf) _).
  - split; [|done]. rewrite <- Hs1. rewrite <- single_opcode, <- single_s, Hsz.
    rewrite <- single_allocated.
    assert (id = 0x62 \/ id = 0x63) as [-> | ->]; [|done..].
    apply one_of_spec in Hid. rewrite !elem_of_cons in Hid.
    destruct Hid as [->|[->|[->|[->|?%elem_of_nil]]]]; try discriminate Hc; auto. done.
Qed.

(** The two decode stages agree on Advanced SIMD structure transfers: an
    encoding of the multiple-structure or single-structure classes is allocated
    exactly when the engines derive a transfer shape from its operands, and
    every shape so derived is coherent: its elements tile the vector, a lane
    index is inside the register, one to four registers take part and the
    post-index step is the number of bytes transferred. *)
Theorem structure_shapes_match_allocation id bits o :
  one_of id [0x4c; 0x4d; 0x62; 0x63] = true -> FpSimd.operands_of id bits = Ok o ->
  let shape := if one_of id [0x4c; 0x4d] then simd_multiple_structure_shape o
               else simd_single_structure_shape o in
  (validate id bits = Some Allocated <-> is_Some shape) /\
  (forall s, shape = Some s -> shape_ok s).
Proof. intros. by apply structure_shape_allocated. Qed.

Lemma structure_shapes_match_allocation_witness :
  validate 0x62 0x4d40_8400 = Some Allocated <->
  is_Some (o ← res_ok (FpSimd.operands_of 0x62 0x4d40_8400); simd_single_structure_shape o).
Proof.
  destruct (FpSimd.operands_of 0x62 0x4d40_8400) as [o|e|] eqn:E; [|discriminate E..].
  exact (proj1 (structure_shapes_match_allocation 0x62 0x4d40_8400 o eq_refl E)).
Defined.
