(* ===== verification/FloatFormat.v ===== *)
(** * Floating-point formats and operands: [crates/cpu/src/semantics/floating_point.rs]
      and the value types of [crates/cpu/src/semantics/a64_fp_simd.rs]

    IEEE values are integers here as in the source: a binary32 or binary64
    pattern is a [Z], split into sign, exponent field, fraction, significand and
    scale by [DecodedFloat_new].  A value that is not an infinity or a NaN
    stands for [significand * 2 ^ scale].  [unreachable!] arms are [Panic]. *)

From Stdlib Require Import ZArith Lia Bool.
From stdpp Require Import base numbers list option.
From S2P Require Import Prelude RustInt.
Local Open Scope Z_scope.

(** Failure to execute an FP/SIMD operation. *)
Inductive A64FpSimdError : Set := Trap | UnsupportedOperation.

Inductive FpFormat : Set := Binary16 | Binary32 | Binary64.

Definition FpFormat_bits (self : FpFormat) : Z :=
  match self with Binary16 => 16 | Binary32 => 32 | Binary64 => 64 end.

Inductive FpRoundingMode : Set :=
  | TiesToEven | TowardPositive | TowardNegative | TowardZero | TiesAway | ToOdd.

#[export] Instance FpRoundingMode_eq_dec : EqDecision FpRoundingMode.
Proof. solve_decision. Defined.

Record FpStatus := mkStatus {
  invalid_operation : bool;
  divide_by_zero : bool;
  overflow : bool;
  underflow : bool;
  inexact : bool;
  input_denormal : bool
}.

Definition FpStatus_default : FpStatus := mkStatus false false false false false false.

(** The assignments [status.field = value] of the source. *)
Definition set_invalid_operation (v : bool) (s : FpStatus) : FpStatus :=
  mkStatus v (divide_by_zero s) (overflow s) (underflow s) (inexact s) (input_denormal s).
Definition set_divide_by_zero (v : bool) (s : FpStatus) : FpStatus :=
  mkStatus (invalid_operation s) v (overflow s) (underflow s) (inexact s) (input_denormal s).
Definition set_overflow (v : bool) (s : FpStatus) : FpStatus :=
  mkStatus (invalid_operation s) (divide_by_zero s) v (underflow s) (inexact s) (input_denormal s).
Definition set_underflow (v : bool) (s : FpStatus) : FpStatus :=
  mkStatus (invalid_operation s) (divide_by_zero s) (overflow s) v (inexact s) (input_denormal s).
Definition set_inexact (v : bool) (s : FpStatus) : FpStatus :=
  mkStatus (invalid_operation s) (divide_by_zero s) (overflow s) (underflow s) v (input_denormal s).
Definition set_input_denormal (v : bool) (s : FpStatus) : FpStatus :=
  mkStatus (invalid_operation s) (divide_by_zero s) (overflow s) (underflow s) (inexact s) v.

Definition merge_fp_status (destination source : FpStatus) : FpStatus :=
  mkStatus (invalid_operation destination || invalid_operation source)
    (divide_by_zero destination || divide_by_zero source)
    (overflow destination || overflow source)
    (underflow destination || underflow source)
    (inexact destination || inexact source)
    (input_denormal destination || input_denormal source).

Definition fp_status_bits (status : FpStatus) : Z :=
  Z.lor (Z.lor (Z.lor (Z.lor (Z.lor (Z.b2z (invalid_operation status))
    (Z.shiftl (Z.b2z (divide_by_zero status)) 1))
    (Z.shiftl (Z.b2z (overflow status)) 2))
    (Z.shiftl (Z.b2z (underflow status)) 3))
    (Z.shiftl (Z.b2z (inexact status)) 4))
    (Z.shiftl (Z.b2z (input_denormal status)) 7).

Definition fp_status_traps (status : FpStatus) (fpcr : Z) : bool :=
  let status := fp_status_bits status in
  let enables := Z.lor (Z.land (Z.shiftr fpcr 8) 0x1f)
                       (Z.shiftl (Z.land (Z.shiftr fpcr 15) 1) 7) in
  negb (Z.land status enables =? 0).

(** ** Binary formats *)

Record BinaryFormat := {
  total_bits : Z;
  fraction_bits : Z;
  exponent_bits : Z;
  exponent_bias : Z
}.

Definition binary32 : BinaryFormat :=
  {| total_bits := 32; fraction_bits := 23; exponent_bits := 8; exponent_bias := 127 |}.
Definition binary64 : BinaryFormat :=
  {| total_bits := 64; fraction_bits := 52; exponent_bits := 11; exponent_bias := 1023 |}.

Section Format.
Context {E : Type}.

Definition BinaryFormat_new (format : FpFormat) : res E BinaryFormat :=
  match format with
  | Binary32 => Ok binary32
  | Binary64 => Ok binary64
  | Binary16 => Panic
  end.

Definition fp_format (bits : Z) : res E FpFormat :=
  match bits with 32 => Ok Binary32 | 64 => Ok Binary64 | _ => Panic end.
End Format.

Definition sign_mask (self : BinaryFormat) : Z := shl_w 64 1 (total_bits self - 1).
Definition fraction_mask (self : BinaryFormat) : Z := shl_w 64 1 (fraction_bits self) - 1.
Definition exponent_max (self : BinaryFormat) : Z := shl_w 64 1 (exponent_bits self) - 1.
Definition exponent_mask (self : BinaryFormat) : Z :=
  shl_w 64 (exponent_max self) (fraction_bits self).
Definition quiet_nan_bit (self : BinaryFormat) : Z := shl_w 64 1 (fraction_bits self - 1).
Definition default_nan (self : BinaryFormat) : Z := Z.lor (exponent_mask self) (quiet_nan_bit self).

(** ** Operands split into fields *)

Record DecodedFloat := mkDecoded {
  df_bits : Z;
  df_sign : bool;
  df_exponent_field : Z;
  df_fraction : Z;
  df_significand : Z;
  df_scale : Z
}.

Definition DecodedFloat_new (bits : Z) (format : BinaryFormat) : DecodedFloat :=
  let sign := negb (Z.land bits (sign_mask format) =? 0) in
  let exponent_field := Z.shiftr (Z.land bits (exponent_mask format)) (fraction_bits format) in
  let fraction := Z.land bits (fraction_mask format) in
  let '(significand, scale) :=
    if exponent_field =? 0
    then (fraction, 1 - exponent_bias format - fraction_bits format)
    else (Z.lor (shl_w 64 1 (fraction_bits format)) fraction,
          exponent_field - exponent_bias format - fraction_bits format) in
  mkDecoded bits sign exponent_field fraction significand scale.

Definition is_zero (self : DecodedFloat) : bool :=
  (df_exponent_field self =? 0) && (df_fraction self =? 0).
Definition is_subnormal (self : DecodedFloat) : bool :=
  (df_exponent_field self =? 0) && negb (df_fraction self =? 0).
Definition is_infinite (self : DecodedFloat) (format : BinaryFormat) : bool :=
  (df_exponent_field self =? exponent_max format) && (df_fraction self =? 0).
Definition is_nan (self : DecodedFloat) (format : BinaryFormat) : bool :=
  (df_exponent_field self =? exponent_max format) && negb (df_fraction self =? 0).
Definition is_signaling_nan (self : DecodedFloat) (format : BinaryFormat) : bool :=
  is_nan self format && (Z.land (df_fraction self) (quiet_nan_bit format) =? 0).

(** ** Controls: [FpAddControl], [FpConvertControl] and [FpDivideControl] have the
    same fields and the same [from_fpcr] *)

Definition fpcr_rounding_mode (fpcr : Z) : FpRoundingMode :=
  match Z.land (Z.shiftr fpcr 22) 3 with
  | 0 => TiesToEven
  | 1 => TowardPositive
  | 2 => TowardNegative
  | _ => TowardZero
  end.

Record FpControl := mkControl {
  rounding : FpRoundingMode;
  control_default_nan : bool;
  flush_to_zero : bool
}.

Definition from_fpcr (fpcr : Z) : FpControl :=
  mkControl (fpcr_rounding_mode fpcr) (bit_set fpcr 25) (bit_set fpcr 24).

(** A lane or a scalar with the status it raises, and the wider results of the
    shared primitives. *)
Record FpLaneOutcome := mkLane { lane_value : Z; lane_status : FpStatus }.
Record ExactFpOutcome := mkExact { exact_bits : Z; exact_status : FpStatus }.
Record ExactIntegerOutcome := mkInteger { integer_value : Z; integer_width : Z; integer_status : FpStatus }.
Record ExactCompareOutcome := mkCompare { compare_nzcv : Z; compare_status : FpStatus }.

Definition exact_value (outcome : FpLaneOutcome) : ExactFpOutcome :=
  mkExact (lane_value outcome) (lane_status outcome).

(** ** The two formats in use

    The facts the arithmetic needs of a format; the masks as powers of two. *)

Record format_ok (f : BinaryFormat) : Prop := {
  ok_fraction : 23 <= fraction_bits f <= 52;
  ok_exponent : 8 <= exponent_bits f <= 11;
  ok_total : total_bits f = exponent_bits f + fraction_bits f + 1;
  ok_width : total_bits f <= 64;
  ok_bias : exponent_bias f = 2 ^ (exponent_bits f - 1) - 1
}.

Lemma binary32_ok : format_ok binary32.
Proof. split; simpl; lia. Qed.

Lemma binary64_ok : format_ok binary64.
Proof. split; simpl; lia. Qed.

#[export] Hint Resolve binary32_ok binary64_ok : core.

(** The unit of the format is its least subnormal, [2 ^ - unit_shift]; the
    magnitudes of finite values are whole numbers of it. *)
Definition unit_shift (f : BinaryFormat) : Z := exponent_bias f + fraction_bits f - 1.

(** The encoding of infinity without its sign; finite magnitudes are below. *)
Definition infinity (f : BinaryFormat) : Z := (2 ^ exponent_bits f - 1) * 2 ^ fraction_bits f.

(** The magnitude a pattern without sign stands for, in units; infinity counts
    as the power of two after the largest finite value. *)
Definition units (f : BinaryFormat) (b : Z) : Z :=
  let e := b / 2 ^ fraction_bits f in
  let m := b mod 2 ^ fraction_bits f in
  if e =? 0 then m else (2 ^ fraction_bits f + m) * 2 ^ (e - 1).

Lemma shl_w_pow2 w n : 0 <= n < w -> shl_w w 1 n = 2 ^ n.
Proof. intros. unfold shl_w. rewrite Z.shiftl_1_l, wrap_small; [done|]. split; [lia|by apply pow2_lt]. Qed.

Lemma shl_w_small w x n : 0 <= n -> fits w (x * 2 ^ n) -> shl_w w x n = x * 2 ^ n.
Proof. intros. unfold shl_w. rewrite Z.shiftl_mul_pow2 by done. by apply wrap_small. Qed.

Section Masks.
Context (f : BinaryFormat) (Hf : format_ok f).

Lemma format_dims :
  23 <= fraction_bits f <= 52 /\ 8 <= exponent_bits f <= 11 /\
  total_bits f = exponent_bits f + fraction_bits f + 1 /\ total_bits f <= 64.
Proof. destruct Hf. lia. Qed.

Lemma sign_mask_pow : sign_mask f = 2 ^ (total_bits f - 1).
Proof. pose proof format_dims. unfold sign_mask. apply shl_w_pow2. lia. Qed.

Lemma fraction_mask_ones : fraction_mask f = Z.ones (fraction_bits f).
Proof. pose proof format_dims. unfold fraction_mask. rewrite shl_w_pow2 by lia. rewrite Z.ones_equiv. lia. Qed.

Lemma exponent_max_pow : exponent_max f = 2 ^ exponent_bits f - 1.
Proof. pose proof format_dims. unfold exponent_max. rewrite shl_w_pow2 by lia. lia. Qed.

Lemma quiet_nan_bit_pow : quiet_nan_bit f = 2 ^ (fraction_bits f - 1).
Proof. pose proof format_dims. unfold quiet_nan_bit. apply shl_w_pow2. lia. Qed.

Lemma infinity_bounds : 0 < infinity f < 2 ^ (total_bits f - 1).
Proof.
  pose proof format_dims as (? & ? & -> & ?). unfold infinity.
  replace (exponent_bits f + fraction_bits f + 1 - 1) with (exponent_bits f + fraction_bits f) by lia.
  rewrite Z.pow_add_r by lia. pose proof (pow2_pos (fraction_bits f)).
  pose proof (pow2_lt 0 (exponent_bits f)). nia.
Qed.

Lemma exponent_mask_infinity : exponent_mask f = infinity f.
Proof.
  pose proof format_dims. pose proof infinity_bounds as Hi.
  unfold exponent_mask. rewrite exponent_max_pow. apply shl_w_small; [lia|].
  fold (infinity f). split; [lia|]. pose proof (pow2_le (total_bits f - 1) 64). lia.
Qed.

Lemma infinity_field : infinity f / 2 ^ fraction_bits f = 2 ^ exponent_bits f - 1 /\
  infinity f mod 2 ^ fraction_bits f = 0.
Proof.
  pose proof format_dims. pose proof (pow2_pos (fraction_bits f)). unfold infinity.
  split; [by rewrite Z.div_mul by lia|by apply Z.mod_mul; lia].
Qed.
End Masks.

(** The pattern without its sign. *)
Definition magnitude (f : BinaryFormat) (bits : Z) : Z := bits mod 2 ^ (total_bits f - 1).

(** ** What [DecodedFloat_new] computes *)

Record decodes (f : BinaryFormat) (bits : Z) (d : DecodedFloat) : Prop := {
  dec_bits : df_bits d = bits;
  dec_sign : df_sign d = (2 ^ (total_bits f - 1) <=? bits);
  dec_exponent : df_exponent_field d = magnitude f bits / 2 ^ fraction_bits f;
  dec_fraction : df_fraction d = magnitude f bits mod 2 ^ fraction_bits f;
  dec_significand : df_significand d =
    if df_exponent_field d =? 0 then df_fraction d else 2 ^ fraction_bits f + df_fraction d;
  dec_scale : df_scale d + unit_shift f = Z.max (df_exponent_field d) 1 - 1
}.

Lemma land_exponent_mask f bits : format_ok f -> 0 <= bits ->
  Z.shiftr (Z.land bits (exponent_mask f)) (fraction_bits f) = magnitude f bits / 2 ^ fraction_bits f.
Proof.
  intros Hf Hb. pose proof (format_dims f Hf). rewrite exponent_mask_infinity by done.
  unfold magnitude, infinity. rewrite <- Z.shiftr_div_pow2 by lia.
  rewrite <- Z.shiftl_mul_pow2 by lia. apply Z.bits_inj'. intros i Hi.
  rewrite !Z.shiftr_spec, Z.land_spec, Z.shiftl_spec by lia.
  replace (2 ^ exponent_bits f - 1) with (Z.ones (exponent_bits f)) by (rewrite Z.ones_equiv; lia).
  rewrite Z.testbit_ones_nonneg, Z.testbit_mod_pow2 by lia. rewrite andb_comm. f_equal.
  destruct (Z.ltb_spec (i + fraction_bits f - fraction_bits f) (exponent_bits f));
    destruct (Z.ltb_spec (i + fraction_bits f) (total_bits f - 1)); done || lia.
Qed.

Lemma land_fraction_mask f bits : format_ok f ->
  Z.land bits (fraction_mask f) = magnitude f bits mod 2 ^ fraction_bits f.
Proof.
  intros Hf. pose proof (format_dims f Hf). rewrite fraction_mask_ones by done.
  rewrite Z.land_ones by lia. symmetry.
  exact (wrap_wrap_le (total_bits f - 1) (fraction_bits f) bits ltac:(lia)).
Qed.

Lemma land_sign_mask f bits : format_ok f -> fits (total_bits f) bits ->
  negb (Z.land bits (sign_mask f) =? 0) = (2 ^ (total_bits f - 1) <=? bits).
Proof.
  intros Hf Hb. pose proof (format_dims f Hf). rewrite sign_mask_pow by done.
  pose proof (bit_set_spec bits (total_bits f - 1) ltac:(lia)) as Hs. unfold bit_set in Hs.
  rewrite Z.shiftl_1_l in Hs. rewrite Hs, (fits_testbit_top (total_bits f)) by (done || lia).
  by rewrite <- Z.leb_antisym.
Qed.

Lemma fraction_range f x : format_ok f -> 0 <= x mod 2 ^ fraction_bits f < 2 ^ fraction_bits f.
Proof. intros Hf. apply Z.mod_pos_bound, pow2_pos. pose proof (format_dims f Hf). lia. Qed.

Lemma DecodedFloat_new_spec f bits : format_ok f -> fits (total_bits f) bits ->
  decodes f bits (DecodedFloat_new bits f).
Proof.
  intros Hf Hb. pose proof (format_dims f Hf). unfold DecodedFloat_new.
  rewrite land_sign_mask, land_exponent_mask, land_fraction_mask by (done || apply Hb).
  pose proof (fraction_range f (magnitude f bits) Hf) as Hfr.
  rewrite shl_w_pow2 by lia.
  assert (Z.lor (2 ^ fraction_bits f) (magnitude f bits mod 2 ^ fraction_bits f) =
    2 ^ fraction_bits f + magnitude f bits mod 2 ^ fraction_bits f) as ->.
  { pose proof (add_high (fraction_bits f) (magnitude f bits mod 2 ^ fraction_bits f) 1 ltac:(lia) Hfr) as Ha.
    rewrite Z.shiftl_1_l in Ha. rewrite Z.lor_comm, <- Ha. lia. }
  destruct (Z.eqb_spec (magnitude f bits / 2 ^ fraction_bits f) 0) as [He|He]; split; cbn;
    try done; unfold unit_shift.
  - by rewrite He.
  - rewrite He. lia.
  - destruct (Z.eqb_spec (magnitude f bits / 2 ^ fraction_bits f) 0); done.
  - assert (0 <= magnitude f bits / 2 ^ fraction_bits f); [|lia].
    apply Z.div_pos; [|apply pow2_pos; lia]. unfold magnitude. apply Z.mod_pos_bound, pow2_pos. lia.
Qed.

Section Decoded.
Context (f : BinaryFormat) (Hf : format_ok f) (bits : Z) (d : DecodedFloat).
Context (Hd : decodes f bits d).

Lemma magnitude_range : 0 <= magnitude f bits < 2 ^ (total_bits f - 1).
Proof. apply Z.mod_pos_bound, pow2_pos. pose proof (format_dims f Hf). lia. Qed.

Lemma field_nonneg : 0 <= df_exponent_field d.
Proof.
  rewrite (dec_exponent _ _ _ Hd). pose proof magnitude_range. pose proof (format_dims f Hf).
  apply Z.div_pos; [lia|apply pow2_pos; lia].
Qed.

Lemma significand_range :
  0 <= df_significand d < 2 ^ (fraction_bits f + 1) /\
  (df_exponent_field d <> 0 -> 2 ^ fraction_bits f <= df_significand d).
Proof.
  pose proof (fraction_range f (magnitude f bits) Hf) as Hr. rewrite <- (dec_fraction _ _ _ Hd) in Hr.
  pose proof (format_dims f Hf). rewrite (dec_significand _ _ _ Hd), Z.pow_add_r by lia. change (2 ^ 1) with 2.
  destruct (Z.eqb_spec (df_exponent_field d) 0); (split; [lia|intros; lia]).
Qed.

(** A finite magnitude is its significand at its scale. *)
Lemma decoded_units : units f (magnitude f bits) = df_significand d * 2 ^ (df_scale d + unit_shift f).
Proof.
  unfold units. rewrite <- (dec_exponent _ _ _ Hd), <- (dec_fraction _ _ _ Hd).
  rewrite (dec_scale _ _ _ Hd), (dec_significand _ _ _ Hd). pose proof field_nonneg.
  destruct (Z.eqb_spec (df_exponent_field d) 0) as [->|]; [change (2 ^ (Z.max 0 1 - 1)) with 1; lia|].
  by replace (Z.max (df_exponent_field d) 1) with (df_exponent_field d) by lia.
Qed.

Lemma decoded_zero : is_zero d = (magnitude f bits =? 0).
Proof.
  unfold is_zero. rewrite (dec_exponent _ _ _ Hd), (dec_fraction _ _ _ Hd).
  pose proof magnitude_range. pose proof (format_dims f Hf).
  pose proof (pow2_pos (fraction_bits f)). pose proof (Z.div_mod (magnitude f bits) (2 ^ fraction_bits f)).
  pose proof (fraction_range f (magnitude f bits) Hf).
  destruct (Z.eqb_spec (magnitude f bits / 2 ^ fraction_bits f) 0),
    (Z.eqb_spec (magnitude f bits mod 2 ^ fraction_bits f) 0), (Z.eqb_spec (magnitude f bits) 0);
    simpl; try done; nia.
Qed.

Lemma decoded_subnormal :
  is_subnormal d = (0 <? magnitude f bits) && (magnitude f bits <? 2 ^ fraction_bits f).
Proof.
  unfold is_subnormal. rewrite (dec_exponent _ _ _ Hd), (dec_fraction _ _ _ Hd).
  pose proof magnitude_range. pose proof (format_dims f Hf).
  pose proof (pow2_pos (fraction_bits f)). pose proof (Z.div_mod (magnitude f bits) (2 ^ fraction_bits f)).
  pose proof (fraction_range f (magnitude f bits) Hf).
  destruct (Z.ltb_spec 0 (magnitude f bits)), (Z.ltb_spec (magnitude f bits) (2 ^ fraction_bits f));
    [rewrite (Z.div_small (magnitude f bits)), (Z.mod_small (magnitude f bits)) by lia| | |]; simpl;
  repeat match goal with |- context [?a =? ?b] => destruct (Z.eqb_spec a b) end; simpl; try done; nia.
Qed.

Lemma magnitude_infinity :
  (magnitude f bits ?= infinity f) =
  if df_exponent_field d =? exponent_max f then (if df_fraction d =? 0 then Eq else Gt) else Lt.
Proof.
  rewrite exponent_max_pow, (dec_exponent _ _ _ Hd), (dec_fraction _ _ _ Hd) by done.
  pose proof magnitude_range as Hm. pose proof (format_dims f Hf) as (? & ? & Ht & ?).
  pose proof (pow2_pos (fraction_bits f)). pose proof (Z.div_mod (magnitude f bits) (2 ^ fraction_bits f)) as Hdm.
  pose proof (fraction_range f (magnitude f bits) Hf). rewrite Ht in Hm.
  replace (exponent_bits f + fraction_bits f + 1 - 1) with (exponent_bits f + fraction_bits f) in Hm by lia.
  rewrite Z.pow_add_r in Hm by lia. unfold infinity. set (e := magnitude f bits / _) in *.
  assert (e < 2 ^ exponent_bits f) by nia.
  destruct (Z.eqb_spec e (2 ^ exponent_bits f - 1)) as [He|He].
  - destruct (Z.eqb_spec (magnitude f bits mod 2 ^ fraction_bits f) 0) as [Hz|Hz];
      [apply Z.compare_eq_iff|apply Z.compare_gt_iff]; nia.
  - apply Z.compare_lt_iff. nia.
Qed.

Lemma decoded_infinite : is_infinite d f = (magnitude f bits =? infinity f).
Proof.
  unfold is_infinite. pose proof magnitude_infinity as Hc.
  destruct (Z.eqb_spec (magnitude f bits) (infinity f)) as [He|He].
  - apply Z.compare_eq_iff in He. rewrite Hc in He. by repeat case_match.
  - destruct (df_exponent_field d =? exponent_max f); [|done]. destruct (df_fraction d =? 0); [|done].
    by apply Z.compare_eq in Hc.
Qed.

Lemma decoded_nan : is_nan d f = (infinity f <? magnitude f bits).
Proof.
  unfold is_nan. pose proof magnitude_infinity as Hc.
  destruct (Z.ltb_spec (infinity f) (magnitude f bits)) as [He|He].
  - apply Z.compare_gt_iff in He. rewrite Hc in He. by repeat case_match.
  - destruct (df_exponent_field d =? exponent_max f); [|done]. destruct (df_fraction d =? 0); [done|].
    apply Z.compare_gt_iff in Hc. lia.
Qed.

Lemma decoded_value_bits : fits (total_bits f) bits ->
  bits = Z.b2z (df_sign d) * 2 ^ (total_bits f - 1) + magnitude f bits.
Proof.
  intros Hb. rewrite (dec_sign _ _ _ Hd). unfold magnitude. pose proof (format_dims f Hf).
  destruct Hb as [Hb0 Hb1]. rewrite (pow2_half (total_bits f)) in Hb1 by lia.
  destruct (Z.leb_spec (2 ^ (total_bits f - 1)) bits); simpl Z.b2z.
  - replace (bits mod 2 ^ (total_bits f - 1)) with (bits - 2 ^ (total_bits f - 1)); [lia|].
    apply (Z.mod_unique_pos bits _ 1); lia.
  - rewrite Z.mod_small; lia.
Qed.
End Decoded.
