(* ===== verification/FloatOps.v ===== *)
(** * Floating-point arithmetic: the lane operations of
      [crates/cpu/src/semantics/a64_fp_simd.rs]

    Addition, multiplication, division, fused multiply-add, square root,
    conversions, rounding to integral and comparison, on integer patterns as in
    the source.  [u64] and [u128] shifts that could lose bits are [shl_w], [as]
    casts are [wrap]; [i32] scales stay within a few thousand and are plain
    integers.  The fused multiply-add is the one routine whose [u128] arithmetic
    can overflow: its operations take the build profile, [checks], which says
    whether the compiler inserts overflow checks. *)

From Stdlib Require Import ZArith Lia Bool.
From stdpp Require Import base numbers list option.
From S2P Require Import Prelude RustInt DecodeFpSimd.
Import DecodeFpSimd.FpSimd.
From S2P Require Import FloatFormat.
Local Open Scope Z_scope.

Abbreviation fp A := (res A64FpSimdError A).

(** ** NaN propagation *)

Definition propagate_nan (lhs rhs : DecodedFloat) (format : BinaryFormat) (default : bool) : Z :=
  if default then default_nan format
  else
    let selected := if is_signaling_nan lhs format then lhs
                    else if is_signaling_nan rhs format then rhs
                    else if is_nan lhs format then lhs
                    else rhs in
    Z.lor (df_bits selected) (quiet_nan_bit format).

Definition propagate_nan_three (first second third : DecodedFloat) (format : BinaryFormat)
    (default : bool) : fp Z :=
  if default then Ok (default_nan format)
  else
    let operands := [first; second; third] in
    match list_find (fun operand => is_signaling_nan operand format = true) operands with
    | Some (_, operand) => Ok (Z.lor (df_bits operand) (quiet_nan_bit format))
    | None =>
        match list_find (fun operand => is_nan operand format = true) operands with
        | Some (_, operand) => Ok (df_bits operand)
        | None => Panic
        end
    end.

(** ** Rounding and packing *)

Definition should_round (retained remainder denominator : Z) (negative : bool)
    (rounding : FpRoundingMode) : fp bool :=
  if remainder =? 0 then Ok false
  else
    match rounding with
    | TiesToEven =>
        let twice := shl_w 128 remainder 1 in
        Ok ((denominator <? twice) || ((twice =? denominator) && negb (Z.land retained 1 =? 0)))
    | TowardPositive => Ok (negb negative)
    | TowardNegative => Ok negative
    | TowardZero => Ok false
    | TiesAway | ToOdd => Panic
    end.

Definition overflow_result (sign_bits : Z) (format : BinaryFormat) (rounding : FpRoundingMode) : fp Z :=
  let infinity := Z.lor sign_bits (exponent_mask format) in
  let maximum_finite :=
    Z.lor (Z.lor sign_bits (shl_w 64 (exponent_max format - 1) (fraction_bits format)))
      (fraction_mask format) in
  match rounding with
  | TiesToEven => Ok infinity
  | TowardPositive => Ok (if sign_bits =? 0 then infinity else maximum_finite)
  | TowardNegative => Ok (if negb (sign_bits =? 0) then infinity else maximum_finite)
  | TowardZero => Ok maximum_finite
  | TiesAway | ToOdd => Panic
  end.

Definition scale_integer_for_pack (value shift : Z) : Z * Z * Z :=
  if shift <=? 0 then (wrap 64 (shl_w 128 value (- shift)), 0, 1)
  else if shift <? 128 then
    let denominator := shl_w 128 1 shift in
    (wrap 64 (Z.shiftr value shift), Z.land value (denominator - 1), denominator)
  else (0, value, Z.ones 128).

(** [u64::from(negative) << (format.total_bits - 1)]. *)
Definition sign_bits_of (negative : bool) (format : BinaryFormat) : Z :=
  shl_w 64 (Z.b2z negative) (total_bits format - 1).

(** The tail of [pack_float_sum] and [divide_finite] once the quotient at the
    chosen exponent is known: the normal and the subnormal branch. *)
Definition pack_normal (significand remainder denominator exponent sign_bits : Z) (negative : bool)
    (format : BinaryFormat) (control : FpControl) (status : FpStatus) : fp FpLaneOutcome :=
  let inexact := negb (remainder =? 0) in
  up ← should_round significand remainder denominator negative (rounding control);
  let significand := if up : bool then significand + 1 else significand in
  let '(significand, rounded_exponent) :=
    if significand =? shl_w 64 1 (fraction_bits format + 1)
    then (Z.shiftr significand 1, exponent + 1) else (significand, exponent) in
  if exponent_bias format <? rounded_exponent then
    bits ← overflow_result sign_bits format (rounding control);
    Ok (mkLane bits (set_inexact true (set_overflow true status)))
  else
    Ok (mkLane
      (Z.lor (Z.lor sign_bits (shl_w 64 (wrap 64 (rounded_exponent + exponent_bias format)) (fraction_bits format)))
         (Z.land significand (fraction_mask format)))
      (set_inexact inexact status)).

Definition pack_subnormal (fraction remainder denominator sign_bits : Z) (negative : bool)
    (format : BinaryFormat) (control : FpControl) (status : FpStatus) : fp FpLaneOutcome :=
  let inexact := negb (remainder =? 0) in
  up ← should_round fraction remainder denominator negative (rounding control);
  let fraction := if up : bool then fraction + 1 else fraction in
  let status := set_underflow inexact (set_inexact inexact status) in
  if fraction =? shl_w 64 1 (fraction_bits format) then
    Ok (mkLane (Z.lor sign_bits (shl_w 64 1 (fraction_bits format))) status)
  else if flush_to_zero control && negb (fraction =? 0) then
    Ok (mkLane sign_bits (set_underflow true status))
  else Ok (mkLane (Z.lor sign_bits fraction) status).

Definition pack_float_sum (magnitude scale : Z) (negative : bool) (format : BinaryFormat)
    (control : FpControl) (status : FpStatus) : fp FpLaneOutcome :=
  let sign_bits := sign_bits_of negative format in
  let top := 127 - leading_zeros 128 magnitude in
  let exponent := scale + top in
  let minimum_normal := 1 - exponent_bias format in
  if minimum_normal <=? exponent then
    let shift := top - fraction_bits format in
    let '(significand, remainder, denominator) := scale_integer_for_pack magnitude shift in
    pack_normal significand remainder denominator exponent sign_bits negative format control status
  else
    let minimum_subnormal := minimum_normal - fraction_bits format in
    let shift := minimum_subnormal - scale in
    let '(fraction, remainder, denominator) := scale_integer_for_pack magnitude shift in
    pack_subnormal fraction remainder denominator sign_bits negative format control status.

Definition shift_right_jam (value distance : Z) : Z :=
  if distance =? 0 then value
  else if distance <? 128 then
    Z.lor (Z.shiftr value distance)
      (Z.b2z (negb (Z.land value (shl_w 128 1 distance - 1) =? 0)))
  else Z.b2z (negb (value =? 0)).

(** [if control.flush_to_zero && operand.is_subnormal()] of the operand loops. *)
Definition flush_operand (operand : DecodedFloat) (format : BinaryFormat) (control : FpControl)
    (status : FpStatus) : DecodedFloat * FpStatus :=
  if flush_to_zero control && is_subnormal operand then
    (DecodedFloat_new (Z.land (df_bits operand) (sign_mask format)) format, set_input_denormal true status)
  else (operand, status).

(** ** Multiplication *)

Definition multiply_ieee_lane (lhs_bits rhs_bits : Z) (fp_format : FpFormat) (fpcr : Z) : fp FpLaneOutcome :=
  format ← BinaryFormat_new fp_format;
  let control := from_fpcr fpcr in
  let status := FpStatus_default in
  let lhs := DecodedFloat_new lhs_bits format in
  let rhs := DecodedFloat_new rhs_bits format in
  if is_nan lhs format || is_nan rhs format then
    Ok (mkLane (propagate_nan lhs rhs format (control_default_nan control))
          (set_invalid_operation (is_signaling_nan lhs format || is_signaling_nan rhs format) status))
  else
    let '(lhs, status) := flush_operand lhs format control status in
    let '(rhs, status) := flush_operand rhs format control status in
    let negative := xorb (df_sign lhs) (df_sign rhs) in
    let sign_bits := sign_bits_of negative format in
    if (is_infinite lhs format && is_zero rhs) || (is_infinite rhs format && is_zero lhs) then
      Ok (mkLane (default_nan format) (set_invalid_operation true status))
    else if is_infinite lhs format || is_infinite rhs format then
      Ok (mkLane (Z.lor sign_bits (exponent_mask format)) status)
    else if is_zero lhs || is_zero rhs then Ok (mkLane sign_bits status)
    else
      let magnitude := df_significand lhs * df_significand rhs in
      pack_float_sum magnitude (df_scale lhs + df_scale rhs) negative format control status.

(** ** Addition and subtraction *)

Definition negate_operand (operand : DecodedFloat) (format : BinaryFormat) : DecodedFloat :=
  mkDecoded (Z.lxor (df_bits operand) (sign_mask format)) (negb (df_sign operand))
    (df_exponent_field operand) (df_fraction operand) (df_significand operand) (df_scale operand).

(** The sum of two nonzero finite operands. *)
Definition add_finite (lhs rhs : DecodedFloat) (format : BinaryFormat) (control : FpControl)
    (status : FpStatus) : fp FpLaneOutcome :=
  let common_scale := Z.max (df_scale lhs) (df_scale rhs) in
  let lhs_magnitude := shift_right_jam (shl_w 128 (df_significand lhs) 3) (common_scale - df_scale lhs) in
  let rhs_magnitude := shift_right_jam (shl_w 128 (df_significand rhs) 3) (common_scale - df_scale rhs) in
  if eqb (df_sign lhs) (df_sign rhs) then
    pack_float_sum (lhs_magnitude + rhs_magnitude) (common_scale - 3) (df_sign lhs) format control status
  else if rhs_magnitude <? lhs_magnitude then
    pack_float_sum (lhs_magnitude - rhs_magnitude) (common_scale - 3) (df_sign lhs) format control status
  else if lhs_magnitude <? rhs_magnitude then
    pack_float_sum (rhs_magnitude - lhs_magnitude) (common_scale - 3) (df_sign rhs) format control status
  else
    Ok (mkLane (sign_bits_of (bool_decide (rounding control = TowardNegative)) format) status).

Definition add_ieee_lane (lhs_bits rhs_bits : Z) (fp_format : FpFormat) (fpcr : Z) (subtract : bool) :
    fp FpLaneOutcome :=
  format ← BinaryFormat_new fp_format;
  let lhs := DecodedFloat_new lhs_bits format in
  let rhs := DecodedFloat_new rhs_bits format in
  let rhs := if subtract then negate_operand rhs format else rhs in
  let control := from_fpcr fpcr in
  let status := FpStatus_default in
  if is_nan lhs format || is_nan rhs format then
    Ok (mkLane (propagate_nan lhs rhs format (control_default_nan control))
          (set_invalid_operation (is_signaling_nan lhs format || is_signaling_nan rhs format) status))
  else
    let '(lhs, status) := flush_operand lhs format control status in
    let '(rhs, status) := flush_operand rhs format control status in
    if is_infinite lhs format || is_infinite rhs format then
      if is_infinite lhs format && is_infinite rhs format && negb (eqb (df_sign lhs) (df_sign rhs)) then
        Ok (mkLane (default_nan format) (set_invalid_operation true status))
      else Ok (mkLane (if is_infinite lhs format then df_bits lhs else df_bits rhs) status)
    else if is_zero lhs && is_zero rhs then
      let negative := if eqb (df_sign lhs) (df_sign rhs) then df_sign lhs
                      else bool_decide (rounding control = TowardNegative) in
      Ok (mkLane (sign_bits_of negative format) status)
    else if is_zero lhs then Ok (mkLane (df_bits rhs) status)
    else if is_zero rhs then Ok (mkLane (df_bits lhs) status)
    else add_finite lhs rhs format control status.

(** ** Division *)

(** Its [debug_assert!] on the width of the scaled numerator is left out: it
    holds wherever the quotient is below [2 ^ 53], as in both uses
    ([scaled_numerator_width]). *)
Definition scaled_quotient (numerator denominator shift : Z) : Z * Z * Z :=
  if 0 <=? shift then
    let denominator_bits := 64 - leading_zeros 64 denominator in
    if 127 <? denominator_bits + shift then (0, 1, 3)
    else
      let scaled_denominator := shl_w 128 denominator shift in
      (wrap 64 (numerator / scaled_denominator), numerator mod scaled_denominator, scaled_denominator)
  else
    let scaled_numerator := shl_w 128 numerator (- shift) in
    (wrap 64 (scaled_numerator / denominator), scaled_numerator mod denominator, denominator).

Definition divide_finite (lhs rhs : DecodedFloat) (sign_bits : Z) (format : BinaryFormat)
    (control : FpControl) (status : FpStatus) : fp FpLaneOutcome :=
  let lhs_top := 63 - leading_zeros 64 (df_significand lhs) in
  let rhs_top := 63 - leading_zeros 64 (df_significand rhs) in
  let ratio_exponent :=
    if shl_w 128 (df_significand lhs) rhs_top <? shl_w 128 (df_significand rhs) lhs_top
    then lhs_top - rhs_top - 1 else lhs_top - rhs_top in
  let exponent := df_scale lhs - df_scale rhs + ratio_exponent in
  let minimum_normal := 1 - exponent_bias format in
  let negative := negb (sign_bits =? 0) in
  if minimum_normal <=? exponent then
    let shift := df_scale rhs - df_scale lhs + exponent - fraction_bits format in
    let '(significand, remainder, denominator) :=
      scaled_quotient (df_significand lhs) (df_significand rhs) shift in
    pack_normal significand remainder denominator exponent sign_bits negative format control status
  else
    let minimum_subnormal := minimum_normal - fraction_bits format in
    let shift := df_scale rhs - df_scale lhs + minimum_subnormal in
    let '(fraction, remainder, denominator) :=
      scaled_quotient (df_significand lhs) (df_significand rhs) shift in
    pack_subnormal fraction remainder denominator sign_bits negative format control status.

(** Division flushes an operand in place, keeping its sign and scale. *)
Definition flush_in_place (operand : DecodedFloat) (format : BinaryFormat) (control : FpControl)
    (status : FpStatus) : DecodedFloat * FpStatus :=
  if flush_to_zero control && is_subnormal operand then
    (mkDecoded (Z.land (df_bits operand) (sign_mask format)) (df_sign operand) 0 0 0 (df_scale operand),
     set_input_denormal true status)
  else (operand, status).

Definition divide_ieee_lane (lhs_bits rhs_bits : Z) (fp_format : FpFormat) (control : FpControl) :
    fp FpLaneOutcome :=
  format ← BinaryFormat_new fp_format;
  let status := FpStatus_default in
  let lhs := DecodedFloat_new lhs_bits format in
  let rhs := DecodedFloat_new rhs_bits format in
  if is_nan lhs format || is_nan rhs format then
    Ok (mkLane (propagate_nan lhs rhs format (control_default_nan control))
          (set_invalid_operation (is_signaling_nan lhs format || is_signaling_nan rhs format) status))
  else
    let '(lhs, status) := flush_in_place lhs format control status in
    let '(rhs, status) := flush_in_place rhs format control status in
    let sign := xorb (df_sign lhs) (df_sign rhs) in
    let sign_bits := sign_bits_of sign format in
    if (is_zero lhs && is_zero rhs) || (is_infinite lhs format && is_infinite rhs format) then
      Ok (mkLane (default_nan format) (set_invalid_operation true status))
    else if is_infinite lhs format then Ok (mkLane (Z.lor sign_bits (exponent_mask format)) status)
    else if is_infinite rhs format || is_zero lhs then Ok (mkLane sign_bits status)
    else if is_zero rhs then
      Ok (mkLane (Z.lor sign_bits (exponent_mask format)) (set_divide_by_zero true status))
    else divide_finite lhs rhs sign_bits format control status.

(** ** Fused multiply-add *)

(** [u128] [+] and [<<] under a build profile: out of range they panic when the
    profile checks overflow; otherwise the sum wraps and the distance is taken
    modulo the width. *)
Definition add_u128 (checks : bool) (x y : Z) : fp Z :=
  if x + y <? 2 ^ 128 then Ok (x + y) else if checks then Panic else Ok (wrap 128 (x + y)).

Definition shl_u128 (checks : bool) (x distance : Z) : fp Z :=
  if distance <? 128 then Ok (shl_w 128 x distance)
  else if checks then Panic else Ok (shl_w 128 x (distance mod 128)).

Definition shift_fits_u128 (value distance : Z) : bool :=
  (value =? 0) || ((distance <? 128) && (distance <=? leading_zeros 128 value)).

Definition align_fused_operands (checks : bool) (product product_scale addend addend_scale : Z) :
    fp (Z * Z * Z) :=
  let exact_scale := Z.min product_scale addend_scale in
  let product_shift := product_scale - exact_scale in
  let addend_shift := addend_scale - exact_scale in
  if shift_fits_u128 product product_shift && shift_fits_u128 addend addend_shift then
    product ← shl_u128 checks product product_shift;
    addend ← shl_u128 checks addend addend_shift;
    Ok (product, addend, exact_scale)
  else
    let maximum_scale := Z.max product_scale addend_scale in
    Ok (shift_right_jam (shl_w 128 product 3) (maximum_scale - product_scale),
        shift_right_jam (shl_w 128 addend 3) (maximum_scale - addend_scale),
        maximum_scale - 3).

Definition negates_product (operation : FloatFusedMultiplyOperation) : bool :=
  match operation with MultiplySubtract | NegatedMultiplyAdd => true | _ => false end.
Definition negates_addend (operation : FloatFusedMultiplyOperation) : bool :=
  match operation with NegatedMultiplyAdd | NegatedMultiplySubtract => true | _ => false end.

(** The sum of a finite product and a finite addend. *)
Definition fused_finite (checks : bool) (multiplicand multiplier addend : DecodedFloat)
    (product_sign : bool) (format : BinaryFormat) (control : FpControl) (status : FpStatus) :
    fp ExactFpOutcome :=
  let product_magnitude := df_significand multiplicand * df_significand multiplier in
  let addend_magnitude := df_significand addend in
  if (product_magnitude =? 0) && (addend_magnitude =? 0) then
    let sign := if eqb product_sign (df_sign addend) then product_sign
                else bool_decide (rounding control = TowardNegative) in
    Ok (mkExact (sign_bits_of sign format) status)
  else
    let product_scale := df_scale multiplicand + df_scale multiplier in
    '(product, aligned_addend, common_scale) ←
      align_fused_operands checks product_magnitude product_scale addend_magnitude (df_scale addend);
    if eqb product_sign (df_sign addend) then
      magnitude ← add_u128 checks product aligned_addend;
      outcome ← pack_float_sum magnitude common_scale product_sign format control status;
      Ok (exact_value outcome)
    else if aligned_addend <? product then
      outcome ← pack_float_sum (product - aligned_addend) common_scale product_sign format control status;
      Ok (exact_value outcome)
    else if product <? aligned_addend then
      outcome ← pack_float_sum (aligned_addend - product) common_scale (df_sign addend) format control status;
      Ok (exact_value outcome)
    else Ok (mkExact (sign_bits_of (bool_decide (rounding control = TowardNegative)) format) status).

Definition exact_scalar_float_fused_multiply_add (checks : bool)
    (multiplicand_bits multiplier_bits addend_bits precision : Z)
    (operation : FloatFusedMultiplyOperation) (fpcr : Z) : fp ExactFpOutcome :=
  fp_format ← fp_format precision;
  format ← BinaryFormat_new fp_format;
  let multiplicand := DecodedFloat_new multiplicand_bits format in
  let multiplier := DecodedFloat_new multiplier_bits format in
  let addend := DecodedFloat_new addend_bits format in
  let addend := if negates_addend operation then negate_operand addend format else addend in
  let control := from_fpcr fpcr in
  let status := FpStatus_default in
  let invalid_product :=
    (is_infinite multiplicand format && is_zero multiplier)
    || (is_infinite multiplier format && is_zero multiplicand) in
  if is_nan multiplicand format || is_nan multiplier format || is_nan addend format then
    bits ← propagate_nan_three multiplicand multiplier addend format (control_default_nan control);
    Ok (mkExact bits
          (set_invalid_operation
             (invalid_product || is_signaling_nan multiplicand format
              || is_signaling_nan multiplier format || is_signaling_nan addend format) status))
  else
    let '(multiplicand, status) := flush_operand multiplicand format control status in
    let '(multiplier, status) := flush_operand multiplier format control status in
    let '(addend, status) := flush_operand addend format control status in
    let invalid_product :=
      (is_infinite multiplicand format && is_zero multiplier)
      || (is_infinite multiplier format && is_zero multiplicand) in
    if invalid_product then Ok (mkExact (default_nan format) (set_invalid_operation true status))
    else
      let product_sign :=
        xorb (xorb (df_sign multiplicand) (df_sign multiplier)) (negates_product operation) in
      if is_infinite multiplicand format || is_infinite multiplier format then
        if is_infinite addend format && negb (eqb (df_sign addend) product_sign) then
          Ok (mkExact (default_nan format) (set_invalid_operation true status))
        else Ok (mkExact (Z.lor (sign_bits_of product_sign format) (exponent_mask format)) status)
      else if is_infinite addend format then
        Ok (mkExact (Z.lor (sign_bits_of (df_sign addend) format) (exponent_mask format)) status)
      else fused_finite checks multiplicand multiplier addend product_sign format control status.

(** ** Square root *)

(** The [loop] of [integer_square_root]; [None] when the fuel runs out. *)
Fixpoint integer_square_root_loop (fuel : nat) (value root : Z) : option (Z * Z) :=
  let next := Z.shiftr (root + value / root) 1 in
  if root <=? next then Some (root, value - root * root)
  else match fuel with
       | O => None
       | S fuel => integer_square_root_loop fuel value next
       end.

(** 128 rounds are enough: the distance to the root halves in each
    ([integer_square_root_spec]). *)
Definition integer_square_root (value : Z) : fp (Z * Z) :=
  if value =? 0 then Panic (* debug_assert!(value != 0) *)
  else
    let bits := 128 - leading_zeros 128 value in
    let root := shl_w 128 1 ((bits + 1) / 2) in
    expect (integer_square_root_loop 128 value root).

Definition exact_scalar_float_square_root (source_bits precision fpcr : Z) : fp ExactFpOutcome :=
  fp_format ← fp_format precision;
  format ← BinaryFormat_new fp_format;
  let source := DecodedFloat_new source_bits format in
  let control := from_fpcr fpcr in
  let status := FpStatus_default in
  if is_nan source format then
    Ok (mkExact (if control_default_nan control then default_nan format
                 else Z.lor (df_bits source) (quiet_nan_bit format))
          (set_invalid_operation (is_signaling_nan source format) status))
  else
    let '(source, status) := flush_operand source format control status in
    if is_zero source then Ok (mkExact (df_bits source) status)
    else if df_sign source then Ok (mkExact (default_nan format) (set_invalid_operation true status))
    else if is_infinite source format then Ok (mkExact (df_bits source) status)
    else
      let '(significand, scale) :=
        if negb (Z.land (df_scale source) 1 =? 0)
        then (shl_w 128 (df_significand source) 1, df_scale source - 1)
        else (df_significand source, df_scale source) in
      let source_bits := 128 - leading_zeros 128 significand in
      let target_root_bits := fraction_bits format + 4 in
      let current_root_bits := (source_bits + 1) / 2 in
      let extra_root_bits := target_root_bits - current_root_bits in
      let radicand := shl_w 128 significand (extra_root_bits * 2) in
      '(root, remainder) ← integer_square_root radicand;
      let root := if negb (remainder =? 0) then Z.lor root 1 else root in
      outcome ← pack_float_sum root (Z.quot scale 2 - extra_root_bits) false format control status;
      Ok (exact_value outcome).

(** ** The scalar primitives built on the lanes *)

Definition exact_scalar_float_divide (lhs rhs precision fpcr : Z) : fp ExactFpOutcome :=
  format ← fp_format precision;
  outcome ← divide_ieee_lane lhs rhs format (from_fpcr fpcr);
  Ok (exact_value outcome).

Definition exact_scalar_float_multiply (lhs rhs precision : Z) (operation : FloatMultiplyOperation)
    (fpcr : Z) : fp ExactFpOutcome :=
  fp_format ← fp_format precision;
  format ← BinaryFormat_new fp_format;
  outcome ← multiply_ieee_lane lhs rhs fp_format fpcr;
  Ok (exact_value
        (match operation with
         | NegatedMultiply =>
             mkLane (Z.lxor (lane_value outcome) (sign_mask format)) (lane_status outcome)
         | Multiply => outcome
         end)).

Definition exact_scalar_float_add (lhs rhs precision : Z) (operation : FloatAddOperation) (fpcr : Z) :
    fp ExactFpOutcome :=
  format ← fp_format precision;
  outcome ← add_ieee_lane lhs rhs format fpcr
    (match operation with FloatSubtract => true | FloatAdd => false end);
  Ok (exact_value outcome).
