(* ===== verification/FloatConv.v ===== *)
(** * Conversions, rounding to integral and comparison: the rest of the scalar
      floating-point primitives of [crates/cpu/src/semantics/a64_fp_simd.rs] *)

From Stdlib Require Import ZArith Lia Bool.
From stdpp Require Import base numbers list option.
From S2P Require Import Prelude RustInt DecodeFpSimd.
Import DecodeFpSimd.FpSimd.
From S2P Require Import FloatFormat FloatOps.
Local Open Scope Z_scope.

(** ** Integers to floating point *)

Definition integer_sign_and_magnitude (value width : Z) (signed : bool) : bool * Z :=
  if negb signed then (false, value)
  else if width =? 32 then
    let value := as_signed 32 value in (value <? 0, Z.abs value)
  else
    let value := as_signed 64 value in (value <? 0, Z.abs value).

Definition integer_magnitude_to_ieee (magnitude : Z) (negative : bool) (format_bits : Z)
    (rounding : FpRoundingMode) : fp (Z * bool) :=
  if magnitude =? 0 then Ok (0, false)
  else
    let '(fraction_bits, exponent_bias) := if format_bits =? 32 then (23, 127) else (52, 1023) in
    let leading_bit := 63 - leading_zeros 64 magnitude in
    let exponent := leading_bit + exponent_bias in
    '(significand, inexact) ←
      (if leading_bit <=? fraction_bits
       then Ok (shl_w 64 magnitude (fraction_bits - leading_bit), false)
       else
         let discarded_bits := leading_bit - fraction_bits in
         let retained := Z.shiftr magnitude discarded_bits in
         let discarded_mask := shl_w 64 1 discarded_bits - 1 in
         let discarded := Z.land magnitude discarded_mask in
         let halfway := shl_w 64 1 (discarded_bits - 1) in
         increment ←
           (match rounding with
            | TiesToEven => Ok ((halfway <? discarded) || ((discarded =? halfway) && negb (Z.land retained 1 =? 0)))
            | TowardPositive => Ok (negb negative && negb (discarded =? 0))
            | TowardNegative => Ok (negative && negb (discarded =? 0))
            | TowardZero => Ok false
            | TiesAway | ToOdd => Panic
            end : fp bool);
         Ok (retained + Z.b2z increment, negb (discarded =? 0)));
    let precision := fraction_bits + 1 in
    let '(significand, exponent) :=
      if significand =? shl_w 64 1 precision then (Z.shiftr significand 1, exponent + 1)
      else (significand, exponent) in
    let sign := shl_w 64 (Z.b2z negative) (format_bits - 1) in
    let fraction_mask := shl_w 64 1 fraction_bits - 1 in
    Ok (Z.lor (Z.lor sign (shl_w 64 exponent fraction_bits)) (Z.land significand fraction_mask), inexact).

Definition exact_scalar_vector_integer_to_float (source lane_bits : Z) (signed : bool) (fpcr : Z) :
    fp (Z * bool) :=
  let '(negative, magnitude) := integer_sign_and_magnitude source lane_bits signed in
  integer_magnitude_to_ieee magnitude negative lane_bits (fpcr_rounding_mode fpcr).

Definition exact_scalar_integer_to_float (source source_bits destination_bits : Z) (signed : bool)
    (fpcr : Z) : fp (Z * bool) :=
  let '(negative, magnitude) := integer_sign_and_magnitude source source_bits signed in
  integer_magnitude_to_ieee magnitude negative destination_bits (fpcr_rounding_mode fpcr).

(** ** Floating point to integers *)

(** The closure [saturated] of [float_bits_to_integer]. *)
Definition saturated (width : Z) (signed negative : bool) : Z :=
  if signed then
    if negative then shl_w 64 1 (width - 1)
    else if width =? 64 then Z.ones 63 else Z.ones 31
  else if negative then 0
  else if width =? 64 then Z.ones 64 else Z.ones 32.

(** Whether a discarded fraction rounds the magnitude up. *)
Definition conversion_increment (rounding : FloatToIntegerRounding) (sign : bool)
    (relation_to_half : comparison) (magnitude : Z) : bool :=
  match rounding with
  | ToIntegerNearestEven =>
      match relation_to_half with Gt => true | Eq => negb (Z.land magnitude 1 =? 0) | Lt => false end
  | ToIntegerNearestAway => match relation_to_half with Lt => false | _ => true end
  | ToIntegerTowardPositive => negb sign
  | ToIntegerTowardNegative => sign
  | ToIntegerTowardZero => false
  end.

Definition float_bits_to_integer (source : Z) (format : BinaryFormat) (width : Z) (signed : bool)
    (rounding : FloatToIntegerRounding) (fractional_bits fpcr : Z) : ExactIntegerOutcome :=
  let sign := negb (Z.land source (sign_mask format) =? 0) in
  let exponent := Z.shiftr (Z.land source (exponent_mask format)) (fraction_bits format) in
  let fraction := Z.land source (fraction_mask format) in
  let status := FpStatus_default in
  let positive_limit := if signed then shl_w 128 1 (width - 1) - 1 else shl_w 128 1 width - 1 in
  let negative_limit := if signed then shl_w 128 1 (width - 1) else 0 in
  if exponent =? exponent_max format then
    mkInteger (if negb (fraction =? 0) then 0 else saturated width signed sign) width
      (set_invalid_operation true status)
  else if (exponent =? 0) && negb (fraction =? 0) && bit_set fpcr 24 then
    mkInteger 0 width (set_input_denormal true status)
  else
    let '(significand, unbiased_exponent) :=
      if exponent =? 0 then (fraction, 1 - exponent_bias format)
      else (Z.lor (shl_w 64 1 (fraction_bits format)) fraction, exponent - exponent_bias format) in
    let shift := unbiased_exponent - fraction_bits format + fractional_bits in
    let '(magnitude, discarded, relation_to_half) :=
      if 0 <=? shift then
        if (128 <=? shift) || (Z.shiftr (Z.ones 128) shift <? significand) then (Z.ones 128, false, Lt)
        else (shl_w 128 significand shift, false, Lt)
      else
        let right := - shift in
        if 128 <=? right then (0, negb (significand =? 0), Lt)
        else
          let mask := shl_w 128 1 right - 1 in
          let remainder := Z.land significand mask in
          (Z.shiftr significand right, negb (remainder =? 0), remainder ?= shl_w 128 1 (right - 1)) in
    let increment := discarded && conversion_increment rounding sign relation_to_half magnitude in
    let magnitude := Z.min (magnitude + Z.b2z increment) (Z.ones 128) in
    let out_of_range :=
      if sign then if signed then negative_limit <? magnitude else negb (magnitude =? 0)
      else positive_limit <? magnitude in
    if out_of_range then
      mkInteger (saturated width signed sign) width (set_invalid_operation true status)
    else
      mkInteger (if sign && negb (magnitude =? 0) then wrapping_sub 64 0 (wrap 64 magnitude)
                 else wrap 64 magnitude)
        width (set_inexact discarded status).

Definition exact_float_to_integer (source source_bits width : Z) (signed : bool)
    (rounding : FloatToIntegerRounding) (fractional_bits fpcr : Z) : fp ExactIntegerOutcome :=
  fp_format ← fp_format source_bits;
  format ← BinaryFormat_new fp_format;
  Ok (float_bits_to_integer source format width signed rounding fractional_bits fpcr).

(** ** Between the two formats *)

Definition convert_nan (source : DecodedFloat) (source_format destination_format : BinaryFormat)
    (default : bool) : Z :=
  if default then default_nan destination_format
  else
    let source_payload := Z.lor (df_fraction source) (quiet_nan_bit source_format) in
    let payload :=
      if fraction_bits destination_format <? fraction_bits source_format
      then Z.shiftr source_payload (fraction_bits source_format - fraction_bits destination_format)
      else shl_w 64 source_payload (fraction_bits destination_format - fraction_bits source_format) in
    let sign := sign_bits_of (df_sign source) destination_format in
    Z.lor (Z.lor (Z.lor sign (exponent_mask destination_format))
             (Z.land payload (fraction_mask destination_format)))
      (quiet_nan_bit destination_format).

Definition round_shift_right (value shift : Z) (negative : bool) (rounding : FpRoundingMode) : fp (Z * bool) :=
  if shift =? 0 then Ok (value, false)
  else
    let retained := if shift <? 64 then Z.shiftr value shift else 0 in
    let discarded := if shift <? 64 then Z.land value (shl_w 64 1 shift - 1) else value in
    if discarded =? 0 then Ok (retained, false)
    else
      increment ←
        (match rounding with
         | TiesToEven =>
             Ok (if shift <? 64 then
                   let halfway := shl_w 64 1 (shift - 1) in
                   (halfway <? discarded) || ((discarded =? halfway) && negb (Z.land retained 1 =? 0))
                 else if shift =? 64 then shl_w 64 1 63 <? discarded
                 else false)
         | TowardPositive => Ok (negb negative)
         | TowardNegative => Ok negative
         | TowardZero => Ok false
         | TiesAway | ToOdd => Panic
         end : fp bool);
      Ok (retained + Z.b2z increment, true).

Definition convert_finite_format (source : DecodedFloat) (sign_bits : Z) (format : BinaryFormat)
    (control : FpControl) (status : FpStatus) : fp FpLaneOutcome :=
  let source_top := 63 - leading_zeros 64 (df_significand source) in
  let exponent := df_scale source + source_top in
  let minimum_normal := 1 - exponent_bias format in
  if minimum_normal <=? exponent then
    let destination_precision := fraction_bits format + 1 in
    let source_precision := source_top + 1 in
    '(significand, inexact) ←
      (if destination_precision <? source_precision
       then round_shift_right (df_significand source) (source_precision - destination_precision)
              (df_sign source) (rounding control)
       else Ok (shl_w 64 (df_significand source) (destination_precision - source_precision), false));
    let '(significand, exponent) :=
      if significand =? shl_w 64 1 destination_precision then (Z.shiftr significand 1, exponent + 1)
      else (significand, exponent) in
    if exponent_bias format <? exponent then
      bits ← overflow_result sign_bits format (rounding control);
      Ok (mkLane bits (set_inexact true (set_overflow true status)))
    else
      Ok (mkLane
        (Z.lor (Z.lor sign_bits (shl_w 64 (wrap 64 (exponent + exponent_bias format)) (fraction_bits format)))
           (Z.land significand (fraction_mask format)))
        (set_inexact inexact status))
  else
    let minimum_subnormal := minimum_normal - fraction_bits format in
    let scale_difference := df_scale source - minimum_subnormal in
    '(fraction, inexact) ←
      (if 0 <=? scale_difference then Ok (shl_w 64 (df_significand source) scale_difference, false)
       else round_shift_right (df_significand source) (- scale_difference) (df_sign source) (rounding control));
    let status := set_underflow inexact (set_inexact inexact status) in
    if fraction =? shl_w 64 1 (fraction_bits format) then
      Ok (mkLane (Z.lor sign_bits (shl_w 64 1 (fraction_bits format))) status)
    else if flush_to_zero control && negb (fraction =? 0) then
      Ok (mkLane sign_bits (set_underflow true status))
    else Ok (mkLane (Z.lor sign_bits fraction) status).

Definition convert_ieee_format (source_bits : Z) (source_fp_format destination_fp_format : FpFormat)
    (control : FpControl) : fp FpLaneOutcome :=
  source_format ← BinaryFormat_new source_fp_format;
  destination_format ← BinaryFormat_new destination_fp_format;
  let source := DecodedFloat_new source_bits source_format in
  let status := FpStatus_default in
  if is_nan source source_format then
    Ok (mkLane (convert_nan source source_format destination_format (control_default_nan control))
          (set_invalid_operation (is_signaling_nan source source_format) status))
  else
    let sign_bits := sign_bits_of (df_sign source) destination_format in
    let '(source, status) :=
      if flush_to_zero control && is_subnormal source
      then (mkDecoded (df_bits source) (df_sign source) (df_exponent_field source) 0 0 (df_scale source),
            set_input_denormal true status)
      else (source, status) in
    if is_zero source then Ok (mkLane sign_bits status)
    else if is_infinite source source_format then
      Ok (mkLane (Z.lor sign_bits (exponent_mask destination_format)) status)
    else convert_finite_format source sign_bits destination_format control status.

Definition exact_float_convert (source : Z) (conversion : FloatConversion) (fpcr : Z) : fp ExactFpOutcome :=
  let '(source_format, destination_format) :=
    match conversion with
    | SingleToDouble => (Binary32, Binary64)
    | DoubleToSingle => (Binary64, Binary32)
    end in
  outcome ← convert_ieee_format source source_format destination_format (from_fpcr fpcr);
  Ok (exact_value outcome).

(** ** Rounding to an integral value *)

Definition round_integral_magnitude (significand shift : Z) (negative : bool) (rounding : FpRoundingMode) :
    fp (Z * bool) :=
  let retained := if shift <? 64 then Z.shiftr significand shift else 0 in
  let discarded := if shift <? 64 then Z.land significand (shl_w 64 1 shift - 1) else significand in
  if discarded =? 0 then Ok (retained, false)
  else
    increment ←
      (match rounding with
       | TiesToEven =>
           Ok (if shift <? 64 then
                 let halfway := shl_w 64 1 (shift - 1) in
                 (halfway <? discarded) || ((discarded =? halfway) && negb (Z.land retained 1 =? 0))
               else false)
       | TiesAway => Ok (if shift <? 64 then shl_w 64 1 (shift - 1) <=? discarded else false)
       | TowardPositive => Ok (negb negative)
       | TowardNegative => Ok negative
       | TowardZero => Ok false
       | ToOdd => Panic
       end : fp bool);
    Ok (retained + Z.b2z increment, true).

Definition exact_scalar_float_round (source_bits precision : Z) (operation : FloatRoundOperation) (fpcr : Z) :
    fp ExactFpOutcome :=
  fp_format ← fp_format precision;
  format ← BinaryFormat_new fp_format;
  let source := DecodedFloat_new source_bits format in
  let status := FpStatus_default in
  if is_nan source format then
    Ok (mkExact (if bit_set fpcr 25 then default_nan format
                 else Z.lor (df_bits source) (quiet_nan_bit format))
          (set_invalid_operation (is_signaling_nan source format) status))
  else if is_infinite source format || is_zero source then Ok (mkExact (df_bits source) status)
  else if bit_set fpcr 24 && is_subnormal source then
    let source := DecodedFloat_new (Z.land (df_bits source) (sign_mask format)) format in
    Ok (mkExact (df_bits source) (set_input_denormal true status))
  else
    let exponent := df_exponent_field source - exponent_bias format in
    if fraction_bits format <=? exponent then Ok (mkExact (df_bits source) status)
    else
      let '(rounding, exact) :=
        match operation with
        | RoundNearestEven => (TiesToEven, false)
        | RoundTowardPositive => (TowardPositive, false)
        | RoundTowardNegative => (TowardNegative, false)
        | RoundTowardZero => (TowardZero, false)
        | RoundNearestAway => (TiesAway, false)
        | RoundExact => (fpcr_rounding_mode fpcr, true)
        | RoundCurrentMode => (fpcr_rounding_mode fpcr, false)
        end in
      let shift := fraction_bits format - exponent in
      '(magnitude, inexact) ← round_integral_magnitude (df_significand source) shift (df_sign source) rounding;
      bits ←
        (if magnitude =? 0 then Ok (Z.land (df_bits source) (sign_mask format))
         else
           converted ← integer_magnitude_to_ieee magnitude (df_sign source) (total_bits format) rounding;
           Ok (fst converted));
      Ok (mkExact bits (set_inexact (exact && inexact) status)).

(** ** Comparison *)

Definition exact_scalar_float_compare (lhs_bits rhs_bits precision : Z) (signaling : bool) (fpcr : Z) :
    fp ExactCompareOutcome :=
  fp_format ← fp_format precision;
  format ← BinaryFormat_new fp_format;
  let lhs := DecodedFloat_new lhs_bits format in
  let rhs := DecodedFloat_new rhs_bits format in
  let status := FpStatus_default in
  if is_nan lhs format || is_nan rhs format then
    Ok (mkCompare (Z.lor (Z.shiftl 1 29) (Z.shiftl 1 28))
          (set_invalid_operation
             (signaling || is_signaling_nan lhs format || is_signaling_nan rhs format) status))
  else
    let control := from_fpcr fpcr in
    let '(lhs, status) := flush_operand lhs format control status in
    let '(rhs, status) := flush_operand rhs format control status in
    let equal := (is_zero lhs && is_zero rhs) || (df_bits lhs =? df_bits rhs) in
    let less :=
      if equal then false
      else if negb (eqb (df_sign lhs) (df_sign rhs)) then df_sign lhs
      else if df_sign lhs then
        Z.land (df_bits rhs) (not_w 64 (sign_mask format)) <? Z.land (df_bits lhs) (not_w 64 (sign_mask format))
      else df_bits lhs <? df_bits rhs in
    let nzcv := if equal then Z.lor (Z.shiftl 1 30) (Z.shiftl 1 29)
                else if less then Z.shiftl 1 31 else Z.shiftl 1 29 in
    Ok (mkCompare nzcv status).
