(* ===== verification/FloatRound.v ===== *)
(** * Correct rounding

    The specification the arithmetic is proved against.  An exact result is a
    positive real number of units of the format (its least subnormal), known
    through how it compares with half-units: a [cut].  Patterns without sign are
    ordered as the values they stand for, so rounding chooses between the
    neighbours [b] and [b + 1] of the exact value: [rounded].  No reals are
    needed, and square roots are covered as well as quotients. *)

From Stdlib Require Import ZArith Lia Bool.
From stdpp Require Import base numbers list option.
From S2P Require Import Prelude RustInt FloatFormat.
Local Open Scope Z_scope.

(** [c h] compares the exact magnitude with [h] half-units. *)
Definition cut : Type := Z -> comparison.

Definition is_cut (c : cut) : Prop := forall h h', 0 <= h < h' -> c h <> Gt -> c h' = Lt.

(** The magnitude [n / d] units; the magnitude [m * 2 ^ e]; and the square root of
    [n] units squared. *)
Definition ratio_cut (n d : Z) : cut := fun h => 2 * n ?= h * d.

Definition dyadic_cut (f : BinaryFormat) (m e : Z) : cut :=
  ratio_cut (m * 2 ^ Z.max 0 (e + unit_shift f)) (2 ^ Z.max 0 (- (e + unit_shift f))).

Definition sqrt_cut (n : Z) : cut := fun h => 4 * n ?= h * h.

(** Whether the upper neighbour is chosen, from how the exact value compares with
    the midpoint and the parity of the lower neighbour. *)
Definition round_up (mode : FpRoundingMode) (negative : bool) (half : comparison) (odd : bool) : bool :=
  match mode with
  | TiesToEven => match half with Gt => true | Eq => odd | Lt => false end
  | TowardPositive => negb negative
  | TowardNegative => negative
  | TowardZero => false
  | TiesAway => match half with Lt => false | _ => true end
  | ToOdd => negb odd
  end.

(** [b] is the pattern without sign of the exact magnitude rounded once: [b0] is
    the largest finite pattern not above it. *)
Definition rounded (f : BinaryFormat) (mode : FpRoundingMode) (negative : bool) (c : cut) (b : Z) : Prop :=
  exists b0, 0 <= b0 < infinity f /\ c (2 * units f b0) <> Lt /\
    (c (2 * units f (b0 + 1)) = Lt \/ b0 + 1 = infinity f) /\
    b = match c (2 * units f b0) with
        | Eq => b0
        | _ => b0 + Z.b2z (round_up mode negative (c (units f b0 + units f (b0 + 1))) (Z.odd b0))
        end.

(** The status a rounding raises, from the exact value and the result: overflow
    when the unbounded result does not fit, tininess detected before rounding. *)
Definition not_lt (x : comparison) : bool := match x with Lt => false | _ => true end.
Definition not_eq (x : comparison) : bool := match x with Eq => false | _ => true end.

Definition overflows (f : BinaryFormat) (c : cut) (b : Z) : bool :=
  not_lt (c (2 * units f (infinity f))) || (b =? infinity f).
Definition rounds_inexactly (f : BinaryFormat) (c : cut) (b : Z) : bool :=
  overflows f c b || not_eq (c (2 * units f b)).
Definition is_tiny (f : BinaryFormat) (c : cut) : bool := negb (not_lt (c (2 * 2 ^ fraction_bits f))).
Definition subnormal_pattern (f : BinaryFormat) (b : Z) : bool := (0 <? b) && (b <? 2 ^ fraction_bits f).

Definition rounding_status (f : BinaryFormat) (ftz : bool) (c : cut) (b : Z) (st : FpStatus) : FpStatus :=
  mkStatus (invalid_operation st) (divide_by_zero st) (overflows f c b)
    (is_tiny f c && (rounds_inexactly f c b || (ftz && subnormal_pattern f b)))
    (rounds_inexactly f c b) (input_denormal st).

(** A correctly rounded outcome: the pattern of the rounded magnitude with the
    sign, flushed to zero when the control says so and it is subnormal. *)
Definition correctly_rounded (f : BinaryFormat) (control : FpControl) (negative : bool) (c : cut)
    (st : FpStatus) (bits : Z) (st' : FpStatus) : Prop :=
  exists b, rounded f (rounding control) negative c b /\
    bits = Z.b2z negative * 2 ^ (total_bits f - 1) +
           (if flush_to_zero control && subnormal_pattern f b then 0 else b) /\
    st' = rounding_status f (flush_to_zero control) c b st.

(** ** Patterns and their values *)

Section Units.
Context (f : BinaryFormat) (Hf : format_ok f).

Lemma fraction_pow_pos : 0 < 2 ^ fraction_bits f.
Proof. apply pow2_pos. pose proof (format_dims f Hf). lia. Qed.

Lemma fraction_pow_succ : 2 ^ (fraction_bits f + 1) = 2 * 2 ^ fraction_bits f.
Proof. pose proof (format_dims f Hf). rewrite Z.pow_add_r by lia. change (2 ^ 1) with 2. lia. Qed.

(** A significand [m] at exponent [s], the form every pattern has. *)
Definition normal_form (s m : Z) : Prop :=
  0 <= s /\ 0 <= m < 2 ^ (fraction_bits f + 1) /\ (s = 0 \/ 2 ^ fraction_bits f <= m).

Lemma units_at s m : 0 <= s -> 0 <= m <= 2 ^ (fraction_bits f + 1) -> s = 0 \/ 2 ^ fraction_bits f <= m ->
  units f (s * 2 ^ fraction_bits f + m) = m * 2 ^ s.
Proof.
  intros Hs Hm Hsm. pose proof fraction_pow_pos as Hp. rewrite fraction_pow_succ in Hm. unfold units.
  destruct (Z.lt_ge_cases m (2 ^ fraction_bits f)) as [Hlt|Hge].
  - destruct Hsm as [->|]; [|lia]. rewrite Z.div_small, Z.mod_small by lia. simpl Z.eqb. cbn iota. lia.
  - destruct (Z.eq_dec m (2 * 2 ^ fraction_bits f)) as [->|Hne].
    + replace (s * 2 ^ fraction_bits f + 2 * 2 ^ fraction_bits f) with ((s + 2) * 2 ^ fraction_bits f) by lia.
      rewrite Z.div_mul, Z.mod_mul by lia. destruct (Z.eqb_spec (s + 2) 0); [lia|].
      replace (s + 2 - 1) with (s + 1) by lia. rewrite (Z.pow_add_r 2 s) by lia. change (2 ^ 1) with 2. lia.
    + rewrite (Z.add_comm (s * _)), Z.div_add, Z.mod_add by lia.
      replace (m / 2 ^ fraction_bits f) with 1 by (apply (Z.div_unique_pos m _ 1 (m - 2 ^ fraction_bits f)); lia).
      replace (m mod 2 ^ fraction_bits f) with (m - 2 ^ fraction_bits f)
        by (apply (Z.mod_unique_pos m _ 1); lia).
      destruct (Z.eqb_spec (1 + s) 0); [lia|]. replace (1 + s - 1) with s by lia. f_equal. lia.
Qed.

Lemma pattern_form b : 0 <= b -> exists s m, b = s * 2 ^ fraction_bits f + m /\ normal_form s m.
Proof.
  intros Hb. pose proof fraction_pow_pos as Hp. unfold normal_form. rewrite fraction_pow_succ.
  pose proof (Z.div_mod b (2 ^ fraction_bits f)) as Hdm.
  pose proof (Z.mod_pos_bound b (2 ^ fraction_bits f) Hp). pose proof (Z.div_pos b (2 ^ fraction_bits f) Hb Hp).
  destruct (Z.eq_dec (b / 2 ^ fraction_bits f) 0) as [E|E].
  - exists 0, b. split; [lia|]. nia.
  - exists (b / 2 ^ fraction_bits f - 1), (2 ^ fraction_bits f + b mod 2 ^ fraction_bits f). nia.
Qed.

Lemma units_pattern s m : normal_form s m -> units f (s * 2 ^ fraction_bits f + m) = m * 2 ^ s.
Proof. intros (Hs & Hm & Hsm). apply units_at; [done|lia|done]. Qed.

Lemma units_next s m : normal_form s m -> units f (s * 2 ^ fraction_bits f + m + 1) = (m + 1) * 2 ^ s.
Proof.
  intros (Hs & Hm & Hsm). replace (s * 2 ^ fraction_bits f + m + 1) with (s * 2 ^ fraction_bits f + (m + 1)) by lia.
  apply units_at; [done|lia|]. destruct Hsm; [by left|right; lia].
Qed.

Lemma units_nonneg b : 0 <= b -> 0 <= units f b.
Proof.
  intros Hb. destruct (pattern_form b Hb) as (s & m & -> & Hn). rewrite units_pattern by done.
  destruct Hn as (? & ? & _). pose proof (pow2_pos s). nia.
Qed.

(** Patterns are ordered as their values. *)
Lemma units_lt_next b : 0 <= b -> units f b < units f (b + 1).
Proof.
  intros Hb. destruct (pattern_form b Hb) as (s & m & -> & Hn).
  rewrite units_pattern, units_next by done. destruct Hn as (? & ? & _). pose proof (pow2_pos s). nia.
Qed.

Lemma units_lt b b' : 0 <= b < b' -> units f b < units f b'.
Proof.
  intros [Hb Hlt]. replace b' with (b + Z.of_nat (S (Z.to_nat (b' - b - 1)))) by lia.
  induction (Z.to_nat (b' - b - 1)) as [|n IH].
  - apply units_lt_next. done.
  - etransitivity; [apply IH|]. replace (b + Z.of_nat (S (S n))) with (b + Z.of_nat (S n) + 1) by lia.
    apply units_lt_next. lia.
Qed.

Lemma units_le b b' : 0 <= b <= b' -> units f b <= units f b'.
Proof. intros [? ?]. destruct (Z.eq_dec b b') as [->|]; [lia|]. apply Z.lt_le_incl, units_lt. lia. Qed.

Lemma pattern_parity s m : Z.odd (s * 2 ^ fraction_bits f + m) = Z.odd m.
Proof.
  pose proof (format_dims f Hf). rewrite Z.odd_add, Z.odd_mul.
  replace (fraction_bits f) with (fraction_bits f - 1 + 1) by lia. rewrite Z.pow_add_r, Z.odd_mul by lia.
  change (Z.odd (2 ^ 1)) with false. by rewrite !andb_false_r, xorb_false_l.
Qed.

(** The boundaries where rounding can change: patterns and their midpoints. *)
Inductive boundary : Z -> Prop :=
  | boundary_pattern b : 0 <= b -> boundary (2 * units f b)
  | boundary_midpoint b : 0 <= b -> boundary (units f b + units f (b + 1)).

Lemma boundary_nonneg h : boundary h -> 0 <= h.
Proof. intros [b Hb|b Hb]; pose proof (units_nonneg b Hb); [lia|]. pose proof (units_nonneg (b + 1)). lia. Qed.

(** A boundary of at least [2 ^ (t + 1)] half-units is a multiple of
    [2 ^ (t - fraction_bits)]. *)
Lemma boundary_divides h t : boundary h -> 2 ^ (t + 1) <= h -> fraction_bits f <= t ->
  (2 ^ (t - fraction_bits f) | h).
Proof.
  intros Hb Hh Ht. pose proof (format_dims f Hf).
  assert (exists s k, 0 <= s /\ h = k * 2 ^ s /\ k < 2 ^ (fraction_bits f + 2)) as (s & k & Hs & -> & Hk).
  { assert (2 ^ (fraction_bits f + 2) = 2 * 2 ^ (fraction_bits f + 1)) as Hp2.
    { rewrite <- Z.pow_succ_r by lia. f_equal. lia. }
    destruct Hb as [b Hb|b Hb]; destruct (pattern_form b Hb) as (s & m & -> & Hn); destruct (Hn) as (? & ? & _).
    - exists s, (2 * m). rewrite units_pattern by done. rewrite Hp2. split; [done|]. lia.
    - exists s, (2 * m + 1). rewrite units_pattern, units_next by done. rewrite Hp2. split; [done|]. lia. }
  assert (t - fraction_bits f <= s) as Hts.
  { destruct (Z.le_gt_cases (t - fraction_bits f) s) as [|Hgt]; [done|].
    assert (k * 2 ^ s < 2 ^ (t + 1)); [|lia].
    apply Z.lt_le_trans with (2 ^ (fraction_bits f + 2) * 2 ^ s).
    - pose proof (pow2_pos s Hs). nia.
    - rewrite <- Z.pow_add_r by lia. apply pow2_le. lia. }
  exists (k * 2 ^ (s - (t - fraction_bits f))). rewrite <- Z.mul_assoc, <- Z.pow_add_r by lia. do 2 f_equal. lia.
Qed.
End Units.

(** ** Cuts *)

Lemma ratio_is_cut n d : 0 < d -> is_cut (ratio_cut n d).
Proof.
  intros Hd h h' Hh Hc. unfold ratio_cut in *. apply Z.compare_lt_iff.
  destruct (Z.compare_spec (2 * n) (h * d)); [nia..|done].
Qed.

Lemma sqrt_is_cut n : is_cut (sqrt_cut n).
Proof.
  intros h h' Hh Hc. unfold sqrt_cut in *. apply Z.compare_lt_iff.
  destruct (Z.compare_spec (4 * n) (h * h)); [nia..|done].
Qed.

Lemma dyadic_is_cut f m e : is_cut (dyadic_cut f m e).
Proof. apply ratio_is_cut, pow2_pos. lia. Qed.

#[export] Hint Resolve sqrt_is_cut dyadic_is_cut : core.

Lemma ratio_cut_scale k n d h : 0 < k -> ratio_cut (k * n) (k * d) h = ratio_cut n d h.
Proof.
  intros Hk. unfold ratio_cut. replace (2 * (k * n)) with (k * (2 * n)) by lia.
  replace (h * (k * d)) with (k * (h * d)) by lia.
  destruct (Z.compare_spec (2 * n) (h * d)) as [->| |];
    [apply Z.compare_refl|apply Z.compare_lt_iff; nia|apply Z.compare_gt_iff; nia].
Qed.

Lemma cut_below c h h' : is_cut c -> 0 <= h <= h' -> c h = Lt -> c h' = Lt.
Proof. intros Hc Hh Hl. destruct (Z.eq_dec h h') as [->|]; [done|]. apply (Hc h); [lia|by rewrite Hl]. Qed.

Lemma cut_above c h h' : is_cut c -> 0 <= h < h' -> c h' <> Lt -> c h = Gt.
Proof. intros Hc Hh Hl. destruct (c h) eqn:E; [| |done]; destruct Hl; apply (Hc h); rewrite ?E; done. Qed.

Lemma cut_not_lt c h h' : is_cut c -> 0 <= h <= h' -> c h' <> Lt -> c h <> Lt.
Proof.
  intros Hc Hh Hl. destruct (Z.eq_dec h h') as [->|]; [done|]. rewrite (cut_above c h h') by (done || lia). done.
Qed.

(** The same comparison at another scale, shifting right or left. *)
Lemma dyadic_cut_right f m e k s shift : 0 <= s -> 0 <= shift -> s = e + unit_shift f + shift ->
  dyadic_cut f m e (k * 2 ^ s) = (2 * m ?= k * 2 ^ shift).
Proof.
  intros Hs Hsh Es. unfold dyadic_cut. set (x := e + unit_shift f) in *.
  destruct (Z.le_gt_cases 0 x) as [Hx|Hx].
  - rewrite (Z.max_r 0 x), (Z.max_l 0 (- x)) by lia. change (2 ^ 0) with 1.
    rewrite <- (ratio_cut_scale 1 _ _ _) by lia. unfold ratio_cut. subst s. rewrite Z.pow_add_r by lia.
    replace (2 * (1 * (m * 2 ^ x))) with (2 ^ x * (2 * m)) by lia.
    replace (k * (2 ^ x * 2 ^ shift) * (1 * 1)) with (2 ^ x * (k * 2 ^ shift)) by lia.
    pose proof (pow2_pos x Hx). destruct (Z.compare_spec (2 * m) (k * 2 ^ shift)) as [->| |];
      [apply Z.compare_refl|apply Z.compare_lt_iff; nia|apply Z.compare_gt_iff; nia].
  - rewrite (Z.max_l 0 x), (Z.max_r 0 (- x)) by lia. unfold ratio_cut. f_equal; [change (2 ^ 0) with 1; lia|].
    rewrite <- Z.mul_assoc, <- Z.pow_add_r by lia. do 2 f_equal. lia.
Qed.

Lemma dyadic_cut_left f m e k s shift : 0 <= s -> 0 <= shift -> s = e + unit_shift f - shift ->
  dyadic_cut f m e (k * 2 ^ s) = (2 * (m * 2 ^ shift) ?= k).
Proof.
  intros Hs Hsh Es. unfold dyadic_cut. set (x := e + unit_shift f) in *.
  rewrite (Z.max_r 0 x), (Z.max_l 0 (- x)) by lia. change (2 ^ 0) with 1. unfold ratio_cut.
  replace x with (s + shift) by lia. rewrite Z.pow_add_r by lia. pose proof (pow2_pos s Hs).
  replace (2 * (m * (2 ^ s * 2 ^ shift))) with (2 ^ s * (2 * (m * 2 ^ shift))) by lia.
  replace (k * 2 ^ s * 1) with (2 ^ s * k) by lia.
  destruct (Z.compare_spec (2 * (m * 2 ^ shift)) k) as [->| |];
    [apply Z.compare_refl|apply Z.compare_lt_iff; nia|apply Z.compare_gt_iff; nia].
Qed.

(** ** Rounding at a known quotient *)

Section Round.
Context (f : BinaryFormat) (Hf : format_ok f).

(** Only the boundaries matter. *)
Lemma rounded_ext mode negative c c' b :
  (forall h, boundary f h -> c h = c' h) -> rounded f mode negative c b -> rounded f mode negative c' b.
Proof.
  intros Hcc (b0 & Hb & Hlo & Hhi & ->). exists b0.
  rewrite <- !Hcc by (constructor; lia). done.
Qed.

Lemma correctly_rounded_ext control negative c c' st bits st' :
  (forall h, boundary f h -> c h = c' h) ->
  correctly_rounded f control negative c st bits st' -> correctly_rounded f control negative c' st bits st'.
Proof.
  intros Hcc (b & Hr & -> & ->). exists b. split; [by eapply rounded_ext|]. split; [done|].
  assert (0 <= b) as Hb. { destruct Hr as (b0 & Hb & _ & _ & ->). destruct (c _); [lia|..]; destruct (round_up _ _ _ _); simpl; lia. }
  pose proof (infinity_bounds f Hf).
  unfold rounding_status, rounds_inexactly, overflows, is_tiny.
  assert (boundary f (2 * 2 ^ fraction_bits f)) as Hm.
  { rewrite <- (Z.mul_1_r (2 ^ fraction_bits f)). change 1 with (2 ^ 0). rewrite <- (units_at f Hf 0).
    - constructor. pose proof (fraction_pow_pos f Hf). lia.
    - done.
    - rewrite fraction_pow_succ by done. pose proof (fraction_pow_pos f Hf). lia.
    - by left. }
  by rewrite !Hcc by (done || (constructor; lia)).
Qed.

Context (c : cut) (Hc : is_cut c) (s m : Z) (Hn : normal_form f s m).
Abbreviation b0 := (s * 2 ^ fraction_bits f + m).
Context (Hlo : c (2 * (m * 2 ^ s)) <> Lt) (Hhi : c (2 * ((m + 1) * 2 ^ s)) = Lt).

Definition rounds_to (mode : FpRoundingMode) (negative : bool) : bool :=
  match c (2 * (m * 2 ^ s)) with
  | Eq => false
  | _ => round_up mode negative (c ((2 * m + 1) * 2 ^ s)) (Z.odd m)
  end.

Lemma pattern_nonneg : 0 <= b0.
Proof. destruct Hn as (? & ? & _). pose proof (fraction_pow_pos f Hf). nia. Qed.

Lemma rounded_core mode negative :
  b0 < infinity f -> rounded f mode negative c (b0 + Z.b2z (rounds_to mode negative)).
Proof.
  intros Hb. pose proof pattern_nonneg. exists b0. rewrite (units_pattern f Hf), (units_next f Hf) by done.
  split; [lia|]. split; [done|]. split; [by left|]. unfold rounds_to.
  replace (m * 2 ^ s + (m + 1) * 2 ^ s) with ((2 * m + 1) * 2 ^ s) by lia. rewrite pattern_parity by done.
  destruct (c (2 * (m * 2 ^ s))); simpl; try done; lia.
Qed.

Lemma rounds_to_inexact mode negative : rounds_to mode negative = true -> c (2 * (m * 2 ^ s)) = Gt.
Proof. unfold rounds_to. by destruct (c (2 * (m * 2 ^ s))). Qed.

Lemma core_no_overflow : b0 < infinity f -> c (2 * units f (infinity f)) = Lt.
Proof.
  intros Hb. pose proof pattern_nonneg. eapply (cut_below c); [done| |apply Hhi].
  rewrite <- (units_next f Hf) by done. pose proof (units_le f Hf (b0 + 1) (infinity f)).
  pose proof (units_nonneg f Hf (b0 + 1)). lia.
Qed.

Lemma core_overflows mode negative :
  b0 < infinity f ->
  overflows f c (b0 + Z.b2z (rounds_to mode negative)) = (b0 + Z.b2z (rounds_to mode negative) =? infinity f).
Proof. intros Hb. unfold overflows. by rewrite core_no_overflow. Qed.

Lemma core_inexact mode negative :
  b0 < infinity f ->
  rounds_inexactly f c (b0 + Z.b2z (rounds_to mode negative)) = not_eq (c (2 * (m * 2 ^ s))).
Proof.
  intros Hb. unfold rounds_inexactly. rewrite core_overflows by done.
  destruct (rounds_to mode negative) eqn:Eup; simpl Z.b2z.
  - rewrite (rounds_to_inexact _ _ Eup), (units_next f Hf), Hhi by done. apply orb_true_r.
  - rewrite Z.add_0_r, (units_pattern f Hf) by done. destruct (Z.eqb_spec b0 (infinity f)); [lia|done].
Qed.

Lemma core_tiny : is_tiny f c = (m <? 2 ^ fraction_bits f) && (s =? 0).
Proof.
  unfold is_tiny. destruct Hn as (Hs & Hm & Hsm). pose proof (fraction_pow_pos f Hf).
  destruct (Z.ltb_spec m (2 ^ fraction_bits f)) as [Hlt|Hge]; simpl.
  - destruct Hsm as [->|]; [|lia]. rewrite (cut_below c (2 * ((m + 1) * 2 ^ 0))); [done..| |done].
    change (2 ^ 0) with 1. lia.
  - assert (c (2 * 2 ^ fraction_bits f) <> Lt) as Hne.
    { apply (cut_not_lt c _ (2 * (m * 2 ^ s))); [done| |done]. pose proof (pow2_pos s Hs). nia. }
    by destruct (c (2 * 2 ^ fraction_bits f)).
Qed.
End Round.

Lemma infinity_pred_odd f : format_ok f -> Z.odd (infinity f - 1) = true.
Proof.
  intros Hf. pose proof (format_dims f Hf). unfold infinity. rewrite Z.odd_sub, Z.odd_mul.
  replace (fraction_bits f) with (fraction_bits f - 1 + 1) by lia. rewrite Z.pow_add_r, Z.odd_mul by lia.
  change (Z.odd (2 ^ 1)) with false. by rewrite !andb_false_r.
Qed.

(** Beyond the largest finite value the direction decides. *)
Lemma rounded_overflow f mode negative c :
  format_ok f -> is_cut c -> c (2 * units f (infinity f)) <> Lt ->
  rounded f mode negative c (infinity f - 1 + Z.b2z (round_up mode negative Gt true)).
Proof.
  intros Hf Hc Hinf. pose proof (infinity_bounds f Hf). exists (infinity f - 1).
  replace (infinity f - 1 + 1) with (infinity f) by lia.
  pose proof (units_lt f Hf (infinity f - 1) (infinity f)). pose proof (units_nonneg f Hf (infinity f - 1)).
  rewrite (cut_above c (2 * units f (infinity f - 1)) (2 * units f (infinity f))) by (done || lia).
  rewrite (cut_above c (units f (infinity f - 1) + units f (infinity f)) (2 * units f (infinity f))) by (done || lia).
  split; [lia|]. split; [done|]. split; [by right|]. rewrite infinity_pred_odd by done. done.
Qed.

(** ** What the specification says

    It determines the result, and the result is optimal among the finite
    patterns: nothing representable is closer (to nearest), or nothing
    representable lies between (directed). *)

Lemma rounded_unique f mode negative c b b' : format_ok f -> is_cut c ->
  rounded f mode negative c b -> rounded f mode negative c b' -> b = b'.
Proof.
  intros Hf Hc (x & Hx & Hlo & Hhi & Hb) (y & Hy & Hlo' & Hhi' & Hb').
  assert (forall u v, 0 <= u < infinity f -> 0 <= v < infinity f -> c (2 * units f v) <> Lt ->
    (c (2 * units f (u + 1)) = Lt \/ u + 1 = infinity f) -> v <= u) as Hle.
  { intros u v Hu Hv Hnl [Hl|Hl]; [|lia]. destruct (Z.le_gt_cases v u); [done|]. destruct Hnl.
    apply (cut_below c (2 * units f (u + 1))); [done| |done].
    pose proof (units_nonneg f Hf (u + 1)). pose proof (units_le f Hf (u + 1) v). lia. }
  assert (x = y) as -> by (apply Z.le_antisymm; apply Hle; done). by rewrite Hb, Hb'.
Qed.

Lemma correctly_rounded_unique f control negative c st bits st1 bits' st2 : format_ok f -> is_cut c ->
  correctly_rounded f control negative c st bits st1 -> correctly_rounded f control negative c st bits' st2 ->
  bits = bits' /\ st1 = st2.
Proof.
  intros Hf Hc (b & Hr & -> & ->) (b' & Hr' & -> & ->). by rewrite (rounded_unique f _ _ c b b' Hf Hc Hr Hr').
Qed.

(** An exact value rounds to its own pattern. *)
Lemma rounded_exact f mode negative c b : format_ok f -> is_cut c -> 0 <= b < infinity f ->
  c (2 * units f b) = Eq -> rounded f mode negative c b.
Proof.
  intros Hf Hc Hb E. exists b. rewrite E. split; [done|]. split; [done|]. split; [|done]. left.
  apply (Hc (2 * units f b)); [|by rewrite E]. pose proof (units_lt f Hf b (b + 1)). pose proof (units_nonneg f Hf b). lia.
Qed.

Section Optimal.
Context (f : BinaryFormat) (Hf : format_ok f) (c : cut) (Hc : is_cut c) (negative : bool).

(** To nearest: the midpoint between the result and any other finite pattern is
    on the other pattern's side. *)
Lemma rounded_nearest b b' : rounded f TiesToEven negative c b -> b < infinity f -> 0 <= b' < infinity f ->
  (b < b' -> c (units f b + units f b') <> Gt) /\ (b' < b -> c (units f b' + units f b) <> Lt).
Proof.
  intros (x & Hx & Hlo & Hhi & Hb) Hfin Hb'. pose proof (units_nonneg f Hf x ltac:(lia)).
  pose proof (units_lt f Hf x (x + 1) ltac:(lia)).
  assert (forall h h', 0 <= h <= h' -> c h <> Gt -> c h' <> Gt) as Hup.
  { intros h h' Hh Hn. destruct (Z.eq_dec h h') as [->|]; [done|]. rewrite (Hc h h'); [done|lia|done]. }
  assert (x < b' -> c (units f x + units f (x + 1)) <> Gt -> c (units f x + units f b') <> Gt) as Habove.
  { intros Hlt. apply Hup. pose proof (units_le f Hf (x + 1) b'). lia. }
  assert (b' < x + 1 -> c (units f x + units f (x + 1)) <> Lt -> c (units f b' + units f (x + 1)) <> Lt) as Hbelow.
  { intros Hlt. apply cut_not_lt; [done|]. pose proof (units_le f Hf b' x). pose proof (units_nonneg f Hf b'). lia. }
  assert (b' < x -> c (units f b' + units f x) <> Lt) as Hlow.
  { intros Hlt. apply (cut_not_lt c _ (2 * units f x)); [done| |done].
    pose proof (units_le f Hf b' x). pose proof (units_nonneg f Hf b'). lia. }
  assert (x + 1 < infinity f -> x + 1 < b' -> c (units f (x + 1) + units f b') <> Gt) as Hhigh.
  { intros Hlt Hlt'. destruct Hhi as [Hhi|]; [|lia]. apply (Hup (2 * units f (x + 1))); [|by rewrite Hhi].
    pose proof (units_le f Hf (x + 1) b'). lia. }
  destruct (c (2 * units f x)) eqn:Ex; [| done|].
  - subst b. split; intros Hlt; [|by apply Hlow]. apply (Hup (2 * units f x)); [|by rewrite Ex].
    pose proof (units_le f Hf x b'). lia.
  - cbn [round_up] in Hb. destruct (c (units f x + units f (x + 1))) eqn:Em; [destruct (Z.odd x)|..];
      simpl Z.b2z in Hb; rewrite ?Z.add_0_r in Hb; subst b; (split; intros Hlt);
      first [by apply Hlow|by apply Habove|by apply Hbelow|apply Hhigh; lia].
Qed.

(** Toward zero: the largest finite pattern not above the exact value. *)
Lemma rounded_toward_zero b b' : rounded f TowardZero negative c b -> 0 <= b' < infinity f ->
  c (2 * units f b) <> Lt /\ (c (2 * units f b') <> Lt -> b' <= b).
Proof.
  intros (x & Hx & Hlo & Hhi & Hb) Hb'. assert (b = x) as -> by (rewrite Hb; destruct (c _); simpl; lia).
  split; [done|]. intros Hn. destruct Hhi as [Hhi|]; [|lia]. destruct (Z.le_gt_cases b' x); [done|].
  destruct Hn. apply (cut_below c (2 * units f (x + 1))); [done| |done].
  pose proof (units_nonneg f Hf (x + 1)). pose proof (units_le f Hf (x + 1) b'). lia.
Qed.

(** Away from zero, in the two directed modes: the smallest pattern not below. *)
Lemma rounded_away mode b b' : mode = (if negative then TowardNegative else TowardPositive) ->
  rounded f mode negative c b -> b < infinity f -> 0 <= b' < infinity f ->
  c (2 * units f b) <> Gt /\ (c (2 * units f b') <> Gt -> b <= b').
Proof.
  intros Hmode (x & Hx & Hlo & Hhi & Hb) Hfin Hb'.
  assert (round_up mode negative (c (units f x + units f (x + 1))) (Z.odd x) = true) as Eu by (rewrite Hmode; by destruct negative).
  rewrite Eu in Hb. destruct (c (2 * units f x)) eqn:Ex; [|done|]; simpl Z.b2z in Hb; subst b.
  - rewrite Ex. split; [done|]. intros Hn. destruct (Z.le_gt_cases x b'); [done|].
    destruct Hn. apply (cut_above c _ (2 * units f x)); [done| |by rewrite Ex].
    pose proof (units_nonneg f Hf b'). pose proof (units_lt f Hf b' x). lia.
  - destruct Hhi as [->|]; [|lia]. split; [done|]. intros Hn. destruct (Z.le_gt_cases (x + 1) b'); [done|].
    destruct Hn. destruct (Z.eq_dec b' x) as [->|]; [done|].
    apply (cut_above c _ (2 * units f x)); [done| |by rewrite Ex].
    pose proof (units_nonneg f Hf b'). pose proof (units_lt f Hf b' x). lia.
Qed.
End Optimal.
