(* ===== verification/FloatPack.v ===== *)
(** * Packing is correct rounding

    [should_round], [overflow_result], the two packing branches and
    [pack_float_sum] against the specification of FloatRound, and the argument
    for sticky bits: replacing what was shifted out by one odd low bit does not
    change how the value rounds. *)

From Stdlib Require Import ZArith Lia Bool.
From stdpp Require Import base numbers list option.
From S2P Require Import Prelude RustInt FloatFormat FloatOps FloatRound.
Local Open Scope Z_scope.

(** The modes [FPCR] can select. *)
Definition fpcr_mode (mode : FpRoundingMode) : Prop := mode <> TiesAway /\ mode <> ToOdd.

Lemma fpcr_rounding_mode_ok fpcr : fpcr_mode (rounding (from_fpcr fpcr)).
Proof. unfold from_fpcr, fpcr_rounding_mode. cbn [rounding]. split; repeat case_match; done. Qed.

#[export] Hint Resolve fpcr_rounding_mode_ok : core.

(** A status whose rounding flags are not raised yet. *)
Definition unrounded (st : FpStatus) : Prop :=
  overflow st = false /\ underflow st = false /\ inexact st = false.

Lemma land_1_odd x : negb (Z.land x 1 =? 0) = Z.odd x.
Proof.
  change 1 with (Z.ones 1). rewrite Z.land_ones by lia. change (2 ^ 1) with 2.
  rewrite Zmod_odd. by destruct (Z.odd x).
Qed.

Lemma should_round_spec retained remainder denominator negative mode :
  fpcr_mode mode -> 0 <= remainder < 2 ^ 127 ->
  should_round retained remainder denominator negative mode =
  Ok (if remainder =? 0 then false
      else round_up mode negative (2 * remainder ?= denominator) (Z.odd retained)).
Proof.
  intros [Ha Ho] Hr. unfold should_round. destruct (Z.eqb_spec remainder 0); [done|].
  destruct mode; try done. rewrite shl_w_small; [|lia|].
  - rewrite land_1_odd. change (2 ^ 1) with 2. rewrite (Z.mul_comm remainder). f_equal. simpl.
    destruct (Z.compare_spec (2 * remainder) denominator) as [->| |].
    + by rewrite Z.ltb_irrefl, Z.eqb_refl.
    + rewrite (proj2 (Z.ltb_ge denominator (2 * remainder))) by lia.
      by rewrite (proj2 (Z.eqb_neq (2 * remainder) denominator)) by lia.
    + by rewrite (proj2 (Z.ltb_lt denominator (2 * remainder))) by lia.
  - change (2 ^ 1) with 2. change (2 ^ 127) with 170141183460469231731687303715884105728 in Hr.
    unfold fits. change (2 ^ 128) with 340282366920938463463374607431768211456. lia.
Qed.

Section Patterns.
Context (f : BinaryFormat) (Hf : format_ok f).

Lemma sign_bits_value negative : sign_bits_of negative f = Z.b2z negative * 2 ^ (total_bits f - 1).
Proof.
  pose proof (format_dims f Hf). unfold sign_bits_of. apply shl_w_small; [lia|].
  destruct negative; simpl Z.b2z; [|unfold fits; lia].
  pose proof (pow2_lt (total_bits f - 1) 64). pose proof (pow2_pos (total_bits f - 1)). unfold fits. lia.
Qed.

Lemma sign_bits_zero negative : (sign_bits_of negative f =? 0) = negb negative.
Proof.
  rewrite sign_bits_value. pose proof (format_dims f Hf). pose proof (pow2_pos (total_bits f - 1)).
  destruct negative; simpl Z.b2z; [|done]. apply Z.eqb_neq. lia.
Qed.

Lemma lor_sign_bits negative b : 0 <= b < 2 ^ (total_bits f - 1) ->
  Z.lor (sign_bits_of negative f) b = Z.b2z negative * 2 ^ (total_bits f - 1) + b.
Proof.
  intros Hb. pose proof (format_dims f Hf). rewrite sign_bits_value, Z.lor_comm.
  rewrite <- Z.shiftl_mul_pow2 by lia. rewrite <- add_high by (done || lia).
  rewrite Z.shiftl_mul_pow2 by lia. lia.
Qed.

(** An exponent field and a significand with its leading bit, assembled. *)
Lemma assemble_pattern negative e m :
  0 < e < 2 ^ exponent_bits f - 1 -> 2 ^ fraction_bits f <= m < 2 ^ (fraction_bits f + 1) ->
  Z.lor (Z.lor (sign_bits_of negative f) (shl_w 64 (wrap 64 e) (fraction_bits f))) (Z.land m (fraction_mask f)) =
  Z.b2z negative * 2 ^ (total_bits f - 1) + ((e - 1) * 2 ^ fraction_bits f + m).
Proof.
  intros He Hm. pose proof (format_dims f Hf) as (? & ? & Ht & ?). pose proof (infinity_bounds f Hf) as Hi.
  rewrite fraction_pow_succ in Hm by done. unfold infinity in Hi. pose proof (fraction_pow_pos f Hf).
  pose proof (pow2_lt (total_bits f - 1) 64). rewrite (wrap_small 64 e); [|unfold fits; nia].
  rewrite shl_w_small; [|lia|unfold fits; nia].
  rewrite fraction_mask_ones, Z.land_ones by (done || lia).
  replace (m mod 2 ^ fraction_bits f) with (m - 2 ^ fraction_bits f) by (apply (Z.mod_unique_pos m _ 1); lia).
  rewrite <- Z.lor_assoc. replace (Z.lor (e * 2 ^ fraction_bits f) (m - 2 ^ fraction_bits f))
    with ((e - 1) * 2 ^ fraction_bits f + m).
  - apply lor_sign_bits. nia.
  - pose proof (add_high (fraction_bits f) (m - 2 ^ fraction_bits f) e ltac:(lia) ltac:(unfold fits; lia)) as Ha.
    rewrite Z.shiftl_mul_pow2 in Ha by lia. rewrite Z.lor_comm, <- Ha. lia.
Qed.

Lemma overflow_result_spec negative mode : fpcr_mode mode ->
  overflow_result (sign_bits_of negative f) f mode =
  Ok (Z.b2z negative * 2 ^ (total_bits f - 1) + (infinity f - 1 + Z.b2z (round_up mode negative Gt true))).
Proof.
  intros [Ha Ho]. pose proof (infinity_bounds f Hf) as Hi. pose proof (format_dims f Hf) as (? & ? & Ht & ?).
  unfold overflow_result. rewrite exponent_mask_infinity, lor_sign_bits by (done || lia).
  assert (Z.lor (Z.lor (sign_bits_of negative f) (shl_w 64 (exponent_max f - 1) (fraction_bits f))) (fraction_mask f) =
    Z.b2z negative * 2 ^ (total_bits f - 1) + (infinity f - 1)) as ->.
  { rewrite exponent_max_pow by done. pose proof (fraction_pow_pos f Hf).
    assert (1 < 2 ^ exponent_bits f - 1) by (pose proof (pow2_le 8 (exponent_bits f)); lia).
    rewrite <- (wrap_small 64 (2 ^ exponent_bits f - 1 - 1)).
    2:{ pose proof (pow2_lt (exponent_bits f) 64). unfold fits. lia. }
    replace (fraction_mask f) with (Z.land (2 ^ (fraction_bits f + 1) - 1) (fraction_mask f)) at 1.
    - rewrite assemble_pattern; [|lia|rewrite fraction_pow_succ by done; lia].
      unfold infinity. rewrite fraction_pow_succ by done. lia.
    - rewrite fraction_mask_ones by done. replace (2 ^ (fraction_bits f + 1) - 1) with (Z.ones (fraction_bits f + 1))
        by (rewrite Z.ones_equiv; lia).
      zbits. }
  rewrite sign_bits_zero. destruct mode, negative; try done; simpl; f_equal; lia.
Qed.
End Patterns.

(** What a quotient [q] with remainder [rem] over [den] says of an exact value,
    taking [2 ^ s] units as one. *)
Definition quotient (c : cut) (s q rem den : Z) : Prop :=
  0 <= rem < 2 ^ 127 /\
  c (2 * (q * 2 ^ s)) = (if rem =? 0 then Eq else Gt) /\
  c (2 * ((q + 1) * 2 ^ s)) = Lt /\
  (rem <> 0 -> c ((2 * q + 1) * 2 ^ s) = (2 * rem ?= den)).

Lemma round_up_overflow mode negative half odd :
  fpcr_mode mode -> round_up mode negative half odd = true -> round_up mode negative Gt true = true.
Proof. intros [? ?]. by destruct mode, half, odd. Qed.

Section Pack.
Context (f : BinaryFormat) (Hf : format_ok f) (control : FpControl) (Hmode : fpcr_mode (rounding control)).
Context (negative : bool) (st : FpStatus) (Hst : unrounded st) (c : cut) (Hc : is_cut c).

Lemma quotient_rounds s q rem den : quotient c s q rem den ->
  should_round q rem den negative (rounding control) = Ok (rounds_to c s q (rounding control) negative) /\
  c (2 * (q * 2 ^ s)) <> Lt /\ not_eq (c (2 * (q * 2 ^ s))) = negb (rem =? 0).
Proof.
  intros (Hr & Hlo & Hhi & Hmid). rewrite should_round_spec by done. unfold rounds_to. rewrite Hlo.
  destruct (Z.eqb_spec rem 0); [done|]. by rewrite Hmid.
Qed.

Lemma status_exact ov uf ix :
  ov = false -> uf = false -> set_inexact ix st =
  mkStatus (invalid_operation st) (divide_by_zero st) ov uf ix (input_denormal st).
Proof. intros -> ->. unfold set_inexact. destruct Hst as (-> & -> & _). done. Qed.

Lemma status_overflow : set_inexact true (set_overflow true st) =
  mkStatus (invalid_operation st) (divide_by_zero st) true false true (input_denormal st).
Proof. unfold set_inexact, set_overflow. simpl. destruct Hst as (_ & -> & _). done. Qed.

Lemma not_subnormal b : 2 ^ fraction_bits f <= b -> subnormal_pattern f b = false.
Proof. intros. unfold subnormal_pattern. rewrite (proj2 (Z.ltb_ge b _)) by done. apply andb_false_r. Qed.

(** The result when the unbounded result is out of range. *)
Lemma pack_overflow b : rounded f (rounding control) negative c b -> overflows f c b = true ->
  2 ^ fraction_bits f <= b -> is_tiny f c = false ->
  b = infinity f - 1 + Z.b2z (round_up (rounding control) negative Gt true) ->
  exists bits, overflow_result (sign_bits_of negative f) f (rounding control) = Ok bits /\
    correctly_rounded f control negative c st bits (set_inexact true (set_overflow true st)).
Proof.
  intros Hr Ho Hb Ht Eb. rewrite overflow_result_spec by done. eexists. split; [done|]. exists b.
  split; [done|]. rewrite not_subnormal by done. rewrite andb_false_r, Eb. split; [done|].
  rewrite status_overflow. unfold rounding_status, rounds_inexactly. by rewrite <- Eb, Ho, Ht.
Qed.

Lemma units_infinity : units f (infinity f) = 2 ^ fraction_bits f * 2 ^ (2 ^ exponent_bits f - 2).
Proof.
  pose proof (format_dims f Hf). pose proof (pow2_le 8 (exponent_bits f)).
  replace (infinity f) with ((2 ^ exponent_bits f - 2) * 2 ^ fraction_bits f + 2 ^ fraction_bits f) by (unfold infinity; lia).
  apply units_at; [done|lia| |by right]. rewrite fraction_pow_succ by done. pose proof (fraction_pow_pos f Hf). lia.
Qed.

Lemma bias_field : 2 * exponent_bias f = 2 ^ exponent_bits f - 2.
Proof.
  destruct Hf as [_ He _ _ Hb]. rewrite Hb, (pow2_half (exponent_bits f)) by lia. lia.
Qed.

(** *** The normal branch *)

Section Normal.
Context (q rem den exponent : Z) (He : 1 - exponent_bias f <= exponent).
Context (Hq : 2 ^ fraction_bits f <= q < 2 ^ (fraction_bits f + 1)).
Abbreviation s := (exponent + exponent_bias f - 1).
Context (Hquo : quotient c s q rem den).
Abbreviation up := (rounds_to c s q (rounding control) negative).
Abbreviation b := (s * 2 ^ fraction_bits f + q + Z.b2z up).

Lemma normal_quotient : normal_form f s q.
Proof. split; [lia|]. pose proof (fraction_pow_pos f Hf). split; [lia|right; lia]. Qed.

Lemma normal_not_tiny : is_tiny f c = false.
Proof.
  destruct (quotient_rounds _ _ _ _ Hquo) as (_ & Hlo & _). destruct Hquo as (_ & _ & Hhi & _).
  rewrite (core_tiny f Hf c Hc s q normal_quotient Hlo Hhi).
  destruct (Z.ltb_spec q (2 ^ fraction_bits f)); [lia|done].
Qed.

Lemma normal_pattern_ge : 2 ^ fraction_bits f <= b.
Proof. pose proof (fraction_pow_pos f Hf). destruct up; simpl Z.b2z; nia. Qed.

(** The code's branch once the increment is known. *)
Lemma pack_normal_unfold :
  pack_normal q rem den exponent (sign_bits_of negative f) negative f control st =
  let '(significand, rounded_exponent) :=
    if q + Z.b2z up =? 2 ^ (fraction_bits f + 1) then (2 ^ fraction_bits f, exponent + 1)
    else (q + Z.b2z up, exponent) in
  if exponent_bias f <? rounded_exponent then
    bits ← overflow_result (sign_bits_of negative f) f (rounding control);
    Ok (mkLane bits (set_inexact true (set_overflow true st)))
  else
    Ok (mkLane
      (Z.lor (Z.lor (sign_bits_of negative f)
                (shl_w 64 (wrap 64 (rounded_exponent + exponent_bias f)) (fraction_bits f)))
         (Z.land significand (fraction_mask f)))
      (set_inexact (negb (rem =? 0)) st)).
Proof.
  destruct (quotient_rounds _ _ _ _ Hquo) as (Hup & _ & _). unfold pack_normal. rewrite Hup.
  cbn [mbind res_bind]. pose proof (format_dims f Hf). rewrite shl_w_pow2 by lia.
  replace (if up then q + 1 else q) with (q + Z.b2z up) by (destruct up; simpl; lia).
  destruct (Z.eqb_spec (q + Z.b2z up) (2 ^ (fraction_bits f + 1))) as [->|]; [|done].
  rewrite Z.shiftr_div_pow2 by lia. change (2 ^ 1) with 2. rewrite fraction_pow_succ by done.
  rewrite Z.mul_comm, Z.div_mul by lia. done.
Qed.

(** Above the largest exponent. *)
Lemma pack_normal_above : exponent_bias f < exponent ->
  exists bits st', pack_normal q rem den exponent (sign_bits_of negative f) negative f control st =
    Ok (mkLane bits st') /\ correctly_rounded f control negative c st bits st'.
Proof.
  intros Hov. destruct (quotient_rounds _ _ _ _ Hquo) as (_ & Hlo & _). pose proof bias_field as Hbf.
  pose proof (format_dims f Hf). pose proof (pow2_le 8 (exponent_bits f)). pose proof (fraction_pow_pos f Hf).
  assert (c (2 * units f (infinity f)) <> Lt) as Hinf.
  { apply (cut_not_lt c _ (2 * (q * 2 ^ s))); [done| |done]. rewrite units_infinity.
    pose proof (pow2_le (2 ^ exponent_bits f - 2) s). pose proof (pow2_pos (2 ^ exponent_bits f - 2)). nia. }
  destruct (pack_overflow (infinity f - 1 + Z.b2z (round_up (rounding control) negative Gt true)))
    as (bits & Hbits & Hcr); [by apply rounded_overflow| | |apply normal_not_tiny|done|].
  - unfold overflows. by destruct (c (2 * units f (infinity f))).
  - unfold infinity. destruct (round_up (rounding control) negative Gt true); simpl Z.b2z; nia.
  - exists bits, (set_inexact true (set_overflow true st)). split; [|done]. rewrite pack_normal_unfold.
    destruct (q + Z.b2z up =? 2 ^ (fraction_bits f + 1));
      (rewrite (proj2 (Z.ltb_lt (exponent_bias f) _)) by lia); by rewrite Hbits.
Qed.

(** Rounding the largest finite value up. *)
Lemma pack_normal_carry : exponent <= exponent_bias f -> b = infinity f ->
  exists bits st', pack_normal q rem den exponent (sign_bits_of negative f) negative f control st =
    Ok (mkLane bits st') /\ correctly_rounded f control negative c st bits st'.
Proof.
  intros Hin Einf. destruct (quotient_rounds _ _ _ _ Hquo) as (_ & Hlo & _). destruct (Hquo) as (_ & _ & Hhi & _).
  pose proof bias_field as Hbf. pose proof (fraction_pow_pos f Hf). pose proof (fraction_pow_succ f Hf).
  assert (s * 2 ^ fraction_bits f + q < infinity f) as Hb0 by (unfold infinity; nia).
  pose proof (rounded_core f Hf c s q normal_quotient Hlo Hhi (rounding control) negative Hb0) as Hr.
  pose proof (core_overflows f Hf c Hc s q normal_quotient Hhi (rounding control) negative Hb0) as Hov.
  assert (up = true) as Eup by (destruct up; [done|simpl Z.b2z in Einf; lia]).
  rewrite Einf in Hr, Hov. rewrite Eup in Einf. simpl Z.b2z in Einf. unfold infinity in Einf.
  assert (exponent = exponent_bias f /\ q + 1 = 2 ^ (fraction_bits f + 1)) as [Ee Eq1] by nia.
  destruct (pack_overflow (infinity f)) as (bits & Hbits & Hcr);
    [done|by rewrite Hov, Z.eqb_refl| |apply normal_not_tiny| |].
  - unfold infinity. pose proof (pow2_le 8 (exponent_bits f)). pose proof (format_dims f Hf). nia.
  - rewrite (round_up_overflow (rounding control) negative (c ((2 * q + 1) * 2 ^ s)) (Z.odd q)); [simpl; lia|done|].
    revert Eup. unfold rounds_to. by destruct (c (2 * (q * 2 ^ s))).
  - exists bits, (set_inexact true (set_overflow true st)). split; [|done].
    rewrite pack_normal_unfold, Eup. simpl Z.b2z. rewrite Eq1, Z.eqb_refl. cbn iota.
    rewrite (proj2 (Z.ltb_lt (exponent_bias f) _)) by lia. by rewrite Hbits.
Qed.

(** A finite result. *)
Lemma pack_normal_finite : exponent <= exponent_bias f -> b <> infinity f ->
  exists bits st', pack_normal q rem den exponent (sign_bits_of negative f) negative f control st =
    Ok (mkLane bits st') /\ correctly_rounded f control negative c st bits st'.
Proof.
  intros Hin Einf. destruct (quotient_rounds _ _ _ _ Hquo) as (_ & Hlo & Hix). destruct (Hquo) as (_ & _ & Hhi & _).
  pose proof bias_field as Hbf. pose proof (fraction_pow_pos f Hf). pose proof (fraction_pow_succ f Hf).
  assert (s * 2 ^ fraction_bits f + q < infinity f) as Hb0 by (unfold infinity; nia).
  pose proof (rounded_core f Hf c s q normal_quotient Hlo Hhi (rounding control) negative Hb0) as Hr.
  pose proof (core_overflows f Hf c Hc s q normal_quotient Hhi (rounding control) negative Hb0) as Hov.
  pose proof (core_inexact f Hf c Hc s q normal_quotient Hlo Hhi (rounding control) negative Hb0) as Hinx.
  assert (0 <= Z.b2z up <= 1) as Hup by (destruct up; simpl; lia).
  eexists (Z.b2z negative * 2 ^ (total_bits f - 1) + b), (set_inexact (negb (rem =? 0)) st). split.
  - rewrite pack_normal_unfold. destruct (Z.eqb_spec (q + Z.b2z up) (2 ^ (fraction_bits f + 1))) as [E1|E1].
    + rewrite (proj2 (Z.ltb_ge (exponent_bias f) _)) by (unfold infinity in Einf; nia).
      rewrite assemble_pattern by (done || unfold infinity in Einf; nia). do 3 f_equal. nia.
    + rewrite (proj2 (Z.ltb_ge (exponent_bias f) exponent)) by lia.
      rewrite assemble_pattern by (done || lia). do 3 f_equal. nia.
  - exists b. split; [done|]. rewrite (not_subnormal b) by apply normal_pattern_ge. rewrite andb_false_r.
    split; [done|]. unfold rounding_status. rewrite normal_not_tiny, Hinx, Hov, Hix.
    apply status_exact; [|done]. by apply Z.eqb_neq.
Qed.

Lemma pack_normal_spec :
  exists bits st', pack_normal q rem den exponent (sign_bits_of negative f) negative f control st =
    Ok (mkLane bits st') /\ correctly_rounded f control negative c st bits st'.
Proof.
  destruct (Z.lt_ge_cases (exponent_bias f) exponent); [by apply pack_normal_above|].
  destruct (Z.eq_dec b (infinity f)); [by apply pack_normal_carry|by apply pack_normal_finite].
Qed.
End Normal.

(** *** The subnormal branch *)

Lemma pack_subnormal_spec q rem den :
  0 <= q < 2 ^ fraction_bits f -> quotient c 0 q rem den ->
  exists bits st', pack_subnormal q rem den (sign_bits_of negative f) negative f control st =
    Ok (mkLane bits st') /\ correctly_rounded f control negative c st bits st'.
Proof.
  intros Hq Hquo. destruct (quotient_rounds _ _ _ _ Hquo) as (Hup & Hlo & Hix). destruct (Hquo) as (_ & _ & Hhi & _).
  pose proof (fraction_pow_pos f Hf) as Hp. pose proof (fraction_pow_succ f Hf) as Hp1.
  pose proof (format_dims f Hf). pose proof (infinity_bounds f Hf) as Hi.
  assert (2 ^ fraction_bits f < infinity f) as Hlt by (unfold infinity; pose proof (pow2_le 8 (exponent_bits f)); nia).
  assert (normal_form f 0 q) as Hn by (split; [done|split; [lia|by left]]).
  assert (0 * 2 ^ fraction_bits f + q < infinity f) as Hb0 by lia.
  pose proof (rounded_core f Hf c 0 q Hn Hlo Hhi (rounding control) negative Hb0) as Hr.
  pose proof (core_overflows f Hf c Hc 0 q Hn Hhi (rounding control) negative Hb0) as Hov.
  pose proof (core_inexact f Hf c Hc 0 q Hn Hlo Hhi (rounding control) negative Hb0) as Hinx.
  pose proof (core_tiny f Hf c Hc 0 q Hn Hlo Hhi) as Htiny. rewrite (proj2 (Z.ltb_lt q _)) in Htiny by lia.
  set (up := rounds_to c 0 q (rounding control) negative) in *.
  replace (0 * 2 ^ fraction_bits f + q + Z.b2z up) with (q + Z.b2z up) in * by lia.
  assert (0 <= Z.b2z up <= 1) as Hub by (destruct up; simpl; lia).
  rewrite (proj2 (Z.eqb_neq (q + Z.b2z up) (infinity f))) in Hov by lia.
  assert (forall uf, mkStatus (invalid_operation st) (divide_by_zero st) false uf (negb (rem =? 0)) (input_denormal st) =
    set_underflow uf (set_inexact (negb (rem =? 0)) st)) as Hstat.
  { intros uf. unfold set_underflow, set_inexact. simpl. by destruct Hst as (-> & _). }
  unfold pack_subnormal. rewrite Hup. cbn [mbind res_bind]. rewrite shl_w_pow2 by lia.
  replace (if up then q + 1 else q) with (q + Z.b2z up) by (destruct up; simpl; lia).
  unfold correctly_rounded, rounding_status.
  destruct (Z.eqb_spec (q + Z.b2z up) (2 ^ fraction_bits f)) as [E1|E1];
    [|destruct (flush_to_zero control && negb (q + Z.b2z up =? 0)) eqn:Eftz]; eexists _, _;
    (split; [reflexivity|]); exists (q + Z.b2z up); (split; [done|]);
    rewrite ?lor_sign_bits, ?sign_bits_value by (done || lia); rewrite Hinx, Hov, Htiny, Hix; simpl andb.
  - rewrite not_subnormal by lia. rewrite andb_false_r, orb_false_r, E1, Hstat. done.
  - apply andb_prop in Eftz as [-> Enz%negb_true_iff%Z.eqb_neq].
    unfold subnormal_pattern. rewrite (proj2 (Z.ltb_lt 0 _)), (proj2 (Z.ltb_lt _ (2 ^ fraction_bits f))) by lia.
    simpl. rewrite orb_true_r, Z.add_0_r, Hstat. done.
  - assert (flush_to_zero control && subnormal_pattern f (q + Z.b2z up) = false) as ->.
    { unfold subnormal_pattern. destruct (flush_to_zero control); [|done]. simpl in Eftz |- *.
      apply negb_false_iff, Z.eqb_eq in Eftz. by rewrite Eftz. }
    by rewrite orb_false_r, Hstat.
Qed.
End Pack.

(** ** [pack_float_sum] rounds its magnitude correctly *)

Lemma top_bit w x : 0 < x -> w - 1 - leading_zeros w x = Z.log2 x.
Proof. intros. unfold leading_zeros. destruct (Z.eqb_spec x 0); lia. Qed.

(** A dyadic value divided at [2 ^ shift]. *)
Lemma dyadic_quotient_right f m e s shift : 0 < m < 2 ^ 128 -> 0 <= s -> 0 <= shift < 128 ->
  s = e + unit_shift f + shift ->
  quotient (dyadic_cut f m e) s (m / 2 ^ shift) (m mod 2 ^ shift) (2 ^ shift).
Proof.
  intros Hm Hs Hsh Es. pose proof (pow2_pos shift ltac:(lia)) as Hp.
  pose proof (Z.div_mod m (2 ^ shift)) as Hdm. pose proof (Z.mod_pos_bound m (2 ^ shift) Hp) as Hr.
  pose proof (pow2_le shift 127). unfold quotient. rewrite !Z.mul_assoc.
  rewrite !(dyadic_cut_right f m e _ s shift) by (done || lia). split; [lia|]. split; [|split].
  - destruct (Z.eqb_spec (m mod 2 ^ shift) 0); [apply Z.compare_eq_iff|apply Z.compare_gt_iff]; nia.
  - apply Z.compare_lt_iff. nia.
  - intros _. destruct (Z.compare_spec (2 * (m mod 2 ^ shift)) (2 ^ shift));
      [apply Z.compare_eq_iff|apply Z.compare_lt_iff|apply Z.compare_gt_iff]; nia.
Qed.

Lemma dyadic_quotient_left f m e s shift : 0 <= s -> 0 <= shift -> s = e + unit_shift f - shift ->
  quotient (dyadic_cut f m e) s (m * 2 ^ shift) 0 1.
Proof.
  intros Hs Hsh Es. unfold quotient. rewrite !Z.mul_assoc. rewrite !(dyadic_cut_left f m e _ s shift) by done.
  split; [lia|]. split; [apply Z.compare_eq_iff; lia|]. split; [apply Z.compare_lt_iff; lia|done].
Qed.

Lemma dyadic_quotient_far f m e shift : 0 < m < 2 ^ 127 -> 128 <= shift ->
  0 = e + unit_shift f + shift -> quotient (dyadic_cut f m e) 0 0 m (Z.ones 128).
Proof.
  intros Hm Hsh Es. unfold quotient. rewrite !Z.mul_assoc. rewrite !(dyadic_cut_right f m e _ 0 shift) by (done || lia).
  pose proof (pow2_le 128 shift). change (2 ^ 127) with 170141183460469231731687303715884105728 in *.
  change (2 ^ 128) with 340282366920938463463374607431768211456 in *.
  change (Z.ones 128) with 340282366920938463463374607431768211455.
  split; [lia|]. split; [destruct (Z.eqb_spec m 0); [lia|apply Z.compare_gt_iff; lia]|].
  split; [apply Z.compare_lt_iff; lia|]. intros _.
  rewrite (proj2 (Z.compare_lt_iff _ _)) by lia. symmetry. apply Z.compare_lt_iff. lia.
Qed.

(** What [scale_integer_for_pack] returns. *)
Lemma scale_integer_spec f m e s shift : 0 < m < 2 ^ 128 -> 0 <= s -> s = e + unit_shift f + shift ->
  m * 2 ^ Z.max 0 (- shift) < 2 ^ 64 * 2 ^ Z.max 0 shift -> (128 <= shift -> s = 0 /\ m < 2 ^ 127) ->
  exists q rem den, scale_integer_for_pack m shift = (q, rem, den) /\ quotient (dyadic_cut f m e) s q rem den /\
    q * 2 ^ Z.max 0 shift <= m * 2 ^ Z.max 0 (- shift) < (q + 1) * 2 ^ Z.max 0 shift.
Proof.
  intros Hm Hs Es Hb Hfar. unfold scale_integer_for_pack. destruct (Z.leb_spec shift 0) as [Hle|Hgt].
  - rewrite (Z.max_r 0 (- shift)), (Z.max_l 0 shift) in * by lia. change (2 ^ 0) with 1 in *.
    pose proof (pow2_pos (- shift) ltac:(lia)).
    rewrite shl_w_small by (unfold fits; lia || nia). rewrite wrap_small by (unfold fits; nia).
    eexists _, _, _. split; [done|]. split; [apply dyadic_quotient_left; lia|lia].
  - rewrite (Z.max_l 0 (- shift)), (Z.max_r 0 shift) in * by lia. change (2 ^ 0) with 1 in *. rewrite Z.mul_1_r in *.
    pose proof (pow2_pos shift ltac:(lia)) as Hp.
    destruct (Z.ltb_spec shift 128) as [Hlt|Hge].
    + rewrite shl_w_pow2 by lia. rewrite Z.shiftr_div_pow2 by lia.
      rewrite wrap_small by (split; [apply Z.div_pos; lia|apply Z.div_lt_upper_bound; lia]).
      replace (2 ^ shift - 1) with (Z.ones shift) by (rewrite Z.ones_equiv; lia). rewrite Z.land_ones by lia.
      eexists _, _, _. split; [done|]. split; [apply dyadic_quotient_right; lia|].
      pose proof (Z.div_mod m (2 ^ shift)). pose proof (Z.mod_pos_bound m (2 ^ shift) Hp). nia.
    + destruct (Hfar Hge) as [Es0 Hm7]. clear Hfar. subst s.
      eexists _, _, _. split; [done|]. split; [rewrite Es0; apply (dyadic_quotient_far f m e shift); lia|].
      pose proof (pow2_le 128 shift). lia.
Qed.

Lemma pack_float_sum_spec f m e negative control st :
  format_ok f -> fpcr_mode (rounding control) -> unrounded st -> 0 < m < 2 ^ 128 ->
  (m < 2 ^ 127 \/ - unit_shift f - e < 128) ->
  exists bits st', pack_float_sum m e negative f control st = Ok (mkLane bits st') /\
    correctly_rounded f control negative (dyadic_cut f m e) st bits st'.
Proof.
  intros Hf Hmode Hst Hm Hfar. pose proof (format_dims f Hf) as Hdims. pose proof (fraction_pow_pos f Hf).
  unfold pack_float_sum. rewrite (top_bit 128) by lia. pose proof (Z.log2_spec m ltac:(lia)) as Hlog.
  assert (Z.log2 m < 128) by (apply Z.log2_lt_pow2; lia). pose proof (Z.log2_nonneg m).
  rewrite Z.pow_succ_r in Hlog by lia. set (t := Z.log2 m) in *.
  destruct (Z.leb_spec (1 - exponent_bias f) (e + t)) as [Hnorm|Hsub].
  - assert (2 ^ t * 2 ^ Z.max 0 (- (t - fraction_bits f)) = 2 ^ fraction_bits f * 2 ^ Z.max 0 (t - fraction_bits f)) as Hpow.
    { rewrite <- !Z.pow_add_r by lia. f_equal. lia. }
    assert (2 * 2 ^ fraction_bits f <= 2 ^ 64) by (rewrite <- fraction_pow_succ by done; apply pow2_le; lia).
    pose proof (pow2_pos (Z.max 0 (- (t - fraction_bits f))) ltac:(lia)).
    pose proof (pow2_pos (Z.max 0 (t - fraction_bits f)) ltac:(lia)).
    destruct (scale_integer_spec f m e (e + t + exponent_bias f - 1) (t - fraction_bits f))
      as (q & rem & den & -> & Hq & Hb); [done|lia|unfold unit_shift; lia|nia|lia|].
    apply pack_normal_spec; try done. rewrite fraction_pow_succ by done. nia.
  - assert (m * 2 ^ Z.max 0 (- (1 - exponent_bias f - fraction_bits f - e)) <
      2 ^ fraction_bits f * 2 ^ Z.max 0 (1 - exponent_bias f - fraction_bits f - e)) as Hpow.
    { apply Z.lt_le_trans with (2 ^ (t + 1) * 2 ^ Z.max 0 (- (1 - exponent_bias f - fraction_bits f - e))).
      - apply Z.mul_lt_mono_pos_r; [apply pow2_pos; lia|]. rewrite Z.pow_add_r by lia. change (2 ^ 1) with 2. lia.
      - rewrite <- !Z.pow_add_r by lia. apply pow2_le. lia. }
    assert (2 ^ fraction_bits f <= 2 ^ 64) by (apply pow2_le; lia).
    pose proof (pow2_pos (Z.max 0 (1 - exponent_bias f - fraction_bits f - e)) ltac:(lia)).
    destruct (scale_integer_spec f m e 0 (1 - exponent_bias f - fraction_bits f - e))
      as (q & rem & den & -> & Hq & Hb); [done|done|unfold unit_shift; lia|nia|unfold unit_shift in Hfar; lia|].
    assert (0 <= q) by (pose proof (pow2_pos (Z.max 0 (- (1 - exponent_bias f - fraction_bits f - e))) ltac:(lia)); nia).
    apply pack_subnormal_spec; try done. nia.
Qed.
