(* ===== verification/FloatArith.v ===== *)
(** * Multiplication and addition round correctly

    Operands after flushing, sticky shifts, and the theorems for
    [multiply_ieee_lane] and [add_ieee_lane] on finite operands. *)

From Stdlib Require Import ZArith Lia Bool.
From stdpp Require Import base numbers list option.
From S2P Require Import Prelude RustInt FloatFormat FloatOps FloatRound FloatPack.
Local Open Scope Z_scope.

(** ** Cuts of equal values *)

Lemma ratio_cut_eq n d n' d' h : 0 < d -> 0 < d' -> n * d' = n' * d -> ratio_cut n d h = ratio_cut n' d' h.
Proof.
  intros Hd Hd' E. rewrite <- (ratio_cut_scale d' n d) by done. rewrite <- (ratio_cut_scale d n' d') by done.
  unfold ratio_cut. f_equal; lia.
Qed.

(** A dyadic value as a ratio. *)
Lemma dyadic_cut_ratio f m e n d h : 0 < d ->
  n * 2 ^ Z.max 0 (- (e + unit_shift f)) = m * 2 ^ Z.max 0 (e + unit_shift f) * d ->
  dyadic_cut f m e h = ratio_cut n d h.
Proof. intros Hd E. unfold dyadic_cut. apply ratio_cut_eq; [apply pow2_pos; lia|done|lia]. Qed.

(** ** Sticky bits *)

(** An odd low bit stands for a value strictly between its neighbours: every
    boundary compares with both in the same way. *)
Lemma sticky_agrees f m e c h :
  format_ok f -> Z.odd m = true -> 0 < m ->
  (fraction_bits f + 2 <= Z.log2 m \/ e + unit_shift f <= -2) ->
  (forall h, 0 <= h -> h * 2 ^ Z.max 0 (- (e + unit_shift f)) <= 2 * (m - 1) * 2 ^ Z.max 0 (e + unit_shift f) -> c h = Gt) ->
  (forall h, 2 * (m + 1) * 2 ^ Z.max 0 (e + unit_shift f) <= h * 2 ^ Z.max 0 (- (e + unit_shift f)) -> c h = Lt) ->
  boundary f h -> dyadic_cut f m e h = c h.
Proof.
  intros Hf Hodd Hm Hwide Hlo Hhi Hb. unfold dyadic_cut, ratio_cut. set (x := e + unit_shift f) in *.
  pose proof (boundary_nonneg f Hf h Hb) as Hh. pose proof (pow2_pos (Z.max 0 x) ltac:(lia)) as Hp.
  pose proof (pow2_pos (Z.max 0 (- x)) ltac:(lia)) as Hd.
  destruct (Z.le_gt_cases (h * 2 ^ Z.max 0 (- x)) (2 * (m - 1) * 2 ^ Z.max 0 x)) as [Hle|Hgt].
  { rewrite (Hlo h Hh Hle). apply Z.compare_gt_iff. nia. }
  destruct (Z.le_gt_cases (2 * (m + 1) * 2 ^ Z.max 0 x) (h * 2 ^ Z.max 0 (- x))) as [Hge|Hlt].
  { rewrite (Hhi h Hge). apply Z.compare_lt_iff. nia. }
  exfalso. apply Z.odd_spec in Hodd as [k Hk].
  assert ((4 * 2 ^ Z.max 0 x | h * 2 ^ Z.max 0 (- x))) as [j Hj].
  2:{ rewrite Hj in Hgt, Hlt. assert (k < j) by nia. assert (j < k + 1) by nia. lia. }
  destruct (Z.le_gt_cases x (-2)) as [Hx|Hx].
  - rewrite (Z.max_l 0 x), (Z.max_r 0 (- x)) by lia. exists (h * 2 ^ (- x - 2)).
    replace (2 ^ (- x)) with (2 ^ (- x - 2) * 2 ^ 2) by (rewrite <- Z.pow_add_r by lia; f_equal; lia). change (2 ^ 2) with 4. change (2 ^ 0) with 1. lia.
  - destruct Hwide as [Hwide|]; [|lia]. pose proof (format_dims f Hf). set (t := Z.log2 m) in *.
    assert (2 ^ t <= m - 1) as Hm1.
    { pose proof (Z.log2_spec m Hm) as [Hl _]. fold t in Hl. destruct (Z.eq_dec m (2 ^ t)) as [E|]; [|lia].
      replace (2 ^ t) with (2 * 2 ^ (t - 1)) in E by (rewrite <- Z.pow_succ_r by lia; f_equal; lia). lia. }
    assert (2 ^ (t + x + 1) <= h) as Hbig.
    { apply (Z.mul_le_mono_pos_r _ _ (2 ^ Z.max 0 (- x))); [done|]. rewrite <- Z.pow_add_r by lia.
      replace (t + x + 1 + Z.max 0 (- x)) with (t + 1 + Z.max 0 x) by lia. rewrite !Z.pow_add_r by lia.
      change (2 ^ 1) with 2. nia. }
    destruct (boundary_divides f Hf h (t + x) Hb Hbig ltac:(lia)) as [j Hj].
    exists (j * 2 ^ (t - fraction_bits f - 2)). rewrite Hj.
    replace (j * 2 ^ (t + x - fraction_bits f) * 2 ^ Z.max 0 (- x)) with (j * (2 ^ (t + x - fraction_bits f) * 2 ^ Z.max 0 (- x))) by lia.
    rewrite <- Z.pow_add_r by lia. change 4 with (2 ^ 2).
    rewrite <- Z.mul_assoc. f_equal. rewrite <- !Z.pow_add_r by lia. f_equal. lia.
Qed.

(** [shift_right_jam]: exact, or odd and within one of the value. *)
Definition jams (v d j : Z) : Prop :=
  j * 2 ^ d = v \/ (Z.odd j = true /\ (j - 1) * 2 ^ d < v < (j + 1) * 2 ^ d).

Lemma lor_1_odd x : 0 <= x -> Z.lor x 1 = if Z.odd x then x else x + 1.
Proof.
  intros Hx. pose proof (Z.div2_odd x) as E.
  assert (Z.lor x 1 = 2 * Z.div2 x + 1) as ->.
  { pose proof (add_high 1 1 (Z.div2 x) ltac:(lia) ltac:(split; simpl; lia)) as Ha. change (2 ^ 1) with 2 in Ha.
    rewrite Z.mul_comm, Z.add_comm, Ha. apply Z.bits_inj'. intros i Hi. rewrite !Z.lor_spec, Z.shiftl_spec by lia.
    destruct (Z.eq_dec i 0) as [->|]; [by rewrite orb_true_r|].
    rewrite Z.div2_spec, Z.shiftr_spec by lia. replace (i - 1 + 1) with i by lia.
    change 1 with (2 ^ 0). rewrite Z.pow2_bits_false by lia. by rewrite orb_false_r. }
  destruct (Z.odd x); simpl in E; lia.
Qed.

Lemma shift_right_jam_spec v d : 0 <= v < 2 ^ 128 -> 0 <= d -> jams v d (shift_right_jam v d).
Proof.
  intros Hv Hd. unfold shift_right_jam, jams. destruct (Z.eqb_spec d 0) as [->|Hd0].
  { left. change (2 ^ 0) with 1. lia. }
  pose proof (pow2_pos d Hd) as Hp. destruct (Z.ltb_spec d 128) as [Hlt|Hge].
  - rewrite shl_w_pow2 by lia. rewrite Z.shiftr_div_pow2 by lia.
    replace (2 ^ d - 1) with (Z.ones d) by (rewrite Z.ones_equiv; lia). rewrite Z.land_ones by lia.
    pose proof (Z.div_mod v (2 ^ d)). pose proof (Z.mod_pos_bound v (2 ^ d) Hp).
    pose proof (Z.div_pos v (2 ^ d) ltac:(lia) Hp).
    destruct (Z.eqb_spec (v mod 2 ^ d) 0); simpl Z.b2z.
    + left. rewrite Z.lor_0_r. nia.
    + right. rewrite lor_1_odd by done. destruct (Z.odd (v / 2 ^ d)) eqn:Eo.
      * split; [done|nia].
      * split; [by rewrite Z.odd_add, Eo|nia].
  - pose proof (pow2_le 128 d). destruct (Z.eqb_spec v 0) as [->|]; simpl Z.b2z; [left; lia|right]. split; [done|lia].
Qed.

(** ** Operands after flushing *)

Definition sign_of (f : BinaryFormat) (bits : Z) : bool := 2 ^ (total_bits f - 1) <=? bits.

Definition flushes (f : BinaryFormat) (control : FpControl) (bits : Z) : bool :=
  flush_to_zero control && subnormal_pattern f (magnitude f bits).

(** The operand a flush leaves: its signed zero when it is a flushed subnormal. *)
Definition flushed (f : BinaryFormat) (control : FpControl) (bits : Z) : Z :=
  if flushes f control bits then bits - magnitude f bits else bits.

(** The status after flushing a list of operands. *)
Definition flush_status (f : BinaryFormat) (control : FpControl) (operands : list Z) : FpStatus :=
  set_input_denormal (existsb (flushes f control) operands) FpStatus_default.

Definition is_finite (f : BinaryFormat) (bits : Z) : Prop :=
  fits (total_bits f) bits /\ magnitude f bits < infinity f.

(** The magnitude an operation sees, in units. *)
Definition operand_units (f : BinaryFormat) (control : FpControl) (bits : Z) : Z :=
  units f (magnitude f (flushed f control bits)).

Lemma unit_shift_nonneg f : format_ok f -> 0 <= unit_shift f.
Proof.
  intros [Hfr He _ _ Hb]. unfold unit_shift. rewrite Hb. pose proof (pow2_pos (exponent_bits f - 1)). lia.
Qed.

Section Operands.
Context (f : BinaryFormat) (Hf : format_ok f) (control : FpControl).

Lemma magnitude_bounds bits : 0 <= magnitude f bits < 2 ^ (total_bits f - 1).
Proof. apply Z.mod_pos_bound, pow2_pos. pose proof (format_dims f Hf). lia. Qed.

Lemma sign_split bits : fits (total_bits f) bits ->
  bits = Z.b2z (sign_of f bits) * 2 ^ (total_bits f - 1) + magnitude f bits.
Proof.
  intros Hb. pose proof (DecodedFloat_new_spec f bits Hf Hb) as Hd.
  rewrite (decoded_value_bits f Hf bits _ Hd Hb) at 1. by rewrite (dec_sign _ _ _ Hd).
Qed.

Lemma magnitude_signed (s : bool) m : 0 <= m < 2 ^ (total_bits f - 1) ->
  magnitude f (Z.b2z s * 2 ^ (total_bits f - 1) + m) = m /\
  sign_of f (Z.b2z s * 2 ^ (total_bits f - 1) + m) = s /\
  fits (total_bits f) (Z.b2z s * 2 ^ (total_bits f - 1) + m).
Proof.
  intros Hm. pose proof (format_dims f Hf). unfold magnitude, sign_of, fits.
  rewrite (pow2_half (total_bits f)) by lia. rewrite Z.add_comm, Z.mod_add by lia.
  rewrite Z.mod_small by done. split; [done|]. destruct s; simpl Z.b2z.
  - split; [apply Z.leb_le; lia|lia].
  - split; [apply Z.leb_gt; lia|lia].
Qed.

Lemma land_sign bits : fits (total_bits f) bits -> Z.land bits (sign_mask f) = bits - magnitude f bits.
Proof.
  intros Hb. pose proof (format_dims f Hf). rewrite sign_mask_pow by done.
  rewrite (sign_split bits Hb) at 2. replace (Z.b2z (sign_of f bits) * 2 ^ (total_bits f - 1) + magnitude f bits - magnitude f bits)
    with (Z.b2z (sign_of f bits) * 2 ^ (total_bits f - 1)) by lia.
  assert (sign_of f bits = Z.testbit bits (total_bits f - 1)) as ->.
  { unfold sign_of. rewrite fits_testbit_top by (done || lia). by rewrite <- Z.leb_antisym. }
  rewrite <- Z.shiftl_mul_pow2 by lia. apply Z.bits_inj'. intros i Hi.
  rewrite Z.land_spec, Z.shiftl_spec, Z.pow2_bits_eqb by lia.
  destruct (Z.eqb_spec (total_bits f - 1) i) as [<-|Hne].
  - rewrite andb_true_r, Z.sub_diag. by destruct (Z.testbit bits (total_bits f - 1)).
  - rewrite andb_false_r. destruct (Z.lt_ge_cases (i - (total_bits f - 1)) 0); [by rewrite Z.testbit_neg_r|].
    symmetry. apply (testbit_fits 1); [done| |lia]. destruct (Z.testbit bits _); split; simpl; lia.
Qed.

Lemma flushed_spec bits : fits (total_bits f) bits ->
  fits (total_bits f) (flushed f control bits) /\ sign_of f (flushed f control bits) = sign_of f bits /\
  magnitude f (flushed f control bits) = (if flushes f control bits then 0 else magnitude f bits).
Proof.
  intros Hb. unfold flushed. destruct (flushes f control bits); [|done].
  pose proof (sign_split bits Hb). pose proof (format_dims f Hf). pose proof (pow2_pos (total_bits f - 1) ltac:(lia)).
  destruct (magnitude_signed (sign_of f bits) 0) as (Hm & Hs & Hfit); [lia|].
  replace (bits - magnitude f bits) with (Z.b2z (sign_of f bits) * 2 ^ (total_bits f - 1) + 0) by lia. done.
Qed.

Lemma flushed_finite bits : is_finite f bits -> is_finite f (flushed f control bits).
Proof.
  intros [Hb Hi]. destruct (flushed_spec bits Hb) as (? & _ & Hm). split; [done|]. rewrite Hm.
  pose proof (infinity_bounds f Hf). destruct (flushes f control bits); lia.
Qed.

Lemma subnormal_flushes d bits : decodes f bits d ->
  flush_to_zero control && is_subnormal d = flushes f control bits.
Proof. intros Hd. unfold flushes, subnormal_pattern. by rewrite (decoded_subnormal f Hf bits d Hd). Qed.

Lemma flush_operand_spec d bits st : fits (total_bits f) bits -> decodes f bits d ->
  exists d', flush_operand d f control st =
    (d', if flushes f control bits then set_input_denormal true st else st) /\
    decodes f (flushed f control bits) d'.
Proof.
  intros Hb Hd. unfold flush_operand, flushed. rewrite (subnormal_flushes d bits Hd).
  destruct (flushes f control bits) eqn:Ef; [|by eexists]. eexists. split; [done|].
  rewrite (dec_bits _ _ _ Hd), land_sign by done. apply DecodedFloat_new_spec; [done|].
  pose proof (flushed_spec bits Hb) as (Hfl & _). unfold flushed in Hfl. by rewrite Ef in Hfl.
Qed.

Lemma decoded_sign d bits : decodes f bits d -> df_sign d = sign_of f bits.
Proof. apply dec_sign. Qed.

Lemma finite_not_special d bits : decodes f bits d -> magnitude f bits < infinity f ->
  is_nan d f = false /\ is_infinite d f = false.
Proof.
  intros Hd Hi. rewrite (decoded_nan f Hf bits d Hd), (decoded_infinite f Hf bits d Hd).
  split; [apply Z.ltb_ge; lia|apply Z.eqb_neq; lia].
Qed.

Lemma units_zero b : 0 <= b -> (units f b =? 0) = (b =? 0).
Proof.
  intros Hb. assert (units f 0 = 0) as H0.
  { unfold units. pose proof (fraction_pow_pos f Hf). by rewrite Z.div_0_l, Z.mod_0_l by lia. }
  destruct (Z.eqb_spec b 0) as [->|]; [by rewrite H0|]. apply Z.eqb_neq.
  pose proof (units_lt f Hf 0 b). lia.
Qed.

Lemma decoded_zero_units d bits : decodes f bits d -> is_zero d = (units f (magnitude f bits) =? 0).
Proof.
  intros Hd. rewrite (decoded_zero f Hf bits d Hd). symmetry. apply units_zero, magnitude_bounds.
Qed.

(** A finite operand as the arithmetic sees it. *)
Record operand (bits : Z) (d : DecodedFloat) : Prop := {
  op_sign : df_sign d = sign_of f bits;
  op_finite : is_nan d f = false /\ is_infinite d f = false;
  op_zero : is_zero d = (operand_units f control bits =? 0);
  op_units : operand_units f control bits = df_significand d * 2 ^ (df_scale d + unit_shift f);
  op_scale : 0 <= df_scale d + unit_shift f;
  op_significand : 0 <= df_significand d < 2 ^ (fraction_bits f + 1);
  op_normal : df_scale d + unit_shift f = 0 \/ 2 ^ fraction_bits f <= df_significand d;
  op_bits : df_bits d = flushed f control bits;
  op_decodes : decodes f (flushed f control bits) d
}.

Lemma decoded_operand bits d : is_finite f bits -> decodes f (flushed f control bits) d -> operand bits d.
Proof.
  intros Hfin Hd. destruct (flushed_finite bits Hfin) as [Hb Hi]. destruct Hfin as [Hbits _].
  destruct (significand_range f Hf _ d Hd) as [Hs Hnorm]. pose proof (dec_scale _ _ _ Hd) as Hsc.
  pose proof (field_nonneg f Hf _ d Hd). split.
  - rewrite (dec_sign _ _ _ Hd). apply (flushed_spec bits Hbits).
  - by apply (finite_not_special d _ Hd).
  - by apply decoded_zero_units.
  - by apply (decoded_units f Hf).
  - lia.
  - done.
  - destruct (Z.eq_dec (df_exponent_field d) 0) as [E|E]; [left; lia|right; by apply Hnorm].
  - exact (dec_bits _ _ _ Hd).
  - done.
Qed.

(** Operands through the flush loop. *)
Lemma flush_finite bits d0 l : is_finite f bits -> decodes f bits d0 ->
  is_nan d0 f = false /\
  exists d, flush_operand d0 f control (flush_status f control l) =
    (d, flush_status f control (l ++ [bits])) /\ operand bits d.
Proof.
  intros Hfin Hd. split; [by apply (finite_not_special _ _ Hd), Hfin|].
  destruct (flush_operand_spec _ bits (flush_status f control l) (proj1 Hfin) Hd) as (d & -> & Hd'). exists d.
  split; [|by apply decoded_operand]. f_equal. unfold flush_status. rewrite existsb_app. simpl.
  destruct (flushes f control bits); [by rewrite orb_true_r|by rewrite orb_false_r].
Qed.

Lemma finite_decodes bits : is_finite f bits -> decodes f bits (DecodedFloat_new bits f).
Proof. intros Hfin. apply DecodedFloat_new_spec; [done|apply Hfin]. Qed.

Lemma operand_positive bits d : operand bits d -> operand_units f control bits <> 0 ->
  0 < df_significand d.
Proof.
  intros Hop Hne. rewrite (op_units _ _ Hop) in Hne. pose proof (op_significand _ _ Hop).
  destruct (Z.eq_dec (df_significand d) 0) as [E|]; [rewrite E in Hne; lia|lia].
Qed.

Lemma flush_status_unrounded l : unrounded (flush_status f control l).
Proof. done. Qed.
End Operands.

(** ** Results

    The exact value [n / d] units rounded once; an exact zero has the sign the
    operation gives it and raises nothing. *)
Definition rounds_ratio (f : BinaryFormat) (control : FpControl) (zero_sign negative : bool) (n d : Z)
    (st : FpStatus) (bits : Z) (st' : FpStatus) : Prop :=
  if n =? 0 then bits = sign_bits_of zero_sign f /\ st' = st
  else correctly_rounded f control negative (ratio_cut n d) st bits st'.

(** ** Multiplication *)

Lemma multiply_finite fmt f lhs rhs fpcr :
  BinaryFormat_new (E := A64FpSimdError) fmt = Ok f -> format_ok f -> is_finite f lhs -> is_finite f rhs ->
  let control := from_fpcr fpcr in
  let negative := xorb (sign_of f lhs) (sign_of f rhs) in
  exists bits st', multiply_ieee_lane lhs rhs fmt fpcr = Ok (mkLane bits st') /\
    rounds_ratio f control negative negative
      (operand_units f control lhs * operand_units f control rhs) (2 ^ unit_shift f)
      (flush_status f control [lhs; rhs]) bits st'.
Proof.
  intros Hfmt Hf HL HR control negative. pose proof (unit_shift_nonneg f Hf) as HU.
  unfold multiply_ieee_lane. rewrite Hfmt. cbn [mbind res_bind]. fold control.
  change FpStatus_default with (flush_status f control []).
  destruct (flush_finite f Hf control lhs _ [] HL (finite_decodes f Hf lhs HL)) as (-> & l & -> & Hl). cbn [app].
  destruct (flush_finite f Hf control rhs _ [lhs] HR (finite_decodes f Hf rhs HR)) as (-> & r & -> & Hr). cbn [orb app].
  rewrite (proj2 (op_finite _ _ _ _ Hl)), (proj2 (op_finite _ _ _ _ Hr)). cbn [orb andb].
  rewrite (op_sign _ _ _ _ Hl), (op_sign _ _ _ _ Hr), (op_zero _ _ _ _ Hl), (op_zero _ _ _ _ Hr). fold negative.
  unfold rounds_ratio. destruct (Z.eqb_spec (operand_units f control lhs) 0) as [HA|HA];
    [rewrite HA; eexists _, _; split; [reflexivity|done]|].
  destruct (Z.eqb_spec (operand_units f control rhs) 0) as [HB|HB];
    [rewrite HB, Z.mul_0_r; eexists _, _; split; [reflexivity|done]|]. cbn [orb].
  destruct (Z.eqb_spec (operand_units f control lhs * operand_units f control rhs) 0); [nia|].
  assert (0 < df_significand l * df_significand r < 2 ^ 106) as Hm.
  { pose proof (operand_positive _ _ _ _ Hl HA). pose proof (operand_positive _ _ _ _ Hr HB).
    pose proof (op_significand _ _ _ _ Hl). pose proof (op_significand _ _ _ _ Hr).
    pose proof (format_dims f Hf). pose proof (pow2_le (fraction_bits f + 1) 53).
    change (2 ^ 106) with (2 ^ 53 * 2 ^ 53). nia. }
  pose proof (pow2_lt 106 127).
  destruct (pack_float_sum_spec f (df_significand l * df_significand r) (df_scale l + df_scale r) negative control
    (flush_status f control [lhs; rhs])) as (bits & st' & Hpack & Hcr);
    [done|apply fpcr_rounding_mode_ok|done|lia|left; lia|].
  exists bits, st'. split; [done|].
  eapply correctly_rounded_ext; [done| |done]. intros h _.
  apply dyadic_cut_ratio; [apply pow2_pos; lia|].
  rewrite (op_units _ _ _ _ Hl), (op_units _ _ _ _ Hr). pose proof (op_scale _ _ _ _ Hl). pose proof (op_scale _ _ _ _ Hr).
  set (sl := df_scale l) in *. set (sr := df_scale r) in *. set (U := unit_shift f) in *.
  assert (2 ^ (sl + U) * 2 ^ (sr + U) * 2 ^ Z.max 0 (- (sl + sr + U)) = 2 ^ Z.max 0 (sl + sr + U) * 2 ^ U) as Hpow.
  { rewrite <- !Z.pow_add_r by lia. f_equal. lia. }
  transitivity (df_significand l * df_significand r * (2 ^ (sl + U) * 2 ^ (sr + U) * 2 ^ Z.max 0 (- (sl + sr + U))));
    [lia|rewrite Hpow; lia].
Qed.

(** ** Sums of aligned operands *)

Lemma dyadic_cut_rescale f w e d h : 0 <= d ->
  dyadic_cut f w (e - d) h =
  ratio_cut (w * 2 ^ Z.max 0 (e + unit_shift f)) (2 ^ Z.max 0 (- (e + unit_shift f)) * 2 ^ d) h.
Proof.
  intros Hd. unfold dyadic_cut. set (x := e + unit_shift f). replace (e - d + unit_shift f) with (x - d) by (subst x; lia).
  apply ratio_cut_eq; [apply pow2_pos; lia|apply Z.mul_pos_pos; apply pow2_pos; lia|].
  assert (2 ^ Z.max 0 (x - d) * (2 ^ Z.max 0 (- x) * 2 ^ d) = 2 ^ Z.max 0 x * 2 ^ Z.max 0 (- (x - d))) as Hpow.
  { rewrite <- !Z.pow_add_r by lia. f_equal. lia. }
  rewrite <- !Z.mul_assoc, Hpow. lia.
Qed.

Lemma jams_add p v d j : Z.even p = true -> jams v d j -> jams (p * 2 ^ d + v) d (p + j).
Proof.
  intros Hp [E|[Ho Hb]]; [left; nia|right]. split; [|nia].
  rewrite Z.odd_add, Ho, <- Z.negb_even, Hp. done.
Qed.

Lemma jams_sub p v d j : Z.even p = true -> jams v d j -> jams (p * 2 ^ d - v) d (p - j).
Proof.
  intros Hp [E|[Ho Hb]]; [left; nia|right]. split; [|nia].
  rewrite Z.odd_sub, Ho, <- Z.negb_even, Hp. done.
Qed.

Lemma jams_rsub p v d j : Z.even p = true -> jams v d j -> jams (v - p * 2 ^ d) d (j - p).
Proof.
  intros Hp [E|[Ho Hb]]; [left; nia|right]. split; [|nia].
  rewrite Z.odd_sub, Ho, <- (Z.negb_even p), Hp. done.
Qed.

Lemma jams_positive w d m : 0 <= d -> jams w d m -> 0 < m -> 0 < w.
Proof. intros Hd Hj Hm. pose proof (pow2_pos d Hd). destruct Hj as [E|[Ho Hb]]; nia. Qed.

Lemma jams_divides v d j : 0 <= d -> (2 ^ d | v) -> jams v d j -> j * 2 ^ d = v.
Proof.
  intros Hd [k ->] Hj. pose proof (pow2_pos d Hd). destruct Hj as [E|[Ho Hb]]; [done|].
  assert (j - 1 < k) by nia. assert (k < j + 1) by nia. f_equal. lia.
Qed.

(** Packing a jammed magnitude rounds the exact one. *)
Lemma pack_jammed f w d m e negative control st :
  format_ok f -> fpcr_mode (rounding control) -> unrounded st -> 0 < m < 2 ^ 128 ->
  (m < 2 ^ 127 \/ - unit_shift f - e < 128) -> 0 <= d -> jams w d m ->
  (m * 2 ^ d = w \/ fraction_bits f + 2 <= Z.log2 m \/ e + unit_shift f <= -2) ->
  exists bits st', pack_float_sum m e negative f control st = Ok (mkLane bits st') /\
    correctly_rounded f control negative (dyadic_cut f w (e - d)) st bits st'.
Proof.
  intros Hf Hmode Hst Hm Hfar Hd Hj Hwide.
  destruct (pack_float_sum_spec f m e negative control st) as (bits & st' & Hpack & Hcr); try done.
  exists bits, st'. split; [done|]. eapply correctly_rounded_ext; [done| |exact Hcr].
  pose proof (pow2_pos d Hd) as Hp. set (x := e + unit_shift f) in *.
  pose proof (pow2_pos (Z.max 0 x) ltac:(lia)). pose proof (pow2_pos (Z.max 0 (- x)) ltac:(lia)).
  intros h Hh. assert (m * 2 ^ d = w -> dyadic_cut f m e h = dyadic_cut f w (e - d) h) as Hexact.
  { intros <-. rewrite dyadic_cut_rescale by done. unfold dyadic_cut. fold x. apply ratio_cut_eq; [done|nia|].
    rewrite (Z.mul_comm m). lia. }
  destruct Hwide as [E|Hwide]; [by apply Hexact|]. destruct Hj as [E|[Ho Hb]]; [by apply Hexact|].
  apply sticky_agrees; try done; [lia|..]; fold x; intros h' Hh'; [intros Hle|];
    rewrite dyadic_cut_rescale by done; fold x; unfold ratio_cut.
  - apply Z.compare_gt_iff. nia.
  - apply Z.compare_lt_iff. nia.
Qed.

(** The magnitudes [8 * significand] of two operands aligned at the larger scale:
    the smaller one is jammed, and where that loses bits the larger one is normal
    and dominates. *)
Lemma aligned_jam f big small d :
  format_ok f -> 0 <= d -> 0 <= small < 2 ^ (fraction_bits f + 1) ->
  (d = 0 \/ 2 ^ fraction_bits f <= big) ->
  let j := shift_right_jam (8 * small) d in
  jams (8 * small) d j /\ 0 <= j <= 8 * small /\
  (j * 2 ^ d = 8 * small \/ 8 * big - j >= 2 ^ (fraction_bits f + 2)).
Proof.
  intros Hf Hd Hs Hbig j. pose proof (format_dims f Hf). pose proof (pow2_le (fraction_bits f + 1) 53).
  pose proof (fraction_pow_pos f Hf) as Hp. pose proof (fraction_pow_succ f Hf) as Hp1.
  assert (jams (8 * small) d j) as Hj by (apply shift_right_jam_spec; lia).
  pose proof (pow2_pos d Hd) as Hpd. split; [done|].
  assert (0 <= j <= 8 * small) as Hjb.
  { destruct Hj as [E|[Ho Hb]]; [nia|]. destruct (Z.eq_dec d 0) as [->|]; [change (2 ^ 0) with 1 in Hb; lia|].
    pose proof (pow2_le 1 d). change (2 ^ 1) with 2 in *. assert (j <> 0) by (by intros ->). nia. }
  split; [done|].
  destruct (Z.le_gt_cases d 3) as [Hd3|Hd4].
  - left. apply jams_divides; [done| |done]. exists (2 ^ (3 - d) * small). change 8 with (2 ^ 3).
    replace (2 ^ 3) with (2 ^ (3 - d) * 2 ^ d) by (rewrite <- Z.pow_add_r by lia; f_equal; lia). lia.
  - destruct Hbig as [|Hbig]; [lia|]. right.
    replace (2 ^ (fraction_bits f + 2)) with (4 * 2 ^ fraction_bits f) by (rewrite Z.pow_add_r by lia; change (2 ^ 2) with 4; lia).
    pose proof (pow2_le 4 d). change (2 ^ 4) with 16 in *.
    assert (j - 1 < 2 ^ fraction_bits f); [|lia]. destruct Hj as [E|[Ho Hb]]; nia.
Qed.

Lemma log2_wide f m : format_ok f -> 2 ^ (fraction_bits f + 2) <= m -> fraction_bits f + 2 <= Z.log2 m.
Proof.
  intros Hf Hm. pose proof (format_dims f Hf). apply Z.log2_le_pow2; [|done].
  pose proof (pow2_pos (fraction_bits f + 2)). lia.
Qed.

(** One aligned operation: the larger-scale significand [big] with [j] for the
    smaller one, added or subtracted either way. *)
Lemma pack_aligned f big small scale d negative control st m (w : Z) :
  format_ok f -> fpcr_mode (rounding control) -> unrounded st -> 0 <= d ->
  0 <= big < 2 ^ (fraction_bits f + 1) -> 0 <= small < 2 ^ (fraction_bits f + 1) ->
  (d = 0 \/ 2 ^ fraction_bits f <= big) ->
  let j := shift_right_jam (8 * small) d in
  (m = 8 * big + j /\ w = big * 2 ^ d + small \/ m = 8 * big - j /\ w = big * 2 ^ d - small \/
   m = j - 8 * big /\ w = small - big * 2 ^ d) -> 0 < m ->
  0 < w /\ exists bits st', pack_float_sum m (scale - 3) negative f control st = Ok (mkLane bits st') /\
    correctly_rounded f control negative (dyadic_cut f w (scale - d)) st bits st'.
Proof.
  intros Hf Hmode Hst Hd Hb Hs Hbig j Hm Hpos.
  destruct (aligned_jam f big small d Hf Hd Hs Hbig) as (Hj & Hjr & Hwide). fold j in Hj, Hjr, Hwide.
  pose proof (format_dims f Hf). pose proof (pow2_le (fraction_bits f + 1) 53).
  assert (Z.even (8 * big) = true) as He by (rewrite Z.even_mul; done).
  assert (jams (8 * w) d m) as Hjm.
  { destruct Hm as [[-> ->]|[[-> ->]|[-> ->]]].
    - replace (8 * (big * 2 ^ d + small)) with (8 * big * 2 ^ d + 8 * small) by lia. by apply jams_add.
    - replace (8 * (big * 2 ^ d - small)) with (8 * big * 2 ^ d - 8 * small) by lia. by apply jams_sub.
    - replace (8 * (small - big * 2 ^ d)) with (8 * small - 8 * big * 2 ^ d) by lia. by apply jams_rsub. }
  pose proof (jams_positive _ _ _ Hd Hjm Hpos). split; [lia|].
  pose proof (pow2_lt 60 127). change (2 ^ 60) with 1152921504606846976 in *. change (2 ^ 53) with 9007199254740992 in *.
  destruct (pack_jammed f (8 * w) d m (scale - 3) negative control st) as (bits & st' & Hpack & Hcr); try done.
  - pose proof (pow2_lt 127 128). lia.
  - left. lia.
  - destruct Hwide as [E|Hwide]; [left; nia|]. right. left. apply log2_wide; [done|]. lia.
  - exists bits, st'. split; [done|]. eapply correctly_rounded_ext; [done| |done]. intros h _.
    unfold dyadic_cut. set (x := scale - d + unit_shift f).
    replace (scale - 3 - d + unit_shift f) with (x - 3) by (subst x; lia).
    apply ratio_cut_eq; [apply pow2_pos; lia..|].
    assert (8 * (2 ^ Z.max 0 (x - 3) * 2 ^ Z.max 0 (- x)) = 2 ^ Z.max 0 x * 2 ^ Z.max 0 (- (x - 3))) as Hpow.
    { change 8 with (2 ^ 3). rewrite <- !Z.pow_add_r by lia. f_equal. lia. }
    transitivity (w * (8 * (2 ^ Z.max 0 (x - 3) * 2 ^ Z.max 0 (- x)))); [lia|rewrite Hpow; lia].
Qed.

(** ** Addition *)

(** The signed value of an operand, in units. *)
Definition signed_units (f : BinaryFormat) (control : FpControl) (bits : Z) : Z :=
  if sign_of f bits then - operand_units f control bits else operand_units f control bits.

Section AddFinite.
Context (f : BinaryFormat) (Hf : format_ok f) (control : FpControl) (Hmode : fpcr_mode (rounding control)).
Context (lhs rhs : Z) (l r : DecodedFloat).
Context (Hl : operand f control lhs l) (Hr : operand f control rhs r).
Context (st : FpStatus) (Hst : unrounded st).

Abbreviation total := (signed_units f control lhs + signed_units f control rhs).

(** The exact sum of the aligned significands is the sum of the values. *)
Lemma aligned_value w (scale d : Z) h :
  0 <= d -> 0 <= scale - d + unit_shift f -> w * 2 ^ (scale - d + unit_shift f) = Z.abs total ->
  dyadic_cut f w (scale - d) h = ratio_cut (Z.abs total) 1 h.
Proof.
  intros Hd Hx E. apply dyadic_cut_ratio; [done|]. rewrite (Z.max_l 0 (- _)), (Z.max_r 0) by lia.
  change (2 ^ 0) with 1. lia.
Qed.

(** A branch that packs [m] at the larger scale. *)
Lemma add_packs big small scale d (negative : bool) m w :
  0 <= d -> 0 <= scale - d + unit_shift f ->
  0 <= big < 2 ^ (fraction_bits f + 1) -> 0 <= small < 2 ^ (fraction_bits f + 1) ->
  (d = 0 \/ 2 ^ fraction_bits f <= big) ->
  (m = 8 * big + shift_right_jam (8 * small) d /\ w = big * 2 ^ d + small \/
   m = 8 * big - shift_right_jam (8 * small) d /\ w = big * 2 ^ d - small \/
   m = shift_right_jam (8 * small) d - 8 * big /\ w = small - big * 2 ^ d) -> 0 < m ->
  w * 2 ^ (scale - d + unit_shift f) = (if negative then - total else total) ->
  exists bits st', pack_float_sum m (scale - 3) negative f control st = Ok (mkLane bits st') /\
    rounds_ratio f control (bool_decide (rounding control = TowardNegative)) (total <? 0) (Z.abs total) 1 st bits st'.
Proof.
  intros Hd Hx Hb Hs Hn Hm Hpos Ew.
  destruct (pack_aligned f big small scale d negative control st m w) as (Hw & bits & st' & Hpack & Hcr); try done.
  pose proof (pow2_pos _ Hx). exists bits, st'. split; [done|]. unfold rounds_ratio.
  assert (0 < (if negative then - total else total)) as Htot by nia.
  assert (negative = (total <? 0) /\ Z.abs total = (if negative then - total else total)) as [En Ea].
  { destruct negative; [destruct (Z.ltb_spec total 0)|destruct (Z.ltb_spec total 0)]; split; (done || lia). }
  destruct (Z.eqb_spec (Z.abs total) 0); [lia|]. rewrite <- En. eapply correctly_rounded_ext; [done| |done].
  intros h _. apply aligned_value; lia.
Qed.

Lemma jam_zero v : shift_right_jam v 0 = v.
Proof. done. Qed.

Lemma significand_shl d b : operand f control b d -> shl_w 128 (df_significand d) 3 = 8 * df_significand d.
Proof.
  intros Hop. pose proof (op_significand _ _ _ _ Hop). pose proof (format_dims f Hf).
  pose proof (pow2_le (fraction_bits f + 1) 53). change (2 ^ 53) with 9007199254740992 in *.
  rewrite shl_w_small; [change (2 ^ 3) with 8; lia|lia|]. change (2 ^ 3) with 8.
  pose proof (pow2_lt 60 128). change (2 ^ 60) with 1152921504606846976 in *. unfold fits. lia.
Qed.

(** What the three packing branches and the cancelling one compute, for the
    operand [big] of the larger scale. *)
Lemma add_oriented big small (sb ss : bool) scale d :
  0 <= d -> 0 <= scale - d + unit_shift f ->
  0 < big < 2 ^ (fraction_bits f + 1) -> 0 < small < 2 ^ (fraction_bits f + 1) ->
  (d = 0 \/ 2 ^ fraction_bits f <= big) ->
  total = (if sb then -1 else 1) * (big * 2 ^ d * 2 ^ (scale - d + unit_shift f)) +
          (if ss then -1 else 1) * (small * 2 ^ (scale - d + unit_shift f)) ->
  let j := shift_right_jam (8 * small) d in
  let packs m negative := exists bits st', pack_float_sum m (scale - 3) negative f control st = Ok (mkLane bits st') /\
    rounds_ratio f control (bool_decide (rounding control = TowardNegative)) (total <? 0) (Z.abs total) 1 st bits st' in
  (sb = ss -> packs (8 * big + j) sb) /\
  (sb <> ss -> j < 8 * big -> packs (8 * big - j) sb) /\
  (sb <> ss -> 8 * big < j -> packs (j - 8 * big) ss) /\
  (sb <> ss -> 8 * big = j -> total = 0).
Proof.
  intros Hd Hx Hb Hs Hn Et j packs. destruct (aligned_jam f big small d Hf Hd ltac:(lia) Hn) as (Hj & Hjr & _).
  fold j in Hj, Hjr. repeat split.
  - intros <-. apply (add_packs big small scale d sb (8 * big + j) (big * 2 ^ d + small)); try lia.
    destruct sb; lia.
  - intros Hne Hlt. apply (add_packs big small scale d sb (8 * big - j) (big * 2 ^ d - small)); try lia.
    destruct sb, ss; (done || lia).
  - intros Hne Hlt. apply (add_packs big small scale d ss (j - 8 * big) (small - big * 2 ^ d)); try lia.
    destruct sb, ss; (done || lia).
  - intros Hne E. assert (j * 2 ^ d = 8 * small) as Hex.
    { destruct Hj as [?|[Ho _]]; [done|]. rewrite <- E, Z.odd_mul in Ho. done. }
    assert (small = big * 2 ^ d) as -> by nia. destruct sb, ss; (done || lia).
Qed.

Lemma add_finite_spec :
  operand_units f control lhs <> 0 -> operand_units f control rhs <> 0 ->
  exists bits st', add_finite l r f control st = Ok (mkLane bits st') /\
    rounds_ratio f control (bool_decide (rounding control = TowardNegative)) (total <? 0) (Z.abs total) 1 st bits st'.
Proof.
  intros HA HB. pose proof (operand_positive _ _ _ _ Hl HA) as Pl. pose proof (operand_positive _ _ _ _ Hr HB) as Pr.
  pose proof (op_scale _ _ _ _ Hl) as Sl. pose proof (op_scale _ _ _ _ Hr) as Sr.
  pose proof (op_significand _ _ _ _ Hl) as Gl. pose proof (op_significand _ _ _ _ Hr) as Gr.
  pose proof (op_normal _ _ _ _ Hl) as Nl. pose proof (op_normal _ _ _ _ Hr) as Nr.
  unfold add_finite. rewrite (significand_shl l lhs Hl), (significand_shl r rhs Hr).
  rewrite (op_sign _ _ _ _ Hl), (op_sign _ _ _ _ Hr).
  destruct (Z.le_gt_cases (df_scale r) (df_scale l)) as [Hle|Hgt].
  - rewrite (Z.max_l (df_scale l)) by lia. rewrite Z.sub_diag, jam_zero.
    destruct (add_oriented (df_significand l) (df_significand r) (sign_of f lhs) (sign_of f rhs) (df_scale l)
      (df_scale l - df_scale r)) as (Hsame & Hdiff & Hrev & Hcancel); try lia.
    { unfold signed_units. rewrite (op_units _ _ _ _ Hl), (op_units _ _ _ _ Hr).
      rewrite <- (Z.mul_assoc (df_significand l)), <- Z.pow_add_r by lia.
      replace (df_scale l - df_scale r + (df_scale l - (df_scale l - df_scale r) + unit_shift f))
        with (df_scale l + unit_shift f) by lia.
      replace (df_scale l - (df_scale l - df_scale r) + unit_shift f) with (df_scale r + unit_shift f) by lia.
      destruct (sign_of f lhs), (sign_of f rhs); lia. }
    destruct (eqb_spec (sign_of f lhs) (sign_of f rhs)) as [E|E]; [by apply Hsame|].
    repeat match goal with |- context [if ?a <? ?b then _ else _] => destruct (Z.ltb_spec a b) end;
      [by apply Hdiff|by apply Hrev|].
    eexists _, _. split; [reflexivity|]. unfold rounds_ratio. rewrite Hcancel by (done || lia). done.
  - rewrite (Z.max_r (df_scale l)) by lia. rewrite Z.sub_diag, jam_zero.
    destruct (add_oriented (df_significand r) (df_significand l) (sign_of f rhs) (sign_of f lhs) (df_scale r)
      (df_scale r - df_scale l)) as (Hsame & Hdiff & Hrev & Hcancel); try lia.
    { unfold signed_units. rewrite (op_units _ _ _ _ Hl), (op_units _ _ _ _ Hr).
      rewrite <- (Z.mul_assoc (df_significand r)), <- Z.pow_add_r by lia.
      replace (df_scale r - df_scale l + (df_scale r - (df_scale r - df_scale l) + unit_shift f))
        with (df_scale r + unit_shift f) by lia.
      replace (df_scale r - (df_scale r - df_scale l) + unit_shift f) with (df_scale l + unit_shift f) by lia.
      destruct (sign_of f lhs), (sign_of f rhs); lia. }
    destruct (eqb_spec (sign_of f lhs) (sign_of f rhs)) as [E|E]; [rewrite Z.add_comm, E; by apply Hsame|].
    repeat match goal with |- context [if ?a <? ?b then _ else _] => destruct (Z.ltb_spec a b) end;
      [by apply Hrev; [congruence|]|by apply Hdiff; [congruence|]|].
    eexists _, _. split; [reflexivity|]. unfold rounds_ratio. rewrite Hcancel by (congruence || lia). done.
Qed.
End AddFinite.

(** *** Signs flipped for subtraction *)

Definition flip_sign (f : BinaryFormat) (bits : Z) : Z := Z.lxor bits (sign_mask f).

Lemma flip_sign_spec f bits : format_ok f -> fits (total_bits f) bits ->
  fits (total_bits f) (flip_sign f bits) /\ magnitude f (flip_sign f bits) = magnitude f bits /\
  sign_of f (flip_sign f bits) = negb (sign_of f bits).
Proof.
  intros Hf Hb. pose proof (format_dims f Hf). pose proof (magnitude_bounds f Hf bits) as Hm.
  assert (flip_sign f bits = Z.b2z (negb (sign_of f bits)) * 2 ^ (total_bits f - 1) + magnitude f bits) as ->.
  { unfold flip_sign. rewrite sign_mask_pow by done. rewrite (sign_split f Hf bits Hb) at 1.
    rewrite Z.add_comm, add_high by (done || lia). rewrite (Z.add_comm _ (magnitude f bits)), add_high by (done || lia).
    rewrite <- (Z.mul_1_l (2 ^ (total_bits f - 1))), <- Z.shiftl_mul_pow2 by lia.
    apply Z.bits_inj'. intros i Hi. rewrite Z.lxor_spec, !Z.lor_spec, !Z.shiftl_spec by lia.
    destruct (Z.lt_ge_cases i (total_bits f - 1)) as [Hlt|Hge].
    - rewrite !(Z.testbit_neg_r _ (i - (total_bits f - 1))) by lia. by rewrite !orb_false_r, xorb_false_r.
    - rewrite (testbit_fits (total_bits f - 1) (magnitude f bits)) by (done || lia). simpl.
      destruct (Z.eq_dec i (total_bits f - 1)) as [->|].
      + rewrite Z.sub_diag. by destruct (sign_of f bits).
      + rewrite !(testbit_fits 1 _ (i - (total_bits f - 1))); try done; try lia; destruct (sign_of f bits); split; simpl; lia. }
  destruct (magnitude_signed f Hf (negb (sign_of f bits)) (magnitude f bits) Hm) as (? & ? & ?). done.
Qed.

Lemma negate_decodes f bits d : format_ok f -> fits (total_bits f) bits -> decodes f bits d ->
  decodes f (flip_sign f bits) (negate_operand d f).
Proof.
  intros Hf Hb [Hbits Hsign He Hfr Hs Hsc]. destruct (flip_sign_spec f bits Hf Hb) as (_ & Hm & Hsg).
  split; cbn; rewrite ?Hm; try done.
  - by rewrite Hbits.
  - change (negb (df_sign d) = sign_of f (flip_sign f bits)). by rewrite Hsg, Hsign.
Qed.

(** A pattern rounds to itself. *)
Lemma exact_pattern f control (s : bool) b st : format_ok f -> 0 < b < infinity f ->
  flush_to_zero control && subnormal_pattern f b = false -> unrounded st ->
  correctly_rounded f control s (ratio_cut (units f b) 1) st (Z.b2z s * 2 ^ (total_bits f - 1) + b) st.
Proof.
  intros Hf Hb Hs (Ho & Hu & Hi). exists b. pose proof (units_lt f Hf b (b + 1)). pose proof (units_lt f Hf b (infinity f)).
  assert (ratio_cut (units f b) 1 (2 * units f b) = Eq) as Heq by (apply Z.compare_eq_iff; lia).
  assert (ratio_cut (units f b) 1 (2 * units f (infinity f)) = Lt) as Hlt by (apply Z.compare_lt_iff; lia).
  split; [|split].
  - exists b. rewrite Heq. split; [lia|]. split; [done|]. split; [|done]. left. apply Z.compare_lt_iff. lia.
  - by rewrite Hs.
  - unfold rounding_status, rounds_inexactly, overflows. rewrite Hlt, Heq, Hs. simpl.
    rewrite (proj2 (Z.eqb_neq b (infinity f))) by lia. simpl. rewrite andb_false_r. by destruct st; simpl in *; subst.
Qed.

(** An operand that is not zero is its own rounding. *)
Lemma operand_exact f control bits d st :
  format_ok f -> is_finite f bits -> operand f control bits d -> operand_units f control bits <> 0 -> unrounded st ->
  correctly_rounded f control (sign_of f bits) (ratio_cut (operand_units f control bits) 1) st (df_bits d) st.
Proof.
  intros Hf Hfin Hop Hne Hst. destruct (flushed_finite f Hf control bits Hfin) as [Hb Hi].
  destruct (flushed_spec f Hf control bits (proj1 Hfin)) as (_ & Hsg & Hmag).
  rewrite (op_bits _ _ _ _ Hop), (sign_split f Hf _ Hb), Hsg. unfold operand_units in *.
  pose proof (magnitude_bounds f Hf (flushed f control bits)) as Hmb.
  pose proof (units_zero f Hf (magnitude f (flushed f control bits)) ltac:(lia)) as Hz.
  apply exact_pattern; [done| |rewrite Hmag|done].
  - destruct (Z.eqb_spec (magnitude f (flushed f control bits)) 0) as [E|]; [|lia]. apply Z.eqb_eq in Hz. lia.
  - destruct (flushes f control bits) eqn:E; [by destruct (flush_to_zero control)|done].
Qed.

Lemma operand_units_nonneg f control bits : format_ok f -> 0 <= operand_units f control bits.
Proof. intros Hf. apply units_nonneg; [done|]. apply (magnitude_bounds f Hf). Qed.

Lemma rounds_ratio_sign f control z z' negative n d st bits st' :
  n <> 0 \/ z = z' -> rounds_ratio f control z negative n d st bits st' -> rounds_ratio f control z' negative n d st bits st'.
Proof. unfold rounds_ratio. intros [Hn| ->]; [|done]. by destruct (Z.eqb_spec n 0). Qed.

(** Adding zero returns the other operand. *)
Lemma add_zero_exact f control bits zero d st z :
  format_ok f -> is_finite f bits -> operand f control bits d ->
  operand_units f control bits <> 0 -> operand_units f control zero = 0 -> unrounded st ->
  let sum := signed_units f control zero + signed_units f control bits in
  rounds_ratio f control z (sum <? 0) (Z.abs sum) 1 st (df_bits d) st.
Proof.
  intros Hf Hfin Hop Hne Hz Hst sum. pose proof (operand_exact f control bits d st Hf Hfin Hop Hne Hst) as He.
  pose proof (operand_units_nonneg f control bits Hf) as Hpos. unfold rounds_ratio.
  assert (Z.abs sum = operand_units f control bits) as -> by
    (subst sum; unfold signed_units; rewrite Hz; destruct (sign_of f zero), (sign_of f bits); lia).
  rewrite (proj2 (Z.eqb_neq _ _)) by done. replace (sum <? 0) with (sign_of f bits); [done|].
  subst sum. unfold signed_units. rewrite Hz.
  destruct (sign_of f zero), (sign_of f bits); symmetry; (apply Z.ltb_lt; lia) || (apply Z.ltb_ge; lia).
Qed.

(** *** [add_ieee_lane] on finite operands *)

Lemma add_lane_finite fmt f lhs rhs fpcr (subtract : bool) :
  BinaryFormat_new (E := A64FpSimdError) fmt = Ok f -> format_ok f -> is_finite f lhs -> is_finite f rhs ->
  let control := from_fpcr fpcr in
  let rhs' := if subtract then flip_sign f rhs else rhs in
  let sum := signed_units f control lhs + signed_units f control rhs' in
  exists bits st', add_ieee_lane lhs rhs fmt fpcr subtract = Ok (mkLane bits st') /\
    rounds_ratio f control
      (if eqb (sign_of f lhs) (sign_of f rhs') then sign_of f lhs else bool_decide (rounding control = TowardNegative))
      (sum <? 0) (Z.abs sum) 1 (flush_status f control [lhs; rhs']) bits st'.
Proof.
  intros Hfmt Hf HL HR control rhs' sum. unfold add_ieee_lane. rewrite Hfmt. cbn [mbind res_bind]. fold control.
  assert (is_finite f rhs' /\ decodes f rhs' (if subtract then negate_operand (DecodedFloat_new rhs f) f else DecodedFloat_new rhs f)) as [HR' Hd'].
  { destruct HR as [HRb HRi]. pose proof (DecodedFloat_new_spec f rhs Hf HRb) as Hd. subst rhs'. destruct subtract; [|done].
    destruct (flip_sign_spec f rhs Hf HRb) as (? & Hm & _). split; [split; [done|by rewrite Hm]|by apply negate_decodes]. }
  change FpStatus_default with (flush_status f control []).
  destruct (flush_finite f Hf control lhs _ [] HL (finite_decodes f Hf lhs HL)) as (-> & l & -> & Hl). cbn [app].
  destruct (flush_finite f Hf control rhs' _ [lhs] HR' Hd') as (-> & r & -> & Hr). cbn [orb app].
  rewrite (proj2 (op_finite _ _ _ _ Hl)), (proj2 (op_finite _ _ _ _ Hr)). cbn [orb andb].
  rewrite (op_zero _ _ _ _ Hl), (op_zero _ _ _ _ Hr), (op_sign _ _ _ _ Hl), (op_sign _ _ _ _ Hr).
  subst sum. destruct (Z.eqb_spec (operand_units f control lhs) 0) as [HA|HA];
    (destruct (Z.eqb_spec (operand_units f control rhs') 0) as [HB|HB]); cbn [andb].
  - eexists _, _. split; [reflexivity|]. unfold rounds_ratio, signed_units. rewrite HA, HB.
    by destruct (sign_of f lhs), (sign_of f rhs').
  - eexists _, _. split; [reflexivity|]. by apply add_zero_exact.
  - eexists _, _. split; [reflexivity|]. rewrite (Z.add_comm (signed_units f control lhs)). by apply add_zero_exact.
  - destruct (add_finite_spec f Hf control (fpcr_rounding_mode_ok fpcr) lhs rhs' l r Hl Hr
      (flush_status f control [lhs; rhs']) (flush_status_unrounded f control _) HA HB) as (bits & st' & Hadd & Hres).
    exists bits, st'. split; [done|]. eapply rounds_ratio_sign; [|done].
    pose proof (operand_units_nonneg f control lhs Hf). pose proof (operand_units_nonneg f control rhs' Hf).
    unfold signed_units. destruct (sign_of f lhs), (sign_of f rhs'); (by right) || (left; lia).
Qed.
