(* ===== verification/FloatDivide.v ===== *)
(** * Division and square root round correctly

    The integer quotient of [scaled_quotient] and Newton's integer square root,
    and the theorems for [divide_ieee_lane] and
    [exact_scalar_float_square_root]. *)

From Stdlib Require Import ZArith Lia Bool.
From stdpp Require Import base numbers list option.
From S2P Require Import Prelude RustInt FloatFormat FloatOps FloatRound FloatPack FloatArith.
Local Open Scope Z_scope.

(** ** Quotients *)

(** The ratio [g * 2 ^ a / (h * 2 ^ b)] compared at [2 ^ s], once the powers are
    gathered in one shift. *)
Lemma ratio_cut_shift g h a b s shift k : 0 <= a -> 0 <= b -> 0 <= s -> 0 < h -> shift = s + b - a ->
  ratio_cut (g * 2 ^ a) (h * 2 ^ b) (k * 2 ^ s) =
  (2 * (g * 2 ^ Z.max 0 (- shift)) ?= k * (h * 2 ^ Z.max 0 shift)).
Proof.
  intros Ha Hb Hs Hh Es. unfold ratio_cut.
  set (t := Z.min a (s + b)).
  replace (2 * (g * 2 ^ a)) with (2 ^ t * (2 * (g * 2 ^ Z.max 0 (- shift)))).
  2:{ replace a with (t + Z.max 0 (- shift)) by lia. rewrite Z.pow_add_r by lia. lia. }
  replace (k * 2 ^ s * (h * 2 ^ b)) with (2 ^ t * (k * (h * 2 ^ Z.max 0 shift))).
  2:{ replace (k * 2 ^ s * (h * 2 ^ b)) with (k * (h * (2 ^ s * 2 ^ b))) by lia. rewrite <- Z.pow_add_r by lia.
      replace (s + b) with (t + Z.max 0 shift) by lia. rewrite Z.pow_add_r by lia. lia. }
  pose proof (pow2_pos t ltac:(lia)). set (x := 2 * (g * _)). set (y := k * _).
  destruct (Z.compare_spec x y) as [->| |]; [apply Z.compare_refl|apply Z.compare_lt_iff; nia|apply Z.compare_gt_iff; nia].
Qed.

(** A division with remainder is a quotient in the sense of the packing lemmas. *)
Lemma division_quotient c s x y q rem : 0 < y <= 2 ^ 127 -> x = q * y + rem -> 0 <= rem < y ->
  (forall k, c (k * 2 ^ s) = (2 * x ?= k * y)) -> quotient c s q rem y.
Proof.
  intros Hy Ex Hr Hc. unfold quotient. rewrite !Z.mul_assoc, !Hc. split; [lia|]. split; [|split].
  - destruct (Z.eqb_spec rem 0); [apply Z.compare_eq_iff|apply Z.compare_gt_iff]; nia.
  - apply Z.compare_lt_iff. nia.
  - intros _. destruct (Z.compare_spec (2 * rem) y); [apply Z.compare_eq_iff|apply Z.compare_lt_iff|apply Z.compare_gt_iff]; nia.
Qed.

Lemma bit_length w x : 0 < x -> w - leading_zeros w x = Z.log2 x + 1.
Proof. intros. pose proof (top_bit w x). lia. Qed.

(** The assertion of [scaled_quotient], where [scaled_quotient_spec] applies. *)
Lemma scaled_numerator_width g h shift :
  0 < g -> 0 < h < 2 ^ 53 -> shift < 0 -> g * 2 ^ (- shift) < 2 ^ 53 * h ->
  64 - leading_zeros 64 g - shift <= 127.
Proof.
  intros Hg Hh Hs Hlt. rewrite (bit_length 64) by done. pose proof (Z.log2_spec g Hg) as Hl. pose proof (Z.log2_nonneg g).
  destruct (Z.le_gt_cases (Z.log2 g + 1 - shift) 127) as [|Hgt]; [done|exfalso].
  assert (2 ^ 127 <= g * 2 ^ (- shift)) as Hbig.
  { etransitivity; [|apply Z.mul_le_mono_nonneg_r; [apply Z.pow_nonneg; lia|apply Hl]].
    rewrite <- Z.pow_add_r by lia. apply pow2_le. lia. }
  assert (2 ^ 53 * h < 2 ^ 53 * 2 ^ 53) by (apply Z.mul_lt_mono_pos_l; lia).
  change (2 ^ 53 * 2 ^ 53) with (2 ^ 106) in *. pose proof (pow2_lt 106 127 ltac:(lia)). lia.
Qed.

Lemma scaled_quotient_spec g h a b s shift c :
  0 < g < 2 ^ 53 -> 0 < h < 2 ^ 53 -> 0 <= a -> 0 <= b -> 0 <= s -> shift = s + b - a ->
  c = ratio_cut (g * 2 ^ a) (h * 2 ^ b) ->
  g * 2 ^ Z.max 0 (- shift) < 2 ^ 53 * (h * 2 ^ Z.max 0 shift) ->
  exists q rem den, scaled_quotient g h shift = (q, rem, den) /\ quotient c s q rem den /\ 0 <= q /\
    q * (h * 2 ^ Z.max 0 shift) <= g * 2 ^ Z.max 0 (- shift) < (q + 1) * (h * 2 ^ Z.max 0 shift).
Proof.
  intros Hg Hh Ha Hb Hs Es -> Hbound.
  pose proof (fun k => ratio_cut_shift g h a b s shift k Ha Hb Hs ltac:(lia) Es) as Hc.
  unfold scaled_quotient. rewrite (bit_length 64) by lia. pose proof (Z.log2_spec h ltac:(lia)) as Hlog.
  destruct (Z.leb_spec 0 shift) as [Hpos|Hneg].
  - rewrite (Z.max_l 0 (- shift)), (Z.max_r 0 shift) in * by lia. change (2 ^ 0) with 1 in *. rewrite Z.mul_1_r in *.
    pose proof (pow2_pos shift Hpos) as Hp. pose proof (Z.log2_nonneg h).
    destruct (Z.ltb_spec 127 (Z.log2 h + 1 + shift)) as [Hfar|Hnear].
    + assert (2 ^ 127 <= h * 2 ^ shift) as Hbig.
      { etransitivity; [|apply Z.mul_le_mono_nonneg_r; [lia|apply Hlog]]. rewrite <- Z.pow_add_r by lia. apply pow2_le. lia. }
      pose proof (pow2_lt 54 127). change (2 ^ 54) with (2 * 2 ^ 53) in *.
      exists 0, 1, 3. split; [done|]. split; [|lia]. unfold quotient. rewrite !Z.mul_assoc, !Hc.
      split; [lia|]. split; [apply Z.compare_gt_iff; lia|]. split; [apply Z.compare_lt_iff; lia|].
      intros _. rewrite (proj2 (Z.compare_lt_iff (2 * g) _)) by lia. done.
    + assert (h * 2 ^ shift < 2 ^ 127) as Hlt.
      { apply Z.lt_le_trans with (2 ^ (Z.log2 h + 1) * 2 ^ shift).
        - apply Z.mul_lt_mono_pos_r; [done|apply Hlog].
        - rewrite <- Z.pow_add_r by lia. apply pow2_le. lia. }
      pose proof (pow2_lt 127 128). rewrite shl_w_small by (unfold fits; nia || lia).
      pose proof (Z.div_mod g (h * 2 ^ shift)). pose proof (Z.mod_pos_bound g (h * 2 ^ shift)).
      pose proof (Z.div_pos g (h * 2 ^ shift)). pose proof (Z.div_lt_upper_bound g (h * 2 ^ shift) (2 ^ 53)).
      pose proof (pow2_lt 53 64). rewrite wrap_small by (unfold fits; nia).
      eexists _, _, _. split; [done|]. split; [apply (division_quotient _ _ g); [nia|nia|nia|done]|]. nia.
  - rewrite (Z.max_r 0 (- shift)), (Z.max_l 0 shift) in * by lia. change (2 ^ 0) with 1 in *. rewrite Z.mul_1_r in *.
    pose proof (pow2_pos (- shift) ltac:(lia)) as Hp. set (n := g * 2 ^ (- shift)) in *.
    pose proof (pow2_lt 106 128). change (2 ^ 106) with (2 ^ 53 * 2 ^ 53) in *.
    rewrite shl_w_small by (fold n; unfold fits; nia || lia). fold n.
    pose proof (Z.div_mod n h). pose proof (Z.mod_pos_bound n h). pose proof (Z.div_pos n h).
    pose proof (Z.div_lt_upper_bound n h (2 ^ 53)). pose proof (pow2_lt 53 64). pose proof (pow2_lt 53 127).
    rewrite wrap_small by (unfold fits; nia).
    eexists _, _, _. split; [done|]. split; [apply (division_quotient _ _ n); [lia|lia|lia|done]|]. nia.
Qed.

(** The exponent of a ratio, as [divide_finite] computes it. *)
Lemma ratio_exponent_spec g h : 0 < g < 2 ^ 53 -> 0 < h < 2 ^ 53 ->
  let r := if shl_w 128 g (Z.log2 h) <? shl_w 128 h (Z.log2 g)
           then Z.log2 g - Z.log2 h - 1 else Z.log2 g - Z.log2 h in
  h * 2 ^ Z.max 0 r <= g * 2 ^ Z.max 0 (- r) < 2 * (h * 2 ^ Z.max 0 r) /\ -53 <= r <= 52.
Proof.
  intros Hg Hh r. pose proof (Z.log2_spec g ltac:(lia)) as Lg. pose proof (Z.log2_spec h ltac:(lia)) as Lh.
  pose proof (Z.log2_nonneg g). pose proof (Z.log2_nonneg h).
  assert (Z.log2 g < 53) by (apply Z.log2_lt_pow2; lia). assert (Z.log2 h < 53) by (apply Z.log2_lt_pow2; lia).
  subst r. set (lg := Z.log2 g) in *. set (lh := Z.log2 h) in *. rewrite Z.pow_succ_r in Lg, Lh by lia.
  assert (fits 128 (g * 2 ^ lh) /\ fits 128 (h * 2 ^ lg)) as [F1 F2].
  { pose proof (pow2_le lh 53). pose proof (pow2_le lg 53). pose proof (pow2_pos lh). pose proof (pow2_pos lg).
    pose proof (pow2_lt 106 128). change (2 ^ 106) with (2 ^ 53 * 2 ^ 53) in *. split; split; nia. }
  rewrite !shl_w_small by (done || lia).
  (* compare both sides times a common power *)
  assert (forall r, lg - lh - 1 <= r <= lg - lh ->
    2 ^ Z.max 0 (- r) * 2 ^ lg = 2 ^ Z.max 0 r * 2 ^ lh * 2 ^ (lg - lh - r)) as Hpow.
  { intros r Hr. rewrite <- !Z.pow_add_r by lia. f_equal. lia. }
  pose proof (pow2_pos lg ltac:(lia)). pose proof (pow2_pos lh ltac:(lia)).
  destruct (Z.ltb_spec (g * 2 ^ lh) (h * 2 ^ lg)) as [Hlt|Hge]; (split; [|lia]).
  - specialize (Hpow (lg - lh - 1) ltac:(lia)). replace (lg - lh - (lg - lh - 1)) with 1 in Hpow by lia.
    change (2 ^ 1) with 2 in Hpow. set (P := 2 ^ Z.max 0 (lg - lh - 1)) in *. set (N := 2 ^ Z.max 0 (- (lg - lh - 1))) in *.
    assert (0 < P) by (apply pow2_pos; lia). assert (0 < N) by (apply pow2_pos; lia). split.
    + assert (h * P * 2 ^ lg <= g * N * 2 ^ lg); [|nia].
      replace (g * N * 2 ^ lg) with (g * (N * 2 ^ lg)) by lia. rewrite Hpow.
      assert (h * 2 ^ lg <= 2 * 2 ^ lh * g) by nia.
      replace (g * (P * 2 ^ lh * 2)) with (P * (2 * 2 ^ lh * g)) by lia. nia.
    + assert (g * N * 2 ^ lg < 2 * (h * P) * 2 ^ lg); [|nia].
      replace (g * N * 2 ^ lg) with (g * (N * 2 ^ lg)) by lia. rewrite Hpow.
      replace (g * (P * 2 ^ lh * 2)) with (2 * P * (g * 2 ^ lh)) by lia. nia.
  - specialize (Hpow (lg - lh) ltac:(lia)). replace (lg - lh - (lg - lh)) with 0 in Hpow by lia.
    change (2 ^ 0) with 1 in Hpow. set (P := 2 ^ Z.max 0 (lg - lh)) in *. set (N := 2 ^ Z.max 0 (- (lg - lh))) in *.
    assert (0 < P) by (apply pow2_pos; lia). assert (0 < N) by (apply pow2_pos; lia). split.
    + assert (h * P * 2 ^ lg <= g * N * 2 ^ lg); [|nia].
      replace (g * N * 2 ^ lg) with (g * (N * 2 ^ lg)) by lia. rewrite Hpow.
      replace (g * (P * 2 ^ lh * 1)) with (P * (g * 2 ^ lh)) by lia. nia.
    + assert (g * N * 2 ^ lg < 2 * (h * P) * 2 ^ lg); [|nia].
      replace (g * N * 2 ^ lg) with (g * (N * 2 ^ lg)) by lia. rewrite Hpow.
      assert (g * 2 ^ lh < 2 * 2 ^ lg * h) by nia.
      replace (g * (P * 2 ^ lh * 1)) with (P * (g * 2 ^ lh)) by lia. nia.
Qed.

Lemma ratio_rescale g h r k : 0 < g -> 0 < h ->
  h * 2 ^ Z.max 0 r <= g * 2 ^ Z.max 0 (- r) < 2 * (h * 2 ^ Z.max 0 r) ->
  2 ^ Z.max 0 k * (h * 2 ^ Z.max 0 (r - k)) <= g * 2 ^ Z.max 0 (- (r - k)) * 2 ^ Z.max 0 (- k) <
  2 * (2 ^ Z.max 0 k * (h * 2 ^ Z.max 0 (r - k))).
Proof.
  intros Hg Hh Hr.
  assert (2 ^ Z.max 0 (- (r - k)) * 2 ^ Z.max 0 (- k) * 2 ^ Z.max 0 r =
          2 ^ Z.max 0 k * 2 ^ Z.max 0 (r - k) * 2 ^ Z.max 0 (- r)) as Hpow.
  { rewrite <- !Z.pow_add_r by lia. f_equal. lia. }
  set (Ns := 2 ^ Z.max 0 (- (r - k))) in *. set (K' := 2 ^ Z.max 0 (- k)) in *. set (Pr := 2 ^ Z.max 0 r) in *.
  set (K := 2 ^ Z.max 0 k) in *. set (Ps := 2 ^ Z.max 0 (r - k)) in *. set (Nr := 2 ^ Z.max 0 (- r)) in *.
  assert (0 < Ns /\ 0 < K' /\ 0 < Pr /\ 0 < K /\ 0 < Ps /\ 0 < Nr) as (? & ? & ? & ? & ? & ?)
    by (repeat split; apply pow2_pos; lia).
  assert (K * (h * Ps) * Nr = h * (Ns * K' * Pr)) as E1 by (rewrite Hpow; lia).
  assert (g * Ns * K' * Nr = g * Nr * (Ns * K')) as E2 by lia.
  assert (0 < Ns * K') by nia. split.
  - apply (Z.mul_le_mono_pos_r _ _ Nr); [done|]. rewrite E1, E2. nia.
  - apply (Z.mul_lt_mono_pos_r Nr); [done|]. replace (2 * (K * (h * Ps)) * Nr) with (2 * (K * (h * Ps) * Nr)) by lia.
    rewrite E1, E2. nia.
Qed.

Lemma significand_53 f v : format_ok f -> v < 2 ^ (fraction_bits f + 1) -> v < 2 ^ 53.
Proof. intros Hf. pose proof (format_dims f Hf). pose proof (pow2_le (fraction_bits f + 1) 53). lia. Qed.

(** The two branches of [divide_finite] on significands [g] and [h], with [e] the
    difference of the scales and [x] the exponent of the ratio. *)
Section DivideBranches.
Context (f : BinaryFormat) (Hf : format_ok f) (control : FpControl) (Hmode : fpcr_mode (rounding control)).
Context (st : FpStatus) (Hst : unrounded st) (negative : bool).
Context (g h x a b e : Z) (Hg : 0 < g < 2 ^ (fraction_bits f + 1)) (Hh : 0 < h < 2 ^ (fraction_bits f + 1)).
Context (Hrat : h * 2 ^ Z.max 0 x <= g * 2 ^ Z.max 0 (- x) < 2 * (h * 2 ^ Z.max 0 x)).
Context (Ha : 0 <= a) (Hb : 0 <= b) (He : a - b = e + unit_shift f).

Lemma divide_cut : is_cut (ratio_cut (g * 2 ^ a) (h * 2 ^ b)).
Proof. apply ratio_is_cut. pose proof (pow2_pos b Hb). nia. Qed.

Lemma divide_normal : 1 - exponent_bias f <= e + x ->
  exists bits st',
    (let '(significand, remainder, denominator) := scaled_quotient g h (x - fraction_bits f) in
     pack_normal significand remainder denominator (e + x) (sign_bits_of negative f) negative f control st) =
      Ok (mkLane bits st') /\
    correctly_rounded f control negative (ratio_cut (g * 2 ^ a) (h * 2 ^ b)) st bits st'.
Proof.
  intros Hnorm. pose proof (format_dims f Hf) as Hdims. pose proof (fraction_pow_succ f Hf) as Hp1.
  pose proof (ratio_rescale g h x (fraction_bits f) ltac:(lia) ltac:(lia) Hrat) as Hq.
  rewrite (Z.max_r 0 (fraction_bits f)), (Z.max_l 0 (- fraction_bits f)) in Hq by lia. change (2 ^ 0) with 1 in Hq.
  rewrite Z.mul_1_r in Hq. pose proof (pow2_pos (Z.max 0 (x - fraction_bits f)) ltac:(lia)) as HP.
  pose proof (significand_53 f g Hf ltac:(lia)). pose proof (significand_53 f h Hf ltac:(lia)).
  pose proof (pow2_le (fraction_bits f + 1) 53 ltac:(lia)).
  set (P := h * 2 ^ Z.max 0 (x - fraction_bits f)) in *. set (N := g * 2 ^ Z.max 0 (- (x - fraction_bits f))) in *.
  assert (0 < P) as HPp by (apply Z.mul_pos_pos; lia).
  destruct (scaled_quotient_spec g h a b (e + x + exponent_bias f - 1) (x - fraction_bits f)
    (ratio_cut (g * 2 ^ a) (h * 2 ^ b))) as (q & rem & den & -> & Hquo & Hq0 & Hqb);
    [lia|lia|done|done|lia|unfold unit_shift in He; lia|reflexivity|fold P N; nia|].
  fold P N in Hqb. apply (pack_normal_spec f Hf control Hmode negative st Hst _ divide_cut); [lia|nia|exact Hquo].
Qed.

Lemma divide_subnormal : e + x < 1 - exponent_bias f ->
  exists bits st',
    (let '(fraction, remainder, denominator) := scaled_quotient g h (- (e + unit_shift f)) in
     pack_subnormal fraction remainder denominator (sign_bits_of negative f) negative f control st) =
      Ok (mkLane bits st') /\
    correctly_rounded f control negative (ratio_cut (g * 2 ^ a) (h * 2 ^ b)) st bits st'.
Proof.
  intros Hsub. pose proof (format_dims f Hf) as Hdims. pose proof (fraction_pow_pos f Hf) as Hfp.
  pose proof (ratio_rescale g h x (e + x + unit_shift f) ltac:(lia) ltac:(lia) Hrat) as Hq.
  replace (x - (e + x + unit_shift f)) with (- (e + unit_shift f)) in Hq by lia.
  set (P := h * 2 ^ Z.max 0 (- (e + unit_shift f))) in *. set (N := g * 2 ^ Z.max 0 (- - (e + unit_shift f))) in *.
  assert (0 < P) as HP by (apply Z.mul_pos_pos; [lia|apply pow2_pos; lia]).
  assert (0 < N) as HN by (apply Z.mul_pos_pos; [lia|apply pow2_pos; lia]).
  assert (2 * 2 ^ Z.max 0 (e + x + unit_shift f) <= 2 ^ fraction_bits f) as Hk.
  { rewrite <- Z.pow_succ_r by lia. apply pow2_le. unfold unit_shift. lia. }
  pose proof (pow2_pos (Z.max 0 (- (e + x + unit_shift f))) ltac:(lia)) as HK.
  assert (N < 2 ^ fraction_bits f * P) as Hlt.
  { apply Z.le_lt_trans with (N * 2 ^ Z.max 0 (- (e + x + unit_shift f))); [nia|].
    eapply Z.lt_le_trans; [apply Hq|]. rewrite Z.mul_assoc. apply Z.mul_le_mono_nonneg_r; [lia|done]. }
  pose proof (pow2_le (fraction_bits f) 53 ltac:(lia)).
  pose proof (significand_53 f g Hf ltac:(lia)). pose proof (significand_53 f h Hf ltac:(lia)).
  destruct (scaled_quotient_spec g h a b 0 (- (e + unit_shift f)) (ratio_cut (g * 2 ^ a) (h * 2 ^ b)))
    as (q & rem & den & -> & Hquo & Hq0 & Hqb); [lia|lia|done|done|done|lia|reflexivity|fold P N; nia|].
  fold P N in Hqb. apply (pack_subnormal_spec f Hf control Hmode negative st Hst _ divide_cut); [|exact Hquo].
  split; [done|]. apply (Z.mul_lt_mono_pos_r P); [done|]. eapply Z.le_lt_trans; [apply Hqb|exact Hlt].
Qed.
End DivideBranches.

Lemma divide_finite_spec f control lhs rhs l r st negative :
  format_ok f -> fpcr_mode (rounding control) -> operand f control lhs l -> operand f control rhs r -> unrounded st ->
  operand_units f control lhs <> 0 -> operand_units f control rhs <> 0 ->
  exists bits st', divide_finite l r (sign_bits_of negative f) f control st = Ok (mkLane bits st') /\
    correctly_rounded f control negative
      (ratio_cut (operand_units f control lhs * 2 ^ unit_shift f) (operand_units f control rhs)) st bits st'.
Proof.
  intros Hf Hmode Hl Hr Hst HA HB.
  pose proof (operand_positive _ _ _ _ Hl HA) as Pl. pose proof (operand_positive _ _ _ _ Hr HB) as Pr.
  pose proof (op_scale _ _ _ _ Hl) as Sl. pose proof (op_scale _ _ _ _ Hr) as Sr.
  pose proof (op_significand _ _ _ _ Hl) as Gl. pose proof (op_significand _ _ _ _ Hr) as Gr.
  pose proof (unit_shift_nonneg f Hf) as HU.
  rewrite (op_units _ _ _ _ Hl), (op_units _ _ _ _ Hr). rewrite <- Z.mul_assoc, <- Z.pow_add_r by lia.
  unfold divide_finite. rewrite !(top_bit 64) by lia. rewrite sign_bits_zero, negb_involutive by done.
  destruct (ratio_exponent_spec (df_significand l) (df_significand r)) as [Hrat Hrr];
    [pose proof (significand_53 f _ Hf (proj2 Gl)); lia|pose proof (significand_53 f _ Hf (proj2 Gr)); lia|].
  generalize dependent (if shl_w 128 (df_significand l) (Z.log2 (df_significand r)) <?
    shl_w 128 (df_significand r) (Z.log2 (df_significand l))
    then Z.log2 (df_significand l) - Z.log2 (df_significand r) - 1
    else Z.log2 (df_significand l) - Z.log2 (df_significand r)). intros x Hrat _.
  destruct (Z.leb_spec (1 - exponent_bias f) (df_scale l - df_scale r + x)) as [Hnorm|Hsub].
  - replace (df_scale r - df_scale l + (df_scale l - df_scale r + x) - fraction_bits f) with (x - fraction_bits f) by lia.
    apply (divide_normal f Hf control Hmode st Hst negative); [lia|lia|exact Hrat|lia|lia|lia|lia].
  - replace (df_scale r - df_scale l + (1 - exponent_bias f - fraction_bits f))
      with (- (df_scale l - df_scale r + unit_shift f)) by (unfold unit_shift; lia).
    apply (divide_subnormal f Hf control Hmode st Hst negative _ _ x); [lia|lia|exact Hrat|lia|lia|lia|lia].
Qed.

Lemma flush_in_place_eq f control bits d st : format_ok f -> fits (total_bits f) bits -> decodes f bits d ->
  flush_in_place d f control st = flush_operand d f control st.
Proof.
  intros Hf Hb Hd. unfold flush_in_place, flush_operand. rewrite (subnormal_flushes f Hf control d bits Hd).
  destruct (flushes f control bits) eqn:Ef; [|done]. f_equal.
  pose proof (flush_operand_spec f Hf control d bits st Hb Hd) as (d' & E & Hd').
  unfold flush_operand in E. rewrite (subnormal_flushes f Hf control d bits Hd), Ef in E. injection E as <-.
  destruct Hd' as [B1 S1 E1 F1 G1 C1]. destruct (flushed_spec f Hf control bits Hb) as (_ & Hsg & Hmag).
  rewrite Ef in Hmag. rewrite Hmag in *. pose proof (fraction_pow_pos f Hf).
  rewrite Z.div_0_l in E1 by lia. rewrite Z.mod_0_l in F1 by lia. rewrite E1, F1 in G1. rewrite E1 in C1. simpl in G1.
  assert (df_exponent_field d = 0) as E0.
  { rewrite <- (subnormal_flushes f Hf control d bits Hd) in Ef. apply andb_prop in Ef as [_ Ef].
    unfold is_subnormal in Ef. apply andb_prop in Ef as [Ef _]. by apply Z.eqb_eq in Ef. }
  pose proof (dec_scale _ _ _ Hd) as Hsc. rewrite E0 in Hsc.
  destruct (DecodedFloat_new (Z.land (df_bits d) (sign_mask f)) f) as [b' s' e' f' g' c'] eqn:En. simpl in *.
  assert (b' = Z.land (df_bits d) (sign_mask f)) as ->.
  { unfold DecodedFloat_new in En. destruct (if _ =? 0 then _ else _) in En. by injection En. }
  subst e' f' g'. f_equal; [|lia]. change (df_sign d = s'). rewrite S1. rewrite (decoded_sign f d bits Hd). by rewrite <- Hsg.
Qed.

Lemma divide_finite_lane fmt f lhs rhs control :
  BinaryFormat_new (E := A64FpSimdError) fmt = Ok f -> format_ok f -> fpcr_mode (rounding control) ->
  is_finite f lhs -> is_finite f rhs -> operand_units f control rhs <> 0 ->
  let negative := xorb (sign_of f lhs) (sign_of f rhs) in
  exists bits st', divide_ieee_lane lhs rhs fmt control = Ok (mkLane bits st') /\
    rounds_ratio f control negative negative
      (operand_units f control lhs * 2 ^ unit_shift f) (operand_units f control rhs)
      (flush_status f control [lhs; rhs]) bits st'.
Proof.
  intros Hfmt Hf Hmode HL HR HB negative. unfold divide_ieee_lane. rewrite Hfmt. cbn [mbind res_bind].
  change FpStatus_default with (flush_status f control []).
  pose proof (finite_decodes f Hf lhs HL) as Hdl. pose proof (finite_decodes f Hf rhs HR) as Hdr.
  rewrite (flush_in_place_eq f control lhs _ _ Hf (proj1 HL) Hdl).
  destruct (flush_finite f Hf control lhs _ [] HL Hdl) as (-> & l & -> & Hl). cbn [app].
  rewrite (flush_in_place_eq f control rhs _ _ Hf (proj1 HR) Hdr).
  destruct (flush_finite f Hf control rhs _ [lhs] HR Hdr) as (-> & r & -> & Hr). cbn [orb app].
  rewrite (proj2 (op_finite _ _ _ _ Hl)), (proj2 (op_finite _ _ _ _ Hr)).
  rewrite (op_sign _ _ _ _ Hl), (op_sign _ _ _ _ Hr), (op_zero _ _ _ _ Hl), (op_zero _ _ _ _ Hr). fold negative.
  rewrite (proj2 (Z.eqb_neq (operand_units f control rhs) 0)) by done. rewrite !andb_false_r. cbn [orb].
  pose proof (pow2_pos _ (unit_shift_nonneg f Hf)). unfold rounds_ratio.
  destruct (Z.eqb_spec (operand_units f control lhs) 0) as [HA|HA].
  - rewrite HA. eexists _, _. split; [reflexivity|done].
  - rewrite (proj2 (Z.eqb_neq (_ * _) 0)) by nia. by apply divide_finite_spec.
Qed.

(** ** The integer square root *)

Lemma newton_above v root s : 0 < root -> 0 <= s -> s * s <= v -> s <= Z.shiftr (root + v / root) 1.
Proof.
  intros Hr Hs Hv. rewrite Z.shiftr_div_pow2 by lia. change (2 ^ 1) with 2.
  apply Z.div_le_lower_bound; [lia|]. assert (2 * s - root <= v / root); [|lia].
  apply Z.div_le_lower_bound; [done|]. pose proof (Z.square_nonneg (s - root)). lia.
Qed.

Lemma newton_halves v root s : s < root -> 0 <= s -> v < (s + 1) * (s + 1) ->
  2 * (Z.shiftr (root + v / root) 1 - s) <= root - s.
Proof.
  intros Hr Hs Hv. rewrite Z.shiftr_div_pow2 by lia. change (2 ^ 1) with 2.
  assert (v / root < s + 1) by (apply Z.div_lt_upper_bound; nia).
  pose proof (Z.mul_div_le (root + v / root) 2). lia.
Qed.

Lemma integer_square_root_loop_spec fuel v root s :
  0 < s -> s * s <= v < (s + 1) * (s + 1) -> s <= root -> root - s < 2 ^ Z.of_nat fuel ->
  integer_square_root_loop fuel v root = Some (s, v - s * s).
Proof.
  intros Hs Hv. revert root. induction fuel as [|fuel IH]; intros root Hle Hd;
    pose proof (newton_above v root s ltac:(lia) ltac:(lia) ltac:(lia)) as Ha; cbn [integer_square_root_loop].
  - change (2 ^ Z.of_nat 0) with 1 in Hd. assert (root = s) as -> by lia. by rewrite (proj2 (Z.leb_le s _)) by done.
  - destruct (Z.eq_dec root s) as [->|Hne]; [by rewrite (proj2 (Z.leb_le s _)) by done|].
    pose proof (newton_halves v root s ltac:(lia) ltac:(lia) ltac:(lia)) as Hh.
    rewrite Nat2Z.inj_succ, Z.pow_succ_r in Hd by lia.
    destruct (Z.leb_spec root (Z.shiftr (root + v / root) 1)); [lia|]. apply IH; [done|lia].
Qed.

(** It returns, with the floor of the root and the exact remainder. *)
Lemma integer_square_root_spec v : 0 < v < 2 ^ 126 ->
  integer_square_root v = Ok (Z.sqrt v, v - Z.sqrt v * Z.sqrt v).
Proof.
  intros Hv. unfold integer_square_root. rewrite (proj2 (Z.eqb_neq v 0)) by lia. rewrite (bit_length 128) by lia. pose proof (Z.log2_nonneg v).
  assert (Z.log2 v < 126) by (apply Z.log2_lt_pow2; lia).
  pose proof (Z.sqrt_spec v ltac:(lia)) as Hsq. cbv zeta in Hsq. rewrite <- Z.add_1_r in Hsq.
  assert (0 < Z.sqrt v) by (apply Z.sqrt_pos; lia).
  set (k := (Z.log2 v + 1 + 1) / 2).
  assert (Z.log2 v + 1 <= 2 * k /\ k <= 63) as [Hk Hk2].
  { subst k. pose proof (Z.div_mod (Z.log2 v + 1 + 1) 2). pose proof (Z.mod_pos_bound (Z.log2 v + 1 + 1) 2). lia. }
  rewrite shl_w_pow2 by lia. rewrite (integer_square_root_loop_spec 128 v (2 ^ k) (Z.sqrt v)); [done|done|done| |].
  - assert (Z.sqrt v < 2 ^ k); [|lia]. apply Z.square_lt_simpl_nonneg; [apply Z.pow_nonneg; lia|].
    eapply Z.le_lt_trans; [apply Hsq|]. rewrite <- Z.pow_add_r by lia.
    apply Z.lt_le_trans with (2 ^ Z.succ (Z.log2 v)); [apply Z.log2_spec; lia|apply pow2_le; lia].
  - pose proof (pow2_lt k 128). change (Z.of_nat 128) with 128. lia.
Qed.

(** ** Square root *)

(** The square root of an integer with its sticky bit. *)
Lemma sticky_root r : 0 < r ->
  let q := Z.sqrt r in
  let j := if negb (r - q * q =? 0) then Z.lor q 1 else q in
  q <= j <= q + 1 /\ (j * j = r \/ (Z.odd j = true /\ (j - 1) * (j - 1) < r < (j + 1) * (j + 1))).
Proof.
  intros Hr q j. pose proof (Z.sqrt_spec r ltac:(lia)) as Hq. cbv zeta in Hq. rewrite <- Z.add_1_r in Hq. fold q in Hq.
  assert (0 < q) by (apply Z.sqrt_pos; lia). subst j.
  destruct (Z.eqb_spec (r - q * q) 0) as [E|E]; cbn [negb]; [split; [lia|left; lia]|].
  rewrite lor_1_odd by lia. destruct (Z.odd q) eqn:Eo; (split; [lia|right]).
  - split; [done|]. nia.
  - split; [by rewrite Z.odd_add, Eo|]. nia.
Qed.

Lemma pack_root f j e r n control st :
  format_ok f -> fpcr_mode (rounding control) -> unrounded st -> 0 < j < 2 ^ 127 -> 0 <= e + unit_shift f ->
  fraction_bits f + 2 <= Z.log2 j -> n = r * 2 ^ (2 * (e + unit_shift f)) ->
  (j * j = r \/ (Z.odd j = true /\ (j - 1) * (j - 1) < r < (j + 1) * (j + 1))) ->
  exists bits st', pack_float_sum j e false f control st = Ok (mkLane bits st') /\
    correctly_rounded f control false (sqrt_cut n) st bits st'.
Proof.
  intros Hf Hmode Hst Hj Hy Hwide -> Hroot. pose proof (pow2_lt 127 128).
  destruct (pack_float_sum_spec f j e false control st) as (bits & st' & Hpack & Hcr); [done..|lia|left; lia|].
  exists bits, st'. split; [done|]. eapply correctly_rounded_ext; [done| |exact Hcr]. intros h Hh.
  pose proof (boundary_nonneg f Hf h Hh) as Hh0. set (y := e + unit_shift f) in *.
  pose proof (pow2_pos y Hy) as Hp. replace (2 ^ (2 * y)) with (2 ^ y * 2 ^ y) by (rewrite <- Z.pow_add_r by lia; f_equal; lia).
  destruct Hroot as [<-|[Ho Hb]].
  - unfold dyadic_cut, ratio_cut, sqrt_cut. fold y. rewrite (Z.max_r 0 y), (Z.max_l 0 (- y)) by lia.
    change (2 ^ 0) with 1. set (z := 2 * (j * 2 ^ y)).
    replace (4 * (j * j * (2 ^ y * 2 ^ y))) with (z * z) by (subst z; lia). rewrite Z.mul_1_r. assert (0 < z) by (subst z; nia).
    destruct (Z.compare_spec z h) as [->| |]; symmetry; [apply Z.compare_refl|apply Z.compare_lt_iff; nia|apply Z.compare_gt_iff; nia].
  - apply sticky_agrees; [done|done|lia|by left| | |done]; fold y; rewrite (Z.max_r 0 y), (Z.max_l 0 (- y)) by lia;
      change (2 ^ 0) with 1; intros h'; rewrite Z.mul_1_r; unfold sqrt_cut.
    + intros Hh' Hle. apply Z.compare_gt_iff.
      apply Z.le_lt_trans with ((2 * (j - 1) * 2 ^ y) * (2 * (j - 1) * 2 ^ y)); [nia|].
      replace ((2 * (j - 1) * 2 ^ y) * (2 * (j - 1) * 2 ^ y)) with (4 * (((j - 1) * (j - 1)) * (2 ^ y * 2 ^ y))) by lia. nia.
    + intros Hge. apply Z.compare_lt_iff.
      apply Z.lt_le_trans with ((2 * (j + 1) * 2 ^ y) * (2 * (j + 1) * 2 ^ y)); [|nia].
      replace ((2 * (j + 1) * 2 ^ y) * (2 * (j + 1) * 2 ^ y)) with (4 * (((j + 1) * (j + 1)) * (2 ^ y * 2 ^ y))) by lia. nia.
Qed.

(** The radicand [exact_scalar_float_square_root] builds from a significand and
    an even scale. *)
Lemma radicand_spec f g e :
  format_ok f -> 0 < g < 2 ^ (fraction_bits f + 2) -> - unit_shift f - 1 <= e ->
  let extra := fraction_bits f + 4 - (Z.log2 g + 1 + 1) / 2 in
  let r := g * 2 ^ (extra * 2) in
  0 <= extra <= fraction_bits f + 4 /\ 2 ^ (2 * (fraction_bits f + 3)) <= r < 2 ^ (2 * (fraction_bits f + 4)) /\
  0 <= Z.quot e 2 - extra + unit_shift f.
Proof.
  intros Hf Hg He extra r. pose proof (format_dims f Hf) as Hdims. pose proof (Z.log2_nonneg g).
  assert (Z.log2 g < fraction_bits f + 2) by (apply Z.log2_lt_pow2; lia).
  pose proof (Z.div_mod (Z.log2 g + 1 + 1) 2 ltac:(lia)). pose proof (Z.mod_pos_bound (Z.log2 g + 1 + 1) 2 ltac:(lia)).
  assert (0 <= extra <= fraction_bits f + 4) as Hx by (subst extra; lia). split; [done|].
  pose proof (Z.log2_spec g ltac:(lia)) as Hlog. pose proof (pow2_pos (extra * 2) ltac:(lia)). split; [split|].
  - apply Z.le_trans with (2 ^ Z.log2 g * 2 ^ (extra * 2)); [|subst r; nia].
    rewrite <- Z.pow_add_r by lia. apply pow2_le. subst extra. lia.
  - apply Z.lt_le_trans with (2 ^ Z.succ (Z.log2 g) * 2 ^ (extra * 2)); [subst r; nia|].
    rewrite <- Z.pow_add_r by lia. apply pow2_le. subst extra. lia.
  - assert (126 + fraction_bits f <= unit_shift f).
    { unfold unit_shift. destruct Hf as [_ Heb _ _ ->]. pose proof (pow2_le 7 (exponent_bits f - 1)). lia. }
    pose proof (Z.quot_rem' e 2). pose proof (Z.rem_bound_abs e 2). lia.
Qed.

Lemma odd_scale x : negb (Z.land x 1 =? 0) = Z.odd x.
Proof. apply land_1_odd. Qed.

Lemma square_root_finite precision fmt f source fpcr :
  fp_format (E := A64FpSimdError) precision = Ok fmt -> BinaryFormat_new (E := A64FpSimdError) fmt = Ok f ->
  format_ok f -> is_finite f source ->
  let control := from_fpcr fpcr in
  let status := flush_status f control [source] in
  exists bits st', exact_scalar_float_square_root source precision fpcr = Ok (mkExact bits st') /\
    if operand_units f control source =? 0 then bits = flushed f control source /\ st' = status
    else if sign_of f source then bits = default_nan f /\ st' = set_invalid_operation true status
    else correctly_rounded f control false
           (sqrt_cut (operand_units f control source * 2 ^ unit_shift f)) status bits st'.
Proof.
  intros Hp Hfmt Hf Hfin control status. unfold exact_scalar_float_square_root. rewrite Hp. cbn [mbind res_bind].
  rewrite Hfmt. cbn [mbind res_bind]. fold control. change FpStatus_default with (flush_status f control []).
  destruct (flush_finite f Hf control source _ [] Hfin (finite_decodes f Hf source Hfin)) as (-> & d & -> & Hop).
  cbn [app]. fold status. rewrite (op_zero _ _ _ _ Hop), (op_sign _ _ _ _ Hop), (proj2 (op_finite _ _ _ _ Hop)).
  destruct (Z.eqb_spec (operand_units f control source) 0) as [HA|HA].
  { eexists _, _. split; [reflexivity|]. by rewrite (op_bits _ _ _ _ Hop). }
  destruct (sign_of f source); [by eexists _, _|].
  pose proof (operand_positive _ _ _ _ Hop HA) as Pg. pose proof (op_significand _ _ _ _ Hop) as Gg.
  pose proof (op_scale _ _ _ _ Hop) as Sg. rewrite (op_units _ _ _ _ Hop). rewrite odd_scale.
  set (g := df_significand d) in *. set (e := df_scale d) in *.
  set (split := if Z.odd e then (shl_w 128 g 1, e - 1) else (g, e)).
  assert (exists g' e', split = (g', e') /\ Z.even e' = true /\ 0 < g' < 2 ^ (fraction_bits f + 2) /\
    - unit_shift f - 1 <= e' /\ (e' = e /\ g' = g \/ e' = e - 1 /\ g' = 2 * g)) as (g' & e' & -> & Hev & Hg' & He' & Hrel).
  { pose proof (format_dims f Hf). pose proof (significand_53 f g Hf (proj2 Gg)) as H53.
    change (2 ^ 53) with 9007199254740992 in H53.
    replace (2 ^ (fraction_bits f + 2)) with (2 * 2 ^ (fraction_bits f + 1)) by (rewrite <- Z.pow_succ_r by lia; f_equal; lia).
    subst split. destruct (Z.odd e) eqn:Eo.
    - exists (2 * g), (e - 1). rewrite shl_w_small; [|lia|].
      + change (2 ^ 1) with 2. split; [f_equal; lia|]. rewrite Z.even_sub, <- Z.negb_odd, Eo. split; [done|]. lia.
      + change (2 ^ 1) with 2. pose proof (pow2_lt 60 128). change (2 ^ 60) with 1152921504606846976 in *. unfold fits. lia.
    - exists g, e. rewrite <- Z.negb_odd, Eo. split; [done|]. split; [done|]. lia. }
  rewrite (bit_length 128) by lia.
  destruct (radicand_spec f g' e' Hf Hg' He') as (Hx & Hr & Hy).
  set (extra := fraction_bits f + 4 - (Z.log2 g' + 1 + 1) / 2) in *. clearbody extra. set (r := g' * 2 ^ (extra * 2)) in *.
  pose proof (format_dims f Hf) as Hdims.
  assert (2 ^ (2 * (fraction_bits f + 4)) <= 2 ^ 112) as H112 by (apply pow2_le; lia).
  assert (0 < 2 ^ (2 * (fraction_bits f + 3))) by (apply pow2_pos; lia).
  pose proof (pow2_lt 112 126). pose proof (pow2_lt 112 128). pose proof (pow2_lt 64 127).
  rewrite shl_w_small by (fold r; unfold fits; lia). fold r. rewrite integer_square_root_spec by lia. cbn [mbind res_bind].
  destruct (sticky_root r ltac:(lia)) as [Hj Hjr]. set (j := if negb (r - Z.sqrt r * Z.sqrt r =? 0) then _ else _) in *.
  assert (2 ^ (fraction_bits f + 3) <= Z.sqrt r) as Hlo.
  { apply Z.sqrt_le_square; [lia|apply Z.pow_nonneg; lia|]. rewrite <- Z.pow_add_r by lia.
    replace (fraction_bits f + 3 + (fraction_bits f + 3)) with (2 * (fraction_bits f + 3)) by lia. lia. }
  assert (Z.sqrt r < 2 ^ (fraction_bits f + 4)) as Hhi.
  { apply Z.sqrt_lt_square; [lia|apply Z.pow_nonneg; lia|]. rewrite <- Z.pow_add_r by lia.
    replace (fraction_bits f + 4 + (fraction_bits f + 4)) with (2 * (fraction_bits f + 4)) by lia. lia. }
  assert (2 ^ (fraction_bits f + 4) <= 2 ^ 63) by (apply pow2_le; lia).
  assert (2 ^ 63 + 1 < 2 ^ 127) by (vm_compute; done).
  assert (0 < 2 ^ (fraction_bits f + 3)) by (apply pow2_pos; lia).
  destruct (pack_root f j (Z.quot e' 2 - extra) r (g * 2 ^ (e + unit_shift f) * 2 ^ unit_shift f) control status)
    as (bits & st' & Hpack & Hcr); [done|apply fpcr_rounding_mode_ok|done|lia|done| | |done|].
  - apply log2_wide; [done|]. pose proof (pow2_le (fraction_bits f + 2) (fraction_bits f + 3)). lia.
  - apply Z.even_spec in Hev as [k Hk].
    assert (Z.quot e' 2 = k) as Hq2 by (rewrite Hk, Z.mul_comm, Z.quot_mul; lia). rewrite Hq2 in *.
    pose proof (unit_shift_nonneg f Hf).
    assert (126 + fraction_bits f <= unit_shift f).
    { unfold unit_shift. destruct Hf as [_ Heb _ _ ->]. pose proof (pow2_le 7 (exponent_bits f - 1)). lia. }
    rewrite <- Z.mul_assoc, <- Z.pow_add_r by lia. subst r. rewrite <- Z.mul_assoc, <- Z.pow_add_r by lia.
    replace (extra * 2 + 2 * (k - extra + unit_shift f)) with (2 * k + 2 * unit_shift f) by lia.
    destruct Hrel as [[Ee ->]|[Ee ->]]; [do 2 f_equal; lia|].
    replace (e + unit_shift f + unit_shift f) with (1 + (2 * k + 2 * unit_shift f)) by lia.
    rewrite Z.pow_add_r by lia. change (2 ^ 1) with 2. lia.
  - rewrite Hpack. cbn [mbind res_bind]. by eexists _, _.
Qed.
