(* ===== verification/FloatFused.v ===== *)
(** * The fused multiply-add

    [exact_scalar_float_fused_multiply_add] rounds [a * b + c] once, for every
    finite binary32 operand triple and for the binary64 triples whose aligned sum
    fits in [u128]; where it does not, the code overflows.  In a build that
    checks overflow it also panics when a zero term is to be shifted by 128 or
    more; both build profiles are covered. *)

From Stdlib Require Import ZArith Lia Bool.
From stdpp Require Import base numbers list option.
From S2P Require Import Prelude RustInt DecodeFpSimd.
Import DecodeFpSimd.FpSimd.
From S2P Require Import FloatFormat FloatOps FloatRound FloatPack FloatArith FloatDivide.
Local Open Scope Z_scope.

Lemma shift_fits_spec v d : 0 <= v < 2 ^ 128 -> 0 <= d ->
  if shift_fits_u128 v d then v = 0 \/ d < 128 /\ v * 2 ^ d < 2 ^ 128 else 0 < v /\ 2 ^ 128 <= v * 2 ^ d.
Proof.
  intros Hv Hd. unfold shift_fits_u128. destruct (Z.eqb_spec v 0) as [->|Hv0]; [by left|]. cbn [orb].
  unfold leading_zeros. rewrite (proj2 (Z.eqb_neq v 0)) by done.
  pose proof (Z.log2_spec v ltac:(lia)) as Hl. pose proof (Z.log2_nonneg v).
  assert (Z.log2 v < 128) by (apply Z.log2_lt_pow2; lia). pose proof (pow2_pos d Hd).
  destruct (Z.ltb_spec d 128) as [Ha|Ha], (Z.leb_spec d (128 - 1 - Z.log2 v)) as [Hb|Hb]; cbn [andb].
  - right. split; [done|]. apply Z.lt_le_trans with (2 ^ Z.succ (Z.log2 v) * 2 ^ d); [nia|].
    rewrite <- Z.pow_add_r by lia. apply pow2_le. lia.
  - split; [lia|]. apply Z.le_trans with (2 ^ Z.log2 v * 2 ^ d); [|nia].
    rewrite <- Z.pow_add_r by lia. apply pow2_le. lia.
  - split; [lia|]. pose proof (pow2_le 128 d). nia.
  - split; [lia|]. pose proof (pow2_le 128 d). nia.
Qed.

Lemma shl_u128_spec checks v d : 0 <= v < 2 ^ 128 -> 0 <= d -> shift_fits_u128 v d = true ->
  (checks = true -> (d <? 128) || negb (v =? 0) = true) -> shl_u128 checks v d = Ok (v * 2 ^ d).
Proof.
  intros Hv Hd Hfit Hck. pose proof (shift_fits_spec v d Hv Hd) as Hs. rewrite Hfit in Hs. unfold shl_u128.
  destruct Hs as [->|[Hlt Hb]].
  - unfold shl_w. rewrite !Z.shiftl_0_l. destruct (d <? 128); [done|]. destruct checks; [|done]. by specialize (Hck eq_refl).
  - rewrite (proj2 (Z.ltb_lt d 128)) by done. rewrite shl_w_small; [done|done|]. pose proof (pow2_pos d Hd). split; [nia|done].
Qed.

(** Both aligned operands and their sum, when the exact alignment is taken. *)
Definition fused_sum_fits (product product_scale addend addend_scale : Z) : bool :=
  let scale := Z.min product_scale addend_scale in
  negb (shift_fits_u128 product (product_scale - scale) && shift_fits_u128 addend (addend_scale - scale)) ||
  (product * 2 ^ (product_scale - scale) + addend * 2 ^ (addend_scale - scale) <? 2 ^ 128).

(** The distances a checked build accepts: a zero passes [shift_fits_u128] at
    any distance, and is then shifted. *)
Definition fused_shifts_fit (product product_scale addend addend_scale : Z) : bool :=
  let scale := Z.min product_scale addend_scale in
  ((product_scale - scale <? 128) || negb (product =? 0)) && ((addend_scale - scale <? 128) || negb (addend =? 0)).

Section Align.
Context (f : BinaryFormat) (Hf : format_ok f) (control : FpControl) (Hmode : fpcr_mode (rounding control)).
Context (st : FpStatus) (Hst : unrounded st).
Context (p ep z ez : Z) (Hp : 0 <= p < 2 ^ (2 * fraction_bits f + 2)) (Hz : 0 <= z < 2 ^ (fraction_bits f + 1)).
Context (Hez : - unit_shift f <= ez) (Hnz : p <> 0 \/ z <> 0).
Context (Hzn : ez = - unit_shift f \/ 2 ^ fraction_bits f <= z).
Context (Hpn : ep <= - unit_shift f \/ p = 0 \/ 2 ^ fraction_bits f <= p).

Abbreviation scale := (Z.min ep ez).
Abbreviation pw := (p * 2 ^ (ep - scale)).
Abbreviation zw := (z * 2 ^ (ez - scale)).

(** Packing [m] at [cs] rounds the exact [w] at the smaller scale. *)
Definition packs_exact (m cs : Z) (negative : bool) (w : Z) : Prop :=
  0 < w /\ exists bits st', pack_float_sum m cs negative f control st = Ok (mkLane bits st') /\
    correctly_rounded f control negative (dyadic_cut f w scale) st bits st'.

(** What an aligned triple guarantees to the tail of [fused_finite]. *)
Record aligned (p' z' cs : Z) : Prop := {
  aligned_sum : fused_sum_fits p ep z ez = true ->
    p' + z' < 2 ^ 128 /\ forall negative, packs_exact (p' + z') cs negative (pw + zw);
  aligned_product : z' < p' -> forall negative, packs_exact (p' - z') cs negative (pw - zw);
  aligned_addend : p' < z' -> forall negative, packs_exact (z' - p') cs negative (zw - pw);
  aligned_cancel : p' = z' -> pw = zw
}.

Lemma product_106 : p < 2 ^ 106.
Proof. clear - Hf Hp. pose proof (format_dims f Hf). pose proof (pow2_le (2 * fraction_bits f + 2) 106). lia. Qed.

Lemma addend_53 : z < 2 ^ 53.
Proof. apply (significand_53 f); [done|lia]. Qed.

(** Packing at the exact scale. *)
Lemma packs_at_scale m negative : shift_fits_u128 p (ep - scale) && shift_fits_u128 z (ez - scale) = true ->
  0 < m < 2 ^ 128 -> m <= pw + zw -> packs_exact m scale negative m.
Proof.
  clear Hnz Hzn Hpn. intros Hfit Hm Hle. apply andb_prop in Hfit as [Fp Fz]. pose proof product_106 as H106. pose proof addend_53 as H53.
  pose proof (pow2_lt 106 127). pose proof (pow2_lt 53 128).
  pose proof (shift_fits_spec z (ez - scale) ltac:(lia) ltac:(lia)) as Sz. rewrite Fz in Sz.
  split; [lia|]. apply pack_float_sum_spec; [done..|].
  destruct (Z.le_gt_cases ez ep) as [Hle'|Hlt]; [right; lia|].
  destruct Sz as [Ez|[Hd _]]; [|right; lia]. left. rewrite Ez in Hle. replace (ep - scale) with 0 in Hle by lia.
  change (2 ^ 0) with 1 in Hle. lia.
Qed.

(** The exact alignment. *)
Lemma align_exact : shift_fits_u128 p (ep - scale) && shift_fits_u128 z (ez - scale) = true ->
  aligned pw zw scale.
Proof.
  intros Hfit. pose proof (fun m negative => packs_at_scale m negative Hfit) as Hpack.
  apply andb_prop in Hfit as [Fp Fz]. pose proof product_106 as H106. pose proof addend_53 as H53.
  pose proof (pow2_lt 106 128). pose proof (pow2_lt 53 128).
  pose proof (shift_fits_spec p (ep - scale) ltac:(lia) ltac:(lia)) as Sp. rewrite Fp in Sp.
  pose proof (shift_fits_spec z (ez - scale) ltac:(lia) ltac:(lia)) as Sz. rewrite Fz in Sz.
  pose proof (pow2_pos (ep - scale) ltac:(lia)). pose proof (pow2_pos (ez - scale) ltac:(lia)).
  assert (0 <= pw < 2 ^ 128) as Bp by (destruct Sp as [->|?]; lia || nia).
  assert (0 <= zw < 2 ^ 128) as Bz by (destruct Sz as [->|?]; lia || nia).
  split.
  - unfold fused_sum_fits. rewrite Fp, Fz. cbn [andb negb orb]. intros Hs%Z.ltb_lt. split; [done|].
    intros negative. apply Hpack; [|lia]. split; [|done].
    destruct Hnz; [assert (0 < pw) by (apply Z.mul_pos_pos; lia)|assert (0 < zw) by (apply Z.mul_pos_pos; lia)]; lia.
  - intros Hlt negative. apply Hpack; lia.
  - intros Hlt negative. apply Hpack; lia.
  - done.
Qed.

(** A jammed alignment: the exact sums at the smaller scale, eight times finer. *)
Lemma packs_jammed m cs d w negative : cs = Z.max ep ez - 3 -> d = Z.max ep ez - scale ->
  0 < m < 2 ^ 127 -> jams (8 * w) d m -> (fraction_bits f + 2 <= Z.log2 m \/ cs + unit_shift f <= -2) ->
  packs_exact m cs negative w.
Proof.
  intros -> -> Hm Hj Hwide. assert (0 < 8 * w) by (apply (jams_positive _ _ m) in Hj; lia). split; [lia|].
  pose proof (pow2_lt 127 128).
  destruct (pack_jammed f (8 * w) (Z.max ep ez - scale) m (Z.max ep ez - 3) negative control st)
    as (bits & st' & Hpk & Hcr); [done..|lia|left; lia|lia|done|by right|].
  exists bits, st'. split; [done|]. eapply correctly_rounded_ext; [done| |done]. intros h _.
  replace (Z.max ep ez - 3 - (Z.max ep ez - scale)) with (scale - 3) by lia.
  unfold dyadic_cut. set (x := scale + unit_shift f). replace (scale - 3 + unit_shift f) with (x - 3) by (subst x; lia).
  apply ratio_cut_eq; [apply pow2_pos; lia..|].
  assert (8 * (2 ^ Z.max 0 (x - 3) * 2 ^ Z.max 0 (- x)) = 2 ^ Z.max 0 x * 2 ^ Z.max 0 (- (x - 3))) as Hpow.
  { change 8 with (2 ^ 3). rewrite <- !Z.pow_add_r by lia. f_equal. lia. }
  transitivity (w * (8 * (2 ^ Z.max 0 (x - 3) * 2 ^ Z.max 0 (- x)))); [lia|rewrite Hpow; lia].
Qed.

Lemma wide_sum m : 2 ^ (fraction_bits f + 2) <= m -> fraction_bits f + 2 <= Z.log2 m.
Proof. by apply log2_wide. Qed.

(** The larger-scale operand [big] dominates the jammed [small]. *)
Lemma jam_dominated big small d :
  0 < big -> 0 <= small < 2 ^ (2 * fraction_bits f + 2) -> 2 ^ 128 <= big * 2 ^ d -> 0 <= d ->
  big < 2 ^ 106 ->
  let j := shift_right_jam (8 * small) d in
  jams (8 * small) d j /\ 0 <= j < 8 * big /\
  (2 ^ fraction_bits f <= big -> big < 2 ^ (fraction_bits f + 1) -> 2 ^ (fraction_bits f + 2) <= 8 * big - j).
Proof.
  intros Hb Hs Hbig Hd Hb106 j. pose proof (format_dims f Hf).
  assert (small < 2 ^ 106) by (pose proof (pow2_le (2 * fraction_bits f + 2) 106); lia).
  assert (8 * 2 ^ 106 < 2 ^ 128) by (vm_compute; done). pose proof (pow2_pos d Hd) as Hpd.
  assert (jams (8 * small) d j) as Hj by (apply shift_right_jam_spec; lia). split; [done|].
  assert (0 <= j) as Hj0.
  { destruct Hj as [E|[Ho Hjb]]; [nia|]. assert (j <> 0) by (by intros ->). nia. }
  assert (j < 8 * big) as Hjb.
  { destruct Hj as [E|[Ho Hjb]]; [nia|]. assert (j - 1 < 8 * big) by nia.
    destruct (Z.eq_dec j (8 * big)) as [E|]; [|lia]. rewrite E, Z.odd_mul in Ho. done. }
  split; [lia|]. intros Hlo Hhi.
  replace (2 ^ (fraction_bits f + 2)) with (4 * 2 ^ fraction_bits f) by (rewrite Z.pow_add_r by lia; change (2 ^ 2) with 4; lia).
  pose proof (fraction_pow_pos f Hf). assert (j - 1 < 2 ^ fraction_bits f); [|lia].
  destruct (Z.lt_ge_cases (j - 1) (2 ^ fraction_bits f)) as [|Hge]; [done|exfalso].
  assert (2 ^ fraction_bits f * 2 ^ d < 8 * 2 ^ (2 * fraction_bits f + 2)).
  { apply Z.le_lt_trans with ((j - 1) * 2 ^ d); [apply Z.mul_le_mono_nonneg_r; lia|].
    destruct Hj as [E|[Ho Hjb']]; lia. }
  assert (8 * 2 ^ (2 * fraction_bits f + 2) = 2 ^ fraction_bits f * 2 ^ (fraction_bits f + 5)) as Ep.
  { change 8 with (2 ^ 3). rewrite <- !Z.pow_add_r by lia. f_equal. lia. }
  assert (2 ^ d < 2 ^ (fraction_bits f + 5)) by nia.
  assert (2 ^ (fraction_bits f + 1) * 2 ^ (fraction_bits f + 5) <= 2 ^ 110) by (rewrite <- Z.pow_add_r by lia; apply pow2_le; lia).
  assert (2 ^ 110 < 2 ^ 128) by (vm_compute; done). nia.
Qed.

Lemma powers_apart : 2 ^ 53 < 2 ^ 106 /\ 16 * 2 ^ 106 < 2 ^ 127 /\ 2 ^ 127 < 2 ^ 128.
Proof. vm_compute. done. Qed.

Lemma small_fits v : 0 <= v < 2 ^ 106 -> shift_fits_u128 v 0 = true.
Proof.
  intros Hv. pose proof powers_apart. pose proof (shift_fits_spec v 0 ltac:(lia) ltac:(lia)) as Hs.
  destruct (shift_fits_u128 v 0); [done|]. change (2 ^ 0) with 1 in Hs. lia.
Qed.

(** The addend has the larger scale. *)
Lemma align_jammed_addend : ep <= ez -> shift_fits_u128 z (ez - ep) = false ->
  aligned (shift_right_jam (8 * p) (ez - ep)) (8 * z) (ez - 3).
Proof.
  intros Hle Hfit. pose proof product_106 as H106. pose proof addend_53 as H53. pose proof powers_apart as (? & ? & ?).
  pose proof (shift_fits_spec z (ez - ep) ltac:(lia) ltac:(lia)) as Sz. rewrite Hfit in Sz. destruct Sz as [Hzp Hzb].
  destruct (jam_dominated z p (ez - ep)) as (Hj & Hjb & Hjw); [done|lia|done|lia|lia|].
  set (j := shift_right_jam (8 * p) (ez - ep)) in *.
  assert (pw = p /\ zw = z * 2 ^ (ez - ep)) as [Epw Ezw].
  { rewrite (Z.min_l ep ez) by lia. rewrite Z.sub_diag. change (2 ^ 0) with 1. lia. }
  assert (forall m, 8 * z - j <= m -> fraction_bits f + 2 <= Z.log2 m \/ ez - 3 + unit_shift f <= -2) as Hwide.
  { intros m Hm. destruct Hzn as [->|Hzn']; [right; lia|left]. apply wide_sum. specialize (Hjw Hzn' ltac:(lia)). lia. }
  assert (Z.even (8 * z) = true) as He by (rewrite Z.even_mul; done).
  assert (forall m negative w, 0 < m < 2 ^ 127 -> jams (8 * w) (ez - ep) m -> 8 * z - j <= m ->
    packs_exact m (ez - 3) negative w) as Hpack.
  { intros m negative w Hm Hjm Hge. apply (packs_jammed _ _ (ez - ep)); [lia|lia|done|done|by apply Hwide]. }
  split; rewrite ?Epw, ?Ezw.
  - intros _. split; [lia|]. intros negative. apply Hpack; [lia| |lia]. rewrite (Z.add_comm j).
    replace (8 * (p + z * 2 ^ (ez - ep))) with (8 * z * 2 ^ (ez - ep) + 8 * p) by lia. by apply jams_add.
  - lia.
  - intros _ negative. apply Hpack; [lia| |lia].
    replace (8 * (z * 2 ^ (ez - ep) - p)) with (8 * z * 2 ^ (ez - ep) - 8 * p) by lia. by apply jams_sub.
  - lia.
Qed.

(** The product has the larger scale: the addend is below one unit of it. *)
Lemma align_jammed_product : ez < ep -> shift_fits_u128 p (ep - ez) = false ->
  aligned (8 * p) (shift_right_jam (8 * z) (ep - ez)) (ep - 3).
Proof.
  intros Hlt Hfit. pose proof product_106 as H106. pose proof addend_53 as H53. pose proof powers_apart as (? & ? & ?).
  pose proof (format_dims f Hf) as Hdims.
  assert (2 ^ (fraction_bits f + 1) <= 2 ^ (2 * fraction_bits f + 2)) by (apply pow2_le; lia).
  pose proof (shift_fits_spec p (ep - ez) ltac:(lia) ltac:(lia)) as Sp. rewrite Hfit in Sp. destruct Sp as [Hpp Hpb].
  destruct (jam_dominated p z (ep - ez)) as (Hj & Hjb & _); [done|lia|done|lia|lia|].
  set (j := shift_right_jam (8 * z) (ep - ez)) in *.
  assert (pw = p * 2 ^ (ep - ez) /\ zw = z) as [Epw Ezw].
  { rewrite (Z.min_r ep ez) by lia. rewrite Z.sub_diag. change (2 ^ 0) with 1. lia. }
  assert (j <= 2 ^ (fraction_bits f + 2)) as Hjs.
  { pose proof (pow2_pos (ep - ez) ltac:(lia)). assert (2 ^ (fraction_bits f + 2) = 2 * 2 ^ (fraction_bits f + 1)) as ->.
    { rewrite <- Z.pow_succ_r by lia. f_equal. lia. }
    pose proof (pow2_pos (fraction_bits f + 1) ltac:(lia)).
    assert (16 <= 2 ^ (ep - ez)).
    { destruct (Z.le_gt_cases 4 (ep - ez)) as [Hd4|Hd4];
        [change 16 with (2 ^ 4); apply pow2_le; lia|exfalso].
      pose proof (pow2_le (ep - ez) 4 ltac:(lia)) as Hd16. change (2 ^ 4) with 16 in Hd16.
      assert (p * 2 ^ (ep - ez) <= p * 16) by (apply Z.mul_le_mono_nonneg_l; lia). lia. }
    destruct Hj as [E|[Ho Hjb']]; nia. }
  assert (forall m, 8 * p - j <= m -> fraction_bits f + 2 <= Z.log2 m) as Hwide.
  { intros m Hm. apply wide_sum. destruct Hpn as [|[|Hpn']]; [lia|lia|].
    assert (8 * 2 ^ fraction_bits f = 2 * 2 ^ (fraction_bits f + 2)); [|lia].
    rewrite Z.pow_add_r by lia. change (2 ^ 2) with 4. lia. }
  assert (Z.even (8 * p) = true) as He by (rewrite Z.even_mul; done).
  assert (forall m negative w, 0 < m < 2 ^ 127 -> jams (8 * w) (ep - ez) m -> 8 * p - j <= m ->
    packs_exact m (ep - 3) negative w) as Hpack.
  { intros m negative w Hm Hjm Hge. apply (packs_jammed _ _ (ep - ez)); [lia|lia|done|done|left; by apply Hwide]. }
  split; rewrite ?Epw, ?Ezw.
  - intros _. split; [lia|]. intros negative. apply Hpack; [lia| |lia].
    replace (8 * (p * 2 ^ (ep - ez) + z)) with (8 * p * 2 ^ (ep - ez) + 8 * z) by lia. by apply jams_add.
  - intros _ negative. apply Hpack; [lia| |lia].
    replace (8 * (p * 2 ^ (ep - ez) - z)) with (8 * p * 2 ^ (ep - ez) - 8 * z) by lia. by apply jams_sub.
  - lia.
  - lia.
Qed.

Lemma align_fused_exact checks : (checks = true -> fused_shifts_fit p ep z ez = true) ->
  shift_fits_u128 p (ep - scale) && shift_fits_u128 z (ez - scale) = true ->
  align_fused_operands checks p ep z ez = Ok (pw, zw, scale).
Proof.
  clear Hnz Hzn Hpn. intros Hck Hfit. pose proof product_106 as H106. pose proof addend_53 as H53. pose proof (pow2_lt 106 128).
  pose proof (pow2_lt 53 128). unfold align_fused_operands. rewrite Hfit. apply andb_prop in Hfit as [Fp Fz].
  rewrite !shl_u128_spec; [done|lia|lia|done| |lia|lia|done|]; intros E; apply (fun H => andb_prop _ _ (H E)) in Hck; apply Hck.
Qed.

Lemma align_fused_spec checks : (checks = true -> fused_shifts_fit p ep z ez = true) -> exists p' z' cs,
  align_fused_operands checks p ep z ez = Ok (p', z', cs) /\ aligned p' z' cs.
Proof.
  intros Hck.
  pose proof product_106 as H106. pose proof addend_53 as H53. pose proof powers_apart as (? & ? & ?).
  destruct (shift_fits_u128 p (ep - scale) && shift_fits_u128 z (ez - scale)) eqn:Hfit.
  - eexists _, _, _. split; [by apply align_fused_exact|]. by apply align_exact.
  - unfold align_fused_operands. rewrite Hfit. rewrite !shl_w_small by (try (unfold fits; change (2 ^ 3) with 8); lia). change (2 ^ 3) with 8. rewrite !(Z.mul_comm _ 8).
    eexists _, _, _. split; [done|]. destruct (Z.le_gt_cases ep ez) as [Hle|Hlt].
    + rewrite (Z.min_l ep ez), Z.sub_diag, small_fits in Hfit by lia.
      rewrite (Z.max_r ep ez), Z.sub_diag, jam_zero by lia. by apply align_jammed_addend.
    + rewrite (Z.min_r ep ez), Z.sub_diag, (small_fits z), andb_true_r in Hfit by lia.
      rewrite (Z.max_l ep ez), Z.sub_diag, jam_zero by lia. by apply align_jammed_product.
Qed.
End Align.

(** ** The finite sum *)

Lemma decodes_unique f bits d d' : decodes f bits d -> decodes f bits d' ->
  df_significand d = df_significand d' /\ df_scale d = df_scale d'.
Proof.
  intros [_ _ E1 F1 G1 C1] [_ _ E2 F2 G2 C2]. split; [|rewrite E1 in C1; rewrite E2 in C2; lia].
  rewrite G1, G2, E1, E2, F1, F2. done.
Qed.

(** A test of the two terms of an operand triple, magnitudes and scales. *)
Definition on_terms {A} (test : Z -> Z -> Z -> Z -> A) (f : BinaryFormat) (control : FpControl)
    (multiplicand multiplier addend : Z) : A :=
  let d bits := DecodedFloat_new (flushed f control bits) f in
  test (df_significand (d multiplicand) * df_significand (d multiplier))
    (df_scale (d multiplicand) + df_scale (d multiplier))
    (df_significand (d addend)) (df_scale (d addend)).

(** Whether the aligned sum of an operand triple fits in [u128]. *)
Definition fused_in_range : BinaryFormat -> FpControl -> Z -> Z -> Z -> bool := on_terms fused_sum_fits.

(** Whether no zero term meets a nonzero one across 128 binary places or more. *)
Definition fused_zero_near : BinaryFormat -> FpControl -> Z -> Z -> Z -> bool :=
  on_terms (fun p ep z ez => (p =? 0) && (z =? 0) || fused_shifts_fit p ep z ez).

(** The sum of the aligned magnitudes, and its scale. *)
Definition fused_aligned_sum : BinaryFormat -> FpControl -> Z -> Z -> Z -> Z * Z :=
  on_terms (fun p ep z ez => let scale := Z.min ep ez in (p * 2 ^ (ep - scale) + z * 2 ^ (ez - scale), scale)).

Lemma dyadic_cut_double f w e h : format_ok f -> 0 <= e + 2 * unit_shift f ->
  dyadic_cut f w e h = ratio_cut (w * 2 ^ (e + 2 * unit_shift f)) (2 ^ unit_shift f) h.
Proof.
  intros Hf He. pose proof (unit_shift_nonneg f Hf). apply dyadic_cut_ratio; [apply pow2_pos; lia|].
  rewrite <- !Z.mul_assoc, <- !Z.pow_add_r by lia. do 2 f_equal. lia.
Qed.

Section FusedFinite.
Context (f : BinaryFormat) (Hf : format_ok f) (control : FpControl) (Hmode : fpcr_mode (rounding control)).
Context (m k c : Z) (dm dk dc : DecodedFloat).
Context (Hm : operand f control m dm) (Hk : operand f control k dk) (Hc : operand f control c dc).
Context (product_sign : bool) (st : FpStatus) (Hst : unrounded st).

Abbreviation P := (operand_units f control m * operand_units f control k).
Abbreviation C := (operand_units f control c * 2 ^ unit_shift f).
Abbreviation sum := ((if product_sign then - P else P) + (if sign_of f c then - C else C)).
Abbreviation gp := (df_significand dm * df_significand dk).
Abbreviation ep := (df_scale dm + df_scale dk).
Abbreviation scale := (Z.min ep (df_scale dc)).

Lemma fused_bounds : 0 <= gp < 2 ^ (2 * fraction_bits f + 2) /\ - 2 * unit_shift f <= ep /\
  (ep <= - unit_shift f \/ gp = 0 \/ 2 ^ fraction_bits f <= gp).
Proof.
  pose proof (op_significand _ _ _ _ Hm) as Gm. pose proof (op_significand _ _ _ _ Hk) as Gk.
  pose proof (op_scale _ _ _ _ Hm) as Sm. pose proof (op_scale _ _ _ _ Hk) as Sk.
  pose proof (op_normal _ _ _ _ Hm) as Nm. pose proof (op_normal _ _ _ _ Hk) as Nk.
  pose proof (format_dims f Hf). pose proof (fraction_pow_pos f Hf). pose proof (unit_shift_nonneg f Hf).
  split; [|split; [lia|]].
  - replace (2 * fraction_bits f + 2) with (fraction_bits f + 1 + (fraction_bits f + 1)) by lia.
    rewrite Z.pow_add_r by lia. nia.
  - destruct Nm as [Nm|Nm], Nk as [Nk|Nk]; [left; lia|..];
      (destruct (Z.eq_dec gp 0) as [E|E]; [by right; left|right; right]);
      assert (df_significand dm <> 0 /\ df_significand dk <> 0) by (split; intros Ez; rewrite Ez in E; lia); nia.
Qed.

(** The aligned magnitudes are the two terms of the sum. *)
Lemma fused_terms :
  0 <= scale + 2 * unit_shift f /\
  P = gp * 2 ^ (ep - scale) * 2 ^ (scale + 2 * unit_shift f) /\
  C = df_significand dc * 2 ^ (df_scale dc - scale) * 2 ^ (scale + 2 * unit_shift f).
Proof.
  pose proof (op_scale _ _ _ _ Hm). pose proof (op_scale _ _ _ _ Hk). pose proof (op_scale _ _ _ _ Hc).
  pose proof (unit_shift_nonneg f Hf). split; [lia|].
  rewrite (op_units _ _ _ _ Hm), (op_units _ _ _ _ Hk), (op_units _ _ _ _ Hc). split.
  - rewrite <- (Z.mul_assoc gp), <- Z.pow_add_r by lia.
    replace (ep - scale + (scale + 2 * unit_shift f)) with (df_scale dm + unit_shift f + (df_scale dk + unit_shift f)) by lia.
    rewrite (Z.pow_add_r 2 (df_scale dm + unit_shift f) (df_scale dk + unit_shift f)) by lia. lia.
  - rewrite <- !Z.mul_assoc, <- !Z.pow_add_r by lia. do 2 f_equal. lia.
Qed.

(** A packed branch gives the rounded sum. *)
Lemma fused_packs negative mag cs w zero_sign :
  packs_exact f control st ep (df_scale dc) mag cs negative w ->
  w * 2 ^ (scale + 2 * unit_shift f) = (if negative then - sum else sum) ->
  exists bits st', (outcome ← pack_float_sum mag cs negative f control st; Ok (exact_value outcome)) =
      Ok (mkExact bits st') /\
    rounds_ratio f control zero_sign (sum <? 0) (Z.abs sum) (2 ^ unit_shift f) st bits st'.
Proof.
  intros (Hw & bits & st' & -> & Hcr) Ew. destruct fused_terms as (Hx & _ & _).
  pose proof (pow2_pos _ Hx). assert (0 < (if negative then - sum else sum)) as Hpos by nia.
  assert (negative = (sum <? 0) /\ Z.abs sum = (if negative then - sum else sum)) as [En Ea].
  { destruct negative; destruct (Z.ltb_spec sum 0); split; (done || lia). }
  exists bits, st'. split; [done|]. unfold rounds_ratio. rewrite (proj2 (Z.eqb_neq (Z.abs sum) 0)) by lia.
  rewrite <- En. eapply correctly_rounded_ext; [done| |done]. intros h _. rewrite Ea, <- Ew. by apply dyadic_cut_double.
Qed.

Lemma fused_finite_spec checks :
  (checks = true -> (gp =? 0) && (df_significand dc =? 0) || fused_shifts_fit gp ep (df_significand dc) (df_scale dc) = true) ->
  (product_sign = sign_of f c -> fused_sum_fits gp ep (df_significand dc) (df_scale dc) = true) ->
  exists bits st', fused_finite checks dm dk dc product_sign f control st = Ok (mkExact bits st') /\
    rounds_ratio f control
      (if eqb product_sign (sign_of f c) then product_sign else bool_decide (rounding control = TowardNegative))
      (sum <? 0) (Z.abs sum) (2 ^ unit_shift f) st bits st'.
Proof.
  intros Hck Hfit. destruct fused_terms as (Hx & EP & EC). destruct fused_bounds as (Bp & Be & Bn).
  pose proof (op_significand _ _ _ _ Hc) as Gc. pose proof (op_scale _ _ _ _ Hc) as Sc. pose proof (op_normal _ _ _ _ Hc) as Nc.
  unfold fused_finite. rewrite (op_sign _ _ _ _ Hc).
  destruct (Z.eqb_spec gp 0) as [Hp0|Hp0], (Z.eqb_spec (df_significand dc) 0) as [Hc0|Hc0]; cbn [andb].
  1:{ assert (sum = 0) as Hs0 by (rewrite EP, EC, Hp0, Hc0; destruct product_sign, (sign_of f c); lia).
      eexists _, _. split; [reflexivity|]. unfold rounds_ratio. rewrite Hs0. done. }
  all: destruct (align_fused_spec f Hf control Hmode st Hst gp ep (df_significand dc) (df_scale dc)) with (checks := checks)
         as (p' & z' & cs & Halign & Hal); [lia|lia|lia|lia|lia|done|done|].
  all: rewrite Halign; cbn [mbind res_bind]; destruct (eqb_spec product_sign (sign_of f c)) as [Es|Es].
  all: try (destruct (aligned_sum _ _ _ _ _ _ _ _ _ _ Hal (Hfit Es)) as [Hlt Hpk]; unfold add_u128;
            rewrite (proj2 (Z.ltb_lt (p' + z') _)) by done; cbn [mbind res_bind]; eapply fused_packs; [apply Hpk|];
            rewrite EP, EC, <- Es; destruct product_sign; lia).
  all: destruct (Z.ltb_spec z' p') as [Hlt|Hge];
         [eapply fused_packs; [by apply (aligned_product _ _ _ _ _ _ _ _ _ _ Hal)|];
          rewrite EP, EC; destruct product_sign, (sign_of f c); (done || lia)|].
  all: destruct (Z.ltb_spec p' z') as [Hlt'|Hge'];
         [eapply fused_packs; [by apply (aligned_addend _ _ _ _ _ _ _ _ _ _ Hal)|];
          rewrite EP, EC; destruct product_sign, (sign_of f c); (done || lia)|].
  all: pose proof (aligned_cancel _ _ _ _ _ _ _ _ _ _ Hal ltac:(lia)) as Heq;
         assert (sum = 0) as Hs0 by (rewrite EP, EC, Heq; destruct product_sign, (sign_of f c); (done || lia));
         eexists _, _; (split; [reflexivity|]); unfold rounds_ratio; rewrite Hs0; done.
Qed.

(** Same signs and a sum of 129 bits. *)
Lemma fused_finite_overflows :
  let w := gp * 2 ^ (ep - scale) + df_significand dc * 2 ^ (df_scale dc - scale) in
  product_sign = sign_of f c -> fused_sum_fits gp ep (df_significand dc) (df_scale dc) = false ->
  2 ^ 128 <= w < 2 ^ 129 /\ fused_finite true dm dk dc product_sign f control st = Panic /\
  fused_finite false dm dk dc product_sign f control st =
    (outcome ← pack_float_sum (w - 2 ^ 128) scale product_sign f control st; Ok (exact_value outcome)) /\
  (2 ^ 128 < w -> exists bits st', fused_finite false dm dk dc product_sign f control st = Ok (mkExact bits st') /\
     correctly_rounded f control product_sign (dyadic_cut f (w - 2 ^ 128) scale) st bits st').
Proof.
  intros w Es Hno. destruct fused_bounds as (Bp & Be & Bn).
  pose proof (op_significand _ _ _ _ Hc) as Gc. pose proof (op_scale _ _ _ _ Hc) as Sc. pose proof (op_normal _ _ _ _ Hc) as Nc.
  unfold fused_sum_fits in Hno. apply orb_false_elim in Hno as [Hfit%negb_false_iff Hbig%Z.ltb_ge]. fold w in Hbig.
  pose proof (product_106 f Hf gp Bp) as H106. pose proof (addend_53 f Hf (df_significand dc) Gc) as H53.
  pose proof (pow2_lt 106 128 ltac:(lia)). pose proof (pow2_lt 53 128 ltac:(lia)).
  pose proof (andb_prop _ _ Hfit) as [Fp Fz].
  pose proof (shift_fits_spec gp (ep - scale) ltac:(lia) ltac:(lia)) as Sp. rewrite Fp in Sp.
  pose proof (shift_fits_spec (df_significand dc) (df_scale dc - scale) ltac:(lia) ltac:(lia)) as Sz. rewrite Fz in Sz.
  assert (gp <> 0) as Hp0 by (intros E; unfold w in Hbig; destruct Sz as [E'|]; rewrite E in Hbig; [rewrite E' in Hbig|]; lia).
  assert (df_significand dc <> 0) as Hc0 by (intros E; unfold w in Hbig; destruct Sp as [E'|]; rewrite E in Hbig; [rewrite E' in Hbig|]; lia).
  destruct Sp as [?|[Hd1 Hb1]]; [done|]. destruct Sz as [?|[Hd2 Hb2]]; [done|].
  assert (2 ^ 128 <= w < 2 ^ 129) as Hw by (unfold w in *; change (2 ^ 129) with (2 ^ 128 + 2 ^ 128); lia).
  assert (forall checks, fused_finite checks dm dk dc product_sign f control st =
    (magnitude ← add_u128 checks (gp * 2 ^ (ep - scale)) (df_significand dc * 2 ^ (df_scale dc - scale));
     outcome ← pack_float_sum magnitude scale product_sign f control st; Ok (exact_value outcome))) as Hrun.
  { intros checks. unfold fused_finite. rewrite (proj2 (Z.eqb_neq gp 0)) by done. cbn [andb].
    rewrite (align_fused_exact f Hf gp ep (df_significand dc) (df_scale dc) Bp Gc); [|intros _|done].
    - cbn [mbind res_bind]. rewrite (op_sign _ _ _ _ Hc), Es, eqb_reflx. done.
    - unfold fused_shifts_fit. rewrite (proj2 (Z.ltb_lt _ 128) Hd1), (proj2 (Z.ltb_lt _ 128) Hd2). done. }
  rewrite !Hrun. unfold add_u128. fold w. rewrite (proj2 (Z.ltb_ge w (2 ^ 128))) by lia. cbn [mbind res_bind].
  assert (wrap 128 w = w - 2 ^ 128) as ->.
  { unfold wrap. symmetry. apply Z.mod_unique with 1; [left|]; change (2 ^ 129) with (2 ^ 128 + 2 ^ 128) in Hw; lia. }
  split; [done|]. split; [done|]. split; [done|]. intros Hgt.
  destruct (packs_at_scale f Hf control Hmode st Hst gp ep (df_significand dc) (df_scale dc) Bp Gc ltac:(lia)
              (w - 2 ^ 128) product_sign Hfit) as (_ & bits & st' & -> & Hcr);
    [change (2 ^ 129) with (2 ^ 128 + 2 ^ 128) in Hw; lia|unfold w; lia|].
  cbn [mbind res_bind]. by exists bits, st'.
Qed.
End FusedFinite.

(** ** The primitive on finite operands *)

Lemma negate_if_decodes f (b : bool) bits : format_ok f -> is_finite f bits ->
  let bits' := if b then flip_sign f bits else bits in
  is_finite f bits' /\
  decodes f bits' (if b then negate_operand (DecodedFloat_new bits f) f else DecodedFloat_new bits f).
Proof.
  intros Hf [Hb Hi] bits'. pose proof (DecodedFloat_new_spec f bits Hf Hb) as Hd. subst bits'. destruct b; [|done].
  destruct (flip_sign_spec f bits Hf Hb) as (? & Hm & _). split; [split; [done|by rewrite Hm]|by apply negate_decodes].
Qed.

(** The terms are those of the decoded and flushed operands. *)
Lemma on_terms_decoded {A} (test : Z -> Z -> Z -> Z -> A) f control m k c dm dk dc :
  format_ok f -> is_finite f m -> is_finite f k -> is_finite f c ->
  operand f control m dm -> operand f control k dk -> operand f control c dc ->
  on_terms test f control m k c =
    test (df_significand dm * df_significand dk) (df_scale dm + df_scale dk) (df_significand dc) (df_scale dc).
Proof.
  intros Hf Fm Fk Fc Hm Hk Hc. unfold on_terms.
  assert (forall b d, operand f control b d -> is_finite f b ->
    df_significand (DecodedFloat_new (flushed f control b) f) = df_significand d /\
    df_scale (DecodedFloat_new (flushed f control b) f) = df_scale d) as Hsame.
  { intros b d Hop Hfin. apply (decodes_unique f (flushed f control b)); [|apply (op_decodes _ _ _ _ Hop)].
    by apply finite_decodes, flushed_finite. }
  destruct (Hsame _ _ Hm Fm) as [-> ->]. destruct (Hsame _ _ Hk Fk) as [-> ->]. by destruct (Hsame _ _ Hc Fc) as [-> ->].
Qed.

(** Finite operands reach the finite sum, with their decoded and flushed values. *)
Lemma fused_reaches_finite checks precision fmt f m k c operation fpcr :
  fp_format (E := A64FpSimdError) precision = Ok fmt -> BinaryFormat_new (E := A64FpSimdError) fmt = Ok f ->
  format_ok f -> is_finite f m -> is_finite f k -> is_finite f c ->
  let control := from_fpcr fpcr in
  let c' := if negates_addend operation then flip_sign f c else c in
  is_finite f c' /\ exists dm dk dc, operand f control m dm /\ operand f control k dk /\ operand f control c' dc /\
  exact_scalar_float_fused_multiply_add checks m k c precision operation fpcr =
    fused_finite checks dm dk dc (xorb (xorb (sign_of f m) (sign_of f k)) (negates_product operation)) f control
      (flush_status f control [m; k; c']).
Proof.
  intros Hp Hfmt Hf Fm Fk Fc control c'.
  destruct (negate_if_decodes f (negates_addend operation) c Hf Fc) as [Fc' Hdc]. fold c' in Fc', Hdc. split; [done|].
  unfold exact_scalar_float_fused_multiply_add. rewrite Hp. cbn [mbind res_bind]. rewrite Hfmt. cbn [mbind res_bind].
  fold control. change FpStatus_default with (flush_status f control []).
  destruct (flush_finite f Hf control m _ [] Fm (finite_decodes f Hf m Fm)) as (-> & dm & -> & Hm). cbn [app].
  destruct (flush_finite f Hf control k _ [m] Fk (finite_decodes f Hf k Fk)) as (-> & dk & -> & Hk). cbn [app].
  destruct (flush_finite f Hf control c' _ [m; k] Fc' Hdc) as (-> & dc & -> & Hc). cbn [app orb].
  rewrite (proj2 (op_finite _ _ _ _ Hm)), (proj2 (op_finite _ _ _ _ Hk)), (proj2 (op_finite _ _ _ _ Hc)). cbn [orb andb].
  rewrite (op_sign _ _ _ _ Hm), (op_sign _ _ _ _ Hk). by exists dm, dk, dc.
Qed.

Lemma fused_multiply_add_finite checks precision fmt f m k c operation fpcr :
  fp_format (E := A64FpSimdError) precision = Ok fmt -> BinaryFormat_new (E := A64FpSimdError) fmt = Ok f ->
  format_ok f -> is_finite f m -> is_finite f k -> is_finite f c ->
  let control := from_fpcr fpcr in
  let c' := if negates_addend operation then flip_sign f c else c in
  let product_sign := xorb (xorb (sign_of f m) (sign_of f k)) (negates_product operation) in
  let product := operand_units f control m * operand_units f control k in
  let addend := operand_units f control c' * 2 ^ unit_shift f in
  let sum := (if product_sign then - product else product) + (if sign_of f c' then - addend else addend) in
  (checks = true -> fused_zero_near f control m k c' = true) ->
  (product_sign = sign_of f c' -> fused_in_range f control m k c' = true) ->
  exists bits st',
    exact_scalar_float_fused_multiply_add checks m k c precision operation fpcr = Ok (mkExact bits st') /\
    rounds_ratio f control
      (if eqb product_sign (sign_of f c') then product_sign else bool_decide (rounding control = TowardNegative))
      (sum <? 0) (Z.abs sum) (2 ^ unit_shift f) (flush_status f control [m; k; c']) bits st'.
Proof.
  intros Hp Hfmt Hf Fm Fk Fc control c' product_sign product addend sum Hck Hrange.
  destruct (fused_reaches_finite checks precision fmt f m k c operation fpcr Hp Hfmt Hf Fm Fk Fc)
    as (Fc' & dm & dk & dc & Hm & Hk & Hc & ->). fold control c' product_sign in Hm, Hk, Hc, Fc' |- *.
  pose proof (fun A (test : Z -> Z -> Z -> Z -> A) => on_terms_decoded test f control m k c' dm dk dc Hf Fm Fk Fc' Hm Hk Hc) as Ht.
  unfold fused_zero_near in Hck. unfold fused_in_range in Hrange. rewrite Ht in Hck, Hrange.
  by apply (fused_finite_spec f Hf control (fpcr_rounding_mode_ok fpcr) m k c' dm dk dc Hm Hk Hc).
Qed.

(** The aligned sum leaves [u128]. *)
Lemma fused_multiply_add_overflows precision fmt f m k c operation fpcr :
  fp_format (E := A64FpSimdError) precision = Ok fmt -> BinaryFormat_new (E := A64FpSimdError) fmt = Ok f ->
  format_ok f -> is_finite f m -> is_finite f k -> is_finite f c ->
  let control := from_fpcr fpcr in
  let c' := if negates_addend operation then flip_sign f c else c in
  let product_sign := xorb (xorb (sign_of f m) (sign_of f k)) (negates_product operation) in
  let '(w, scale) := fused_aligned_sum f control m k c' in
  product_sign = sign_of f c' -> fused_in_range f control m k c' = false ->
  2 ^ 128 <= w < 2 ^ 129 /\
  exact_scalar_float_fused_multiply_add true m k c precision operation fpcr = Panic /\
  (2 ^ 128 < w -> exists bits st',
     exact_scalar_float_fused_multiply_add false m k c precision operation fpcr = Ok (mkExact bits st') /\
     correctly_rounded f control product_sign (dyadic_cut f (w - 2 ^ 128) scale)
       (flush_status f control [m; k; c']) bits st').
Proof.
  intros Hp Hfmt Hf Fm Fk Fc control c' product_sign.
  destruct (fused_reaches_finite true precision fmt f m k c operation fpcr Hp Hfmt Hf Fm Fk Fc)
    as (Fc' & dm & dk & dc & Hm & Hk & Hc & Et). fold control c' product_sign in Hm, Hk, Hc, Fc', Et.
  destruct (fused_reaches_finite false precision fmt f m k c operation fpcr Hp Hfmt Hf Fm Fk Fc)
    as (_ & dm' & dk' & dc' & Hm' & Hk' & Hc' & Ef). fold control c' product_sign in Hm', Hk', Hc', Ef.
  unfold fused_aligned_sum, fused_in_range. rewrite Et, Ef.
  rewrite !(on_terms_decoded _ f control m k c' dm' dk' dc') by done. cbv zeta. intros Es Hno.
  pose proof (on_terms_decoded fused_sum_fits f control m k c' dm' dk' dc' Hf Fm Fk Fc' Hm' Hk' Hc') as E1.
  rewrite (on_terms_decoded fused_sum_fits f control m k c' dm dk dc) in E1 by done.
  destruct (fused_finite_overflows f Hf control (fpcr_rounding_mode_ok fpcr) m k c' dm' dk' dc' Hm' Hk' Hc' product_sign
    (flush_status f control [m; k; c']) ltac:(done) Es Hno) as (Hw & _ & _ & Hr). split; [done|]. split; [|done].
  by apply (fused_finite_overflows f Hf control (fpcr_rounding_mode_ok fpcr) m k c' dm dk dc Hm Hk Hc product_sign);
    [done..|rewrite E1].
Qed.
