(* ===== verification/FloatConvProps.v ===== *)
(** * Comparison, conversions and integral rounding are exact

    Comparison orders values; integers convert with one rounding; binary32 and
    binary64 convert with one rounding; conversions to integers and the FRINT
    forms round the exact value and saturate. *)

From Stdlib Require Import ZArith Lia Bool.
From stdpp Require Import base numbers list option.
From S2P Require Import Prelude RustInt DecodeFpSimd.
Import DecodeFpSimd.FpSimd.
From S2P Require Import FloatFormat FloatOps FloatConv FloatRound FloatPack FloatArith FloatDivide.
Local Open Scope Z_scope.

(** ** Comparison *)

Definition nzcv_of (x : comparison) : Z :=
  match x with
  | Lt => Z.shiftl 1 31
  | Eq => Z.lor (Z.shiftl 1 30) (Z.shiftl 1 29)
  | Gt => Z.shiftl 1 29
  end.

Definition not_nan (f : BinaryFormat) (bits : Z) : Prop :=
  fits (total_bits f) bits /\ magnitude f bits <= infinity f.

Lemma units_inj f b b' : format_ok f -> 0 <= b -> 0 <= b' -> units f b = units f b' -> b = b'.
Proof.
  intros Hf Hb Hb' E. destruct (Z.lt_trichotomy b b') as [H|[H|H]]; [|done|].
  - pose proof (units_lt f Hf b b' ltac:(lia)). lia.
  - pose proof (units_lt f Hf b' b ltac:(lia)). lia.
Qed.

Lemma units_compare f b b' : format_ok f -> 0 <= b -> 0 <= b' -> (units f b ?= units f b') = (b ?= b').
Proof.
  intros Hf Hb Hb'. destruct (Z.compare_spec b b') as [->|H|H]; [apply Z.compare_refl|..].
  - apply Z.compare_lt_iff, units_lt; [done|lia].
  - apply Z.compare_gt_iff, units_lt; [done|lia].
Qed.

(** Comparing patterns without NaN: the tests of the code against the values. *)
Lemma compare_patterns f x y (sx sy : bool) mx my :
  format_ok f -> 0 <= mx < 2 ^ (total_bits f - 1) -> 0 <= my < 2 ^ (total_bits f - 1) ->
  x = Z.b2z sx * 2 ^ (total_bits f - 1) + mx -> y = Z.b2z sy * 2 ^ (total_bits f - 1) + my ->
  let equal := ((mx =? 0) && (my =? 0)) || (x =? y) in
  let less := if equal then false
              else if negb (eqb sx sy) then sx
              else if sx then my <? mx else x <? y in
  (if equal then Z.lor (Z.shiftl 1 30) (Z.shiftl 1 29) else if less then Z.shiftl 1 31 else Z.shiftl 1 29) =
  nzcv_of ((if sx then - units f mx else units f mx) ?= (if sy then - units f my else units f my)).
Proof.
  intros Hf Hx Hy Ex Ey equal less. set (T := 2 ^ (total_bits f - 1)) in *.
  assert (forall m, 0 <= m -> m = 0 /\ units f m = 0 \/ 0 < m /\ 0 < units f m) as Hpos.
  { intros m Hm. pose proof (units_zero f Hf m Hm) as Hz. pose proof (units_nonneg f Hf m Hm).
    destruct (Z.eqb_spec m 0) as [->|]; [left|right]; [apply Z.eqb_eq in Hz; lia|apply Z.eqb_neq in Hz; lia]. }
  pose proof (units_compare f mx my Hf ltac:(lia) ltac:(lia)) as Hcmp.
  destruct (Hpos mx ltac:(lia)) as [[Ex0 Eu]|[Ex0 Eu]], (Hpos my ltac:(lia)) as [[Ey0 Eu']|[Ey0 Eu']];
    subst equal less; unfold nzcv_of.
  - subst mx my. rewrite Eu. cbn [Z.eqb andb orb]. by destruct sx, sy.
  - subst mx; rewrite Eu. rewrite (proj2 (Z.eqb_neq my 0)), (proj2 (Z.eqb_neq x y)) by (destruct sx, sy; simpl Z.b2z in *; lia).
    rewrite andb_false_r. cbn [orb]. destruct sx, sy; cbn [negb eqb].
    + rewrite (proj2 (Z.ltb_ge my 0)) by lia. by rewrite (proj2 (Z.compare_gt_iff _ _)) by lia.
    + by rewrite (proj2 (Z.compare_lt_iff _ _)) by lia.
    + by rewrite (proj2 (Z.compare_gt_iff _ _)) by lia.
    + rewrite (proj2 (Z.ltb_lt x y)) by (simpl Z.b2z in *; lia). by rewrite (proj2 (Z.compare_lt_iff _ _)) by lia.
  - subst my; rewrite Eu'. rewrite (proj2 (Z.eqb_neq mx 0)), (proj2 (Z.eqb_neq x y)) by (destruct sx, sy; simpl Z.b2z in *; lia).
    cbn [andb orb]. destruct sx, sy; cbn [negb eqb].
    + rewrite (proj2 (Z.ltb_lt 0 mx)) by lia. by rewrite (proj2 (Z.compare_lt_iff _ _)) by lia.
    + by rewrite (proj2 (Z.compare_lt_iff _ _)) by lia.
    + by rewrite (proj2 (Z.compare_gt_iff _ _)) by lia.
    + rewrite (proj2 (Z.ltb_ge x y)) by (simpl Z.b2z in *; lia). by rewrite (proj2 (Z.compare_gt_iff _ _)) by lia.
  - rewrite (proj2 (Z.eqb_neq mx 0)) by lia. cbn [andb orb]. destruct sx, sy; cbn [negb eqb]; simpl Z.b2z in *.
    + rewrite Z.compare_opp, (units_compare f my mx) by (done || lia).
      destruct (Z.compare_spec my mx) as [E|E|E].
      * by rewrite (proj2 (Z.eqb_eq x y)) by lia.
      * rewrite (proj2 (Z.eqb_neq x y)) by lia. by rewrite (proj2 (Z.ltb_lt my mx)) by lia.
      * rewrite (proj2 (Z.eqb_neq x y)) by lia. by rewrite (proj2 (Z.ltb_ge my mx)) by lia.
    + rewrite (proj2 (Z.eqb_neq x y)) by lia. by rewrite (proj2 (Z.compare_lt_iff _ _)) by lia.
    + rewrite (proj2 (Z.eqb_neq x y)) by lia. by rewrite (proj2 (Z.compare_gt_iff _ _)) by lia.
    + rewrite Hcmp. destruct (Z.compare_spec mx my) as [E|E|E].
      * by rewrite (proj2 (Z.eqb_eq x y)) by lia.
      * rewrite (proj2 (Z.eqb_neq x y)) by lia. by rewrite (proj2 (Z.ltb_lt x y)) by lia.
      * rewrite (proj2 (Z.eqb_neq x y)) by lia. by rewrite (proj2 (Z.ltb_ge x y)) by lia.
Qed.

Lemma land_not_sign f bits : format_ok f -> fits (total_bits f) bits ->
  Z.land bits (not_w 64 (sign_mask f)) = magnitude f bits.
Proof.
  intros Hf Hb. pose proof (format_dims f Hf). rewrite sign_mask_pow by done. unfold magnitude.
  apply Z.bits_inj'. intros i Hi. rewrite Z.land_spec, testbit_not_w, Z.pow2_bits_eqb, Z.testbit_mod_pow2 by lia.
  destruct (Z.ltb_spec i (total_bits f - 1)).
  - rewrite (proj2 (Z.ltb_lt i 64)), (proj2 (Z.eqb_neq (total_bits f - 1) i)) by lia. by rewrite andb_true_r.
  - destruct (Z.eqb_spec (total_bits f - 1) i); [by rewrite andb_false_r, andb_false_r|].
    by rewrite (testbit_fits (total_bits f) bits i) by (done || lia).
Qed.

Lemma flush_any f control bits d0 l : format_ok f -> fits (total_bits f) bits -> decodes f bits d0 ->
  exists d, flush_operand d0 f control (flush_status f control l) = (d, flush_status f control (l ++ [bits])) /\
    decodes f (flushed f control bits) d.
Proof.
  intros Hf Hb Hd. destruct (flush_operand_spec f Hf control _ bits (flush_status f control l) Hb Hd) as (d & -> & Hd').
  exists d. split; [|done]. f_equal. unfold flush_status. rewrite existsb_app. simpl.
  destruct (flushes f control bits); [by rewrite orb_true_r|by rewrite orb_false_r].
Qed.

(** FCMP and FCMPE on operands that are not NaN order their values. *)
Lemma compare_ordered precision fmt f lhs rhs signaling fpcr :
  fp_format (E := A64FpSimdError) precision = Ok fmt -> BinaryFormat_new (E := A64FpSimdError) fmt = Ok f -> format_ok f ->
  not_nan f lhs -> not_nan f rhs ->
  let control := from_fpcr fpcr in
  exact_scalar_float_compare lhs rhs precision signaling fpcr =
    Ok (mkCompare (nzcv_of (signed_units f control lhs ?= signed_units f control rhs))
          (flush_status f control [lhs; rhs])).
Proof.
  intros Hp Hfmt Hf [HL Ml] [HR Mr] control. unfold exact_scalar_float_compare. rewrite Hp. cbn [mbind res_bind].
  rewrite Hfmt. cbn [mbind res_bind]. fold control.
  pose proof (DecodedFloat_new_spec f lhs Hf HL) as Dl. pose proof (DecodedFloat_new_spec f rhs Hf HR) as Dr.
  rewrite (decoded_nan f Hf _ _ Dl), (decoded_nan f Hf _ _ Dr).
  rewrite (proj2 (Z.ltb_ge (infinity f) (magnitude f lhs))), (proj2 (Z.ltb_ge (infinity f) (magnitude f rhs))) by lia.
  cbn [orb]. change FpStatus_default with (flush_status f control []).
  destruct (flush_any f control lhs _ [] Hf HL Dl) as (l & -> & Hl). cbn [app].
  destruct (flush_any f control rhs _ [lhs] Hf HR Dr) as (r & -> & Hr). cbn [app].
  destruct (flushed_spec f Hf control lhs HL) as (Fl & Sl & _).
  destruct (flushed_spec f Hf control rhs HR) as (Fr & Sr & _).
  rewrite (decoded_zero f Hf _ _ Hl), (decoded_zero f Hf _ _ Hr), (decoded_sign f l _ Hl), (decoded_sign f r _ Hr).
  rewrite (dec_bits _ _ _ Hl), (dec_bits _ _ _ Hr).
  rewrite (land_not_sign f _ Hf Fl), (land_not_sign f _ Hf Fr). do 2 f_equal.
  rewrite (compare_patterns f _ _ _ _ _ _ Hf (magnitude_bounds f Hf _) (magnitude_bounds f Hf _)
    (sign_split f Hf _ Fl) (sign_split f Hf _ Fr)).
  by rewrite Sl, Sr.
Qed.

(** A NaN operand compares unordered, and is invalid when signalling. *)
Lemma compare_unordered precision fmt f lhs rhs signaling fpcr :
  fp_format (E := A64FpSimdError) precision = Ok fmt -> BinaryFormat_new (E := A64FpSimdError) fmt = Ok f -> format_ok f ->
  fits (total_bits f) lhs -> fits (total_bits f) rhs ->
  infinity f < magnitude f lhs \/ infinity f < magnitude f rhs ->
  exists invalid, exact_scalar_float_compare lhs rhs precision signaling fpcr =
    Ok (mkCompare (Z.shiftl 3 28) (set_invalid_operation invalid FpStatus_default)) /\
    (signaling = true -> invalid = true).
Proof.
  intros Hp Hfmt Hf HL HR HN. unfold exact_scalar_float_compare. rewrite Hp. cbn [mbind res_bind].
  rewrite Hfmt. cbn [mbind res_bind].
  pose proof (DecodedFloat_new_spec f lhs Hf HL) as Dl. pose proof (DecodedFloat_new_spec f rhs Hf HR) as Dr.
  rewrite (decoded_nan f Hf _ _ Dl), (decoded_nan f Hf _ _ Dr).
  assert ((infinity f <? magnitude f lhs) || (infinity f <? magnitude f rhs) = true) as ->.
  { apply orb_true_iff. destruct HN; [left|right]; by apply Z.ltb_lt. }
  eexists. split; [reflexivity|]. by intros ->.
Qed.

(** ** Integers to floating point *)

(** The formats the conversions name by their width. *)
Definition ieee_format (width : Z) (f : BinaryFormat) : Prop :=
  width = 32 /\ f = binary32 \/ width = 64 /\ f = binary64.

Lemma ieee_format_ok width f : ieee_format width f -> format_ok f /\ total_bits f = width.
Proof. intros [[-> ->]|[-> ->]]; auto. Qed.

Lemma half_test retained rem d : 0 < d -> 0 <= rem ->
  (2 ^ (d - 1) <? rem) || ((rem =? 2 ^ (d - 1)) && negb (Z.land retained 1 =? 0)) =
  round_up TiesToEven false (2 * rem ?= 2 ^ d) (Z.odd retained).
Proof.
  intros Hd Hr. rewrite land_1_odd, (pow2_half d) by lia. cbn [round_up].
  destruct (Z.compare_spec (2 * rem) (2 * 2 ^ (d - 1))) as [E|E|E].
  - rewrite (proj2 (Z.ltb_ge _ _)), (proj2 (Z.eqb_eq _ _)) by lia. done.
  - rewrite (proj2 (Z.ltb_ge _ _)), (proj2 (Z.eqb_neq _ _)) by lia. done.
  - by rewrite (proj2 (Z.ltb_lt _ _)) by lia.
Qed.

(** A value cut at bit [d], as the three conversions do it. *)
Lemma cut_value v d : 0 <= d < 64 -> 0 <= v ->
  Z.shiftr v d = v / 2 ^ d /\ Z.land v (shl_w 64 1 d - 1) = v mod 2 ^ d.
Proof.
  intros Hd Hv. rewrite shl_w_pow2 by lia. split; [by rewrite Z.shiftr_div_pow2 by lia|].
  rewrite <- Z.land_ones, Z.ones_equiv by lia. f_equal; lia.
Qed.

Lemma log2_64 m : 0 < m < 2 ^ 64 -> 0 <= Z.log2 m < 64.
Proof. intros Hm. split; [apply Z.log2_nonneg|]. apply Z.log2_lt_pow2; lia. Qed.

Lemma log2_bounds m : 0 < m -> 2 ^ Z.log2 m <= m < 2 * 2 ^ Z.log2 m.
Proof.
  intros Hm. pose proof (Z.log2_spec m Hm). pose proof (Z.log2_nonneg m).
  rewrite Z.pow_succ_r in * by done. done.
Qed.

(** A rounded significand, its carry into the exponent, assembled. *)
Lemma carry_assembles f (Hf : format_ok f) negative e q (up : bool) :
  0 < e -> e + 1 < 2 ^ exponent_bits f - 1 -> 2 ^ fraction_bits f <= q < 2 ^ (fraction_bits f + 1) ->
  let '(significand, exponent) :=
    if q + Z.b2z up =? shl_w 64 1 (fraction_bits f + 1) then (Z.shiftr (q + Z.b2z up) 1, e + 1)
    else (q + Z.b2z up, e) in
  Z.lor (Z.lor (sign_bits_of negative f) (shl_w 64 exponent (fraction_bits f))) (Z.land significand (fraction_mask f)) =
  Z.b2z negative * 2 ^ (total_bits f - 1) + ((e - 1) * 2 ^ fraction_bits f + q + Z.b2z up).
Proof.
  intros He He' Hq. pose proof (format_dims f Hf). pose proof (pow2_lt (exponent_bits f) 64).
  rewrite shl_w_pow2, fraction_pow_succ in * by (done || lia). pose proof (fraction_pow_pos f Hf).
  destruct (Z.eqb_spec (q + Z.b2z up) (2 * 2 ^ fraction_bits f)) as [Ec|Ec].
  - rewrite <- (wrap_small 64 (e + 1)) by (unfold fits; lia).
    rewrite Ec, Z.shiftr_div_pow2, (Z.mul_comm 2), Z.div_mul by lia.
    rewrite (assemble_pattern f Hf) by (rewrite ?fraction_pow_succ by done; lia). lia.
  - rewrite <- (wrap_small 64 e) by (unfold fits; lia).
    rewrite (assemble_pattern f Hf); [rewrite wrap_small by (unfold fits; lia); lia|lia|].
    rewrite fraction_pow_succ by done. destruct up; simpl Z.b2z in *; lia.
Qed.

Section IntegerToFloat.
Context (f : BinaryFormat) (Hf : format_ok f) (mode : FpRoundingMode) (Hmode : fpcr_mode mode) (negative : bool).
Context (m : Z) (Hm : 0 < m < 2 ^ 64).
Abbreviation top := (Z.log2 m).
Abbreviation s := (top + exponent_bias f - 1).
Abbreviation c := (dyadic_cut f m 0).

(** The significand the code keeps, what it discards and how it rounds. *)
Lemma integer_quotient : exists q rem den, quotient c s q rem den /\
  2 ^ fraction_bits f <= q < 2 ^ (fraction_bits f + 1) /\
  (if top <=? fraction_bits f then Ok (shl_w 64 m (fraction_bits f - top), false)
   else
     let discarded_bits := top - fraction_bits f in
     let retained := Z.shiftr m discarded_bits in
     let discarded_mask := shl_w 64 1 discarded_bits - 1 in
     let discarded := Z.land m discarded_mask in
     let halfway := shl_w 64 1 (discarded_bits - 1) in
     increment ←
       (match mode with
        | TiesToEven => Ok ((halfway <? discarded) || ((discarded =? halfway) && negb (Z.land retained 1 =? 0)))
        | TowardPositive => Ok (negb negative && negb (discarded =? 0))
        | TowardNegative => Ok (negative && negb (discarded =? 0))
        | TowardZero => Ok false
        | TiesAway | ToOdd => Panic
        end : fp bool);
     Ok (retained + Z.b2z increment, negb (discarded =? 0))) =
  (Ok (q + Z.b2z (rounds_to c s q mode negative), negb (rem =? 0)) : fp (Z * bool)).
Proof.
  pose proof (log2_64 m Hm). pose proof (log2_bounds m ltac:(lia)) as Hl. pose proof (format_dims f Hf).
  assert (0 < exponent_bias f). { destruct Hf as [_ He _ _ ->]. pose proof (pow2_le 2 (exponent_bits f - 1)). lia. }
  rewrite fraction_pow_succ by done. destruct (Z.leb_spec top (fraction_bits f)) as [Hle|Hgt].
  - exists (m * 2 ^ (fraction_bits f - top)), 0, 1.
    assert (quotient c s (m * 2 ^ (fraction_bits f - top)) 0 1) as Hq.
    { apply dyadic_quotient_left; unfold unit_shift; lia. }
    replace (2 ^ fraction_bits f) with (2 ^ top * 2 ^ (fraction_bits f - top)).
    2:{ rewrite <- Z.pow_add_r by lia. f_equal. lia. }
    pose proof (pow2_pos (fraction_bits f - top) ltac:(lia)). split; [done|]. split; [nia|].
    unfold rounds_to. destruct Hq as (_ & -> & _). rewrite shl_w_small; [by rewrite Z.add_0_r|lia|].
    pose proof (pow2_le (fraction_bits f) 63). assert (2 ^ top * 2 ^ (fraction_bits f - top) = 2 ^ fraction_bits f).
    { rewrite <- Z.pow_add_r by lia. f_equal. lia. }
    unfold fits. nia.
  - set (d := top - fraction_bits f) in *. pose proof (pow2_pos d ltac:(lia)) as Hp.
    destruct (cut_value m d ltac:(lia) ltac:(lia)) as [Eq Er]. cbn zeta. rewrite Eq, Er, shl_w_pow2 by lia.
    exists (m / 2 ^ d), (m mod 2 ^ d), (2 ^ d).
    assert (quotient c s (m / 2 ^ d) (m mod 2 ^ d) (2 ^ d)) as Hq.
    { apply dyadic_quotient_right; unfold unit_shift; lia. }
    pose proof (Z.div_mod m (2 ^ d)) as Hdm. pose proof (Z.mod_pos_bound m (2 ^ d) Hp).
    assert (2 ^ top = 2 ^ fraction_bits f * 2 ^ d) as Et by (rewrite <- Z.pow_add_r by lia; f_equal; lia).
    split; [done|]. split; [split; [apply Z.div_le_lower_bound|apply Z.div_lt_upper_bound]; lia|].
    rewrite half_test by lia. unfold rounds_to. destruct Hq as (_ & -> & _ & Hmid).
    destruct (Z.eqb_spec (m mod 2 ^ d) 0) as [E|E].
    + rewrite E. destruct Hmode. rewrite (proj2 (Z.compare_lt_iff (2 * 0) (2 ^ d))) by lia.
      by destruct mode, negative.
    + rewrite (Hmid E). destruct Hmode. by destruct mode, negative.
Qed.

(** The conversion rounds the integer once, never overflows, and is inexact
    exactly when the rounded value is not the integer. *)
Lemma integer_magnitude_rounds width : ieee_format width f ->
  exists b, integer_magnitude_to_ieee m negative width mode =
      Ok (Z.b2z negative * 2 ^ (width - 1) + b, not_eq (c (2 * units f b))) /\
    rounded f mode negative c b /\ 0 < b < infinity f.
Proof.
  intros Hw. destruct (ieee_format_ok width f Hw) as [_ Ew].
  destruct integer_quotient as (q & rem & den & Hq & Hqr & E).
  unfold integer_magnitude_to_ieee. destruct (Z.eqb_spec m 0) as [|_]; [lia|].
  replace (if width =? 32 then (23, 127) else (52, 1023)) with (fraction_bits f, exponent_bias f)
    by (by destruct Hw as [[-> ->]|[-> ->]]).
  pose proof (top_bit 64 m ltac:(lia)) as Ht. change (64 - 1) with 63 in Ht. cbv beta iota zeta in E |- *. rewrite Ht, E. clear E Ht.
  cbn [mbind res_bind]. set (up := rounds_to c s q mode negative).
  pose proof (log2_64 m Hm) as Htop. pose proof (format_dims f Hf) as (? & ? & Htt & ?). pose proof (fraction_pow_pos f Hf).
  assert (64 < exponent_bias f /\ 2 * exponent_bias f = 2 ^ exponent_bits f - 2) as [Hb64 Hb2].
  { split; [|by apply bias_field]. destruct Hf as [_ He _ _ ->]. pose proof (pow2_le 7 (exponent_bits f - 1)). lia. }
  assert (normal_form f s q) as Hn by (split; [lia|split; [lia|right; lia]]).
  destruct Hq as (_ & Hlo & Hhi & _).
  assert (c (2 * (q * 2 ^ s)) <> Lt) as Hlo' by (rewrite Hlo; by destruct (rem =? 0)).
  assert (is_cut c) as Hc by apply dyadic_is_cut.
  set (b := s * 2 ^ fraction_bits f + q + Z.b2z up).
  assert (s * 2 ^ fraction_bits f + q + 1 < infinity f) as Hfin.
  { rewrite fraction_pow_succ in Hqr by done. unfold infinity. rewrite <- (Z.sub_add 2 (2 ^ exponent_bits f)), <- Hb2. nia. }
  assert (0 <= s * 2 ^ fraction_bits f) by (apply Z.mul_nonneg_nonneg; lia).
  assert (0 < b) as Hbpos by (unfold b; destruct up; simpl Z.b2z; lia).
  assert (b < infinity f) as Hblt by (unfold b; destruct up; simpl Z.b2z; lia).
  exists b. split; [|split; [apply rounded_core; done || lia|done]].
  assert (not_eq (c (2 * units f b)) = negb (rem =? 0)) as ->.
  { pose proof (core_inexact f Hf c Hc s q Hn Hlo' Hhi mode negative ltac:(lia)) as Hix. fold up b in Hix.
    unfold rounds_inexactly in Hix. pose proof (core_overflows f Hf c Hc s q Hn Hhi mode negative ltac:(lia)) as Hov.
    fold up b in Hov. rewrite (proj2 (Z.eqb_neq b (infinity f))) in Hov by lia. rewrite Hov in Hix. cbn [orb] in Hix.
    rewrite Hix, Hlo. by destruct (rem =? 0). }
  rewrite <- Ew. pose proof (carry_assembles f Hf negative (top + exponent_bias f) q up) as Ha.
  destruct (q + Z.b2z up =? shl_w 64 1 (fraction_bits f + 1)); do 2 f_equal; apply Ha; done || lia.
Qed.
End IntegerToFloat.
