(* ===== verification/FloatConversions.v ===== *)
(** * Conversions round once

    To integers with saturation, between the two formats, and to integral values. *)

From Stdlib Require Import ZArith Lia Bool.
From stdpp Require Import base numbers list option.
From S2P Require Import Prelude RustInt DecodeFpSimd.
Import DecodeFpSimd.FpSimd.
From S2P Require Import FloatFormat FloatOps FloatConv FloatRound FloatPack FloatArith FloatConvProps.
Local Open Scope Z_scope.

(** The magnitude [n / d] rounded to an integer. *)
Definition round_quotient (rounding : FloatToIntegerRounding) (negative : bool) (n d : Z) : Z :=
  n / d + Z.b2z (negb (n mod d =? 0) && conversion_increment rounding negative (2 * (n mod d) ?= d) (n / d)).

Definition in_integer_range (signed : bool) (width v : Z) : bool :=
  if signed then (- 2 ^ (width - 1) <=? v) && (v <? 2 ^ (width - 1)) else (0 <=? v) && (v <? 2 ^ width).

(** A quotient whose denominator is a power of two, rescaled. *)
Lemma round_quotient_scale rounding negative n d k : 0 < k -> 0 < d ->
  round_quotient rounding negative (n * k) (d * k) = round_quotient rounding negative n d /\
  (((n * k) mod (d * k) =? 0) = (n mod d =? 0)).
Proof.
  intros Hk Hd. unfold round_quotient. rewrite Z.div_mul_cancel_r, Z.mul_mod_distr_r by lia.
  assert ((n mod d * k =? 0) = (n mod d =? 0)) as ->.
  { destruct (Z.eqb_spec (n mod d) 0) as [->|E]; [done|]. apply Z.eqb_neq. nia. }
  split; [|done]. do 4 f_equal. rewrite Z.mul_assoc. symmetry. apply Zmult_compare_compat_r. lia.
Qed.

Lemma round_quotient_exact rounding negative n : round_quotient rounding negative n 1 = n /\ (n mod 1 =? 0) = true.
Proof. unfold round_quotient. rewrite Z.div_1_r, Z.mod_1_r. simpl. split; [lia|done]. Qed.

Lemma round_quotient_nonneg rounding negative n d : 0 <= n -> 0 < d -> 0 <= round_quotient rounding negative n d.
Proof. intros. unfold round_quotient. pose proof (Z.div_pos n d). destruct (_ && _); simpl; lia. Qed.

Section Magnitude.
Context (rounding : FloatToIntegerRounding) (negative : bool) (significand shift : Z).
Context (Hs : 0 <= significand < 2 ^ 53) (Hzero : 0 <= shift -> 0 < significand).

Abbreviation n := (significand * 2 ^ Z.max 0 shift).
Abbreviation d := (2 ^ Z.max 0 (- shift)).

(** The magnitude the code computes is the rounded quotient, saturated at
    [u128::MAX], and [discarded] says whether it is not exact. *)
Lemma integer_magnitude_spec :
  let '(magnitude, discarded, relation_to_half) :=
    if 0 <=? shift then
      if (128 <=? shift) || (Z.shiftr (Z.ones 128) shift <? significand) then (Z.ones 128, false, Lt)
      else (shl_w 128 significand shift, false, Lt)
    else
      let right := - shift in
      if 128 <=? right then (0, negb (significand =? 0), Lt)
      else
        let mask := shl_w 128 1 right - 1 in
        let remainder := Z.land significand mask in
        (Z.shiftr significand right, negb (remainder =? 0), remainder ?= shl_w 128 1 (right - 1)) in
  Z.min (magnitude + Z.b2z (discarded && conversion_increment rounding negative relation_to_half magnitude)) (Z.ones 128)
    = Z.min (round_quotient rounding negative n d) (Z.ones 128) /\
  discarded = negb (n mod d =? 0).
Proof.
  assert (Z.ones 128 = 2 ^ 128 - 1) as Eo by done.
  destruct (Z.leb_spec 0 shift) as [Hp|Hn].
  - specialize (Hzero Hp). rewrite (Z.max_r 0 shift), (Z.max_l 0 (- shift)) by lia. change (2 ^ 0) with 1.
    destruct (round_quotient_exact rounding negative (significand * 2 ^ shift)) as [-> ->].
    pose proof (pow2_pos shift Hp) as Hpos.
    destruct (Z.leb_spec 128 shift) as [Hge|Hlt]; cbn [orb].
    + split; [|done]. pose proof (pow2_le 128 shift). rewrite Eo, !Z.min_r by (simpl Z.b2z; nia). done.
    + rewrite Z.shiftr_div_pow2 by lia. destruct (Z.ltb_spec (Z.ones 128 / 2 ^ shift) significand) as [Hov|Hok].
      * split; [|done]. simpl Z.b2z. rewrite (Z.min_r (significand * 2 ^ shift)); [lia|].
        apply Z.lt_le_incl. pose proof (Z.mul_succ_div_gt (Z.ones 128) (2 ^ shift) Hpos). nia.
      * assert (significand * 2 ^ shift <= Z.ones 128).
        { pose proof (Z.mul_div_le (Z.ones 128) (2 ^ shift) Hpos). nia. }
        rewrite shl_w_small; [|lia|unfold fits; lia]. simpl Z.b2z. by rewrite Z.add_0_r.
  - rewrite (Z.max_l 0 shift), (Z.max_r 0 (- shift)) by lia. change (2 ^ 0) with 1. rewrite Z.mul_1_r. cbn zeta.
    pose proof (pow2_pos (- shift) ltac:(lia)) as Hpos. change (2 ^ 53) with 9007199254740992 in Hs.
    destruct (Z.leb_spec 128 (- shift)) as [Hfar|Hnear].
    + pose proof (pow2_le 128 (- shift)). change (2 ^ 128) with 340282366920938463463374607431768211456 in *.
      unfold round_quotient. rewrite Z.div_small, Z.mod_small by lia.
      by rewrite (proj2 (Z.compare_lt_iff (2 * significand) (2 ^ (- shift)))) by lia.
    + rewrite !shl_w_pow2 by lia. replace (2 ^ (- shift) - 1) with (Z.ones (- shift)) by (rewrite Z.ones_equiv; lia).
      rewrite Z.land_ones, Z.shiftr_div_pow2 by lia. split; [|done]. unfold round_quotient. do 5 f_equal.
      rewrite (pow2_half (- shift)) at 3 by lia. apply Zmult_compare_compat_l. lia.
Qed.
End Magnitude.

(** The conversion over the decoded operand. *)
Lemma float_bits_to_integer_decoded source f width signed rounding fractional fpcr :
  let dec := DecodedFloat_new source f in
  let negative := df_sign dec in
  let shift := df_scale dec + fractional in
  (df_exponent_field dec =? exponent_max f) = false ->
  bit_set fpcr 24 && is_subnormal dec = false ->
  float_bits_to_integer source f width signed rounding fractional fpcr =
  let '(magnitude, discarded, relation_to_half) :=
    if 0 <=? shift then
      if (128 <=? shift) || (Z.shiftr (Z.ones 128) shift <? df_significand dec) then (Z.ones 128, false, Lt)
      else (shl_w 128 (df_significand dec) shift, false, Lt)
    else
      let right := - shift in
      if 128 <=? right then (0, negb (df_significand dec =? 0), Lt)
      else
        let mask := shl_w 128 1 right - 1 in
        let remainder := Z.land (df_significand dec) mask in
        (Z.shiftr (df_significand dec) right, negb (remainder =? 0), remainder ?= shl_w 128 1 (right - 1)) in
  let m := Z.min (magnitude + Z.b2z (discarded && conversion_increment rounding negative relation_to_half magnitude))
             (Z.ones 128) in
  if (if negative then if signed then (if signed then shl_w 128 1 (width - 1) else 0) <? m else negb (m =? 0)
      else (if signed then shl_w 128 1 (width - 1) - 1 else shl_w 128 1 width - 1) <? m)
  then mkInteger (saturated width signed negative) width (set_invalid_operation true FpStatus_default)
  else mkInteger (if negative && negb (m =? 0) then wrapping_sub 64 0 (wrap 64 m) else wrap 64 m) width
         (set_inexact discarded FpStatus_default).
Proof.
  unfold is_subnormal, float_bits_to_integer, DecodedFloat_new.
  destruct (Z.shiftr (Z.land source (exponent_mask f)) (fraction_bits f) =? 0) eqn:E0; cbn -[shl_w Z.ones Z.min];
    intros ->; [intros Hx|intros _; done]. rewrite E0, andb_comm in Hx. cbn [andb] in Hx. by rewrite Hx.
Qed.

Section ToInteger.
Context (f : BinaryFormat) (Hf : format_ok f) (bits width fpcr fractional : Z) (signed : bool).
Context (rounding : FloatToIntegerRounding) (Hfin : is_finite f bits) (Hw : width = 32 \/ width = 64).
Context (Hfr : 0 <= fractional <= 64) (Hflush : flushes f (from_fpcr fpcr) bits = false).

Abbreviation negative := (sign_of f bits).
(** The scaled value of the operand is [n / d]. *)
Abbreviation n := (units f (magnitude f bits) * 2 ^ fractional).
Abbreviation d := (2 ^ unit_shift f).
Abbreviation v := (let m := round_quotient rounding negative n d in if negative then - m else m).

Abbreviation dec := (DecodedFloat_new bits f).
Abbreviation shift := (df_scale dec + fractional).

Lemma scaled_quotient_value :
  round_quotient rounding negative n d =
    round_quotient rounding negative (df_significand dec * 2 ^ Z.max 0 shift) (2 ^ Z.max 0 (- shift)) /\
  (n mod d =? 0) = ((df_significand dec * 2 ^ Z.max 0 shift) mod 2 ^ Z.max 0 (- shift) =? 0).
Proof.
  pose proof (finite_decodes f Hf bits Hfin) as Hd. pose proof (unit_shift_nonneg f Hf).
  pose proof (dec_scale _ _ _ Hd). pose proof (field_nonneg f Hf bits _ Hd).
  set (k := Z.min (unit_shift f) (unit_shift f + shift)).
  assert (0 <= k) by (unfold k; lia). pose proof (pow2_pos k ltac:(lia)).
  replace n with (df_significand dec * 2 ^ Z.max 0 shift * 2 ^ k).
  2:{ rewrite (decoded_units f Hf bits _ Hd), <- !Z.mul_assoc, <- !Z.pow_add_r by lia. do 2 f_equal. unfold k. lia. }
  replace d with (2 ^ Z.max 0 (- shift) * 2 ^ k) by (rewrite <- Z.pow_add_r by lia; f_equal; unfold k; lia).
  apply round_quotient_scale; [done|apply pow2_pos; lia].
Qed.

Lemma integer_operand : 0 <= df_significand dec < 2 ^ 53 /\ (0 <= shift -> 0 < df_significand dec).
Proof.
  pose proof (finite_decodes f Hf bits Hfin) as Hd. destruct (significand_range f Hf bits _ Hd) as [Hs Hn].
  pose proof (format_dims f Hf). pose proof (pow2_le (fraction_bits f + 1) 53). split; [lia|].
  intros Hsh. pose proof (dec_scale _ _ _ Hd) as Hsc. pose proof (fraction_pow_pos f Hf).
  assert (df_exponent_field dec <> 0) as Hne; [|specialize (Hn Hne); lia].
  intros E. rewrite E in Hsc. change (Z.max 0 1 - 1) with 0 in Hsc. unfold unit_shift in Hsc.
  destruct Hf as [? ? _ _ Hbias]. pose proof (pow2_le 7 (exponent_bits f - 1)). lia.
Qed.

(** Beyond the range of the integer. *)
Lemma out_of_range_spec m : 0 <= m ->
  (if negative then if signed then (if signed then shl_w 128 1 (width - 1) else 0) <? Z.min m (Z.ones 128)
                    else negb (Z.min m (Z.ones 128) =? 0)
   else (if signed then shl_w 128 1 (width - 1) - 1 else shl_w 128 1 width - 1) <? Z.min m (Z.ones 128)) =
  negb (in_integer_range signed width (if negative then - m else m)).
Proof.
  intros Hm. unfold in_integer_range. rewrite !shl_w_pow2 by lia.
  change (Z.ones 128) with 340282366920938463463374607431768211455.
  assert (2 ^ (width - 1) <= 2 ^ 63 /\ 2 ^ width <= 2 ^ 64 /\ 0 < 2 ^ (width - 1)) as (H1 & H2 & H3).
  { split; [apply pow2_le; lia|]. split; [apply pow2_le; lia|apply pow2_pos; lia]. }
  change (2 ^ 63) with 9223372036854775808 in H1. change (2 ^ 64) with 18446744073709551616 in H2.
  destruct negative, signed; [| |rewrite (proj2 (Z.leb_le (- 2 ^ (width - 1)) m)) by lia; cbn [andb]
    |rewrite (proj2 (Z.leb_le 0 m)) by lia; cbn [andb]].
  - rewrite (proj2 (Z.ltb_lt (- m) _)) by lia. rewrite andb_true_r, <- Z.ltb_antisym.
    apply eq_true_iff_eq. rewrite !Z.ltb_lt. lia.
  - apply eq_true_iff_eq. rewrite !negb_true_iff, Z.eqb_neq, andb_false_iff, Z.leb_gt, Z.ltb_ge.
    pose proof (pow2_pos width). lia.
  - rewrite <- Z.leb_antisym. apply eq_true_iff_eq. rewrite Z.ltb_lt, Z.leb_le. lia.
  - rewrite <- Z.leb_antisym. apply eq_true_iff_eq. rewrite Z.ltb_lt, Z.leb_le. lia.
Qed.

(** In range, the code's two's complement is the value. *)
Lemma integer_value_spec m : 0 <= m -> in_integer_range signed width (if negative then - m else m) = true ->
  (if negative && negb (Z.min m (Z.ones 128) =? 0) then wrapping_sub 64 0 (wrap 64 (Z.min m (Z.ones 128)))
   else wrap 64 (Z.min m (Z.ones 128))) = wrap 64 (if negative then - m else m).
Proof.
  intros Hm Hr. assert (m <= 2 ^ 64) as Hle.
  { unfold in_integer_range in Hr. pose proof (pow2_le (width - 1) 64). pose proof (pow2_le width 64).
    destruct negative, signed; rewrite andb_true_iff, Z.leb_le, Z.ltb_lt in Hr; lia. }
  rewrite Z.min_l by (change (Z.ones 128) with 340282366920938463463374607431768211455;
    change (2 ^ 64) with 18446744073709551616 in Hle; lia).
  destruct negative; [|done]. cbn [andb]. destruct (Z.eqb_spec m 0) as [->|]; [done|]. cbn [negb].
  unfold wrapping_sub, wrap. rewrite Z.sub_0_l, <- (Z.sub_0_l m), <- (Z.sub_0_l (m mod 2 ^ 64)). apply Zminus_mod_idemp_r.
Qed.

(** A finite operand converts to its value rounded once; a value out of the
    range of the integer saturates and is invalid. *)
Lemma float_bits_to_integer_spec :
  float_bits_to_integer bits f width signed rounding fractional fpcr =
  if in_integer_range signed width v
  then mkInteger (wrap 64 v) width (set_inexact (negb (n mod d =? 0)) FpStatus_default)
  else mkInteger (saturated width signed negative) width (set_invalid_operation true FpStatus_default).
Proof.
  pose proof (finite_decodes f Hf bits Hfin) as Hd. pose proof (proj2 Hfin) as Hi.
  destruct integer_operand as [Hs Hz]. destruct scaled_quotient_value as [Eq Er].
  pose proof (integer_magnitude_spec rounding negative (df_significand dec) shift Hs Hz) as Hmag.
  rewrite float_bits_to_integer_decoded.
  2:{ pose proof (magnitude_infinity f Hf bits _ Hd) as Hinf. rewrite (proj2 (Z.compare_lt_iff _ _) Hi) in Hinf.
      by repeat case_match. }
  2:{ exact (eq_trans (subnormal_flushes f Hf (from_fpcr fpcr) _ bits Hd) Hflush). }
  rewrite (decoded_sign f _ bits Hd).
  destruct (if 0 <=? shift then _ else _) as [[mag discarded] half].
  destruct Hmag as [-> ->]. rewrite <- Eq, <- Er. cbv zeta.
  pose proof (round_quotient_nonneg rounding negative n d) as Hm.
  assert (0 <= n) by (apply Z.mul_nonneg_nonneg; [apply units_nonneg, magnitude_bounds; done|apply Z.pow_nonneg; lia]).
  specialize (Hm ltac:(done) (pow2_pos _ (unit_shift_nonneg f Hf))). rewrite (out_of_range_spec _ Hm).
  destruct (in_integer_range signed width _) eqn:Hr; cbn [negb]; [|done]. by rewrite (integer_value_spec _ Hm Hr).
Qed.
End ToInteger.

(** NaN converts to zero and infinity saturates, both invalid. *)
Lemma float_bits_to_integer_special f bits width signed rounding fractional fpcr :
  format_ok f -> fits (total_bits f) bits -> infinity f <= magnitude f bits ->
  float_bits_to_integer bits f width signed rounding fractional fpcr =
  mkInteger (if infinity f <? magnitude f bits then 0 else saturated width signed (sign_of f bits)) width
    (set_invalid_operation true FpStatus_default).
Proof.
  intros Hf Hb Hi. pose proof (DecodedFloat_new_spec f bits Hf Hb) as Hd.
  pose proof (magnitude_infinity f Hf bits _ Hd) as Hc. unfold float_bits_to_integer.
  rewrite land_sign_mask, land_exponent_mask, land_fraction_mask by (done || apply Hb).
  rewrite <- (dec_exponent _ _ _ Hd), <- (dec_fraction _ _ _ Hd).
  destruct (df_exponent_field (DecodedFloat_new bits f) =? exponent_max f).
  - destruct (df_fraction (DecodedFloat_new bits f) =? 0).
    + apply Z.compare_eq in Hc. by rewrite Hc, Z.ltb_irrefl.
    + apply Z.compare_gt_iff in Hc. by rewrite (proj2 (Z.ltb_lt _ _) Hc).
  - rewrite Z.compare_lt_iff in Hc. lia.
Qed.

(** A flushed subnormal converts to zero and is reported. *)
Lemma float_bits_to_integer_flushed f bits width signed rounding fractional fpcr :
  format_ok f -> is_finite f bits -> flushes f (from_fpcr fpcr) bits = true ->
  float_bits_to_integer bits f width signed rounding fractional fpcr =
  mkInteger 0 width (set_input_denormal true FpStatus_default).
Proof.
  intros Hf [Hb Hi] Hfl. pose proof (DecodedFloat_new_spec f bits Hf Hb) as Hd.
  pose proof (magnitude_infinity f Hf bits _ Hd) as Hc. rewrite (proj2 (Z.compare_lt_iff _ _) Hi) in Hc.
  rewrite <- (subnormal_flushes f Hf (from_fpcr fpcr) _ bits Hd) in Hfl. unfold is_subnormal in Hfl.
  apply andb_prop in Hfl as [Hz [E1 E2]%andb_prop]. unfold float_bits_to_integer.
  rewrite land_sign_mask, land_exponent_mask, land_fraction_mask by (done || apply Hb).
  rewrite <- (dec_exponent _ _ _ Hd), <- (dec_fraction _ _ _ Hd).
  destruct (df_exponent_field (DecodedFloat_new bits f) =? exponent_max f); [by repeat case_match|].
  rewrite E1, E2. change (bit_set fpcr 24) with (flush_to_zero (from_fpcr fpcr)). by rewrite Hz.
Qed.

(** ** Conversion between the formats and rounding to integral values

    [convert_finite_format] repeats the rounding of [pack_float_sum] on 64-bit
    words; the two are the same function, so conversions round once. *)

(** The rounding right shift of the conversions is the scaling and the rounding
    of [pack_float_sum]. *)
Lemma round_shift_right_scales v d negative mode : fpcr_mode mode -> 0 <= v < 2 ^ 64 -> 0 < d ->
  round_shift_right v d negative mode =
  let '(q, rem, den) := scale_integer_for_pack v d in
  up ← should_round q rem den negative mode;
  Ok (q + Z.b2z up, negb (rem =? 0)).
Proof.
  intros Hmode Hv Hd. assert (0 <= v < 2 ^ 127) by (change (2 ^ 64) with 18446744073709551616 in Hv; lia).
  unfold round_shift_right, scale_integer_for_pack.
  rewrite (proj2 (Z.eqb_neq d 0)), (proj2 (Z.leb_gt d 0)) by lia.
  destruct (Z.ltb_spec d 64) as [H64|H64].
  - rewrite (proj2 (Z.ltb_lt d 128)), !shl_w_pow2 by lia.
    assert (Z.land v (2 ^ d - 1) = v mod 2 ^ d) as Er
      by (rewrite <- Z.land_ones, Z.ones_equiv by lia; f_equal; lia).
    pose proof (Z.mod_pos_bound v (2 ^ d) ltac:(apply pow2_pos; lia)). pose proof (pow2_le d 64).
    rewrite Z.shiftr_div_pow2, Er by lia. change (2 ^ 64) with 18446744073709551616 in *.
    rewrite (wrap_small 64) by (split; [apply Z.div_pos; lia|apply Z.div_lt_upper_bound; nia]).
    rewrite should_round_spec by (done || lia). rewrite half_test by lia.
    destruct (Z.eqb_spec (v mod 2 ^ d) 0); cbn [mbind res_bind negb Z.b2z]; [by rewrite Z.add_0_r|].
    destruct Hmode. by destruct mode.
  - assert (2 ^ 64 <= 2 ^ d) as Hp by (apply pow2_le; lia). destruct (Z.ltb_spec d 128) as [H128|H128].
    + rewrite (shl_w_pow2 128) by lia. replace (2 ^ d - 1) with (Z.ones d) by (rewrite Z.ones_equiv; lia).
      rewrite Z.land_ones, Z.shiftr_div_pow2, Z.mod_small, Z.div_small by lia. rewrite should_round_spec by done.
      destruct (Z.eqb_spec v 0) as [->|Hnz]; [done|]. change (wrap 64 0) with 0. cbn [mbind res_bind negb].
      destruct Hmode. destruct mode; try done. cbn [round_up Z.odd]. destruct (Z.eqb_spec d 64) as [->|H65].
      * change (shl_w 64 1 63) with (2 ^ 63). change (2 ^ 64) with (2 * 2 ^ 63).
        destruct (Z.compare_spec (2 * v) (2 * 2 ^ 63)); [rewrite (proj2 (Z.ltb_ge _ _)) by lia|
          rewrite (proj2 (Z.ltb_ge _ _)) by lia|rewrite (proj2 (Z.ltb_lt _ _)) by lia]; done.
      * rewrite (proj2 (Z.compare_lt_iff _ _)); [done|]. pose proof (pow2_le 65 d).
        change (2 ^ 65) with (2 * 2 ^ 64) in *. lia.
    + rewrite should_round_spec by done. destruct (Z.eqb_spec v 0) as [->|Hnz]; [done|]. cbn [mbind res_bind negb].
      destruct Hmode. destruct mode; try done. cbn [round_up Z.odd]. rewrite (proj2 (Z.eqb_neq d 64)) by lia.
      rewrite (proj2 (Z.compare_lt_iff _ _)); [done|]. change (2 ^ 64) with 18446744073709551616 in *.
      change (Z.ones 128) with 340282366920938463463374607431768211455. lia.
Qed.

Lemma scale_left v shift : shift <= 0 -> scale_integer_for_pack v shift = (shl_w 64 v (- shift), 0, 1).
Proof.
  intros Hs. unfold scale_integer_for_pack. rewrite (proj2 (Z.leb_le shift 0)) by done. do 2 f_equal.
  unfold shl_w. apply wrap_wrap_le. lia.
Qed.

(** The conversion of a nonzero finite operand is the packing of its significand
    at its scale. *)
Lemma convert_finite_packs source f control st :
  format_ok f -> fpcr_mode (rounding control) -> 0 < df_significand source < 2 ^ 64 ->
  convert_finite_format source (sign_bits_of (df_sign source) f) f control st =
  pack_float_sum (df_significand source) (df_scale source) (df_sign source) f control st.
Proof.
  intros Hf Hmode Hs. unfold convert_finite_format, pack_float_sum.
  pose proof (top_bit 64 (df_significand source) ltac:(lia)) as Ht. change (64 - 1) with 63 in Ht. rewrite Ht.
  pose proof (top_bit 128 (df_significand source) ltac:(lia)) as Ht'. change (128 - 1) with 127 in Ht'. rewrite Ht'.
  clear Ht Ht'. set (top := Z.log2 (df_significand source)). cbv zeta.
  destruct (1 - exponent_bias f <=? df_scale source + top).
  - replace (top + 1 - (fraction_bits f + 1)) with (top - fraction_bits f) by lia. unfold pack_normal.
    destruct (Z.ltb_spec (fraction_bits f + 1) (top + 1)) as [Hr|Hl].
    + rewrite round_shift_right_scales by (done || lia).
      destruct (scale_integer_for_pack _ _) as [[q rem] den].
      destruct (should_round q rem den (df_sign source) (rounding control)) as [up| | ]; [|done|done].
      cbn [mbind res_bind]. replace (if up then q + 1 else q) with (q + Z.b2z up) by (destruct up; simpl; lia). done.
    + rewrite scale_left by lia. replace (- (top - fraction_bits f)) with (fraction_bits f + 1 - (top + 1)) by lia. done.
  - replace (1 - exponent_bias f - fraction_bits f - df_scale source)
      with (- (df_scale source - (1 - exponent_bias f - fraction_bits f))) by lia. unfold pack_subnormal.
    destruct (Z.leb_spec 0 (df_scale source - (1 - exponent_bias f - fraction_bits f))) as [Hl|Hr].
    + rewrite scale_left, Z.opp_involutive by lia. done.
    + rewrite round_shift_right_scales by (done || lia).
      destruct (scale_integer_for_pack _ _) as [[q rem] den].
      destruct (should_round q rem den (df_sign source) (rounding control)) as [up| | ]; [|done|done].
      cbn [mbind res_bind]. replace (if up then q + 1 else q) with (q + Z.b2z up) by (destruct up; simpl; lia). done.
Qed.

(** [convert_ieee_format] on a finite operand: its value, in units of the
    destination, rounded once. *)
Lemma convert_format_finite sfmt sf dfmt df bits control :
  BinaryFormat_new (E := A64FpSimdError) sfmt = Ok sf -> BinaryFormat_new (E := A64FpSimdError) dfmt = Ok df ->
  format_ok sf -> format_ok df -> fpcr_mode (rounding control) -> is_finite sf bits ->
  exists bits' st', convert_ieee_format bits sfmt dfmt control = Ok (mkLane bits' st') /\
    rounds_ratio df control (sign_of sf bits) (sign_of sf bits)
      (operand_units sf control bits * 2 ^ unit_shift df) (2 ^ unit_shift sf)
      (flush_status sf control [bits]) bits' st'.
Proof.
  intros Hs Hd Hsf Hdf Hmode Hfin. pose proof (finite_decodes sf Hsf bits Hfin) as Hdec.
  pose proof (unit_shift_nonneg sf Hsf) as HUs. pose proof (unit_shift_nonneg df Hdf) as HUd.
  pose proof (pow2_pos (unit_shift df) HUd) as HpU.
  unfold convert_ieee_format. rewrite Hs. cbn [mbind res_bind]. rewrite Hd. cbn [mbind res_bind].
  destruct (finite_not_special sf Hsf _ bits Hdec (proj2 Hfin)) as [-> Hninf].
  pose proof (decoded_sign sf _ bits Hdec) as Hsg. rewrite (subnormal_flushes sf Hsf control _ bits Hdec).
  unfold rounds_ratio, flush_status. cbn [existsb]. rewrite orb_false_r.
  destruct (flushes sf control bits) eqn:Efl.
  - eexists _, _. cbn -[sign_bits_of]. assert ((df_exponent_field (DecodedFloat_new bits sf) =? 0) = true) as Hz.
    { unfold flushes in Efl. apply andb_prop in Efl as [_ Esub]. unfold subnormal_pattern in Esub.
      rewrite <- (decoded_subnormal sf Hsf bits _ Hdec) in Esub. unfold is_subnormal in Esub.
      by apply andb_prop in Esub as [-> _]. }
    unfold is_zero. cbn -[sign_bits_of]. rewrite Hz. cbn -[sign_bits_of]. split; [reflexivity|].
    destruct (flushed_spec sf Hsf control bits (proj1 Hfin)) as (_ & _ & Hm). unfold operand_units. rewrite Hm, Efl.
    assert (units sf 0 = 0) as -> by (apply Z.eqb_eq; by rewrite units_zero). by rewrite Hsg.
  - assert (operand_units sf control bits = units sf (magnitude sf bits)) as Eu by (unfold operand_units, flushed; by rewrite Efl).
    rewrite (decoded_zero_units sf Hsf _ bits Hdec), <- Eu.
    destruct (Z.eqb_spec (operand_units sf control bits) 0) as [E0|E0].
    + rewrite E0. eexists _, _. split; [reflexivity|]. by rewrite Hsg.
    + rewrite Hninf, (proj2 (Z.eqb_neq (operand_units sf control bits * _) 0)) by nia.
      destruct (significand_range sf Hsf bits _ Hdec) as [Hr _]. pose proof (format_dims sf Hsf).
      pose proof (pow2_le (fraction_bits sf + 1) 64). rewrite (decoded_units sf Hsf bits _ Hdec) in Eu.
      assert (0 < df_significand (DecodedFloat_new bits sf)).
      { destruct (Z.eq_dec (df_significand (DecodedFloat_new bits sf)) 0) as [E|]; [rewrite E in Eu|]; lia. }
      rewrite convert_finite_packs by (done || lia). rewrite Hsg.
      destruct (pack_float_sum_spec df (df_significand (DecodedFloat_new bits sf)) (df_scale (DecodedFloat_new bits sf))
        (sign_of sf bits) control FpStatus_default) as (b & st' & -> & Hcr); [done..| | |].
      * change (2 ^ 128) with (2 ^ 64 * 2 ^ 64). change (2 ^ 64) with 18446744073709551616 in *. lia.
      * left. change (2 ^ 127) with (2 ^ 64 * 2 ^ 63). change (2 ^ 64) with 18446744073709551616 in *. change (2 ^ 63) with 9223372036854775808. lia.
      * exists b, st'. split; [done|]. eapply correctly_rounded_ext; [done| |exact Hcr]. intros h _.
        apply dyadic_cut_ratio; [by apply pow2_pos|]. rewrite Eu.
        pose proof (dec_scale _ _ _ Hdec). pose proof (field_nonneg sf Hsf bits _ Hdec).
        rewrite <- !Z.mul_assoc. f_equal. rewrite <- !Z.pow_add_r by lia. f_equal. lia.
Qed.

(** ** Widening is exact and narrowing undoes it *)

(** A ratio that is a whole pattern rounds to it and raises nothing. *)
Lemma exact_ratio f control s b n d st bits st' : format_ok f -> 0 < b < infinity f -> 0 < d ->
  n = units f b * d -> flush_to_zero control && subnormal_pattern f b = false -> unrounded st ->
  correctly_rounded f control s (ratio_cut n d) st bits st' ->
  bits = Z.b2z s * 2 ^ (total_bits f - 1) + b /\ st' = st.
Proof.
  intros Hf Hb Hd -> Hs Hst Hcr. apply (correctly_rounded_unique f control s (ratio_cut (units f b) 1) st); [done| | |].
  - by apply ratio_is_cut.
  - eapply correctly_rounded_ext; [done| |exact Hcr]. intros h _. apply ratio_cut_eq; lia.
  - by apply exact_pattern.
Qed.

(** A value [g * 2 ^ x] units with a significand that fits is a pattern, normal
    when its magnitude is. *)
Lemma pattern_exists f g x : format_ok f -> 0 < g < 2 ^ (fraction_bits f + 1) -> 0 <= x ->
  2 ^ fraction_bits f <= g * 2 ^ x -> x + fraction_bits f + 1 < 2 ^ exponent_bits f - 1 ->
  exists b, 2 ^ fraction_bits f <= b < infinity f /\ units f b = g * 2 ^ x.
Proof.
  intros Hf Hg Hx Hn Hi. pose proof (fraction_pow_pos f Hf) as Hp. pose proof (format_dims f Hf).
  pose proof (log2_bounds g ltac:(lia)) as Hl. pose proof (Z.log2_nonneg g) as Ht.
  assert (Z.log2 g <= fraction_bits f) as Htop by (assert (Z.log2 g < fraction_bits f + 1); [apply Z.log2_lt_pow2|]; lia).
  set (k := fraction_bits f - Z.log2 g) in *.
  assert (2 ^ fraction_bits f = 2 ^ Z.log2 g * 2 ^ k) as Ek by (rewrite <- Z.pow_add_r by lia; f_equal; lia).
  pose proof (pow2_pos k ltac:(lia)).
  assert (k <= x) as Hkx.
  { destruct (Z.le_gt_cases k x); [done|]. assert (2 * 2 ^ x <= 2 ^ k); [|nia].
    rewrite <- Z.pow_succ_r by done. apply pow2_le. lia. }
  exists ((x - k) * 2 ^ fraction_bits f + g * 2 ^ k). rewrite fraction_pow_succ in Hg by done.
  assert (2 ^ fraction_bits f <= g * 2 ^ k < 2 * 2 ^ fraction_bits f) as Hgk by (rewrite Ek; nia).
  assert (0 <= (x - k) * 2 ^ fraction_bits f) by (apply Z.mul_nonneg_nonneg; lia).
  split; [split; [lia|]|].
  - unfold infinity. assert ((x - k + 2) * 2 ^ fraction_bits f <= (2 ^ exponent_bits f - 1) * 2 ^ fraction_bits f); [|lia].
    apply Z.mul_le_mono_nonneg_r; lia.
  - rewrite (units_at f Hf) by (rewrite ?fraction_pow_succ by done; lia).
    rewrite <- Z.mul_assoc, <- Z.pow_add_r by lia. do 2 f_equal. lia.
Qed.

(** A value both formats have converts exactly. *)
Lemma convert_exact sfmt sf dfmt df x b control :
  BinaryFormat_new (E := A64FpSimdError) sfmt = Ok sf -> BinaryFormat_new (E := A64FpSimdError) dfmt = Ok df ->
  format_ok sf -> format_ok df -> fpcr_mode (rounding control) -> is_finite sf x -> flushes sf control x = false ->
  magnitude sf x <> 0 -> 0 < b < infinity df -> flush_to_zero control && subnormal_pattern df b = false ->
  units df b * 2 ^ unit_shift sf = units sf (magnitude sf x) * 2 ^ unit_shift df ->
  convert_ieee_format x sfmt dfmt control =
    Ok (mkLane (Z.b2z (sign_of sf x) * 2 ^ (total_bits df - 1) + b) FpStatus_default).
Proof.
  intros Hs Hd Hsf Hdf Hmode Hx Hfl Hnz Hb Hfb Hu.
  destruct (convert_format_finite sfmt sf dfmt df x control) as (y & st & -> & Hy); [done..|].
  unfold operand_units, flushed, flush_status, rounds_ratio in Hy. cbn [existsb] in Hy. rewrite Hfl in Hy. cbn [orb] in Hy.
  pose proof (magnitude_bounds sf Hsf x). pose proof (units_lt sf Hsf 0 (magnitude sf x) ltac:(lia)).
  pose proof (units_nonneg sf Hsf 0 ltac:(done)).
  pose proof (pow2_pos (unit_shift df) (unit_shift_nonneg df Hdf)).
  rewrite (proj2 (Z.eqb_neq _ 0)) in Hy by nia.
  apply (exact_ratio df control (sign_of sf x) b) in Hy as [-> ->]; [done|done|done| |done|done|done].
  apply pow2_pos, unit_shift_nonneg, Hsf.
Qed.

Section Widen.
Context (control : FpControl) (Hmode : fpcr_mode (rounding control)) (x : Z).
Context (Hx : is_finite binary32 x) (Hfl : flushes binary32 control x = false).

(** The nonzero finite values of binary32 are normal values of binary64. *)
Lemma widened_pattern : magnitude binary32 x <> 0 ->
  exists b, 2 ^ fraction_bits binary64 <= b < infinity binary64 /\
    units binary64 b * 2 ^ unit_shift binary32 = units binary32 (magnitude binary32 x) * 2 ^ unit_shift binary64.
Proof.
  intros Hnz. pose proof (finite_decodes binary32 binary32_ok x Hx) as Hd.
  pose proof (units_zero binary32 binary32_ok _ (proj1 (magnitude_bounds binary32 binary32_ok x))) as Hz.
  rewrite (proj2 (Z.eqb_neq _ _) Hnz) in Hz. apply Z.eqb_neq in Hz.
  destruct (significand_range binary32 binary32_ok x _ Hd) as [Hr _].
  pose proof (decoded_units binary32 binary32_ok x _ Hd) as Eu. pose proof (dec_scale _ _ _ Hd) as Hsc.
  pose proof (field_nonneg binary32 binary32_ok x _ Hd).
  assert (df_exponent_field (DecodedFloat_new x binary32) < 255) as Hfield.
  { rewrite (dec_exponent _ _ _ Hd). apply Z.div_lt_upper_bound; [done|]. apply Hx. }
  set (g := df_significand (DecodedFloat_new x binary32)) in *.
  set (sx := df_scale (DecodedFloat_new x binary32) + unit_shift binary32) in *.
  assert (0 <= sx < 254) as Hsx by lia. clearbody sx g. change (fraction_bits binary32 + 1) with 24 in Hr.
  change (2 ^ 24) with 16777216 in Hr.
  assert (0 < g) by (destruct (Z.eq_dec g 0) as [->|]; [rewrite Eu in Hz|]; lia).
  destruct (pattern_exists binary64 g (sx + 925) binary64_ok) as (b & Hb & Hub).
  - change (2 ^ (fraction_bits binary64 + 1)) with 9007199254740992. lia.
  - lia.
  - change (2 ^ fraction_bits binary64) with (2 ^ 52). pose proof (pow2_le 52 (sx + 925)). nia.
  - change (2 ^ exponent_bits binary64) with 2048. change (fraction_bits binary64) with 52. lia.
  - exists b. split; [done|]. rewrite Hub, Eu, <- !Z.mul_assoc, <- !Z.pow_add_r by (lia || done).
    change (unit_shift binary32) with 149. change (unit_shift binary64) with 1074. do 2 f_equal. lia.
Qed.

(** Single to double and back returns the operand, raising nothing. *)
Lemma convert_round_trip : exists y,
  convert_ieee_format x Binary32 Binary64 control = Ok (mkLane y FpStatus_default) /\
  convert_ieee_format y Binary64 Binary32 control = Ok (mkLane x FpStatus_default).
Proof.
  pose proof (sign_split binary32 binary32_ok x (proj1 Hx)) as Esx.
  destruct (Z.eq_dec (magnitude binary32 x) 0) as [Hz|Hnz].
  - exists (sign_bits_of (sign_of binary32 x) binary64). rewrite Hz in Esx. rewrite Esx.
    destruct (sign_of binary32 x), control as [[] [] []]; split; reflexivity.
  - destruct (widened_pattern Hnz) as (b & Hb & Hub). pose proof (magnitude_bounds binary32 binary32_ok x) as Hmb.
    assert (0 < infinity binary64 < 2 ^ (total_bits binary64 - 1)) as Hinf by done.
    assert (0 < 2 ^ fraction_bits binary64) as Hpf by done.
    assert (forall y, magnitude binary64 y = b -> flushes binary64 control y = false) as Hny.
    { intros y Hy. unfold flushes. rewrite Hy, not_subnormal by lia. apply andb_false_r. }
    destruct (magnitude_signed binary64 binary64_ok (sign_of binary32 x) b) as (Hm & Hs & Hfit); [lia|].
    set (y := Z.b2z (sign_of binary32 x) * 2 ^ (total_bits binary64 - 1) + b) in *. exists y. split.
    + apply (convert_exact Binary32 binary32 Binary64 binary64); try done; [lia|].
      rewrite not_subnormal by lia. apply andb_false_r.
    + rewrite Esx. rewrite <- Hs at 1.
      apply (convert_exact Binary64 binary64 Binary32 binary32); try done.
      * split; [done|lia].
      * by apply Hny.
      * lia.
      * split; [lia|apply Hx].
      * by rewrite Hm.
Qed.
End Widen.

(** The same for every finite operand, with what flushing makes of it. *)
Lemma convert_flushed_round_trip control x :
  fpcr_mode (rounding control) -> is_finite binary32 x -> exists y,
  convert_ieee_format x Binary32 Binary64 control =
    Ok (mkLane y (set_input_denormal (flushes binary32 control x) FpStatus_default)) /\
  convert_ieee_format y Binary64 Binary32 control = Ok (mkLane (flushed binary32 control x) FpStatus_default).
Proof.
  intros Hmode Hx. unfold flushed. destruct (flushes binary32 control x) eqn:Hfl.
  2: { destruct (convert_round_trip control Hmode x Hx Hfl) as (y & E1 & E2). by exists y. }
  destruct (convert_format_finite Binary32 binary32 Binary64 binary64 x control eq_refl eq_refl binary32_ok
    binary64_ok Hmode Hx) as (y & st & E & Hr). exists y. rewrite E.
  assert (x - magnitude binary32 x = sign_bits_of (sign_of binary32 x) binary32) as Ez.
  { pose proof (sign_split binary32 binary32_ok x (proj1 Hx)) as Es.
    change (total_bits binary32 - 1) with 31 in Es.
    destruct (sign_of binary32 x); cbv [Z.b2z] in Es;
      [change (sign_bits_of true binary32) with (2 ^ 31)|change (sign_bits_of false binary32) with 0]; lia. }
  assert (operand_units binary32 control x = 0) as Hu.
  { unfold operand_units, flushed. rewrite Hfl, Ez. by destruct (sign_of binary32 x). }
  rewrite Hu in Hr. unfold rounds_ratio in Hr. rewrite Z.mul_0_l in Hr. change (0 =? 0) with true in Hr. cbv iota in Hr.
  destruct Hr as [-> ->]. unfold flush_status. cbn [existsb]. rewrite Hfl. split; [done|]. rewrite Ez.
  destruct (sign_of binary32 x), control as [[] [] []]; reflexivity.
Qed.

(** ** Rounding to integral values: the FRINT forms

    The result is the operand rounded to an integer in the operation's mode, an
    exact value of the format with the operand's sign. *)

Definition round_mode (operation : FloatRoundOperation) (fpcr : Z) : FpRoundingMode :=
  match operation with
  | RoundNearestEven => TiesToEven
  | RoundTowardPositive => TowardPositive
  | RoundTowardNegative => TowardNegative
  | RoundTowardZero => TowardZero
  | RoundNearestAway => TiesAway
  | RoundExact | RoundCurrentMode => fpcr_rounding_mode fpcr
  end.

Definition reports_inexact (operation : FloatRoundOperation) : bool :=
  match operation with RoundExact => true | _ => false end.

(** The magnitude [n / d] rounded to an integer. *)
Definition integral (mode : FpRoundingMode) (negative : bool) (n d : Z) : Z :=
  n / d + Z.b2z (negb (n mod d =? 0) && round_up mode negative (2 * (n mod d) ?= d) (Z.odd (n / d))).

Lemma round_mode_not_odd operation fpcr : round_mode operation fpcr <> ToOdd.
Proof. destruct operation; try done; apply fpcr_rounding_mode_ok. Qed.

Lemma integral_exact mode negative q d : 0 < d -> integral mode negative (q * d) d = q /\ ((q * d) mod d =? 0) = true.
Proof. intros Hd. unfold integral. rewrite Z.mod_mul, Z.div_mul by lia. simpl. split; [lia|done]. Qed.

Lemma integral_scale mode negative n d k : 0 < k -> 0 < d ->
  integral mode negative (n * k) (d * k) = integral mode negative n d /\
  ((n * k) mod (d * k) =? 0) = (n mod d =? 0).
Proof.
  intros Hk Hd. unfold integral. rewrite Z.div_mul_cancel_r, Z.mul_mod_distr_r by lia.
  assert ((n mod d * k =? 0) = (n mod d =? 0)) as ->.
  { destruct (Z.eqb_spec (n mod d) 0) as [->|E]; [done|]. apply Z.eqb_neq. nia. }
  split; [|done]. do 4 f_equal. rewrite Z.mul_assoc. symmetry. apply Zmult_compare_compat_r. lia.
Qed.

(** An integer that fits the significand converts exactly, in any mode. *)
Lemma integer_exact f width m negative mode : ieee_format width f -> 0 < m < 2 ^ (fraction_bits f + 1) ->
  exists b, integer_magnitude_to_ieee m negative width mode = Ok (Z.b2z negative * 2 ^ (width - 1) + b, false) /\
    0 < b < infinity f /\ units f b = m * 2 ^ unit_shift f.
Proof.
  intros Hw Hm. destruct (ieee_format_ok width f Hw) as [Hf Ew]. pose proof (format_dims f Hf).
  assert (m < 2 ^ 64) by (pose proof (pow2_le (fraction_bits f + 1) 64); lia).
  assert (Z.log2 m <= fraction_bits f) as Htop by (assert (Z.log2 m < fraction_bits f + 1); [apply Z.log2_lt_pow2|]; lia).
  assert (integer_magnitude_to_ieee m negative width mode = integer_magnitude_to_ieee m negative width TowardZero) as ->.
  { unfold integer_magnitude_to_ieee. pose proof (top_bit 64 m ltac:(lia)) as Ht. change (64 - 1) with 63 in Ht.
    apply Z.leb_le in Htop. destruct Hw as [[-> ->]|[-> ->]]; unfold binary32, binary64 in Htop; cbn [fraction_bits] in Htop;
      cbn -[Z.sub shl_w Z.leb]; rewrite Ht, Htop; done. }
  destruct (integer_magnitude_rounds f Hf TowardZero ltac:(done) negative m ltac:(lia) width Hw) as (b & -> & Hr & Hb).
  assert (0 < unit_shift f) as HU. { destruct Hf as [? ? _ _ Hbias]. unfold unit_shift. pose proof (pow2_pos (exponent_bits f - 1)). lia. }
  destruct (pattern_exists f m (unit_shift f) Hf Hm ltac:(lia)) as (b' & Hb' & Hub).
  - pose proof (pow2_le (fraction_bits f) (unit_shift f)). unfold unit_shift in *.
    assert (0 < exponent_bias f). { destruct Hf as [? ? _ _ Hbias]. pose proof (pow2_le 2 (exponent_bits f - 1)). lia. } nia.
  - pose proof (bias_field f Hf). unfold unit_shift. assert (2 * fraction_bits f + 2 < exponent_bias f); [|lia].
    destruct Hw as [[_ ->]|[_ ->]]; simpl; lia.
  - assert (dyadic_cut f m 0 (2 * units f b') = Eq) as E.
    { rewrite Hub, Z.mul_assoc, (dyadic_cut_left f m 0 (2 * m) (unit_shift f) 0) by lia. apply Z.compare_eq_iff. lia. }
    pose proof (fraction_pow_pos f Hf).
    assert (b = b') as ->. { apply (rounded_unique f TowardZero negative (dyadic_cut f m 0)); [done|done|done|].
      apply rounded_exact; [done|done|lia|done]. }
    rewrite E. by exists b'.
Qed.

Lemma half_test_away retained rem d : 0 < d ->
  (2 ^ (d - 1) <=? rem) = round_up TiesAway false (2 * rem ?= 2 ^ d) (Z.odd retained).
Proof.
  intros Hd. rewrite (pow2_half d) by lia. cbn [round_up].
  destruct (Z.compare_spec (2 * rem) (2 * 2 ^ (d - 1))); [apply Z.leb_le|apply Z.leb_gt|apply Z.leb_le]; lia.
Qed.

(** [round_integral_magnitude] on a value [significand / 2 ^ shift]. *)
Lemma round_integral_near g shift negative mode : mode <> ToOdd -> 0 <= g < 2 ^ 64 -> 0 < shift < 64 ->
  round_integral_magnitude g shift negative mode =
  Ok (integral mode negative g (2 ^ shift), negb (g mod 2 ^ shift =? 0)).
Proof.
  intros Hmode Hg Hs. unfold round_integral_magnitude, integral. rewrite (proj2 (Z.ltb_lt shift 64)) by lia.
  destruct (cut_value g shift ltac:(lia) ltac:(lia)) as [-> ->]. rewrite shl_w_pow2 by lia.
  pose proof (Z.mod_pos_bound g (2 ^ shift) ltac:(apply pow2_pos; lia)).
  rewrite half_test by lia. destruct (Z.eqb_spec (g mod 2 ^ shift) 0) as [E|E]; cbn [negb andb Z.b2z]; [by rewrite Z.add_0_r|].
  destruct mode; try done. by rewrite (half_test_away (g / 2 ^ shift)) by lia.
Qed.

(** Far below a half. *)
Lemma round_integral_far g shift negative mode n d : mode <> ToOdd -> 0 < g -> 64 <= shift ->
  0 < n -> 2 * n < d ->
  round_integral_magnitude g shift negative mode = Ok (integral mode negative n d, true) /\ (n mod d =? 0) = false.
Proof.
  intros Hmode Hg Hs Hn Hd. unfold round_integral_magnitude, integral. rewrite (proj2 (Z.ltb_ge shift 64)) by lia.
  rewrite (proj2 (Z.eqb_neq g 0)), (Z.div_small n d), (Z.mod_small n d) by lia.
  rewrite (proj2 (Z.eqb_neq n 0)), (proj2 (Z.compare_lt_iff _ _) Hd) by lia. split; [|done].
  destruct mode; try done.
Qed.

Section Integral.
Context (precision : Z) (fmt : FpFormat) (f : BinaryFormat) (bits fpcr : Z) (operation : FloatRoundOperation).
Context (Hp : fp_format (E := A64FpSimdError) precision = Ok fmt).
Context (Hfmt : BinaryFormat_new (E := A64FpSimdError) fmt = Ok f) (Hw : ieee_format (total_bits f) f).
Context (Hfin : is_finite f bits) (Hflush : flushes f (from_fpcr fpcr) bits = false).
Let Hf : format_ok f := proj1 (ieee_format_ok _ f Hw).

Abbreviation negative := (sign_of f bits).
Abbreviation mode := (round_mode operation fpcr).
Abbreviation n := (units f (magnitude f bits)).
Abbreviation d := (2 ^ unit_shift f).
Abbreviation M := (integral mode negative n d).
Abbreviation dec := (DecodedFloat_new bits f).
Abbreviation shift := (fraction_bits f - (df_exponent_field dec - exponent_bias f)).

(** A pattern with the operand's sign and the value [m]. *)
Definition is_integral (m y : Z) : Prop :=
  is_finite f y /\ sign_of f y = negative /\ units f (magnitude f y) = m * d.

Lemma operand_integral m : n = m * d -> is_integral m bits.
Proof. intros E. by split; [|split]. Qed.

Lemma integral_bits m : 0 <= m < 2 ^ (fraction_bits f + 1) -> exists y,
  (if m =? 0 then Ok (Z.land (df_bits dec) (sign_mask f))
   else converted ← integer_magnitude_to_ieee m (df_sign dec) (total_bits f) mode; Ok (fst converted)) =
  (Ok y : fp Z) /\ is_integral m y.
Proof.
  intros Hm. pose proof (finite_decodes f Hf bits Hfin) as Hd. pose proof (infinity_bounds f Hf) as Hi.
  rewrite (decoded_sign f _ bits Hd), (dec_bits _ _ _ Hd). unfold is_integral, is_finite.
  assert (forall b, 0 <= b < infinity f -> exists y, y = Z.b2z negative * 2 ^ (total_bits f - 1) + b /\
    magnitude f y = b /\ sign_of f y = negative /\ fits (total_bits f) y) as Hy.
  { intros b Hb. eexists. split; [done|]. apply magnitude_signed; [done|lia]. }
  destruct (Z.eqb_spec m 0) as [->|Hne].
  - destruct (Hy 0) as (y & Ey & Hm0 & Hs & Hfit); [lia|]. exists y. rewrite (land_sign f Hf) by apply Hfin.
    pose proof (sign_split f Hf bits (proj1 Hfin)). split; [f_equal; lia|]. rewrite Hm0. split; [by split; [|lia]|].
    split; [done|]. apply Z.eqb_eq. by rewrite (units_zero f Hf).
  - destruct (integer_exact f (total_bits f) m negative mode Hw ltac:(lia)) as (b & -> & Hb & Hu).
    destruct (Hy b) as (y & Ey & Hm0 & Hs & Hfit); [lia|]. exists y. rewrite Hm0. split; [by rewrite Ey|].
    split; [by split; [|lia]|]. done.
Qed.

(** Below the fraction, the discarded bits round the magnitude. *)
Lemma integral_magnitude : n <> 0 -> df_exponent_field dec - exponent_bias f < fraction_bits f ->
  round_integral_magnitude (df_significand dec) shift (df_sign dec) mode = Ok (M, negb (n mod d =? 0)) /\
  0 <= M < 2 ^ (fraction_bits f + 1).
Proof.
  intros Hn He. pose proof (finite_decodes f Hf bits Hfin) as Hd. pose proof (format_dims f Hf) as Hdim.
  destruct (significand_range f Hf bits _ Hd) as [Hr _]. pose proof (field_nonneg f Hf bits _ Hd) as Hfield.
  pose proof (decoded_units f Hf bits _ Hd) as Eu. pose proof (dec_scale _ _ _ Hd) as Hsc.
  pose proof (fraction_pow_pos f Hf). pose proof (fraction_pow_succ f Hf) as Hsucc.
  pose proof (pow2_le (fraction_bits f + 1) 64). pose proof (unit_shift_nonneg f Hf) as HU. pose proof (pow2_pos _ HU).
  rewrite (decoded_sign f _ bits Hd). pose proof (round_mode_not_odd operation fpcr) as Hodd.
  assert (127 <= exponent_bias f) by (destruct Hf as [? ? _ _ ->]; pose proof (pow2_le 7 (exponent_bits f - 1)); lia).
  assert (0 <= n) as Hn0 by (apply units_nonneg; [done|apply (magnitude_bounds f Hf)]).
  assert (0 < df_significand dec) by (destruct (Z.eq_dec (df_significand dec) 0) as [E|]; [rewrite E in Eu|]; lia).
  assert (0 <= M <= n / d + 1) as Hb by (unfold integral; pose proof (Z.div_pos n d); destruct (_ && _); simpl; lia).
  assert (n / d < 2 ^ fraction_bits f) as Hq.
  { apply Z.div_lt_upper_bound; [done|]. rewrite Eu.
    apply Z.lt_le_trans with (2 ^ (fraction_bits f + 1) * 2 ^ (df_scale dec + unit_shift f)).
    - apply Z.mul_lt_mono_pos_r; [apply pow2_pos; lia|lia].
    - rewrite <- !Z.pow_add_r by lia. apply pow2_le. unfold unit_shift in *. lia. }
  split; [|lia]. destruct (Z.lt_ge_cases shift 64) as [Hnear|Hfar].
  - rewrite round_integral_near by (done || lia).
    replace n with (df_significand dec * 2 ^ (df_scale dec + unit_shift f)).
    replace d with (2 ^ shift * 2 ^ (df_scale dec + unit_shift f)).
    2:{ rewrite <- Z.pow_add_r by lia. f_equal. unfold unit_shift in *. lia. }
    destruct (integral_scale mode negative (df_significand dec) (2 ^ shift) (2 ^ (df_scale dec + unit_shift f))) as [-> ->];
      [apply pow2_pos; lia..|done].
  - destruct (round_integral_far (df_significand dec) shift negative mode n d) as [-> ->]; try done; [lia|].
    rewrite Eu. apply Z.lt_le_trans with (2 * (2 ^ (fraction_bits f + 1) * 2 ^ (df_scale dec + unit_shift f))).
    + apply Z.mul_lt_mono_pos_l; [done|]. apply Z.mul_lt_mono_pos_r; [apply pow2_pos; lia|lia].
    + rewrite <- Z.pow_add_r, <- Z.pow_succ_r by lia. apply pow2_le. unfold unit_shift in *. lia.
Qed.

(** FRINT: the operand rounded to an integer in the operation's mode, with the
    operand's sign; only FRINTX reports inexactness. *)
Lemma float_round_finite : exists y,
  exact_scalar_float_round bits precision operation fpcr =
    Ok (mkExact y (set_inexact (reports_inexact operation && negb (n mod d =? 0)) FpStatus_default)) /\
  is_integral M y.
Proof.
  pose proof (finite_decodes f Hf bits Hfin) as Hd. pose proof (pow2_pos _ (unit_shift_nonneg f Hf)) as HdU.
  unfold exact_scalar_float_round. rewrite Hp. cbn [mbind res_bind]. rewrite Hfmt. cbn [mbind res_bind].
  destruct (finite_not_special f Hf _ bits Hd (proj2 Hfin)) as [-> ->]. cbn [orb].
  rewrite (decoded_zero_units f Hf _ bits Hd), (dec_bits _ _ _ Hd).
  assert (forall q, n = q * d -> exists y,
    Ok (mkExact bits FpStatus_default) = (Ok (mkExact y (set_inexact (reports_inexact operation && negb (n mod d =? 0)) FpStatus_default)) : fp ExactFpOutcome) /\
    is_integral M y) as Hsame.
  { intros q E. destruct (integral_exact mode negative q d HdU) as [Ei Em]. exists bits. rewrite E, Ei, Em.
    split; [by rewrite andb_false_r|by apply operand_integral]. }
  destruct (Z.eqb_spec n 0) as [Hz|Hz]; [by apply (Hsame 0)|].
  pose proof (subnormal_flushes f Hf (from_fpcr fpcr) _ bits Hd) as Hsub. cbn [from_fpcr flush_to_zero] in Hsub.
  rewrite Hsub, Hflush. cbv zeta.
  destruct (Z.leb_spec (fraction_bits f) (df_exponent_field dec - exponent_bias f)) as [Hbig|Hsmall].
  - pose proof (dec_scale _ _ _ Hd) as Hsc. pose proof (field_nonneg f Hf bits _ Hd). unfold unit_shift in Hsc.
    pose proof (unit_shift_nonneg f Hf). pose proof (format_dims f Hf).
    assert (0 < exponent_bias f) by (destruct Hf as [? ? _ _ ->]; pose proof (pow2_le 2 (exponent_bits f - 1)); lia).
    apply (Hsame (df_significand dec * 2 ^ df_scale dec)).
    rewrite (decoded_units f Hf bits _ Hd), Z.pow_add_r by lia. lia.
  - destruct (integral_magnitude Hz Hsmall) as [Em HM]. destruct (integral_bits M HM) as (y & Ey & Hy).
    exists y. split; [|done]. revert Em Ey. rewrite (dec_bits _ _ _ Hd). unfold round_mode.
    destruct operation; intros -> Ey; cbn [mbind res_bind]; rewrite Ey; reflexivity.
Qed.
End Integral.
