(* ===== verification/FloatProps.v ===== *)
(** * What the scalar floating-point operations compute

    The theorems are stated for the two precisions of the scalar forms.  Values
    are in units, the smallest subnormal of the format; [rounds_ratio] says that
    an outcome is the exact ratio rounded once, with the flags of that rounding,
    and that an exact zero has the given sign. *)

From Stdlib Require Import ZArith Lia Bool.
From stdpp Require Import base numbers list option.
From S2P Require Import Prelude RustInt DecodeBase DecodeFpSimd.
Import DecodeFpSimd.FpSimd.
From S2P Require Import FloatFormat FloatOps FloatConv FloatRound FloatPack FloatArith FloatDivide FloatFused.
From S2P Require Import FloatConvProps FloatConversions.
Local Open Scope Z_scope.

(** The format of a precision. *)
Definition binary (precision : Z) : BinaryFormat := if precision =? 32 then binary32 else binary64.

Definition scalar_precision (precision : Z) : Prop := precision = 32 \/ precision = 64.

(** The provider's formats are these. *)
Lemma precision_format precision : scalar_precision precision ->
  exists fmt, fp_format (E := A64FpSimdError) precision = Ok fmt /\
    BinaryFormat_new (E := A64FpSimdError) fmt = Ok (binary precision) /\
    ieee_format precision (binary precision) /\ format_ok (binary precision).
Proof.
  intros [->| ->]; [exists Binary32|exists Binary64]; (split; [done|split; [done|]]).
  - split; [by left|apply binary32_ok].
  - split; [by right|apply binary64_ok].
Qed.

(** ** Fused sums of binary32 operands fit in [u128] *)

Lemma aligned_sum_fits v d w : 0 <= v < 2 ^ 48 -> 0 <= d -> 0 <= w < 2 ^ 48 -> v * 2 ^ d < 2 ^ 128 ->
  v * 2 ^ d + w < 2 ^ 128.
Proof.
  intros Hv Hd Hw Hlt. pose proof (pow2_pos d Hd). pose proof (pow2_lt 48 128 ltac:(lia)).
  destruct (Z.eq_dec v 0) as [->|Hnz]; [lia|]. destruct (Z.le_gt_cases 80 d) as [Hge|Hle].
  - assert (v * 2 ^ d + 2 ^ d <= 2 ^ 128).
    { destruct (Z.le_gt_cases d 128) as [Hd'|Hd'].
      - assert (2 ^ 128 = 2 ^ (128 - d) * 2 ^ d) as E by (rewrite <- Z.pow_add_r by lia; f_equal; lia).
        rewrite E in Hlt |- *. apply Z.mul_lt_mono_pos_r in Hlt; [|done].
        replace (v * 2 ^ d + 2 ^ d) with ((v + 1) * 2 ^ d) by lia. apply Z.mul_le_mono_pos_r; lia.
      - pose proof (pow2_lt 128 d). assert (1 * 2 ^ d <= v * 2 ^ d) by (apply Z.mul_le_mono_nonneg_r; lia). lia. }
    pose proof (pow2_lt 48 d). lia.
  - pose proof (pow2_le d 79 ltac:(lia)).
    assert (v * 2 ^ d <= 2 ^ 48 * 2 ^ 79) by (apply Z.mul_le_mono_nonneg; lia).
    rewrite <- Z.pow_add_r in * by lia. change (48 + 79) with 127 in *. pose proof (pow2_lt 48 127).
    change (2 ^ 128) with (2 * 2 ^ 127). lia.
Qed.

Lemma single_sum_fits p ep z ez : 0 <= p < 2 ^ 48 -> 0 <= z < 2 ^ 24 -> fused_sum_fits p ep z ez = true.
Proof.
  intros Hp Hz. unfold fused_sum_fits. pose proof (pow2_lt 48 128 ltac:(lia)). pose proof (pow2_lt 24 48 ltac:(lia)).
  pose proof (shift_fits_spec p (ep - Z.min ep ez) ltac:(lia) ltac:(lia)) as Hsp.
  pose proof (shift_fits_spec z (ez - Z.min ep ez) ltac:(lia) ltac:(lia)) as Hsz.
  destruct (shift_fits_u128 p _); [|done]. destruct (shift_fits_u128 z _); [|done]. cbn [andb negb orb].
  apply Z.ltb_lt. destruct (Z.le_ge_cases ep ez) as [Hle|Hle].
  - rewrite (Z.min_l ep ez Hle) in *. rewrite Z.sub_diag, Z.pow_0_r, Z.mul_1_r, Z.add_comm in *.
    apply (aligned_sum_fits z _ p); lia.
  - rewrite (Z.min_r ep ez Hle) in *. rewrite Z.sub_diag, Z.pow_0_r, Z.mul_1_r in *.
    apply (aligned_sum_fits p _ z); lia.
Qed.

(** A result rounded to nearest is as near as any finite pattern. *)
Lemma rounds_nearest f control zero_sign negative n d st bits st' b' :
  format_ok f -> rounding control = TiesToEven -> flush_to_zero control = false -> 0 <= n -> 0 < d ->
  rounds_ratio f control zero_sign negative n d st bits st' -> magnitude f bits < infinity f -> 0 <= b' < infinity f ->
  Z.abs (n - units f (magnitude f bits) * d) <= Z.abs (n - units f b' * d).
Proof.
  intros Hf Hmode Hftz Hn Hd Hr Hfin Hb'. unfold rounds_ratio in Hr. destruct (Z.eqb_spec n 0) as [->|Hnz].
  - destruct Hr as [-> _].
    rewrite (sign_bits_value f Hf).
    destruct (magnitude_signed f Hf zero_sign 0) as (E & _ & _); [pose proof (infinity_bounds f Hf); lia|].
    rewrite Z.add_0_r in E. rewrite E.
    pose proof (units_zero f Hf 0 ltac:(lia)) as ->%Z.eqb_eq. lia.
  - destruct Hr as (b & Hround & Hbits & _). rewrite Hmode in Hround. rewrite Hftz in Hbits. cbn [andb] in Hbits.
    assert (0 <= b <= infinity f) as Hb by (destruct Hround as (b0 & ? & _ & _ & ->); destruct (round_up _ _ _ _), (ratio_cut _ _ _); simpl; lia).
    pose proof (infinity_bounds f Hf). rewrite Hbits in *.
    destruct (magnitude_signed f Hf negative b ltac:(lia)) as (Em & _ & _). rewrite Em in *.
    pose proof (rounded_nearest f Hf (ratio_cut n d) (ratio_is_cut n d Hd) negative b b' Hround Hfin Hb') as [Hup Hlo].
    unfold ratio_cut in Hup, Hlo. destruct (Z.lt_trichotomy b b') as [Hlt|[->|Hlt]]; [|lia|].
    + specialize (Hup Hlt). rewrite Z.compare_gt_iff in Hup. pose proof (units_lt f Hf b b'). nia.
    + specialize (Hlo Hlt). rewrite Z.compare_lt_iff in Hlo. pose proof (units_lt f Hf b' b). nia.
Qed.

(** The value of a source register. *)
Definition source_value (source width : Z) (signed : bool) : Z := if signed then as_signed width source else source.

Lemma source_sign_magnitude source width signed : width = 32 \/ width = 64 -> fits width source ->
  let v := source_value source width signed in
  integer_sign_and_magnitude source width signed = (v <? 0, Z.abs v) /\ Z.abs v < 2 ^ 64.
Proof.
  intros Hw Hs. cbv zeta. unfold source_value, integer_sign_and_magnitude. unfold fits in Hs.
  assert (2 ^ width <= 2 ^ 64) by (apply pow2_le; lia).
  destruct signed; cbn [negb].
  - pose proof (as_signed_range width source ltac:(lia)). pose proof (pow2_lt (width - 1) 64 ltac:(lia)).
    destruct Hw as [->| ->]; cbn [Z.eqb Pos.eqb]; (split; [done|lia]).
  - rewrite (proj2 (Z.ltb_ge source 0)), Z.abs_eq by lia. split; [done|lia].
Qed.

(** The IEEE rounding attribute of a conversion. *)
Definition conversion_mode (rounding : FloatToIntegerRounding) : FpRoundingMode :=
  match rounding with
  | ToIntegerNearestEven => TiesToEven
  | ToIntegerNearestAway => TiesAway
  | ToIntegerTowardPositive => TowardPositive
  | ToIntegerTowardNegative => TowardNegative
  | ToIntegerTowardZero => TowardZero
  end.

Lemma round_quotient_integral rounding negative n d :
  round_quotient rounding negative n d = integral (conversion_mode rounding) negative n d.
Proof.
  unfold round_quotient, integral. do 3 f_equal. rewrite <- odd_scale. by destruct rounding.
Qed.

Section Exact.
Context (precision fpcr : Z) (Hp : scalar_precision precision).
Abbreviation f := (binary precision).
Abbreviation control := (from_fpcr fpcr).

(** The outcome of an operation on finite operands. *)
Definition outcome_of (r : fp ExactFpOutcome) (P : Z -> FpStatus -> Prop) : Prop :=
  exists bits st, r = Ok (mkExact bits st) /\ P bits st.

(** C11: addition, subtraction and multiplication are correctly rounded.  For
    finite operands of either precision and every FPCR, the provider returns the
    exact sum, difference or product of the operands (after input flushing)
    rounded once in the mode of the FPCR, with the flags of that rounding; an
    exact zero sum has the sign IEEE 754 gives it.  A negated product is the
    product of the same operands with the sign bit inverted. *)
Theorem add_and_multiply_rounded lhs rhs (subtract : bool) :
  is_finite f lhs -> is_finite f rhs ->
  let rhs' := if subtract then flip_sign f rhs else rhs in
  let sum := signed_units f control lhs + signed_units f control rhs' in
  let negative := xorb (sign_of f lhs) (sign_of f rhs) in
  outcome_of (exact_scalar_float_add lhs rhs precision (if subtract then FloatSubtract else FloatAdd) fpcr)
    (rounds_ratio f control
       (if eqb (sign_of f lhs) (sign_of f rhs') then sign_of f lhs else bool_decide (rounding control = TowardNegative))
       (sum <? 0) (Z.abs sum) 1 (flush_status f control [lhs; rhs'])) /\
  exists bits st,
    rounds_ratio f control negative negative
      (operand_units f control lhs * operand_units f control rhs) (2 ^ unit_shift f)
      (flush_status f control [lhs; rhs]) bits st /\
    exact_scalar_float_multiply lhs rhs precision Multiply fpcr = Ok (mkExact bits st) /\
    exact_scalar_float_multiply lhs rhs precision NegatedMultiply fpcr = Ok (mkExact (Z.lxor bits (sign_mask f)) st).
Proof.
  intros Hl Hr. cbv zeta. destruct (precision_format precision Hp) as (fmt & Hfmt & Hnew & _ & Hf). split.
  - destruct (add_lane_finite fmt f lhs rhs fpcr subtract Hnew Hf Hl Hr) as (bits & st & E & Hround).
    exists bits, st. split; [|exact Hround]. unfold exact_scalar_float_add. rewrite Hfmt. cbn [mbind res_bind].
    destruct subtract; by rewrite E.
  - destruct (multiply_finite fmt f lhs rhs fpcr Hnew Hf Hl Hr) as (bits & st & E & Hround).
    exists bits, st. split; [exact Hround|]. unfold exact_scalar_float_multiply. rewrite Hfmt. cbn [mbind res_bind].
    rewrite Hnew. cbn [mbind res_bind]. by rewrite E.
Qed.

(** C12: division and square root are correctly rounded.  For finite operands,
    a nonzero divisor and every FPCR, the quotient is the exact quotient rounded
    once; the square root of a positive operand is its exact, usually
    irrational, square root rounded once, of a zero is the zero, and of a
    negative operand is the default NaN with the invalid flag. *)
Theorem divide_and_square_root_rounded lhs rhs :
  is_finite f lhs -> is_finite f rhs ->
  let negative := xorb (sign_of f lhs) (sign_of f rhs) in
  let status := flush_status f control [lhs] in
  (operand_units f control rhs <> 0 ->
   outcome_of (exact_scalar_float_divide lhs rhs precision fpcr)
     (rounds_ratio f control negative negative
        (operand_units f control lhs * 2 ^ unit_shift f) (operand_units f control rhs)
        (flush_status f control [lhs; rhs]))) /\
  outcome_of (exact_scalar_float_square_root lhs precision fpcr) (fun bits st =>
    if operand_units f control lhs =? 0 then bits = flushed f control lhs /\ st = status
    else if sign_of f lhs then bits = default_nan f /\ st = set_invalid_operation true status
    else correctly_rounded f control false (sqrt_cut (operand_units f control lhs * 2 ^ unit_shift f)) status bits st).
Proof.
  intros Hl Hr. cbv zeta. destruct (precision_format precision Hp) as (fmt & Hfmt & Hnew & _ & Hf). split.
  - intros Hnz. destruct (divide_finite_lane fmt f lhs rhs control Hnew Hf (fpcr_rounding_mode_ok fpcr) Hl Hr Hnz) as (bits & st & E & Hround).
    exists bits, st. split; [|exact Hround]. unfold exact_scalar_float_divide. rewrite Hfmt. cbn [mbind res_bind]. by rewrite E.
  - exact (square_root_finite precision fmt f lhs fpcr Hfmt Hnew Hf Hl).
Qed.
(** Single-precision operands always are in range. *)
Lemma single_in_range m k c : is_finite binary32 m -> is_finite binary32 k -> is_finite binary32 c ->
  fused_in_range binary32 control m k c = true.
Proof.
  intros Hm Hk Hc. unfold fused_in_range, on_terms. cbv zeta.
  assert (forall x, is_finite binary32 x ->
    0 <= df_significand (DecodedFloat_new (flushed binary32 control x) binary32) < 2 ^ 24) as Hs.
  { intros x Hx. pose proof (flushed_finite binary32 binary32_ok control x Hx) as Hfx.
    exact (op_significand _ _ _ _ (decoded_operand binary32 binary32_ok control x _ Hx (finite_decodes binary32 binary32_ok _ Hfx))). }
  pose proof (Hs m Hm). pose proof (Hs k Hk). pose proof (Hs c Hc).
  apply single_sum_fits; [|done]. change (2 ^ 48) with (2 ^ 24 * 2 ^ 24). nia.
Qed.

Lemma flip_finite bits : is_finite f bits -> is_finite f (flip_sign f bits).
Proof.
  destruct (precision_format precision Hp) as (_ & _ & _ & _ & Hf). intros Hfin.
  destruct (flip_sign_spec f bits Hf (proj1 Hfin)) as (Hfit & Hmag & _). split; [done|]. rewrite Hmag. apply Hfin.
Qed.

(** The signs the architecture gives the product and the addend: FMADD is
    [a + n * m], FMSUB [a - n * m], FNMADD [- a - n * m], FNMSUB [- a + n * m]. *)
Definition fused_signs (operation : FloatFusedMultiplyOperation) : bool * bool :=
  match operation with
  | MultiplyAdd => (false, false)
  | MultiplySubtract => (true, false)
  | NegatedMultiplyAdd => (true, true)
  | NegatedMultiplySubtract => (false, true)
  end.

Lemma fused_signs_spec operation : fused_signs operation = (negates_product operation, negates_addend operation).
Proof. by destruct operation. Qed.

(** C13: the fused multiply-add rounds once.  For finite operands FMADD returns
    the exact [multiplicand * multiplier + addend], FMSUB, FNMADD and FNMSUB that
    with the signs of [fused_signs], rounded once, with no intermediate rounding
    of the product.  In a build without overflow checks ([checks] false) this
    holds always in single precision, and in double precision whenever the terms
    have opposite signs or the sum of their aligned magnitudes fits in 128 bits
    ([fused_in_range]).  In a build with overflow checks it needs in addition, in
    both precisions, that no zero term stands 128 binary places or more above
    the other term ([fused_zero_near]): the code shifts that zero and panics. *)
Theorem fused_multiply_add_rounded checks m k c operation :
  is_finite f m -> is_finite f k -> is_finite f c ->
  let c' := if snd (fused_signs operation) then flip_sign f c else c in
  let product_sign := xorb (xorb (sign_of f m) (sign_of f k)) (fst (fused_signs operation)) in
  let product := operand_units f control m * operand_units f control k in
  let addend := operand_units f control c' * 2 ^ unit_shift f in
  let sum := (if product_sign then - product else product) + (if sign_of f c' then - addend else addend) in
  (checks = true -> fused_zero_near f control m k c' = true) ->
  (precision = 64 -> product_sign = sign_of f c' -> fused_in_range f control m k c' = true) ->
  outcome_of (exact_scalar_float_fused_multiply_add checks m k c precision operation fpcr)
    (rounds_ratio f control
       (if eqb product_sign (sign_of f c') then product_sign else bool_decide (rounding control = TowardNegative))
       (sum <? 0) (Z.abs sum) (2 ^ unit_shift f) (flush_status f control [m; k; c'])).
Proof.
  rewrite fused_signs_spec. cbv beta iota delta [fst snd]. intros Hm Hk Hc c' product_sign product addend sum Hck Hrange.
  destruct (precision_format precision Hp) as (fmt & Hfmt & Hnew & _ & Hf).
  apply (fused_multiply_add_finite checks precision fmt f m k c operation fpcr Hfmt Hnew Hf Hm Hk Hc); [done|].
  fold c'. intros Hs. destruct Hp as [Ep|Ep]; [|by apply Hrange].
  assert (is_finite f c') as Hc' by (unfold c'; destruct (negates_addend operation); [by apply flip_finite|done]).
  revert Hm Hk Hc'. rewrite Ep. apply single_in_range.
Qed.

(** C38: the aligned sum of a fused multiply-add can leave 128 bits.  The guard
    on the alignment tests each term, not their sum.  Whenever the terms of
    finite operands have the same sign and their aligned magnitudes fit
    separately but not together ([fused_in_range] is false, which double
    precision allows), the exact sum [w] at the common scale has 129 bits: a
    build with overflow checks panics, and a build without them rounds
    [w - 2 ^ 128] in its place (when that is not zero) and reports the flags of
    that. *)
Theorem fused_sum_overflows m k c operation :
  is_finite f m -> is_finite f k -> is_finite f c ->
  let c' := if snd (fused_signs operation) then flip_sign f c else c in
  let product_sign := xorb (xorb (sign_of f m) (sign_of f k)) (fst (fused_signs operation)) in
  let '(w, scale) := fused_aligned_sum f control m k c' in
  product_sign = sign_of f c' -> fused_in_range f control m k c' = false ->
  2 ^ 128 <= w < 2 ^ 129 /\
  exact_scalar_float_fused_multiply_add true m k c precision operation fpcr = Panic /\
  (2 ^ 128 < w ->
   outcome_of (exact_scalar_float_fused_multiply_add false m k c precision operation fpcr)
     (correctly_rounded f control product_sign (dyadic_cut f (w - 2 ^ 128) scale) (flush_status f control [m; k; c']))).
Proof.
  rewrite fused_signs_spec. cbv beta iota delta [fst snd]. intros Hm Hk Hc.
  destruct (precision_format precision Hp) as (fmt & Hfmt & Hnew & _ & Hf).
  exact (fused_multiply_add_overflows precision fmt f m k c operation fpcr Hfmt Hnew Hf Hm Hk Hc).
Qed.

(** Rounding to nearest gives the nearest value.  With the FPCR in round to
    nearest and no flushing, a finite sum is as near to the exact sum, and a
    finite product as near to the exact product, as any finite value of the
    format is. *)
Theorem sum_and_product_nearest lhs rhs b' :
  rounding control = TiesToEven -> flush_to_zero control = false ->
  is_finite f lhs -> is_finite f rhs -> 0 <= b' < infinity f ->
  let nearest n d bits := magnitude f bits < infinity f ->
    Z.abs (n - units f (magnitude f bits) * d) <= Z.abs (n - units f b' * d) in
  outcome_of (exact_scalar_float_add lhs rhs precision FloatAdd fpcr)
    (fun bits _ => nearest (Z.abs (signed_units f control lhs + signed_units f control rhs)) 1 bits) /\
  outcome_of (exact_scalar_float_multiply lhs rhs precision Multiply fpcr)
    (fun bits _ => nearest (operand_units f control lhs * operand_units f control rhs) (2 ^ unit_shift f) bits).
Proof.
  intros Hmode Hftz Hl Hr Hb' nearest.
  destruct (precision_format precision Hp) as (fmt & Hfmt & Hnew & _ & Hf). split.
  - destruct (add_lane_finite fmt f lhs rhs fpcr false Hnew Hf Hl Hr) as (bits & st & E & Hround).
    exists bits, st. split; [unfold exact_scalar_float_add; rewrite Hfmt; cbn [mbind res_bind]; by rewrite E|].
    intros Hfin. eapply rounds_nearest; [done|done|done| |lia|done|done|done]. apply Z.abs_nonneg.
  - destruct (multiply_finite fmt f lhs rhs fpcr Hnew Hf Hl Hr) as (bits & st & E & Hround).
    exists bits, st. split; [unfold exact_scalar_float_multiply; rewrite Hfmt; cbn [mbind res_bind]; rewrite Hnew; cbn [mbind res_bind]; by rewrite E|].
    intros Hfin. eapply rounds_nearest; [done|done|done| | |done|done|done].
    + apply Z.mul_nonneg_nonneg; by apply operand_units_nonneg.
    + apply pow2_pos, unit_shift_nonneg, Hf.
Qed.

(** C23: comparison decides the order.  Unless an operand is a NaN, FCMP and
    FCMPE set NZCV to the order of the two values, infinities included and the
    zeros equal, and raise nothing but a flushed input; with a NaN they report
    unordered, and the signaling form always raises the invalid flag. *)
Theorem compare_decides lhs rhs signaling :
  fits precision lhs -> fits precision rhs ->
  if (infinity f <? magnitude f lhs) || (infinity f <? magnitude f rhs) then
    exists invalid, exact_scalar_float_compare lhs rhs precision signaling fpcr =
      Ok (mkCompare (Z.shiftl 3 28) (set_invalid_operation invalid FpStatus_default)) /\ (signaling = true -> invalid = true)
  else
    exact_scalar_float_compare lhs rhs precision signaling fpcr =
      Ok (mkCompare (nzcv_of (signed_units f control lhs ?= signed_units f control rhs))
            (flush_status f control [lhs; rhs])).
Proof.
  intros Hl Hr. destruct (precision_format precision Hp) as (fmt & Hfmt & Hnew & Hie & Hf).
  destruct (ieee_format_ok _ _ Hie) as [_ Ew]. rewrite <- Ew in Hl, Hr.
  destruct (Z.ltb_spec (infinity f) (magnitude f lhs)); cbn [orb];
    [|destruct (Z.ltb_spec (infinity f) (magnitude f rhs))].
  - apply (compare_unordered precision fmt f); auto.
  - apply (compare_unordered precision fmt f); auto.
  - by apply (compare_ordered precision fmt f).
Qed.

(** Integers are converted exactly or rounded once.  A 32- or 64-bit
    integer, signed or not, becomes the floating-point value nearest to it in the
    mode of the FPCR, exactly so whenever the format can represent it, and the
    inexact flag is raised otherwise; no conversion overflows. *)
Theorem integer_to_float_rounded source width signed :
  width = 32 \/ width = 64 -> fits width source ->
  let v := source_value source width signed in
  let c := ratio_cut (Z.abs v * 2 ^ unit_shift f) 1 in
  exists b, exact_scalar_integer_to_float source width precision signed fpcr =
      Ok (Z.b2z (v <? 0) * 2 ^ (precision - 1) + b, not_eq (c (2 * units f b))) /\
    rounded f (rounding control) (v <? 0) c b /\ 0 <= b < infinity f.
Proof.
  intros Hw Hs v c. destruct (precision_format precision Hp) as (fmt & Hfmt & Hnew & Hie & Hf).
  destruct (source_sign_magnitude source width signed Hw Hs) as [Ei Hb]. fold v in Ei, Hb.
  unfold exact_scalar_integer_to_float. rewrite Ei. destruct (Z.eq_dec v 0) as [E0|Hnz].
  - exists 0. unfold c. rewrite E0. pose proof (units_zero f Hf 0 ltac:(lia)) as Hu%Z.eqb_eq.
    pose proof (infinity_bounds f Hf). split; [by rewrite Hu|]. split; [|lia]. exists 0.
    pose proof (units_lt f Hf 0 1 ltac:(lia)). rewrite Hu. split_and!; try done; [lia|]. left. unfold ratio_cut. apply Z.compare_lt_iff. change (0 + 1) with 1. change (Z.abs 0) with 0. lia.
  - destruct (integer_magnitude_rounds f Hf (rounding control) (fpcr_rounding_mode_ok fpcr) (v <? 0) (Z.abs v) ltac:(lia) precision Hie)
      as (b & E & Hround & Hb'). exists b.
    assert (forall h, dyadic_cut f (Z.abs v) 0 h = c h) as Hc.
    { intros h. unfold dyadic_cut, c. pose proof (unit_shift_nonneg f Hf). rewrite Z.max_r, Z.max_l, Z.add_0_l by lia. done. }
    rewrite Hc in E. split; [exact E|]. split; [|lia]. revert Hround. apply rounded_ext. intros h _. apply Hc.
Qed.

(** C22: conversion to an integer rounds once and saturates.  A finite operand
    scaled by its fractional bits is rounded to an integer in the mode of the
    instruction; when the destination can hold that integer it is the result and
    the inexact flag says whether it differs from the operand, and otherwise the
    result is the nearest bound with the invalid flag.  With flushing on in the
    FPCR a subnormal operand gives zero with the input-denormal flag instead,
    whatever the mode.  A NaN gives zero and an infinity a bound, both with the
    invalid flag. *)
Theorem float_to_integer_rounded bits width signed rounding fractional :
  width = 32 \/ width = 64 -> 0 <= fractional <= 64 -> fits precision bits ->
  let negative := sign_of f bits in
  let n := units f (magnitude f bits) * 2 ^ fractional in
  let d := 2 ^ unit_shift f in
  let m := integral (conversion_mode rounding) negative n d in
  let v := if negative then - m else m in
  let bound := saturated width signed negative in
  exact_float_to_integer bits precision width signed rounding fractional fpcr = Ok
    (if infinity f <? magnitude f bits then mkInteger 0 width (set_invalid_operation true FpStatus_default)
     else if magnitude f bits =? infinity f then mkInteger bound width (set_invalid_operation true FpStatus_default)
     else if flushes f control bits then mkInteger 0 width (set_input_denormal true FpStatus_default)
     else if in_integer_range signed width v
     then mkInteger (wrap 64 v) width (set_inexact (negb (n mod d =? 0)) FpStatus_default)
     else mkInteger bound width (set_invalid_operation true FpStatus_default)).
Proof.
  intros Hw Hfr Hb negative n d m v bound. destruct (precision_format precision Hp) as (fmt & Hfmt & Hnew & Hie & Hf).
  destruct (ieee_format_ok _ _ Hie) as [_ Ew]. rewrite <- Ew in Hb.
  unfold exact_float_to_integer. rewrite Hfmt. cbn [mbind res_bind]. rewrite Hnew. cbn [mbind res_bind]. f_equal.
  destruct (Z.ltb_spec (infinity f) (magnitude f bits)) as [Hn|Hn].
  { rewrite float_bits_to_integer_special by (done || lia). by rewrite (proj2 (Z.ltb_lt _ _) Hn). }
  destruct (Z.eqb_spec (magnitude f bits) (infinity f)) as [E|Hne].
  { rewrite float_bits_to_integer_special by (done || lia). by rewrite (proj2 (Z.ltb_ge _ _) Hn). }
  assert (is_finite f bits) as Hfin by (split; [done|lia]).
  destruct (flushes f control bits) eqn:Hfl; [by apply float_bits_to_integer_flushed|].
  rewrite (float_bits_to_integer_spec f Hf bits width fpcr fractional signed rounding Hfin Hw Hfr Hfl).
  cbv zeta. rewrite round_quotient_integral. done.
Qed.

(** Rounding to an integral value.  FRINTN, FRINTP, FRINTM, FRINTZ, FRINTA,
    FRINTX and FRINTI return, for a finite operand, the floating-point value
    with the operand's sign and the operand rounded to an integer in their mode,
    signed zeros included, and only FRINTX raises the inexact flag, exactly when
    the operand was not an integer. *)
Theorem round_to_integral bits operation :
  is_finite f bits -> flushes f control bits = false ->
  let n := units f (magnitude f bits) in
  let d := 2 ^ unit_shift f in
  exists y, exact_scalar_float_round bits precision operation fpcr =
      Ok (mkExact y (set_inexact (reports_inexact operation && negb (n mod d =? 0)) FpStatus_default)) /\
    is_finite f y /\ sign_of f y = sign_of f bits /\
    units f (magnitude f y) = integral (round_mode operation fpcr) (sign_of f bits) n d * d.
Proof.
  intros Hfin Hfl n d. destruct (precision_format precision Hp) as (fmt & Hfmt & Hnew & Hie & Hf).
  assert (ieee_format (total_bits f) f) as Hie' by (destruct Hp as [->| ->]; [by left|by right]).
  exact (float_round_finite precision fmt f bits fpcr operation Hfmt Hnew Hie' Hfin Hfl).
Qed.
End Exact.

(** C24: widening loses nothing but what flushing takes.  A finite
    single-precision value converted to double precision and back is the same
    bit pattern, and neither conversion raises a flag, whatever the FPCR's
    rounding mode; except that with flushing on in the FPCR a subnormal becomes
    the zero of its sign ([flushed]), the first conversion raising the
    input-denormal flag and the second none. *)
Theorem single_double_round_trip x fpcr :
  is_finite binary32 x ->
  exists y, exact_float_convert x SingleToDouble fpcr =
      Ok (mkExact y (set_input_denormal (flushes binary32 (from_fpcr fpcr) x) FpStatus_default)) /\
    exact_float_convert y DoubleToSingle fpcr = Ok (mkExact (flushed binary32 (from_fpcr fpcr) x) FpStatus_default).
Proof.
  intros Hx. destruct (convert_flushed_round_trip (from_fpcr fpcr) x (fpcr_rounding_mode_ok fpcr) Hx) as (y & E1 & E2).
  exists y. unfold exact_float_convert. rewrite E1. cbn [mbind res_bind]. by rewrite E2.
Qed.

(** ** Instances *)

Module Values.

(** 1.5, 0.1 and 3 in single precision; 2 and 0.1 in double precision. *)
Definition s1_5 : Z := 0x3fc0_0000.
Definition s0_1 : Z := 0x3dcc_cccd.
Definition s3 : Z := 0x4040_0000.
Definition d2 : Z := 0x4000_0000_0000_0000.
Definition d0_1 : Z := 0x3fb9_9999_9999_999a.

(** FPCR rounding toward positive. *)
Definition toward_positive : Z := 0x0040_0000.

Lemma single_finite x : In x [s1_5; s0_1; s3] -> is_finite (binary 32) x.
Proof. intros [<-|[<-|[<-|[]]]]; by repeat split. Qed.

Lemma double_finite x : In x [d2; d0_1] -> is_finite (binary 64) x.
Proof. intros [<-|[<-|[]]]; by repeat split. Qed.
End Values.
Import Values.

(** 1.5 - 0.1 and 1.5 * 0.1. *)
Lemma add_and_multiply_rounded_witness :
  exists bits, exact_scalar_float_multiply s1_5 s0_1 32 Multiply toward_positive =
    Ok (mkExact bits (set_inexact true FpStatus_default)) /\ bits = 0x3e19_999a.
Proof.
  destruct (add_and_multiply_rounded 32 toward_positive ltac:(by left) s1_5 s0_1 true
              ltac:(apply single_finite; simpl; tauto) ltac:(apply single_finite; simpl; tauto)) as (_ & bits & st & _ & E & _).
  exists bits. assert (exact_scalar_float_multiply s1_5 s0_1 32 Multiply toward_positive =
    Ok (mkExact 0x3e19_999a (set_inexact true FpStatus_default))) as Ec by (by vm_compute).
  rewrite Ec in E |- *. injection E as <- <-. done.
Defined.

(** 2 / 0.1 and the square root of 2. *)
Lemma divide_and_square_root_rounded_witness :
  outcome_of (exact_scalar_float_square_root d2 64 0) (fun bits st =>
    correctly_rounded binary64 (from_fpcr 0) false
      (sqrt_cut (operand_units binary64 (from_fpcr 0) d2 * 2 ^ unit_shift binary64)) FpStatus_default bits st).
Proof.
  destruct (divide_and_square_root_rounded 64 0 ltac:(by right) d2 d0_1
              ltac:(apply double_finite; simpl; tauto) ltac:(apply double_finite; simpl; tauto)) as (_ & bits & st & E & H).
  exists bits, st. split; [exact E|].
  assert ((operand_units (binary 64) (from_fpcr 0) d2 =? 0) = false) as E1 by (by vm_compute).
  assert (sign_of (binary 64) d2 = false) as E2 by (by vm_compute).
  rewrite E1, E2 in H. exact H.
Defined.

(** 1.5 * 0.1 + 3. *)
Lemma fused_multiply_add_rounded_witness :
  outcome_of (exact_scalar_float_fused_multiply_add true s1_5 s0_1 s3 32 MultiplyAdd 0) (fun bits _ => bits = 0x4049_999a).
Proof.
  destruct (fused_multiply_add_rounded 32 0 ltac:(by left) true s1_5 s0_1 s3 MultiplyAdd
              ltac:(apply single_finite; simpl; tauto) ltac:(apply single_finite; simpl; tauto)
              ltac:(apply single_finite; simpl; tauto) ltac:(by vm_compute) ltac:(intros E; discriminate E)) as (bits & st & E & _).
  exists bits, st. split; [exact E|].
  assert (exact_scalar_float_fused_multiply_add true s1_5 s0_1 s3 32 MultiplyAdd 0 =
    Ok (mkExact 0x4049_999a (set_inexact true FpStatus_default))) as Ec by (by vm_compute).
  rewrite Ec in E. by injection E as <- _.
Defined.

(** 1.5 * 1.5 + 0x416fffffffffffff in double precision: a result below 2.25
    with no flag, where 2.25 + c rounds to 16777218.25 with the inexact flag. *)
Lemma fused_sum_overflows_witness :
  let a := 0x3ff8_0000_0000_0000 in
  let c := 0x416f_ffff_ffff_ffff in
  exact_scalar_float_fused_multiply_add true a a c 64 MultiplyAdd 0 = Panic /\
  exact_scalar_float_fused_multiply_add false a a c 64 MultiplyAdd 0 = Ok (mkExact 0x4001_ffff_ffc0_0000 FpStatus_default) /\
  exact_scalar_float_add 0x4002_0000_0000_0000 c 64 FloatAdd 0 =
    Ok (mkExact 0x4170_0000_2400_0000 (set_inexact true FpStatus_default)).
Proof.
  intros a c. split; [|split; [by vm_compute|by vm_compute]].
  exact (proj1 (proj2 (fused_sum_overflows 64 0 ltac:(by right) a a c MultiplyAdd
    ltac:(by repeat split) ltac:(by repeat split) ltac:(by repeat split) ltac:(by vm_compute) ltac:(by vm_compute)))).
Defined.

(** 1.5 + 3 and 1.5 * 3 against 5. *)
Lemma sum_and_product_nearest_witness :
  outcome_of (exact_scalar_float_add s1_5 s3 32 FloatAdd 0) (fun bits _ =>
    magnitude binary32 bits < infinity binary32 ->
    Z.abs (Z.abs (signed_units binary32 (from_fpcr 0) s1_5 + signed_units binary32 (from_fpcr 0) s3) - units binary32 (magnitude binary32 bits) * 1) <=
    Z.abs (Z.abs (signed_units binary32 (from_fpcr 0) s1_5 + signed_units binary32 (from_fpcr 0) s3) - units binary32 0x40a0_0000 * 1)).
Proof.
  exact (proj1 (sum_and_product_nearest 32 0 ltac:(by left) s1_5 s3 0x40a0_0000 eq_refl eq_refl
    ltac:(apply single_finite; simpl; tauto) ltac:(apply single_finite; simpl; tauto) ltac:(by split))).
Defined.

(** 0.1 < 1.5, and a NaN is unordered. *)
Lemma compare_decides_witness :
  exact_scalar_float_compare s0_1 s1_5 32 false 0 = Ok (mkCompare (Z.shiftl 1 31) FpStatus_default) /\
  exists invalid, exact_scalar_float_compare s0_1 0x7fc0_0000 32 true 0 =
    Ok (mkCompare (Z.shiftl 3 28) (set_invalid_operation invalid FpStatus_default)) /\ (true = true -> invalid = true).
Proof.
  split.
  - pose proof (compare_decides 32 0 ltac:(by left) s0_1 s1_5 false ltac:(by split) ltac:(by split)) as Hc.
    assert ((infinity (binary 32) <? magnitude (binary 32) s0_1) || (infinity (binary 32) <? magnitude (binary 32) s1_5) = false)
      as E by (by vm_compute).
    rewrite E in Hc. rewrite Hc. by vm_compute.
  - pose proof (compare_decides 32 0 ltac:(by left) s0_1 0x7fc0_0000 true ltac:(by split) ltac:(by split)) as Hc.
    assert ((infinity (binary 32) <? magnitude (binary 32) s0_1) || (infinity (binary 32) <? magnitude (binary 32) 0x7fc0_0000) = true)
      as E by (by vm_compute).
    rewrite E in Hc. exact Hc.
Defined.

(** -16777217 in single precision. *)
Lemma integer_to_float_rounded_witness :
  let v := source_value 0xfeff_ffff 32 true in
  let c := ratio_cut (Z.abs v * 2 ^ unit_shift binary32) 1 in
  v = -16777217 /\
  exists b, exact_scalar_integer_to_float 0xfeff_ffff 32 32 true 0 =
      Ok (Z.b2z (v <? 0) * 2 ^ 31 + b, not_eq (c (2 * units binary32 b))) /\
    rounded binary32 (rounding (from_fpcr 0)) (v <? 0) c b /\ 0 <= b < infinity binary32.
Proof.
  split; [reflexivity|].
  exact (integer_to_float_rounded 32 0 ltac:(by left) 0xfeff_ffff 32 true ltac:(by left) ltac:(by split)).
Defined.

(** 1.5 to nearest. *)
Lemma float_to_integer_rounded_witness :
  exact_float_to_integer s1_5 32 32 true ToIntegerNearestEven 0 0 = Ok (mkInteger 2 32 (set_inexact true FpStatus_default)).
Proof.
  rewrite (float_to_integer_rounded 32 0 ltac:(by left) s1_5 32 true ToIntegerNearestEven 0
    ltac:(by left) ltac:(lia) ltac:(by split)).
  by vm_compute.
Defined.

(** FRINTX of 1.5. *)
Lemma round_to_integral_witness :
  exists y, exact_scalar_float_round s1_5 32 RoundExact 0 = Ok (mkExact y (set_inexact true FpStatus_default)) /\
    is_finite binary32 y /\ sign_of binary32 y = false.
Proof.
  destruct (round_to_integral 32 0 ltac:(by left) s1_5 RoundExact ltac:(apply single_finite; simpl; tauto) ltac:(by vm_compute))
    as (y & E & Hfin & Hs & _).
  exists y. split; [|split; [exact Hfin|exact Hs]].
  assert (reports_inexact RoundExact &&
    negb (units (binary 32) (magnitude (binary 32) s1_5) mod 2 ^ unit_shift (binary 32) =? 0) = true) as Ei by (by vm_compute).
  rewrite Ei in E. exact E.
Defined.

(** 0.1, and the least subnormal with flushing on. *)
Lemma single_double_round_trip_witness :
  (exists y, exact_float_convert s0_1 SingleToDouble toward_positive = Ok (mkExact y FpStatus_default) /\
     exact_float_convert y DoubleToSingle toward_positive = Ok (mkExact s0_1 FpStatus_default)) /\
  exists y, exact_float_convert 1 SingleToDouble 0x0100_0000 = Ok (mkExact y (set_input_denormal true FpStatus_default)) /\
     exact_float_convert y DoubleToSingle 0x0100_0000 = Ok (mkExact 0 FpStatus_default).
Proof.
  split; [exact (single_double_round_trip s0_1 toward_positive (single_finite s0_1 ltac:(simpl; tauto)))|].
  exact (single_double_round_trip 1 0x0100_0000 ltac:(by repeat split)).
Defined.
