(* ===== verification/FloatTotal.v ===== *)
(** * Every floating-point primitive returns

    On any operands, NaN and infinities included, and in every mode FPCR can
    select, in a build without overflow checks.  The fused multiply-add is the
    one primitive that depends on the build: with overflow checks it does the
    same or panics, and panics on the operands of [fused_overflows] only. *)

From Stdlib Require Import ZArith Lia Bool.
From stdpp Require Import base numbers list option.
From S2P Require Import Prelude RustInt DecodeFpSimd.
Import DecodeFpSimd.FpSimd.
From S2P Require Import FloatFormat FloatOps FloatConv FloatRound FloatPack FloatArith FloatDivide FloatConvProps.
From S2P Require Import FloatConversions FloatFused.
Local Open Scope Z_scope.

Definition returns {A} (r : fp A) : Prop := exists a, r = Ok a.

Lemma ok_returns {A} (a : A) : returns (Ok a).
Proof. by eexists. Qed.

Lemma returns_bind {A B} (r : fp A) (f : A -> fp B) : returns r -> (forall a, r = Ok a -> returns (f a)) -> returns (r ≫= f).
Proof. intros [a Ha] Hf. rewrite Ha. by apply Hf. Qed.

Create HintDb returns.
#[export] Hint Resolve ok_returns : returns.

(** Steps through a computation that returns: each bind, each branch. *)
Ltac returning :=
  repeat first
    [ apply ok_returns
    | solve [eauto with returns]
    | progress cbv zeta
    | match goal with |- returns (_ ≫= _) => apply returns_bind; [|intros ? _] end
    | case_match ].

Section Total.
Context (f : BinaryFormat) (control : FpControl) (Hmode : fpcr_mode (rounding control)).

Lemma should_round_returns retained remainder denominator negative :
  returns (should_round retained remainder denominator negative (rounding control)).
Proof. destruct Hmode. unfold should_round. destruct (remainder =? 0); [by eexists|]. destruct (rounding control); (done || by eexists). Qed.

Lemma overflow_result_returns sign_bits : returns (overflow_result sign_bits f (rounding control)).
Proof. destruct Hmode. unfold overflow_result. destruct (rounding control); (done || by eexists). Qed.

Hint Resolve should_round_returns overflow_result_returns : returns.

Lemma pack_normal_returns q rem den e sb negative st : returns (pack_normal q rem den e sb negative f control st).
Proof. unfold pack_normal. returning. Qed.

Lemma pack_subnormal_returns q rem den sb negative st : returns (pack_subnormal q rem den sb negative f control st).
Proof. unfold pack_subnormal. returning. Qed.

Hint Resolve pack_normal_returns pack_subnormal_returns : returns.

Lemma pack_float_sum_returns m e negative st : returns (pack_float_sum m e negative f control st).
Proof. unfold pack_float_sum. returning. Qed.

Lemma divide_finite_returns l r sb st : returns (divide_finite l r sb f control st).
Proof. unfold divide_finite. returning. Qed.

Hint Resolve pack_float_sum_returns : returns.

Lemma add_finite_returns l r st : returns (add_finite l r f control st).
Proof. unfold add_finite. returning. Qed.

Lemma fused_finite_returns m k a sign st : returns (fused_finite false m k a sign f control st).
Proof.
  unfold fused_finite, align_fused_operands, add_u128, shl_u128. returning.
Qed.

Lemma round_shift_right_returns v d negative : returns (round_shift_right v d negative (rounding control)).
Proof.
  destruct Hmode. unfold round_shift_right. destruct (d =? 0); [by eexists|].
  destruct ((if d <? 64 then _ else _) =? 0); [by eexists|]. destruct (rounding control); (done || by eexists).
Qed.

Hint Resolve round_shift_right_returns : returns.

Lemma convert_finite_returns d sb st : returns (convert_finite_format d sb f control st).
Proof. unfold convert_finite_format. returning. Qed.
End Total.

#[export] Hint Resolve pack_float_sum_returns divide_finite_returns add_finite_returns fused_finite_returns
  convert_finite_returns fpcr_rounding_mode_ok : returns.

(** ** The primitives *)

Definition ieee (fmt : FpFormat) : Prop := fmt = Binary32 \/ fmt = Binary64.

Lemma BinaryFormat_returns fmt : ieee fmt -> returns (BinaryFormat_new fmt).
Proof. intros [-> | ->]; by eexists. Qed.

Lemma fp_format_ieee fmt : ieee fmt -> fp_format (E := A64FpSimdError) (FpFormat_bits fmt) = Ok fmt.
Proof. by intros [-> | ->]. Qed.

#[export] Hint Resolve BinaryFormat_returns : returns.

Lemma multiply_returns l r fmt fpcr : ieee fmt -> returns (multiply_ieee_lane l r fmt fpcr).
Proof. intros. unfold multiply_ieee_lane. returning. Qed.

Lemma add_returns l r fmt fpcr sub : ieee fmt -> returns (add_ieee_lane l r fmt fpcr sub).
Proof. intros. unfold add_ieee_lane. returning. Qed.

Lemma divide_returns l r fmt control : ieee fmt -> fpcr_mode (rounding control) -> returns (divide_ieee_lane l r fmt control).
Proof. intros. unfold divide_ieee_lane. returning. Qed.

#[export] Hint Resolve multiply_returns add_returns divide_returns : returns.

Lemma scalar_divide_returns l r fmt fpcr : ieee fmt -> returns (exact_scalar_float_divide l r (FpFormat_bits fmt) fpcr).
Proof. intros Hf. unfold exact_scalar_float_divide. rewrite fp_format_ieee by done. cbn [mbind res_bind]. returning. Qed.

Lemma scalar_multiply_returns l r fmt op fpcr : ieee fmt -> returns (exact_scalar_float_multiply l r (FpFormat_bits fmt) op fpcr).
Proof. intros Hf. unfold exact_scalar_float_multiply. rewrite fp_format_ieee by done. cbn [mbind res_bind]. returning. Qed.

Lemma scalar_add_returns l r fmt op fpcr : ieee fmt -> returns (exact_scalar_float_add l r (FpFormat_bits fmt) op fpcr).
Proof. intros Hf. unfold exact_scalar_float_add. rewrite fp_format_ieee by done. cbn [mbind res_bind]. returning. Qed.

Lemma propagate_three_returns a b c f default :
  is_nan a f || is_nan b f || is_nan c f = true -> returns (propagate_nan_three a b c f default).
Proof.
  intros H. unfold propagate_nan_three. destruct default; [by eexists|].
  destruct (list_find (fun operand => is_signaling_nan operand f = true) [a; b; c]) as [[]|]; [by eexists|].
  destruct (list_find (fun operand => is_nan operand f = true) [a; b; c]) as [[]|] eqn:E; [by eexists|].
  apply list_find_None in E. inversion_clear E as [|? ? Ha E']. inversion_clear E' as [|? ? Hb E]. inversion_clear E as [|? ? Hc _].
  destruct (is_nan a f), (is_nan b f), (is_nan c f); done.
Qed.

Lemma fused_returns m k a fmt op fpcr : ieee fmt ->
  returns (exact_scalar_float_fused_multiply_add false m k a (FpFormat_bits fmt) op fpcr).
Proof.
  intros Hf. unfold exact_scalar_float_fused_multiply_add. rewrite fp_format_ieee by done. cbn [mbind res_bind].
  apply returns_bind; [by apply BinaryFormat_returns|]. intros f _.
  destruct (is_nan _ f || is_nan _ f || is_nan _ f) eqn:En; [|returning].
  apply returns_bind; [by apply propagate_three_returns|]. intros. apply ok_returns.
Qed.

(** ** Overflow checks *)

(** Finite operands on which a build with overflow checks panics: a zero term is
    shifted by 128 or more, or the sum of two terms of one sign leaves 128 bits. *)
Definition fused_overflows (f : BinaryFormat) (control : FpControl) (operation : FloatFusedMultiplyOperation)
    (m k c : Z) : bool :=
  let c' := if negates_addend operation then flip_sign f c else c in
  let product_sign := xorb (xorb (sign_of f m) (sign_of f k)) (negates_product operation) in
  forallb (fun bits => magnitude f bits <? infinity f) [m; k; c] &&
  (negb (fused_zero_near f control m k c') ||
   eqb product_sign (sign_of f c') && negb (fused_in_range f control m k c')).

Lemma align_checked p ep z ez :
  align_fused_operands true p ep z ez = align_fused_operands false p ep z ez \/
  align_fused_operands true p ep z ez = Panic.
Proof.
  unfold align_fused_operands. destruct (_ && _); [|by left]. unfold shl_u128.
  destruct (_ <? 128), (_ <? 128); cbn [mbind res_bind]; auto.
Qed.

Lemma fused_finite_checked m k a sign f control st :
  fused_finite true m k a sign f control st = fused_finite false m k a sign f control st \/
  fused_finite true m k a sign f control st = Panic.
Proof.
  unfold fused_finite. cbv zeta. destruct (_ && _); [by left|].
  destruct (align_checked (df_significand m * df_significand k) (df_scale m + df_scale k) (df_significand a) (df_scale a))
    as [-> | ->]; [|by right].
  destruct (align_fused_operands false _ _ _ _) as [[[p z] cs]| |]; cbn [mbind res_bind]; [|by left..].
  destruct (eqb _ _); [|by left]. unfold add_u128. destruct (_ <? 2 ^ 128); [by left|by right].
Qed.

(** An infinity is not flushed. *)
Lemma infinite_not_flushed f d control st : format_ok f -> is_infinite d f = true ->
  flush_operand d f control st = (d, st).
Proof.
  intros Hf [Hm%Z.eqb_eq _]%andb_prop. unfold flush_operand, is_subnormal. rewrite Hm, exponent_max_pow by done.
  pose proof (format_dims f Hf). pose proof (pow2_lt 1 (exponent_bits f) ltac:(lia)).
  rewrite (proj2 (Z.eqb_neq _ 0)) by lia. by rewrite andb_false_r.
Qed.

Lemma special_magnitude f bits d : format_ok f -> decodes f bits d ->
  is_nan d f = false -> is_infinite d f = false -> magnitude f bits < infinity f.
Proof.
  intros Hf Hd Hn Hi. rewrite (decoded_nan f Hf bits d Hd) in Hn. rewrite (decoded_infinite f Hf bits d Hd) in Hi.
  apply Z.ltb_ge in Hn. apply Z.eqb_neq in Hi. lia.
Qed.

(** The result is the same in both builds, or a checked build panics, on finite operands. *)
Lemma fused_checked_finite fmt f m k c operation fpcr :
  ieee fmt -> BinaryFormat_new (E := A64FpSimdError) fmt = Ok f -> format_ok f ->
  fits (total_bits f) m -> fits (total_bits f) k -> fits (total_bits f) c ->
  let run checks := exact_scalar_float_fused_multiply_add checks m k c (FpFormat_bits fmt) operation fpcr in
  run true = run false \/
  run true = Panic /\ forallb (fun bits => magnitude f bits <? infinity f) [m; k; c] = true.
Proof.
  intros Hi Hnew Hf Hm Hk Hc run. unfold run, exact_scalar_float_fused_multiply_add.
  rewrite (fp_format_ieee fmt Hi). cbn [mbind res_bind]. rewrite Hnew. cbn [mbind res_bind]. cbv zeta.
  pose proof (DecodedFloat_new_spec f m Hf Hm) as Dm. pose proof (DecodedFloat_new_spec f k Hf Hk) as Dk.
  pose proof (DecodedFloat_new_spec f c Hf Hc) as Dc.
  set (dm := DecodedFloat_new m f) in *. set (dk := DecodedFloat_new k f) in *. set (dc := DecodedFloat_new c f) in *.
  set (da := if negates_addend operation then negate_operand dc f else dc).
  assert (is_nan da f = is_nan dc f /\ is_infinite da f = is_infinite dc f) as [En Ei]
    by (unfold da; by destruct (negates_addend operation)).
  destruct (is_nan dm f || is_nan dk f || is_nan da f) eqn:Hnan; [by left|].
  apply orb_false_elim in Hnan as [[Nm Nk]%orb_false_elim Na].
  destruct (flush_operand dm f (from_fpcr fpcr) FpStatus_default) as [fm s1] eqn:Fm.
  destruct (flush_operand dk f (from_fpcr fpcr) s1) as [fk s2] eqn:Fk.
  destruct (flush_operand da f (from_fpcr fpcr) s2) as [fa s3] eqn:Fa.
  destruct (_ || _) eqn:Hinv; [by left|]. clear Hinv.
  destruct (is_infinite fm f || is_infinite fk f) eqn:Hmk; [by left|].
  apply orb_false_elim in Hmk as [Im Ik]. destruct (is_infinite fa f) eqn:Ia; [by left|].
  destruct (fused_finite_checked fm fk fa (xorb (xorb (df_sign fm) (df_sign fk)) (negates_product operation)) f
    (from_fpcr fpcr) s3) as [->|Hp]; [by left|right]. split; [done|].
  assert (forall d st d' st', flush_operand d f (from_fpcr fpcr) st = (d', st') -> is_infinite d' f = false ->
    is_infinite d f = false) as Hback.
  { intros d st d' st' E Hd'. destruct (is_infinite d f) eqn:Ed; [|done].
    rewrite infinite_not_flushed in E by done. injection E as <- <-. congruence. }
  apply Hback in Fm; [|done]. apply Hback in Fk; [|done]. apply Hback in Fa; [|done]. cbn [forallb].
  rewrite !(proj2 (Z.ltb_lt _ _)); [done|..]; eapply special_magnitude; try done; congruence.
Qed.

Lemma fused_checked fmt f m k c operation fpcr :
  ieee fmt -> BinaryFormat_new (E := A64FpSimdError) fmt = Ok f ->
  fits (FpFormat_bits fmt) m -> fits (FpFormat_bits fmt) k -> fits (FpFormat_bits fmt) c ->
  let run checks := exact_scalar_float_fused_multiply_add checks m k c (FpFormat_bits fmt) operation fpcr in
  run true = run false \/ run true = Panic /\ fused_overflows f (from_fpcr fpcr) operation m k c = true.
Proof.
  intros Hi Hnew Hm Hk Hc run.
  assert (format_ok f /\ total_bits f = FpFormat_bits fmt) as [Hf Ew] by (destruct Hi as [-> | ->]; injection Hnew as <-; (split; [exact binary32_ok || exact binary64_ok|done])).
  rewrite <- Ew in Hm, Hk, Hc.
  destruct (fused_checked_finite fmt f m k c operation fpcr Hi Hnew Hf Hm Hk Hc) as [?|[Hp Hfin]]; [by left|right].
  split; [done|]. unfold fused_overflows. rewrite Hfin. cbn [andb].
  cbn [forallb] in Hfin. apply andb_prop in Hfin as [Fm%Z.ltb_lt [Fk%Z.ltb_lt [Fc%Z.ltb_lt _]%andb_prop]%andb_prop].
  destruct (_ || _) eqn:Eo; [done|exfalso]. apply orb_false_elim in Eo as [Hz%negb_false_iff Hs].
  destruct (fused_multiply_add_finite true _ fmt f m k c operation fpcr (fp_format_ieee fmt Hi) Hnew Hf (conj Hm Fm)
    (conj Hk Fk) (conj Hc Fc)) as (bits & st & E & _); [done| |by rewrite E in Hp].
  intros Es. rewrite Es, eqb_reflx in Hs. by apply negb_false_iff.
Qed.

Lemma compare_returns l r fmt sig fpcr : ieee fmt -> returns (exact_scalar_float_compare l r (FpFormat_bits fmt) sig fpcr).
Proof. intros Hf. unfold exact_scalar_float_compare. rewrite fp_format_ieee by done. cbn [mbind res_bind]. returning. Qed.

Lemma convert_returns x conversion fpcr : returns (exact_float_convert x conversion fpcr).
Proof.
  unfold exact_float_convert, convert_ieee_format. assert (ieee Binary32) by (by left). assert (ieee Binary64) by (by right).
  destruct conversion; cbn [mbind res_bind]; returning.
Qed.

Lemma to_integer_returns x fmt f width signed rounding fr fpcr : ieee fmt -> BinaryFormat_new (E := A64FpSimdError) fmt = Ok f ->
  returns (exact_float_to_integer x (total_bits f) width signed rounding fr fpcr).
Proof. intros [-> | ->] [= <-]; by eexists. Qed.

Lemma integer_to_ieee_returns m negative width mode : fpcr_mode mode -> returns (integer_magnitude_to_ieee m negative width mode).
Proof.
  intros [Ha Ho]. unfold integer_magnitude_to_ieee. destruct (m =? 0); [by eexists|].
  destruct (if width =? 32 then _ else _) as [fb eb]. apply returns_bind.
  - destruct (_ <=? fb); [by eexists|]. destruct mode; (done || by eexists).
  - intros [s inx] _. destruct (if s =? _ then _ else _). by eexists.
Qed.

Lemma ieee_binary fmt : ieee fmt -> exists f, BinaryFormat_new (E := A64FpSimdError) fmt = Ok f /\
  ieee_format (total_bits f) f /\ total_bits f = FpFormat_bits fmt.
Proof. intros [-> | ->]; eexists; (split; [done|]); [split; [by left|done]|split; [by right|done]]. Qed.

(** Operands that are not finite return at once; finite ones by the finite
    theorems. *)
Lemma square_root_returns x fmt fpcr : ieee fmt -> fits (FpFormat_bits fmt) x ->
  returns (exact_scalar_float_square_root x (FpFormat_bits fmt) fpcr).
Proof.
  intros Hi Hx. destruct (ieee_binary fmt Hi) as (f & Hf & Hw & Ht). destruct (ieee_format_ok _ f Hw) as [Hok _].
  rewrite <- Ht in Hx. destruct (Z.lt_ge_cases (magnitude f x) (infinity f)) as [Hlt|Hge].
  - destruct (square_root_finite (FpFormat_bits fmt) fmt f x fpcr) as (bits & st & E & _); [by apply fp_format_ieee|done..|].
    by eexists.
  - pose proof (DecodedFloat_new_spec f x Hok Hx) as Hd. unfold exact_scalar_float_square_root.
    rewrite fp_format_ieee by done. cbn [mbind res_bind]. rewrite Hf. cbn [mbind res_bind].
    destruct (is_nan _ f) eqn:En; [by eexists|].
    assert (is_infinite (DecodedFloat_new x f) f = true) as Hinf.
    { rewrite (decoded_nan f Hok x _ Hd) in En. rewrite (decoded_infinite f Hok x _ Hd). apply Z.ltb_ge in En. apply Z.eqb_eq. lia. }
    pose proof (infinity_bounds f Hok). pose proof (fraction_pow_pos f Hok).
    assert (2 ^ fraction_bits f <= infinity f) by (unfold infinity; pose proof (format_dims f Hok); pose proof (pow2_le 8 (exponent_bits f)); nia).
    unfold flush_operand. rewrite (subnormal_flushes f Hok (from_fpcr fpcr) _ x Hd).
    assert (flushes f (from_fpcr fpcr) x = false) as ->.
    { unfold flushes. rewrite not_subnormal by lia. apply andb_false_r. }
    rewrite (decoded_zero f Hok x _ Hd), (proj2 (Z.eqb_neq _ 0)), Hinf by lia.
    destruct (df_sign _); by eexists.
Qed.

Lemma round_returns x fmt operation fpcr : ieee fmt -> fits (FpFormat_bits fmt) x ->
  returns (exact_scalar_float_round x (FpFormat_bits fmt) operation fpcr).
Proof.
  intros Hi Hx. destruct (ieee_binary fmt Hi) as (f & Hf & Hw & Ht). destruct (ieee_format_ok _ f Hw) as [Hok _].
  rewrite <- Ht in Hx. pose proof (DecodedFloat_new_spec f x Hok Hx) as Hd.
  destruct (Z.lt_ge_cases (magnitude f x) (infinity f)) as [Hlt|Hge].
  - destruct (flushes f (from_fpcr fpcr) x) eqn:Efl.
    + unfold exact_scalar_float_round. rewrite fp_format_ieee by done. cbn [mbind res_bind]. rewrite Hf. cbn [mbind res_bind].
      destruct (finite_not_special f Hok _ x Hd Hlt) as [-> ->]. destruct (is_zero _); [by eexists|]. cbn [orb].
      pose proof (subnormal_flushes f Hok (from_fpcr fpcr) _ x Hd) as Hs. cbn [from_fpcr flush_to_zero] in Hs.
      rewrite Hs, Efl. by eexists.
    + destruct (float_round_finite (FpFormat_bits fmt) fmt f x fpcr operation) as (y & E & _); try done.
      * by apply fp_format_ieee.
      * by eexists.
  - unfold exact_scalar_float_round. rewrite fp_format_ieee by done. cbn [mbind res_bind]. rewrite Hf. cbn [mbind res_bind].
    destruct (is_nan _ f) eqn:En; [by eexists|].
    rewrite (decoded_nan f Hok x _ Hd) in En. apply Z.ltb_ge in En.
    rewrite (decoded_infinite f Hok x _ Hd), (proj2 (Z.eqb_eq _ _)) by lia. by eexists.
Qed.
