(* ===== verification/Vector.v ===== *)
(** * SIMD lanes, arrangements and saturation: [crates/cpu/src/semantics/vector.rs]

    And the shared view of the lane loops of [a64_fp_simd.rs]: a vector is
    assembled by or-ing shifted lanes, and each lane can be read back. *)

From Stdlib Require Import ZArith Lia Bool.
From stdpp Require Import base numbers list option.
From S2P Require Import Prelude RustInt.
Local Open Scope Z_scope.

(** ** Arrangements *)

Inductive LaneWidth : Set := Bits8 | Bits16 | Bits32 | Bits64.

Definition lane_bits (self : LaneWidth) : Z :=
  match self with Bits8 => 8 | Bits16 => 16 | Bits32 => 32 | Bits64 => 64 end.

Definition lane_width_mask (self : LaneWidth) : Z := shl_w 128 1 (lane_bits self) - 1.

Record VectorArrangement := mkArrangement { vector_bits : Z; lane_width : LaneWidth }.

Inductive VectorError : Set :=
  | InvalidVectorWidth (width : Z)
  | InvalidArrangement (vector_bits lane_bits : Z)
  | LaneOutOfRange (lane lane_count : Z).

Definition VectorArrangement_new (vector_bits : Z) (lane_width : LaneWidth) : res VectorError VectorArrangement :=
  if negb ((vector_bits =? 64) || (vector_bits =? 128)) then Err (InvalidVectorWidth vector_bits)
  else if negb (vector_bits mod lane_bits lane_width =? 0)
  then Err (InvalidArrangement vector_bits (lane_bits lane_width))
  else Ok (mkArrangement vector_bits lane_width).

Definition lane_count (self : VectorArrangement) : Z := vector_bits self / lane_bits (lane_width self).

Definition extract_lane (vector : Z) (arrangement : VectorArrangement) (lane : Z) : res VectorError Z :=
  if lane_count arrangement <=? lane then Err (LaneOutOfRange lane (lane_count arrangement))
  else
    let offset := lane * lane_bits (lane_width arrangement) in
    Ok (wrap 64 (Z.land (Z.shiftr vector offset) (lane_width_mask (lane_width arrangement)))).

Definition insert_lane (vector : Z) (arrangement : VectorArrangement) (lane value : Z) : res VectorError Z :=
  if lane_count arrangement <=? lane then Err (LaneOutOfRange lane (lane_count arrangement))
  else
    let offset := lane * lane_bits (lane_width arrangement) in
    let lane_mask := shl_w 128 (lane_width_mask (lane_width arrangement)) offset in
    let vector_mask := if vector_bits arrangement =? 128 then Z.ones 128 else Z.ones 64 in
    Ok (Z.land
      (Z.lor (Z.land vector (not_w 128 lane_mask))
         (shl_w 128 (Z.land value (lane_width_mask (lane_width arrangement))) offset))
      vector_mask).

(** ** Saturation *)

Record SaturationResult := mkSaturation { saturation_value : Z; was_saturated : bool }.

Definition saturate_unsigned (value : Z) (width : LaneWidth) : SaturationResult :=
  let maximum := lane_width_mask width in
  if value <? 0 then mkSaturation 0 true
  else if maximum <? value then mkSaturation (wrap 64 maximum) true
  else mkSaturation (wrap 64 value) false.

Definition saturate_signed (value : Z) (width : LaneWidth) : SaturationResult :=
  let bits := lane_bits width in
  let minimum := - Z.shiftl 1 (bits - 1) in
  let maximum := Z.shiftl 1 (bits - 1) - 1 in
  let '(value, saturated) :=
    if value <? minimum then (minimum, true)
    else if maximum <? value then (maximum, true)
    else (value, false) in
  mkSaturation (wrap 64 (Z.land (wrap 128 value) (lane_width_mask width))) saturated.

(** ** Lanes of a vector *)

(** Lane [i] of width [b]. *)
Definition lane_at (b v i : Z) : Z := Z.shiftr v (i * b) mod 2 ^ b.

(** The loops [for lane in 0..count { result |= f(lane) << (lane * b) }]. *)
Definition or_lanes (b : Z) (f : Z -> Z) (lanes : list Z) : Z :=
  fold_left (fun result lane => Z.lor result (shl_w 128 (f lane) (lane * b))) lanes 0.

Lemma lane_at_fits b v i : 0 <= b -> fits b (lane_at b v i).
Proof. intros. by apply wrap_fits. Qed.

Lemma lane_at_testbit b v i k : 0 <= b -> 0 <= i -> 0 <= k ->
  Z.testbit (lane_at b v i) k = (k <? b) && Z.testbit v (i * b + k).
Proof.
  intros Hb Hi Hk. unfold lane_at. rewrite Z.testbit_mod_pow2, Z.shiftr_spec by lia. do 2 f_equal. lia.
Qed.

(** Bit [j] of lane [k / b] is bit [k mod b] of its lane. *)
Lemma bit_of_lane b v k : 0 < b -> 0 <= k -> Z.testbit v k = Z.testbit (lane_at b v (k / b)) (k mod b).
Proof.
  intros Hb Hk. pose proof (Z.mod_pos_bound k b Hb). pose proof (Z.div_pos k b Hk Hb).
  rewrite lane_at_testbit by lia. rewrite (proj2 (Z.ltb_lt _ _)) by lia. cbn [andb]. f_equal.
  rewrite (Z.div_mod k b) at 1; lia.
Qed.

(** Vectors with the same lanes are the same. *)
Lemma lanes_ext b n v w : 0 < b -> 0 <= n -> fits (n * b) v -> fits (n * b) w ->
  (forall i, 0 <= i < n -> lane_at b v i = lane_at b w i) -> v = w.
Proof.
  intros Hb Hn Hv Hw Hl. apply Z.bits_inj'. intros k Hk. destruct (Z.lt_ge_cases k (n * b)) as [Hlt|Hge].
  - rewrite !(bit_of_lane b _ k) by done. rewrite Hl; [done|].
    split; [apply Z.div_pos; lia|apply Z.div_lt_upper_bound; lia].
  - rewrite !(testbit_fits (n * b)) by (done || lia). done.
Qed.

Lemma lane_at_0 b i : lane_at b 0 i = 0.
Proof. unfold lane_at. by rewrite Z.shiftr_0_l, Zmod_0_l. Qed.

Lemma lane_at_lor b v w i : 0 <= b -> 0 <= i -> lane_at b (Z.lor v w) i = Z.lor (lane_at b v i) (lane_at b w i).
Proof.
  intros. apply Z.bits_inj'. intros k Hk. rewrite Z.lor_spec, !lane_at_testbit, Z.lor_spec by done.
  by destruct (k <? b).
Qed.

Lemma lane_at_shl b x i j : 0 < b -> 0 <= i -> 0 <= j -> (i + 1) * b <= 128 -> fits b x ->
  lane_at b (shl_w 128 x (j * b)) i = if i =? j then x else 0.
Proof.
  intros Hb Hi Hj Hr Hx. apply Z.bits_inj'. intros k Hk. rewrite lane_at_testbit by lia.
  assert (k < b -> Z.testbit (shl_w 128 x (j * b)) (i * b + k) = Z.testbit x ((i - j) * b + k)) as Hs.
  { intros Hkb. rewrite testbit_shl_w by nia. rewrite (proj2 (Z.ltb_lt _ 128)) by nia. cbn [andb]. f_equal. lia. }
  destruct (Z.ltb_spec k b) as [Hkb|Hkb]; cbn [andb].
  - rewrite Hs by done. destruct (Z.eqb_spec i j) as [->|Hne]; [f_equal; lia|].
    rewrite Z.testbit_0_l. destruct (Z.lt_ge_cases ((i - j) * b + k) 0); [by apply Z.testbit_neg_r|].
    apply (testbit_fits b); [lia|done|]. assert (1 <= i - j) by nia. nia.
  - destruct (i =? j); [|by rewrite Z.testbit_0_l]. symmetry. by apply (testbit_fits b); [lia|..].
Qed.

Lemma or_lanes_acc b f l acc i : 0 < b -> 0 <= i -> (i + 1) * b <= 128 ->
  (forall j, j ∈ l -> 0 <= j /\ fits b (f j)) ->
  lane_at b (fold_left (fun result lane => Z.lor result (shl_w 128 (f lane) (lane * b))) l acc) i =
  fold_left (fun r j => Z.lor r (if i =? j then f j else 0)) l (lane_at b acc i).
Proof.
  intros Hb Hi Hr. revert acc. induction l as [|j l IH]; intros acc Hl; [done|].
  destruct (Hl j ltac:(left)) as [Hj Hf]. cbn [fold_left].
  rewrite IH by (intros; apply Hl; by right). rewrite lane_at_lor, lane_at_shl by (done || lia). done.
Qed.

Lemma fold_lor_once (g : Z -> Z) i l acc : NoDup l ->
  fold_left (fun r j => Z.lor r (if i =? j then g j else 0)) l acc = if bool_decide (i ∈ l) then Z.lor acc (g i) else acc.
Proof.
  revert acc. induction l as [|j l IH]; intros acc Hn; [done|]. inversion_clear Hn as [|? ? Hj Hn']. cbn [fold_left].
  rewrite IH by done. destruct (Z.eqb_spec i j) as [->|Hne].
  - rewrite (bool_decide_eq_false_2 (j ∈ l)), bool_decide_eq_true_2 by (done || by left). done.
  - rewrite Z.lor_0_r. destruct (decide (i ∈ l)) as [Hin|Hout].
    + rewrite !bool_decide_eq_true_2 by (done || by right). done.
    + rewrite !bool_decide_eq_false_2; [done| |done]. rewrite elem_of_cons. naive_solver.
Qed.

(** Each lane of the assembled vector is the lane the body computed; the lanes
    the loop does not visit are zero. *)
Lemma or_lanes_at b f l i : 0 < b -> 0 <= i -> (i + 1) * b <= 128 -> NoDup l ->
  (forall j, j ∈ l -> 0 <= j /\ fits b (f j)) ->
  lane_at b (or_lanes b f l) i = if bool_decide (i ∈ l) then f i else 0.
Proof.
  intros. unfold or_lanes. rewrite or_lanes_acc, fold_lor_once by done. rewrite lane_at_0.
  destruct (bool_decide (i ∈ l)); [by rewrite Z.lor_0_l|done].
Qed.

Lemma or_lanes_fits b f l n : 0 <= b -> 0 <= n * b <= 128 -> (forall j, j ∈ l -> 0 <= j < n /\ fits b (f j)) ->
  fits (n * b) (or_lanes b f l).
Proof.
  intros Hb Hn Hl. unfold or_lanes. assert (fits (n * b) 0) as H0 by (split; [lia|apply pow2_pos; lia]). revert H0.
  generalize 0 as acc. induction l as [|j l IH]; intros acc Ha; [done|]. cbn [fold_left].
  destruct (Hl j ltac:(left)) as [Hj Hf]. apply IH; [intros; apply Hl; by right|].
  apply fits_lor; [lia|done|]. assert (fits (n * b) (f j * 2 ^ (j * b))) as Hs.
  { unfold fits in *. pose proof (pow2_pos (j * b) ltac:(nia)). split; [nia|].
    apply Z.lt_le_trans with (2 ^ b * 2 ^ (j * b)); [nia|]. rewrite <- Z.pow_add_r by nia. apply pow2_le. nia. }
  unfold shl_w. rewrite Z.shiftl_mul_pow2 by nia. rewrite wrap_small; [done|]. by apply (fits_le (n * b) 128).
Qed.

(** The lanes [0 .. n]. *)
Definition lanes (n : Z) : list Z := seqZ 0 n.

Lemma lanes_NoDup n : NoDup (lanes n).
Proof. apply NoDup_seqZ. Qed.

Lemma elem_of_lanes n i : i ∈ lanes n <-> 0 <= i < n.
Proof. unfold lanes. rewrite elem_of_seqZ. lia. Qed.

(** The whole loop over [n] lanes. *)
Lemma or_lanes_spec b n f : 0 < b -> 0 <= n -> n * b <= 128 -> (forall j, 0 <= j < n -> fits b (f j)) ->
  fits (n * b) (or_lanes b f (lanes n)) /\ forall i, 0 <= i < n -> lane_at b (or_lanes b f (lanes n)) i = f i.
Proof.
  intros Hb Hn H128 Hf. split.
  - apply or_lanes_fits; [lia|lia|]. intros j Hj%elem_of_lanes. auto.
  - intros i Hi. rewrite or_lanes_at; [|lia|lia|nia|apply lanes_NoDup|intros j Hj%elem_of_lanes; split; [lia|auto]].
    by rewrite bool_decide_eq_true_2 by (by apply elem_of_lanes).
Qed.

(** ** The operations of the file *)

Lemma lane_width_mask_ones w : lane_width_mask w = Z.ones (lane_bits w).
Proof. by destruct w. Qed.

Lemma extract_lane_at vector arrangement lane : 0 <= lane < lane_count arrangement ->
  extract_lane vector arrangement lane = Ok (lane_at (lane_bits (lane_width arrangement)) vector lane).
Proof.
  intros Hl. unfold extract_lane. rewrite (proj2 (Z.leb_gt _ _)) by lia. f_equal.
  assert (0 <= lane_bits (lane_width arrangement) <= 64) by (destruct (lane_width arrangement); simpl; lia).
  rewrite lane_width_mask_ones, Z.land_ones by lia. apply wrap_small.
  apply (fits_le (lane_bits (lane_width arrangement))); [lia|]. apply (lane_at_fits _ vector lane). lia.
Qed.

(** An arrangement the constructor accepts: 1 to 16 whole lanes. *)
Lemma arrangement_lanes v w a : VectorArrangement_new v w = Ok a ->
  a = mkArrangement v w /\ (v = 64 \/ v = 128) /\ 8 <= lane_bits w <= 64 /\ 0 < lane_count a /\ lane_count a * lane_bits w = v.
Proof.
  unfold VectorArrangement_new.
  destruct (Z.eqb_spec v 64) as [->|H64]; [|destruct (Z.eqb_spec v 128) as [->|H128]]; cbn [orb negb]; [| |done];
    destruct w; intros [= <-]; (split; [done|]); unfold lane_count; simpl; (split; [lia|]); split; try lia; by vm_compute.
Qed.

Lemma low_64 w x : fits (lane_bits w) x -> wrap 64 x = x.
Proof. intros Hx. apply wrap_small. apply (fits_le (lane_bits w)); [destruct w; simpl; lia|done]. Qed.

(** A lane is read back after it is written, the others are kept. *)
Lemma insert_lane_spec v w a vector lane value : VectorArrangement_new v w = Ok a -> fits v vector -> 0 <= lane < lane_count a ->
  exists vector', insert_lane vector a lane value = Ok vector' /\ fits v vector' /\
    forall i, 0 <= i < lane_count a ->
      lane_at (lane_bits w) vector' i = if i =? lane then wrap (lane_bits w) value else lane_at (lane_bits w) vector i.
Proof.
  intros Ha Hv Hl. destruct (arrangement_lanes _ _ _ Ha) as (-> & Hvb & Hb & Hn & E). unfold insert_lane.
  rewrite (proj2 (Z.leb_gt _ _)) by lia. cbn [lane_width vector_bits] in *. set (b := lane_bits w) in *.
  assert ((if v =? 128 then Z.ones 128 else Z.ones 64) = Z.ones v) as -> by (by destruct Hvb as [->| ->]).
  eexists. split; [done|]. split.
  { apply fits_land_r; [lia|]. unfold fits. rewrite Z.ones_equiv. pose proof (pow2_pos v ltac:(lia)). lia. }
  intros i Hi. assert ((i + 1) * b <= v) by nia. assert ((lane + 1) * b <= v) by nia.
  apply Z.bits_inj'. intros k Hk. rewrite lane_width_mask_ones. fold b.
  assert (Z.testbit (if i =? lane then wrap b value else lane_at b vector i) k =
    (k <? b) && Z.testbit (if i =? lane then value else Z.shiftr vector (i * b)) k) as ->.
  { destruct (i =? lane); [by rewrite testbit_wrap by lia|]. rewrite lane_at_testbit, Z.shiftr_spec by lia. do 2 f_equal. lia. }
  rewrite lane_at_testbit by lia. destruct (Z.ltb_spec k b) as [Hkb|]; [|done]. cbn [andb].
  rewrite Z.land_spec, Z.lor_spec, Z.land_spec, testbit_not_w, !testbit_shl_w, Z.land_spec, !Z.testbit_ones by nia.
  rewrite !(proj2 (Z.ltb_lt _ 128)), (proj2 (Z.ltb_lt _ v)), (proj2 (Z.leb_le 0 (i * b + k))) by nia. cbn [andb].
  destruct (Z.eqb_spec i lane) as [->|Hne].
  - replace (lane * b + k - lane * b) with k by lia. rewrite (proj2 (Z.ltb_lt k b)), (proj2 (Z.leb_le 0 k)) by lia.
    cbn [andb negb]. by rewrite !andb_true_r, andb_false_r.
  - assert ((0 <=? i * b + k - lane * b) && (i * b + k - lane * b <? b) = false) as ->.
    { destruct (Z.leb_spec 0 (i * b + k - lane * b)), (Z.ltb_spec (i * b + k - lane * b) b); try done. nia. }
    rewrite Z.shiftr_spec by lia. cbn [andb negb]. rewrite !andb_true_r, andb_false_r, orb_false_r. f_equal. lia.
Qed.

(** Lanes are independent and saturation clamps.  In every arrangement,
    writing a lane inside it and reading any lane returns what was written in its
    own lane, modulo the lane width, and what was there before in every other;
    lanes outside are rejected.  Saturating a value gives the nearest value the
    lane can hold, signed or unsigned, and reports saturation exactly when that
    is not the value. *)
Theorem lane_primitives v w a vector lane value i : VectorArrangement_new v w = Ok a -> fits v vector -> 0 <= lane -> 0 <= i ->
  let b := lane_bits w in
  let n := lane_count a in
  (if lane <? n then exists vector', insert_lane vector a lane value = Ok vector' /\ fits v vector' /\
       extract_lane vector' a i =
         if i <? n then (if i =? lane then Ok (wrap b value) else extract_lane vector a i) else Err (LaneOutOfRange i n)
   else insert_lane vector a lane value = Err (LaneOutOfRange lane n)) /\
  (let c := Z.max 0 (Z.min value (2 ^ b - 1)) in saturate_unsigned value w = mkSaturation c (negb (c =? value))) /\
  (let c := Z.max (- 2 ^ (b - 1)) (Z.min value (2 ^ (b - 1) - 1)) in
   saturate_signed value w = mkSaturation (wrap b c) (negb (c =? value))).
Proof.
  intros Ha Hv Hl Hi b n. destruct (arrangement_lanes _ _ _ Ha) as (Ea & Hvb & Hb & Hn & E). split; [|split].
  - destruct (Z.ltb_spec lane n).
    + destruct (insert_lane_spec v w a vector lane value Ha Hv ltac:(done)) as (vector' & -> & Hf & Hlanes).
      exists vector'. split; [done|]. split; [done|]. destruct (Z.ltb_spec i n) as [Hin|Hout].
      * rewrite !extract_lane_at by done. subst a. cbn [lane_width]. rewrite Hlanes by done. by destruct (i =? lane).
      * unfold extract_lane. by rewrite (proj2 (Z.leb_le _ _)) by done.
    + unfold insert_lane. by rewrite (proj2 (Z.leb_le _ _)) by done.
  - unfold saturate_unsigned. rewrite lane_width_mask_ones, Z.ones_equiv. fold b. set (M := 2 ^ b). change (Z.pred M) with (M - 1).
    assert (0 < M) by (apply pow2_pos; lia).
    assert (forall x, 0 <= x < M -> wrap 64 x = x) as Hw by (intros; by apply (low_64 w)).
    destruct (Z.ltb_spec value 0); [|destruct (Z.ltb_spec (M - 1) value)].
    + rewrite Z.max_l by lia. f_equal. symmetry. apply negb_true_iff, Z.eqb_neq. lia.
    + rewrite Z.min_r, Z.max_r, Hw by lia. f_equal. symmetry. apply negb_true_iff, Z.eqb_neq. lia.
    + rewrite Z.min_l, Z.max_r, Hw, Z.eqb_refl by lia. done.
  - unfold saturate_signed. fold b. rewrite Z.shiftl_1_l. set (M := 2 ^ (b - 1)). assert (0 < M) by (apply pow2_pos; lia).
    assert (forall x, wrap 64 (Z.land (wrap 128 x) (lane_width_mask w)) = wrap b x) as Hw.
    { intros x. rewrite lane_width_mask_ones. unfold b. rewrite wrap_land, (wrap_wrap_le 128 (lane_bits w)) by lia. apply (low_64 w). apply wrap_fits. lia. }
    destruct (Z.ltb_spec value (- M)); [|destruct (Z.ltb_spec (M - 1) value)]; rewrite Hw; f_equal.
    + f_equal. lia.
    + symmetry. apply negb_true_iff, Z.eqb_neq. lia.
    + f_equal. lia.
    + symmetry. apply negb_true_iff, Z.eqb_neq. lia.
    + f_equal. lia.
    + symmetry. apply negb_false_iff, Z.eqb_eq. lia.
Qed.

Lemma lane_primitives_witness :
  VectorArrangement_new 64 Bits16 = Ok (mkArrangement 64 Bits16) /\
  saturate_signed (-40000) Bits16 = mkSaturation 0x8000 true.
Proof.
  split; [reflexivity|].
  pose proof (proj2 (proj2 (lane_primitives 64 Bits16 (mkArrangement 64 Bits16) 0x4444_3333_2222_1111 1 (-40000) 2
    eq_refl ltac:(by split) ltac:(lia) ltac:(lia)))) as Hs.
  exact Hs.
Defined.
