(* ===== verification/SimdOps.v ===== *)
(** * Advanced SIMD operations on registers: the lane half of
      [crates/cpu/src/semantics/a64_fp_simd.rs]

    One definition per function of the source, over [A64State].  A loop over
    lanes is [or_lanes]: [for shift in (0..vector_bits).step_by(lane_bits)] visits
    the lanes at [lane * lane_bits].  Fields no accepted encoding carries (an
    element selector without a set bit, a zero [immh]) make a shift overflow; the
    model panics there, as a build with overflow checks does.  Two shifts overflow
    on accepted encodings, in [duplicate_element] and [shift_left_long]; they take
    the build profile, [checks]. *)

From Stdlib Require Import ZArith Lia Bool.
From stdpp Require Import base numbers list option.
From S2P Require Import Prelude RustInt Bits Conditions A64State A64Semantics Vector Allocation DecodeBase DecodeFpSimd.
Import DecodeFpSimd.FpSimd.
From S2P Require Import FloatFormat FloatOps FloatConv.
Local Open Scope Z_scope.

Abbreviation Step := (M A64State A64FpSimdError).

(** ** Registers *)

Definition zero_register (index : Z) : A64Register :=
  match A64GeneralRegister_new index with Some r => General r | None => Zero end.

Definition read (index width : Z) : Step Z :=
  st ← gets id;
  mret (if width =? 64 then read_x st (zero_register index) else read_w st (zero_register index)).

(** Every call passes [false] for [register31_is_sp], which [read] and [write]
    only assert. *)
Definition write (index width value : Z) : Step unit :=
  modify (fun st => if width =? 64 then write_x (zero_register index) value st
                    else write_w (zero_register index) (wrap 32 value) st).

(** [state.vector(index).expect(..)] and [assert!(state.set_vector(..))]. *)
Definition vector_r (index : Z) : Step Z := st ← gets id; lift (expect (vector st index)).

Definition assert_set_vector (index value : Z) : Step unit := fun st =>
  let '(st, ok) := set_vector index value st in (st, if ok : bool then Ok tt else Panic).

(** ** Shapes *)

Definition vector_width (fields : Operands) : Z := if vector_128 fields then 128 else 64.

(** [8 << fields.opc]. *)
Definition lane_bits_of (fields : Operands) : Z := Z.shiftl 8 (opc fields).

Definition low_mask (bits : Z) : Z := Z.ones bits.

(** [(1_u128 << bits) - 1]: at 128 the shift overflows, which panics when the
    build checks overflow and shifts by zero when it does not. *)
Definition mask_u128 (checks : bool) (bits : Z) : fp Z :=
  if bits <? 128 then Ok (low_mask bits) else if checks then Panic else Ok (low_mask (bits mod 128)).

(** Lane [lane] as the loops read it. *)
Definition get_lane (b v lane : Z) : Z := Z.land (Z.shiftr v (lane * b)) (low_mask b).

(** The element size and index of [imm5]. *)
Definition insert_lane_shape (immediate_5 : Z) : fp (Z * Z) :=
  let size_shift := trailing_zeros 8 immediate_5 in
  if size_shift <=? 3 then Ok (Z.shiftl 8 size_shift, Z.shiftr immediate_5 (size_shift + 1)) else Panic.

(** The element size of [immh]: [8 << (31 - immh.leading_zeros())]. *)
Definition shift_lane_bits (immediate : Z) : fp Z :=
  let immediate_high := Z.shiftr immediate 3 in
  if immediate_high =? 0 then Panic else Ok (Z.shiftl 8 (31 - leading_zeros 32 immediate_high)).

Definition fmov_width (opc : Z) : fp Z :=
  match opc with 0 => Ok 32 | 1 => Ok 64 | 3 => Ok 16 | _ => Panic end.

(** ** Moves *)

Definition scalar_move (fields : Operands) : Step unit :=
  width ← lift (fmov_width (opc fields));
  source ← vector_r (rn fields);
  assert_set_vector (rd fields) (Z.land source (low_mask width)).

Definition scalar_sign_operation (fields : Operands) (negate : bool) : Step unit :=
  width ← lift (fmov_width (opc fields));
  let sign := Z.shiftl 1 (width - 1) in
  source ← vector_r (rn fields);
  let source := Z.land source (low_mask width) in
  assert_set_vector (rd fields) (if negate then Z.lxor source sign else Z.land source (not_w 128 sign)).

Definition sign_lane (lane_bits : Z) (negate : bool) (lane : Z) : Z :=
  let sign := Z.shiftl 1 (lane_bits - 1) in
  if negate then Z.lxor lane sign else Z.land lane (not_w 128 sign).

Definition vector_float_sign_operation (fields : Operands) (negate : bool) : Step unit :=
  let lane_bits := if Z.land (opc fields) 1 =? 0 then 32 else 64 in
  source ← vector_r (rn fields);
  assert_set_vector (rd fields)
    (or_lanes lane_bits (fun lane => sign_lane lane_bits negate (get_lane lane_bits source lane))
       (lanes (vector_width fields / lane_bits))).

(** [replicate(..).expect(..)] with its two widths. *)
Definition replicated (value lane_bits vector_bits : Z) : fp Z :=
  lane ← expect_ok (BitWidth_new lane_bits);
  vector ← expect_ok (BitWidth_new vector_bits);
  expect_ok (replicate value lane vector).

Definition duplicate_general (fields : Operands) : Step unit :=
  let size_shift := trailing_zeros 8 (immediate_5 fields) in
  lane_bits ← lift (if size_shift <? 8 then Ok (shl_w 8 8 size_shift) else Panic);
  source ← read (rn fields) lane_bits;
  value ← lift (replicated source lane_bits (vector_width fields));
  assert_set_vector (rd fields) value.

Definition duplicate_element (checks : bool) (fields : Operands) : Step unit :=
  let size_shift := trailing_zeros 8 (immediate_5 fields) in
  lane ← lift (if size_shift <? 7 then Ok (Z.shiftr (immediate_5 fields) (size_shift + 1)) else Panic);
  let lane_bits := Z.shiftl 8 size_shift in
  source ← vector_r (rn fields);
  mask ← lift (mask_u128 checks lane_bits);
  let element := Z.land (Z.shiftr source (lane * lane_bits)) mask in
  value ← lift (replicated element (wrap 8 lane_bits) (vector_width fields));
  assert_set_vector (rd fields) value.

(** The byte mask of MOVI with [cmode] 14 and the operation bit. *)
Definition byte_mask (immediate : Z) : Z :=
  fold_left (fun result bit => if negb (Z.land immediate (Z.shiftl 1 bit) =? 0)
                               then Z.lor result (Z.shiftl 255 (bit * 8)) else result)
    (lanes 8) 0.

Definition expand_modified_immediate (cmode immediate : Z) (operation_bit : bool) : fp Z :=
  value ←
    (if in_range cmode 0 7 then
       let lane := shl_w 64 immediate (Z.shiftr cmode 1 * 8) in
       Ok (Z.lor lane (shl_w 64 lane 32))
     else if in_range cmode 8 11 then
       let lane := shl_w 64 immediate (Z.land (Z.shiftr cmode 1) 1 * 8) in
       Ok (Z.lor (Z.lor (Z.lor lane (shl_w 64 lane 16)) (shl_w 64 lane 32)) (shl_w 64 lane 48))
     else if cmode =? 12 then
       let lane := Z.lor (shl_w 64 immediate 8) 255 in Ok (Z.lor lane (shl_w 64 lane 32))
     else if cmode =? 13 then
       let lane := Z.lor (shl_w 64 immediate 16) 65535 in Ok (Z.lor lane (shl_w 64 lane 32))
     else if cmode =? 14 then
       if negb operation_bit then Ok (wrap 64 (immediate * 0x0101_0101_0101_0101)) else Ok (byte_mask immediate)
     else Panic : fp Z);
  Ok (if operation_bit && negb (cmode =? 14) then not_w 64 value else value).

Definition modified_immediate (fields : Operands) : Step unit :=
  immediate ← lift (expand_modified_immediate (cmode fields) (immediate_8 fields) (operation_bit fields));
  let replicated := Z.lor immediate (shl_w 128 immediate 64) in
  let active_mask := if vector_128 fields then Z.ones 128 else Z.ones 64 in
  previous ← vector_r (rd fields);
  let value :=
    if (cmode fields <=? 11) && negb (Z.land (cmode fields) 1 =? 0) then
      if operation_bit fields then Z.land previous replicated else Z.lor previous replicated
    else replicated in
  assert_set_vector (rd fields) (Z.land value active_mask).

Definition umov_lane_width (size_shift : Z) : fp LaneWidth :=
  match size_shift with 0 => Ok Bits8 | 1 => Ok Bits16 | 2 => Ok Bits32 | 3 => Ok Bits64 | _ => Panic end.

Definition unsigned_move_to_general (fields : Operands) : Step unit :=
  let size_shift := trailing_zeros 8 (immediate_5 fields) in
  lane_width ← lift (umov_lane_width size_shift);
  let lane := Z.shiftr (immediate_5 fields) (size_shift + 1) in
  arrangement ← lift (expect_ok (VectorArrangement_new 128 lane_width));
  vector ← vector_r (rn fields);
  value ← lift (expect_ok (extract_lane vector arrangement lane));
  write (rd fields) (if vector_128 fields then 64 else 32) value.

Definition insert_lane (register lane lane_bits value : Z) : Step unit :=
  let shift := lane * lane_bits in
  previous ← vector_r register;
  assert_set_vector register
    (Z.lor (Z.land previous (not_w 128 (shl_w 128 (low_mask lane_bits) shift)))
       (shl_w 128 (Z.land value (low_mask lane_bits)) shift)).

Definition insert_element (fields : Operands) : Step unit :=
  '(lane_bits, destination_lane) ← lift (insert_lane_shape (immediate_5 fields));
  let size_shift := trailing_zeros 32 lane_bits - 3 in
  let source_lane := Z.shiftr (immediate_4 fields) size_shift in
  source ← vector_r (rn fields);
  insert_lane (rd fields) destination_lane lane_bits (get_lane lane_bits source source_lane).

Definition insert_general (fields : Operands) : Step unit :=
  '(lane_bits, destination_lane) ← lift (insert_lane_shape (immediate_5 fields));
  lane ← read (rn fields) lane_bits;
  insert_lane (rd fields) destination_lane lane_bits lane.

Definition floating_move_to_general (fields : Operands) : Step unit :=
  vector ← vector_r (rn fields);
  '(width, value) ← lift
    (match negb (Z.land (size fields) 2 =? 0), opc fields with
     | false, 0 => Ok (32, wrap 64 vector)
     | false, 3 => Ok (32, wrap 16 vector)
     | true, 1 => Ok (64, wrap 64 vector)
     | true, 2 => Ok (64, wrap 64 (Z.shiftr vector 64))
     | _, _ => Panic
     end);
  write (rd fields) width value.

Definition floating_move_from_general (fields : Operands) : Step unit :=
  let general_64 := negb (Z.land (size fields) 2 =? 0) in
  value ← read (rn fields) (if general_64 then 64 else 32);
  vector ←
    (match general_64, opc fields with
     | false, 0 => mret (wrap 32 value)
     | false, 3 => mret (wrap 16 value)
     | true, 1 => mret value
     | true, 2 =>
         previous ← vector_r (rd fields);
         mret (Z.lor (Z.land previous (Z.ones 64)) (shl_w 128 value 64))
     | _, _ => lift Panic
     end : Step Z);
  assert_set_vector (rd fields) vector.

Definition expand_vfp_immediate (immediate exponent_bits fraction_bits : Z) : Z :=
  let sign := Z.shiftr immediate 7 in
  let exponent_control := Z.land (Z.shiftr immediate 6) 1 in
  let exponent_tail := Z.land (Z.shiftr immediate 4) 3 in
  let fraction_head := Z.land immediate 0xf in
  let sign_shift := exponent_bits + fraction_bits in
  let repeated_count := exponent_bits - 3 in
  let repeated := if exponent_control =? 0 then 0 else shl_w 64 1 repeated_count - 1 in
  Z.lor (Z.lor (Z.lor (Z.lor (shl_w 64 sign sign_shift)
    (shl_w 64 (Z.lxor exponent_control 1) (sign_shift - 1)))
    (shl_w 64 repeated (fraction_bits + 2)))
    (shl_w 64 exponent_tail fraction_bits))
    (shl_w 64 fraction_head (fraction_bits - 4)).

Definition scalar_float_immediate (fields : Operands) : Step unit :=
  '(exponent_bits, fraction_bits) ← lift
    (match opc fields with 0 => Ok (8, 23) | 1 => Ok (11, 52) | 3 => Ok (5, 10) | _ => Panic end);
  assert_set_vector (rd fields) (expand_vfp_immediate (fp_immediate_8 fields) exponent_bits fraction_bits).

Definition vector_float_immediate (fields : Operands) : Step unit :=
  let '(lane, lane_bits) :=
    if operation_bit fields then (expand_vfp_immediate (immediate_8 fields) 11 52, 64)
    else (expand_vfp_immediate (immediate_8 fields) 8 23, 32) in
  value ← lift (replicated lane lane_bits (vector_width fields));
  assert_set_vector (rd fields) value.

(** ** Lane arithmetic *)

Definition add_sub_lane (lane_bits : Z) (subtract : bool) (lhs rhs : Z) : Z :=
  Z.land (if subtract then wrapping_sub 128 lhs rhs else wrapping_add 128 lhs rhs) (low_mask lane_bits).

(** The loops that combine lane [i] of two sources into lane [i]. *)
Definition map2_lanes (lane_bits vector_bits : Z) (f : Z -> Z -> Z) (lhs rhs : Z) : Z :=
  or_lanes lane_bits (fun lane => f (get_lane lane_bits lhs lane) (get_lane lane_bits rhs lane))
    (lanes (vector_bits / lane_bits)).

Definition integer_add_sub (fields : Operands) : Step unit :=
  let lane_bits := lane_bits_of fields in
  lhs ← vector_r (rn fields);
  rhs ← vector_r (rm fields);
  assert_set_vector (rd fields)
    (map2_lanes lane_bits (vector_width fields) (add_sub_lane lane_bits (subtract fields)) lhs rhs).

(** [sign_extend(lane as u64, lane_bits)]. *)
Definition signed_lane (lane_bits lane : Z) : Z := signed_immediate (wrap 64 lane) lane_bits.

Definition reduce_lane (lane_bits : Z) (operation : PairwiseOperation) (lhs rhs : Z) : Z :=
  match operation with
  | PairwiseAdd => Z.land (wrapping_add 128 lhs rhs) (low_mask lane_bits)
  | SignedMaximum => if signed_lane lane_bits rhs <=? signed_lane lane_bits lhs then lhs else rhs
  | SignedMinimum => if signed_lane lane_bits lhs <=? signed_lane lane_bits rhs then lhs else rhs
  | UnsignedMaximum => Z.max lhs rhs
  | UnsignedMinimum => Z.min lhs rhs
  end.

(** Destination lane [source_index * (n / 2) + pair] reduces a pair of lanes. *)
Definition pairwise_result (lane_bits vector_bits : Z) (operation : PairwiseOperation) (first second : Z) : Z :=
  let half := vector_bits / lane_bits / 2 in
  or_lanes lane_bits
    (fun destination =>
       let source := if destination <? half then first else second in
       let pair := if destination <? half then destination else destination - half in
       reduce_lane lane_bits operation (get_lane lane_bits source (pair * 2)) (get_lane lane_bits source (pair * 2 + 1)))
    (lanes half ++ (Z.add half <$> lanes half)).

Definition integer_pairwise (fields : Operands) (operation : PairwiseOperation) : Step unit :=
  first ← vector_r (rn fields);
  second ← vector_r (rm fields);
  assert_set_vector (rd fields)
    (pairwise_result (lane_bits_of fields) (vector_width fields) operation first second).

Definition integer_min_max (fields : Operands) (operation : PairwiseOperation) : Step unit :=
  let lane_bits := lane_bits_of fields in
  lhs ← vector_r (rn fields);
  rhs ← vector_r (rm fields);
  _ ← lift (match operation with PairwiseAdd => Panic | _ => Ok tt end);
  assert_set_vector (rd fields)
    (map2_lanes lane_bits (vector_width fields) (reduce_lane lane_bits operation) lhs rhs).

Definition compare_lane (lane_bits : Z) (comparison : IntegerComparison) (lhs rhs : Z) : bool :=
  match comparison with
  | SignedGreaterThan => signed_lane lane_bits rhs <? signed_lane lane_bits lhs
  | UnsignedGreaterThan => rhs <? lhs
  | SignedGreaterThanOrEqual => signed_lane lane_bits rhs <=? signed_lane lane_bits lhs
  | UnsignedGreaterThanOrEqual => rhs <=? lhs
  | SignedLessThan => signed_lane lane_bits lhs <? signed_lane lane_bits rhs
  | SignedLessThanOrEqual => signed_lane lane_bits lhs <=? signed_lane lane_bits rhs
  | NonzeroBitTest => negb (Z.land lhs rhs =? 0)
  | Equal => lhs =? rhs
  end.

Definition integer_compare (fields : Operands) (comparison : IntegerComparison) : Step unit :=
  let lane_bits := lane_bits_of fields in
  lhs ← vector_r (rn fields);
  rhs ← (if compare_with_zero fields then mret 0 else vector_r (rm fields));
  assert_set_vector (rd fields)
    (map2_lanes lane_bits (vector_width fields)
       (fun lhs rhs => if compare_lane lane_bits comparison lhs rhs then low_mask lane_bits else 0) lhs rhs).

Definition bitwise_result (operation : BitwiseOperation) (destination first second : Z) : Z :=
  match operation with
  | And => Z.land first second
  | BitClear => Z.land first (not_w 128 second)
  | Or => Z.lor first second
  | OrNot => Z.lor first (not_w 128 second)
  | ExclusiveOr => Z.lxor first second
  | Select => Z.lor (Z.land destination first) (Z.land (not_w 128 destination) second)
  | InsertIfTrue => Z.lor (Z.land destination (not_w 128 second)) (Z.land first second)
  | InsertIfFalse => Z.lor (Z.land destination second) (Z.land first (not_w 128 second))
  end.

Definition bitwise (fields : Operands) (operation : BitwiseOperation) : Step unit :=
  first ← vector_r (rn fields);
  second ← vector_r (rm fields);
  destination ← vector_r (rd fields);
  let active_mask := if vector_128 fields then Z.ones 128 else Z.ones 64 in
  assert_set_vector (rd fields) (Z.land (bitwise_result operation destination first second) active_mask).

(** ** Permutations *)

(** The source (first or second) and lane of a destination lane. *)
Definition permute_source (operation : PermuteOperation) (half destination_lane : Z) : bool * Z :=
  match operation with
  | UnzipPrimary | UnzipSecondary =>
      let odd := match operation with UnzipSecondary => 1 | _ => 0 end in
      if destination_lane <? half then (true, destination_lane * 2 + odd)
      else (false, (destination_lane - half) * 2 + odd)
  | TransposePrimary | TransposeSecondary =>
      let odd := match operation with TransposeSecondary => 1 | _ => 0 end in
      (Z.land destination_lane 1 =? 0, destination_lane / 2 * 2 + odd)
  | ZipPrimary | ZipSecondary =>
      let upper := match operation with ZipSecondary => 1 | _ => 0 end in
      (Z.land destination_lane 1 =? 0, destination_lane / 2 + upper * half)
  end.

Definition permute_result (lane_bits vector_bits : Z) (operation : PermuteOperation) (first second : Z) : Z :=
  let lane_count := vector_bits / lane_bits in
  let half := lane_count / 2 in
  or_lanes lane_bits
    (fun destination_lane =>
       let '(from_first, source_lane) := permute_source operation half destination_lane in
       get_lane lane_bits (if from_first : bool then first else second) source_lane)
    (lanes lane_count).

Definition permute_two_source (fields : Operands) (operation : PermuteOperation) : Step unit :=
  first ← vector_r (rn fields);
  second ← vector_r (rm fields);
  assert_set_vector (rd fields)
    (permute_result (lane_bits_of fields) (vector_width fields) operation first second).

Definition extract_result (byte_count offset first second : Z) : Z :=
  or_lanes 8
    (fun destination_byte =>
       let source_byte := destination_byte + offset in
       Z.land (if source_byte <? byte_count then Z.shiftr first (source_byte * 8)
               else Z.shiftr second ((source_byte - byte_count) * 8)) 0xff)
    (lanes byte_count).

Definition extract_vector (fields : Operands) : Step unit :=
  let byte_count := if vector_128 fields then 16 else 8 in
  first ← vector_r (rn fields);
  second ← vector_r (rm fields);
  assert_set_vector (rd fields) (extract_result byte_count (immediate_4 fields) first second).

(** ** Shifts *)

(** The upper half replaced, or the whole register. *)
Definition narrow_into (fields : Operands) (previous narrowed : Z) : Z :=
  if vector_128 fields then Z.lor (Z.land previous (Z.ones 64)) (shl_w 128 narrowed 64) else narrowed.

Definition shift_right_narrow (fields : Operands) : Step unit :=
  let immediate := shift_immediate fields in
  destination_lane_bits ← lift (shift_lane_bits immediate);
  let source_lane_bits := destination_lane_bits * 2 in
  let shift := source_lane_bits - immediate in
  source ← vector_r (rn fields);
  let narrowed :=
    or_lanes destination_lane_bits
      (fun lane => Z.land (Z.shiftr (Z.shiftr source (lane * source_lane_bits)) shift) (low_mask destination_lane_bits))
      (lanes (128 / source_lane_bits)) in
  previous ← (if vector_128 fields then vector_r (rd fields) else mret 0);
  assert_set_vector (rd fields) (narrow_into fields previous narrowed).

(** A value sign extended from its lane to 128 bits when [signed]. *)
Definition extend_lane (lane_bits : Z) (signed : bool) (value : Z) : Z :=
  if signed && negb (Z.land value (Z.shiftl 1 (lane_bits - 1)) =? 0)
  then Z.lor value (not_w 128 (low_mask lane_bits)) else value.

(** [((extended as i128) >> shift) as u128] or the plain shift. *)
Definition shift_right_lane (lane_bits shift : Z) (signed : bool) (value : Z) : Z :=
  if signed && negb (Z.land value (Z.shiftl 1 (lane_bits - 1)) =? 0)
  then wrap 128 (Z.shiftr (as_signed 128 (Z.lor value (not_w 128 (low_mask lane_bits)))) shift)
  else Z.shiftr value shift.

Definition active_bits (fields : Operands) (scalar : bool) : Z :=
  if scalar || negb (vector_128 fields) then 64 else 128.

Definition shift_right_immediate (fields : Operands) (scalar : bool) : Step unit :=
  let immediate := shift_immediate fields in
  lane_bits ← lift (shift_lane_bits immediate);
  let shift := 2 * lane_bits - immediate in
  source ← vector_r (rn fields);
  let signed := negb (operation_bit fields) in
  assert_set_vector (rd fields)
    (or_lanes lane_bits
       (fun lane => Z.land (shift_right_lane lane_bits shift signed (get_lane lane_bits source lane)) (low_mask lane_bits))
       (lanes (active_bits fields scalar / lane_bits))).

Definition shift_left_immediate (fields : Operands) (scalar : bool) : Step unit :=
  let immediate := shift_immediate fields in
  lane_bits ← lift (shift_lane_bits immediate);
  let shift := immediate - lane_bits in
  source ← vector_r (rn fields);
  assert_set_vector (rd fields)
    (or_lanes lane_bits
       (fun lane => Z.land (shl_w 128 (get_lane lane_bits source lane) shift) (low_mask lane_bits))
       (lanes (active_bits fields scalar / lane_bits))).

Definition shift_left_long (checks : bool) (fields : Operands) : Step unit :=
  let immediate := shift_immediate fields in
  source_bits ← lift (shift_lane_bits immediate);
  let destination_bits := source_bits * 2 in
  destination_mask ← lift (mask_u128 checks destination_bits);
  let shift := immediate - source_bits in
  let first_source_bit := Z.b2z (vector_128 fields) * 64 in
  source ← vector_r (rn fields);
  let signed := negb (operation_bit fields) in
  assert_set_vector (rd fields)
    (or_lanes destination_bits
       (fun lane =>
          let value := Z.land (Z.shiftr source (first_source_bit + lane * source_bits)) (low_mask source_bits) in
          Z.land (shl_w 128 (extend_lane source_bits signed value) shift) destination_mask)
       (lanes (64 / source_bits))).

Definition shift_lane (value distance lane_bits : Z) (signed : bool) : Z :=
  let lane_mask := low_mask lane_bits in
  if 0 <=? distance then
    if lane_bits <=? distance then 0 else Z.land (shl_w 128 value distance) lane_mask
  else
    let distance := - distance in
    if signed && negb (Z.land value (Z.shiftl 1 (lane_bits - 1)) =? 0) then
      if lane_bits <=? distance then lane_mask
      else Z.land (wrap 128 (Z.shiftr (as_signed 128 (Z.lor value (not_w 128 lane_mask))) distance)) lane_mask
    else if lane_bits <=? distance then 0
    else Z.shiftr value distance.

Definition shift_register (fields : Operands) (signed : bool) : Step unit :=
  let lane_bits := lane_bits_of fields in
  values ← vector_r (rn fields);
  shifts ← vector_r (rm fields);
  assert_set_vector (rd fields)
    (or_lanes lane_bits
       (fun lane =>
          let distance := as_signed 8 (Z.land (Z.shiftr shifts (lane * lane_bits)) 0xff) in
          shift_lane (get_lane lane_bits values lane) distance lane_bits signed)
       (lanes (vector_width fields / lane_bits))).

(** ** Counting, reducing and narrowing *)

Definition count_ones (value : Z) : Z := fold_left (fun n bit => n + Z.b2z (Z.testbit value bit)) (lanes 8) 0.

Definition count_bits (fields : Operands) : Step unit :=
  let byte_count := if vector_128 fields then 16 else 8 in
  source ← vector_r (rn fields);
  assert_set_vector (rd fields) (or_lanes 8 (fun byte => count_ones (get_lane 8 source byte)) (lanes byte_count)).

Definition add_across (lane_bits vector_bits source : Z) : Z :=
  fold_left (fun result lane => Z.land (wrapping_add 128 result (get_lane lane_bits source lane)) (low_mask lane_bits))
    (lanes (vector_bits / lane_bits)) 0.

Definition add_across_vector (fields : Operands) : Step unit :=
  source ← vector_r (rn fields);
  assert_set_vector (rd fields) (add_across (lane_bits_of fields) (vector_width fields) source).

Definition extract_narrow (fields : Operands) : Step unit :=
  let destination_lane_bits := lane_bits_of fields in
  let source_lane_bits := destination_lane_bits * 2 in
  source ← vector_r (rn fields);
  previous ← vector_r (rd fields);
  let narrowed :=
    or_lanes destination_lane_bits
      (fun lane => Z.land (Z.shiftr source (lane * source_lane_bits)) (low_mask destination_lane_bits))
      (lanes (128 / source_lane_bits)) in
  assert_set_vector (rd fields) (narrow_into fields previous narrowed).
