(* ===== verification/A64FpSimd.v ===== *)
(** * The A64 floating-point and SIMD provider: [execute] of
      [crates/cpu/src/semantics/a64_fp_simd.rs]

    The operand reads of the scalar forms, the lane loops of the vector
    floating-point forms, and the dispatch over normalized instructions with its
    traps.  [checks] is the build profile: whether arithmetic overflow panics. *)

From Stdlib Require Import ZArith Lia Bool.
From stdpp Require Import base numbers list option.
From S2P Require Import Prelude RustInt Conditions A64State A64Semantics Vector DecodeBase DecodeFpSimd.
Import DecodeFpSimd.FpSimd.
From S2P Require Import FloatFormat FloatOps FloatConv SimdOps.
Local Open Scope Z_scope.

(** ** Vector conversions and arithmetic *)

(** [for shift in (0..vector_bits).step_by(lane_bits)] with a body that can fail
    and locals it assigns. *)
Fixpoint for_lanes {A} (body : A -> Z -> fp A) (locals : A) (l : list Z) : fp A :=
  match l with
  | [] => Ok locals
  | lane :: l => locals ← body locals lane; for_lanes body locals l
  end.

Definition exact_vector_integer_to_float (source lane_bits vector_bits : Z) (signed : bool) (fpcr : Z) :
    fp (Z * bool) :=
  let lane_mask := if lane_bits =? 64 then Z.ones 64 else Z.ones 32 in
  for_lanes
    (fun '(result, any_inexact) lane =>
       let shift := lane * lane_bits in
       let value := wrap 64 (Z.land (Z.shiftr source shift) lane_mask) in
       let '(negative, magnitude) := integer_sign_and_magnitude value lane_bits signed in
       '(converted, inexact) ← integer_magnitude_to_ieee magnitude negative lane_bits (fpcr_rounding_mode fpcr);
       Ok (Z.lor result (shl_w 128 converted shift), any_inexact || inexact))
    (0, false) (lanes (vector_bits / lane_bits)).

Definition vector_integer_to_float (fields : Operands) (signed : bool) : Step (Z * bool) :=
  let lane_bits := if opc fields =? 0 then 32 else 64 in
  source ← vector_r (rn fields);
  st ← gets id;
  lift (exact_vector_integer_to_float source lane_bits (vector_width fields) signed (st_fpcr st)).

(** The loop of the vector floating-point operations. *)
Definition float_lanes (lane_bits vector_bits : Z) (lane_outcome : Z -> fp FpLaneOutcome) : fp ExactFpOutcome :=
  '(result, status) ← for_lanes
    (fun '(result, status) lane =>
       outcome ← lane_outcome (lane * lane_bits);
       Ok (Z.lor result (shl_w 128 (lane_value outcome) (lane * lane_bits)),
           merge_fp_status status (lane_status outcome)))
    (0, FpStatus_default) (lanes (vector_bits / lane_bits));
  Ok (mkExact result status).

Definition exact_vector_float_divide (lhs rhs lane_bits vector_bits fpcr : Z) : fp ExactFpOutcome :=
  format ← fp_format lane_bits;
  let lane_mask := if lane_bits =? 64 then Z.ones 64 else Z.ones 32 in
  let control := from_fpcr fpcr in
  float_lanes lane_bits vector_bits (fun shift =>
    let lhs_lane := wrap 64 (Z.land (Z.shiftr lhs shift) lane_mask) in
    let rhs_lane := wrap 64 (Z.land (Z.shiftr rhs shift) lane_mask) in
    divide_ieee_lane lhs_lane rhs_lane format control).

Definition vector_float_divide (fields : Operands) : Step ExactFpOutcome :=
  let format := if Z.land (opc fields) 1 =? 0 then Binary32 else Binary64 in
  lhs ← vector_r (rn fields);
  rhs ← vector_r (rm fields);
  st ← gets id;
  lift (exact_vector_float_divide lhs rhs (FpFormat_bits format) (vector_width fields) (st_fpcr st)).

Definition exact_vector_float_multiply_element (lhs rhs lane_bits vector_bits lane fpcr : Z) : fp ExactFpOutcome :=
  format ← fp_format lane_bits;
  let lane_mask := if lane_bits =? 64 then Z.ones 64 else Z.ones 32 in
  let rhs := wrap 64 (Z.land (Z.shiftr rhs (lane * lane_bits)) lane_mask) in
  float_lanes lane_bits vector_bits (fun shift =>
    multiply_ieee_lane (wrap 64 (Z.land (Z.shiftr lhs shift) lane_mask)) rhs format fpcr).

Definition vector_float_multiply_element (fields : Operands) : Step ExactFpOutcome :=
  let format := if opc fields =? 0 then Binary32 else Binary64 in
  lhs ← vector_r (rn fields);
  rhs ← vector_r (rm fields);
  st ← gets id;
  lift (exact_vector_float_multiply_element lhs rhs (FpFormat_bits format) (vector_width fields)
          (fp_element_lane fields) (st_fpcr st)).

(** ** Scalar forms: the low bits of their source registers *)

Definition scalar_format (fields : Operands) : FpFormat := if opc fields =? 0 then Binary32 else Binary64.

Definition format_mask (format : FpFormat) : Z :=
  match format with Binary32 => Z.ones 32 | _ => Z.ones 64 end.

Definition scalar_operand (format : FpFormat) (register : Z) : Step Z :=
  v ← vector_r register; mret (Z.land (wrap 64 v) (format_mask format)).

(** [FpLaneOutcome { bits: outcome.bits as u64, status: outcome.status }]. *)
Definition lane_of_exact (outcome : ExactFpOutcome) : FpLaneOutcome :=
  mkLane (wrap 64 (exact_bits outcome)) (exact_status outcome).

Definition scalar_vector_integer_to_float (fields : Operands) (signed : bool) : Step (Z * bool) :=
  let lane_bits := if opc fields =? 0 then 32 else 64 in
  let mask := if lane_bits =? 32 then Z.ones 32 else Z.ones 64 in
  source ← vector_r (rn fields);
  st ← gets id;
  lift (exact_scalar_vector_integer_to_float (wrap 64 (Z.land source mask)) lane_bits signed (st_fpcr st)).

Definition scalar_integer_to_float (fields : Operands) (signed : bool) : Step (Z * bool) :=
  let source_bits := if negb (Z.land (size fields) 2 =? 0) then 64 else 32 in
  destination_bits ← lift (match opc fields with 0 => Ok 32 | 1 => Ok 64 | _ => Panic end);
  source ← read (rn fields) source_bits;
  st ← gets id;
  lift (exact_scalar_integer_to_float source source_bits destination_bits signed (st_fpcr st)).

Definition scalar_float_to_integer (fields : Operands) (signed : bool) (rounding : FloatToIntegerRounding) :
    Step ExactIntegerOutcome :=
  let width := if negb (Z.land (size fields) 2 =? 0) then 64 else 32 in
  format ← lift (match opc fields with
                 | 0 => BinaryFormat_new Binary32
                 | 1 => BinaryFormat_new Binary64
                 | _ => Panic
                 end);
  let source_mask := if total_bits format =? 32 then Z.ones 32 else Z.ones 64 in
  source ← vector_r (rn fields);
  st ← gets id;
  lift (exact_float_to_integer (Z.land (wrap 64 source) source_mask) (total_bits format) width signed rounding
          (default 0 (fixed_point_fraction_bits fields)) (st_fpcr st)).

Definition scalar_float_convert (fields : Operands) (conversion : FloatConversion) : Step FpLaneOutcome :=
  let source_format := match conversion with SingleToDouble => Binary32 | DoubleToSingle => Binary64 end in
  source ← scalar_operand source_format (rn fields);
  st ← gets id;
  outcome ← lift (exact_float_convert source conversion (st_fpcr st));
  mret (lane_of_exact outcome).

Definition scalar_float_divide (fields : Operands) : Step FpLaneOutcome :=
  let format := scalar_format fields in
  lhs ← scalar_operand format (rn fields);
  rhs ← scalar_operand format (rm fields);
  st ← gets id;
  outcome ← lift (exact_scalar_float_divide lhs rhs (FpFormat_bits format) (st_fpcr st));
  mret (lane_of_exact outcome).

Definition scalar_float_round (fields : Operands) (operation : FloatRoundOperation) : Step FpLaneOutcome :=
  let format := scalar_format fields in
  source ← scalar_operand format (rn fields);
  st ← gets id;
  outcome ← lift (exact_scalar_float_round source (FpFormat_bits format) operation (st_fpcr st));
  mret (lane_of_exact outcome).

Definition scalar_float_add (fields : Operands) (operation : FloatAddOperation) : Step FpLaneOutcome :=
  let format := scalar_format fields in
  lhs ← scalar_operand format (rn fields);
  rhs ← scalar_operand format (rm fields);
  st ← gets id;
  outcome ← lift (exact_scalar_float_add lhs rhs (FpFormat_bits format) operation (st_fpcr st));
  mret (lane_of_exact outcome).

Definition scalar_float_multiply (fields : Operands) (operation : FloatMultiplyOperation) : Step FpLaneOutcome :=
  let format := scalar_format fields in
  lhs ← scalar_operand format (rn fields);
  rhs ← scalar_operand format (rm fields);
  st ← gets id;
  outcome ← lift (exact_scalar_float_multiply lhs rhs (FpFormat_bits format) operation (st_fpcr st));
  mret (lane_of_exact outcome).

Definition scalar_float_fused_multiply_add (checks : bool) (fields : Operands)
    (operation : FloatFusedMultiplyOperation) : Step FpLaneOutcome :=
  let format := scalar_format fields in
  multiplicand ← scalar_operand format (rn fields);
  multiplier ← scalar_operand format (rm fields);
  addend ← scalar_operand format (ra fields);
  st ← gets id;
  outcome ← lift (exact_scalar_float_fused_multiply_add checks multiplicand multiplier addend
                    (FpFormat_bits format) operation (st_fpcr st));
  mret (lane_of_exact outcome).

Definition scalar_float_square_root (fields : Operands) : Step FpLaneOutcome :=
  let format := scalar_format fields in
  source ← scalar_operand format (rn fields);
  st ← gets id;
  outcome ← lift (exact_scalar_float_square_root source (FpFormat_bits format) (st_fpcr st));
  mret (lane_of_exact outcome).

Definition scalar_float_conditional_select (fields : Operands) : Step unit :=
  st ← gets id;
  let source := if evaluate_a64 (from_encoding (condition fields)) (st_nzcv st) then rn fields else rm fields in
  let mask := if opc fields =? 0 then Z.ones 32 else Z.ones 64 in
  v ← vector_r source;
  assert_set_vector (rd fields) (Z.land v mask).

Definition scalar_float_compare (fields : Operands) (compare_with_zero : bool) : Step ExactCompareOutcome :=
  let format := scalar_format fields in
  lhs ← scalar_operand format (rn fields);
  rhs ← (if compare_with_zero then mret 0 else scalar_operand format (rm fields));
  st ← gets id;
  lift (exact_scalar_float_compare lhs rhs (FpFormat_bits format) (signaling_compare fields) (st_fpcr st)).

(** ** Results: a trapped exception commits neither the destination nor FPSR *)

Definition accumulate (status : Z) : Step unit := modify (fun st => set_fpsr (Z.lor (st_fpsr st) status) st).

Definition trap_if (trapped : A64State -> bool) : Step unit :=
  st ← gets id; guard_err (trapped st) Trap.

Definition commit_inexact (rd : Z) (outcome : Z * bool) : Step unit :=
  let '(value, inexact) := outcome in
  _ ← trap_if (fun st => inexact && bit_set (st_fpcr st) 12);
  _ ← assert_set_vector rd value;
  if inexact then accumulate (Z.shiftl 1 4) else mret tt.

Definition commit_value (rd value : Z) (status : FpStatus) : Step unit :=
  _ ← trap_if (fun st => fp_status_traps status (st_fpcr st));
  _ ← assert_set_vector rd value;
  accumulate (fp_status_bits status).

Definition commit_lane (rd : Z) (outcome : FpLaneOutcome) : Step unit :=
  commit_value rd (lane_value outcome) (lane_status outcome).

Definition commit_compare (outcome : ExactCompareOutcome) : Step unit :=
  _ ← trap_if (fun st => fp_status_traps (compare_status outcome) (st_fpcr st));
  _ ← modify (set_nzcv (Nzcv.from_bits (compare_nzcv outcome)));
  accumulate (fp_status_bits (compare_status outcome)).

Definition scalar_float_conditional_compare (fields : Operands) : Step unit :=
  st ← gets id;
  if negb (evaluate_a64 (from_encoding (condition fields)) (st_nzcv st)) then
    modify (set_nzcv (Nzcv.from_bits (shl_w 32 (nzcv_immediate fields) 28)))
  else
    outcome ← scalar_float_compare fields false;
    commit_compare outcome.

(** ** Dispatch *)

(** [Instruction::operands]. *)
Definition instruction_operands (i : Instruction) : Operands :=
  match i with
  | DuplicateGeneral o | DuplicateElement o | MemoryPair o | Bitwise o | IntegerArithmetic o
  | ScalarMove o | ScalarAbsolute o | ScalarNegate o | VectorFloatAbsolute o | VectorFloatNegate o
  | CompareRegister o | CompareZero o | ConditionalCompare o | ModifiedImmediate o
  | UnsignedMoveToGeneral o | InsertElement o | InsertGeneral o | SignedIntToFloat o
  | UnsignedIntToFloat o | FloatToSignedInt o | FloatToUnsignedInt o | MoveToGeneral o
  | MoveFromGeneral o | MemoryUnsigned o | MemoryUnscaled o | MemoryPostIndex o | MemoryPreIndex o
  | MemoryRegister o | MemoryMultipleStructures o | MemoryMultipleStructuresPostIndex o
  | MemorySingleStructure o | MemorySingleStructurePostIndex o | PermuteTwoSource o | Extract o
  | IntegerCompare o | IntegerPairwise o | IntegerMinMax o | ShiftRightNarrow o
  | ScalarShiftRightImmediate o | VectorShiftRightImmediate o | ScalarShiftLeftImmediate o
  | VectorShiftLeftImmediate o | ShiftLeftLong o | VectorSignedShiftRegister o
  | VectorUnsignedShiftRegister o | CountBits o | AddAcrossVector o | ExtractNarrow o
  | VectorSignedIntToFloat o | VectorUnsignedIntToFloat o | ScalarVectorSignedIntToFloat o
  | ScalarVectorUnsignedIntToFloat o | VectorFloatDivide o | VectorFloatMultiplyElement o
  | VectorFloatImmediate o | ScalarFloatImmediate o | ScalarFloatConvert o | ScalarFloatDivide o
  | ScalarFloatRound o | ScalarFloatAdd o | ScalarFloatMultiply o | ScalarFloatFusedMultiplyAdd o
  | ScalarFloatSquareRoot o | ScalarFloatConditionalSelect o => o
  end.

Definition execute (checks : bool) (instruction : Instruction) : Step unit :=
  match instruction with
  | DuplicateGeneral fields => duplicate_general fields
  | DuplicateElement fields => duplicate_element checks fields
  | ModifiedImmediate fields => modified_immediate fields
  | UnsignedMoveToGeneral fields => unsigned_move_to_general fields
  | InsertElement fields => insert_element fields
  | InsertGeneral fields => insert_general fields
  | MoveToGeneral fields => floating_move_to_general fields
  | MoveFromGeneral fields => floating_move_from_general fields
  | ScalarMove fields => scalar_move fields
  | ScalarAbsolute fields => scalar_sign_operation fields false
  | ScalarNegate fields => scalar_sign_operation fields true
  | IntegerArithmetic fields => integer_add_sub fields
  | Bitwise fields => operation ← lift (expect (bitwise_op fields)); bitwise fields operation
  | IntegerCompare fields => comparison ← lift (expect (integer_cmp fields)); integer_compare fields comparison
  | IntegerPairwise fields => operation ← lift (expect (pairwise_op fields)); integer_pairwise fields operation
  | IntegerMinMax fields => operation ← lift (expect (pairwise_op fields)); integer_min_max fields operation
  | PermuteTwoSource fields => operation ← lift (expect (permute_op fields)); permute_two_source fields operation
  | Extract fields => extract_vector fields
  | ShiftRightNarrow fields => shift_right_narrow fields
  | ScalarShiftRightImmediate fields => shift_right_immediate fields true
  | VectorShiftRightImmediate fields => shift_right_immediate fields false
  | ScalarShiftLeftImmediate fields => shift_left_immediate fields true
  | VectorShiftLeftImmediate fields => shift_left_immediate fields false
  | ShiftLeftLong fields => shift_left_long checks fields
  | VectorSignedShiftRegister fields => shift_register fields true
  | VectorUnsignedShiftRegister fields => shift_register fields false
  | CountBits fields => count_bits fields
  | AddAcrossVector fields => add_across_vector fields
  | ExtractNarrow fields => extract_narrow fields
  | VectorSignedIntToFloat fields =>
      outcome ← vector_integer_to_float fields true; commit_inexact (rd fields) outcome
  | VectorUnsignedIntToFloat fields =>
      outcome ← vector_integer_to_float fields false; commit_inexact (rd fields) outcome
  | ScalarVectorSignedIntToFloat fields =>
      outcome ← scalar_vector_integer_to_float fields true; commit_inexact (rd fields) outcome
  | ScalarVectorUnsignedIntToFloat fields =>
      outcome ← scalar_vector_integer_to_float fields false; commit_inexact (rd fields) outcome
  | SignedIntToFloat fields =>
      outcome ← scalar_integer_to_float fields true; commit_inexact (rd fields) outcome
  | UnsignedIntToFloat fields =>
      outcome ← scalar_integer_to_float fields false; commit_inexact (rd fields) outcome
  | FloatToSignedInt fields | FloatToUnsignedInt fields =>
      let signed := match instruction with FloatToSignedInt _ => true | _ => false end in
      rounding ← lift (expect (float_to_integer_rounding fields));
      outcome ← scalar_float_to_integer fields signed rounding;
      _ ← trap_if (fun st => fp_status_traps (integer_status outcome) (st_fpcr st));
      _ ← write (rd fields) (integer_width outcome) (integer_value outcome);
      accumulate (fp_status_bits (integer_status outcome))
  | VectorFloatDivide fields =>
      outcome ← vector_float_divide fields; commit_value (rd fields) (exact_bits outcome) (exact_status outcome)
  | VectorFloatMultiplyElement fields =>
      outcome ← vector_float_multiply_element fields;
      commit_value (rd fields) (exact_bits outcome) (exact_status outcome)
  | VectorFloatImmediate fields => vector_float_immediate fields
  | VectorFloatAbsolute fields => vector_float_sign_operation fields false
  | VectorFloatNegate fields => vector_float_sign_operation fields true
  | ScalarFloatImmediate fields => scalar_float_immediate fields
  | ScalarFloatConvert fields =>
      conversion ← lift (expect (float_conversion fields));
      outcome ← scalar_float_convert fields conversion; commit_lane (rd fields) outcome
  | ScalarFloatDivide fields => outcome ← scalar_float_divide fields; commit_lane (rd fields) outcome
  | ScalarFloatRound fields =>
      operation ← lift (expect (float_round_operation fields));
      outcome ← scalar_float_round fields operation; commit_lane (rd fields) outcome
  | ScalarFloatAdd fields =>
      operation ← lift (expect (float_add_operation fields));
      outcome ← scalar_float_add fields operation; commit_lane (rd fields) outcome
  | ScalarFloatMultiply fields =>
      operation ← lift (expect (float_multiply_operation fields));
      outcome ← scalar_float_multiply fields operation; commit_lane (rd fields) outcome
  | ScalarFloatFusedMultiplyAdd fields =>
      operation ← lift (expect (float_fused_multiply_operation fields));
      outcome ← scalar_float_fused_multiply_add checks fields operation; commit_lane (rd fields) outcome
  | ScalarFloatSquareRoot fields => outcome ← scalar_float_square_root fields; commit_lane (rd fields) outcome
  | ScalarFloatConditionalSelect fields => scalar_float_conditional_select fields
  | ConditionalCompare fields => scalar_float_conditional_compare fields
  | CompareRegister fields => outcome ← scalar_float_compare fields false; commit_compare outcome
  | CompareZero fields => outcome ← scalar_float_compare fields true; commit_compare outcome
  | _ => throw UnsupportedOperation
  end.
