(* ===== verification/A64FpSimdProps.v ===== *)
(** * What an FP or SIMD instruction may change, and rules for its steps *)

From Stdlib Require Import ZArith Lia Bool.
From stdpp Require Import base numbers list option vector.
From S2P Require Import Prelude RustInt Bits Conditions A64State A64Semantics Vector DecodeBase DecodeFpSimd.
Import DecodeFpSimd.FpSimd.
From S2P Require Import FloatFormat FloatOps FloatConv FloatTotal SimdOps A64FpSimd.
From S2P Require Import Allocation.
From S2P Require Import FloatPack.
Local Open Scope Z_scope.

(** ** Values of their widths *)

Lemma or_lanes_128 b f l : fits 128 (or_lanes b f l).
Proof.
  unfold or_lanes. assert (fits 128 0) as H0 by (by apply fits_0). revert H0. generalize 0.
  induction l as [|i l IH]; intros z Hz; [done|]. cbn [fold_left]. apply IH, fits_lor; [lia|done|by apply fits_shl_w].
Qed.

Lemma map2_lanes_128 b n f x y : fits 128 (map2_lanes b n f x y).
Proof. apply or_lanes_128. Qed.

Lemma fits_ones n w : 0 <= n <= w -> fits w (Z.ones n).
Proof. intros. unfold fits. rewrite Z.ones_equiv. pose proof (pow2_pos n). pose proof (pow2_le n w). lia. Qed.

Lemma fits_land_ones n w x : 0 <= n <= w -> fits w (Z.land x (Z.ones n)).
Proof. intros. apply fits_land_r; [lia|]. by apply fits_ones. Qed.

Lemma get_lane_fits b v i w : 0 <= b <= w -> fits w (get_lane b v i).
Proof. apply fits_land_ones. Qed.

Lemma narrow_into_128 o p n : fits 128 p -> fits 128 n -> fits 128 (narrow_into o p n).
Proof.
  intros. unfold narrow_into. destruct (vector_128 o); [|done]. apply fits_lor; [lia|by apply fits_land_l|by apply fits_shl_w].
Qed.

Lemma fits_shl_64 x n : fits 128 (shl_w 64 x n).
Proof. apply (fits_le 64); [lia|by apply fits_shl_w]. Qed.

Lemma expand_vfp_fits imm e f : fits 128 (expand_vfp_immediate imm e f).
Proof. unfold expand_vfp_immediate. repeat (apply fits_lor; [lia| |]); apply fits_shl_64. Qed.

Lemma add_across_128 b n v : 0 <= b <= 128 -> fits 128 (add_across b n v).
Proof.
  intros Hb. unfold add_across. assert (fits 128 0) as H0 by (by apply fits_0). revert H0. generalize 0.
  induction (lanes (n / b)) as [|i l IH]; intros z Hz; [done|]. cbn [fold_left]. apply IH. by apply fits_land_ones.
Qed.

(** Goals [fits w e] by the shape of [e]. *)
Ltac fit_leaf := first [assumption | by apply fits_not_w | by apply fits_shl_w | by apply wrap_fits | by apply fits_0
  | apply fits_ones; lia].
Ltac fit :=
  repeat match goal with
  | |- fits _ (Z.lor _ _) => apply fits_lor; [lia| |]
  | |- fits _ (Z.lxor _ _) => apply fits_lxor; [lia| |]
  | |- fits _ (Z.land _ (Z.ones _)) => apply fits_land_ones; lia
  | |- fits _ (Z.land _ _) => first [apply fits_land_l; [lia|fit_leaf] | apply fits_land_r; [lia|fit_leaf]]
  | |- fits _ _ => fit_leaf
  end.

Lemma bitwise_result_128 op d a b : fits 128 d -> fits 128 a -> fits 128 b -> fits 128 (bitwise_result op d a b).
Proof. intros. destruct op; cbn [bitwise_result]; fit. Qed.

Lemma integer_to_ieee_fits m negative width mode v inx :
  integer_magnitude_to_ieee m negative width mode = Ok (v, inx) -> fits 64 v.
Proof.
  unfold integer_magnitude_to_ieee. destruct (m =? 0); [intros [= <- <-]; by apply fits_0|].
  destruct (if width =? 32 then _ else _) as [fb eb] eqn:Ef. cbv zeta.
  match goal with |- context [?r ≫= _] => destruct r as [[s inx']| | ]; [|done..] end.
  cbn [mbind res_bind]. destruct (if s =? _ then _ else _) as [s' e']. intros [= <- <-].
  assert (exists n, 0 <= n <= 64 /\ shl_w 64 1 fb - 1 = Z.ones n) as (n & Hn & ->)
    by (destruct (width =? 32); injection Ef as <- <-; [exists 23|exists 52]; done).
  fit.
Qed.

(** ** Frames *)

(** Everything but the destination register, the flags and the sticky status. *)
Record fp_framed (o : Operands) (st st' : A64State) : Prop := {
  fr_wf : state_wf st';
  fr_pc : st_pc st' = st_pc st;
  fr_sp : st_sp st' = st_sp st;
  fr_fpcr : st_fpcr st' = st_fpcr st;
  fr_tpidr : st_tpidr_el0 st' = st_tpidr_el0 st /\ st_tpidrro_el0 st' = st_tpidrro_el0 st;
  fr_fpsr : Z.land (st_fpsr st) (st_fpsr st') = st_fpsr st;
  fr_vector : forall r, 0 <= r < 32 -> r <> rd o -> vector st' r = vector st r;
  fr_x : forall r, register_index r <> rd o -> st_x st' !!! r = st_x st !!! r }.

Lemma fp_framed_refl o st : state_wf st -> fp_framed o st st.
Proof. intros. split; try done. apply Z.land_diag. Qed.

Section Rules.
Context (o : Operands) (Hrd : fits 5 (rd o)) (st : A64State).


Lemma wp_vector_r r (Q : Z -> A64State -> Prop) (Qe : A64FpSimdError -> A64State -> Prop) st1 :
  fits 5 r -> state_wf st1 -> (forall v, vector st1 r = Some v -> fits 128 v -> Q v st1) -> wp (vector_r r) Q Qe st1.
Proof.
  intros Hr Hwf HQ. destruct (vector_some st1 r Hr Hwf) as (v & Hv & Hf). unfold vector_r. apply wp_bind, wp_gets, wp_lift.
  unfold id. rewrite Hv. by apply HQ.
Qed.

Lemma wp_read_register r w (Q : Z -> A64State -> Prop) (Qe : A64FpSimdError -> A64State -> Prop) st1 :
  state_wf st1 -> (forall v, fits 64 v -> Q v st1) -> wp (read r w) Q Qe st1.
Proof.
  intros Hwf HQ. unfold read. apply wp_bind, wp_gets, wp_ret. apply HQ. unfold id. destruct (w =? 64); [by apply read_x_fits|].
  unfold read_w. apply (fits_le 32); [lia|]. by apply wrap_fits.
Qed.

Lemma wp_set_vector v (Q : unit -> A64State -> Prop) (Qe : A64FpSimdError -> A64State -> Prop) st1 :
  fp_framed o st st1 -> fits 128 v -> (forall st2, fp_framed o st st2 -> Q tt st2) -> wp (assert_set_vector (rd o) v) Q Qe st1.
Proof.
  intros Hf Hv HQ. unfold wp, assert_set_vector.
  destruct (set_vector_spec st1 (rd o) v Hrd (fr_wf _ _ _ Hf) Hv) as (st2 & -> & Hs & _). apply HQ.
  destruct Hf as [? ? ? ? [? ?] ? Hvec Hx], Hs as [? Hsx ? ? ? ? Hsr ? ? Hother].
  split; [done|congruence..|split; congruence|by rewrite Hsr| |].
  - intros r Hr Hne. rewrite Hother, Hvec; [done|done|done|done|]. by rewrite list_elem_of_singleton.
  - intros r Hr. rewrite Hsx. by apply Hx.
Qed.

Lemma wp_write_register w v (Q : unit -> A64State -> Prop) (Qe : A64FpSimdError -> A64State -> Prop) st1 :
  fp_framed o st st1 -> fits 64 v -> (forall st2, fp_framed o st st2 -> Q tt st2) -> wp (write (rd o) w v) Q Qe st1.
Proof.
  intros Hf Hv HQ. unfold write. apply wp_modify, HQ.
  assert (forall x, fits 64 x -> fp_framed o st (write_x (zero_register (rd o)) x st1)) as Hw.
  { intros x Hx. destruct Hf as [Hwf ? ? ? [? ?] ? Hvec Hreg]. unfold zero_register.
    destruct (A64GeneralRegister_new (rd o)) as [g|] eqn:Eg; [|by split].
    apply general_new_index in Eg; [|apply Hrd]. split; try done; [by apply write_x_wf|].
    intros r Hr. cbn [write_x set_x st_x]. etransitivity; [apply vlookup_insert_ne|by apply Hreg]. intros ->. congruence. }
  destruct (w =? 64); [by apply Hw|]. unfold write_w. apply Hw. apply (fits_le 32); [lia|]. by apply wrap_fits.
Qed.

Lemma wp_accumulate s (Q : unit -> A64State -> Prop) (Qe : A64FpSimdError -> A64State -> Prop) st1 :
  fp_framed o st st1 -> fits 32 s -> (forall st2, fp_framed o st st2 -> Q tt st2) -> wp (accumulate s) Q Qe st1.
Proof.
  intros Hf Hs HQ. unfold accumulate. apply wp_modify, HQ. destruct Hf as [Hwf ? ? ? ? Hsr ? ?]. split; try done.
  - destruct Hwf. split; try done. simpl. by apply fits_lor.
  - simpl. rewrite Z.land_lor_distr_r, Hsr. apply Z.bits_inj'. intros i Hi. rewrite Z.lor_spec, Z.land_spec.
    by destruct (Z.testbit (st_fpsr st) i), (Z.testbit s i).
Qed.

Lemma wp_set_nzcv b (Q : unit -> A64State -> Prop) (Qe : A64FpSimdError -> A64State -> Prop) st1 :
  fp_framed o st st1 -> (forall st2, fp_framed o st st2 -> Q tt st2) -> wp (modify (set_nzcv (Nzcv.from_bits b))) Q Qe st1.
Proof. intros Hf HQ. apply wp_modify, HQ. destruct Hf. split; try done. by apply set_nzcv_wf. Qed.

Lemma wp_returns {A} (r : fp A) (Q : A -> A64State -> Prop) (Qe : A64FpSimdError -> A64State -> Prop) st1 :
  returns r -> (forall a, r = Ok a -> Q a st1) -> wp (lift r) Q Qe st1.
Proof. intros [a ->] HQ. apply wp_lift. by apply HQ. Qed.

Lemma wp_trap_if b (Q : unit -> A64State -> Prop) (Qe : A64FpSimdError -> A64State -> Prop) st1 :
  Qe Trap st1 -> Q tt st1 -> wp (trap_if b) Q Qe st1.
Proof. intros He HQ. unfold trap_if. apply wp_bind, wp_gets, wp_guard_err; auto. Qed.
End Rules.

Lemma fp_status_bits_fits s : fits 32 (fp_status_bits s).
Proof. by destruct s as [[] [] [] [] [] []]. Qed.

(** ** The provider returns, changes only its destination and traps precisely *)

(** Operand fields of an accepted encoding. *)
Record fields_ok (o : Operands) : Prop := {
  fo_rd : fits 5 (rd o); fo_rn : fits 5 (rn o); fo_rm : fits 5 (rm o); fo_ra : fits 5 (ra o);
  fo_opc : 0 <= opc o <= 3; fo_imm5 : fits 5 (immediate_5 o); fo_shift : fits 7 (shift_immediate o);
  fo_imm8 : fits 8 (immediate_8 o); fo_cmode : fits 4 (cmode o) }.

(** What each form relies on beyond the widths of its fields. *)
Definition form_fields_ok (i : Instruction) : Prop :=
  match i with
  | DuplicateGeneral o =>
      exists k, 0 <= k <= 4 /\ immediate_5 o = 2 ^ k /\ (3 <= k -> vector_128 o = true)
  | DuplicateElement o =>
      immediate_5 o <> 0 /\ (3 <= trailing_zeros 8 (immediate_5 o) -> vector_128 o = true)
  | ModifiedImmediate o => cmode o <> 15
  | UnsignedMoveToGeneral o | InsertElement o | InsertGeneral o =>
      immediate_5 o <> 0 /\ trailing_zeros 8 (immediate_5 o) <= 3
  | MoveToGeneral o | MoveFromGeneral o =>
      if negb (Z.land (size o) 2 =? 0) then opc o = 1 \/ opc o = 2 else opc o = 0 \/ opc o = 3
  | ScalarMove o | ScalarAbsolute o | ScalarNegate o | ScalarFloatImmediate o => opc o <> 2
  | Bitwise o => is_Some (bitwise_op o)
  | IntegerCompare o => is_Some (integer_cmp o)
  | IntegerPairwise o => is_Some (pairwise_op o)
  | IntegerMinMax o => exists op, pairwise_op o = Some op /\ op <> PairwiseAdd
  | PermuteTwoSource o => is_Some (permute_op o)
  | ShiftRightNarrow o | ScalarShiftRightImmediate o | VectorShiftRightImmediate o
  | ScalarShiftLeftImmediate o | VectorShiftLeftImmediate o | ShiftLeftLong o => Z.shiftr (shift_immediate o) 3 <> 0
  | SignedIntToFloat o | UnsignedIntToFloat o => opc o = 0 \/ opc o = 1
  | FloatToSignedInt o | FloatToUnsignedInt o =>
      (opc o = 0 \/ opc o = 1) /\ is_Some (float_to_integer_rounding o)
  | ScalarFloatConvert o => is_Some (float_conversion o)
  | ScalarFloatRound o => is_Some (float_round_operation o)
  | ScalarFloatAdd o => is_Some (float_add_operation o)
  | ScalarFloatMultiply o => is_Some (float_multiply_operation o)
  | ScalarFloatFusedMultiplyAdd o => is_Some (float_fused_multiply_operation o)
  | _ => True
  end.

(** ** The handlers *)

Section Handlers.
Context (o : Operands) (Ho : fields_ok o) (st : A64State) (Hwf : state_wf st).

(** A handler that completes changes only its destination; one that reports an
    error changes nothing. *)
Definition framed_step (c : Step unit) : Prop :=
  wp c (fun _ => fp_framed o st) (fun _ st' => st' = st) st.

Lemma framed_set v : fits 128 v -> framed_step (assert_set_vector (rd o) v).
Proof. intros Hv. apply (wp_set_vector o (fo_rd o Ho) st); [by apply fp_framed_refl|done|done]. Qed.

Lemma fp_framed_write w v : fits 64 v -> framed_step (write (rd o) w v).
Proof. intros Hv. apply (wp_write_register o (fo_rd o Ho) st); [by apply fp_framed_refl|done|done]. Qed.

Lemma framed_vector_r r (k : Z -> Step unit) : fits 5 r ->
  (forall v, vector st r = Some v -> fits 128 v -> framed_step (k v)) -> framed_step (vector_r r ≫= k).
Proof. intros Hr Hk. apply wp_bind, wp_vector_r; [done..|]. intros. by apply Hk. Qed.

Lemma framed_read r w (k : Z -> Step unit) :
  (forall v, fits 64 v -> framed_step (k v)) -> framed_step (read r w ≫= k).
Proof. intros Hk. apply wp_bind, wp_read_register; [done..|]. intros. by apply Hk. Qed.

Lemma framed_lift {A} (r : fp A) (k : A -> Step unit) :
  returns r -> (forall a, r = Ok a -> framed_step (k a)) -> framed_step (lift r ≫= k).
Proof. intros Hr Hk. apply wp_bind, wp_returns; [done|]. intros. by apply Hk. Qed.

Lemma framed_gets {A} (f : A64State -> A) (k : A -> Step unit) : framed_step (k (f st)) -> framed_step (gets f ≫= k).
Proof. intros Hk. by apply wp_bind, wp_gets. Qed.

(** Steps to the final write. *)
Ltac framed :=
  repeat first
    [ apply framed_set
    | apply fp_framed_write
    | apply framed_gets
    | apply framed_vector_r; [solve [apply Ho]|intros ? ? ?]
    | apply framed_read; intros ? ? ].

Lemma opc_lane_bits : 8 <= lane_bits_of o <= 64.
Proof.
  unfold lane_bits_of. pose proof (fo_opc o Ho). rewrite Z.shiftl_mul_pow2 by lia.
  pose proof (pow2_pos (opc o)). pose proof (pow2_le (opc o) 3). change (2 ^ 3) with 8 in *. lia.
Qed.

Lemma fmov_width_returns : opc o <> 2 -> exists w, fmov_width (opc o) = Ok w /\ 0 < w <= 64.
Proof.
  intros Hne. pose proof (fo_opc o Ho). assert (opc o = 0 \/ opc o = 1 \/ opc o = 3) as [->|[->| ->]] by lia;
    eexists; (split; [done|lia]).
Qed.

Lemma scalar_move_framed : opc o <> 2 -> framed_step (scalar_move o).
Proof.
  intros Hne. destruct (fmov_width_returns Hne) as (w & Hw & Hb). unfold scalar_move.
  apply framed_lift; [by eexists|]. intros w' [= ->]%(eq_trans (eq_sym Hw)). framed. by apply fits_land_l.
Qed.

Lemma sign_operation_framed negate : opc o <> 2 -> framed_step (scalar_sign_operation o negate).
Proof.
  intros Hne. destruct (fmov_width_returns Hne) as (w & Hw & Hb). unfold scalar_sign_operation.
  apply framed_lift; [by eexists|]. intros w' [= ->]%(eq_trans (eq_sym Hw)). framed.
  assert (fits 128 (Z.shiftl 1 (w' - 1))) by (rewrite Z.shiftl_1_l; pose proof (pow2_pos (w' - 1)); pose proof (pow2_lt (w' - 1) 128); unfold fits; lia).
  destruct negate; fit.
Qed.

(** [replicate] to a register of a width the pattern divides. *)
Lemma replicated_returns v b n : 0 < b -> n = 64 \/ n = 128 -> (b | n) ->
  exists r, replicated v b n = Ok r /\ fits 128 r.
Proof.
  intros Hb Hn Hd. assert (b <= n) by (apply Z.divide_pos_le; [lia|done]).
  unfold replicated, BitWidth_new. rewrite (proj2 (Z.eqb_neq b 0)), (proj2 (Z.ltb_ge 128 b)) by lia. cbn [orb expect_ok mbind res_bind].
  rewrite (proj2 (Z.eqb_neq n 0)), (proj2 (Z.ltb_ge 128 n)) by lia. cbn [orb expect_ok mbind res_bind].
  destruct (replicate_tiles v (mkBitWidth b) (mkBitWidth n)) as (r & -> & Hr & _); [split; simpl; lia|split; simpl; lia|done|].
  exists r. split; [done|]. apply (fits_le n); [lia|done].
Qed.

Lemma framed_replicated v b (k : Z -> Step unit) : 0 < b -> (b | vector_width o) ->
  (forall r, fits 128 r -> framed_step (k r)) -> framed_step (lift (replicated v b (vector_width o)) ≫= k).
Proof.
  intros Hb Hd Hk. destruct (replicated_returns v b (vector_width o) Hb) as (r & Hr & Hf);
    [unfold vector_width; destruct (vector_128 o); auto|done|].
  apply framed_lift; [by eexists|]. intros r' [= ->]%(eq_trans (eq_sym Hr)). by apply Hk.
Qed.

Lemma width_divides k : 0 <= k <= 4 -> (3 <= k -> vector_128 o = true) -> (8 * 2 ^ k | vector_width o).
Proof.
  intros Hk Hq. unfold vector_width.
  assert (k = 0 \/ k = 1 \/ k = 2 \/ k = 3 \/ k = 4) as Hc by lia.
  destruct Hc as [->|[->|[->|[->| ->]]]]; [destruct (vector_128 o)..|rewrite Hq by lia|rewrite Hq by lia];
    apply Z.mod_divide; done.
Qed.

Lemma trailing_zeros_pow k : 0 <= k -> trailing_zeros 8 (2 ^ k) = k.
Proof.
  intros Hk. unfold trailing_zeros. pose proof (pow2_pos k Hk). rewrite (proj2 (Z.eqb_neq (2 ^ k) 0)) by lia.
  replace (Z.land (2 ^ k) (- 2 ^ k)) with (2 ^ k); [by apply Z.log2_pow2|].
  apply Z.bits_inj'. intros i Hi. rewrite Z.land_spec, Z.pow2_bits_eqb by done.
  destruct (Z.eqb_spec k i) as [<-|]; [|done]. simpl. symmetry.
  replace (- 2 ^ k) with (Z.lnot (2 ^ k - 1)) by (unfold Z.lnot; lia).
  replace (2 ^ k - 1) with (Z.ones k) by (rewrite Z.ones_equiv; lia).
  rewrite Z.lnot_spec, Z.testbit_ones_nonneg, Z.ltb_irrefl by lia. done.
Qed.

Lemma duplicate_general_framed : form_fields_ok (DuplicateGeneral o) -> framed_step (duplicate_general o).
Proof.
  intros (k & Hk & Hi & Hq). unfold duplicate_general. rewrite Hi, trailing_zeros_pow by lia. cbv zeta.
  rewrite (proj2 (Z.ltb_lt k 8)) by lia. apply framed_lift; [by eexists|]. intros b [= <-].
  assert (shl_w 8 8 k = 8 * 2 ^ k) as ->.
  { apply shl_w_small; [lia|]. pose proof (pow2_pos k). pose proof (pow2_le k 4). change (2 ^ 4) with 16 in *. unfold fits. lia. }
  framed. apply framed_replicated; [pose proof (pow2_pos k); lia|by apply width_divides|]. intros. by framed.
Qed.

Lemma trailing_zeros_5 v : fits 5 v -> v <> 0 -> 0 <= trailing_zeros 8 v <= 4.
Proof.
  intros Hv Hne. unfold trailing_zeros. rewrite (proj2 (Z.eqb_neq v 0)) by done. split; [apply Z.log2_nonneg|].
  destruct (Z.le_gt_cases (Z.land v (- v)) 0) as [Hle|Hgt]; [rewrite Z.log2_nonpos by done; lia|].
  assert (Z.log2 (Z.land v (- v)) < 5); [|lia]. apply Z.log2_lt_pow2; [done|]. by apply fits_land_l.
Qed.

Lemma duplicate_element_framed : form_fields_ok (DuplicateElement o) -> framed_step (duplicate_element false o).
Proof.
  intros [Hne Hq]. pose proof (trailing_zeros_5 _ (fo_imm5 o Ho) Hne) as Htz. unfold duplicate_element. cbv zeta.
  set (k := trailing_zeros 8 (immediate_5 o)) in *. rewrite (proj2 (Z.ltb_lt k 7)) by lia.
  apply framed_lift; [by eexists|]. intros lane _. framed. apply framed_lift.
  { unfold mask_u128. destruct (_ <? 128); by eexists. }
  intros mask _. rewrite Z.shiftl_mul_pow2 by lia.
  assert (0 < 8 * 2 ^ k <= 128) as Hb by (pose proof (pow2_pos k); pose proof (pow2_le k 4); change (2 ^ 4) with 16 in *; lia).
  rewrite (wrap_small 8) by (unfold fits; lia).
  apply framed_replicated; [lia|by apply width_divides|]. intros. by framed.
Qed.

Lemma expand_modified_returns c imm op : 0 <= c < 15 -> returns (expand_modified_immediate c imm op).
Proof.
  intros Hc. unfold expand_modified_immediate, in_range. apply returns_bind; [|intros; by eexists].
  destruct (Z.leb_spec 0 c), (Z.leb_spec c 7), (Z.leb_spec 8 c), (Z.leb_spec c 11); try lia; try (by eexists); cbn [andb].
  destruct (Z.eqb_spec c 12); [by eexists|]. destruct (Z.eqb_spec c 13); [by eexists|].
  destruct (Z.eqb_spec c 14); [destruct op; by eexists|lia].
Qed.

Lemma modified_immediate_framed : cmode o <> 15 -> framed_step (modified_immediate o).
Proof.
  intros Hne. pose proof (fo_cmode o Ho) as Hc. unfold fits in Hc. change (2 ^ 4) with 16 in Hc. unfold modified_immediate.
  apply framed_lift; [apply expand_modified_returns; lia|]. intros imm _. framed.
  destruct (vector_128 o); fit.
Qed.

Lemma insert_shape_returns : immediate_5 o <> 0 /\ trailing_zeros 8 (immediate_5 o) <= 3 ->
  exists b lane, insert_lane_shape (immediate_5 o) = Ok (b, lane) /\ 8 <= b <= 64.
Proof.
  intros [Hne Hk]. pose proof (trailing_zeros_5 _ (fo_imm5 o Ho) Hne) as Htz. unfold insert_lane_shape.
  rewrite (proj2 (Z.leb_le _ 3)) by lia. eexists _, _. split; [done|]. set (k := trailing_zeros 8 (immediate_5 o)) in *.
  rewrite Z.shiftl_mul_pow2 by lia. pose proof (pow2_pos k). pose proof (pow2_le k 3). change (2 ^ 3) with 8 in *. lia.
Qed.

Lemma insert_element_framed : form_fields_ok (InsertElement o) -> framed_step (insert_element o).
Proof.
  intros Hk. destruct (insert_shape_returns Hk) as (b & lane & E & Hb). unfold insert_element.
  apply framed_lift; [by eexists|]. intros p [= <-]%(eq_trans (eq_sym E)). framed. fit.
Qed.

Lemma insert_general_framed : form_fields_ok (InsertGeneral o) -> framed_step (insert_general o).
Proof.
  intros Hk. destruct (insert_shape_returns Hk) as (b & lane & E & Hb). unfold insert_general.
  apply framed_lift; [by eexists|]. intros p [= <-]%(eq_trans (eq_sym E)). framed. fit.
Qed.

Lemma umov_framed : form_fields_ok (UnsignedMoveToGeneral o) -> framed_step (unsigned_move_to_general o).
Proof.
  intros [Hne Hk]. pose proof (trailing_zeros_5 _ (fo_imm5 o Ho) Hne) as Htz. unfold unsigned_move_to_general. cbv zeta.
  pose proof (fo_imm5 o Ho) as Hi. set (k := trailing_zeros 8 (immediate_5 o)) in *.
  assert (exists w, umov_lane_width k = Ok w /\ lane_bits w = 8 * 2 ^ k) as (w & Hw & Hb).
  { assert (k = 0 \/ k = 1 \/ k = 2 \/ k = 3) as [->|[->|[->| ->]]] by lia; by eexists. }
  apply framed_lift; [by eexists|]. intros w' [= ->]%(eq_trans (eq_sym Hw)).
  assert (VectorArrangement_new 128 w' = Ok (mkArrangement 128 w')) as -> by (by destruct w').
  apply framed_lift; [by eexists|]. intros a [= <-]. framed.
  assert (0 <= Z.shiftr (immediate_5 o) (k + 1) < lane_count (mkArrangement 128 w')) as Hl.
  { unfold lane_count. cbn [vector_bits lane_width]. rewrite Hb, Z.shiftr_div_pow2 by lia.
    pose proof (pow2_pos k ltac:(lia)). unfold fits in Hi. change (2 ^ 5) with 32 in Hi.
    split; [apply Z.div_pos; [lia|apply pow2_pos; lia]|].
    assert (k = 0 \/ k = 1 \/ k = 2 \/ k = 3) as [->|[->|[->| ->]]] by lia;
      (apply Z.div_lt_upper_bound; [done|apply Z.lt_le_trans with 32; [lia|done]]). }
  rewrite extract_lane_at by done. cbn [expect_ok]. apply framed_lift; [by eexists|]. intros x [= <-]. apply fp_framed_write.
  apply (fits_le (lane_bits w')); [destruct w'; simpl; lia|]. apply lane_at_fits. destruct w'; simpl; lia.
Qed.

Lemma fmov_to_framed : form_fields_ok (MoveToGeneral o) -> framed_step (floating_move_to_general o).
Proof.
  cbn [form_fields_ok]. intros Hk. unfold floating_move_to_general. framed.
  destruct (negb (Z.land (size o) 2 =? 0)); destruct Hk as [-> | ->]; (apply framed_lift; [by eexists|]);
    intros p [= <-]; apply fp_framed_write; try (by apply wrap_fits). apply (fits_le 16); [lia|by apply wrap_fits].
Qed.

Lemma fmov_from_framed : form_fields_ok (MoveFromGeneral o) -> framed_step (floating_move_from_general o).
Proof.
  cbn [form_fields_ok]. intros Hk. unfold floating_move_from_general. cbv zeta. apply framed_read. intros v Hv.
  assert (fits 128 v /\ fits 128 (wrap 32 v) /\ fits 128 (wrap 16 v)) as (H1 & H2 & H3).
  { split; [by apply (fits_le 64)|]. split; [apply (fits_le 32)|apply (fits_le 16)]; first [lia|by apply wrap_fits]. }
  destruct (negb (Z.land (size o) 2 =? 0)); destruct Hk as [-> | ->];
    apply wp_bind; try (apply wp_ret; by apply framed_set).
  apply wp_bind, wp_vector_r; [apply Ho|done|]. intros w _ Hw. apply wp_ret, framed_set. fit.
Qed.

Lemma scalar_immediate_framed : opc o <> 2 -> framed_step (scalar_float_immediate o).
Proof.
  intros Hne. pose proof (fo_opc o Ho). unfold scalar_float_immediate. apply framed_lift.
  - assert (opc o = 0 \/ opc o = 1 \/ opc o = 3) as [->|[->| ->]] by lia; by eexists.
  - intros [e f] _. apply framed_set, expand_vfp_fits.
Qed.

Lemma vector_immediate_framed : framed_step (vector_float_immediate o).
Proof.
  unfold vector_float_immediate. destruct (if operation_bit o then _ else _) as [lane b] eqn:E.
  assert (b = 32 \/ b = 64) as Hb by (destruct (operation_bit o); injection E as <- <-; auto).
  apply framed_replicated; [lia| |intros; by framed].
  unfold vector_width. destruct Hb as [-> | ->], (vector_128 o); by apply Z.mod_divide.
Qed.

Lemma shift_lane_bits_returns i : Z.shiftr i 3 <> 0 -> fits 7 i ->
  exists k, 0 <= k <= 3 /\ shift_lane_bits i = Ok (8 * 2 ^ k).
Proof.
  intros Hne Hi. unfold shift_lane_bits. rewrite (proj2 (Z.eqb_neq _ 0)) by done.
  assert (0 < Z.shiftr i 3 < 16) as Hr.
  { rewrite Z.shiftr_div_pow2 in * by lia. unfold fits in Hi. split; [|apply Z.div_lt_upper_bound; lia].
    pose proof (Z.div_pos i (2 ^ 3)). lia. }
  exists (Z.log2 (Z.shiftr i 3)). unfold leading_zeros. rewrite (proj2 (Z.eqb_neq _ 0)) by lia.
  assert (Z.log2 (Z.shiftr i 3) < 4) by (apply Z.log2_lt_pow2; lia). pose proof (Z.log2_nonneg (Z.shiftr i 3)).
  split; [lia|]. rewrite Z.shiftl_mul_pow2 by lia. do 3 f_equal. lia.
Qed.

Lemma framed_shift_bits (k : Z -> Step unit) : Z.shiftr (shift_immediate o) 3 <> 0 ->
  (forall b, 8 <= b <= 64 -> framed_step (k b)) -> framed_step (lift (shift_lane_bits (shift_immediate o)) ≫= k).
Proof.
  intros Hne Hk. destruct (shift_lane_bits_returns _ Hne (fo_shift o Ho)) as (j & Hj & E).
  apply framed_lift; [by eexists|]. intros b [= <-]%(eq_trans (eq_sym E)). apply Hk.
  pose proof (pow2_pos j). pose proof (pow2_le j 3). change (2 ^ 3) with 8 in *. lia.
Qed.

Lemma shift_narrow_framed : Z.shiftr (shift_immediate o) 3 <> 0 -> framed_step (shift_right_narrow o).
Proof.
  intros Hne. unfold shift_right_narrow. apply framed_shift_bits; [done|]. intros b Hb. framed.
  apply wp_bind. destruct (vector_128 o) eqn:Eq.
  - apply wp_vector_r; [apply Ho|done|]. intros p _ Hp. apply framed_set, narrow_into_128; [done|apply or_lanes_128].
  - apply wp_ret. apply framed_set, narrow_into_128; [by apply fits_0|apply or_lanes_128].
Qed.

Lemma shift_long_framed : Z.shiftr (shift_immediate o) 3 <> 0 -> framed_step (shift_left_long false o).
Proof.
  intros Hne. unfold shift_left_long. apply framed_shift_bits; [done|]. intros b Hb. apply framed_lift.
  { unfold mask_u128. destruct (_ <? 128); by eexists. }
  intros mask _. framed. apply or_lanes_128.
Qed.

(** *** Floating point *)

Lemma scalar_format_ieee : ieee (scalar_format o).
Proof. unfold scalar_format. destruct (_ =? 0); [by left|by right]. Qed.

Lemma framed_operand fmt r (k : Z -> Step unit) : ieee fmt -> fits 5 r ->
  (forall v, fits (FpFormat_bits fmt) v -> framed_step (k v)) -> framed_step (scalar_operand fmt r ≫= k).
Proof.
  intros Hi Hr Hk. apply wp_bind. unfold scalar_operand. apply wp_bind, wp_vector_r; [done..|]. intros v _ Hv.
  apply wp_ret, Hk. destruct Hi as [-> | ->]; apply fits_land_ones; simpl; lia.
Qed.

Lemma commit_value_framed v s : fits 128 v -> framed_step (commit_value (rd o) v s).
Proof.
  intros Hv. unfold commit_value. apply wp_bind, wp_trap_if; [done|]. apply wp_bind.
  apply (wp_set_vector o (fo_rd o Ho) st); [by apply fp_framed_refl|done|]. intros st2 Hf.
  apply (wp_accumulate o st); [done|apply fp_status_bits_fits|done].
Qed.

Lemma framed_exact (r : fp ExactFpOutcome) : returns r ->
  framed_step (outcome ← lift r; commit_lane (rd o) (lane_of_exact outcome)).
Proof.
  intros Hr. apply framed_lift; [done|]. intros x _. apply commit_value_framed. apply (fits_le 64); [lia|].
  by apply wrap_fits.
Qed.

Lemma commit_inexact_framed v inx : fits 128 v -> framed_step (commit_inexact (rd o) (v, inx)).
Proof.
  intros Hv. unfold commit_inexact. apply wp_bind, wp_trap_if; [done|]. apply wp_bind.
  apply (wp_set_vector o (fo_rd o Ho) st); [by apply fp_framed_refl|done|]. intros st2 Hf.
  destruct inx; [|by apply wp_ret]. by apply (wp_accumulate o st).
Qed.

Lemma commit_compare_framed outcome : framed_step (commit_compare outcome).
Proof.
  unfold commit_compare. apply wp_bind, wp_trap_if; [done|]. apply wp_bind.
  apply (wp_set_nzcv o st); [by apply fp_framed_refl|]. intros st2 Hf.
  apply (wp_accumulate o st); [done|apply fp_status_bits_fits|done].
Qed.

Lemma commit_exact_framed x : framed_step (commit_lane (rd o) (lane_of_exact x)).
Proof. apply commit_value_framed. apply (fits_le 64); [lia|]. by apply wrap_fits. Qed.

Lemma wp_operand fmt r (Q : Z -> A64State -> Prop) (Qe : A64FpSimdError -> A64State -> Prop) :
  ieee fmt -> fits 5 r -> (forall v, fits (FpFormat_bits fmt) v -> Q v st) -> wp (scalar_operand fmt r) Q Qe st.
Proof.
  intros Hi Hr Hk. unfold scalar_operand. apply wp_bind, wp_vector_r; [done..|]. intros v _ Hv.
  apply wp_ret, Hk. destruct Hi as [-> | ->]; apply fits_land_ones; simpl; lia.
Qed.

(** The scalar forms: read the operands, compute, commit. *)
Ltac scalar_form lem :=
  unfold framed_step; apply wp_bind;
  repeat (apply wp_bind; apply wp_operand; [apply scalar_format_ieee|apply Ho|intros ? ?]);
  apply wp_bind, wp_gets; apply wp_bind, wp_returns; [apply lem; done || apply scalar_format_ieee|];
  intros ? _; apply wp_ret, commit_exact_framed.

Lemma divide_form : framed_step (outcome ← scalar_float_divide o; commit_lane (rd o) outcome).
Proof. unfold scalar_float_divide. scalar_form scalar_divide_returns. Qed.

Lemma round_form operation : framed_step (outcome ← scalar_float_round o operation; commit_lane (rd o) outcome).
Proof. unfold scalar_float_round. scalar_form round_returns. Qed.

Lemma add_form operation : framed_step (outcome ← scalar_float_add o operation; commit_lane (rd o) outcome).
Proof. unfold scalar_float_add. scalar_form scalar_add_returns. Qed.

Lemma multiply_form operation : framed_step (outcome ← scalar_float_multiply o operation; commit_lane (rd o) outcome).
Proof. unfold scalar_float_multiply. scalar_form scalar_multiply_returns. Qed.

Lemma fused_form operation :
  framed_step (outcome ← scalar_float_fused_multiply_add false o operation; commit_lane (rd o) outcome).
Proof. unfold scalar_float_fused_multiply_add. scalar_form fused_returns. Qed.

Lemma square_root_form : framed_step (outcome ← scalar_float_square_root o; commit_lane (rd o) outcome).
Proof. unfold scalar_float_square_root. scalar_form square_root_returns. Qed.

Lemma convert_form conversion : framed_step (outcome ← scalar_float_convert o conversion; commit_lane (rd o) outcome).
Proof.
  unfold framed_step, scalar_float_convert. apply wp_bind. apply wp_bind, wp_operand; [|apply Ho|].
  { destruct conversion; [by left|by right]. }
  intros v _. apply wp_bind, wp_gets. apply wp_bind, wp_returns; [apply convert_returns|].
  intros x _. apply wp_ret, commit_exact_framed.
Qed.

Lemma wp_compare zero (Q : ExactCompareOutcome -> A64State -> Prop) (Qe : A64FpSimdError -> A64State -> Prop) :
  (forall x, Q x st) -> wp (scalar_float_compare o zero) Q Qe st.
Proof.
  intros HQ. unfold scalar_float_compare. apply wp_bind, wp_operand; [apply scalar_format_ieee|apply Ho|]. intros l _.
  apply wp_bind. assert (forall r, wp (st ← gets id;
    lift (exact_scalar_float_compare l r (FpFormat_bits (scalar_format o)) (signaling_compare o) (st_fpcr st))) Q Qe st) as Hr.
  { intros r. apply wp_bind, wp_gets, wp_returns; [apply compare_returns, scalar_format_ieee|]. intros. apply HQ. }
  destruct zero; [apply wp_ret, Hr|]. apply wp_operand; [apply scalar_format_ieee|apply Ho|]. intros r _. apply Hr.
Qed.

Lemma compare_form zero : framed_step (outcome ← scalar_float_compare o zero; commit_compare outcome).
Proof. apply wp_bind, wp_compare. intros. apply commit_compare_framed. Qed.

Lemma conditional_compare_form : framed_step (scalar_float_conditional_compare o).
Proof.
  unfold scalar_float_conditional_compare. apply framed_gets. unfold id. destruct (negb _); [|apply compare_form].
  apply (wp_set_nzcv o st); [by apply fp_framed_refl|done].
Qed.

Lemma conditional_select_form : framed_step (scalar_float_conditional_select o).
Proof.
  unfold scalar_float_conditional_select. apply framed_gets. unfold id. apply framed_vector_r.
  - destruct (evaluate_a64 _ _); apply Ho.
  - intros v _ Hv. apply framed_set. by apply fits_land_l.
Qed.

Lemma scalar_integer_form signed : opc o = 0 \/ opc o = 1 ->
  framed_step (outcome ← scalar_integer_to_float o signed; commit_inexact (rd o) outcome).
Proof.
  intros Hopc. unfold framed_step, scalar_integer_to_float. apply wp_bind. apply wp_bind.
  apply wp_returns; [destruct Hopc as [-> | ->]; by eexists|]. intros bits _.
  apply wp_bind, wp_read_register; [done|]. intros v _. apply wp_bind, wp_gets. unfold id. apply wp_returns.
  - unfold exact_scalar_integer_to_float. destruct (integer_sign_and_magnitude _ _ _).
    apply integer_to_ieee_returns, fpcr_rounding_mode_ok.
  - intros [x inx] E. apply commit_inexact_framed. apply (fits_le 64); [lia|].
    unfold exact_scalar_integer_to_float in E. destruct (integer_sign_and_magnitude _ _ _). by apply integer_to_ieee_fits in E.
Qed.

Lemma vector_scalar_integer_form signed :
  framed_step (outcome ← scalar_vector_integer_to_float o signed; commit_inexact (rd o) outcome).
Proof.
  unfold framed_step, scalar_vector_integer_to_float. apply wp_bind. cbv zeta. apply wp_bind, wp_vector_r; [apply Ho|done|].
  intros v _ _. apply wp_bind, wp_gets. unfold id. apply wp_returns.
  - unfold exact_scalar_vector_integer_to_float. destruct (integer_sign_and_magnitude _ _ _).
    apply integer_to_ieee_returns, fpcr_rounding_mode_ok.
  - intros [x inx] E. apply commit_inexact_framed. apply (fits_le 64); [lia|].
    unfold exact_scalar_vector_integer_to_float in E. destruct (integer_sign_and_magnitude _ _ _). by apply integer_to_ieee_fits in E.
Qed.

(** Loops over lanes return and keep what each pass keeps. *)
Lemma for_lanes_returns {A} (body : A -> Z -> fp A) (I : A -> Prop) a l :
  I a -> (forall a i, I a -> exists b, body a i = Ok b /\ I b) -> exists b, for_lanes body a l = Ok b /\ I b.
Proof.
  intros Ha Hb. revert a Ha. induction l as [|i l IH]; intros a Ha; [by exists a|]. simpl.
  destruct (Hb a i Ha) as (b & -> & Hib). cbn [mbind res_bind]. by apply IH.
Qed.

Lemma vector_integer_form signed :
  framed_step (outcome ← vector_integer_to_float o signed; commit_inexact (rd o) outcome).
Proof.
  unfold framed_step, vector_integer_to_float. apply wp_bind. cbv zeta. apply wp_bind, wp_vector_r; [apply Ho|done|].
  intros v _ _. apply wp_bind, wp_gets. unfold id, exact_vector_integer_to_float. cbv zeta.
  match goal with |- context [for_lanes ?body ?a ?l] =>
    destruct (for_lanes_returns body (fun '(r, _) => fits 128 r) a l) as ([r inx] & E & Hr) end.
  - by apply fits_0.
  - intros [r inx] i Hr. destruct (integer_sign_and_magnitude _ _ _) as [n m].
    destruct (integer_to_ieee_returns m n (if opc o =? 0 then 32 else 64) (fpcr_rounding_mode (st_fpcr st))) as ([c x] & Ec);
      [apply (fpcr_rounding_mode_ok (st_fpcr st))|].
    rewrite Ec. cbn [mbind res_bind]. eexists. split; [done|]. cbn beta iota. fit.
  - apply wp_returns; [by eexists|]. intros p [= <-]%(eq_trans (eq_sym E)). by apply commit_inexact_framed.
Qed.

Lemma float_lanes_returns b n f : (forall i, returns (f i)) ->
  exists x, float_lanes b n f = Ok x /\ fits 128 (exact_bits x).
Proof.
  intros Hf. unfold float_lanes.
  match goal with |- context [for_lanes ?body ?a ?l] =>
    destruct (for_lanes_returns body (fun '(r, _) => fits 128 r) a l) as ([r s] & E & Hr) end.
  - by apply fits_0.
  - intros [r s] i Hr. destruct (Hf (i * b)) as [out ->]. cbn [mbind res_bind]. eexists. split; [done|]. cbn beta iota. fit.
  - rewrite E. cbn [mbind res_bind]. by eexists.
Qed.

Lemma commit_vector_framed (r : fp ExactFpOutcome) : (exists x, r = Ok x /\ fits 128 (exact_bits x)) ->
  wp (lift r) (fun x => wp (commit_value (rd o) (exact_bits x) (exact_status x)) (fun _ => fp_framed o st) (fun _ st' => st' = st))
    (fun _ st' => st' = st) st.
Proof. intros (x & -> & Hx). apply wp_returns; [by eexists|]. intros y [= <-]. by apply commit_value_framed. Qed.

Lemma vector_divide_form :
  framed_step (outcome ← vector_float_divide o; commit_value (rd o) (exact_bits outcome) (exact_status outcome)).
Proof.
  unfold framed_step, vector_float_divide. apply wp_bind. cbv zeta. apply wp_bind, wp_vector_r; [apply Ho|done|]. intros l _ _.
  apply wp_bind, wp_vector_r; [apply Ho|done|]. intros r _ _. apply wp_bind, wp_gets. unfold id, exact_vector_float_divide.
  assert (ieee (if Z.land (opc o) 1 =? 0 then Binary32 else Binary64)) as Hi by (destruct (_ =? 0); [by left|by right]).
  rewrite fp_format_ieee by done. cbn [mbind res_bind]. apply commit_vector_framed, float_lanes_returns. intros i.
  apply divide_returns; [done|]. apply fpcr_rounding_mode_ok.
Qed.

Lemma vector_multiply_form :
  framed_step (outcome ← vector_float_multiply_element o; commit_value (rd o) (exact_bits outcome) (exact_status outcome)).
Proof.
  unfold framed_step, vector_float_multiply_element. apply wp_bind. cbv zeta. apply wp_bind, wp_vector_r; [apply Ho|done|]. intros l _ _.
  apply wp_bind, wp_vector_r; [apply Ho|done|]. intros r _ _. apply wp_bind, wp_gets. unfold id, exact_vector_float_multiply_element.
  assert (ieee (if opc o =? 0 then Binary32 else Binary64)) as Hi by (destruct (_ =? 0); [by left|by right]).
  rewrite fp_format_ieee by done. cbn [mbind res_bind]. apply commit_vector_framed, float_lanes_returns. intros i.
  by apply multiply_returns.
Qed.

(** *** Lane loops *)

Lemma bitwise_form op : framed_step (bitwise o op).
Proof. unfold bitwise. framed. apply fits_land_l; [lia|]. by apply bitwise_result_128. Qed.

Lemma add_sub_form : framed_step (integer_add_sub o).
Proof. unfold integer_add_sub. framed. apply map2_lanes_128. Qed.

Lemma vector_sign_form negate : framed_step (vector_float_sign_operation o negate).
Proof. unfold vector_float_sign_operation. framed. apply or_lanes_128. Qed.

Lemma permute_form op : framed_step (permute_two_source o op).
Proof. unfold permute_two_source. framed. apply or_lanes_128. Qed.

Lemma extract_form : framed_step (extract_vector o).
Proof. unfold extract_vector. framed. apply or_lanes_128. Qed.

Lemma integer_compare_form comparison : framed_step (integer_compare o comparison).
Proof.
  unfold integer_compare. cbv zeta. apply framed_vector_r; [apply Ho|]. intros l _ _. apply wp_bind.
  destruct (compare_with_zero o); [apply wp_ret|apply wp_vector_r; [apply Ho|done|]; intros r _ _]; apply framed_set, map2_lanes_128.
Qed.

Lemma pairwise_form op : framed_step (integer_pairwise o op).
Proof. unfold integer_pairwise. framed. apply or_lanes_128. Qed.

Lemma min_max_form op : op <> PairwiseAdd -> framed_step (integer_min_max o op).
Proof.
  intros Hne. unfold integer_min_max. framed. apply framed_lift; [destruct op; (done || by eexists)|]. intros _ _.
  apply framed_set, map2_lanes_128.
Qed.

Lemma shift_right_form scalar : Z.shiftr (shift_immediate o) 3 <> 0 -> framed_step (shift_right_immediate o scalar).
Proof. intros Hne. apply framed_shift_bits; [done|]. intros b Hb. framed. apply or_lanes_128. Qed.

Lemma shift_left_form scalar : Z.shiftr (shift_immediate o) 3 <> 0 -> framed_step (shift_left_immediate o scalar).
Proof. intros Hne. apply framed_shift_bits; [done|]. intros b Hb. framed. apply or_lanes_128. Qed.

Lemma shift_register_form signed : framed_step (shift_register o signed).
Proof. unfold shift_register. framed. apply or_lanes_128. Qed.

Lemma count_bits_form : framed_step (count_bits o).
Proof. unfold count_bits. framed. apply or_lanes_128. Qed.

Lemma add_across_form : framed_step (add_across_vector o).
Proof. unfold add_across_vector. framed. apply add_across_128. pose proof opc_lane_bits. lia. Qed.

Lemma extract_narrow_form : framed_step (extract_narrow o).
Proof. unfold extract_narrow. framed. apply narrow_into_128; [done|apply or_lanes_128]. Qed.

Lemma saturated_fits width signed negative : width = 32 \/ width = 64 -> fits 64 (saturated width signed negative).
Proof. intros [-> | ->]; by destruct signed, negative. Qed.

Lemma to_integer_fits x f width signed r fr fpcr : width = 32 \/ width = 64 ->
  fits 64 (integer_value (float_bits_to_integer x f width signed r fr fpcr)).
Proof.
  intros Hw. unfold float_bits_to_integer. cbv zeta. repeat case_match; cbn [integer_value];
    first [by apply fits_0|by apply wrap_fits|by apply saturated_fits].
Qed.

Lemma to_integer_form signed rounding : opc o = 0 \/ opc o = 1 ->
  framed_step
    (outcome ← scalar_float_to_integer o signed rounding;
     _ ← trap_if (fun st => fp_status_traps (integer_status outcome) (st_fpcr st));
     _ ← write (rd o) (integer_width outcome) (integer_value outcome);
     accumulate (fp_status_bits (integer_status outcome))).
Proof.
  intros Hopc. unfold framed_step, scalar_float_to_integer. apply wp_bind. cbv zeta. apply wp_bind.
  assert (exists fmt f, ieee fmt /\ BinaryFormat_new (E := A64FpSimdError) fmt = Ok f /\
    match opc o with 0 => BinaryFormat_new Binary32 | 1 => BinaryFormat_new Binary64 | _ => Panic end = (Ok f : fp _))
    as (fmt & f & Hi & Hf & E).
  { destruct Hopc as [-> | ->]; [exists Binary32|exists Binary64]; eexists; (split; [by left + by right|done]). }
  apply wp_returns; [by eexists|]. intros f' [= <-]%(eq_trans (eq_sym E)).
  apply wp_bind, wp_vector_r; [apply Ho|done|]. intros v _ _. apply wp_bind, wp_gets. unfold id.
  apply wp_returns; [by apply (to_integer_returns _ fmt)|]. intros x Ex.
  assert (fits 64 (integer_value x)) as Hx.
  { unfold exact_float_to_integer in Ex. destruct Hi as [-> | ->]; injection Hf as <-; injection Ex as <-;
      apply to_integer_fits; destruct (negb _); auto. }
  apply wp_bind, wp_trap_if; [done|]. apply wp_bind. apply (wp_write_register o (fo_rd o Ho) st); [by apply fp_framed_refl|done|].
  intros st2 H2. apply (wp_accumulate o st); [done|apply fp_status_bits_fits|done].
Qed.
End Handlers.

(** ** Dispatch *)

Definition is_memory_form (i : Instruction) : bool :=
  match i with
  | MemoryPair _ | MemoryUnsigned _ | MemoryUnscaled _ | MemoryPostIndex _ | MemoryPreIndex _
  | MemoryRegister _ | MemoryMultipleStructures _ | MemoryMultipleStructuresPostIndex _
  | MemorySingleStructure _ | MemorySingleStructurePostIndex _ => true
  | _ => false
  end.

(** Memory forms are not the provider's, and change nothing. *)
Lemma execute_memory checks i st : is_memory_form i = true -> execute checks i st = (st, Err UnsupportedOperation).
Proof. by destruct i. Qed.

Lemma framed_expect {A} o st (a : option A) (k : A -> Step unit) : is_Some a ->
  (forall x, framed_step o st (k x)) -> framed_step o st (lift (expect a) ≫= k).
Proof. intros [x ->] Hk. apply wp_bind, wp_lift. apply Hk. Qed.

(** Every accepted instruction runs to its end or traps; what completes changes
    only its destination, and what does not changes nothing. *)
Lemma execute_framed i st : fields_ok (instruction_operands i) -> form_fields_ok i -> state_wf st ->
  framed_step (instruction_operands i) st (execute false i).
Proof.
  intros Ho Hk Hwf. destruct i as
    [o|o|o|o|o|o|o|o|o|o|o|o|o|o|o|o|o|o|o|o|o|o|o|o|o|o|o|o|o|o|o|o|o|o|o|o|o|o|o|o|o|o|o|o|o|o|o|o|o|o|o|o|o|o|o|o|o|o|o|o|o|o|o|o];
    cbn [instruction_operands] in *; cbn [execute];
    try (by apply wp_throw); cbn [form_fields_ok] in Hk.
  all: try match goal with Hk : is_Some _ |- _ => apply framed_expect; [exact Hk|intros ?] end.
  all: try solve [eauto using duplicate_general_framed, duplicate_element_framed, modified_immediate_framed,
    umov_framed, insert_element_framed, insert_general_framed, fmov_to_framed, fmov_from_framed, scalar_move_framed,
    sign_operation_framed, scalar_immediate_framed, vector_immediate_framed, shift_narrow_framed, shift_long_framed,
    divide_form, round_form, add_form, multiply_form, fused_form, square_root_form, convert_form, compare_form,
    conditional_compare_form, conditional_select_form, scalar_integer_form, vector_scalar_integer_form,
    vector_integer_form, vector_divide_form, vector_multiply_form, bitwise_form, add_sub_form, vector_sign_form,
    permute_form, extract_form, integer_compare_form, pairwise_form, shift_right_form, shift_left_form,
    shift_register_form, count_bits_form, add_across_form, extract_narrow_form].
  - destruct Hk as [Hopc Hr]. apply framed_expect; [done|]. intros r. by apply to_integer_form.
  - destruct Hk as [Hopc Hr]. apply framed_expect; [done|]. intros r. by apply to_integer_form.
  - destruct Hk as (op & E & Hne). rewrite E. apply wp_bind, wp_lift. by apply min_max_form.
Qed.

(** ** The build profile *)

(** The format of a scalar form, and the operand it reads. *)
Definition scalar_binary (fmt : FpFormat) : BinaryFormat :=
  match fmt with Binary32 => binary32 | _ => binary64 end.
Definition scalar_value (st : A64State) (fmt : FpFormat) (r : Z) : Z :=
  Z.land (wrap 64 (default 0 (vector st r))) (format_mask fmt).

(** What a build with overflow checks panics on: the mask of a 128-bit element
    ([1u128 << 128]) in DUP, of a 128-bit destination element in SSHLL and
    USHLL, and the alignment or the sum of a scalar fused multiply-add. *)
Definition overflowing (i : Instruction) (st : A64State) : bool :=
  match i with
  | DuplicateElement o => 4 <=? trailing_zeros 8 (immediate_5 o)
  | ShiftLeftLong o => 64 <=? shift_immediate o
  | ScalarFloatFusedMultiplyAdd o =>
      let fmt := scalar_format o in
      match float_fused_multiply_operation o with
      | Some operation =>
          fused_overflows (scalar_binary fmt) (from_fpcr (st_fpcr st)) operation
            (scalar_value st fmt (rn o)) (scalar_value st fmt (rm o)) (scalar_value st fmt (ra o))
      | None => false
      end
  | _ => false
  end.

Section Checked.
Context (o : Operands) (Ho : fields_ok o) (st : A64State) (Hwf : state_wf st).

Lemma vector_r_run r : fits 5 r -> vector_r r st = (st, Ok (default 0 (vector st r))).
Proof.
  intros Hr. destruct (vector_some st r Hr Hwf) as (v & Hv & _). unfold vector_r, mbind, M_bind, gets, lift, id. by rewrite Hv.
Qed.

Lemma scalar_operand_run fmt r : fits 5 r -> scalar_operand fmt r st = (st, Ok (scalar_value st fmt r)).
Proof. intros Hr. unfold scalar_operand. by rewrite (M_bind_ok _ _ _ _ _ (vector_r_run r Hr)). Qed.

Lemma scalar_value_fits fmt r : ieee fmt -> fits (FpFormat_bits fmt) (scalar_value st fmt r).
Proof. intros [-> | ->]; apply fits_land_ones; simpl; lia. Qed.

(** A mask is the same in both builds below 128 bits. *)
Lemma mask_checked {A} b (k : Z -> Step A) : (lift (mask_u128 true b) ≫= k) st = (lift (mask_u128 false b) ≫= k) st \/
  (lift (mask_u128 true b) ≫= k) st = (st, Panic) /\ 128 <= b.
Proof. unfold mask_u128. destruct (Z.ltb_spec b 128); [by left|by right]. Qed.

Lemma duplicate_checked : duplicate_element true o st = duplicate_element false o st \/
  duplicate_element true o st = (st, Panic) /\ (4 <=? trailing_zeros 8 (immediate_5 o)) = true.
Proof.
  unfold duplicate_element. cbv zeta. set (k := trailing_zeros 8 (immediate_5 o)).
  assert (0 <= k) as Hk.
  { destruct (Z.eq_dec (immediate_5 o) 0) as [E|E]; [unfold k; by rewrite E|]. apply (trailing_zeros_5 _ (fo_imm5 o Ho) E). }
  destruct (Z.ltb_spec k 7); [|by left]. rewrite !(M_bind_lift_ok (Ok _) _ _ _ eq_refl).
  rewrite !(M_bind_ok _ _ _ _ _ (vector_r_run (rn o) (fo_rn o Ho))).
  match goal with |- (lift (mask_u128 true ?b) ≫= ?f) st = _ \/ _ => destruct (mask_checked b f) as [->|[-> Hb]] end;
    [by left|right]. split; [done|]. apply Z.leb_le. rewrite Z.shiftl_mul_pow2 in Hb by done.
  destruct (Z.le_gt_cases 4 k) as [|Hlt]; [done|]. pose proof (pow2_le k 3 ltac:(lia)). change (2 ^ 3) with 8 in *. lia.
Qed.

Lemma shift_long_checked : shift_left_long true o st = shift_left_long false o st \/
  shift_left_long true o st = (st, Panic) /\ (64 <=? shift_immediate o) = true.
Proof.
  unfold shift_left_long. cbv zeta. destruct (shift_lane_bits (shift_immediate o)) as [b| |] eqn:Eb; [|by left..].
  rewrite !(M_bind_lift_ok (Ok _) _ _ _ eq_refl).
  match goal with |- (lift (mask_u128 true ?b) ≫= ?f) st = _ \/ _ => destruct (mask_checked b f) as [->|[-> Hb]] end;
    [by left|right]. split; [done|]. apply Z.leb_le. pose proof (fo_shift o Ho) as [Hs _].
  unfold shift_lane_bits in Eb. set (h := Z.shiftr (shift_immediate o) 3) in Eb.
  destruct (Z.eqb_spec h 0) as [|Hh]; [done|]. injection Eb as <-.
  assert (h = shift_immediate o / 8) as Eh by (unfold h; rewrite Z.shiftr_div_pow2 by lia; done).
  destruct (Z.le_gt_cases 64 (shift_immediate o)) as [|Hlt]; [done|exfalso].
  assert (0 < h < 8) as Hh8 by (rewrite Eh in *; pose proof (Z.div_pos (shift_immediate o) 8); pose proof (Z.div_lt_upper_bound (shift_immediate o) 8 8); lia).
  assert (h = 1 \/ h = 2 \/ h = 3 \/ h = 4 \/ h = 5 \/ h = 6 \/ h = 7) as Hc by lia.
  repeat destruct Hc as [Hc|Hc]; rewrite Hc in Hb; by vm_compute in Hb.
Qed.

Lemma fused_form_checked operation :
  let run checks := (outcome ← scalar_float_fused_multiply_add checks o operation; commit_lane (rd o) outcome) st in
  run true = run false \/ run true = (st, Panic) /\
    fused_overflows (scalar_binary (scalar_format o)) (from_fpcr (st_fpcr st)) operation
      (scalar_value st (scalar_format o) (rn o)) (scalar_value st (scalar_format o) (rm o))
      (scalar_value st (scalar_format o) (ra o)) = true.
Proof.
  cbv zeta. set (fmt := scalar_format o). assert (ieee fmt) as Hi by apply scalar_format_ieee.
  assert (forall checks, scalar_float_fused_multiply_add checks o operation st =
    (st, match exact_scalar_float_fused_multiply_add checks (scalar_value st fmt (rn o)) (scalar_value st fmt (rm o))
                 (scalar_value st fmt (ra o)) (FpFormat_bits fmt) operation (st_fpcr st) with
         | Ok x => Ok (lane_of_exact x) | Err e => Err e | Panic => Panic end)) as Hrun.
  { intros checks. unfold scalar_float_fused_multiply_add. cbv zeta. fold fmt.
    rewrite (M_bind_ok _ _ _ _ _ (scalar_operand_run fmt (rn o) (fo_rn o Ho))).
    rewrite (M_bind_ok _ _ _ _ _ (scalar_operand_run fmt (rm o) (fo_rm o Ho))).
    rewrite (M_bind_ok _ _ _ _ _ (scalar_operand_run fmt (ra o) (fo_ra o Ho))).
    unfold mbind, M_bind, gets, id, lift. by destruct (exact_scalar_float_fused_multiply_add _ _ _ _ _ _ _). }
  unfold mbind, M_bind. rewrite !Hrun.
  destruct (fused_checked fmt (scalar_binary fmt) (scalar_value st fmt (rn o)) (scalar_value st fmt (rm o))
    (scalar_value st fmt (ra o)) operation (st_fpcr st) Hi) as [->|[-> Hv]];
    [by destruct Hi as [-> | ->]|by apply scalar_value_fits..|by left|by right].
Qed.
End Checked.

(** A build with overflow checks does what one without them does, or panics
    and leaves the state. *)
Lemma execute_checked i st : fields_ok (instruction_operands i) -> state_wf st ->
  execute true i st = execute false i st \/ execute true i st = (st, Panic) /\ overflowing i st = true.
Proof.
  intros Ho Hwf. destruct i; cbn [instruction_operands] in Ho; try (left; reflexivity); cbn [execute overflowing].
  - by apply duplicate_checked.
  - by apply shift_long_checked.
  - destruct (float_fused_multiply_operation _) as [operation|]; cbn [expect]; [|by left].
    rewrite !(M_bind_lift_ok (Ok _) _ _ _ eq_refl). by apply fused_form_checked.
Qed.
