(* ===== verification/SimdAccepted.v ===== *)
(** * The encodings the decoder accepts have the fields the provider relies on *)

From Stdlib Require Import ZArith Lia Bool.
From stdpp Require Import base numbers list option strings.
From S2P Require Import Prelude RustInt Bits Allocation DecodeTable DecodeBase DecodeFpSimd.
Import DecodeFpSimd.FpSimd.
From S2P Require Import DecodeA64 A64State SimdOps A64FpSimd A64FpSimdProps.
Local Open Scope Z_scope.

(** DUP with [imm5 = 0b10000] and [Q = 0], general or element: an encoding the
    architecture reserves and the catalog accepts. *)
Definition reserved_duplicate (bits : Z) : bool := masked bits 0xffff_f400 0x0e10_0400.

(** ** Opcode bits the catalog fixes *)

(** Forms of single or double precision. *)
Definition binary_ids : list Z :=
  [0x35; 0x8d; 0x8e; 0x6d; 0x3a; 0x3b; 0x3c; 0x3d; 0x7d; 0x7e; 0x7f; 0x80; 0x81; 0x82; 0x83; 0x84; 0x9e; 0x9f].

(** Half-precision forms. *)
Definition half_ids : list Z := [0x89; 0x8f; 0x90; 0x6e].

Definition duplicate_ids : list Z := [0x48; 0x8c].

Definition fixes (p : InstructionPattern) (n : Z) (b : bool) : bool :=
  Z.testbit (pattern_mask p) n && Bool.eqb (Z.testbit (pattern_value p) n) b.

Definition opcode_fixed (p : InstructionPattern) : bool :=
  (negb (one_of (coverage_id p) binary_ids) || fixes p 23 false) &&
  (negb (one_of (coverage_id p) half_ids) || (fixes p 23 true && fixes p 22 true)) &&
  (negb (one_of (coverage_id p) duplicate_ids) ||
    ((pattern_mask p =? 0xbfe0_fc00) && one_of (pattern_value p) [0x0e00_0c00; 0x0e00_0400])).

Lemma opcodes_fixed : forallb opcode_fixed patterns = true.
Proof. by vm_compute. Qed.

Lemma matches_fixes bits p n b : 0 <= n -> matches_pattern bits p = true -> fixes p n b = true -> Z.testbit bits n = b.
Proof.
  unfold matches_pattern, fixes. intros Hn Hm%Z.eqb_eq [Hk Hv%eqb_prop]%andb_true_iff.
  rewrite <- Hm, Z.land_spec, Hk, andb_true_r in Hv. done.
Qed.

Lemma fld_22 bits : fld bits 22 3 = 2 * Z.b2z (Z.testbit bits 23) + Z.b2z (Z.testbit bits 22).
Proof.
  pose proof (fld_bound bits 22 2 ltac:(lia)) as Hb. change (Z.ones 2) with 3 in Hb.
  assert (forall n, 0 <= n < 2 -> Z.testbit (fld bits 22 3) n = Z.testbit bits (n + 22)) as Ht.
  { intros n Hn. unfold fld. change 3 with (Z.ones 2).
    rewrite Z.land_spec, Z.ones_spec_low, Z.shiftr_spec, andb_true_r by lia. done. }
  change 23 with (1 + 22). change (Z.testbit bits 22) with (Z.testbit bits (0 + 22)). rewrite <- !Ht by lia.
  set (v := fld bits 22 3) in *. clearbody v. clear Ht.
  assert (v = 0 \/ v = 1 \/ v = 2 \/ v = 3) as [->|[->|[->| ->]]] by lia; done.
Qed.

(** An identity in a range is one of its members. *)
Lemma in_range_seqZ x a b : in_range x a b = true -> x ∈ seqZ a (b - a + 1).
Proof. unfold in_range. rewrite andb_true_iff, !Z.leb_le, elem_of_seqZ. lia. Qed.

Lemma one_of_elem x l : one_of x l = true -> x ∈ l.
Proof. intros (y & Hy & ->%Z.eqb_eq)%existsb_exists. by apply list_elem_of_In. Qed.

(** Splits on the members of a concrete list of identities. *)
Ltac each_id E :=
  first [apply one_of_elem in E | apply in_range_seqZ in E; simpl in E];
  repeat (apply elem_of_cons in E as [->|E]); [..|by apply not_elem_of_nil in E].

Section Accepted.
Context (p : InstructionPattern) (bits : Z) (o : Operands).
Context (Hp : p ∈ patterns) (Hm : matches_pattern bits p = true) (Hv : validate (coverage_id p) bits = Some Allocated).
Context (Ho : operands_of (coverage_id p) bits = Ok o).

(** What the normalizer reads for the fields the forms depend on. *)
Lemma accepted_operands :
  fields_ok o /\ opc o = (if coverage_id p =? 0xa1 then fld bits 22 1 else fld bits 22 3) /\
  immediate_5 o = fld bits 16 0x1f /\ vector_128 o = bit_set bits 30 /\ shift_immediate o = fld bits 16 0x7f /\
  cmode o = fld bits 12 0xf /\ size o = wrap 8 (Z.shiftr bits 30).
Proof using Ho.
  revert Ho. unfold operands_of. generalize (then_expect (coverage_id p =? 0x30) (bitwise_operation bits)),
    (then_expect (coverage_id p =? 0x64) (permute_operation bits)), (then_expect (coverage_id p =? 0x97) (fused_multiply_operation bits)).
  intros [b|e|] [q|e'|] [f|e''|] [= <-]; try done. split; [|done].
  split; unfold fld; cbn [rd rn rm ra opc immediate_5 shift_immediate immediate_8 cmode];
    try (change 31 with (Z.ones 5)); try (change 127 with (Z.ones 7)); try (change 15 with (Z.ones 4)); try (apply fits_land_ones; lia).
  - destruct (_ =? _); [pose proof (fld_bound bits 22 1 ltac:(lia)) as Hb|pose proof (fld_bound bits 22 2 ltac:(lia)) as Hb];
      unfold fld in Hb; [change (Z.ones 1) with 1 in Hb|change (Z.ones 2) with 3 in Hb]; lia.
  - apply fits_lor; [lia| |apply fits_land_ones; lia]. unfold shl_w. change 7 with (Z.ones 3).
    pose proof (fits_land_ones 3 3 (Z.shiftr bits 16) ltac:(lia)) as Hf. unfold fits in *.
    rewrite wrap_small, Z.shiftl_mul_pow2; [lia..|]. rewrite Z.shiftl_mul_pow2; unfold fits; lia.
Qed.

(** Operations named by the identity alone. *)
Lemma accepted_operations :
  (coverage_id p = 0x30 -> is_Some (bitwise_op o)) /\ (coverage_id p = 0x64 -> is_Some (permute_op o)) /\
  (coverage_id p = 0x97 -> is_Some (float_fused_multiply_operation o)) /\
  integer_cmp o = integer_comparison (coverage_id p) /\ pairwise_op o = pairwise_operation (coverage_id p).
Proof using Ho.
  revert Ho. unfold operands_of.
  destruct (then_expect (coverage_id p =? 0x30) _) as [b| |] eqn:Eb; [|done..].
  destruct (then_expect (coverage_id p =? 0x64) _) as [q| |] eqn:Eq; [|done..].
  destruct (then_expect (coverage_id p =? 0x97) _) as [f| |] eqn:Ef; [|done..].
  intros [= <-]. cbn [bitwise_op permute_op float_fused_multiply_operation integer_cmp pairwise_op].
  split_and!; [| | |done..]; intros E.
  - rewrite E, Z.eqb_refl in Eb. unfold then_expect in Eb. destruct (bitwise_operation bits); simplify_eq. by eexists.
  - rewrite E, Z.eqb_refl in Eq. unfold then_expect in Eq. destruct (permute_operation bits); simplify_eq. by eexists.
  - rewrite E, Z.eqb_refl in Ef. unfold then_expect in Ef. destruct (fused_multiply_operation bits); simplify_eq. by eexists.
Qed.

Lemma accepted_float_operations :
  (in_range (coverage_id p) 0x6f 0x70 = true -> is_Some (float_conversion o)) /\
  (in_range (coverage_id p) 0x72 0x78 = true -> is_Some (float_round_operation o)) /\
  (in_range (coverage_id p) 0x79 0x7a = true -> is_Some (float_add_operation o)) /\
  (in_range (coverage_id p) 0x7b 0x7c = true -> is_Some (float_multiply_operation o)) /\
  (one_of (coverage_id p) [0x3c; 0x3d; 0x7d; 0x7e; 0x7f; 0x80; 0x81; 0x82; 0x83; 0x84; 0x9e; 0x9f] = true ->
    is_Some (float_to_integer_rounding o)).
Proof using Ho.
  revert Ho. unfold operands_of. generalize (then_expect (coverage_id p =? 0x30) (bitwise_operation bits)),
    (then_expect (coverage_id p =? 0x64) (permute_operation bits)), (then_expect (coverage_id p =? 0x97) (fused_multiply_operation bits)).
  intros [b|e|] [q|e'|] [f|e''|] [= <-]; try done.
  cbn [float_conversion float_round_operation float_add_operation float_multiply_operation float_to_integer_rounding].
  generalize (coverage_id p). intros id. unfold in_range. split_and!; intros Hid;
    try (rewrite andb_true_iff, !Z.leb_le in Hid).
  - assert (id = 0x6f \/ id = 0x70) as [->| ->] by lia; by eexists.
  - assert (id = 0x72 \/ id = 0x73 \/ id = 0x74 \/ id = 0x75 \/ id = 0x76 \/ id = 0x77 \/ id = 0x78)
      as [->|[->|[->|[->|[->|[->| ->]]]]]] by lia; by eexists.
  - assert (id = 0x79 \/ id = 0x7a) as [->| ->] by lia; by eexists.
  - assert (id = 0x7b \/ id = 0x7c) as [->| ->] by lia; by eexists.
  - apply existsb_exists in Hid as (x & Hx & ->%Z.eqb_eq). repeat destruct Hx as [<-|Hx]; [by eexists..|done].
Qed.

(** ** Forms *)

Lemma fixed : opcode_fixed p = true.
Proof using Hp. pose proof opcodes_fixed as H. rewrite forallb_forall in H. by apply H, list_elem_of_In. Qed.

Lemma binary_opc : one_of (coverage_id p) binary_ids = true -> opc o = 0 \/ opc o = 1.
Proof using Hp Hm Ho.
  intros Hid. pose proof fixed as Hf. unfold opcode_fixed in Hf. rewrite Hid in Hf. cbn [negb orb] in Hf.
  apply andb_true_iff in Hf as [[Hf _]%andb_true_iff _].
  pose proof (matches_fixes bits p 23 _ ltac:(lia) Hm Hf) as Ht.
  destruct accepted_operands as (_ & -> & _). rewrite fld_22, Ht. destruct (coverage_id p =? 0xa1) eqn:E.
  - apply Z.eqb_eq in E. by rewrite E in Hid.
  - destruct (Z.testbit bits 22); simpl; lia.
Qed.

Lemma half_opc : one_of (coverage_id p) half_ids = true -> opc o = 3.
Proof using Hp Hm Ho.
  intros Hid. pose proof fixed as Hf. unfold opcode_fixed in Hf. rewrite Hid in Hf. cbn [negb orb] in Hf.
  apply andb_true_iff in Hf as [[_ [Hf Hf']%andb_true_iff]%andb_true_iff _].
  pose proof (matches_fixes bits p 23 _ ltac:(lia) Hm Hf) as Ht. pose proof (matches_fixes bits p 22 _ ltac:(lia) Hm Hf') as Ht'.
  destruct accepted_operands as (_ & -> & _). rewrite fld_22, Ht, Ht'. destruct (coverage_id p =? 0xa1) eqn:E; [|done].
  apply Z.eqb_eq in E. by rewrite E in Hid.
Qed.

(** A DUP of 128-bit elements into a 64-bit register is the reserved encoding. *)
Lemma duplicate_reserved : one_of (coverage_id p) duplicate_ids = true -> fld bits 16 0x1f = 16 ->
  bit_set bits 30 = false -> reserved_duplicate bits = true.
Proof using Hp Hm.
  intros Hid H5 Hq. pose proof fixed as Hf. unfold opcode_fixed in Hf. rewrite Hid in Hf. cbn [negb orb] in Hf.
  apply andb_true_iff in Hf as [_ [Hmask%Z.eqb_eq Hval]%andb_true_iff].
  unfold matches_pattern in Hm. rewrite Hmask in Hm. apply Z.eqb_eq in Hm.
  assert (Z.land bits 0x1f_0000 = Z.shiftl (fld bits 16 0x1f) 16) as Hl.
  { unfold fld. rewrite Z.shiftl_land. change (Z.shiftl 0x1f 16) with 0x1f_0000.
    rewrite <- Z.ldiff_ones_r by lia. apply Z.bits_inj'. intros n Hn. rewrite !Z.land_spec, Z.ldiff_spec.
    destruct (decide (n < 16)); [|rewrite Z.ones_spec_high, andb_true_r by lia; done].
    change 0x1f_0000 with (Z.shiftl 0x1f 16). rewrite (Z.shiftl_spec_low 0x1f) by lia. by rewrite !andb_false_r. }
  unfold bit_set in Hq. apply negb_false_iff, Z.eqb_eq in Hq. change (Z.shiftl 1 30) with 0x4000_0000 in Hq.
  unfold reserved_duplicate, masked. apply Z.eqb_eq.
  change 0xffff_f400 with (Z.lor (Z.land 0xbfe0_fc00 0xbfe0_f400) (Z.lor 0x1f_0000 0x4000_0000)).
  rewrite !Z.land_lor_distr_r, Z.land_assoc, Hm, Hl, Hq, H5.
  apply existsb_exists in Hval as (x & Hx & ->%Z.eqb_eq). destruct Hx as [<-|[<-|[]]]; done.
Qed.

(** The element size of DUP (general) is one-hot. *)
Lemma duplicate_general_fields : coverage_id p = 0x48 -> reserved_duplicate bits = false ->
  form_fields_ok (DuplicateGeneral o).
Proof using Hp Hm Hv Ho.
  intros E Hr. destruct accepted_operands as (_ & _ & H5 & Hq & _). cbn [form_fields_ok]. rewrite H5, Hq.
  pose proof (fld_bound bits 16 5 ltac:(lia)) as Hb. change (Z.ones 5) with 31 in Hb.
  pose proof duplicate_reserved as Hres. rewrite E, Hr in Hres. specialize (Hres eq_refl).
  pose proof Hv as Hv'. rewrite E in Hv'.
  change (Some (let immediate := fld bits 16 31 in if negb (is_power_of_two immediate)
    then Reserved "SIMD duplicate element size is not one-hot"%string
    else if (immediate =? 8) && negb (bit_set bits 30) then Reserved "64-bit SIMD duplicate requires a 128-bit vector"%string
    else Allocated) = Some Allocated) in Hv'. cbv zeta in Hv'.
  set (v := fld bits 16 31) in *. clearbody v. destruct (is_power_of_two v) eqn:Hpow; [|done]. cbn in Hv'.
  assert (exists k, 0 <= k <= 4 /\ v = 2 ^ k) as (k & Hk & ->).
  { assert (v = 1 \/ v = 2 \/ v = 4 \/ v = 8 \/ v = 16) as Hcases.
    { assert (negb (is_power_of_two v) || one_of v [1; 2; 4; 8; 16] = true) as Hc by check_below 32%nat v.
      rewrite Hpow in Hc. apply existsb_exists in Hc as (x & Hx & ->%Z.eqb_eq). simpl in Hx. lia. }
    destruct Hcases as [->|[->|[->|[->| ->]]]]; [exists 0|exists 1|exists 2|exists 3|exists 4]; (split; [lia|done]). }
  exists k. split; [done|split; [done|]]. intros H3. destruct (bit_set bits 30); [done|].
  assert (k = 3 \/ k = 4) as [->| ->] by lia; [done|]. by specialize (Hres eq_refl eq_refl).
Qed.

Lemma duplicate_element_fields : coverage_id p = 0x8c -> reserved_duplicate bits = false ->
  form_fields_ok (DuplicateElement o).
Proof using Hp Hm Hv Ho.
  intros E Hr. destruct accepted_operands as (_ & _ & H5 & Hq & _). cbn [form_fields_ok]. rewrite H5, Hq.
  pose proof (fld_bound bits 16 5 ltac:(lia)) as Hb. change (Z.ones 5) with 31 in Hb.
  pose proof duplicate_reserved as Hres. rewrite E, Hr in Hres. specialize (Hres eq_refl).
  pose proof Hv as Hv'. rewrite E in Hv'. change (Some (validate_a64_simd_duplicate_element bits) = Some Allocated) in Hv'.
  unfold validate_a64_simd_duplicate_element in Hv'.
  set (v := fld bits 16 31) in *. clearbody v. destruct (v =? 0) eqn:E0; [done|]. apply Z.eqb_neq in E0.
  split; [done|]. intros H3. destruct (bit_set bits 30); [done|]. exfalso.
  destruct (trailing_zeros 8 v =? 3) eqn:Et; [done|]. apply Z.eqb_neq in Et.
  assert ((v =? 0) || (trailing_zeros 8 v <=? 3) || (v =? 16) = true) as Hc by check_below 32%nat v.
  assert (v = 16) as -> by lia. by specialize (Hres eq_refl eq_refl).
Qed.

(** Element moves name an element of at most 64 bits. *)
Lemma element_size_fields : one_of (coverage_id p) [0x4b; 0x60; 0x61] = true ->
  immediate_5 o <> 0 /\ trailing_zeros 8 (immediate_5 o) <= 3.
Proof using Hv Ho.
  intros Hid. destruct accepted_operands as (_ & _ & -> & _). pose proof Hv as Hv'.
  assert ((fld bits 16 31 =? 0) || (trailing_zeros 8 (fld bits 16 31) >? 3) = false) as [H0 H3]%orb_false_iff.
  { apply existsb_exists in Hid as (x & Hx & E%Z.eqb_eq). rewrite E in Hv'. destruct Hx as [<-|[<-|[<-|[]]]];
      [change (Some (validate_a64_umov bits) = Some Allocated) in Hv'
      |change (Some (validate_a64_simd_insert 0x60 bits) = Some Allocated) in Hv'
      |change (Some (validate_a64_simd_insert 0x61 bits) = Some Allocated) in Hv'];
      unfold validate_a64_umov, validate_a64_simd_insert in Hv'; by destruct (_ || _). }
  apply Z.eqb_neq in H0. rewrite Z.gtb_ltb, Z.ltb_ge in H3. done.
Qed.

(** Shifts by an immediate have an element-size bit. *)
Lemma shift_fields : one_of (coverage_id p) [0x65; 0x91; 0x92; 0x99; 0x9a; 0xa0] = true ->
  Z.shiftr (shift_immediate o) 3 <> 0.
Proof using Hv Ho.
  intros Hid. destruct accepted_operands as (_ & _ & _ & _ & -> & _). pose proof Hv as Hv'.
  assert (Z.shiftr (fld bits 16 127) 3 = fld bits 19 15) as ->.
  { unfold fld. rewrite Z.shiftr_land, Z.shiftr_shiftr by lia. done. }
  intros H0. apply existsb_exists in Hid as (x & Hx & E%Z.eqb_eq). rewrite E in Hv'. repeat destruct Hx as [<-|Hx]; [..|done].
  - change (Some (if fld bits 19 15 =? 0 then Reserved "SIMD narrow shift has no element-size bit"%string else Allocated) = Some Allocated) in Hv'.
    by rewrite H0 in Hv'.
  - change (Some (validate_a64_simd_shift_right_immediate true bits) = Some Allocated) in Hv'.
    unfold validate_a64_simd_shift_right_immediate in Hv'. by rewrite H0 in Hv'.
  - change (Some (validate_a64_simd_shift_right_immediate false bits) = Some Allocated) in Hv'.
    unfold validate_a64_simd_shift_right_immediate in Hv'. by rewrite H0 in Hv'.
  - change (Some (validate_a64_simd_shift_left_immediate true bits) = Some Allocated) in Hv'.
    unfold validate_a64_simd_shift_left_immediate in Hv'. by rewrite H0 in Hv'.
  - change (Some (validate_a64_simd_shift_left_immediate false bits) = Some Allocated) in Hv'.
    unfold validate_a64_simd_shift_left_immediate in Hv'. by rewrite H0 in Hv'.
  - change (Some (if fld bits 19 15 =? 0 then Unallocated "SIMD long shift has no element-size bit"%string else Allocated) = Some Allocated) in Hv'.
    by rewrite H0 in Hv'.
Qed.

Lemma modified_fields : coverage_id p = 0x4a -> cmode o <> 15.
Proof using Hv Ho.
  intros E. destruct accepted_operands as (_ & _ & _ & _ & _ & -> & _). pose proof Hv as Hv'. rewrite E in Hv'. intros H15.
  change ((if fld bits 12 15 =? 15 then Some (Unallocated "floating-point immediate belongs to a different instruction family"%string)
    else Some Allocated) = Some Allocated) in Hv'.
  by rewrite H15 in Hv'.
Qed.

Lemma move_fields : one_of (coverage_id p) [0x3e; 0x3f] = true -> form_fields_ok (MoveToGeneral o).
Proof using Hv Ho.
  intros Hid. cbn [form_fields_ok]. destruct accepted_operands as (_ & -> & _ & _ & _ & _ & ->). pose proof Hv as Hv'.
  assert (validate_a64_fp_move_general bits = Allocated) as Ha.
  { apply existsb_exists in Hid as (x & Hx & E%Z.eqb_eq). rewrite E in Hv'. destruct Hx as [<-|[<-|[]]];
      change (Some (validate_a64_fp_move_general bits) = Some Allocated) in Hv'; congruence. }
  replace (coverage_id p =? 0xa1) with false by (symmetry; apply Z.eqb_neq; intros E; by rewrite E in Hid).
  assert ((Z.land (wrap 8 (Z.shiftr bits 30)) 2 =? 0) = negb (bit_set bits 31)) as ->.
  { change ((Z.land (wrap 8 (Z.shiftr bits 30)) 2 =? 0)) with (Z.land (wrap 8 (Z.shiftr bits 30)) (Z.shiftl 1 1) =? 0).
    rewrite <- (negb_involutive (_ =? 0)). change (negb (_ =? 0)) with (bit_set (wrap 8 (Z.shiftr bits 30)) 1).
    rewrite !bit_set_spec, testbit_wrap, Z.shiftr_spec by lia. done. }
  unfold validate_a64_fp_move_general in Ha. destruct (bit_set bits 31); cbn [negb andb orb] in *;
    destruct (fld bits 22 3 =? 0) eqn:E0, (fld bits 22 3 =? 3) eqn:E3, (fld bits 22 3 =? 1) eqn:E1, (fld bits 22 3 =? 2) eqn:E2;
    try done; lia.
Qed.

Lemma accepted_form i : instruction_of (coverage_id p) o = Ok i -> reserved_duplicate bits = false -> form_fields_ok i.
Proof using All.
  intros Hi Hr. pose proof duplicate_general_fields as Hdg. pose proof duplicate_element_fields as Hde.
  pose proof element_size_fields as Hes. pose proof shift_fields as Hsh. pose proof modified_fields as Hmo.
  pose proof move_fields as Hmv. pose proof binary_opc as Hbo. pose proof half_opc as Hho.
  pose proof accepted_operations as (Hbw & Hpe & Hfu & Hic & Hpw).
  pose proof accepted_float_operations as (Hfc & Hfr & Hfa & Hfm & Hti).
  revert Hdg Hde Hes Hsh Hmo Hmv Hbo Hho Hbw Hpe Hfu Hic Hpw Hfc Hfr Hfa Hfm Hti Hi.
  generalize (coverage_id p). clear Hp Hm Hv Ho. intros c. intros. unfold instruction_of in Hi.
  repeat match type of Hi with
  | (if ?b then _ else _) = _ => destruct b eqn:?E; [injection Hi as <-|]
  end; [..|done].
  all: repeat match goal with E : (_ =? _) = false |- _ => clear E | E : one_of _ _ = false |- _ => clear E | E : in_range _ _ _ = false |- _ => clear E end.
  all: repeat match goal with E : (?c =? _) = true |- _ => apply Z.eqb_eq in E; subst c end.
  all: cbn [form_fields_ok] in *; try done; try solve [eauto].
  all: try (rewrite Hic || rewrite Hpw).
  all: try (match goal with E : one_of _ _ = true |- _ => each_id E | E : in_range _ _ _ = true |- _ => each_id E end;
    first [by eexists | by specialize (Hho eq_refl); lia | by specialize (Hbo eq_refl); lia | by split; eauto]).
  all: try (exact (Hmv eq_refl)).
Qed.

End Accepted.

Lemma instruction_of_operands c o i : instruction_of c o = Ok i -> instruction_operands i = o.
Proof. unfold instruction_of. intros Hi. repeat (case_match; [by injection Hi as <-|]). done. Qed.

(** A word the catalog accepts as FP or SIMD has the fields the provider reads,
    the reserved DUP apart. *)
Lemma normalize_accepted p bits i : p ∈ patterns -> matches_pattern bits p = true ->
  validate (coverage_id p) bits = Some Allocated -> FpSimd.normalize (coverage_id p) bits = Ok i ->
  reserved_duplicate bits = false -> fields_ok (instruction_operands i) /\ form_fields_ok i.
Proof.
  unfold FpSimd.normalize. intros Hp Hm Hv Hn Hr. destruct (operands_of (coverage_id p) bits) as [o| |] eqn:Ho; [|done..].
  cbn in Hn. rewrite (instruction_of_operands _ _ _ Hn). split; [by eapply accepted_operands|]. by eapply accepted_form.
Qed.

(** ** The reserved DUP encodings *)

(** What a word the catalog decodes as DUP is decoded to. *)
Definition scans_to_duplicate (ps : list InstructionPattern) (bits : Z) : bool :=
  match scan_patterns bits ps None with
  | Ok (ScanFound p) => one_of (coverage_id p) duplicate_ids && bool_decide (decoder p = ReadyToDecode)
  | _ => false
  end.

Lemma reserved_words_check :
  (let ps := by_priority patterns in
   forallb (fun x => scans_to_duplicate ps (Z.lor 0x0e10_0400 x)) (seqZ 0 0x1000)) = true.
Proof. by vm_compute. Qed.

Lemma reserved_word bits : fits 32 bits -> reserved_duplicate bits = true -> exists x, 0 <= x < 0x1000 /\ bits = Z.lor 0x0e10_0400 x.
Proof.
  intros Hb Hr%Z.eqb_eq. exists (Z.land bits 0xbff). split.
  - by apply (fits_land_r 12).
  - rewrite <- Hr, <- Z.land_lor_distr_r. change (Z.lor 0xffff_f400 0xbff) with (Z.ones 32).
    rewrite Z.land_ones by lia. symmetry. by apply Z.mod_small.
Qed.

Lemma reserved_scan bits : fits 32 bits -> reserved_duplicate bits = true ->
  exists p, scan_patterns bits (by_priority patterns) None = Ok (ScanFound p) /\
    one_of (coverage_id p) duplicate_ids = true /\ decoder p = ReadyToDecode.
Proof.
  intros Hb Hr. destruct (reserved_word bits Hb Hr) as (x & Hx & ->).
  pose proof reserved_words_check as Hc. cbv zeta in Hc. rewrite forallb_forall in Hc.
  specialize (Hc x). rewrite <- list_elem_of_In, elem_of_seqZ in Hc. specialize (Hc ltac:(lia)).
  unfold scans_to_duplicate in Hc. destruct (scan_patterns _ _ _) as [[p|]| |]; [|done..].
  apply andb_true_iff in Hc as [Hid Hd%bool_decide_eq_true_1]. by exists p.
Qed.

Lemma reserved_fields bits : reserved_duplicate bits = true -> fld bits 16 0x1f = 16 /\ bit_set bits 30 = false.
Proof.
  intros Hr%Z.eqb_eq. split.
  - unfold fld. change 0x1f with (Z.shiftr (Z.land 0xffff_f400 0x1f_0000) 16).
    rewrite <- Z.shiftr_land, Z.land_assoc, Hr. done.
  - unfold bit_set. change (Z.shiftl 1 30) with (Z.land 0xffff_f400 0x4000_0000). by rewrite Z.land_assoc, Hr.
Qed.

Lemma replicated_128_panics o v : vector_128 o = false -> replicated v 128 (vector_width o) = Panic.
Proof. intros Hq. unfold replicated, vector_width. by rewrite Hq. Qed.

Lemma duplicate_general_panics o st : immediate_5 o = 16 -> vector_128 o = false ->
  duplicate_general o st = (st, Panic).
Proof.
  intros H5 Hq. unfold duplicate_general. rewrite H5. change (trailing_zeros 8 16) with 4.
  change (4 <? 8) with true. cbv iota. change (shl_w 8 8 4) with 128.
  unfold mbind, M_bind, lift, read, gets, mret, M_ret. unfold mbind, M_bind. by rewrite replicated_128_panics.
Qed.

Lemma duplicate_element_panics checks o st : state_wf st -> fits 5 (rn o) -> immediate_5 o = 16 -> vector_128 o = false ->
  duplicate_element checks o st = (st, Panic).
Proof.
  intros Hwf Hn H5 Hq. unfold duplicate_element. rewrite H5. change (trailing_zeros 8 16) with 4.
  change (4 <? 7) with true. cbv iota zeta. change (Z.shiftl 8 4) with 128. change (wrap 8 128) with 128.
  destruct (vector_some st (rn o) Hn Hwf) as (v & Hv & _).
  unfold mbind, M_bind, lift, vector_r, gets, mret, M_ret, id. unfold mbind, M_bind. rewrite Hv. cbn [expect].
  unfold mask_u128. destruct checks; [done|]. change (128 <? 128) with false. unfold lift. cbv iota beta. by rewrite replicated_128_panics.
Qed.

(** On a reserved DUP word the provider panics, in every build and state. *)
Lemma reserved_duplicate_panics checks id bits i st : reserved_duplicate bits = true -> one_of id duplicate_ids = true ->
  FpSimd.normalize id bits = Ok i -> state_wf st -> A64FpSimd.execute checks i st = (st, Panic).
Proof.
  intros Hr Hid Hn Hwf. destruct (reserved_fields bits Hr) as [H5 Hq]. unfold FpSimd.normalize in Hn.
  destruct (operands_of id bits) as [o| |] eqn:Ho; [|done..]. cbn in Hn.
  each_id Hid; injection Hn as <-; injection Ho as <-; cbn [A64FpSimd.execute].
  - by apply duplicate_general_panics.
  - apply duplicate_element_panics; [done| |done..]. cbn [rn]. change 31 with (Z.ones 5). by apply (fld_bound bits 5 5).
Qed.
