(* ===== verification/SimdProps.v ===== *)
(** * What the vector instructions compute, lane by lane *)

From Stdlib Require Import ZArith Lia Bool.
From stdpp Require Import base numbers list option vector strings.
From S2P Require Import Prelude RustInt Bits Conditions A64State A64Semantics Vector Allocation DecodeTable DecodeBase DecodeFpSimd.
Import DecodeFpSimd.FpSimd.
From S2P Require Import FloatFormat DecodeA64 SimdOps A64FpSimd A64FpSimdProps SimdAccepted.
Local Open Scope Z_scope.

(** A vector of [w] bits in lanes of [b]. *)
Definition arranged (b w : Z) : Prop := (b = 8 \/ b = 16 \/ b = 32 \/ b = 64) /\ (w = 64 \/ w = 128).

Lemma arranged_count b w : arranged b w -> 0 < b <= 64 /\ 0 < w / b /\ w / b * b = w /\ w <= 128.
Proof. intros [[->|[->|[->| ->]]] [->| ->]]; done. Qed.

Lemma operands_arranged o : fields_ok o -> arranged (lane_bits_of o) (vector_width o).
Proof.
  intros Ho. pose proof (fo_opc o Ho). unfold lane_bits_of, vector_width, arranged. split; [|destruct (vector_128 o); lia].
  assert (opc o = 0 \/ opc o = 1 \/ opc o = 2 \/ opc o = 3) as [->|[->|[->| ->]]] by lia; vm_compute; tauto.
Qed.

Lemma get_lane_at b v i : 0 <= b -> get_lane b v i = lane_at b v i.
Proof. intros. unfold get_lane, low_mask. by rewrite Z.land_ones. Qed.

Section Lanes.
Context (b w : Z) (Hb : arranged b w).

(** A loop over the lanes of a vector. *)
Lemma assembled f : (forall j, 0 <= j < w / b -> fits b (f j)) ->
  fits w (or_lanes b f (lanes (w / b))) /\ forall i, 0 <= i < w / b -> lane_at b (or_lanes b f (lanes (w / b))) i = f i.
Proof.
  intros Hf. destruct (arranged_count b w Hb) as (Hpos & Hn & E & Hw).
  destruct (or_lanes_spec b (w / b) f ltac:(lia) ltac:(lia) ltac:(lia) Hf) as [Hfit Hl]. by rewrite E in Hfit.
Qed.

Lemma map2_lanes_spec f x y : (forall a c, fits b a -> fits b c -> fits b (f a c)) ->
  fits w (map2_lanes b w f x y) /\
  forall i, 0 <= i < w / b -> lane_at b (map2_lanes b w f x y) i = f (lane_at b x i) (lane_at b y i).
Proof.
  intros Hf. destruct (arranged_count b w Hb) as (Hpos & _). unfold map2_lanes.
  destruct (assembled (fun lane => f (get_lane b x lane) (get_lane b y lane))) as [Hfit Hl].
  { intros j _. apply Hf; apply get_lane_fits; lia. }
  split; [done|]. intros i Hi. rewrite Hl by done. by rewrite !get_lane_at by lia.
Qed.

(** Vectors with the same lanes. *)
Lemma same_lanes x y : fits w x -> fits w y -> (forall i, 0 <= i < w / b -> lane_at b x i = lane_at b y i) -> x = y.
Proof.
  intros Hx Hy Hl. destruct (arranged_count b w Hb) as (Hpos & Hn & E & _).
  apply (lanes_ext b (w / b)); [lia|lia|by rewrite E|by rewrite E|done].
Qed.

(** ** Lane functions *)

Lemma add_sub_lane_mod subtract x y : fits b x -> fits b y ->
  add_sub_lane b subtract x y = (if subtract then x - y else x + y) mod 2 ^ b.
Proof.
  intros Hx Hy. destruct (arranged_count b w Hb) as (Hpos & _). unfold add_sub_lane, low_mask. rewrite Z.land_ones by lia.
  assert (forall z, wrap 128 z mod 2 ^ b = z mod 2 ^ b) as Hm.
  { intros z. apply wrap_wrap_le. lia. }
  unfold wrapping_sub, wrapping_add. destruct subtract; apply Hm.
Qed.

Lemma signed_lane_value x : fits b x -> signed_lane b x = as_signed b x.
Proof.
  intros Hx. destruct (arranged_count b w Hb) as (Hpos & _). unfold signed_lane.
  rewrite wrap_small by (apply (fits_le b 64); [lia|done]). apply signed_immediate_as_signed. lia.
Qed.

Lemma reduce_lane_fits op x y : op <> PairwiseAdd -> fits b x -> fits b y -> fits b (reduce_lane b op x y).
Proof. intros. unfold reduce_lane, Z.max, Z.min. destruct op; [done|..]; by case_match. Qed.
End Lanes.

(** ** Lane-wise instructions *)

(** The step writes a vector to its destination whose lanes satisfy [P], and
    clears what is above the vector. *)
Definition writes_lanes (o : Operands) (st : A64State) (c : Step unit) (P : Z -> Z -> Prop) : Prop :=
  exists v st', c st = (st', Ok tt) /\ vector st' (rd o) = Some v /\ fits (vector_width o) v /\ vector_framed [rd o] st st' /\
    forall i, 0 <= i < vector_width o / lane_bits_of o -> P i (lane_at (lane_bits_of o) v i).

Lemma assert_set_vector_writes o st v P : fields_ok o -> state_wf st -> fits (vector_width o) v ->
  (forall i, 0 <= i < vector_width o / lane_bits_of o -> P i (lane_at (lane_bits_of o) v i)) ->
  writes_lanes o st (assert_set_vector (rd o) v) P.
Proof.
  intros Ho Hwf Hv HP. destruct (set_vector_spec st (rd o) v (fo_rd o Ho) Hwf) as (st' & E & Hf & Hr).
  { apply (fits_le (vector_width o) 128); [unfold vector_width; destruct (vector_128 o); lia|done]. }
  exists v, st'. split; [unfold assert_set_vector; by rewrite E|]. done.
Qed.

Lemma writes_lanes_bind {A} o st (m : Step A) a (k : A -> Step unit) P :
  m st = (st, Ok a) -> writes_lanes o st (k a) P -> writes_lanes o st (m ≫= k) P.
Proof. intros Hm (v & st' & E & H). exists v, st'. split; [|done]. by rewrite (M_bind_ok m k st st a Hm). Qed.

Lemma vector_r_reads st r v : vector st r = Some v -> vector_r r st = (st, Ok v).
Proof. intros Hv. unfold vector_r. erewrite M_bind_ok by reflexivity. unfold id. by rewrite Hv. Qed.

(** The relation an integer comparison tests. *)
Definition comparison_holds (b : Z) (comparison : IntegerComparison) (x y : Z) : Prop :=
  match comparison with
  | SignedGreaterThan => as_signed b y < as_signed b x
  | SignedGreaterThanOrEqual => as_signed b y <= as_signed b x
  | SignedLessThan => as_signed b x < as_signed b y
  | SignedLessThanOrEqual => as_signed b x <= as_signed b y
  | UnsignedGreaterThan => y < x
  | UnsignedGreaterThanOrEqual => y <= x
  | NonzeroBitTest => Z.land x y <> 0
  | Equal => x = y
  end.

(** The lane an integer minimum or maximum selects. *)
Definition selects (b : Z) (operation : PairwiseOperation) (x y r : Z) : Prop :=
  (r = x \/ r = y) /\
  match operation with
  | SignedMaximum => as_signed b r = Z.max (as_signed b x) (as_signed b y)
  | SignedMinimum => as_signed b r = Z.min (as_signed b x) (as_signed b y)
  | UnsignedMaximum => r = Z.max x y
  | UnsignedMinimum => r = Z.min x y
  | PairwiseAdd => False
  end.

Lemma compare_lane_holds b w comparison x y : arranged b w -> fits b x -> fits b y ->
  compare_lane b comparison x y = true <-> comparison_holds b comparison x y.
Proof.
  intros Hb Hx Hy. unfold compare_lane, comparison_holds.
  rewrite !(signed_lane_value b w Hb) by done. destruct comparison;
    rewrite ?Z.ltb_lt, ?Z.leb_le, ?Z.eqb_eq, ?negb_true_iff, ?Z.eqb_neq; done.
Qed.

Lemma reduce_lane_selects b w operation x y : arranged b w -> operation <> PairwiseAdd -> fits b x -> fits b y ->
  selects b operation x y (reduce_lane b operation x y).
Proof.
  intros Hb Hop Hx Hy. unfold selects, reduce_lane. rewrite !(signed_lane_value b w Hb) by done.
  destruct operation; [done| | | |].
  - destruct (Z.leb_spec (as_signed b y) (as_signed b x)); split; auto; lia.
  - destruct (Z.leb_spec (as_signed b x) (as_signed b y)); split; auto; lia.
  - split; [|done]. lia.
  - split; [|done]. lia.
Qed.

(** C25: the vector integer instructions work lane by lane.  On a well-formed
    state, ADD and SUB write to each lane the sum or difference of the source
    lanes modulo the lane width, the comparisons all ones or zero by the signed
    or unsigned relation they name, and the minima and maxima the selected lane;
    nothing crosses a lane, the bits above the vector are cleared, and no other
    register changes. *)
Theorem integer_lanes o st x y : fields_ok o -> state_wf st -> vector st (rn o) = Some x -> vector st (rm o) = Some y ->
  let b := lane_bits_of o in
  let lane := lane_at b in
  writes_lanes o st (integer_add_sub o) (fun i r =>
    r = (if subtract o then lane x i - lane y i else lane x i + lane y i) mod 2 ^ b) /\
  (forall comparison, writes_lanes o st (integer_compare o comparison) (fun i r =>
     let y := if compare_with_zero o then 0 else y in
     (comparison_holds b comparison (lane x i) (lane y i) -> r = 2 ^ b - 1) /\
     (~ comparison_holds b comparison (lane x i) (lane y i) -> r = 0))) /\
  (forall operation, operation <> PairwiseAdd -> writes_lanes o st (integer_min_max o operation) (fun i r =>
     selects b operation (lane x i) (lane y i) r)).
Proof.
  intros Ho Hwf Hx Hy b lane. pose proof (operands_arranged o Ho) as Ha. fold b in Ha.
  destruct (arranged_count _ _ Ha) as (Hpos & _).
  assert (forall v i, fits b (lane_at b v i)) as Hfit by (intros; apply lane_at_fits; lia).
  split_and!; [|intros comparison|intros operation Hop].
  - eapply writes_lanes_bind; [by apply vector_r_reads|]. eapply writes_lanes_bind; [by apply vector_r_reads|]. fold b.
    destruct (map2_lanes_spec b _ Ha (add_sub_lane b (subtract o)) x y) as [Hf Hl].
    { intros u v _ _. apply fits_land_ones. lia. }
    apply assert_set_vector_writes; [done..|]. intros i Hi. fold b in Hi |- *. rewrite Hl by done.
    by apply (add_sub_lane_mod b _ Ha).
  - eapply writes_lanes_bind; [by apply vector_r_reads|].
    eapply (writes_lanes_bind _ _ _ (if compare_with_zero o then 0 else y)).
    { destruct (compare_with_zero o); [done|by apply vector_r_reads]. }
    fold b. set (y' := if compare_with_zero o then 0 else y).
    destruct (map2_lanes_spec b _ Ha (fun u v => if compare_lane b comparison u v then low_mask b else 0) x y') as [Hf Hl].
    { intros u v _ _. destruct (compare_lane b comparison u v); [apply fits_ones; lia|apply fits_0; lia]. }
    apply assert_set_vector_writes; [done..|]. intros i Hi. fold b in Hi |- *. rewrite Hl by done.
    pose proof (compare_lane_holds b _ comparison (lane x i) (lane y' i) Ha (Hfit _ _) (Hfit _ _)) as Hc.
    unfold low_mask. rewrite Z.ones_equiv. unfold lane in *.
    destruct (compare_lane b comparison (lane_at b x i) (lane_at b y' i)); split; try done; intros Hn.
    + destruct Hn. by apply Hc.
    + by apply Hc in Hn.
  - eapply writes_lanes_bind; [by apply vector_r_reads|]. eapply writes_lanes_bind; [by apply vector_r_reads|].
    eapply (writes_lanes_bind _ _ _ tt); [by destruct operation|]. fold b.
    destruct (map2_lanes_spec b _ Ha (reduce_lane b operation) x y) as [Hf Hl].
    { intros u v. by apply reduce_lane_fits. }
    apply assert_set_vector_writes; [done..|]. intros i Hi. fold b in Hi |- *. rewrite Hl by done.
    by apply (reduce_lane_selects b _ operation _ _ Ha).
Qed.

(** ** Permutations *)

Lemma land_1_even k : (Z.land k 1 =? 0) = Z.even k.
Proof. change 1 with (Z.ones 1). rewrite Z.land_ones, Zmod_even by lia. change (2 ^ 1) with 2. by destruct (Z.even k). Qed.

Section Permute.
Context (b w : Z) (Hb : arranged b w) (Hpair : 2 * b <= w).
Abbreviation half := (w / b / 2).
Abbreviation p := (permute_result b w).

Lemma half_count : 0 < half /\ w / b = 2 * half.
Proof. destruct Hb as [[->|[->|[->| ->]]] [->| ->]]; done. Qed.

(** A lane of a permutation is a lane of a source. *)
Lemma permute_lane op x y i : 0 <= i < w / b ->
  lane_at b (p op x y) i =
  let '(first, j) := permute_source op half i in lane_at b (if first : bool then x else y) j.
Proof.
  intros Hi. destruct (arranged_count b w Hb) as (Hpos & _). unfold permute_result.
  destruct (assembled b w Hb (fun lane => let '(first, j) := permute_source op half lane in
    get_lane b (if first : bool then x else y) j)) as [_ Hl].
  { intros j _. destruct (permute_source op half j) as [s k]. apply get_lane_fits. lia. }
  rewrite Hl by done. destruct (permute_source op half i) as [s k]. apply get_lane_at. lia.
Qed.

Lemma permute_fits op x y : fits w (p op x y).
Proof.
  destruct (arranged_count b w Hb) as (Hpos & _). apply (assembled b w Hb). intros j _.
  destruct (permute_source op half j) as [s k]. apply get_lane_fits. lia.
Qed.

(** Where a lane of an interleaving comes from. *)
Lemma zip_lane (upper : bool) x y i : 0 <= i < w / b ->
  lane_at b (p (if upper then ZipSecondary else ZipPrimary) x y) i =
  lane_at b (if Z.even i then x else y) (i / 2 + Z.b2z upper * half).
Proof. intros Hi. rewrite permute_lane by done. destruct upper; cbn [permute_source]; by rewrite land_1_even. Qed.

Lemma transpose_lane (odd : bool) x y i : 0 <= i < w / b ->
  lane_at b (p (if odd then TransposeSecondary else TransposePrimary) x y) i =
  lane_at b (if Z.even i then x else y) (i / 2 * 2 + Z.b2z odd).
Proof. intros Hi. rewrite permute_lane by done. destruct odd; cbn [permute_source]; by rewrite land_1_even. Qed.

Lemma unzip_lane (odd : bool) x y i : 0 <= i < w / b ->
  lane_at b (p (if odd then UnzipSecondary else UnzipPrimary) x y) i =
  if i <? half then lane_at b x (i * 2 + Z.b2z odd) else lane_at b y ((i - half) * 2 + Z.b2z odd).
Proof. intros Hi. rewrite permute_lane by done. destruct odd; cbn [permute_source]; by destruct (i <? half). Qed.

(** The parts of [2 k] and [2 k + 1]. *)
Lemma double_parts k (odd : bool) : Z.even (k * 2 + Z.b2z odd) = negb odd /\ (k * 2 + Z.b2z odd) / 2 = k.
Proof.
  rewrite Z.even_add, Z.even_mul, orb_true_r, Z.div_add_l by lia. destruct odd; simpl Z.b2z; (split; [done|]).
  - change (1 / 2) with 0. lia.
  - change (0 / 2) with 0. lia.
Qed.

Lemma halves i : Z.b2z (negb (Z.even i)) = i - i / 2 * 2.
Proof. pose proof (Zmod_even i). pose proof (Z.div_mod i 2). destruct (Z.even i); simpl Z.b2z; lia. Qed.

Lemma unzip_zip (odd : bool) x y : fits w x -> fits w y ->
  p (if odd then UnzipSecondary else UnzipPrimary) (p ZipPrimary x y) (p ZipSecondary x y) = if odd then y else x.
Proof.
  intros Hx Hy. destruct half_count as [Hh En]. apply (same_lanes b w Hb); [apply permute_fits|by destruct odd|].
  intros i Hi. rewrite unzip_lane by done.
  destruct (Z.ltb_spec i half); [rewrite (zip_lane false)|rewrite (zip_lane true)]; try (destruct odd; simpl Z.b2z; lia).
  - destruct (double_parts i odd) as [-> ->]. destruct odd; simpl; f_equal; lia.
  - destruct (double_parts (i - half) odd) as [-> ->]. destruct odd; cbn [negb Z.b2z]; f_equal; lia.
Qed.

Lemma zip_unzip (upper : bool) x y : fits w x -> fits w y ->
  p (if upper then ZipSecondary else ZipPrimary) (p UnzipPrimary x y) (p UnzipSecondary x y) = if upper then y else x.
Proof.
  intros Hx Hy. destruct half_count as [Hh En]. apply (same_lanes b w Hb); [apply permute_fits|by destruct upper|].
  intros i Hi. rewrite zip_lane by done. pose proof (halves i) as Ei. pose proof (Z.div_pos i 2 ltac:(lia) ltac:(lia)).
  assert (i / 2 < half) by (apply Z.div_lt_upper_bound; lia).
  destruct (Z.even i); [rewrite (unzip_lane false)|rewrite (unzip_lane true)]; try (destruct upper; simpl Z.b2z; lia);
    simpl Z.b2z in Ei |- *; destruct upper; cbn [Z.b2z];
    first [rewrite (proj2 (Z.ltb_lt _ _)) by lia | rewrite (proj2 (Z.ltb_ge _ _)) by lia]; f_equal; lia.
Qed.

Lemma transpose_transpose (odd : bool) x y : fits w x -> fits w y ->
  p (if odd then TransposeSecondary else TransposePrimary) (p TransposePrimary x y) (p TransposeSecondary x y) =
  if odd then y else x.
Proof.
  intros Hx Hy. destruct half_count as [Hh En]. apply (same_lanes b w Hb); [apply permute_fits|by destruct odd|].
  intros i Hi. rewrite transpose_lane by done. pose proof (halves i) as Ei. pose proof (Z.div_pos i 2 ltac:(lia) ltac:(lia)).
  assert (i / 2 < half) by (apply Z.div_lt_upper_bound; lia).
  destruct (double_parts (i / 2) odd) as [E1 E2].
  destruct (Z.even i); [rewrite (transpose_lane false)|rewrite (transpose_lane true)]; try (destruct odd; simpl Z.b2z; lia);
    rewrite E1, E2; simpl Z.b2z in Ei |- *; destruct odd; cbn [negb]; f_equal; lia.
Qed.

(** The interleaving permutations are undone.  At every lane width and both
    vector sizes, UZP1 and UZP2 of ZIP1 and ZIP2 of two vectors are the vectors,
    ZIP1 and ZIP2 undo UZP1 and UZP2 the same way, and TRN1 and TRN2 undo
    themselves. *)
Theorem permutations_undone x y : fits w x -> fits w y ->
  (p UnzipPrimary (p ZipPrimary x y) (p ZipSecondary x y) = x /\ p UnzipSecondary (p ZipPrimary x y) (p ZipSecondary x y) = y) /\
  (p ZipPrimary (p UnzipPrimary x y) (p UnzipSecondary x y) = x /\ p ZipSecondary (p UnzipPrimary x y) (p UnzipSecondary x y) = y) /\
  (p TransposePrimary (p TransposePrimary x y) (p TransposeSecondary x y) = x /\
   p TransposeSecondary (p TransposePrimary x y) (p TransposeSecondary x y) = y).
Proof.
  intros Hx Hy. split_and!; [apply (unzip_zip false)|apply (unzip_zip true)|apply (zip_unzip false)|apply (zip_unzip true)|
    apply (transpose_transpose false)|apply (transpose_transpose true)]; done.
Qed.
End Permute.

(** ** The provider *)

(** C14: the arithmetic of the family is framed and precise, in both build
    profiles.  Every word the catalog accepts as an FP or SIMD instruction, the
    reserved DUP apart, runs on a well-formed state as follows.  When it
    completes, only its destination register, the flags of a comparison and the
    sticky FPSR bits have changed, and the state is well formed; when it traps,
    or is a memory form the provider leaves to the engine, nothing has changed.
    In a build without overflow checks ([checks] false) it never panics; in a
    build with them it panics only when its arithmetic overflows ([overflowing]:
    DUP of a 128-bit element, SSHLL or USHLL to a 128-bit element, a scalar fused
    multiply-add on operands of [fused_overflows]), and nothing has changed. *)
Theorem provider_precise checks p bits i st : p ∈ patterns -> allocated_match bits p ->
  FpSimd.normalize (coverage_id p) bits = Ok i -> reserved_duplicate bits = false -> state_wf st ->
  match A64FpSimd.execute checks i st with
  | (st', Ok _) => fp_framed (instruction_operands i) st st' /\ is_memory_form i = false
  | (st', Err Trap) => st' = st /\ is_memory_form i = false
  | (st', Err UnsupportedOperation) => st' = st
  | (st', Panic) => st' = st /\ checks = true /\ overflowing i st = true
  end.
Proof.
  intros Hp [Hm Hv] Hn Hr Hwf. destruct (is_memory_form i) eqn:Hmem; [by rewrite (execute_memory checks i st Hmem)|].
  destruct (normalize_accepted p bits i Hp Hm Hv Hn Hr) as [Ho Hk].
  pose proof (execute_framed i st Ho Hk Hwf) as Hf. unfold framed_step, wp in Hf.
  destruct checks; [destruct (execute_checked i st Ho Hwf) as [->|[-> Hov]]; [|done]|];
    destruct (A64FpSimd.execute false i st) as [st' [[]|[]|]]; done.
Qed.

(** SSHLL and USHLL with a 64-bit source element ([immh = 1xxx]). *)
Lemma long_shift_of_doublewords checks o st x : fields_ok o -> state_wf st -> 64 <= shift_immediate o ->
  vector st (rn o) = Some x ->
  exists st', shift_left_long checks o st = (st', if checks then Panic else Ok tt) /\
    if checks then st' = st else vector st' (rd o) = Some 0.
Proof.
  intros Ho Hwf Hs Hx. pose proof (fo_shift o Ho) as Hfit. unfold fits in Hfit. change (2 ^ 7) with 128 in Hfit.
  assert (shift_lane_bits (shift_immediate o) = Ok 64) as El.
  { set (v := shift_immediate o) in *. clearbody v. unfold shift_lane_bits.
    assert (8 <= Z.shiftr v 3 < 16) as Hh by (rewrite Z.shiftr_div_pow2 by lia; change (2 ^ 3) with 8; split;
      [apply Z.div_le_lower_bound|apply Z.div_lt_upper_bound]; lia).
    set (h := Z.shiftr v 3) in *. clearbody h.
    assert (h = 8 \/ h = 9 \/ h = 10 \/ h = 11 \/ h = 12 \/ h = 13 \/ h = 14 \/ h = 15)
      as [->|[->|[->|[->|[->|[->|[->| ->]]]]]]] by lia; done. }
  unfold shift_left_long. rewrite El. erewrite M_bind_ok by reflexivity. change (64 * 2) with 128.
  unfold mask_u128. change (128 <? 128) with false. cbv iota. destruct checks; [by exists st|].
  erewrite M_bind_ok by reflexivity. erewrite M_bind_ok by (by apply vector_r_reads).
  change (lanes (64 / 64)) with [0]. unfold or_lanes. cbn [fold_left]. change (low_mask (128 mod 128)) with 0.
  rewrite Z.land_0_r. change (shl_w 128 0 (0 * 128)) with 0. change (Z.lor 0 0) with 0.
  destruct (set_vector_spec st (rd o) 0 (fo_rd o Ho) Hwf) as (st' & E & _ & Hr); [by apply fits_0|].
  exists st'. split; [unfold assert_set_vector; by rewrite E|done].
Qed.

(** C39: SSHLL and USHLL accept an element size they cannot shift.  The word
    0x0f40a420 has [immh = 0b1000], which the architecture does not allocate; the
    catalog accepts it and the provider builds a mask with a shift by 128: a
    panic when overflow is checked, and otherwise a destination of zero whatever
    the source. *)
Theorem long_shift_of_doublewords_accepted platform loc : exists o,
  decoded_id (decode_a64 platform loc 0x0f40_a420) = Some 0xa0 /\
  FpSimd.normalize 0xa0 0x0f40_a420 = Ok (ShiftLeftLong o) /\
  forall st, state_wf st ->
    A64FpSimd.execute true (ShiftLeftLong o) st = (st, Panic) /\
    exists st', A64FpSimd.execute false (ShiftLeftLong o) st = (st', Ok tt) /\ vector st' 0 = Some 0.
Proof.
  eexists. split; [|split; [by vm_compute|]].
  - destruct (platform_table_ok platform) as (table & Ht & Hc). unfold decode_a64. rewrite Ht. cbn [mbind res_bind].
    rewrite (compile_decode _ _ _ _ Hc), (decoded_id_location _ loc demo_location). by vm_compute.
  - intros st Hwf. cbn [A64FpSimd.execute]. set (o := Build_Operands _ _ _ _ _ _ _ _ _ _ _ _ _ _ _ _ _ _ _ _ _ _ _ _ _ _ _ _ _ _ _ _ _ _ _ _ _ _ _ _ _ _ _ _).
    assert (fields_ok o) as Ho by (by split). destruct (vector_some st (rn o) ltac:(by split) Hwf) as (x & Hx & _).
    destruct (long_shift_of_doublewords true o st x Ho Hwf ltac:(done) Hx) as (s1 & E1 & ->).
    destruct (long_shift_of_doublewords false o st x Ho Hwf ltac:(done) Hx) as (s2 & E2 & Hz).
    split; [exact E1|]. by exists s2.
Qed.

(** ** Instances *)

Module Vectors.

(** V1 and V2 hold small lanes. *)
Definition registers : A64State :=
  fst (set_vector 2 0x0000_0001_0000_0002_0000_0003_8000_0000
         (fst (set_vector 1 0x0000_0005_ffff_ffff_0000_0003_0000_0001 A64State_default))).

Lemma sample_state_wf : state_wf registers.
Proof.
  destruct (set_vector_spec A64State_default 1 0x0000_0005_ffff_ffff_0000_0003_0000_0001 ltac:(lia) default_wf ltac:(by split))
    as (s1 & E1 & F1 & _).
  destruct (set_vector_spec s1 2 0x0000_0001_0000_0002_0000_0003_8000_0000 ltac:(lia) (vector_wf _ _ _ F1) ltac:(by split))
    as (s2 & E2 & F2 & _).
  unfold registers. rewrite E1. cbn [fst]. rewrite E2. apply (vector_wf _ _ _ F2).
Qed.

(** [add v0.4s, v1.4s, v2.4s]. *)
Definition add_operands : Operands :=
  Eval vm_compute in
    match operands_of 0x31 0x4ea2_8420 as r return match r with Ok _ => Operands | _ => unit end with
    | Ok o => o | _ => tt end.

Lemma add_fields : fields_ok add_operands.
Proof. by split. Qed.
End Vectors.
Import Vectors.

Lemma integer_lanes_witness :
  writes_lanes add_operands registers (integer_add_sub add_operands) (fun i r =>
    r = (lane_at 32 0x0000_0005_ffff_ffff_0000_0003_0000_0001 i + lane_at 32 0x0000_0001_0000_0002_0000_0003_8000_0000 i) mod 2 ^ 32).
Proof.
  exact (proj1 (integer_lanes add_operands registers _ _ add_fields sample_state_wf eq_refl eq_refl)).
Defined.

Lemma permutations_undone_witness :
  permute_result 32 128 UnzipPrimary
    (permute_result 32 128 ZipPrimary 0x4444_4444_3333_3333_2222_2222_1111_1111 0x8888_8888_7777_7777_6666_6666_5555_5555)
    (permute_result 32 128 ZipSecondary 0x4444_4444_3333_3333_2222_2222_1111_1111 0x8888_8888_7777_7777_6666_6666_5555_5555) =
  0x4444_4444_3333_3333_2222_2222_1111_1111.
Proof.
  exact (proj1 (proj1 (permutations_undone 32 128 ltac:(split; auto) ltac:(lia) 0x4444_4444_3333_3333_2222_2222_1111_1111
    0x8888_8888_7777_7777_6666_6666_5555_5555 ltac:(by split) ltac:(by split)))).
Defined.

(** [add v0.4s, v1.4s, v2.4s] by its catalog entry. *)
Lemma provider_precise_witness :
  exists st', A64FpSimd.execute true (IntegerArithmetic add_operands) registers = (st', Ok tt) /\
    fp_framed add_operands registers st'.
Proof.
  assert (match A64FpSimd.execute true (IntegerArithmetic add_operands) registers with
          | (_, Ok _) => true | _ => false end = true) as Hok by (by vm_compute).
  pose proof (fun H => provider_precise true (pattern "simd-integer"%string 0x9f20_fc00 0x0e20_8400 0x0000_0031 58 []) 0x4ea2_8420
    (IntegerArithmetic add_operands) registers H (conj eq_refl eq_refl) eq_refl eq_refl sample_state_wf) as Hp.
  destruct (A64FpSimd.execute true (IntegerArithmetic add_operands) registers) as [st' [[]|e|]]; [|discriminate Hok..].
  exists st'. split; [reflexivity|]. apply Hp.
  by apply (patterns_member 56%nat).
Defined.
