(* ===== verification/GuestAddress.v ===== *)
(** * Guest addresses, identities, generations and access metadata

    [crates/memory/src/lib.rs] (address arithmetic, page and store identities,
    generations) and [crates/memory/src/access.rs] (permissions and device
    access declarations).  Addresses and identities are transparent [u64]
    wrappers in the source and [Z] here. *)

From Stdlib Require Import ZArith Lia Bool.
From stdpp Require Import base numbers option.
From S2P Require Import Prelude RustInt.

Abbreviation GuestVirtualAddress := Z (only parsing).
Abbreviation AddressSpaceId := Z (only parsing).
Abbreviation GuestPhysicalPageId := Z (only parsing).
Abbreviation BackingStoreId := Z (only parsing).

(** ** Address arithmetic *)

Module Address.
Definition MIN : GuestVirtualAddress := 0.
Definition MAX : GuestVirtualAddress := 2 ^ 64 - 1.

Definition checked_add (address : GuestVirtualAddress) (byte_offset : Z) :
    option GuestVirtualAddress := RustInt.checked_add 64 address byte_offset.

Definition checked_sub (address : GuestVirtualAddress) (byte_offset : Z) :
    option GuestVirtualAddress :=
  if byte_offset <=? address then Some (address - byte_offset) else None.

(** [checked_add_signed]: the displacement is a signed value. *)
Definition checked_offset (address : GuestVirtualAddress) (byte_displacement : Z) :
    option GuestVirtualAddress :=
  let sum := address + byte_displacement in
  if (0 <=? sum) && (sum <? 2 ^ 64) then Some sum else None.

Definition wrapping_add (address : GuestVirtualAddress) (byte_offset : Z) : GuestVirtualAddress :=
  RustInt.wrapping_add 64 address byte_offset.

Definition wrapping_offset (address : GuestVirtualAddress) (byte_displacement : Z) :
    GuestVirtualAddress := RustInt.wrapping_add 64 address byte_displacement.

Definition is_aligned_to (address : GuestVirtualAddress) (alignment : Z) : bool :=
  is_power_of_two alignment && (Z.land address (alignment - 1) =? 0).
End Address.

(** ** Identities *)

(** [fetch_update] of [NEXT_BACKING_STORE_ID]: the identity is the value before
    the increment, and the counter never wraps. *)
Inductive BackingIdentityExhausted : Set := BackingIdentityExhaustedError.

Definition BackingStoreId_allocate : M Z BackingIdentityExhausted BackingStoreId :=
  fun next => match RustInt.checked_add 64 next 1 with
              | Some next' => (next', Ok next)
              | None => (next, Err BackingIdentityExhaustedError)
              end.

Record CanonicalPageId : Set := { page_store : BackingStoreId; page_page : GuestPhysicalPageId }.

Inductive GenerationKind : Set := ContentKind | MappingKind.
Record GenerationExhausted : Set := { exhausted_kind : GenerationKind }.

Module ContentGeneration.
Definition INITIAL : Z := 0.
Definition MAX : Z := 2 ^ 64 - 1.
Definition next (generation : Z) : res GenerationExhausted Z :=
  match RustInt.checked_add 64 generation 1 with
  | Some value => Ok value
  | None => Err {| exhausted_kind := ContentKind |}
  end.
End ContentGeneration.

Module MappingGeneration.
Definition INITIAL : Z := 0.
Definition MAX : Z := 2 ^ 64 - 1.
Definition next (generation : Z) : res GenerationExhausted Z :=
  match RustInt.checked_add 64 generation 1 with
  | Some value => Ok value
  | None => Err {| exhausted_kind := MappingKind |}
  end.
End MappingGeneration.

(** ** Permissions *)

Module MemoryPermissions.
Definition NONE : Z := 0.
Definition READ : Z := 1.
Definition WRITE : Z := 2.
Definition EXECUTE : Z := 4.
Definition READ_WRITE : Z := Z.lor READ WRITE.
Definition READ_EXECUTE : Z := Z.lor READ EXECUTE.
Definition READ_WRITE_EXECUTE : Z := Z.lor (Z.lor READ WRITE) EXECUTE.

Definition from_bits (bits : Z) : option Z :=
  if Z.land bits (not_w 8 READ_WRITE_EXECUTE) =? 0 then Some bits else None.

Definition contains (permissions permission : Z) : bool :=
  Z.land permissions permission =? permission.
End MemoryPermissions.

(** ** Device accesses *)

Module DeviceAccess.
Inductive DeviceAccessKind : Set := Read | Write | ReadWrite.

Definition reads (kind : DeviceAccessKind) : bool :=
  match kind with Read | ReadWrite => true | Write => false end.
Definition writes (kind : DeviceAccessKind) : bool :=
  match kind with Write | ReadWrite => true | Read => false end.

Record DeviceAccessDeclaration : Set := {
  device : Z;
  kind : DeviceAccessKind;
  device_visible_at : Z;
  cpu_visible_at : option Z }.

Inductive DeviceAccessDeclarationError : Set := DeclarationError.

Definition new (device : Z) (kind : DeviceAccessKind) (device_visible_at : Z)
    (cpu_visible_at : option Z) : res DeviceAccessDeclarationError DeviceAccessDeclaration :=
  let reversed := match cpu_visible_at with
                  | Some point => point <? device_visible_at
                  | None => false
                  end in
  if negb (Bool.eqb (writes kind) (bool_decide (is_Some cpu_visible_at))) || reversed
  then Err DeclarationError
  else Ok {| device := device; kind := kind; device_visible_at := device_visible_at;
             cpu_visible_at := cpu_visible_at |}.

Definition read (device visible_at : Z) : DeviceAccessDeclaration :=
  {| device := device; kind := Read; device_visible_at := visible_at; cpu_visible_at := None |}.

Definition write (device device_visible_at cpu_visible_at : Z) :
    res DeviceAccessDeclarationError DeviceAccessDeclaration :=
  new device Write device_visible_at (Some cpu_visible_at).

Definition read_write (device read_visible_at write_visible_at : Z) :
    res DeviceAccessDeclarationError DeviceAccessDeclaration :=
  new device ReadWrite read_visible_at (Some write_visible_at).

(** What a declaration promises: output points exist exactly for writers and
    are not before the input point. *)
Definition declaration_wf (d : DeviceAccessDeclaration) : Prop :=
  match cpu_visible_at d with
  | Some point => writes (kind d) = true /\ device_visible_at d <= point
  | None => writes (kind d) = false
  end.

Lemma new_decides dev k at_ cpu :
  (exists d, new dev k at_ cpu = Ok d /\ declaration_wf d /\ device d = dev /\ kind d = k /\
             device_visible_at d = at_ /\ cpu_visible_at d = cpu) \/
  (new dev k at_ cpu = Err DeclarationError /\
   ~ declaration_wf {| device := dev; kind := k; device_visible_at := at_; cpu_visible_at := cpu |}).
Proof.
  unfold new, declaration_wf; simpl. destruct cpu as [point|]; simpl.
  - destruct (Z.ltb_spec point at_); destruct k; simpl; (right; split; [done|]; intros [? ?]; done || lia)
      || (left; eexists; split; [done|]; simpl; repeat split; done || lia).
  - destruct k; simpl; (right; split; [done|]; done)
      || (left; eexists; split; [done|]; simpl; repeat split; done).
Qed.
End DeviceAccess.

(** ** Facts *)

#[export] Instance CanonicalPageId_eq_dec : EqDecision CanonicalPageId.
Proof. solve_decision. Defined.

Lemma checked_add_some w x y r : RustInt.checked_add w x y = Some r <-> r = x + y /\ x + y < 2 ^ w.
Proof. unfold RustInt.checked_add. destruct (Z.ltb_spec (x + y) (2 ^ w)); naive_solver lia. Qed.

Lemma checked_add_none w x y : RustInt.checked_add w x y = None <-> 2 ^ w <= x + y.
Proof. unfold RustInt.checked_add. destruct (Z.ltb_spec (x + y) (2 ^ w)); naive_solver lia. Qed.

(** Alignment to a power of two is divisibility. *)
Lemma is_aligned_to_spec a n : 0 <= n -> Address.is_aligned_to a (2 ^ n) = (a mod 2 ^ n =? 0).
Proof.
  intros Hn. unfold Address.is_aligned_to, is_power_of_two.
  pose proof (pow2_pos n Hn). destruct (Z.ltb_spec 0 (2 ^ n)); [|lia]. simpl.
  replace (2 ^ n - 1) with (Z.ones n) by (rewrite Z.ones_equiv; lia).
  rewrite !Z.land_ones by done. by rewrite Z.mod_same by lia.
Qed.

Lemma contains_testbit p n :
  0 <= n -> MemoryPermissions.contains p (2 ^ n) = Z.testbit p n.
Proof.
  intros Hn. unfold MemoryPermissions.contains. destruct (Z.testbit p n) eqn:E.
  - apply Z.eqb_eq. apply Z.bits_inj'. intros i Hi. rewrite Z.land_spec, Z.pow2_bits_eqb by done.
    destruct (Z.eqb_spec n i) as [->|]; [by rewrite E|by rewrite andb_false_r].
  - apply Z.eqb_neq. intros H%(f_equal (fun x => Z.testbit x n)).
    rewrite Z.land_spec, E, Z.pow2_bits_true in H by done. done.
Qed.

(** Identities are handed out once: a successful allocation returns the counter
    and moves past it. *)
Lemma BackingStoreId_allocate_spec next :
  BackingStoreId_allocate next =
    if next <? 2 ^ 64 - 1 then (next + 1, Ok next) else (next, Err BackingIdentityExhaustedError).
Proof.
  unfold BackingStoreId_allocate, RustInt.checked_add.
  destruct (Z.ltb_spec (next + 1) (2 ^ 64)), (Z.ltb_spec next (2 ^ 64 - 1)); done || lia.
Qed.
