(* ===== verification/Invalidation.v ===== *)
(** * The memory invalidation stream: [crates/memory/src/invalidation.rs]

    A bounded ring of the last [MEMORY_INVALIDATION_CAPACITY] changes, with a
    cursor that names each change.  A reservation holds the ring's lock until it
    is committed or dropped, so a reservation is a value and a commit one step.

    The specification is the unbounded history of changes ([represents]): a
    reader gets exactly the changes after its cursor, or is told that some of
    them are gone. *)

From Stdlib Require Import ZArith Lia Bool String.
From stdpp Require Import base numbers list option strings pretty.
From S2P Require Import Prelude RustInt GuestAddress.
Local Open Scope string_scope.
Local Open Scope list_scope.
Local Open Scope Z_scope.

Definition MEMORY_INVALIDATION_CAPACITY : Z := 1024.

Inductive MemoryInvalidationKind : Set :=
  | Mapping (address_space : AddressSpaceId) (start : GuestVirtualAddress) (size : Z)
  | ExecutableContent (first : GuestPhysicalPageId) (second : option GuestPhysicalPageId)
  | InstructionCache (address_space : AddressSpaceId).

Inductive MemoryInvalidationOrigin : Set :=
  | OriginMapping | DeviceWrite | HostWrite | CacheMaintenance | Unknown.

Record MemoryInvalidation : Set := {
  inv_cursor : Z;
  inv_kind : MemoryInvalidationKind;
  inv_origin : MemoryInvalidationOrigin }.

Inductive MemoryInvalidationError : Set :=
  | CursorAhead (requested latest : Z)
  | HistoryLost (requested oldest latest : Z)
  | CursorExhausted
  | ResourceExhausted.

(** [Display]. *)
Definition fmt_invalidation_error (error : MemoryInvalidationError) : string :=
  match error with
  | CursorAhead requested latest =>
      "memory invalidation cursor " +:+ pretty requested +:+ " is newer than latest " +:+ pretty latest
  | HistoryLost requested oldest latest =>
      "memory invalidations after " +:+ pretty requested +:+ " are no longer retained (oldest " +:+
      pretty oldest +:+ ", latest " +:+ pretty latest +:+ ")"
  | CursorExhausted => "memory invalidation cursor is exhausted"
  | ResourceExhausted => "memory invalidation consumer allocation failed"
  end.

(** [latest] and the ring under its lock. *)
Record MemoryInvalidationLog : Set := {
  log_latest : Z;
  log_records : list (option MemoryInvalidation);
  log_count : Z }.

Definition log_default : MemoryInvalidationLog :=
  {| log_latest := 0;
     log_records := replicate (Z.to_nat MEMORY_INVALIDATION_CAPACITY) None;
     log_count := 0 |}.

Definition cursor (log : MemoryInvalidationLog) : Z := log_latest log.

Definition default_origin (kind : MemoryInvalidationKind) : MemoryInvalidationOrigin :=
  match kind with
  | Mapping _ _ _ => OriginMapping
  | InstructionCache _ => CacheMaintenance
  | ExecutableContent _ _ => Unknown
  end.

(** [cursor as usize - 1] underflows at 0. *)
Definition slot {E} (cursor : Z) : res E nat :=
  if cursor <? 1 then Panic else Ok (Z.to_nat ((cursor - 1) mod MEMORY_INVALIDATION_CAPACITY)).

(** ** Publication *)

Definition reserve_with_origin (log : MemoryInvalidationLog) (kind : MemoryInvalidationKind)
    (origin : MemoryInvalidationOrigin) : res MemoryInvalidationError MemoryInvalidation :=
  match checked_add 64 (cursor log) 1 with
  | Some cursor => Ok {| inv_cursor := cursor; inv_kind := kind; inv_origin := origin |}
  | None => Err CursorExhausted
  end.

Definition reserve (log : MemoryInvalidationLog) (kind : MemoryInvalidationKind) :
    res MemoryInvalidationError MemoryInvalidation :=
  reserve_with_origin log kind (default_origin kind).

(** [ring.records[slot(cursor)] = Some(record)] and the saturating count. *)
Definition store_record (record : MemoryInvalidation) : M MemoryInvalidationLog Empty_set unit :=
  slot ← lift (slot (inv_cursor record));
  log ← gets id;
  if bool_decide (slot < List.length (log_records log))%nat
  then modify (fun log =>
    {| log_latest := log_latest log;
       log_records := <[slot := Some record]> (log_records log);
       log_count := Z.min (log_count log + 1) MEMORY_INVALIDATION_CAPACITY |})
  else lift Panic.

Definition store_latest (value : Z) : M MemoryInvalidationLog Empty_set Z :=
  _ ← modify (fun log => {| log_latest := value; log_records := log_records log;
                            log_count := log_count log |});
  mret value.

Definition commit (record : MemoryInvalidation) : M MemoryInvalidationLog Empty_set Z :=
  _ ← store_record record; store_latest (inv_cursor record).

Record BatchReservation : Set := {
  batch_kinds : list MemoryInvalidationKind;
  batch_first : Z;
  batch_origin : option MemoryInvalidationOrigin }.

Definition reserve_many_with_origin (log : MemoryInvalidationLog)
    (kinds : list MemoryInvalidationKind) (origin : option MemoryInvalidationOrigin) :
    res MemoryInvalidationError BatchReservation :=
  let count := Z.of_nat (List.length kinds) in
  if 2 ^ 64 <=? count then Err CursorExhausted
  else match checked_add 64 (cursor log) 1 with
       | None => Err CursorExhausted
       | Some first =>
           match checked_add 64 first (Z.max 0 (count - 1)) with
           | None => Err CursorExhausted
           | Some _ => Ok {| batch_kinds := kinds; batch_first := first; batch_origin := origin |}
           end
       end.

Definition reserve_many (log : MemoryInvalidationLog) (kinds : list MemoryInvalidationKind) :
    res MemoryInvalidationError BatchReservation := reserve_many_with_origin log kinds None.

Definition reserve_many_from (log : MemoryInvalidationLog) (kinds : list MemoryInvalidationKind)
    (origin : MemoryInvalidationOrigin) : res MemoryInvalidationError BatchReservation :=
  reserve_many_with_origin log kinds (Some origin).

(** The records a batch writes, in order. *)
Fixpoint batch_records (value : Z) (kinds : list MemoryInvalidationKind)
    (origin : option MemoryInvalidationOrigin) : list MemoryInvalidation :=
  match kinds with
  | [] => []
  | kind :: kinds =>
      {| inv_cursor := value; inv_kind := kind;
         inv_origin := from_option id (default_origin kind) origin |}
        :: batch_records (value + 1) kinds origin
  end.

Fixpoint store_records (records : list MemoryInvalidation) : M MemoryInvalidationLog Empty_set unit :=
  match records with
  | [] => mret tt
  | record :: records => _ ← store_record record; store_records records
  end.

Definition commit_many (batch : BatchReservation) : M MemoryInvalidationLog Empty_set Z :=
  match batch_kinds batch with
  | [] => gets cursor
  | kinds =>
      _ ← store_records (batch_records (batch_first batch) kinds (batch_origin batch));
      store_latest (batch_first batch + Z.of_nat (List.length kinds) - 1)
  end.

(** ** Consumption *)

(** One pass of the loop over retained cursors: [expect] and [debug_assert_eq!]. *)
Definition retained_record (log : MemoryInvalidationLog) (value : Z) :
    res MemoryInvalidationError MemoryInvalidation :=
  slot ← slot value;
  match log_records log !! slot with
  | Some (Some record) => if inv_cursor record =? value then Ok record else Panic
  | _ => Panic
  end.

Fixpoint push_retained (log : MemoryInvalidationLog) (values : list Z) :
    M (list MemoryInvalidation) MemoryInvalidationError unit :=
  match values with
  | [] => mret tt
  | value :: values =>
      record ← lift (retained_record log value);
      _ ← modify (fun output => output ++ [record]);
      push_retained log values
  end.

(** [can_reserve n] tells whether the output can be grown by [n] records. *)
Definition read_since (can_reserve : Z -> bool) (log : MemoryInvalidationLog) (after : Z) :
    M (list MemoryInvalidation) MemoryInvalidationError Z :=
  let latest := cursor log in
  if latest <? after then throw (CursorAhead after latest)
  else if after =? latest then mret latest
  else
    let retained := Z.max 0 (log_count log - 1) in
    if latest <? retained then lift Panic
    else
      let oldest := latest - retained in
      if Z.min (after + 1) (2 ^ 64 - 1) <? oldest then throw (HistoryLost after oldest latest)
      else if negb (can_reserve (latest - after)) then throw ResourceExhausted
      else _ ← push_retained log (seqZ (after + 1) (latest - after)); mret latest.

(** ** The history a log stands for *)

Record represents (history : list MemoryInvalidation) (log : MemoryInvalidationLog) : Prop := {
  rep_size : Z.of_nat (List.length (log_records log)) = MEMORY_INVALIDATION_CAPACITY;
  rep_latest : log_latest log = Z.of_nat (List.length history);
  rep_bound : Z.of_nat (List.length history) < 2 ^ 64;
  rep_count : log_count log = Z.min MEMORY_INVALIDATION_CAPACITY (Z.of_nat (List.length history));
  rep_cursors : forall i r, history !! i = Some r -> inv_cursor r = Z.of_nat i + 1;
  rep_records : forall i r, history !! i = Some r ->
    Z.of_nat (List.length history) - MEMORY_INVALIDATION_CAPACITY <= Z.of_nat i ->
    log_records log !! Z.to_nat (Z.of_nat i mod MEMORY_INVALIDATION_CAPACITY) = Some (Some r) }.

Lemma capacity_pos : 0 < MEMORY_INVALIDATION_CAPACITY.
Proof. done. Qed.

Lemma default_represents : represents [] log_default.
Proof.
  by split.
Qed.

(** Distinct positions of a window no longer than the ring have distinct slots. *)
Lemma slot_distinct i j :
  0 <= i < j -> j - i < MEMORY_INVALIDATION_CAPACITY ->
  Z.to_nat (i mod MEMORY_INVALIDATION_CAPACITY) <> Z.to_nat (j mod MEMORY_INVALIDATION_CAPACITY).
Proof.
  pose proof capacity_pos as Hc. intros Hij Hd Heq.
  pose proof (Z.mod_pos_bound i _ Hc). pose proof (Z.mod_pos_bound j _ Hc).
  assert (i mod MEMORY_INVALIDATION_CAPACITY = j mod MEMORY_INVALIDATION_CAPACITY) as Hm
    by (apply Z2Nat.inj; tauto).
  pose proof (Z.div_mod i MEMORY_INVALIDATION_CAPACITY ltac:(lia)) as Hi.
  pose proof (Z.div_mod j MEMORY_INVALIDATION_CAPACITY ltac:(lia)) as Hj.
  assert (j - i = MEMORY_INVALIDATION_CAPACITY *
            (j / MEMORY_INVALIDATION_CAPACITY - i / MEMORY_INVALIDATION_CAPACITY)) as Hji by lia.
  destruct (Z.le_gt_cases (j / MEMORY_INVALIDATION_CAPACITY - i / MEMORY_INVALIDATION_CAPACITY) 0); nia.
Qed.

Definition with_latest (value : Z) (log : MemoryInvalidationLog) : MemoryInvalidationLog :=
  {| log_latest := value; log_records := log_records log; log_count := log_count log |}.

(** Storing the next record extends the history by it. *)
Lemma store_record_represents history log latest record :
  represents history (with_latest (Z.of_nat (List.length history)) log) ->
  inv_cursor record = Z.of_nat (List.length history) + 1 ->
  inv_cursor record < 2 ^ 64 ->
  exists log', store_record record (with_latest latest log) = (with_latest latest log', Ok tt) /\
    represents (history ++ [record]) (with_latest (inv_cursor record) log').
Proof.
  intros [Hsize Hlat Hbnd Hcount Hcur Hrec] Hr Hlt. simpl in *. pose proof capacity_pos as Hc.
  unfold store_record. unfold mbind, M_bind at 1, lift at 1, slot at 1.
  destruct (Z.ltb_spec (inv_cursor record) 1); [lia|].
  replace (inv_cursor record - 1) with (Z.of_nat (List.length history)) by lia.
  pose proof (Z.mod_pos_bound (Z.of_nat (List.length history)) _ Hc) as Hm.
  set (s := Z.to_nat (Z.of_nat (List.length history) mod MEMORY_INVALIDATION_CAPACITY)).
  assert (s < List.length (log_records log))%nat as Hs by lia.
  unfold M_bind, gets, id. simpl. rewrite bool_decide_true by done.
  exists {| log_latest := 0; log_records := <[s:=Some record]> (log_records log);
            log_count := Z.min (log_count log + 1) MEMORY_INVALIDATION_CAPACITY |}.
  split; [done|]. split; simpl.
  - by rewrite length_insert.
  - rewrite length_app; simpl; lia.
  - rewrite length_app; simpl; lia.
  - rewrite length_app; simpl; lia.
  - intros i r Hi. apply lookup_snoc_Some in Hi as [[_ Hi]|[-> <-]]; [by apply Hcur|lia].
  - intros i r Hi Hw. rewrite length_app in Hw; simpl in Hw.
    apply lookup_snoc_Some in Hi as [[Hl Hi]|[-> <-]]; [|by rewrite list_lookup_insert_eq].
    rewrite list_lookup_insert_ne; [apply Hrec; [done|lia]|].
    apply not_eq_sym, slot_distinct; lia.
Qed.

Lemma store_latest_represents history log latest value :
  represents history (with_latest value log) ->
  store_latest value (with_latest latest log) = (with_latest value log, Ok value).
Proof. done. Qed.

Lemma with_latest_id log : with_latest (log_latest log) log = log.
Proof. by destruct log. Qed.

Lemma represents_with_latest history log :
  represents history log -> represents history (with_latest (Z.of_nat (List.length history)) log).
Proof. intros H. rewrite <- (rep_latest _ _ H). by rewrite with_latest_id. Qed.

Lemma reserve_with_origin_cases history log kind origin :
  represents history log ->
  reserve_with_origin log kind origin =
    if Z.of_nat (List.length history) + 1 <? 2 ^ 64
    then Ok {| inv_cursor := Z.of_nat (List.length history) + 1; inv_kind := kind; inv_origin := origin |}
    else Err CursorExhausted.
Proof.
  intros H. unfold reserve_with_origin, cursor, checked_add. rewrite (rep_latest _ _ H).
  by destruct (Z.ltb_spec (Z.of_nat (List.length history) + 1) (2 ^ 64)).
Qed.

Lemma commit_represents history log record :
  represents history log -> inv_cursor record = Z.of_nat (List.length history) + 1 ->
  inv_cursor record < 2 ^ 64 ->
  exists log', commit record log = (log', Ok (inv_cursor record)) /\
    represents (history ++ [record]) log'.
Proof.
  intros H Hr Hlt.
  destruct (store_record_represents history log (log_latest log) record
              (represents_with_latest _ _ H) Hr Hlt) as (log' & Hs & Hrep).
  rewrite with_latest_id in Hs. exists (with_latest (inv_cursor record) log').
  split; [|done]. unfold commit. by rewrite (M_bind_ok _ _ _ _ _ Hs).
Qed.

Lemma batch_records_length value kinds origin : List.length (batch_records value kinds origin) = List.length kinds.
Proof. revert value. induction kinds; intros; simpl; auto. Qed.

(** Every record of a batch names its own position. *)
Lemma batch_records_cursor value kinds origin i r :
  batch_records value kinds origin !! i = Some r -> inv_cursor r = value + Z.of_nat i.
Proof.
  revert value i. induction kinds as [|k kinds IH]; intros value [|i]; simpl; [done..| |].
  - intros [= <-]. simpl. lia.
  - intros H%IH. lia.
Qed.

Lemma store_records_represents records : forall history log latest,
  represents history (with_latest (Z.of_nat (List.length history)) log) ->
  (forall i r, records !! i = Some r -> inv_cursor r = Z.of_nat (List.length history) + 1 + Z.of_nat i) ->
  Z.of_nat (List.length history + List.length records) < 2 ^ 64 ->
  exists log', store_records records (with_latest latest log) = (with_latest latest log', Ok tt) /\
    represents (history ++ records)
      (with_latest (Z.of_nat (List.length history + List.length records)) log').
Proof.
  induction records as [|record records IH]; intros history log latest H Hcur Hlt.
  { exists log. rewrite app_nil_r, Nat.add_0_r. done. }
  simpl in Hlt. pose proof (Hcur 0%nat record eq_refl) as H0.
  destruct (store_record_represents history log latest record H) as (log1 & Hs & H1); [lia..|].
  destruct (IH (history ++ [record]) log1 latest) as (log2 & Hs2 & H2).
  - rewrite length_app; simpl. replace (Z.of_nat (List.length history + 1)) with (inv_cursor record) by lia. done.
  - intros i r Hi. rewrite length_app; simpl. rewrite (Hcur (S i) r Hi). lia.
  - rewrite length_app; simpl. lia.
  - exists log2. split; [simpl; by rewrite (M_bind_ok _ _ _ _ _ Hs)|].
    rewrite <- app_assoc, length_app in H2. simpl in *.
    by replace (List.length history + 1 + List.length records)%nat with (List.length history + S (List.length records))%nat
      in H2 by lia.
Qed.

Lemma reserve_many_cases history log kinds origin :
  represents history log ->
  reserve_many_with_origin log kinds origin =
    if Z.of_nat (List.length history) + Z.max 1 (Z.of_nat (List.length kinds)) <? 2 ^ 64
    then Ok {| batch_kinds := kinds; batch_first := Z.of_nat (List.length history) + 1;
               batch_origin := origin |}
    else Err CursorExhausted.
Proof.
  intros H. unfold reserve_many_with_origin, cursor, checked_add. rewrite (rep_latest _ _ H).
  destruct (Z.ltb_spec (Z.of_nat (List.length history) + Z.max 1 (Z.of_nat (List.length kinds))) (2 ^ 64)) as [Hl|Hl].
  - destruct (Z.leb_spec (2 ^ 64) (Z.of_nat (List.length kinds))); [lia|].
    destruct (Z.ltb_spec (Z.of_nat (List.length history) + 1) (2 ^ 64)); [|lia].
    destruct (Z.ltb_spec (Z.of_nat (List.length history) + 1 + Z.max 0 (Z.of_nat (List.length kinds) - 1)) (2 ^ 64));
      [done|lia].
  - destruct (Z.leb_spec (2 ^ 64) (Z.of_nat (List.length kinds))); [done|].
    destruct (Z.ltb_spec (Z.of_nat (List.length history) + 1) (2 ^ 64)); [|done].
    destruct (Z.ltb_spec (Z.of_nat (List.length history) + 1 + Z.max 0 (Z.of_nat (List.length kinds) - 1)) (2 ^ 64));
      [lia|done].
Qed.

Lemma commit_many_represents history log batch :
  represents history log ->
  batch_first batch = Z.of_nat (List.length history) + 1 ->
  Z.of_nat (List.length history + List.length (batch_kinds batch)) < 2 ^ 64 ->
  exists log', commit_many batch log =
      (log', Ok (Z.of_nat (List.length history + List.length (batch_kinds batch)))) /\
    represents (history ++ batch_records (batch_first batch) (batch_kinds batch) (batch_origin batch)) log'.
Proof.
  intros H Hf Hlt. unfold commit_many. destruct (batch_kinds batch) as [|k ks] eqn:Ek.
  { exists log. rewrite app_nil_r, Nat.add_0_r. split; [|done].
    unfold gets, cursor. by rewrite (rep_latest _ _ H). }
  set (records := batch_records (batch_first batch) (k :: ks) (batch_origin batch)).
  assert (List.length records = List.length (k :: ks)) as Hl by apply batch_records_length.
  destruct (store_records_represents records history log (log_latest log)) as (log' & Hs & Hr).
  - by apply represents_with_latest.
  - intros i r Hi. rewrite <- Hf. by eapply batch_records_cursor.
  - by rewrite Hl.
  - rewrite with_latest_id, Hl in *.
    exists (with_latest (Z.of_nat (List.length history + List.length (k :: ks))) log'). split; [|done].
    rewrite (M_bind_ok _ _ _ _ _ Hs). unfold store_latest, mbind, M_bind, modify.
    replace (batch_first batch + Z.of_nat (List.length (k :: ks)) - 1)
      with (Z.of_nat (List.length history + List.length (k :: ks))) by lia. done.
Qed.

(** ** Reading *)

Lemma retained_record_spec history log i r :
  represents history log -> history !! i = Some r ->
  Z.of_nat (List.length history) - MEMORY_INVALIDATION_CAPACITY <= Z.of_nat i ->
  retained_record log (Z.of_nat i + 1) = Ok r.
Proof.
  intros H Hi Hw. unfold retained_record, slot.
  destruct (Z.ltb_spec (Z.of_nat i + 1) 1); [lia|]. simpl.
  replace (Z.of_nat i + 1 - 1) with (Z.of_nat i) by lia.
  rewrite (rep_records _ _ H i r Hi Hw), (rep_cursors _ _ H i r Hi), Z.eqb_refl. done.
Qed.

Lemma push_retained_spec history log : represents history log ->
  forall n after output, (n + after = List.length history)%nat ->
  Z.of_nat (List.length history) - MEMORY_INVALIDATION_CAPACITY <= Z.of_nat after ->
  push_retained log (seqZ (Z.of_nat after + 1) (Z.of_nat n)) output =
    (output ++ drop after history, Ok tt).
Proof.
  intros H. induction n as [|n IH]; intros after output Hn Hw.
  - simpl. rewrite drop_ge by lia. by rewrite app_nil_r.
  - rewrite seqZ_cons by lia.
    destruct (lookup_lt_is_Some_2 history after) as [r Hr]; [lia|].
    cbn [push_retained]. unfold mbind at 1, M_bind at 1, lift at 1.
    rewrite (retained_record_spec history log after r H Hr Hw).
    rewrite (M_bind_ok _ _ _ (output ++ [r]) tt eq_refl).
    replace (Z.succ (Z.of_nat after + 1)) with (Z.of_nat (S after) + 1) by lia.
    replace (Z.pred (Z.of_nat (S n))) with (Z.of_nat n) by lia.
    rewrite IH by lia. rewrite (drop_S history r after) by done.
    by rewrite <- app_assoc.
Qed.

(** The oldest position a log of [n] changes still holds. *)
Definition oldest_retained (n : Z) : Z := n - Z.max 0 (Z.min MEMORY_INVALIDATION_CAPACITY n - 1).

Lemma read_since_spec can_reserve history log after output :
  represents history log -> fits 64 after ->
  read_since can_reserve log after output =
    let n := Z.of_nat (List.length history) in
    if n <? after then (output, Err (CursorAhead after n))
    else if after =? n then (output, Ok n)
    else if after + MEMORY_INVALIDATION_CAPACITY <? n
    then (output, Err (HistoryLost after (oldest_retained n) n))
    else if can_reserve (n - after) then (output ++ drop (Z.to_nat after) history, Ok n)
    else (output, Err ResourceExhausted).
Proof.
  intros H [Ha _]. unfold read_since, cursor. rewrite (rep_latest _ _ H), (rep_count _ _ H).
  pose proof capacity_pos as Hc. pose proof (rep_bound _ _ H) as Hb.
  set (n := Z.of_nat (List.length history)) in *. cbv zeta.
  destruct (Z.ltb_spec n after); [done|]. destruct (Z.eqb_spec after n); [done|].
  fold (oldest_retained n). unfold oldest_retained.
  destruct (Z.ltb_spec n (Z.max 0 (Z.min MEMORY_INVALIDATION_CAPACITY n - 1))); [lia|].
  destruct (Z.ltb_spec (Z.min (after + 1) (2 ^ 64 - 1))
              (n - Z.max 0 (Z.min MEMORY_INVALIDATION_CAPACITY n - 1))),
           (Z.ltb_spec (after + MEMORY_INVALIDATION_CAPACITY) n); try lia; [done|].
  destruct (can_reserve (n - after)); [|done]. change (negb true) with false. cbv iota.
  pose proof (push_retained_spec history log H (Z.to_nat (n - after)) (Z.to_nat after) output) as Hp.
  rewrite !Z2Nat.id in Hp by lia. rewrite (M_bind_ok _ _ _ _ _ (Hp ltac:(lia) ltac:(lia))). done.
Qed.

(** ** Properties *)

(** A change with its origin, before it is numbered. *)
Definition unnumbered : Set := MemoryInvalidationKind * MemoryInvalidationOrigin.

(** What the backends publish: one change, or a batch of them. *)
Inductive publication : Set :=
  | PublishOne (kind : MemoryInvalidationKind) (origin : MemoryInvalidationOrigin)
  | PublishMany (kinds : list MemoryInvalidationKind) (origin : option MemoryInvalidationOrigin).

(** A reservation and its commit; a rejected reservation leaves the log. *)
Definition publish_with {A} (log : MemoryInvalidationLog) (reserved : res MemoryInvalidationError A)
    (commit : A -> M MemoryInvalidationLog Empty_set Z) : MemoryInvalidationLog * res MemoryInvalidationError Z :=
  match reserved with
  | Ok a => let '(log, r) := commit a log in (log, match r with Ok value => Ok value | _ => Panic end)
  | Err e => (log, Err e)
  | Panic => (log, Panic)
  end.

Definition publish (log : MemoryInvalidationLog) (p : publication) : MemoryInvalidationLog * res MemoryInvalidationError Z :=
  match p with
  | PublishOne kind origin => publish_with log (reserve_with_origin log kind origin) commit
  | PublishMany kinds origin => publish_with log (reserve_many_with_origin log kinds origin) commit_many
  end.

(** The specification: the changes of a publication are appended to the
    history, numbered consecutively, as long as every number fits 64 bits (a
    batch needs room for one number even when it is empty). *)
Definition changes (p : publication) : list unnumbered :=
  match p with
  | PublishOne kind origin => [(kind, origin)]
  | PublishMany kinds origin => map (fun kind => (kind, default (default_origin kind) origin)) kinds
  end.

Definition numbered (first : Z) (l : list unnumbered) : list MemoryInvalidation :=
  imap (fun i c => {| inv_cursor := first + Z.of_nat i; inv_kind := fst c; inv_origin := snd c |}) l.

Definition publishable (history : list MemoryInvalidation) (p : publication) : bool :=
  Z.of_nat (List.length history) + Z.max 1 (Z.of_nat (List.length (changes p))) <? 2 ^ 64.

Definition append_changes (history : list MemoryInvalidation) (p : publication) : list MemoryInvalidation :=
  if publishable history p
  then history ++ numbered (Z.of_nat (List.length history) + 1) (changes p) else history.

Lemma batch_records_numbered value kinds origin :
  batch_records value kinds origin = numbered value (changes (PublishMany kinds origin)).
Proof.
  revert value. induction kinds as [|k kinds IH]; intros value; [done|]. unfold numbered in *. simpl in *.
  rewrite IH, Z.add_0_r. f_equal. apply imap_ext. intros i c _. simpl. f_equal. lia.
Qed.

Lemma publish_appends history log p :
  represents history log ->
  represents (append_changes history p) (fst (publish log p)) /\
  snd (publish log p) =
    if publishable history p then Ok (Z.of_nat (List.length (append_changes history p))) else Err CursorExhausted.
Proof.
  intros H. unfold append_changes. destruct p as [kind origin|kinds origin]; cbn [publish].
  - rewrite (reserve_with_origin_cases _ _ _ _ H). unfold publishable. cbn [changes List.length].
    change (Z.max 1 (Z.of_nat 1)) with 1. destruct (Z.ltb_spec (Z.of_nat (List.length history) + 1) (2 ^ 64)); [|done].
    destruct (commit_represents history log {| inv_cursor := Z.of_nat (List.length history) + 1;
      inv_kind := kind; inv_origin := origin |} H eq_refl) as (log' & Hc & Hr); [done|].
    unfold publish_with. rewrite Hc. unfold numbered. simpl. rewrite Z.add_0_r. split; [done|].
    rewrite length_app. simpl. f_equal. lia.
  - rewrite (reserve_many_cases _ _ _ _ H). unfold publishable. cbn [changes]. rewrite !length_map.
    destruct (Z.ltb_spec (Z.of_nat (List.length history) + Z.max 1 (Z.of_nat (List.length kinds))) (2 ^ 64)); [|done].
    destruct (commit_many_represents history log {| batch_kinds := kinds;
      batch_first := Z.of_nat (List.length history) + 1; batch_origin := origin |} H eq_refl) as (log' & Hc & Hr);
      [simpl; lia|]. unfold publish_with. rewrite Hc. simpl in Hr. rewrite batch_records_numbered in Hr.
    split; [done|]. simpl. rewrite length_app. unfold numbered. rewrite length_imap, length_map. done.
Qed.

Lemma publish_all_represents ps : forall history log, represents history log ->
  represents (foldl append_changes history ps) (foldl (fun log p => fst (publish log p)) log ps).
Proof. induction ps as [|p ps IH]; intros history log H; [done|]. cbn. by apply IH, publish_appends. Qed.

(** C28: the invalidation ring refines the unbounded history.  Whatever changes
    are published to a new log, singly or in batches of any size, each
    publication appends its changes to the history, numbered consecutively, and
    returns the number of the last change, or is rejected as [CursorExhausted]
    when the numbers would leave 64 bits and then appends nothing.  A reader
    that passes a cursor gets exactly the changes after it, in order and
    appended to its output, except that a cursor from the future is rejected; a
    reader that lags by more than the capacity of 1024 changes is told so; and
    [ResourceExhausted] is returned when its output cannot grow: in these three
    cases nothing is appended.  No index, [expect] or assertion fails. *)
Theorem read_since_complete can_reserve ps p after output :
  fits 64 after ->
  let log := foldl (fun log p => fst (publish log p)) log_default ps in
  let history := foldl append_changes [] ps in
  let n := Z.of_nat (List.length history) in
  snd (publish log p) =
    (if publishable history p then Ok (Z.of_nat (List.length (append_changes history p))) else Err CursorExhausted) /\
  read_since can_reserve log after output =
    (if n <? after then (output, Err (CursorAhead after n))
     else if after + MEMORY_INVALIDATION_CAPACITY <? n
     then (output, Err (HistoryLost after (n - MEMORY_INVALIDATION_CAPACITY + 1) n))
     else if (after =? n) || can_reserve (n - after) then (output ++ drop (Z.to_nat after) history, Ok n)
     else (output, Err ResourceExhausted)).
Proof.
  intros Ha. cbv zeta. pose proof (publish_all_represents ps [] log_default default_represents) as H.
  set (history := foldl append_changes [] ps) in *. split; [by apply publish_appends|].
  rewrite (read_since_spec _ _ _ _ _ H Ha). destruct Ha as [Ha _]. cbv zeta.
  pose proof capacity_pos. set (n := Z.of_nat (List.length history)).
  destruct (Z.ltb_spec n after); [done|].
  destruct (Z.eqb_spec after n) as [->|]; simpl.
  - destruct (Z.ltb_spec (n + MEMORY_INVALIDATION_CAPACITY) n); [lia|]. by rewrite drop_ge, app_nil_r by lia.
  - destruct (Z.ltb_spec (after + MEMORY_INVALIDATION_CAPACITY) n); [|done].
    unfold oldest_retained. do 2 f_equal. f_equal. lia.
Qed.

(** Three changes, the last two of them in a batch; a reader that has seen the
    first gets the others. *)
Lemma read_since_complete_witness :
  let ps := [PublishOne (InstructionCache 7) HostWrite; PublishMany [Mapping 7 4096 8192; ExecutableContent 3 None] None] in
  let log := foldl (fun log p => fst (publish log p)) log_default ps in
  fits 64 1 /\
  read_since (fun _ => true) log 1 [] =
    ([{| inv_cursor := 2; inv_kind := Mapping 7 4096 8192; inv_origin := OriginMapping |};
      {| inv_cursor := 3; inv_kind := ExecutableContent 3 None; inv_origin := Unknown |}], Ok 3).
Proof.
  intros ps log. split; [by split|].
  exact (proj2 (read_since_complete (fun _ => true) ps (PublishOne (InstructionCache 7) HostWrite) 1 []
           (conj Z.le_0_1 eq_refl))).
Defined.

(** Publication.  Reserving fails only when the cursor would leave 64 bits;
    committing a reserved batch appends one record per change, numbered
    consecutively after the history, with the reservation's origin (or the
    default for its kind), publishes the cursor of the last one, and never
    panics, whatever the batch size, also beyond the capacity of the ring. *)
Theorem commit_many_appends history log kinds origin :
  represents history log ->
  match reserve_many_with_origin log kinds origin with
  | Ok batch =>
      exists log', commit_many batch log =
          (log', Ok (Z.of_nat (List.length history + List.length kinds))) /\
        represents (history ++ batch_records (Z.of_nat (List.length history) + 1) kinds origin) log'
  | Err e => e = CursorExhausted /\
      2 ^ 64 <= Z.of_nat (List.length history) + Z.max 1 (Z.of_nat (List.length kinds))
  | Panic => False
  end.
Proof.
  intros H. rewrite (reserve_many_cases _ _ _ _ H).
  destruct (Z.ltb_spec (Z.of_nat (List.length history) + Z.max 1 (Z.of_nat (List.length kinds))) (2 ^ 64));
    [|done].
  apply (commit_many_represents history log {| batch_kinds := kinds; batch_origin := origin |} H);
    simpl; lia.
Qed.

Lemma commit_many_appends_witness :
  let kinds := [InstructionCache 1; ExecutableContent 3 None] in
  represents [] log_default /\
  match reserve_many_with_origin log_default kinds (Some HostWrite) with
  | Ok batch => exists log', commit_many batch log_default = (log', Ok 2) /\
        represents (batch_records 1 kinds (Some HostWrite)) log'
  | _ => False
  end.
Proof.
  split; [apply default_represents|].
  exact (commit_many_appends [] log_default [InstructionCache 1; ExecutableContent 3 None]
           (Some HostWrite) default_represents).
Defined.
