(* ===== verification/MemoryContracts.v ===== *)
(** * CPU memory contracts: [crates/cpu/src/memory/contracts.rs]

    Access descriptions, transferred values and their little-endian form, the
    atomic read-modify-write functions, mapping attributes and purposes, fault
    values, code dependencies, and [crates/cpu/src/exclusive.rs].  Host fences
    order concurrent host threads and have no effect on the sequential state
    modelled here. *)

From Stdlib Require Import ZArith Lia Bool.
From stdpp Require Import base numbers list option strings.
From S2P Require Import Prelude RustInt Bytes GuestAddress A64Semantics.

Definition SYNTHETIC_PAGE_SIZE : Z := 4096.

(** ** Accesses *)

Inductive MemoryAlignment : Set := Unaligned | Natural | Bytes2 | Bytes4 | Bytes8 | Bytes16.

Definition alignment_bytes (self : MemoryAlignment) (size : MemoryAccessSize) : Z :=
  match self with
  | Unaligned => 1
  | Natural => bytes size
  | Bytes2 => 2
  | Bytes4 => 4
  | Bytes8 => 8
  | Bytes16 => 16
  end.

Inductive MemoryAccessClass : Set := Normal | Atomic | Exclusive | Volatile.

Record MemoryAccess : Set := {
  access_size : MemoryAccessSize;
  access_alignment : MemoryAlignment;
  access_ordering : MemoryOrdering;
  access_class : MemoryAccessClass }.

Definition MemoryAccess_new (size : MemoryAccessSize) (alignment : MemoryAlignment)
    (ordering : MemoryOrdering) (class : MemoryAccessClass) : MemoryAccess :=
  {| access_size := size; access_alignment := alignment; access_ordering := ordering;
     access_class := class |}.

Definition MemoryAccess_normal (size : MemoryAccessSize) : MemoryAccess :=
  MemoryAccess_new size Natural Relaxed Normal.

#[export] Instance MemoryAlignment_eq_dec : EqDecision MemoryAlignment.
Proof. solve_decision. Defined.
#[export] Instance MemoryAccessClass_eq_dec : EqDecision MemoryAccessClass.
Proof. solve_decision. Defined.
#[export] Instance MemoryOrdering_eq_dec : EqDecision MemoryOrdering.
Proof. solve_decision. Defined.

(** ** Values *)

Inductive MemoryValue : Set :=
  | U8 (value : Z) | U16 (value : Z) | U32 (value : Z) | U64 (value : Z) | U128 (value : Z).

#[export] Instance MemoryValue_eq_dec : EqDecision MemoryValue.
Proof. solve_decision. Defined.

Definition value_size (self : MemoryValue) : MemoryAccessSize :=
  match self with
  | U8 _ => Byte | U16 _ => Halfword | U32 _ => Word | U64 _ => Doubleword | U128 _ => Quadword
  end.

Definition value_bits (self : MemoryValue) : Z :=
  match self with U8 value | U16 value | U32 value | U64 value | U128 value => value end.

Definition value_from_bits (size : MemoryAccessSize) (bits : Z) : MemoryValue :=
  match size with
  | Byte => U8 (wrap 8 bits)
  | Halfword => U16 (wrap 16 bits)
  | Word => U32 (wrap 32 bits)
  | Doubleword => U64 (wrap 64 bits)
  | Quadword => U128 bits
  end.

(** The slice is copied into a 16-byte buffer of zeros. *)
Definition value_from_le_slice {E} (size : MemoryAccessSize) (bytes : list Z) : res E MemoryValue :=
  if (16 <? length bytes)%nat then Panic
  else
    let bits := from_le_bytes (bytes ++ replicate (16 - length bytes) 0) in
    Ok (match size with
        | Byte => U8 (wrap 8 bits)
        | Halfword => U16 (wrap 16 bits)
        | Word => U32 (wrap 32 bits)
        | Doubleword => U64 (wrap 64 bits)
        | Quadword => U128 bits
        end).

(** The bytes written to a destination of length [n]. *)
Definition value_le_bytes {E} (self : MemoryValue) (n : nat) : res E (list Z) :=
  if (16 <? n)%nat then Panic else Ok (take n (to_le_bytes 16 (value_bits self))).

(** ** Atomic transforms *)

Definition AtomicRmwKind_apply (self : AtomicRmwKind) (current operand : MemoryValue) :
    option MemoryValue :=
  if negb (bool_decide (value_size current = value_size operand)) then None
  else
    let size := value_size current in
    let bits := bytes size * 8 in
    let mask := if bits =? 128 then 2 ^ 128 - 1 else shl_w 128 1 bits - 1 in
    let current_bits := value_bits current in
    let operand_bits := value_bits operand in
    let signed_key value := Z.lxor value (shl_w 128 1 (bits - 1)) in
    let result :=
      match self with
      | Add => Z.land (wrapping_add 128 current_bits operand_bits) mask
      | Clear => Z.land (Z.land current_bits (not_w 128 operand_bits)) mask
      | Xor => Z.lxor current_bits operand_bits
      | Set_ => Z.lor current_bits operand_bits
      | SignedMaximum =>
          if signed_key operand_bits <=? signed_key current_bits then current_bits else operand_bits
      | SignedMinimum =>
          if signed_key current_bits <=? signed_key operand_bits then current_bits else operand_bits
      | UnsignedMaximum => Z.max current_bits operand_bits
      | UnsignedMinimum => Z.min current_bits operand_bits
      | Swap => operand_bits
      end in
    Some (value_from_bits size result).

(** ** Mappings *)

Inductive MemoryRegionKind : Set := Ram | Device.
#[export] Instance MemoryRegionKind_eq_dec : EqDecision MemoryRegionKind.
Proof. solve_decision. Defined.

Inductive MemoryMappingPurpose : Set :=
  | PurposeNormal | CodeStatic | CodeMutable | ModuleCodeStatic | ModuleCodeMutable
  | ThreadLocal | Stack | Heap | SharedMemory.
#[export] Instance MemoryMappingPurpose_eq_dec : EqDecision MemoryMappingPurpose.
Proof. solve_decision. Defined.

Definition is_code (self : MemoryMappingPurpose) : bool :=
  match self with
  | CodeStatic | CodeMutable | ModuleCodeStatic | ModuleCodeMutable => true
  | _ => false
  end.

Definition allows_reprotect (self : MemoryMappingPurpose) : bool :=
  match self with CodeMutable | ModuleCodeMutable | Heap => true | _ => false end.

Definition allows_attribute_change (self : MemoryMappingPurpose) : bool :=
  match self with CodeMutable | ModuleCodeMutable | Heap => true | _ => false end.

Module MemoryAttributes.
Definition NONE : Z := 0.
Definition UNCACHED : Z := Z.shiftl 1 3.
Definition PERMISSION_LOCKED : Z := Z.shiftl 1 4.
Definition KNOWN : Z := Z.lor UNCACHED PERMISSION_LOCKED.

Definition from_bits (bits : Z) : option Z :=
  if Z.land bits (not_w 32 KNOWN) =? 0 then Some bits else None.

Definition contains (self attributes : Z) : bool := Z.land self attributes =? attributes.
End MemoryAttributes.

Record MemoryMappingProperties : Set := {
  prop_permissions : Z;
  prop_purpose : MemoryMappingPurpose;
  prop_attributes : Z }.
#[export] Instance MemoryMappingProperties_eq_dec : EqDecision MemoryMappingProperties.
Proof. solve_decision. Defined.

Record MemoryAliasRequest : Set := {
  alias_address_space : AddressSpaceId;
  alias_destination : GuestVirtualAddress;
  alias_source : GuestVirtualAddress;
  alias_size : Z;
  alias_source_before : MemoryMappingProperties;
  alias_source_after : MemoryMappingProperties;
  alias_destination_properties : MemoryMappingProperties }.

Record MemoryQueryResult : Set := {
  query_base : GuestVirtualAddress;
  query_size : Z;
  query_region : option MemoryRegionKind;
  query_permissions : Z;
  query_attributes : Z;
  query_purpose : MemoryMappingPurpose }.

(** ** Results and faults *)

Record DataReadResult : Set := { read_value : MemoryValue; read_region : MemoryRegionKind }.
Record DataWriteResult : Set := { write_region : MemoryRegionKind }.
Record AtomicMemoryResult : Set := {
  previous : MemoryValue;
  stored : bool;
  atomic_region : MemoryRegionKind }.

Inductive DataAccessKind : Set := KindRead | KindWrite.
#[export] Instance DataAccessKind_eq_dec : EqDecision DataAccessKind.
Proof. solve_decision. Defined.

Inductive DataAccessFaultReason : Set :=
  | Unmapped
  | ReadPermissionDenied
  | WritePermissionDenied
  | Misaligned (required_alignment : Z)
  | AddressOverflow
  | ValueSizeMismatch
  | InvalidAtomicAccess
  | AtomicRegionUnsupported
  | MixedRegions
  | ContentGenerationExhausted
  | HostBacking (detail : string)
  | DeviceFault (detail : string)
  | Injected (detail : string).

Record DataAccessFault : Set := {
  fault_address_space : AddressSpaceId;
  fault_address : GuestVirtualAddress;
  fault_kind : DataAccessKind;
  fault_reason : DataAccessFaultReason }.

Definition DataAccessFault_new (address_space : AddressSpaceId) (address : GuestVirtualAddress)
    (kind : DataAccessKind) (reason : DataAccessFaultReason) : DataAccessFault :=
  {| fault_address_space := address_space; fault_address := address; fault_kind := kind;
     fault_reason := reason |}.

Inductive InstructionFetchFaultReason : Set :=
  | FetchUnmapped | ExecutePermissionDenied | FetchMisaligned | IncompleteCrossPageFetch
  | FetchAddressOverflow | FetchMemory (reason : string).

Record InstructionFetchFault : Set := {
  fetch_address_space : AddressSpaceId;
  fetch_address : GuestVirtualAddress;
  fetch_reason : InstructionFetchFaultReason }.

Definition InstructionFetchFault_new (address_space : AddressSpaceId)
    (address : GuestVirtualAddress) (reason : InstructionFetchFaultReason) : InstructionFetchFault :=
  {| fetch_address_space := address_space; fetch_address := address; fetch_reason := reason |}.

(** Errors of the mapping operations. *)
Inductive MemoryAliasErrorReason : Set :=
  | AliasInvalidRange | SourceStateMismatch | DestinationStateMismatch
  | PhysicalIdentityMismatch | AliasResourceExhausted | AliasGenerationExhausted.
Record MemoryAliasError : Set := {
  alias_error_space : AddressSpaceId;
  alias_error_address : GuestVirtualAddress;
  alias_error_reason : MemoryAliasErrorReason }.

Inductive MemoryMappingErrorReason : Set :=
  | MappingInvalidRange | AlreadyMapped | MappingStateMismatch | MappingWritableExecutable
  | MappingResourceExhausted | MappingGenerationExhausted.
Record MemoryMappingError : Set := {
  mapping_error_space : AddressSpaceId;
  mapping_error_address : GuestVirtualAddress;
  mapping_error_reason : MemoryMappingErrorReason }.

Inductive MemoryProtectionErrorReason : Set :=
  | ProtectionInvalidRange | ProtectionUnmapped | ProtectionWritableExecutable
  | UnsupportedPermissions | PermissionLocked | ProtectionGenerationExhausted.
Record MemoryProtectionError : Set := {
  protection_error_space : AddressSpaceId;
  protection_error_address : GuestVirtualAddress;
  protection_error_reason : MemoryProtectionErrorReason }.

(** ** Code dependencies *)

Record CodePageDependency : Set := {
  dependency_page : GuestPhysicalPageId;
  dependency_generation : Z }.
#[export] Instance CodePageDependency_eq_dec : EqDecision CodePageDependency.
Proof. solve_decision. Defined.

Record CodeDependencies : Set := {
  first_dependency : CodePageDependency;
  second_dependency : option CodePageDependency }.

Definition dependencies_one (first : CodePageDependency) : CodeDependencies :=
  {| first_dependency := first; second_dependency := None |}.

Definition dependencies_iter (self : CodeDependencies) : list CodePageDependency :=
  first_dependency self :: option_list (second_dependency self).

(** The loop of [merge]; a third distinct page fails its assertion. *)
Fixpoint merge_loop {E} (merged : CodeDependencies) (others : list CodePageDependency) :
    res E CodeDependencies :=
  match others with
  | [] => Ok merged
  | dependency :: others =>
      if bool_decide (dependency ∈ dependencies_iter merged) then merge_loop merged others
      else match second_dependency merged with
           | Some _ => Panic
           | None => merge_loop {| first_dependency := first_dependency merged;
                                   second_dependency := Some dependency |} others
           end
  end.

Definition dependencies_merge {E} (self other : CodeDependencies) : res E CodeDependencies :=
  merge_loop self (dependencies_iter other).

Definition dependencies_two {E} (first second : CodePageDependency) : res E CodeDependencies :=
  dependencies_merge (dependencies_one first) (dependencies_one second).

Record FetchedCode : Set := { code_bits : Z; code_dependencies : CodeDependencies }.

Record CodePageSpan : Set := {
  span_start : GuestVirtualAddress;
  span_end_exclusive : option GuestVirtualAddress }.

Definition span_containing (start : GuestVirtualAddress) (end_exclusive : option GuestVirtualAddress)
    (address : GuestVirtualAddress) : option CodePageSpan :=
  let after_start := start <=? address in
  let before_end := match end_exclusive with
                    | Some end_ => (start <? end_) && (address <? end_)
                    | None => true
                    end in
  if after_start && before_end
  then Some {| span_start := start; span_end_exclusive := end_exclusive |} else None.

Definition span_contains (self : CodePageSpan) (address : GuestVirtualAddress) : bool :=
  (span_start self <=? address) &&
  match span_end_exclusive self with Some end_ => address <? end_ | None => true end.

(** ** The local exclusive monitor *)

Record ExclusiveReservation : Set := {
  reserved_page : GuestPhysicalPageId;
  reserved_byte_offset : Z;
  reserved_access_size : Z;
  reserved_expected : MemoryValue }.

Record ExclusiveMonitorState : Set := { reservation : option ExclusiveReservation }.
Definition monitor_default : ExclusiveMonitorState := {| reservation := None |}.
Definition monitor_reserve (r : ExclusiveReservation) (_ : ExclusiveMonitorState) :
    ExclusiveMonitorState := {| reservation := Some r |}.
Definition monitor_clear (_ : ExclusiveMonitorState) : ExclusiveMonitorState :=
  {| reservation := None |}.

(** ** Values and their bytes *)

Definition value_wf (v : MemoryValue) : Prop := fits (8 * bytes (value_size v)) (value_bits v).

Lemma bytes_bound s : 1 <= bytes s <= 16.
Proof. destruct s; simpl; lia. Qed.

Lemma value_from_bits_size s b : value_size (value_from_bits s b) = s.
Proof. by destruct s. Qed.

Lemma value_from_bits_bits s b :
  fits 128 b -> value_bits (value_from_bits s b) = wrap (8 * bytes s) b.
Proof. destruct s; simpl; try done. intros. by rewrite wrap_small. Qed.

Lemma value_from_bits_wf s b : fits 128 b -> value_wf (value_from_bits s b).
Proof.
  intros H. unfold value_wf. rewrite value_from_bits_size, value_from_bits_bits by done.
  apply wrap_fits. pose proof (bytes_bound s). lia.
Qed.

Lemma value_from_bits_eta v : value_wf v -> value_from_bits (value_size v) (value_bits v) = v.
Proof. unfold value_wf. destruct v; simpl; intros H; by rewrite ?wrap_small. Qed.

Lemma value_eq v w :
  value_size v = value_size w -> value_bits v = value_bits w -> v = w.
Proof. destruct v, w; simpl; congruence. Qed.

(** A slice of the right length is read exactly. *)
Lemma value_from_le_slice_spec {E} s l :
  bytes_ok l -> Z.of_nat (length l) = bytes s ->
  @value_from_le_slice E s l = Ok (value_from_bits s (from_le_bytes l)).
Proof.
  intros Hl Hlen. unfold value_from_le_slice. pose proof (bytes_bound s).
  destruct (Nat.ltb_spec 16 (length l)); [lia|]. by rewrite from_le_bytes_zeros.
Qed.

Lemma value_le_bytes_spec {E} v n :
  Z.of_nat n = bytes (value_size v) ->
  @value_le_bytes E v n = Ok (to_le_bytes n (value_bits v)).
Proof.
  intros Hn. unfold value_le_bytes. pose proof (bytes_bound (value_size v)).
  destruct (Nat.ltb_spec 16 n); [lia|]. by rewrite take_to_le_bytes by lia.
Qed.

Lemma value_roundtrip v n :
  value_wf v -> Z.of_nat n = bytes (value_size v) ->
  value_from_bits (value_size v) (from_le_bytes (to_le_bytes n (value_bits v))) = v.
Proof.
  intros Hv Hn. rewrite from_to_le_bytes, Hn, wrap_small by done. by apply value_from_bits_eta.
Qed.

Lemma value_of_bytes_wf s l :
  bytes_ok l -> Z.of_nat (length l) = bytes s -> value_wf (value_from_bits s (from_le_bytes l)).
Proof.
  intros Hl Hlen. apply value_from_bits_wf. pose proof (bytes_bound s).
  apply (fits_le (8 * Z.of_nat (length l))); [lia|]. by apply from_le_bytes_fits.
Qed.

(** ** Atomic transforms *)

(** Flipping the sign bit orders bit patterns as signed integers. *)
Lemma lxor_sign_bit w x :
  0 < w -> fits w x -> Z.lxor x (2 ^ (w - 1)) = as_signed w x + 2 ^ (w - 1).
Proof.
  intros Hw Hx. unfold as_signed. rewrite wrap_small by done.
  pose proof (pow2_half w Hw) as Hp. pose proof (pow2_pos (w - 1) ltac:(lia)) as Hpos.
  assert (forall y, fits (w - 1) y -> Z.lxor y (2 ^ (w - 1)) = y + 2 ^ (w - 1)) as Hlow.
  { intros y Hy. symmetry. apply Z.add_nocarry_lxor. apply Z.bits_inj'. intros i Hi.
    rewrite Z.land_spec, Z.bits_0, Z.pow2_bits_eqb by lia.
    destruct (Z.eqb_spec (w - 1) i) as [<-|]; [|by rewrite andb_false_r].
    by rewrite (testbit_fits (w - 1)) by (done || lia). }
  destruct (Z.ltb_spec x (2 ^ (w - 1))) as [H|H]; [apply Hlow; unfold fits in *; lia|].
  assert (x = Z.lxor (x - 2 ^ (w - 1)) (2 ^ (w - 1))) as ->.
  { rewrite Hlow by (unfold fits in *; lia). lia. }
  rewrite Z.lxor_assoc, Z.lxor_nilpotent, Z.lxor_0_r. 
  rewrite Hlow by (unfold fits in *; lia). lia.
Qed.

Lemma rmw_sign_bit s : shl_w 128 1 (bytes s * 8 - 1) = 2 ^ (8 * bytes s - 1).
Proof. by destruct s. Qed.

Lemma rmw_mask s :
  (if bytes s * 8 =? 128 then 2 ^ 128 - 1 else shl_w 128 1 (bytes s * 8) - 1) = Z.ones (8 * bytes s).
Proof. by destruct s. Qed.

(** What a transform computes, over the mathematical meaning of its operands. *)
Definition rmw_meaning (kind : AtomicRmwKind) (w c o r : Z) : Prop :=
  match kind with
  | Add => r = wrap w (c + o)
  | Clear => forall i, 0 <= i -> Z.testbit r i = Z.testbit c i && negb (Z.testbit o i)
  | Xor => forall i, 0 <= i -> Z.testbit r i = xorb (Z.testbit c i) (Z.testbit o i)
  | Set_ => forall i, 0 <= i -> Z.testbit r i = Z.testbit c i || Z.testbit o i
  | SignedMaximum => as_signed w r = Z.max (as_signed w c) (as_signed w o)
  | SignedMinimum => as_signed w r = Z.min (as_signed w c) (as_signed w o)
  | UnsignedMaximum => r = Z.max c o
  | UnsignedMinimum => r = Z.min c o
  | Swap => r = o
  end.

Lemma rmw_add w c o :
  0 <= w <= 128 -> Z.land (wrapping_add 128 c o) (Z.ones w) = wrap w (c + o).
Proof. intros Hw. rewrite wrap_land by lia. unfold wrapping_add. by apply wrap_wrap_le. Qed.

Lemma rmw_clear w c o i :
  0 <= w <= 128 -> fits w c -> 0 <= i ->
  Z.testbit (Z.land (Z.land c (not_w 128 o)) (Z.ones w)) i = Z.testbit c i && negb (Z.testbit o i).
Proof.
  intros Hw Hc Hi. rewrite !Z.land_spec, testbit_not_w, Z.testbit_ones_nonneg by lia.
  destruct (Z.ltb_spec i w).
  - destruct (Z.ltb_spec i 128); [|lia]. by rewrite andb_true_r.
  - rewrite (testbit_fits w c) by (done || lia). done.
Qed.

Lemma AtomicRmwKind_apply_spec kind current operand :
  value_wf current -> value_wf operand -> value_size current = value_size operand ->
  exists r, AtomicRmwKind_apply kind current operand = Some (value_from_bits (value_size current) r) /\
    fits (8 * bytes (value_size current)) r /\
    rmw_meaning kind (8 * bytes (value_size current)) (value_bits current) (value_bits operand) r.
Proof.
  intros Hc Ho Hs. unfold value_wf in *. unfold AtomicRmwKind_apply.
  rewrite bool_decide_true by done. simpl negb. cbv iota zeta.
  rewrite rmw_mask, rmw_sign_bit. rewrite <- Hs in Ho.
  pose proof (bytes_bound (value_size current)) as Hb.
  set (w := 8 * bytes (value_size current)) in *.
  set (c := value_bits current) in *. set (o := value_bits operand) in *.
  rewrite !(lxor_sign_bit w) by (done || lia).
  eexists; split; [reflexivity|]. destruct kind; simpl.
  - rewrite rmw_add by lia. split; [apply wrap_fits; lia|done].
  - split; [apply fits_land_l; [lia|]; apply fits_land_l; done || lia|].
    intros i Hi. apply rmw_clear; done || lia.
  - split; [apply fits_lxor; done || lia|]. intros. by rewrite Z.lxor_spec.
  - split; [apply fits_lor; done || lia|]. intros. by rewrite Z.lor_spec.
  - destruct (Z.leb_spec (as_signed w o + 2 ^ (w - 1)) (as_signed w c + 2 ^ (w - 1)));
      (split; [done|lia]).
  - destruct (Z.leb_spec (as_signed w c + 2 ^ (w - 1)) (as_signed w o + 2 ^ (w - 1)));
      (split; [done|lia]).
  - split; [unfold fits in *; lia|done].
  - split; [unfold fits in *; lia|done].
  - done.
Qed.

(** The atomic read-modify-write functions.  On operands of one width the
    result has that width and is, at that width, the modular sum, the cleared,
    exclusive-or or or-ed bits, the signed or unsigned maximum or minimum, or
    the operand; operands of different widths are refused. *)
Theorem atomic_rmw_exact kind current operand :
  value_wf current -> value_wf operand ->
  match AtomicRmwKind_apply kind current operand with
  | Some result =>
      value_size current = value_size operand /\ value_size result = value_size current /\
      value_wf result /\
      rmw_meaning kind (8 * bytes (value_size current)) (value_bits current) (value_bits operand)
        (value_bits result)
  | None => value_size current <> value_size operand
  end.
Proof.
  intros Hc Ho. destruct (decide (value_size current = value_size operand)) as [Hs|Hs].
  - destruct (AtomicRmwKind_apply_spec kind current operand Hc Ho Hs) as (r & -> & Hr & Hm).
    pose proof (bytes_bound (value_size current)).
    assert (fits 128 r) by (apply (fits_le (8 * bytes (value_size current))); [lia|done]).
    rewrite value_from_bits_size. split; [done|]. split; [done|].
    split; [by apply value_from_bits_wf|]. by rewrite value_from_bits_bits, wrap_small.
  - unfold AtomicRmwKind_apply. by rewrite bool_decide_false.
Qed.

Lemma atomic_rmw_exact_witness :
  (value_wf (U8 0x80) /\ value_wf (U8 1)) /\
  AtomicRmwKind_apply SignedMaximum (U8 0x80) (U8 1) = Some (U8 1) /\
  rmw_meaning SignedMaximum 8 0x80 1 1.
Proof.
  assert (value_wf (U8 0x80)) as H1 by done. assert (value_wf (U8 1)) as H2 by done.
  split; [done|]. split; [reflexivity|].
  exact (proj2 (proj2 (proj2 (atomic_rmw_exact SignedMaximum (U8 0x80) (U8 1) H1 H2)))).
Defined.
