(* ===== verification/MemoryCommon.v ===== *)
(** * Rules shared by the memory backends: [crates/cpu/src/memory/common.rs]

    Page arithmetic, page ranges, identity and generation allocation, access
    resolution and mapping queries.  Loops are given fuel; running out is
    [Panic], and the facts below show which fuel is enough. *)

From Stdlib Require Import ZArith Lia Bool String.
From stdpp Require Import base numbers list option gmap fin_sets.
From S2P Require Import Prelude RustInt GuestAddress A64Semantics MemoryContracts.
Local Open Scope string_scope.
Local Open Scope Z_scope.

Definition PAGE_SIZE : Z := SYNTHETIC_PAGE_SIZE.

Definition page_offset (address : GuestVirtualAddress) : Z := address mod SYNTHETIC_PAGE_SIZE.
Definition virtual_page (address : GuestVirtualAddress) : Z := address / PAGE_SIZE.

(** Pages are below 2^52, where the product stays in range
    ([page_address_fits]). *)
Definition page_address (page : Z) : GuestVirtualAddress := page * PAGE_SIZE.

(** ** Page ranges *)

Record PageRange : Set := { range_first : Z; range_end : Z }.

Definition PageRange_new (start : GuestVirtualAddress) (size : Z) : option PageRange :=
  if negb (Address.is_aligned_to start PAGE_SIZE) || negb (size mod PAGE_SIZE =? 0) then None
  else
    end_ ← checked_add 64 start size;
    Some {| range_first := virtual_page start; range_end := end_ / PAGE_SIZE |}.

Definition PageRange_is_empty (self : PageRange) : bool := range_first self =? range_end self.

(** [range.first..range.end]. *)
Definition range_pages (self : PageRange) : list Z :=
  seqZ (range_first self) (range_end self - range_first self).

(** ** Allocation of generations and identities *)

(** The result and the counter left behind. *)
Definition take_mapping_generation (next : option Z) : option Z * option Z :=
  match next with
  | None => (None, None)
  | Some generation => (Some generation, res_ok (MappingGeneration.next generation))
  end.

(** [None] when the identities run out; the counter is not published then. *)
Fixpoint allocate_page_id (fuel : nat) (next : Z) (exists_ : Z -> bool) :
    res Empty_set (option (Z * Z)) :=
  match fuel with
  | O => Panic
  | S fuel =>
      if exists_ next then
        match checked_add 64 next 1 with
        | None => Ok None
        | Some next => allocate_page_id fuel next exists_
        end
      else match checked_add 64 next 1 with
           | None => Ok None
           | Some next' => Ok (Some (next, next'))
           end
  end.

Definition writable_executable (permissions : Z) : bool :=
  MemoryPermissions.contains permissions MemoryPermissions.WRITE &&
  MemoryPermissions.contains permissions MemoryPermissions.EXECUTE.

Definition masked_attributes (current mask value : Z) : option Z :=
  if negb (Z.land value (not_w 32 mask) =? 0) then None
  else MemoryAttributes.from_bits (Z.lor (Z.land current (not_w 32 mask)) value).

(** ** Installation requests *)

Inductive SyntheticInstallStage : Set := Preflight | Allocation | Initialization | Publication.
#[export] Instance SyntheticInstallStage_eq_dec : EqDecision SyntheticInstallStage.
Proof. solve_decision. Defined.

Record SyntheticRamPage : Set := {
  request_virtual_address : GuestVirtualAddress;
  request_bytes : list Z;
  request_permissions : Z }.

Record SyntheticInstallError : Set := {
  install_stage : SyntheticInstallStage;
  install_address : option GuestVirtualAddress;
  install_reason : string }.

Definition install_error (stage : SyntheticInstallStage) (address : option GuestVirtualAddress)
    (reason : string) : SyntheticInstallError :=
  {| install_stage := stage; install_address := address; install_reason := reason |}.

(** The page, and the set of pages requested so far. *)
Definition validate_install_request (request : SyntheticRamPage) (unique_virtual_pages : gset Z) :
    res SyntheticInstallError (Z * gset Z) :=
  let error reason := Err (install_error Preflight (Some (request_virtual_address request)) reason) in
  if negb (Address.is_aligned_to (request_virtual_address request) PAGE_SIZE)
  then error "virtual address is not page aligned"
  else if negb (Z.of_nat (List.length (request_bytes request)) =? SYNTHETIC_PAGE_SIZE)
  then error "page contents do not match the synthetic page size"
  else if negb (bool_decide (is_Some (Address.checked_add (request_virtual_address request)
                             (SYNTHETIC_PAGE_SIZE - 1))))
  then error "virtual page range overflows"
  else
    let page := virtual_page (request_virtual_address request) in
    if bool_decide (page ∈ unique_virtual_pages)
    then error "request contains a duplicate virtual page"
    else Ok (page, {[page]} ∪ unique_virtual_pages).

(** ** Access resolution *)

Record ResolvedDataAccess (Mp : Type) : Type := {
  resolved_first : Mp;
  resolved_second : option Mp;
  resolved_first_bytes : Z;
  resolved_region : MemoryRegionKind }.
Arguments resolved_first {Mp} _.
Arguments resolved_second {Mp} _.
Arguments resolved_first_bytes {Mp} _.
Arguments resolved_region {Mp} _.

Section Resolve.
Context {Mp : Type}.
Variable resolve : GuestVirtualAddress -> option (Mp * Z * MemoryRegionKind).

Definition required_permission (kind : DataAccessKind) : Z :=
  match kind with KindRead => MemoryPermissions.READ | KindWrite => MemoryPermissions.WRITE end.

Definition permission_denied (kind : DataAccessKind) : DataAccessFaultReason :=
  match kind with KindRead => ReadPermissionDenied | KindWrite => WritePermissionDenied end.

(** The closure [resolve_checked]. *)
Definition resolve_checked (address_space : AddressSpaceId) (kind : DataAccessKind)
    (current : GuestVirtualAddress) : res DataAccessFault (Mp * MemoryRegionKind) :=
  match resolve current with
  | None => Err (DataAccessFault_new address_space current kind Unmapped)
  | Some (mapping, permissions, region) =>
      if negb (MemoryPermissions.contains permissions (required_permission kind))
      then Err (DataAccessFault_new address_space current kind (permission_denied kind))
      else Ok (mapping, region)
  end.

Definition resolve_data_access (address_space : AddressSpaceId) (address : GuestVirtualAddress)
    (access : MemoryAccess) (kind : DataAccessKind) : res DataAccessFault (ResolvedDataAccess Mp) :=
  let required_alignment := alignment_bytes (access_alignment access) (access_size access) in
  if negb (Address.is_aligned_to address required_alignment)
  then Err (DataAccessFault_new address_space address kind (Misaligned required_alignment))
  else
    let byte_count := bytes (access_size access) in
    match Address.checked_add address (byte_count - 1) with
    | None => Err (DataAccessFault_new address_space address kind AddressOverflow)
    | Some _ =>
        let first_bytes := Z.min (SYNTHETIC_PAGE_SIZE - page_offset address) byte_count in
        second_address ← (if first_bytes <? byte_count
                          then match Address.checked_add address first_bytes with
                               | Some second_address => Ok (Some second_address)
                               | None => Panic
                               end
                          else Ok None);
        '(first, region) ← resolve_checked address_space kind address;
        second ← match second_address with
                 | None => Ok None
                 | Some second_address =>
                     '(second, second_region) ← resolve_checked address_space kind second_address;
                     if bool_decide (region = second_region) then Ok (Some second)
                     else Err (DataAccessFault_new address_space second_address kind MixedRegions)
                 end;
        Ok {| resolved_first := first; resolved_second := second;
              resolved_first_bytes := first_bytes; resolved_region := region |}
    end.
End Resolve.

(** ** Mapping queries *)

Abbreviation MappingState := (MemoryRegionKind * Z * MemoryMappingPurpose * Z)%type.

Section Coalesce.
Variable state_at : Z -> option MappingState.
Variable state : MappingState.

Fixpoint coalesce_down (fuel : nat) (first : Z) : res Empty_set Z :=
  match fuel with
  | O => Panic
  | S fuel =>
      if (0 <? first) && bool_decide (state_at (first - 1) = Some state)
      then coalesce_down fuel (first - 1) else Ok first
  end.

Fixpoint coalesce_up (fuel : nat) (end_ end_page : Z) : res Empty_set Z :=
  match fuel with
  | O => Panic
  | S fuel =>
      if (end_ <? end_page) && bool_decide (state_at end_ = Some state)
      then coalesce_up fuel (end_ + 1) end_page else Ok end_
  end.

Definition coalesce_mapped_pages (fuel : nat) (page end_page : Z) : res Empty_set (Z * Z) :=
  first ← coalesce_down fuel page;
  end_ ← coalesce_up fuel (page + 1) end_page;
  Ok (first, end_).
End Coalesce.

(** [checked_mul] and [checked_sub] at 64 bits. *)
Definition checked_mul (w x y : Z) : option Z := if x * y <? 2 ^ w then Some (x * y) else None.

Definition memory_query_result (first_page end_page : Z) (state : option MappingState) :
    option MemoryQueryResult :=
  base ← checked_mul 64 first_page PAGE_SIZE;
  end_ ← checked_mul 64 end_page PAGE_SIZE;
  let '(region, permissions, purpose, attributes) :=
    match state with
    | Some (region, permissions, purpose, attributes) =>
        (Some region, permissions, purpose, attributes)
    | None => (None, MemoryPermissions.NONE, PurposeNormal, MemoryAttributes.NONE)
    end in
  size ← Address.checked_sub end_ base;
  Some {| query_base := base; query_size := size; query_region := region;
          query_permissions := permissions; query_attributes := attributes;
          query_purpose := purpose |}.

(** ** Page arithmetic *)

Lemma page_split a : a = page_address (virtual_page a) + page_offset a.
Proof.
  unfold page_address, virtual_page, page_offset, PAGE_SIZE, SYNTHETIC_PAGE_SIZE.
  pose proof (Z.div_mod a 4096 ltac:(lia)). lia.
Qed.

Lemma page_offset_bound a : 0 <= page_offset a < SYNTHETIC_PAGE_SIZE.
Proof. apply Z.mod_pos_bound. done. Qed.

Lemma page_unique page offset :
  0 <= offset < SYNTHETIC_PAGE_SIZE ->
  virtual_page (page_address page + offset) = page /\ page_offset (page_address page + offset) = offset.
Proof.
  unfold page_address, virtual_page, page_offset, PAGE_SIZE, SYNTHETIC_PAGE_SIZE. intros.
  rewrite Z.add_comm, Z.div_add, Z.mod_add by lia. rewrite Z.div_small, Z.mod_small; lia.
Qed.

Lemma virtual_page_bound a : fits 64 a -> 0 <= virtual_page a < 2 ^ 52.
Proof.
  unfold fits, virtual_page, PAGE_SIZE, SYNTHETIC_PAGE_SIZE. intros.
  split; [apply Z.div_pos; lia|]. apply Z.div_lt_upper_bound; lia.
Qed.

Lemma page_address_fits page : 0 <= page < 2 ^ 52 -> fits 64 (page_address page).
Proof. unfold fits, page_address, PAGE_SIZE, SYNTHETIC_PAGE_SIZE. lia. Qed.

(** Bytes of the page of an address. *)
Lemma page_add a k :
  0 <= k -> page_offset a + k < SYNTHETIC_PAGE_SIZE ->
  virtual_page (a + k) = virtual_page a /\ page_offset (a + k) = page_offset a + k.
Proof.
  intros Hk Hb. pose proof (page_offset_bound a). rewrite (page_split a) at 1 3.
  rewrite <- Z.add_assoc. apply page_unique. lia.
Qed.

Lemma page_next a k :
  page_offset a + k = SYNTHETIC_PAGE_SIZE ->
  virtual_page (a + k) = virtual_page a + 1 /\ page_offset (a + k) = 0.
Proof.
  intros Hk. replace (a + k) with (page_address (virtual_page a + 1) + 0); [apply page_unique; done|].
  rewrite (page_split a) at 2. unfold page_address, PAGE_SIZE in *. lia.
Qed.

(** ** Page ranges *)

Lemma page_size_pow : PAGE_SIZE = 2 ^ 12.
Proof. done. Qed.

(** A range is made exactly of whole pages inside the address space. *)
Lemma PageRange_new_spec start size :
  fits 64 start -> fits 64 size ->
  match PageRange_new start size with
  | Some r =>
      start mod PAGE_SIZE = 0 /\ size mod PAGE_SIZE = 0 /\ start + size < 2 ^ 64 /\
      start = page_address (range_first r) /\ size = page_address (range_end r - range_first r) /\
      0 <= range_first r <= range_end r /\ range_end r < 2 ^ 52
  | None => start mod PAGE_SIZE <> 0 \/ size mod PAGE_SIZE <> 0 \/ 2 ^ 64 <= start + size
  end.
Proof.
  unfold PageRange_new, page_address, virtual_page, fits. rewrite page_size_pow, is_aligned_to_spec by lia.
  intros Hs Hz.
  destruct (Z.eqb_spec (start mod 2 ^ 12) 0) as [E1|], (Z.eqb_spec (size mod 2 ^ 12) 0) as [E2|];
    simpl; [|auto..].
  unfold checked_add. destruct (Z.ltb_spec (start + size) (2 ^ 64)); simpl; [|auto].
  pose proof (proj2 (Z.div_exact start (2 ^ 12) ltac:(done)) E1).
  pose proof (proj2 (Z.div_exact size (2 ^ 12) ltac:(done)) E2).
  replace (start + size) with (size / 2 ^ 12 * 2 ^ 12 + start) by lia.
  rewrite Z.div_add_l by done.
  pose proof (Z.div_pos start (2 ^ 12)). pose proof (Z.div_pos size (2 ^ 12)).
  change (2 ^ 12) with 4096 in *. change (2 ^ 64) with (2 ^ 52 * 4096) in *. change (2 ^ 52) with 4503599627370496 in *.
  split_and!; lia.
Qed.

Lemma elem_of_range_pages r page : page ∈ range_pages r <-> range_first r <= page < range_end r.
Proof. unfold range_pages. rewrite elem_of_seqZ. lia. Qed.

(** ** Identities *)

(** With more fuel than identities in use, allocation returns: a fresh
    identity and the counter after it, or [None] when none is left below the
    largest one. *)
Lemma allocate_page_id_spec exists_ fuel : forall next (used : gset Z),
  fits 64 next -> (forall p, next <= p -> exists_ p = true -> p ∈ used) -> (size used < fuel)%nat ->
  match allocate_page_id fuel next exists_ with
  | Ok (Some (page, next')) =>
      next <= page < 2 ^ 64 - 1 /\ next' = page + 1 /\ exists_ page = false /\
      (forall p, next <= p < page -> exists_ p = true)
  | Ok None => forall p, next <= p < 2 ^ 64 - 1 -> exists_ p = true
  | _ => False
  end.
Proof.
  induction fuel as [|fuel IH]; intros next used Hn Hused Hsize; [lia|]. cbn [allocate_page_id].
  unfold fits in Hn. unfold checked_add.
  destruct (exists_ next) eqn:E; destruct (Z.ltb_spec (next + 1) (2 ^ 64)).
  - assert (next ∈ used) as Hin by (apply Hused; [lia|done]).
    assert (size used = S (size (used ∖ {[next]}))) as Hs.
    { rewrite (union_difference_singleton_L next used Hin) at 1.
      rewrite size_union by set_solver. by rewrite size_singleton. }
    assert (forall p, next + 1 <= p -> exists_ p = true -> p ∈ used ∖ {[next]}) as Hrest.
    { intros p Hp Hep. apply elem_of_difference. split; [apply Hused; [lia|done]|].
      intros ->%elem_of_singleton. lia. }
    specialize (IH (next + 1) (used ∖ {[next]}) ltac:(unfold fits; lia) Hrest ltac:(lia)).
    destruct (allocate_page_id fuel (next + 1) exists_) as [[[page next']|]|[]|]; [| |done].
    + destruct IH as (? & ? & ? & Hbelow). split_and!; [lia..|done|].
      intros p Hp. destruct (decide (p = next)) as [->|]; [done|]. apply Hbelow. lia.
    + intros p Hp. destruct (decide (p = next)) as [->|]; [done|]. apply IH. lia.
  - intros p Hp. lia.
  - split_and!; [lia..|done|]. intros p Hp. lia.
  - intros p Hp. lia.
Qed.

(** ** Coalescing *)

Section CoalesceFacts.
Variable state_at : Z -> option MappingState.
Variable state : MappingState.
Variable mapped : gset Z.
Hypothesis mapped_spec : forall p, state_at p = Some state -> p ∈ mapped.

(** Pages of a run are distinct members of a finite set, so the loops are
    bounded by its size. *)
Lemma run_bounded (n : nat) first :
  (forall p, first <= p < first + Z.of_nat n -> state_at p = Some state) -> (n <= size mapped)%nat.
Proof.
  intros H. transitivity (size (list_to_set (C := gset Z) (seqZ first (Z.of_nat n)))).
  - rewrite size_list_to_set by apply NoDup_seqZ. rewrite length_seqZ. lia.
  - apply subseteq_size. intros p Hp%elem_of_list_to_set%elem_of_seqZ. apply mapped_spec, H. lia.
Qed.

Lemma coalesce_down_spec fuel : forall done first,
  0 <= first -> (forall p, first <= p < first + Z.of_nat done -> state_at p = Some state) ->
  (size mapped < fuel + done)%nat ->
  exists first', coalesce_down state_at state fuel first = Ok first' /\ 0 <= first' <= first /\
    (forall p, first' <= p < first -> state_at p = Some state) /\
    (first' = 0 \/ state_at (first' - 1) <> Some state).
Proof.
  induction fuel as [|fuel IH]; intros done_ first Hf Hrun Hfuel.
  { pose proof (run_bounded done_ first Hrun). lia. }
  cbn [coalesce_down]. destruct (Z.ltb_spec 0 first); simpl;
    [|exists first; split_and!; [done|lia|lia|intros; lia|left; lia]].
  case_bool_decide as E; [|exists first; split_and!; [done|lia|lia|intros; lia|by right]].
  destruct (IH (S done_) (first - 1)) as (first' & -> & Hb & Hr & He).
  - lia.
  - intros p Hp. destruct (decide (p = first - 1)) as [->|]; [done|]. apply Hrun. lia.
  - lia.
  - exists first'. split_and!; [done|lia|lia| |done].
    intros p Hp. destruct (decide (p = first - 1)) as [->|]; [done|]. apply Hr. lia.
Qed.

Lemma coalesce_up_spec fuel : forall done end_ end_page,
  (forall p, end_ - Z.of_nat done <= p < end_ -> state_at p = Some state) ->
  (size mapped < fuel + done)%nat ->
  exists end', coalesce_up state_at state fuel end_ end_page = Ok end' /\
    end_ <= end' <= Z.max end_ end_page /\
    (forall p, end_ <= p < end' -> state_at p = Some state) /\
    (end_page <= end' \/ state_at end' <> Some state).
Proof.
  induction fuel as [|fuel IH]; intros done_ end_ end_page Hrun Hfuel.
  { pose proof (run_bounded done_ (end_ - Z.of_nat done_)) as Hr.
    rewrite Z.sub_add in Hr. specialize (Hr Hrun). lia. }
  cbn [coalesce_up]. destruct (Z.ltb_spec end_ end_page); simpl;
    [|exists end_; split_and!; [done|lia|lia|intros; lia|left; lia]].
  case_bool_decide as E; [|exists end_; split_and!; [done|lia|lia|intros; lia|by right]].
  destruct (IH (S done_) (end_ + 1) end_page) as (end' & -> & Hb & Hr & He).
  - intros p Hp. destruct (decide (p = end_)) as [->|]; [done|]. apply Hrun. lia.
  - lia.
  - exists end'. split_and!; [done|lia|lia| |done].
    intros p Hp. destruct (decide (p = end_)) as [->|]; [done|]. apply Hr. lia.
Qed.

(** The run around a page: all its pages share the state, and it cannot be
    extended below, nor above before [end_page]. *)
Lemma coalesce_mapped_pages_spec fuel page end_page :
  0 <= page -> state_at page = Some state -> (size mapped < fuel)%nat ->
  exists first end_, coalesce_mapped_pages state_at state fuel page end_page = Ok (first, end_) /\
    0 <= first <= page /\ page < end_ <= Z.max (page + 1) end_page /\
    (forall p, first <= p < end_ -> state_at p = Some state) /\
    (first = 0 \/ state_at (first - 1) <> Some state) /\
    (end_page <= end_ \/ state_at end_ <> Some state).
Proof.
  intros Hp Hs Hfuel. unfold coalesce_mapped_pages.
  destruct (coalesce_down_spec fuel 0 page) as (first & -> & Hf & Hrf & Hef); [lia|intros; lia|lia|].
  destruct (coalesce_up_spec fuel 0 (page + 1) end_page) as (end_ & -> & He & Hre & Hee);
    [intros; lia|lia|].
  exists first, end_. split_and!; try done; try lia.
  intros p Hpp. destruct (Z.lt_trichotomy p page) as [|[->|]]; [apply Hrf|done|apply Hre]; lia.
Qed.
End CoalesceFacts.

(** ** Access resolution *)

Lemma alignment_pow access :
  exists k, 0 <= k /\ alignment_bytes (access_alignment access) (access_size access) = 2 ^ k.
Proof.
  destruct access as [s a ? ?]; simpl. destruct a; simpl.
  - by exists 0.
  - destruct s; [by exists 0|by exists 1|by exists 2|by exists 3|by exists 4].
  - by exists 1.
  - by exists 2.
  - by exists 3.
  - by exists 4.
Qed.

Section ResolveFacts.
Context {Mp : Type}.
Variable resolve : GuestVirtualAddress -> option (Mp * Z * MemoryRegionKind).

(** What a resolved access guarantees. *)
Record resolved_ok (space : AddressSpaceId) (address : Z) (access : MemoryAccess)
    (kind : DataAccessKind) (r : ResolvedDataAccess Mp) : Prop := {
  ok_aligned : address mod alignment_bytes (access_alignment access) (access_size access) = 0;
  ok_bound : address + bytes (access_size access) <= 2 ^ 64;
  ok_first_bytes : resolved_first_bytes r =
    Z.min (SYNTHETIC_PAGE_SIZE - page_offset address) (bytes (access_size access));
  ok_first : resolve_checked resolve space kind address = Ok (resolved_first r, resolved_region r);
  ok_second : match resolved_second r with
    | None => page_offset address + bytes (access_size access) <= SYNTHETIC_PAGE_SIZE
    | Some second =>
        SYNTHETIC_PAGE_SIZE < page_offset address + bytes (access_size access) /\
        resolve_checked resolve space kind (address + resolved_first_bytes r) =
          Ok (second, resolved_region r)
    end }.

Lemma resolve_checked_cases space kind a :
  match resolve_checked resolve space kind a with
  | Ok (mapping, region) => exists permissions, resolve a = Some (mapping, permissions, region) /\
      MemoryPermissions.contains permissions (required_permission kind) = true
  | Err fault => fault_kind fault = kind /\ fault_address_space fault = space
  | Panic => False
  end.
Proof.
  unfold resolve_checked. destruct (resolve a) as [[[m p] r]|]; [|done].
  destruct (MemoryPermissions.contains p _) eqn:E; simpl; eauto.
Qed.

Lemma resolve_data_access_spec space address access kind :
  fits 64 address ->
  match resolve_data_access resolve space address access kind with
  | Ok r => resolved_ok space address access kind r
  | Err fault => fault_kind fault = kind /\ fault_address_space fault = space
  | Panic => False
  end.
Proof.
  intros Ha. unfold resolve_data_access. destruct (alignment_pow access) as (k & Hk & Hal).
  rewrite Hal, is_aligned_to_spec by done.
  destruct (Z.eqb_spec (address mod 2 ^ k) 0) as [E|]; simpl; [|done].
  unfold Address.checked_add, checked_add. pose proof (bytes_bound (access_size access)) as Hb.
  pose proof (page_offset_bound address) as Ho. unfold fits in Ha.
  set (n := bytes (access_size access)) in *.
  destruct (Z.ltb_spec (address + (n - 1)) (2 ^ 64)) as [Hov|]; [|done].
  set (fb := Z.min (SYNTHETIC_PAGE_SIZE - page_offset address) n).
  assert ((if fb <? n
           then match (if address + fb <? 2 ^ 64 then Some (address + fb) else None) with
                | Some second_address => Ok (Some second_address)
                | None => Panic
                end
           else @Ok DataAccessFault _ None) = Ok (if fb <? n then Some (address + fb) else None)) as ->.
  { destruct (Z.ltb_spec fb n); [|done]. by destruct (Z.ltb_spec (address + fb) (2 ^ 64)); [|lia]. }
  cbn [mbind res_bind].
  pose proof (resolve_checked_cases space kind address) as Hf.
  destruct (resolve_checked resolve space kind address) as [[first region]|f|] eqn:Ef;
    cbn [mbind res_bind]; [|done..].
  destruct (Z.ltb_spec fb n) as [Hc|Hc]; cbn [mbind res_bind].
  - pose proof (resolve_checked_cases space kind (address + fb)) as Hs.
    destruct (resolve_checked resolve space kind (address + fb)) as [[second region2]|f|] eqn:Es;
      cbn [mbind res_bind]; [|done..].
    case_bool_decide as Er; cbn [mbind res_bind]; [|done]. subst region2.
    split; simpl; rewrite ?Hal; try done; unfold fb in *; [lia|]. split; [lia|done].
  - split; simpl; rewrite ?Hal; try done; unfold fb in *; lia.
Qed.

(** The conditions of a resolved access are also sufficient. *)
Lemma resolve_data_access_complete space address access kind r :
  fits 64 address -> resolved_ok space address access kind r ->
  resolve_data_access resolve space address access kind = Ok r.
Proof.
  intros Ha [Hal Hb Hfb Hf Hs]. unfold resolve_data_access.
  destruct (alignment_pow access) as (k & Hk & Hpow). rewrite Hpow in *.
  rewrite is_aligned_to_spec, Hal, Z.eqb_refl by done. cbn [negb].
  pose proof (bytes_bound (access_size access)). pose proof (page_offset_bound address).
  unfold Address.checked_add, checked_add. set (n := bytes (access_size access)) in *.
  destruct (Z.ltb_spec (address + (n - 1)) (2 ^ 64)); [|lia]. rewrite <- Hfb.
  destruct r as [first [second|] fb region]; simpl in *.
  - destruct Hs as [Hc Hs]. destruct (Z.ltb_spec fb n); [|lia].
    destruct (Z.ltb_spec (address + fb) (2 ^ 64)); [|lia]. cbn [mbind res_bind].
    rewrite Hf. cbn [mbind res_bind]. rewrite Hs. cbn [mbind res_bind].
    by rewrite bool_decide_true.
  - destruct (Z.ltb_spec fb n); [lia|]. cbn [mbind res_bind]. by rewrite Hf.
Qed.
End ResolveFacts.
