(* ===== verification/Synthetic.v ===== *)
(** * The synthetic memory backend: [crates/cpu/src/memory/synthetic.rs]

    Virtual pages mapped to physical pages of RAM or to device handlers, with
    permissions, generations, injected faults and an invalidation stream.  The
    backend's lock makes every operation one step on its state, with one
    exception that the model does not follow: [store_exclusive] releases the lock
    between testing the reservation and the compare-and-exchange, so that another
    thread can change the mappings in between, and is one step here.  A device
    handler ([SyntheticMmio]) is supplied by the user of the backend: its state
    and its two callbacks are parameters.  [can_reserve] tells whether the host
    allocator can grow a vector. *)

From Stdlib Require Import ZArith Lia Bool String.
From stdpp Require Import base numbers list option strings gmap.
From S2P Require Import Prelude RustInt RustList Bytes GuestAddress Invalidation A64Semantics.
From S2P Require Import MemoryContracts MemoryCommon.
Local Open Scope string_scope.
Local Open Scope list_scope.
Local Open Scope Z_scope.

#[export] Instance DataAccessKind_countable : Countable DataAccessKind.
Proof.
  refine (inj_countable' (fun k => match k with KindRead => false | KindWrite => true end)
                         (fun b : bool => if b then KindWrite else KindRead) _).
  by intros [].
Defined.

(** The callbacks of a device page; a handler keeps its state on failure. *)
Class SyntheticMmio (Handler : Type) := {
  mmio_read : Handler -> Z -> MemoryAccess -> Handler * res string MemoryValue;
  mmio_write : Handler -> Z -> MemoryAccess -> MemoryValue -> Handler * res string unit }.

Module SyntheticMemory.

Record Mapping : Set := {
  physical_page : GuestPhysicalPageId;
  mapping_generation : Z;
  permissions : Z;
  purpose : MemoryMappingPurpose;
  attributes : Z }.

Definition properties (self : Mapping) : MemoryMappingProperties :=
  {| prop_permissions := permissions self; prop_purpose := purpose self;
     prop_attributes := attributes self |}.

Inductive PhysicalPage (Handler : Type) : Type :=
  | RamPage (contents : option (list Z)) (generation : Z)
  | Mmio (handler : Handler).
Arguments RamPage {Handler} _ _.
Arguments Mmio {Handler} _.

Record State (Handler : Type) : Type := {
  mappings : gmap (Z * Z) Mapping;
  pages : gmap Z (PhysicalPage Handler);
  instruction_faults : gmap (Z * Z) string;
  data_faults : gmap (Z * Z * DataAccessKind) string;
  next_page_id : Z;
  next_mapping_generation : option Z;
  install_failure : option (SyntheticInstallStage * Z * string);
  invalidations : MemoryInvalidationLog }.
Arguments mappings {Handler} _.
Arguments pages {Handler} _.
Arguments instruction_faults {Handler} _.
Arguments data_faults {Handler} _.
Arguments next_page_id {Handler} _.
Arguments next_mapping_generation {Handler} _.
Arguments install_failure {Handler} _.
Arguments invalidations {Handler} _.

(** An array index range, checked as Rust checks it. *)
Definition index_range {E} (l : list Z) (offset count : Z) : res E (list Z) :=
  if (0 <=? offset) && (0 <=? count) && (offset + count <=? Z.of_nat (List.length l))
  then Ok (slice l (Z.to_nat offset) (Z.to_nat count)) else Panic.

(** [l[offset..offset + count].copy_from_slice(bytes)]. *)
Definition copy_range {E} (l : list Z) (offset count : Z) (source : list Z) : res E (list Z) :=
  if (0 <=? offset) && (offset + count <=? Z.of_nat (List.length l)) &&
     (Z.of_nat (List.length source) =? count)
  then Ok (list_inserts (Z.to_nat offset) source l) else Panic.

Definition zero_page : list Z := replicate (Z.to_nat SYNTHETIC_PAGE_SIZE) 0.

Section Backend.
Context {Handler : Type} `{SyntheticMmio Handler}.
Variable can_reserve : Z -> bool.

Abbreviation Memory := (State Handler).
Abbreviation Run E := (M (State Handler) E).

Definition new : Memory :=
  {| mappings := ∅; pages := ∅; instruction_faults := ∅; data_faults := ∅; next_page_id := 1;
     next_mapping_generation := Some 1; install_failure := None; invalidations := log_default |}.

Definition set_mappings (m : gmap (Z * Z) Mapping) (s : Memory) : Memory :=
  {| mappings := m; pages := pages s; instruction_faults := instruction_faults s;
     data_faults := data_faults s; next_page_id := next_page_id s;
     next_mapping_generation := next_mapping_generation s; install_failure := install_failure s;
     invalidations := invalidations s |}.
Definition set_pages (p : gmap Z (PhysicalPage Handler)) (s : Memory) : Memory :=
  {| mappings := mappings s; pages := p; instruction_faults := instruction_faults s;
     data_faults := data_faults s; next_page_id := next_page_id s;
     next_mapping_generation := next_mapping_generation s; install_failure := install_failure s;
     invalidations := invalidations s |}.
Definition set_next_page_id (n : Z) (s : Memory) : Memory :=
  {| mappings := mappings s; pages := pages s; instruction_faults := instruction_faults s;
     data_faults := data_faults s; next_page_id := n;
     next_mapping_generation := next_mapping_generation s; install_failure := install_failure s;
     invalidations := invalidations s |}.
Definition set_next_mapping_generation (g : option Z) (s : Memory) : Memory :=
  {| mappings := mappings s; pages := pages s; instruction_faults := instruction_faults s;
     data_faults := data_faults s; next_page_id := next_page_id s;
     next_mapping_generation := g; install_failure := install_failure s;
     invalidations := invalidations s |}.
Definition set_invalidations (l : MemoryInvalidationLog) (s : Memory) : Memory :=
  {| mappings := mappings s; pages := pages s; instruction_faults := instruction_faults s;
     data_faults := data_faults s; next_page_id := next_page_id s;
     next_mapping_generation := next_mapping_generation s; install_failure := install_failure s;
     invalidations := l |}.

(** [invalidation.commit()] inside an operation. *)
Definition commit_invalidation {E} (commit : M MemoryInvalidationLog Empty_set Z) : Run E unit :=
  fun s => match commit (invalidations s) with
           | (log, Ok _) => (set_invalidations log s, Ok tt)
           | (log, _) => (set_invalidations log s, Panic)
           end.

(** [Option::ok_or_else(..)?] on a generation taken from the state. *)
Definition take_generation {E} (exhausted : E) : Run E Z :=
  fun s => let '(generation, next) := take_mapping_generation (next_mapping_generation s) in
           match generation with
           | Some generation => (set_next_mapping_generation next s, Ok generation)
           | None => (set_next_mapping_generation next s, Err exhausted)
           end.

Definition mapping_at (s : Memory) (address_space : AddressSpaceId) (address : GuestVirtualAddress) :
    option Mapping := mappings s !! (address_space, virtual_page address).

Definition region_of (page : PhysicalPage Handler) : MemoryRegionKind :=
  match page with RamPage _ _ => Ram | Mmio _ => Device end.

Definition resolve_mapping (s : Memory) (address_space : AddressSpaceId)
    (current : GuestVirtualAddress) : option (Mapping * Z * MemoryRegionKind) :=
  mapping ← mapping_at s address_space current;
  page ← pages s !! physical_page mapping;
  Some (mapping, permissions mapping, region_of page).

Definition resolve_access (s : Memory) (address_space : AddressSpaceId)
    (address : GuestVirtualAddress) (access : MemoryAccess) (kind : DataAccessKind) :
    res DataAccessFault (ResolvedDataAccess Mapping) :=
  resolve_data_access (resolve_mapping s address_space) address_space address access kind.

Definition executable_page (s : Memory) (page : GuestPhysicalPageId) : bool :=
  bool_decide (map_Exists (fun _ mapping =>
    physical_page mapping = page /\
    (MemoryPermissions.contains (permissions mapping) MemoryPermissions.EXECUTE = true \/
     is_code (purpose mapping) = true)) (mappings s)).

(** A page that resolution found to be RAM. *)
Definition ram_page {E} (s : Memory) (page : GuestPhysicalPageId) : res E (option (list Z) * Z) :=
  match pages s !! page with
  | Some (RamPage contents generation) => Ok (contents, generation)
  | _ => Panic
  end.

Definition mmio_handler {E} (s : Memory) (page : GuestPhysicalPageId) : res E Handler :=
  match pages s !! page with
  | Some (Mmio handler) => Ok handler
  | _ => Panic
  end.

(** Bytes of a RAM page, zero while it is not materialized. *)
Definition ram_bytes {E} (contents : option (list Z)) (offset count : Z) : res E (list Z) :=
  match contents with
  | Some contents => index_range contents offset count
  | None => Ok (replicate (Z.to_nat count) 0)
  end.

(** The injected fault of an exact operation address. *)
Definition check_data_fault (s : Memory) (address_space : AddressSpaceId)
    (address : GuestVirtualAddress) (kind : DataAccessKind) : res DataAccessFault unit :=
  match data_faults s !! (address_space, address, kind) with
  | Some reason => Err (DataAccessFault_new address_space address kind (Injected reason))
  | None => Ok tt
  end.

Definition put_page (page : GuestPhysicalPageId) (value : PhysicalPage Handler) : Run DataAccessFault unit :=
  modify (fun s => set_pages (<[page := value]> (pages s)) s).

(** [handler.read(..)?] and [handler.write(..)?]. *)
Definition call_device {A} (address_space : AddressSpaceId) (address : GuestVirtualAddress)
    (kind : DataAccessKind) (page : GuestPhysicalPageId) (call : Handler -> Handler * res string A) :
    Run DataAccessFault A :=
  s ← gets id;
  handler ← lift (mmio_handler s page);
  let '(handler', result) := call handler in
  _ ← put_page page (Mmio handler');
  match result with
  | Ok value => mret value
  | Err reason => throw (DataAccessFault_new address_space address kind (DeviceFault reason))
  | Panic => lift Panic
  end.

Definition next_content_generation (address_space : AddressSpaceId) (address : GuestVirtualAddress)
    (generation : Z) : res DataAccessFault Z :=
  match ContentGeneration.next generation with
  | Ok next => Ok next
  | _ => Err (DataAccessFault_new address_space address KindWrite ContentGenerationExhausted)
  end.

(** ** Reads and writes *)

Definition read_ram (s : Memory) (address : GuestVirtualAddress) (access : MemoryAccess)
    (resolved : ResolvedDataAccess Mapping) : res DataAccessFault MemoryValue :=
  let byte_count := bytes (access_size access) in
  data ← match resolved_second resolved with
         | None =>
             '(contents, _) ← ram_page s (physical_page (resolved_first resolved));
             ram_bytes contents (page_offset address) byte_count
         | Some second =>
             let first_bytes := resolved_first_bytes resolved in
             '(contents, _) ← ram_page s (physical_page (resolved_first resolved));
             low ← ram_bytes contents (page_offset address) first_bytes;
             '(contents, _) ← ram_page s (physical_page second);
             high ← ram_bytes contents 0 (byte_count - first_bytes);
             Ok (low ++ high)
         end;
  value_from_le_slice (access_size access) data.

Definition read (address_space : AddressSpaceId) (address : GuestVirtualAddress)
    (access : MemoryAccess) : Run DataAccessFault DataReadResult :=
  s ← gets id;
  resolved ← lift (resolve_access s address_space address access KindRead);
  _ ← lift (check_data_fault s address_space address KindRead);
  if bool_decide (resolved_region resolved = Device) then
    if bool_decide (is_Some (resolved_second resolved))
    then throw (DataAccessFault_new address_space address KindRead MixedRegions)
    else
      value ← call_device address_space address KindRead (physical_page (resolved_first resolved))
                (fun handler => mmio_read handler (page_offset address) access);
      if bool_decide (value_size value = access_size access)
      then mret {| read_value := value; read_region := Device |}
      else throw (DataAccessFault_new address_space address KindRead ValueSizeMismatch)
  else
    value ← lift (read_ram s address access resolved);
    mret {| read_value := value; read_region := Ram |}.

(** [contents.get_or_insert_with(zeros)[offset..offset + count].copy_from_slice(source)]
    on a RAM page, keeping its generation. *)
Definition store_bytes (page : GuestPhysicalPageId) (offset count : Z) (source : list Z) :
    Run DataAccessFault unit :=
  s ← gets id;
  '(contents, generation) ← lift (ram_page s page);
  contents ← lift (copy_range (default zero_page contents) offset count source);
  put_page page (RamPage (Some contents) generation).

Definition store_generation (page : GuestPhysicalPageId) (generation : Z) : Run DataAccessFault unit :=
  s ← gets id;
  '(contents, _) ← lift (ram_page s page);
  put_page page (RamPage contents generation).

(** The copy loop over two pages and the publication of their generations. *)
Definition store_two_pages (first second : GuestPhysicalPageId) (offset first_bytes byte_count : Z)
    (data : list Z) (next_first : Z) (next_second : option Z) : Run DataAccessFault unit :=
  low ← lift (index_range data 0 first_bytes);
  _ ← store_bytes first offset first_bytes low;
  high ← lift (index_range data first_bytes (byte_count - first_bytes));
  _ ← store_bytes second 0 (byte_count - first_bytes) high;
  _ ← store_generation first next_first;
  match next_second with
  | Some next_second => store_generation second next_second
  | None => mret tt
  end.

Definition write_ram (address_space : AddressSpaceId) (address : GuestVirtualAddress)
    (byte_count : Z) (data : list Z) (resolved : ResolvedDataAccess Mapping) :
    Run DataAccessFault unit :=
  s ← gets id;
  let first := physical_page (resolved_first resolved) in
  '(_, generation) ← lift (ram_page s first);
  next_first ← lift (next_content_generation address_space address generation);
  match resolved_second resolved with
  | None =>
      _ ← store_bytes first (page_offset address) byte_count data;
      store_generation first next_first
  | Some second_mapping =>
      let second := physical_page second_mapping in
      next_second ← (if bool_decide (second = first) then mret None
                     else
                       '(_, generation) ← lift (ram_page s second);
                       next ← lift (next_content_generation address_space address generation);
                       mret (Some next));
      store_two_pages first second (page_offset address) (resolved_first_bytes resolved) byte_count
        data next_first next_second
  end.

Definition write (address_space : AddressSpaceId) (address : GuestVirtualAddress)
    (access : MemoryAccess) (value : MemoryValue) : Run DataAccessFault DataWriteResult :=
  _ ← guard_err (negb (bool_decide (value_size value = access_size access)))
        (DataAccessFault_new address_space address KindWrite ValueSizeMismatch);
  s ← gets id;
  resolved ← lift (resolve_access s address_space address access KindWrite);
  _ ← lift (check_data_fault s address_space address KindWrite);
  if bool_decide (resolved_region resolved = Device) then
    if bool_decide (is_Some (resolved_second resolved))
    then throw (DataAccessFault_new address_space address KindWrite MixedRegions)
    else
      _ ← call_device address_space address KindWrite (physical_page (resolved_first resolved))
            (fun handler => mmio_write handler (page_offset address) access value);
      mret {| write_region := Device |}
  else
    let byte_count := bytes (access_size access) in
    data ← lift (value_le_bytes value (Z.to_nat byte_count));
    _ ← write_ram address_space address byte_count data resolved;
    mret {| write_region := Ram |}.

(** ** Atomic transactions *)

Definition atomic_transaction (address_space : AddressSpaceId) (address : GuestVirtualAddress)
    (access : MemoryAccess) (operation : MemoryValue -> res DataAccessFault (MemoryValue * bool)) :
    Run DataAccessFault AtomicMemoryResult :=
  _ ← guard_err (negb (bool_decide (access_class access = Atomic)) ||
                 negb (bool_decide (access_alignment access = Natural)))
        (DataAccessFault_new address_space address KindWrite InvalidAtomicAccess);
  s ← gets id;
  _ ← lift (resolve_access s address_space address access KindRead);
  resolved ← lift (resolve_access s address_space address access KindWrite);
  _ ← guard_err (bool_decide (is_Some (resolved_second resolved)) ||
                 negb (bool_decide (resolved_region resolved = Ram)))
        (DataAccessFault_new address_space address KindWrite AtomicRegionUnsupported);
  _ ← lift (check_data_fault s address_space address KindRead);
  _ ← lift (check_data_fault s address_space address KindWrite);
  let page := physical_page (resolved_first resolved) in
  let offset := page_offset address in
  let byte_count := bytes (access_size access) in
  '(contents, generation) ← lift (ram_page s page);
  previous_bytes ← lift (ram_bytes contents offset byte_count);
  previous ← lift (value_from_le_slice (access_size access) previous_bytes);
  '(replacement, stored) ← lift (operation previous);
  _ ← guard_err (negb (bool_decide (value_size replacement = access_size access)))
        (DataAccessFault_new address_space address KindWrite ValueSizeMismatch);
  _ ← (if stored : bool then
         next_generation ← lift (next_content_generation address_space address generation);
         data ← lift (value_le_bytes replacement (Z.to_nat byte_count));
         _ ← store_bytes page offset byte_count data;
         store_generation page next_generation
       else mret tt);
  mret {| previous := previous; stored := stored; atomic_region := Ram |}.

Definition atomic_read_modify_write (address_space : AddressSpaceId) (address : GuestVirtualAddress)
    (access : MemoryAccess) (kind : AtomicRmwKind) (operand : MemoryValue) :
    Run DataAccessFault AtomicMemoryResult :=
  _ ← guard_err (negb (bool_decide (value_size operand = access_size access)))
        (DataAccessFault_new address_space address KindWrite ValueSizeMismatch);
  atomic_transaction address_space address access (fun previous =>
    replacement ← expect (AtomicRmwKind_apply kind previous operand);
    Ok (replacement, true)).

Definition atomic_compare_exchange (address_space : AddressSpaceId) (address : GuestVirtualAddress)
    (access : MemoryAccess) (expected replacement : MemoryValue) :
    Run DataAccessFault AtomicMemoryResult :=
  _ ← guard_err (negb (bool_decide (value_size expected = access_size access)) ||
                 negb (bool_decide (value_size replacement = access_size access)))
        (DataAccessFault_new address_space address KindWrite ValueSizeMismatch);
  atomic_transaction address_space address access (fun previous =>
    Ok (if bool_decide (previous = expected) then (replacement, true) else (previous, false))).

Definition load_exclusive (address_space : AddressSpaceId) (address : GuestVirtualAddress)
    (access : MemoryAccess) : Run DataAccessFault (DataReadResult * ExclusiveReservation) :=
  s ← gets id;
  resolved ← lift (resolve_access s address_space address access KindRead);
  _ ← guard_err (bool_decide (is_Some (resolved_second resolved)))
        (DataAccessFault_new address_space address KindRead MixedRegions);
  let mapping := resolved_first resolved in
  match pages s !! physical_page mapping with
  | None => lift Panic
  | Some (Mmio _) => throw (DataAccessFault_new address_space address KindRead MixedRegions)
  | Some (RamPage contents _) =>
      data ← lift (ram_bytes contents (page_offset address) (bytes (access_size access)));
      value ← lift (value_from_le_slice (access_size access) data);
      mret ({| read_value := value; read_region := Ram |},
            {| reserved_page := physical_page mapping;
               reserved_byte_offset := wrap 16 (page_offset address);
               reserved_access_size := wrap 8 (bytes (access_size access));
               reserved_expected := value |})
  end.

Definition reservation_matches (reservation : ExclusiveReservation) (page : GuestPhysicalPageId)
    (address : GuestVirtualAddress) (access : MemoryAccess) : bool :=
  (reserved_page reservation =? page) &&
  (reserved_byte_offset reservation =? page_offset address) &&
  (reserved_access_size reservation =? bytes (access_size access)).

Definition store_exclusive (address_space : AddressSpaceId) (address : GuestVirtualAddress)
    (access : MemoryAccess) (value : MemoryValue) (reservation : ExclusiveReservation) :
    Run DataAccessFault (DataWriteResult * bool) :=
  _ ← guard_err (negb (bool_decide (value_size value = access_size access)))
        (DataAccessFault_new address_space address KindWrite ValueSizeMismatch);
  s ← gets id;
  resolved ← lift (resolve_access s address_space address access KindWrite);
  _ ← guard_err (bool_decide (is_Some (resolved_second resolved)))
        (DataAccessFault_new address_space address KindWrite MixedRegions);
  let page := physical_page (resolved_first resolved) in
  _ ← guard_err (match pages s !! page with Some (RamPage _ _) => false | _ => true end)
        (DataAccessFault_new address_space address KindWrite MixedRegions);
  if negb (reservation_matches reservation page address access)
  then mret ({| write_region := Ram |}, false)
  else
    let atomic_access := MemoryAccess_new (access_size access) Natural (access_ordering access) Atomic in
    result ← atomic_compare_exchange address_space address atomic_access
               (reserved_expected reservation) value;
    mret ({| write_region := Ram |}, stored result).

(** ** Cache maintenance and instruction fetch *)

(** [log.reserve(..).map_err(..)?] on the backend's stream. *)
Definition reserve_or {E A} (reserved : MemoryInvalidationLog -> res MemoryInvalidationError A)
    (error : MemoryInvalidationError -> E) : Run E A :=
  fun s => match reserved (invalidations s) with
           | Ok reservation => (s, Ok reservation)
           | Err reason => (s, Err (error reason))
           | Panic => (s, Panic)
           end.

Definition maintain_cache (address_space : AddressSpaceId) (kind : CacheMaintenanceKind)
    (address : option GuestVirtualAddress) : Run DataAccessFault unit :=
  let invalidate := match kind with InstructionInvalidate => true | _ => false end in
  match address with
  | None =>
      if invalidate then
        record ← reserve_or (fun log => reserve log (InstructionCache address_space))
          (fun reason => DataAccessFault_new address_space Address.MIN KindRead
                           (HostBacking (fmt_invalidation_error reason)));
        commit_invalidation (commit record)
      else throw (DataAccessFault_new address_space Address.MIN KindRead AddressOverflow)
  | Some address =>
      s ← gets id;
      mapping ← lift (ok_or (mapping_at s address_space address)
                        (DataAccessFault_new address_space address KindRead Unmapped));
      _ ← guard_err (match pages s !! physical_page mapping with
                     | Some (RamPage _ _) => false | _ => true end)
            (DataAccessFault_new address_space address KindRead
               (DeviceFault "cache maintenance requires RAM"));
      if invalidate then
        record ← reserve_or (fun log => reserve_with_origin log
                               (ExecutableContent (physical_page mapping) None) CacheMaintenance)
          (fun reason => DataAccessFault_new address_space address KindRead
                           (HostBacking (fmt_invalidation_error reason)));
        commit_invalidation (commit record)
      else mret tt
  end.

(** The executable RAM page under an address. *)
Definition fetch_page (s : Memory) (address_space : AddressSpaceId) (current : GuestVirtualAddress) :
    res InstructionFetchFault (Mapping * option (list Z)) :=
  let fault reason := InstructionFetchFault_new address_space current reason in
  mapping ← ok_or (mapping_at s address_space current) (fault FetchUnmapped);
  if negb (MemoryPermissions.contains (permissions mapping) MemoryPermissions.EXECUTE)
  then Err (fault ExecutePermissionDenied)
  else match pages s !! physical_page mapping with
       | Some (RamPage contents _) => Ok (mapping, contents)
       | _ => Err (fault (FetchMemory "executable mapping is not RAM"))
       end.

Definition dependency_of (mapping : Mapping) : CodePageDependency :=
  {| dependency_page := physical_page mapping; dependency_generation := mapping_generation mapping |}.

(** [(0..N).find_map(..)] over injected faults. *)
Fixpoint find_instruction_fault (s : Memory) (address_space : AddressSpaceId)
    (address : GuestVirtualAddress) (indices : list Z) : option (Z * string) :=
  match indices with
  | [] => None
  | index :: indices =>
      match (current ← Address.checked_add address index;
             reason ← instruction_faults s !! (address_space, current);
             Some (current, reason)) with
      | Some found => Some found
      | None => find_instruction_fault s address_space address indices
      end
  end.

(** The byte loop of a fetch that crosses a page. *)
Fixpoint fetch_bytes (s : Memory) (address_space : AddressSpaceId) (address : GuestVirtualAddress)
    (indices : list Z) (data : list Z) (dependencies : option CodeDependencies) :
    res InstructionFetchFault (list Z * option CodeDependencies) :=
  match indices with
  | [] => Ok (data, dependencies)
  | index :: indices =>
      match Address.checked_add address index with
      | None => Err (InstructionFetchFault_new address_space address FetchAddressOverflow)
      | Some current =>
          match instruction_faults s !! (address_space, current) with
          | Some reason => Err (InstructionFetchFault_new address_space current (FetchMemory reason))
          | None =>
              '(mapping, contents) ← fetch_page s address_space current;
              byte ← match contents with
                     | None => Ok 0
                     | Some contents => expect (contents !! Z.to_nat (page_offset current))
                     end;
              let dependency := dependency_of mapping in
              dependencies ← match dependencies with
                             | None => Ok (dependencies_one dependency)
                             | Some current => dependencies_merge current (dependencies_one dependency)
                             end;
              fetch_bytes s address_space address indices (data ++ [byte]) (Some dependencies)
          end
      end
  end.

Definition fetch (n : Z) (s : Memory) (address_space : AddressSpaceId) (address : GuestVirtualAddress) :
    res InstructionFetchFault (list Z * CodeDependencies) :=
  if negb (Address.is_aligned_to address 4)
  then Err (InstructionFetchFault_new address_space address FetchMisaligned)
  else if page_offset address + n <=? SYNTHETIC_PAGE_SIZE then
    match find_instruction_fault s address_space address (seqZ 0 n) with
    | Some (fault_address, reason) =>
        Err (InstructionFetchFault_new address_space fault_address (FetchMemory reason))
    | None =>
        '(mapping, contents) ← fetch_page s address_space address;
        data ← ram_bytes contents (page_offset address) n;
        Ok (data, dependencies_one (dependency_of mapping))
    end
  else
    '(data, dependencies) ← fetch_bytes s address_space address (seqZ 0 n) [] None;
    dependencies ← expect dependencies;
    Ok (data, dependencies).

Definition fetch32 (s : Memory) (address_space : AddressSpaceId) (address : GuestVirtualAddress) :
    res InstructionFetchFault FetchedCode :=
  '(data, dependencies) ← fetch 4 s address_space address;
  Ok {| code_bits := from_le_bytes data; code_dependencies := dependencies |}.

Definition code_page_span (s : Memory) (address_space : AddressSpaceId) (address : GuestVirtualAddress) :
    res InstructionFetchFault CodePageSpan :=
  let page_start := page_address (virtual_page address) in
  mapping ← ok_or (mapping_at s address_space address)
              (InstructionFetchFault_new address_space address FetchUnmapped);
  if negb (MemoryPermissions.contains (permissions mapping) MemoryPermissions.EXECUTE)
  then Err (InstructionFetchFault_new address_space address ExecutePermissionDenied)
  else expect (span_containing page_start (Address.checked_add page_start SYNTHETIC_PAGE_SIZE) address).

(** ** Queries *)

Definition synthetic_mapping_state (s : Memory) (address_space : AddressSpaceId) (virtual_page : Z) :
    option MappingState :=
  mapping ← mappings s !! (address_space, virtual_page);
  page ← pages s !! physical_page mapping;
  Some (region_of page, permissions mapping, purpose mapping, attributes mapping).

(** Keys of the ordered map compare by address space, then page. *)
Definition key_lt (a b : Z * Z) : bool :=
  (fst a <? fst b) || ((fst a =? fst b) && (snd a <? snd b)).

(** [range(..bound).next_back()] and [range(bound..).next()], keys only. *)
Definition last_key_below (s : Memory) (bound : Z * Z) : option (Z * Z) :=
  foldr (fun key best => if key_lt key bound &&
                            match best with Some best => key_lt best key | None => true end
                         then Some key else best)
    None (map_to_list (mappings s)).*1.

Definition first_key_from (s : Memory) (bound : Z * Z) : option (Z * Z) :=
  foldr (fun key best => if negb (key_lt key bound) &&
                            match best with Some best => key_lt key best | None => true end
                         then Some key else best)
    None (map_to_list (mappings s)).*1.

Definition query_memory (s : Memory) (address_space : AddressSpaceId)
    (address end_exclusive : GuestVirtualAddress) : res Empty_set (option MemoryQueryResult) :=
  if end_exclusive <=? address then Ok None
  else
    let page := virtual_page address in
    let end_page := virtual_page end_exclusive in
    let state := synthetic_mapping_state s address_space page in
    '(first_page, last_page_exclusive) ←
      match state with
      | Some state =>
          coalesce_mapped_pages (synthetic_mapping_state s address_space) state
            (S (size (mappings s))) page end_page
      | None =>
          let previous := match last_key_below s (address_space, page) with
                          | Some (space, mapped_page) =>
                              if space =? address_space
                              then Z.min (mapped_page + 1) (2 ^ 64 - 1) else 0
                          | None => 0
                          end in
          let next := match first_key_from s (address_space, Z.min (page + 1) (2 ^ 64 - 1)) with
                      | Some (space, mapped_page) =>
                          if space =? address_space then mapped_page else end_page
                      | None => end_page
                      end in
          let next := Z.min next end_page in
          Ok (Z.min previous page, Z.max next (page + 1))
      end;
    Ok (memory_query_result first_page last_page_exclusive state).

Record SyntheticMappingInfo : Set := {
  info_physical_page : GuestPhysicalPageId;
  info_mapping_generation : Z;
  info_permissions : Z;
  info_attributes : Z;
  info_purpose : MemoryMappingPurpose }.

Definition mapping_info (s : Memory) (address_space : AddressSpaceId) (address : GuestVirtualAddress) :
    option SyntheticMappingInfo :=
  mapping ← mapping_at s address_space address;
  Some {| info_physical_page := physical_page mapping;
          info_mapping_generation := mapping_generation mapping;
          info_permissions := permissions mapping; info_attributes := attributes mapping;
          info_purpose := purpose mapping |}.

Definition physical_page_count (s : Memory) : nat := size (pages s).

(** ** Fixtures *)

(** [BTreeMap::insert(..).is_none()]. *)
Definition add_ram_page {E} (page : GuestPhysicalPageId) : Run E bool :=
  s ← gets id;
  _ ← modify (fun s => set_pages (<[page := RamPage (Some zero_page) ContentGeneration.INITIAL]>
                                    (pages s)) s);
  mret (bool_decide (pages s !! page = None)).

Definition add_mmio_page {E} (page : GuestPhysicalPageId) (handler : Handler) : Run E bool :=
  s ← gets id;
  _ ← modify (fun s => set_pages (<[page := Mmio handler]> (pages s)) s);
  mret (bool_decide (pages s !! page = None)).

Definition inject_install_failure {E} (stage : SyntheticInstallStage) (request_index : Z)
    (reason : string) : Run E unit :=
  modify (fun s =>
    {| mappings := mappings s; pages := pages s; instruction_faults := instruction_faults s;
       data_faults := data_faults s; next_page_id := next_page_id s;
       next_mapping_generation := next_mapping_generation s;
       install_failure := Some (stage, request_index, reason); invalidations := invalidations s |}).

Definition inject_instruction_fault {E} (address_space : AddressSpaceId)
    (address : GuestVirtualAddress) (reason : string) : Run E unit :=
  modify (fun s =>
    {| mappings := mappings s; pages := pages s;
       instruction_faults := <[(address_space, address) := reason]> (instruction_faults s);
       data_faults := data_faults s; next_page_id := next_page_id s;
       next_mapping_generation := next_mapping_generation s;
       install_failure := install_failure s; invalidations := invalidations s |}).

Definition inject_data_fault {E} (address_space : AddressSpaceId) (address : GuestVirtualAddress)
    (kind : DataAccessKind) (reason : string) : Run E unit :=
  modify (fun s =>
    {| mappings := mappings s; pages := pages s; instruction_faults := instruction_faults s;
       data_faults := <[(address_space, address, kind) := reason]> (data_faults s);
       next_page_id := next_page_id s; next_mapping_generation := next_mapping_generation s;
       install_failure := install_failure s; invalidations := invalidations s |}).

(** A [bool]-valued operation whose early [return false] is an [Err]. *)
Definition or_false {E} (m : Run unit unit) : Run E bool :=
  fun s => match m s with
           | (s, Ok _) => (s, Ok true)
           | (s, Err _) => (s, Ok false)
           | (s, Panic) => (s, Panic)
           end.

Definition map_page {E} (address_space : AddressSpaceId) (virtual_address : GuestVirtualAddress)
    (page : GuestPhysicalPageId) (perms : Z) : Run E bool :=
  or_false (
    _ ← guard_err (negb (Address.is_aligned_to virtual_address PAGE_SIZE)) tt;
    s ← gets id;
    _ ← guard_err (bool_decide (pages s !! page = None)) tt;
    let key := (address_space, virtual_page virtual_address) in
    _ ← guard_err (bool_decide (is_Some (mappings s !! key))) tt;
    record ← reserve_or (fun log => reserve log (Invalidation.Mapping address_space virtual_address PAGE_SIZE))
               (fun _ => tt);
    generation ← take_generation tt;
    s ← gets id;
    _ ← modify (fun s => set_mappings (<[key :=
          {| physical_page := page; mapping_generation := generation; permissions := perms;
             purpose := PurposeNormal; attributes := MemoryAttributes.NONE |}]> (mappings s)) s);
    _ ← (if bool_decide (is_Some (mappings s !! key)) then lift Panic (* debug_assert!(previous.is_none()) *)
         else mret tt);
    commit_invalidation (commit record)).

Definition initialize_ram {E} (page : GuestPhysicalPageId) (offset : Z) (data : list Z) : Run E bool :=
  or_false (
    s ← gets id;
    let code_observed := executable_page s page in
    match pages s !! page with
    | Some (RamPage contents generation) =>
        end_ ← lift (ok_or (checked_add 64 offset (Z.of_nat (List.length data))) tt);
        record ← (if code_observed then
                    record ← reserve_or (fun log => reserve_with_origin log
                               (ExecutableContent page None) HostWrite) (fun _ => tt);
                    mret (Some record)
                  else mret None);
        let contents := default zero_page contents in
        _ ← modify (fun s => set_pages (<[page := RamPage (Some contents) generation]> (pages s)) s);
        _ ← guard_err (Z.of_nat (List.length contents) <? end_) tt;
        next_generation ← lift (match ContentGeneration.next generation with
                                | Ok next => Ok next | _ => Err tt end);
        _ ← modify (fun s => set_pages (<[page :=
              RamPage (Some (list_inserts (Z.to_nat offset) data contents)) next_generation]> (pages s)) s);
        match record with
        | Some record => commit_invalidation (commit record)
        | None => mret tt
        end
    | _ => throw tt
    end).

(** [for page in range { let mapping = mappings.get_mut(..).expect(..); .. }]. *)
Fixpoint update_mappings {E} (address_space : AddressSpaceId) (update : Mapping -> res E Mapping)
    (range : list Z) : Run E unit :=
  match range with
  | [] => mret tt
  | page :: range =>
      s ← gets id;
      mapping ← lift (expect (mappings s !! (address_space, page)));
      mapping ← lift (update mapping);
      _ ← modify (fun s => set_mappings (<[(address_space, page) := mapping]> (mappings s)) s);
      update_mappings address_space update range
  end.

Definition set_mapping_purpose {E} (address_space : AddressSpaceId) (start : GuestVirtualAddress)
    (size : Z) (new_purpose : MemoryMappingPurpose) : Run E bool :=
  match PageRange_new start size with
  | Some range =>
      if PageRange_is_empty range then mret false
      else
        s ← gets id;
        if negb (forallb (fun page => bool_decide (is_Some (mappings s !! (address_space, page))))
                   (range_pages range)) then mret false
        else if forallb (fun page => match mappings s !! (address_space, page) with
                                     | Some mapping => bool_decide (purpose mapping = new_purpose)
                                     | None => false end) (range_pages range) then mret true
        else or_false (
          record ← reserve_or (fun log => reserve log (Invalidation.Mapping address_space start size))
                     (fun _ => tt);
          generation ← take_generation tt;
          _ ← update_mappings address_space (fun mapping =>
                Ok {| physical_page := physical_page mapping; mapping_generation := generation;
                      permissions := permissions mapping; purpose := new_purpose;
                      attributes := attributes mapping |}) (range_pages range);
          commit_invalidation (commit record))
  | None => mret false
  end.

(** ** Bulk transfers *)

(** The injected fault with the least address in a range. *)
Definition first_data_fault (s : Memory) (address_space : AddressSpaceId) (kind : DataAccessKind)
    (start end_ : Z) : option (GuestVirtualAddress * string) :=
  foldr (fun '(space, current, fault_kind, reason) best =>
           if (space =? address_space) && bool_decide (fault_kind = kind) && (start <=? current) &&
              (current <? end_) &&
              match best with Some (found, _) => current <? found | None => true end
           then Some (current, reason) else best)
    None (map_to_list (data_faults s)).

(** The range check and the injected fault both bulk transfers start with. *)
Definition bulk_range (s : Memory) (address_space : AddressSpaceId) (address : GuestVirtualAddress)
    (kind : DataAccessKind) (length : Z) : res DataAccessFault Z :=
  if 2 ^ 64 <=? length then Err (DataAccessFault_new address_space address kind AddressOverflow)
  else match checked_add 64 address length with
       | None => Err (DataAccessFault_new address_space address kind AddressOverflow)
       | Some end_ =>
           match first_data_fault s address_space kind address end_ with
           | Some (fault_address, reason) =>
               Err (DataAccessFault_new address_space fault_address kind (Injected reason))
           | None => Ok end_
           end
       end.

(** A mapped RAM page with the permission a bulk transfer needs. *)
Definition bulk_page (s : Memory) (address_space : AddressSpaceId) (current : GuestVirtualAddress)
    (kind : DataAccessKind) (not_ram : string) :
    res DataAccessFault (Mapping * option (list Z) * Z) :=
  let fault reason := DataAccessFault_new address_space current kind reason in
  mapping ← ok_or (mapping_at s address_space current) (fault Unmapped);
  if negb (MemoryPermissions.contains (permissions mapping) (required_permission kind))
  then Err (fault (permission_denied kind))
  else match pages s !! physical_page mapping with
       | None => Panic
       | Some (Mmio _) => Err (fault (DeviceFault not_ram))
       | Some (RamPage contents generation) => Ok (mapping, contents, generation)
       end.

Definition bulk_count (current remaining : Z) : Z :=
  Z.min (SYNTHETIC_PAGE_SIZE - page_offset current) remaining.

(** The copy loop of [read_bytes], on the output buffer. *)
Fixpoint read_loop (fuel : nat) (s : Memory) (address_space : AddressSpaceId)
    (address : GuestVirtualAddress) (copied : Z) : M (list Z) DataAccessFault unit :=
  match fuel with
  | O => lift Panic
  | S fuel =>
      output ← gets id;
      let length := Z.of_nat (List.length output) in
      if copied <? length then
        current ← lift (expect (Address.checked_add address copied));
        '(_, contents, _) ← lift (bulk_page s address_space current KindRead
                                    "bulk guest-memory reads require RAM");
        let count := bulk_count current (length - copied) in
        data ← lift (ram_bytes contents (page_offset current) count);
        output ← lift (copy_range output copied count data);
        _ ← modify (fun _ => output);
        read_loop fuel s address_space address (copied + count)
      else mret tt
  end.

Definition read_bytes (s : Memory) (address_space : AddressSpaceId) (address : GuestVirtualAddress) :
    M (list Z) DataAccessFault unit :=
  output ← gets id;
  _ ← lift (bulk_range s address_space address KindRead (Z.of_nat (List.length output)));
  read_loop (S (List.length output)) s address_space address 0.

(** The validation loop of [write_bytes]: the next generation of every page. *)
Fixpoint write_validate (fuel : nat) (s : Memory) (address_space : AddressSpaceId) (cursor end_ : Z)
    (next_generations : gmap Z Z) : res DataAccessFault (gmap Z Z) :=
  match fuel with
  | O => Panic
  | S fuel =>
      if cursor <? end_ then
        '(mapping, _, generation) ← bulk_page s address_space cursor KindWrite
                                      "bulk guest-memory writes require RAM";
        next_generations ←
          match next_generations !! physical_page mapping with
          | Some _ => Ok next_generations
          | None =>
              next ← next_content_generation address_space cursor generation;
              Ok (<[physical_page mapping := next]> next_generations)
          end;
        write_validate fuel s address_space (cursor + bulk_count cursor (end_ - cursor)) end_
          next_generations
      else Ok next_generations
  end.

Fixpoint write_loop (fuel : nat) (address_space : AddressSpaceId) (address : GuestVirtualAddress)
    (data : list Z) (copied : Z) : Run DataAccessFault unit :=
  match fuel with
  | O => lift Panic
  | S fuel =>
      let length := Z.of_nat (List.length data) in
      if copied <? length then
        current ← lift (expect (Address.checked_add address copied));
        s ← gets id;
        mapping ← lift (expect (mapping_at s address_space current));
        let count := bulk_count current (length - copied) in
        part ← lift (index_range data copied count);
        _ ← store_bytes (physical_page mapping) (page_offset current) count part;
        write_loop fuel address_space address data (copied + count)
      else mret tt
  end.

Fixpoint store_generations (generations : list (Z * Z)) : Run DataAccessFault unit :=
  match generations with
  | [] => mret tt
  | (page, next) :: generations => _ ← store_generation page next; store_generations generations
  end.

Definition write_bytes (address_space : AddressSpaceId) (address : GuestVirtualAddress)
    (data : list Z) : Run DataAccessFault unit :=
  s ← gets id;
  end_ ← lift (bulk_range s address_space address KindWrite (Z.of_nat (List.length data)));
  next_generations ← lift (write_validate (S (List.length data)) s address_space address end_ ∅);
  let host_fault detail := DataAccessFault_new address_space address KindWrite (HostBacking detail) in
  _ ← guard_err (negb (can_reserve (Z.of_nat (size next_generations))))
        (host_fault "memory invalidation allocation failed");
  let kinds := map (fun page => ExecutableContent page None)
                 (filter (fun page => executable_page s page = true) (in_key_order next_generations).*1) in
  batch ← (match kinds with
           | [] => mret None
           | _ => batch ← reserve_or (fun log => reserve_many_from log kinds HostWrite)
                            (fun reason => host_fault (fmt_invalidation_error reason));
                  mret (Some batch)
           end);
  _ ← write_loop (S (List.length data)) address_space address data 0;
  _ ← store_generations (in_key_order next_generations);
  match batch with
  | Some batch => commit_invalidation (commit_many batch)
  | None => mret tt
  end.

(** ** Mapping operations *)

Definition mapping_error (address_space : AddressSpaceId) (address : GuestVirtualAddress)
    (reason : MemoryMappingErrorReason) : MemoryMappingError :=
  {| mapping_error_space := address_space; mapping_error_address := address;
     mapping_error_reason := reason |}.

(** The first page of a list that fails a check, as an error. *)
Fixpoint check_pages {E} (check : Z -> res E unit) (range : list Z) : res E unit :=
  match range with
  | [] => Ok tt
  | page :: range => _ ← check page; check_pages check range
  end.

(** The shrinking loop: unmap, and drop physical pages no mapping refers to. *)
Fixpoint unmap_pages {E} (address_space : AddressSpaceId) (range : list Z) : Run E unit :=
  match range with
  | [] => mret tt
  | page :: range =>
      s ← gets id;
      mapping ← lift (expect (mappings s !! (address_space, page)));
      let rest := delete (address_space, page) (mappings s) in
      let still_mapped := bool_decide (map_Exists (fun _ candidate =>
                            physical_page candidate = physical_page mapping) rest) in
      _ ← modify (fun s => set_pages (if still_mapped then pages s
                                      else delete (physical_page mapping) (pages s))
                             (set_mappings rest s));
      unmap_pages address_space range
  end.

(** The allocation loop: one identity per new page. *)
Fixpoint allocate_pages {E} (s : Memory) (next : Z) (exhausted : E) (range : list Z) :
    res E (list (Z * Z) * Z) :=
  match range with
  | [] => Ok ([], next)
  | page :: range =>
      match allocate_page_id (S (size (pages s))) next
              (fun page => bool_decide (is_Some (pages s !! page))) with
      | Ok (Some (physical, next)) =>
          '(pending, next) ← allocate_pages s next exhausted range;
          Ok ((page, physical) :: pending, next)
      | Ok None => Err exhausted
      | _ => Panic
      end
  end.

Definition resize_zeroed_mapping (address_space : AddressSpaceId) (start : GuestVirtualAddress)
    (old_size new_size : Z) (perms : Z) (purp : MemoryMappingPurpose) : Run MemoryMappingError unit :=
  let error := mapping_error address_space in
  match PageRange_new start old_size, PageRange_new start new_size with
  | Some old_range, Some new_range =>
      _ ← guard_err (writable_executable perms) (error start MappingWritableExecutable);
      let first_page := range_first old_range in
      let old_end_page := range_end old_range in
      let new_end_page := range_end new_range in
      s ← gets id;
      _ ← lift (check_pages (fun page =>
            match mappings s !! (address_space, page) with
            | None => Err (error (page_address page) MappingStateMismatch)
            | Some mapping =>
                if negb (bool_decide (purpose mapping = purp)) || negb (permissions mapping =? perms)
                then Err (error (page_address page) MappingStateMismatch) else Ok tt
            end) (seqZ first_page (old_end_page - first_page)));
      _ ← lift (check_pages (fun page =>
            if bool_decide (is_Some (mappings s !! (address_space, page)))
            then Err (error (page_address page) AlreadyMapped) else Ok tt)
            (seqZ old_end_page (new_end_page - old_end_page)));
      let reserve_mapping :=
        reserve_or (fun log => reserve log
                      (Invalidation.Mapping address_space start (Z.max old_size new_size)))
          (fun _ => error start MappingResourceExhausted) in
      if new_end_page <? old_end_page then
        record ← reserve_mapping;
        _ ← unmap_pages address_space (seqZ new_end_page (old_end_page - new_end_page));
        commit_invalidation (commit record)
      else if new_end_page =? old_end_page then mret tt
      else
        let additional_pages := new_end_page - old_end_page in
        _ ← guard_err (negb (can_reserve additional_pages)) (error start MappingResourceExhausted);
        '(pending, next) ← lift (allocate_pages s (next_page_id s)
                                   (error start MappingResourceExhausted)
                                   (seqZ old_end_page additional_pages));
        record ← reserve_mapping;
        generation ← take_generation (error start MappingGenerationExhausted);
        _ ← modify (fun s => foldl (fun s '(page, physical) =>
              set_mappings (<[(address_space, page) :=
                {| physical_page := physical; mapping_generation := generation; permissions := perms;
                   purpose := purp; attributes := MemoryAttributes.NONE |}]> (mappings s))
                (set_pages (<[physical := RamPage None 1]> (pages s)) s)) s pending);
        _ ← modify (set_next_page_id next);
        commit_invalidation (commit record)
  | _, _ => throw (error start MappingInvalidRange)
  end.

(** ** Aliases *)

Definition alias_error (request : MemoryAliasRequest) (address : GuestVirtualAddress)
    (reason : MemoryAliasErrorReason) : MemoryAliasError :=
  {| alias_error_space := alias_address_space request; alias_error_address := address;
     alias_error_reason := reason |}.

Definition is_ram (s : Memory) (page : GuestPhysicalPageId) : bool :=
  match pages s !! page with Some (RamPage _ _) => true | _ => false end.

(** [mapping.permissions = ..; ..] of an alias transition. *)
Definition with_properties (properties : MemoryMappingProperties) (generation : Z) (mapping : Mapping) :
    Mapping :=
  {| physical_page := physical_page mapping; mapping_generation := generation;
     permissions := prop_permissions properties; purpose := prop_purpose properties;
     attributes := prop_attributes properties |}.

(** The page pairs of a request, or the range error. *)
Definition alias_ranges (request : MemoryAliasRequest) : res MemoryAliasError (list (Z * Z)) :=
  match PageRange_new (alias_source request) (alias_size request),
        PageRange_new (alias_destination request) (alias_size request) with
  | Some source_range, Some destination_range =>
      if PageRange_is_empty source_range
      then Err (alias_error request (alias_source request) AliasInvalidRange)
      else Ok (zip (range_pages source_range) (range_pages destination_range))
  | _, _ => Err (alias_error request (alias_source request) AliasInvalidRange)
  end.

Definition alias_reserve (request : MemoryAliasRequest) : Run MemoryAliasError BatchReservation :=
  let space := alias_address_space request in
  reserve_or (fun log => reserve_many log
      [Invalidation.Mapping space (alias_source request) (alias_size request);
       Invalidation.Mapping space (alias_destination request) (alias_size request)])
    (fun _ => alias_error request (alias_source request) AliasResourceExhausted).

Fixpoint check_map_alias (s : Memory) (request : MemoryAliasRequest) (pairs : list (Z * Z)) :
    res MemoryAliasError unit :=
  let space := alias_address_space request in
  match pairs with
  | [] => Ok tt
  | (source_page, destination_page) :: pairs =>
      match mappings s !! (space, source_page) with
      | None => Err (alias_error request (page_address source_page) SourceStateMismatch)
      | Some source_mapping =>
          if negb (bool_decide (properties source_mapping = alias_source_before request)) ||
             negb (is_ram s (physical_page source_mapping))
          then Err (alias_error request (page_address source_page) SourceStateMismatch)
          else if bool_decide (is_Some (mappings s !! (space, destination_page)))
          then Err (alias_error request (page_address destination_page) DestinationStateMismatch)
          else check_map_alias s request pairs
      end
  end.

Fixpoint publish_alias (request : MemoryAliasRequest) (generation : Z) (pairs : list (Z * Z)) :
    Run MemoryAliasError unit :=
  let space := alias_address_space request in
  match pairs with
  | [] => mret tt
  | (source_page, destination_page) :: pairs =>
      s ← gets id;
      source_mapping ← lift (expect (mappings s !! (space, source_page)));
      let updated := <[(space, source_page) :=
        with_properties (alias_source_after request) generation source_mapping]> (mappings s) in
      _ ← (if bool_decide (is_Some (updated !! (space, destination_page)))
           then lift Panic (* debug_assert!(previous.is_none()) *) else mret tt);
      _ ← modify (set_mappings (<[(space, destination_page) :=
            with_properties (alias_destination_properties request) generation source_mapping]> updated));
      publish_alias request generation pairs
  end.

Definition map_alias (request : MemoryAliasRequest) : Run MemoryAliasError unit :=
  pairs ← lift (alias_ranges request);
  s ← gets id;
  _ ← lift (check_map_alias s request pairs);
  batch ← alias_reserve request;
  generation ← take_generation (alias_error request (alias_source request) AliasGenerationExhausted);
  _ ← publish_alias request generation pairs;
  commit_invalidation (commit_many batch).

Fixpoint check_unmap_alias (s : Memory) (request : MemoryAliasRequest) (pairs : list (Z * Z)) :
    res MemoryAliasError unit :=
  let space := alias_address_space request in
  match pairs with
  | [] => Ok tt
  | (source_page, destination_page) :: pairs =>
      match mappings s !! (space, source_page) with
      | None => Err (alias_error request (page_address source_page) SourceStateMismatch)
      | Some source_mapping =>
          if negb (bool_decide (properties source_mapping = alias_source_before request))
          then Err (alias_error request (page_address source_page) SourceStateMismatch)
          else match mappings s !! (space, destination_page) with
               | None => Err (alias_error request (page_address destination_page) DestinationStateMismatch)
               | Some destination_mapping =>
                   if negb (bool_decide (properties destination_mapping =
                                         alias_destination_properties request))
                   then Err (alias_error request (page_address destination_page) DestinationStateMismatch)
                   else if negb (physical_page source_mapping =? physical_page destination_mapping)
                   then Err (alias_error request (page_address destination_page) PhysicalIdentityMismatch)
                   else check_unmap_alias s request pairs
               end
      end
  end.

Fixpoint remove_alias (request : MemoryAliasRequest) (generation : Z) (pairs : list (Z * Z)) :
    Run MemoryAliasError unit :=
  let space := alias_address_space request in
  match pairs with
  | [] => mret tt
  | (source_page, destination_page) :: pairs =>
      s ← gets id;
      removed ← lift (expect (mappings s !! (space, destination_page)));
      let rest := delete (space, destination_page) (mappings s) in
      _ ← (if bool_decide (map_Exists (fun _ mapping => physical_page mapping = physical_page removed) rest)
           then mret tt else lift Panic (* debug_assert!(..any(..)) *));
      mapping ← lift (expect (rest !! (space, source_page)));
      _ ← modify (set_mappings (<[(space, source_page) :=
            with_properties (alias_source_after request) generation mapping]> rest));
      remove_alias request generation pairs
  end.

Definition unmap_alias (request : MemoryAliasRequest) : Run MemoryAliasError unit :=
  pairs ← lift (alias_ranges request);
  s ← gets id;
  _ ← lift (check_unmap_alias s request pairs);
  batch ← alias_reserve request;
  generation ← take_generation (alias_error request (alias_source request) AliasGenerationExhausted);
  _ ← remove_alias request generation pairs;
  commit_invalidation (commit_many batch).

(** ** Protection and attributes *)

Definition protection_error (address_space : AddressSpaceId) (address : GuestVirtualAddress)
    (reason : MemoryProtectionErrorReason) : MemoryProtectionError :=
  {| protection_error_space := address_space; protection_error_address := address;
     protection_error_reason := reason |}.

(** [PageRange::new(..).filter(|range| !range.is_empty())]. *)
Definition nonempty_range (start : GuestVirtualAddress) (size : Z) : option PageRange :=
  range ← PageRange_new start size;
  if PageRange_is_empty range then None else Some range.

Definition set_permissions (address_space : AddressSpaceId) (start : GuestVirtualAddress) (size : Z)
    (perms : Z) : Run MemoryProtectionError unit :=
  let error := protection_error address_space in
  range ← lift (ok_or (nonempty_range start size) (error start ProtectionInvalidRange));
  _ ← guard_err (writable_executable perms) (error start ProtectionWritableExecutable);
  s ← gets id;
  _ ← lift (check_pages (fun page =>
        match mappings s !! (address_space, page) with
        | None => Err (error (page_address page) ProtectionUnmapped)
        | Some mapping =>
            if MemoryAttributes.contains (attributes mapping) MemoryAttributes.PERMISSION_LOCKED &&
               negb (permissions mapping =? perms)
            then Err (error (page_address page) PermissionLocked) else Ok tt
        end) (range_pages range));
  let changed := existsb (fun page => match mappings s !! (address_space, page) with
                                      | Some mapping => negb (permissions mapping =? perms)
                                      | None => false end) (range_pages range) in
  if negb changed then mret tt
  else
    record ← reserve_or (fun log => reserve log (Invalidation.Mapping address_space start size))
               (fun _ => error start ProtectionGenerationExhausted);
    generation ← take_generation (error start ProtectionGenerationExhausted);
    _ ← update_mappings address_space (fun mapping =>
          Ok {| physical_page := physical_page mapping; mapping_generation := generation;
                permissions := perms; purpose := purpose mapping; attributes := attributes mapping |})
          (range_pages range);
    commit_invalidation (commit record).

Definition set_attributes (address_space : AddressSpaceId) (start : GuestVirtualAddress) (size : Z)
    (mask value : Z) : Run MemoryProtectionError unit :=
  let error := protection_error address_space in
  range ← lift (ok_or (nonempty_range start size) (error start ProtectionInvalidRange));
  _ ← guard_err (bool_decide (masked_attributes MemoryAttributes.NONE mask value = None))
        (error start ProtectionInvalidRange);
  s ← gets id;
  _ ← lift (check_pages (fun page =>
        if bool_decide (is_Some (mappings s !! (address_space, page))) then Ok tt
        else Err (error (page_address page) ProtectionUnmapped)) (range_pages range));
  changed ← lift (foldr (fun page rest =>
    mapping ← expect (mappings s !! (address_space, page));
    new ← expect (masked_attributes (attributes mapping) mask value);
    if negb (attributes mapping =? new) then Ok true else rest) (Ok false) (range_pages range));
  if negb changed then mret tt
  else
    record ← reserve_or (fun log => reserve log (Invalidation.Mapping address_space start size))
               (fun _ => error start ProtectionGenerationExhausted);
    generation ← take_generation (error start ProtectionGenerationExhausted);
    _ ← update_mappings address_space (fun mapping =>
          new ← expect (masked_attributes (attributes mapping) mask value);
          Ok {| physical_page := physical_page mapping; mapping_generation := generation;
                permissions := permissions mapping; purpose := purpose mapping; attributes := new |})
          (range_pages range);
    commit_invalidation (commit record).

(** ** Atomic installation *)

Definition fail_install_if_requested (s : Memory) (stage : SyntheticInstallStage) (index : Z)
    (address : GuestVirtualAddress) : res SyntheticInstallError unit :=
  match install_failure s with
  | Some (requested_stage, requested_index, reason) =>
      if bool_decide (requested_stage = stage) && (requested_index =? index)
      then Err (install_error stage (Some address) reason) else Ok tt
  | None => Ok tt
  end.

Fixpoint install_preflight (s : Memory) (address_space : AddressSpaceId) (index : Z)
    (unique_virtual_pages : gset Z) (requests : list SyntheticRamPage) :
    res SyntheticInstallError (list Z) :=
  match requests with
  | [] => Ok []
  | request :: requests =>
      let address := request_virtual_address request in
      _ ← fail_install_if_requested s Preflight index address;
      '(virtual_page, unique_virtual_pages) ← validate_install_request request unique_virtual_pages;
      if bool_decide (is_Some (mappings s !! (address_space, virtual_page)))
      then Err (install_error Preflight (Some address) "virtual page is already mapped")
      else
        virtual_pages ← install_preflight s address_space (index + 1) unique_virtual_pages requests;
        Ok (virtual_page :: virtual_pages)
  end.

(** Virtual page, physical page, permissions and contents of a pending page. *)
Record PendingPage : Set := {
  pending_virtual : Z;
  pending_physical : Z;
  pending_permissions : Z;
  pending_contents : list Z }.

Fixpoint install_allocate (s : Memory) (index next : Z)
    (requests : list (SyntheticRamPage * Z)) : res SyntheticInstallError (list PendingPage * Z) :=
  match requests with
  | [] => Ok ([], next)
  | (request, virtual_page) :: requests =>
      let address := request_virtual_address request in
      _ ← fail_install_if_requested s Allocation index address;
      match allocate_page_id (S (size (pages s))) next
              (fun page => bool_decide (is_Some (pages s !! page))) with
      | Ok (Some (physical, next)) =>
          _ ← fail_install_if_requested s Initialization index address;
          if negb (Z.of_nat (List.length (request_bytes request)) =? SYNTHETIC_PAGE_SIZE) then Panic
          else
            '(pending, next) ← install_allocate s (index + 1) next requests;
            Ok ({| pending_virtual := virtual_page; pending_physical := physical;
                   pending_permissions := request_permissions request;
                   pending_contents := request_bytes request |} :: pending, next)
      | Ok None => Err (install_error Allocation (Some address) "physical-page identities are exhausted")
      | _ => Panic
      end
  end.

Fixpoint install_publication (s : Memory) (index : Z) (requests : list SyntheticRamPage) :
    res SyntheticInstallError unit :=
  match requests with
  | [] => Ok tt
  | request :: requests =>
      _ ← fail_install_if_requested s Publication index (request_virtual_address request);
      install_publication s (index + 1) requests
  end.

(** The insertion loop, with its two [debug_assert!]s. *)
Fixpoint publish_pages (address_space : AddressSpaceId) (generation : Z) (pending : list PendingPage) :
    Run SyntheticInstallError unit :=
  match pending with
  | [] => mret tt
  | p :: pending =>
      s ← gets id;
      let key := (address_space, pending_virtual p) in
      _ ← (if bool_decide (pages s !! pending_physical p = None) &&
              bool_decide (mappings s !! key = None) then mret tt else lift Panic);
      _ ← modify (fun s => set_mappings (<[key :=
            {| physical_page := pending_physical p; mapping_generation := generation;
               permissions := pending_permissions p; purpose := PurposeNormal;
               attributes := MemoryAttributes.NONE |}]> (mappings s))
            (set_pages (<[pending_physical p := RamPage (Some (pending_contents p)) 1]> (pages s)) s));
      publish_pages address_space generation pending
  end.

Definition install_ram_pages_atomic (address_space : AddressSpaceId)
    (requests : list SyntheticRamPage) : Run SyntheticInstallError unit :=
  s ← gets id;
  let first_address := request_virtual_address <$> head requests in
  virtual_pages ← lift (install_preflight s address_space 0 ∅ requests);
  '(pending, next) ← lift (install_allocate s 0 (next_page_id s) (zip requests virtual_pages));
  _ ← lift (install_publication s 0 requests);
  _ ← guard_err (negb (can_reserve (Z.of_nat (List.length virtual_pages))))
        (install_error Publication first_address "memory invalidation allocation failed");
  let kinds := map (fun page => Invalidation.Mapping address_space (page_address page) PAGE_SIZE)
                 virtual_pages in
  batch ← (match kinds with
           | [] => mret None
           | _ => batch ← reserve_or (fun log => reserve_many log kinds)
                            (fun reason => install_error Publication first_address
                                             (fmt_invalidation_error reason));
                  mret (Some batch)
           end);
  generation ← (match pending with
                | [] => mret MappingGeneration.INITIAL
                | _ => take_generation (install_error Allocation first_address
                                          "mapping generations are exhausted")
                end);
  _ ← publish_pages address_space generation pending;
  _ ← modify (set_next_page_id next);
  match batch with
  | Some batch => commit_invalidation (commit_many batch)
  | None => mret tt
  end.
End Backend.
End SyntheticMemory.
