(* ===== verification/SyntheticInv.v ===== *)
(** * The synthetic backend: invariant and the bytes it stands for

    [memory_ok] is the invariant of the backend's state.  [cell] is the byte at
    an offset of a physical page, [byte_at] the byte a virtual address shows;
    reads and writes are specified over them, so that virtual aliases of one
    physical page are visible in the statements. *)

From Stdlib Require Import ZArith Lia Bool String.
From stdpp Require Import base numbers list option strings gmap.
From S2P Require Import Prelude RustInt RustList Bytes GuestAddress Invalidation A64Semantics.
From S2P Require Import MemoryContracts MemoryCommon Synthetic.
Import SyntheticMemory.
Local Open Scope list_scope.
Local Open Scope Z_scope.

(** Reads the state at the start of a computation. *)
Ltac wp_state := apply wp_bind, wp_gets; unfold id.

(** The state of a rejected access. *)
Ltac rejected := intros; split; [done|by left].

(** What the backend relies on in a device handler: its callbacks return, and
    their values fit their types. *)
Class SyntheticMmioOk (Handler : Type) `{SyntheticMmio Handler} : Prop := {
  mmio_read_returns h offset access :
    match snd (mmio_read h offset access) with Ok v => value_wf v | Err _ => True | Panic => False end;
  mmio_write_returns h offset access value : snd (mmio_write h offset access value) <> Panic }.

Lemma page_size_value : SYNTHETIC_PAGE_SIZE = 4096.
Proof. done. Qed.

Definition contents_ok (contents : option (list Z)) : Prop :=
  match contents with
  | Some l => Z.of_nat (List.length l) = SYNTHETIC_PAGE_SIZE /\ bytes_ok l
  | None => True
  end.

Definition page_ok {Handler} (page : PhysicalPage Handler) : Prop :=
  match page with RamPage contents generation => contents_ok contents /\ fits 64 generation | Mmio _ => True end.

Definition attributes_ok (attributes : Z) : Prop := MemoryAttributes.from_bits attributes = Some attributes.

Section Invariant.
Context {Handler : Type} `{SyntheticMmioOk Handler}.
Implicit Types (s : State Handler).

Record memory_ok s : Prop := {
  ok_mapped : forall space page m, mappings s !! (space, page) = Some m ->
    0 <= page < 2 ^ 52 /\ is_Some (pages s !! physical_page m) /\ attributes_ok (attributes m);
  ok_pages : forall p page, pages s !! p = Some page -> page_ok page;
  ok_next_page : fits 64 (next_page_id s);
  ok_generation : match next_mapping_generation s with
    | Some next => fits 64 next /\
        (forall key m, mappings s !! key = Some m -> mapping_generation m < next)
    | None => True
    end;
  ok_log : exists history, represents history (invalidations s) }.

Lemma new_ok : memory_ok new.
Proof.
  split; simpl; try done.
  - by exists [].
Qed.

(** ** Cells *)

Definition page_bytes (contents : option (list Z)) : list Z := default zero_page contents.

Definition cell s (p offset : Z) : option Z :=
  match pages s !! p with
  | Some (RamPage contents _) => page_bytes contents !! Z.to_nat offset
  | _ => None
  end.

Definition byte_at s (space : AddressSpaceId) (address : Z) : option Z :=
  m ← mapping_at s space address; cell s (physical_page m) (page_offset address).

Lemma page_bytes_length contents :
  contents_ok contents -> Z.of_nat (List.length (page_bytes contents)) = SYNTHETIC_PAGE_SIZE.
Proof. by destruct contents; simpl; [intros []|]. Qed.

Lemma page_bytes_ok contents : contents_ok contents -> bytes_ok (page_bytes contents).
Proof. destruct contents; simpl; [intros []; done|]. intros _. apply bytes_ok_zeros. Qed.

Lemma ram_bytes_spec {E} contents offset count :
  contents_ok contents -> 0 <= offset -> 0 <= count -> offset + count <= SYNTHETIC_PAGE_SIZE ->
  @ram_bytes E contents offset count =
    Ok (slice (page_bytes contents) (Z.to_nat offset) (Z.to_nat count)).
Proof.
  intros Hc Ho Hn Hb. destruct contents as [l|]; simpl.
  - destruct Hc as [Hl _]. unfold index_range.
    by rewrite !Zle_imp_le_bool by lia.
  - f_equal. unfold slice, zero_page. rewrite drop_replicate, take_replicate. f_equal. lia.
Qed.

Lemma copy_range_spec {E} l offset count source :
  0 <= offset -> offset + count <= Z.of_nat (List.length l) -> Z.of_nat (List.length source) = count ->
  @copy_range E l offset count source = Ok (list_inserts (Z.to_nat offset) source l).
Proof.
  intros Ho Hb Hs. unfold copy_range. rewrite !Zle_imp_le_bool by lia.
  by rewrite (proj2 (Z.eqb_eq _ _)).
Qed.

Lemma index_range_spec {E} l offset count :
  0 <= offset -> 0 <= count -> offset + count <= Z.of_nat (List.length l) ->
  @index_range E l offset count = Ok (slice l (Z.to_nat offset) (Z.to_nat count)).
Proof. intros. unfold index_range. by rewrite !Zle_imp_le_bool by lia. Qed.

Lemma cell_ram s p contents generation offset :
  pages s !! p = Some (RamPage contents generation) ->
  cell s p offset = page_bytes contents !! Z.to_nat offset.
Proof. unfold cell. by intros ->. Qed.

(** Resolution finds mapped pages of the region it reports. *)
Lemma resolve_checked_mapping s space kind address m region :
  resolve_checked (resolve_mapping s space) space kind address = Ok (m, region) ->
  mapping_at s space address = Some m /\
  MemoryPermissions.contains (permissions m) (required_permission kind) = true /\
  exists page, pages s !! physical_page m = Some page /\ region_of page = region.
Proof.
  unfold resolve_checked, resolve_mapping. destruct (mapping_at s space address) as [m'|]; simpl; [|done].
  destruct (pages s !! physical_page m') as [page|] eqn:Ep; simpl; [|done].
  destruct (MemoryPermissions.contains _ _) eqn:Ec; simpl; [|done].
  intros [= <- <-]. eauto.
Qed.

(** ** Reading *)

(** The bytes at [n] consecutive virtual addresses. *)
Definition shows s (space : AddressSpaceId) (address : Z) (data : list Z) : Prop :=
  forall i, (i < List.length data)%nat -> byte_at s space (address + Z.of_nat i) = data !! i.

Lemma byte_at_page s space address m contents generation k :
  mapping_at s space address = Some m ->
  pages s !! physical_page m = Some (RamPage contents generation) ->
  0 <= k -> page_offset address + k < SYNTHETIC_PAGE_SIZE ->
  byte_at s space (address + k) = page_bytes contents !! Z.to_nat (page_offset address + k).
Proof.
  intros Hm Hp Hk Hb. unfold byte_at, mapping_at in *. destruct (page_add address k Hk Hb) as [-> ->].
  rewrite Hm. simpl. by apply (cell_ram s _ contents generation).
Qed.

(** Consecutive bytes of one page. *)
Lemma shows_page s space address m contents generation n :
  memory_ok s -> mapping_at s space address = Some m ->
  pages s !! physical_page m = Some (RamPage contents generation) ->
  page_offset address + Z.of_nat n <= SYNTHETIC_PAGE_SIZE ->
  shows s space address (slice (page_bytes contents) (Z.to_nat (page_offset address)) n).
Proof.
  intros Hok Hm Hp Hb i Hi. pose proof (page_offset_bound address).
  destruct (ok_pages s Hok _ _ Hp) as [Hc _]. pose proof (page_bytes_length _ Hc).
  rewrite slice_length in Hi by lia. rewrite lookup_slice by done.
  rewrite (byte_at_page s space address m contents generation) by (done || lia).
  f_equal. lia.
Qed.

Lemma shows_app s space address data data' :
  shows s space address data -> shows s space (address + Z.of_nat (List.length data)) data' ->
  shows s space address (data ++ data').
Proof.
  intros H1 H2 i Hi. rewrite length_app in Hi. destruct (decide (i < List.length data)%nat).
  - rewrite lookup_app_l by done. by apply H1.
  - rewrite lookup_app_r by lia. rewrite <- H2 by lia. f_equal. lia.
Qed.

(** ** Resolved RAM accesses *)

(** The pages a resolved RAM access touches. *)
Inductive ram_access s (space : AddressSpaceId) (address n : Z) (r : ResolvedDataAccess Mapping) : Prop :=
  | one_page contents generation
      (Hmap : mapping_at s space address = Some (resolved_first r))
      (Hpage : pages s !! physical_page (resolved_first r) = Some (RamPage contents generation))
      (Hnone : resolved_second r = None)
      (Hin : page_offset address + n <= SYNTHETIC_PAGE_SIZE)
  | two_pages second contents generation contents2 generation2
      (Hmap : mapping_at s space address = Some (resolved_first r))
      (Hpage : pages s !! physical_page (resolved_first r) = Some (RamPage contents generation))
      (Hsome : resolved_second r = Some second)
      (Hbytes : resolved_first_bytes r = SYNTHETIC_PAGE_SIZE - page_offset address)
      (Hcross : SYNTHETIC_PAGE_SIZE < page_offset address + n)
      (Hmap2 : mapping_at s space (address + resolved_first_bytes r) = Some second)
      (Hpage2 : pages s !! physical_page second = Some (RamPage contents2 generation2)).

Lemma region_ram (page : PhysicalPage Handler) :
  region_of page = Ram -> exists contents generation, page = RamPage contents generation.
Proof. destruct page; simpl; [eauto|done]. Qed.

Lemma resolved_ram s space address access kind r :
  resolved_ok (resolve_mapping s space) space address access kind r ->
  resolved_region r = Ram -> ram_access s space address (bytes (access_size access)) r.
Proof.
  intros [_ _ Hfb Hf Hs] Hr. rewrite Hr in Hf, Hs.
  apply resolve_checked_mapping in Hf as (Hm & _ & page & Hp & (c & g & ->)%region_ram).
  destruct (resolved_second r) as [second|] eqn:E; [|by eapply one_page].
  destruct Hs as [Hcross Hs].
  apply resolve_checked_mapping in Hs as (Hm2 & _ & page2 & Hp2 & (c2 & g2 & ->)%region_ram).
  apply (two_pages _ _ _ _ _ second c g c2 g2); try done. lia.
Qed.

(** ** Reads *)

Definition value_of (size : MemoryAccessSize) (data : list Z) : MemoryValue :=
  value_from_bits size (from_le_bytes data).

Lemma read_ram_spec s space address access r :
  memory_ok s -> ram_access s space address (bytes (access_size access)) r ->
  exists data, read_ram s address access r = Ok (value_of (access_size access) data) /\
    Z.of_nat (List.length data) = bytes (access_size access) /\ bytes_ok data /\
    shows s space address data.
Proof.
  intros Hok Hr. pose proof page_size_value. unfold read_ram, ram_page. pose proof (page_offset_bound address) as Ho.
  pose proof (bytes_bound (access_size access)) as Hn. set (n := bytes (access_size access)) in *.
  destruct Hr as [c g Hm Hp -> Hin|second c g c2 g2 Hm Hp -> Hfb Hcross Hm2 Hp2]; rewrite Hp; simpl.
  - destruct (ok_pages s Hok _ _ Hp) as [Hc _]. rewrite ram_bytes_spec by (done || lia). simpl.
    set (data := slice _ _ _).
    assert (Z.of_nat (List.length data) = n) as Hlen.
    { unfold data. rewrite slice_length; [lia|]. pose proof (page_bytes_length _ Hc). lia. }
    assert (bytes_ok data) as Hd by by apply bytes_ok_slice, page_bytes_ok.
    exists data. split; [by apply value_from_le_slice_spec|]. split; [done|]. split; [done|].
    apply (shows_page s space address (resolved_first r) c g); [done..|lia].
  - destruct (ok_pages s Hok _ _ Hp) as [Hc _]. destruct (ok_pages s Hok _ _ Hp2) as [Hc2 _].
    rewrite ram_bytes_spec by (done || lia). simpl. rewrite Hp2. simpl.
    rewrite ram_bytes_spec by (done || lia). simpl. rewrite Hfb in *.
    pose proof (page_bytes_length _ Hc). pose proof (page_bytes_length _ Hc2).
    set (low := slice (page_bytes c) _ _). set (high := slice (page_bytes c2) _ _).
    assert (Z.of_nat (List.length low) = SYNTHETIC_PAGE_SIZE - page_offset address) as Hlow.
    { unfold low. rewrite slice_length; lia. }
    assert (Z.of_nat (List.length (low ++ high)) = n) as Hlen.
    { rewrite length_app. unfold high. rewrite slice_length; lia. }
    assert (bytes_ok (low ++ high)) as Hd.
    { apply Forall_app. split; by apply bytes_ok_slice, page_bytes_ok. }
    exists (low ++ high). split; [by apply value_from_le_slice_spec|]. split; [done|]. split; [done|].
    destruct (page_next address (SYNTHETIC_PAGE_SIZE - page_offset address) ltac:(lia)) as [_ Hz].
    apply shows_app.
    + apply (shows_page s space address (resolved_first r) c g); [done..|lia].
    + rewrite Hlow. unfold high. change 0%nat with (Z.to_nat 0). rewrite <- Hz.
      apply (shows_page s space _ second c2 g2); [done..|lia].
Qed.

(** A device callback changes only the state of its handler. *)
Definition device_step s s' : Prop :=
  exists p h h', pages s !! p = Some (Mmio h) /\ s' = set_pages (<[p := Mmio h']> (pages s)) s.

Lemma device_step_ok s s' : device_step s s' -> memory_ok s -> memory_ok s'.
Proof.
  intros (p & h & h' & Hp & ->) [Hm Hpg Hn Hg Hl]. split; simpl; try done.
  - intros space page m Hmm. destruct (Hm space page m Hmm) as (? & ? & ?). split_and!; try done; try lia.
    apply lookup_insert_is_Some'. by right.
  - intros q page. destruct (decide (p = q)) as [->|]; [rewrite lookup_insert_eq; by intros [= <-]|].
    rewrite lookup_insert_ne by done. apply Hpg.
Qed.

Lemma device_step_cell s s' p offset : device_step s s' -> cell s' p offset = cell s p offset.
Proof.
  intros (q & h & h' & Hq & ->). unfold cell; simpl.
  destruct (decide (q = p)) as [->|]; [by rewrite lookup_insert_eq, Hq|by rewrite lookup_insert_ne].
Qed.

Lemma region_device (page : PhysicalPage Handler) : region_of page = Device -> exists h, page = Mmio h.
Proof. destruct page; simpl; [done|eauto]. Qed.

Lemma call_device_spec {A} space address kind p h (call : Handler -> Handler * res string A) s :
  pages s !! p = Some (Mmio h) -> snd (call h) <> Panic ->
  wp (call_device space address kind p call)
    (fun v s' => snd (call h) = Ok v /\ device_step s s')
    (fun e s' => fault_kind e = kind /\ device_step s s') s.
Proof.
  intros Hp Hc. unfold call_device. wp_state. wp_step.
  apply wp_lift. unfold mmio_handler. rewrite Hp. destruct (call h) as [h' r] eqn:E. simpl in Hc.
  wp_step. unfold put_page. wp_step.
  assert (device_step s (set_pages (<[p := Mmio h']> (pages s)) s)) as Hd by (exists p, h, h'; done).
  destruct r; [by wp_step|by wp_step|done].
Qed.

(** What one failed data access may have changed: nothing but a device. *)
Definition unchanged s s' : Prop := s' = s \/ device_step s s'.

Lemma resolve_access_wp s space address access kind Q (Qe : DataAccessFault -> State Handler -> Prop) s0 :
  fits 64 address ->
  (forall r, resolved_ok (resolve_mapping s space) space address access kind r -> Q r s0) ->
  (forall e, fault_kind e = kind -> Qe e s0) ->
  wp (lift (resolve_access s space address access kind)) Q Qe s0.
Proof.
  intros Ha HQ HE. apply wp_lift.
  pose proof (resolve_data_access_spec (resolve_mapping s space) space address access kind Ha) as Hr.
  unfold resolve_access. destruct (resolve_data_access _ _ _ _ _); [by apply HQ|apply HE, Hr|done].
Qed.

Lemma check_data_fault_wp s space address kind Q (Qe : DataAccessFault -> State Handler -> Prop) s0 :
  Q tt s0 -> (forall e, fault_kind e = kind -> Qe e s0) ->
  wp (lift (check_data_fault s space address kind)) Q Qe s0.
Proof. intros HQ HE. apply wp_lift. unfold check_data_fault. destruct (data_faults s !! _); [by apply HE|done]. Qed.

Lemma read_wp s space address access :
  memory_ok s -> fits 64 address ->
  wp (read space address access)
    (fun r s' => value_size (read_value r) = access_size access /\ value_wf (read_value r) /\
       match read_region r with
       | Ram => s' = s /\ exists data, Z.of_nat (List.length data) = bytes (access_size access) /\
           bytes_ok data /\ shows s space address data /\
           read_value r = value_of (access_size access) data
       | Device => device_step s s'
       end)
    (fun e s' => fault_kind e = KindRead /\ unchanged s s') s.
Proof.
  intros Hok Ha. unfold read. wp_state. wp_step. apply resolve_access_wp; [done| |rejected].
  intros r Hr. wp_step. apply check_data_fault_wp; [|rejected]. case_bool_decide as Edev.
  - case_bool_decide as Esec; [wp_step; rejected|].
    pose proof (ok_first _ _ _ _ _ _ Hr) as Hf. rewrite Edev in Hf.
    apply resolve_checked_mapping in Hf as (_ & _ & page & Hp & (h & ->)%region_device).
    pose proof (mmio_read_returns h (page_offset address) access) as Hret.
    wp_step. eapply wp_mono; [apply (call_device_spec _ _ _ _ h); [done|by intros Hpan; rewrite Hpan in Hret]| |].
    + simpl. intros v s' [Hv Hd]. rewrite Hv in Hret. case_bool_decide; wp_step; [done|].
      split; [done|by right].
    + simpl. intros e s' [He Hd]. split; [done|by right].
  - assert (resolved_region r = Ram) as Eram by (by destruct (resolved_region r)).
    destruct (read_ram_spec s space address access r Hok (resolved_ram _ _ _ _ _ _ Hr Eram))
      as (data & Hread & Hlen & Hd & Hshow).
    wp_step. apply wp_lift. rewrite Hread. wp_step. simpl.
    unfold value_of. split; [apply value_from_bits_size|].
    split; [by apply value_of_bytes_wf|]. eauto 10.
Qed.

(** ** Stores *)

Lemma set_pages_twice p q s : set_pages p (set_pages q s) = set_pages p s.
Proof. done. Qed.

(** Overwriting part of a RAM page. *)
Definition poke (p offset : Z) (source : list Z) (contents : option (list Z)) (generation : Z) s :
    State Handler :=
  set_pages (<[p := RamPage (Some (list_inserts (Z.to_nat offset) source (page_bytes contents)))
                      generation]> (pages s)) s.

Lemma store_bytes_run s p contents generation offset count source :
  pages s !! p = Some (RamPage contents generation) -> contents_ok contents ->
  0 <= offset -> offset + count <= SYNTHETIC_PAGE_SIZE -> Z.of_nat (List.length source) = count ->
  store_bytes p offset count source s = (poke p offset source contents generation s, Ok tt).
Proof.
  intros Hp Hc Ho Hb Hl. pose proof (page_bytes_length _ Hc).
  unfold store_bytes, mbind, M_bind, gets, id, lift, ram_page. rewrite Hp.
  change (from_option (fun x => x) zero_page contents) with (page_bytes contents).
  by rewrite copy_range_spec by (done || lia).
Qed.

Lemma store_generation_run s p contents generation next :
  pages s !! p = Some (RamPage contents generation) ->
  store_generation p next s = (set_pages (<[p := RamPage contents next]> (pages s)) s, Ok tt).
Proof. intros Hp. unfold store_generation, mbind, M_bind, gets, id, lift, ram_page. by rewrite Hp. Qed.

Lemma poke_contents_ok contents offset source :
  contents_ok contents -> bytes_ok source ->
  contents_ok (Some (list_inserts (Z.to_nat offset) source (page_bytes contents))).
Proof.
  intros Hc Hs. simpl. rewrite length_inserts. split; [by apply page_bytes_length|].
  apply bytes_ok_inserts; [by apply page_bytes_ok|done].
Qed.

Lemma cell_poke s p offset source contents generation q o :
  pages s !! p = Some (RamPage contents generation) -> contents_ok contents ->
  0 <= offset -> offset + Z.of_nat (List.length source) <= SYNTHETIC_PAGE_SIZE -> 0 <= o ->
  forall next, cell (poke p offset source contents next s) q o =
    if decide (q = p /\ offset <= o < offset + Z.of_nat (List.length source))
    then source !! Z.to_nat (o - offset) else cell s q o.
Proof.
  intros Hp Hc Ho Hb Hoo next. pose proof (page_bytes_length _ Hc). unfold cell, poke; simpl.
  destruct (decide (p = q)) as [<-|Hq].
  - rewrite lookup_insert_eq, Hp. simpl. case_decide as D.
    + rewrite list_lookup_inserts by lia. f_equal. lia.
    + destruct (decide (o < offset)); [apply list_lookup_inserts_lt; lia|].
      apply list_lookup_inserts_ge. lia.
  - rewrite lookup_insert_ne by done. case_decide as D; [|done]. by destruct D as [-> _].
Qed.

Lemma cell_generation s p contents generation next q o :
  pages s !! p = Some (RamPage contents generation) ->
  cell (set_pages (<[p := RamPage contents next]> (pages s)) s) q o = cell s q o.
Proof.
  intros Hp. unfold cell; simpl.
  destruct (decide (p = q)) as [<-|]; [by rewrite lookup_insert_eq, Hp|by rewrite lookup_insert_ne].
Qed.

(** A RAM store: the cells under the written addresses hold the new bytes, all
    other cells keep theirs, and exactly the touched pages get their next
    generation.  [located] is where the byte [i] of the access lives. *)
Definition located s (space : AddressSpaceId) (address : Z) (i : nat) (p offset : Z) : Prop :=
  exists m, mapping_at s space (address + Z.of_nat i) = Some m /\ physical_page m = p /\
    page_offset (address + Z.of_nat i) = offset.

Record stores (space : AddressSpaceId) (address : Z) (data : list Z) s s' : Prop := {
  stores_frame : s' = set_pages (pages s') s;
  stores_written : forall i b p offset, data !! i = Some b ->
    located s space address i p offset -> cell s' p offset = Some b;
  stores_other : forall p offset, 0 <= offset ->
    (forall i, (i < List.length data)%nat -> ~ located s space address i p offset) ->
    cell s' p offset = cell s p offset;
  stores_pages : forall p,
    (pages s' !! p = pages s !! p /\
     forall i offset, (i < List.length data)%nat -> ~ located s space address i p offset) \/
    (exists contents generation contents', pages s !! p = Some (RamPage contents generation) /\
       pages s' !! p = Some (RamPage contents' (generation + 1)) /\ contents_ok contents' /\
       generation + 1 < 2 ^ 64 /\
       exists i offset, (i < List.length data)%nat /\ located s space address i p offset) }.

Lemma stores_ok space address data s s' : stores space address data s s' -> memory_ok s -> memory_ok s'.
Proof.
  intros [Hf _ _ Hp] [Hm Hpg Hn Hg Hl]. rewrite Hf. split; simpl; try done.
  - intros sp page m Hmm. destruct (Hm sp page m Hmm) as (? & Hs & ?). split_and!; try done; try lia.
    destruct (Hp (physical_page m)) as [[-> _]|(c & g & c' & _ & -> & _)]; done.
  - intros p page Hpp. destruct (Hp p) as [[Heq _]|(c & g & c' & Ho & Heq & Hc & Hb & _)].
    + rewrite Heq in Hpp. by eapply Hpg.
    + rewrite Heq in Hpp. injection Hpp as <-. destruct (Hpg _ _ Ho) as [_ [? ?]].
      split; [done|unfold fits; lia].
Qed.

(** The addresses of an access within one page. *)
Lemma located_page s space address m i p offset :
  mapping_at s space address = Some m -> page_offset address + Z.of_nat i < SYNTHETIC_PAGE_SIZE ->
  located s space address i p offset <-> p = physical_page m /\ offset = page_offset address + Z.of_nat i.
Proof.
  intros Hm Hb. destruct (page_add address (Z.of_nat i) ltac:(lia) Hb) as [Hv Ho].
  unfold located, mapping_at in *. rewrite Hv, Hm, Ho. naive_solver.
Qed.

(** The addresses of an access past the end of its first page. *)
Lemma located_next s space address m k i p offset :
  page_offset address + k = SYNTHETIC_PAGE_SIZE -> mapping_at s space (address + k) = Some m ->
  k <= Z.of_nat i < k + SYNTHETIC_PAGE_SIZE ->
  located s space address i p offset <-> p = physical_page m /\ offset = Z.of_nat i - k.
Proof.
  intros Hk Hm Hi. destruct (page_next address k Hk) as [_ Hz].
  pose proof (page_add (address + k) (Z.of_nat i - k) ltac:(lia) ltac:(lia)) as [Hv Ho].
  replace (address + k + (Z.of_nat i - k)) with (address + Z.of_nat i) in * by lia.
  unfold located, mapping_at in *. rewrite Hv, Hm, Ho, Hz. rewrite Z.add_0_l. naive_solver.
Qed.

(** A store within one page. *)
Lemma poke_stores s space address m contents generation data :
  memory_ok s -> mapping_at s space address = Some m ->
  pages s !! physical_page m = Some (RamPage contents generation) ->
  page_offset address + Z.of_nat (List.length data) <= SYNTHETIC_PAGE_SIZE ->
  (0 < List.length data)%nat -> bytes_ok data -> generation + 1 < 2 ^ 64 ->
  stores space address data s
    (poke (physical_page m) (page_offset address) data contents (generation + 1) s).
Proof.
  intros Hok Hm Hp Hb Hn Hd Hg. pose proof (page_offset_bound address) as Ho.
  destruct (ok_pages s Hok _ _ Hp) as [Hc _]. split.
  - done.
  - intros i b p offset Hi Hloc. pose proof (lookup_lt_Some _ _ _ Hi).
    apply (located_page s space address m) in Hloc as [-> ->]; [|done|lia].
    rewrite (cell_poke s _ _ _ contents generation) by (done || lia).
    rewrite decide_True by lia. rewrite <- Hi. f_equal. lia.
  - intros p offset Hoff Hnot. rewrite (cell_poke s _ _ _ contents generation) by (done || lia).
    rewrite decide_False; [done|]. intros [-> Hin].
    apply (Hnot (Z.to_nat (offset - page_offset address))); [lia|].
    apply (located_page s space address m); [done|lia|]. split; [done|lia].
  - intros p. unfold poke; simpl. destruct (decide (physical_page m = p)) as [<-|Hne].
    + right. exists contents, generation. rewrite lookup_insert_eq. eexists. split; [done|].
      split; [done|]. split; [by apply poke_contents_ok|]. split; [done|].
      exists 0%nat, (page_offset address). split; [done|].
      apply (located_page s space address m); [done|lia|]. split; [done|lia].
    + left. rewrite lookup_insert_ne by done. split; [done|]. intros i offset Hi Hloc.
      apply (located_page s space address m) in Hloc as [-> _]; [done|done|lia].
Qed.

(** The final state of a store over two pages of which the second has the
    physical page [p2] with contents [c2] after the first part is written. *)
Lemma pokes_stores s space address m1 m2 c1 g1 c2 g2 low high s' :
  memory_ok s -> mapping_at s space address = Some m1 ->
  pages s !! physical_page m1 = Some (RamPage c1 g1) ->
  page_offset address + Z.of_nat (List.length low) = SYNTHETIC_PAGE_SIZE ->
  mapping_at s space (address + Z.of_nat (List.length low)) = Some m2 ->
  pages s !! physical_page m2 = Some (RamPage c2 g2) ->
  (0 < List.length low)%nat -> (0 < List.length high)%nat ->
  Z.of_nat (List.length high) <= page_offset address -> bytes_ok low -> bytes_ok high ->
  g1 + 1 < 2 ^ 64 -> g2 + 1 < 2 ^ 64 ->
  s' = set_pages (pages s') s ->
  (forall q o, 0 <= o -> cell s' q o =
     if decide (q = physical_page m2 /\ 0 <= o < Z.of_nat (List.length high)) then high !! Z.to_nat o
     else cell (poke (physical_page m1) (page_offset address) low c1 g1 s) q o) ->
  (forall q, q <> physical_page m1 -> q <> physical_page m2 -> pages s' !! q = pages s !! q) ->
  (exists c, pages s' !! physical_page m1 = Some (RamPage c (g1 + 1)) /\ contents_ok c) ->
  (exists c, pages s' !! physical_page m2 = Some (RamPage c (g2 + 1)) /\ contents_ok c) ->
  stores space address (low ++ high) s s'.
Proof.
  intros Hok Hm1 Hp1 Hfit Hm2 Hp2 Hl Hh Hsmall Hbl Hbh Hg1 Hg2 Hf Hcell Hrest Hpg1 Hpg2.
  pose proof (page_offset_bound address) as Ho. destruct (ok_pages s Hok _ _ Hp1) as [Hc1 _].
  assert (forall q o, 0 <= o -> cell s' q o =
     if decide (q = physical_page m2 /\ 0 <= o < Z.of_nat (List.length high)) then high !! Z.to_nat o
     else if decide (q = physical_page m1 /\ page_offset address <= o < SYNTHETIC_PAGE_SIZE)
     then low !! Z.to_nat (o - page_offset address) else cell s q o) as Hcell'.
  { intros q o Hq. rewrite Hcell, (cell_poke s _ _ _ c1 g1) by (done || lia). by rewrite Hfit. }
  pose proof page_size_value.
  assert (forall i p offset, (i < List.length (low ++ high))%nat ->
    located s space address i p offset <->
      ((i < List.length low)%nat /\ p = physical_page m1 /\ offset = page_offset address + Z.of_nat i) \/
      (~ (i < List.length low)%nat /\ p = physical_page m2 /\
       offset = Z.of_nat i - Z.of_nat (List.length low))) as Hloc.
  { intros i p offset Hi. rewrite length_app in Hi. destruct (decide (i < List.length low)%nat).
    - rewrite (located_page s space address m1) by (done || lia). tauto.
    - rewrite (located_next s space address m2 (Z.of_nat (List.length low))) by (done || lia). tauto. }
  split.
  - done.
  - intros i b p offset Hi HL. pose proof (lookup_lt_Some _ _ _ Hi) as Hlt.
    apply Hloc in HL as [(Hi' & -> & ->)|(Hi' & -> & ->)]; [| |done]; rewrite Hcell' by lia.
    + rewrite decide_False by lia. rewrite decide_True by lia.
      rewrite lookup_app_l in Hi by done. rewrite <- Hi. f_equal. lia.
    + rewrite length_app in Hlt. rewrite decide_True by lia. rewrite lookup_app_r in Hi by lia. rewrite <- Hi. f_equal. lia.
  - intros p offset Hoff Hnot. rewrite Hcell' by done. rewrite !decide_False; [done| |].
    + intros [-> Hin]. apply (Hnot (Z.to_nat (offset - page_offset address))).
      * rewrite length_app. lia.
      * apply Hloc; [rewrite length_app; lia|]. left. split; [lia|]. split; [done|lia].
    + intros [-> Hin]. apply (Hnot (List.length low + Z.to_nat offset)%nat).
      * rewrite length_app. lia.
      * apply Hloc; [rewrite length_app; lia|]. right. split; [lia|]. split; [done|lia].
  - intros p. destruct (decide (p = physical_page m1)) as [->|Hn1].
    { right. destruct Hpg1 as (c & ? & ?). exists c1, g1, c. split_and!; [done..|].
      exists 0%nat, (page_offset address). split; [rewrite length_app; lia|].
      apply Hloc; [rewrite length_app; lia|]. left. split_and!; [done|done|lia]. }
    destruct (decide (p = physical_page m2)) as [->|Hn2].
    { right. destruct Hpg2 as (c & ? & ?). exists c2, g2, c. split_and!; [done..|].
      exists (List.length low), 0. split; [rewrite length_app; lia|].
      apply Hloc; [rewrite length_app; lia|]. right. split_and!; [lia|done|lia]. }
    left. split; [by apply Hrest|]. intros i offset Hi [(_ & -> & _)|(_ & -> & _)]%Hloc; done.
Qed.

Lemma next_content_generation_spec space address generation :
  next_content_generation space address generation =
    if generation + 1 <? 2 ^ 64 then Ok (generation + 1)
    else Err (DataAccessFault_new space address KindWrite ContentGenerationExhausted).
Proof.
  unfold next_content_generation, ContentGeneration.next, checked_add.
  by destruct (generation + 1 <? 2 ^ 64).
Qed.

Lemma poke_generation s p offset data contents generation next :
  pages s !! p = Some (RamPage contents generation) ->
  store_generation p next (poke p offset data contents generation s) =
    (poke p offset data contents next s, Ok tt).
Proof.
  intros Hp. erewrite store_generation_run by apply lookup_insert_eq.
  unfold poke; simpl. by rewrite insert_insert_eq.
Qed.

(** The two parts of a store share a physical page. *)
Lemma store_two_pages_same s p offset low high c g :
  memory_ok s -> pages s !! p = Some (RamPage c g) ->
  0 <= offset -> offset + Z.of_nat (List.length low) <= SYNTHETIC_PAGE_SIZE ->
  Z.of_nat (List.length high) <= SYNTHETIC_PAGE_SIZE -> bytes_ok low ->
  store_two_pages p p offset (Z.of_nat (List.length low))
    (Z.of_nat (List.length (low ++ high))) (low ++ high) (g + 1) None s =
  (poke p 0 high (Some (list_inserts (Z.to_nat offset) low (page_bytes c))) (g + 1)
     (poke p offset low c g s), Ok tt).
Proof.
  intros Hok Hp Ho Hl Hh Hbl. destruct (ok_pages s Hok _ _ Hp) as [Hc _]. unfold store_two_pages.
  erewrite M_bind_lift_ok; [|rewrite index_range_spec by (rewrite ?length_app; lia);
    unfold slice; rewrite drop_0, Nat2Z.id, take_app_length; done].
  erewrite M_bind_ok by (apply (store_bytes_run s _ c g); done || lia).
  erewrite M_bind_lift_ok; [|rewrite index_range_spec by (rewrite ?length_app; lia);
    unfold slice; rewrite Nat2Z.id, drop_app_length, take_ge by (rewrite length_app; lia); done].
  erewrite M_bind_ok by (apply store_bytes_run; [apply lookup_insert_eq|by apply poke_contents_ok|
    rewrite ?length_app; lia..]).
  by erewrite M_bind_ok by (apply poke_generation, lookup_insert_eq).
Qed.

Lemma store_two_pages_other s p1 p2 offset low high c1 g1 c2 g2 :
  memory_ok s -> p1 <> p2 -> pages s !! p1 = Some (RamPage c1 g1) ->
  pages s !! p2 = Some (RamPage c2 g2) ->
  0 <= offset -> offset + Z.of_nat (List.length low) <= SYNTHETIC_PAGE_SIZE ->
  Z.of_nat (List.length high) <= SYNTHETIC_PAGE_SIZE ->
  store_two_pages p1 p2 offset (Z.of_nat (List.length low))
    (Z.of_nat (List.length (low ++ high))) (low ++ high) (g1 + 1) (Some (g2 + 1)) s =
  (poke p2 0 high c2 (g2 + 1) (poke p1 offset low c1 (g1 + 1) s), Ok tt).
Proof.
  intros Hok Hne Hp1 Hp2 Ho Hl Hh. destruct (ok_pages s Hok _ _ Hp1) as [Hc1 _].
  destruct (ok_pages s Hok _ _ Hp2) as [Hc2 _]. unfold store_two_pages.
  erewrite M_bind_lift_ok; [|rewrite index_range_spec by (rewrite ?length_app; lia);
    unfold slice; rewrite drop_0, Nat2Z.id, take_app_length; done].
  erewrite M_bind_ok by (apply (store_bytes_run s _ c1 g1); done || lia).
  erewrite M_bind_lift_ok; [|rewrite index_range_spec by (rewrite ?length_app; lia);
    unfold slice; rewrite Nat2Z.id, drop_app_length, take_ge by (rewrite length_app; lia); done].
  erewrite M_bind_ok by (apply (store_bytes_run _ _ c2 g2);
    [simpl; by rewrite lookup_insert_ne|done|rewrite ?length_app; lia..]).
  erewrite M_bind_ok by (eapply store_generation_run; simpl; rewrite lookup_insert_ne by done;
    apply lookup_insert_eq).
  erewrite store_generation_run by (simpl; rewrite lookup_insert_ne by done; apply lookup_insert_eq).
  unfold poke; simpl. rewrite !set_pages_twice.
  rewrite (insert_insert_ne _ p1 p2) by done. by rewrite !insert_insert_eq.
Qed.

Lemma poke_frame s p offset data c g : poke p offset data c g s = set_pages (pages (poke p offset data c g s)) s.
Proof. done. Qed.

(** Either the write happens in full, or nothing changes. *)
Lemma write_ram_wp s space address data r :
  memory_ok s -> ram_access s space address (Z.of_nat (List.length data)) r ->
  1 <= Z.of_nat (List.length data) <= 16 -> bytes_ok data ->
  wp (write_ram space address (Z.of_nat (List.length data)) data r)
    (fun _ s' => stores space address data s s')
    (fun e s' => fault_kind e = KindWrite /\ s' = s) s.
Proof.
  intros Hok Hr Hn Hd. unfold write_ram. wp_state. pose proof (page_offset_bound address) as Ho.
  pose proof page_size_value as Hps. wp_step. apply wp_lift. unfold ram_page at 1.
  destruct Hr as [c g Hm Hp -> Hin|second c g c2 g2 Hm Hp -> Hfb Hcross Hm2 Hp2]; rewrite Hp.
  all: destruct (ok_pages s Hok _ _ Hp) as [Hc Hgf]; wp_step; apply wp_lift;
    rewrite next_content_generation_spec; destruct (Z.ltb_spec (g + 1) (2 ^ 64)) as [Hg|]; [|done].
  - wp_step. unfold wp. rewrite (store_bytes_run s _ c g) by (done || lia).
    rewrite poke_generation by done. apply poke_stores; done || lia.
  - destruct (ok_pages s Hok _ _ Hp2) as [Hc2 Hgf2]. rewrite Hfb in *.
    set (k := SYNTHETIC_PAGE_SIZE - page_offset address) in *.
    rewrite <- (take_drop (Z.to_nat k) data) in *.
    set (low := take (Z.to_nat k) data) in *. set (high := drop (Z.to_nat k) data) in *.
    rewrite length_app in Hn, Hcross.
    assert (Z.of_nat (List.length low) = k) as Hlow.
    { unfold low. rewrite length_take.
      assert (List.length data = List.length low + List.length high)%nat
        by (unfold low, high; rewrite length_take, length_drop; lia). lia. }
    apply Forall_app in Hd as [Hbl Hbh]. rewrite <- Hlow in *. wp_step. case_bool_decide as E.
    + wp_step. unfold wp. rewrite E in *. rewrite Hp in Hp2. injection Hp2 as <- <-.
      rewrite (store_two_pages_same s _ _ _ _ c g) by (done || lia).
      apply (pokes_stores s space address (resolved_first r) second c g c g); try done; try lia.
      * by rewrite E.
      * intros q o Hq. rewrite E. erewrite cell_poke; [|apply lookup_insert_eq|by apply poke_contents_ok|lia..].
        by rewrite Z.sub_0_r.
      * intros q Hq _. unfold poke; simpl. by rewrite !lookup_insert_ne.
      * unfold poke; simpl. rewrite lookup_insert_eq. eexists; split; [done|].
        apply (poke_contents_ok (Some _)); [by apply poke_contents_ok|done].
      * rewrite E. unfold poke; simpl. rewrite lookup_insert_eq. eexists; split; [done|].
        apply (poke_contents_ok (Some _)); [by apply poke_contents_ok|done].
    + wp_step. apply wp_lift. unfold ram_page. rewrite Hp2. wp_step. apply wp_lift.
      rewrite next_content_generation_spec. destruct (Z.ltb_spec (g2 + 1) (2 ^ 64)); [|done].
      wp_step. unfold wp. rewrite (store_two_pages_other s _ _ _ _ _ c g c2 g2) by (done || lia).
      apply (pokes_stores s space address (resolved_first r) second c g c2 g2); try done; try lia.
      * intros q o Hq. erewrite (cell_poke _ _ _ _ c2 g2); [|simpl; by rewrite lookup_insert_ne|done|lia..].
        rewrite Z.sub_0_r, Z.add_0_l. case_decide; [done|].
        by rewrite !(cell_poke s _ _ _ c g) by (done || lia).
      * intros q Hq Hq'. unfold poke; simpl. by rewrite !lookup_insert_ne.
      * unfold poke; simpl. rewrite lookup_insert_ne, lookup_insert_eq by done.
        eexists; split; [done|by apply poke_contents_ok].
      * unfold poke; simpl. rewrite lookup_insert_eq. eexists; split; [done|by apply poke_contents_ok].
Qed.
End Invariant.
