(* ===== verification/SyntheticData.v ===== *)
(** * The synthetic backend: data accesses

    What [read], [write], the atomic transactions and the exclusive pair do to
    the bytes of memory, on every branch. *)

From Stdlib Require Import ZArith Lia Bool String.
From stdpp Require Import base numbers list option strings gmap.
From S2P Require Import Prelude RustInt RustList Bytes GuestAddress Invalidation A64Semantics.
From S2P Require Import MemoryContracts MemoryCommon Synthetic SyntheticInv.
Import SyntheticMemory.
Local Open Scope list_scope.
Local Open Scope Z_scope.

Section Data.
Context {Handler : Type} `{SyntheticMmioOk Handler}.
Implicit Types (s : State Handler).

(** The little-endian bytes of a value. *)
Definition le_bytes (v : MemoryValue) : list Z :=
  to_le_bytes (Z.to_nat (bytes (value_size v))) (value_bits v).

Lemma le_bytes_length v : Z.of_nat (List.length (le_bytes v)) = bytes (value_size v).
Proof. unfold le_bytes. rewrite to_le_bytes_length. pose proof (bytes_bound (value_size v)). lia. Qed.

Lemma le_bytes_ok v : bytes_ok (le_bytes v).
Proof. apply to_le_bytes_ok. Qed.

Lemma value_of_le_bytes v : value_wf v -> value_of (value_size v) (le_bytes v) = v.
Proof.
  intros Hv. apply value_roundtrip; [done|]. pose proof (bytes_bound (value_size v)). lia.
Qed.

Lemma value_le_bytes_run {E} v :
  @value_le_bytes E v (Z.to_nat (bytes (value_size v))) = Ok (le_bytes v).
Proof. apply value_le_bytes_spec. pose proof (bytes_bound (value_size v)). lia. Qed.

Lemma write_wp s space address access value :
  memory_ok s -> fits 64 address ->
  wp (write space address access value)
    (fun w s' => value_size value = access_size access /\
       (exists r, resolved_ok (resolve_mapping s space) space address access KindWrite r /\
          resolved_region r = write_region w) /\
       match write_region w with
       | Ram => stores space address (le_bytes value) s s'
       | Device => device_step s s'
       end)
    (fun e s' => fault_kind e = KindWrite /\ unchanged s s') s.
Proof.
  intros Hok Ha. unfold write. wp_step. wp_step; [rejected|].
  rename H1 into Hsize. apply negb_false_iff, bool_decide_eq_true in Hsize.
  wp_state. wp_step. apply resolve_access_wp; [done| |rejected].
  intros r Hr. wp_step. apply check_data_fault_wp; [|rejected]. case_bool_decide as Edev.
  - case_bool_decide as Esec; [wp_step; rejected|].
    pose proof (ok_first _ _ _ _ _ _ Hr) as Hf. rewrite Edev in Hf.
    apply resolve_checked_mapping in Hf as (_ & _ & page & Hp & (h & ->)%region_device).
    wp_step. eapply wp_mono;
      [apply (call_device_spec _ _ _ _ h); [done|apply mmio_write_returns]| |].
    + simpl. intros _ s' [_ Hd]. wp_step. eauto 10.
    + simpl. intros e s' [He Hd]. split; [done|by right].
  - assert (resolved_region r = Ram) as Eram by (by destruct (resolved_region r)).
    pose proof (resolved_ram _ _ _ _ _ _ Hr Eram) as Hram.
    wp_step. apply wp_lift. rewrite <- Hsize, value_le_bytes_run. rewrite <- Hsize in Hram.
    pose proof (bytes_bound (value_size value)). rewrite <- (le_bytes_length value) in *.
    wp_step. eapply wp_mono; [apply write_ram_wp; [done|done|done|apply le_bytes_ok]| |].
    + simpl. intros _ s' Hs. wp_step. eauto 10.
    + simpl. intros e s' [He ->]. split; [done|by left].
Qed.

(** ** Atomic transactions *)

(** The value a RAM access of [size] bytes at [address] observes. *)
Definition observes s (space : AddressSpaceId) (address : Z) (size : MemoryAccessSize) (v : MemoryValue) : Prop :=
  exists data, Z.of_nat (List.length data) = bytes size /\ bytes_ok data /\
    shows s space address data /\ v = value_of size data.

Lemma observes_wf s space address size v : observes s space address size v -> value_wf v /\ value_size v = size.
Proof.
  intros (data & Hl & Hd & _ & ->). split; [by apply value_of_bytes_wf|apply value_from_bits_size].
Qed.

(** Two views of the same bytes agree. *)
Lemma observes_unique s space address size v w :
  observes s space address size v -> observes s space address size w -> v = w.
Proof.
  intros (d & Hl & _ & Hs & ->) (d' & Hl' & _ & Hs' & ->). f_equal.
  apply list_eq_same_length with (n := List.length d); [lia|lia|].
  intros i x y Hi Hx Hy. pose proof (Hs i ltac:(lia)) as H1. pose proof (Hs' i ltac:(lia)) as H2.
  congruence.
Qed.

Definition updates (space : AddressSpaceId) (address : Z) (stored : bool) (v : MemoryValue) s s' : Prop :=
  if stored then stores space address (le_bytes v) s s' else s' = s.

Lemma atomic_transaction_wp s space address access operation :
  memory_ok s -> fits 64 address ->
  (forall v, value_wf v -> value_size v = access_size access -> operation v <> Panic) ->
  wp (atomic_transaction space address access operation)
    (fun r s' => observes s space address (access_size access) (previous r) /\
       exists replacement, operation (previous r) = Ok (replacement, stored r) /\
         value_size replacement = access_size access /\
         updates space address (stored r) replacement s s')
    (fun e s' => s' = s) s.
Proof.
  intros Hok Ha Hop. unfold atomic_transaction. wp_step. wp_step; [done|]. wp_state.
  wp_step. apply resolve_access_wp; [done| |done]. intros _ _.
  wp_step. apply resolve_access_wp; [done| |done]. intros r Hr.
  wp_step. wp_step; [done|]. apply orb_false_iff in H2 as [Hsec%bool_decide_eq_false Hreg].
  apply negb_false_iff, bool_decide_eq_true in Hreg.
  wp_step. apply check_data_fault_wp; [|done]. wp_step. apply check_data_fault_wp; [|done].
  pose proof (page_offset_bound address) as Ho. pose proof (bytes_bound (access_size access)) as Hb.
  destruct (resolved_ram _ _ _ _ _ _ Hr Hreg) as [c g Hm Hp Hnone Hin|]; [|by rewrite Hsome in Hsec; destruct Hsec].
  destruct (ok_pages s Hok _ _ Hp) as [Hc Hgf]. wp_step. apply wp_lift. unfold ram_page at 1. rewrite Hp.
  wp_step. apply wp_lift. rewrite ram_bytes_spec by (done || lia).
  set (data := slice (page_bytes c) _ _). pose proof (page_bytes_length _ Hc).
  assert (Z.of_nat (List.length data) = bytes (access_size access)) as Hlen
    by (unfold data; rewrite slice_length; lia).
  assert (bytes_ok data) as Hd by by apply bytes_ok_slice, page_bytes_ok.
  assert (observes s space address (access_size access) (value_of (access_size access) data)) as Hobs.
  { exists data. split_and!; [done..| |done].
    apply (shows_page s space address (resolved_first r) c g); [done..|lia]. }
  wp_step. apply wp_lift. rewrite value_from_le_slice_spec by done. fold (value_of (access_size access) data).
  destruct (observes_wf _ _ _ _ _ Hobs) as [Hwf Hsz].
  wp_step. apply wp_lift. specialize (Hop _ Hwf Hsz).
  destruct (operation _) as [[replacement st]|e|] eqn:Eop; [|done..].
  wp_step. wp_step; [done|].
  rename select (negb _ = false) into Hrs. apply negb_false_iff, bool_decide_eq_true in Hrs.
  wp_step. destruct st; [|wp_step; wp_step; simpl; split; [done|]; by exists replacement].
  wp_step. apply wp_lift. rewrite next_content_generation_spec.
  destruct (Z.ltb_spec (g + 1) (2 ^ 64)); [|done]. wp_step. apply wp_lift.
  rewrite <- Hrs, value_le_bytes_run. pose proof (le_bytes_length replacement) as Hl.
  rewrite Hrs in Hl. wp_step. unfold wp.
  rewrite (store_bytes_run s _ c g); [|done|done|lia|rewrite Hrs; lia|rewrite Hrs; lia].
  rewrite poke_generation by done. simpl. rewrite Hrs. split; [done|]. exists replacement.
  split; [done|]. split; [done|]. simpl. apply poke_stores; try done; try lia. apply le_bytes_ok.
Qed.

Lemma atomic_read_modify_write_wp s space address access kind operand :
  memory_ok s -> fits 64 address -> value_wf operand ->
  wp (atomic_read_modify_write space address access kind operand)
    (fun r s' => observes s space address (access_size access) (previous r) /\ stored r = true /\
       exists new, AtomicRmwKind_apply kind (previous r) operand = Some new /\
         value_size new = access_size access /\ stores space address (le_bytes new) s s')
    (fun e s' => s' = s) s.
Proof.
  intros Hok Ha Hv. unfold atomic_read_modify_write. wp_step. wp_step; [done|].
  rename select (negb _ = false) into Hs. apply negb_false_iff, bool_decide_eq_true in Hs.
  eapply wp_mono; [apply atomic_transaction_wp; [done|done|]| |done].
  - intros v Hwf Hsz. destruct (AtomicRmwKind_apply_spec kind v operand Hwf Hv) as (r & -> & _); [|done].
    by rewrite Hs.
  - simpl. intros r s' (Hobs & new & Hop & Hn & Hup). split; [done|].
    destruct (AtomicRmwKind_apply kind (previous r) operand) as [new'|]; simpl in Hop; [|done].
    injection Hop as -> Hst. rewrite <- Hst in Hup |- *. split; [done|]. eauto.
Qed.

Lemma atomic_compare_exchange_wp s space address access expected replacement :
  memory_ok s -> fits 64 address ->
  wp (atomic_compare_exchange space address access expected replacement)
    (fun r s' => observes s space address (access_size access) (previous r) /\
       stored r = bool_decide (previous r = expected) /\
       updates space address (stored r) replacement s s')
    (fun e s' => s' = s) s.
Proof.
  intros Hok Ha. unfold atomic_compare_exchange. wp_step. wp_step; [done|].
  eapply wp_mono; [apply atomic_transaction_wp; [done|done|done]| |done].
  simpl. intros r s' (Hobs & new & Hop & Hn & Hup). split; [done|].
  case_bool_decide; injection Hop as <- Hst; rewrite <- Hst in *; done.
Qed.

Lemma load_exclusive_wp s space address access :
  memory_ok s -> fits 64 address ->
  wp (load_exclusive space address access)
    (fun r s' => s' = s /\ observes s space address (access_size access) (read_value (fst r)) /\
       exists m, mapping_at s space address = Some m /\
         snd r = {| reserved_page := physical_page m; reserved_byte_offset := page_offset address;
                    reserved_access_size := bytes (access_size access);
                    reserved_expected := read_value (fst r) |})
    (fun e s' => s' = s) s.
Proof.
  intros Hok Ha. unfold load_exclusive. wp_state. wp_step. apply resolve_access_wp; [done| |done].
  intros r Hr. wp_step. wp_step; [done|].
  rename select (bool_decide _ = false) into Hsec. apply bool_decide_eq_false in Hsec.
  pose proof (ok_first _ _ _ _ _ _ Hr) as Hf.
  apply resolve_checked_mapping in Hf as (Hm & _ & page & Hp & Hreg). rewrite Hp.
  destruct page as [c g|h]; [|by wp_step]. simpl in Hreg.
  destruct (resolved_ram _ _ _ _ _ _ Hr (eq_sym Hreg)) as [c' g' Hm' Hp' Hnone Hin|];
    [|by rewrite Hsome in Hsec; destruct Hsec].
  pose proof (page_offset_bound address). pose proof (bytes_bound (access_size access)).
  destruct (ok_pages s Hok _ _ Hp) as [Hc _]. pose proof (page_bytes_length _ Hc).
  pose proof page_size_value.
  wp_step. apply wp_lift. rewrite ram_bytes_spec by (done || lia).
  set (data := slice _ _ _).
  assert (Z.of_nat (List.length data) = bytes (access_size access)) as Hlen
    by (unfold data; rewrite slice_length; lia).
  assert (bytes_ok data) as Hd by by apply bytes_ok_slice, page_bytes_ok.
  wp_step. apply wp_lift. rewrite value_from_le_slice_spec by done. wp_step. split; [done|]. simpl. split.
  - exists data. split_and!; [done..| |done].
    apply (shows_page s space address (resolved_first r) c g); [done..|lia].
  - exists (resolved_first r). split; [done|].
    rewrite !wrap_small; [done|unfold fits; simpl; lia|unfold fits; simpl; lia].
Qed.

(** The decision of a conditional store. *)
Lemma store_exclusive_wp s space address access value reservation :
  memory_ok s -> fits 64 address ->
  wp (store_exclusive space address access value reservation)
    (fun r s' => exists m, mapping_at s space address = Some m /\
       ((reservation_matches reservation (physical_page m) address access = false /\
         snd r = false /\ s' = s) \/
        (reservation_matches reservation (physical_page m) address access = true /\
         exists v, observes s space address (access_size access) v /\
           snd r = bool_decide (v = reserved_expected reservation) /\
           updates space address (snd r) value s s')))
    (fun e s' => s' = s) s.
Proof.
  intros Hok Ha. unfold store_exclusive. wp_step. wp_step; [done|]. wp_state.
  wp_step. apply resolve_access_wp; [done| |done]. intros r Hr. wp_step. wp_step; [done|].
  wp_step. wp_step; [done|].
  pose proof (ok_first _ _ _ _ _ _ Hr) as Hf.
  apply resolve_checked_mapping in Hf as (Hm & _ & page & Hp & Hreg).
  destruct (reservation_matches _ _ _ _) eqn:Em; cbn [negb].
  - wp_step. eapply wp_mono; [by apply atomic_compare_exchange_wp| |done].
    simpl. intros a s' (Hobs & Hst & Hup). wp_step. exists (resolved_first r). split; [done|]. right.
    split; [done|]. exists (previous a). done.
  - wp_step. exists (resolved_first r). split; [done|]. by left.
Qed.

(** ** Stores and loads *)

Lemma located_frame s s' space address i p offset :
  mappings s' = mappings s -> located s' space address i p offset <-> located s space address i p offset.
Proof. intros Hm. unfold located, mapping_at. by rewrite Hm. Qed.

Lemma stores_mappings space address data s s' : stores space address data s s' -> mappings s' = mappings s.
Proof. intros Hs. by rewrite (stores_frame _ _ _ _ _ Hs). Qed.

(** Reading back the cells that were written. *)
Lemma observes_stored s s' space address v space' address' w :
  value_wf v -> stores space address (le_bytes v) s s' ->
  (forall i, (i < List.length (le_bytes v))%nat ->
     exists p offset, located s space address i p offset /\ located s space' address' i p offset) ->
  observes s' space' address' (value_size v) w -> w = v.
Proof.
  intros Hv Hs Hsame (data & Hl & _ & Hshow & ->).
  rewrite <- (value_of_le_bytes v Hv) at 2. f_equal.
  pose proof (le_bytes_length v).
  apply list_eq_same_length with (n := List.length data); [lia|lia|].
  intros i x y Hi Hx Hy. destruct (Hsame i ltac:(lia)) as (p & o & HL1 & HL2).
  pose proof (stores_written _ _ _ _ _ Hs i y p o Hy HL1) as Hc.
  apply (located_frame s s') in HL2; [|by eapply stores_mappings].
  destruct HL2 as (m & Hm & <- & <-).
  pose proof (Hshow i ltac:(lia)) as Hb. unfold byte_at in Hb. rewrite Hm in Hb. simpl in Hb. congruence.
Qed.

(** Cells a store does not touch read as before. *)
Lemma observes_untouched s s' space address data space' address' size w :
  stores space address data s s' ->
  (forall i j p offset, (i < List.length data)%nat -> (Z.of_nat j < bytes size) ->
     located s space address i p offset -> ~ located s space' address' j p offset) ->
  observes s' space' address' size w -> observes s space' address' size w.
Proof.
  intros Hs Hdis (d & Hl & Hd & Hshow & ->). exists d. split_and!; try done.
  intros i Hi. rewrite <- (Hshow i Hi). unfold byte_at, mapping_at. rewrite (stores_mappings _ _ _ _ _ Hs).
  destruct (mappings s !! _) as [m|] eqn:Hm; simpl; [|done]. symmetry.
  apply (stores_other _ _ _ _ _ Hs); [apply page_offset_bound|].
  intros j Hj Hloc. apply (Hdis j i _ _ Hj ltac:(lia) Hloc). exists m. done.
Qed.

(** A store also makes the same access readable, where reading is allowed. *)
Lemma resolved_readable s s' space address access r :
  fits 64 address -> mappings s' = mappings s ->
  (forall p, region_of <$> pages s' !! p = region_of <$> pages s !! p) ->
  resolved_ok (resolve_mapping s space) space address access KindWrite r ->
  (forall i m, 0 <= i < bytes (access_size access) -> mapping_at s space (address + i) = Some m ->
     MemoryPermissions.contains (permissions m) MemoryPermissions.READ = true) ->
  resolve_access s' space address access KindRead = Ok r.
Proof.
  intros Ha Hmap Hreg Hr Hread. apply resolve_data_access_complete; [done|].
  assert (forall i m region, 0 <= i < bytes (access_size access) ->
    resolve_checked (resolve_mapping s space) space KindWrite (address + i) = Ok (m, region) ->
    resolve_checked (resolve_mapping s' space) space KindRead (address + i) = Ok (m, region)) as Hcheck.
  { intros i m region Hi Hc.
    pose proof (resolve_checked_mapping _ _ _ _ _ _ Hc) as (Hm & _ & page & Hp & <-).
    specialize (Hread i m Hi Hm). specialize (Hreg (physical_page m)). rewrite Hp in Hreg.
    unfold resolve_checked, resolve_mapping, mapping_at in *. rewrite Hmap, Hm. simpl.
    destruct (pages s' !! physical_page m) as [page'|]; simpl in *; [|done].
    injection Hreg as ->. by rewrite Hread. }
  pose proof (bytes_bound (access_size access)). pose proof (page_offset_bound address).
  destruct Hr as [Hal Hb Hfb Hf Hs]. split; try done.
  - rewrite <- (Z.add_0_r address). apply Hcheck; [lia|]. by rewrite Z.add_0_r.
  - destruct (resolved_second r) as [second|]; [|done]. destruct Hs as [Hc Hs]. split; [done|].
    apply Hcheck; [lia|done].
Qed.

(** Every byte of a resolved RAM access has a cell. *)
Lemma ram_access_located s space address n r i :
  ram_access s space address n r -> Z.of_nat i < n <= 16 ->
  exists p offset, located s space address i p offset.
Proof.
  intros Hr Hi. pose proof (page_offset_bound address). pose proof page_size_value.
  destruct Hr as [c g Hm Hp Hnone Hin|second c g c2 g2 Hm Hp Hsome Hfb Hcross Hm2 Hp2].
  - exists (physical_page (resolved_first r)), (page_offset address + Z.of_nat i).
    apply (located_page s space address (resolved_first r)); [done|lia|done].
  - destruct (decide (page_offset address + Z.of_nat i < SYNTHETIC_PAGE_SIZE)).
    + exists (physical_page (resolved_first r)), (page_offset address + Z.of_nat i).
      by apply (located_page s space address (resolved_first r)).
    + exists (physical_page second), (Z.of_nat i - resolved_first_bytes r).
      apply (located_next s space address second (resolved_first_bytes r)); [lia|done|lia|done].
Qed.
(** The invariant after an access. *)
Lemma updates_ok space address stored v s s' :
  updates space address stored v s s' -> memory_ok s -> memory_ok s'.
Proof. destruct stored; simpl; [apply stores_ok|by intros ->]. Qed.

Lemma unchanged_ok s s' :
  unchanged s s' -> memory_ok s ->
  memory_ok s' /\ mappings s' = mappings s /\ forall p offset, cell s' p offset = cell s p offset.
Proof.
  intros [->|Hd] Hok; [done|]. split; [by eapply device_step_ok|]. split; [by destruct Hd as (? & ? & ? & ? & ->)|].
  intros. by apply device_step_cell.
Qed.

End Data.
