(* ===== verification/SyntheticProps.v ===== *)
(** * The synthetic backend: what its data accesses guarantee *)

From Stdlib Require Import ZArith Lia Bool String.
From stdpp Require Import base numbers list option strings gmap.
From S2P Require Import Prelude RustInt RustList Bytes GuestAddress Invalidation A64Semantics.
From S2P Require Import MemoryContracts MemoryCommon Synthetic SyntheticInv SyntheticData.
Import SyntheticMemory.
Local Open Scope list_scope.
Local Open Scope Z_scope.

(** ** A sample memory

    One device type without state; in address space 7, virtual pages 16 and 32
    alias physical page 3 and virtual page 17 is physical page 5, all readable
    and writable. *)

Module Sample.
#[export] Instance unit_mmio : SyntheticMmio unit := {
  mmio_read h _ access := (h, Ok (value_from_bits (access_size access) 0));
  mmio_write h _ _ _ := (h, Ok tt) }.

#[export] Instance unit_mmio_ok : SyntheticMmioOk unit.
Proof.
  split; [|done]. intros [] offset access; simpl. by apply value_from_bits_wf.
Qed.

Definition mapped (page : Z) (perms : Z) : Mapping :=
  {| physical_page := page; mapping_generation := 1; permissions := perms;
     purpose := PurposeNormal; attributes := 0 |}.

Definition memory : State unit :=
  {| mappings := <[(7, 16) := mapped 3 3]> (<[(7, 17) := mapped 5 3]> (<[(7, 32) := mapped 3 3]> ∅));
     pages := <[3 := RamPage None 1]> (<[5 := RamPage None 1]> ∅); instruction_faults := ∅; data_faults := ∅;
     next_page_id := 6; next_mapping_generation := Some 2; install_failure := None;
     invalidations := log_default |}.

Lemma mapped_lookup key m :
  mappings memory !! key = Some m ->
  key = (7, 16) /\ m = mapped 3 3 \/ key = (7, 17) /\ m = mapped 5 3 \/ key = (7, 32) /\ m = mapped 3 3.
Proof. simpl. rewrite !lookup_insert_Some, lookup_empty. naive_solver. Qed.

Lemma memory_is_ok : memory_ok memory.
Proof.
  split.
  - intros space page m [[[= -> ->] ->]|[[[= -> ->] ->]|[[= -> ->] ->]]]%mapped_lookup;
      (split; [lia|]); (split; [by eexists|done]).
  - intros p page. simpl. rewrite !lookup_insert_Some, lookup_empty.
    intros [[_ <-]|[_ [[_ <-]|[_ [=]]]]]; by repeat split.
  - done.
  - split; [done|]. intros key m [[_ ->]|[[_ ->]|[_ ->]]]%mapped_lookup; done.
  - exists []. apply default_represents.
Qed.

Definition word_access : MemoryAccess := MemoryAccess_new Word Unaligned Relaxed Normal.
End Sample.
Import Sample.

Section Props.
Context {Handler : Type} `{SyntheticMmioOk Handler}.
Implicit Types (s : State Handler).

Lemma stores_regions space address data s s' p :
  stores space address data s s' -> region_of <$> pages s' !! p = region_of <$> pages s !! p.
Proof.
  intros Hs. destruct (stores_pages _ _ _ _ _ Hs p) as [[-> _]|(c & g & c' & -> & -> & _)]; done.
Qed.

(** Reading back a store. *)
Lemma written_reads_back s s1 w space address access value :
  memory_ok s -> fits 64 address -> value_wf value ->
  write space address access value s = (s1, Ok w) -> write_region w = Ram ->
  (forall i m, 0 <= i < bytes (access_size access) -> mapping_at s space (address + i) = Some m ->
     MemoryPermissions.contains (permissions m) MemoryPermissions.READ = true) ->
  data_faults s !! (space, address, KindRead) = None ->
  read space address access s1 = (s1, Ok {| read_value := value; read_region := Ram |}).
Proof.
  intros Hok Ha Hv Hw Hram Hread Hfault.
  destruct (wp_ok _ _ _ _ _ _ (write_wp s space address access value Hok Ha) Hw)
    as (Hsize & (r & Hr & Hreg) & Hs). rewrite Hram in Hreg, Hs.
  pose proof (stores_ok _ _ _ _ _ Hs Hok) as Hok1.
  pose proof (resolved_readable s s1 space address access r Ha (stores_mappings _ _ _ _ _ Hs)
                (fun p => stores_regions _ _ _ _ _ p Hs) Hr Hread) as Hres.
  pose proof (resolve_data_access_spec (resolve_mapping s1 space) space address access KindRead Ha) as Hr1.
  unfold resolve_access in Hres. rewrite Hres in Hr1.
  destruct (read_ram_spec s1 space address access r Hok1 (resolved_ram _ _ _ _ _ _ Hr1 Hreg))
    as (data & Hd & Hlen & Hb & Hshow).
  assert (value_of (access_size access) data = value) as Hval.
  { rewrite <- Hsize in Hlen |- *. apply (observes_stored s s1 space address value space address); [done|done| |].
    - intros i Hi. pose proof (le_bytes_length value). pose proof (bytes_bound (value_size value)).
      destruct (ram_access_located s space address (bytes (value_size value)) r i) as (p & o & Hl).
      + rewrite Hsize. by eapply resolved_ram.
      + lia.
      + by exists p, o.
    - exists data. done. }
  unfold read, mbind, M_bind, gets, id, lift, resolve_access. rewrite Hres.
  unfold check_data_fault. rewrite (stores_frame _ _ _ _ _ Hs) at 1. simpl. rewrite Hfault.
  rewrite bool_decide_false by (by rewrite Hreg). by rewrite Hd, Hval.
Qed.

(** Loads return what was stored.  After a successful store to RAM, the
    same load, where it is allowed to read and no fault is injected, succeeds
    and returns exactly the stored value, whatever the width, the alignment
    and the page boundaries it crosses. *)
Theorem write_then_read s s1 w space address access value :
  memory_ok s -> fits 64 address -> value_wf value ->
  write space address access value s = (s1, Ok w) -> write_region w = Ram ->
  (forall i m, 0 <= i < bytes (access_size access) -> mapping_at s space (address + i) = Some m ->
     MemoryPermissions.contains (permissions m) MemoryPermissions.READ = true) ->
  data_faults s !! (space, address, KindRead) = None ->
  read space address access s1 = (s1, Ok {| read_value := value; read_region := Ram |}).
Proof. apply written_reads_back. Qed.

(** Aliases and frame.  A store is seen through every virtual address, in
    any address space, whose bytes lie in the same physical cells, and a load
    whose bytes lie in other cells observes what was there before. *)
Theorem store_seen_by_aliases s s1 s2 w r space address access value space' address' access' :
  memory_ok s -> fits 64 address -> fits 64 address' -> value_wf value ->
  write space address access value s = (s1, Ok w) -> write_region w = Ram ->
  read space' address' access' s1 = (s2, Ok r) -> read_region r = Ram ->
  (access_size access' = access_size access ->
   (forall i, Z.of_nat i < bytes (access_size access) -> exists p offset,
      located s space address i p offset /\ located s space' address' i p offset) ->
   read_value r = value) /\
  ((forall i j p offset, Z.of_nat i < bytes (access_size access) ->
      Z.of_nat j < bytes (access_size access') ->
      located s space address i p offset -> ~ located s space' address' j p offset) ->
   observes s space' address' (access_size access') (read_value r)).
Proof.
  intros Hok Ha Ha' Hv Hw Hram Hr Hrram.
  destruct (wp_ok _ _ _ _ _ _ (write_wp s space address access value Hok Ha) Hw) as (Hsize & _ & Hs).
  rewrite Hram in Hs. pose proof (stores_ok _ _ _ _ _ Hs Hok) as Hok1.
  destruct (wp_ok _ _ _ _ _ _ (read_wp s1 space' address' access' Hok1 Ha') Hr) as (_ & _ & Hrd).
  rewrite Hrram in Hrd. destruct Hrd as (_ & data & Hlen & Hd & Hshow & Heq).
  pose proof (le_bytes_length value) as Hl. rewrite Hsize in Hl.
  assert (observes s1 space' address' (access_size access') (read_value r)) as Hobs by (by exists data).
  split.
  - intros Hsz Hsame. rewrite Hsz, <- Hsize in Hobs.
    apply (observes_stored s s1 space address value space' address'); [done|done| |done].
    intros i Hi. apply Hsame. lia.
  - intros Hdis. eapply observes_untouched; [done| |done]. intros i j p o Hi Hj. apply Hdis; lia.
Qed.

(** C29: the exclusive pair.  A store-exclusive that follows a load-exclusive of
    the same address and size, with the address still on the same physical
    page, succeeds exactly when the bytes equal those the load observed; on
    success it stores its value, otherwise memory is unchanged. *)
Theorem exclusive_pair s0 s0' s s' space address access value loaded reservation w success :
  memory_ok s0 -> memory_ok s -> fits 64 address ->
  load_exclusive space address access s0 = (s0', Ok (loaded, reservation)) ->
  physical_page <$> mapping_at s space address = physical_page <$> mapping_at s0 space address ->
  store_exclusive space address access value reservation s = (s', Ok (w, success)) ->
  exists current, observes s space address (access_size access) current /\
    success = bool_decide (current = read_value loaded) /\
    updates space address success value s s'.
Proof.
  intros Hok0 Hok Ha Hload Hsame Hst.
  destruct (wp_ok _ _ _ _ _ _ (load_exclusive_wp s0 space address access Hok0 Ha) Hload)
    as (_ & _ & m0 & Hm0 & Hres). simpl in Hres. subst reservation.
  destruct (wp_ok _ _ _ _ _ _ (store_exclusive_wp s space address access value _ Hok Ha) Hst)
    as (m & Hm & [(Hno & _)|(_ & v & Hobs & Hs & Hup)]); [|by exists v].
  rewrite Hm, Hm0 in Hsame. injection Hsame as Hpage.
  unfold reservation_matches in Hno. simpl in Hno. by rewrite Hpage, !Z.eqb_refl in Hno.
Qed.

(** ** All data operations *)

Inductive data_operation : Type :=
  | OpRead (access : MemoryAccess)
  | OpWrite (access : MemoryAccess) (value : MemoryValue)
  | OpRmw (access : MemoryAccess) (kind : AtomicRmwKind) (operand : MemoryValue)
  | OpCompareExchange (access : MemoryAccess) (expected replacement : MemoryValue)
  | OpLoadExclusive (access : MemoryAccess)
  | OpStoreExclusive (access : MemoryAccess) (value : MemoryValue) (reservation : ExclusiveReservation).

Definition operation_wf (op : data_operation) : Prop :=
  match op with OpRmw _ _ operand => value_wf operand | _ => True end.

Definition run_operation (space : AddressSpaceId) (address : Z) (op : data_operation) :
    M (State Handler) DataAccessFault unit :=
  match op with
  | OpRead access => _ ← read space address access; mret tt
  | OpWrite access value => _ ← write space address access value; mret tt
  | OpRmw access kind operand => _ ← atomic_read_modify_write space address access kind operand; mret tt
  | OpCompareExchange access expected replacement =>
      _ ← atomic_compare_exchange space address access expected replacement; mret tt
  | OpLoadExclusive access => _ ← load_exclusive space address access; mret tt
  | OpStoreExclusive access value reservation =>
      _ ← store_exclusive space address access value reservation; mret tt
  end.

(** No access panics, and the invariant is kept. *)
Lemma data_access_run s space address op :
  memory_ok s -> fits 64 address -> operation_wf op ->
  wp (run_operation space address op)
    (fun _ s' => memory_ok s')
    (fun _ s' => memory_ok s' /\ mappings s' = mappings s /\
                 forall p offset, cell s' p offset = cell s p offset) s.
Proof.
  intros Hok Ha Hop. destruct op; simpl in *; apply wp_discard.
  - eapply wp_mono; [by apply read_wp| |].
    + simpl. intros r s' (_ & _ & Hr). destruct (read_region r); [by destruct Hr as [-> _]|].
      by eapply device_step_ok.
    + simpl. intros e s' [_ Hu]. by apply unchanged_ok.
  - eapply wp_mono; [by apply write_wp| |].
    + simpl. intros r s' (_ & _ & Hr). destruct (write_region r); [by eapply stores_ok|by eapply device_step_ok].
    + simpl. intros e s' [_ Hu]. by apply unchanged_ok.
  - eapply wp_mono; [by apply atomic_read_modify_write_wp| |by intros e s' ->].
    simpl. intros r s' (_ & _ & new & _ & _ & Hs). by eapply stores_ok.
  - eapply wp_mono; [by apply atomic_compare_exchange_wp| |by intros e s' ->].
    simpl. intros r s' (_ & _ & Hu). by eapply updates_ok.
  - eapply wp_mono; [by apply load_exclusive_wp| |by intros e s' ->]. by intros r s' (-> & _).
  - eapply wp_mono; [by apply store_exclusive_wp| |by intros e s' ->].
    simpl. intros r s' (m & _ & [(_ & _ & ->)|(_ & v & _ & _ & Hu)]); [done|by eapply updates_ok].
Qed.
(** C30: data accesses are safe and precise.  On a well-formed memory no access
    panics; the invariant is kept; and an access that reports a fault leaves
    every mapping and every byte of RAM as it was. *)
Theorem data_access_safe s space address op :
  memory_ok s -> fits 64 address -> operation_wf op ->
  wp (run_operation space address op)
    (fun _ s' => memory_ok s')
    (fun _ s' => memory_ok s' /\ mappings s' = mappings s /\
                 forall p offset, cell s' p offset = cell s p offset) s.
Proof. apply data_access_run. Qed.
End Props.

(** ** Witnesses *)

(** A word stored across the boundary of pages 16 and 17. *)
Lemma write_then_read_witness :
  let s1 := fst (write 7 0x10ffe Sample.word_access (U32 0xdeadbeef) Sample.memory) in
  write 7 0x10ffe Sample.word_access (U32 0xdeadbeef) Sample.memory = (s1, Ok {| write_region := Ram |}) /\
  read 7 0x10ffe Sample.word_access s1 = (s1, Ok {| read_value := U32 0xdeadbeef; read_region := Ram |}).
Proof.
  intros s1.
  assert (write 7 0x10ffe Sample.word_access (U32 0xdeadbeef) Sample.memory =
          (s1, Ok {| write_region := Ram |})) as Hw by (by vm_compute).
  split; [exact Hw|].
  refine (write_then_read Sample.memory s1 {| write_region := Ram |} 7 0x10ffe Sample.word_access
           (U32 0xdeadbeef) Sample.memory_is_ok _ _ Hw eq_refl _ eq_refl).
  - by split.
  - by split.
  - intros i m _ [[_ ->]|[[_ ->]|[_ ->]]]%Sample.mapped_lookup; done.
Defined.

(** A store through page 16 read back through its alias, page 32. *)
Lemma store_seen_by_aliases_witness :
  let access := Sample.word_access in
  let s1 := fst (write 7 0x10010 access (U32 77) Sample.memory) in
  (forall i, Z.of_nat i < 4 -> exists p offset,
     located Sample.memory 7 0x10010 i p offset /\ located Sample.memory 7 0x20010 i p offset) /\
  match read 7 0x20010 access s1 with
  | (_, Ok r) => read_value r = U32 77
  | _ => False
  end.
Proof.
  intros access s1.
  assert (forall i, Z.of_nat i < 4 -> exists p offset,
    located Sample.memory 7 0x10010 i p offset /\ located Sample.memory 7 0x20010 i p offset) as Hsame.
  { intros i Hi. exists 3, (16 + Z.of_nat i).
    split; [apply (located_page _ _ _ (Sample.mapped 3 3))|apply (located_page _ _ _ (Sample.mapped 3 3))];
      first [reflexivity | (change (page_offset _) with 16; rewrite page_size_value; lia) | by split]. }
  split; [exact Hsame|].
  destruct (read 7 0x20010 access s1) as [s2 r] eqn:E.
  assert (match r with Ok r => read_region r = Ram | _ => False end) as Hr.
  { apply (f_equal snd) in E. vm_compute in E. by subst r. }
  destruct r as [r| |]; [|done..].
  apply (proj1 (store_seen_by_aliases Sample.memory s1 s2 {| write_region := Ram |} r 7 0x10010
           Sample.word_access (U32 77) 7 0x20010 Sample.word_access Sample.memory_is_ok
           ltac:(by split) ltac:(by split) ltac:(by split) ltac:(by vm_compute) eq_refl E Hr));
    [reflexivity|exact Hsame].
Defined.

(** A doubleword loaded and conditionally stored at 0x10020. *)
Lemma exclusive_pair_witness :
  let access := MemoryAccess_new Doubleword Natural Relaxed Exclusive in
  let load := load_exclusive 7 0x10020 access Sample.memory in
  match snd load with
  | Ok (loaded, reservation) =>
      let store := store_exclusive 7 0x10020 access (U64 9) reservation Sample.memory in
      snd store = Ok ({| write_region := Ram |}, true) /\
      exists current, observes Sample.memory 7 0x10020 Doubleword current /\
        true = bool_decide (current = read_value loaded) /\
        updates 7 0x10020 true (U64 9) Sample.memory (fst store)
  | _ => False
  end.
Proof.
  intros access load. unfold load.
  destruct (load_exclusive 7 0x10020 access Sample.memory) as [s0 r] eqn:E. simpl.
  assert (r = Ok ({| read_value := U64 0; read_region := Ram |},
    {| reserved_page := 3; reserved_byte_offset := 32; reserved_access_size := 8;
       reserved_expected := U64 0 |})) as Hr by (apply (f_equal snd) in E; vm_compute in E; by subst r).
  subst r.
  destruct (store_exclusive 7 0x10020 access (U64 9) _ Sample.memory) as [s1 r] eqn:E1. simpl.
  assert (r = Ok ({| write_region := Ram |}, true)) as Hr
    by (apply (f_equal snd) in E1; vm_compute in E1; by subst r).
  subst r. split; [reflexivity|].
  exact (exclusive_pair Sample.memory s0 Sample.memory s1 7 0x10020 access (U64 9) _ _ _ true
           Sample.memory_is_ok Sample.memory_is_ok ltac:(by split) E eq_refl E1).
Defined.

Lemma data_access_safe_witness :
  (memory_ok Sample.memory /\ fits 64 0x11000 /\ operation_wf (OpRmw Sample.word_access Add (U32 1))) /\
  wp (run_operation 7 0x11000 (OpRmw Sample.word_access Add (U32 1)))
    (fun _ s' => memory_ok s')
    (fun _ s' => memory_ok s' /\ mappings s' = mappings Sample.memory /\
                 forall p offset, cell s' p offset = cell Sample.memory p offset) Sample.memory.
Proof.
  assert (operation_wf (OpRmw Sample.word_access Add (U32 1))) as Hop by done.
  split; [split_and!; [apply Sample.memory_is_ok|by split|exact Hop]|].
  apply (data_access_safe Sample.memory 7 0x11000 (OpRmw Sample.word_access Add (U32 1)));
    [apply Sample.memory_is_ok|by split|exact Hop].
Defined.
