(* ===== verification/SyntheticMap.v ===== *)
(** * The synthetic backend: mapping operations

    Every mapping operation validates first and then changes everything or
    nothing.  The lemmas here run the shared steps (reserving and committing an
    invalidation, taking a generation, updating a range of mappings) and the
    operations built from them. *)

From Stdlib Require Import ZArith Lia Bool String.
From stdpp Require Import base numbers list option strings gmap.
From S2P Require Import Prelude RustInt RustList Bytes GuestAddress Invalidation A64Semantics.
From S2P Require Import MemoryContracts MemoryCommon Synthetic SyntheticInv.
Import SyntheticMemory.
Local Open Scope list_scope.
Local Open Scope Z_scope.

Section Mappings.
Context {Handler : Type} `{SyntheticMmioOk Handler}.
Implicit Types (s : State Handler).

(** ** Invalidations *)

(** The stream of [s'] extends that of [s] by changes of the given kinds. *)
Definition published s s' (kinds : list MemoryInvalidationKind) : Prop :=
  exists history records, represents history (invalidations s) /\
    represents (history ++ records) (invalidations s') /\ inv_kind <$> records = kinds.

(** A reservation of one change, and what committing it later does. *)
Definition committable s (record : MemoryInvalidation) : Prop :=
  forall E s1, invalidations s1 = invalidations s ->
    exists log', @commit_invalidation Handler E (commit record) s1 = (set_invalidations log' s1, Ok tt) /\
      published s (set_invalidations log' s1) [inv_kind record].

Lemma reserve_or_wp {E} s kind origin (error : MemoryInvalidationError -> E) Q (Qe : E -> State Handler -> Prop) :
  memory_ok s ->
  (forall record, inv_kind record = kind -> committable s record -> Q record s) ->
  (forall reason, Qe (error reason) s) ->
  wp (reserve_or (fun log => reserve_with_origin log kind origin) error) Q Qe s.
Proof.
  intros Hok HQ HE. destruct (ok_log s Hok) as [history Hh]. unfold wp, reserve_or.
  rewrite (reserve_with_origin_cases history) by done.
  destruct (Z.ltb_spec (Z.of_nat (List.length history) + 1) (2 ^ 64)); [|apply HE].
  apply HQ; [done|]. intros E' s1 Hs1.
  destruct (commit_represents history (invalidations s1)
              {| inv_cursor := Z.of_nat (List.length history) + 1; inv_kind := kind; inv_origin := origin |})
    as (log' & Hc & Hr); [by rewrite Hs1|done|done|].
  exists log'. unfold commit_invalidation. rewrite Hc. split; [done|].
  exists history, [{| inv_cursor := Z.of_nat (List.length history) + 1; inv_kind := kind; inv_origin := origin |}].
  split; [done|]. split; [|done]. done.
Qed.

Definition batch_committable s (batch : BatchReservation) (kinds : list MemoryInvalidationKind) : Prop :=
  forall E s1, invalidations s1 = invalidations s ->
    exists log', @commit_invalidation Handler E (commit_many batch) s1 = (set_invalidations log' s1, Ok tt) /\
      published s (set_invalidations log' s1) kinds.

Lemma batch_kinds_of value kinds origin : inv_kind <$> batch_records value kinds origin = kinds.
Proof. revert value. induction kinds as [|k kinds IH]; intros; simpl; [done|]. by rewrite IH. Qed.

Lemma reserve_many_or_wp {E} s kinds origin (error : MemoryInvalidationError -> E) Q (Qe : E -> State Handler -> Prop) :
  memory_ok s ->
  (forall batch, batch_committable s batch kinds -> Q batch s) -> (forall reason, Qe (error reason) s) ->
  wp (reserve_or (fun log => reserve_many_with_origin log kinds origin) error) Q Qe s.
Proof.
  intros Hok HQ HE. destruct (ok_log s Hok) as [history Hh]. unfold wp, reserve_or.
  rewrite (reserve_many_cases history) by done.
  destruct (Z.ltb_spec (Z.of_nat (List.length history) + Z.max 1 (Z.of_nat (List.length kinds))) (2 ^ 64));
    [|apply HE].
  apply HQ. intros E' s1 Hs1.
  destruct (commit_many_represents history (invalidations s1)
    {| batch_kinds := kinds; batch_first := Z.of_nat (List.length history) + 1; batch_origin := origin |})
    as (log' & Hc & Hr); [by rewrite Hs1|done|simpl; lia|].
  exists log'. unfold commit_invalidation. rewrite Hc. split; [done|].
  exists history, (batch_records (Z.of_nat (List.length history) + 1) kinds origin).
  split; [done|]. split; [done|apply batch_kinds_of].
Qed.

Lemma published_log s s' kinds : published s s' kinds -> exists history, represents history (invalidations s').
Proof. intros (h & r & _ & Hr & _). eauto. Qed.

(** ** Generations *)

Lemma take_generation_wp {E} s (e : E) Q (Qe : E -> State Handler -> Prop) :
  (forall g, next_mapping_generation s = Some g ->
     Q g (set_next_mapping_generation (res_ok (MappingGeneration.next g)) s)) ->
  Qe e s -> wp (take_generation e) Q Qe s.
Proof.
  intros HQ HE. unfold wp, take_generation, take_mapping_generation.
  destruct (next_mapping_generation s) as [g|] eqn:Eg; [by apply HQ|].
  destruct s; simpl in *; subst. done.
Qed.

(** Replacing mappings with a fresh generation keeps the invariant. *)
Lemma remap_ok s g m' log' :
  memory_ok s -> next_mapping_generation s = Some g ->
  (forall space page m, m' !! (space, page) = Some m ->
     mappings s !! (space, page) = Some m \/
     (mapping_generation m = g /\ 0 <= page < 2 ^ 52 /\ is_Some (pages s !! physical_page m) /\
      attributes_ok (attributes m))) ->
  (exists history, represents history log') ->
  memory_ok (set_invalidations log' (set_mappings m'
    (set_next_mapping_generation (res_ok (MappingGeneration.next g)) s))).
Proof.
  intros Hok Hg Hm Hlog. pose proof (ok_generation s Hok) as Hgen. rewrite Hg in Hgen.
  destruct Hgen as [Hgf Hgen]. split; simpl; try apply Hok; [..|done].
  - intros space page m Hl. destruct (Hm space page m Hl) as [Ho|(_ & ? & ? & ?)]; [|done].
    by eapply (ok_mapped s Hok).
  - unfold MappingGeneration.next, checked_add.
    destruct (Z.ltb_spec (g + 1) (2 ^ 64)); simpl; [|done].
    split; [unfold fits in *; lia|]. intros [space page] m Hl.
    destruct (Hm space page m Hl) as [Ho|(-> & _)]; [|lia]. specialize (Hgen _ _ Ho). lia.
Qed.

(** ** Ranges *)

Lemma check_pages_ok {E} (check : Z -> res E unit) range :
  check_pages check range = Ok tt <-> forall page, page ∈ range -> check page = Ok tt.
Proof.
  induction range as [|page range IH]; simpl; [split; [intros _ p Hp; by apply not_elem_of_nil in Hp|done]|].
  destruct (check page) as [[]|e|] eqn:Ec; simpl.
  - rewrite IH. setoid_rewrite elem_of_cons. naive_solver.
  - split; [done|]. intros Hall. rewrite Hall in Ec by by left. done.
  - split; [done|]. intros Hall. rewrite Hall in Ec by by left. done.
Qed.

Lemma check_pages_no_panic {E} (check : Z -> res E unit) range :
  (forall page, check page <> Panic) -> check_pages check range <> Panic.
Proof.
  intros Hc. induction range as [|page range IH]; simpl; [done|].
  specialize (Hc page). by destruct (check page) as [[]| |].
Qed.

Lemma check_pages_wp {E} (check : Z -> res E unit) range Q (Qe : E -> State Handler -> Prop) s :
  (forall page, check page <> Panic) ->
  ((forall page, page ∈ range -> check page = Ok tt) -> Q tt s) -> (forall e, Qe e s) ->
  wp (lift (check_pages check range)) Q Qe s.
Proof.
  intros Hc HQ HE. apply wp_lift. pose proof (check_pages_no_panic check range Hc) as Hn.
  destruct (check_pages check range) as [[]|e|] eqn:E1; [|apply HE|done].
  apply HQ. by apply check_pages_ok.
Qed.

(** The mappings after a range of pages is updated. *)
Lemma update_mappings_run {E} space (update : Mapping -> res E Mapping) f range : forall s,
  NoDup range ->
  (forall page, page ∈ range -> exists m, mappings s !! (space, page) = Some m /\ update m = Ok (f m)) ->
  exists m', update_mappings space update range s = (set_mappings m' s, Ok tt) /\
    forall sp p, m' !! (sp, p) =
      if decide (sp = space /\ p ∈ range) then f <$> mappings s !! (sp, p) else mappings s !! (sp, p).
Proof.
  induction range as [|page range IH]; intros s Hnd Hall.
  - exists (mappings s). split; [by destruct s|]. intros sp p. rewrite decide_False; [done|].
    intros [_ Hp]. by apply not_elem_of_nil in Hp.
  - apply NoDup_cons in Hnd as [Hnotin Hnd].
    destruct (Hall page ltac:(by left)) as (m & Hm & Hu).
    destruct (IH (set_mappings (<[(space, page) := f m]> (mappings s)) s)) as (m' & Hrun & Hl); [done| |].
    { intros p Hp. simpl. rewrite lookup_insert_ne by congruence. apply Hall. by right. }
    exists m'. split.
    + cbn [update_mappings]. rewrite (M_bind_ok _ _ s s s eq_refl).
      rewrite (M_bind_lift_ok _ m) by (by rewrite Hm). rewrite (M_bind_lift_ok _ (f m)) by done.
      unfold mbind at 1, M_bind at 1, modify at 1. exact Hrun.
    + intros sp p. rewrite Hl. simpl. destruct (decide (sp = space /\ p = page)) as [[-> ->]|Hne].
      * rewrite decide_False by tauto. rewrite lookup_insert_eq, decide_True by (split; [done|apply list_elem_of_here]).
        by rewrite Hm.
      * rewrite lookup_insert_ne by naive_solver. destruct (decide (sp = space /\ p ∈ range)) as [[-> Hp]|].
        -- rewrite decide_True; [done|]. split; [done|]. by apply list_elem_of_further.
        -- rewrite decide_False; [done|]. intros [-> [->|Hp]%elem_of_cons]; tauto.
Qed.

Lemma range_pages_nodup r : NoDup (range_pages r).
Proof. apply NoDup_seqZ. Qed.

(** Only mappings, the next generation and the stream differ. *)
Definition remapped s s' : Prop :=
  s' = set_invalidations (invalidations s')
         (set_next_mapping_generation (next_mapping_generation s') (set_mappings (mappings s') s)).

(** The page lies in the range, in the given address space. *)
Abbreviation in_range space r sp p := (sp = space /\ p ∈ range_pages r).

(** The common tail of the operations that rewrite a range of mappings. *)
Lemma update_range_wp {E} s space r kind (update : Z -> Mapping -> res E Mapping) f
    (error : MemoryInvalidationError -> E) exhausted :
  memory_ok s ->
  (forall page, page ∈ range_pages r -> exists m, mappings s !! (space, page) = Some m) ->
  (forall g page m, mappings s !! (space, page) = Some m -> update g m = Ok (f g m) /\
     physical_page (f g m) = physical_page m /\ mapping_generation (f g m) = g /\
     attributes_ok (attributes (f g m))) ->
  wp (record ← reserve_or (fun log => reserve log kind) error;
      generation ← take_generation exhausted;
      _ ← update_mappings space (update generation) (range_pages r);
      commit_invalidation (commit record))
    (fun _ s' => memory_ok s' /\ remapped s s' /\ published s s' [kind] /\
       exists g, next_mapping_generation s = Some g /\
       forall sp p, mappings s' !! (sp, p) =
         if decide (in_range space r sp p) then f g <$> mappings s !! (sp, p) else mappings s !! (sp, p))
    (fun _ s' => s' = s) s.
Proof.
  intros Hok Hmapped Hf. wp_step. unfold reserve. apply reserve_or_wp; [done| |done].
  intros record Hkind Hcommit. wp_step. apply take_generation_wp; [|done]. intros g Hg.
  set (s1 := set_next_mapping_generation _ s).
  destruct (update_mappings_run space (update g) (f g) (range_pages r) s1 (range_pages_nodup r))
    as (m' & Hrun & Hl).
  { intros page Hp. destruct (Hmapped page Hp) as [m Hm]. exists m. split; [done|]. by eapply Hf. }
  destruct (Hcommit E (set_mappings m' s1) eq_refl) as (log' & Hc & Hpub). rewrite Hkind in Hpub.
  wp_step. unfold wp. rewrite Hrun, Hc. split; [|split; [done|split; [done|]]].
  - apply remap_ok; [done|done| |exact (published_log _ _ _ Hpub)].
    intros sp p m Hm. rewrite Hl in Hm. simpl in Hm. case_decide as D; [|by left].
    destruct D as [-> Hp]. apply fmap_Some in Hm as (m0 & Hm0 & ->).
    destruct (Hf g p m0 Hm0) as (_ & Hph & Hge & Hat). right. rewrite Hph.
    by destruct (ok_mapped s Hok space p m0 Hm0) as (? & ? & _).
  - exists g. split; [done|]. exact Hl.
Qed.

(** ** Protection *)

Definition with_permissions (perms g : Z) (m : Mapping) : Mapping :=
  {| physical_page := physical_page m; mapping_generation := g; permissions := perms;
     purpose := purpose m; attributes := attributes m |}.

Definition with_attributes (mask value g : Z) (m : Mapping) : Mapping :=
  {| physical_page := physical_page m; mapping_generation := g; permissions := permissions m;
     purpose := purpose m; attributes := Z.lor (Z.land (attributes m) (not_w 32 mask)) value |}.

(** The same mapping up to its generation. *)
Definition same_mapping (m m' : Mapping) : Prop :=
  physical_page m' = physical_page m /\ properties m' = properties m.

Lemma nonempty_range_spec start size r :
  nonempty_range start size = Some r -> PageRange_new start size = Some r /\ range_first r <> range_end r.
Proof.
  unfold nonempty_range. destruct (PageRange_new start size) as [r'|]; simpl; [|done].
  unfold PageRange_is_empty. destruct (Z.eqb_spec (range_first r') (range_end r')); [done|].
  by intros [= <-].
Qed.

Lemma set_permissions_wp s space start size perms :
  memory_ok s ->
  wp (set_permissions space start size perms)
    (fun _ s' => memory_ok s' /\ remapped s s' /\ writable_executable perms = false /\
       exists r, nonempty_range start size = Some r /\
       forall sp p,
         if decide (in_range space r sp p)
         then exists m m', mappings s !! (sp, p) = Some m /\ mappings s' !! (sp, p) = Some m' /\
           same_mapping (with_permissions perms (mapping_generation m) m) m' /\
           (MemoryAttributes.contains (attributes m) MemoryAttributes.PERMISSION_LOCKED = true ->
            permissions m = perms)
         else mappings s' !! (sp, p) = mappings s !! (sp, p))
    (fun _ s' => s' = s) s.
Proof.
  intros Hok. unfold set_permissions. wp_step. wp_step; [|done]. rename a into r. rename select (_ = Some r) into Hr.
  wp_step. wp_step; [done|]. rename select (writable_executable perms = false) into Hwx.
  wp_state. wp_step. apply check_pages_wp; [|intros Hall|done].
  { intros page. repeat case_match; done. }
  assert (forall page, page ∈ range_pages r -> exists m, mappings s !! (space, page) = Some m /\
    (MemoryAttributes.contains (attributes m) MemoryAttributes.PERMISSION_LOCKED = true ->
     permissions m = perms)) as Hmap.
  { intros page Hp. specialize (Hall page Hp). destruct (mappings s !! (space, page)) as [m|]; [|done].
    exists m. split; [done|]. intros Hlock. rewrite Hlock in Hall. simpl in Hall.
    destruct (Z.eqb_spec (permissions m) perms); [done|done]. }
  destruct (existsb _ (range_pages r)) eqn:Hch; cbn [negb].
  - eapply wp_mono; [apply (update_range_wp s space r (Invalidation.Mapping space start size) _
        (fun g => with_permissions perms g)); [done| |]| |done].
    + intros page Hp. destruct (Hmap page Hp) as (m & Hm & _). by exists m.
    + intros g page m Hm. split; [done|]. split; [done|]. split; [done|].
      by destruct (ok_mapped s Hok _ _ _ Hm) as (_ & _ & ?).
    + simpl. intros _ s' (Hok' & Hre & _ & g & _ & Hl). split; [done|]. split; [done|]. split; [done|].
      exists r. split; [done|]. intros sp p. specialize (Hl sp p). case_decide as D; [|done].
      destruct D as [-> Hp]. destruct (Hmap p Hp) as (m & Hm & Hlock). rewrite Hm in Hl. simpl in Hl.
      exists m. eexists. split; [done|]. split; [done|]. by split.
  - wp_step. split; [done|]. split; [by destruct s|]. split; [done|]. exists r. split; [done|].
    intros sp p. case_decide as D; [|done]. destruct D as [-> Hp].
    destruct (Hmap p Hp) as (m & Hm & Hlock). exists m, m. split; [done|]. split; [done|].
    split; [|done]. split; [done|]. apply not_true_iff_false in Hch. rewrite existsb_exists in Hch.
    destruct (Z.eqb_spec (permissions m) perms) as [<-|Hne]; [by destruct m|].
    destruct Hch. exists p. split; [by apply list_elem_of_In|]. rewrite Hm.
    by destruct (Z.eqb_spec (permissions m) perms).
Qed.

(** ** Attributes *)

Lemma from_bits_known bits : MemoryAttributes.from_bits bits = Some bits <-> Z.land bits (not_w 32 MemoryAttributes.KNOWN) = 0.
Proof. unfold MemoryAttributes.from_bits. destruct (Z.eqb_spec (Z.land bits (not_w 32 MemoryAttributes.KNOWN)) 0); naive_solver. Qed.

Lemma masked_attributes_valid a mask value :
  attributes_ok a -> masked_attributes MemoryAttributes.NONE mask value <> None ->
  masked_attributes a mask value = Some (Z.lor (Z.land a (not_w 32 mask)) value) /\
  attributes_ok (Z.lor (Z.land a (not_w 32 mask)) value).
Proof.
  unfold attributes_ok, masked_attributes. intros Ha%from_bits_known.
  destruct (Z.land value (not_w 32 mask) =? 0); simpl; [|done].
  unfold MemoryAttributes.from_bits at 1. change (Z.lor _ value) with value at 1.
  destruct (Z.eqb_spec (Z.land value (not_w 32 MemoryAttributes.KNOWN)) 0) as [Hv|]; [|done]. intros _.
  rewrite from_bits_known. rewrite <- from_bits_known.
  assert (Z.land (Z.lor (Z.land a (not_w 32 mask)) value) (not_w 32 MemoryAttributes.KNOWN) = 0) as Hz.
  { rewrite Z.land_lor_distr_l, Hv, Z.lor_0_r.
    rewrite <- Z.land_assoc, (Z.land_comm (not_w 32 mask)), Z.land_assoc, Ha. apply Z.land_0_l. }
  split; by apply from_bits_known.
Qed.

(** The scan for a change. *)
Definition attributes_change s (space mask value : Z) (range : list Z) : res MemoryProtectionError bool :=
  foldr (fun page rest =>
    mapping ← expect (mappings s !! (space, page));
    new ← expect (masked_attributes (attributes mapping) mask value);
    if negb (attributes mapping =? new) then Ok true else rest) (Ok false) range.

Lemma attributes_change_spec s space mask value range :
  memory_ok s -> masked_attributes MemoryAttributes.NONE mask value <> None ->
  (forall page, page ∈ range -> exists m, mappings s !! (space, page) = Some m) ->
  attributes_change s space mask value range = Ok true \/
  (attributes_change s space mask value range = Ok false /\
   forall page m, page ∈ range -> mappings s !! (space, page) = Some m ->
     attributes m = Z.lor (Z.land (attributes m) (not_w 32 mask)) value).
Proof.
  intros Hok Hv. induction range as [|page range IH]; intros Hall.
  { right. split; [done|]. intros page m Hp. by apply not_elem_of_nil in Hp. }
  destruct (Hall page ltac:(left)) as [m Hm]. cbn [attributes_change foldr].
  rewrite Hm. cbn [mbind res_bind expect].
  destruct (ok_mapped s Hok _ _ _ Hm) as (_ & _ & Ha).
  destruct (masked_attributes_valid _ mask value Ha Hv) as [-> _]. cbn [mbind res_bind expect].
  destruct (Z.eqb_spec (attributes m) (Z.lor (Z.land (attributes m) (not_w 32 mask)) value)) as [Heq|];
    cbn [negb]; [|by left].
  destruct IH as [IH|[IH Hrest]]; [intros p Hp; apply Hall; by right|by left|]. right.
  split; [exact IH|]. intros p m0 [->|Hp]%elem_of_cons Hm0; [|by apply (Hrest p)].
  by rewrite Hm in Hm0; injection Hm0 as <-.
Qed.

Lemma set_attributes_wp s space start size mask value :
  memory_ok s ->
  wp (set_attributes space start size mask value)
    (fun _ s' => memory_ok s' /\ remapped s s' /\
       exists r, nonempty_range start size = Some r /\
       forall sp p,
         if decide (in_range space r sp p)
         then exists m m', mappings s !! (sp, p) = Some m /\ mappings s' !! (sp, p) = Some m' /\
           same_mapping (with_attributes mask value (mapping_generation m) m) m'
         else mappings s' !! (sp, p) = mappings s !! (sp, p))
    (fun _ s' => s' = s) s.
Proof.
  intros Hok. unfold set_attributes. wp_step. wp_step; [|done]. rename a into r. rename select (_ = Some r) into Hr.
  wp_step. wp_step; [done|]. rename select (bool_decide _ = false) into Hv. apply bool_decide_eq_false in Hv.
  wp_state. wp_step. apply check_pages_wp; [|intros Hall|done].
  { intros page. repeat case_match; done. }
  assert (forall page, page ∈ range_pages r -> exists m, mappings s !! (space, page) = Some m) as Hmap.
  { intros page Hp. specialize (Hall page Hp). case_bool_decide as D; [done|done]. }
  wp_step. apply wp_lift. fold (attributes_change s space mask value (range_pages r)).
  destruct (attributes_change_spec s space mask value (range_pages r) Hok Hv Hmap) as [->|[-> Hsame]]; cbn [negb].
  - eapply wp_mono; [apply (update_range_wp s space r (Invalidation.Mapping space start size) _
        (fun g => with_attributes mask value g)); [done|done|]| |done].
    + intros g page m Hm. destruct (ok_mapped s Hok _ _ _ Hm) as (_ & _ & Ha).
      destruct (masked_attributes_valid _ mask value Ha Hv) as [-> ?]. done.
    + simpl. intros _ s' (Hok' & Hre & _ & g & _ & Hl). split; [done|]. split; [done|].
      exists r. split; [done|]. intros sp p. specialize (Hl sp p). case_decide as D; [|done].
      destruct D as [-> Hp]. destruct (Hmap p Hp) as [m Hm]. rewrite Hm in Hl. simpl in Hl.
      exists m. eexists. by split_and!.
  - wp_step. split; [done|]. split; [by destruct s|]. exists r. split; [done|].
    intros sp p. case_decide as D; [|done]. destruct D as [-> Hp].
    destruct (Hmap p Hp) as [m Hm]. exists m, m. split; [done|]. split; [done|].
    split; [done|]. unfold properties, with_attributes; simpl. by rewrite <- (Hsame p m Hp Hm).
Qed.
End Mappings.
