(* ===== verification/SyntheticAlias.v ===== *)
(** * The synthetic backend: aliases

    [map_alias] gives a range of RAM pages a second virtual range and new
    properties at the first; [unmap_alias] undoes it. *)

From Stdlib Require Import ZArith Lia Bool String.
From stdpp Require Import base numbers list option strings gmap.
From S2P Require Import Prelude RustInt RustList Bytes GuestAddress Invalidation A64Semantics.
From S2P Require Import MemoryContracts MemoryCommon Synthetic SyntheticInv SyntheticMap.
Import SyntheticMemory.
From S2P Require Import SyntheticData SyntheticProps.
Local Open Scope list_scope.
Local Open Scope Z_scope.

(** The first pair of a list is not acceptable. *)
Ltac refute_pair :=
  let Hx := fresh "Hx" in intros [Hx _]%Forall_cons;
  first [destruct Hx as [(? & ? & ? & ?) ?] | destruct Hx as (? & ? & ? & ? & ? & ? & ?)];
  simpl in *; simplify_eq; congruence.

Section Alias.
Context {Handler : Type} `{SyntheticMmioOk Handler}.
Implicit Types (s : State Handler) (request : MemoryAliasRequest).

(** What makes a pair of pages acceptable to each operation. *)
Definition map_pair_ok s request (pair : Z * Z) : Prop :=
  let space := alias_address_space request in
  (exists m, mappings s !! (space, fst pair) = Some m /\ properties m = alias_source_before request /\
     is_ram s (physical_page m) = true) /\
  mappings s !! (space, snd pair) = None.

Definition unmap_pair_ok s request (pair : Z * Z) : Prop :=
  let space := alias_address_space request in
  exists m d, mappings s !! (space, fst pair) = Some m /\ properties m = alias_source_before request /\
    mappings s !! (space, snd pair) = Some d /\ properties d = alias_destination_properties request /\
    physical_page m = physical_page d.

Lemma check_map_alias_spec s request pairs :
  match check_map_alias s request pairs with
  | Ok _ => Forall (map_pair_ok s request) pairs
  | Err _ => ~ Forall (map_pair_ok s request) pairs
  | Panic => False
  end.
Proof.
  induction pairs as [|[a b] pairs IH]; cbn [check_map_alias]; [done|].
  destruct (mappings s !! (alias_address_space request, a)) as [m|] eqn:Em; [|refute_pair].
  case_bool_decide as E1; simpl; [|refute_pair].
  destruct (is_ram s (physical_page m)) eqn:E2; simpl; [|refute_pair].
  destruct (mappings s !! (alias_address_space request, b)) as [d|] eqn:Ed; [refute_pair|].
  rewrite bool_decide_false by (by intros [? ?]).
  destruct (check_map_alias s request pairs) as [[]|e|]; [| |done].
  - constructor; [|done]. split; [by exists m|done].
  - intros [_ Hf]%Forall_cons. done.
Qed.

Lemma check_unmap_alias_spec s request pairs :
  match check_unmap_alias s request pairs with
  | Ok _ => Forall (unmap_pair_ok s request) pairs
  | Err _ => ~ Forall (unmap_pair_ok s request) pairs
  | Panic => False
  end.
Proof.
  induction pairs as [|[a b] pairs IH]; cbn [check_unmap_alias]; [done|].
  destruct (mappings s !! (alias_address_space request, a)) as [m|] eqn:Em; [|refute_pair].
  case_bool_decide as E1; simpl; [|refute_pair].
  destruct (mappings s !! (alias_address_space request, b)) as [d|] eqn:Ed; [|refute_pair].
  case_bool_decide as E2; simpl; [|refute_pair].
  destruct (Z.eqb_spec (physical_page m) (physical_page d)) as [E3|]; simpl; [|refute_pair].
  destruct (check_unmap_alias s request pairs) as [[]|e|]; [| |done].
  - constructor; [|done]. by exists m, d.
  - intros [_ Hf]%Forall_cons. done.
Qed.

(** ** Ranges *)

(** The pages of the two ranges of a request, pairwise. *)
Lemma alias_ranges_spec request pairs :
  fits 64 (alias_source request) -> fits 64 (alias_destination request) -> fits 64 (alias_size request) ->
  alias_ranges request = Ok pairs ->
  NoDup pairs.*1 /\ NoDup pairs.*2 /\
  Forall (fun pair => 0 <= fst pair < 2 ^ 52 /\ 0 <= snd pair < 2 ^ 52) pairs.
Proof.
  intros Hs Hd Hz. unfold alias_ranges.
  pose proof (PageRange_new_spec _ _ Hs Hz) as H1. pose proof (PageRange_new_spec _ _ Hd Hz) as H2.
  destruct (PageRange_new (alias_source request) _) as [r1|]; [|done].
  destruct (PageRange_new (alias_destination request) _) as [r2|]; [|done].
  destruct (PageRange_is_empty r1); [done|]. intros [= <-].
  destruct H1 as (_ & _ & _ & _ & Hz1 & Hr1 & He1). destruct H2 as (_ & _ & _ & _ & Hz2 & Hr2 & He2).
  assert (List.length (range_pages r1) = List.length (range_pages r2)) as Hlen.
  { unfold range_pages. rewrite !length_seqZ. unfold page_address, PAGE_SIZE, SYNTHETIC_PAGE_SIZE in *. lia. }
  rewrite fst_zip, snd_zip by lia. split; [apply range_pages_nodup|]. split; [apply range_pages_nodup|].
  apply Forall_forall. intros [a b] Hab. pose proof (elem_of_zip_l _ _ _ _ Hab) as Ha.
  pose proof (elem_of_zip_r _ _ _ _ Hab) as Hb. simpl.
  apply elem_of_range_pages in Ha, Hb. lia.
Qed.

Lemma alias_ranges_no_panic request : alias_ranges request <> Panic.
Proof. unfold alias_ranges. repeat case_match; done. Qed.

(** A source page is mapped and a destination page is not, so they differ. *)
Lemma map_pairs_disjoint s request pairs :
  NoDup pairs.*1 -> NoDup pairs.*2 -> Forall (map_pair_ok s request) pairs -> NoDup (pairs.*1 ++ pairs.*2).
Proof.
  intros H1 H2 Hf. apply NoDup_app. split; [done|]. split; [|done].
  intros a ([x y] & -> & Ha)%list_elem_of_fmap ([u v] & Hv & Hb)%list_elem_of_fmap. simpl in *. subst v.
  rewrite list.Forall_forall in Hf. destruct (Hf _ Ha) as [(m & Hm & _) _].
  destruct (Hf _ Hb) as [_ Hn]. simpl in *. congruence.
Qed.

(** Source and destination pages have different properties, so they differ. *)
(** The source and destination ranges of a request share a page. *)
Definition overlapping request : bool :=
  match alias_ranges request with
  | Ok pairs => bool_decide (Exists (fun page => page ∈ pairs.*2) pairs.*1)
  | _ => false
  end.

(** A request whose ranges overlap and whose two mappings are to have the same
    properties: a shared page passes the checks of both roles. *)
Definition shared_role request : Prop :=
  alias_source_before request = alias_destination_properties request /\ overlapping request = true.

Lemma unmap_pairs_disjoint s request pairs :
  ~ shared_role request -> alias_ranges request = Ok pairs ->
  NoDup pairs.*1 -> NoDup pairs.*2 -> Forall (unmap_pair_ok s request) pairs -> NoDup (pairs.*1 ++ pairs.*2).
Proof.
  intros Hne Hpairs H1 H2 Hf. apply NoDup_app. split; [done|]. split; [|done].
  intros a Ha1 Hb1. apply Hne. split.
  2: { unfold overlapping. rewrite Hpairs. apply bool_decide_eq_true, Exists_exists. by exists a. }
  apply list_elem_of_fmap in Ha1 as ([x y] & -> & Ha). apply list_elem_of_fmap in Hb1 as ([u v] & Hv & Hb).
  simpl in *. subst v. rewrite list.Forall_forall in Hf. destruct (Hf _ Ha) as (m & d & Hm & Hp & _).
  destruct (Hf _ Hb) as (m' & d' & _ & _ & Hd' & Hp' & _). simpl in *. congruence.
Qed.

(** ** The publication loops *)

(** The mappings after each pair is aliased. *)
Record aliased request (g : Z) (pairs : list (Z * Z)) (m m' : gmap (Z * Z) Mapping) : Prop := {
  aliased_source : forall a b, (a, b) ∈ pairs ->
    m' !! (alias_address_space request, a) =
      with_properties (alias_source_after request) g <$> m !! (alias_address_space request, a);
  aliased_destination : forall a b, (a, b) ∈ pairs ->
    m' !! (alias_address_space request, b) =
      with_properties (alias_destination_properties request) g <$> m !! (alias_address_space request, a);
  aliased_other : forall sp p, ~ (sp = alias_address_space request /\ p ∈ pairs.*1 ++ pairs.*2) ->
    m' !! (sp, p) = m !! (sp, p) }.

Lemma pair_members (pairs : list (Z * Z)) a b :
  (a, b) ∈ pairs -> a ∈ pairs.*1 /\ b ∈ pairs.*2.
Proof. intros Hab. split; apply list_elem_of_fmap; by exists (a, b). Qed.

Lemma publish_alias_run request g pairs : forall s,
  NoDup (pairs.*1 ++ pairs.*2) ->
  (forall a b, (a, b) ∈ pairs -> is_Some (mappings s !! (alias_address_space request, a)) /\
     mappings s !! (alias_address_space request, b) = None) ->
  exists m', publish_alias request g pairs s = (set_mappings m' s, Ok tt) /\
    aliased request g pairs (mappings s) m'.
Proof.
  induction pairs as [|[a b] pairs IH]; intros s Hnd Hall.
  { exists (mappings s). split; [by destruct s|]. split; [by intros ? ? ?%not_elem_of_nil..|done]. }
  destruct (Hall a b ltac:(left)) as [[m Hm] Hn].
  simpl in Hnd. apply NoDup_cons in Hnd as [Ha Hnd]. rewrite not_elem_of_app, not_elem_of_cons in Ha.
  destruct Ha as (Ha1 & Hab & Ha2). rewrite <- (Permutation_middle _ _ b) in Hnd.
  apply NoDup_cons in Hnd as [Hb Hnd]. rewrite not_elem_of_app in Hb. destruct Hb as [Hb1 Hb2].
  set (m1 := <[(alias_address_space request, b) := with_properties (alias_destination_properties request) g m]>
               (<[(alias_address_space request, a) := with_properties (alias_source_after request) g m]> (mappings s))).
  assert (forall p, p <> a -> p <> b -> m1 !! (alias_address_space request, p) = mappings s !! (alias_address_space request, p)) as Hm1.
  { intros p Hpa Hpb. unfold m1. by rewrite !lookup_insert_ne by congruence. }
  destruct (IH (set_mappings m1 s) Hnd) as (m' & Hrun & [Hsrc Hdst Hoth]).
  { intros x y Hxy. destruct (pair_members _ _ _ Hxy) as [Hx Hy]. simpl.
    rewrite !Hm1 by (intros ->; tauto). apply Hall. by right. }
  exists m'. split.
  - cbn [publish_alias]. rewrite (M_bind_ok _ _ s s s eq_refl).
    rewrite (M_bind_lift_ok _ m) by (by rewrite Hm).
    rewrite bool_decide_false by (rewrite lookup_insert_ne, Hn by congruence; by intros [? ?]).
    rewrite (M_bind_ok _ _ s s tt eq_refl). exact Hrun.
  - simpl in *. split.
    + intros x y [[= -> ->]|Hxy]%elem_of_cons.
      * rewrite Hoth by (rewrite elem_of_app; tauto). unfold m1.
        rewrite lookup_insert_ne, lookup_insert_eq by congruence. by rewrite Hm.
      * destruct (pair_members _ _ _ Hxy) as [Hx _]. rewrite (Hsrc x y Hxy).
        by rewrite Hm1 by (intros ->; tauto).
    + intros x y [[= -> ->]|Hxy]%elem_of_cons.
      * rewrite Hoth by (rewrite elem_of_app; tauto). unfold m1.
        rewrite lookup_insert_eq. by rewrite Hm.
      * destruct (pair_members _ _ _ Hxy) as [Hx _]. rewrite (Hdst x y Hxy).
        by rewrite Hm1 by (intros ->; tauto).
    + intros sp p Hnot. simpl in Hnot. rewrite elem_of_cons, elem_of_app, elem_of_cons in Hnot.
      rewrite Hoth by (rewrite elem_of_app; tauto). unfold m1.
      rewrite !lookup_insert_ne; [done|..]; intros [= <- <-]; tauto.
Qed.

(** The mappings after each alias is removed. *)
Record unaliased request (g : Z) (pairs : list (Z * Z)) (m m' : gmap (Z * Z) Mapping) : Prop := {
  unaliased_source : forall a b, (a, b) ∈ pairs ->
    m' !! (alias_address_space request, a) =
      with_properties (alias_source_after request) g <$> m !! (alias_address_space request, a);
  unaliased_destination : forall a b, (a, b) ∈ pairs -> m' !! (alias_address_space request, b) = None;
  unaliased_other : forall sp p, ~ (sp = alias_address_space request /\ p ∈ pairs.*1 ++ pairs.*2) ->
    m' !! (sp, p) = m !! (sp, p) }.

Lemma remove_alias_run request g pairs : forall s,
  NoDup (pairs.*1 ++ pairs.*2) ->
  (forall a b, (a, b) ∈ pairs -> exists m d, mappings s !! (alias_address_space request, a) = Some m /\
     mappings s !! (alias_address_space request, b) = Some d /\ physical_page m = physical_page d) ->
  exists m', remove_alias request g pairs s = (set_mappings m' s, Ok tt) /\
    unaliased request g pairs (mappings s) m'.
Proof.
  induction pairs as [|[a b] pairs IH]; intros s Hnd Hall.
  { exists (mappings s). split; [by destruct s|]. split; [by intros ? ? ?%not_elem_of_nil..|done]. }
  destruct (Hall a b ltac:(left)) as (m & d & Hm & Hd & Hphys).
  simpl in Hnd. apply NoDup_cons in Hnd as [Ha Hnd]. rewrite not_elem_of_app, not_elem_of_cons in Ha.
  destruct Ha as (Ha1 & Hab & Ha2). rewrite <- (Permutation_middle _ _ b) in Hnd.
  apply NoDup_cons in Hnd as [Hb Hnd]. rewrite not_elem_of_app in Hb. destruct Hb as [Hb1 Hb2].
  set (rest := delete (alias_address_space request, b) (mappings s)).
  assert (rest !! (alias_address_space request, a) = Some m) as Hrest by (unfold rest; rewrite lookup_delete_ne by congruence; done).
  set (m1 := <[(alias_address_space request, a) := with_properties (alias_source_after request) g m]> rest).
  assert (forall p, p <> a -> p <> b -> m1 !! (alias_address_space request, p) = mappings s !! (alias_address_space request, p)) as Hm1.
  { intros p Hpa Hpb. unfold m1, rest. rewrite lookup_insert_ne by congruence. by rewrite lookup_delete_ne by congruence. }
  destruct (IH (set_mappings m1 s) Hnd) as (m' & Hrun & [Hsrc Hdst Hoth]).
  { intros x y Hxy. destruct (pair_members _ _ _ Hxy) as [Hx Hy]. simpl.
    rewrite !Hm1 by (intros ->; tauto). apply Hall. by right. }
  exists m'. split.
  - cbn [remove_alias]. rewrite (M_bind_ok _ _ s s s eq_refl).
    rewrite (M_bind_lift_ok _ d) by (by rewrite Hd). fold rest.
    rewrite bool_decide_true by (exists (alias_address_space request, a), m; done).
    rewrite (M_bind_ok _ _ s s tt eq_refl). rewrite (M_bind_lift_ok _ m) by (by rewrite Hrest).
    exact Hrun.
  - simpl in *. split.
    + intros x y [[= -> ->]|Hxy]%elem_of_cons.
      * rewrite Hoth by (rewrite elem_of_app; tauto). unfold m1.
        rewrite lookup_insert_eq. by rewrite Hm.
      * destruct (pair_members _ _ _ Hxy) as [Hx _]. rewrite (Hsrc x y Hxy).
        by rewrite Hm1 by (intros ->; tauto).
    + intros x y [[= -> ->]|Hxy]%elem_of_cons.
      * rewrite Hoth by (rewrite elem_of_app; tauto). unfold m1, rest.
        rewrite lookup_insert_ne by congruence. apply lookup_delete_eq.
      * by apply (Hdst x y).
    + intros sp p Hnot. simpl in Hnot. rewrite elem_of_cons, elem_of_app, elem_of_cons in Hnot.
      rewrite Hoth by (rewrite elem_of_app; tauto). unfold m1, rest.
      rewrite lookup_insert_ne by (intros [= <- <-]; tauto).
      by rewrite lookup_delete_ne by (intros [= <- <-]; tauto).
Qed.

(** ** The operations *)

Record request_ok request : Prop := {
  request_source : fits 64 (alias_source request);
  request_destination : fits 64 (alias_destination request);
  request_size : fits 64 (alias_size request);
  request_after : attributes_ok (prop_attributes (alias_source_after request));
  request_properties : attributes_ok (prop_attributes (alias_destination_properties request)) }.

(** Running out of cursors or generations. *)
Definition exhausted (e : MemoryAliasError) : Prop :=
  alias_error_reason e = AliasResourceExhausted \/ alias_error_reason e = AliasGenerationExhausted.

Lemma alias_ranges_wp request Q (Qe : MemoryAliasError -> State Handler -> Prop) s :
  (forall pairs, alias_ranges request = Ok pairs -> Q pairs s) ->
  (forall e, alias_ranges request = Err e -> Qe e s) -> wp (lift (alias_ranges request)) Q Qe s.
Proof.
  intros HQ HE. apply wp_lift. pose proof (alias_ranges_no_panic request) as Hn.
  destruct (alias_ranges request); [by apply HQ|by apply HE|done].
Qed.

Lemma map_alias_wp s request :
  memory_ok s -> request_ok request ->
  wp (map_alias request)
    (fun _ s' => memory_ok s' /\ remapped s s' /\ exists pairs g, alias_ranges request = Ok pairs /\
       Forall (map_pair_ok s request) pairs /\ aliased request g pairs (mappings s) (mappings s'))
    (fun _ s' => s' = s) s.
Proof.
  intros Hok [Hs Hd Hz Haf Hpr]. unfold map_alias. wp_step. apply alias_ranges_wp; [intros pairs Hpairs|done].
  destruct (alias_ranges_spec request pairs Hs Hd Hz Hpairs) as (Hn1 & Hn2 & Hbounds).
  wp_state. wp_step. apply wp_lift. pose proof (check_map_alias_spec s request pairs) as Hc.
  destruct (check_map_alias s request pairs) as [[]| |]; [|done..].
  wp_step. unfold alias_reserve. apply reserve_many_or_wp; [done| |done]. intros batch Hcommit.
  wp_step. apply take_generation_wp; [|done]. intros g Hg. set (s1 := set_next_mapping_generation _ s).
  destruct (publish_alias_run request g pairs s1) as (m' & Hrun & Hal).
  { by apply (map_pairs_disjoint s request). }
  { intros a b Hab. rewrite list.Forall_forall in Hc. destruct (Hc _ Hab) as [(m & Hm & _) Hn].
    split; [by exists m|done]. }
  destruct (Hcommit MemoryAliasError (set_mappings m' s1) eq_refl) as (log' & Hcm & Hpub).
  wp_step. unfold wp. rewrite Hrun, Hcm. split; [|split; [done|by exists pairs, g]].
  apply remap_ok; [done|done| |exact (published_log _ _ _ Hpub)].
  intros sp p m Hm. rewrite list.Forall_forall in Hc, Hbounds.
  destruct (decide (sp = alias_address_space request /\ p ∈ pairs.*1 ++ pairs.*2)) as [[-> Hp]|Hout];
    [|left; by rewrite <- (aliased_other _ _ _ _ _ Hal)].
  right. apply elem_of_app in Hp as [([a b] & -> & Hab)%list_elem_of_fmap|([a b] & -> & Hab)%list_elem_of_fmap];
    simpl in *; destruct (Hbounds _ Hab) as [Hb1 Hb2]; destruct (Hc _ Hab) as [(m0 & Hm0 & _) _]; simpl in *;
    destruct (ok_mapped s Hok _ _ _ Hm0) as (_ & Hpage & _).
  - rewrite (aliased_source _ _ _ _ _ Hal a b Hab) in Hm. simpl in Hm. rewrite Hm0 in Hm.
    injection Hm as <-. split; [done|]. split; [done|]. split; [exact Hpage|done].
  - rewrite (aliased_destination _ _ _ _ _ Hal a b Hab) in Hm. simpl in Hm. rewrite Hm0 in Hm.
    injection Hm as <-. split; [done|]. split; [done|]. split; [exact Hpage|done].
Qed.

Lemma unmap_alias_wp s request :
  memory_ok s -> request_ok request -> ~ shared_role request ->
  wp (unmap_alias request)
    (fun _ s' => memory_ok s' /\ remapped s s' /\ exists pairs g, alias_ranges request = Ok pairs /\
       Forall (unmap_pair_ok s request) pairs /\ unaliased request g pairs (mappings s) (mappings s'))
    (fun e s' => s' = s /\
       match alias_ranges request with
       | Ok pairs => ~ Forall (unmap_pair_ok s request) pairs \/ exhausted e
       | _ => True
       end) s.
Proof.
  intros Hok [Hs Hd Hz Haf Hpr] Hne. unfold unmap_alias. wp_step.
  apply alias_ranges_wp; [intros pairs Hpairs|intros e ->; done].
  destruct (alias_ranges_spec request pairs Hs Hd Hz Hpairs) as (Hn1 & Hn2 & Hbounds). rewrite Hpairs.
  wp_state. wp_step. apply wp_lift. pose proof (check_unmap_alias_spec s request pairs) as Hc.
  destruct (check_unmap_alias s request pairs) as [[]| |]; [|by split; [|left]|done].
  wp_step. unfold alias_reserve.
  apply wp_mono with (Q := fun batch s0 => s0 = s /\ batch_committable s batch
      [Invalidation.Mapping (alias_address_space request) (alias_source request) (alias_size request);
       Invalidation.Mapping (alias_address_space request) (alias_destination request) (alias_size request)])
    (Qe := fun e s0 => s0 = s /\ exhausted e).
  { unfold wp, reserve_or. pose proof (reserve_many_or_wp s
      [Invalidation.Mapping (alias_address_space request) (alias_source request) (alias_size request);
       Invalidation.Mapping (alias_address_space request) (alias_destination request) (alias_size request)]
      None (fun _ => alias_error request (alias_source request) AliasResourceExhausted)
      (fun batch s0 => s0 = s /\ batch_committable s batch _) (fun _ s0 => s0 = s) Hok
      (fun batch Hb => conj eq_refl Hb) (fun _ => eq_refl)) as Hw.
    unfold wp, reserve_or, reserve_many in *.
    destruct (reserve_many_with_origin _ _ _); [done| |done]. split; [done|by left]. }
  2: { intros e s0 [-> He]. split; [done|by right]. }
  intros batch s0 [-> Hcommit]. wp_step. apply take_generation_wp; [|split; [done|right; by right]].
  intros g Hg. set (s1 := set_next_mapping_generation _ s).
  destruct (remove_alias_run request g pairs s1) as (m' & Hrun & Hal).
  { by apply (unmap_pairs_disjoint s request). }
  { intros a b Hab. rewrite list.Forall_forall in Hc. destruct (Hc _ Hab) as (m & d & Hm & _ & Hdm & _ & Hp).
    by exists m, d. }
  destruct (Hcommit MemoryAliasError (set_mappings m' s1) eq_refl) as (log' & Hcm & Hpub).
  wp_step. unfold wp. rewrite Hrun, Hcm. split; [|split; [done|by exists pairs, g]].
  apply remap_ok; [done|done| |exact (published_log _ _ _ Hpub)].
  intros sp p m Hm. rewrite list.Forall_forall in Hc, Hbounds.
  destruct (decide (sp = alias_address_space request /\ p ∈ pairs.*1 ++ pairs.*2)) as [[-> Hp]|Hout];
    [|left; by rewrite <- (unaliased_other _ _ _ _ _ Hal)].
  right. apply elem_of_app in Hp as [([a b] & -> & Hab)%list_elem_of_fmap|([a b] & -> & Hab)%list_elem_of_fmap];
    simpl in *; destruct (Hbounds _ Hab) as [Hb1 Hb2]; destruct (Hc _ Hab) as (m0 & _ & Hm0 & _); simpl in *;
    destruct (ok_mapped s Hok _ _ _ Hm0) as (_ & Hpage & _).
  - rewrite (unaliased_source _ _ _ _ _ Hal a b Hab) in Hm. simpl in Hm. rewrite Hm0 in Hm.
    injection Hm as <-. split; [done|]. split; [done|]. split; [exact Hpage|done].
  - by rewrite (unaliased_destination _ _ _ _ _ Hal a b Hab) in Hm.
Qed.

(** Whatever its ranges, the removal loop only drops mappings and rewrites the
    properties of source pages. *)
Lemma remove_alias_partial request g pairs : forall s s' r,
  remove_alias request g pairs s = (s', r) -> r <> Panic ->
  r = Ok tt /\ exists m', s' = set_mappings m' s /\
    forall sp p m, m' !! (sp, p) = Some m -> mappings s !! (sp, p) = Some m \/
      mapping_generation m = g /\ attributes m = prop_attributes (alias_source_after request) /\
      p ∈ pairs.*1 /\ exists m0, mappings s !! (sp, p) = Some m0 /\ physical_page m = physical_page m0.
Proof.
  induction pairs as [|[a b] pairs IH]; intros s s' r.
  { intros [= <- <-] _. split; [done|]. exists (mappings s). split; [by destruct s|by left]. }
  cbn [remove_alias]. rewrite (M_bind_ok _ _ s s s eq_refl).
  destruct (mappings s !! (alias_address_space request, b)) as [d|]; [|by intros [= <- <-]].
  rewrite (M_bind_lift_ok _ d) by done. cbv zeta.
  case_bool_decide; [|by intros [= <- <-]]. rewrite (M_bind_ok _ _ s s tt eq_refl).
  set (rest := delete _ _). destruct (rest !! (alias_address_space request, a)) as [m0|] eqn:Er; [|by intros [= <- <-]].
  rewrite (M_bind_lift_ok _ m0) by done. rewrite (M_bind_ok _ _ s _ tt eq_refl). intros Hrun Hr.
  destruct (IH _ _ _ Hrun Hr) as [-> (m' & -> & Hm')]. split; [done|]. exists m'. split; [by destruct s|].
  assert (forall sp p m, <[(alias_address_space request, a) :=
      with_properties (alias_source_after request) g m0]> rest !! (sp, p) = Some m ->
    mappings s !! (sp, p) = Some m \/
      mapping_generation m = g /\ attributes m = prop_attributes (alias_source_after request) /\
      p ∈ a :: pairs.*1 /\ exists m0, mappings s !! (sp, p) = Some m0 /\ physical_page m = physical_page m0) as Hstep.
  { intros sp p m. rewrite lookup_insert_Some. intros [[[= <- <-] <-]|[_ [_ Hd]%lookup_delete_Some]]; [|by left].
    right. split; [done|]. split; [done|]. split; [by left|].
    apply lookup_delete_Some in Er as [_ Er]. by exists m0. }
  intros sp p m Hm. simpl in *. destruct (Hm' sp p m Hm) as [Hold|(Hg & Ha & Hp & m1 & Hm1 & Hph)]; [by apply Hstep|].
  right. split; [done|]. split; [done|]. split; [by right|].
  destruct (Hstep sp p m1 Hm1) as [Hs|(_ & _ & _ & m2 & Hs & Hph2)]; [by exists m1|].
  exists m2. split; [done|congruence].
Qed.

(** An [unmap_alias] that returns keeps the invariant, whatever its ranges. *)
Lemma unmap_alias_returned s request s' r :
  memory_ok s -> request_ok request -> unmap_alias request s = (s', r) -> r <> Panic -> memory_ok s'.
Proof.
  intros Hok [Hs Hd Hz Haf Hpr]. unfold unmap_alias.
  destruct (alias_ranges request) as [pairs|e|] eqn:Hpairs; [|by intros [= <- <-]..].
  destruct (alias_ranges_spec request pairs Hs Hd Hz Hpairs) as (_ & _ & Hbounds).
  rewrite (M_bind_lift_ok _ pairs) by done. rewrite (M_bind_ok _ _ s s s eq_refl).
  destruct (check_unmap_alias s request pairs) as [[]| |]; [|by intros [= <- <-]..].
  rewrite (M_bind_lift_ok _ tt) by done.
  pose proof (reserve_many_or_wp s
      [Invalidation.Mapping (alias_address_space request) (alias_source request) (alias_size request);
       Invalidation.Mapping (alias_address_space request) (alias_destination request) (alias_size request)]
      None (fun _ => alias_error request (alias_source request) AliasResourceExhausted)
      (fun batch s0 => s0 = s /\ batch_committable s batch _) (fun _ s0 => s0 = s) Hok
      (fun batch Hb => conj eq_refl Hb) (fun _ => eq_refl)) as Hw.
  change (wp (alias_reserve request) (fun batch s0 => s0 = s /\ batch_committable s batch
      [Invalidation.Mapping (alias_address_space request) (alias_source request) (alias_size request);
       Invalidation.Mapping (alias_address_space request) (alias_destination request) (alias_size request)])
    (fun _ s0 => s0 = s) s) in Hw. unfold wp in Hw.
  destruct (alias_reserve request s) as [s0 [batch|e|]] eqn:Eb; [| |done].
  2: { unfold mbind, M_bind. rewrite Eb. subst s0. by intros [= <- <-]. }
  destruct Hw as [-> Hcommit]. rewrite (M_bind_ok _ _ s s batch Eb).
  pose proof (take_generation_wp s (alias_error request (alias_source request) AliasGenerationExhausted)
    (fun g s1 => next_mapping_generation s = Some g /\
       s1 = set_next_mapping_generation (res_ok (MappingGeneration.next g)) s) (fun _ s1 => s1 = s)
    (fun g Hg => conj Hg eq_refl) eq_refl) as Hw. unfold wp in Hw.
  destruct (take_generation _ s) as [s1 [g|e|]] eqn:Eg; [| |done].
  2: { unfold mbind, M_bind. rewrite Eg. subst s1. by intros [= <- <-]. }
  destruct Hw as [Hg Hs1]. rewrite (M_bind_ok _ _ s s1 g Eg).
  destruct (remove_alias request g pairs s1) as [s2 r2] eqn:Erun. intros Hrest Hr.
  assert (r2 <> Panic) as Hr2 by (unfold mbind, M_bind in Hrest; rewrite Erun in Hrest; intros ->; simplify_eq).
  destruct (remove_alias_partial _ _ _ _ _ _ Erun Hr2) as [-> (m' & -> & Hm')].
  rewrite (M_bind_ok _ _ _ _ tt Erun) in Hrest.
  destruct (Hcommit MemoryAliasError (set_mappings m' s1) ltac:(by subst s1)) as (log' & Hcm & Hpub).
  rewrite Hcm in Hrest. injection Hrest as <- <-. subst s1.
  apply remap_ok; [done|done| |exact (published_log _ _ _ Hpub)].
  intros sp p m Hm. destruct (Hm' sp p m Hm) as [Ho|(Hgen & Ha & Hp & m0 & Hm0 & Hph)]; [by left|right].
  simpl in Hm0. destruct (ok_mapped s Hok _ _ _ Hm0) as (_ & Hpage & _).
  split; [done|]. rewrite Ha, Hph. split; [|done].
  apply list_elem_of_fmap in Hp as ([x y] & -> & Hxy). rewrite list.Forall_forall in Hbounds. apply (Hbounds _ Hxy).
Qed.
End Alias.

(** ** The synthetic backend: what its mapping operations guarantee *)

Section Props.
Context {Handler : Type} `{SyntheticMmioOk Handler}.
Implicit Types (s : State Handler) (request : MemoryAliasRequest).

(** Reprotection is exact and all or nothing.  It never panics; a rejected
    request changes nothing; a successful one refuses write and execute
    together, gives every page of a non-empty range the new permissions while
    keeping its physical page, purpose and attributes, changes no other
    mapping, and touches permission-locked pages only if they already have the
    requested permissions. *)
Theorem set_permissions_exact s space start size perms :
  memory_ok s ->
  wp (set_permissions space start size perms)
    (fun _ s' => memory_ok s' /\ pages s' = pages s /\ writable_executable perms = false /\
       exists r, nonempty_range start size = Some r /\
       forall sp p,
         if decide (sp = space /\ p ∈ range_pages r)
         then exists m m', mappings s !! (sp, p) = Some m /\ mappings s' !! (sp, p) = Some m' /\
           same_mapping (with_permissions perms (mapping_generation m) m) m' /\
           (MemoryAttributes.contains (attributes m) MemoryAttributes.PERMISSION_LOCKED = true ->
            permissions m = perms)
         else mappings s' !! (sp, p) = mappings s !! (sp, p))
    (fun _ s' => s' = s) s.
Proof.
  intros Hok. eapply wp_mono; [by apply set_permissions_wp| |done].
  simpl. intros _ s' (Hok' & Hre & Hwx & Hr). split; [done|]. split; [by rewrite Hre|done].
Qed.

Definition reverse_request request : MemoryAliasRequest :=
  {| alias_address_space := alias_address_space request; alias_destination := alias_destination request;
     alias_source := alias_source request; alias_size := alias_size request;
     alias_source_before := alias_source_after request;
     alias_source_after := alias_source_before request;
     alias_destination_properties := alias_destination_properties request |}.

Lemma properties_with p g m : properties (with_properties p g m) = p.
Proof. by destruct p. Qed.

(** The mapping made by [map_alias] is acceptable to the reverse request. *)
Lemma reverse_pairs s s1 request g pairs :
  Forall (map_pair_ok s request) pairs -> aliased request g pairs (mappings s) (mappings s1) ->
  Forall (unmap_pair_ok s1 (reverse_request request)) pairs.
Proof.
  intros Hf Hal. rewrite !list.Forall_forall in *. intros [a b] Hab.
  destruct (Hf _ Hab) as [(m & Hm & _) _]. simpl in Hm.
  exists (with_properties (alias_source_after request) g m),
    (with_properties (alias_destination_properties request) g m). simpl.
  rewrite (aliased_source _ _ _ _ _ Hal a b Hab), (aliased_destination _ _ _ _ _ Hal a b Hab), Hm.
  by rewrite !properties_with.
Qed.

(** Aliasing is undone exactly.  After [map_alias] succeeds, [unmap_alias]
    with the source properties swapped either runs out of cursors or
    generations and changes nothing, or succeeds and leaves every page of every
    address space mapped as before the alias was made, to the same physical
    page with the same permissions, purpose and attributes. *)
Theorem alias_round_trip s s1 request :
  memory_ok s -> request_ok request ->
  attributes_ok (prop_attributes (alias_source_before request)) ->
  alias_source_after request <> alias_destination_properties request ->
  map_alias request s = (s1, Ok tt) ->
  wp (unmap_alias (reverse_request request))
    (fun _ s2 => memory_ok s2 /\ pages s2 = pages s /\
       forall key, option_Forall2 same_mapping (mappings s !! key) (mappings s2 !! key))
    (fun e s' => s' = s1 /\ exhausted e) s1.
Proof.
  intros Hok Hreq Hattr Hne Hmap.
  destruct (wp_ok _ _ _ _ _ _ (map_alias_wp s request Hok Hreq) Hmap)
    as (Hok1 & Hre1 & pairs & g & Hpairs & Hf & Hal).
  assert (request_ok (reverse_request request)) as Hreq' by (destruct Hreq; by split).
  pose proof (reverse_pairs s s1 request g pairs Hf Hal) as Hf'.
  eapply wp_mono; [apply unmap_alias_wp; [done|done|by intros [? _]]| |].
  - simpl. intros _ s2 (Hok2 & Hre2 & pairs2 & g2 & Hpairs2 & _ & Hun).
    change (alias_ranges (reverse_request request)) with (alias_ranges request) in Hpairs2.
    rewrite Hpairs in Hpairs2. injection Hpairs2 as <-.
    split; [done|]. split; [by rewrite Hre2, Hre1|]. intros [sp p].
    destruct (decide (sp = alias_address_space request /\ p ∈ pairs.*1 ++ pairs.*2)) as [[-> Hp]|Hout].
    + rewrite list.Forall_forall in Hf.
      apply elem_of_app in Hp as [([a b] & -> & Hab)%list_elem_of_fmap|([a b] & -> & Hab)%list_elem_of_fmap];
        destruct (Hf _ Hab) as [(m & Hm & Hpr & _) Hn]; simpl in *.
      * pose proof (unaliased_source _ _ _ _ _ Hun a b Hab) as Hsrc. simpl in Hsrc.
        rewrite Hsrc, (aliased_source _ _ _ _ _ Hal a b Hab), Hm. simpl. constructor.
        split; [done|]. by rewrite properties_with, Hpr.
      * pose proof (unaliased_destination _ _ _ _ _ Hun a b Hab) as Hdst. simpl in Hdst.
        rewrite Hdst, Hn. constructor.
    + pose proof (unaliased_other _ _ _ _ _ Hun sp p Hout) as Hoth. simpl in Hoth.
      rewrite Hoth, (aliased_other _ _ _ _ _ Hal sp p Hout).
      destruct (mappings s !! (sp, p)); by repeat constructor.
  - simpl. intros e s' [-> He].
    change (alias_ranges (reverse_request request)) with (alias_ranges request) in He.
    rewrite Hpairs in He. by destruct He as [He|He].
Qed.
End Props.

(** ** Witnesses *)

Lemma set_permissions_exact_witness :
  memory_ok Sample.memory /\
  snd (set_permissions 7 0x10000 0x2000 1 Sample.memory) = Ok tt /\
  wp (set_permissions 7 0x10000 0x2000 1)
    (fun _ s' => memory_ok s') (fun _ s' => s' = Sample.memory) Sample.memory.
Proof.
  split; [apply Sample.memory_is_ok|]. split; [by vm_compute|].
  eapply wp_mono; [apply (set_permissions_exact Sample.memory 7 0x10000 0x2000 1 Sample.memory_is_ok)| |];
    [by intros ? ? []|done].
Defined.

(** Page 17 aliased at page 40, its own mapping left without access. *)
Definition sample_request : MemoryAliasRequest :=
  {| alias_address_space := 7; alias_destination := 0x28000; alias_source := 0x11000; alias_size := 0x1000;
     alias_source_before := {| prop_permissions := 3; prop_purpose := PurposeNormal; prop_attributes := 0 |};
     alias_source_after := {| prop_permissions := 0; prop_purpose := PurposeNormal; prop_attributes := 16 |};
     alias_destination_properties :=
       {| prop_permissions := 3; prop_purpose := Stack; prop_attributes := 0 |} |}.

Lemma alias_round_trip_witness :
  let s1 := fst (map_alias sample_request Sample.memory) in
  (request_ok sample_request /\ map_alias sample_request Sample.memory = (s1, Ok tt)) /\
  wp (unmap_alias (reverse_request sample_request))
    (fun _ s2 => memory_ok s2 /\ pages s2 = pages Sample.memory /\
       forall key, option_Forall2 same_mapping (mappings Sample.memory !! key) (mappings s2 !! key))
    (fun e s' => s' = s1 /\ exhausted e) s1.
Proof.
  intros s1. assert (request_ok sample_request) as Hreq by (by repeat split).
  assert (map_alias sample_request Sample.memory = (s1, Ok tt)) as Hmap by (by vm_compute).
  split; [split; [exact Hreq|exact Hmap]|].
  exact (alias_round_trip Sample.memory s1 sample_request Sample.memory_is_ok Hreq eq_refl
           ltac:(discriminate) Hmap).
Defined.

(** ** A request that passes validation and panics *)

(** The alias of a page onto itself. *)
Definition self_request : MemoryAliasRequest :=
  let properties := {| prop_permissions := 3; prop_purpose := PurposeNormal; prop_attributes := 0 |} in
  {| alias_address_space := 7; alias_destination := 0x10000; alias_source := 0x10000; alias_size := 0x1000;
     alias_source_before := properties; alias_source_after := properties;
     alias_destination_properties := properties |}.

(** Removing the alias of a page onto itself passes every check of
    [unmap_alias], since one mapping plays both roles, and then panics on the
    [expect] on the source mapping that was just removed. *)
Theorem unmap_alias_onto_itself_panics :
  memory_ok Sample.memory /\ request_ok self_request /\
  check_unmap_alias Sample.memory self_request [(16, 16)] = Ok tt /\
  alias_ranges self_request = Ok [(16, 16)] /\
  snd (unmap_alias self_request Sample.memory) = Panic.
Proof. split_and!; [apply Sample.memory_is_ok|by repeat split|by vm_compute..]. Qed.
