(* ===== verification/SyntheticBulk.v ===== *)
(** * The synthetic backend: bulk transfers

    [read_bytes] and [write_bytes] move any number of bytes over any number of
    pages.  Several virtual pages of one transfer may show the same physical
    page, so a later byte may overwrite an earlier one: [blits] says that the
    last byte written to a cell is the one that stays. *)

From Stdlib Require Import ZArith Lia Bool String.
From stdpp Require Import base numbers list option strings gmap.
From S2P Require Import Prelude RustInt RustList Bytes GuestAddress Invalidation A64Semantics.
From S2P Require Import MemoryContracts MemoryCommon Synthetic SyntheticInv SyntheticData SyntheticMap.
Import SyntheticMemory.
Local Open Scope list_scope.
Local Open Scope Z_scope.

Section Bulk.
Context {Handler : Type} `{SyntheticMmioOk Handler}.
Implicit Types (s : State Handler).

(** ** Ranges *)

Lemma bulk_count_bound current remaining :
  0 < remaining -> 0 < bulk_count current remaining <= remaining /\
    page_offset current + bulk_count current remaining <= SYNTHETIC_PAGE_SIZE.
Proof. intros Hr. pose proof (page_offset_bound current). unfold bulk_count. lia. Qed.

Lemma bulk_range_spec s space address kind n :
  fits 64 address -> 0 <= n ->
  match bulk_range s space address kind n with
  | Ok end_ => end_ = address + n /\ end_ < 2 ^ 64
  | Err e => fault_kind e = kind /\
      (2 ^ 64 <= address + n \/ first_data_fault s space kind address (address + n) <> None)
  | Panic => False
  end.
Proof.
  intros Ha Hn. unfold bulk_range. destruct (Z.leb_spec (2 ^ 64) n).
  { split; [done|left]. destruct Ha. lia. }
  destruct (checked_add 64 address n) as [e|] eqn:E; [|by apply checked_add_none in E; auto].
  apply checked_add_some in E as [-> ?].
  destruct (first_data_fault _ _ _ _ _) as [[]|] eqn:Ef; [|done]. split; [done|by right].
Qed.

(** A byte of a RAM page open to the transfer. *)
Definition bulk_mapped s (space : AddressSpaceId) (kind : DataAccessKind) (a : Z) : Prop :=
  exists m contents generation, mapping_at s space a = Some m /\
    MemoryPermissions.contains (permissions m) (required_permission kind) = true /\
    pages s !! physical_page m = Some (RamPage contents generation).

Lemma bulk_page_spec s space current kind not_ram :
  memory_ok s ->
  match bulk_page s space current kind not_ram with
  | Ok (m, contents, generation) => mapping_at s space current = Some m /\
      MemoryPermissions.contains (permissions m) (required_permission kind) = true /\
      pages s !! physical_page m = Some (RamPage contents generation)
  | Err e => fault_kind e = kind /\ ~ bulk_mapped s space kind current
  | Panic => False
  end.
Proof.
  intros Hok. unfold bulk_page, bulk_mapped.
  destruct (mapping_at s space current) as [m|] eqn:Em; simpl;
    [|split; [done|by intros (? & ? & ? & [=] & _)]].
  destruct (MemoryPermissions.contains _ _) eqn:Ec; simpl;
    [|split; [done|intros (m' & c & g & [= <-] & Hc & _); congruence]].
  destruct (ok_mapped s Hok _ _ _ Em) as (_ & [page Hp] & _). rewrite Hp.
  destruct page; simpl; [done|]. split; [done|]. intros (m' & c & g & [= <-] & _ & Hp'). congruence.
Qed.

(** The bytes up to the end of a page share its mapping. *)
Lemma mapping_at_page s space a k :
  0 <= k -> page_offset a + k < SYNTHETIC_PAGE_SIZE -> mapping_at s space (a + k) = mapping_at s space a.
Proof. intros Hk Hb. unfold mapping_at. by destruct (page_add a k Hk Hb) as [-> _]. Qed.

Lemma bulk_mapped_page s space kind a m contents generation count b :
  mapping_at s space a = Some m ->
  MemoryPermissions.contains (permissions m) (required_permission kind) = true ->
  pages s !! physical_page m = Some (RamPage contents generation) ->
  page_offset a + count <= SYNTHETIC_PAGE_SIZE -> a <= b < a + count -> bulk_mapped s space kind b.
Proof.
  intros Hm Hc Hp Hb Hr. exists m, contents, generation. split; [|done].
  replace b with (a + (b - a)) by lia. rewrite mapping_at_page by lia. done.
Qed.

(** ** Reading *)

Lemma read_loop_run s space address : memory_ok s -> fits 64 address ->
  forall fuel copied output,
  0 <= copied <= Z.of_nat (List.length output) ->
  Z.of_nat (List.length output) - copied < Z.of_nat fuel ->
  address + Z.of_nat (List.length output) < 2 ^ 64 ->
  bytes_ok output -> shows s space address (take (Z.to_nat copied) output) ->
  wp (read_loop fuel s space address copied)
    (fun _ output' => List.length output' = List.length output /\ bytes_ok output' /\
       shows s space address output' /\
       forall a, address + copied <= a < address + Z.of_nat (List.length output) -> bulk_mapped s space KindRead a)
    (fun e _ => fault_kind e = KindRead /\
       exists a, address <= a < address + Z.of_nat (List.length output) /\ ~ bulk_mapped s space KindRead a) output.
Proof.
  intros Hok Ha. induction fuel as [|fuel IH]; intros copied output Hc Hf Hend Hb Hs; [lia|].
  cbn [read_loop]. wp_step. wp_step. unfold id.
  destruct (Z.ltb_spec copied (Z.of_nat (List.length output))) as [Hlt|Hge]; [|apply wp_ret].
  - wp_step. apply wp_lift. unfold Address.checked_add.
    destruct (checked_add 64 address copied) as [current|] eqn:Ecur; [|apply checked_add_none in Ecur; lia].
    apply checked_add_some in Ecur as [-> _]. simpl. wp_step. apply wp_lift.
    pose proof (bulk_page_spec s space (address + copied) KindRead "bulk guest-memory reads require RAM" Hok) as Hp.
    destruct (bulk_page _ _ _ _ _) as [[[m contents] generation]|e|]; [|split; [apply Hp|]|done].
    2: { exists (address + copied). split; [lia|apply Hp]. }
    destruct Hp as (Hm & Hperm & Hpage). destruct (ok_pages s Hok _ _ Hpage) as [Hcon _].
    destruct (bulk_count_bound (address + copied) (Z.of_nat (List.length output) - copied) ltac:(lia)) as [Hcnt Hin].
    set (count := bulk_count _ _) in *. pose proof (page_offset_bound (address + copied)) as Hoff.
    pose proof (page_bytes_length _ Hcon) as Hlen.
    wp_step. apply wp_lift. rewrite ram_bytes_spec by (done || lia). set (data := slice _ _ _).
    assert (Z.of_nat (List.length data) = count) as Hdl by (unfold data; rewrite slice_length by lia; lia).
    wp_step. apply wp_lift. rewrite copy_range_spec by (done || lia). wp_step. wp_step.
    set (output' := list_inserts (Z.to_nat copied) data output).
    assert (List.length output' = List.length output) as Hlo by apply length_inserts.
    eapply wp_mono; [apply IH| |simpl; rewrite Hlo; done]; rewrite ?Hlo; try lia.
    + apply bytes_ok_inserts; [done|]. by apply bytes_ok_slice, page_bytes_ok.
    + replace (take (Z.to_nat (copied + count)) output') with (take (Z.to_nat copied) output ++ data).
      * apply shows_app; [done|]. rewrite length_take. replace (Z.of_nat (_ `min` _)) with copied by lia.
        apply (shows_page s space _ m contents generation); [done..|lia].
      * apply list_eq. intros i. destruct (decide (i < Z.to_nat (copied + count))%nat) as [Hi|Hi].
        -- rewrite lookup_take_lt by done. unfold output'. destruct (decide (i < Z.to_nat copied)%nat).
           ++ rewrite lookup_app_l by (rewrite length_take; lia). rewrite lookup_take_lt by done.
              rewrite list_lookup_inserts_lt by done. done.
           ++ rewrite lookup_app_r by (rewrite length_take; lia). rewrite length_take.
              rewrite list_lookup_inserts by lia. f_equal. lia.
        -- rewrite !lookup_ge_None_2; [done|rewrite length_take; lia|].
           rewrite length_app, length_take. lia.
    + simpl. intros _ out (Hl & Hob & Hsh & Hmp). split; [lia|]. split; [done|]. split; [done|].
      intros a Hr. destruct (decide (a < address + copied + count)).
      * apply (bulk_mapped_page s space KindRead (address + copied) m contents generation count); done || lia.
      * apply Hmp. lia.
  - rewrite take_ge in Hs by lia. split; [done|]. split; [done|]. split; [done|]. intros a Hr. lia.
Qed.

(** A bulk read returns the bytes the addresses show. *)
Lemma read_bytes_wp s space address output :
  memory_ok s -> fits 64 address -> bytes_ok output ->
  wp (read_bytes s space address)
    (fun _ output' => List.length output' = List.length output /\ bytes_ok output' /\
       shows s space address output')
    (fun e _ => fault_kind e = KindRead /\
       let n := Z.of_nat (List.length output) in
       (2 ^ 64 <= address + n \/ first_data_fault s space KindRead address (address + n) <> None \/
        exists a, address <= a < address + n /\ ~ bulk_mapped s space KindRead a)) output.
Proof.
  intros Hok Ha Hb. unfold read_bytes. wp_step. wp_step. unfold id. wp_step. apply wp_lift.
  pose proof (bulk_range_spec s space address KindRead (Z.of_nat (List.length output)) Ha ltac:(lia)) as Hr.
  destruct (bulk_range _ _ _ _ _) as [end_|e|]; [|by destruct Hr as [? []]; auto|done].
  destruct Hr as [-> Hend].
  eapply wp_mono; [apply read_loop_run; [done|done|lia..|done|]| |]; [intros i Hi; simpl in Hi; lia| |].
  - simpl. intros _ o (? & ? & ? & _). done.
  - simpl. intros e o [? ?]. auto.
Qed.

(** ** Validation *)

Definition physical_at s (space : AddressSpaceId) (a : Z) : option Z :=
  physical_page <$> mapping_at s space a.

(** The next generation of every page under the addresses from [a] to [b]. *)
Record next_generations_of s (space : AddressSpaceId) (a b : Z) (G : gmap Z Z) : Prop := {
  next_known : forall p n, G !! p = Some n -> exists contents generation,
    pages s !! p = Some (RamPage contents generation) /\ n = generation + 1 /\ n < 2 ^ 64;
  next_touched : forall p n, G !! p = Some n -> exists c, a <= c < b /\ physical_at s space c = Some p;
  next_complete : forall c p, a <= c < b -> physical_at s space c = Some p -> is_Some (G !! p) }.

Lemma write_validate_spec s space start end_ : memory_ok s ->
  forall fuel cursor G,
  start <= cursor <= end_ -> end_ - cursor < Z.of_nat fuel ->
  (forall a, start <= a < cursor -> bulk_mapped s space KindWrite a) ->
  next_generations_of s space start cursor G ->
  match write_validate fuel s space cursor end_ G with
  | Ok G' => (forall a, start <= a < end_ -> bulk_mapped s space KindWrite a) /\
      next_generations_of s space start end_ G'
  | Err e => fault_kind e = KindWrite
  | Panic => False
  end.
Proof.
  intros Hok. induction fuel as [|fuel IH]; intros cursor G Hc Hf Hmap HG; [lia|].
  cbn [write_validate]. destruct (Z.ltb_spec cursor end_) as [Hlt|Hge];
    [|replace end_ with cursor by lia; done].
  pose proof (bulk_page_spec s space cursor KindWrite "bulk guest-memory writes require RAM" Hok) as Hp.
  destruct (bulk_page _ _ _ _ _) as [[[m contents] generation]|e|]; [|apply Hp|done].
  destruct Hp as (Hm & Hperm & Hpage).
  destruct (bulk_count_bound cursor (end_ - cursor) ltac:(lia)) as [Hcnt Hin].
  set (count := bulk_count _ _) in *. cbn [mbind res_bind].
  assert (forall c, cursor <= c < cursor + count -> physical_at s space c = Some (physical_page m)) as Hphys.
  { intros c Hr. unfold physical_at. replace c with (cursor + (c - cursor)) by lia.
    rewrite mapping_at_page by lia. by rewrite Hm. }
  assert (forall G', next_generations_of s space start (cursor + count) G' ->
    match write_validate fuel s space (cursor + count) end_ G' with
    | Ok G' => (forall a, start <= a < end_ -> bulk_mapped s space KindWrite a) /\
        next_generations_of s space start end_ G'
    | Err e => fault_kind e = KindWrite
    | Panic => False
    end) as Hrest.
  { intros G' HG'. apply IH; [lia|lia| |done]. intros a Ha.
    destruct (decide (a < cursor)); [apply Hmap; lia|].
    apply (bulk_mapped_page s space KindWrite cursor m contents generation count); done || lia. }
  destruct HG as [Hk Ht Hcm].
  destruct (G !! physical_page m) as [n|] eqn:Eg; cbn [mbind res_bind].
  - apply Hrest. split; [done| |].
    + intros p n' Hp'. destruct (Ht p n' Hp') as (c & ? & ?). exists c. split; [lia|done].
    + intros c p Hr Hp'. destruct (decide (c < cursor)); [by apply (Hcm c); [lia|]|].
      rewrite Hphys in Hp' by lia. injection Hp' as <-. by rewrite Eg.
  - rewrite next_content_generation_spec. destruct (Z.ltb_spec (generation + 1) (2 ^ 64)); cbn [mbind res_bind]; [|done].
    apply Hrest. split.
    + intros p n'. rewrite lookup_insert_Some. intros [[<- <-]|[_ Hn]]; [by eauto|by apply Hk].
    + intros p n'. rewrite lookup_insert_Some. intros [[<- <-]|[_ Hn]].
      * exists cursor. split; [lia|]. apply Hphys. lia.
      * destruct (Ht p n' Hn) as (c & ? & ?). exists c. split; [lia|done].
    + intros c p Hr Hp'. apply lookup_insert_is_Some'. destruct (decide (c < cursor)).
      * right. by apply (Hcm c); [lia|].
      * left. rewrite Hphys in Hp' by lia. by injection Hp'.
Qed.

(** ** Copying *)

(** The first [k] bytes of [data] have been copied. *)
Record blits (space : AddressSpaceId) (address : Z) (data : list Z) (k : nat) s s' : Prop := {
  blits_frame : s' = set_pages (pages s') s;
  blits_written : forall i b p offset, (i < k)%nat -> data !! i = Some b ->
    located s space address i p offset ->
    (forall j, (i < j < k)%nat -> ~ located s space address j p offset) -> cell s' p offset = Some b;
  blits_other : forall p offset, 0 <= offset ->
    (forall i, (i < k)%nat -> ~ located s space address i p offset) -> cell s' p offset = cell s p offset;
  blits_pages : forall p, pages s' !! p = pages s !! p \/
    exists contents generation contents', pages s !! p = Some (RamPage contents generation) /\
      pages s' !! p = Some (RamPage contents' generation) /\ contents_ok contents' /\
      exists i offset, (i < k)%nat /\ located s space address i p offset }.

Lemma blits_nil space address data s : blits space address data 0 s s.
Proof. split; [by destruct s|intros; lia|done|by left]. Qed.

Lemma blits_ram space address data k s s' p contents generation :
  memory_ok s -> blits space address data k s s' -> pages s !! p = Some (RamPage contents generation) ->
  exists contents', pages s' !! p = Some (RamPage contents' generation) /\ contents_ok contents'.
Proof.
  intros Hok Hb Hp. destruct (blits_pages _ _ _ _ _ _ Hb p) as [->|(c & g & c' & Ho & Hn & Hc & _)].
  - exists contents. split; [done|]. by destruct (ok_pages s Hok _ _ Hp).
  - rewrite Hp in Ho. injection Ho as <- <-. eauto.
Qed.

(** One page more. *)
Lemma blits_step space address data k count s s' m contents generation :
  memory_ok s -> bytes_ok data -> blits space address data k s s' ->
  mapping_at s space (address + Z.of_nat k) = Some m ->
  pages s' !! physical_page m = Some (RamPage contents generation) -> contents_ok contents ->
  (k + count <= List.length data)%nat -> (0 < count)%nat ->
  page_offset (address + Z.of_nat k) + Z.of_nat count <= SYNTHETIC_PAGE_SIZE ->
  blits space address data (k + count) s
    (poke (physical_page m) (page_offset (address + Z.of_nat k)) (slice data k count) contents generation s').
Proof.
  intros Hok Hd [Hf Hw Ho Hp] Hm Hpage Hc Hlen Hpos Hin.
  pose proof (page_offset_bound (address + Z.of_nat k)) as Hoff. set (o := page_offset _) in *.
  assert (List.length (slice data k count) = count) as Hsl by (apply slice_length; lia).
  assert (forall i p offset, (k <= i < k + count)%nat ->
    located s space address i p offset <-> p = physical_page m /\ offset = o + Z.of_nat (i - k)) as Hloc.
  { intros i p offset Hi.
    assert (located s space address i p offset <->
            located s space (address + Z.of_nat k) (i - k) p offset) as ->.
    { unfold located. by replace (address + Z.of_nat k + Z.of_nat (i - k)) with (address + Z.of_nat i) by lia. }
    apply located_page; [done|fold o; lia]. }
  split.
  - unfold poke. simpl. rewrite Hf. done.
  - intros i b p offset Hi Hb HL Hlast. pose proof (page_offset_bound (address + Z.of_nat i)).
    assert (0 <= offset) as Hpo by (destruct HL as (? & _ & _ & <-); lia).
    rewrite (cell_poke s' _ _ _ contents generation) by (done || lia). rewrite Hsl.
    destruct (decide (i < k)%nat) as [Hik|Hik].
    + rewrite decide_False; [apply (Hw i); try done; intros j Hj; apply Hlast; lia|].
      intros [-> Hr]. apply (Hlast (k + Z.to_nat (offset - o))%nat); [lia|].
      apply Hloc; [lia|]. split; [done|lia].
    + apply Hloc in HL as [-> ->]; [|lia]. rewrite decide_True by lia.
      replace (Z.to_nat (o + Z.of_nat (i - k) - o)) with (i - k)%nat by lia.
      rewrite lookup_slice by lia. rewrite <- Hb. f_equal. lia.
  - intros p offset Hpo Hnot. rewrite (cell_poke s' _ _ _ contents generation) by (done || lia). rewrite Hsl.
    rewrite decide_False; [apply Ho; [done|]; intros i Hi; apply Hnot; lia|].
    intros [-> Hr]. apply (Hnot (k + Z.to_nat (offset - o))%nat); [lia|]. apply Hloc; [lia|]. split; [done|lia].
  - intros p. unfold poke; simpl. destruct (decide (physical_page m = p)) as [<-|Hne].
    + right. rewrite lookup_insert_eq.
      assert (exists c, pages s !! physical_page m = Some (RamPage c generation)) as [c Hs].
      { destruct (Hp (physical_page m)) as [E|(c & g & c' & Hs & Hs' & _)]; [rewrite <- E; eauto|].
        rewrite Hpage in Hs'. injection Hs' as -> ->. eauto. }
      exists c, generation. eexists. split; [done|]. split; [done|].
      split; [apply poke_contents_ok; [done|by apply bytes_ok_slice]|].
      exists k, o. split; [lia|]. apply Hloc; [lia|]. split; [done|lia].
    + rewrite lookup_insert_ne by done.
      destruct (Hp p) as [E|(c & g & c' & ? & ? & ? & i & offset & ? & ?)]; [by left|right].
      exists c, g, c'. split_and!; [done..|]. exists i, offset. split; [lia|done].
Qed.

Lemma write_loop_run s space address data : memory_ok s -> bytes_ok data -> 0 <= address ->
  address + Z.of_nat (List.length data) < 2 ^ 64 ->
  (forall a, address <= a < address + Z.of_nat (List.length data) -> bulk_mapped s space KindWrite a) ->
  forall fuel k s', (k <= List.length data)%nat -> (List.length data - k < fuel)%nat ->
  blits space address data k s s' ->
  exists s'', write_loop fuel space address data (Z.of_nat k) s' = (s'', Ok tt) /\
    blits space address data (List.length data) s s''.
Proof.
  intros Hok Hd Ha Hend Hmap. induction fuel as [|fuel IH]; intros k s' Hk Hf Hb; [lia|].
  cbn [write_loop]. destruct (Z.ltb_spec (Z.of_nat k) (Z.of_nat (List.length data))) as [Hlt|Hge].
  - unfold Address.checked_add.
    destruct (checked_add 64 address (Z.of_nat k)) as [current|] eqn:Ecur; [|apply checked_add_none in Ecur; lia].
    apply checked_add_some in Ecur as [-> _]. cbn [expect].
    destruct (Hmap (address + Z.of_nat k) ltac:(lia)) as (m & c & g & Hm & _ & Hp).
    erewrite M_bind_lift_ok by reflexivity. erewrite M_bind_ok by reflexivity. unfold id.
    assert (mapping_at s' space (address + Z.of_nat k) = Some m) as Hm'.
    { unfold mapping_at. rewrite (blits_frame _ _ _ _ _ _ Hb). exact Hm. }
    rewrite Hm'. erewrite M_bind_lift_ok by reflexivity.
    destruct (blits_ram _ _ _ _ _ _ _ _ _ Hok Hb Hp) as (c' & Hp' & Hc').
    destruct (bulk_count_bound (address + Z.of_nat k) (Z.of_nat (List.length data) - Z.of_nat k) ltac:(lia))
      as [Hcnt Hin].
    set (count := bulk_count _ _) in *. pose proof (page_offset_bound (address + Z.of_nat k)).
    erewrite M_bind_lift_ok by (apply index_range_spec; lia). rewrite Nat2Z.id.
    erewrite M_bind_ok by (apply (store_bytes_run s' _ c' g); [done|done|lia|lia|rewrite slice_length; lia]).
    replace (Z.of_nat k + count) with (Z.of_nat (k + Z.to_nat count)) by lia.
    apply IH; [lia|lia|]. apply blits_step; try done; lia.
  - exists s'. split; [done|]. by replace (List.length data) with k by lia.
Qed.

(** ** Generations *)

Definition is_ram_page s (p : Z) : Prop :=
  exists contents generation, pages s !! p = Some (RamPage contents generation).

Record regenerated (gens : list (Z * Z)) s s' : Prop := {
  regenerated_frame : s' = set_pages (pages s') s;
  regenerated_pages : forall p,
    (pages s' !! p = pages s !! p /\ p ∉ gens.*1) \/
    exists contents generation next, pages s !! p = Some (RamPage contents generation) /\
      (p, next) ∈ gens /\ pages s' !! p = Some (RamPage contents next) }.

Lemma store_generations_run gens : forall s, (forall p n, (p, n) ∈ gens -> is_ram_page s p) ->
  exists s', store_generations gens s = (s', Ok tt) /\ regenerated gens s s'.
Proof.
  induction gens as [|[p n] gens IH]; intros s Hr.
  - exists s. split; [done|]. split; [by destruct s|]. intros p. left. split; [done|apply not_elem_of_nil].
  - destruct (Hr p n ltac:(constructor)) as (c & g & Hp). cbn [store_generations].
    erewrite M_bind_ok by (by apply (store_generation_run s p c g)).
    set (s1 := set_pages _ s).
    destruct (IH s1) as (s' & Hrun & [Hf Hpg]).
    { intros q n' Hq. destruct (Hr q n' ltac:(by constructor)) as (c' & g' & Hq'). unfold is_ram_page, s1; simpl.
      destruct (decide (p = q)) as [<-|]; [rewrite lookup_insert_eq; eauto|rewrite lookup_insert_ne by done; eauto]. }
    exists s'. split; [done|]. split; [rewrite Hf at 1; done|]. intros q. unfold s1 in Hpg. simpl in Hpg.
    destruct (Hpg q) as [[E Hn]|(c' & g' & n' & Hs & Hin & Hs')].
    + destruct (decide (p = q)) as [<-|Hne].
      * right. rewrite lookup_insert_eq in E. exists c, g, n. split; [done|]. split; [constructor|done].
      * left. rewrite lookup_insert_ne in E by done. split; [done|]. cbn. rewrite not_elem_of_cons. done.
    + right. destruct (decide (p = q)) as [<-|Hne].
      * rewrite lookup_insert_eq in Hs. injection Hs as <- <-. exists c, g, n'. split; [done|]. split; [by constructor|done].
      * rewrite lookup_insert_ne in Hs by done. exists c', g', n'. split; [done|]. split; [by constructor|done].
Qed.

(** ** Writing *)

(** The physical pages under a transfer. *)
Definition touched_page s (space : AddressSpaceId) (address n : Z) (p : Z) : Prop :=
  exists a, address <= a < address + n /\ physical_at s space a = Some p.

(** A completed bulk write: the last byte written to a cell stays, other cells
    keep theirs, the touched pages get their next generation, and every touched
    page that holds code is announced. *)
Record bulk_stores (space : AddressSpaceId) (address : Z) (data : list Z) s s' : Prop := {
  bulk_mappings : mappings s' = mappings s;
  bulk_faults : data_faults s' = data_faults s;
  bulk_open : forall a, address <= a < address + Z.of_nat (List.length data) -> bulk_mapped s space KindWrite a;
  bulk_written : forall i b p offset, data !! i = Some b -> located s space address i p offset ->
    (forall j, (i < j < List.length data)%nat -> ~ located s space address j p offset) ->
    cell s' p offset = Some b;
  bulk_other : forall p offset, 0 <= offset ->
    (forall i, (i < List.length data)%nat -> ~ located s space address i p offset) ->
    cell s' p offset = cell s p offset;
  bulk_generations : forall p,
    (pages s' !! p = pages s !! p /\ ~ touched_page s space address (Z.of_nat (List.length data)) p) \/
    (touched_page s space address (Z.of_nat (List.length data)) p /\
     exists contents generation contents', pages s !! p = Some (RamPage contents generation) /\
       pages s' !! p = Some (RamPage contents' (generation + 1)) /\ contents_ok contents' /\
       generation + 1 < 2 ^ 64);
  bulk_announced : exists kinds, (kinds = [] /\ invalidations s' = invalidations s \/ published s s' kinds) /\
    forall p, ExecutableContent p None ∈ kinds <->
      touched_page s space address (Z.of_nat (List.length data)) p /\ executable_page s p = true }.

Lemma touched_generations s space address n G p :
  next_generations_of s space address (address + n) G ->
  is_Some (G !! p) <-> touched_page s space address n p.
Proof.
  intros [Hk Ht Hc]. split.
  - intros [x Hx]. by apply (Ht p x).
  - intros (a & Hr & Hp). by apply (Hc a).
Qed.

(** Copying and then setting the generations. *)
Lemma bulk_stores_intro space address data s s1 s2 G kinds log' :
  memory_ok s -> next_generations_of s space address (address + Z.of_nat (List.length data)) G ->
  (forall a, address <= a < address + Z.of_nat (List.length data) -> bulk_mapped s space KindWrite a) ->
  blits space address data (List.length data) s s1 -> regenerated (in_key_order G) s1 s2 ->
  kinds = map (fun page => ExecutableContent page None)
            (filter (fun page => executable_page s page = true) (in_key_order G).*1) ->
  (kinds = [] /\ log' = invalidations s \/ published s (set_invalidations log' s2) kinds) ->
  bulk_stores space address data s (set_invalidations log' s2).
Proof.
  intros Hok HG Hmap [Hf1 Hw Ho Hp1] [Hf2 Hp2] -> Hlog.
  assert (forall p offset, cell s2 p offset = cell s1 p offset) as Hcell.
  { intros p offset. unfold cell. destruct (Hp2 p) as [[-> _]|(c & g & n & -> & _ & ->)]; done. }
  split; simpl.
  - by rewrite Hf2, Hf1.
  - by rewrite Hf2, Hf1.
  - done.
  - intros i b p offset Hi HL Hlast. pose proof (lookup_lt_Some _ _ _ Hi).
    change (cell s2 p offset = Some b). rewrite Hcell. by apply (Hw i).
  - intros p offset Hoff Hnot. change (cell s2 p offset = cell s p offset). rewrite Hcell. by apply Ho.
  - intros p. rewrite <- (touched_generations s space address _ G p HG).
    destruct (Hp2 p) as [[E Hn]|(c & g & n & Hs1 & Hin & Hs2)].
    + left. rewrite in_key_order_key in Hn. split; [|done]. rewrite E.
      destruct (Hp1 p) as [E1|(c & g & c' & Hs & Hs1 & Hc & i & offset & Hi & m & Hm & <- & _)]; [done|].
      destruct Hn. apply (touched_generations s space address _ G _ HG). exists (address + Z.of_nat i).
      split; [lia|]. unfold physical_at. by rewrite Hm.
    + right. apply in_key_order_elem in Hin. split; [by eexists|].
      destruct (next_known _ _ _ _ _ HG p n Hin) as (c0 & g0 & Hs & -> & Hlt).
      exists c0, g0, c. split; [done|]. split; [done|]. split; [|done].
      destruct (blits_ram space address data _ s s1 p c0 g0 Hok (Build_blits _ _ _ _ _ _ Hf1 Hw Ho Hp1) Hs)
        as (c' & Hs1' & Hc'). rewrite Hs1 in Hs1'. by injection Hs1' as <- <-.
  - eexists. split; [exact Hlog|]. intros p. rewrite <- (touched_generations s space address _ G p HG).
    rewrite <- in_key_order_key, list_elem_of_In, in_map_iff.
    split.
    + intros (q & [= ->] & Hq). apply list_elem_of_In, list_elem_of_filter in Hq. tauto.
    + intros [Hk He]. exists p. split; [done|]. apply list_elem_of_In, list_elem_of_filter. done.
Qed.

Lemma bulk_stores_ok space address data s s' : bulk_stores space address data s s' ->
  next_page_id s' = next_page_id s -> next_mapping_generation s' = next_mapping_generation s ->
  memory_ok s -> memory_ok s'.
Proof.
  intros [Hmp _ _ _ _ Hg (kinds & Hlog & _)] Hn Hgen [Hm Hpg Hnp Hng Hl]. split; rewrite ?Hn, ?Hgen, ?Hmp; try done.
  - intros sp page m Hmm. destruct (Hm sp page m Hmm) as (? & Hs & ?). split_and!; try done; try lia.
    destruct (Hg (physical_page m)) as [[-> _]|(_ & c & g & c' & _ & -> & _)]; done.
  - intros p page Hpp. destruct (Hg p) as [[Heq _]|(_ & c & g & c' & Ho & Heq & Hc & Hb)].
    + rewrite Heq in Hpp. by eapply Hpg.
    + rewrite Heq in Hpp. injection Hpp as <-. destruct (Hpg _ _ Ho) as [_ [? ?]].
      split; [done|unfold fits; lia].
  - destruct Hlog as [[_ ->]|Hp]; [done|by eapply published_log].
Qed.

(** A bulk write happens in full or not at all. *)
Lemma write_bytes_wp can_reserve s space address data :
  memory_ok s -> fits 64 address -> bytes_ok data ->
  wp (write_bytes can_reserve space address data)
    (fun _ s' => bulk_stores space address data s s' /\ memory_ok s')
    (fun e s' => fault_kind e = KindWrite /\ s' = s) s.
Proof.
  intros Hok Ha Hd. unfold write_bytes. wp_state. wp_step. apply wp_lift.
  pose proof (bulk_range_spec s space address KindWrite (Z.of_nat (List.length data)) Ha ltac:(lia)) as Hr.
  destruct (bulk_range _ _ _ _ _) as [end_|e|]; [|by destruct Hr|done]. destruct Hr as [-> Hend].
  wp_step. apply wp_lift.
  pose proof (write_validate_spec s space address (address + Z.of_nat (List.length data)) Hok
                (S (List.length data)) address ∅ ltac:(lia) ltac:(lia) ltac:(intros; lia)) as Hv.
  assert (next_generations_of s space address address ∅) as Hnil.
  { split; [by intros p n; rewrite lookup_empty..|intros; lia]. }
  specialize (Hv Hnil). destruct (write_validate _ _ _ _ _ _) as [G|e|]; [|done|done]. destruct Hv as [Hmap HG].
  wp_step. apply wp_guard_err; [done|intros _]. set (kinds := map _ _).
  destruct (write_loop_run s space address data Hok Hd ltac:(apply Ha) Hend Hmap
              (S (List.length data)) 0 s ltac:(lia) ltac:(lia) (blits_nil _ _ _ _)) as (s1 & Hloop & Hb).
  destruct (store_generations_run (in_key_order G) s1) as (s2 & Hgen & Hreg).
  { intros p n Hin%in_key_order_elem. destruct (next_known _ _ _ _ _ HG p n Hin) as (c & g & Hp & _).
    destruct (blits_ram _ _ _ _ _ _ _ _ _ Hok Hb Hp) as (c' & Hp' & _). by exists c', g. }
  assert (invalidations s2 = invalidations s /\ next_page_id s2 = next_page_id s /\
          next_mapping_generation s2 = next_mapping_generation s) as (Hi2 & Hn2 & Hg2).
  { by rewrite (regenerated_frame _ _ _ Hreg), (blits_frame _ _ _ _ _ _ Hb). }
  assert (forall log', (kinds = [] /\ log' = invalidations s \/ published s (set_invalidations log' s2) kinds) ->
    bulk_stores space address data s (set_invalidations log' s2) /\ memory_ok (set_invalidations log' s2)) as Hdone.
  { intros log' Hlog. assert (bulk_stores space address data s (set_invalidations log' s2)) as Hbs
      by (by apply (bulk_stores_intro space address data s s1 s2 G kinds)).
    split; [done|]. by apply (bulk_stores_ok space address data s). }
  assert (forall batch Q Qe,
    wp (match batch with Some batch => commit_invalidation (commit_many batch) | None => mret tt end) Q Qe s2 ->
    wp (_ ← write_loop (S (List.length data)) space address data 0; _ ← store_generations (in_key_order G);
        match batch with Some batch => commit_invalidation (commit_many batch) | None => mret tt end) Q Qe s)
    as Hrun.
  { intros batch Q Qe HQ. unfold wp. rewrite (M_bind_ok _ _ _ _ _ Hloop), (M_bind_ok _ _ _ _ _ Hgen).
    exact HQ. }
  wp_step. destruct kinds as [|k ks] eqn:Ek.
  - wp_step. apply (Hrun None). wp_step.
    destruct (Hdone (invalidations s2)) as [Hbs Hok2]; [left; split; [done|by rewrite Hi2]|].
    by destruct s2.
  - wp_step. unfold reserve_many_from. apply (reserve_many_or_wp s (k :: ks)); [done| |done].
    intros batch Hbatch. wp_step. apply (Hrun (Some batch)).
    destruct (Hbatch DataAccessFault s2 Hi2) as (log' & Hc & Hpub). unfold wp. rewrite Hc.
    apply Hdone. by right.
Qed.

(** Bulk writes are all or nothing.  [write_bytes] never panics.  When it
    fails, memory is untouched.  When it succeeds every address of the range
    was writable RAM; each cell holds the last byte written to it and every
    other cell, in any address space, keeps its byte; exactly the touched pages
    move to their next generation; and the touched pages that hold code, and
    only those, are announced to the invalidation stream. *)
Theorem write_bytes_exact can_reserve s space address data :
  memory_ok s -> fits 64 address -> bytes_ok data ->
  match write_bytes can_reserve space address data s with
  | (s', Ok _) => bulk_stores space address data s s' /\ memory_ok s'
  | (s', Err e) => s' = s /\ fault_kind e = KindWrite
  | (_, Panic) => False
  end.
Proof.
  intros Hok Ha Hd. pose proof (write_bytes_wp can_reserve s space address data Hok Ha Hd) as Hw.
  unfold wp in Hw. destruct (write_bytes _ _ _ _ _) as [s' [a|e|]]; naive_solver.
Qed.

(** No physical page is shown twice in a range. *)
Definition unaliased_range s (space : AddressSpaceId) (address n : Z) : Prop :=
  forall a b, address <= a < address + n -> address <= b < address + n ->
    physical_at s space a = physical_at s space b -> virtual_page a = virtual_page b.

Lemma unaliased_last s space address (data : list Z) i j p offset :
  unaliased_range s space address (Z.of_nat (List.length data)) ->
  (i < List.length data)%nat -> (j < List.length data)%nat ->
  located s space address i p offset -> located s space address j p offset -> i = j.
Proof.
  intros Hu Hi Hj (m & Hm & Hp & Ho) (m' & Hm' & Hp' & Ho').
  assert (virtual_page (address + Z.of_nat i) = virtual_page (address + Z.of_nat j)) as Hv.
  { apply Hu; [lia|lia|]. unfold physical_at. rewrite Hm, Hm'. simpl. congruence. }
  pose proof (page_split (address + Z.of_nat i)). pose proof (page_split (address + Z.of_nat j)).
  rewrite Hv, Ho in *. rewrite Ho' in *. lia.
Qed.

Lemma bulk_stores_shows space address data s s' :
  memory_ok s -> bulk_stores space address data s s' ->
  unaliased_range s space address (Z.of_nat (List.length data)) -> shows s' space address data.
Proof.
  intros Hok Hb Hu i Hi. destruct (bulk_open _ _ _ _ _ Hb (address + Z.of_nat i) ltac:(lia)) as (m & c & g & Hm & _ & _).
  assert (located s space address i (physical_page m) (page_offset (address + Z.of_nat i))) as HL by (by exists m).
  unfold byte_at, mapping_at in *. rewrite (bulk_mappings _ _ _ _ _ Hb), Hm. simpl.
  destruct (data !! i) as [b|] eqn:Eb; [|apply lookup_ge_None in Eb; lia].
  apply (bulk_written _ _ _ _ _ Hb i b); [done|done|]. intros j Hj HL'.
  pose proof (unaliased_last s space address data i j _ _ Hu Hi ltac:(lia) HL HL'). lia.
Qed.

Lemma shows_unique s space address (data data' : list Z) :
  List.length data = List.length data' -> shows s space address data -> shows s space address data' -> data = data'.
Proof.
  intros Hl H1 H2. apply list_eq_same_length with (n := List.length data); [done|done|].
  intros i x y Hi Hx Hy. specialize (H1 i Hi). specialize (H2 i ltac:(lia)). congruence.
Qed.

(** A bulk transfer round trip.  After [write_bytes] succeeds on a range
    that shows no physical page twice, is readable and has no injected fault,
    [read_bytes] into a buffer of the same length succeeds and returns exactly
    the bytes written. *)
Theorem write_bytes_read_bytes can_reserve s s' space address data output :
  memory_ok s -> fits 64 address -> bytes_ok data -> bytes_ok output ->
  List.length output = List.length data ->
  write_bytes can_reserve space address data s = (s', Ok tt) ->
  unaliased_range s space address (Z.of_nat (List.length data)) ->
  (forall a m, address <= a < address + Z.of_nat (List.length data) -> mapping_at s space a = Some m ->
     MemoryPermissions.contains (permissions m) MemoryPermissions.READ = true) ->
  first_data_fault s space KindRead address (address + Z.of_nat (List.length data)) = None ->
  read_bytes s' space address output = (data, Ok tt).
Proof.
  intros Hok Ha Hd Ho Hl Hw Hu Hread Hfault.
  destruct (wp_ok _ _ _ _ _ _ (write_bytes_wp can_reserve s space address data Hok Ha Hd) Hw) as [Hb Hok'].
  assert (address + Z.of_nat (List.length data) < 2 ^ 64) as Hend.
  { unfold write_bytes, mbind, M_bind, gets, id, lift in Hw.
    pose proof (bulk_range_spec s space address KindWrite (Z.of_nat (List.length data)) Ha ltac:(lia)) as Hr.
    destruct (bulk_range _ _ _ _ _); [|done|done]. by destruct Hr as [-> ?]. }
  pose proof (read_bytes_wp s' space address output Hok' Ha Ho) as Hr. unfold wp in Hr.
  destruct (read_bytes s' space address output) as [output' [[]|e|]] eqn:E; [| |done].
  - destruct Hr as (Hl' & _ & Hs). rewrite (shows_unique s' space address output' data); [done|lia|done|].
    by apply (bulk_stores_shows space address data s).
  - destruct Hr as [_ Hr]. rewrite Hl in Hr. destruct Hr as [Hr|[Hr|(a & Hra & Hn)]]; [lia| |].
    + unfold first_data_fault in Hr, Hfault. by rewrite (bulk_faults _ _ _ _ _ Hb) in Hr.
    + destruct Hn. destruct (bulk_open _ _ _ _ _ Hb a Hra) as (m & c & g & Hm & _ & Hp).
      assert (is_ram_page s' (physical_page m)) as (c' & g' & Hp').
      { destruct (bulk_generations _ _ _ _ _ Hb (physical_page m)) as [[E' _]|(_ & ? & ? & c' & _ & ? & _)];
          [exists c, g; by rewrite E'|by eexists _, _]. }
      exists m, c', g'. split; [unfold mapping_at; by rewrite (bulk_mappings _ _ _ _ _ Hb)|].
      split; [by apply (Hread a)|done].
Qed.
End Bulk.
