(* ===== verification/SyntheticInstall.v ===== *)
(** * The synthetic backend: new pages

    Growing and shrinking a zeroed mapping, and the atomic installation of RAM
    pages: physical identities are fresh, everything is validated before the
    first change, and what an operation adds is exactly what was asked for. *)

From Stdlib Require Import ZArith Lia Bool String.
From stdpp Require Import base numbers list option strings gmap.
From S2P Require Import Prelude RustInt RustList Bytes GuestAddress Invalidation A64Semantics.
From S2P Require Import MemoryContracts MemoryCommon Synthetic SyntheticInv SyntheticMap.
Import SyntheticMemory.
Local Open Scope list_scope.
Local Open Scope Z_scope.

Section Install.
Context {Handler : Type} `{SyntheticMmioOk Handler}.
Implicit Types (s : State Handler).

(** ** Adding pages *)

(** A virtual page, its mapping and the physical page behind it. *)
Definition NewPage : Type := Z * Mapping * PhysicalPage Handler.
Definition new_virtual (e : NewPage) : Z := e.1.1.
Definition new_mapping (e : NewPage) : Mapping := e.1.2.
Definition new_page (e : NewPage) : PhysicalPage Handler := e.2.
Definition new_physical (e : NewPage) : Z := physical_page (new_mapping e).

Definition add_page (space : AddressSpaceId) s (e : NewPage) : State Handler :=
  set_mappings (<[(space, new_virtual e) := new_mapping e]> (mappings s))
    (set_pages (<[new_physical e := new_page e]> (pages s)) s).

Definition add_pages (space : AddressSpaceId) (entries : list NewPage) s : State Handler :=
  foldl (add_page space) s entries.

(** What [add_pages] leaves. *)
Record added (space : AddressSpaceId) (entries : list NewPage) s s' : Prop := {
  added_mapping : forall e, e ∈ entries -> mappings s' !! (space, new_virtual e) = Some (new_mapping e);
  added_page : forall e, e ∈ entries -> pages s' !! new_physical e = Some (new_page e);
  added_other : forall sp p, ~ (sp = space /\ p ∈ new_virtual <$> entries) ->
    mappings s' !! (sp, p) = mappings s !! (sp, p);
  added_pages : forall q, q ∉ new_physical <$> entries -> pages s' !! q = pages s !! q }.

Lemma add_pages_frame space entries : forall s,
  add_pages space entries s =
  set_mappings (mappings (add_pages space entries s)) (set_pages (pages (add_pages space entries s)) s).
Proof.
  induction entries as [|e entries IH]; intros s; [by destruct s|].
  change (add_pages space (e :: entries) s) with (add_pages space entries (add_page space s e)).
  rewrite IH at 1. done.
Qed.

Lemma add_pages_added space entries : forall s,
  NoDup (new_virtual <$> entries) -> NoDup (new_physical <$> entries) ->
  added space entries s (add_pages space entries s).
Proof.
  induction entries as [|e entries IH]; intros s Hv Hp.
  - split; try done; intros e He; by apply not_elem_of_nil in He.
  - apply NoDup_cons in Hv as [Hnv Hv]. apply NoDup_cons in Hp as [Hnp Hp].
    change (add_pages space (e :: entries) s) with (add_pages space entries (add_page space s e)).
    destruct (IH (add_page space s e) Hv Hp) as [Hm Hpg Ho Hop]. split.
    + intros e' [->|He']%elem_of_cons; [|by apply Hm]. rewrite Ho by tauto. apply lookup_insert_eq.
    + intros e' [->|He']%elem_of_cons; [|by apply Hpg]. rewrite Hop by done. apply lookup_insert_eq.
    + intros sp p Hn. rewrite Ho; [|intros [-> Hin]; apply Hn; split; [done|by constructor]].
      apply lookup_insert_ne. intros [= <- <-]. apply Hn. split; [done|constructor].
    + intros q Hq. rewrite fmap_cons, not_elem_of_cons in Hq. rewrite Hop by tauto.
      apply lookup_insert_ne. naive_solver.
Qed.

(** New pages with a fresh generation keep the invariant. *)
Definition entry_ok (g : Z) (e : NewPage) : Prop :=
  0 <= new_virtual e < 2 ^ 52 /\ mapping_generation (new_mapping e) = g /\
  attributes_ok (attributes (new_mapping e)) /\ page_ok (new_page e).

Lemma add_pages_generations space g entries : forall s,
  Forall (entry_ok g) entries -> (forall n, next_mapping_generation s = Some n -> g < n) -> memory_ok s ->
  memory_ok (add_pages space entries s).
Proof.
  induction entries as [|e entries IH]; intros s Hall Hg Hok; [done|].
  apply Forall_cons in Hall as [(Hv & Hge & Hat & Hpg) Hall].
  change (add_pages space (e :: entries) s) with (add_pages space entries (add_page space s e)).
  apply IH; [done|done|]. destruct Hok as [Hm Hp Hn Hgen Hl]. split; simpl; try done.
  - intros sp p m. rewrite lookup_insert_Some. intros [[[= <- <-] <-]|[_ Hl']].
    + split; [done|]. split; [|done]. by rewrite lookup_insert_eq.
    + destruct (Hm sp p m Hl') as (? & ? & ?). split; [done|]. split; [|done].
      apply lookup_insert_is_Some'. by right.
  - intros q page. rewrite lookup_insert_Some. intros [[_ <-]|[_ Hq]]; [done|by eapply Hp].
  - destruct (next_mapping_generation s) as [n|]; [|done]. specialize (Hg n eq_refl).
    split; [apply Hgen|]. intros key m. rewrite lookup_insert_Some.
    intros [[_ <-]|[_ Hk]]; [lia|]. by eapply (proj2 Hgen).
Qed.

Lemma next_page_ok next s : fits 64 next -> memory_ok s -> memory_ok (set_next_page_id next s).
Proof. intros Hn [Hm Hp _ Hg Hl]. by split. Qed.

Lemma log_ok log' s : (exists history, represents history log') -> memory_ok s -> memory_ok (set_invalidations log' s).
Proof. intros Hlog [Hm Hp Hn Hg _]. by split. Qed.

(** Taking a generation. *)
Lemma generation_ok s g :
  memory_ok s -> next_mapping_generation s = Some g ->
  memory_ok (set_next_mapping_generation (res_ok (MappingGeneration.next g)) s) /\
  forall n, res_ok (MappingGeneration.next g) = Some n -> g < n.
Proof.
  intros Hok Hg. split; [|unfold MappingGeneration.next, checked_add; destruct (_ <? _); simpl; intros n [= <-]; lia].
  destruct (ok_log s Hok) as [h Hh].
  pose proof (remap_ok s g (mappings s) (invalidations s) Hok Hg ltac:(by left) (ex_intro _ h Hh)) as Hr.
  by destruct s.
Qed.

(** ** Fresh identities *)

Lemma allocate_fresh s next :
  fits 64 next ->
  match allocate_page_id (S (size (pages s))) next (fun page => bool_decide (is_Some (pages s !! page))) with
  | Ok (Some (page, next')) =>
      next <= page < 2 ^ 64 - 1 /\ next' = page + 1 /\ pages s !! page = None /\
      (forall p, next <= p < page -> is_Some (pages s !! p))
  | Ok None => forall p, next <= p < 2 ^ 64 - 1 -> is_Some (pages s !! p)
  | _ => False
  end.
Proof.
  intros Hn.
  pose proof (allocate_page_id_spec (fun page => bool_decide (is_Some (pages s !! page)))
    (S (size (pages s))) next (dom (pages s)) Hn) as Ha.
  assert (forall p, next <= p -> bool_decide (is_Some (pages s !! p)) = true -> p ∈ dom (pages s)) as Hd.
  { intros p _ Hp%bool_decide_eq_true. by apply elem_of_dom. }
  specialize (Ha Hd). rewrite size_dom in Ha. specialize (Ha ltac:(lia)).
  destruct (allocate_page_id _ _ _) as [[[page next']|]|[]|]; [| |done].
  - destruct Ha as (? & ? & Hf & Hb). apply bool_decide_eq_false, eq_None_not_Some in Hf.
    split_and!; [lia..|done|]. intros p Hp. specialize (Hb p Hp). by apply bool_decide_eq_true in Hb.
  - intros p Hp. specialize (Ha p Hp). by apply bool_decide_eq_true in Ha.
Qed.

(** The identities a run of allocations hands out. *)
Record fresh_ids s (next : Z) (ids : list Z) (next' : Z) : Prop := {
  fresh_next : next <= next' < 2 ^ 64;
  fresh_in : forall p, p ∈ ids -> next <= p < next' /\ pages s !! p = None;
  fresh_distinct : NoDup ids }.

Lemma fresh_nil s next : fits 64 next -> fresh_ids s next [] next.
Proof. intros [? ?]. split; [lia| |constructor]. intros p Hp. by apply not_elem_of_nil in Hp. Qed.

Lemma fresh_cons s next page ids next' :
  fits 64 next -> next <= page -> pages s !! page = None -> fresh_ids s (page + 1) ids next' ->
  fresh_ids s next (page :: ids) next'.
Proof.
  intros [? ?] Hp Hf [Hn Hin Hd]. split; [lia| |].
  - intros p [->|Hi]%elem_of_cons; [split; [lia|done]|]. destruct (Hin p Hi). split; [lia|done].
  - apply NoDup_cons. split; [|done]. intros Hi. destruct (Hin page Hi). lia.
Qed.

Lemma allocate_pages_spec {E} s (exhausted : E) range : forall next,
  fits 64 next ->
  match allocate_pages s next exhausted range with
  | Ok (pending, next') => pending.*1 = range /\ fresh_ids s next pending.*2 next'
  | Err e => e = exhausted
  | Panic => False
  end.
Proof.
  induction range as [|page range IH]; intros next Hn; cbn [allocate_pages].
  - split; [done|by apply fresh_nil].
  - pose proof (allocate_fresh s next Hn) as Ha.
    destruct (allocate_page_id _ _ _) as [[[physical next']|]|[]|]; [|done|done].
    destruct Ha as (Hb & -> & Hf & _).
    specialize (IH (physical + 1) ltac:(unfold fits in *; lia)).
    destruct (allocate_pages _ _ _ _) as [[pending n]|e|]; cbn [mbind res_bind]; [|done|done].
    destruct IH as [<- Hfr]. split; [done|]. apply (fresh_cons s next physical); [done|lia|done|done].
Qed.

(** ** Unmapping *)

(** Removing a mapping, and its physical page when nothing else maps it. *)
Definition unmap_page (space : AddressSpaceId) (page : Z) (m : Mapping) s : State Handler :=
  let rest := delete (space, page) (mappings s) in
  set_pages (if bool_decide (map_Exists (fun _ candidate => physical_page candidate = physical_page m) rest)
             then pages s else delete (physical_page m) (pages s)) (set_mappings rest s).

Lemma unmap_page_ok space page m s :
  memory_ok s -> memory_ok (unmap_page space page m s).
Proof.
  intros [Hm Hp Hn Hg Hl]. unfold unmap_page. set (rest := delete _ _). split; simpl; try done.
  - intros sp p m' Hl'. apply lookup_delete_Some in Hl' as Hd. destruct Hd as [_ Hl0].
    destruct (Hm sp p m' Hl0) as (? & ? & ?). split; [done|]. split; [|done].
    case_bool_decide as Hex; [done|]. rewrite lookup_delete_ne; [done|].
    intros E. apply Hex. by exists (sp, p), m'.
  - intros q pg. case_bool_decide; [by apply Hp|]. rewrite lookup_delete_Some. intros [_ Hq]. by eapply Hp.
  - destruct (next_mapping_generation s); [|done]. split; [apply Hg|].
    intros key m' Hk. apply lookup_delete_Some in Hk as [_ Hk]. by eapply (proj2 Hg).
Qed.

(** The virtual pages of [range] are unmapped; a physical page is gone exactly
    when one of them was its last mapping. *)
Record unmapped (space : AddressSpaceId) (range : list Z) s s' : Prop := {
  unmapped_mappings : forall sp p, mappings s' !! (sp, p) =
    if decide (sp = space /\ p ∈ range) then None else mappings s !! (sp, p);
  unmapped_pages : forall q, pages s' !! q = pages s !! q \/
    (pages s' !! q = None /\ (forall key m, mappings s' !! key = Some m -> physical_page m <> q) /\
     exists p m, p ∈ range /\ mappings s !! (space, p) = Some m /\ physical_page m = q);
  unmapped_frame : s' = set_pages (pages s') (set_mappings (mappings s') s) }.

Lemma unmap_pages_run {E} space range : forall s,
  NoDup range -> (forall p, p ∈ range -> is_Some (mappings s !! (space, p))) -> memory_ok s ->
  exists s', @unmap_pages Handler E space range s = (s', Ok tt) /\ unmapped space range s s' /\ memory_ok s'.
Proof.
  induction range as [|page range IH]; intros s Hnd Hall Hok.
  - exists s. split; [done|]. split; [|done]. split; [|by left|by destruct s].
    intros sp p. rewrite decide_False; [done|]. intros [_ Hp]. by apply not_elem_of_nil in Hp.
  - apply NoDup_cons in Hnd as [Hnotin Hnd]. destruct (Hall page ltac:(by left)) as [m Hm].
    cbn [unmap_pages]. rewrite (M_bind_ok _ _ s s s eq_refl). rewrite (M_bind_lift_ok _ m) by (by rewrite Hm).
    erewrite M_bind_ok by reflexivity. fold (unmap_page space page m s).
    set (s1 := unmap_page space page m s).
    assert (forall sp p, mappings s1 !! (sp, p) =
              if decide (sp = space /\ p = page) then None else mappings s !! (sp, p)) as Hs1.
    { intros sp p. unfold s1, unmap_page. simpl. case_decide as D.
      - destruct D as [-> ->]. apply lookup_delete_eq.
      - apply lookup_delete_ne. naive_solver. }
    destruct (IH s1 Hnd) as (s' & Hrun & [Hmp Hpg Hf] & Hok').
    { intros p Hp. rewrite Hs1, decide_False by naive_solver. apply Hall. by right. }
    { by apply unmap_page_ok. }
    exists s'. split; [exact Hrun|]. split; [|done]. split.
    + intros sp p. rewrite Hmp, Hs1. destruct (decide (sp = space /\ p ∈ range)) as [[-> Hp]|Hn].
      * rewrite decide_True; [done|]. split; [done|by right].
      * destruct (decide (sp = space /\ p = page)) as [[-> ->]|Hn'].
        -- rewrite decide_True; [done|]. split; [done|by left].
        -- rewrite decide_False; [done|]. intros [-> [->|?]%elem_of_cons]; tauto.
    + intros q. destruct (Hpg q) as [E1|(Hnone & Hno & p & m' & Hp & Hm' & Hq)].
      * destruct (decide (pages s1 !! q = None)) as [Hn1|]. 2: { left. rewrite E1. unfold s1, unmap_page in *. simpl in *.
          case_bool_decide; [done|]. rewrite lookup_delete_ne; [done|]. intros <-. by rewrite lookup_delete_eq in n. }
        unfold s1, unmap_page in E1, Hn1. simpl in E1, Hn1. case_bool_decide as Hex; [by left|].
        destruct (decide (physical_page m = q)) as [<-|Hne]; [|left; by rewrite E1, lookup_delete_ne].
        right. rewrite E1, Hn1. split; [done|]. split.
        -- intros [sp p] m' Hl Heq. apply Hex. exists (sp, p), m'. split; [|done].
           rewrite Hmp in Hl. case_decide; [done|]. rewrite Hs1 in Hl. case_decide; [done|].
           rewrite lookup_delete_ne; [done|]. naive_solver.
        -- exists page, m. split; [by left|done].
      * right. split; [done|]. split; [done|]. exists p, m'. split; [by right|]. split; [|done].
        rewrite Hs1 in Hm'. by case_decide.
    + rewrite Hf at 1. done.
Qed.

(** ** Resizing *)

(** New pages on unused virtual pages and unused identities. *)
Record fresh_pages (space : AddressSpaceId) (entries : list NewPage) s s' : Prop := {
  fresh_added : added space entries s s';
  fresh_virtual : NoDup (new_virtual <$> entries);
  fresh_physical : NoDup (new_physical <$> entries);
  fresh_unused : forall e, e ∈ entries ->
    mappings s !! (space, new_virtual e) = None /\ pages s !! new_physical e = None }.

(** The entries of a zeroed mapping. *)
Definition zeroed_entry (generation perms : Z) (purp : MemoryMappingPurpose) (entry : Z * Z) : NewPage :=
  (fst entry, {| physical_page := snd entry; mapping_generation := generation; permissions := perms;
                 purpose := purp; attributes := MemoryAttributes.NONE |}, RamPage None 1).

Lemma zeroed_virtual g perms purp pending : new_virtual <$> (zeroed_entry g perms purp <$> pending) = pending.*1.
Proof. rewrite <- list_fmap_compose. by apply list_fmap_ext. Qed.

Lemma zeroed_physical g perms purp pending : new_physical <$> (zeroed_entry g perms purp <$> pending) = pending.*2.
Proof. rewrite <- list_fmap_compose. by apply list_fmap_ext. Qed.

Lemma zeroed_fold space g perms purp pending : forall s,
  foldl (fun s '(page, physical) =>
    set_mappings (<[(space, page) :=
      {| physical_page := physical; mapping_generation := g; permissions := perms; purpose := purp;
         attributes := MemoryAttributes.NONE |}]> (mappings s))
      (set_pages (<[physical := RamPage None 1]> (pages s)) s)) s pending =
  add_pages space (zeroed_entry g perms purp <$> pending) s.
Proof. induction pending as [|[page physical] pending IH]; intros s; [done|]. apply IH. Qed.

(** What a successful resize did. *)
Inductive resized (space : AddressSpaceId) (old_end new_end perms : Z) (purp : MemoryMappingPurpose)
    (kind : MemoryInvalidationKind) s : State Handler -> Prop :=
  | resized_shrunk s1 log' :
      new_end < old_end -> unmapped space (seqZ new_end (old_end - new_end)) s s1 ->
      published s (set_invalidations log' s1) [kind] ->
      resized space old_end new_end perms purp kind s (set_invalidations log' s1)
  | resized_same : new_end = old_end -> resized space old_end new_end perms purp kind s s
  | resized_grown s' g pending :
      old_end < new_end -> pending.*1 = seqZ old_end (new_end - old_end) ->
      fresh_pages space (zeroed_entry g perms purp <$> pending) s s' ->
      published s s' [kind] -> resized space old_end new_end perms purp kind s s'.

Lemma published_set s s' log' kinds :
  published s (set_invalidations log' s') kinds ->
  forall s'', invalidations s'' = log' -> published s s'' kinds.
Proof. intros (h & r & H1 & H2 & H3) s'' <-. by exists h, r. Qed.

(** The publication of zeroed pages, once identities have been found. *)
Lemma zeroed_publish s space range pending next g perms purp :
  memory_ok s -> (forall p, p ∈ range -> 0 <= p < 2 ^ 52 /\ mappings s !! (space, p) = None) -> NoDup range ->
  pending.*1 = range -> fresh_ids s (next_page_id s) pending.*2 next -> next_mapping_generation s = Some g ->
  let s1 := set_next_mapping_generation (res_ok (MappingGeneration.next g)) s in
  let s2 := set_next_page_id next (add_pages space (zeroed_entry g perms purp <$> pending) s1) in
  memory_ok s2 /\ invalidations s2 = invalidations s /\
  fresh_pages space (zeroed_entry g perms purp <$> pending) s s2.
Proof.
  intros Hok Hr Hnd Hp Hf Hg s1 s2. destruct (generation_ok s g Hok Hg) as [Hok1 Hlt].
  assert (forall e, e ∈ zeroed_entry g perms purp <$> pending ->
    exists v ph, (v, ph) ∈ pending /\ e = zeroed_entry g perms purp (v, ph)) as Hent.
  { intros e ([v ph] & -> & Hin)%list_elem_of_fmap. eauto. }
  split; [|split].
  - apply next_page_ok; [split; [|apply (fresh_next _ _ _ _ Hf)]|].
    + pose proof (fresh_next _ _ _ _ Hf). pose proof (ok_next_page s Hok) as [? _]. lia.
    + apply (add_pages_generations space g); [|done|done]. apply Forall_forall. intros e He.
      apply Hent in He as (v & ph & Hin & ->). (split; [|split; [done|split; [done|by split]]]).
      apply Hr. rewrite <- Hp. apply list_elem_of_fmap. by exists (v, ph).
  - unfold s2. simpl. by rewrite add_pages_frame.
  - assert (NoDup (new_virtual <$> (zeroed_entry g perms purp <$> pending))) as Hv by (by rewrite zeroed_virtual, Hp).
    assert (NoDup (new_physical <$> (zeroed_entry g perms purp <$> pending))) as Hph
      by (rewrite zeroed_physical; apply (fresh_distinct _ _ _ _ Hf)).
    split; [|done|done|].
    + destruct (add_pages_added space _ s1 Hv Hph) as [H1 H2 H3 H4]. by split.
    + intros e He. apply Hent in He as (v & ph & Hin & ->). split; simpl.
      * apply Hr. rewrite <- Hp. apply list_elem_of_fmap. by exists (v, ph).
      * apply (fresh_in _ _ _ _ Hf). apply list_elem_of_fmap. by exists (v, ph).
Qed.

Lemma resize_zeroed_mapping_wp can_reserve s space start old_size new_size perms purp :
  memory_ok s -> fits 64 start -> fits 64 old_size -> fits 64 new_size ->
  wp (resize_zeroed_mapping can_reserve space start old_size new_size perms purp)
    (fun _ s' => memory_ok s' /\
       resized space (virtual_page (start + old_size)) (virtual_page (start + new_size)) perms purp
         (Invalidation.Mapping space start (Z.max old_size new_size)) s s')
    (fun _ s' => s' = s) s.
Proof.
  intros Hok Hs Ho Hn. unfold resize_zeroed_mapping.
  pose proof (PageRange_new_spec start old_size Hs Ho) as Hro.
  pose proof (PageRange_new_spec start new_size Hs Hn) as Hrn.
  destruct (PageRange_new start old_size) as [r|] eqn:Er; [|by apply wp_throw].
  destruct (PageRange_new start new_size) as [r'|] eqn:Er'; [|by apply wp_throw].
  assert (virtual_page (start + old_size) = range_end r /\ virtual_page (start + new_size) = range_end r') as [-> ->].
  { unfold PageRange_new in Er, Er'. destruct (_ || _); [done|]. destruct (_ || _); [done|].
    unfold checked_add in *. do 2 case_match; try done. simpl in *. by simplify_eq. }
  destruct Hro as (_ & _ & _ & Hst & _ & Hb & Hmax). destruct Hrn as (_ & _ & _ & Hst' & _ & Hb' & Hmax').
  assert (range_first r' = range_first r) as Hfirst.
  { rewrite Hst in Hst'. unfold page_address in Hst'. change PAGE_SIZE with 4096 in Hst'. lia. }
  wp_step. apply wp_guard_err; [done|intros _]. wp_state. wp_step.
  apply check_pages_wp; [intros page; by repeat case_match| |done]. intros Hold. wp_step.
  apply check_pages_wp; [intros page; by case_bool_decide| |done]. intros Hnew.
  destruct (Z.ltb_spec (range_end r') (range_end r)) as [Hlt|Hge].
  - wp_step. unfold reserve. apply reserve_or_wp; [done| |done]. intros record Hk Hcommit. wp_step.
    destruct (unmap_pages_run (E := MemoryMappingError) space
                (seqZ (range_end r') (range_end r - range_end r')) s) as (s1 & Hrun & Hun & Hok1).
    + apply NoDup_seqZ.
    + intros p Hp%elem_of_seqZ. specialize (Hold p ltac:(apply elem_of_seqZ; lia)).
      by destruct (mappings s !! (space, p)).
    + done.
    + unfold wp. rewrite Hrun.
      destruct (Hcommit MemoryMappingError s1) as (log' & Hc & Hpub); [by rewrite (unmapped_frame _ _ _ _ Hun)|].
      rewrite Hc. rewrite Hk in Hpub. split; [apply log_ok; [exact (published_log _ _ _ Hpub)|done]|].
      by apply resized_shrunk.
  - destruct (Z.eqb_spec (range_end r') (range_end r)) as [Heq|Hne]; [wp_step; split; [done|by apply resized_same]|].
    wp_step. apply wp_guard_err; [done|intros _]. wp_step. apply wp_lift.
    pose proof (allocate_pages_spec s (mapping_error space start MappingResourceExhausted)
                  (seqZ (range_end r) (range_end r' - range_end r)) (next_page_id s) (ok_next_page s Hok)) as Ha.
    destruct (allocate_pages _ _ _ _) as [[pending next]|e|]; [|done|done]. destruct Ha as [Hp Hfresh].
    wp_step. unfold reserve. apply reserve_or_wp; [done| |done]. intros record Hk Hcommit. wp_step.
    apply take_generation_wp; [|done]. intros g Hg. wp_step. wp_step. rewrite zeroed_fold. wp_step. wp_step.
    destruct (zeroed_publish s space (seqZ (range_end r) (range_end r' - range_end r)) pending next g perms purp)
      as (Hok2 & Hi2 & Hfp); [done| |apply NoDup_seqZ|done|done|done|].
    { intros p Hin. pose proof Hin as Hr%elem_of_seqZ. split; [lia|]. specialize (Hnew p Hin).
      case_bool_decide as Hs1; [done|]. by apply eq_None_not_Some. }
    set (s2 := set_next_page_id _ _) in *. unfold wp.
    destruct (Hcommit MemoryMappingError s2 Hi2) as (log' & Hc & Hpub). rewrite Hc, Hk in *.
    split; [apply log_ok; [exact (published_log _ _ _ Hpub)|done]|].
    apply (resized_grown _ _ _ _ _ _ _ _ g pending); [lia|done| |done].
    destruct Hfp as [[H1 H2 H3 H4] Hv Hph Hu]. by split.
Qed.

(** ** Installation *)

(** A request whose page can be installed. *)
Definition install_request_ok (r : SyntheticRamPage) : Prop :=
  fits 64 (request_virtual_address r) /\ bytes_ok (request_bytes r).

Definition request_page (r : SyntheticRamPage) : Z := virtual_page (request_virtual_address r).

Lemma fail_install_returns s stage index address : fail_install_if_requested s stage index address <> Panic.
Proof. unfold fail_install_if_requested. by repeat case_match. Qed.

Lemma install_preflight_spec s space requests : forall index unique,
  match install_preflight s space index unique requests with
  | Ok pages => pages = (request_page <$> requests) /\ NoDup pages /\
      (forall p, p ∈ pages -> (p ∉ unique) /\ mappings s !! (space, p) = None) /\
      Forall (fun r => Z.of_nat (List.length (request_bytes r)) = SYNTHETIC_PAGE_SIZE /\
                       Address.is_aligned_to (request_virtual_address r) PAGE_SIZE = true) requests
  | Err _ => True
  | Panic => False
  end.
Proof.
  induction requests as [|r requests IH]; intros index unique; cbn [install_preflight].
  - split; [done|]. split; [constructor|]. split; [intros p Hp; by apply not_elem_of_nil in Hp|constructor].
  - pose proof (fail_install_returns s Preflight index (request_virtual_address r)) as Hf.
    destruct (fail_install_if_requested _ _ _ _) as [[]|e|]; [|done|done]. cbn [mbind res_bind].
    unfold validate_install_request. destruct (Address.is_aligned_to _ _) eqn:Eal; simpl; [|done].
    destruct (Z.eqb_spec (Z.of_nat (List.length (request_bytes r))) SYNTHETIC_PAGE_SIZE) as [El|]; simpl; [|done].
    case_bool_decide as Eov; simpl; [|done]. case_bool_decide as Ein; simpl; [done|].
    case_bool_decide as Em; [done|]. fold (request_page r) in *.
    specialize (IH (index + 1) ({[request_page r]} ∪ unique)).
    destruct (install_preflight _ _ _ _ _) as [pages|e|]; cbn [mbind res_bind]; [|done|done].
    destruct IH as (-> & Hnd & Hin & Hall). split; [done|]. split; [|split].
    + apply NoDup_cons. split; [|done]. intros Hp. destruct (Hin _ Hp) as [Hn _]. set_solver.
    + intros p [->|Hp]%elem_of_cons; [by split; [|apply eq_None_not_Some]|]. destruct (Hin p Hp). set_solver.
    + by constructor.
Qed.

(** The pending page of a request. *)
Definition pending_for (rv : SyntheticRamPage * Z) (p : PendingPage) : Prop :=
  pending_virtual p = snd rv /\ pending_permissions p = request_permissions (fst rv) /\
  pending_contents p = request_bytes (fst rv).

Lemma install_allocate_spec s requests : forall index next,
  fits 64 next -> Forall (fun rv => Z.of_nat (List.length (request_bytes (fst rv))) = SYNTHETIC_PAGE_SIZE) requests ->
  match install_allocate s index next requests with
  | Ok (pending, next') => Forall2 pending_for requests pending /\
      fresh_ids s next (pending_physical <$> pending) next'
  | Err _ => True
  | Panic => False
  end.
Proof.
  induction requests as [|[r v] requests IH]; intros index next Hn Hall; cbn [install_allocate].
  - split; [constructor|by apply fresh_nil].
  - apply Forall_cons in Hall as [Hl Hall].
    pose proof (fail_install_returns s Allocation index (request_virtual_address r)) as Hf.
    destruct (fail_install_if_requested s Allocation _ _) as [[]|e|]; [|done|done]. cbn [mbind res_bind].
    pose proof (allocate_fresh s next Hn) as Ha.
    destruct (allocate_page_id _ _ _) as [[[physical next']|]|[]|]; [|done|done].
    destruct Ha as (Hb & -> & Hu & _).
    pose proof (fail_install_returns s Initialization index (request_virtual_address r)) as Hf'.
    destruct (fail_install_if_requested s Initialization _ _) as [[]|e|]; [|done|done]. cbn [mbind res_bind].
    simpl in Hl. rewrite (proj2 (Z.eqb_eq _ _) Hl). cbn [negb].
    specialize (IH (index + 1) (physical + 1) ltac:(unfold fits in *; lia) Hall).
    destruct (install_allocate _ _ _ _) as [[pending n]|e|]; cbn [mbind res_bind]; [|done|done].
    destruct IH as [Hp Hfr]. split; [by constructor|]. apply (fresh_cons s next physical); [done|lia|done|done].
Qed.

Lemma install_publication_returns s requests : forall index, install_publication s index requests <> Panic.
Proof.
  induction requests as [|r requests IH]; intros index; [done|]. cbn [install_publication].
  pose proof (fail_install_returns s Publication index (request_virtual_address r)) as Hf.
  destruct (fail_install_if_requested _ _ _ _) as [[]|e|]; [|done|done]. apply IH.
Qed.

Definition install_entry (generation : Z) (p : PendingPage) : NewPage :=
  (pending_virtual p, {| physical_page := pending_physical p; mapping_generation := generation;
     permissions := pending_permissions p; purpose := PurposeNormal; attributes := MemoryAttributes.NONE |},
   RamPage (Some (pending_contents p)) 1).

Lemma publish_pages_run space g pending : forall s,
  NoDup (pending_virtual <$> pending) -> NoDup (pending_physical <$> pending) ->
  (forall p, p ∈ pending -> mappings s !! (space, pending_virtual p) = None /\ pages s !! pending_physical p = None) ->
  publish_pages space g pending s = (add_pages space (install_entry g <$> pending) s, Ok tt).
Proof.
  induction pending as [|p pending IH]; intros s Hv Hp Hu; [done|].
  apply NoDup_cons in Hv as [Hnv Hv]. apply NoDup_cons in Hp as [Hnp Hp].
  destruct (Hu p ltac:(constructor)) as [Hm Hpg]. cbn [publish_pages].
  erewrite M_bind_ok by reflexivity. unfold id. rewrite !bool_decide_eq_true_2 by done. cbn [andb].
  erewrite M_bind_ok by reflexivity. erewrite M_bind_ok by reflexivity.
  rewrite IH; [done|done|done|]. intros q Hq. destruct (Hu q ltac:(by constructor)) as [Hqm Hqp]. simpl.
  rewrite !lookup_insert_ne; [done| |].
  - intros E. apply Hnp. rewrite E. by apply list_elem_of_fmap_2.
  - intros [= E]. apply Hnv. rewrite E. by apply list_elem_of_fmap_2.
Qed.

(** What a successful installation did. *)
Inductive installed (space : AddressSpaceId) (requests : list SyntheticRamPage) s s' : Prop :=
  | installed_intro g pending
      (Hfor : Forall2 (fun r => pending_for (r, request_page r)) requests pending)
      (Hfresh : fresh_pages space (install_entry g <$> pending) s s')
      (Hpub : match requests with
              | [] => s' = s
              | _ => published s s' (map (fun r => Invalidation.Mapping space (request_virtual_address r) PAGE_SIZE)
                                       requests)
              end).

Lemma aligned_page_address a : Address.is_aligned_to a PAGE_SIZE = true -> page_address (virtual_page a) = a.
Proof.
  rewrite page_size_pow, is_aligned_to_spec by lia. intros Ha%Z.eqb_eq.
  unfold page_address, virtual_page. rewrite page_size_pow.
  pose proof (proj2 (Z.div_exact a (2 ^ 12) ltac:(done)) Ha). lia.
Qed.

Lemma pending_virtuals (requests : list SyntheticRamPage) pending :
  Forall2 (fun r => pending_for (r, request_page r)) requests pending ->
  pending_virtual <$> pending = request_page <$> requests.
Proof. induction 1 as [|r p rs ps (Hv & _) _ IH]; [done|]. by rewrite !fmap_cons, Hv, IH. Qed.

Lemma install_fields g (pending : list PendingPage) :
  new_virtual <$> (install_entry g <$> pending) = pending_virtual <$> pending /\
  new_physical <$> (install_entry g <$> pending) = pending_physical <$> pending.
Proof. split; rewrite <- list_fmap_compose; by apply list_fmap_ext. Qed.

(** The publication of installed pages. *)
Lemma install_publish s space requests pending next g :
  memory_ok s -> Forall install_request_ok requests ->
  Forall (fun r => Z.of_nat (List.length (request_bytes r)) = SYNTHETIC_PAGE_SIZE) requests ->
  NoDup (request_page <$> requests) ->
  (forall p, p ∈ request_page <$> requests -> mappings s !! (space, p) = None) ->
  Forall2 (fun r => pending_for (r, request_page r)) requests pending ->
  fresh_ids s (next_page_id s) (pending_physical <$> pending) next -> next_mapping_generation s = Some g ->
  let s1 := set_next_mapping_generation (res_ok (MappingGeneration.next g)) s in
  exists s2, publish_pages space g pending s1 = (s2, Ok tt) /\
    invalidations s2 = invalidations s /\ memory_ok (set_next_page_id next s2) /\
    fresh_pages space (install_entry g <$> pending) s s2.
Proof.
  intros Hok Hreq Hlen Hnd Hun Hfor Hf Hg s1. destruct (generation_ok s g Hok Hg) as [Hok1 Hlt].
  pose proof (pending_virtuals _ _ Hfor) as Hvs. destruct (install_fields g pending) as [Hfv Hfp].
  assert (forall p, p ∈ pending -> mappings s !! (space, pending_virtual p) = None /\
            pages s !! pending_physical p = None) as Hu.
  { intros p Hp. split; [apply Hun; rewrite <- Hvs; by apply list_elem_of_fmap_2|].
    apply (fresh_in _ _ _ _ Hf). by apply list_elem_of_fmap_2. }
  assert (NoDup (pending_virtual <$> pending)) as Hv by (by rewrite Hvs).
  assert (NoDup (pending_physical <$> pending)) as Hp by apply (fresh_distinct _ _ _ _ Hf).
  eexists. split; [by apply publish_pages_run|]. split; [by rewrite add_pages_frame|]. split.
  - apply next_page_ok.
    { pose proof (fresh_next _ _ _ _ Hf). pose proof (ok_next_page s Hok) as [? _]. split; lia. }
    apply (add_pages_generations space g); [|done|done]. apply Forall_fmap, Forall_forall. intros p Hin.
    destruct (list_elem_of_lookup_1 _ _ Hin) as [i Hi].
    destruct (Forall2_lookup_r _ _ _ _ _ Hfor Hi) as (r & Hr & Hpv & _ & Hpc).
    pose proof (Forall_lookup_1 _ _ _ _ Hreq Hr) as [Ha Hb]. pose proof (Forall_lookup_1 _ _ _ _ Hlen Hr) as Hl.
    simpl in Hpv, Hpc. split; [|split; [done|split; [done|]]].
    + change (0 <= pending_virtual p < 2 ^ 52). rewrite Hpv. by apply virtual_page_bound.
    + unfold new_page. simpl. rewrite Hpc. by split.
  - split; [|by rewrite Hfv|by rewrite Hfp|].
    + destruct (add_pages_added space (install_entry g <$> pending) s1) as [H1 H2 H3 H4];
        [by rewrite Hfv|by rewrite Hfp|]. by split.
    + intros e (p & -> & Hin)%list_elem_of_fmap. by apply Hu.
Qed.

Lemma request_kinds space requests :
  Forall (fun r => Address.is_aligned_to (request_virtual_address r) PAGE_SIZE = true) requests ->
  map (fun page => Invalidation.Mapping space (page_address page) PAGE_SIZE) (request_page <$> requests) =
  map (fun r => Invalidation.Mapping space (request_virtual_address r) PAGE_SIZE) requests.
Proof.
  induction 1 as [|r rs Hr _ IH]; [done|]. simpl. f_equal; [|done]. unfold request_page.
  by rewrite aligned_page_address.
Qed.

Lemma fresh_pages_nil space s : fresh_pages space [] s s.
Proof.
  split; [split; try done|constructor|constructor|]; intros e He; by apply not_elem_of_nil in He.
Qed.

Lemma install_nothing can_reserve s space :
  memory_ok s ->
  wp (install_ram_pages_atomic can_reserve space [])
    (fun _ s' => memory_ok s' /\ installed space [] s s') (fun _ s' => s' = s) s.
Proof.
  intros Hok. unfold install_ram_pages_atomic. wp_state. cbn [install_preflight zip zip_with install_allocate
    install_publication map]. wp_step. apply wp_lift. wp_step. apply wp_lift. wp_step. apply wp_lift.
  wp_step. apply wp_guard_err; [done|intros _]. wp_step. apply wp_ret. wp_step. apply wp_ret.
  cbn [publish_pages]. wp_step. apply wp_ret. wp_step. wp_step. apply wp_ret.
  replace (set_next_page_id (next_page_id s) s) with s by (by destruct s). split; [done|].
  apply (installed_intro _ _ _ _ 0 []); [constructor|apply fresh_pages_nil|done].
Qed.

Lemma install_ram_pages_wp can_reserve s space requests :
  memory_ok s -> Forall install_request_ok requests ->
  wp (install_ram_pages_atomic can_reserve space requests)
    (fun _ s' => memory_ok s' /\ installed space requests s s') (fun _ s' => s' = s) s.
Proof.
  intros Hok Hreq. destruct requests as [|r0 rs] eqn:Er; [by apply install_nothing|].
  rewrite <- Er in *. assert (requests <> []) as Hne by (by rewrite Er).
  unfold install_ram_pages_atomic. wp_state. wp_step. apply wp_lift.
  pose proof (install_preflight_spec s space requests 0 ∅) as Hpre.
  destruct (install_preflight _ _ _ _ _) as [vs|e|]; [|done|done]. destruct Hpre as (-> & Hnd & Hun & Hall).
  apply Forall_and in Hall as [Hlen Hal].
  assert (Forall (fun rv => Z.of_nat (List.length (request_bytes (fst rv))) = SYNTHETIC_PAGE_SIZE)
            (zip requests (request_page <$> requests))) as Hlenz.
  { clear -Hlen. induction Hlen; simpl; by constructor. }
  wp_step. apply wp_lift.
  pose proof (install_allocate_spec s _ 0 (next_page_id s) (ok_next_page s Hok) Hlenz) as Ha.
  destruct (install_allocate _ _ _ _) as [[pending next]|e|]; [|done|done]. destruct Ha as [Hfor Hfr].
  assert (Forall2 (fun r => pending_for (r, request_page r)) requests pending) as Hfor'.
  { clear -Hfor. revert pending Hfor. induction requests as [|r rs IH]; intros pending Hf; inv Hf; constructor; auto. }
  wp_step. apply wp_lift. pose proof (install_publication_returns s requests 0) as Hpb.
  destruct (install_publication _ _ _) as [[]|e|]; [|done|done].
  wp_step. apply wp_guard_err; [done|intros _]. rewrite request_kinds by done. wp_step.
  destruct (map _ requests) as [|k ks] eqn:Ek; [by subst requests|]. rewrite <- Ek.
  wp_step. unfold reserve_many. eapply reserve_many_or_wp; [done| |done]. intros batch Hbatch. wp_step. wp_step.
  destruct pending as [|p0 ps] eqn:Ep; [by subst requests; inv Hfor'|]. rewrite <- Ep in *.
  apply take_generation_wp; [|done]. intros g Hg.
  destruct (install_publish s space requests pending next g Hok Hreq Hlen Hnd (fun p Hp => proj2 (Hun p Hp))
              Hfor' Hfr Hg) as (s2 & Hrun & Hi2 & Hok2 & Hfp).
  wp_step. unfold wp at 1. rewrite Hrun. wp_step. wp_step. unfold wp.
  destruct (Hbatch SyntheticInstallError (set_next_page_id next s2) Hi2) as (log' & Hc & Hpub). rewrite Hc.
  split; [apply log_ok; [exact (published_log _ _ _ Hpub)|done]|].
  apply (installed_intro _ _ _ _ g pending); [done| |by subst requests].
  destruct Hfp as [[H1 H2 H3 H4] Hv Hph Hu]. by split.
Qed.

(** ** What programs see *)

(** An address whose mapping and physical page are kept shows the same byte. *)
Lemma byte_at_kept s s' space a :
  mapping_at s' space a = mapping_at s space a ->
  (forall m, mapping_at s space a = Some m -> pages s' !! physical_page m = pages s !! physical_page m) ->
  byte_at s' space a = byte_at s space a.
Proof.
  intros Hm Hp. unfold byte_at. rewrite Hm. destruct (mapping_at s space a) as [m|]; [|done]. simpl.
  unfold cell. by rewrite Hp.
Qed.

Lemma fresh_pages_kept space entries s s' sp a :
  memory_ok s -> fresh_pages space entries s s' ->
  ~ (sp = space /\ virtual_page a ∈ new_virtual <$> entries) -> byte_at s' sp a = byte_at s sp a.
Proof.
  intros Hok [[_ _ Ho Hp] _ _ Hu] Hn. apply byte_at_kept; [by apply Ho|]. intros m Hm.
  apply Hp. intros (e & He & Hin)%list_elem_of_fmap. destruct (Hu e Hin) as [_ Hnone].
  destruct (ok_mapped s Hok _ _ _ Hm) as (_ & [pg Hpg] & _). congruence.
Qed.

Lemma fresh_pages_byte space entries s s' e contents g a :
  fresh_pages space entries s s' -> e ∈ entries -> new_page e = RamPage contents g ->
  virtual_page a = new_virtual e ->
  byte_at s' space a = page_bytes contents !! Z.to_nat (page_offset a) /\
  mapping_at s' space a = Some (new_mapping e).
Proof.
  intros [[Hm Hp _ _] _ _ _] Hin Hpg Hv. unfold byte_at, mapping_at. rewrite Hv, (Hm e Hin). simpl.
  unfold cell. fold (new_physical e). by rewrite (Hp e Hin), Hpg.
Qed.

(** C31: installation is atomic.  [install_ram_pages_atomic] never panics.  A
    failed installation, injected failures included, leaves the memory exactly
    as it was.  A successful one shows, at every requested page, exactly the
    requested bytes with the requested permissions, backed by fresh physical
    pages; every other address of every address space shows what it showed
    before; and the memory stays well formed. *)
Theorem install_ram_pages_exact can_reserve s space requests :
  memory_ok s -> Forall install_request_ok requests ->
  match install_ram_pages_atomic can_reserve space requests s with
  | (s', Ok _) => memory_ok s' /\
      (forall r a, r ∈ requests -> virtual_page a = virtual_page (request_virtual_address r) ->
         byte_at s' space a = request_bytes r !! Z.to_nat (page_offset a) /\
         exists m, mapping_at s' space a = Some m /\ permissions m = request_permissions r /\
           pages s !! physical_page m = None) /\
      (forall sp a, ~ (sp = space /\ virtual_page a ∈ request_page <$> requests) ->
         byte_at s' sp a = byte_at s sp a)
  | (s', Err _) => s' = s
  | (_, Panic) => False
  end.
Proof.
  intros Hok Hreq. pose proof (install_ram_pages_wp can_reserve s space requests Hok Hreq) as Hw. unfold wp in Hw.
  destruct (install_ram_pages_atomic _ _ _ _) as [s' [a|e|]]; [|done|done].
  destruct Hw as [Hok' [g pending Hfor Hfresh _]]. split; [done|].
  destruct (install_fields g pending) as [Hfv _]. rewrite (pending_virtuals _ _ Hfor) in Hfv. split.
  - intros r b Hr Hv. destruct (list_elem_of_lookup_1 _ _ Hr) as [i Hi].
    destruct (Forall2_lookup_l _ _ _ _ _ Hfor Hi) as (p & Hp & Hpv & Hpp & Hpc). simpl in Hpv, Hpp, Hpc.
    assert (install_entry g p ∈ install_entry g <$> pending) as Hin
      by (apply list_elem_of_fmap_2; by eapply list_elem_of_lookup_2).
    destruct (fresh_pages_byte space _ s s' _ (Some (pending_contents p)) 1 b Hfresh Hin eq_refl) as [Hb Hm];
      [by rewrite Hv|]. simpl in Hb. rewrite Hpc in Hb. split; [done|].
    exists (new_mapping (install_entry g p)). split; [done|]. split; [done|].
    apply (fresh_unused _ _ _ _ Hfresh _ Hin).
  - intros sp b Hn. apply (fresh_pages_kept space (install_entry g <$> pending)); [done|done|]. by rewrite Hfv.
Qed.

(** Pages and addresses of an aligned bound. *)
Lemma page_below bound a : bound mod PAGE_SIZE = 0 -> (virtual_page a < virtual_page bound <-> a < bound).
Proof.
  intros Hb. unfold virtual_page. change PAGE_SIZE with 4096 in *.
  pose proof (Z.div_mod a 4096 ltac:(done)). pose proof (Z.mod_pos_bound a 4096 ltac:(done)).
  pose proof (Z.div_mod bound 4096 ltac:(done)). lia.
Qed.

Lemma zero_page_byte a : page_bytes None !! Z.to_nat (page_offset a) = Some 0.
Proof.
  pose proof (page_offset_bound a). simpl. unfold zero_page. apply lookup_replicate_2. lia.
Qed.

(** A page-aligned window holds exactly the addresses whose page lies between its end pages. *)
Lemma aligned_page_window b e :
  b mod PAGE_SIZE = 0 -> e mod PAGE_SIZE = 0 ->
  forall a, virtual_page b <= virtual_page a < virtual_page e <-> b <= a < e.
Proof. intros Hb He a. pose proof (page_below _ a Hb). pose proof (page_below _ a He). lia. Qed.

(** A resize that succeeds was asked for page-aligned old and new ends. *)
Lemma resize_zeroed_aligned can_reserve s space start old_size new_size perms purp :
  fits 64 start -> fits 64 old_size -> fits 64 new_size ->
  (exists u, snd (resize_zeroed_mapping can_reserve space start old_size new_size perms purp s) = Ok u) ->
  (start + old_size) mod PAGE_SIZE = 0 /\ (start + new_size) mod PAGE_SIZE = 0.
Proof.
  intros Hs Ho Hn [u Erun]. unfold resize_zeroed_mapping in Erun.
  pose proof (PageRange_new_spec start old_size Hs Ho) as H1.
  pose proof (PageRange_new_spec start new_size Hs Hn) as H2.
  destruct (PageRange_new start old_size); [|done]. destruct (PageRange_new start new_size); [|done].
  destruct H1 as (H1 & H1' & _), H2 as (_ & H2' & _). change PAGE_SIZE with 4096 in *.
  by rewrite (Zplus_mod start old_size), (Zplus_mod start new_size), H1, H1', H2'.
Qed.

(** Resizing a zeroed mapping.  [resize_zeroed_mapping] never panics, and
    a rejected request changes nothing.  On success the addresses between the
    two sizes, and only those, change: when the mapping grows they become
    zeroed RAM with the requested permissions and purpose, when it shrinks
    they become unmapped.  Every other address of every address space shows
    what it showed, even where it shares physical pages with the released
    part. *)
Theorem resize_zeroed_exact can_reserve s space start old_size new_size perms purp :
  memory_ok s -> fits 64 start -> fits 64 old_size -> fits 64 new_size ->
  let changed a := start + Z.min old_size new_size <= a < start + Z.max old_size new_size in
  match resize_zeroed_mapping can_reserve space start old_size new_size perms purp s with
  | (s', Ok _) => memory_ok s' /\
      (forall sp a, ~ (sp = space /\ changed a) -> byte_at s' sp a = byte_at s sp a) /\
      (forall a, changed a ->
         if new_size <? old_size then mapping_at s' space a = None
         else byte_at s' space a = Some 0 /\ exists m, mapping_at s' space a = Some m /\
                permissions m = perms /\ purpose m = purp)
  | (s', Err _) => s' = s
  | (_, Panic) => False
  end.
Proof.
  intros Hok Hs Ho Hn changed.
  pose proof (resize_zeroed_mapping_wp can_reserve s space start old_size new_size perms purp Hok Hs Ho Hn) as Hw.
  unfold wp in Hw.
  destruct (resize_zeroed_mapping _ _ _ _ _ _ _ _) as [s' [u|e|]] eqn:Erun; [|done|done].
  destruct (resize_zeroed_aligned can_reserve s space start old_size new_size perms purp) as [Ha1 Ha2];
    [done|done|done|rewrite Erun; by eexists|].
  pose proof (aligned_page_window _ _ Ha1 Ha2) as Hgrow. pose proof (aligned_page_window _ _ Ha2 Ha1) as Hshrink.
  pose proof (page_below _ (start + new_size) Ha1) as Hcmp. pose proof (page_below _ (start + old_size) Ha2) as Hcmp'.
  destruct Hw as [Hok' Hr]. split; [done|]. subst changed. destruct Hr as [s1 log' Hlt Hun Hpub|Heq|s' g pending Hlt Hp Hf Hpub].
  - rewrite (proj2 (Z.ltb_lt new_size old_size)) by lia. split.
    + intros sp a Hnot. change (byte_at s1 sp a = byte_at s sp a).
      assert (mapping_at s1 sp a = mapping_at s sp a) as Hm.
      { unfold mapping_at. rewrite (unmapped_mappings _ _ _ _ Hun), decide_False; [done|].
        intros [-> Hin%elem_of_seqZ]. apply Hnot. split; [done|]. pose proof (Hshrink a). lia. }
      apply byte_at_kept; [done|]. intros m Hm0.
      destruct (unmapped_pages _ _ _ _ Hun (physical_page m)) as [?|(_ & Hno & _)]; [done|].
      rewrite <- Hm in Hm0. by destruct (Hno _ _ Hm0).
    + intros a Ha. change (mapping_at s1 space a = None). unfold mapping_at.
      rewrite (unmapped_mappings _ _ _ _ Hun), decide_True; [done|]. split; [done|].
      apply elem_of_seqZ. pose proof (Hshrink a). lia.
  - assert (old_size = new_size) as -> by lia. split; [done|]. intros a Ha. lia.
  - rewrite (proj2 (Z.ltb_ge new_size old_size)) by lia. split.
    + intros sp a Hnot. apply (fresh_pages_kept space (zeroed_entry g perms purp <$> pending)); [done|done|].
      rewrite zeroed_virtual, Hp. intros [-> Hin%elem_of_seqZ]. apply Hnot. split; [done|].
      pose proof (Hgrow a). lia.
    + intros a Ha. assert (virtual_page a ∈ pending.*1) as Hin.
      { rewrite Hp. apply elem_of_seqZ. pose proof (Hgrow a). lia. }
      apply list_elem_of_fmap in Hin as ([v ph] & Hv & Hin). simpl in Hv.
      destruct (fresh_pages_byte space _ s s' (zeroed_entry g perms purp (v, ph)) None 1 a Hf) as [Hb Hm];
        [by apply list_elem_of_fmap_2|done|done|]. rewrite zero_page_byte in Hb. split; [done|].
      eexists. split; [exact Hm|]. done.
Qed.
End Install.
