(* ===== verification/Interp.v ===== *)
(** * Interpreter step results and register access

    [crates/cpu-interpreter/src/interpreter/mod.rs] (steps and errors),
    [interpreter/a64/mod.rs] (register access shared by the families),
    [crates/cpu/src/exception.rs], the exits of [crates/cpu/src/execution.rs]
    that instructions raise, and the disassembly text of
    [crates/cpu/src/decode/table.rs] that an unsupported instruction carries.

    An instruction handler takes [&mut A64State]: it is a computation in
    [M A64State InterpreterError].  [expect], [unreachable!] and array accesses
    are [Panic]. *)

From Stdlib Require Import ZArith Lia Bool String.
From stdpp Require Import base numbers list strings pretty vector.
From S2P Require Import Prelude RustInt DecodeTable DecodeBase A64State A64Semantics MemoryContracts.
Local Open Scope string_scope.
Local Open Scope Z_scope.

Inductive ExceptionKind : Set :=
  | SupervisorCallException | Breakpoint | UndefinedInstruction | InstructionAbort
  | DataAbort | AlignmentFault | FloatingPoint | SystemRegisterTrap.

Inductive SchedulerRequest : Set := Yield | WaitForEvent | WaitForInterrupt | SendEvent.

Inductive CpuExit : Type :=
  | FetchFault (fault : InstructionFetchFault)
  | BudgetExhausted
  | Safepoint
  | PendingEvent (mask : Z)
  | Scheduled (source : LocationDescriptor) (request : SchedulerRequest)
  | DataFault (source : LocationDescriptor) (fault : DataAccessFault)
  | LoaderReturn (source : LocationDescriptor) (result_code : Z)
  | ArchitecturalException (source : LocationDescriptor) (kind : ExceptionKind)
      (syndrome : option Z)
  | SupervisorCall (source : LocationDescriptor) (immediate : Z).

Inductive InstructionStep : Type := Continue | Exit (exit : CpuExit).

Definition step_architectural_exception (source : LocationDescriptor) (kind : ExceptionKind)
    (syndrome : option Z) : InstructionStep :=
  Exit (ArchitecturalException source kind syndrome).

Definition step_supervisor_call (source : LocationDescriptor) (immediate : Z) : InstructionStep :=
  Exit (SupervisorCall source immediate).

(** The exits an instruction can raise itself; the others are the loop's. *)
Definition instruction_exit (exit : CpuExit) : Prop :=
  match exit with
  | Scheduled _ _ | DataFault _ _ | ArchitecturalException _ _ _ | SupervisorCall _ _ => True
  | _ => False
  end.

Definition step_ok (step : InstructionStep) : Prop :=
  match step with Continue => True | Exit exit => instruction_exit exit end.

Definition step_data_fault (source : LocationDescriptor) (fault : DataAccessFault) : InstructionStep :=
  Exit (DataFault source fault).

Definition step_scheduled (source : LocationDescriptor) (request : SchedulerRequest) : InstructionStep :=
  Exit (Scheduled source request).

Inductive InterpreterError : Type :=
  | UnsupportedInstruction (source : LocationDescriptor) (encoding : Z) (disassembly : string)
      (coverage : Z)
  | InvalidInstructionStream (source : LocationDescriptor) (encoding : Z) (reason : string)
  | DirectMemory (source : LocationDescriptor) (detail : string).

(** ** Disassembly text *)

Definition operand_name (id : OperandId) : string :=
  match id with
  | Destination => "dst" | FirstSource => "src1" | SecondSource => "src2"
  | ImmediateId => "imm" | ConditionId => "cond"
  end.

Definition fmt_operand (id : OperandId) (value : OperandValue) : string :=
  match value with
  | UnsignedValue value => operand_name id +:+ "=#" +:+ pretty value
  | SignedValue value => operand_name id +:+ "=#" +:+ pretty value
  | RegisterValue class index =>
      let prefix := match class with A64General => "x" end in
      operand_name id +:+ "=" +:+ prefix +:+ pretty index
  end.

Definition fmt_operands (ops : DecodedOperands) : string :=
  String.concat "" (imap (fun index '(id, value) =>
    (match index with O => " " | S _ => ", " end) +:+ fmt_operand id value) ops).

Definition fmt_disassembly (opcode : DecodedOpcode) : res Empty_set string :=
  operands ← extract_operands (opcode_pattern opcode) (opcode_bits opcode);
  Ok (pattern_name (opcode_pattern opcode) +:+ fmt_operands operands).

(** [Err(unsupported(decoded))]. *)
Definition unsupported (decoded : DecodedInstruction) : res Empty_set InterpreterError :=
  disassembly ← fmt_disassembly (instruction decoded);
  Ok (UnsupportedInstruction (location decoded) (encoding decoded) disassembly
        (coverage_id (opcode_pattern (instruction decoded)))).

Abbreviation Interp := (M A64State InterpreterError).

Definition throw_unsupported {A} (decoded : DecodedInstruction) : Interp A :=
  match unsupported decoded with
  | Ok e => throw e
  | _ => lift Panic
  end.

(** ** Register access *)

Definition advance {E} : M A64State E unit := modify (fun st => set_pc (wrapping_add 64 (st_pc st) 4) st).

Definition zero_register (index : Z) : A64Register :=
  from_option General Zero (A64GeneralRegister_new index).

Definition stack_pointer_register (index : Z) : A64Register :=
  from_option General StackPointer (A64GeneralRegister_new index).

Definition register (index : Z) (register31_is_sp : bool) : A64Register :=
  if register31_is_sp then stack_pointer_register index else zero_register index.

Definition read (st : A64State) (index width : Z) (register31_is_sp : bool) : Z :=
  let register := register index register31_is_sp in
  if width =? 64 then read_x st register else read_w st register.

Definition write {E} (index width : Z) (register31_is_sp : bool) (value : Z) : M A64State E unit :=
  let register := register index register31_is_sp in
  modify (if width =? 64 then write_x register value else write_w register (wrap 32 value)).

Definition register_offset_address (st : A64State) (base_register offset_register option_field : Z)
    (scaled : bool) (scale : Z) : option Z :=
  if Z.land option_field 2 =? 0 then None
  else
    let raw := read st offset_register 64 false in
    let source_width := if Z.land option_field 1 =? 0 then 32 else 64 in
    let offset := if source_width =? 32 then wrap 32 raw else raw in
    let offset := if negb (Z.land option_field 4 =? 0)
                  then wrap 64 (signed_immediate offset source_width) else offset in
    let offset := if scaled then shl_w 64 offset (scale mod 64) else offset in
    Some (wrapping_add 64 (read st base_register 64 true) offset).

(** ** What a register holds and what a write changes *)

Lemma read_fits st i w sp :
  w = 32 \/ w = 64 -> state_wf st -> fits w (read st i w sp).
Proof.
  intros [-> | ->] Hwf; unfold read; simpl; [by apply wrap_fits|by apply read_x_fits].
Qed.

(** A write stores the low [w] bits in the selected register. *)
Lemma write_spec {E} w i sp v st :
  w = 32 \/ w = 64 -> fits 64 v ->
  @write E i w sp v st = (write_x (register i sp) (wrap w v) st, Ok tt).
Proof.
  intros [-> | ->] Hv; unfold write, modify; simpl; [done|]. by rewrite wrap_small.
Qed.

Lemma register_31 sp : register 31 sp = if sp then StackPointer else Zero.
Proof. by destruct sp. Qed.

Lemma register_general i sp :
  0 <= i < 31 -> exists r, register i sp = General r /\ register_index r = i.
Proof.
  intros Hi. destruct (A64GeneralRegister_new i) as [r|] eqn:E; [|apply general_new in E; lia].
  exists r. split; [|apply general_new_index in E; [done|lia]].
  unfold register, stack_pointer_register, zero_register. by rewrite E; destruct sp.
Qed.

(** An instruction at 0x1000, for examples. *)
Definition demo_opcode : DecodedOpcode :=
  {| opcode_pattern := pattern "test" 0 0 1 0 []; opcode_bits := 0 |}.
Definition demo_decoded : DecodedInstruction :=
  {| location := {| location_pc := 0x1000; profile_id := 1 |}; encoding := 0;
     instruction := demo_opcode |}.
