(* ===== verification/InterpInteger.v ===== *)
(** * Integer instructions: [crates/cpu-interpreter/src/interpreter/a64/integer.rs]

    One definition per handler; [execute] runs the handler and advances the
    program counter.  A handler returns [false] for an operand combination it
    does not implement. *)

From Stdlib Require Import ZArith Lia Bool.
From stdpp Require Import base numbers list vector.
From S2P Require Import Prelude RustInt Bits Arithmetic Conditions Shifts Immediate DecodeTable.
From S2P Require Import DecodeBase A64State A64Semantics Interp.
Import DecodeBase.Integer.

Definition width (fields : Operands) : Z := if width_64 fields then 64 else 32.

Definition bit_width (fields : Operands) : res InterpreterError BitWidth :=
  expect_ok (BitWidth_new (width fields)).

Definition mask (fields : Operands) : Z := if width_64 fields then 2 ^ 64 - 1 else 2 ^ 32 - 1.

Definition set_arithmetic_flags (result : Z) (carry overflow : bool) (bits : Z) : Interp unit :=
  let sign := shl_w 64 1 (bits - 1) in
  let packed :=
    Z.lor (Z.lor (Z.lor (if negb (Z.land result sign =? 0) then Nzcv.N else 0)
                        (if result =? 0 then Nzcv.Z_ else 0))
                 (if carry then Nzcv.C else 0))
          (if overflow then Nzcv.V else 0) in
  modify (set_nzcv (Nzcv.from_bits packed)).

Definition set_logical_flags (result bits : Z) : Interp unit :=
  let sign := shl_w 64 1 (bits - 1) in
  modify (set_nzcv (Nzcv.from_bits
    (Z.lor (if negb (Z.land result sign =? 0) then Nzcv.N else 0)
           (if result =? 0 then Nzcv.Z_ else 0)))).

(** [u8::from(fields.subtract) * 2 + u8::from(fields.set_flags)]. *)
Definition opcode (fields : Operands) : Z :=
  Z.b2z (subtract fields) * 2 + Z.b2z (set_flags fields).

Definition move_wide (fields : Operands) : Interp bool :=
  let bits := width fields in
  let halfword := opcode_2 fields in
  if (bits =? 32) && (2 <=? halfword) then mret false
  else
    let shift := halfword * 16 in
    let immediate := shl_w 64 (immediate_16 fields) shift in
    st ← gets id;
    let value :=
      match opcode fields with
      | 0 => Some (Z.land (not_w 64 immediate) (mask fields))
      | 2 => Some immediate
      | 3 =>
          let old := read st (rd fields) bits false in
          Some (Z.lor (Z.land old (not_w 64 (shl_w 64 0xffff shift))) immediate)
      | _ => None
      end in
    match value with
    | None => mret false
    | Some value => _ ← write (rd fields) bits false value; mret true
    end.

Definition apply_add_sub (fields : Operands) (lhs rhs : Z) (carry : bool) : Interp unit :=
  bit_width ← lift (bit_width fields);
  let result :=
    if subtract fields then subtract_with_carry lhs rhs carry bit_width
    else add_with_carry lhs rhs carry bit_width in
  let value := wrap 64 (Arithmetic.result result) in
  _ ← write (rd fields) (width fields) (negb (set_flags fields) && (rd fields =? 31)) value;
  if set_flags fields then
    set_arithmetic_flags value (carry_out result) (overflow result) (width fields)
  else mret tt.

Definition add_sub_immediate (fields : Operands) : Interp bool :=
  st ← gets id;
  let lhs := read st (rn fields) (width fields) true in
  let rhs := shl_w 64 (immediate_12 fields) (if n fields then 12 else 0) in
  _ ← apply_add_sub fields lhs rhs (subtract fields);
  mret true.

Definition shifted (value : Z) (fields : Operands) (allow_rotate : bool) :
    res InterpreterError (option Z) :=
  if (width fields =? 32) && (32 <=? shift_amount fields) then Ok None
  else
    match A64Semantics.shift_kind (shift_kind fields) allow_rotate with
    | None => Ok None
    | Some kind =>
        bit_width ← bit_width fields;
        shifted ← expect_ok (a64_shift_with_carry value bit_width kind (shift_amount fields) false);
        Ok (Some (wrap 64 (shift_result shifted)))
    end.

Definition add_sub_shifted (fields : Operands) : Interp bool :=
  st ← gets id;
  rhs ← lift (shifted (read st (rm fields) (width fields) false) fields false);
  match rhs with
  | None => mret false
  | Some rhs =>
      let lhs := read st (rn fields) (width fields) false in
      _ ← apply_add_sub fields lhs rhs (subtract fields);
      mret true
  end.

Definition extend_source_width (option_field : Z) : res InterpreterError Z :=
  match Z.land option_field 3 with
  | 0 => Ok 8 | 1 => Ok 16 | 2 => Ok 32 | 3 => Ok 64 | _ => Panic
  end.

Definition extend_register (value option_field shift destination_width : Z) :
    res InterpreterError (option Z) :=
  if (4 <? shift) || (7 <? option_field) then Ok None
  else
    source_width ← extend_source_width option_field;
    if (source_width =? 64) && (destination_width =? 32) then Ok None
    else
      let source_mask :=
        if source_width =? 64 then 2 ^ 64 - 1 else shl_w 64 1 source_width - 1 in
      let truncated := Z.land value source_mask in
      let extended :=
        if (Z.land option_field 4 =? 0) || (source_width =? 64) then truncated
        else wrap 64 (signed_immediate truncated source_width) in
      Ok (Some (Z.land (shl_w 64 extended shift)
                  (if destination_width =? 64 then 2 ^ 64 - 1 else 2 ^ 32 - 1))).

Definition add_sub_extended (fields : Operands) : Interp bool :=
  st ← gets id;
  let bits := width fields in
  let rm := read st (rm fields) bits false in
  rhs ← lift (extend_register rm (extension fields) (small_shift fields) bits);
  match rhs with
  | None => mret false
  | Some rhs =>
      let lhs := read st (rn fields) bits true in
      _ ← apply_add_sub fields lhs rhs (subtract fields);
      mret true
  end.

Definition add_sub_carry (fields : Operands) : Interp bool :=
  st ← gets id;
  let lhs := read st (rn fields) (width fields) false in
  let rhs := read st (rm fields) (width fields) false in
  _ ← apply_add_sub fields lhs rhs (Nzcv.carry (st_nzcv st));
  mret true.

Definition logical (opcode lhs rhs : Z) : res InterpreterError Z :=
  match opcode with
  | 0 | 3 => Ok (Z.land lhs rhs)
  | 1 => Ok (Z.lor lhs rhs)
  | 2 => Ok (Z.lxor lhs rhs)
  | _ => Panic
  end.

(** The shared tail of the two logical handlers. *)
Definition logical_result (fields : Operands) (rhs : Z) : Interp bool :=
  st ← gets id;
  let bits := width fields in
  value ← lift (logical (opcode fields) (read st (rn fields) bits false) rhs);
  let result := Z.land value (mask fields) in
  _ ← write (rd fields) bits false result;
  _ ← (if opcode fields =? 3 then set_logical_flags result bits else mret tt);
  mret true.

Definition logical_immediate (fields : Operands) : Interp bool :=
  match decode_a64_logical_immediate (n fields) (immediate_6_high fields) (shift_amount fields)
          (width fields) with
  | Err _ => mret false
  | Panic => lift Panic
  | Ok immediate => logical_result fields immediate
  end.

Definition logical_shifted (fields : Operands) : Interp bool :=
  st ← gets id;
  let bits := width fields in
  rhs ← lift (shifted (read st (rm fields) bits false) fields true);
  match rhs with
  | None => mret false
  | Some rhs =>
      let rhs := if invert fields then Z.land (not_w 64 rhs) (mask fields) else rhs in
      logical_result fields rhs
  end.

Definition bitfield (fields : Operands) : Interp bool :=
  let bits := width fields in
  if negb (Bool.eqb (n fields) (width_64 fields)) ||
     (negb (width_64 fields) && subtract_product fields) then mret false
  else if opcode fields =? 3 then mret false
  else
    match decode_a64_bit_masks (n fields) (immediate_6_high fields) (shift_amount fields) bits
            false with
    | Err _ => mret false
    | Panic => lift Panic
    | Ok masks =>
        st ← gets id;
        let source := read st (rn fields) bits false in
        let destination := read st (rd fields) bits false in
        bit_width ← lift (bit_width fields);
        let rotated := wrap 64 (rotate_right source bit_width (immediate_6_high fields)) in
        let bottom :=
          if opcode fields =? 1 then
            Z.lor (Z.land destination (not_w 64 (write_mask masks)))
                  (Z.land rotated (write_mask masks))
          else Z.land rotated (write_mask masks) in
        let top :=
          if (opcode fields =? 0) &&
             negb (Z.land source (shl_w 64 1 (shift_amount fields)) =? 0) then mask fields
          else if opcode fields =? 1 then destination
          else 0 in
        let result :=
          Z.land (Z.lor (Z.land top (not_w 64 (test_mask masks)))
                        (Z.land bottom (test_mask masks))) (mask fields) in
        _ ← write (rd fields) bits false result;
        mret true
    end.

Definition extract (fields : Operands) : Interp bool :=
  let bits := width fields in
  let lsb := shift_amount fields in
  if negb (Bool.eqb (n fields) (width_64 fields)) || ((bits =? 32) && (32 <=? lsb))
  then mret false
  else
    st ← gets id;
    let low := read st (rm fields) bits false in
    let high := read st (rn fields) bits false in
    let result :=
      Z.land (if lsb =? 0 then low
              else Z.lor (Z.shiftr low lsb) (shl_w 64 high (bits - lsb))) (mask fields) in
    _ ← write (rd fields) bits false result;
    mret true.

Definition signed_divide (lhs rhs bits : Z) : Z :=
  if bits =? 32 then
    let lhs := as_signed 32 lhs in
    let rhs := as_signed 32 rhs in
    if rhs =? 0 then 0 else wrap 32 (Z.quot lhs rhs)
  else
    let lhs := as_signed 64 lhs in
    let rhs := as_signed 64 rhs in
    if rhs =? 0 then 0 else wrap 64 (Z.quot lhs rhs).

Definition arithmetic_shift_right (value amount bits : Z) : Z :=
  if bits =? 32 then wrap 32 (Z.shiftr (as_signed 32 value) amount)
  else wrap 64 (Z.shiftr (as_signed 64 value) amount).

Definition two_source (fields : Operands) : Interp bool :=
  st ← gets id;
  let bits := width fields in
  let lhs := read st (rn fields) bits false in
  let rhs := read st (rm fields) bits false in
  let shift := wrap 8 (Z.land rhs (bits - 1)) in
  bit_width ← lift (bit_width fields);
  let result :=
    match shift_amount fields with
    | 2 => Some (if rhs =? 0 then 0 else lhs / rhs)
    | 3 => Some (signed_divide lhs rhs bits)
    | 8 => Some (shl_w 64 lhs (shift mod 64))
    | 9 => Some (Z.shiftr lhs (shift mod 64))
    | 10 => Some (arithmetic_shift_right lhs shift bits)
    | 11 => Some (wrap 64 (rotate_right lhs bit_width shift))
    | _ => None
    end in
  match result with
  | None => mret false
  | Some result => _ ← write (rd fields) bits false (Z.land result (mask fields)); mret true
  end.

Definition conditional_compare (fields : Operands) : Interp bool :=
  st ← gets id;
  if negb (evaluate_a64 (from_encoding (condition fields)) (st_nzcv st)) then
    _ ← modify (set_nzcv (Nzcv.from_bits (shl_w 32 (nzcv fields) 28)));
    mret true
  else
    let bits := width fields in
    let lhs := read st (rn fields) bits false in
    let rhs := if immediate_form fields then rm fields else read st (rm fields) bits false in
    bit_width ← lift (bit_width fields);
    let result :=
      if subtract fields then subtract_with_carry lhs rhs true bit_width
      else add_with_carry lhs rhs false bit_width in
    _ ← set_arithmetic_flags (wrap 64 (Arithmetic.result result)) (carry_out result)
          (overflow result) bits;
    mret true.

Definition conditional_select (fields : Operands) : Interp bool :=
  st ← gets id;
  let bits := width fields in
  let value :=
    if evaluate_a64 (from_encoding (condition fields)) (st_nzcv st)
    then read st (rn fields) bits false
    else
      let value := read st (rm fields) bits false in
      let value := if subtract fields then not_w 64 value else value in
      let value := if bit10 fields then wrapping_add 64 value 1 else value in
      Z.land value (mask fields) in
  _ ← write (rd fields) bits false value;
  mret true.

Definition three_source (fields : Operands) : Interp bool :=
  st ← gets id;
  let read := read st in
  let unguarded := (ra fields =? 31) && negb (subtract_product fields) in
  match opcode_3 fields with
  | 0 =>
      let bits := width fields in
      let product := wrapping_mul 64 (read (rn fields) bits false) (read (rm fields) bits false) in
      let addend := read (ra fields) bits false in
      let value :=
        Z.land (if subtract_product fields then wrapping_sub 64 addend product
                else wrapping_add 64 addend product) (mask fields) in
      _ ← write (rd fields) bits false value;
      mret true
  | opcode =>
      let result :=
        match opcode with
        | 1 =>
            let product := as_signed 64 (as_signed 32 (read (rn fields) 32 false) *
                                         as_signed 32 (read (rm fields) 32 false)) in
            let addend := as_signed 64 (read (ra fields) 64 false) in
            Some (if subtract_product fields then wrap 64 (addend - product)
                  else wrap 64 (addend + product))
        | 2 =>
            if unguarded then
              let product := as_signed 64 (read (rn fields) 64 false) *
                             as_signed 64 (read (rm fields) 64 false) in
              Some (wrap 64 (Z.shiftr product 64))
            else None
        | 5 =>
            let product := wrapping_mul 64 (wrap 32 (read (rn fields) 32 false))
                             (wrap 32 (read (rm fields) 32 false)) in
            let addend := read (ra fields) 64 false in
            Some (if subtract_product fields then wrapping_sub 64 addend product
                  else wrapping_add 64 addend product)
        | 6 =>
            if unguarded then
              let product := read (rn fields) 64 false * read (rm fields) 64 false in
              Some (wrap 64 (Z.shiftr product 64))
            else None
        | _ => None
        end in
      match result with
      | None => mret false
      | Some result => _ ← write (rd fields) 64 false result; mret true
      end
  end.

(** ** Byte and bit reversal *)

(** [to_le_bytes] and [from_le_bytes]. *)
Fixpoint to_le_bytes (count : nat) (value : Z) : list Z :=
  match count with
  | O => []
  | S count => wrap 8 value :: to_le_bytes count (Z.shiftr value 8)
  end.

Fixpoint from_le_bytes (bytes : list Z) : Z :=
  match bytes with
  | [] => 0
  | b :: bytes => Z.lor b (Z.shiftl (from_le_bytes bytes) 8)
  end.

(** [chunks_mut(chunk)], each chunk reversed. *)
Fixpoint reverse_each (fuel chunk : nat) (bytes : list Z) : list Z :=
  match fuel, bytes with
  | O, _ | _, [] => bytes
  | S fuel, _ => rev (take chunk bytes) ++ reverse_each fuel chunk (drop chunk bytes)
  end.

Definition reverse_chunks (value bits : Z) (chunk_bytes : nat) : Z :=
  let bytes := to_le_bytes 8 value in
  let prefix := take (Z.to_nat (bits / 8)) bytes in
  from_le_bytes (reverse_each (length prefix) chunk_bytes prefix ++ drop (Z.to_nat (bits / 8)) bytes).

(** [u32::swap_bytes] and [u64::swap_bytes]. *)
Definition swap_bytes (count : nat) (value : Z) : Z :=
  from_le_bytes (rev (to_le_bytes count value)).

(** [reverse_bits] at width [w]. *)
Fixpoint reverse_bits (w : nat) (value : Z) : Z :=
  match w with
  | O => 0
  | S w => Z.lor (Z.shiftl (Z.b2z (Z.odd value)) (Z.of_nat w)) (reverse_bits w (Z.shiftr value 1))
  end.

(** [count.saturating_sub(1)] of the leading zeros or ones. *)
Definition count_leading_sign (w value : Z) : Z :=
  let count := if Z.shiftr value (w - 1) =? 0 then leading_zeros w value
               else leading_zeros w (not_w w value) in
  Z.max 0 (count - 1).

Definition one_source (fields : Operands) : Interp bool :=
  st ← gets id;
  let bits := width fields in
  let input := read st (rn fields) bits false in
  let result :=
    match shift_amount fields with
    | 0 => Some (if bits =? 64 then reverse_bits 64 input else reverse_bits 32 (wrap 32 input))
    | 1 => Some (reverse_chunks input bits 2)
    | 2 => Some (reverse_chunks input bits 4)
    | 3 => Some (if bits =? 64 then swap_bytes 8 input else swap_bytes 4 (wrap 32 input))
    | 4 => Some (if bits =? 64 then leading_zeros 64 input else leading_zeros 32 (wrap 32 input))
    | 5 => Some (if bits =? 64 then count_leading_sign 64 input
                 else count_leading_sign 32 (wrap 32 input))
    | _ => None
    end in
  match result with
  | None => mret false
  | Some result => _ ← write (rd fields) bits false result; mret true
  end.

(** [base.wrapping_add_signed(displacement)]; the shift of the displacement
    wraps at 64 bits. *)
Definition adr (source : LocationDescriptor) (fields : Operands) (page : bool) : Interp bool :=
  let displacement := signed_immediate (adr_immediate fields) 21 in
  let base := if page then Z.land (location_pc source) (not_w 64 0xfff) else location_pc source in
  let value :=
    wrapping_add 64 base
      (if page then as_signed 64 (Z.shiftl displacement 12) else displacement) in
  _ ← write (rd fields) 64 false value;
  mret true.

Definition handler (decoded : DecodedInstruction) (instruction : Instruction) : Interp bool :=
  let fields := operands instruction in
  match instruction with
  | MoveWide _ => move_wide fields
  | AddSubImmediate _ => add_sub_immediate fields
  | AddSubShifted _ => add_sub_shifted fields
  | AddSubExtended _ => add_sub_extended fields
  | AddSubCarry _ => add_sub_carry fields
  | LogicalImmediate _ => logical_immediate fields
  | LogicalShifted _ => logical_shifted fields
  | Bitfield _ => bitfield fields
  | Extract _ => extract fields
  | TwoSource _ => two_source fields
  | ConditionalCompareRegister _ | ConditionalCompareImmediate _ => conditional_compare fields
  | ConditionalSelect _ => conditional_select fields
  | ThreeSource _ => three_source fields
  | OneSource _ => one_source fields
  | Adr _ => adr (location decoded) fields false
  | Adrp _ => adr (location decoded) fields true
  end.

Definition execute (decoded : DecodedInstruction) (instruction : Instruction) :
    Interp InstructionStep :=
  supported ← handler decoded instruction;
  if negb supported then throw_unsupported decoded
  else _ ← advance; mret Continue.
