(* ===== verification/InterpIntegerProps.v ===== *)
(** * Properties of the integer instructions

    Operand bounds that the normalizer guarantees, the frame of every handler,
    and the arithmetic or bit-level meaning of each group. *)

From Stdlib Require Import ZArith Lia Bool String.
From stdpp Require Import base numbers list vector strings.
From S2P Require Import Prelude RustInt Bits Arithmetic Conditions Shifts Immediate Allocation.
From S2P Require Import DecodeTable DecodeBase A64State A64Semantics Interp InterpInteger.
Import DecodeBase.Integer.
Local Open Scope string_scope.
Local Open Scope Z_scope.

(** ** Operands *)

(** The field widths of the operand record. *)
Record operands_ok (o : Operands) : Prop := {
  ok_rd : fits 5 (rd o); ok_rn : fits 5 (rn o); ok_ra : fits 5 (ra o); ok_rm : fits 5 (rm o);
  ok_nzcv : fits 4 (nzcv o); ok_condition : fits 4 (condition o);
  ok_shift_amount : fits 6 (shift_amount o); ok_small_shift : fits 3 (small_shift o);
  ok_shift_kind : fits 2 (shift_kind o); ok_immediate_6 : fits 6 (immediate_6_high o);
  ok_immediate_12 : fits 12 (immediate_12 o); ok_immediate_16 : fits 16 (immediate_16 o);
  ok_extension : fits 3 (extension o); ok_opcode_2 : fits 2 (opcode_2 o);
  ok_opcode_3 : fits 3 (opcode_3 o); ok_adr : fits 21 (adr_immediate o)
}.

Lemma fld_fits bits l w : 0 <= w -> fits w (fld bits l (Z.ones w)).
Proof. intros. by apply fld_bound. Qed.

Lemma operands_of_ok bits : operands_ok (operands_of bits).
Proof.
  assert (forall l w, 0 <= w -> fits w (fld bits l (Z.ones w))) as Hf by (intros; by apply fld_fits).
  assert (forall w, 0 <= w -> fits w (Z.land bits (Z.ones w))) as Hl
    by (intros; rewrite wrap_land by done; by apply wrap_fits).
  split; cbn -[fld Z.land];
    try lazymatch goal with
    | |- fits ?w (fld bits ?l _) => exact (Hf l w ltac:(lia))
    | |- fits ?w (Z.land bits _) => exact (Hl w ltac:(lia))
    end.
  apply fits_lor; [lia| |by apply (fits_le 2 21); [lia|apply (Hf 29 2)]].
  unfold fld. apply fits_land_r; [lia|]. by unfold fits.
Qed.

Lemma integer_operands_ok id bits i : normalize id bits = Ok i -> operands_ok (operands i).
Proof.
  unfold normalize. intros H. repeat case_match; simplify_eq; apply operands_of_ok.
Qed.

Lemma width_cases o : width o = 32 \/ width o = 64.
Proof. unfold width. destruct (width_64 o); auto. Qed.

Lemma width_range o : 1 <= width o <= 64.
Proof. destruct (width_cases o); lia. Qed.

Lemma bit_width_ok o : bit_width o = Ok (mkBitWidth (width o)).
Proof. unfold bit_width, width. by destruct (width_64 o). Qed.

Lemma width_wf o : wf_width (mkBitWidth (width o)).
Proof. unfold wf_width. simpl. pose proof (width_range o). lia. Qed.

Lemma land_mask o v : Z.land v (mask o) = wrap (width o) v.
Proof.
  rewrite <- wrap_land by (pose proof (width_range o); lia).
  unfold mask, width. by destruct (width_64 o).
Qed.

#[export] Hint Resolve width_cases width_range width_wf : a64.

Lemma opcode_cases o : opcode o = 0 \/ opcode o = 1 \/ opcode o = 2 \/ opcode o = 3.
Proof. unfold opcode. destruct (subtract o), (set_flags o); auto. Qed.

Lemma read_width st o i sp : state_wf st -> fits (width o) (read st i (width o) sp).
Proof. apply read_fits. auto with a64. Qed.

(** ** Frame *)

(** Register [i], as XZR or SP, and the flags are all that may change. *)
Definition changes (i : Z) (st st' : A64State) : Prop :=
  state_wf st' /\ same_system st st' /\ st_pc st' = st_pc st /\
  (forall r, register_index r <> i -> st_x st' !!! r = st_x st !!! r) /\
  (i <> 31 -> st_sp st' = st_sp st).

Lemma changes_refl i st : state_wf st -> changes i st st.
Proof. intros. unfold changes. by split_and!. Qed.

Lemma changes_write i sp v st :
  0 <= i < 32 -> state_wf st -> fits 64 v -> changes i st (write_x (register i sp) v st).
Proof.
  intros Hi Hwf Hv. split; [auto with a64|]. split; [apply write_x_same_system|].
  destruct (decide (i = 31)) as [->|].
  - rewrite register_31. by destruct sp.
  - destruct (register_general i sp ltac:(lia)) as (r & -> & <-). simpl.
    split; [done|]. split; [|done]. intros r' Hr. apply vlookup_insert_ne. congruence.
Qed.

Lemma changes_flags i st st' v :
  changes i st st' -> changes i st (set_nzcv (Nzcv.from_bits v) st').
Proof. intros (? & ? & ? & ? & ?). split; [auto with a64|]. done. Qed.

#[export] Hint Resolve changes_refl changes_flags : a64.

(** What a handler may do: change its destination and the flags and report the
    instruction done, or change nothing and report it unsupported. *)
Definition handles (o : Operands) (st : A64State) (m : Interp bool) : Prop :=
  wp m (fun supported st' => if supported then changes (rd o) st st' else st' = st)
     (fun _ _ => False) st.

Lemma wp_write i w sp v (Q : unit -> A64State -> Prop) (Qe : InterpreterError -> A64State -> Prop) st :
  w = 32 \/ w = 64 -> fits 64 v -> Q tt (write_x (register i sp) (wrap w v) st) ->
  wp (write i w sp v) Q Qe st.
Proof. intros Hw Hv HQ. unfold wp. by rewrite write_spec. Qed.

Lemma handles_write o st w sp v :
  operands_ok o -> state_wf st -> w = 32 \/ w = 64 -> fits 64 v ->
  handles o st (_ ← write (rd o) w sp v; mret true).
Proof.
  intros Hok Hwf Hw Hv. unfold handles. wp_step. apply wp_write; [done..|]. wp_step.
  apply changes_write; [|done|].
  - by destruct (ok_rd _ Hok).
  - apply (fits_le w); [lia|]. apply wrap_fits. lia.
Qed.

Lemma handles_write_opt o st w sp r :
  operands_ok o -> state_wf st -> w = 32 \/ w = 64 ->
  (forall v, r = Some v -> fits 64 v) ->
  handles o st match r with
               | None => mret false
               | Some v => _ ← write (rd o) w sp v; mret true
               end.
Proof. intros ? ? ? Hr. destruct r; [|done]. apply handles_write; auto. Qed.

Lemma handles_gets {A} o st (f : A64State -> A) k :
  handles o st (k (f st)) -> handles o st (x ← gets f; k x).
Proof. done. Qed.

Lemma handles_lift_ok {A} o st (a : A) k : handles o st (k a) -> handles o st (x ← lift (Ok a); k x).
Proof. done. Qed.

(** ** Values stay in 64 bits *)

Lemma read_fits_64 st i w sp : w = 32 \/ w = 64 -> state_wf st -> fits 64 (read st i w sp).
Proof. intros Hw Hwf. apply (fits_le w); [lia|]. by apply read_fits. Qed.

Lemma wrap_fits_64 w v : 0 <= w <= 64 -> fits 64 (wrap w v).
Proof. intros. apply (fits_le w); [lia|]. apply wrap_fits. lia. Qed.

Lemma fits_64_land_mask o v : fits 64 (Z.land v (mask o)).
Proof. rewrite land_mask. apply wrap_fits_64. pose proof (width_range o). lia. Qed.

Lemma read_fits_32 st i sp : fits 64 (read st i 32 sp).
Proof. apply wrap_fits_64. lia. Qed.

#[export] Hint Resolve read_fits_64 wrap_fits_64 fits_64_land_mask read_fits_32 fits_0 : fits.
#[export] Hint Resolve width_cases : fits.
#[export] Hint Extern 5 (_ <= _) => lia : fits.
#[export] Hint Extern 5 (_ <= _ <= _) => lia : fits.
#[export] Hint Extern 5 (_ = _ \/ _ = _) => lia : fits.

(** ** Byte and bit reversal, bit by bit *)

Lemma reverse_bits_testbit w v i :
  0 <= i -> Z.testbit (reverse_bits w v) i =
  (i <? Z.of_nat w) && Z.testbit v (Z.of_nat w - 1 - i).
Proof.
  intros Hi. revert v. induction w as [|w IH]; intros v.
  - cbn [reverse_bits]. rewrite Z.bits_0. change (Z.of_nat 0) with 0. destruct (Z.ltb_spec i 0); [lia|done].
  - cbn [reverse_bits]. rewrite Z.lor_spec, Z.shiftl_spec, IH by lia.
    assert (forall c j, Z.testbit (Z.b2z c) j = (j =? 0) && c) as Hc.
    { intros c j. destruct (Z.eqb_spec j 0) as [->|]; [apply Z.b2z_bit0|].
      destruct (Z.lt_ge_cases j 0); [by rewrite Z.testbit_neg_r|].
      destruct c; [|apply Z.bits_0]. by rewrite (testbit_fits 1) by (done || lia). }
    rewrite Hc. replace (Z.of_nat (S w)) with (Z.of_nat w + 1) by lia.
    destruct (Z.eqb_spec (i - Z.of_nat w) 0), (Z.ltb_spec i (Z.of_nat w)),
      (Z.ltb_spec i (Z.of_nat w + 1)); try lia; cbn [andb orb]; try done.
    + rewrite orb_false_r, <- Z.bit0_odd. f_equal. lia.
    + rewrite Z.shiftr_spec by lia. f_equal. lia.
Qed.

Lemma le_bytes_count c v : List.length (to_le_bytes c v) = c.
Proof. revert v. induction c; intros; simpl; auto. Qed.

Lemma to_le_bytes_lookup c v k :
  (k < c)%nat -> to_le_bytes c v !! k = Some (wrap 8 (Z.shiftr v (8 * Z.of_nat k))).
Proof.
  revert v k. induction c as [|c IH]; intros v k Hk; [lia|]. destruct k as [|k]; simpl; [done|].
  rewrite IH by lia. rewrite Z.shiftr_shiftr by lia. do 3 f_equal. lia.
Qed.

Lemma from_le_bytes_testbit l i :
  Forall (fits 8) l -> 0 <= i ->
  Z.testbit (from_le_bytes l) i =
  default false ((fun b => Z.testbit b (i mod 8)) <$> l !! Z.to_nat (i / 8)).
Proof.
  intros Hl. revert i. induction Hl as [|b l Hb Hl IH]; intros i Hi; simpl; [apply Z.bits_0|].
  rewrite Z.lor_spec, Z.shiftl_spec by lia. destruct (Z.lt_ge_cases i 8).
  - rewrite (Z.testbit_neg_r _ (i - 8)), orb_false_r by lia.
    by rewrite Z.div_small, Z.mod_small by lia.
  - rewrite (testbit_fits 8 b) by (done || lia). rewrite IH by lia. cbn [orb].
    assert (i / 8 = (i - 8) / 8 + 1 /\ i mod 8 = (i - 8) mod 8) as [-> ->].
    { rewrite <- Z.div_add, <- (Z.mod_add (i - 8) 1 8) by lia. split; f_equal; lia. }
    replace (Z.to_nat ((i - 8) / 8 + 1)) with (S (Z.to_nat ((i - 8) / 8))); [done|].
    pose proof (Z.div_pos (i - 8) 8). lia.
Qed.

Lemma to_le_bytes_fits c v : Forall (fits 8) (to_le_bytes c v).
Proof. revert v. induction c; intros; simpl; constructor; auto. by apply wrap_fits. Qed.

Lemma le_value_fits l :
  Forall (fits 8) l -> fits (8 * Z.of_nat (List.length l)) (from_le_bytes l).
Proof.
  intros Hl. apply fits_testbit; [lia|]. intros i Hi. rewrite from_le_bytes_testbit by (done || lia).
  rewrite lookup_ge_None_2; [done|]. apply Nat2Z.inj_le. rewrite Z2Nat.id.
  - apply Z.div_le_lower_bound; lia.
  - apply Z.div_pos; lia.
Qed.

Lemma reverse_each_perm fuel c l : reverse_each fuel c l ≡ₚ l.
Proof.
  revert l. induction fuel as [|fuel IH]; intros l; simpl; [done|]. destruct l as [|x l]; [done|].
  rewrite IH, <- Permutation_rev. by rewrite take_drop.
Qed.

Lemma reverse_bits_fits w v : fits (Z.of_nat w) (reverse_bits w v).
Proof.
  apply fits_testbit; [lia|]. intros i Hi. rewrite reverse_bits_testbit by lia.
  destruct (Z.ltb_spec i (Z.of_nat w)); [lia|done].
Qed.

Lemma reverse_chunks_fits v w c : fits 64 (reverse_chunks v w c).
Proof.
  unfold reverse_chunks. set (k := Z.to_nat (w / 8)).
  assert (reverse_each (List.length (take k (to_le_bytes 8 v))) c (take k (to_le_bytes 8 v)) ++
    drop k (to_le_bytes 8 v) ≡ₚ to_le_bytes 8 v) as Hp by (by rewrite reverse_each_perm, take_drop).
  generalize dependent (reverse_each (List.length (take k (to_le_bytes 8 v))) c
    (take k (to_le_bytes 8 v)) ++ drop k (to_le_bytes 8 v))%list. intros l Hp.
  pose proof (le_value_fits l) as Hf. rewrite (Permutation_length Hp), le_bytes_count in Hf.
  apply Hf. rewrite Hp. apply to_le_bytes_fits.
Qed.

Lemma swap_bytes_fits c v : fits (8 * Z.of_nat c) (swap_bytes c v).
Proof.
  unfold swap_bytes. rewrite <- (le_bytes_count c v) at 1. rewrite <- length_rev.
  apply le_value_fits. rewrite <- Permutation_rev. apply to_le_bytes_fits.
Qed.

Lemma leading_zeros_range w v : 0 < w -> fits w v -> 0 <= leading_zeros w v <= w.
Proof.
  intros Hw [Hl Hu]. unfold leading_zeros. destruct (Z.eqb_spec v 0); [lia|].
  pose proof (Z.log2_nonneg v). assert (Z.log2 v < w) by (apply Z.log2_lt_pow2; lia). lia.
Qed.

Section Frame.
Context (o : Operands) (st : A64State).
Context (Hok : operands_ok o) (Hwf : state_wf st).

Lemma move_wide_handles : handles o st (move_wide o).
Proof.
  unfold move_wide. case_match; [done|]. apply handles_gets. cbv zeta.
  apply handles_write_opt; [done..|auto with a64|]. intros v Hv.
  destruct (opcode_cases o) as [E | [E | [E | E]]]; rewrite E in Hv; simplify_eq;
    unfold id; auto 7 with fits.
Qed.

Lemma apply_add_sub_changes lhs rhs c :
  wp (apply_add_sub o lhs rhs c) (fun _ st' => changes (rd o) st st') (fun _ _ => False) st.
Proof.
  unfold apply_add_sub. rewrite bit_width_ok. wp_step. apply wp_lift. cbv zeta. wp_step.
  apply wp_write; [auto with a64|eauto with fits|].
  assert (forall v sp, changes (rd o) st (write_x (register (rd o) sp) (wrap (width o) v) st)) as Hc.
  { intros. apply changes_write; [by destruct (ok_rd _ Hok)|done|].
    pose proof (width_range o). auto with fits. }
  destruct (set_flags o).
  - apply wp_modify. apply changes_flags, Hc.
  - wp_step. apply Hc.
Qed.

Lemma handles_add_sub lhs rhs c : handles o st (_ ← apply_add_sub o lhs rhs c; mret true).
Proof.
  unfold handles. wp_step. eapply wp_mono; [apply apply_add_sub_changes|by intros [] ? ?|done].
Qed.

Lemma shifted_total v rotate : exists r, shifted v o rotate = Ok r.
Proof.
  unfold shifted. case_match; [by eexists|]. case_match; [|by eexists].
  rewrite bit_width_ok. cbn [mbind res_bind].
  assert (width o = 32 \/ width o = 64) as [E|E] by auto with a64;
    unfold a64_shift_with_carry; cbn [bits]; rewrite E; by eexists.
Qed.

Lemma extend_register_total v e s w : exists r, extend_register v e s w = Ok r.
Proof.
  unfold extend_register. case_match; [by eexists|].
  assert (exists sw, extend_source_width e = Ok sw) as [sw ->].
  { unfold extend_source_width. pose proof (Z.mod_pos_bound e (2 ^ 2) ltac:(lia)) as Hb.
    change (Z.land e 3) with (Z.land e (Z.ones 2)). rewrite Z.land_ones by lia.
    assert (e mod 2 ^ 2 = 0 \/ e mod 2 ^ 2 = 1 \/ e mod 2 ^ 2 = 2 \/ e mod 2 ^ 2 = 3)
      as [-> | [-> | [-> | ->]]] by lia; by eexists. }
  cbn [mbind res_bind]. case_match; by eexists.
Qed.

Lemma logical_result_handles rhs : handles o st (logical_result o rhs).
Proof.
  unfold logical_result. apply handles_gets. cbv zeta.
  assert (exists v, logical (opcode o) (read (id st) (rn o) (width o) false) rhs = Ok v) as [v ->].
  { destruct (opcode_cases o) as [-> | [-> | [-> | ->]]]; by eexists. }
  apply handles_lift_ok. unfold handles. wp_step.
  apply wp_write; [auto with a64|auto with fits|]. wp_step.
  assert (changes (rd o) st (write_x (register (rd o) false) (wrap (width o) (Z.land v (mask o))) st)).
  { apply changes_write; [by destruct (ok_rd _ Hok)|done|].
    pose proof (width_range o). auto with fits. }
  case_match.
  - apply wp_modify. wp_step. by apply changes_flags.
  - wp_step. wp_step. done.
Qed.

Lemma add_sub_immediate_handles : handles o st (add_sub_immediate o).
Proof. unfold add_sub_immediate. apply handles_gets, handles_add_sub. Qed.

Lemma add_sub_shifted_handles : handles o st (add_sub_shifted o).
Proof.
  unfold add_sub_shifted. apply handles_gets.
  destruct (shifted_total (read (id st) (rm o) (width o) false) false) as [r ->].
  apply handles_lift_ok. destruct r; [apply handles_add_sub|done].
Qed.

Lemma add_sub_extended_handles : handles o st (add_sub_extended o).
Proof.
  unfold add_sub_extended. apply handles_gets. cbv zeta.
  destruct (extend_register_total (read (id st) (rm o) (width o) false) (extension o)
    (small_shift o) (width o)) as [r ->].
  apply handles_lift_ok. destruct r; [apply handles_add_sub|done].
Qed.

Lemma add_sub_carry_handles : handles o st (add_sub_carry o).
Proof. unfold add_sub_carry. apply handles_gets, handles_add_sub. Qed.

Lemma bit_masks_no_panic immediate :
  decode_a64_bit_masks (n o) (immediate_6_high o) (shift_amount o) (width o) immediate <> Panic.
Proof.
  pose proof (ok_immediate_6 _ Hok) as Hr. pose proof (ok_shift_amount _ Hok) as Hs.
  pose proof (width_cases o) as Hw.
  destruct (decide (reserved_bitmask (n o) (shift_amount o) (width o) immediate)) as [Hres|Hres].
  - by rewrite decode_bit_masks_reserved.
  - by destruct (decode_bit_masks_ok _ _ _ _ immediate Hr Hs Hw Hres) as (m & -> & _).
Qed.

Lemma logical_immediate_handles : handles o st (logical_immediate o).
Proof.
  unfold logical_immediate, decode_a64_logical_immediate.
  pose proof (bit_masks_no_panic true).
  destruct (decode_a64_bit_masks _ _ _ _ _); [apply logical_result_handles|done..].
Qed.

Lemma logical_shifted_handles : handles o st (logical_shifted o).
Proof.
  unfold logical_shifted. apply handles_gets. cbv zeta.
  destruct (shifted_total (read (id st) (rm o) (width o) false) true) as [r ->].
  apply handles_lift_ok. destruct r; [apply logical_result_handles|done].
Qed.

Lemma bitfield_handles : handles o st (bitfield o).
Proof.
  unfold bitfield. cbv zeta. case_match; [done|]. case_match; [done|].
  pose proof (bit_masks_no_panic false).
  destruct (decode_a64_bit_masks _ _ _ _ _); [|done..].
  apply handles_gets. rewrite bit_width_ok. apply handles_lift_ok, handles_write; auto with fits.
Qed.

Lemma extract_handles : handles o st (extract o).
Proof.
  unfold extract. cbv zeta. case_match; [done|]. apply handles_gets, handles_write; auto with fits.
Qed.

Lemma two_source_handles : handles o st (two_source o).
Proof.
  unfold two_source. apply handles_gets. cbv zeta. rewrite bit_width_ok. apply handles_lift_ok.
  case_match; [|done]. apply handles_write; auto with fits.
Qed.

Lemma conditional_compare_handles : handles o st (conditional_compare o).
Proof.
  unfold conditional_compare. apply handles_gets. cbv zeta. case_match.
  - unfold handles. wp_step. wp_step. wp_step. apply changes_flags, changes_refl, Hwf.
  - rewrite bit_width_ok. apply handles_lift_ok. unfold handles, set_arithmetic_flags. cbv zeta.
    wp_step. wp_step. wp_step. apply changes_flags, changes_refl, Hwf.
Qed.

Lemma conditional_select_handles : handles o st (conditional_select o).
Proof.
  unfold conditional_select. apply handles_gets. cbv zeta.
  apply handles_write; [done..|auto with fits|]. case_match; unfold id; auto with fits.
Qed.

Lemma three_source_handles : handles o st (three_source o).
Proof.
  unfold three_source. apply handles_gets. cbv zeta.
  pose proof (ok_opcode_3 _ Hok) as Ho. unfold fits in Ho.
  assert (opcode_3 o = 0 \/ opcode_3 o = 1 \/ opcode_3 o = 2 \/ opcode_3 o = 3 \/ opcode_3 o = 4 \/
    opcode_3 o = 5 \/ opcode_3 o = 6 \/ opcode_3 o = 7) as Hc by lia.
  repeat destruct Hc as [Hc|Hc]; rewrite Hc; try done;
    try case_match; try done; apply handles_write; try case_match; simplify_eq;
    unfold wrapping_add, wrapping_sub; auto with fits.
Qed.

Lemma one_source_handles : handles o st (one_source o).
Proof.
  unfold one_source. apply handles_gets. cbv zeta. unfold id.
  apply handles_write_opt; [done..|auto with fits|].
  intros v Hv. pose proof (read_fits_64 st (rn o) (width o) false (width_cases o) Hwf) as Hf.
  remember (read st (rn o) (width o) false) as x eqn:E. clear E.
  assert (fits 32 (wrap 32 x)) as H32 by (by apply wrap_fits).
  pose proof (leading_zeros_range 64 x ltac:(lia) Hf).
  pose proof (leading_zeros_range 32 _ ltac:(lia) H32).
  pose proof (leading_zeros_range 64 (not_w 64 x) ltac:(lia) ltac:(by apply fits_not_w)).
  pose proof (leading_zeros_range 32 (not_w 32 (wrap 32 x)) ltac:(lia) ltac:(by apply fits_not_w)).
  pose proof (reverse_bits_fits 64 x). pose proof (reverse_bits_fits 32 (wrap 32 x)).
  pose proof (swap_bytes_fits 8 x). pose proof (swap_bytes_fits 4 (wrap 32 x)).
  pose proof (fun c => reverse_chunks_fits x (width o) c).
  assert (forall y, fits 32 y -> fits 64 y) by (intros y; by apply fits_le).
  assert (forall y, 0 <= y <= 64 -> fits 64 y) by (unfold fits; lia).
  unfold count_leading_sign in Hv.
  repeat case_match; simplify_eq; auto with lia.
Qed.

Lemma adr_handles source page : handles o st (adr source o page).
Proof.
  unfold adr. cbv zeta. apply handles_write; [done..|auto|]. unfold wrapping_add. auto with fits.
Qed.

End Frame.

Lemma handler_handles d i st :
  operands_ok (operands i) -> state_wf st -> handles (operands i) st (handler d i).
Proof.
  intros. destruct i; cbn [handler operands];
    auto using move_wide_handles, add_sub_immediate_handles, add_sub_shifted_handles,
      add_sub_extended_handles, add_sub_carry_handles, logical_immediate_handles,
      logical_shifted_handles, bitfield_handles, extract_handles, two_source_handles,
      conditional_compare_handles, conditional_select_handles, three_source_handles,
      one_source_handles, adr_handles.
Qed.

(** A step of the family. *)
Lemma integer_execute_run decoded id bits i st text :
  normalize id bits = Ok i -> state_wf st ->
  fmt_disassembly (instruction decoded) = Ok text ->
  match execute decoded i st with
  | (st', Ok step) =>
      step = Continue /\ state_wf st' /\ same_system st st' /\
      st_pc st' = wrapping_add 64 (st_pc st) 4 /\
      (forall r, register_index r <> rd (operands i) -> st_x st' !!! r = st_x st !!! r) /\
      (rd (operands i) <> 31 -> st_sp st' = st_sp st)
  | (st', Err e) => st' = st /\ unsupported decoded = Ok e
  | (_, Panic) => False
  end.
Proof.
  intros Hn Hwf Ht. pose proof (handler_handles decoded i st (integer_operands_ok _ _ _ Hn) Hwf) as Hh.
  unfold handles, wp in Hh. unfold execute, mbind, M_bind.
  destruct (handler decoded i st) as [st' [[]|e|]]; [| |done..]; cbn [negb].
  - destruct Hh as (Hwf' & Hs & Hpc & Hx & Hsp). cbn. split; [done|].
    split; [apply set_pc_wf; [done|by apply wrap_fits]|]. by rewrite Hpc.
  - subst st'. unfold throw_unsupported, unsupported. by rewrite Ht.
Qed.

(** C33: an integer instruction is atomic and framed: on a well-formed state it
    never panics; either it is reported unsupported and changes nothing, or it
    advances the program counter by four, changes no general register but its
    destination, the stack pointer only when the destination is register 31,
    and no SIMD, floating-point or thread-pointer register, and leaves the
    state well formed. *)
Theorem integer_execute_frame decoded id bits i st text :
  normalize id bits = Ok i -> state_wf st ->
  fmt_disassembly (instruction decoded) = Ok text ->
  match execute decoded i st with
  | (st', Ok step) =>
      step = Continue /\ state_wf st' /\ same_system st st' /\
      st_pc st' = wrapping_add 64 (st_pc st) 4 /\
      (forall r, register_index r <> rd (operands i) -> st_x st' !!! r = st_x st !!! r) /\
      (rd (operands i) <> 31 -> st_sp st' = st_sp st)
  | (st', Err e) => st' = st /\ unsupported decoded = Ok e
  | (_, Panic) => False
  end.
Proof. apply integer_execute_run. Qed.

(** [add x0, x1, x2]. *)
Lemma integer_execute_frame_witness :
  match execute demo_decoded (AddSubShifted (operands_of 0x8b02_0020)) A64State_default with
  | (st', Ok step) => step = Continue /\ st_pc st' = 4
  | _ => False
  end.
Proof.
  pose proof (integer_execute_frame demo_decoded 0x11 0x8b02_0020 _ A64State_default "test"
    eq_refl default_wf eq_refl) as H.
  destruct (execute demo_decoded _ A64State_default) as [st' [step|e|]] eqn:E.
  - destruct H as (Hc & _ & _ & Hpc & _). split; [exact Hc|exact Hpc].
  - vm_compute in E. discriminate E.
  - exact H.
Defined.

(** ** Flags *)

Lemma flags_read result carry overflow bits st st' :
  1 <= bits <= 64 -> fits bits result ->
  set_arithmetic_flags result carry overflow bits st = (st', Ok tt) ->
  from_a64_nzcv (st_nzcv st') =
  mkNzcv (Z.testbit result (bits - 1)) (result =? 0) carry overflow.
Proof.
  intros Hb Hf. unfold set_arithmetic_flags, modify. cbv zeta.
  assert (negb (Z.land result (shl_w 64 1 (bits - 1)) =? 0) = Z.testbit result (bits - 1)) as ->.
  { rewrite <- bit_set_spec by lia. unfold bit_set, shl_w. rewrite wrap_small; [done|].
    rewrite Z.shiftl_1_l. pose proof (pow2_lt (bits - 1) 64 ltac:(lia)).
    pose proof (pow2_pos (bits - 1)). unfold fits. lia. }
  intros [= <-]. cbn [st_nzcv set_nzcv].
  by destruct (Z.testbit result (bits - 1)), (result =? 0), carry, overflow.
Qed.

(** What each condition says about [a] and [b] after a comparison at width [w]. *)
Definition compares (w : Z) (c : Condition) (a b : Z) : bool :=
  let sa := as_signed w a in
  let sb := as_signed w b in
  match c with
  | Eq => a =? b
  | Ne => negb (a =? b)
  | Cs => b <=? a
  | Cc => a <? b
  | Mi => as_signed w (a - b) <? 0
  | Pl => 0 <=? as_signed w (a - b)
  | Vs => negb ((- 2 ^ (w - 1) <=? sa - sb) && (sa - sb <? 2 ^ (w - 1)))
  | Vc => (- 2 ^ (w - 1) <=? sa - sb) && (sa - sb <? 2 ^ (w - 1))
  | Hi => b <? a
  | Ls => a <=? b
  | Ge => sb <=? sa
  | Lt_ => sa <? sb
  | Gt_ => sb <? sa
  | Le => sa <=? sb
  | Al | Nv => true
  end.

(** The signed reading of a difference: the difference itself when it fits, and
    off by [2^w] otherwise. *)
Lemma as_signed_difference w a b :
  0 < w ->
  let d := as_signed w a - as_signed w b in
  as_signed w (a - b) =
  if d <? - 2 ^ (w - 1) then d + 2 ^ w else if d <? 2 ^ (w - 1) then d else d - 2 ^ w.
Proof.
  intros Hw d. pose proof (pow2_half w Hw). pose proof (pow2_pos (w - 1)).
  pose proof (as_signed_range w a Hw). pose proof (as_signed_range w b Hw).
  assert (wrap w d = wrap w (a - b)) as Hd.
  { unfold d, wrap. rewrite Zminus_mod. fold (wrap w (as_signed w a)) (wrap w (as_signed w b)).
    rewrite !wrap_as_signed by lia. unfold wrap. by rewrite <- Zminus_mod. }
  symmetry. destruct (Z.ltb_spec d (- 2 ^ (w - 1))); [|destruct (Z.ltb_spec d (2 ^ (w - 1)))];
    apply as_signed_unique; try lia; rewrite <- Hd; try done.
  - rewrite <- (wrap_plus_pow w d 1). f_equal; lia.
  - rewrite <- (wrap_plus_pow w d (-1)). f_equal; lia.
Qed.

Lemma sign_bit w x : 0 < w -> Z.testbit (wrap w x) (w - 1) = (as_signed w x <? 0).
Proof.
  intros Hw. rewrite fits_testbit_top by (done || by apply wrap_fits; lia). unfold as_signed.
  pose proof (wrap_fits w x ltac:(lia)) as Hf. unfold fits in Hf. pose proof (pow2_half w Hw).
  destruct (Z.ltb_spec (wrap w x) (2 ^ (w - 1))); simpl; symmetry;
    [apply Z.ltb_ge|apply Z.ltb_lt]; lia.
Qed.

Lemma difference_zero w a b :
  0 < w -> fits w a -> fits w b -> (wrap w (a - b) =? 0) = (a =? b).
Proof.
  unfold fits. intros Hw Ha Hb. apply eq_true_iff_eq. rewrite !Z.eqb_eq. split; [|intros ->].
  - intros E. unfold wrap in E. pose proof (pow2_pos w). apply Z.mod_divide in E as [k Hk]; [|lia].
    destruct (Z.lt_trichotomy k 0) as [?|[?|?]]; nia.
  - rewrite Z.sub_diag. by apply Z.mod_0_l; lia.
Qed.

Lemma as_signed_inj w a b : 0 < w -> fits w a -> fits w b -> as_signed w a = as_signed w b -> a = b.
Proof.
  intros Hw Ha Hb E. rewrite <- (wrap_small w a Ha), <- (wrap_small w b Hb).
  rewrite <- (wrap_as_signed w a), <- (wrap_as_signed w b) by lia. by rewrite E.
Qed.

(** Comparisons decide: after a flag-setting subtraction of [b] from [a],
    at either width and in every form of the instruction, each of the sixteen
    condition codes evaluates to what it says of [a] and [b]: equality, the
    four unsigned and the four signed orders, the sign and the overflow of the
    difference. *)
Theorem compare_flags_decide fields st a b :
  subtract fields = true -> set_flags fields = true ->
  fits (width fields) a -> fits (width fields) b ->
  exists st', apply_add_sub fields a b true st = (st', Ok tt) /\
  forall c, evaluate_a64 c (st_nzcv st') = compares (width fields) c a b.
Proof.
  intros Hsub Hset Ha Hb. unfold apply_add_sub. rewrite bit_width_ok, Hsub, Hset.
  cbn [lift mbind M_bind negb andb]. pose proof (width_range fields) as Hr.
  set (w := width fields) in *. set (bw := mkBitWidth w).
  assert (wf_width bw) as Hw by (apply width_wf).
  set (r := subtract_with_carry a b true bw).
  assert (Arithmetic.result r = wrap w (a - b)) as Er.
  { unfold r. rewrite sub_result by done. simpl. f_equal. lia. }
  assert (fits 64 (wrap w (a - b))) as Hf by (apply wrap_fits_64; lia).
  erewrite M_bind_ok by reflexivity. fold r. rewrite Er, (wrap_small 64) by done.
  erewrite M_bind_ok by (apply write_spec; [apply width_cases|done]).
  eexists. split; [reflexivity|]. intros c. unfold evaluate_a64.
  erewrite flags_read; [|exact Hr|by apply wrap_fits; lia|reflexivity].
  rewrite sign_bit, difference_zero by (done || lia).
  unfold r. rewrite sub_carry, sub_overflow by done. unfold signed_range. cbn [bits bw].
  rewrite !wrap_small by done.
  pose proof (as_signed_difference w a b ltac:(lia)) as Hd. cbv zeta in Hd.
  pose proof (as_signed_inj w a b ltac:(lia) Ha Hb) as Hinj.
  pose proof (pow2_half w ltac:(lia)). pose proof (as_signed_range w a ltac:(lia)).
  pose proof (as_signed_range w b ltac:(lia)).
  assert (a = b -> as_signed w a = as_signed w b) by congruence.
  change (1 - Z.b2z true) with 0. rewrite Z.add_0_r, Z.sub_0_r.
  unfold compares. cbv zeta. set (sa := as_signed w a) in *. set (sb := as_signed w b) in *.
  set (sd := as_signed w (a - b)) in *. clearbody sa sb sd.
  destruct (Z.ltb_spec (sa - sb) (- 2 ^ (w - 1))), (Z.ltb_spec (sa - sb) (2 ^ (w - 1)));
    destruct c; cbn [inverted base_condition zero carry negative overflow_flag]; lia.
Qed.

(** [cmp x1, x2] with [x1 = -1] and [x2 = 1]: unsigned higher, signed less. *)
Lemma compare_flags_decide_witness :
  exists st', apply_add_sub (operands_of 0xeb02_003f) (2 ^ 64 - 1) 1 true A64State_default = (st', Ok tt) /\
  evaluate_a64 Hi (st_nzcv st') = true /\ evaluate_a64 Lt_ (st_nzcv st') = true.
Proof.
  destruct (compare_flags_decide (operands_of 0xeb02_003f) A64State_default (2 ^ 64 - 1) 1
    eq_refl eq_refl ltac:(by vm_compute) ltac:(by vm_compute)) as (st' & E & H).
  exists st'. split; [exact E|]. split; [rewrite (H Hi)|rewrite (H Lt_)]; reflexivity.
Defined.
