(* ===== verification/InterpIntegerSpec.v ===== *)
(** * What the integer instructions compute

    The value each data-processing handler writes, against an arithmetic or
    bit-level description that does not mention the implementation. *)

From Stdlib Require Import ZArith Lia Bool String.
From stdpp Require Import base numbers list vector strings.
From S2P Require Import Prelude RustInt Bits Arithmetic Shifts Immediate Allocation DecodeBase.
From S2P Require Import A64State A64Semantics Interp InterpInteger InterpIntegerProps.
Import DecodeBase.Integer.
Local Open Scope string_scope.
Local Open Scope Z_scope.

(** A handler writes [v] to its destination, register 31 being XZR, and does
    nothing else. *)
Definition writes (o : Operands) (st : A64State) (m : Interp bool) (v : Z) : Prop :=
  m st = (write_x (zero_register (rd o)) v st, Ok true).

Lemma writes_write o st w v :
  w = 32 \/ w = 64 -> fits w v -> writes o st (_ ← write (rd o) w false v; mret true) v.
Proof.
  intros Hw Hv. unfold writes. erewrite M_bind_ok.
  2: { apply write_spec; [exact Hw|]. apply (fits_le w); [lia|done]. }
  by rewrite wrap_small.
Qed.

Lemma writes_masked o st v :
  writes o st (_ ← write (rd o) (width o) false (Z.land v (mask o)); mret true) (wrap (width o) v).
Proof.
  rewrite land_mask. apply writes_write; [apply width_cases|]. apply wrap_fits.
  pose proof (width_range o). lia.
Qed.

(** ** Fields of an encoding *)

Lemma sf_bit bits : fits 32 bits -> negb (Z.shiftr bits 31 =? 0) = bit_set bits 31.
Proof.
  intros Hf. rewrite bit_set_spec by lia. change 31 with (32 - 1) at 2.
  rewrite (fits_testbit_top 32 bits) by (done || lia). unfold fits in Hf. rewrite Z.shiftr_div_pow2 by lia. f_equal. apply eq_true_iff_eq.
  rewrite Z.eqb_eq, Z.ltb_lt. pose proof (Z.div_small_iff bits (2 ^ 31)). simpl Z.sub. lia.
Qed.

Lemma opcode_fld bits : opcode (operands_of bits) = fld bits 29 3.
Proof.
  unfold opcode, operands_of, fld. cbn [subtract set_flags]. rewrite !bit_set_spec by lia.
  change 3 with (Z.ones 2). rewrite Z.land_ones, Z.shiftr_div_pow2 by lia.
  rewrite !Z.testbit_spec' by lia.
  replace (bits / 2 ^ 30) with (bits / 2 ^ 29 / 2) by (rewrite Z.div_div by lia; done).
  generalize (bits / 2 ^ 29). intros y. change (2 ^ 2) with 4.
  Z.to_euclidean_division_equations. lia.
Qed.

Lemma imms_high bits : fld bits 10 0x3f < 32 -> bit_set bits 15 = false.
Proof.
  intros Hs. rewrite bit_set_spec by lia. unfold fld in Hs. change 0x3f with (Z.ones 6) in Hs.
  rewrite wrap_land in Hs by lia.
  assert (Z.testbit (wrap 6 (Z.shiftr bits 10)) 5 = Z.testbit bits 15) as <-
    by (rewrite testbit_wrap, Z.shiftr_spec by lia; done).
  apply (testbit_fits 5); [lia| |lia]. pose proof (wrap_fits 6 (Z.shiftr bits 10)). unfold fits in *. lia.
Qed.

(** ** Bitfield moves *)

(** Bit [i] of SBFM (0), BFM (1) and UBFM (2) at width [w]: a field of the
    source is moved to the bottom of the result when [immr <= imms], and the low
    [imms + 1] bits of the source to bit [w - immr] otherwise; BFM keeps the
    rest of the destination, SBFM fills the top with the field's sign. *)
Definition bitfield_bit (w op r s source destination i : Z) : bool :=
  let top :=
    if op =? 0 then Z.testbit source s
    else if op =? 1 then Z.testbit destination i else false in
  if r <=? s then
    if i <=? s - r then Z.testbit source (i + r) else top
  else
    if i <? w - r then (op =? 1) && Z.testbit destination i
    else if i <=? w - r + s then Z.testbit source (i - (w - r)) else top.

Lemma element_full o :
  n o = width_64 o -> fits 6 (shift_amount o) -> (width_64 o = false -> shift_amount o < 32) ->
  element_bits (n o) (shift_amount o) = width o.
Proof.
  intros Hn Hs H32. unfold element_bits, bitmask_key, width. rewrite Hn. unfold fits in Hs.
  destruct (width_64 o); cbn [Z.b2z].
  - rewrite (Z.log2_unique _ 6); [done|lia|]. lia.
  - specialize (H32 eq_refl). rewrite (Z.log2_unique _ 5); [done|lia|]. lia.
Qed.

Section Moves.
Context (o : Operands) (st : A64State).
Context (Hok : operands_ok o) (Hwf : state_wf st).

Local Abbreviation w := (width o).

Lemma masks_full :
  n o = width_64 o -> (width_64 o = false -> shift_amount o < 32 /\ immediate_6_high o < 32) ->
  exists m,
    decode_a64_bit_masks (n o) (immediate_6_high o) (shift_amount o) w false = Ok m /\
    forall i, 0 <= i < w ->
      Z.testbit (write_mask m) i = ((i + immediate_6_high o) mod w <=? shift_amount o) /\
      Z.testbit (test_mask m) i = (i <=? (shift_amount o - immediate_6_high o) mod w).
Proof.
  intros Hn H32. pose proof (ok_immediate_6 _ Hok) as Hr. pose proof (ok_shift_amount _ Hok) as Hs.
  pose proof (element_full o Hn Hs ltac:(naive_solver)) as He. pose proof (width_range o) as Hw.
  assert (0 <= shift_amount o < w) as Hsw.
  { unfold fits in Hs. unfold width. destruct (width_64 o); [lia|]. naive_solver lia. }
  destruct (decode_bit_masks_ok (n o) (immediate_6_high o) (shift_amount o) w false Hr Hs
    (width_cases o)) as (m & -> & _ & _ & Hm).
  - unfold reserved_bitmask. rewrite He. unfold bitmask_key.
    intros [Hk|[Hd|[? _]]]; [|lia|done]. unfold fits in Hs. unfold width in He, Hsw. rewrite Hn in Hk.
    destruct (width_64 o); cbn [Z.b2z] in Hk; lia.
  - exists m. split; [done|]. intros i Hi. specialize (Hm i Hi). cbv zeta in Hm. rewrite He in Hm.
    by rewrite !(Z.mod_small (shift_amount o)), !(Z.mod_small i) in Hm by lia.
Qed.

End Moves.

Lemma validate_bitfield bits :
  fits 32 bits ->
  validate 0x16 bits = Some
    (let sf := bit_set bits 31 in
     if negb (Bool.eqb (bit_set bits 22) sf) ||
        (negb sf && ((fld bits 16 0x3f >=? 32) || (fld bits 10 0x3f >=? 32)))
     then Reserved "invalid bitfield width fields"
     else if fld bits 29 3 =? 3 then Unallocated "unallocated bitfield opcode"
     else Allocated).
Proof. intros Hf. cbv zeta. rewrite <- sf_bit by done. reflexivity. Qed.

(** The masked merge, bit by bit. *)
Lemma bitfield_bits w op r s source destination m full i :
  w = 32 \/ w = 64 -> 0 <= r < w -> 0 <= s < w -> 0 <= op < 3 ->
  full = Z.ones w -> fits w source -> fits w destination -> 0 <= i < w ->
  (forall i, 0 <= i < w ->
     Z.testbit (write_mask m) i = ((i + r) mod w <=? s) /\
     Z.testbit (test_mask m) i = (i <=? (s - r) mod w)) ->
  let rotated := wrap 64 (rotate_right source (mkBitWidth w) r) in
  let bottom :=
    if op =? 1 then Z.lor (Z.land destination (not_w 64 (write_mask m)))
                          (Z.land rotated (write_mask m))
    else Z.land rotated (write_mask m) in
  let top :=
    if (op =? 0) && negb (Z.land source (shl_w 64 1 s) =? 0) then full
    else if op =? 1 then destination else 0 in
  Z.testbit (wrap w (Z.lor (Z.land top (not_w 64 (test_mask m)))
                           (Z.land bottom (test_mask m)))) i =
  bitfield_bit w op r s source destination i.
Proof.
  intros Hw Hr Hs Hop -> Hsrc Hdst Hi Hm. cbv zeta.
  destruct (Hm i Hi) as [Hwm Htm]. clear Hm.
  assert (negb (Z.land source (shl_w 64 1 s) =? 0) = Z.testbit source s) as ->.
  { rewrite <- bit_set_spec by lia. unfold bit_set, shl_w. rewrite wrap_small; [done|].
    rewrite Z.shiftl_1_l. pose proof (pow2_lt s 64 ltac:(lia)). pose proof (pow2_pos s).
    unfold fits. lia. }
  assert (Z.testbit (wrap 64 (rotate_right source (mkBitWidth w) r)) i =
    Z.testbit source ((i + r) mod w)) as Hrot.
  { rewrite testbit_wrap, rotate_right_testbit by (unfold wf_width; simpl; lia).
    destruct (Z.ltb_spec i 64); [done|lia]. }
  rewrite testbit_wrap, Z.lor_spec, !Z.land_spec, testbit_not_w, Htm by lia.
  assert (Z.testbit (if op =? 1 then Z.lor (Z.land destination (not_w 64 (write_mask m)))
      (Z.land (wrap 64 (rotate_right source (mkBitWidth w) r)) (write_mask m))
    else Z.land (wrap 64 (rotate_right source (mkBitWidth w) r)) (write_mask m)) i =
    if (i + r) mod w <=? s then Z.testbit source ((i + r) mod w)
    else (op =? 1) && Z.testbit destination i) as ->.
  { destruct (op =? 1); rewrite ?Z.lor_spec, !Z.land_spec, ?testbit_not_w, Hrot, Hwm by lia;
      destruct (Z.ltb_spec i 64); try lia; destruct ((i + r) mod w <=? s);
      destruct (Z.testbit destination i), (Z.testbit source ((i + r) mod w)); done. }
  assert (Z.testbit (if (op =? 0) && Z.testbit source s then Z.ones w
      else if op =? 1 then destination else 0) i =
    if op =? 0 then Z.testbit source s else if op =? 1 then Z.testbit destination i else false) as ->.
  { destruct (Z.eqb_spec op 0), (Z.eqb_spec op 1); try lia; cbn [andb]; rewrite ?Z.bits_0; try done.
    destruct (Z.testbit source s); [|apply Z.bits_0]. rewrite Z.testbit_ones_nonneg by lia.
    destruct (Z.ltb_spec i w); [done|lia]. }
  unfold bitfield_bit. cbv zeta.
  assert ((s - r) mod w = if r <=? s then s - r else s - r + w) as ->.
  { destruct (Z.leb_spec r s); [apply Z.mod_small; lia|].
    rewrite <- (Z.mod_add _ 1), Z.mul_1_l by lia. apply Z.mod_small. lia. }
  assert ((i + r) mod w = if i + r <? w then i + r else i + r - w) as ->.
  { destruct (Z.ltb_spec (i + r) w); [apply Z.mod_small; lia|].
    rewrite <- (Z.mod_add _ (-1)) by lia. apply Z.mod_small. lia. }
  destruct (Z.ltb_spec i w); [|lia]. destruct (Z.ltb_spec i 64); [|lia]. cbn [andb].
  destruct (Z.leb_spec r s); zbits_split; try lia; cbn [negb andb orb];
    rewrite ?andb_false_r, ?andb_true_r, ?orb_false_r, ?orb_false_l; try done; f_equal; lia.
Qed.

(** An allocated bitfield encoding has consistent width fields. *)
Lemma allocated_bitfield bits :
  fits 32 bits -> validate 0x16 bits = Some Allocated ->
  let o := operands_of bits in
  n o = width_64 o /\
  (width_64 o = false ->
     shift_amount o < 32 /\ immediate_6_high o < 32 /\ subtract_product o = false) /\
  opcode o <> 3.
Proof.
  intros Hf. cbv zeta. rewrite opcode_fld, validate_bitfield by done.
  intros Hv%(inj Some). unfold operands_of.
  cbn [n width_64 shift_amount immediate_6_high subtract_product].
  pose proof (imms_high bits) as Hh.
  destruct (bit_set bits 22), (bit_set bits 31); cbn [Bool.eqb negb orb andb] in Hv; try done;
    [|destruct (Z.geb_spec (fld bits 16 0x3f) 32), (Z.geb_spec (fld bits 10 0x3f) 32); try done];
    cbn [orb] in Hv; destruct (Z.eqb_spec (fld bits 29 3) 3); try done; split_and!; try done; auto.
Qed.

(** Bitfield moves are exact: every allocated SBFM, BFM and UBFM encoding is
    executed, and the value it writes is, bit by bit, the field of the source
    moved to its place, with the destination kept around it by BFM, zeros by
    UBFM and the field's sign above it by SBFM. *)
Theorem bitfield_correct bits st :
  fits 32 bits -> validate 0x16 bits = Some Allocated -> state_wf st ->
  let o := operands_of bits in
  exists v, writes o st (bitfield o) v /\ fits (width o) v /\
  forall i, 0 <= i < width o ->
    Z.testbit v i =
    bitfield_bit (width o) (opcode o) (immediate_6_high o) (shift_amount o)
      (read st (rn o) (width o) false) (read st (rd o) (width o) false) i.
Proof.
  intros Hf Hv Hwf o. destruct (allocated_bitfield bits Hf Hv) as (Hn & H32 & Hop). fold o in Hn, H32, Hop.
  pose proof (operands_of_ok bits : operands_ok o) as Hok. clearbody o.
  destruct (masks_full o Hok Hn ltac:(naive_solver)) as (m & Hm & Hb).
  unfold bitfield. cbv zeta.
  replace (negb (Bool.eqb (n o) (width_64 o)) || (negb (width_64 o) && subtract_product o)) with false.
  2: { rewrite Hn, eqb_reflx. destruct (width_64 o); [done|]. simpl. symmetry. naive_solver. }
  destruct (Z.eqb_spec (opcode o) 3); [done|]. rewrite Hm, bit_width_ok.
  eexists. split; [apply writes_masked|]. pose proof (width_range o) as Hw.
  split; [apply wrap_fits; lia|]. intros i Hi.
  apply bitfield_bits; auto using read_width, width_cases.
  - pose proof (ok_immediate_6 _ Hok) as Hr. unfold fits in Hr. unfold width.
    destruct (width_64 o); naive_solver lia.
  - pose proof (ok_shift_amount _ Hok) as Hr. unfold fits in Hr. unfold width.
    destruct (width_64 o); naive_solver lia.
  - pose proof (opcode_cases o). lia.
  - unfold mask, width. by destruct (width_64 o).
Qed.

(** [ubfx x0, x1, #4, #8] of [x1 = 0xabcd]. *)
Lemma bitfield_correct_witness :
  let st := write_x (zero_register 1) 0xabcd A64State_default in
  let o := operands_of 0xd344_2c20 in
  exists v, writes o st (bitfield o) v /\ Z.testbit v 0 = false /\ Z.testbit v 2 = true.
Proof.
  intros st o.
  assert (state_wf st) as Hwf by (apply write_x_wf; [exact default_wf|by vm_compute]).
  destruct (bitfield_correct 0xd344_2c20 st ltac:(by vm_compute) eq_refl Hwf) as (v & Hv & _ & Hb).
  exists v. split; [exact Hv|].
  rewrite (Hb 0), (Hb 2) by (split; by vm_compute). split; reflexivity.
Defined.

(** ** Extraction from a register pair *)

Lemma validate_extract bits :
  fits 32 bits ->
  validate 0x17 bits = Some
    (let sf := bit_set bits 31 in
     if negb (Bool.eqb (bit_set bits 22) sf) || (negb sf && (fld bits 10 0x3f >=? 32))
     then Reserved "invalid extract width fields" else Allocated).
Proof. intros Hf. cbv zeta. rewrite <- sf_bit by done. reflexivity. Qed.

Lemma allocated_extract bits :
  fits 32 bits -> validate 0x17 bits = Some Allocated ->
  let o := operands_of bits in
  n o = width_64 o /\ 0 <= shift_amount o < width o.
Proof.
  intros Hf. cbv zeta. rewrite validate_extract by done.
  pose proof (ok_shift_amount _ (operands_of_ok bits)) as Hs. revert Hs.
  unfold operands_of, width, fits. cbn [n width_64 shift_amount]. intros Hs Hv%(inj Some).
  destruct (bit_set bits 22), (bit_set bits 31); cbn [Bool.eqb negb orb andb] in Hv; try done.
  destruct (Z.geb_spec (fld bits 10 0x3f) 32); [done|]. split; [done|lia].
Qed.

(** EXTR is exact: every allocated encoding is executed and writes the
    [width] bits that start at bit [lsb] of the pair [rn:rm], with rm below
    rn. *)
Theorem extract_correct bits st :
  fits 32 bits -> validate 0x17 bits = Some Allocated -> state_wf st ->
  let o := operands_of bits in
  let w := width o in
  writes o st (extract o)
    (wrap w (Z.shiftr (read st (rm o) w false + read st (rn o) w false * 2 ^ w) (shift_amount o))).
Proof.
  intros Hf Hv Hwf o w. destruct (allocated_extract bits Hf Hv) as (Hn & Hs). fold o in Hn, Hs. fold w in Hs.
  pose proof (width_cases o) as Hw. fold w in Hw.
  pose proof (read_width st o (rm o) false Hwf) as Hlow. pose proof (read_width st o (rn o) false Hwf) as Hhigh.
  fold w in Hlow, Hhigh.
  unfold extract. fold w. cbv zeta.
  replace (negb (Bool.eqb (n o) (width_64 o)) || ((w =? 32) && (32 <=? shift_amount o))) with false.
  2: { rewrite Hn, eqb_reflx. destruct (Z.eqb_spec w 32), (Z.leb_spec 32 (shift_amount o)); done || lia. }
  match goal with |- writes _ _ _ ?v => replace v with (wrap w
    (if shift_amount o =? 0 then read st (rm o) w false
     else Z.lor (Z.shiftr (read st (rm o) w false) (shift_amount o))
            (shl_w 64 (read st (rn o) w false) (w - shift_amount o)))) end.
  { apply (writes_masked o st). }
  set (low := read st (rm o) w false) in *. set (high := read st (rn o) w false) in *.
  rewrite add_high by (done || lia). destruct (Z.eqb_spec (shift_amount o) 0) as [->|].
  - rewrite Z.shiftr_0_r. zbits. by rewrite (Z.testbit_neg_r high) by lia; rewrite orb_false_r.
  - zbits. do 2 f_equal. lia.
Qed.

(** [extr x0, x1, x2, #8]. *)
Lemma extract_correct_witness :
  let st := write_x (zero_register 1) 0xab A64State_default in
  writes (operands_of 0x93c2_2020) st (extract (operands_of 0x93c2_2020)) 0xab00000000000000.
Proof.
  intros st.
  assert (state_wf st) as Hwf by (apply write_x_wf; [exact default_wf|by vm_compute]).
  exact (extract_correct 0x93c2_2020 st ltac:(by vm_compute) eq_refl Hwf).
Defined.

(** ** Division and variable shifts *)

(** UDIV, SDIV, LSLV, LSRV, ASRV and RORV: division truncates toward zero, a
    zero divisor gives zero, the one signed overflow gives the dividend back,
    and a shift amount is taken modulo the width. *)
Definition two_source_spec (w op a b v : Z) : Prop :=
  let sa := as_signed w a in
  let sb := as_signed w b in
  match op with
  | 2 => if b =? 0 then v = 0 else v * b <= a < (v + 1) * b
  | 3 =>
      as_signed w v =
      if sb =? 0 then 0
      else if (sa =? - 2 ^ (w - 1)) && (sb =? -1) then sa else Z.quot sa sb
  | 8 => shift_spec w a LogicalLeft (b mod w) v
  | 9 => shift_spec w a LogicalRight (b mod w) v
  | 10 => shift_spec w a ArithmeticRight (b mod w) v
  | 11 => shift_spec w a RotateRight (b mod w) v
  | _ => False
  end.

Lemma shift_mod w b : w = 32 \/ w = 64 -> wrap 8 (Z.land b (w - 1)) = b mod w.
Proof.
  intros Hw. assert (Z.land b (w - 1) = b mod w) as ->.
  { destruct Hw as [-> | ->];
      [change (32 - 1) with (Z.ones 5)|change (64 - 1) with (Z.ones 6)]; by rewrite Z.land_ones. }
  apply wrap_small. pose proof (Z.mod_pos_bound b w ltac:(lia)). unfold fits. lia.
Qed.

Lemma quot_range h a b :
  - h <= a < h -> b <> 0 -> a <> - h \/ b <> -1 -> - h <= Z.quot a b < h.
Proof.
  intros Ha Hb Hov. destruct (Z.le_gt_cases 0 a).
  - pose proof (Z.mul_quot_le a b). destruct (Z.le_gt_cases 0 b); nia.
  - pose proof (Z.mul_quot_ge a b). destruct (Z.le_gt_cases 0 b); [nia|].
    destruct (Z.eq_dec b (-1)) as [->|]; nia.
Qed.

Lemma signed_divide_spec w a b :
  w = 32 \/ w = 64 -> fits w (signed_divide a b w) /\
  as_signed w (signed_divide a b w) =
  let sa := as_signed w a in
  let sb := as_signed w b in
  if sb =? 0 then 0
  else if (sa =? - 2 ^ (w - 1)) && (sb =? -1) then sa else Z.quot sa sb.
Proof.
  intros Hw. cbv zeta.
  assert (signed_divide a b w = if as_signed w b =? 0 then 0
    else wrap w (Z.quot (as_signed w a) (as_signed w b))) as -> by (by destruct Hw as [-> | ->]).
  assert (1 <= w) as H1 by lia. pose proof (as_signed_range w a ltac:(lia)) as Ha.
  pose proof (pow2_half w ltac:(lia)). pose proof (pow2_pos (w - 1)).
  set (sa := as_signed w a) in *. set (sb := as_signed w b). clearbody sa sb.
  destruct (Z.eqb_spec sb 0) as [|Hb].
  - split; [by apply fits_0; lia|]. apply as_signed_small; lia.
  - split; [apply wrap_fits; lia|]. rewrite as_signed_wrap.
    destruct (Z.eqb_spec sa (- 2 ^ (w - 1))) as [->|]; [destruct (Z.eqb_spec sb (-1)) as [->|]|]; cbn [andb].
    + symmetry. apply as_signed_unique; [lia|lia|].
      change (-1) with (- (1)). rewrite Z.quot_opp_opp, Z.quot_1_r by lia.
      rewrite <- (wrap_plus_pow w _ 1). f_equal. lia.
    + apply as_signed_small; [lia|]. apply quot_range; lia.
    + apply as_signed_small; [lia|]. apply quot_range; lia.
Qed.

Lemma shift_value w a b kind :
  w = 32 \/ w = 64 -> fits w a ->
  shift_spec w a kind (b mod w)
    (wrap w match kind with
            | LogicalLeft => shl_w 64 a (b mod w mod 64)
            | LogicalRight => Z.shiftr a (b mod w mod 64)
            | ArithmeticRight => arithmetic_shift_right a (b mod w) w
            | RotateRight => wrap 64 (rotate_right a (mkBitWidth w) (b mod w))
            end).
Proof.
  intros Hw Ha. pose proof (Z.mod_pos_bound b w ltac:(lia)) as Hb. set (k := b mod w) in *. clearbody k.
  rewrite !(Z.mod_small k 64) by lia. destruct kind; unfold shift_spec.
  - unfold shl_w. rewrite wrap_wrap_le by lia. rewrite (wrap_small w a) by done.
    by rewrite Z.shiftl_mul_pow2 by lia.
  - rewrite (wrap_small w a) by done. rewrite <- Z.shiftr_div_pow2 by lia.
    apply wrap_small. apply fits_shiftr; lia || done.
  - replace (arithmetic_shift_right a k w) with (wrap w (Z.shiftr (as_signed w a) k))
      by (by destruct Hw as [-> | ->]).
    by rewrite wrap_wrap, Z.shiftr_div_pow2 by lia.
  - intros i Hi. rewrite wrap_wrap_le, testbit_wrap by lia.
    rewrite rotate_right_testbit by (unfold wf_width; simpl; lia).
    by destruct (Z.ltb_spec i w); [|lia].
Qed.

(** Divisions and variable shifts are exact: UDIV, SDIV, LSLV, LSRV, ASRV and
    RORV write the truncated quotient (zero for a zero divisor, the dividend
    for the overflowing signed case) or the shift by the amount modulo the
    width, at both widths; any other opcode is reported unsupported and
    changes nothing. *)
Theorem two_source_correct o st :
  operands_ok o -> state_wf st ->
  let w := width o in
  if one_of (shift_amount o) [2; 3; 8; 9; 10; 11] then
    exists v, writes o st (two_source o) v /\ fits w v /\
    two_source_spec w (shift_amount o) (read st (rn o) w false) (read st (rm o) w false) v
  else two_source o st = (st, Ok false).
Proof.
  intros Hok Hwf w. pose proof (width_cases o) as Hw. fold w in Hw.
  pose proof (read_width st o (rn o) false Hwf) as Ha. pose proof (read_width st o (rm o) false Hwf) as Hb.
  fold w in Ha, Hb. set (a := read st (rn o) w false) in *. set (b := read st (rm o) w false) in *.
  assert (two_source o st =
    match match shift_amount o with
          | 2 => Some (if b =? 0 then 0 else a / b)
          | 3 => Some (signed_divide a b w)
          | 8 => Some (shl_w 64 a (b mod w mod 64))
          | 9 => Some (Z.shiftr a (b mod w mod 64))
          | 10 => Some (arithmetic_shift_right a (b mod w) w)
          | 11 => Some (wrap 64 (rotate_right a (mkBitWidth w) (b mod w)))
          | _ => None
          end with
    | None => (st, Ok false)
    | Some r => (write_x (zero_register (rd o)) (wrap w r) st, Ok true)
    end) as E.
  { unfold two_source. cbv zeta. erewrite M_bind_ok by reflexivity. unfold id. fold w a b.
    rewrite bit_width_ok. erewrite M_bind_ok by reflexivity. fold w. rewrite shift_mod by done.
    case_match; [|done]. apply writes_masked. }
  unfold writes. generalize dependent (two_source o st). intros result E. subst result.
  destruct (one_of (shift_amount o) _) eqn:Hop.
  - apply one_of_spec in Hop. rewrite !elem_of_cons in Hop.
    destruct Hop as [->|[->|[->|[->|[->|[->|?%elem_of_nil]]]]]]; [| | | | | |done];
      eexists; (split; [reflexivity|]); (split; [apply wrap_fits; lia|]); unfold two_source_spec;
      cbv zeta.
    + unfold fits in Ha, Hb. destruct (Z.eqb_spec b 0); [by apply wrap_small, fits_0; lia|].
      pose proof (Z.div_pos a b). pose proof (Z.mul_div_le a b). pose proof (Z.mul_succ_div_gt a b).
      rewrite wrap_small by (unfold fits; nia). lia.
    + rewrite as_signed_wrap. by apply signed_divide_spec.
    + by apply (shift_value w a b LogicalLeft).
    + by apply (shift_value w a b LogicalRight).
    + by apply (shift_value w a b ArithmeticRight).
    + by apply (shift_value w a b RotateRight).
  - unfold one_of in Hop. cbn [existsb] in Hop. rewrite !orb_false_iff, !Z.eqb_neq in Hop.
    repeat case_match; try done; lia.
Qed.

(** [sdiv w0, w1, w2] of the overflowing pair. *)
Lemma two_source_correct_witness :
  let st := write_x (zero_register 2) 0xffffffff (write_x (zero_register 1) 0x80000000 A64State_default) in
  exists v, writes (operands_of 0x1ac2_0c20) st (two_source (operands_of 0x1ac2_0c20)) v /\
    as_signed 32 v = - 2 ^ 31.
Proof.
  intros st.
  assert (state_wf st) as Hwf.
  { apply write_x_wf; [apply write_x_wf; [exact default_wf|by vm_compute]|by vm_compute]. }
  destruct (two_source_correct (operands_of 0x1ac2_0c20) st (operands_of_ok _) Hwf) as (v & Hv & _ & Hs).
  exists v. split; [exact Hv|exact Hs].
Defined.

(** ** Multiplication *)

(** MADD and MSUB (0), SMADDL and SMSUBL (1), SMULH (2), UMADDL and UMSUBL (5),
    UMULH (6). *)
Definition three_source_spec (w op : Z) (sub : bool) (x y addend : Z -> Z) (v : Z) : Prop :=
  let accumulate base product := if sub then base - product else base + product in
  match op with
  | 0 => v = wrap w (accumulate (addend w) (x w * y w))
  | 1 => v = wrap 64 (accumulate (addend 64) (as_signed 32 (x 32) * as_signed 32 (y 32)))
  | 2 => fits 64 v /\ as_signed 64 v = as_signed 64 (x 64) * as_signed 64 (y 64) / 2 ^ 64
  | 5 => v = wrap 64 (accumulate (addend 64) (x 32 * y 32))
  | 6 => v = x 64 * y 64 / 2 ^ 64
  | _ => False
  end.

Lemma wrap_add_wrap v w a b : 0 <= v <= w -> wrap v (wrap w (a + wrap w b)) = wrap v (a + b).
Proof.
  intros. rewrite wrap_wrap_le by done. rewrite (wrap_eq w b).
  apply (wrap_congr v _ _ (- (b / 2 ^ w) * 2 ^ (w - v))).
  rewrite <- Z.mul_assoc, <- Z.pow_add_r by lia. replace (w - v + v) with w by lia. lia.
Qed.

Lemma wrap_sub_wrap v w a b : 0 <= v <= w -> wrap v (wrap w (a - wrap w b)) = wrap v (a - b).
Proof.
  intros. rewrite wrap_wrap_le by done. rewrite (wrap_eq w b).
  apply (wrap_congr v _ _ (b / 2 ^ w * 2 ^ (w - v))).
  rewrite <- Z.mul_assoc, <- Z.pow_add_r by lia. replace (w - v + v) with w by lia. lia.
Qed.

Lemma wrap_signed_addend w a b : 0 <= w -> wrap w (as_signed w a + b) = wrap w (a + b).
Proof.
  intros. unfold wrap. rewrite <- Zplus_mod_idemp_l. fold (wrap w (as_signed w a)).
  rewrite wrap_as_signed by done. unfold wrap. by rewrite Zplus_mod_idemp_l.
Qed.

Lemma signed_product_32 a b :
  as_signed 64 (as_signed 32 a * as_signed 32 b) = as_signed 32 a * as_signed 32 b.
Proof.
  pose proof (as_signed_range 32 a). pose proof (as_signed_range 32 b).
  apply as_signed_small; [lia|]. simpl Z.sub in *. nia.
Qed.

Lemma high_product_signed a b :
  as_signed 64 (wrap 64 (Z.shiftr (as_signed 64 a * as_signed 64 b) 64)) =
  as_signed 64 a * as_signed 64 b / 2 ^ 64.
Proof.
  rewrite as_signed_wrap, Z.shiftr_div_pow2 by lia.
  pose proof (as_signed_range 64 a). pose proof (as_signed_range 64 b).
  set (x := as_signed 64 a) in *. set (y := as_signed 64 b) in *. clearbody x y. simpl Z.sub in *.
  assert (- 2 ^ 126 <= x * y <= 2 ^ 126) by nia.
  apply as_signed_small; [lia|]. simpl Z.sub.
  split; [apply Z.div_le_lower_bound|apply Z.div_lt_upper_bound]; lia.
Qed.

Lemma high_product_unsigned a b :
  fits 64 a -> fits 64 b -> wrap 64 (Z.shiftr (a * b) 64) = a * b / 2 ^ 64.
Proof.
  unfold fits. intros. rewrite Z.shiftr_div_pow2 by lia. apply wrap_small. unfold fits.
  split; [apply Z.div_pos; nia|apply Z.div_lt_upper_bound; nia].
Qed.

(** Multiplications are exact: the multiply-accumulate, widening and
    high-half instructions write the accumulated product modulo the register
    width, the signed widening ones with signed operands, and the high half of
    the full 128-bit product. *)
Theorem three_source_correct o st :
  operands_ok o -> state_wf st ->
  let supported := one_of (opcode_3 o) [0; 1; 5] ||
    (one_of (opcode_3 o) [2; 6] && ((ra o =? 31) && negb (subtract_product o))) in
  if supported then
    exists v, writes o st (three_source o) v /\
    three_source_spec (width o) (opcode_3 o) (subtract_product o)
      (fun w => read st (rn o) w false) (fun w => read st (rm o) w false)
      (fun w => read st (ra o) w false) v
  else three_source o st = (st, Ok false).
Proof.
  intros Hok Hwf. cbv zeta. pose proof (width_range o) as Hw.
  pose proof (read_fits_64 st (rn o) 64 false ltac:(lia) Hwf) as Hn.
  pose proof (read_fits_64 st (rm o) 64 false ltac:(lia) Hwf) as Hm.
  assert (forall i, wrap 32 (read st i 32 false) = read st i 32 false) as H32
    by (intros; apply wrap_small, read_fits; [lia|done]).
  assert (forall w a p, 0 <= w <= 64 ->
    wrap w (if subtract_product o then wrapping_sub 64 a (wrap 64 p) else wrapping_add 64 a (wrap 64 p)) =
    wrap w (if subtract_product o then a - p else a + p)) as Hacc.
  { intros. unfold wrapping_sub, wrapping_add.
    destruct (subtract_product o); [by apply wrap_sub_wrap|by apply wrap_add_wrap]. }
  pose proof (ok_opcode_3 _ Hok) as Ho. unfold fits in Ho.
  unfold writes, three_source. erewrite M_bind_ok by reflexivity. unfold id. cbv zeta.
  assert (opcode_3 o = 0 \/ opcode_3 o = 1 \/ opcode_3 o = 2 \/ opcode_3 o = 3 \/ opcode_3 o = 4 \/
    opcode_3 o = 5 \/ opcode_3 o = 6 \/ opcode_3 o = 7) as Hc by lia.
  repeat destruct Hc as [Hc|Hc]; rewrite Hc; cbn [one_of existsb Z.eqb Pos.eqb orb andb]; try done.
  - eexists. split; [apply writes_masked|]. unfold wrapping_mul, three_source_spec.
    by rewrite Hacc by lia.
  - eexists. split; [apply (writes_write o st 64); [lia|]|].
    { destruct (subtract_product o); by apply wrap_fits. }
    unfold three_source_spec. rewrite signed_product_32. destruct (subtract_product o).
    + rewrite <- !Z.add_opp_r. by apply wrap_signed_addend.
    + by apply wrap_signed_addend.
  - destruct ((ra o =? 31) && negb (subtract_product o)); [|done].
    eexists. split; [apply (writes_write o st 64); [lia|by apply wrap_fits]|].
    split; [by apply wrap_fits|apply high_product_signed].
  - eexists. split; [apply (writes_write o st 64); [lia|]|].
    { unfold wrapping_sub, wrapping_add. destruct (subtract_product o); by apply wrap_fits. }
    unfold three_source_spec, wrapping_mul. rewrite !H32.
    rewrite <- (Hacc 64) by lia. unfold wrapping_sub, wrapping_add.
    destruct (subtract_product o); by rewrite wrap_wrap.
  - destruct ((ra o =? 31) && negb (subtract_product o)); [|done].
    eexists. split; [apply (writes_write o st 64); [lia|by apply wrap_fits]|].
    by apply high_product_unsigned.
Qed.

(** [umulh x0, x1, x2]. *)
Lemma three_source_correct_witness :
  let st := write_x (zero_register 2) (2 ^ 63) (write_x (zero_register 1) (2 ^ 63) A64State_default) in
  exists v, writes (operands_of 0x9bc2_7c20) st (three_source (operands_of 0x9bc2_7c20)) v /\
    v = 2 ^ 62.
Proof.
  intros st.
  assert (state_wf st) as Hwf.
  { apply write_x_wf; [apply write_x_wf; [exact default_wf|by vm_compute]|by vm_compute]. }
  destruct (three_source_correct (operands_of 0x9bc2_7c20) st (operands_of_ok _) Hwf) as (v & Hv & Hs).
  exists v. split; [exact Hv|exact Hs].
Defined.

(** ** Reversal and counting *)

(** RBIT (0), REV16 (1), REV32 or the 32-bit REV (2), the 64-bit REV (3), CLZ (4)
    and CLS (5). *)
Definition byte_reversed (w chunk x v : Z) : Prop :=
  forall i, 0 <= i < w ->
    Z.testbit v i =
    Z.testbit x (8 * (i / 8 / chunk * chunk + (chunk - 1 - i / 8 mod chunk)) + i mod 8).

Definition one_source_spec (w op x v : Z) : Prop :=
  match op with
  | 0 => forall i, 0 <= i < w -> Z.testbit v i = Z.testbit x (w - 1 - i)
  | 1 => byte_reversed w 2 x v
  | 2 => byte_reversed w 4 x v
  | 3 => byte_reversed w (w / 8) x v
  | 4 => if x =? 0 then v = w else 0 <= v < w /\ 2 ^ (w - 1 - v) <= x < 2 ^ (w - v)
  | 5 =>
      0 <= v < w /\
      (forall i, w - 1 - v <= i < w -> Z.testbit x i = Z.testbit x (w - 1)) /\
      (v < w - 1 -> Z.testbit x (w - 2 - v) = negb (Z.testbit x (w - 1)))
  | _ => False
  end.

Definition byte (x k : Z) : Z := wrap 8 (Z.shiftr x (8 * k)).

Lemma to_le_bytes_byte c x : to_le_bytes c x = map (fun k => byte x (Z.of_nat k)) (seq 0 c).
Proof.
  apply list_eq. intros k. destruct (decide (k < c)%nat).
  - rewrite to_le_bytes_lookup by done. rewrite list_lookup_fmap, lookup_seq_lt by done. done.
  - rewrite !lookup_ge_None_2; [done| |]; rewrite ?length_map, ?length_seq, ?le_bytes_count; lia.
Qed.

Lemma bytes_testbit x idxs i k :
  0 <= i -> idxs !! Z.to_nat (i / 8) = Some k -> 0 <= k ->
  Z.testbit (from_le_bytes (map (byte x) idxs)) i = Z.testbit x (8 * k + i mod 8).
Proof.
  intros Hi Hk H0. pose proof (Z.mod_pos_bound i 8 ltac:(lia)).
  rewrite from_le_bytes_testbit; [|apply Forall_map, Forall_true; intros; by apply wrap_fits|done].
  rewrite list_lookup_fmap, Hk. cbn. unfold byte. rewrite testbit_wrap, Z.shiftr_spec by lia.
  destruct (Z.ltb_spec (i mod 8) 8); [|lia]. cbn. f_equal. lia.
Qed.

(** A permutation of bytes reverses them in chunks. *)
Lemma bytes_reversed w chunk x idxs :
  forallb (fun b => bool_decide (idxs !! b =
    Some (Z.of_nat b / chunk * chunk + (chunk - 1 - Z.of_nat b mod chunk))))
    (seq 0 (Z.to_nat (w / 8))) = true ->
  0 < chunk -> 0 <= w -> w mod 8 = 0 -> byte_reversed w chunk x (from_le_bytes (map (byte x) idxs)).
Proof.
  intros Hall Hc Hw H8 i Hi. rewrite forallb_forall in Hall.
  pose proof (Z.div_pos i 8). pose proof (Z.div_lt_upper_bound i 8 (w / 8)).
  pose proof (Z.div_mod w 8).
  specialize (Hall (Z.to_nat (i / 8))). rewrite bool_decide_eq_true, Z2Nat.id in Hall by lia.
  apply bytes_testbit; [lia| |].
  - apply Hall. apply in_seq. split; [lia|]. apply Nat2Z.inj_lt. simpl. lia.
  - pose proof (Z.mod_pos_bound (i / 8) chunk ltac:(lia)).
    pose proof (Z.div_pos (i / 8) chunk). nia.
Qed.

Lemma byte_reversed_wrap w chunk x v :
  0 <= w -> byte_reversed w chunk x v -> byte_reversed w chunk x (wrap w v).
Proof.
  intros Hw Hv i Hi. rewrite testbit_wrap, <- Hv by done. destruct (Z.ltb_spec i w); [done|lia].
Qed.

(** The leading zeros of a value whose top bit is clear, less one: the bits down
    to that position are clear, and the next is set. *)
Lemma leading_zeros_run w x :
  0 < w -> fits w x -> Z.testbit x (w - 1) = false ->
  let v := Z.max 0 (leading_zeros w x - 1) in
  0 <= v < w /\ (forall i, w - 1 - v <= i < w -> Z.testbit x i = false) /\
  (v < w - 1 -> Z.testbit x (w - 2 - v) = true).
Proof.
  intros Hw Hf Ht. cbv zeta. rewrite fits_testbit_top in Ht by done.
  apply negb_false_iff, Z.ltb_lt in Ht. unfold fits in Hf. unfold leading_zeros.
  destruct (Z.eqb_spec x 0) as [->|Hx].
  - rewrite Z.max_r by lia. split; [lia|]. split; [intros; apply Z.bits_0|lia].
  - pose proof (Z.log2_spec x ltac:(lia)) as [Hl Hu]. pose proof (Z.log2_nonneg x).
    assert (Z.log2 x < w - 1) by (apply Z.log2_lt_pow2; lia).
    rewrite Z.max_r by lia. split; [lia|]. split.
    + intros i Hi. apply Z.bits_above_log2; lia.
    + intros _. replace (w - 2 - (w - 1 - Z.log2 x - 1)) with (Z.log2 x) by lia.
      apply Z.bit_log2. lia.
Qed.

Lemma count_leading_sign_spec w x :
  0 < w -> fits w x -> one_source_spec w 5 x (count_leading_sign w x).
Proof.
  intros Hw Hf. unfold count_leading_sign, one_source_spec.
  assert ((Z.shiftr x (w - 1) =? 0) = negb (Z.testbit x (w - 1))) as ->.
  { rewrite (fits_testbit_top w) by done. rewrite negb_involutive. unfold fits in Hf.
    rewrite Z.shiftr_div_pow2 by lia. apply eq_true_iff_eq. rewrite Z.eqb_eq, Z.ltb_lt.
    pose proof (pow2_pos (w - 1)). pose proof (Z.div_small_iff x (2 ^ (w - 1))). lia. }
  destruct (Z.testbit x (w - 1)) eqn:Hs; cbn [negb].
  - assert (forall i, 0 <= i < w -> Z.testbit (not_w w x) i = negb (Z.testbit x i)) as Hn.
    { intros i Hi. rewrite testbit_not_w by lia. destruct (Z.ltb_spec i w); [done|lia]. }
    assert (fits w (not_w w x)) as Hf' by (apply fits_not_w; lia).
    destruct (leading_zeros_run w (not_w w x) Hw Hf') as (Hv & Hrun & Hnext).
    { rewrite Hn, Hs by lia. done. }
    split; [done|]. split.
    + intros i Hi. specialize (Hrun i Hi). rewrite Hn in Hrun by lia. by apply negb_false_iff.
    + intros Hlt. specialize (Hnext Hlt). rewrite Hn in Hnext by lia. by apply negb_true_iff.
  - destruct (leading_zeros_run w x Hw Hf Hs) as (Hv & Hrun & Hnext). auto.
Qed.

Lemma leading_zeros_spec w x : 0 < w -> fits w x -> one_source_spec w 4 x (leading_zeros w x).
Proof.
  intros Hw Hf. unfold one_source_spec, leading_zeros. destruct (Z.eqb_spec x 0); [done|].
  unfold fits in Hf. pose proof (Z.log2_spec x ltac:(lia)) as [Hl Hu]. pose proof (Z.log2_nonneg x).
  assert (Z.log2 x < w) by (apply Z.log2_lt_pow2; lia). split; [lia|].
  replace (w - 1 - (w - 1 - Z.log2 x)) with (Z.log2 x) by lia.
  replace (w - (w - 1 - Z.log2 x)) with (Z.succ (Z.log2 x)) by lia. lia.
Qed.

Lemma reverse_bytes_spec x :
  byte_reversed 64 2 x (reverse_chunks x 64 2) /\ byte_reversed 64 4 x (reverse_chunks x 64 4) /\
  byte_reversed 32 2 x (reverse_chunks x 32 2) /\ byte_reversed 32 4 x (reverse_chunks x 32 4) /\
  byte_reversed 64 8 x (swap_bytes 8 x) /\ byte_reversed 32 4 x (swap_bytes 4 x).
Proof.
  unfold reverse_chunks, swap_bytes. rewrite !to_le_bytes_byte.
  split_and!;
    lazymatch goal with
    | |- byte_reversed 64 2 _ _ => apply (bytes_reversed 64 2 x [1; 0; 3; 2; 5; 4; 7; 6])
    | |- byte_reversed 64 4 _ _ => apply (bytes_reversed 64 4 x [3; 2; 1; 0; 7; 6; 5; 4])
    | |- byte_reversed 64 8 _ _ => apply (bytes_reversed 64 8 x [7; 6; 5; 4; 3; 2; 1; 0])
    | |- byte_reversed 32 2 _ _ => apply (bytes_reversed 32 2 x [1; 0; 3; 2; 4; 5; 6; 7])
    | |- byte_reversed 32 4 _ (from_le_bytes (rev _)) => apply (bytes_reversed 32 4 x [3; 2; 1; 0])
    | |- byte_reversed 32 4 _ _ => apply (bytes_reversed 32 4 x [3; 2; 1; 0; 4; 5; 6; 7])
    end; done || lia.
Qed.

(** The value of the [match] in [one_source]. *)
Definition one_source_value (w op x : Z) : option Z :=
  match op with
  | 0 => Some (if w =? 64 then reverse_bits 64 x else reverse_bits 32 (wrap 32 x))
  | 1 => Some (reverse_chunks x w 2)
  | 2 => Some (reverse_chunks x w 4)
  | 3 => Some (if w =? 64 then swap_bytes 8 x else swap_bytes 4 (wrap 32 x))
  | 4 => Some (if w =? 64 then leading_zeros 64 x else leading_zeros 32 (wrap 32 x))
  | 5 => Some (if w =? 64 then count_leading_sign 64 x else count_leading_sign 32 (wrap 32 x))
  | _ => None
  end.

Lemma one_source_value_ok w op x :
  w = 32 \/ w = 64 -> fits w x -> 0 <= op < 6 ->
  exists r, one_source_value w op x = Some r /\ fits 64 r /\ one_source_spec w op x (wrap w r).
Proof.
  intros Hw Hx Hop. destruct (reverse_bytes_spec x) as (R1 & R2 & R3 & R4 & R5 & R6).
  assert (op = 0 \/ op = 1 \/ op = 2 \/ op = 3 \/ op = 4 \/ op = 5) as Hc by lia.
  assert (forall r, fits w r -> one_source_spec w op x r ->
    fits 64 r /\ one_source_spec w op x (wrap w r)) as Hin.
  { intros r Hr Hs. rewrite wrap_small by done. split; [|done]. apply (fits_le w); [lia|done]. }
  pose proof (leading_zeros_range w x ltac:(lia) Hx).
  pose proof (count_leading_sign_spec w x ltac:(lia) Hx) as Hcls. pose proof (proj1 Hcls).
  assert (forall r, 0 <= r <= w -> fits w r) as Hsmall by (unfold fits; destruct Hw as [-> | ->]; lia).
  destruct Hw as [-> | ->]; repeat destruct Hc as [-> |Hc]; subst; unfold one_source_value;
    cbn [Z.eqb Pos.eqb]; rewrite ?(wrap_small 32 x) by done; eexists; (split; [reflexivity|]);
    try (apply Hin; [apply Hsmall; lia|done || (apply leading_zeros_spec; [lia|done])]; fail);
    try (split; [apply reverse_chunks_fits|by apply byte_reversed_wrap; [lia|]]).
  all: apply Hin; [first [exact (reverse_bits_fits 32 x)|exact (reverse_bits_fits 64 x)
                         |exact (swap_bytes_fits 4 x)|exact (swap_bytes_fits 8 x)]|]; try done.
  all: intros i Hi; rewrite reverse_bits_testbit by lia.
  - change (Z.of_nat 32) with 32. destruct (Z.ltb_spec i 32); [done|lia].
  - change (Z.of_nat 64) with 64. destruct (Z.ltb_spec i 64); [done|lia].
Qed.

(** Reversal and counting are exact: RBIT, REV16, REV32, REV, CLZ and CLS
    write the reversed bits, the bytes reversed within each chunk, the position
    of the highest set bit and the length of the run of sign copies, at both
    widths; any other opcode is reported unsupported and changes nothing. *)
Theorem one_source_correct o st :
  operands_ok o -> state_wf st ->
  let w := width o in
  if shift_amount o <? 6 then
    exists v, writes o st (one_source o) v /\ fits w v /\
    one_source_spec w (shift_amount o) (read st (rn o) w false) v
  else one_source o st = (st, Ok false).
Proof.
  intros Hok Hwf w. pose proof (width_cases o) as Hw. fold w in Hw.
  pose proof (read_width st o (rn o) false Hwf) as Hx. fold w in Hx.
  pose proof (ok_shift_amount _ Hok) as Ho. unfold fits in Ho.
  set (x := read st (rn o) w false) in *.
  assert (one_source o st = match one_source_value w (shift_amount o) x with
    | None => mret false
    | Some r => _ ← write (rd o) w false r; mret true
    end st) as E by reflexivity.
  unfold writes. generalize dependent (one_source o st). intros result ->.
  destruct (Z.ltb_spec (shift_amount o) 6).
  - destruct (one_source_value_ok w (shift_amount o) x Hw Hx ltac:(lia)) as (r & -> & Hr & Hs).
    exists (wrap w r). split; [|split; [apply wrap_fits; lia|done]].
    erewrite M_bind_ok; [reflexivity|]. by apply write_spec.
  - unfold one_source_value. repeat case_match; done || lia.
Qed.

(** [cls w0, w1] of [0xffff0000]. *)
Lemma one_source_correct_witness :
  let st := write_x (zero_register 1) 0xffff0000 A64State_default in
  exists v, writes (operands_of 0x5ac0_1420) st (one_source (operands_of 0x5ac0_1420)) v /\
    one_source_spec 32 5 0xffff0000 v.
Proof.
  intros st.
  assert (state_wf st) as Hwf by (apply write_x_wf; [exact default_wf|by vm_compute]).
  destruct (one_source_correct (operands_of 0x5ac0_1420) st (operands_of_ok _) Hwf) as (v & Hv & _ & Hs).
  exists v. split; [exact Hv|exact Hs].
Defined.

(** ** Additions to register 31 *)

Lemma apply_add_sub_run o a b c st :
  set_flags o = false ->
  apply_add_sub o a b c st =
  (write_x (register (rd o) (rd o =? 31))
     (wrap (width o) (if subtract o then a - b - (1 - Z.b2z c) else a + b + Z.b2z c)) st, Ok tt).
Proof.
  intros Hf. unfold apply_add_sub. rewrite bit_width_ok, Hf. erewrite M_bind_ok by reflexivity.
  cbv zeta. cbn [negb andb]. pose proof (width_range o) as Hw.
  assert (Arithmetic.result (if subtract o then subtract_with_carry a b c (mkBitWidth (width o))
      else add_with_carry a b c (mkBitWidth (width o))) =
    wrap (width o) (if subtract o then a - b - (1 - Z.b2z c) else a + b + Z.b2z c)) as ->.
  { destruct (subtract o); [by rewrite sub_result by apply width_wf|].
    by rewrite add_result by apply width_wf. }
  rewrite (wrap_small 64) by (apply wrap_fits_64; lia).
  erewrite M_bind_ok; [reflexivity|]. rewrite write_spec, wrap_wrap; [done|apply width_cases|].
  apply wrap_fits_64. lia.
Qed.

(** [add xzr, xn, xm], and [adc xzr, xn, xm], overwrite the stack pointer:
    the shifted-register and carry forms encode XZR as destination 31, but the
    shared tail writes register 31 as SP whenever the flags are not set. *)
Theorem add_to_zero_register_writes_sp st :
  state_wf st ->
  let x1 := read_x st (zero_register 1) in
  let x2 := read_x st (zero_register 2) in
  add_sub_shifted (operands_of 0x8b02_003f) st = (set_sp (wrap 64 (x1 + x2)) st, Ok true) /\
  add_sub_carry (operands_of 0x9a02_003f) st =
    (set_sp (wrap 64 (x1 + x2 + Z.b2z (Nzcv.carry (st_nzcv st)))) st, Ok true).
Proof.
  intros Hwf. cbv zeta. pose proof (read_x_fits st (zero_register 2) Hwf) as H2.
  set (x2 := read_x st (zero_register 2)) in *. split.
  - unfold add_sub_shifted. erewrite M_bind_ok by reflexivity. unfold id.
    assert (shifted (read st (rm (operands_of 0x8b02_003f)) (width (operands_of 0x8b02_003f)) false)
      (operands_of 0x8b02_003f) false = Ok (Some (wrap 64 (truncate (mkBitWidth 64) x2)))) as ->
      by reflexivity.
    assert (wrap 64 (truncate (mkBitWidth 64) x2) = x2) as ->.
    { rewrite truncate_wrap by (unfold wf_width; simpl; lia). cbn [bits].
      by rewrite wrap_wrap, wrap_small. }
    erewrite M_bind_ok by reflexivity. cbv beta iota zeta.
    erewrite M_bind_ok by (by apply apply_add_sub_run).
    rewrite <- (Z.add_0_r (read_x st (zero_register 1) + x2)). reflexivity.
  - unfold add_sub_carry. erewrite M_bind_ok by reflexivity. unfold id.
    by erewrite M_bind_ok by (by apply apply_add_sub_run).
Qed.

Lemma add_to_zero_register_writes_sp_witness :
  let st := write_x (zero_register 1) 5 A64State_default in
  add_sub_shifted (operands_of 0x8b02_003f) st = (set_sp 5 st, Ok true).
Proof.
  intros st.
  assert (state_wf st) as Hwf by (apply write_x_wf; [exact default_wf|by vm_compute]).
  exact (proj1 (add_to_zero_register_writes_sp st Hwf)).
Defined.
