(* ===== verification/InterpIntegerSupport.v ===== *)
(** * Which integer instructions are implemented

    The encodings the decoder accepts against the operand combinations the
    interpreter's integer handlers implement. *)

From Stdlib Require Import ZArith Lia Bool String.
From stdpp Require Import base numbers list vector strings.
From S2P Require Import Prelude RustInt Bits Shifts Immediate Allocation DecodeTable DecodeBase.
From S2P Require Import A64State A64Semantics Interp InterpInteger InterpIntegerProps.
From S2P Require Import InterpIntegerSpec.
Import DecodeBase.Integer.
Local Open Scope string_scope.
Local Open Scope Z_scope.

(** [m] returns [b] from [st]. *)
Definition returns (m : Interp bool) (st : A64State) (b : bool) : Prop :=
  exists st', m st = (st', Ok b).

Lemma returns_ret st b : returns (mret b) st b.
Proof. by eexists. Qed.

Lemma returns_write i w sp v st b : returns (_ ← write i w sp v; mret b) st b.
Proof. by eexists. Qed.

Lemma returns_gets {A} (f : A64State -> A) k st b :
  returns (k (f st)) st b -> returns (x ← gets f; k x) st b.
Proof. done. Qed.

Lemma returns_lift {A} (a : A) k st b : returns (k a) st b -> returns (x ← lift (Ok a); k x) st b.
Proof. done. Qed.

Lemma returns_add_sub o lhs rhs c st : returns (_ ← apply_add_sub o lhs rhs c; mret true) st true.
Proof.
  unfold apply_add_sub. rewrite bit_width_ok. unfold returns. cbn.
  destruct (set_flags o); by eexists.
Qed.

Lemma returns_logical o rhs st : returns (logical_result o rhs) st true.
Proof.
  unfold logical_result. apply returns_gets. cbv zeta.
  assert (exists v, logical (opcode o) (read (id st) (rn o) (width o) false) rhs = Ok v) as [v ->].
  { destruct (opcode_cases o) as [-> | [-> | [-> | ->]]]; by eexists. }
  apply returns_lift. unfold returns. cbn. destruct (opcode o =? 3); by eexists.
Qed.

#[export] Hint Resolve returns_ret returns_write returns_add_sub returns_logical : a64.

(** The operand combinations the handlers implement beyond what allocation
    already guarantees: the 64-bit extensions need a 64-bit destination, and the
    register-to-register groups implement a list of opcodes. *)
Definition implemented (i : Instruction) : bool :=
  match i with
  | AddSubExtended o => width_64 o || negb (Z.land (extension o) 3 =? 3)
  | TwoSource o => one_of (shift_amount o) [2; 3; 8; 9; 10; 11]
  | ThreeSource o =>
      one_of (opcode_3 o) [0; 1; 5] ||
      (one_of (opcode_3 o) [2; 6] && ((ra o =? 31) && negb (subtract_product o)))
  | OneSource o => shift_amount o <? 6
  | _ => true
  end.

Section Handlers.
Context (o : Operands) (st : A64State) (Hok : operands_ok o).

Lemma move_wide_returns :
  (width_64 o = false -> opcode_2 o < 2) -> opcode o <> 1 -> returns (move_wide o) st true.
Proof.
  intros Hh Ho. unfold move_wide, width.
  assert (((if width_64 o then 64 else 32) =? 32) && (2 <=? opcode_2 o) = false) as ->.
  { destruct (width_64 o); [done|]. cbn. apply Z.leb_gt. auto. }
  apply returns_gets. cbv zeta.
  destruct (opcode_cases o) as [-> | [? | [-> | ->]]]; auto with a64. done.
Qed.

Lemma shifted_some v rotate :
  (width_64 o = false -> shift_amount o < 32) -> (shift_kind o = 3 -> rotate = true) ->
  exists r, shifted v o rotate = Ok (Some r).
Proof.
  intros Hs Hr. unfold shifted.
  assert ((width o =? 32) && (32 <=? shift_amount o) = false) as ->.
  { unfold width. destruct (width_64 o); [done|]. cbn. apply Z.leb_gt. auto. }
  pose proof (ok_shift_kind _ Hok) as Hk. unfold fits in Hk.
  assert (exists k, A64Semantics.shift_kind (shift_kind o) rotate = Some k) as [k ->].
  { remember (shift_kind o) as x eqn:E. clear E. field2_cases x; cbn; eauto. rewrite Hr by done. eauto. }
  rewrite bit_width_ok. cbn [mbind res_bind].
  destruct (width_cases o) as [E|E]; unfold a64_shift_with_carry; cbn [bits]; rewrite E; by eexists.
Qed.

Lemma add_sub_shifted_returns :
  (width_64 o = false -> shift_amount o < 32) -> shift_kind o <> 3 ->
  returns (add_sub_shifted o) st true.
Proof.
  intros Hs Hk. unfold add_sub_shifted. apply returns_gets.
  destruct (shifted_some (read (id st) (rm o) (width o) false) false Hs ltac:(done)) as [r ->].
  apply returns_lift. auto with a64.
Qed.

Lemma logical_shifted_returns :
  (width_64 o = false -> shift_amount o < 32) -> returns (logical_shifted o) st true.
Proof.
  intros Hs. unfold logical_shifted. apply returns_gets. cbv zeta.
  destruct (shifted_some (read (id st) (rm o) (width o) false) true Hs ltac:(done)) as [r ->].
  apply returns_lift. auto with a64.
Qed.

Lemma add_sub_extended_returns :
  small_shift o <= 4 ->
  returns (add_sub_extended o) st (width_64 o || negb (Z.land (extension o) 3 =? 3)).
Proof.
  intros Hs. unfold add_sub_extended. apply returns_gets. cbv zeta. unfold extend_register.
  pose proof (ok_extension _ Hok) as He. unfold fits in He.
  assert ((4 <? small_shift o) || (7 <? extension o) = false) as ->.
  { apply orb_false_iff. rewrite !Z.ltb_ge. lia. }
  unfold extend_source_width. change (Z.land (extension o) 3) with (Z.land (extension o) (Z.ones 2)).
  rewrite Z.land_ones by lia. pose proof (Z.mod_pos_bound (extension o) (2 ^ 2) ltac:(lia)) as Hb.
  remember (extension o mod 2 ^ 2) as x eqn:E. clear E. change (2 ^ 2) with 4 in Hb.
  unfold width. destruct (width_64 o); field2_cases x; cbn [mbind res_bind]; apply returns_lift;
    auto with a64.
Qed.

Lemma two_source_returns :
  returns (two_source o) st (one_of (shift_amount o) [2; 3; 8; 9; 10; 11]).
Proof.
  unfold two_source. apply returns_gets. cbv zeta. rewrite bit_width_ok. apply returns_lift.
  destruct (one_of (shift_amount o) _) eqn:Hop.
  - apply one_of_spec in Hop. rewrite !elem_of_cons in Hop.
    destruct Hop as [->|[->|[->|[->|[->|[->|?%elem_of_nil]]]]]]; auto with a64. done.
  - unfold one_of in Hop. cbn [existsb] in Hop. rewrite !orb_false_iff, !Z.eqb_neq in Hop.
    repeat case_match; auto with a64; simplify_eq; lia.
Qed.

Lemma three_source_returns :
  returns (three_source o) st
    (one_of (opcode_3 o) [0; 1; 5] ||
     (one_of (opcode_3 o) [2; 6] && ((ra o =? 31) && negb (subtract_product o)))).
Proof.
  unfold three_source. apply returns_gets. cbv zeta.
  pose proof (ok_opcode_3 _ Hok) as Ho. unfold fits in Ho.
  assert (opcode_3 o = 0 \/ opcode_3 o = 1 \/ opcode_3 o = 2 \/ opcode_3 o = 3 \/ opcode_3 o = 4 \/
    opcode_3 o = 5 \/ opcode_3 o = 6 \/ opcode_3 o = 7) as Hc by lia.
  repeat destruct Hc as [Hc|Hc]; rewrite Hc; cbn [one_of existsb Z.eqb Pos.eqb orb andb];
    try (destruct ((ra o =? 31) && negb (subtract_product o))); auto with a64.
Qed.

Lemma one_source_returns : returns (one_source o) st (shift_amount o <? 6).
Proof.
  unfold one_source. apply returns_gets. cbv zeta.
  pose proof (ok_shift_amount _ Hok) as Ho. unfold fits in Ho.
  destruct (Z.ltb_spec (shift_amount o) 6).
  - assert (shift_amount o = 0 \/ shift_amount o = 1 \/ shift_amount o = 2 \/ shift_amount o = 3 \/
      shift_amount o = 4 \/ shift_amount o = 5) as Hc by lia.
    repeat destruct Hc as [Hc|Hc]; rewrite Hc; auto with a64.
  - repeat case_match; auto with a64; simplify_eq; lia.
Qed.

Lemma conditional_compare_returns : returns (conditional_compare o) st true.
Proof.
  unfold conditional_compare. apply returns_gets. rewrite bit_width_ok.
  destruct (negb _); by eexists.
Qed.

Lemma logical_immediate_returns v :
  decode_a64_logical_immediate (n o) (immediate_6_high o) (shift_amount o) (width o) = Ok v ->
  returns (logical_immediate o) st true.
Proof. intros E. unfold logical_immediate. rewrite E. auto with a64. Qed.

End Handlers.

(** ** Allocation *)

(** What allocation guarantees about the operands of an encoding. *)
Definition allocated_operands (id : Z) (o : Operands) : Prop :=
  match id with
  | 0x10 => (width_64 o = false -> opcode_2 o < 2) /\ opcode o <> 1
  | 0x11 => (width_64 o = false -> shift_amount o < 32) /\ shift_kind o <> 3
  | 0x12 => small_shift o <= 4
  | 0x14 => exists v, decode_a64_logical_immediate (n o) (immediate_6_high o) (shift_amount o)
                        (width o) = Ok v
  | 0x15 => width_64 o = false -> shift_amount o < 32
  | _ => True
  end.

Lemma allocated_fields id bits :
  fits 32 bits -> validate id bits = Some Allocated -> allocated_operands id (operands_of bits).
Proof.
  intros Hf Hv. destruct (decide (one_of id [0x10; 0x11; 0x12; 0x14; 0x15] = true)) as [Hid|Hid].
  2: { unfold allocated_operands. repeat case_match; try done; subst; by destruct Hid. }
  assert (validate_base id bits = None \/ validate_base id bits = Some Allocated) as Hb.
  { unfold validate, validate_a64 in Hv. destruct (validate_base id bits); [by right|by left]. }
  clear Hv. apply one_of_spec in Hid. rewrite !elem_of_cons in Hid.
  unfold validate_base in Hb. rewrite sf_bit in Hb by done.
  destruct Hid as [->|[->|[->|[->|[->|?%elem_of_nil]]]]]; [..|done];
    cbn [Z.eqb Pos.eqb andb] in Hb; unfold allocated_operands; rewrite ?opcode_fld;
    cbn -[fld bit_set decode_a64_logical_immediate width]; unfold width.
  - destruct Hb as [Hb|Hb%(inj Some)]; [done|]. destruct (Z.eqb_spec (fld bits 29 3) 1); [done|].
    split; [|done]. intros Hsf. rewrite Hsf in Hb.
    destruct (Z.geb_spec (fld bits 21 3) 2); [done|lia].
  - destruct Hb as [Hb|Hb%(inj Some)]; [done|]. destruct (Z.eqb_spec (fld bits 22 3) 3); [done|].
    split; [|done]. intros Hsf. rewrite Hsf in Hb.
    destruct (Z.geb_spec (fld bits 10 0x3f) 32); [done|lia].
  - destruct (Z.gtb_spec (fld bits 10 7) 4); [by destruct Hb|lia].
  - destruct Hb as [Hb|Hb%(inj Some)]; [done|]. cbn [width_64].
    destruct (decode_a64_logical_immediate _ _ _ _) as [v| |]; [by exists v|done..].
  - intros Hsf. rewrite Hsf in Hb. destruct (Z.geb_spec (fld bits 10 0x3f) 32); [by destruct Hb|lia].
Qed.

Lemma bitfield_returns bits st :
  fits 32 bits -> validate 0x16 bits = Some Allocated -> returns (bitfield (operands_of bits)) st true.
Proof.
  intros Hf Hv. destruct (allocated_bitfield bits Hf Hv) as (Hn & H32 & Hop).
  pose proof (operands_of_ok bits) as Hok. set (o := operands_of bits) in *. clearbody o.
  destruct (masks_full o Hok Hn ltac:(naive_solver)) as (m & Hm & _).
  unfold bitfield. cbv zeta. rewrite Hm, bit_width_ok, Hn, eqb_reflx. cbn [negb orb].
  replace (negb (width_64 o) && subtract_product o) with false.
  2: { destruct (width_64 o); [done|]. simpl. symmetry. naive_solver. }
  destruct (Z.eqb_spec (opcode o) 3); [done|]. apply returns_gets, returns_lift. auto with a64.
Qed.

Lemma extract_returns bits st :
  fits 32 bits -> validate 0x17 bits = Some Allocated -> returns (extract (operands_of bits)) st true.
Proof.
  intros Hf Hv. destruct (allocated_extract bits Hf Hv) as (Hn & Hs).
  set (o := operands_of bits) in *. clearbody o. unfold extract. cbv zeta.
  rewrite Hn, eqb_reflx. cbn [negb orb].
  replace ((width o =? 32) && (32 <=? shift_amount o)) with false.
  2: { destruct (Z.eqb_spec (width o) 32), (Z.leb_spec 32 (shift_amount o)); done || lia. }
  apply returns_gets. auto with a64.
Qed.

(** The integer handlers implement what the decoder accepts: an allocated
    encoding of the integer family is executed, with two exceptions, a 32-bit
    add or subtract with a 64-bit extension and the opcodes of the one-, two-
    and three-register groups outside the implemented lists, and these are
    reported unsupported. *)
Theorem allocated_integer_supported decoded coverage bits i st :
  fits 32 bits -> normalize coverage bits = Ok i -> validate coverage bits = Some Allocated ->
  returns (handler decoded i) st (implemented i).
Proof.
  intros Hf Hn Hv. pose proof (operands_of_ok bits) as Hok.
  pose proof (allocated_fields coverage bits Hf Hv) as Ha.
  unfold normalize in Hn.
  repeat lazymatch type of Hn with
  | (if coverage =? ?k then _ else _) = _ =>
      destruct (Z.eqb_spec coverage k) as [->|_]; [injection Hn as <-|]
  end; [..|done]; cbn [handler operands implemented]; cbn [allocated_operands] in Ha.
  - destruct Ha. by apply move_wide_returns.
  - apply returns_gets; auto with a64.
  - destruct Ha. by apply add_sub_shifted_returns.
  - by apply add_sub_extended_returns.
  - apply returns_gets; auto with a64.
  - destruct Ha as [v Ha]. by eapply logical_immediate_returns.
  - by apply logical_shifted_returns.
  - by apply bitfield_returns.
  - by apply extract_returns.
  - apply two_source_returns.
  - apply conditional_compare_returns.
  - apply conditional_compare_returns.
  - apply returns_gets; auto with a64.
  - by apply three_source_returns.
  - by apply one_source_returns.
  - apply returns_write.
  - apply returns_write.
Qed.

(** [add w0, w1, x2, uxtx]: allocated, and reported unsupported. *)
Lemma allocated_integer_supported_witness :
  returns (handler demo_decoded (AddSubExtended (operands_of 0x0b22_6020))) A64State_default false.
Proof.
  exact (allocated_integer_supported demo_decoded 0x12 0x0b22_6020 _ A64State_default
    ltac:(by vm_compute) eq_refl eq_refl).
Defined.
