(* ===== verification/InterpControl.v ===== *)
(** * Control flow: [crates/cpu-interpreter/src/interpreter/a64/control.rs]

    Branches, supervisor calls and breakpoints, with their targets, their
    alignment and what they leave unchanged. *)

From Stdlib Require Import ZArith Lia Bool.
From stdpp Require Import base numbers list vector.
From S2P Require Import Prelude RustInt Conditions Allocation DecodeTable DecodeBase A64State.
From S2P Require Import A64Semantics Interp.
Import DecodeBase.Control.

(** [pc.wrapping_add_signed(sign_extend(immediate, bits) << 2)]. *)
Definition branch_target (pc immediate bits : Z) : Z :=
  wrapping_add 64 pc (as_signed 64 (Z.shiftl (signed_immediate immediate bits) 2)).

Definition architectural_exception (source : LocationDescriptor) (kind : ExceptionKind)
    (immediate : Z) : InstructionStep :=
  step_architectural_exception source kind (Some immediate).

Definition set_pc_continue (value : Z) : Interp InstructionStep :=
  _ ← modify (set_pc value); mret Continue.

Definition execute (decoded : DecodedInstruction) (instruction : Instruction) :
    Interp InstructionStep :=
  let source := location decoded in
  let pc := location_pc source in
  let next_pc := wrapping_add 64 pc 4 in
  st ← gets id;
  match instruction with
  | Nop _ => _ ← advance; mret Continue
  | BranchImmediate fields => set_pc_continue (branch_target pc (immediate_26 fields) 26)
  | BranchLinkImmediate fields =>
      _ ← modify (write_x (zero_register 30) next_pc);
      set_pc_continue (branch_target pc (immediate_26 fields) 26)
  | BranchRegister fields =>
      let branch_kind := branch_register_key fields in
      if negb ((branch_kind =? 0xd61f_0000) || (branch_kind =? 0xd63f_0000) ||
               (branch_kind =? 0xd65f_0000)) then throw_unsupported decoded
      else
        let target := read_x st (zero_register (rn fields)) in
        if negb (Z.land target 3 =? 0)
        then mret (step_architectural_exception source AlignmentFault None)
        else
          _ ← (if branch_kind =? 0xd63f_0000 then modify (write_x (zero_register 30) next_pc)
               else mret tt);
          set_pc_continue target
  | ConditionalBranch fields =>
      let taken := evaluate_a64 (from_encoding (condition fields)) (st_nzcv st) in
      set_pc_continue (if taken then branch_target pc (immediate_19 fields) 19 else next_pc)
  | CompareBranch fields =>
      let value := if width_64 fields then read_x st (zero_register (rd fields))
                   else read_w st (zero_register (rd fields)) in
      set_pc_continue (if Bool.eqb (negb (value =? 0)) (nonzero fields)
                       then branch_target pc (immediate_19 fields) 19 else next_pc)
  | TestBranch fields =>
      let value := read_x st (zero_register (rd fields)) in
      let bit_set := negb (Z.land value (shl_w 64 1 (bit_index fields)) =? 0) in
      set_pc_continue (if Bool.eqb bit_set (nonzero fields)
                       then branch_target pc (immediate_14 fields) 14 else next_pc)
  | SupervisorCall fields => mret (step_supervisor_call source (immediate_16 fields))
  | Breakpoint fields =>
      mret (architectural_exception source Interp.Breakpoint (immediate_16 fields))
  end.

(** ** Targets *)

Definition instruction_operands (i : Instruction) : Operands :=
  match i with
  | Nop o | BranchImmediate o | BranchLinkImmediate o | BranchRegister o | ConditionalBranch o
  | CompareBranch o | TestBranch o | SupervisorCall o | Breakpoint o => o
  end.

(** A branch adds four times the signed offset to the address of the branch. *)
Lemma branch_target_spec pc imm w :
  1 <= w <= 60 -> branch_target pc imm w = wrap 64 (pc + 4 * as_signed w imm).
Proof.
  intros Hw. unfold branch_target, wrapping_add. rewrite signed_immediate_as_signed by lia.
  rewrite Z.shiftl_mul_pow2 by lia. pose proof (as_signed_range w imm ltac:(lia)) as Hr.
  pose proof (pow2_le (w - 1) 59 ltac:(lia)).
  rewrite as_signed_small by (simpl Z.sub; lia). f_equal. lia.
Qed.

Definition aligned (a : Z) : Prop := a mod 4 = 0.

Lemma aligned_wrap a : aligned (wrap 64 a) <-> aligned a.
Proof.
  unfold aligned, wrap. rewrite Z.mod_mod_divide; [done|by exists (2 ^ 62)].
Qed.

Lemma aligned_offset pc k : aligned pc -> aligned (wrap 64 (pc + 4 * k)).
Proof.
  intros Hp. apply aligned_wrap. unfold aligned in *. rewrite Z.mul_comm, Z.mod_add; lia.
Qed.

Lemma land_3_aligned a : negb (Z.land a 3 =? 0) = false -> aligned a.
Proof.
  intros H. apply negb_false_iff, Z.eqb_eq in H. unfold aligned.
  change 3 with (Z.ones 2) in H. by rewrite Z.land_ones in H.
Qed.

(** Where an instruction that continues goes. *)
Definition next_pc (st : A64State) (pc : Z) (i : Instruction) : Z :=
  let relative (taken : bool) (w imm : Z) :=
    wrap 64 (if taken then pc + 4 * as_signed w imm else pc + 4) in
  match i with
  | BranchImmediate o | BranchLinkImmediate o => relative true 26 (immediate_26 o)
  | BranchRegister o => read_x st (zero_register (rn o))
  | ConditionalBranch o =>
      relative (evaluate_a64 (from_encoding (condition o)) (st_nzcv st)) 19 (immediate_19 o)
  | CompareBranch o =>
      let value := if width_64 o then read_x st (zero_register (rd o))
                   else read_w st (zero_register (rd o)) in
      relative (Bool.eqb (negb (value =? 0)) (nonzero o)) 19 (immediate_19 o)
  | TestBranch o =>
      relative (Bool.eqb (Z.testbit (read_x st (zero_register (rd o))) (bit_index o)) (nonzero o))
        14 (immediate_14 o)
  | Nop _ | SupervisorCall _ | Breakpoint _ => wrap 64 (pc + 4)
  end.

(** BL and BLR. *)
Definition links (i : Instruction) : bool :=
  match i with
  | BranchLinkImmediate _ => true
  | BranchRegister o => branch_register_key o =? 0xd63f_0000
  | _ => false
  end.

Lemma bit_index_bound id bits i :
  normalize id bits = Ok i -> 0 <= bit_index (instruction_operands i) < 64.
Proof.
  assert (fits 6 (bit_index (operands_of bits))) as Hb.
  { cbn -[fld shl_w Z.lor]. apply fits_lor; [lia| |].
    - unfold shl_w. pose proof (fld_bound bits 31 1 ltac:(lia)) as Hf. change (Z.ones 1) with 1 in Hf.
      rewrite Z.shiftl_mul_pow2, wrap_small by (lia || unfold fits; lia). unfold fits. lia.
    - apply (fits_le 5); [lia|]. exact (fld_bound bits 19 5 ltac:(lia)). }
  unfold normalize. intros H. repeat case_match; simplify_eq; exact Hb.
Qed.

Lemma test_bit x k : 0 <= k < 64 -> negb (Z.land x (shl_w 64 1 k) =? 0) = Z.testbit x k.
Proof.
  intros Hk. rewrite <- bit_set_spec by lia. unfold bit_set, shl_w. rewrite wrap_small; [done|].
  rewrite Z.shiftl_1_l. pose proof (pow2_lt k 64 ltac:(lia)). pose proof (pow2_pos k). unfold fits. lia.
Qed.

(** What raises an exit. *)
Definition raises (st : A64State) (source : LocationDescriptor) (i : Instruction) (e : CpuExit) : Prop :=
  match i with
  | SupervisorCall o => e = Interp.SupervisorCall source (immediate_16 o)
  | Breakpoint o => e = ArchitecturalException source Interp.Breakpoint (Some (immediate_16 o))
  | BranchRegister o =>
      ~ aligned (read_x st (zero_register (rn o))) /\
      e = ArchitecturalException source AlignmentFault None
  | _ => False
  end.

(** Whatever the alignment of the program counter, a step of the family
    returns and keeps the state well formed. *)
Lemma control_execute_safe decoded i st text :
  state_wf st -> fmt_disassembly (instruction decoded) = Ok text ->
  match execute decoded i st with
  | (st', Ok step) => state_wf st' /\ step_ok step
  | (st', Err e) => st' = st /\ unsupported decoded = Ok e
  | (_, Panic) => False
  end.
Proof.
  intros Hwf Ht.
  assert (forall a b, fits 64 (wrapping_add 64 a b)) as Hadd by (intros; by apply wrap_fits).
  assert (forall pc imm w, fits 64 (branch_target pc imm w)) as Hbr by (intros; apply Hadd).
  assert (forall r, fits 64 (read_x st r)) as Hrd by (intros; by apply read_x_fits).
  unfold execute. cbv zeta. erewrite M_bind_ok by reflexivity. unfold id.
  destruct i as [o|o|o|o|o|o|o|o|o]; cbn -[branch_target wrapping_add];
    try done;
    try (split; [|done]; apply set_pc_wf; [by auto with a64|by repeat case_match]).
  destruct ((_ || _) || _); cbn [negb].
  2: { unfold throw_unsupported, unsupported. by rewrite Ht. }
  destruct (negb (Z.land _ 3 =? 0)); [done|].
  destruct (branch_register_key o =? 0xd63f_0000); cbn -[wrapping_add];
    (split; [|done]; apply set_pc_wf; [by auto with a64|done]).
Qed.

(** C34: control flow is precise: executed at its own four-byte aligned address
    on a well-formed state, a control instruction never panics and does one of
    three things. It continues at the architectural target (the branch address
    plus four times the signed offset when the condition, the compared register
    or the tested bit says so, the next instruction otherwise, or the target
    register), which is again aligned, and changes nothing else but X30 for the
    linking branches. It raises the exit of a supervisor call, a breakpoint or
    a misaligned target register and changes nothing. Or it is reported
    unsupported and changes nothing. *)
Theorem control_execute_correct decoded coverage bits i st text :
  normalize coverage bits = Ok i -> state_wf st ->
  location_pc (location decoded) = st_pc st -> aligned (st_pc st) ->
  fmt_disassembly (instruction decoded) = Ok text ->
  match execute decoded i st with
  | (st', Ok Continue) =>
      let target := next_pc st (st_pc st) i in
      aligned target /\ state_wf st' /\
      st' = set_pc target
              (if links i then write_x (zero_register 30) (wrap 64 (st_pc st + 4)) st else st)
  | (st', Ok (Exit e)) => st' = st /\ raises st (location decoded) i e
  | (st', Err e) => st' = st /\ unsupported decoded = Ok e
  | (_, Panic) => False
  end.
Proof.
  intros Hn Hwf Hpc Ha Ht. pose proof (bit_index_bound _ _ _ Hn) as Hbit. clear Hn.
  assert (forall (taken : bool) w imm, 1 <= w <= 60 ->
    (if taken then branch_target (st_pc st) imm w else wrapping_add 64 (st_pc st) 4) =
    wrap 64 (if taken then st_pc st + 4 * as_signed w imm else st_pc st + 4)) as Hrel.
  { intros [] w imm Hw; [by apply branch_target_spec|done]. }
  assert (forall (taken : bool) w imm,
    aligned (wrap 64 (if taken then st_pc st + 4 * as_signed w imm else st_pc st + 4))) as Hal.
  { intros [] w imm; [by apply aligned_offset|]. by apply (aligned_offset _ 1). }
  assert (forall v, state_wf (set_pc (wrap 64 v) st)) as Hset
    by (intros; apply set_pc_wf; [done|by apply wrap_fits]).
  assert (forall v, fits 64 v -> state_wf (set_pc v (write_x (zero_register 30) (wrap 64 (st_pc st + 4)) st)))
    as Hlink by (intros; apply set_pc_wf; [apply write_x_wf; [done|by apply wrap_fits]|done]).
  unfold execute. cbv zeta. rewrite Hpc. erewrite M_bind_ok by reflexivity. unfold id.
  destruct i as [o|o|o|o|o|o|o|o|o]; cbn [instruction_operands] in Hbit; cbn -[aligned].
  - split; [apply (Hal false 1 0)|]. by split; [apply Hset|].
  - rewrite branch_target_spec by lia. by split; [apply aligned_offset|split; [apply Hset|]].
  - rewrite branch_target_spec by lia.
    split; [by apply aligned_offset|]. split; [|done]. apply Hlink. by apply wrap_fits.
  - destruct ((_ || _) || _); cbn [negb].
    2: { unfold throw_unsupported, unsupported. by rewrite Ht. }
    pose proof (read_x_fits st (zero_register (rn o)) Hwf) as Hf.
    destruct (negb (Z.land (read_x st (zero_register (rn o))) 3 =? 0)) eqn:E.
    + split; [done|]. split; [|done]. intros H3. apply negb_true_iff, Z.eqb_neq in E. apply E.
      unfold aligned in H3. change 3 with (Z.ones 2). by rewrite Z.land_ones.
    + apply land_3_aligned in E. destruct (branch_register_key o =? 0xd63f_0000); cbn -[aligned].
      * by split; [|split; [apply Hlink|]].
      * by split; [|split; [apply set_pc_wf|]].
  - rewrite Hrel by lia. by split; [apply Hal|split; [apply Hset|]].
  - rewrite Hrel by lia. by split; [apply Hal|split; [apply Hset|]].
  - rewrite test_bit, Hrel by lia. by split; [apply Hal|split; [apply Hset|]].
  - done.
  - done.
Qed.

(** [b.ne #-8] at 0x1000 with the zero flag clear. *)
Lemma control_execute_correct_witness :
  let st := set_pc 0x1000 A64State_default in
  match execute demo_decoded (ConditionalBranch (operands_of 0x54ff_ffc1)) st with
  | (st', Ok Continue) => st' = set_pc 0xff8 st
  | _ => False
  end.
Proof.
  intros st.
  assert (state_wf st) as Hwf by (apply set_pc_wf; [exact default_wf|by vm_compute]).
  pose proof (control_execute_correct demo_decoded 0x6 0x54ff_ffc1
    (ConditionalBranch (operands_of 0x54ff_ffc1)) st _ eq_refl Hwf eq_refl eq_refl eq_refl) as H.
  destruct (execute demo_decoded (ConditionalBranch (operands_of 0x54ff_ffc1)) st)
    as [st' [[|e]|e|]] eqn:E; [exact (proj2 (proj2 H))|..]; unfold execute in E; cbv in E; discriminate E.
Defined.
