(* ===== verification/InterpMachine.v ===== *)
(** * What an instruction can reach: registers, memory, monitor, events

    [InterpreterContext] of [crates/cpu-interpreter/src/interpreter/mod.rs],
    [ProcessCpuContext] of [crates/cpu/src/profile.rs], [VcpuEventState] of
    [crates/cpu/src/execution.rs], and the trait [CpuMemory] of
    [crates/cpu/src/memory/contracts.rs] as a class.

    The context hands an instruction shared references to memory, to the
    exclusive monitor and to the event state, all with interior mutability, next
    to [&mut A64State]; [Machine] holds what they refer to, and a handler is a
    computation over it.  The atomics of the event state are plain fields: an
    instruction touches each at most once, so every interleaving with another
    thread is one in which that thread runs before or after the instruction.

    [DirectMemoryFrontend] runs guest loads and stores as native loads and
    stores on a host mapping, with a fault handler; it stays an interface
    ([DirectMemory]).  A context made by [InterpreterContext::new] has none. *)

From Stdlib Require Import ZArith Lia Bool String.
From stdpp Require Import base numbers list option strings.
From S2P Require Import Prelude RustInt GuestAddress DecodeTable DecodeA64 A64State A64Semantics.
From S2P Require Import MemoryContracts Interp.

(** ** The memory an engine sees *)

Class CpuMemory (Mem : Type) : Type := {
  mem_read : AddressSpaceId -> GuestVirtualAddress -> MemoryAccess ->
    M Mem DataAccessFault DataReadResult;
  mem_write : AddressSpaceId -> GuestVirtualAddress -> MemoryAccess -> MemoryValue ->
    M Mem DataAccessFault DataWriteResult;
  mem_atomic_read_modify_write : AddressSpaceId -> GuestVirtualAddress -> MemoryAccess ->
    AtomicRmwKind -> MemoryValue -> M Mem DataAccessFault AtomicMemoryResult;
  mem_atomic_compare_exchange : AddressSpaceId -> GuestVirtualAddress -> MemoryAccess ->
    MemoryValue -> MemoryValue -> M Mem DataAccessFault AtomicMemoryResult;
  mem_memory_barrier : BarrierOperation -> Mem -> Mem;
  mem_maintain_cache : AddressSpaceId -> CacheMaintenanceKind -> option GuestVirtualAddress ->
    M Mem DataAccessFault unit;
  mem_load_exclusive : AddressSpaceId -> GuestVirtualAddress -> MemoryAccess ->
    M Mem DataAccessFault (DataReadResult * ExclusiveReservation);
  mem_store_exclusive : AddressSpaceId -> GuestVirtualAddress -> MemoryAccess -> MemoryValue ->
    ExclusiveReservation -> M Mem DataAccessFault (DataWriteResult * bool);
  mem_fetch32 : AddressSpaceId -> GuestVirtualAddress -> Mem -> res InstructionFetchFault FetchedCode }.

(** What the interpreter relies on: no operation panics, well-formed memories
    stay so, and values have the size asked for. *)
Class CpuMemoryOk (Mem : Type) `{CpuMemory Mem} : Type := {
  mem_ok : Mem -> Prop;
  mem_read_law s space address access : mem_ok s -> fits 64 address ->
    wp (mem_read space address access)
      (fun r s' => mem_ok s' /\ value_size (read_value r) = access_size access /\ value_wf (read_value r))
      (fun _ => mem_ok) s;
  mem_write_law s space address access value : mem_ok s -> fits 64 address -> value_wf value ->
    wp (mem_write space address access value) (fun _ => mem_ok) (fun _ => mem_ok) s;
  mem_rmw_law s space address access kind operand : mem_ok s -> fits 64 address -> value_wf operand ->
    wp (mem_atomic_read_modify_write space address access kind operand)
      (fun r s' => mem_ok s' /\ value_size (previous r) = access_size access /\ value_wf (previous r))
      (fun _ => mem_ok) s;
  mem_compare_exchange_law s space address access expected replacement :
    mem_ok s -> fits 64 address ->
    wp (mem_atomic_compare_exchange space address access expected replacement)
      (fun r s' => mem_ok s' /\ value_size (previous r) = access_size access /\ value_wf (previous r))
      (fun _ => mem_ok) s;
  mem_barrier_law barrier s : mem_ok s -> mem_ok (mem_memory_barrier barrier s);
  mem_maintain_law s space kind address : mem_ok s -> option_Forall (fits 64) address ->
    wp (mem_maintain_cache space kind address) (fun _ => mem_ok) (fun _ => mem_ok) s;
  mem_load_exclusive_law s space address access : mem_ok s -> fits 64 address ->
    wp (mem_load_exclusive space address access)
      (fun r s' => mem_ok s' /\ value_size (read_value (fst r)) = access_size access /\
                   value_wf (read_value (fst r)))
      (fun _ => mem_ok) s;
  mem_store_exclusive_law s space address access value reservation :
    mem_ok s -> fits 64 address ->
    wp (mem_store_exclusive space address access value reservation)
      (fun _ => mem_ok) (fun _ => mem_ok) s;
  mem_fetch_law s space address : mem_ok s -> fits 64 address ->
    match mem_fetch32 space address s with
    | Ok fetched => fits 32 (code_bits fetched)
    | Err _ => True
    | Panic => False
    end }.

(** ** The direct memory front end *)

Inductive DirectMemoryAccessError : Type :=
  | DirectDataFault (fault : DataAccessFault)
  | DirectOther (text : string).

Class DirectMemory (Direct Mem : Type) : Type := {
  direct_read : GuestVirtualAddress -> MemoryAccess ->
    M (Mem * Direct) DirectMemoryAccessError MemoryValue;
  direct_write : GuestVirtualAddress -> MemoryAccess -> MemoryValue ->
    M (Mem * Direct) DirectMemoryAccessError unit }.

(** What the interpreter relies on in it, the same as for memory. *)
Class DirectMemoryOk (Direct Mem : Type) `{DirectMemory Direct Mem} `{CpuMemoryOk Mem} : Type := {
  direct_ok : Direct -> Prop;
  direct_read_law s d address access : mem_ok s -> direct_ok d -> fits 64 address ->
    wp (direct_read address access)
      (fun v s' => (mem_ok (fst s') /\ direct_ok (snd s')) /\ value_size v = access_size access /\ value_wf v)
      (fun _ s' => mem_ok (fst s') /\ direct_ok (snd s')) (s, d);
  direct_write_law s d address access value : mem_ok s -> direct_ok d -> fits 64 address -> value_wf value ->
    wp (direct_write address access value)
      (fun _ s' => mem_ok (fst s') /\ direct_ok (snd s'))
      (fun _ s' => mem_ok (fst s') /\ direct_ok (snd s')) (s, d) }.

(** A context without a front end. *)
#[export] Instance no_direct_memory {Mem} : DirectMemory Empty_set Mem :=
  {| direct_read _ _ := fun s : Mem * Empty_set => match snd s with end;
     direct_write _ _ _ := fun s : Mem * Empty_set => match snd s with end |}.
#[export] Instance no_direct_memory_ok {Mem} `{CpuMemoryOk Mem} : DirectMemoryOk Empty_set Mem.
Proof. by refine {| direct_ok _ := False |}. Defined.

(** ** Events *)

Record VcpuEventState : Set := { event_register : bool; pending_interrupts : Z }.
Definition events_default : VcpuEventState := {| event_register := false; pending_interrupts := 0 |}.

Definition signal_event (self : VcpuEventState) : VcpuEventState :=
  {| event_register := true; pending_interrupts := pending_interrupts self |}.

Definition consume_event (self : VcpuEventState) : VcpuEventState * bool :=
  ({| event_register := false; pending_interrupts := pending_interrupts self |}, event_register self).

Definition post_interrupts (mask : Z) (self : VcpuEventState) : VcpuEventState :=
  if negb (mask =? 0)
  then signal_event {| event_register := event_register self;
                       pending_interrupts := Z.lor (pending_interrupts self) mask |}
  else self.

Definition interrupts_pending (self : VcpuEventState) : bool := negb (pending_interrupts self =? 0).

Definition take_pending_interrupts (self : VcpuEventState) : VcpuEventState * Z :=
  ({| event_register := event_register self; pending_interrupts := 0 |}, pending_interrupts self).

(** ** The machine *)

Record ProcessCpuContext : Set := { process_platform : TargetPlatform; address_space_id : AddressSpaceId }.
Definition process_profile_id (self : ProcessCpuContext) : Z := platform_profile_id (process_platform self).

Record TimerSnapshot : Set := { counter : Z; frequency : Z }.

(** The parts of the context that an instruction only reads; a timer snapshot
    is taken at most once by an instruction. *)
Record InterpreterContext : Set := { process : ProcessCpuContext; architectural_timer : TimerSnapshot }.

Record Machine (Mem Direct : Type) : Type := mkMachine {
  cpu : A64State;
  memory : Mem;
  exclusive_monitor : ExclusiveMonitorState;
  vcpu_events : VcpuEventState;
  direct_memory : option Direct }.
Arguments mkMachine {Mem Direct} _ _ _ _ _.
Arguments cpu {Mem Direct} _.
Arguments memory {Mem Direct} _.
Arguments exclusive_monitor {Mem Direct} _.
Arguments vcpu_events {Mem Direct} _.
Arguments direct_memory {Mem Direct} _.

Section Machine.
Context {Mem Direct : Type} `{CpuMemory Mem} `{DirectMemory Direct Mem}.
Implicit Types (m : Machine Mem Direct).

Definition set_cpu (c : A64State) m : Machine Mem Direct :=
  mkMachine c (memory m) (exclusive_monitor m) (vcpu_events m) (direct_memory m).
Definition set_memory (s : Mem) m : Machine Mem Direct :=
  mkMachine (cpu m) s (exclusive_monitor m) (vcpu_events m) (direct_memory m).
Definition set_monitor (x : ExclusiveMonitorState) m : Machine Mem Direct :=
  mkMachine (cpu m) (memory m) x (vcpu_events m) (direct_memory m).
Definition set_events (e : VcpuEventState) m : Machine Mem Direct :=
  mkMachine (cpu m) (memory m) (exclusive_monitor m) e (direct_memory m).
Definition set_direct (d : option Direct) m : Machine Mem Direct :=
  mkMachine (cpu m) (memory m) (exclusive_monitor m) (vcpu_events m) d.

(** A computation on the registers, as one on the machine. *)
Definition on_cpu {E A} (c : M A64State E A) : M (Machine Mem Direct) E A :=
  fun m => let '(st, r) := c (cpu m) in (set_cpu st m, r).

(** A computation on memory, its error converted. *)
Definition on_memory {E F A} (f : E -> F) (c : M Mem E A) : M (Machine Mem Direct) F A :=
  fun m => let '(s, r) := c (memory m) in
    (set_memory s m, match r with Ok a => Ok a | Err e => Err (f e) | Panic => Panic end).
End Machine.
