(* ===== verification/SyntheticCpu.v ===== *)
(** * The synthetic backend as the memory of an engine

    Instruction fetch and cache maintenance, and the backend as an instance of
    the interface the interpreter is written against. *)

From Stdlib Require Import ZArith Lia Bool String.
From stdpp Require Import base numbers list option strings gmap.
From S2P Require Import Prelude RustInt RustList Bytes GuestAddress Invalidation A64Semantics.
From S2P Require Import MemoryContracts MemoryCommon Synthetic SyntheticInv SyntheticData.
From S2P Require Import SyntheticMap InterpMachine.
Import SyntheticMemory.
Local Open Scope list_scope.
Local Open Scope Z_scope.

Section Cpu.
Context {Handler : Type} `{SyntheticMmioOk Handler}.
Implicit Types (s : State Handler).

(** ** Instruction fetch *)

Lemma aligned_in_page address :
  Address.is_aligned_to address 4 = true -> page_offset address + 4 <= SYNTHETIC_PAGE_SIZE.
Proof.
  change 4 with (2 ^ 2) at 1. rewrite is_aligned_to_spec by lia. intros Hal%Z.eqb_eq.
  change (2 ^ 2) with 4 in Hal. pose proof (page_offset_bound address) as Ho.
  assert (page_offset address mod 4 = 0) as Hm.
  { unfold page_offset. rewrite page_size_value, Z.mod_mod_divide; [done|by exists 1024]. }
  rewrite page_size_value in *. pose proof (Z.div_mod (page_offset address) 4). lia.
Qed.

Lemma fetch_page_cases s space address :
  match fetch_page s space address with
  | Ok (m, contents) => mapping_at s space address = Some m /\
      MemoryPermissions.contains (permissions m) MemoryPermissions.EXECUTE = true /\
      exists generation, pages s !! physical_page m = Some (RamPage contents generation)
  | Err _ => True
  | Panic => False
  end.
Proof.
  unfold fetch_page. destruct (mapping_at s space address) as [m|]; simpl; [|done].
  destruct (MemoryPermissions.contains _ _) eqn:E; simpl; [|done].
  destruct (pages s !! physical_page m) as [[c g|]|] eqn:Ep; eauto.
Qed.

(** A fetched instruction is the four bytes that data accesses see. *)
Definition fetched s (space : AddressSpaceId) (address : Z) (code : FetchedCode) : Prop :=
  observes s space address Word (U32 (code_bits code)) /\
  exists m, mapping_at s space address = Some m /\
    MemoryPermissions.contains (permissions m) MemoryPermissions.EXECUTE = true /\
    code_dependencies code = dependencies_one (dependency_of m).

Lemma fetch32_cases s space address :
  memory_ok s -> fits 64 address ->
  match fetch32 s space address with
  | Ok code => fetched s space address code /\ fits 32 (code_bits code)
  | Err _ => True
  | Panic => False
  end.
Proof.
  intros Hok Ha. unfold fetch32, fetch.
  destruct (Address.is_aligned_to address 4) eqn:Hal; cbn [negb]; [|done].
  pose proof (aligned_in_page address Hal) as Hin. pose proof (page_offset_bound address) as Ho.
  rewrite (proj2 (Z.leb_le _ _)) by done.
  destruct (find_instruction_fault s _ _ _) as [[fa reason]|]; simpl; [done|].
  pose proof (fetch_page_cases s space address) as Hp.
  destruct (fetch_page s space address) as [[m contents]|e|]; simpl; [|done..].
  destruct Hp as (Hm & Hx & g & Hp). destruct (ok_pages s Hok _ _ Hp) as [Hc _].
  rewrite ram_bytes_spec by (done || lia). simpl. set (data := slice _ _ _).
  pose proof (page_bytes_length _ Hc).
  assert (List.length data = 4%nat) as Hlen by (unfold data; rewrite slice_length; lia).
  assert (bytes_ok data) as Hd by by apply bytes_ok_slice, page_bytes_ok.
  pose proof (from_le_bytes_fits data Hd) as Hf. rewrite Hlen in Hf. change (8 * Z.of_nat 4) with 32 in Hf.
  split; [|done]. split; [|by exists m]. exists data. simpl. split_and!; [lia|done| |].
  - apply (shows_page s space address m contents g); [done..|lia].
  - unfold value_of, value_from_bits. by rewrite wrap_small.
Qed.

(** ** Cache maintenance *)

Lemma set_invalidations_ok s log history :
  memory_ok s -> represents history log -> memory_ok (set_invalidations log s).
Proof. intros [] Hr. split; try done. by exists history. Qed.

(** Maintenance never changes what memory holds; instruction invalidation
    publishes one record. *)
Lemma maintain_cache_wp s space kind address :
  memory_ok s ->
  wp (maintain_cache space kind address)
    (fun _ s' => memory_ok s' /\ s' = set_invalidations (invalidations s') s /\
       match kind, address with
       | InstructionInvalidate, None => published s s' [InstructionCache space]
       | InstructionInvalidate, Some a => exists m, mapping_at s space a = Some m /\
           published s s' [ExecutableContent (physical_page m) None]
       | _, _ => s' = s
       end)
    (fun _ s' => s' = s) s.
Proof.
  intros Hok.
  assert (forall E (record : MemoryInvalidation) (Q : unit -> State Handler -> Prop) (Qe : E -> State Handler -> Prop),
    committable s record ->
    (forall log, memory_ok (set_invalidations log s) -> published s (set_invalidations log s) [inv_kind record] ->
       Q tt (set_invalidations log s)) ->
    wp (commit_invalidation (commit record)) Q Qe s) as Hcommit.
  { intros E record Q Qe Hc HQ. unfold wp. destruct (Hc E s eq_refl) as (log & -> & Hp).
    apply HQ; [|done]. destruct (published_log _ _ _ Hp) as [h Hh]. by apply (set_invalidations_ok _ _ h). }
  unfold maintain_cache. destruct address as [a|].
  - wp_state. wp_step. apply wp_lift_ok_or; [|done]. intros m Hm. wp_step. wp_step; [done|].
    destruct kind; try (wp_step; split_and!; [done|by destruct s|done]).
    wp_step. apply reserve_or_wp; [done| |done]. intros record Hk Hc. apply Hcommit; [done|].
    intros log Hl Hp. rewrite Hk in Hp. split_and!; [done..|]. by exists m.
  - destruct kind; try by wp_step. wp_step. unfold reserve. apply reserve_or_wp; [done| |done].
    intros record Hk Hc. apply Hcommit; [done|]. intros log Hl Hp. rewrite Hk in Hp. by split_and!.
Qed.

(** ** The instance *)

#[export] Instance synthetic_cpu_memory : CpuMemory (State Handler) := {|
  mem_read := read;
  mem_write := write;
  mem_atomic_read_modify_write := atomic_read_modify_write;
  mem_atomic_compare_exchange := atomic_compare_exchange;
  mem_memory_barrier _ s := s;
  mem_maintain_cache := maintain_cache;
  mem_load_exclusive := load_exclusive;
  mem_store_exclusive := store_exclusive;
  mem_fetch32 space address s := fetch32 s space address |}.

#[export] Instance synthetic_cpu_memory_ok : CpuMemoryOk (State Handler).
Proof.
  refine {| mem_ok := memory_ok |}; simpl.
  - intros s space a access Hok Ha. eapply wp_mono; [by apply read_wp| |].
    + simpl. intros r s' (Hs & Hv & Hr). split; [|done]. destruct (read_region r).
      * by destruct Hr as [-> _].
      * by eapply device_step_ok.
    + simpl. intros e s' [_ Hu]. by eapply unchanged_ok.
  - intros s space a access v Hok Ha Hv. eapply wp_mono; [by apply write_wp| |].
    + simpl. intros r s' (_ & _ & Hr). destruct (write_region r); [by eapply stores_ok|by eapply device_step_ok].
    + simpl. intros e s' [_ Hu]. by eapply unchanged_ok.
  - intros s space a access kind v Hok Ha Hv. eapply wp_mono; [by apply atomic_read_modify_write_wp| |by intros e s' ->].
    simpl. intros r s' (Hobs & _ & new & _ & _ & Hs). split; [by eapply stores_ok|].
    by destruct (observes_wf _ _ _ _ _ Hobs).
  - intros s space a access v v' Hok Ha. eapply wp_mono; [by apply atomic_compare_exchange_wp| |by intros e s' ->].
    simpl. intros r s' (Hobs & _ & Hs). split; [by eapply updates_ok|].
    by destruct (observes_wf _ _ _ _ _ Hobs).
  - done.
  - intros s space kind a Hok _. eapply wp_mono; [by apply maintain_cache_wp| |by intros e s' ->].
    simpl. by intros _ s' [? _].
  - intros s space a access Hok Ha. eapply wp_mono; [by apply load_exclusive_wp| |by intros e s' ->].
    simpl. intros r s' (-> & Hobs & _). split; [done|]. by destruct (observes_wf _ _ _ _ _ Hobs).
  - intros s space a access v reservation Hok Ha. eapply wp_mono; [by apply store_exclusive_wp| |by intros e s' ->].
    simpl. intros r s' (m & _ & [(_ & _ & ->)|(_ & w & _ & _ & Hu)]); [done|by eapply updates_ok].
  - intros s space a Hok Ha. pose proof (fetch32_cases s space a Hok Ha) as Hf.
    destruct (fetch32 s space a); [by destruct Hf|done..].
Defined.
End Cpu.
