(* ===== verification/SyntheticReach.v ===== *)
(** * The synthetic backend: every reachable state

    The remaining operations (the fixtures that build a memory, and changes of
    purpose), and the theorem that ties the component together: whatever
    sequence of operations is applied to an empty memory, the invariant holds
    after each, and the only one that can panic is the removal of an alias
    between overlapping ranges. *)

From Stdlib Require Import ZArith Lia Bool String.
From stdpp Require Import base numbers list option strings gmap.
From S2P Require Import Prelude RustInt RustList Bytes GuestAddress Invalidation A64Semantics.
From S2P Require Import MemoryContracts MemoryCommon Synthetic SyntheticInv SyntheticData SyntheticProps SyntheticMap.
From S2P Require Import SyntheticAlias SyntheticCpu SyntheticBulk SyntheticInstall.
Import SyntheticMemory.
Local Open Scope list_scope.
Local Open Scope Z_scope.

Section Fixtures.
Context {Handler : Type} `{SyntheticMmioOk Handler}.
Implicit Types (s : State Handler).

Lemma put_page_ok p page s : page_ok page -> memory_ok s -> memory_ok (set_pages (<[p := page]> (pages s)) s).
Proof.
  intros Hpg [Hm Hp Hn Hg Hl]. split; simpl; try done.
  - intros sp v m Hl'. destruct (Hm sp v m Hl') as (? & ? & ?). split; [done|]. split; [|done].
    apply lookup_insert_is_Some'. by right.
  - intros q pg. rewrite lookup_insert_Some. intros [[_ <-]|[_ Hq]]; [done|by eapply Hp].
Qed.

Lemma zero_page_ok : contents_ok (Some zero_page).
Proof. split; [done|]. apply bytes_ok_zeros. Qed.

(** [or_false] only turns an error into a value. *)
Lemma or_false_wp {E} (m : M (State Handler) unit unit) (P : State Handler -> Prop) s :
  wp m (fun _ => P) (fun _ => P) s -> wp (or_false (E := E) m) (fun _ => P) (fun _ _ => False) s.
Proof. unfold wp, or_false. by destruct (m s) as [s' [a|e|]]. Qed.

Lemma map_page_wp {E} s space address page perms :
  memory_ok s -> fits 64 address ->
  wp (map_page (E := E) space address page perms) (fun _ => memory_ok) (fun _ _ => False) s.
Proof.
  intros Hok Ha. apply or_false_wp. wp_step. apply wp_guard_err; [done|intros _]. wp_state.
  wp_step. apply wp_guard_err; [done|intros Hp%bool_decide_eq_false].
  wp_step. apply wp_guard_err; [done|intros Hm%bool_decide_eq_false].
  wp_step. unfold reserve. apply reserve_or_wp; [done| |done]. intros record Hk Hcommit.
  wp_step. apply take_generation_wp; [|done]. intros g Hg. wp_state. wp_step. wp_step.
  wp_step. rewrite bool_decide_false by exact Hm. apply wp_ret. unfold wp.
  set (s1 := set_mappings _ _).
  destruct (Hcommit unit s1 eq_refl) as (log' & Hc & Hpub). rewrite Hc.
  apply remap_ok; [done|done| |exact (published_log _ _ _ Hpub)].
  intros sp p m. simpl. rewrite lookup_insert_Some. intros [[[= <- <-] <-]|[_ Hl]]; [right|by left].
  split; [done|]. split; [by apply virtual_page_bound|]. split; [|done]. simpl.
  destruct (pages s !! page); [done|]. by destruct Hp.
Qed.

Lemma initialize_ram_wp {E} s page offset data :
  memory_ok s -> 0 <= offset -> bytes_ok data ->
  wp (initialize_ram (E := E) page offset data) (fun _ => memory_ok) (fun _ _ => False) s.
Proof.
  intros Hok Ho Hd. apply or_false_wp. wp_state.
  destruct (pages s !! page) as [[contents generation|h]|] eqn:Ep; [|by apply wp_throw..].
  destruct (ok_pages s Hok _ _ Ep) as [Hc Hg]. wp_step. wp_step; [|done]. wp_step.
  assert (forall record : option MemoryInvalidation,
    (forall r, record = Some r -> committable s r) ->
    wp (_ ← modify (fun s => set_pages (<[page := RamPage (Some (page_bytes contents)) generation]> (pages s)) s);
        _ ← guard_err (Z.of_nat (List.length (page_bytes contents)) <? a) tt;
        next_generation ← lift (match ContentGeneration.next generation with
                                | Ok next => Ok next | _ => Err tt end);
        _ ← modify (fun s => set_pages (<[page :=
              RamPage (Some (list_inserts (Z.to_nat offset) data (page_bytes contents))) next_generation]> (pages s)) s);
        match record with
        | Some record => commit_invalidation (commit record)
        | None => mret tt
        end) (fun _ => memory_ok) (fun _ => memory_ok) s) as Hrest.
  { intros record Hrec. wp_step. wp_step.
    assert (memory_ok (set_pages (<[page := RamPage (Some (page_bytes contents)) generation]> (pages s)) s)) as Hok1.
    { apply put_page_ok; [|done]. split; [|done]. split; [by apply page_bytes_length|by apply page_bytes_ok]. }
    wp_step. apply wp_guard_err; [done|intros _]. wp_step. apply wp_lift. unfold ContentGeneration.next, checked_add.
    destruct (Z.ltb_spec (generation + 1) (2 ^ 64)); simpl; [|done]. wp_step. wp_step.
    set (s2 := set_pages _ _).
    assert (memory_ok s2) as Hok2.
    { apply put_page_ok; [|done]. split; [by apply poke_contents_ok|]. unfold fits in *. lia. }
    destruct record as [r|]; [|by apply wp_ret]. unfold wp.
    destruct (Hrec r eq_refl unit s2 eq_refl) as (log' & Hc' & Hpub). rewrite Hc'.
    apply log_ok; [exact (published_log _ _ _ Hpub)|done]. }
  destruct (executable_page s page).
  - wp_step. apply reserve_or_wp; [done| |done]. intros record _ Hcommit. wp_step.
    apply (Hrest (Some record)). by intros r [= <-].
  - wp_step. apply (Hrest None). done.
Qed.

Lemma set_mapping_purpose_wp {E} s space start size purp :
  memory_ok s -> wp (set_mapping_purpose (E := E) space start size purp) (fun _ => memory_ok) (fun _ _ => False) s.
Proof.
  intros Hok. unfold set_mapping_purpose. destruct (PageRange_new start size) as [r|]; [|by apply wp_ret].
  destruct (PageRange_is_empty r); [by apply wp_ret|]. wp_state.
  destruct (negb (forallb _ (range_pages r))) eqn:Eall; [by apply wp_ret|]. apply negb_false_iff in Eall.
  case_match; [by apply wp_ret|].
  apply or_false_wp. eapply wp_mono.
  - apply (update_range_wp s space r (Invalidation.Mapping space start size)
      (fun g m => Ok {| physical_page := physical_page m; mapping_generation := g;
                        permissions := permissions m; purpose := purp; attributes := attributes m |})
      (fun g m => {| physical_page := physical_page m; mapping_generation := g;
                     permissions := permissions m; purpose := purp; attributes := attributes m |})
      (fun _ => tt) tt Hok).
    + intros page Hp. rewrite forallb_forall in Eall. specialize (Eall page ltac:(by apply list_elem_of_In)).
      apply bool_decide_eq_true in Eall as [m Hm]. eauto.
    + intros g page m Hm. split; [done|]. split; [done|]. split; [done|]. apply (ok_mapped s Hok _ _ _ Hm).
  - simpl. by intros _ s' [? _].
  - by intros e s' ->.
Qed.
End Fixtures.

(** ** Sequences of operations *)

Section Reach.
Context {Handler : Type} `{SyntheticMmioOk Handler}.
Variable can_reserve : Z -> bool.
Implicit Types (s : State Handler).

(** Every operation that can change the backend, with its arguments. *)
Inductive Command : Type :=
  | Access (space : AddressSpaceId) (address : GuestVirtualAddress) (op : data_operation)
  | MaintainCache (space : AddressSpaceId) (kind : CacheMaintenanceKind) (address : option GuestVirtualAddress)
  | WriteBytes (space : AddressSpaceId) (address : GuestVirtualAddress) (data : list Z)
  | ResizeZeroed (space : AddressSpaceId) (start : GuestVirtualAddress) (old_size new_size perms : Z)
      (purp : MemoryMappingPurpose)
  | MapAlias (request : MemoryAliasRequest)
  | UnmapAlias (request : MemoryAliasRequest)
  | SetPermissions (space : AddressSpaceId) (start : GuestVirtualAddress) (size perms : Z)
  | SetAttributes (space : AddressSpaceId) (start : GuestVirtualAddress) (size mask value : Z)
  | SetPurpose (space : AddressSpaceId) (start : GuestVirtualAddress) (size : Z) (purp : MemoryMappingPurpose)
  | InstallPages (space : AddressSpaceId) (requests : list SyntheticRamPage)
  | AddRamPage (page : GuestPhysicalPageId)
  | AddMmioPage (page : GuestPhysicalPageId) (handler : Handler)
  | MapPage (space : AddressSpaceId) (address : GuestVirtualAddress) (page : GuestPhysicalPageId) (perms : Z)
  | InitializeRam (page : GuestPhysicalPageId) (offset : Z) (data : list Z)
  | InjectInstallFailure (stage : SyntheticInstallStage) (index : Z) (reason : string)
  | InjectInstructionFault (space : AddressSpaceId) (address : GuestVirtualAddress) (reason : string)
  | InjectDataFault (space : AddressSpaceId) (address : GuestVirtualAddress) (kind : DataAccessKind)
      (reason : string).

(** Arguments in the range of their types: addresses and sizes of 64 bits,
    lists of bytes, attribute sets of known bits only. *)
Definition command_ok (c : Command) : Prop :=
  match c with
  | Access _ address op => fits 64 address /\ operation_wf op
  | WriteBytes _ address data => fits 64 address /\ bytes_ok data
  | ResizeZeroed _ start old_size new_size _ _ => fits 64 start /\ fits 64 old_size /\ fits 64 new_size
  | MapAlias request => SyntheticAlias.request_ok request
  | UnmapAlias request => SyntheticAlias.request_ok request
  | InstallPages _ requests => Forall install_request_ok requests
  | MapPage _ address _ _ => fits 64 address
  | InitializeRam _ offset data => 0 <= offset /\ bytes_ok data
  | _ => True
  end.

(** The outcome of a command, errors and results left out. *)
Definition outcome {E A} (m : M (State Handler) E A) s : State Handler * bool :=
  let '(s', r) := m s in (s', match r with Panic => false | _ => true end).

(** The state after a command, and whether it returned. *)
Definition run_command (c : Command) : State Handler -> State Handler * bool :=
  match c with
  | Access space address op => outcome (run_operation space address op)
  | MaintainCache space kind address => outcome (maintain_cache space kind address)
  | WriteBytes space address data => outcome (write_bytes can_reserve space address data)
  | ResizeZeroed space start old_size new_size perms purp =>
      outcome (resize_zeroed_mapping can_reserve space start old_size new_size perms purp)
  | MapAlias request => outcome (map_alias request)
  | UnmapAlias request => outcome (unmap_alias request)
  | SetPermissions space start size perms => outcome (set_permissions space start size perms)
  | SetAttributes space start size mask value => outcome (set_attributes space start size mask value)
  | SetPurpose space start size purp => outcome (set_mapping_purpose (E := Empty_set) space start size purp)
  | InstallPages space requests => outcome (install_ram_pages_atomic can_reserve space requests)
  | AddRamPage page => outcome (add_ram_page (E := Empty_set) page)
  | AddMmioPage page handler => outcome (add_mmio_page (E := Empty_set) page handler)
  | MapPage space address page perms => outcome (map_page (E := Empty_set) space address page perms)
  | InitializeRam page offset data => outcome (initialize_ram (E := Empty_set) page offset data)
  | InjectInstallFailure stage index reason => outcome (inject_install_failure (E := Empty_set) stage index reason)
  | InjectInstructionFault space address reason =>
      outcome (inject_instruction_fault (E := Empty_set) space address reason)
  | InjectDataFault space address kind reason =>
      outcome (inject_data_fault (E := Empty_set) space address kind reason)
  end.

(** The one command that can panic. *)
Definition removes_overlapping_alias (c : Command) : Prop :=
  match c with
  | UnmapAlias request => shared_role request
  | _ => False
  end.

(** The states a sequence of well-typed commands reaches from an empty memory,
    each having returned a value or an error. *)
Inductive reachable : State Handler -> Prop :=
  | reachable_new : reachable new
  | reachable_step s c s' : reachable s -> command_ok c -> run_command c s = (s', true) -> reachable s'.

Lemma outcome_wp {E A} (m : M (State Handler) E A) Q (Qe : E -> State Handler -> Prop) s :
  wp m Q Qe s -> (forall a s', Q a s' -> memory_ok s') -> (forall e s', Qe e s' -> memory_ok s') ->
  memory_ok (fst (outcome m s)) /\ snd (outcome m s) = true.
Proof. unfold wp, outcome. destruct (m s) as [s' [a|e|]]; naive_solver. Qed.

Lemma run_command_ok c s : memory_ok s -> command_ok c -> ~ removes_overlapping_alias c ->
  memory_ok (fst (run_command c s)) /\ snd (run_command c s) = true.
Proof.
  intros Hok Hc Hn. destruct c; simpl in Hc, Hn; cbn [run_command].
  - eapply outcome_wp; [apply data_access_run; [done|apply Hc|apply Hc]|done|by intros e s' [? _]].
  - eapply outcome_wp; [by apply maintain_cache_wp|by intros a s' [? _]|by intros e s' ->].
  - eapply outcome_wp; [apply write_bytes_wp; [done|apply Hc|apply Hc]|by intros a s' [_ ?]|by intros e s' [_ ->]].
  - eapply outcome_wp; [apply resize_zeroed_mapping_wp; [done|apply Hc..]|by intros a s' [? _]|by intros e s' ->].
  - eapply outcome_wp; [by apply map_alias_wp|by intros a s' [? _]|by intros e s' ->].
  - eapply outcome_wp; [by apply unmap_alias_wp|by intros a s' [? _]|by intros e s' [-> _]].
  - eapply outcome_wp; [by apply set_permissions_wp|by intros a s' [? _]|by intros e s' ->].
  - eapply outcome_wp; [by apply set_attributes_wp|by intros a s' [? _]|by intros e s' ->].
  - eapply outcome_wp; [by apply set_mapping_purpose_wp|done|done].
  - eapply outcome_wp; [by apply install_ram_pages_wp|by intros a s' [? _]|by intros e s' ->].
  - split; [|done]. apply put_page_ok; [|done]. split; [apply zero_page_ok|done].
  - split; [|done]. by apply put_page_ok.
  - eapply outcome_wp; [by apply map_page_wp|done|done].
  - eapply outcome_wp; [apply initialize_ram_wp; [done|apply Hc|apply Hc]|done|done].
  - split; [|done]. by destruct Hok; split.
  - split; [|done]. by destruct Hok; split.
  - split; [|done]. by destruct Hok; split.
Qed.

#[local] Instance shared_role_decision request : Decision (shared_role request).
Proof. unfold shared_role. apply _. Qed.

#[local] Instance removes_overlapping_alias_decision c : Decision (removes_overlapping_alias c).
Proof. destruct c; simpl; apply _. Qed.

Lemma returned_ok c s s' : memory_ok s -> command_ok c -> run_command c s = (s', true) -> memory_ok s'.
Proof.
  intros Hok Hc Hrun. destruct (decide (removes_overlapping_alias c)) as [Hn|Hn].
  - destruct c; try done. cbn [run_command] in Hrun. unfold outcome in Hrun.
    destruct (unmap_alias request s) as [s1 r] eqn:Er. injection Hrun as -> Hr.
    apply (unmap_alias_returned s request s' r); [done..|]. by intros ->.
  - pose proof (run_command_ok c s Hok Hc Hn) as [Hok' _]. by rewrite Hrun in Hok'.
Qed.

Lemma reachable_ok s : reachable s -> memory_ok s.
Proof. induction 1 as [|s c s' _ IH Hc Hrun]; [apply new_ok|by eapply returned_ok]. Qed.

(** C2: the backend keeps its types.  Whatever commands with arguments in the
    range of their types ([command_ok]) are applied to an empty memory, in
    whatever order and whether they succeed or return an error, every state
    reached is well formed: each mapping lies in the address space, refers to
    an existing physical page and carries known attributes; each RAM page holds
    4096 bytes; counters stay in 64 bits and mapping generations below the next
    one; and the invalidation ring represents a history.  And the only command
    that can panic on such a state is [unmap_alias] when its source and
    destination ranges share a page and both are to have the same properties
    ([shared_role]), so that one mapping passes the checks of both roles. *)
Theorem reachable_well_formed s c :
  reachable s -> command_ok c ->
  memory_ok s /\ (snd (run_command c s) = true \/ removes_overlapping_alias c).
Proof.
  intros Hs Hc. pose proof (reachable_ok s Hs) as Hok. split; [done|].
  destruct (decide (removes_overlapping_alias c)) as [Hn|Hn]; [by right|left]. by apply run_command_ok.
Qed.
End Reach.

(** ** Witnesses *)

Module ReachSample.
Import SyntheticProps.Sample.

Definition always : Z -> bool := fun _ => true.

Lemma sample_page a : 0x10ffe <= a < 0x11002 -> virtual_page a = if a <? 0x11000 then 16 else 17.
Proof.
  intros Ha. unfold virtual_page. change PAGE_SIZE with 4096.
  destruct (Z.ltb_spec a 0x11000); symmetry;
    [apply Z.div_unique with (a - 0x10000)|apply Z.div_unique with (a - 0x11000)]; lia.
Qed.

Lemma sample_physical a : 0x10ffe <= a < 0x11002 ->
  physical_at memory 7 a = Some (if a <? 0x11000 then 3 else 5).
Proof.
  intros Ha. unfold physical_at, mapping_at. rewrite sample_page by done. by destruct (a <? 0x11000).
Qed.

Lemma sample_unaliased : unaliased_range memory 7 0x10ffe 4.
Proof.
  intros a b Ha Hb. rewrite !sample_physical, !sample_page by lia. intros E.
  by destruct (a <? 0x11000), (b <? 0x11000).
Qed.

Lemma sample_readable a m :
  mapping_at memory 7 a = Some m -> MemoryPermissions.contains (permissions m) MemoryPermissions.READ = true.
Proof. intros [[_ ->]|[[_ ->]|[_ ->]]]%mapped_lookup; done. Qed.

Definition request : SyntheticRamPage :=
  {| request_virtual_address := 0x40000; request_permissions := 1; request_bytes := replicate 4096 0x5a |}.

Lemma request_is_ok : Forall install_request_ok [request].
Proof. constructor; [|constructor]. split; [by split|]. by apply Forall_replicate. Qed.
End ReachSample.
Import SyntheticProps.Sample ReachSample.

(** Four bytes across the boundary of pages 16 and 17. *)
Lemma write_bytes_exact_witness :
  memory_ok Sample.memory /\
  bulk_stores 7 0x10ffe [1; 2; 3; 4] Sample.memory
    (fst (write_bytes always 7 0x10ffe [1; 2; 3; 4] Sample.memory)).
Proof.
  split; [apply memory_is_ok|].
  pose proof (write_bytes_exact always Sample.memory 7 0x10ffe [1; 2; 3; 4] memory_is_ok
                ltac:(by split) ltac:(by repeat constructor)) as Hw.
  assert (snd (write_bytes always 7 0x10ffe [1; 2; 3; 4] Sample.memory) = Ok tt) as Hs by (by vm_compute).
  destruct (write_bytes _ _ _ _ _) as [s' r]. simpl in Hs. subst r. exact (proj1 Hw).
Defined.

Lemma write_bytes_read_bytes_witness :
  let s' := fst (write_bytes always 7 0x10ffe [1; 2; 3; 4] Sample.memory) in
  read_bytes s' 7 0x10ffe [0; 0; 0; 0] = ([1; 2; 3; 4], Ok tt).
Proof.
  intros s'.
  assert (write_bytes always 7 0x10ffe [1; 2; 3; 4] Sample.memory = (s', Ok tt)) as Hw by (by vm_compute).
  exact (write_bytes_read_bytes always Sample.memory s' 7 0x10ffe [1; 2; 3; 4] [0; 0; 0; 0] memory_is_ok
           ltac:(by split) ltac:(by repeat constructor) ltac:(by repeat constructor) eq_refl Hw
           sample_unaliased (fun a m _ => sample_readable a m) ltac:(by vm_compute)).
Defined.

Lemma install_ram_pages_exact_witness :
  memory_ok (fst (install_ram_pages_atomic always 7 [request] Sample.memory)) /\
  byte_at (fst (install_ram_pages_atomic always 7 [request] Sample.memory)) 7 0x40001 = Some 0x5a.
Proof.
  pose proof (install_ram_pages_exact always Sample.memory 7 [request] memory_is_ok request_is_ok) as Hi.
  assert (snd (install_ram_pages_atomic always 7 [request] Sample.memory) = Ok tt) as Hs by (by vm_compute).
  destruct (install_ram_pages_atomic _ _ _ _) as [s' r]. simpl in Hs. subst r.
  destruct Hi as (Hok & Hb & _). split; [exact Hok|].
  exact (proj1 (Hb request 0x40001 ltac:(constructor) eq_refl)).
Defined.

Lemma resize_zeroed_exact_witness :
  let s' := fst (resize_zeroed_mapping always 7 0x50000 0 0x2000 3 PurposeNormal Sample.memory) in
  memory_ok s' /\ byte_at s' 7 0x51fff = Some 0.
Proof.
  pose proof (resize_zeroed_exact always Sample.memory 7 0x50000 0 0x2000 3 PurposeNormal memory_is_ok
                ltac:(by split) ltac:(by split) ltac:(by split)) as Hr.
  assert (snd (resize_zeroed_mapping always 7 0x50000 0 0x2000 3 PurposeNormal Sample.memory) = Ok tt) as Hs
    by (by vm_compute).
  destruct (resize_zeroed_mapping _ _ _ _ _ _ _ _) as [s' r]. simpl in Hs. subst r.
  destruct Hr as (Hok & _ & Hb). split; [exact Hok|]. exact (proj1 (Hb 0x51fff ltac:(split; lia))).
Defined.

Lemma reachable_well_formed_witness :
  let s := fst (run_command always (AddRamPage 3) new) in
  let c := MapPage 7 0x10000 3 3 in
  memory_ok s /\ snd (run_command always c s) = true.
Proof.
  intros s c. destruct (reachable_well_formed always s c) as [Hok [Hr|[]]]; [|by split|by split].
  apply (reachable_step always new (AddRamPage 3) s); [apply reachable_new|done|reflexivity].
Defined.
