(* ===== verification/InterpMemory.v ===== *)
(** * Loads and stores: [crates/cpu-interpreter/src/interpreter/a64/memory.rs]

    One definition per function of the source.  A handler returns
    [Ok (Some tt)] when it executed the instruction, [Ok None] when the form has
    no semantics, and an error for a fault or a failure of the direct front
    end; [execute] turns these into a step. *)

From Stdlib Require Import ZArith Lia Bool String.
From stdpp Require Import base numbers list option strings.
From S2P Require Import Prelude RustInt GuestAddress DecodeTable DecodeBase A64State A64Semantics.
From S2P Require Import MemoryContracts Interp InterpMachine.
Import DecodeBase.Memory.
Local Open Scope Z_scope.

Inductive MemoryStepError : Type :=
  | Data (fault : DataAccessFault)
  | DirectFailure (detail : string).

(** [From<DirectMemoryAccessError>]. *)
Definition step_error_from_direct (error : DirectMemoryAccessError) : MemoryStepError :=
  match error with
  | DirectDataFault fault => Data fault
  | DirectOther text => DirectFailure text
  end.

Definition instruction_operands (i : Instruction) : Operands :=
  match i with
  | Literal o | Unsigned o | Unscaled o | PostIndex o | PreIndex o | Register o | Pair o
  | LoadAcquire o | StoreRelease o | LoadExclusive o | StoreExclusive o | LoadExclusivePair o
  | StoreExclusivePair o | AtomicReadModifyWrite o | CompareAndSwap o | CompareAndSwapPair o => o
  end.

Section Family.
Context {Mem Direct : Type} `{CpuMemory Mem} `{DirectMemory Direct Mem}.
Abbreviation Run E := (M (Machine Mem Direct) E).
Abbreviation MemoryStep := (M (Machine Mem Direct) MemoryStepError (Datatypes.option unit)).

Variable context : InterpreterContext.
Abbreviation space := (address_space_id (process context)).

Definition writes (index width : Z) (register31_is_sp : bool) (value : Z) : Run MemoryStepError unit :=
  on_cpu (Interp.write index width register31_is_sp value).

Definition done_step : MemoryStep := mret (Some tt).

(** ** Access descriptors, values *)

Definition access (size : MemoryAccessSize) (ordering : MemoryOrdering) (aligned : bool) : MemoryAccess :=
  MemoryAccess_new size (if aligned then Natural else Unaligned) ordering Normal.

Definition register_value (state : A64State) (register : Z) (size : MemoryAccessSize) :
    res MemoryStepError MemoryValue :=
  let value := Interp.read state register (match size with Doubleword => 64 | _ => 32 end) false in
  match size with
  | Byte => Ok (U8 (wrap 8 value))
  | Halfword => Ok (U16 (wrap 16 value))
  | Word => Ok (U32 (wrap 32 value))
  | Doubleword => Ok (U64 value)
  | Quadword => Panic
  end.

Definition write_loaded (register : Z) (size : MemoryAccessSize) (load : LoadSpec) (value : MemoryValue) :
    Run MemoryStepError unit :=
  raw ← lift (match value with
              | U8 value | U16 value | U32 value | U64 value => Ok value
              | U128 _ => Panic
              end);
  let result := if signed load then wrap 64 (signed_immediate raw (bytes size * 8)) else raw in
  writes register (destination_bits load) false result.

Definition size_of (size_bits : Z) : Run MemoryStepError MemoryAccessSize :=
  lift (expect_ok (memory_size size_bits)).

(** ** Ordinary accesses *)

Definition is_ordinary (descriptor : MemoryAccess) : bool :=
  bool_decide (access_ordering descriptor = Relaxed) && bool_decide (access_class descriptor = Normal).

(** A call of the direct front end. *)
Definition on_direct {A} (d : Direct) (c : M (Mem * Direct) DirectMemoryAccessError A) :
    Run MemoryStepError A :=
  fun m => let '((s, d'), r) := c (memory m, d) in
    (set_direct (Some d') (set_memory s m),
     match r with Ok a => Ok a | Err e => Err (step_error_from_direct e) | Panic => Panic end).

Definition ordinary_read (address : GuestVirtualAddress) (descriptor : MemoryAccess) :
    Run MemoryStepError MemoryValue :=
  m ← gets id;
  match (if is_ordinary descriptor then direct_memory m else None) with
  | Some direct => on_direct direct (direct_read address descriptor)
  | None => r ← on_memory Data (mem_read space address descriptor); mret (read_value r)
  end.

Definition ordinary_write (address : GuestVirtualAddress) (value : MemoryValue)
    (descriptor : MemoryAccess) : Run MemoryStepError unit :=
  m ← gets id;
  match (if is_ordinary descriptor then direct_memory m else None) with
  | Some direct => on_direct direct (direct_write address descriptor value)
  | None => _ ← on_memory Data (mem_write space address descriptor value); mret tt
  end.

Definition transfer (fields : Operands) (address : GuestVirtualAddress) (size : MemoryAccessSize)
    (descriptor : MemoryAccess) : MemoryStep :=
  m ← gets id;
  match scalar_transfer (opc fields) size with
  | Some Store =>
      value ← lift (register_value (cpu m) (rt fields) size);
      _ ← ordinary_write address value descriptor;
      done_step
  | Some (Load load) =>
      value ← ordinary_read address descriptor;
      _ ← write_loaded (rt fields) size load value;
      done_step
  | None => mret None
  end.

Definition literal (decoded : DecodedInstruction) (fields : Operands) : MemoryStep :=
  match literal_load (Memory.size fields) with
  | None => mret None
  | Some (size, load) =>
      let address := Address.wrapping_offset (location_pc (location decoded))
                       (Z.shiftl (signed_immediate (immediate_19 fields) 19) 2) in
      value ← ordinary_read address (access size Relaxed false);
      _ ← write_loaded (rt fields) size load value;
      done_step
  end.

Definition unsigned (fields : Operands) : MemoryStep :=
  size ← size_of (Memory.size fields);
  m ← gets id;
  let base := Interp.read (cpu m) (rn fields) 64 true in
  let address := wrapping_add 64 base (immediate_12 fields * bytes size) in
  transfer fields address size (access size Relaxed false).

Definition is_unscaled (i : Instruction) : bool := match i with Unscaled _ => true | _ => false end.
Definition is_pre_index (i : Instruction) : bool := match i with PreIndex _ => true | _ => false end.

Definition indexed (fields : Operands) (instruction : Instruction) : MemoryStep :=
  if negb (is_unscaled instruction) && negb (rn fields =? 31) && (rn fields =? rt fields)
  then mret None
  else
    size ← size_of (Memory.size fields);
    m ← gets id;
    let base := Interp.read (cpu m) (rn fields) 64 true in
    let offset := signed_immediate (immediate_9 fields) 9 in
    let address := if is_unscaled instruction || is_pre_index instruction
                   then wrapping_add 64 base offset else base in
    result ← transfer fields address size (access size Relaxed false);
    match result with
    | None => mret None
    | Some _ =>
        _ ← (if negb (is_unscaled instruction)
             then writes (rn fields) 64 true (wrapping_add 64 base offset) else mret tt);
        done_step
    end.

Definition register_offset (fields : Operands) : MemoryStep :=
  size ← size_of (Memory.size fields);
  m ← gets id;
  match register_offset_address (cpu m) (rn fields) (rm fields) (Memory.option fields) (scaled fields)
          (trailing_zeros 64 (bytes size)) with
  | None => mret None
  | Some address => transfer fields address size (access size Relaxed false)
  end.

Definition mode_in (mode a b : Z) : bool := (mode =? a) || (mode =? b).

Definition pair (fields : Operands) : MemoryStep :=
  match pair_transfer (Memory.size fields) (Memory.load fields) with
  | None => mret None
  | Some (size, load_spec) =>
      if (Memory.load fields && (rt fields =? rt2 fields))
         || (mode_in (mode fields) 1 3 && negb (rn fields =? 31)
             && ((rn fields =? rt fields) || (rn fields =? rt2 fields)))
      then mret None
      else
        m ← gets id;
        let base := Interp.read (cpu m) (rn fields) 64 true in
        let offset := signed_immediate (immediate_7 fields) 7 * bytes size in
        let transfer_base := if mode_in (mode fields) 2 3 then wrapping_add 64 base offset else base in
        let first := transfer_base in
        let second := Address.wrapping_add first (bytes size) in
        let descriptor := access size Relaxed false in
        _ ← (if Memory.load fields then
               first_value ← ordinary_read first descriptor;
               second_value ← ordinary_read second descriptor;
               _ ← write_loaded (rt fields) size load_spec first_value;
               write_loaded (rt2 fields) size load_spec second_value
             else
               value ← lift (register_value (cpu m) (rt fields) size);
               _ ← ordinary_write first value descriptor;
               value ← lift (register_value (cpu m) (rt2 fields) size);
               ordinary_write second value descriptor);
        _ ← (if mode_in (mode fields) 1 3
             then writes (rn fields) 64 true (wrapping_add 64 base offset) else mret tt);
        done_step
  end.

Definition acquire_release (fields : Operands) (instruction : Instruction) : MemoryStep :=
  let load := match instruction with LoadAcquire _ => true | _ => false end in
  let ordering := if load then Acquire else Release in
  size ← size_of (Memory.size fields);
  m ← gets id;
  let address := Interp.read (cpu m) (rn fields) 64 true in
  let descriptor := access size ordering true in
  _ ← (if load then
         r ← on_memory Data (mem_read space address descriptor);
         write_loaded (rt fields) size (LoadSpec_unsigned size) (read_value r)
       else
         value ← lift (register_value (cpu m) (rt fields) size);
         _ ← on_memory Data (mem_write space address descriptor value);
         mret tt);
  done_step.

(** ** Exclusive and atomic accesses *)

(** Two registers as one value, the first one low. *)
Definition pair_value (state : A64State) (first second : Z) (element_size access_size : MemoryAccessSize) :
    res MemoryStepError MemoryValue :=
  low ← register_value state first element_size;
  high ← register_value state second element_size;
  Ok (value_from_bits access_size
        (Z.lor (value_bits low) (shl_w 128 (value_bits high) (bytes element_size * 8)))).

(** A value written to two registers. *)
Definition write_pair (first second : Z) (element_size : MemoryAccessSize) (bits : Z) :
    Run MemoryStepError unit :=
  let width := wrap 8 (bytes element_size) * 8 in
  _ ← writes first width false (wrap 64 bits);
  writes second width false (wrap 64 (Z.shiftr bits (bytes element_size * 8))).

Definition is_pair (i : Instruction) : bool :=
  match i with LoadExclusivePair _ | StoreExclusivePair _ => true | _ => false end.
Definition is_exclusive_load (i : Instruction) : bool :=
  match i with LoadExclusive _ | LoadExclusivePair _ => true | _ => false end.

Definition exclusive (fields : Operands) (instruction : Instruction) : MemoryStep :=
  let pair := is_pair instruction in
  sizes ← lift (expect_ok (exclusive_transfer_sizes (Memory.size fields) pair));
  match sizes with
  | None => mret None
  | Some (element_size, access_size) =>
      m ← gets id;
      let address := Interp.read (cpu m) (rn fields) 64 true in
      let load := is_exclusive_load instruction in
      let ordering := match load, ordered fields with
                      | true, true => Acquire
                      | false, true => Release
                      | _, false => Relaxed
                      end in
      let descriptor := MemoryAccess_new access_size Natural ordering Exclusive in
      _ ← (if load then
             '(value, reservation) ← on_memory Data (mem_load_exclusive space address descriptor);
             _ ← modify (fun m => set_monitor (monitor_reserve reservation (exclusive_monitor m)) m);
             if pair then write_pair (rt fields) (rt2 fields) element_size (value_bits (read_value value))
             else write_loaded (rt fields) element_size (LoadSpec_unsigned element_size) (read_value value)
           else
             let reservation := reservation (exclusive_monitor m) in
             _ ← modify (fun m => set_monitor (monitor_clear (exclusive_monitor m)) m);
             value ← lift (if pair then pair_value (cpu m) (rt fields) (rt2 fields) element_size access_size
                           else register_value (cpu m) (rt fields) element_size);
             succeeded ← (match reservation with
                          | Some reservation =>
                              r ← on_memory Data (mem_store_exclusive space address descriptor value reservation);
                              mret (snd r)
                          | None => mret false
                          end);
             writes (rm fields) 32 false (if negb succeeded then 1 else 0));
      done_step
  end.

Definition atomic (fields : Operands) (instruction : Instruction) : MemoryStep :=
  m ← gets id;
  let address := Interp.read (cpu m) (rn fields) 64 true in
  let ordering := atomic_ordering (acquire fields) (release fields) in
  match instruction with
  | AtomicReadModifyWrite _ =>
      match atomic_rmw_kind (atomic_opcode fields) with
      | None => mret None
      | Some kind =>
          size ← size_of (Memory.size fields);
          let descriptor := MemoryAccess_new size Natural ordering Atomic in
          operand ← lift (register_value (cpu m) (rm fields) size);
          result ← on_memory Data (mem_atomic_read_modify_write space address descriptor kind operand);
          _ ← write_loaded (rt fields) size (LoadSpec_unsigned size) (previous result);
          done_step
      end
  | CompareAndSwap _ =>
      size ← size_of (Memory.size fields);
      let descriptor := MemoryAccess_new size Natural ordering Atomic in
      expected ← lift (register_value (cpu m) (rm fields) size);
      replacement ← lift (register_value (cpu m) (rt fields) size);
      result ← on_memory Data (mem_atomic_compare_exchange space address descriptor expected replacement);
      _ ← write_loaded (rm fields) size (LoadSpec_unsigned size) (previous result);
      done_step
  | CompareAndSwapPair _ =>
      if (1 <? Memory.size fields) || negb (Z.land (rm fields) 1 =? 0) || negb (Z.land (rt fields) 1 =? 0)
      then mret None
      else
        match compare_exchange_pair_sizes (Memory.size fields) with
        | None => mret None
        | Some (element_size, access_size) =>
            let descriptor := MemoryAccess_new access_size Natural ordering Atomic in
            expected ← lift (pair_value (cpu m) (rm fields) (rm fields + 1) element_size access_size);
            replacement ← lift (pair_value (cpu m) (rt fields) (rt fields + 1) element_size access_size);
            result ← on_memory Data (mem_atomic_compare_exchange space address descriptor expected replacement);
            _ ← write_pair (rm fields) (rm fields + 1) element_size (value_bits (previous result));
            done_step
        end
  | _ => lift Panic
  end.

(** ** The family *)

Definition memory_step (decoded : DecodedInstruction) (instruction : Instruction) : MemoryStep :=
  let fields := instruction_operands instruction in
  match instruction with
  | Literal _ => literal decoded fields
  | Unsigned _ => unsigned fields
  | Unscaled _ | PostIndex _ | PreIndex _ => indexed fields instruction
  | Register _ => register_offset fields
  | Pair _ => pair fields
  | LoadAcquire _ | StoreRelease _ => acquire_release fields instruction
  | LoadExclusive _ | StoreExclusive _ | LoadExclusivePair _ | StoreExclusivePair _ =>
      exclusive fields instruction
  | AtomicReadModifyWrite _ | CompareAndSwap _ | CompareAndSwapPair _ => atomic fields instruction
  end.

Definition finish (decoded : DecodedInstruction) (result : res MemoryStepError (Datatypes.option unit)) :
    Run InterpreterError InstructionStep :=
  match result with
  | Ok (Some _) => _ ← on_cpu advance; mret Continue
  | Ok None => on_cpu (throw_unsupported decoded)
  | Err (Data fault) => mret (step_data_fault (location decoded) fault)
  | Err (DirectFailure detail) => throw (Interp.DirectMemory (location decoded) detail)
  | Panic => lift Panic
  end.

Definition execute (decoded : DecodedInstruction) (instruction : Instruction) :
    Run InterpreterError InstructionStep :=
  fun m => let '(m', result) := memory_step decoded instruction m in finish decoded result m'.
End Family.
