(* ===== verification/InterpMemoryProps.v ===== *)
(** * Loads and stores: frame and precision

    Every instruction of the memory family either completes, changing only the
    registers it names, or raises a fault, or is refused, with the registers as
    they were. *)

From Stdlib Require Import ZArith Lia Bool String.
From stdpp Require Import base numbers list option vector strings sets.
From S2P Require Import Prelude RustInt Allocation GuestAddress DecodeTable DecodeBase A64State A64Semantics.
From S2P Require Import MemoryContracts Interp InterpMachine InterpMemory.
Import DecodeBase.Memory.
Local Open Scope list_scope.
Local Open Scope Z_scope.

(** ** Operands *)

Record operands_ok (o : Operands) : Prop := {
  ok_rt : fits 5 (rt o); ok_rn : fits 5 (rn o); ok_rt2 : fits 5 (rt2 o); ok_rm : fits 5 (rm o);
  ok_size : fits 2 (Memory.size o); ok_opc : fits 2 (opc o); ok_mode : fits 2 (mode o);
  ok_option : fits 3 (Memory.option o);
  ok_immediate_7 : fits 7 (immediate_7 o); ok_immediate_9 : fits 9 (immediate_9 o);
  ok_immediate_12 : fits 12 (immediate_12 o); ok_immediate_19 : fits 19 (immediate_19 o) }.

Lemma memory_operands_of_ok id bits : fits 32 bits -> operands_ok (operands_of id bits).
Proof.
  intros Hb.
  assert (forall l w, 0 <= w -> fits w (fld bits l (Z.ones w))) as Hf by (intros; by apply fld_bound).
  assert (forall w, 0 <= w -> fits w (Z.land bits (Z.ones w))) as Hl
    by (intros; rewrite wrap_land by done; by apply wrap_fits).
  unfold operands_of. destruct (if id =? 45 then _ else _) as [a r].
  split; cbn -[fld Z.land];
    try lazymatch goal with
    | |- fits ?w (fld bits ?l _) => exact (Hf l w ltac:(lia))
    | |- fits ?w (Z.land bits _) => exact (Hl w ltac:(lia))
    end.
  assert (fits 2 (Z.shiftr bits 30)) as Hs.
  { rewrite Z.shiftr_div_pow2 by lia. unfold fits in *. split; [apply Z.div_pos; lia|].
    apply Z.div_lt_upper_bound; lia. }
  rewrite wrap_small; [done|]. by apply (fits_le 2 8).
Qed.

Lemma memory_operands_ok id bits i :
  fits 32 bits -> normalize id bits = Ok i -> operands_ok (instruction_operands i).
Proof.
  intros Hb. unfold normalize. intros H. repeat case_match; simplify_eq;
    by apply memory_operands_of_ok.
Qed.

(** ** Frames *)

(** Only the general registers in [gs] may change, and the stack pointer when
    [sp] is true. *)
Record framed (gs : list Z) (sp : bool) (st st' : A64State) : Prop := {
  framed_wf : state_wf st';
  framed_system : same_system st st';
  framed_pc : st_pc st' = st_pc st;
  framed_nzcv : st_nzcv st' = st_nzcv st;
  framed_x : forall r, register_index r ∉ gs -> st_x st' !!! r = st_x st !!! r;
  framed_sp : sp = false -> st_sp st' = st_sp st }.

Lemma framed_refl gs sp st : state_wf st -> framed gs sp st st.
Proof. done. Qed.

Lemma framed_trans gs gs' sp st st1 st2 :
  framed gs sp st st1 -> framed gs' sp st1 st2 -> framed (gs ++ gs') sp st st2.
Proof.
  intros [] []. split; [done|by etrans|congruence|congruence| |].
  - intros r Hr. rewrite elem_of_app in Hr. rewrite framed_x1, framed_x0; tauto.
  - intros ->. rewrite framed_sp1, framed_sp0; done.
Qed.

Lemma framed_mono gs gs' sp sp' st st' :
  gs ⊆ gs' -> (sp = true -> sp' = true) -> framed gs sp st st' -> framed gs' sp' st st'.
Proof.
  intros Hsub Hsp []. split; try done.
  - intros r Hr. apply framed_x0. set_solver.
  - intros ->. apply framed_sp0. destruct sp; [|done]. by discriminate Hsp.
Qed.

Lemma framed_write i sp v st :
  fits 5 i -> state_wf st -> fits 64 v ->
  framed [i] (sp && (i =? 31)) st (write_x (register i sp) v st).
Proof.
  intros Hi Hwf Hv. assert (0 <= i < 32) by exact Hi.
  destruct (Z.eqb_spec i 31) as [->|Hne].
  - rewrite register_31. destruct sp; split; try done. by apply (write_x_wf st StackPointer).
  - destruct (register_general i sp ltac:(lia)) as (r & -> & <-). split; simpl; try done.
    + by apply (write_x_wf st (General r)).
    + intros r' Hr. apply vlookup_insert_ne. set_solver.
Qed.

Section Precision.
Context {Mem Direct : Type} `{CpuMemoryOk Mem} `{!DirectMemory Direct Mem} `{!DirectMemoryOk Direct Mem}.
Implicit Types (m : Machine Mem Direct).

Record machine_ok m : Prop := {
  ok_cpu : state_wf (cpu m);
  ok_memory : mem_ok (memory m);
  ok_direct : option_Forall direct_ok (direct_memory m) }.

(** Memory, the monitor and the front end may have changed, the registers and
    the events not. *)
Record touched m m' : Prop := {
  touched_ok : machine_ok m';
  touched_cpu : cpu m' = cpu m;
  touched_events : vcpu_events m' = vcpu_events m }.

(** An instruction that wrote its registers. *)
Record wrote (gs : list Z) (sp : bool) m m' : Prop := {
  wrote_ok : machine_ok m';
  wrote_cpu : framed gs sp (cpu m) (cpu m');
  wrote_events : vcpu_events m' = vcpu_events m }.

Lemma touched_refl m : machine_ok m -> touched m m.
Proof. done. Qed.

Lemma touched_trans m m1 m2 : touched m m1 -> touched m1 m2 -> touched m m2.
Proof. intros [] []. split; [done|congruence..]. Qed.

Lemma touched_wrote gs sp m m' : touched m m' -> wrote gs sp m m'.
Proof.
  intros [Hok Hc He]. split; [done| |done]. rewrite Hc. apply framed_refl. rewrite <- Hc. apply Hok.
Qed.

Lemma touched_then_wrote gs sp m m1 m2 : touched m m1 -> wrote gs sp m1 m2 -> wrote gs sp m m2.
Proof. intros [? Hc He] [? Hf He']. split; [done|by rewrite <- Hc|congruence]. Qed.

Lemma wrote_trans gs gs' sp m m1 m2 :
  wrote gs sp m m1 -> wrote gs' sp m1 m2 -> wrote (gs ++ gs') sp m m2.
Proof. intros [] []. split; [done|by eapply framed_trans|congruence]. Qed.

Lemma wrote_then_base gs sp m m1 m2 base :
  wrote gs false m m1 -> wrote [base] sp m1 m2 -> wrote (gs ++ [base]) sp m m2.
Proof. intros [? Hf ?] ?. eapply wrote_trans; [|done]. split; [done|by eapply framed_mono; [..|exact Hf]|done]. Qed.

Lemma wrote_mono gs gs' sp sp' m m' :
  gs ⊆ gs' -> (sp = true -> sp' = true) -> wrote gs sp m m' -> wrote gs' sp' m m'.
Proof. intros Hg Hs []. split; [done|by eapply framed_mono|done]. Qed.

(** ** The steps a handler is made of *)

Variable context : InterpreterContext.
Abbreviation Post A := (A -> Machine Mem Direct -> Prop).

Lemma on_memory_wp {A} (c : M Mem DataAccessFault A) (Q : A -> Prop) m :
  machine_ok m -> wp c (fun a s => mem_ok s /\ Q a) (fun _ => mem_ok) (memory m) ->
  wp (on_memory Data c) (fun a m' => touched m m' /\ Q a) (fun _ m' => touched m m') m.
Proof.
  intros [] Hc. unfold wp, on_memory in *. destruct (c (memory m)) as [s [a|e|]]; simpl; [|done..].
  destruct Hc. done.
Qed.

Lemma on_direct_wp {A} d (c : M (Mem * Direct) DirectMemoryAccessError A) (Q : A -> Prop) m :
  machine_ok m -> direct_memory m = Some d ->
  wp c (fun a s => (mem_ok (fst s) /\ direct_ok (snd s)) /\ Q a)
    (fun _ s => mem_ok (fst s) /\ direct_ok (snd s)) (memory m, d) ->
  wp (on_direct d c) (fun a m' => touched m m' /\ Q a) (fun _ m' => touched m m') m.
Proof.
  intros [] Hd Hc. unfold wp, on_direct in *.
  destruct (c (memory m, d)) as [[s d'] [a|e|]]; simpl in *; [|..|done];
    [destruct Hc as [[] ?]; split; [|done]|destruct Hc];
    (split; [split; [done|done|by constructor]|done|done]).
Qed.

Lemma ordinary_read_wp m address size :
  machine_ok m -> fits 64 address ->
  wp (ordinary_read context address (access size Relaxed false))
    (fun v m' => touched m m' /\ value_size v = size /\ value_wf v)
    (fun _ m' => touched m m') m.
Proof.
  intros Hok Ha. unfold ordinary_read. wp_step. wp_step. unfold id. simpl.
  destruct (direct_memory m) as [d|] eqn:Ed.
  - apply on_direct_wp; [done|done|]. pose proof (ok_direct m Hok) as Hd. rewrite Ed in Hd.
    by apply direct_read_law; [apply Hok|inv Hd|].
  - wp_step. eapply wp_mono; [apply on_memory_wp; [done|by apply mem_read_law; [apply Hok|]]|..].
    + simpl. intros r m' (Ht & Hs & Hv). by wp_step.
    + done.
Qed.

Lemma ordinary_write_wp m address value size :
  machine_ok m -> fits 64 address -> value_wf value ->
  wp (ordinary_write context address value (access size Relaxed false))
    (fun _ m' => touched m m') (fun _ m' => touched m m') m.
Proof.
  intros Hok Ha Hv. unfold ordinary_write. wp_step. wp_step. unfold id. simpl.
  destruct (direct_memory m) as [d|] eqn:Ed.
  - eapply wp_mono; [apply (on_direct_wp d _ (fun _ => True)); [done|done|]| |done].
    + pose proof (ok_direct m Hok) as Hd. rewrite Ed in Hd. eapply wp_mono;
        [by apply direct_write_law; [apply Hok|inv Hd|..]| |done]. done.
    + by intros _ m' [].
  - apply wp_discard. eapply wp_mono; [apply (on_memory_wp _ (fun _ => True)); [done|]|..].
    + eapply wp_mono; [by apply mem_write_law; [apply Hok|..]| |done]. done.
    + by intros r m' [].
    + done.
Qed.

Lemma writes_wp m i w sp v :
  machine_ok m -> fits 5 i -> w = 32 \/ w = 64 -> fits 64 v ->
  wp (writes i w sp v) (fun _ m' => wrote [i] (sp && (i =? 31)) m m') (fun _ _ => False) m.
Proof.
  intros [] Hi Hw Hv. unfold wp, writes, on_cpu. rewrite write_spec by done.
  assert (fits 64 (wrap w v)) as Hwr by (apply (fits_le w); [lia|apply wrap_fits; lia]).
  pose proof (framed_write i sp (wrap w v) (cpu m) Hi ok_cpu0 Hwr) as Hf.
  split; [|done|done]. split; [apply Hf|done..].
Qed.

Lemma register_value_spec st r size :
  state_wf st -> size <> Quadword ->
  exists v, register_value st r size = Ok v /\ value_size v = size /\ value_wf v /\
    value_bits v = wrap (8 * bytes size) (read_x st (zero_register r)).
Proof.
  intros Hwf Hs. pose proof (read_x_fits st (zero_register r) Hwf) as Hf.
  destruct size; try done; eexists; (split; [reflexivity|]); (split; [done|]);
    unfold value_wf, Interp.read, register, read_w; simpl; rewrite ?wrap_wrap_le by lia;
    (split; [by (apply wrap_fits || exact Hf)|done || by rewrite wrap_small]).
Qed.

(** The register contents of a loaded value. *)
Definition loaded (size : MemoryAccessSize) (load : LoadSpec) (bits : Z) : Z :=
  wrap (destination_bits load) (if signed load then as_signed (8 * bytes size) bits else bits).

Definition load_ok (load : LoadSpec) : Prop := destination_bits load = 32 \/ destination_bits load = 64.

Lemma write_loaded_run m r size load v :
  value_size v = size -> size <> Quadword -> value_wf v -> load_ok load ->
  write_loaded r size load v m =
    (set_cpu (write_x (zero_register r) (loaded size load (value_bits v)) (cpu m)) m, Ok tt).
Proof.
  intros Hs Hq Hv Hl. unfold write_loaded.
  assert (fits 64 (value_bits v)) as Hf64.
  { unfold value_wf in Hv. rewrite Hs in Hv. eapply fits_le; [|exact Hv].
    destruct size; simpl; try done; lia. }
  rewrite (M_bind_lift_ok _ (value_bits v)) by (by destruct v; simpl in *; subst).
  unfold writes, on_cpu, loaded.
  destruct (signed load).
  - rewrite write_spec by (done || (apply wrap_fits; lia)).
    rewrite wrap_wrap_le by (destruct Hl; lia).
    rewrite signed_immediate_as_signed by (destruct size; simpl; done || lia).
    by rewrite (Z.mul_comm 8).
  - by rewrite write_spec.
Qed.

Lemma write_loaded_wp m r size load v :
  machine_ok m -> fits 5 r -> value_size v = size -> size <> Quadword -> value_wf v -> load_ok load ->
  wp (write_loaded r size load v) (fun _ m' => wrote [r] false m m') (fun _ _ => False) m.
Proof.
  intros [] Hr Hs Hq Hv Hl. unfold wp. rewrite write_loaded_run by done.
  assert (fits 64 (loaded size load (value_bits v))) as Hf.
  { unfold loaded. apply (fits_le (destination_bits load)); [destruct Hl; lia|].
    apply wrap_fits. destruct Hl; lia. }
  pose proof (framed_write r false _ (cpu m) Hr ok_cpu0 Hf) as Hfr.
  split; [|exact Hfr|done]. split; [apply Hfr|done..].
Qed.

Lemma memory_size_some b : fits 2 b -> exists size, memory_size b = Ok size /\ size <> Quadword.
Proof.
  intros [? ?]. assert (b = 0 \/ b = 1 \/ b = 2 \/ b = 3) as [->|[->|[->| ->]]] by lia; by eexists.
Qed.

Lemma size_of_wp m b (Q : Post MemoryAccessSize) (Qe : Post MemoryStepError) :
  fits 2 b -> (forall size, memory_size b = Ok size -> size <> Quadword -> Q size m) ->
  wp (size_of b) Q Qe m.
Proof.
  intros Hb HQ. destruct (memory_size_some b Hb) as (size & E & Hs). unfold size_of. rewrite E.
  apply wp_lift. by apply HQ.
Qed.

Lemma register_value_wp m st r size (Q : Post MemoryValue) (Qe : Post MemoryStepError) :
  state_wf st -> size <> Quadword ->
  (forall v, register_value st r size = Ok v -> value_size v = size -> value_wf v -> Q v m) ->
  wp (lift (register_value st r size)) Q Qe m.
Proof.
  intros Hwf Hs HQ. destruct (register_value_spec st r size Hwf Hs) as (v & E & Hv & Hw & _).
  rewrite E. apply wp_lift. by apply HQ.
Qed.

Lemma scalar_load_ok opc size load : scalar_transfer opc size = Some (Load load) -> load_ok load.
Proof.
  unfold scalar_transfer, load_ok, LoadSpec_unsigned. intros. repeat case_match; simplify_eq; simpl; auto.
Qed.

Lemma unsigned_load_ok size : load_ok (LoadSpec_unsigned size).
Proof. destruct size; unfold load_ok; simpl; auto. Qed.

(** ** Handlers *)

(** A handler that completes, changing the registers [gs], or does nothing and
    reports no semantics, or fails with the registers unchanged. *)
Definition precise (gs : list Z) (sp : bool) m (c : M (Machine Mem Direct) MemoryStepError (Datatypes.option unit)) :
    Prop :=
  wp c (fun r m' => match r with Some _ => wrote gs sp m m' | None => m' = m end)
    (fun _ m' => touched m m') m.

Definition scalar_destinations (o : Operands) : list Z := if opc o =? 0 then [] else [rt o].

Lemma transfer_precise m o address size :
  machine_ok m -> operands_ok o -> fits 64 address -> size <> Quadword ->
  precise (scalar_destinations o) false m (transfer context o address size (access size Relaxed false)).
Proof.
  intros Hok Ho Ha Hs. unfold precise, transfer, scalar_destinations. wp_step. wp_step. unfold id.
  destruct (scalar_transfer (opc o) size) as [[|load]|] eqn:Et.
  - wp_step. apply register_value_wp; [apply Hok|done|]. intros v _ Hv Hw.
    wp_step. eapply wp_mono; [by apply ordinary_write_wp| |done].
    simpl. intros _ m' Ht. by apply touched_wrote.
  - assert (opc o <> 0) as Hne by (intros E; by rewrite E in Et).
    rewrite (proj2 (Z.eqb_neq _ _)) by done.
    wp_step. eapply wp_mono; [by apply ordinary_read_wp| |done].
    simpl. intros v m1 (Ht & Hv & Hw). wp_step.
    eapply wp_mono; [apply write_loaded_wp; try done| |done].
    + apply Ht.
    + apply Ho.
    + by eapply scalar_load_ok.
    + simpl. intros _ m2 Hw2. by eapply touched_then_wrote.
  - by wp_step.
Qed.

Lemma base_fits m r : machine_ok m -> fits 64 (Interp.read (cpu m) r 64 true).
Proof. intros Hok. apply read_fits; [by right|apply Hok]. Qed.

Lemma wrapping_add_fits a b : fits 64 (wrapping_add 64 a b).
Proof. unfold wrapping_add. by apply wrap_fits. Qed.

Lemma register_offset_address_fits st base offset field scaled scale a :
  register_offset_address st base offset field scaled scale = Some a -> fits 64 a.
Proof.
  unfold register_offset_address. intros E. case_match; simplify_eq. apply wrapping_add_fits.
Qed.

Lemma literal_precise m decoded o :
  machine_ok m -> operands_ok o -> precise [rt o] false m (literal context decoded o).
Proof.
  intros Hok Ho. unfold precise, literal.
  destruct (literal_load (Memory.size o)) as [[size load]|] eqn:E; [|by wp_step].
  assert (size <> Quadword /\ load_ok load) as [Hs Hl].
  { unfold literal_load, load_ok in *. repeat case_match; simplify_eq; simpl; auto. }
  wp_step. eapply wp_mono; [apply ordinary_read_wp; [done|apply wrapping_add_fits]| |done].
  simpl. intros v m1 (Ht & Hv & Hw). wp_step. eapply wp_mono; [apply write_loaded_wp; try done; [apply Ht|apply Ho]| |done].
  simpl. intros _ m2 Hw2. by eapply touched_then_wrote.
Qed.

Lemma unsigned_precise m o :
  machine_ok m -> operands_ok o -> precise (scalar_destinations o) false m (unsigned context o).
Proof.
  intros Hok Ho. unfold precise, unsigned. wp_step. apply size_of_wp; [apply Ho|]. intros size _ Hs.
  wp_step. wp_step. unfold id. apply transfer_precise; try done. apply wrapping_add_fits.
Qed.

Definition is_writeback (i : Instruction) : bool :=
  match i with PostIndex _ | PreIndex _ => true | _ => false end.

Lemma indexed_precise m o i :
  machine_ok m -> operands_ok o -> is_unscaled i = negb (is_writeback i) ->
  precise (scalar_destinations o ++ if is_writeback i then [rn o] else [])
    (is_writeback i && (rn o =? 31)) m (indexed context o i).
Proof.
  intros Hok Ho Hi. unfold precise, indexed. case_match; [by apply wp_ret|].
  wp_step. apply size_of_wp; [apply Ho|]. intros size _ Hs. wp_step. wp_step. unfold id.
  set (base := Interp.read _ _ _ _). set (address := if _ || _ then _ else _).
  assert (fits 64 address) as Ha.
  { unfold address. case_match; [apply wrapping_add_fits|by apply base_fits]. }
  wp_step. eapply wp_mono; [by apply transfer_precise| |done].
  intros [[]|] m1 Hw; [|subst m1; by wp_step]. rewrite Hi, negb_involutive. wp_step.
  destruct (is_writeback i); [|wp_step; apply wp_ret; by rewrite app_nil_r].
  eapply wp_mono; [apply writes_wp; [apply Hw|apply Ho|by right|apply wrapping_add_fits]| |done].
  simpl. intros _ m2 Hw2. by eapply wrote_then_base.
Qed.

Lemma register_offset_precise m o :
  machine_ok m -> operands_ok o -> precise (scalar_destinations o) false m (register_offset context o).
Proof.
  intros Hok Ho. unfold precise, register_offset. wp_step. apply size_of_wp; [apply Ho|].
  intros size _ Hs. wp_step. wp_step. unfold id.
  destruct (register_offset_address _ _ _ _ _ _) eqn:E; [|by wp_step].
  apply transfer_precise; try done. by eapply register_offset_address_fits.
Qed.

Lemma pair_transfer_ok b l size load :
  pair_transfer b l = Some (size, load) -> size <> Quadword /\ load_ok load.
Proof. unfold pair_transfer, load_ok. intros. repeat case_match; simplify_eq; simpl; auto. Qed.

(** Two loads, then two register writes. *)
Lemma load_pair_wp m first second r r2 size load :
  machine_ok m -> fits 64 first -> fits 64 second -> fits 5 r -> fits 5 r2 ->
  size <> Quadword -> load_ok load ->
  wp (first_value ← ordinary_read context first (access size Relaxed false);
      second_value ← ordinary_read context second (access size Relaxed false);
      _ ← write_loaded r size load first_value;
      write_loaded r2 size load second_value)
    (fun _ m' => wrote [r; r2] false m m') (fun _ m' => touched m m') m.
Proof.
  intros Hok Hf Hs Hr Hr2 Hq Hl. wp_step. eapply wp_mono; [by apply ordinary_read_wp| |done].
  simpl. intros v m1 (Ht1 & Hv & Hw). wp_step.
  eapply wp_mono; [apply ordinary_read_wp; [apply Ht1|done]| |].
  - simpl. intros v2 m2 (Ht2 & Hv2 & Hw2). wp_step.
    eapply wp_mono; [apply write_loaded_wp; try done; apply Ht2| |done].
    simpl. intros _ m3 Hw3. eapply wp_mono; [apply write_loaded_wp; try done; apply Hw3| |done].
    simpl. intros _ m4 Hw4. eapply touched_then_wrote; [by eapply touched_trans|].
    change [r; r2] with ([r] ++ [r2]). by eapply wrote_trans.
  - simpl. intros e m2 Ht2. by eapply touched_trans.
Qed.

Lemma store_pair_wp m first second r r2 size :
  machine_ok m -> fits 64 first -> fits 64 second -> size <> Quadword ->
  wp (value ← lift (register_value (cpu m) r size);
      _ ← ordinary_write context first value (access size Relaxed false);
      value ← lift (register_value (cpu m) r2 size);
      ordinary_write context second value (access size Relaxed false))
    (fun _ m' => touched m m') (fun _ m' => touched m m') m.
Proof.
  intros Hok Hf Hs Hq. wp_step. apply register_value_wp; [apply Hok|done|]. intros v _ Hv Hw.
  wp_step. eapply wp_mono; [by apply ordinary_write_wp| |done]. simpl. intros _ m1 Ht1.
  wp_step. apply register_value_wp; [apply Hok|done|]. intros v2 _ Hv2 Hw2.
  eapply wp_mono; [apply ordinary_write_wp; [apply Ht1|done|done]| |];
    simpl; intros ? m2 Ht2; by eapply touched_trans.
Qed.

Definition pair_writeback (o : Operands) : bool := mode_in (mode o) 1 3.

Lemma pair_precise m o :
  machine_ok m -> operands_ok o ->
  precise ((if Memory.load o then [rt o; rt2 o] else []) ++ if pair_writeback o then [rn o] else [])
    (pair_writeback o && (rn o =? 31)) m (pair context o).
Proof.
  intros Hok Ho. unfold precise, pair.
  destruct (pair_transfer _ _) as [[size load]|] eqn:E; [|by apply wp_ret].
  destruct (pair_transfer_ok _ _ _ _ E) as [Hs Hl].
  case_match; [by apply wp_ret|]. wp_step. wp_step. unfold id. fold (pair_writeback o).
  set (base := Interp.read _ _ _ _). set (first := if mode_in (mode o) 2 3 then _ else _).
  assert (fits 64 first) as Hf.
  { unfold first. case_match; [apply wrapping_add_fits|by apply base_fits]. }
  wp_step.
  eapply (wp_mono _ (fun _ m' => wrote (if Memory.load o then [rt o; rt2 o] else []) false m m')).
  - destruct (Memory.load o).
    + apply load_pair_wp; try done; try apply Ho. apply wrapping_add_fits.
    + eapply wp_mono; [apply store_pair_wp; try done; apply wrapping_add_fits| |done].
      simpl. intros _ m1 Ht. by apply touched_wrote.
  - simpl. intros _ m1 Hw. wp_step. destruct (pair_writeback o); [|wp_step; apply wp_ret; by rewrite app_nil_r].
    eapply wp_mono; [apply writes_wp; [apply Hw|apply Ho|by right|apply wrapping_add_fits]| |done].
    simpl. intros _ m2 Hw2. apply wp_ret. by eapply wrote_then_base.
  - done.
Qed.

Lemma acquire_release_precise m o i :
  machine_ok m -> operands_ok o ->
  precise (match i with LoadAcquire _ => [rt o] | _ => [] end) false m (acquire_release context o i).
Proof.
  intros Hok Ho. unfold precise, acquire_release. wp_step. apply size_of_wp; [apply Ho|]. intros size _ Hs.
  wp_step. wp_step. unfold id. set (load := match i with LoadAcquire _ => true | _ => false end).
  assert (match i with LoadAcquire _ => [rt o] | _ => [] end = if load then [rt o] else []) as ->
    by (by destruct i).
  pose proof (base_fits m (rn o) Hok) as Hb. wp_step. destruct load.
  - wp_step. eapply wp_mono; [apply on_memory_wp; [done|by apply mem_read_law; [apply Hok|]]| |done].
    simpl. intros v m1 (Ht & Hv & Hw).
    eapply wp_mono; [apply write_loaded_wp; try done; [apply Ht|apply Ho|apply unsigned_load_ok]| |done].
    simpl. intros _ m2 Hw2. apply wp_ret. by eapply touched_then_wrote.
  - wp_step. apply register_value_wp; [apply Hok|done|]. intros v _ Hv Hw. apply wp_discard.
    eapply wp_mono; [apply (on_memory_wp _ (fun _ => True)); [done|]| |done].
    + eapply wp_mono; [by apply mem_write_law; [apply Hok|..]| |done]. done.
    + simpl. intros _ m1 [Ht _]. apply wp_ret. by apply touched_wrote.
Qed.

(** ** Two registers as one value *)

Lemma pair_value_wp m st a b element_size access_size (Q : Post MemoryValue) (Qe : Post MemoryStepError) :
  state_wf st -> element_size <> Quadword -> bytes access_size = 2 * bytes element_size ->
  (forall v, value_size v = access_size -> value_wf v -> Q v m) ->
  wp (lift (pair_value st a b element_size access_size)) Q Qe m.
Proof.
  intros Hwf Hs Hb HQ.
  destruct (register_value_spec st a element_size Hwf Hs) as (v & E & Hv & Hw & _).
  destruct (register_value_spec st b element_size Hwf Hs) as (v2 & E2 & Hv2 & Hw2 & _).
  apply wp_lift. unfold pair_value. rewrite E, E2. simpl. apply HQ; [apply value_from_bits_size|].
  apply value_from_bits_wf.
  apply fits_lor; [lia| |by apply fits_shl_w].
  unfold value_wf in Hw. rewrite Hv in Hw. eapply fits_le; [|exact Hw].
  pose proof (bytes_bound element_size). lia.
Qed.

Lemma write_pair_wp m a b element_size bits :
  machine_ok m -> fits 5 a -> fits 5 b -> element_size = Word \/ element_size = Doubleword ->
  wp (write_pair a b element_size bits) (fun _ m' => wrote [a; b] false m m') (fun _ _ => False) m.
Proof.
  intros Hok Ha Hb Hs. unfold write_pair.
  assert (wrap 8 (bytes element_size) * 8 = 32 \/ wrap 8 (bytes element_size) * 8 = 64) as Hw
    by (destruct Hs as [-> | ->]; [by left|by right]).
  wp_step. eapply wp_mono; [apply writes_wp; try done; by apply wrap_fits| |done].
  simpl. intros _ m1 Hw1. eapply wp_mono; [apply writes_wp; try done; [apply Hw1|by apply wrap_fits]| |done].
  simpl. intros _ m2 Hw2. change [a; b] with ([a] ++ [b]). by eapply wrote_trans.
Qed.

(** ** Exclusive and atomic handlers *)

Definition exclusive_sizes_ok (pair : bool) (element_size access_size : MemoryAccessSize) : Prop :=
  element_size <> Quadword /\
  if pair then (element_size = Word \/ element_size = Doubleword) /\ bytes access_size = 2 * bytes element_size
  else access_size = element_size.

Lemma exclusive_sizes_wp m b pair (Q : Post (Datatypes.option (MemoryAccessSize * MemoryAccessSize)))
    (Qe : Post MemoryStepError) :
  fits 2 b -> Q None m -> (forall e a, exclusive_sizes_ok pair e a -> Q (Some (e, a)) m) ->
  wp (lift (expect_ok (exclusive_transfer_sizes b pair))) Q Qe m.
Proof.
  intros [? ?] HN HS. apply wp_lift.
  assert (b = 0 \/ b = 1 \/ b = 2 \/ b = 3) as [->|[->|[->| ->]]] by lia; destruct pair; simpl;
    first [exact HN | apply HS; by (split; [done|try (split; [auto|done])])].
Qed.

Lemma monitor_touched m m1 x : touched m m1 -> touched m (set_monitor x m1).
Proof. intros [[] ? ?]. done. Qed.

Definition exclusive_destinations (o : Operands) (i : Instruction) : list Z :=
  if is_exclusive_load i then if is_pair i then [rt o; rt2 o] else [rt o] else [rm o].

Lemma exclusive_load_wp m o address descriptor pair element_size :
  machine_ok m -> operands_ok o -> fits 64 address ->
  exclusive_sizes_ok pair element_size (access_size descriptor) ->
  wp ('(value, reservation) ← on_memory Data
          (mem_load_exclusive (address_space_id (process context)) address descriptor);
      _ ← modify (fun m => set_monitor (monitor_reserve reservation (exclusive_monitor m)) m);
      if pair then write_pair (rt o) (rt2 o) element_size (value_bits (read_value value))
      else write_loaded (rt o) element_size (LoadSpec_unsigned element_size) (read_value value))
    (fun _ m' => wrote (if pair then [rt o; rt2 o] else [rt o]) false m m') (fun _ m' => touched m m') m.
Proof.
  intros Hok Ho Ha [Hq Hsz]. wp_step. eapply wp_mono;
    [apply on_memory_wp; [done|by apply mem_load_exclusive_law; [apply Hok|]]| |done].
  simpl. intros [v res] m1 (Ht & Hv & Hw). simpl in *. wp_step. wp_step.
  pose proof (monitor_touched m m1 (monitor_reserve res (exclusive_monitor m1)) Ht) as Ht'.
  destruct pair.
  - destruct Hsz as [He _]. eapply wp_mono; [apply write_pair_wp; try done; [apply Ht'|apply Ho..]| |done].
    simpl. intros _ m2 Hw2. by eapply touched_then_wrote.
  - rewrite Hsz in Hv. eapply wp_mono;
      [apply write_loaded_wp; try done; [apply Ht'|apply Ho|apply unsigned_load_ok]| |done].
    simpl. intros _ m2 Hw2. by eapply touched_then_wrote.
Qed.

Lemma exclusive_store_wp m o address descriptor value reserved :
  machine_ok m -> operands_ok o -> fits 64 address ->
  wp (succeeded ← (match reserved with
                   | Some r =>
                       r ← on_memory Data (mem_store_exclusive (address_space_id (process context))
                                             address descriptor value r);
                       mret (snd r)
                   | None => mret false
                   end);
      writes (rm o) 32 false (if negb succeeded then 1 else 0))
    (fun _ m' => wrote [rm o] false m m') (fun _ m' => touched m m') m.
Proof.
  intros Hok Ho Ha. wp_step.
  assert (forall succeeded m1, touched m m1 ->
    wp (writes (rm o) 32 false (if negb succeeded then 1 else 0))
      (fun _ m' => wrote [rm o] false m m') (fun _ m' => touched m m') m1) as Hlast.
  { intros succeeded m1 Ht. eapply wp_mono; [apply writes_wp; [apply Ht|apply Ho|by left|by destruct succeeded]| |done].
    simpl. intros _ m2 Hw. by eapply touched_then_wrote. }
  destruct reserved as [r|]; [|apply wp_ret; by apply Hlast].
  wp_step. eapply wp_mono; [apply (on_memory_wp _ (fun _ => True)); [done|]| |done].
  - eapply wp_mono; [by apply mem_store_exclusive_law; [apply Hok|]| |done]. done.
  - simpl. intros a m1 [Ht _]. apply wp_ret. by apply Hlast.
Qed.

Lemma exclusive_precise m o i :
  machine_ok m -> operands_ok o -> precise (exclusive_destinations o i) false m (exclusive context o i).
Proof.
  intros Hok Ho. unfold precise, exclusive, exclusive_destinations. wp_step.
  apply exclusive_sizes_wp; [apply Ho|by apply wp_ret|]. intros e a Hsz. wp_step. wp_step. unfold id.
  pose proof (base_fits m (rn o) Hok) as Hb. wp_step. destruct (is_exclusive_load i).
  - eapply wp_mono; [by apply exclusive_load_wp| |done]. simpl. intros _ m1 Hw. by apply wp_ret.
  - wp_step. wp_step.
    pose proof (monitor_touched m m (monitor_clear (exclusive_monitor m)) (touched_refl m Hok)) as Ht.
    wp_step. destruct Hsz as [Hq Hsz].
    assert (forall v, wp (succeeded ← (match reservation (exclusive_monitor m) with
        | Some r => r ← on_memory Data (mem_store_exclusive (address_space_id (process context))
            (Interp.read (cpu m) (rn o) 64 true)
            (MemoryAccess_new a Natural (if ordered o then Release else Relaxed) Exclusive) v r);
            mret (snd r)
        | None => mret false end);
      writes (rm o) 32 false (if negb succeeded then 1 else 0))
      (fun _ m' => wp done_step (fun r m'' => match r with Some _ => wrote [rm o] false m m'' | None => m'' = m end)
         (fun _ m' => touched m m') m')
      (fun _ m' => touched m m') (set_monitor (monitor_clear (exclusive_monitor m)) m)) as Hstore.
    { intros v. eapply wp_mono; [apply exclusive_store_wp; [apply Ht|done|done]| |].
      - simpl. intros _ m1 Hw. apply wp_ret. by eapply touched_then_wrote.
      - simpl. intros _ m1 Hw. by eapply touched_trans. }
    destruct (is_pair i).
    + apply pair_value_wp; [apply Hok|done|apply Hsz|]. intros v _ _. by destruct (ordered o); apply Hstore.
    + apply register_value_wp; [apply Hok|done|]. intros v _ _ _. by destruct (ordered o); apply Hstore.
Qed.

Definition atomic_destinations (o : Operands) (i : Instruction) : list Z :=
  match i with
  | AtomicReadModifyWrite _ => [rt o]
  | CompareAndSwap _ => [rm o]
  | _ => [rm o; rm o + 1]
  end.

Lemma even_next r : fits 5 r -> Z.land r 1 = 0 -> fits 5 (r + 1).
Proof.
  intros [? Hr] He. change 1 with (Z.ones 1) in He. rewrite Z.land_ones in He by lia. split; [lia|].
  assert (r <> 31) by (intros ->; by vm_compute in He). change (2 ^ 5) with 32 in *. lia.
Qed.

Lemma compare_exchange_pair_sizes_ok b e a :
  compare_exchange_pair_sizes b = Some (e, a) -> exclusive_sizes_ok true e a.
Proof.
  unfold compare_exchange_pair_sizes, exclusive_sizes_ok. intros. repeat case_match; simplify_eq; auto.
Qed.

Lemma atomic_precise m o i :
  machine_ok m -> operands_ok o ->
  match i with AtomicReadModifyWrite _ | CompareAndSwap _ | CompareAndSwapPair _ => True | _ => False end ->
  precise (atomic_destinations o i) false m (atomic context o i).
Proof.
  intros Hok Ho Hi. unfold precise, atomic. wp_step. wp_step. unfold id.
  pose proof (base_fits m (rn o) Hok) as Hb.
  destruct i; try done; cbn [atomic_destinations].
  - destruct (atomic_rmw_kind _) as [kind|]; [|by apply wp_ret].
    wp_step. apply size_of_wp; [apply Ho|]. intros size _ Hs.
    wp_step. apply register_value_wp; [apply Hok|done|]. intros v _ Hv Hw.
    wp_step. eapply wp_mono; [apply on_memory_wp; [done|by apply mem_rmw_law; [apply Hok|..]]| |done].
    simpl. intros r m1 (Ht & Hr & Hwr). wp_step.
    eapply wp_mono; [apply write_loaded_wp; try done; [apply Ht|apply Ho|apply unsigned_load_ok]| |done].
    simpl. intros _ m2 Hw2. apply wp_ret. by eapply touched_then_wrote.
  - wp_step. apply size_of_wp; [apply Ho|]. intros size _ Hs.
    wp_step. apply register_value_wp; [apply Hok|done|]. intros v _ Hv Hw.
    wp_step. apply register_value_wp; [apply Hok|done|]. intros v2 _ Hv2 Hw2.
    wp_step. eapply wp_mono; [apply on_memory_wp; [done|by apply mem_compare_exchange_law; [apply Hok|..]]| |done].
    simpl. intros r m1 (Ht & Hr & Hwr). wp_step.
    eapply wp_mono; [apply write_loaded_wp; try done; [apply Ht|apply Ho|apply unsigned_load_ok]| |done].
    simpl. intros _ m2 Hw3. apply wp_ret. by eapply touched_then_wrote.
  - destruct ((1 <? Memory.size o) || _ || _) eqn:Eg; [by apply wp_ret|].
    apply orb_false_iff in Eg as [[_ Hrm%negb_false_iff%Z.eqb_eq]%orb_false_iff _].
    destruct (compare_exchange_pair_sizes _) as [[e a]|] eqn:Es; [|by apply wp_ret].
    apply compare_exchange_pair_sizes_ok in Es as (Hq & He & Hsz).
    wp_step. apply pair_value_wp; [apply Hok|done|done|]. intros v Hv Hw.
    wp_step. apply pair_value_wp; [apply Hok|done|done|]. intros v2 Hv2 Hw2.
    wp_step. eapply wp_mono; [apply on_memory_wp; [done|by apply mem_compare_exchange_law; [apply Hok|..]]| |done].
    simpl. intros r m1 (Ht & Hr & Hwr). wp_step.
    eapply wp_mono; [apply write_pair_wp; try done; [apply Ht|apply Ho|by apply even_next; [apply Ho|]]| |done].
    simpl. intros _ m2 Hw3. apply wp_ret. by eapply touched_then_wrote.
Qed.

(** ** The family *)

(** The general registers an instruction may change. *)
Definition destinations (i : Instruction) : list Z :=
  let o := instruction_operands i in
  match i with
  | Literal _ | LoadAcquire _ => [rt o]
  | Unsigned _ | Register _ => scalar_destinations o
  | Unscaled _ | PostIndex _ | PreIndex _ => scalar_destinations o ++ if is_writeback i then [rn o] else []
  | Pair _ => (if Memory.load o then [rt o; rt2 o] else []) ++ if pair_writeback o then [rn o] else []
  | StoreRelease _ => []
  | LoadExclusive _ | StoreExclusive _ | LoadExclusivePair _ | StoreExclusivePair _ => exclusive_destinations o i
  | AtomicReadModifyWrite _ | CompareAndSwap _ | CompareAndSwapPair _ => atomic_destinations o i
  end.

(** Whether it may change the stack pointer. *)
Definition moves_sp (i : Instruction) : bool :=
  let o := instruction_operands i in
  match i with
  | PostIndex _ | PreIndex _ => rn o =? 31
  | Pair _ => pair_writeback o && (rn o =? 31)
  | _ => false
  end.

Lemma memory_step_precise m decoded i :
  machine_ok m -> operands_ok (instruction_operands i) ->
  precise (destinations i) (moves_sp i) m (memory_step context decoded i).
Proof.
  intros Hok Ho. destruct i; cbn [memory_step destinations moves_sp instruction_operands] in *;
    first [by apply literal_precise | by apply unsigned_precise | by apply register_offset_precise
          | by apply pair_precise | by apply acquire_release_precise | by apply exclusive_precise
          | by apply atomic_precise | idtac].
  - apply (indexed_precise m _ (Unscaled _)); done.
  - apply (indexed_precise m _ (PostIndex _)); done.
  - apply (indexed_precise m _ (PreIndex _)); done.
Qed.

(** What an executed instruction leaves. *)
Record completed (gs : list Z) (sp : bool) m m' : Prop := {
  completed_ok : machine_ok m';
  completed_pc : st_pc (cpu m') = wrapping_add 64 (st_pc (cpu m)) 4;
  completed_system : same_system (cpu m) (cpu m');
  completed_nzcv : st_nzcv (cpu m') = st_nzcv (cpu m);
  completed_x : forall r, register_index r ∉ gs -> st_x (cpu m') !!! r = st_x (cpu m) !!! r;
  completed_sp : sp = false -> st_sp (cpu m') = st_sp (cpu m);
  completed_events : vcpu_events m' = vcpu_events m }.

Lemma advance_completed gs sp m m' :
  wrote gs sp m m' ->
  completed gs sp m (set_cpu (set_pc (wrapping_add 64 (st_pc (cpu m')) 4) (cpu m')) m').
Proof.
  intros [[] Hf ?]. destruct Hf. split; try done.
  - split; [|done..]. apply set_pc_wf; [done|apply wrapping_add_fits].
  - simpl. by rewrite framed_pc0.
Qed.

Lemma finish_spec gs sp decoded m (c : M (Machine Mem Direct) MemoryStepError (Datatypes.option unit)) text :
  machine_ok m -> precise gs sp m c -> fmt_disassembly (instruction decoded) = Ok text ->
  match (fun m => let '(m', result) := c m in finish decoded result m') m with
  | (m', Ok Continue) => completed gs sp m m'
  | (m', Ok (Exit e)) => touched m m' /\ exists fault, e = DataFault (location decoded) fault
  | (m', Err e) => touched m m' /\ (unsupported decoded = Ok e -> m' = m)
  | (_, Panic) => False
  end.
Proof.
  intros Hok Hp Ht. unfold precise, wp in Hp. cbv beta.
  destruct (c m) as [m' [[[]|]|[fault|detail]|]]; cbn -[throw_unsupported unsupported]; try done.
  - by apply advance_completed.
  - subst m'. unfold on_cpu, throw_unsupported, unsupported. rewrite Ht. by destruct m.
  - eauto.
  - split; [done|]. unfold unsupported. rewrite Ht. done.
Qed.

(** A step of the family. *)
Lemma memory_execute_run m decoded id bits i text :
  machine_ok m -> fits 32 bits -> normalize id bits = Ok i ->
  fmt_disassembly (instruction decoded) = Ok text ->
  match execute context decoded i m with
  | (m', Ok Continue) => completed (destinations i) (moves_sp i) m m'
  | (m', Ok (Exit e)) => touched m m' /\ exists fault, e = DataFault (location decoded) fault
  | (m', Err e) => touched m m' /\ (unsupported decoded = Ok e -> m' = m)
  | (_, Panic) => False
  end.
Proof.
  intros Hok Hb Hn Ht.
  pose proof (memory_step_precise m decoded i Hok (memory_operands_ok _ _ _ Hb Hn)) as Hp.
  exact (finish_spec _ _ decoded m _ text Hok Hp Ht).
Qed.

(** C27: loads and stores are precise.  On a well-formed machine no
    instruction of the memory family panics.  It either completes: the program
    counter advances by four and nothing changes but memory, the monitor and
    the registers the instruction names as destinations or writes back; or it
    exits with a data fault, or fails, with every register as it was; and an
    unsupported form changes nothing at all. *)
Theorem memory_execute_precise m decoded id bits i text :
  machine_ok m -> fits 32 bits -> normalize id bits = Ok i ->
  fmt_disassembly (instruction decoded) = Ok text ->
  match execute context decoded i m with
  | (m', Ok Continue) => completed (destinations i) (moves_sp i) m m'
  | (m', Ok (Exit e)) => touched m m' /\ exists fault, e = DataFault (location decoded) fault
  | (m', Err e) => touched m m' /\ (unsupported decoded = Ok e -> m' = m)
  | (_, Panic) => False
  end.
Proof. apply memory_execute_run. Qed.
End Precision.
