(* ===== verification/InterpMemorySpec.v ===== *)
(** * What loads and stores do

    Addresses, values and write-back of the scalar transfers, stated over the
    mathematical meaning of the operands; stores read back by loads; what an
    exclusive store does to the monitor. *)

From Stdlib Require Import ZArith Lia Bool String.
From stdpp Require Import base numbers list option vector strings.
From S2P Require Import Prelude RustInt RustList Allocation GuestAddress DecodeTable DecodeBase A64State.
From S2P Require Import A64Semantics MemoryContracts Interp InterpMachine InterpMemory InterpMemoryProps.
Import DecodeBase.Memory.
Local Open Scope list_scope.
Local Open Scope Z_scope.

(** ** Addressing *)

(** The extended and scaled offset register. *)
Definition register_offset_meaning (x field : Z) : Datatypes.option Z :=
  match field with
  | 2 => Some (wrap 32 x)
  | 3 => Some x
  | 6 => Some (as_signed 32 x)
  | 7 => Some (as_signed 64 x)
  | _ => None
  end.

(** The address of a scalar transfer and the base it writes back. *)
Definition addressing (st : A64State) (i : Instruction) (size : MemoryAccessSize) :
    Datatypes.option (Z * Datatypes.option Z) :=
  let o := instruction_operands i in
  let base := read_x st (stack_pointer_register (rn o)) in
  let moved := wrap 64 (base + as_signed 9 (immediate_9 o)) in
  match i with
  | Unsigned _ => Some (wrap 64 (base + immediate_12 o * bytes size), None)
  | Unscaled _ => Some (moved, None)
  | PreIndex _ => Some (moved, Some moved)
  | PostIndex _ => Some (base, Some moved)
  | Register _ =>
      offset ← register_offset_meaning (read_x st (zero_register (rm o))) (Memory.option o);
      Some (wrap 64 (base + offset * (if scaled o then bytes size else 1)), None)
  | _ => None
  end.

(** A base register that is also transferred has no write-back form. *)
Definition writeback_ok (i : Instruction) : Prop :=
  let o := instruction_operands i in is_writeback i = true -> rn o = 31 \/ rn o <> rt o.

Definition write_back (o : Operands) (base : Datatypes.option Z) (st : A64State) : A64State :=
  match base with Some a => write_x (stack_pointer_register (rn o)) a st | None => st end.

Lemma write_back_pc o base st : st_pc (write_back o base st) = st_pc st.
Proof. destruct base; simpl; [|done]. by destruct (stack_pointer_register (rn o)). Qed.

Lemma wrap_add_r w x y : wrap w (x + wrap w y) = wrap w (x + y).
Proof. unfold wrap. by rewrite Zplus_mod_idemp_r. Qed.

Lemma wrap_mul_l w x y : wrap w (wrap w x * y) = wrap w (x * y).
Proof. unfold wrap. by rewrite Zmult_mod_idemp_l. Qed.

(** Evaluates the tests of a literal field. *)
Ltac fold_tests :=
  repeat match goal with
  | |- context [Z.land ?a ?b =? 0] =>
      let v := eval vm_compute in (Z.land a b =? 0) in change (Z.land a b =? 0) with v
  end;
  cbv iota; change (32 =? 32) with true; change (64 =? 32) with false; cbv iota; cbn [negb].

(** The address computed with wrapping shifts is the sum modulo [2^64]. *)
Lemma register_offset_address_spec st base offset field scaled size :
  fits 3 field -> size <> Quadword ->
  register_offset_address st base offset field scaled (trailing_zeros 64 (bytes size)) =
    (x ← register_offset_meaning (read_x st (zero_register offset)) field;
     Some (wrap 64 (read_x st (stack_pointer_register base) + x * (if scaled then bytes size else 1)))).
Proof.
  intros [? Hf] Hs. unfold register_offset_address, Interp.read, register.
  change (64 =? 64) with true. cbv iota.
  set (x := read_x st (zero_register offset)). set (b := read_x st _). change (2 ^ 3) with 8 in Hf.
  assert (forall v, (if scaled then shl_w 64 v (trailing_zeros 64 (bytes size) mod 64) else v) =
                    if scaled then wrap 64 (v * bytes size) else v) as Hshift.
  { intros v. destruct scaled; [|done]. unfold shl_w.
    rewrite Z.shiftl_mul_pow2 by (destruct size; done). by destruct size. }
  assert (field = 0 \/ field = 1 \/ field = 2 \/ field = 3 \/ field = 4 \/ field = 5 \/ field = 6 \/ field = 7)
    as Hc by lia.
  repeat destruct Hc as [->|Hc]; subst; try done; fold_tests;
    cbn -[wrap shl_w signed_immediate as_signed Z.modulo]; rewrite Hshift; unfold wrapping_add; f_equal;
    rewrite ?signed_immediate_as_signed, ?as_signed_wrap by lia;
    destruct scaled; rewrite ?wrap_add_r, ?Z.mul_1_r; try done;
    rewrite <- wrap_add_r, wrap_mul_l, wrap_add_r; done.
Qed.

Section Spec.
Context {Mem Direct : Type} `{CpuMemoryOk Mem} `{!DirectMemory Direct Mem} `{!DirectMemoryOk Direct Mem}.
Implicit Types (m : Machine Mem Direct).
Variable context : InterpreterContext.

(** ** Scalar transfers *)

(** The registers after a transfer: the loaded value, the base, the next
    instruction. *)
Definition transferred (o : Operands) (base value : Datatypes.option Z) (st : A64State) : A64State :=
  let st := match value with Some v => write_x (zero_register (rt o)) v st | None => st end in
  set_pc (wrap 64 (st_pc st + 4)) (write_back o base st).

(** What a step makes of the outcome of its access. *)
Definition access_step {A} (decoded : DecodedInstruction) (f : A -> A64State -> A64State)
    (outcome : Machine Mem Direct * res MemoryStepError A) :
    Machine Mem Direct * res InterpreterError InstructionStep :=
  match outcome with
  | (m', Ok a) => (set_cpu (f a (cpu m')) m', Ok Continue)
  | (m', Err (Data fault)) => (m', Ok (Exit (DataFault (location decoded) fault)))
  | (m', Err (DirectFailure detail)) => (m', Err (Interp.DirectMemory (location decoded) detail))
  | (m', Panic) => (m', Panic)
  end.

(** The access of a scalar transfer and the registers it leaves. *)
Definition scalar_step (decoded : DecodedInstruction) (o : Operands) (size : MemoryAccessSize)
    (address : Z) (base : Datatypes.option Z) (t : ScalarTransfer) m :
    Machine Mem Direct * res InterpreterError InstructionStep :=
  let descriptor := access size Relaxed false in
  match t with
  | Store =>
      let value := value_from_bits size (read_x (cpu m) (zero_register (rt o))) in
      access_step decoded (fun _ => transferred o base None) (ordinary_write context address value descriptor m)
  | Load load =>
      access_step decoded (fun v => transferred o base (Some (loaded size load (value_bits v))))
        (ordinary_read context address descriptor m)
  end.

Lemma register_value_bits st r size :
  state_wf st -> size <> Quadword ->
  register_value st r size = Ok (value_from_bits size (read_x st (zero_register r))).
Proof.
  intros Hwf Hs. pose proof (read_x_fits st (zero_register r) Hwf) as Hf.
  destruct size; try done; unfold register_value, Interp.read, register, read_w; simpl;
    rewrite ?wrap_wrap_le by lia; try done. by rewrite wrap_small.
Qed.

(** A transfer followed by write-back and advance. *)
Lemma transfer_step m decoded o size address base t (after : M (Machine Mem Direct) MemoryStepError unit) :
  machine_ok m -> operands_ok o -> fits 64 address -> size <> Quadword -> scalar_transfer (opc o) size = Some t ->
  (forall m', after m' = (set_cpu (write_back o base (cpu m')) m', Ok tt)) ->
  (let '(m', result) := (r ← transfer context o address size (access size Relaxed false);
                         match r with None => mret None | Some _ => _ ← after; done_step end) m in
   finish decoded result m') = scalar_step decoded o size address base t m.
Proof.
  intros Hok Ho Ha Hs Ht Hafter. unfold transfer. rewrite Ht. unfold scalar_step.
  destruct t as [|load].
  - unfold mbind, M_bind, gets, id, lift.
    rewrite register_value_bits by (done || apply Hok).
    set (value := value_from_bits _ _).
    assert (value_wf value) as Hv.
    { apply value_from_bits_wf, (fits_le 64); [lia|apply read_x_fits, Hok]. }
    pose proof (ordinary_write_wp context m address value size Hok Ha Hv) as Hw. unfold wp in Hw.
    destruct (ordinary_write context address value _ m) as [m' [[]|[fault|detail]|]]; simpl; try done.
    rewrite Hafter. unfold transferred. by rewrite <- (write_back_pc o base).
  - unfold mbind, M_bind, gets, id.
    pose proof (ordinary_read_wp context m address size Hok Ha) as Hr. unfold wp in Hr.
    destruct (ordinary_read context address _ m) as [m' [v|[fault|detail]|]];
      cbn -[write_loaded finish done_step transferred]; try done.
    destruct Hr as (Htouch & Hv & Hwf).
    rewrite write_loaded_run by (done || by eapply scalar_load_ok).
    simpl. rewrite Hafter. unfold transferred. by rewrite <- (write_back_pc o base).
Qed.

Lemma bind_some_done (c : M (Machine Mem Direct) MemoryStepError (Datatypes.option unit)) m :
  (r ← c; match r with None => mret None | Some _ => _ ← mret tt; done_step end) m = c m.
Proof. unfold mbind, M_bind. by destruct (c m) as [m' [[[]|]|e|]]. Qed.

Lemma set_cpu_same m : set_cpu (cpu m) m = m.
Proof. by destruct m. Qed.

Abbreviation run_step decoded step m := (let '(m', result) := step m in finish decoded result m').

(** A transfer that does not write back. *)
Lemma plain_step m decoded o size address t :
  machine_ok m -> operands_ok o -> fits 64 address -> size <> Quadword -> scalar_transfer (opc o) size = Some t ->
  run_step decoded (transfer context o address size (access size Relaxed false)) m =
  scalar_step decoded o size address None t m.
Proof.
  intros. rewrite <- (transfer_step m decoded o size address None t (mret tt)); [|done..|].
  - by rewrite bind_some_done.
  - intros m'. simpl. by rewrite set_cpu_same.
Qed.

Lemma unsigned_step m decoded o size t :
  machine_ok m -> operands_ok o -> memory_size (Memory.size o) = Ok size -> size <> Quadword ->
  scalar_transfer (opc o) size = Some t ->
  run_step decoded (unsigned context o) m =
  scalar_step decoded o size
    (wrap 64 (read_x (cpu m) (stack_pointer_register (rn o)) + immediate_12 o * bytes size)) None t m.
Proof.
  intros Hok Ho Hsz Hs Ht. rewrite <- plain_step by (done || by apply wrap_fits).
  unfold unsigned, size_of. by rewrite Hsz.
Qed.

Lemma register_offset_step m decoded o size x t :
  machine_ok m -> operands_ok o -> memory_size (Memory.size o) = Ok size -> size <> Quadword ->
  scalar_transfer (opc o) size = Some t ->
  register_offset_meaning (read_x (cpu m) (zero_register (rm o))) (Memory.option o) = Some x ->
  run_step decoded (register_offset context o) m =
  scalar_step decoded o size
    (wrap 64 (read_x (cpu m) (stack_pointer_register (rn o)) + x * (if scaled o then bytes size else 1))) None t m.
Proof.
  intros Hok Ho Hsz Hs Ht Hx. rewrite <- plain_step by (done || by apply wrap_fits).
  unfold register_offset, size_of. rewrite Hsz. unfold mbind at 1 2, M_bind, gets, id, lift. cbn [expect_ok].
  rewrite register_offset_address_spec by (done || apply Ho). by rewrite Hx.
Qed.

(** The forms with a signed nine-bit offset. *)
Lemma indexed_step m decoded i size address base t :
  let o := instruction_operands i in
  machine_ok m -> operands_ok o -> memory_size (Memory.size o) = Ok size -> size <> Quadword ->
  scalar_transfer (opc o) size = Some t -> writeback_ok i ->
  match i with Unscaled _ | PostIndex _ | PreIndex _ => True | _ => False end ->
  addressing (cpu m) i size = Some (address, base) ->
  run_step decoded (indexed context o i) m = scalar_step decoded o size address base t m.
Proof.
  intros o Hok Ho Hsz Hs Ht Hwb Hi Had.
  set (offset := signed_immediate (immediate_9 o) 9).
  set (after := if negb (is_unscaled i)
    then writes (rn o) 64 true (wrapping_add 64 (Interp.read (cpu m) (rn o) 64 true) offset)
    else (mret tt : M (Machine Mem Direct) MemoryStepError unit)).
  assert (offset = as_signed 9 (immediate_9 o)) as Hoff by (by apply signed_immediate_as_signed).
  assert (fits 64 address /\
    address = (if is_unscaled i || is_pre_index i
               then wrapping_add 64 (Interp.read (cpu m) (rn o) 64 true) offset
               else Interp.read (cpu m) (rn o) 64 true)) as [Ha Haddr].
  { rewrite Hoff. destruct i; try done; injection Had as <- <-; split; try done;
      (by apply wrap_fits) || by apply read_x_fits, Hok. }
  assert (negb (is_unscaled i) && negb (rn o =? 31) && (rn o =? rt o) = false) as Hg.
  { destruct (is_unscaled i) eqn:Eu; [done|].
    assert (is_writeback i = true) as Hw by (by destruct i). fold o in Hwb.
    destruct (Hwb Hw) as [E|E]; fold o in E; [by rewrite E|].
    rewrite (proj2 (Z.eqb_neq _ _) E). apply andb_false_r. }
  rewrite <- (transfer_step m decoded o size address base t after); [|done..|].
  - unfold indexed, size_of. rewrite Hg, Hsz, Haddr. done.
  - intros m'. unfold after. destruct i; try done; injection Had as _ <-; simpl; rewrite ?set_cpu_same; try done;
      unfold writes, on_cpu; rewrite write_spec by (by right || apply wrapping_add_fits);
      unfold wrapping_add; rewrite wrap_wrap, Hoff; done.
Qed.

(** The step of a scalar transfer. *)
Lemma scalar_transfer_run m decoded id bits i size address base t :
  machine_ok m -> fits 32 bits -> normalize id bits = Ok i -> writeback_ok i ->
  let o := instruction_operands i in
  memory_size (Memory.size o) = Ok size ->
  addressing (cpu m) i size = Some (address, base) -> scalar_transfer (opc o) size = Some t ->
  execute context decoded i m = scalar_step decoded o size address base t m.
Proof.
  intros Hok Hb Hn Hwb o Hsz Had Ht. pose proof (memory_operands_ok _ _ _ Hb Hn) as Ho. fold o in Ho.
  assert (size <> Quadword) as Hs by (unfold memory_size in Hsz; repeat case_match; congruence).
  unfold execute. destruct i; try discriminate Had; cbn [memory_step instruction_operands] in *;
    try (by apply indexed_step); cbn [addressing instruction_operands] in Had.
  - injection Had as <- <-. by apply unsigned_step.
  - destruct (register_offset_meaning _ _) as [x|] eqn:Ex; [|done]. injection Had as <- <-.
    by apply register_offset_step.
Qed.

(** C26: scalar loads and stores do what their encoding says.  A transfer with
    an immediate, unscaled, pre-indexed, post-indexed or register offset makes
    exactly one access of its size, at the base plus the scaled, extended or
    signed offset modulo 2^64.  A store writes the low bytes of its register; a
    load leaves the zero- or sign-extended value in its register at the width
    of the form; the base register receives the moved base in the indexed forms
    and only there; the next instruction is four bytes on; and a fault becomes
    an exit with the registers as they were.  Forms that write back a base they
    transfer, which the architecture leaves unpredictable, are excluded
    ([writeback_ok]). *)
Theorem scalar_transfer_exact m decoded id bits i size address base t :
  machine_ok m -> fits 32 bits -> normalize id bits = Ok i -> writeback_ok i ->
  let o := instruction_operands i in
  memory_size (Memory.size o) = Ok size ->
  addressing (cpu m) i size = Some (address, base) -> scalar_transfer (opc o) size = Some t ->
  execute context decoded i m = scalar_step decoded o size address base t m.
Proof. intros Hok Hb Hn Hwb o. by apply (scalar_transfer_run m decoded id bits). Qed.

(** ** The monitor *)

Definition is_exclusive_store (i : Instruction) : bool :=
  match i with StoreExclusive _ | StoreExclusivePair _ => true | _ => false end.

(** What is left of a conditional store once its value is known. *)
Lemma exclusive_store_run m o descriptor address value :
  machine_ok m -> operands_ok o -> fits 64 address ->
  wp (succeeded ← (match reservation (exclusive_monitor m) with
                   | Some r =>
                       r ← on_memory Data (mem_store_exclusive (address_space_id (process context))
                                             address descriptor value r);
                       mret (snd r)
                   | None => mret false
                   end);
      writes (rm o) 32 false (if negb succeeded then 1 else 0))
    (fun _ m' => exclusive_monitor m' = monitor_clear (exclusive_monitor m) /\
       (reservation (exclusive_monitor m) = None ->
        memory m' = memory m /\ cpu m' = write_x (zero_register (rm o)) 1 (cpu m)))
    (fun e m' => (exists fault, e = Data fault) /\
       exclusive_monitor m' = monitor_clear (exclusive_monitor m) /\
       reservation (exclusive_monitor m) <> None)
    (set_monitor (monitor_clear (exclusive_monitor m)) m).
Proof.
  intros Hok Ho Ha. wp_step.
  assert (forall (b : bool) m0 Q (Qe : MemoryStepError -> Machine Mem Direct -> Prop),
    Q tt (set_cpu (write_x (zero_register (rm o)) (if negb b then 1 else 0) (cpu m0)) m0) ->
    wp (writes (rm o) 32 false (if negb b then 1 else 0)) Q Qe m0) as Hlast.
  { intros b m0 Q Qe HQ. unfold wp, writes, on_cpu.
    rewrite write_spec by (by left || by destruct b). by destruct b. }
  destruct (reservation (exclusive_monitor m)) as [r|].
  - wp_step. unfold wp at 1, on_memory.
    pose proof (mem_store_exclusive_law (memory m) (address_space_id (process context)) address
                  descriptor value r (ok_memory m Hok) Ha) as Hl.
    unfold wp in Hl. cbn [memory set_monitor].
    destruct (mem_store_exclusive _ _ _ _ _ _) as [s [a|e|]]; [|by eauto|done].
    apply wp_ret. by apply Hlast.
  - apply wp_ret. by apply Hlast.
Qed.

(** A store-exclusive, up to the step it becomes. *)
Lemma exclusive_store_step m o i :
  machine_ok m -> operands_ok o -> is_exclusive_store i = true ->
  wp (exclusive context o i)
    (fun r m' => match r with
       | Some _ => exclusive_monitor m' = monitor_clear (exclusive_monitor m) /\
           (reservation (exclusive_monitor m) = None ->
            memory m' = memory m /\ cpu m' = write_x (zero_register (rm o)) 1 (cpu m))
       | None => m' = m
       end)
    (fun e m' => (exists fault, e = Data fault) /\
       exclusive_monitor m' = monitor_clear (exclusive_monitor m) /\
       reservation (exclusive_monitor m) <> None) m.
Proof.
  intros Hok Ho Hi. assert (is_exclusive_load i = false) as Hload by (by destruct i).
  unfold exclusive. rewrite Hload. wp_step.
  apply exclusive_sizes_wp; [apply Ho|by apply wp_ret|]. intros e a [Hq Hsz]. wp_step. wp_step. unfold id.
  pose proof (base_fits m (rn o) Hok) as Hb. wp_step. wp_step. wp_step. wp_step.
  assert (forall v descriptor, wp (succeeded ← (match reservation (exclusive_monitor m) with
        | Some r => r ← on_memory Data (mem_store_exclusive (address_space_id (process context))
            (Interp.read (cpu m) (rn o) 64 true) descriptor v r); mret (snd r)
        | None => mret false end);
      writes (rm o) 32 false (if negb succeeded then 1 else 0)) _ _ _) as Hrun
    by (intros; by apply exclusive_store_run).
  destruct (is_pair i).
  - apply pair_value_wp; [apply Hok|done|apply Hsz|]. intros v _ _.
    eapply wp_mono; [apply Hrun| |done]. simpl. intros _ m1 Hm1. by apply wp_ret.
  - apply register_value_wp; [apply Hok|done|]. intros v _ _ _.
    eapply wp_mono; [apply Hrun| |done]. simpl. intros _ m1 Hm1. by apply wp_ret.
Qed.

(** A reservation is good for one store.  Whenever a store-exclusive,
    single or pair, completes or faults, no reservation is left; and without a
    reservation it completes, leaves memory as it was and reports failure, 1,
    in its status register, changing nothing else but the program counter. *)
Theorem store_exclusive_spends_reservation m decoded id bits i text :
  machine_ok m -> fits 32 bits -> normalize id bits = Ok i -> is_exclusive_store i = true ->
  fmt_disassembly (instruction decoded) = Ok text ->
  match execute context decoded i m with
  | (m', Ok step) => reservation (exclusive_monitor m') = None /\
      (reservation (exclusive_monitor m) = None -> step = Continue /\ memory m' = memory m /\
        cpu m' = set_pc (wrap 64 (st_pc (cpu m) + 4))
                   (write_x (zero_register (rm (instruction_operands i))) 1 (cpu m)))
  | (m', Err e) => unsupported decoded = Ok e
  | (_, Panic) => False
  end.
Proof.
  intros Hok Hb Hn Hi Htext. pose proof (memory_operands_ok _ _ _ Hb Hn) as Ho.
  pose proof (exclusive_store_step m _ i Hok Ho Hi) as Hwp. unfold wp in Hwp.
  assert (memory_step context decoded i = exclusive context (instruction_operands i) i) as Hst by (by destruct i).
  unfold execute. rewrite Hst.
  destruct (exclusive context _ i m) as [m' [[[]|]|e|]]; [| | |done]; cbn [finish].
  - destruct Hwp as [Hmon Hno]. simpl. rewrite Hmon. split; [done|]. intros Hn0. destruct (Hno Hn0) as [-> ->].
    split; [done|]. split; [done|]. f_equal. unfold wrapping_add. f_equal.
    by destruct (zero_register (rm (instruction_operands i))).
  - unfold on_cpu, throw_unsupported, unsupported. by rewrite Htext.
  - destruct Hwp as ([fault ->] & Hmon & Hne). simpl. by rewrite Hmon.
Qed.
End Spec.
