(* ===== verification/InterpBackend.v ===== *)
(** * The interpreter on the synthetic backend

    Programs of loads and stores, run by the interpreter on the backend's
    memory. *)

From Stdlib Require Import ZArith Lia Bool String.
From stdpp Require Import base numbers list option vector strings gmap.
From S2P Require Import Prelude RustInt RustList Bytes GuestAddress Invalidation DecodeTable DecodeBase DecodeA64.
From S2P Require Import A64State A64Semantics MemoryContracts MemoryCommon Synthetic SyntheticInv SyntheticData.
From S2P Require Import SyntheticProps SyntheticMap SyntheticCpu Interp InterpMachine InterpMemory.
From S2P Require Import InterpMemoryProps InterpMemorySpec.
Import SyntheticMemory.
Import DecodeBase.Memory.
Local Open Scope list_scope.
Local Open Scope Z_scope.

Section Backend.
Context {Handler Direct : Type} `{SyntheticMmioOk Handler}.
Context `{!DirectMemory Direct (State Handler)} `{!DirectMemoryOk Direct (State Handler)}.
Implicit Types (m : Machine (State Handler) Direct).
Variable context : InterpreterContext.
Abbreviation space := (address_space_id (process context)).

(** Readable RAM under [n] bytes. *)
Definition readable_ram (s : State Handler) (address n : Z) : Prop :=
  forall i mapping, 0 <= i < n -> mapping_at s space (address + i) = Some mapping ->
    MemoryPermissions.contains (permissions mapping) MemoryPermissions.READ = true /\
    exists contents generation, pages s !! physical_page mapping = Some (RamPage contents generation).

Lemma written_region s s1 w address access value :
  memory_ok s -> fits 64 address -> readable_ram s address (bytes (access_size access)) ->
  SyntheticMemory.write space address access value s = (s1, Ok w) -> write_region w = Ram.
Proof.
  intros Hok Ha Hram Hw.
  destruct (wp_ok _ _ _ _ _ _ (write_wp s space address access value Hok Ha) Hw) as (_ & (r & Hr & <-) & _).
  pose proof (ok_first _ _ _ _ _ _ Hr) as Hf.
  apply resolve_checked_mapping in Hf as (Hm & _ & page & Hp & <-).
  destruct (Hram 0 (resolved_first r)) as (_ & c & g & Hp'); [pose proof (bytes_bound (access_size access)); lia|by rewrite Z.add_0_r|].
  rewrite Hp in Hp'. by injection Hp' as ->.
Qed.

Lemma ordinary_read_direct_none m address descriptor :
  direct_memory m = None ->
  ordinary_read context address descriptor m =
    match SyntheticMemory.read space address descriptor (memory m) with
    | (s, Ok r) => (set_memory s m, Ok (read_value r))
    | (s, Err e) => (set_memory s m, Err (Data e))
    | (s, Panic) => (set_memory s m, Panic)
    end.
Proof.
  intros Hd. unfold ordinary_read, mbind, M_bind, gets, id, on_memory. rewrite Hd.
  destruct (is_ordinary _); simpl; by destruct (SyntheticMemory.read _ _ _ _) as [s []].
Qed.

Lemma ordinary_write_direct_none m address value descriptor :
  direct_memory m = None ->
  ordinary_write context address value descriptor m =
    match SyntheticMemory.write space address descriptor value (memory m) with
    | (s, Ok r) => (set_memory s m, Ok tt)
    | (s, Err e) => (set_memory s m, Err (Data e))
    | (s, Panic) => (set_memory s m, Panic)
    end.
Proof.
  intros Hd. unfold ordinary_write, mbind, M_bind, gets, id, on_memory. rewrite Hd.
  destruct (is_ordinary _); simpl; by destruct (SyntheticMemory.write _ _ _ _ _) as [s []].
Qed.

Lemma zero_register_general r : fits 5 r -> r <> 31 ->
  exists g, zero_register r = General g /\ stack_pointer_register r = General g /\ register_index g = r.
Proof.
  intros Hr Hne. assert (0 <= r < 32) by exact Hr.
  destruct (register_general r false ltac:(lia)) as (g & Hg & Hi).
  destruct (register_general r true ltac:(lia)) as (g' & Hg' & Hi'). exists g. split; [done|]. split; [|done].
  simpl in *. rewrite Hg'. f_equal. apply (inj fin_to_nat). unfold register_index in *. lia.
Qed.

(** The loaded register after write-back. *)
Lemma transferred_loaded i base v st :
  let o := instruction_operands i in
  operands_ok o -> writeback_ok i -> rt o <> 31 -> (is_Some base -> is_writeback i = true) ->
  read_x (transferred o base (Some v) st) (zero_register (rt o)) = v.
Proof.
  intros o Ho Hwb Hrt Hb. destruct (zero_register_general (rt o) (ok_rt o Ho) Hrt) as (g & Hg & _ & Hi).
  unfold transferred. rewrite Hg. cbn [read_x]. unfold write_back. destruct base as [b|].
  - destruct (Hwb (Hb ltac:(eauto))) as [E|E]; fold o in E.
    + rewrite E. change (stack_pointer_register 31) with StackPointer.
      cbn [write_x set_sp set_x st_x set_pc]. apply vlookup_insert.
    + destruct (decide (rn o = 31)) as [E'|E'].
      * rewrite E'. change (stack_pointer_register 31) with StackPointer.
        cbn [write_x set_sp set_x st_x set_pc]. apply vlookup_insert.
      * destruct (zero_register_general (rn o) (ok_rn o Ho) E') as (g' & _ & Hg' & Hi'). rewrite Hg'.
        cbn [write_x set_sp set_x st_x set_pc]. etrans; [apply vlookup_insert_ne; congruence|apply vlookup_insert].
  - cbn [write_x set_sp set_x st_x set_pc]. apply vlookup_insert.
Qed.

Lemma addressing_fits st i size address base :
  state_wf st -> addressing st i size = Some (address, base) ->
  fits 64 address /\ (forall b, base = Some b -> fits 64 b) /\ (is_Some base -> is_writeback i = true).
Proof.
  assert (forall x, fits 64 (wrap 64 x)) as Hw by (intros; by apply wrap_fits).
  intros Hwf. destruct i; try done; cbn [addressing instruction_operands];
    [..|destruct (register_offset_meaning _ _); [|done]]; intros [= <- <-];
    (split; [by apply Hw || by apply read_x_fits|split; [|done || by intros []]]); intros b [= <-]; apply Hw.
Qed.

Lemma scalar_unsigned_width field size load :
  scalar_transfer field size = Some (Load load) -> size <> Quadword -> signed load = false ->
  8 * bytes size <= destination_bits load.
Proof.
  unfold scalar_transfer. intros E Hs Hu. repeat case_match; simplify_eq; try done; destruct size; simpl in *; done || lia.
Qed.

Lemma loaded_wrap size load x :
  size <> Quadword -> load_ok load -> (signed load = false -> 8 * bytes size <= destination_bits load) ->
  loaded size load (wrap (8 * bytes size) x) =
  if signed load then wrap (destination_bits load) (as_signed (8 * bytes size) x) else wrap (8 * bytes size) x.
Proof.
  intros Hs Hl Hn. unfold loaded. destruct (signed load); [by rewrite as_signed_wrap|].
  apply wrap_small, (fits_le (8 * bytes size)); [|apply wrap_fits]; pose proof (bytes_bound size); lia.
Qed.

(** A store that completes. *)
Lemma store_completes m m1 decoded o size address base :
  machine_ok m -> direct_memory m = None -> operands_ok o -> size <> Quadword -> fits 64 address ->
  (forall b, base = Some b -> fits 64 b) -> readable_ram (memory m) address (bytes size) ->
  scalar_step context decoded o size address base Store m = (m1, Ok Continue) ->
  let value := value_from_bits size (read_x (cpu m) (zero_register (rt o))) in
  SyntheticMemory.write space address (access size Relaxed false) value (memory m) =
    (memory m1, Ok {| write_region := Ram |}) /\ direct_memory m1 = None /\ machine_ok m1.
Proof.
  intros Hok Hd Ho Hs Ha Hb Hram Hstep value.
  assert (value_wf value) as Hv.
  { apply value_from_bits_wf, (fits_le 64); [lia|apply read_x_fits, Hok]. }
  pose proof (ordinary_write_wp context m address value size Hok Ha Hv) as Hwp.
  unfold scalar_step in Hstep. fold value in Hstep. unfold wp in Hwp. revert Hwp Hstep.
  rewrite ordinary_write_direct_none by done.
  destruct (SyntheticMemory.write _ _ _ _ _) as [s [w|e|]] eqn:Ew; simpl; intros Hwp [= <-].
  pose proof (written_region _ _ _ _ (access size Relaxed false) _ (ok_memory m Hok) Ha Hram Ew) as Hr.
  split; [destruct w; simpl in Hr; by subst|]. split; [done|].
  pose proof (touched_ok _ _ Hwp) as [Hc Hm Hdir]. split; simpl; [|done..].
  apply set_pc_wf; [|by apply wrap_fits]. unfold write_back. destruct base as [b|]; [|apply Hok].
  apply write_x_wf; [apply Hok|by apply Hb].
Qed.

(** C6: loads return what was stored, as the program sees it.  When a store
    instruction of any addressing form completes on readable RAM, a load
    instruction of the same size that computes the same address, in any form,
    completes, leaves memory alone, and puts into its register the stored
    register's low bytes, zero- or sign-extended as the load says.  The machine
    has no direct front end and no read fault injected at the address, the load's
    register is not the zero register, and neither form writes back a base that
    it transfers ([writeback_ok]). *)
Theorem store_then_load m m1 d1 d2 id1 bits1 i1 id2 bits2 i2 size load address b1 b2 :
  let o1 := instruction_operands i1 in let o2 := instruction_operands i2 in
  let x := read_x (cpu m) (zero_register (rt o1)) in
  machine_ok m -> direct_memory m = None -> fits 32 bits1 -> fits 32 bits2 ->
  normalize id1 bits1 = Ok i1 -> normalize id2 bits2 = Ok i2 -> writeback_ok i1 -> writeback_ok i2 ->
  memory_size (Memory.size o1) = Ok size -> memory_size (Memory.size o2) = Ok size ->
  scalar_transfer (opc o1) size = Some Store -> scalar_transfer (opc o2) size = Some (Load load) ->
  addressing (cpu m) i1 size = Some (address, b1) -> execute context d1 i1 m = (m1, Ok Continue) ->
  addressing (cpu m1) i2 size = Some (address, b2) ->
  readable_ram (memory m) address (bytes size) -> data_faults (memory m) !! (space, address, KindRead) = None ->
  rt o2 <> 31 ->
  exists m2, execute context d2 i2 m1 = (m2, Ok Continue) /\ memory m2 = memory m1 /\
    read_x (cpu m2) (zero_register (rt o2)) =
      if signed load then wrap (destination_bits load) (as_signed (8 * bytes size) x)
      else wrap (8 * bytes size) x.
Proof.
  intros o1 o2 x Hok Hd Hb1 Hb2 Hn1 Hn2 Hw1 Hw2 Hs1 Hs2 Ht1 Ht2 Ha1 Hex Ha2 Hram Hfault Hrt.
  pose proof (memory_operands_ok _ _ _ Hb1 Hn1) as Ho1. pose proof (memory_operands_ok _ _ _ Hb2 Hn2) as Ho2.
  assert (size <> Quadword) as Hs by (unfold memory_size in Hs1; repeat case_match; congruence).
  destruct (addressing_fits _ _ _ _ _ (ok_cpu m Hok) Ha1) as (Ha & Hfb & _).
  rewrite (scalar_transfer_run context m d1 id1 bits1 i1 size address b1 Store) in Hex by done.
  destruct (store_completes m m1 d1 o1 size address b1 Hok Hd Ho1 Hs Ha Hfb Hram Hex) as (Hwr & Hd1 & Hok1).
  fold x in Hwr. set (value := value_from_bits size x) in *.
  assert (fits 64 x) as Hx by (apply read_x_fits, Hok).
  assert (value_wf value) as Hv by (apply value_from_bits_wf, (fits_le 64); [lia|done]).
  pose proof (written_reads_back _ _ _ space address _ value (ok_memory m Hok) Ha Hv Hwr eq_refl
                (fun i mp Hi Hm => proj1 (Hram i mp Hi Hm)) Hfault) as Hrd.
  destruct (addressing_fits _ _ _ _ _ (ok_cpu m1 Hok1) Ha2) as (_ & _ & Hwb2).
  rewrite (scalar_transfer_run context m1 d2 id2 bits2 i2 size address b2 (Load load)) by done.
  unfold scalar_step. rewrite ordinary_read_direct_none by done. rewrite Hrd. cbn [access_step read_value].
  eexists. split; [reflexivity|]. split; [done|]. cbn [cpu set_cpu].
  rewrite transferred_loaded by done. unfold value.
  rewrite value_from_bits_bits by (apply (fits_le 64); [lia|done]).
  apply loaded_wrap; [done|by eapply scalar_load_ok|]. by eapply scalar_unsigned_width.
Qed.
End Backend.
