(* ===== verification/InterpSystem.v ===== *)
(** * System instructions: [crates/cpu-interpreter/src/interpreter/a64/system.rs]

    Hints and events, system registers, barriers, cache maintenance and the
    local monitor, one definition per function of the source. *)

From Stdlib Require Import ZArith Lia Bool String.
From stdpp Require Import base numbers list option vector strings.
From S2P Require Import Prelude RustInt Allocation GuestAddress DecodeTable DecodeBase DecodeA64 A64State A64Semantics.
From S2P Require Import MemoryContracts Interp InterpMachine InterpMemoryProps.
Import DecodeBase.SystemFamily.
Local Open Scope list_scope.
Local Open Scope Z_scope.

Section Family.
Context {Mem Direct : Type} `{CpuMemory Mem}.
Abbreviation Run E := (M (Machine Mem Direct) E).
Abbreviation Step := (M (Machine Mem Direct) InterpreterError InstructionStep).
Variable context : InterpreterContext.

Definition execute_hint (fields : Operands) : bool :=
  match hint fields with 32 | 34 | 36 | 38 => true | _ => false end.

(** [advance(state); Ok(InstructionStep::Continue)]. *)
Definition continue_step : Step := _ ← on_cpu advance; mret Continue.

(** The closure [scheduled]. *)
Definition scheduled (decoded : DecodedInstruction) (request : SchedulerRequest) : Step :=
  _ ← on_cpu advance; mret (step_scheduled (location decoded) request).

Definition execute_architectural_hint (decoded : DecodedInstruction) (operation : HintOperation) : Step :=
  match operation with
  | NoOperation => continue_step
  | HintYield => scheduled decoded Yield
  | HintWaitForEvent =>
      m ← gets id;
      let '(events, consumed) := consume_event (vcpu_events m) in
      _ ← modify (set_events events);
      if consumed then continue_step else scheduled decoded WaitForEvent
  | HintWaitForInterrupt =>
      m ← gets id;
      if interrupts_pending (vcpu_events m) then continue_step else scheduled decoded WaitForInterrupt
  | HintSendEvent => scheduled decoded SendEvent
  | HintSendEventLocal => _ ← modify (fun m => set_events (signal_event (vcpu_events m)) m); continue_step
  end.

Definition mrs_value (state : A64State) (system_key : Z) : option Z :=
  if system_key =? 0xd53b_4200 then Some (st_nzcv state)
  else if system_key =? 0xd53b_4400 then Some (st_fpcr state)
  else if system_key =? 0xd53b_4420 then Some (st_fpsr state)
  else if system_key =? 0xd53b_d040 then Some (st_tpidr_el0 state)
  else if system_key =? 0xd53b_d060 then Some (st_tpidrro_el0 state)
  else
    match runtime_register_read (process_platform (process context)) system_key with
    | Some (Constant value) => Some value
    | Some TimerFrequency => Some (frequency (architectural_timer context))
    | Some TimerCounter => Some (counter (architectural_timer context))
    | None => None
    end.

Definition execute_mrs {E} (fields : Operands) : Run E bool :=
  m ← gets id;
  match mrs_value (cpu m) (system_key fields) with
  | None => mret false
  | Some value => _ ← on_cpu (Interp.write (rt fields) 64 false value); mret true
  end.

Definition execute_msr {E} (fields : Operands) : Run E bool :=
  m ← gets id;
  let value := Interp.read (cpu m) (rt fields) 64 false in
  let key := system_key fields in
  let set f := (_ ← on_cpu (modify f); mret true) in
  if key =? 0xd51b_4200 then set (set_nzcv (Nzcv.from_bits (wrap 32 value)))
  else if key =? 0xd51b_4400 then set (set_fpcr (wrap 32 value))
  else if key =? 0xd51b_4420 then set (set_fpsr (wrap 32 value))
  else if key =? 0xd51b_d040 then set (set_tpidr_el0 value)
  else if key =? 0xd51b_d060 then mret false
  else mret false.

Definition execute_barrier {E} (fields : Operands) : Run E bool :=
  match barrier_operation (barrier_opcode fields) (barrier_option fields) with
  | None => mret false
  | Some operation => _ ← modify (fun m => set_memory (mem_memory_barrier operation (memory m)) m); mret true
  end.

Definition execute_system (fields : Operands) : Run DataAccessFault bool :=
  match cache_maintenance_operation (system_key fields) with
  | None => mret false
  | Some operation =>
      m ← gets id;
      let address := if uses_address operation
                     then Some (Interp.read (cpu m) (rt fields) 64 false) else None in
      _ ← on_memory id (mem_maintain_cache (address_space_id (process context))
                          (maintenance_kind operation) address);
      mret true
  end.

Definition instruction_operands (i : Instruction) : Operands :=
  match i with
  | Hint o | ReadRegister o | WriteRegister o | Barrier o | ClearExclusive o | System o => o
  end.

(** The end of [execute]: an outcome of [false] is unsupported. *)
Definition conclude (decoded : DecodedInstruction) (outcome : bool) : Step :=
  if negb outcome then on_cpu (throw_unsupported decoded) else continue_step.

Definition execute (decoded : DecodedInstruction) (instruction : Instruction) : Step :=
  let fields := instruction_operands instruction in
  match instruction with
  | Hint _ =>
      match hint_operation (process_platform (process context)) (hint fields) with
      | Some operation => execute_architectural_hint decoded operation
      | None => conclude decoded (execute_hint fields)
      end
  | ReadRegister _ => outcome ← execute_mrs fields; conclude decoded outcome
  | WriteRegister _ => outcome ← execute_msr fields; conclude decoded outcome
  | Barrier _ => outcome ← execute_barrier fields; conclude decoded outcome
  | ClearExclusive _ =>
      _ ← modify (fun m => set_monitor (monitor_clear (exclusive_monitor m)) m); conclude decoded true
  | System _ =>
      fun m => match execute_system fields m with
               | (m', Ok executed) => conclude decoded executed m'
               | (m', Err fault) => (m', Ok (step_data_fault (location decoded) fault))
               | (m', Panic) => (m', Panic)
               end
  end.
End Family.

(** ** Precision *)

Definition context_ok (context : InterpreterContext) : Prop :=
  fits 64 (counter (architectural_timer context)) /\ fits 64 (frequency (architectural_timer context)).

Lemma system_operands_ok id bits i : normalize id bits = Ok i -> fits 5 (rt (instruction_operands i)).
Proof.
  assert (fits 5 (Z.land bits 0x1f)) as Hl.
  { change 0x1f with (Z.ones 5). rewrite wrap_land by lia. by apply wrap_fits. }
  unfold normalize. intros H. repeat case_match; simplify_eq; exact Hl.
Qed.

Section Precision.
Context {Mem Direct : Type} `{CpuMemoryOk Mem} `{!DirectMemory Direct Mem} `{!DirectMemoryOk Direct Mem}.
Implicit Types (m : Machine Mem Direct).
Variable context : InterpreterContext.

(** The registers after an instruction that only moves on. *)
Definition advanced (st : A64State) : A64State := set_pc (wrap 64 (st_pc st + 4)) st.

Lemma advanced_wf st : state_wf st -> state_wf (advanced st).
Proof. intros. apply set_pc_wf; [done|by apply wrap_fits]. Qed.

Lemma continue_run m : continue_step m = (set_cpu (advanced (cpu m)) m, Ok Continue).
Proof. done. Qed.

Lemma scheduled_run m decoded request :
  scheduled decoded request m = (set_cpu (advanced (cpu m)) m, Ok (Exit (Scheduled (location decoded) request))).
Proof. done. Qed.

Lemma mrs_value_fits m key v :
  context_ok context -> machine_ok m -> mrs_value context (cpu m) key = Some v -> fits 64 v.
Proof.
  intros [Hc Hf] [Hwf _ _]. unfold mrs_value. intros E. pose proof (wf_nzcv _ Hwf) as Hn.
  assert (forall x, fits 32 x -> fits 64 x) as H32 by (intros; by apply (fits_le 32)).
  repeat (case_match; simplify_eq); auto with a64.
  - rewrite <- Hn. apply H32. unfold Nzcv.from_bits. by apply fits_land_r.
  - unfold runtime_register_read in *. repeat (case_match; simplify_eq); [done|by destruct (process_platform _)..].
Qed.

(** The registers after a system register was written. *)
Record system_written (st st' : A64State) : Prop := {
  written_wf : state_wf st'; written_x : st_x st' = st_x st; written_sp : st_sp st' = st_sp st;
  written_pc : st_pc st' = st_pc st; written_vector : st_vector st' = st_vector st }.

Lemma msr_wp m o :
  machine_ok m ->
  wp (execute_msr o)
    (fun ok m' => if ok then exists st, m' = set_cpu st m /\ system_written (cpu m) st else m' = m)
    (fun (_ : InterpreterError) _ => False) m.
Proof.
  intros [Hwf _ _]. unfold execute_msr. wp_step. wp_step. unfold id.
  assert (fits 64 (Interp.read (cpu m) (rt o) 64 false)) as Hv by (apply read_fits; [by right|done]).
  set (v := Interp.read _ _ _ _) in *.
  assert (forall x, fits 32 (wrap 32 x)) as Hw by (intros; by apply wrap_fits).
  repeat case_match; try (by wp_step); unfold wp; simpl; eexists; (split; [reflexivity|]); split; try done;
    try (by apply set_nzcv_wf); split; simpl; auto with a64.
Qed.

Lemma mrs_wp m o :
  context_ok context -> machine_ok m -> fits 5 (rt o) ->
  wp (execute_mrs context o)
    (fun ok m' => if ok then exists st, m' = set_cpu st m /\ framed [rt o] false (cpu m) st else m' = m)
    (fun (_ : InterpreterError) _ => False) m.
Proof.
  intros Hc Hok Hr. unfold execute_mrs. wp_step. wp_step. unfold id.
  destruct (mrs_value _ _ _) as [v|] eqn:E; [|by wp_step].
  pose proof (mrs_value_fits m _ v Hc Hok E) as Hv. wp_step. unfold wp, on_cpu. rewrite write_spec by (done || by right).
  simpl. eexists. split; [reflexivity|]. rewrite wrap_small by done.
  exact (framed_write (rt o) false v (cpu m) Hr (ok_cpu m Hok) Hv).
Qed.

Lemma set_cpu_ok m st : machine_ok m -> state_wf st -> machine_ok (set_cpu st m).
Proof. by intros []. Qed.

(** The general registers a system instruction may change. *)
Definition system_destinations (i : Instruction) : list Z :=
  match i with ReadRegister o => [rt o] | _ => [] end.

(** What a completed system instruction leaves. *)
Record system_completed (i : Instruction) m m' : Prop := {
  system_ok : machine_ok m';
  system_pc : st_pc (cpu m') = wrap 64 (st_pc (cpu m) + 4);
  system_x : forall r, register_index r ∉ system_destinations i -> st_x (cpu m') !!! r = st_x (cpu m) !!! r;
  system_sp : st_sp (cpu m') = st_sp (cpu m);
  system_vector : st_vector (cpu m') = st_vector (cpu m) }.

Lemma moved_on i m m' : machine_ok m' -> cpu m' = advanced (cpu m) -> system_completed i m m'.
Proof. intros ? E. split; rewrite ?E; done. Qed.

Lemma hint_precise m decoded operation i :
  machine_ok m ->
  match execute_architectural_hint decoded operation m with
  | (m', Ok Continue) => system_completed i m m'
  | (m', Ok (Exit e)) => cpu m' = advanced (cpu m) /\ machine_ok m' /\ memory m' = memory m /\
      exists request, e = Scheduled (location decoded) request
  | _ => False
  end.
Proof.
  intros Hok. pose proof (set_cpu_ok m _ Hok (advanced_wf _ (ok_cpu m Hok))) as Hadv.
  assert (forall events, machine_ok (set_events events (set_cpu (advanced (cpu m)) m))) as Hev by (intros; by destruct Hadv).
  unfold execute_architectural_hint, mbind, M_bind, gets, modify, id.
  destruct operation; simpl; try (by eauto 10); try (by apply moved_on).
  - destruct (event_register (vcpu_events m)); simpl.
    + apply moved_on; [apply Hev|done].
    + split; [done|]. split; [apply Hev|]. eauto.
  - destruct (interrupts_pending _); simpl; [by apply moved_on|by eauto 10].
  - apply moved_on; [apply Hev|done].
Qed.

Lemma unsupported_run {A} m decoded text :
  fmt_disassembly (instruction decoded) = Ok text ->
  exists e, (on_cpu (throw_unsupported decoded) : M (Machine Mem Direct) InterpreterError A) m = (m, Err e) /\
    unsupported decoded = Ok e.
Proof.
  intros Ht. unfold on_cpu, throw_unsupported, unsupported. rewrite Ht. simpl. eexists. split; [|done].
  by destruct m.
Qed.

(** The verdict on a step of the family. *)
Definition system_verdict (decoded : DecodedInstruction) (i : Instruction) m
    (outcome : Machine Mem Direct * res InterpreterError InstructionStep) : Prop :=
  match outcome with
  | (m', Ok Continue) => system_completed i m m'
  | (m', Ok (Exit (Scheduled source _))) =>
      source = location decoded /\ cpu m' = advanced (cpu m) /\ machine_ok m' /\ memory m' = memory m
  | (m', Ok (Exit (DataFault source _))) => source = location decoded /\ cpu m' = cpu m /\ machine_ok m'
  | (_, Ok (Exit _)) => False
  | (m', Err e) => m' = m /\ unsupported decoded = Ok e
  | (_, Panic) => False
  end.

Lemma conclude_verdict decoded i m m' text (ok : bool) :
  fmt_disassembly (instruction decoded) = Ok text ->
  (if ok then machine_ok m' /\ st_pc (cpu m') = st_pc (cpu m) /\
     (forall r, register_index r ∉ system_destinations i -> st_x (cpu m') !!! r = st_x (cpu m) !!! r) /\
     st_sp (cpu m') = st_sp (cpu m) /\ st_vector (cpu m') = st_vector (cpu m)
   else m' = m) ->
  system_verdict decoded i m (conclude decoded ok m').
Proof.
  intros Ht Hm. unfold conclude. destruct ok; cbn [negb].
  - destruct Hm as (Hok & Hpc & Hx & Hsp & Hv). rewrite continue_run. simpl. split; simpl; try done.
    + apply set_cpu_ok; [done|]. apply advanced_wf, Hok.
    + by rewrite Hpc.
  - subst m'. by destruct (unsupported_run (A := InstructionStep) m decoded text Ht) as (e & -> & He).
Qed.

Lemma maintenance_verdict m decoded o text :
  machine_ok m -> fmt_disassembly (instruction decoded) = Ok text ->
  system_verdict decoded (System o) m (execute context decoded (System o) m).
Proof.
  intros Hok Ht. cbn [execute instruction_operands]. unfold execute_system, mbind, M_bind, gets, mret, M_ret.
  destruct (cache_maintenance_operation _) as [operation|]; [|by apply (conclude_verdict _ _ _ _ text)].
  unfold on_memory. set (address := if uses_address operation then _ else _).
  assert (option_Forall (fits 64) address) as Ha.
  { unfold address. destruct (uses_address operation); constructor. apply read_fits; [by right|apply Hok]. }
  pose proof (mem_maintain_law (memory m) (address_space_id (process context))
                (maintenance_kind operation) address (ok_memory m Hok) Ha) as Hl. unfold wp in Hl.
  change (InterpMachine.memory (Datatypes.id m)) with (memory m).
  destruct (mem_maintain_cache _ _ _ _) as [s [a|e|]]; [| |done].
  - apply (conclude_verdict _ _ _ _ text); [done|]. by destruct Hok.
  - split; [done|]. split; [done|]. by destruct Hok.
Qed.

(** A step of the family. *)
Lemma system_execute_run m decoded id bits i text :
  context_ok context -> machine_ok m -> normalize id bits = Ok i ->
  fmt_disassembly (instruction decoded) = Ok text ->
  system_verdict decoded i m (execute context decoded i m).
Proof.
  intros Hc Hok Hn Ht. pose proof (system_operands_ok _ _ _ Hn) as Hr.
  assert (forall m', machine_ok m' -> cpu m' = cpu m -> system_verdict decoded i m (conclude decoded true m')) as Hdone.
  { intros m' Hm' E. apply (conclude_verdict _ _ _ _ text); [done|]. by rewrite E. }
  destruct i as [o|o|o|o|o|o]; cbn [execute instruction_operands] in *.
  - destruct (hint_operation _ _) as [operation|].
    + pose proof (hint_precise m decoded operation (Hint o) Hok) as Hh.
      destruct (execute_architectural_hint decoded operation m) as [m' [[|e]|e|]]; try done.
      destruct Hh as (Hcpu & Hm' & Hmem & request & ->). done.
    + apply (conclude_verdict _ _ _ _ text); [done|]. by destruct (execute_hint o).
  - pose proof (mrs_wp m o Hc Hok Hr) as Hw. unfold wp in Hw. unfold mbind, M_bind.
    destruct (execute_mrs context o m) as [m' [ok|e|]]; [|done..].
    apply (conclude_verdict _ _ _ _ text); [done|]. destruct ok; [|done].
    destruct Hw as (st & -> & Hf). simpl.
    split; [by apply set_cpu_ok; [|apply Hf]|]. split; [apply Hf|]. split; [apply Hf|]. split; [by apply Hf|].
    by apply (framed_system _ _ _ _ Hf).
  - pose proof (msr_wp m o Hok) as Hw. unfold wp in Hw. unfold mbind, M_bind.
    destruct (execute_msr o m) as [m' [ok|e|]]; [|done..].
    apply (conclude_verdict _ _ _ _ text); [done|]. destruct ok; [|done].
    destruct Hw as (st & -> & [Hwf Hx Hsp Hpc Hv]). simpl. rewrite Hx.
    split; [by apply set_cpu_ok|]. done.
  - unfold execute_barrier, mbind, M_bind. destruct (barrier_operation _ _) as [operation|].
    + apply Hdone; [|done]. destruct Hok. split; try done. by apply mem_barrier_law.
    + by apply (conclude_verdict _ _ _ _ text).
  - apply Hdone; [by destruct Hok|done].
  - by apply (maintenance_verdict m decoded o text).
Qed.

(** System instructions are precise.  On a well-formed machine none
    panics.  A completed instruction moves on by four bytes and changes no
    general register but the destination of a register read, and neither the
    stack pointer nor a vector register; a hint that gives up the processor
    does so with the program counter already past it and memory unchanged; a
    faulting maintenance operation leaves the registers as they were; and an
    unsupported one changes nothing. *)
Theorem system_execute_precise m decoded id bits i text :
  context_ok context -> machine_ok m -> normalize id bits = Ok i ->
  fmt_disassembly (instruction decoded) = Ok text ->
  system_verdict decoded i m (execute context decoded i m).
Proof. apply system_execute_run. Qed.

(** ** System registers *)

(** The system registers an instruction can write, and what they keep of a
    64-bit value. *)
Definition writable_register (key x : Z) : option Z :=
  if key =? 0xd51b_4200 then Some (Z.land (wrap 32 x) 0xf000_0000)
  else if (key =? 0xd51b_4400) || (key =? 0xd51b_4420) then Some (wrap 32 x)
  else if key =? 0xd51b_d040 then Some x
  else None.

Lemma mrs_run m decoded o v :
  context_ok context -> machine_ok m -> mrs_value context (cpu m) (system_key o) = Some v ->
  execute context decoded (ReadRegister o) m =
    (set_cpu (advanced (write_x (zero_register (rt o)) v (cpu m))) m, Ok Continue).
Proof.
  intros Hc Hok Hv. pose proof (mrs_value_fits m _ v Hc Hok Hv) as Hf.
  cbn [execute instruction_operands]. unfold execute_mrs, mbind, M_bind, gets, id. rewrite Hv.
  unfold on_cpu. rewrite write_spec by (done || by right). by rewrite wrap_small.
Qed.

(** The state an MSR leaves shows the value to MRS. *)
Lemma msr_run m decoded o kept :
  machine_ok m -> writable_register (system_key o) (read_x (cpu m) (zero_register (rt o))) = Some kept ->
  exists st, execute context decoded (WriteRegister o) m = (set_cpu (advanced st) m, Ok Continue) /\
    state_wf st /\ mrs_value context (advanced st) (system_key o + 0x20_0000) = Some kept.
Proof.
  intros [Hwf _ _]. set (x := read_x _ _). assert (fits 64 x) as Hx by (by apply read_x_fits).
  assert (fits 32 (wrap 32 x)) as Hw by by apply wrap_fits.
  unfold writable_register. cbn [execute instruction_operands].
  unfold execute_msr, mbind, M_bind, gets, id, on_cpu, modify, Interp.read, register.
  change (64 =? 64) with true. cbv iota. fold x.
  destruct (Z.eqb_spec (system_key o) 0xd51b_4200) as [->|]; [|
  destruct (Z.eqb_spec (system_key o) 0xd51b_4400) as [->|]; [|
  destruct (Z.eqb_spec (system_key o) 0xd51b_4420) as [->|]; [|
  destruct (Z.eqb_spec (system_key o) 0xd51b_d040) as [->|]; [|done]]]];
    cbn [orb]; intros [= <-]; eexists; (split; [reflexivity|]); (split; [|done]);
    try (by apply set_nzcv_wf); split; simpl; auto with a64.
Qed.

(** System registers hold what is written to them.  For each of the four
    registers a program can write (NZCV, FPCR, FPSR, TPIDR_EL0), a write
    followed by a read of the same register completes and returns the written
    value cut to what the register keeps: the four flag bits, the low 32 bits,
    or all 64. *)
Theorem msr_then_mrs m d1 d2 w r kept :
  context_ok context -> machine_ok m ->
  writable_register (system_key w) (read_x (cpu m) (zero_register (rt w))) = Some kept ->
  system_key r = system_key w + 0x20_0000 -> 0 <= rt r < 31 ->
  exists m1 m2, execute context d1 (WriteRegister w) m = (m1, Ok Continue) /\
    execute context d2 (ReadRegister r) m1 = (m2, Ok Continue) /\
    read_x (cpu m2) (zero_register (rt r)) = kept /\ memory m2 = memory m.
Proof.
  intros Hc Hok Hk Hr Hrt. destruct (msr_run m d1 w kept Hok Hk) as (st & H1 & Hwf & Hv).
  assert (machine_ok (set_cpu (advanced st) m)) as Hok1 by (apply set_cpu_ok; [done|by apply advanced_wf]).
  eexists _, _. split; [exact H1|]. rewrite <- Hr in Hv.
  split; [exact (mrs_run (set_cpu (advanced st) m) d2 r kept Hc Hok1 Hv)|]. split; [|done].
  destruct (register_general (rt r) false Hrt) as (g & Hg & _). simpl in Hg. rewrite Hg. apply vlookup_insert.
Qed.

(** ** Events *)

(** An event wakes one wait.  After a local send-event, a wait-for-event
    completes at once and consumes the event, so that the next wait gives up
    the processor with a scheduler request; both leave the program counter
    past the instruction. *)
Theorem event_wakes_one_wait m d1 d2 d3 o1 o2 :
  hint o1 = 5 -> hint o2 = 2 ->
  let m1 := fst (execute context d1 (Hint o1) m) in
  let m2 := fst (execute context d2 (Hint o2) m1) in
  snd (execute context d1 (Hint o1) m) = Ok Continue /\
  snd (execute context d2 (Hint o2) m1) = Ok Continue /\
  execute context d3 (Hint o2) m2 =
    (set_cpu (advanced (cpu m2)) m2, Ok (Exit (Scheduled (location d3) WaitForEvent))) /\
  st_pc (cpu m2) = wrap 64 (st_pc (cpu m) + 8).
Proof.
  intros H1 H2. cbn [execute instruction_operands]. rewrite H1, H2. cbn. split; [done|]. split; [done|].
  split; [done|].
  change (wrap 64 (wrap 64 (st_pc (cpu m) + 4) + 4) = wrap 64 (st_pc (cpu m) + 8)). rewrite wrap_add_l. f_equal. lia.
Qed.
End Precision.
