(* ===== verification/InterpSimd.v ===== *)
(** * SIMD loads and stores: [crates/cpu-interpreter/src/interpreter/a64/fp_simd.rs]

    The transfers between vector registers and memory, one definition per
    function of the source.  The arithmetic of the family
    ([A64FpSimd]) runs first, and reports the memory instructions as
    unsupported.  [checks] is the build profile. *)

From Stdlib Require Import ZArith Lia Bool String.
From stdpp Require Import base numbers list option vector strings.
From S2P Require Import Prelude RustInt FloatFormat Allocation GuestAddress DecodeTable DecodeBase DecodeFpSimd A64State.
From S2P Require Import A64Semantics MemoryContracts Interp InterpMachine InterpMemory A64FpSimd.
Import DecodeFpSimd.FpSimd.
Local Open Scope list_scope.
Local Open Scope Z_scope.

(** [for] over a range, with the locals the loop assigns. *)
Fixpoint fold_m {S E A} (f : A -> Z -> M S E A) (a : A) (l : list Z) : M S E A :=
  match l with
  | [] => mret a
  | i :: l => a ← f a i; fold_m f a l
  end.

Section Family.
Context {Mem Direct : Type} `{CpuMemory Mem} `{DirectMemory Direct Mem}.
Abbreviation Run E := (M (Machine Mem Direct) E).
Abbreviation MemoryStep := (M (Machine Mem Direct) MemoryStepError unit).
Variable context : InterpreterContext.

Definition vector_access (size : MemoryAccessSize) : MemoryAccess :=
  MemoryAccess_new size Unaligned Relaxed Normal.

Definition read_vector (address : GuestVirtualAddress) (size : MemoryAccessSize) :
    Run MemoryStepError Z :=
  value ← ordinary_read context address (vector_access size);
  mret (match value with U8 value | U16 value | U32 value | U64 value | U128 value => value end).

(** [assert!(state.set_vector(..))]. *)
Definition assert_set_vector (register value : Z) : MemoryStep :=
  fun m => let '(st, ok) := set_vector register value (cpu m) in
    if ok : bool then (set_cpu st m, Ok tt) else (set_cpu st m, Panic).

Definition write_vector (address : GuestVirtualAddress) (size : MemoryAccessSize) (register : Z) : MemoryStep :=
  m ← gets id;
  value ← lift (expect (vector (cpu m) register));
  let value := match size with
               | Byte => U8 (wrap 8 value)
               | Halfword => U16 (wrap 16 value)
               | Word => U32 (wrap 32 value)
               | Doubleword => U64 (wrap 64 value)
               | Quadword => U128 value
               end in
  ordinary_write context address value (vector_access size).

Definition vector_transfer (fields : Operands) (address : GuestVirtualAddress) (size : MemoryAccessSize) :
    MemoryStep :=
  if load fields then
    value ← read_vector address size;
    assert_set_vector (rd fields) value
  else write_vector address size (rd fields).

Definition write_lane (address : GuestVirtualAddress) (size : MemoryAccessSize) (value : Z) : MemoryStep :=
  value ← lift (match size with
                | Byte => Ok (U8 (wrap 8 value))
                | Halfword => Ok (U16 (wrap 16 value))
                | Word => Ok (U32 (wrap 32 value))
                | Doubleword => Ok (U64 (wrap 64 value))
                | Quadword => Panic
                end);
  ordinary_write context address value (vector_access size).

(** The lane of a vector, and a vector with a lane replaced. *)
Definition lane_of (vector lane lane_bits : Z) : Z :=
  Z.land (Z.shiftr vector (lane * lane_bits)) (Z.ones lane_bits).

Definition with_lane (previous lane lane_bits value : Z) : Z :=
  let shift := lane * lane_bits in
  let mask := shl_w 128 (Z.ones lane_bits) shift in
  Z.lor (Z.land previous (not_w 128 mask)) (Z.land (shl_w 128 value shift) mask).

Definition vector_lane (state : A64State) (register lane lane_bits : Z) : res MemoryStepError Z :=
  vector ← expect (vector state register); Ok (lane_of vector lane lane_bits).

Definition insert_lane (register lane lane_bits value : Z) : MemoryStep :=
  m ← gets id;
  previous ← lift (expect (vector (cpu m) register));
  assert_set_vector register (with_lane previous lane lane_bits value).

(** [fields.rd.wrapping_add(offset) & 31]. *)
Definition structure_register (fields : Operands) (offset : Z) : Z :=
  Z.land (wrapping_add 8 (rd fields) offset) 31.

Definition vector_pair (fields : Operands) : MemoryStep :=
  size ← lift (expect (simd_pair_access_size (size fields)));
  m ← gets id;
  let base := Interp.read (cpu m) (rn fields) 64 true in
  let offset := signed_immediate (immediate_7 fields) 7 * bytes size in
  let transfer_base := if mode_in (mode fields) 2 3 then wrapping_add 64 base offset else base in
  let first := transfer_base in
  let second := Address.wrapping_add first (bytes size) in
  _ ← (if load fields then
         first_value ← read_vector first size;
         second_value ← read_vector second size;
         _ ← assert_set_vector (rd fields) first_value;
         assert_set_vector (rt2 fields) second_value
       else
         _ ← write_vector first size (rd fields);
         write_vector second size (rt2 fields));
  if mode_in (mode fields) 1 3
  then writes (rn fields) 64 true (wrapping_add 64 base offset) else mret tt.

(** The base after a structure transfer. *)
Definition structure_post_index (fields : Operands) (shape : SimdMemoryShape) (base : Z) (post_index : bool) :
    MemoryStep :=
  if post_index then
    m ← gets id;
    let offset := if rm fields =? 31 then immediate_post_index shape
                  else Interp.read (cpu m) (rm fields) 64 false in
    writes (rn fields) 64 true (wrapping_add 64 base offset)
  else mret tt.

(** One whole register of a transfer without interleaving. *)
Definition repeat_register (fields : Operands) (shape : SimdMemoryShape) (vector_size : MemoryAccessSize)
    (address : Z) (repetition : Z) : Run MemoryStepError Z :=
  let register := structure_register fields repetition in
  _ ← (if load fields then
         value ← read_vector address vector_size; assert_set_vector register value
       else write_vector address vector_size register);
  mret (Address.wrapping_add address (vector_bytes shape)).

(** One element of an interleaved transfer. *)
Definition interleaved_element (fields : Operands) (shape : SimdMemoryShape) (lane : Z) (address : Z)
    (register_offset : Z) : Run MemoryStepError Z :=
  let lane_bits := bytes (shape_element_size shape) * 8 in
  let register := structure_register fields register_offset in
  _ ← (if load fields then
         value ← read_vector address (shape_element_size shape);
         insert_lane register lane lane_bits value
       else
         m ← gets id;
         value ← lift (vector_lane (cpu m) register lane lane_bits);
         write_lane address (shape_element_size shape) value);
  mret (Address.wrapping_add address (bytes (shape_element_size shape))).

(** The upper half of a 64-bit destination is cleared. *)
Definition clear_upper (fields : Operands) (_ : unit) (register_offset : Z) : MemoryStep :=
  let register := structure_register fields register_offset in
  m ← gets id;
  value ← lift (expect (vector (cpu m) register));
  assert_set_vector register (Z.land value (Z.ones 64)).

Definition vector_multiple_structures (fields : Operands) (shape : SimdMemoryShape) (post_index : bool) :
    MemoryStep :=
  let vector_size := if vector_bytes shape =? 16 then Quadword else Doubleword in
  m ← gets id;
  let base := Interp.read (cpu m) (rn fields) 64 true in
  _ ← (if structure_registers shape =? 1 then
         _ ← fold_m (repeat_register fields shape vector_size) base (seqZ 0 (repetitions shape));
         mret tt
       else
         _ ← fold_m (fun address lane =>
               fold_m (interleaved_element fields shape lane) address (seqZ 0 (structure_registers shape)))
               base (seqZ 0 (elements_per_register shape));
         if negb (vector_128 fields) && load fields
         then fold_m (clear_upper fields) tt (seqZ 0 (structure_registers shape))
         else mret tt);
  structure_post_index fields shape base post_index.

(** [vector |= value << (lane * lane_bits)] over the lanes. *)
Definition replicated (value lanes lane_bits : Z) : Z :=
  foldl (fun vector lane => Z.lor vector (shl_w 128 value (lane * lane_bits))) 0 (seqZ 0 lanes).

Definition single_element (fields : Operands) (shape : SimdMemoryShape) (address : Z) (register_offset : Z) :
    Run MemoryStepError Z :=
  let lane_bits := bytes (shape_element_size shape) * 8 in
  let register := structure_register fields register_offset in
  _ ← (match shape_mode shape with
       | Lane lane =>
           if load fields then
             value ← read_vector address (shape_element_size shape);
             insert_lane register lane lane_bits value
           else
             m ← gets id;
             value ← lift (vector_lane (cpu m) register lane lane_bits);
             write_lane address (shape_element_size shape) value
       | Replicate =>
           value ← read_vector address (shape_element_size shape);
           assert_set_vector register (replicated value (elements_per_register shape) lane_bits)
       | Multiple => lift Panic
       end);
  mret (Address.wrapping_add address (bytes (shape_element_size shape))).

Definition vector_single_structure (fields : Operands) (shape : SimdMemoryShape) (post_index : bool) :
    MemoryStep :=
  m ← gets id;
  let base := Interp.read (cpu m) (rn fields) 64 true in
  _ ← fold_m (single_element fields shape) base (seqZ 0 (structure_registers shape));
  structure_post_index fields shape base post_index.

(** ** The family *)

(** The forms with an immediate offset. *)
Definition vector_indexed (fields : Operands) (instruction : Instruction) : MemoryStep :=
  size ← lift (expect (simd_memory_access_size (size fields) (opc fields)));
  m ← gets id;
  let base := Interp.read (cpu m) (rn fields) 64 true in
  let offset := match instruction with
                | MemoryUnsigned _ => immediate_12 fields * bytes size
                | _ => wrap 64 (signed_immediate (immediate_9 fields) 9)
                end in
  let address := match instruction with MemoryPostIndex _ => base | _ => wrapping_add 64 base offset end in
  _ ← vector_transfer fields address size;
  match instruction with
  | MemoryPostIndex _ | MemoryPreIndex _ => writes (rn fields) 64 true (wrapping_add 64 base offset)
  | _ => mret tt
  end.

(** [None] when the form has no semantics. *)
Definition memory_step (instruction : Instruction) : Run MemoryStepError (option unit) :=
  let fields := instruction_operands instruction in
  let some (step : MemoryStep) := _ ← step; mret (Some tt) in
  match instruction with
  | MemoryUnsigned _ | MemoryUnscaled _ | MemoryPostIndex _ | MemoryPreIndex _ =>
      some (vector_indexed fields instruction)
  | MemoryPair _ => some (vector_pair fields)
  | MemoryRegister _ =>
      size ← lift (expect (simd_memory_access_size (size fields) (opc fields)));
      m ← gets id;
      match register_offset_address (cpu m) (rn fields) (rm fields) (option_field fields) (scaled fields)
              (trailing_zeros 64 (bytes size)) with
      | None => mret None
      | Some address => some (vector_transfer fields address size)
      end
  | MemoryMultipleStructures _ | MemoryMultipleStructuresPostIndex _ =>
      match simd_multiple_structure_shape fields with
      | None => mret None
      | Some shape =>
          some (vector_multiple_structures fields shape
                  (match instruction with MemoryMultipleStructuresPostIndex _ => true | _ => false end))
      end
  | MemorySingleStructure _ | MemorySingleStructurePostIndex _ =>
      match simd_single_structure_shape fields with
      | None => mret None
      | Some shape =>
          some (vector_single_structure fields shape
                  (match instruction with MemorySingleStructurePostIndex _ => true | _ => false end))
      end
  | _ => mret None
  end.

Variable checks : bool.

Definition execute (decoded : DecodedInstruction) (instruction : Instruction) :
    Run InterpreterError InstructionStep :=
  fun m =>
  let '(st, result) := A64FpSimd.execute checks instruction (cpu m) in
  let m := set_cpu st m in
  match result with
  | Ok _ => (_ ← on_cpu advance; mret Continue) m
  | Err Trap => (m, Ok (step_architectural_exception (location decoded) FloatingPoint None))
  | Err UnsupportedOperation => let '(m', result) := memory_step instruction m in finish decoded result m'
  | Panic => (m, Panic)
  end.
End Family.
