(* ===== verification/InterpSimdProps.v ===== *)
(** * SIMD loads and stores: frame, precision and lanes *)

From Stdlib Require Import ZArith Lia Bool String.
From stdpp Require Import base numbers list option vector strings sets.
From S2P Require Import Prelude RustInt FloatFormat A64State A64FpSimdProps.
From S2P Require Import Allocation GuestAddress DecodeTable DecodeBase DecodeFpSimd A64State.
From S2P Require Import A64Semantics MemoryContracts Interp InterpMachine InterpMemory InterpMemoryProps A64FpSimd InterpSimd.
Import DecodeFpSimd.FpSimd.
Local Open Scope list_scope.
Local Open Scope Z_scope.

(** ** Loops *)

Lemma fold_m_wp {S E A} (f : A -> Z -> M S E A) (I : A -> S -> Prop) (Qe : E -> S -> Prop) l a s :
  (forall a i s, i ∈ l -> I a s -> wp (f a i) I Qe s) -> I a s -> wp (fold_m f a l) I Qe s.
Proof.
  revert a s. induction l as [|i l IH]; intros a s Hf Ha; simpl.
  - by apply wp_ret.
  - apply wp_bind. eapply wp_mono; [apply Hf; [left|done]| |done].
    intros a' s' Ha'. apply IH; [|done]. intros. apply Hf; [by right|done].
Qed.

(** ** Lanes *)

Lemma lane_of_fits v lane n : 0 <= n -> fits n (lane_of v lane n).
Proof. intros. unfold lane_of. rewrite wrap_land by done. by apply wrap_fits. Qed.

Lemma with_lane_fits p lane n v : fits 128 p -> fits 128 (with_lane p lane n v).
Proof.
  intros Hp. unfold with_lane. apply fits_lor; [lia|by apply fits_land_l|].
  apply fits_land_l; [lia|]. by apply fits_shl_w.
Qed.

Lemma replicated_fits v lanes n : fits 128 (replicated v lanes n).
Proof.
  unfold replicated. assert (forall l z, fits 128 z ->
    fits 128 (foldl (fun vector lane => Z.lor vector (shl_w 128 v (lane * n))) z l)) as Hl; [|by apply Hl].
  induction l as [|i l IH]; intros z Hz; simpl; [done|].
  apply IH, fits_lor; [lia|done|by apply fits_shl_w].
Qed.

(** ** Operands *)

Record simd_operands_ok (o : Operands) : Prop := {
  ok_rd : fits 5 (rd o); ok_rn : fits 5 (rn o); ok_rt2 : fits 5 (rt2 o); ok_rm : fits 5 (rm o);
  ok_size : fits 2 (size o); ok_element_size : fits 2 (element_size o) }.

Lemma simd_operands_of_ok id bits o : fits 32 bits -> operands_of id bits = Ok o -> simd_operands_ok o.
Proof.
  intros Hb. unfold operands_of, mbind, res_bind.
  destruct (then_expect _ _); [|done..]. destruct (then_expect _ _); [|done..].
  destruct (then_expect _ _); [|done..]. intros [= <-].
  assert (forall l w, 0 <= w -> fits w (fld bits l (Z.ones w))) as Hf by (intros; by apply fld_bound).
  assert (fits 5 (Z.land bits (Z.ones 5))) as Hl by (rewrite wrap_land by done; by apply wrap_fits).
  split; cbn -[fld Z.land wrap]; [exact Hl|exact (Hf 5 5 ltac:(lia))|exact (Hf 10 5 ltac:(lia))|
    exact (Hf 16 5 ltac:(lia))| |exact (Hf 10 2 ltac:(lia))].
  assert (fits 2 (Z.shiftr bits 30)) as Hs.
  { rewrite Z.shiftr_div_pow2 by lia. unfold fits in *. split; [apply Z.div_pos; lia|].
    apply Z.div_lt_upper_bound; lia. }
  rewrite wrap_small; [done|]. by apply (fits_le 2 8).
Qed.

Lemma structure_register_bound o k : 0 <= structure_register o k < 32.
Proof.
  unfold structure_register. change 31 with (Z.ones 5). rewrite wrap_land by lia.
  pose proof (wrap_fits 5 (wrapping_add 8 (rd o) k) ltac:(lia)) as []. change (2 ^ 5) with 32 in *. lia.
Qed.

Section Precision.
Context {Mem Direct : Type} `{CpuMemoryOk Mem} `{!DirectMemory Direct Mem} `{!DirectMemoryOk Direct Mem}.
Implicit Types (m : Machine Mem Direct).
Variable context : InterpreterContext.

(** Memory and the vector registers in [vs] may have changed. *)
Record vector_touched (vs : list Z) m m' : Prop := {
  vector_ok : machine_ok m';
  vector_cpu : vector_framed vs (cpu m) (cpu m');
  vector_events : vcpu_events m' = vcpu_events m }.

Lemma vector_touched_refl vs m : machine_ok m -> vector_touched vs m m.
Proof. intros Hok. split; [done|apply vector_framed_refl, Hok|done]. Qed.

Lemma vector_touched_after vs m m1 m2 : vector_touched vs m m1 -> touched m1 m2 -> vector_touched vs m m2.
Proof. intros [] [Hok Hc He]. split; [done|by rewrite Hc|congruence]. Qed.

(** A step that keeps [vector_touched]. *)
Definition keeps {A} vs m (c : M (Machine Mem Direct) MemoryStepError A) (P : A -> Prop) m1 : Prop :=
  wp c (fun a m2 => vector_touched vs m m2 /\ P a) (fun _ m2 => vector_touched vs m m2) m1.

Lemma keeps_bind {A B} vs m (c : M (Machine Mem Direct) MemoryStepError A) (f : A -> M _ _ B) P Q m1 :
  keeps vs m c P m1 -> (forall a m2, vector_touched vs m m2 -> P a -> keeps vs m (f a) Q m2) ->
  keeps vs m (c ≫= f) Q m1.
Proof. intros Hc Hf. apply wp_bind. eapply wp_mono; [apply Hc| |done]. intros a m2 []. by apply Hf. Qed.

Lemma keeps_ret {A} vs m (a : A) (P : A -> Prop) m1 :
  vector_touched vs m m1 -> P a -> keeps vs m (mret a) P m1.
Proof. intros. by apply wp_ret. Qed.

Lemma keeps_state {B} vs m (f : Machine Mem Direct -> M _ _ B) Q m1 :
  keeps vs m (f m1) Q m1 -> keeps vs m (gets id ≫= f) Q m1.
Proof. intros. by apply wp_bind, wp_gets. Qed.

Lemma keeps_lift {A B} vs m (r : res MemoryStepError A) (f : A -> M _ _ B) Q m1 a :
  r = Ok a -> keeps vs m (f a) Q m1 -> keeps vs m (lift r ≫= f) Q m1.
Proof. intros ->. done. Qed.

Lemma keeps_mono {A} vs m (c : M (Machine Mem Direct) MemoryStepError A) (P Q : A -> Prop) m1 :
  keeps vs m c P m1 -> (forall a, P a -> Q a) -> keeps vs m c Q m1.
Proof. intros Hc Hpq. eapply wp_mono; [apply Hc| |done]. intros a m2 []. auto. Qed.

Lemma keeps_fold {A} vs m (f : A -> Z -> M (Machine Mem Direct) MemoryStepError A) (P : A -> Prop) l a m1 :
  (forall a i m2, i ∈ l -> vector_touched vs m m2 -> P a -> keeps vs m (f a i) P m2) ->
  vector_touched vs m m1 -> P a -> keeps vs m (fold_m f a l) P m1.
Proof.
  intros Hf Ht Ha. apply (fold_m_wp _ (fun a m2 => vector_touched vs m m2 /\ P a)); [|done].
  intros a' i m2 Hi [Ht2 Ha']. by apply Hf.
Qed.

(** ** Steps *)

Lemma vector_access_ordinary sz : vector_access sz = access sz Relaxed false.
Proof. done. Qed.

Lemma read_vector_keeps vs m m1 address sz :
  vector_touched vs m m1 -> fits 64 address -> keeps vs m (read_vector context address sz) (fits (8 * bytes sz)) m1.
Proof.
  intros Ht Ha. unfold keeps, read_vector. rewrite vector_access_ordinary. wp_step.
  eapply wp_mono; [apply ordinary_read_wp; [apply Ht|done]| |].
  - simpl. intros v m2 (Ht2 & Hs & Hv). apply wp_ret. split; [by eapply vector_touched_after|].
    unfold value_wf in Hv. rewrite Hs in Hv. by destruct v.
  - simpl. intros _ m2 Ht2. by eapply vector_touched_after.
Qed.

Lemma ordinary_write_keeps vs m m1 address value sz :
  vector_touched vs m m1 -> fits 64 address -> value_wf value ->
  keeps vs m (ordinary_write context address value (vector_access sz)) (fun _ => True) m1.
Proof.
  intros Ht Ha Hv. unfold keeps. rewrite vector_access_ordinary.
  eapply wp_mono; [apply ordinary_write_wp; [apply Ht|done|done]| |]; simpl; intros ? m2 Ht2;
    [split; [|done]|]; by eapply vector_touched_after.
Qed.

Lemma set_vector_keeps vs m m1 r v :
  vector_touched vs m m1 -> 0 <= r < 32 -> r ∈ vs -> fits 128 v ->
  keeps vs m (assert_set_vector r v) (fun _ => True) m1.
Proof.
  intros [Hok Hf He] Hr Hin Hv. unfold keeps, wp, assert_set_vector.
  destruct (set_vector_spec (cpu m1) r v Hr (ok_cpu m1 Hok) Hv) as (st & -> & Hst & _).
  split; [|done]. split; [|..|done].
  - destruct Hok. split; [apply Hst|done..].
  - eapply vector_framed_trans; [done|]. destruct Hst. split; try done.
    intros r' Hr' Hn. apply vector_other; [done|]. set_solver.
Qed.

Lemma write_vector_keeps vs m m1 address sz r :
  vector_touched vs m m1 -> fits 64 address -> 0 <= r < 32 ->
  keeps vs m (write_vector context address sz r) (fun _ => True) m1.
Proof.
  intros Ht Ha Hr. unfold write_vector. apply keeps_state. unfold id.
  destruct (vector_some (cpu m1) r Hr (ok_cpu m1 (vector_ok _ _ _ Ht))) as (v & Hv & Hf).
  eapply keeps_lift; [by rewrite Hv|]. apply ordinary_write_keeps; [done|done|].
  destruct sz; unfold value_wf; simpl; by (apply wrap_fits || exact Hf).
Qed.

Lemma write_lane_keeps vs m m1 address sz v :
  vector_touched vs m m1 -> fits 64 address -> sz <> Quadword ->
  keeps vs m (write_lane context address sz v) (fun _ => True) m1.
Proof.
  intros Ht Ha Hs. unfold write_lane. destruct sz; try done;
    (eapply keeps_lift; [reflexivity|]); apply ordinary_write_keeps; try done; by apply wrap_fits.
Qed.

Lemma insert_lane_keeps vs m m1 r lane n v :
  vector_touched vs m m1 -> 0 <= r < 32 -> r ∈ vs ->
  keeps vs m (insert_lane r lane n v) (fun _ => True) m1.
Proof.
  intros Ht Hr Hin. unfold insert_lane. apply keeps_state. unfold id.
  destruct (vector_some (cpu m1) r Hr (ok_cpu m1 (vector_ok _ _ _ Ht))) as (p & Hp & Hf).
  eapply keeps_lift; [by rewrite Hp|]. apply set_vector_keeps; [done..|]. by apply with_lane_fits.
Qed.

Lemma store_lane_keeps vs m m1 address sz r lane n :
  vector_touched vs m m1 -> fits 64 address -> sz <> Quadword -> 0 <= r < 32 ->
  keeps vs m (m ← gets id; value ← lift (vector_lane (cpu m) r lane n); write_lane context address sz value)
    (fun _ => True) m1.
Proof.
  intros Ht Ha Hs Hr. apply keeps_state. unfold id, vector_lane.
  destruct (vector_some (cpu m1) r Hr (ok_cpu m1 (vector_ok _ _ _ Ht))) as (v & -> & _).
  eapply keeps_lift; [done|]. by apply write_lane_keeps.
Qed.

Lemma any_element_fits sz v : fits (8 * bytes sz) v -> fits 128 v.
Proof. apply fits_le. destruct sz; simpl; lia. Qed.

Lemma vector_transfer_keeps vs m m1 o address sz :
  vector_touched vs m m1 -> fits 64 address -> simd_operands_ok o -> (load o = true -> rd o ∈ vs) ->
  keeps vs m (vector_transfer context o address sz) (fun _ => True) m1.
Proof.
  intros Ht Ha Ho Hin. unfold vector_transfer. destruct (load o).
  - eapply keeps_bind; [by apply read_vector_keeps|]. intros v m2 Ht2 Hv.
    apply set_vector_keeps; [done|apply Ho|auto|by eapply any_element_fits].
  - apply write_vector_keeps; [done|done|apply Ho].
Qed.

(** ** Handlers *)

(** A transfer, then the write-back of the base in [gs]. *)
Definition simd_wrote (vs gs : list Z) (sp : bool) m m' : Prop :=
  exists mid, vector_touched vs m mid /\ wrote gs sp mid m'.

Definition simd_precise (vs gs : list Z) (sp : bool) m (c : M (Machine Mem Direct) MemoryStepError unit) : Prop :=
  wp c (fun _ m' => simd_wrote vs gs sp m m') (fun _ m' => vector_touched vs m m') m.

(** The write-back that ends a handler. *)
Lemma finish_base vs m m1 (back : bool) r value :
  vector_touched vs m m1 -> fits 5 r -> fits 64 value ->
  wp (if back then writes r 64 true value else mret tt)
    (fun _ m' => simd_wrote vs (if back then [r] else []) (back && (r =? 31)) m m')
    (fun _ m' => vector_touched vs m m') m1.
Proof.
  intros Ht Hr Hv. destruct back.
  - eapply wp_mono; [apply writes_wp; [apply Ht|done|by right|done]| |done].
    simpl. intros _ m2 Hw. by exists m1.
  - apply wp_ret. exists m1. split; [done|]. apply touched_wrote, touched_refl, Ht.
Qed.

Lemma simd_precise_bind {A} vs gs sp m (c : M (Machine Mem Direct) MemoryStepError A) (f : A -> M _ _ unit) P :
  keeps vs m c P m ->
  (forall a m1, vector_touched vs m m1 -> P a ->
     wp (f a) (fun _ m' => simd_wrote vs gs sp m m') (fun _ m' => vector_touched vs m m') m1) ->
  simd_precise vs gs sp m (c ≫= f).
Proof. intros Hc Hf. apply wp_bind. eapply wp_mono; [apply Hc| |done]. intros a m1 []. by apply Hf. Qed.

Definition pair_back (o : Operands) : bool := mode_in (mode o) 1 3.

Lemma vector_pair_precise m o :
  machine_ok m -> simd_operands_ok o -> is_Some (simd_pair_access_size (size o)) ->
  simd_precise (if load o then [rd o; rt2 o] else []) (if pair_back o then [rn o] else [])
    (pair_back o && (rn o =? 31)) m (vector_pair context o).
Proof.
  intros Hok Ho [sz Hsz]. unfold vector_pair. rewrite Hsz. cbn [expect]. unfold simd_precise.
  wp_step. apply wp_lift. wp_step. wp_step. unfold id. fold (pair_back o).
  set (base := Interp.read _ _ _ _). set (first := if mode_in (mode o) 2 3 then _ else _).
  assert (fits 64 first) as Hf.
  { unfold first. case_match; [apply wrapping_add_fits|by apply base_fits]. }
  apply (simd_precise_bind _ _ _ _ _ _ (fun _ => True)).
  - pose proof (vector_touched_refl (if load o then [rd o; rt2 o] else []) m Hok) as Ht.
    destruct (load o).
    + eapply keeps_bind; [by apply read_vector_keeps|]. intros v m1 Ht1 Hv.
      eapply keeps_bind; [apply read_vector_keeps; [done|apply wrapping_add_fits]|]. intros v2 m2 Ht2 Hv2.
      eapply keeps_bind.
      * apply set_vector_keeps; [done|apply Ho|set_solver|by eapply any_element_fits].
      * intros _ m3 Ht3 _. apply set_vector_keeps; [done|apply Ho|set_solver|by eapply any_element_fits].
    + eapply keeps_bind; [apply write_vector_keeps; [done|done|apply Ho]|]. intros _ m1 Ht1 _.
      apply write_vector_keeps; [done|apply wrapping_add_fits|apply Ho].
  - intros _ m1 Ht1 _. apply finish_base; [done|apply Ho|apply wrapping_add_fits].
Qed.

(** The vector registers a structure transfer may load. *)
Definition structure_targets (o : Operands) (count : Z) : list Z :=
  if load o then structure_register o <$> seqZ 0 count else [].

Lemma structure_target o count k : load o = true -> k ∈ seqZ 0 count -> structure_register o k ∈ structure_targets o count.
Proof. intros Hl Hk. unfold structure_targets. rewrite Hl. by apply list_elem_of_fmap_2. Qed.

Lemma repeat_register_keeps m m1 o shape sz address k :
  vector_touched (structure_targets o (repetitions shape)) m m1 -> fits 64 address ->
  k ∈ seqZ 0 (repetitions shape) ->
  keeps (structure_targets o (repetitions shape)) m (repeat_register context o shape sz address k) (fits 64) m1.
Proof.
  intros Ht Ha Hk. unfold repeat_register. pose proof (structure_register_bound o k) as Hr.
  apply (keeps_bind _ _ _ _ (fun _ => True)).
  - destruct (load o) eqn:El; [|by apply write_vector_keeps].
    eapply keeps_bind; [by apply read_vector_keeps|]. intros v m2 Ht2 Hv.
    apply set_vector_keeps; [done|done|by apply structure_target|by eapply any_element_fits].
  - intros _ m2 Ht2 _. apply keeps_ret; [done|apply wrapping_add_fits].
Qed.

Lemma interleaved_element_keeps m m1 o shape lane address k :
  vector_touched (structure_targets o (structure_registers shape)) m m1 -> fits 64 address ->
  k ∈ seqZ 0 (structure_registers shape) -> shape_element_size shape <> Quadword ->
  keeps (structure_targets o (structure_registers shape)) m
    (interleaved_element context o shape lane address k) (fits 64) m1.
Proof.
  intros Ht Ha Hk Hs. unfold interleaved_element. pose proof (structure_register_bound o k) as Hr.
  apply (keeps_bind _ _ _ _ (fun _ => True)).
  - destruct (load o) eqn:El; [|by apply store_lane_keeps].
    eapply keeps_bind; [by apply read_vector_keeps|]. intros v m2 Ht2 Hv.
    apply insert_lane_keeps; [done|done|by apply structure_target].
  - intros _ m2 Ht2 _. apply keeps_ret; [done|apply wrapping_add_fits].
Qed.

Lemma clear_upper_keeps m m1 o count k :
  vector_touched (structure_targets o count) m m1 -> load o = true -> k ∈ seqZ 0 count ->
  keeps (structure_targets o count) m (clear_upper o tt k) (fun _ => True) m1.
Proof.
  intros Ht Hl Hk. unfold clear_upper. apply keeps_state. unfold id.
  pose proof (structure_register_bound o k) as Hr.
  destruct (vector_some (cpu m1) _ Hr (ok_cpu m1 (vector_ok _ _ _ Ht))) as (v & Hv & Hf).
  eapply keeps_lift; [by rewrite Hv|].
  apply set_vector_keeps; [done|done|by apply structure_target|]. by apply fits_land_l.
Qed.

Lemma structure_post_index_wp vs m m1 o shape base (back : bool) :
  machine_ok m -> vector_touched vs m m1 -> simd_operands_ok o ->
  wp (structure_post_index o shape base back)
    (fun _ m' => simd_wrote vs (if back then [rn o] else []) (back && (rn o =? 31)) m m')
    (fun _ m' => vector_touched vs m m') m1.
Proof.
  intros Hok Ht Ho. unfold structure_post_index. destruct back.
  - wp_step. wp_step. apply (finish_base vs m m1 true); [done|apply Ho|apply wrapping_add_fits].
  - by apply (finish_base vs m m1 false _ 0); [|apply Ho|].
Qed.

Lemma element_access_size_ok e sz : element_access_size e = Some sz -> sz <> Quadword.
Proof. unfold element_access_size. intros. repeat case_match; by simplify_eq. Qed.

Lemma multiple_shape_counts o shape :
  simd_multiple_structure_shape o = Some shape ->
  shape_element_size shape <> Quadword /\
  register_count shape = if structure_registers shape =? 1 then repetitions shape else structure_registers shape.
Proof.
  unfold simd_multiple_structure_shape.
  destruct (structure_counts _) as [[sr reps]|] eqn:Ec; [|done]. cbn [mbind option_bind].
  destruct (element_access_size _) as [sz|] eqn:Es; [|done]. intros [= <-].
  split; [by eapply element_access_size_ok|]. unfold register_count. simpl.
  unfold structure_counts in Ec. repeat case_match; by simplify_eq.
Qed.

Lemma vector_multiple_precise m o shape (back : bool) :
  machine_ok m -> simd_operands_ok o -> simd_multiple_structure_shape o = Some shape ->
  simd_precise (structure_targets o (register_count shape)) (if back then [rn o] else [])
    (back && (rn o =? 31)) m (vector_multiple_structures context o shape back).
Proof.
  intros Hok Ho Hsh. destruct (multiple_shape_counts o shape Hsh) as [Hs Hc].
  unfold vector_multiple_structures. unfold simd_precise. wp_step. wp_step. unfold id.
  pose proof (base_fits m (rn o) Hok) as Hb.
  pose proof (vector_touched_refl (structure_targets o (register_count shape)) m Hok) as Ht.
  apply (simd_precise_bind _ _ _ _ _ _ (fun _ => True)); [|intros _ m1 Ht1 _; by apply structure_post_index_wp].
  rewrite Hc in *. destruct (structure_registers shape =? 1).
  - apply (keeps_bind _ _ _ _ (fits 64)); [|intros; by apply keeps_ret]. apply keeps_fold; [|done|done].
    intros a i m2 Hi Ht2 Ha. by apply repeat_register_keeps.
  - apply (keeps_bind _ _ _ _ (fits 64)).
    + apply keeps_fold; [|done|done]. intros a lane m2 _ Ht2 Ha.
      apply keeps_fold; [|done|done]. intros a' k m3 Hk Ht3 Ha'. by apply interleaved_element_keeps.
    + intros _ m2 Ht2 _. destruct (vector_128 o), (load o) eqn:El; cbn [negb andb]; try by apply keeps_ret.
      apply keeps_fold; [|done|done]. intros [] k m3 Hk Ht3 _. by apply clear_upper_keeps.
Qed.

Lemma single_shape_facts o shape :
  simd_single_structure_shape o = Some shape ->
  shape_element_size shape <> Quadword /\ shape_mode shape <> Multiple /\
  register_count shape = structure_registers shape /\
  (shape_mode shape = Replicate -> load o = true).
Proof.
  unfold simd_single_structure_shape.
  destruct (single_structure_element _ _) as [[sz md]|] eqn:E; [|done]. intros [= <-].
  unfold register_count; cbn -[Z.land Z.shiftr].
  unfold single_structure_element in E. repeat case_match; simplify_eq; split_and!; try done; try lia.
  - destruct (element_access_size _) eqn:Es; [|done]. simpl in E. simplify_eq. by eapply element_access_size_ok.
  - destruct (element_access_size _) eqn:Es; [|done]. simpl in E. by simplify_eq.
  - intros _. rename select (_ && load o = true) into Hl. by apply andb_true_iff in Hl as [_ ?].
Qed.

Lemma vector_single_precise m o shape (back : bool) :
  machine_ok m -> simd_operands_ok o -> simd_single_structure_shape o = Some shape ->
  simd_precise (structure_targets o (register_count shape)) (if back then [rn o] else [])
    (back && (rn o =? 31)) m (vector_single_structure context o shape back).
Proof.
  intros Hok Ho Hsh. destruct (single_shape_facts o shape Hsh) as (Hs & Hm & Hc & Hrep).
  unfold vector_single_structure, simd_precise. wp_step. wp_step. unfold id.
  pose proof (base_fits m (rn o) Hok) as Hb.
  pose proof (vector_touched_refl (structure_targets o (register_count shape)) m Hok) as Ht.
  apply (simd_precise_bind _ _ _ _ _ _ (fits 64)); [|intros a m1 Ht1 _; by apply structure_post_index_wp].
  rewrite Hc in *. apply keeps_fold; [|done|done]. intros address k m2 Hk Ht2 Ha.
  unfold single_element. pose proof (structure_register_bound o k) as Hr.
  apply (keeps_bind _ _ _ _ (fun _ => True)); [|intros _ m3 Ht3 _; apply keeps_ret; [done|apply wrapping_add_fits]].
  destruct (shape_mode shape) as [|lane|]; [done| |].
  - destruct (load o) eqn:El; [|by apply store_lane_keeps].
    eapply keeps_bind; [by apply read_vector_keeps|]. intros v m3 Ht3 Hv.
    apply insert_lane_keeps; [done|done|by apply structure_target].
  - eapply keeps_bind; [by apply read_vector_keeps|]. intros v m3 Ht3 Hv.
    apply set_vector_keeps; [done|done|apply structure_target; [by apply Hrep|done]|apply replicated_fits].
Qed.

Definition indexed_back (i : Instruction) : bool :=
  match i with MemoryPostIndex _ | MemoryPreIndex _ => true | _ => false end.

Lemma vector_indexed_precise m i :
  let o := instruction_operands i in
  machine_ok m -> simd_operands_ok o -> is_Some (simd_memory_access_size (size o) (opc o)) ->
  simd_precise (if load o then [rd o] else []) (if indexed_back i then [rn o] else [])
    (indexed_back i && (rn o =? 31)) m (vector_indexed context o i).
Proof.
  intros o Hok Ho [sz Hsz]. unfold vector_indexed. rewrite Hsz. cbn [expect]. unfold simd_precise.
  wp_step. apply wp_lift. wp_step. wp_step. unfold id.
  set (base := Interp.read _ _ _ _). set (offset := match i with MemoryUnsigned _ => immediate_12 o * bytes sz | _ => _ end).
  set (address := match i with MemoryPostIndex _ => base | _ => wrapping_add 64 base offset end).
  assert (fits 64 address) as Ha.
  { unfold address. destruct i; (apply wrapping_add_fits || by apply base_fits). }
  apply (simd_precise_bind _ _ _ _ _ _ (fun _ => True)).
  - apply vector_transfer_keeps; [by apply vector_touched_refl|done|done|].
    intros ->. by left.
  - intros _ m1 Ht _. pose proof (finish_base (if load o then [rd o] else []) m m1 (indexed_back i) (rn o)
      (wrapping_add 64 base offset) Ht (ok_rn o Ho) (wrapping_add_fits _ _)) as Hf.
    by destruct i.
Qed.

(** ** The family *)

(** The vector registers a transfer may load, and whether it writes back. *)
Definition vector_targets (i : Instruction) : list Z :=
  let o := instruction_operands i in
  match i with
  | MemoryPair _ => if load o then [rd o; rt2 o] else []
  | MemoryMultipleStructures _ | MemoryMultipleStructuresPostIndex _ =>
      structure_targets o (from_option register_count 0 (simd_multiple_structure_shape o))
  | MemorySingleStructure _ | MemorySingleStructurePostIndex _ =>
      structure_targets o (from_option register_count 0 (simd_single_structure_shape o))
  | _ => if load o then [rd o] else []
  end.

Definition simd_back (i : Instruction) : bool :=
  match i with
  | MemoryPair o => pair_back o
  | MemoryPostIndex _ | MemoryPreIndex _ | MemoryMultipleStructuresPostIndex _
  | MemorySingleStructurePostIndex _ => true
  | _ => false
  end.

(** What allocation guarantees for each form. *)
Definition form_ok (i : Instruction) : Prop :=
  let o := instruction_operands i in
  simd_operands_ok o /\
  match i with
  | MemoryPair _ => is_Some (simd_pair_access_size (size o))
  | MemoryRegister _ => is_Some (simd_memory_access_size (size o) (opc o)) /\ Z.land (option_field o) 2 <> 0
  | MemoryMultipleStructures _ | MemoryMultipleStructuresPostIndex _ => is_Some (simd_multiple_structure_shape o)
  | MemorySingleStructure _ | MemorySingleStructurePostIndex _ => is_Some (simd_single_structure_shape o)
  | _ => is_Some (simd_memory_access_size (size o) (opc o))
  end.

Lemma some_wp vs gs sp m (c : M (Machine Mem Direct) MemoryStepError unit) :
  simd_precise vs gs sp m c ->
  wp (_ ← c; mret (Some tt)) (fun r m' => r = Some tt /\ simd_wrote vs gs sp m m')
    (fun _ m' => vector_touched vs m m') m.
Proof. intros Hc. wp_step. eapply wp_mono; [apply Hc| |done]. simpl. intros _ m' Hm. by apply wp_ret. Qed.

Lemma register_form_precise m o :
  machine_ok m -> form_ok (MemoryRegister o) ->
  wp (memory_step context (MemoryRegister o))
    (fun r m' => r = Some tt /\ simd_wrote (if load o then [rd o] else []) [] false m m')
    (fun _ m' => vector_touched (if load o then [rd o] else []) m m') m.
Proof.
  intros Hok (Ho & [sz Hsz] & Hopt). cbn [instruction_operands] in *.
  cbn [memory_step instruction_operands]. rewrite Hsz. cbn [expect].
  wp_step. apply wp_lift. wp_step. wp_step. unfold id.
  destruct (register_offset_address _ _ _ _ _ _) as [a|] eqn:Ea.
  - apply (some_wp _ [] false). unfold simd_precise. eapply wp_mono.
    + apply (vector_transfer_keeps (if load o then [rd o] else []) m m o a sz); [by apply vector_touched_refl| |done|].
      * by eapply register_offset_address_fits.
      * intros ->. by left.
    + simpl. intros _ m1 [Ht _]. exists m1. split; [done|]. apply touched_wrote, touched_refl, Ht.
    + done.
  - unfold register_offset_address in Ea. by rewrite (proj2 (Z.eqb_neq _ _) Hopt) in Ea.
Qed.

Lemma simd_memory_step_precise m i :
  machine_ok m -> is_memory_form i = true -> form_ok i ->
  wp (memory_step context i)
    (fun r m' => r = Some tt /\
       simd_wrote (vector_targets i) (if simd_back i then [rn (instruction_operands i)] else [])
         (simd_back i && (rn (instruction_operands i) =? 31)) m m')
    (fun _ m' => vector_touched (vector_targets i) m m') m.
Proof.
  intros Hok Hi Hform. pose proof Hform as [Ho Hsz]. destruct i; try discriminate Hi; clear Hi;
    try (by apply register_form_precise);
    cbn [memory_step vector_targets simd_back instruction_operands] in *;
    try (destruct Hsz as [shape Hshape]; rewrite Hshape; cbn [from_option]); apply some_wp.
  - by apply vector_pair_precise.
  - by apply (vector_indexed_precise m (MemoryUnsigned _)).
  - by apply (vector_indexed_precise m (MemoryUnscaled _)).
  - by apply (vector_indexed_precise m (MemoryPostIndex _)).
  - by apply (vector_indexed_precise m (MemoryPreIndex _)).
  - by apply (vector_multiple_precise m _ shape false).
  - by apply (vector_multiple_precise m _ shape true).
  - by apply (vector_single_precise m _ shape false).
  - by apply (vector_single_precise m _ shape true).
Qed.
End Precision.

(** ** What decoding guarantees *)

(** The identities of the memory forms. *)
Lemma memory_form_id id o i :
  instruction_of id o = Ok i -> is_memory_form i = true ->
  instruction_operands i = o /\
  match i with
  | MemoryPair _ => id = 0x49 | MemoryUnsigned _ => id = 0x33 | MemoryUnscaled _ => id = 0x34
  | MemoryPostIndex _ => id = 0x40 | MemoryPreIndex _ => id = 0x41 | MemoryRegister _ => id = 0x42
  | MemoryMultipleStructures _ => id = 0x4c | MemoryMultipleStructuresPostIndex _ => id = 0x4d
  | MemorySingleStructure _ => id = 0x62 | MemorySingleStructurePostIndex _ => id = 0x63
  | _ => False
  end.
Proof.
  unfold instruction_of. intros E Hm.
  repeat (case_match; [first [discriminate E | injection E as <-; first [discriminate Hm | split; [done|by apply Z.eqb_eq]]]|]).
  discriminate E.
Qed.

Lemma operands_sizes id bits o :
  operands_of id bits = Ok o ->
  size o = wrap 8 (Z.shiftr bits 30) /\ (id <> 0xa1 -> opc o = fld bits 22 3) /\ option_field o = fld bits 13 7.
Proof.
  unfold operands_of, mbind, res_bind.
  destruct (then_expect _ _); [|done..]. destruct (then_expect _ _); [|done..].
  destruct (then_expect _ _); [|done..]. intros [= <-]. cbn [size opc option_field]. split; [done|]. split; [|done].
  intros Hne. by rewrite (proj2 (Z.eqb_neq _ _) Hne).
Qed.

Lemma shiftr_30 bits : fits 32 bits -> 0 <= Z.shiftr bits 30 < 4.
Proof.
  intros Hb. rewrite Z.shiftr_div_pow2 by lia. unfold fits in Hb. split; [apply Z.div_pos; lia|].
  apply Z.div_lt_upper_bound; lia.
Qed.

Lemma pair_size_allocated bits o :
  fits 32 bits -> operands_of 0x49 bits = Ok o -> validate 0x49 bits = Some Allocated ->
  is_Some (simd_pair_access_size (size o)).
Proof.
  intros Hb (Hs & _ & _)%operands_sizes Hv. pose proof (shiftr_30 bits Hb) as Hr.
  rewrite Hs, wrap_small by (unfold fits; lia).
  assert (validate 0x49 bits = if Z.shiftr bits 30 =? 3 then Some (Reserved "invalid SIMD pair transfer size")
    else Some Allocated) as E by done.
  rewrite E in Hv. destruct (Z.eqb_spec (Z.shiftr bits 30) 3); [done|].
  assert (Z.shiftr bits 30 = 0 \/ Z.shiftr bits 30 = 1 \/ Z.shiftr bits 30 = 2) as [->|[->| ->]] by lia; by eexists.
Qed.

Lemma transfer_size_allocated id bits o :
  fits 32 bits -> id = 0x33 \/ id = 0x34 \/ id = 0x40 \/ id = 0x41 \/ id = 0x42 ->
  operands_of id bits = Ok o -> validate id bits = Some Allocated ->
  is_Some (simd_memory_access_size (size o) (opc o)) /\ (id = 0x42 -> Z.land (option_field o) 2 <> 0).
Proof.
  intros Hb Hid (Hs & Ho & Hopt)%operands_sizes Hv. pose proof (shiftr_30 bits Hb) as Hr.
  rewrite Hs, Ho, Hopt by lia. rewrite wrap_small by (unfold fits; lia).
  assert (validate id bits =
    Some (if negb (Z.land (fld bits 22 3) 2 =? 0) && negb (wrap 8 (Z.shiftr bits 30) =? 0)
          then Reserved "invalid 128-bit SIMD transfer size"
          else if (id =? 0x42) && (Z.land (Z.shiftr bits 13) 2 =? 0)
          then Reserved "invalid SIMD register-offset extension"
          else Allocated)) as E by (destruct Hid as [->|[->|[->|[->| ->]]]]; done).
  rewrite E in Hv. rewrite wrap_small in Hv by (unfold fits; lia). split.
  - pose proof (fld_bound bits 22 2 ltac:(lia)) as Hf. change (Z.ones 2) with 3 in Hf.
    set (a := fld bits 22 3) in *. set (b := Z.shiftr bits 30) in *. clearbody a b.
    assert (a = 0 \/ a = 1 \/ a = 2 \/ a = 3) as Ha by lia.
    assert (b = 0 \/ b = 1 \/ b = 2 \/ b = 3) as Hbb by lia.
    destruct Ha as [->|[->|[->| ->]]], Hbb as [->|[->|[->| ->]]]; first [discriminate Hv | by eexists].
  - intros ->. intros Hz. unfold fld in Hz. rewrite <- Z.land_assoc in Hz. change (Z.land 7 2) with 2 in Hz.
    rewrite Hz in Hv. by destruct (negb _ && negb _).
Qed.

Lemma allocated_form_ok id bits i :
  fits 32 bits -> normalize id bits = Ok i -> validate id bits = Some Allocated -> is_memory_form i = true ->
  form_ok i.
Proof.
  intros Hb Hn Hv Hm. unfold normalize in Hn. destruct (operands_of id bits) as [o|e|] eqn:Eo; [|done..].
  cbn [mbind res_bind] in Hn. destruct (memory_form_id id o i Hn Hm) as [Hop Hid]. unfold form_ok. rewrite Hop.
  split; [by apply (simd_operands_of_ok id bits)|].
  destruct i; try contradiction;
    try (destruct (transfer_size_allocated id bits o Hb ltac:(lia) Eo Hv) as [Hs Hopt]; by auto);
    subst id.
  - by eapply pair_size_allocated.
  - by apply (proj1 (structure_shape_allocated 0x4c bits o eq_refl Eo)).
  - by apply (proj1 (structure_shape_allocated 0x4d bits o eq_refl Eo)).
  - by apply (proj1 (structure_shape_allocated 0x62 bits o eq_refl Eo)).
  - by apply (proj1 (structure_shape_allocated 0x63 bits o eq_refl Eo)).
Qed.

Section Theorems.
Context {Mem Direct : Type} `{CpuMemoryOk Mem} `{!DirectMemory Direct Mem} `{!DirectMemoryOk Direct Mem}.
Implicit Types (m : Machine Mem Direct).
Variable context : InterpreterContext.

Variable checks : bool.

(** What a completed transfer leaves. *)
Record simd_completed (i : Instruction) m m' : Prop := {
  simd_ok : machine_ok m';
  simd_pc : st_pc (cpu m') = wrap 64 (st_pc (cpu m) + 4);
  simd_nzcv : st_nzcv (cpu m') = st_nzcv (cpu m);
  simd_fp : st_fpcr (cpu m') = st_fpcr (cpu m) /\ st_fpsr (cpu m') = st_fpsr (cpu m);
  simd_x : forall r, (simd_back i = true -> register_index r <> rn (instruction_operands i)) ->
    st_x (cpu m') !!! r = st_x (cpu m) !!! r;
  simd_sp : simd_back i && (rn (instruction_operands i) =? 31) = false -> st_sp (cpu m') = st_sp (cpu m);
  simd_vector : forall r, 0 <= r < 32 -> r ∉ vector_targets i -> vector (cpu m') r = vector (cpu m) r }.

Lemma simd_wrote_completed i m m' :
  simd_wrote (vector_targets i) (if simd_back i then [rn (instruction_operands i)] else [])
    (simd_back i && (rn (instruction_operands i) =? 31)) m m' ->
  simd_completed i m (set_cpu (set_pc (wrapping_add 64 (st_pc (cpu m')) 4) (cpu m')) m').
Proof.
  intros (mid & [Hok1 Hv _] & [Hok2 Hf _]). destruct Hv, Hf as [Fwf (Hvec & Hcr & Hsr & _) Fpc Fn Fx Fsp].
  split; simpl.
  - destruct Hok2. split; [|done..]. apply set_pc_wf; [done|apply wrapping_add_fits].
  - unfold wrapping_add. by rewrite Fpc, vector_pc.
  - congruence.
  - split; congruence.
  - intros r Hr. rewrite Fx, vector_x; [done|]. destruct (simd_back i); [|apply not_elem_of_nil].
    rewrite list_elem_of_singleton. by apply Hr.
  - intros Hsp. rewrite Fsp by done. congruence.
  - intros r Hr Hn. rewrite <- (vector_other r Hr Hn). unfold vector. simpl. by rewrite Hvec.
Qed.

(** A transfer. *)
Lemma simd_transfer_run m decoded id bits i :
  machine_ok m -> fits 32 bits -> normalize id bits = Ok i ->
  validate id bits = Some Allocated -> is_memory_form i = true ->
  match execute context checks decoded i m with
  | (m', Ok Continue) => simd_completed i m m'
  | (m', Ok (Exit e)) => vector_touched (vector_targets i) m m' /\
      exists fault, e = DataFault (location decoded) fault
  | (m', Err e) => vector_touched (vector_targets i) m m' /\
      exists detail, e = Interp.DirectMemory (location decoded) detail
  | (_, Panic) => False
  end.
Proof.
  intros Hok Hb Hn Hv Hm. pose proof (allocated_form_ok id bits i Hb Hn Hv Hm) as Hform.
  pose proof (simd_memory_step_precise context m i Hok Hm Hform) as Hw. unfold wp in Hw.
  unfold execute. rewrite (execute_memory checks i (cpu m) Hm).
  replace (set_cpu (cpu m) m) with m by (by destruct m). cbn iota.
  destruct (memory_step context i m) as [m' [r|[fault|detail]|]]; cbn [finish].
  - destruct Hw as [-> Hw]. by apply simd_wrote_completed.
  - split; [done|by eexists].
  - split; [done|by eexists].
  - done.
Qed.

(** SIMD transfers are precise and supported.  Every allocated encoding of
    a vector load or store, single, paired or structured, executes without
    panicking on a well-formed machine and is never reported unsupported.  When
    it completes, only memory, the vector registers it loads and the base of a
    write-back form have changed; when it faults or the front end fails, no
    general register, flag or program counter has changed, only vector
    registers it was loading. *)
Theorem simd_transfer_precise m decoded id bits i :
  machine_ok m -> fits 32 bits -> normalize id bits = Ok i ->
  validate id bits = Some Allocated -> is_memory_form i = true ->
  match execute context checks decoded i m with
  | (m', Ok Continue) => simd_completed i m m'
  | (m', Ok (Exit e)) => vector_touched (vector_targets i) m m' /\
      exists fault, e = DataFault (location decoded) fault
  | (m', Err e) => vector_touched (vector_targets i) m m' /\
      exists detail, e = Interp.DirectMemory (location decoded) detail
  | (_, Panic) => False
  end.
Proof. apply simd_transfer_run. Qed.
End Theorems.

(** ** Lanes *)

(** Lanes are independent.  Reading a lane of a vector after inserting an
    element gives the element in its own lane and what was there before in
    every other lane, at every element width. *)
Theorem lane_after_insert previous lane lane' n value :
  fits 128 previous -> 0 < n -> 0 <= lane -> 0 <= lane' -> (lane + 1) * n <= 128 -> fits n value ->
  lane_of (with_lane previous lane n value) lane' n = if lane =? lane' then value else lane_of previous lane' n.
Proof.
  intros Hp Hn Hl Hl' Hb Hv. apply (fits_ext n); [lia|apply lane_of_fits; lia| |].
  { case_match; [done|apply lane_of_fits; lia]. }
  intros k Hk. assert (0 <= lane * n) by nia. assert (0 <= lane' * n) by nia.
  unfold lane_of, with_lane. autorewrite with zbits.
  destruct (Z.eqb_spec lane lane') as [<-|Hne].
  - replace (k + lane * n - lane * n) with k by lia. rewrite !Z.testbit_ones by lia.
    destruct (Z.ltb_spec (k + lane * n) 128); [|nia]. destruct (Z.ltb_spec k n); [|lia].
    destruct (Z.leb_spec 0 k); [|lia]. simpl. by destruct (Z.testbit previous _), (Z.testbit value k).
  - assert (k + lane' * n - lane * n < 0 \/ n <= k + lane' * n - lane * n) as Hout by nia.
    assert (Z.testbit (Z.ones n) (k + lane' * n - lane * n) = false) as ->.
    { rewrite Z.testbit_ones by lia. destruct (Z.leb_spec 0 (k + lane' * n - lane * n));
        destruct (Z.ltb_spec (k + lane' * n - lane * n) n); done || lia. }
    rewrite !andb_false_r. cbn [negb]. rewrite andb_true_r, orb_false_r. autorewrite with zbits.
    destruct (Z.ltb_spec (k + lane' * n) 128); [by rewrite !andb_true_r|].
    by rewrite (testbit_fits 128 previous) by (done || lia).
Qed.
