(* ===== verification/InterpProcess.v ===== *)
(** * Dispatch and the execution loop

    [interpreter/a64/mod.rs] and [interpreter/mod.rs] (one instruction, from its
    encoding to its step), [crates/cpu-interpreter/src/process.rs] (binding,
    threads, [run_slice]) and the control word of
    [crates/cpu/src/execution.rs].

    [run_slice] shares the event state and the control word with other threads.
    What they do is a list of [External] inputs, two per iteration: one applied
    before the loop polls, one before it executes, the points where the loop
    reads what they write.  The timer is read at most once per iteration, so it
    is a sequence of snapshots.  [checks] is the build profile: whether
    arithmetic overflow panics. *)

From Stdlib Require Import ZArith Lia Bool String.
From stdpp Require Import base numbers list option vector strings.
From S2P Require Import Prelude RustInt GuestAddress Allocation DecodeTable DecodeBase DecodeFpSimd DecodeA64.
From S2P Require Import A64State A64Semantics MemoryContracts Interp InterpInteger InterpControl InterpMachine.
From S2P Require Import InterpMemory InterpSystem InterpSimd.
Local Open Scope string_scope.
Local Open Scope list_scope.
Local Open Scope Z_scope.

(** ** One instruction *)

Section Dispatch.
Context {Mem Direct : Type} `{CpuMemory Mem} `{DirectMemory Direct Mem}.
Abbreviation Step := (M (Machine Mem Direct) InterpreterError InstructionStep).
Variable checks : bool.
Variable context : InterpreterContext.

Definition execute_a64 (decoded : DecodedInstruction) : Step :=
  match DecodeA64.normalize (instruction decoded) (encoding decoded) with
  | Ok (ControlInstruction i) => on_cpu (InterpControl.execute decoded i)
  | Ok (SystemInstruction i) => InterpSystem.execute context decoded i
  | Ok (IntegerInstruction i) => on_cpu (InterpInteger.execute decoded i)
  | Ok (MemoryInstruction i) => InterpMemory.execute context decoded i
  | Ok (FpSimdInstruction i) => InterpSimd.execute context checks decoded i
  | Ok (RecognizedUnsupported _) => on_cpu (throw_unsupported decoded)
  | _ => lift Panic
  end.

Definition execute_decoded (decoded : DecodedInstruction) : Step := execute_a64 decoded.

Definition source_at (pc : Z) : LocationDescriptor :=
  {| location_pc := pc; profile_id := process_profile_id (process context) |}.

(** The [match] on the decoder result. *)
Definition execute_result (encoding : Z) (result : res Empty_set DecodeResult) : Step :=
  match result with
  | Ok (Decoded decoded) => execute_decoded decoded
  | Ok (RecognizedUnimplementedInstruction decoded) => on_cpu (throw_unsupported decoded)
  | Ok (UnallocatedEncoding diagnostic reason) =>
      throw (InvalidInstructionStream (diagnostic_location diagnostic) encoding reason)
  | Ok (ReservedEncoding diagnostic name reason) =>
      throw (InvalidInstructionStream (diagnostic_location diagnostic) encoding
               (name +:+ ": reserved: " +:+ reason))
  | _ => lift Panic
  end.

Definition execute_one_with_context (encoding : Z) : Step :=
  m ← gets id;
  execute_result encoding
    (decode_a64 (process_platform (process context)) (source_at (st_pc (cpu m))) encoding).
End Dispatch.

(** ** The control word *)

Inductive ControlRequest : Set := Preempt | CodeInvalidation.

Definition control_bit (self : ControlRequest) : Z :=
  match self with Preempt => Z.shiftl 1 0 | CodeInvalidation => Z.shiftl 1 1 end.

Record ControlSnapshot : Set := { snapshot_requests : Z; snapshot_epoch : Z }.

Definition snapshot_contains (self : ControlSnapshot) (request : ControlRequest) : bool :=
  negb (Z.land (snapshot_requests self) (control_bit request) =? 0).

Definition SYNCHRONIZATION_INTERVAL : Z := 4000.

Record CpuControl : Set := {
  requests : Z;
  synchronization_counter : Z;
  invalidation_epoch : Z;
  acknowledged_invalidation_epoch : Z }.

Definition control_default : CpuControl :=
  {| requests := 0; synchronization_counter := SYNCHRONIZATION_INTERVAL; invalidation_epoch := 0;
     acknowledged_invalidation_epoch := 0 |}.

Definition control_request (request : ControlRequest) (self : CpuControl) : CpuControl :=
  {| requests := Z.lor (requests self) (control_bit request); synchronization_counter := 0;
     invalidation_epoch := invalidation_epoch self;
     acknowledged_invalidation_epoch := acknowledged_invalidation_epoch self |}.

Definition request_invalidation (epoch : Z) (self : CpuControl) : CpuControl :=
  control_request CodeInvalidation
    {| requests := requests self; synchronization_counter := synchronization_counter self;
       invalidation_epoch := Z.max (invalidation_epoch self) epoch;
       acknowledged_invalidation_epoch := acknowledged_invalidation_epoch self |}.

Definition take_pending (self : CpuControl) : CpuControl * option ControlSnapshot :=
  let taken := requests self in
  ({| requests := 0; synchronization_counter := synchronization_counter self;
      invalidation_epoch := invalidation_epoch self;
      acknowledged_invalidation_epoch := acknowledged_invalidation_epoch self |},
   if negb (taken =? 0)
   then Some {| snapshot_requests := taken; snapshot_epoch := invalidation_epoch self |} else None).

Definition acknowledge_invalidation (epoch : Z) (self : CpuControl) : CpuControl :=
  {| requests := requests self; synchronization_counter := synchronization_counter self;
     invalidation_epoch := invalidation_epoch self;
     acknowledged_invalidation_epoch := Z.max (acknowledged_invalidation_epoch self) epoch |}.

Definition acknowledge (snapshot : ControlSnapshot) (self : CpuControl) : CpuControl :=
  if snapshot_contains snapshot CodeInvalidation
  then acknowledge_invalidation (snapshot_epoch snapshot) self else self.

Definition acknowledged_invalidation (self : CpuControl) (epoch : Z) : bool :=
  epoch <=? acknowledged_invalidation_epoch self.

(** ** Reports and faults *)

Record ExecutionReport : Type := {
  progress : Z;
  stop : CpuExit;
  report_context : option RegisterContext }.

Inductive CpuFaultKind : Set := InvalidRequest | Internal | Unavailable.

(** The data a fault's message is formatted from. *)
Inductive FaultMessage : Type :=
  | Text (text : string)
  | InvalidStream (source : LocationDescriptor) (encoding : Z) (reason : string)
  | Interpreter (error : InterpreterError).

Record CpuFault : Type := {
  fault_kind_of : CpuFaultKind;
  fault_progress : Z;
  fault_message : FaultMessage;
  fault_context : RegisterContext }.

Definition instruction_fault (kind : CpuFaultKind) (progress : Z) (state : A64State) (message : FaultMessage) :
    CpuFault :=
  {| fault_kind_of := kind; fault_progress := progress; fault_message := message;
     fault_context := register_context state |}.

Definition backend_fault (message : string) : CpuFault :=
  {| fault_kind_of := Internal; fault_progress := 0; fault_message := Text message;
     fault_context := register_context A64State_default |}.

(** ** Processes and threads *)

(** The backend a memory selects, and slices of the direct front end. *)
Class BoundMemory (Mem View : Type) : Type := {
  mem_linux_direct : AddressSpaceId -> Mem -> bool;
  mem_direct_view : AddressSpaceId -> Mem -> option View }.

Class DirectSlice (Direct View : Type) : Type := {
  direct_new : View -> AddressSpaceId -> res string Direct;
  begin_slice : Direct -> Direct * res string unit;
  end_slice : Direct -> Direct * res string unit }.

Inductive InterpreterMemoryBackend (View : Type) : Type :=
  | Checked
  | LinuxDirect (address_space : AddressSpaceId) (view : View).
Arguments Checked {View}.
Arguments LinuxDirect {View} _ _.
#[export] Instance backend_eq_dec {View} `{EqDecision View} : EqDecision (InterpreterMemoryBackend View).
Proof. solve_decision. Defined.

Record InterpreterProcess (View : Type) : Type := {
  process_cpu : ProcessCpuContext;
  process_backend : option (InterpreterMemoryBackend View) }.
Arguments process_cpu {View} _.
Arguments process_backend {View} _.

Record InterpreterThread (Direct View : Type) : Type := {
  thread_id : Z;
  thread_cpu : ProcessCpuContext;
  thread_backend : option (InterpreterMemoryBackend View);
  thread_monitor : ExclusiveMonitorState;
  thread_control : CpuControl;
  thread_direct : option Direct }.
Arguments thread_id {Direct View} _.
Arguments thread_cpu {Direct View} _.
Arguments thread_backend {Direct View} _.
Arguments thread_monitor {Direct View} _.
Arguments thread_control {Direct View} _.
Arguments thread_direct {Direct View} _.

(** What other threads do at one point. *)
Inductive ExternalInput : Set :=
  | PostInterrupts (mask : Z)
  | SignalEvent
  | RequestControl (request : ControlRequest)
  | RequestInvalidation (epoch : Z).

Section Process.
Context {Mem Direct View : Type} `{CpuMemory Mem} `{DirectMemory Direct Mem}.
Context `{EqDecision View} `{BoundMemory Mem View} `{DirectSlice Direct View}.
Abbreviation Process := (InterpreterProcess View).
Abbreviation Thread := (InterpreterThread Direct View).

(** [match memory.cpu_memory_backend(..)], of [bind_memory] and of
    [validate_memory_backend]. *)
Definition selected_backend (memory : Mem) (address_space : AddressSpaceId) (missing : string) :
    res CpuFault (InterpreterMemoryBackend View) :=
  if mem_linux_direct address_space memory then
    view ← ok_or (mem_direct_view address_space memory) (backend_fault missing);
    Ok (LinuxDirect address_space view)
  else Ok Checked.

Definition bind_memory (memory : Mem) (address_space : AddressSpaceId) : M Process CpuFault unit :=
  backend ← lift (selected_backend memory address_space "LinuxDirect binding has no arena view");
  self ← gets id;
  _ ← guard_err (match process_backend self with
                 | Some current => bool_decide (current <> backend) | None => false end)
        (backend_fault "interpreter memory backend cannot change after binding");
  modify (fun self => {| process_cpu := process_cpu self; process_backend := Some backend |}).

Definition thread_new (id : Z) (cpu : ProcessCpuContext) (memory_backend : option (InterpreterMemoryBackend View)) :
    res CpuFault Thread :=
  direct ← match memory_backend with
           | Some (LinuxDirect address_space view) =>
               match direct_new view address_space with
               | Ok direct => Ok (Some direct)
               | Err error => Err (backend_fault error)
               | Panic => Panic
               end
           | Some Checked | None => Ok None
           end;
  Ok {| thread_id := id; thread_cpu := cpu; thread_backend := memory_backend;
        thread_monitor := monitor_default; thread_control := control_default; thread_direct := direct |}.

Definition create_thread (self : Process) (id : Z) : res CpuFault Thread :=
  thread_new id (process_cpu self) (process_backend self).

Definition validate_memory_backend (self : Thread) (memory : Mem) : res CpuFault unit :=
  let expected := default Checked (thread_backend self) in
  actual ← selected_backend memory (address_space_id (thread_cpu self)) "LinuxDirect execution has no arena view";
  if bool_decide (actual <> expected)
  then Err (backend_fault "interpreter execution memory differs from its immutable process binding")
  else Ok tt.

(** [lease.is_some_and(|lease| lease.authorizes(memory))] is [authorized]. *)
Definition validate_memory_lease (self : Thread) (authorized : bool) : res CpuFault unit :=
  if match thread_backend self with Some (LinuxDirect _ _) => true | _ => false end && negb authorized
  then Err (backend_fault "LinuxDirect interpreter execution requires its live mapping lease")
  else Ok tt.

Definition set_thread_control (control : CpuControl) (self : Thread) : Thread :=
  {| thread_id := thread_id self; thread_cpu := thread_cpu self; thread_backend := thread_backend self;
     thread_monitor := thread_monitor self; thread_control := control; thread_direct := thread_direct self |}.

Definition set_thread_monitor (monitor : ExclusiveMonitorState) (self : Thread) : Thread :=
  {| thread_id := thread_id self; thread_cpu := thread_cpu self; thread_backend := thread_backend self;
     thread_monitor := monitor; thread_control := thread_control self; thread_direct := thread_direct self |}.

Definition synchronize_address_space (memory : Mem) (invalidation_cursor : Z) : M Thread CpuFault unit :=
  self ← gets id;
  _ ← lift (validate_memory_backend self memory);
  modify (fun self => set_thread_control
    (acknowledge_invalidation invalidation_cursor (thread_control self)) self).

Definition clear_local_exclusive_reservation {E} : M Thread E unit := modify (set_thread_monitor monitor_default).

Definition prepare_shutdown (memory : Mem) (invalidation_cursor : Z) : M Thread CpuFault unit :=
  _ ← synchronize_address_space memory invalidation_cursor;
  clear_local_exclusive_reservation.

(** ** The loop *)

Record Slice : Type := { slice_machine : Machine Mem Direct; slice_control : CpuControl }.

Definition apply_input (s : Slice) (input : ExternalInput) : Slice :=
  let m := slice_machine s in
  match input with
  | PostInterrupts mask =>
      {| slice_machine := set_events (post_interrupts mask (vcpu_events m)) m; slice_control := slice_control s |}
  | SignalEvent =>
      {| slice_machine := set_events (signal_event (vcpu_events m)) m; slice_control := slice_control s |}
  | RequestControl request =>
      {| slice_machine := m; slice_control := control_request request (slice_control s) |}
  | RequestInvalidation epoch =>
      {| slice_machine := m; slice_control := request_invalidation epoch (slice_control s) |}
  end.

Definition apply_inputs (inputs : list ExternalInput) (s : Slice) : Slice := foldl apply_input s inputs.

Definition loader_return_observation (cpu : ProcessCpuContext) (state : A64State)
    (loader_return : option GuestVirtualAddress) : option (LocationDescriptor * Z) :=
  return_address ← loader_return;
  if st_pc state =? return_address then
    register ← A64GeneralRegister_new 0;
    Some ({| location_pc := return_address; profile_id := process_profile_id cpu |},
          read_x state (General register))
  else None.

Variable checks : bool.
Variable cpu_context : ProcessCpuContext.
Variable timer : nat -> TimerSnapshot.
Variable loader_return : option GuestVirtualAddress.

Definition report (progress : Z) (stop : CpuExit) (state : A64State) : ExecutionReport :=
  {| progress := progress; stop := stop; report_context := Some (register_context state) |}.

(** What the loop does with a decoder result: executes it, or faults. *)
Definition run_decoded (context : InterpreterContext) (source : LocationDescriptor) (encoding executed : Z)
    (result : res Empty_set DecodeResult) : M (Machine Mem Direct) CpuFault (CpuExit + InstructionStep) := fun m =>
  match result with
  | Ok (UnallocatedEncoding _ reason) =>
      (m, Err (instruction_fault InvalidRequest executed (cpu m) (InvalidStream source encoding reason)))
  | Ok (ReservedEncoding _ name reason) =>
      (m, Err (instruction_fault InvalidRequest executed (cpu m)
                 (InvalidStream source encoding (name +:+ ": reserved: " +:+ reason))))
  | Ok (Decoded decoded) | Ok (RecognizedUnimplementedInstruction decoded) =>
      match execute_decoded checks context decoded m with
      | (m', Ok step) => (m', Ok (inr step))
      | (m', Err error) =>
          let kind := match error with
                      | UnsupportedInstruction _ _ _ _ => Unavailable
                      | InvalidInstructionStream _ _ _ | Interp.DirectMemory _ _ => Internal
                      end in
          (m', Err (instruction_fault kind executed (cpu m') (Interpreter error)))
      | (m', Panic) => (m', Panic)
      end
  | _ => (m, Panic)
  end.

(** Fetch, decode and execute at the program counter. *)
Definition run_instruction (iteration : nat) (executed : Z) :
    M (Machine Mem Direct) CpuFault (CpuExit + InstructionStep) := fun m =>
  let context := {| process := cpu_context; architectural_timer := timer iteration |} in
  let source := source_at context (st_pc (cpu m)) in
  match mem_fetch32 (address_space_id cpu_context) (location_pc source) (memory m) with
  | Err fault => (m, Ok (inl (FetchFault fault)))
  | Panic => (m, Panic)
  | Ok fetched =>
      run_decoded context source (code_bits fetched) executed
        (decode_a64 (process_platform cpu_context) source (code_bits fetched)) m
  end.

Definition External : Type := list ExternalInput * list ExternalInput.

Fixpoint run_loop (fuel iteration : nat) (external : list External) (executed remaining : Z) (s : Slice) :
    Slice * res CpuFault ExecutionReport :=
  match fuel with
  | O => (s, Panic)
  | S fuel =>
      let '(before_poll, before_step) := from_option id ([], []) (head external) in
      let s := apply_inputs before_poll s in
      let m := slice_machine s in
      match loader_return_observation cpu_context (cpu m) loader_return with
      | Some (source, result_code) => (s, Ok (report executed (LoaderReturn source result_code) (cpu m)))
      | None =>
          let '(events, pending) := take_pending_interrupts (vcpu_events m) in
          let m := set_events events m in
          let s := {| slice_machine := m; slice_control := slice_control s |} in
          if negb (pending =? 0) then (s, Ok (report executed (PendingEvent pending) (cpu m)))
          else
            let '(control, taken) := take_pending (slice_control s) in
            match taken with
            | Some snapshot =>
                let s := {| slice_machine := m; slice_control := acknowledge snapshot control |} in
                if snapshot_contains snapshot Preempt
                then (s, Ok (report executed Safepoint (cpu m)))
                else run_loop fuel (S iteration) (tail external) executed remaining s
            | None =>
                let s := {| slice_machine := m; slice_control := control |} in
                if remaining =? 0 then (s, Ok (report executed BudgetExhausted (cpu m)))
                else
                  let s := apply_inputs before_step s in
                  let '(m, outcome) := run_instruction iteration executed (slice_machine s) in
                  let s := {| slice_machine := m; slice_control := slice_control s |} in
                  match outcome with
                  | Err fault => (s, Err fault)
                  | Panic => (s, Panic)
                  | Ok (inl exit) => (s, Ok (report executed exit (cpu m)))
                  | Ok (inr step) =>
                      let executed := executed + 1 in
                      let remaining := remaining - 1 in
                      match step with
                      | Continue => run_loop fuel (S iteration) (tail external) executed remaining s
                      | Exit stop => (s, Ok (report executed stop (cpu m)))
                      end
                  end
            end
      end
  end.

(** One iteration per instruction of the budget, one per pair of inputs, one
    for the requests already pending and one to stop. *)
Definition slice_fuel (instruction_budget : Z) (external : list External) : nat :=
  S (S (Z.to_nat instruction_budget + List.length external)).
End Process.

Section RunSlice.
Context {Mem Direct View : Type} `{CpuMemory Mem} `{DirectMemory Direct Mem}.
Context `{EqDecision View} `{BoundMemory Mem View} `{DirectSlice Direct View}.
Variable checks : bool.
Variable timer : nat -> TimerSnapshot.

(** [InterpreterDirectSlice::begin]. *)
Definition slice_begin (direct : option Direct) : option Direct * res string unit :=
  match direct with
  | Some frontend => let '(frontend, r) := begin_slice frontend in (Some frontend, r)
  | None => (None, Ok tt)
  end.

(** Its [Drop]: a slice that cannot end is a panic. *)
Definition slice_end (direct : option Direct) : option Direct * bool :=
  match direct with
  | Some frontend =>
      let '(frontend, r) := end_slice frontend in (Some frontend, is_ok r)
  | None => (None, true)
  end.

Definition end_of_slice (outcome : @Slice Mem Direct * res CpuFault ExecutionReport) :
    @Slice Mem Direct * res CpuFault ExecutionReport :=
  let '(s, result) := outcome in
  let '(direct, ended) := slice_end (direct_memory (slice_machine s)) in
  let s := {| slice_machine := set_direct direct (slice_machine s); slice_control := slice_control s |} in
  (s, if ended : bool then result else Panic).

Definition run_slice (self : InterpreterThread Direct View) (memory : Mem) (lease_authorizes : bool)
    (state : A64State) (instruction_budget : Z) (loader_return : option GuestVirtualAddress)
    (events : VcpuEventState) (external : list External) :
    @Slice Mem Direct * res CpuFault ExecutionReport :=
  let start direct :=
    {| slice_machine := mkMachine state memory (thread_monitor self) events direct;
       slice_control := thread_control self |} in
  match (_ ← validate_memory_backend self memory; validate_memory_lease self lease_authorizes) with
  | Err fault => (start (thread_direct self), Err fault)
  | Panic => (start (thread_direct self), Panic)
  | Ok _ =>
      match slice_begin (thread_direct self) with
      | (direct, Err error) => (start direct, Err (instruction_fault Internal 0 state (Text error)))
      | (direct, Panic) => (start direct, Panic)
      | (direct, Ok _) =>
          end_of_slice (run_loop checks (thread_cpu self) timer loader_return
                          (slice_fuel instruction_budget external) 0 external 0 instruction_budget (start direct))
      end
  end.
End RunSlice.
