(* ===== verification/InterpProcessProps.v ===== *)
(** * Dispatch and the execution loop: totality, bounds, termination *)

From Stdlib Require Import ZArith Lia Bool String.
From stdpp Require Import base numbers list option vector strings.
From S2P Require Import Prelude RustInt FloatFormat A64FpSimdProps SimdAccepted GuestAddress Allocation DecodeTable DecodeBase DecodeFpSimd DecodeA64.
From S2P Require Import A64State A64Semantics MemoryContracts Interp InterpInteger InterpIntegerProps.
From S2P Require Import InterpControl InterpMachine InterpMemory InterpMemoryProps InterpSystem.
From S2P Require Import InterpSimd InterpSimdProps InterpProcess.
Local Open Scope list_scope.
Local Open Scope Z_scope.

(** ** Disassembly of catalog entries *)

Lemma catalog_operand_counts :
  forallb (fun p => (List.length (pattern_operands p) <=? MAX_OPERANDS)%nat) patterns = true.
Proof. by vm_compute. Qed.

Lemma catalog_disassembles p bits :
  p ∈ patterns -> exists text, fmt_disassembly {| opcode_pattern := p; opcode_bits := bits |} = Ok text.
Proof.
  intros Hp. pose proof catalog_operand_counts as Hc. rewrite forallb_forall in Hc.
  specialize (Hc p). rewrite <- list_elem_of_In in Hc. specialize (Hc Hp). apply Nat.leb_le in Hc.
  unfold fmt_disassembly, extract_operands. cbn [opcode_pattern opcode_bits].
  rewrite extract_loop_spec by (simpl; lia). by eexists.
Qed.

(** The family normalizer behind a normalized instruction. *)
Lemma normalize_family p bits i :
  DecodeA64.normalize {| opcode_pattern := p; opcode_bits := bits |} bits = Ok i ->
  match i with
  | ControlInstruction j => Control.normalize (coverage_id p) bits = Ok j
  | SystemInstruction j => SystemFamily.normalize (coverage_id p) bits = Ok j
  | IntegerInstruction j => Integer.normalize (coverage_id p) bits = Ok j
  | MemoryInstruction j => Memory.normalize (coverage_id p) bits = Ok j
  | FpSimdInstruction j => FpSimd.normalize (coverage_id p) bits = Ok j
  | RecognizedUnsupported _ => True
  end.
Proof.
  unfold DecodeA64.normalize. cbn [opcode_pattern]. set (id := coverage_id p). clearbody id.
  destruct (bool_decide _); [by intros [= <-]|].
  destruct (is_control id); [destruct (Control.normalize id bits); [by intros [= <-]|done..]|].
  destruct (is_system id); [destruct (SystemFamily.normalize id bits); [by intros [= <-]|done..]|].
  destruct (is_integer id); [destruct (Integer.normalize id bits); [by intros [= <-]|done..]|].
  destruct (is_memory id); [destruct (Memory.normalize id bits); [by intros [= <-]|done..]|].
  destruct (is_fp_simd id); [destruct (FpSimd.normalize id bits); [by intros [= <-]|done..]|done].
Qed.

Section Dispatch.
Context {Mem Direct : Type} `{CpuMemoryOk Mem} `{!DirectMemory Direct Mem} `{!DirectMemoryOk Direct Mem}.
Implicit Types (m : Machine Mem Direct).
(** A step that returns on a well-formed machine, whatever it reports. *)
Definition returns_ok (outcome : Machine Mem Direct * res InterpreterError InstructionStep) : Prop :=
  match outcome with
  | (m', Ok step) => machine_ok m' /\ step_ok step
  | (m', Err _) => machine_ok m'
  | (_, Panic) => False
  end.

(** The word is an accepted FP or SIMD instruction whose arithmetic overflows in
    the state: in a build with overflow checks it panics. *)
Definition overflowing_word (bits : Z) (st : A64State) : Prop :=
  exists p i, p ∈ patterns /\ allocated_match bits p /\ FpSimd.normalize (coverage_id p) bits = Ok i /\
    overflowing i st = true.

(** A step that returns, or panics in a build with overflow checks on such a
    word and leaves the machine as it was. *)
Definition returns_or_overflows (checks : bool) (bits : Z) m
    (outcome : Machine Mem Direct * res InterpreterError InstructionStep) : Prop :=
  returns_ok outcome \/ checks = true /\ overflowing_word bits (cpu m) /\ outcome = (m, Panic).

Lemma on_cpu_returns (c : M A64State InterpreterError InstructionStep) m :
  machine_ok m ->
  match c (cpu m) with
  | (st, Ok step) => state_wf st /\ step_ok step
  | (st, Err _) => state_wf st
  | (_, Panic) => False
  end ->
  returns_ok (on_cpu c m).
Proof.
  intros Hok Hc. unfold on_cpu. destruct (c (cpu m)) as [st [a|e|]]; [|by apply set_cpu_ok|done].
  destruct Hc. split; [by apply set_cpu_ok|done].
Qed.

Lemma unsupported_returns m decoded text :
  machine_ok m -> fmt_disassembly (instruction decoded) = Ok text ->
  returns_ok (on_cpu (throw_unsupported decoded) m).
Proof.
  intros Hok Ht. destruct (unsupported_run (A := InstructionStep) m decoded text Ht) as (e & E & _).
  unfold returns_ok. by rewrite E.
Qed.

(** The arithmetic forms of the FP and SIMD family. *)
Lemma arithmetic_returns context m decoded i text :
  machine_ok m -> fields_ok (A64FpSimd.instruction_operands i) -> form_fields_ok i -> is_memory_form i = false ->
  fmt_disassembly (instruction decoded) = Ok text ->
  returns_ok (InterpSimd.execute context false decoded i m).
Proof.
  intros Hok Ho Hk Hi Ht. unfold InterpSimd.execute.
  pose proof (execute_framed i (cpu m) Ho Hk (ok_cpu m Hok)) as Hs. unfold framed_step, wp in Hs.
  destruct (A64FpSimd.execute false i (cpu m)) as [st [[]|e|]]; [| |done].
  - pose proof (fr_wf _ _ _ Hs) as Hwf. split; [|done]. apply set_cpu_ok; [by apply set_cpu_ok|]. by apply advanced_wf.
  - subst st. replace (set_cpu (cpu m) m) with m by (by destruct m). destruct e; [done|].
    assert (InterpSimd.memory_step context i m = (m, Ok None)) as -> by (by destruct i).
    by apply (unsupported_returns _ _ text).
Qed.

(** The provider behind a form in the two builds. *)
Lemma simd_checked context m decoded i :
  machine_ok m -> fields_ok (A64FpSimd.instruction_operands i) ->
  InterpSimd.execute context true decoded i m = InterpSimd.execute context false decoded i m \/
  InterpSimd.execute context true decoded i m = (m, Panic) /\ overflowing i (cpu m) = true.
Proof.
  intros Hok Ho. unfold InterpSimd.execute.
  destruct (execute_checked i (cpu m) Ho (ok_cpu m Hok)) as [->|[-> Hv]]; [by left|right].
  split; [by destruct m|done].
Qed.

Lemma simd_returns checks context m decoded p bits i :
  machine_ok m -> fits 32 bits -> FpSimd.normalize (coverage_id p) bits = Ok i ->
  allocated_match bits p -> p ∈ patterns -> reserved_duplicate bits = false ->
  instruction decoded = {| opcode_pattern := p; opcode_bits := bits |} ->
  returns_or_overflows checks bits m (InterpSimd.execute context checks decoded i m).
Proof.
  intros Hok Hb Hn [Hma Hv] Hp Hr Hd. destruct (is_memory_form i) eqn:Hm.
  - left. pose proof (simd_transfer_run context checks m decoded _ bits i Hok Hb Hn Hv Hm) as Ht.
    destruct (InterpSimd.execute _ _ _ _ _) as [m' [[|e]|e|]]; [split; [apply Ht|done]| |apply Ht|done].
    destruct Ht as (Hv' & fault & ->). split; [apply Hv'|done].
  - destruct (catalog_disassembles p bits Hp) as [text Ht].
    destruct (normalize_accepted p bits i Hp Hma Hv Hn Hr) as [Ho Hk].
    assert (returns_ok (InterpSimd.execute context false decoded i m)) as Hf
      by (apply (arithmetic_returns _ _ _ _ text); [done..|]; by rewrite Hd).
    destruct checks; [|by left]. destruct (simd_checked context m decoded i Hok Ho) as [->|[-> Ho']]; [by left|right].
    split; [done|]. split; [|done]. by exists p, i.
Qed.

(** Executing what the decoder accepted. *)
Lemma execute_decoded_returns checks context m decoded p bits :
  context_ok context -> machine_ok m -> fits 32 bits -> p ∈ patterns ->
  encoding decoded = bits -> instruction decoded = {| opcode_pattern := p; opcode_bits := bits |} ->
  allocated_match bits p -> reserved_duplicate bits = false ->
  returns_or_overflows checks bits m (execute_decoded checks context decoded m).
Proof.
  intros Hc Hok Hb Hp He Hd Hv Hres. destruct (catalog_disassembles p bits Hp) as [text Ht]. rewrite <- Hd in Ht.
  unfold execute_decoded, execute_a64. rewrite He, Hd.
  destruct (decoder p) eqn:Edec.
  - destruct (normalize_ok p bits Hp Edec (proj2 Hv)) as (i & Hn & _). rewrite Hn.
    apply normalize_family in Hn. destruct i as [i|i|i|i|i|id];
      lazymatch type of Hn with FpSimd.normalize _ _ = _ => idtac | _ => left end.
    + apply on_cpu_returns; [done|]. pose proof (control_execute_safe decoded i (cpu m) text (ok_cpu m Hok) Ht) as Hr.
      destruct (InterpControl.execute _ _ _) as [st [a|e|]]; [done| |done]. destruct Hr as [-> _]. apply Hok.
    + pose proof (system_execute_run context m decoded _ bits i text Hc Hok Hn Ht) as Hr. unfold system_verdict in Hr.
      destruct (InterpSystem.execute _ _ _ _) as [m' [[|[]]|e|]]; try done;
        try (by split; [apply Hr|]); by destruct Hr as [-> _].
    + apply on_cpu_returns; [done|].
      pose proof (integer_execute_run decoded _ bits i (cpu m) text Hn (ok_cpu m Hok) Ht) as Hr.
      destruct (InterpInteger.execute _ _ _) as [st [a|e|]]; [destruct Hr as (-> & Hwf & _); done| |done]. destruct Hr as [-> _]. apply Hok.
    + pose proof (memory_execute_run context m decoded _ bits i text Hok Hb Hn Ht) as Hr.
      destruct (InterpMemory.execute _ _ _ _) as [m' [[|e]|e|]]; [split; [apply Hr|done]| |apply Hr|done].
      destruct Hr as (Ht' & fault & ->). split; [apply Ht'|done].
    + by apply (simd_returns _ _ _ _ p bits i).
    + by apply (unsupported_returns _ _ text).
  - left. unfold DecodeA64.normalize. cbn [opcode_pattern]. rewrite Edec, bool_decide_eq_true_2 by done.
    by apply (unsupported_returns _ _ text).
Qed.

(** ** The reserved DUP words *)

Lemma decode_reserved platform loc bits : fits 32 bits -> reserved_duplicate bits = true ->
  exists p i, decode_a64 platform loc bits =
      Ok (Decoded {| location := loc; encoding := bits; instruction := {| opcode_pattern := p; opcode_bits := bits |} |}) /\
    DecodeA64.normalize {| opcode_pattern := p; opcode_bits := bits |} bits = Ok (FpSimdInstruction i) /\
    one_of (coverage_id p) duplicate_ids = true /\ FpSimd.normalize (coverage_id p) bits = Ok i.
Proof.
  intros Hb Hr. destruct (reserved_scan bits Hb Hr) as (p & Hs & Hid & Hd).
  assert (exists i, FpSimd.normalize (coverage_id p) bits = Ok i /\
    DecodeA64.normalize {| opcode_pattern := p; opcode_bits := bits |} bits = Ok (FpSimdInstruction i)) as (i & Hn & Hn').
  { unfold DecodeA64.normalize. cbn [opcode_pattern]. rewrite Hd, bool_decide_eq_false_2 by done.
    generalize dependent (coverage_id p). intros c Hid. each_id Hid; by eexists. }
  exists p, i. split; [|done]. destruct (platform_table_ok platform) as (table & Ht & Hc).
  unfold decode_a64. rewrite Ht. cbn [mbind res_bind]. rewrite (compile_decode _ _ _ _ Hc).
  unfold decode_reference. rewrite Hs. cbn. by rewrite Hd.
Qed.

Lemma execute_reserved checks context m platform loc bits : machine_ok m -> fits 32 bits -> reserved_duplicate bits = true ->
  exists decoded, decode_a64 platform loc bits = Ok (Decoded decoded) /\
    execute_decoded checks context decoded m = (m, Panic).
Proof.
  intros Hok Hb Hr. destruct (decode_reserved platform loc bits Hb Hr) as (p & i & Hd & Hn & Hid & Hi).
  eexists. split; [exact Hd|]. unfold execute_decoded, execute_a64. cbn [instruction encoding]. rewrite Hn.
  unfold InterpSimd.execute. rewrite (reserved_duplicate_panics checks _ bits i (cpu m) Hr Hid Hi (ok_cpu m Hok)).
  by destruct m.
Qed.

(** Decoding, normalizing and executing a word returns. *)
Lemma execute_one_run checks context m bits :
  context_ok context -> machine_ok m -> fits 32 bits -> reserved_duplicate bits = false ->
  returns_or_overflows checks bits m (execute_one_with_context checks context bits m).
Proof.
  intros Hc Hok Hb Hres. unfold execute_one_with_context. erewrite M_bind_ok by reflexivity.
  destruct (decode_a64_cases (process_platform (process context)) (source_at context (st_pc (cpu m))) bits)
    as (r & Hr & Hd). unfold id. rewrite Hr. clear Hr. destruct r as [d|dg reason|dg name reason|d]; cbn [execute_result].
  - destruct (Hd d (or_introl eq_refl)) as (_ & He & p & Hp & Hi & Ha & _).
    by apply (execute_decoded_returns _ _ _ _ p bits).
  - by left.
  - by left.
  - destruct (Hd d (or_intror eq_refl)) as (_ & He & p & Hp & Hi & _ & _).
    destruct (catalog_disassembles p bits Hp) as [text Ht]. rewrite <- Hi in Ht.
    left. by apply (unsupported_returns _ _ text).
Qed.

(** C3: what executing a word can do, in both build profiles.  For each of the
    2^32 encodings, on either platform and on every well-formed machine: the
    words that encode a DUP of a 128-bit element into a 64-bit vector, which the
    architecture reserves and the catalog accepts, panic and leave the machine
    as it was.  Every other word, decoded, normalized and executed, returns a
    step or an error and leaves the machine well formed, in a build without
    overflow checks ([checks] false) always; in a build with them it may instead
    panic, leaving the machine as it was, if it is one of the accepted words
    whose arithmetic overflows ([overflowing]): DUP of a 128-bit element, SSHLL
    or USHLL to a 128-bit element, and a scalar fused multiply-add on operands
    whose aligned terms leave 128 bits. *)
Theorem execute_one_total checks context m bits :
  context_ok context -> machine_ok m -> fits 32 bits ->
  if reserved_duplicate bits then execute_one_with_context checks context bits m = (m, Panic)
  else returns_or_overflows checks bits m (execute_one_with_context checks context bits m).
Proof.
  intros Hc Hok Hb. destruct (reserved_duplicate bits) eqn:Hr; [|by apply execute_one_run].
  unfold execute_one_with_context. erewrite M_bind_ok by reflexivity.
  destruct (execute_reserved checks context m (process_platform (process context)) (source_at context (st_pc (cpu m))) bits
    Hok Hb Hr) as (d & Hd & He).
  unfold id. by rewrite Hd.
Qed.

(** ** The loop *)

Variable checks : bool.
Variable cpu_context : ProcessCpuContext.
Variable timer : nat -> TimerSnapshot.
Variable loader_return : option GuestVirtualAddress.
Hypothesis Htimer : forall n, fits 64 (counter (timer n)) /\ fits 64 (frequency (timer n)).

(** The program counter is at a reserved DUP word or, in a build with overflow
    checks, at a word whose arithmetic overflows. *)
Definition at_panicking m : Prop :=
  exists code, mem_fetch32 (address_space_id cpu_context) (st_pc (cpu m)) (memory m) = Ok code /\
    (reserved_duplicate (code_bits code) = true \/ checks = true /\ overflowing_word (code_bits code) (cpu m)).

(** What fetching and running one instruction may return. *)
Definition instruction_result (executed : Z) (outcome : Machine Mem Direct * res CpuFault (CpuExit + InstructionStep)) : Prop :=
  match outcome with
  | (m', Ok (inl exit)) => machine_ok m' /\ exists fault, exit = FetchFault fault
  | (m', Ok (inr step)) => machine_ok m' /\ step_ok step
  | (m', Err fault) => machine_ok m' /\ fault_progress fault = executed /\
      fault_context fault = register_context (cpu m')
  | (m', Panic) => machine_ok m' /\ at_panicking m'
  end.

Lemma run_decoded_returns context source fetched executed d m :
  machine_ok m -> mem_fetch32 (address_space_id cpu_context) (st_pc (cpu m)) (memory m) = Ok fetched ->
  returns_or_overflows checks (code_bits fetched) m (execute_decoded checks context d m) ->
  instruction_result executed (run_decoded checks context source (code_bits fetched) executed (Ok (Decoded d)) m).
Proof.
  intros Hok Hf Hr. cbn [run_decoded]. destruct Hr as [Hr|(Hck & Ho & ->)].
  - by destruct (execute_decoded checks context d m) as [m' [[]|[]|]].
  - split; [done|]. exists fetched. split; [done|by right].
Qed.

Lemma run_instruction_returns iteration executed m :
  machine_ok m -> instruction_result executed (run_instruction checks cpu_context timer iteration executed m).
Proof.
  intros Hok. unfold run_instruction. cbv zeta.
  set (context := {| process := cpu_context; architectural_timer := timer iteration |}).
  set (source := source_at context (st_pc (cpu m))).
  pose proof (mem_fetch_law (memory m) (address_space_id cpu_context) (location_pc source) (ok_memory m Hok)
                (wf_pc _ (ok_cpu m Hok))) as Hf.
  destruct (mem_fetch32 _ _ _) as [fetched|fault|] eqn:Hfetch; [|by simpl; eauto|done].
  destruct (reserved_duplicate (code_bits fetched)) eqn:Hres.
  { destruct (execute_reserved checks context m (process_platform cpu_context) source (code_bits fetched) Hok Hf Hres)
      as (d & -> & He). cbn [run_decoded]. rewrite He. split; [done|]. exists fetched. split; [done|by left]. }
  destruct (decode_a64_cases (process_platform cpu_context) source (code_bits fetched)) as (r & -> & Hd).
  assert (forall d, r = Decoded d \/ r = RecognizedUnimplementedInstruction d ->
    returns_or_overflows checks (code_bits fetched) m (execute_decoded checks context d m)) as Hrun.
  { intros d Hr. destruct (Hd d Hr) as (_ & He & p & Hp & Hi & Ha & _).
    by apply (execute_decoded_returns _ _ _ _ p (code_bits fetched)); [apply Htimer|..]. }
  destruct r as [d|dg reason|dg name reason|d]; [|done|done|].
  - apply run_decoded_returns; [done|done|]. apply Hrun. by left.
  - apply (run_decoded_returns context source fetched executed d); [done|done|]. apply Hrun. by right.
Qed.

(** ** Polling *)

Definition pending (s : @Slice Mem Direct) : nat := if requests (slice_control s) =? 0 then 0 else 1.

Lemma apply_inputs_ok inputs s :
  machine_ok (slice_machine s) ->
  machine_ok (slice_machine (apply_inputs inputs s)) /\
  cpu (slice_machine (apply_inputs inputs s)) = cpu (slice_machine s) /\
  memory (slice_machine (apply_inputs inputs s)) = memory (slice_machine s).
Proof.
  unfold apply_inputs. revert s. induction inputs as [|i inputs IH]; intros s Hok; [done|]. simpl.
  assert (machine_ok (slice_machine (apply_input s i)) /\ cpu (slice_machine (apply_input s i)) = cpu (slice_machine s) /\
    memory (slice_machine (apply_input s i)) = memory (slice_machine s)) as (H1 & H2 & H3)
    by (destruct Hok, i; done).
  destruct (IH _ H1) as (? & -> & ->). done.
Qed.

(** What a slice promises about its result. *)
Definition slice_result (executed remaining : Z) (outcome : @Slice Mem Direct * res CpuFault ExecutionReport) : Prop :=
  match outcome with
  | (s, Ok r) =>
      machine_ok (slice_machine s) /\ executed <= progress r <= executed + remaining /\
      report_context r = Some (register_context (cpu (slice_machine s))) /\
      (stop r = BudgetExhausted -> progress r = executed + remaining)
  | (s, Err fault) =>
      machine_ok (slice_machine s) /\ executed <= fault_progress fault < executed + remaining /\
      fault_context fault = register_context (cpu (slice_machine s))
  | (s, Panic) => machine_ok (slice_machine s) /\ at_panicking (slice_machine s)
  end.

Lemma slice_result_step executed remaining outcome :
  0 <= executed -> 0 < remaining -> slice_result (executed + 1) (remaining - 1) outcome ->
  slice_result executed remaining outcome.
Proof.
  intros He Hr. destruct outcome as [s [r|fault|]]; simpl; [|intros (? & ? & ?); split_and!; (done || lia)|done].
  intros (Hok & Hp & Hc & Hb). split_and!; try done; try lia. intros E. rewrite Hb by done. lia.
Qed.

Lemma run_loop_result fuel iteration external executed remaining s :
  machine_ok (slice_machine s) -> 0 <= executed -> 0 <= remaining ->
  (Z.to_nat remaining + List.length external + pending s < fuel)%nat ->
  slice_result executed remaining
    (run_loop checks cpu_context timer loader_return fuel iteration external executed remaining s).
Proof.
  revert iteration external executed remaining s.
  induction fuel as [|fuel IH]; intros iteration external executed remaining s Hok He Hr Hf; [lia|].
  cbn [run_loop].
  destruct (from_option id ([], []) (head external)) as [before_poll before_step] eqn:Eext.
  set (s1 := apply_inputs before_poll s).
  destruct (apply_inputs_ok before_poll s Hok) as (Hok1 & _ & _). fold s1 in Hok1.
  destruct (loader_return_observation _ _ _) as [[source code]|]; [simpl; split_and!; (done || lia)|].
  destruct (take_pending_interrupts (vcpu_events (slice_machine s1))) as [events mask] eqn:Ep.
  set (m1 := set_events events (slice_machine s1)).
  assert (machine_ok m1) as Hokm by (by destruct Hok1).
  destruct (negb (mask =? 0)); [simpl; split_and!; (done || lia)|].
  unfold take_pending. cbn [slice_control].
  set (control := {| requests := 0; synchronization_counter := _; invalidation_epoch := _;
                     acknowledged_invalidation_epoch := _ |}).
  destruct (Z.eqb_spec (requests (slice_control s1)) 0) as [Hnone|Hsome]; cbn [negb].
  - destruct (Z.eqb_spec remaining 0) as [->|Hpos]; [simpl; split_and!; (done || lia)|].
    set (s2 := apply_inputs before_step {| slice_machine := m1; slice_control := control |}).
    destruct (apply_inputs_ok before_step {| slice_machine := m1; slice_control := control |} Hokm)
      as (Hok2 & _ & _). fold s2 in Hok2.
    pose proof (run_instruction_returns iteration executed (slice_machine s2) Hok2) as Hrun.
    destruct (run_instruction _ _ _ _ _ _) as [m' [[exit|step]|fault|]].
    + destruct Hrun as (Hm & fault & ->). simpl. split_and!; (done || lia).
    + destruct Hrun as (Hm & Hstep). destruct step as [|stop].
      * apply slice_result_step; [done|lia|]. apply IH; [done|lia|lia|].
        assert (pending {| slice_machine := m'; slice_control := slice_control s2 |} <=
                match external with [] => 0 | _ => 1 end)%nat as Hpend.
        { destruct external as [|e external]; [|unfold pending; case_match; lia].
          injection Eext as <- <-. done. }
        destruct external; simpl in *; lia.
      * simpl. split_and!; try (done || lia). by destruct stop.
    + destruct Hrun as (Hm & Hp & Hc). simpl. split_and!; (done || lia).
    + exact Hrun.
  - set (snapshot := {| snapshot_requests := _; snapshot_epoch := _ |}).
    destruct (snapshot_contains snapshot Preempt); [simpl; split_and!; (done || lia)|].
    apply IH; [done|lia|lia|].
    assert (pending {| slice_machine := m1; slice_control := acknowledge snapshot control |} = 0%nat) as ->.
    { unfold pending, acknowledge. simpl. by destruct (snapshot_contains snapshot CodeInvalidation). }
    destruct external as [|e external]; simpl in *; [|lia].
    injection Eext as <- <-. unfold pending in Hf. change s1 with s in Hsome.
    destruct (Z.eqb_spec (requests (slice_control s)) 0); [done|]. lia.
Qed.
End Dispatch.

(** ** Slices *)

(** What a slice relies on in the direct front end. *)
Class DirectSliceOk (Direct Mem View : Type) `{DirectMemoryOk Direct Mem} `{DirectSlice Direct View} : Type := {
  direct_idle : Direct -> Prop;
  begin_law d : direct_idle d ->
    match begin_slice d with
    | (d', Ok _) => direct_ok d'
    | (d', Err _) => direct_idle d'
    | (_, Panic) => False
    end;
  end_law d : direct_ok d -> exists d', end_slice d = (d', Ok tt) /\ direct_idle d' }.

Section Slices.
Context {Mem Direct View : Type} `{EqDecision View} `{CpuMemoryOk Mem}.
Context `{!DirectMemory Direct Mem} `{!DirectMemoryOk Direct Mem} `{!BoundMemory Mem View}.
Context `{!DirectSlice Direct View} `{!DirectSliceOk Direct Mem View}.
Variable timer : nat -> TimerSnapshot.
Implicit Types (self : InterpreterThread Direct View).

(** The machine between slices. *)
Record idle_machine (m : Machine Mem Direct) : Prop := {
  idle_cpu : state_wf (cpu m);
  idle_memory : mem_ok (memory m);
  idle_direct : option_Forall direct_idle (direct_memory m) }.

(** What a slice of [budget] instructions returns. *)
Definition slice_bounded (checks : bool) (cpu_context : ProcessCpuContext) (state : A64State) (budget : Z)
    (outcome : @Slice Mem Direct * res CpuFault ExecutionReport) : Prop :=
  match outcome with
  | (s, Ok r) =>
      idle_machine (slice_machine s) /\ 0 <= progress r <= budget /\
      report_context r = Some (register_context (cpu (slice_machine s))) /\
      (stop r = BudgetExhausted -> progress r = budget)
  | (s, Err fault) =>
      idle_machine (slice_machine s) /\
      (0 <= fault_progress fault < budget /\ fault_context fault = register_context (cpu (slice_machine s)) \/
       fault_progress fault = 0 /\ cpu (slice_machine s) = state)
  | (s, Panic) => idle_machine (slice_machine s) /\ at_panicking checks cpu_context (slice_machine s)
  end.

Lemma end_of_slice_bounded checks cpu_context state budget outcome :
  slice_result checks cpu_context 0 budget outcome -> slice_bounded checks cpu_context state budget (end_of_slice outcome).
Proof.
  destruct outcome as [s r]. unfold end_of_slice. intros Hr.
  assert (machine_ok (slice_machine s)) as Hok by (destruct r; apply Hr).
  assert (exists d, slice_end (direct_memory (slice_machine s)) = (d, true) /\ option_Forall direct_idle d)
    as (d & Hd & Hidle).
  { pose proof (ok_direct _ Hok) as Hdir. unfold slice_end.
    destruct (direct_memory (slice_machine s)) as [d|]; [|by exists None; split; [|constructor]].
    destruct (end_law d) as (d' & -> & Hi); [by inv Hdir|]. exists (Some d'). split; [done|by constructor]. }
  rewrite Hd. assert (idle_machine (set_direct d (slice_machine s))) as Hidlem by (destruct Hok; by split).
  destruct r as [r|fault|]; simpl in *; (split; [done|]).
  - destruct Hr as (_ & Hp & Hc). split; [lia|done].
  - destruct Hr as (_ & Hp & Hc). left. split; [lia|done].
  - apply Hr.
Qed.

(** A check that fails does so before anything ran. *)
Definition early {A} (r : res CpuFault A) : Prop :=
  match r with Ok _ => True | Err fault => fault_progress fault = 0 | Panic => False end.

Lemma validation_early self memory authorized :
  early (_ ← validate_memory_backend self memory; validate_memory_lease self authorized).
Proof.
  assert (early (validate_memory_lease self authorized)) as Hl
    by (unfold validate_memory_lease; by destruct (_ && _)).
  unfold validate_memory_backend, selected_backend.
  destruct (mem_linux_direct _ _); [destruct (mem_direct_view _ _)|]; cbn [ok_or mbind res_bind]; [|done|];
    destruct (bool_decide _); cbn [mbind res_bind]; done.
Qed.

(** C4: a slice is bounded, in both build profiles.  However other threads
    interfere with it, a slice started on a well-formed machine returns after at
    most its budget of instructions, and panics only with the program counter at
    a reserved DUP word or, in a build with overflow checks, at a word whose
    arithmetic overflows ([overflowing_word]).  A report carries the registers
    the slice stopped with, and a slice that reports its budget spent has
    executed exactly that many instructions.  A fault reports fewer than the
    budget and the registers it happened with; a slice refused before its first
    instruction reports none and leaves the registers.  The direct front end is
    left idle. *)
Theorem run_slice_bounded checks self memory authorized state budget loader_return events external :
  (forall n, fits 64 (counter (timer n)) /\ fits 64 (frequency (timer n))) ->
  state_wf state -> mem_ok memory -> option_Forall direct_idle (thread_direct self) -> 0 <= budget ->
  slice_bounded checks (thread_cpu self) state budget
    (run_slice checks timer self memory authorized state budget loader_return events external).
Proof.
  intros Ht Hwf Hm Hidle Hb. unfold run_slice.
  assert (forall d fault, option_Forall direct_idle d -> fault_progress fault = 0 ->
    slice_bounded checks (thread_cpu self) state budget ({| slice_machine := mkMachine state memory (thread_monitor self) events d;
                             slice_control := thread_control self |}, Err fault)) as Hearly.
  { intros d fault Hd Hf. simpl. split; [by split|by right]. }
  pose proof (validation_early self memory authorized) as Hval.
  destruct (_ ← validate_memory_backend self memory; validate_memory_lease self authorized) as [a|fault|];
    [clear a Hval|by apply Hearly|done].
  assert (match slice_begin (thread_direct self) with
          | (d, Ok _) => option_Forall direct_ok d
          | (d, Err _) => option_Forall direct_idle d
          | (_, Panic) => False
          end) as Hbegin.
  { unfold slice_begin. destruct (thread_direct self) as [d|]; [|by constructor].
    pose proof (begin_law d ltac:(by inv Hidle)) as Hbl.
    destruct (begin_slice d) as [d' [a|e|]]; [by constructor..|done]. }
  destruct (slice_begin (thread_direct self)) as [d [a|e|]]; [|by apply Hearly|done].
  apply end_of_slice_bounded, run_loop_result; try done.
  unfold slice_fuel, pending. case_match; lia.
Qed.
End Slices.
