(* ===== verification/InterpSamples.v ===== *)
(** * Concrete instructions and programs

    Instances of the theorems on the interpreter: single instructions and a
    short program run on the sample memory of the synthetic backend. *)

From Stdlib Require Import ZArith Lia Bool String.
From stdpp Require Import base numbers list option vector strings gmap.
From S2P Require Import Prelude RustInt FloatFormat A64FpSimdProps SimdAccepted RustList Bytes GuestAddress Allocation Invalidation DecodeTable DecodeBase.
From S2P Require Import DecodeFpSimd DecodeA64 A64State A64Semantics MemoryContracts MemoryCommon Synthetic.
From S2P Require Import SyntheticInv SyntheticData SyntheticProps SyntheticMap SyntheticCpu Interp InterpMachine.
From S2P Require Import InterpMemory InterpMemoryProps InterpMemorySpec InterpBackend InterpSystem InterpSimd.
From S2P Require Import InterpSimdProps InterpProcess InterpProcessProps.
Import SyntheticMemory.
Import SyntheticProps.Sample.
Local Open Scope list_scope.
Local Open Scope Z_scope.

(** ** The reference step *)

(** One instruction on an empty memory of its own ([interpreter/mod.rs]). *)
Section ReferenceStep.
Context {Handler : Type} `{SyntheticMmioOk Handler}.
Variable checks : bool.

Definition reference_context (platform : TargetPlatform) : InterpreterContext :=
  {| process := {| process_platform := platform; address_space_id := 0 |};
     architectural_timer := {| counter := 0; frequency := 0 |} |}.

Definition reference_machine (state : A64State) : Machine (State Handler) Empty_set :=
  mkMachine state new monitor_default events_default None.

Definition execute_one (platform : TargetPlatform) (encoding : Z) (state : A64State) :
    A64State * res InterpreterError InstructionStep :=
  let outcome := execute_one_with_context checks (reference_context platform) encoding (reference_machine state) in
  (cpu (fst outcome), snd outcome).

End ReferenceStep.

Lemma execute_one_returns `{SyntheticMmioOk Handler} platform encoding state :
  state_wf state -> fits 32 encoding -> reserved_duplicate encoding = false ->
  snd (execute_one (Handler := Handler) false platform encoding state) <> Panic /\
  state_wf (fst (execute_one (Handler := Handler) false platform encoding state)).
Proof.
  intros Hwf He Hres. unfold execute_one.
  assert (machine_ok (reference_machine (Handler := Handler) state)) as Hok by (split; [done|apply new_ok|constructor]).
  pose proof (execute_one_run false (reference_context platform) (reference_machine (Handler := Handler) state) encoding
                ltac:(by repeat split) Hok He Hres) as [Hr|[Hck _]]; [|done].
  destruct (execute_one_with_context _ _ _ _) as [m' [step|e|]]; [| |done]; simpl; (split; [done|]); apply Hr.
Qed.

Module Machines.

Definition context : InterpreterContext :=
  {| process := {| process_platform := Switch1; address_space_id := 7 |};
     architectural_timer := {| counter := 0; frequency := 0 |} |}.

(** X0 points into page 16, X1 and X2 hold values. *)
Definition registers : A64State :=
  write_x (zero_register 0) 0x10010 (write_x (zero_register 1) 0xfedc_ba98_7654_3210
    (write_x (zero_register 2) 0x55 (set_pc 0x1000 A64State_default))).

Definition machine : Machine (State unit) Empty_set :=
  mkMachine registers Sample.memory monitor_default events_default None.

Lemma registers_wf : state_wf registers.
Proof.
  repeat (apply write_x_wf; [|by split]). apply set_pc_wf; [apply default_wf|by split].
Qed.

Lemma machine_is_ok : machine_ok machine.
Proof. split; [apply registers_wf|apply Sample.memory_is_ok|constructor]. Qed.

Lemma context_is_ok : context_ok context.
Proof. by repeat split. Qed.

Lemma page_readable : readable_ram context Sample.memory 0x10010 8.
Proof.
  intros i mapping Hi. unfold mapping_at.
  replace (virtual_page (0x10010 + i)) with 16; [|unfold virtual_page; change PAGE_SIZE with 4096;
    apply Z.div_unique with (0x10 + i); lia].
  intros [= <-]. split; [done|]. by eexists _, _.
Qed.

Definition load_q0 : FpSimd.Instruction :=
  Eval vm_compute in
    match FpSimd.normalize 0x33 0x3dc0_0000 as r
      return match r with Ok _ => FpSimd.Instruction | _ => unit end
    with Ok i => i | _ => tt end.

(** Memory without a direct view. *)
#[export] Instance checked_only : BoundMemory (State unit) unit := {
  mem_linux_direct _ _ := false; mem_direct_view _ _ := None }.

#[export] Instance no_direct_slice : DirectSlice Empty_set unit := {
  direct_new _ _ := Panic; begin_slice d := (d, Ok tt); end_slice d := (d, Ok tt) }.

#[export] Instance no_direct_slice_ok : DirectSliceOk Empty_set (State unit) unit.
Proof. exists (fun _ => False); by intros []. Qed.

Definition thread : InterpreterThread Empty_set unit :=
  {| thread_id := 1; thread_cpu := process context; thread_backend := Some Checked;
     thread_monitor := monitor_default; thread_control := control_default; thread_direct := None |}.
End Machines.
Import Machines.

(** [str x1, [x0]]. *)
Lemma memory_execute_precise_witness :
  let i := Memory.Unsigned (Memory.operands_of 0x23 0xf900_0001) in
  (machine_ok Machines.machine /\ fits 32 0xf900_0001 /\ Memory.normalize 0x23 0xf900_0001 = Ok i) /\
  completed [] false Machines.machine (fst (InterpMemory.execute Machines.context demo_decoded i Machines.machine)).
Proof.
  intros i. split; [split_and!; [apply Machines.machine_is_ok|by split|reflexivity]|].
  pose proof (memory_execute_precise Machines.context Machines.machine demo_decoded 0x23 0xf900_0001 i _
                Machines.machine_is_ok ltac:(by split) eq_refl eq_refl) as Hp.
  assert (snd (InterpMemory.execute Machines.context demo_decoded i Machines.machine) = Ok Continue) as Hs
    by (by vm_compute).
  destruct (InterpMemory.execute _ _ _ _) as [m' r]. simpl in Hs. subst r. exact Hp.
Defined.

(** [ldrsw x2, [x0]]. *)
Lemma scalar_transfer_exact_witness :
  let i := Memory.Unsigned (Memory.operands_of 0x23 0xb980_0002) in
  let load := {| signed := true; destination_bits := 64 |} in
  (machine_ok Machines.machine /\ addressing (cpu Machines.machine) i Word = Some (0x10010, None) /\
   scalar_transfer (Memory.opc (InterpMemory.instruction_operands i)) Word = Some (Load load)) /\
  InterpMemory.execute Machines.context demo_decoded i Machines.machine =
  scalar_step Machines.context demo_decoded (InterpMemory.instruction_operands i) Word 0x10010 None (Load load)
    Machines.machine.
Proof.
  intros i load. split; [split_and!; [apply Machines.machine_is_ok|by vm_compute|reflexivity]|].
  apply (scalar_transfer_exact Machines.context Machines.machine demo_decoded 0x23 0xb980_0002);
    [apply Machines.machine_is_ok|by split|reflexivity|done|reflexivity|by vm_compute|reflexivity].
Defined.

(** [stxr w3, x1, [x0]] without a reservation. *)
Lemma store_exclusive_spends_reservation_witness :
  let i := Memory.StoreExclusive (Memory.operands_of 0x2c 0xc803_7c01) in
  (machine_ok Machines.machine /\ fits 32 0xc803_7c01 /\ Memory.normalize 0x2c 0xc803_7c01 = Ok i) /\
  InterpMachine.memory (fst (InterpMemory.execute Machines.context demo_decoded i Machines.machine)) = Sample.memory.
Proof.
  intros i. split; [split_and!; [apply Machines.machine_is_ok|by split|reflexivity]|].
  pose proof (store_exclusive_spends_reservation Machines.context Machines.machine demo_decoded 0x2c 0xc803_7c01 i _
                Machines.machine_is_ok ltac:(by split) eq_refl eq_refl eq_refl) as Hp.
  assert (snd (InterpMemory.execute Machines.context demo_decoded i Machines.machine) = Ok Continue) as Hs
    by (by vm_compute).
  destruct (InterpMemory.execute _ _ _ _) as [m' r]. simpl in Hs. subst r.
  exact (proj1 (proj2 (proj2 Hp eq_refl))).
Defined.

(** [str x1, [x0]] then [ldr x2, [x0]]. *)
Lemma store_then_load_witness :
  let i1 := Memory.Unsigned (Memory.operands_of 0x23 0xf900_0001) in
  let i2 := Memory.Unsigned (Memory.operands_of 0x23 0xf940_0002) in
  let m1 := fst (InterpMemory.execute Machines.context demo_decoded i1 Machines.machine) in
  exists m2, InterpMemory.execute Machines.context demo_decoded i2 m1 = (m2, Ok Continue) /\
    InterpMachine.memory m2 = InterpMachine.memory m1 /\
    read_x (cpu m2) (zero_register 2) = 0xfedc_ba98_7654_3210.
Proof.
  intros i1 i2 m1.
  assert (InterpMemory.execute Machines.context demo_decoded i1 Machines.machine = (m1, Ok Continue)) as H1.
  { rewrite (surjective_pairing (InterpMemory.execute _ _ _ _)). by f_equal. }
  exact (store_then_load Machines.context Machines.machine m1 demo_decoded demo_decoded
           0x23 0xf900_0001 i1 0x23 0xf940_0002 i2 Doubleword {| signed := false; destination_bits := 64 |}
           0x10010 None None Machines.machine_is_ok eq_refl ltac:(by split) ltac:(by split) eq_refl eq_refl
           ltac:(done) ltac:(done) eq_refl eq_refl eq_refl eq_refl ltac:(by vm_compute) H1 ltac:(by vm_compute)
           Machines.page_readable eq_refl ltac:(done)).
Defined.

(** [mrs x4, nzcv]. *)
Lemma system_execute_precise_witness :
  let i := SystemFamily.ReadRegister (SystemFamily.operands_of 0xd53b_4204) in
  (context_ok Machines.context /\ machine_ok Machines.machine /\ SystemFamily.normalize 0xc 0xd53b_4204 = Ok i) /\
  system_verdict demo_decoded i Machines.machine
    (InterpSystem.execute Machines.context demo_decoded i Machines.machine).
Proof.
  intros i. split; [split_and!; [apply Machines.context_is_ok|apply Machines.machine_is_ok|reflexivity]|].
  exact (system_execute_precise Machines.context Machines.machine demo_decoded 0xc 0xd53b_4204 i _
           Machines.context_is_ok Machines.machine_is_ok eq_refl eq_refl).
Defined.

(** [msr tpidr_el0, x1] then [mrs x4, tpidr_el0]. *)
Lemma msr_then_mrs_witness :
  exists m1 m2,
    InterpSystem.execute Machines.context demo_decoded (SystemFamily.WriteRegister (SystemFamily.operands_of 0xd51b_d041))
      Machines.machine = (m1, Ok Continue) /\
    InterpSystem.execute Machines.context demo_decoded (SystemFamily.ReadRegister (SystemFamily.operands_of 0xd53b_d044)) m1 =
      (m2, Ok Continue) /\
    read_x (cpu m2) (zero_register 4) = 0xfedc_ba98_7654_3210 /\ InterpMachine.memory m2 = Sample.memory.
Proof.
  exact (msr_then_mrs Machines.context Machines.machine demo_decoded demo_decoded
           (SystemFamily.operands_of 0xd51b_d041) (SystemFamily.operands_of 0xd53b_d044) 0xfedc_ba98_7654_3210
           Machines.context_is_ok Machines.machine_is_ok ltac:(by vm_compute) eq_refl ltac:(by vm_compute)).
Defined.

(** [sevl], [wfe], [wfe]. *)
Lemma event_wakes_one_wait_witness :
  let sevl := SystemFamily.Hint (SystemFamily.operands_of 0xd503_20bf) in
  let wfe := SystemFamily.Hint (SystemFamily.operands_of 0xd503_205f) in
  let run i m := fst (InterpSystem.execute Machines.context demo_decoded i m) in
  snd (InterpSystem.execute Machines.context demo_decoded wfe (run wfe (run sevl Machines.machine))) =
    Ok (Exit (Scheduled (location demo_decoded) WaitForEvent)).
Proof.
  intros sevl wfe run.
  pose proof (event_wakes_one_wait Machines.context Machines.machine demo_decoded demo_decoded demo_decoded
                (SystemFamily.operands_of 0xd503_20bf) (SystemFamily.operands_of 0xd503_205f) eq_refl eq_refl) as (_ & _ & H & _).
  unfold run. exact (f_equal snd H).
Defined.

(** [ldr q0, [x0]]. *)
Lemma simd_transfer_precise_witness :
  let i := Machines.load_q0 in
  (FpSimd.normalize 0x33 0x3dc0_0000 = Ok i /\ is_memory_form i = true) /\
  simd_completed i Machines.machine
    (fst (InterpSimd.execute Machines.context false demo_decoded i Machines.machine)).
Proof.
  intros i. split; [split; reflexivity|].
  pose proof (simd_transfer_precise Machines.context false Machines.machine demo_decoded
                0x33 0x3dc0_0000 i Machines.machine_is_ok ltac:(by split) eq_refl
                eq_refl eq_refl) as Hp.
  assert (snd (InterpSimd.execute Machines.context false demo_decoded i Machines.machine) =
          Ok Continue) as Hs by (by vm_compute).
  destruct (InterpSimd.execute _ _ _ _ _) as [m' r]. simpl in Hs. subst r. exact Hp.
Defined.

Lemma lane_after_insert_witness :
  lane_of (with_lane 0x1111_2222_3333_4444 1 16 0xabcd) 1 16 = 0xabcd /\
  lane_of (with_lane 0x1111_2222_3333_4444 1 16 0xabcd) 3 16 = lane_of 0x1111_2222_3333_4444 3 16.
Proof.
  split; [apply (lane_after_insert 0x1111_2222_3333_4444 1 1 16 0xabcd)|
          apply (lane_after_insert 0x1111_2222_3333_4444 1 3 16 0xabcd)]; lia || by split.
Defined.

Lemma execute_one_total_witness :
  context_ok Machines.context /\ machine_ok Machines.machine /\
  returns_or_overflows true 0xf900_0001 Machines.machine
    (execute_one_with_context true Machines.context 0xf900_0001 Machines.machine).
Proof.
  split; [apply Machines.context_is_ok|]. split; [apply Machines.machine_is_ok|].
  pose proof (execute_one_total true Machines.context Machines.machine
                0xf900_0001 Machines.context_is_ok Machines.machine_is_ok ltac:(by split)) as Hr.
  assert (reserved_duplicate 0xf900_0001 = false) as E by reflexivity. rewrite E in Hr. exact Hr.
Defined.

Lemma run_slice_bounded_witness :
  slice_bounded true (process Machines.context) Machines.registers 3
    (run_slice true (fun _ => {| counter := 0; frequency := 0 |}) Machines.thread Sample.memory
       true Machines.registers 3 None events_default [([SignalEvent], [RequestControl Preempt])]).
Proof.
  exact (run_slice_bounded (fun _ => {| counter := 0; frequency := 0 |}) true Machines.thread
           Sample.memory true Machines.registers 3 None events_default [([SignalEvent], [RequestControl Preempt])]
           ltac:(by repeat split) Machines.registers_wf Sample.memory_is_ok
           ltac:(constructor) ltac:(lia)).
Defined.
