(* ===== verification/HipcMessage.v ===== *)
(** * HIPC and CMIF messages: [crates/horizon/src/ipc_wire/message.rs]

    Decoding of requests and encoding of responses in the 256-byte command buffer
    of a guest thread.  A byte slice is a [list Z] of bytes, a length or offset a
    [Z]; [usize] is 64 bits wide.  A [MessageError] is its reason.  Writes to the
    output vector pass it along: an error drops it, as [?] does. *)

From Stdlib Require Import ZArith Lia Bool.
From stdpp Require Import base numbers list option strings.
From S2P Require Import Prelude RustInt Bytes.
Local Open Scope Z_scope.

Definition COMMAND_BUFFER_SIZE : Z := 0x100.
Definition CMIF_IN_MAGIC : Z := 0x4943_4653.
Definition CMIF_OUT_MAGIC : Z := 0x4f43_4653.
Definition CMIF_COMMAND_LEGACY_REQUEST : Z := 1.
Definition CMIF_COMMAND_CLOSE : Z := 2.
Definition CMIF_COMMAND_LEGACY_CONTROL : Z := 3.
Definition CMIF_COMMAND_REQUEST : Z := 4.
Definition CMIF_COMMAND_CONTROL : Z := 5.
Definition CMIF_COMMAND_REQUEST_WITH_CONTEXT : Z := 6.
Definition CMIF_COMMAND_CONTROL_WITH_CONTEXT : Z := 7.
Definition CMIF_DOMAIN_SEND_MESSAGE : Z := 1.
Definition CMIF_DOMAIN_CLOSE : Z := 2.
Definition MAX_DESCRIPTOR_COUNT : Z := 15.
Definition MAX_HANDLE_COUNT : Z := 15.

Definition MessageError : Set := string.
Abbreviation msg := (res MessageError).

(** ** Data *)

Inductive BufferMode : Set := Normal | NonSecure | Invalid | NonDevice.

#[export] Instance BufferMode_eq_dec : EqDecision BufferMode.
Proof. solve_decision. Defined.

Definition BufferMode_from_raw (raw : Z) : msg BufferMode :=
  match raw with
  | 0 => Ok Normal
  | 1 => Ok NonSecure
  | 2 => Ok Invalid
  | 3 => Ok NonDevice
  | _ => Panic
  end.

Record SendStaticDescriptor : Set := mkSendStatic { send_address : Z; send_size : Z; send_index : Z }.

Record BufferDescriptor : Set := mkBuffer { buffer_address : Z; buffer_size : Z; buffer_mode : BufferMode }.

Record ReceiveStaticDescriptor : Set := mkReceiveStatic { receive_address : Z; receive_size : Z }.

Inductive ReceiveStatics : Set :=
  | ReceiveNone
  | ReceiveAuto
  | ReceiveEntries (entries : list ReceiveStaticDescriptor).

Record HipcRequest : Set := mkHipc {
  command_type : Z;
  pid : option Z;
  copy_handles : list Z;
  move_handles : list Z;
  send_statics : list SendStaticDescriptor;
  send_buffers : list BufferDescriptor;
  receive_buffers : list BufferDescriptor;
  exchange_buffers : list BufferDescriptor;
  receive_statics : ReceiveStatics;
  raw_bytes : list Z;
  handle_offset : Z;
  data_offset : Z;
  data_end : Z }.

Inductive DomainRequest : Set :=
  | SendMessage (object_id : Z) (input_objects : list Z)
  | CloseObject (object_id : Z).

Record CmifRequest : Set := mkCmif {
  cmif_command_type : Z;
  command_id : Z;
  token : Z;
  context : option Z;
  cmif_data : list Z;
  domain : option DomainRequest }.

Record CmifInHeader : Set := mkInHeader { in_version : Z; in_command_id : Z; in_token : Z }.

Record CmifResponse : Set := mkResponse {
  response_token : Z;
  response_result : Z;
  response_data : list Z;
  response_pid : option Z;
  response_copy_handles : list Z;
  response_move_handles : list Z;
  response_send_statics : list SendStaticDescriptor;
  is_domain : bool;
  domain_objects : list Z }.

(** ** Checked arithmetic and bounded access *)

Definition checked_add (left right : Z) : msg Z :=
  ok_or (RustInt.checked_add 64 left right) "HIPC size calculation overflows"%string.

Definition checked_mul (left right : Z) : msg Z :=
  if left * right <? 2 ^ 64 then Ok (left * right) else Err "HIPC size calculation overflows"%string.

(** [alignment] is a power of two, so [!(alignment - 1)] clears its low bits. *)
Definition align_up (value alignment : Z) : msg Z :=
  match RustInt.checked_add 64 value (alignment - 1) with
  | Some value => Ok (Z.land value (not_w 64 (alignment - 1)))
  | None => Err "HIPC alignment overflows"%string
  end.

Definition get_uint (n : nat) (reason : string) (bytes : list Z) (offset : Z) : msg Z :=
  last ← checked_add offset (Z.of_nat n);
  value ← ok_or (get_range bytes offset last) reason;
  value ← expect (try_into n value);
  Ok (from_le_bytes value).

Definition get_u16 : list Z -> Z -> msg Z := get_uint 2 "truncated HIPC halfword".
Definition get_u32 : list Z -> Z -> msg Z := get_uint 4 "truncated HIPC word".
Definition get_u64 : list Z -> Z -> msg Z := get_uint 8 "truncated HIPC doubleword".

(** [bytes.get_mut(offset..end)] and [copy_from_slice]. *)
Definition put_uint (n : nat) (reason : string) (bytes : list Z) (offset value : Z) : msg (list Z) :=
  last ← checked_add offset (Z.of_nat n);
  _ ← ok_or (get_range bytes offset last) reason;
  Ok (list_inserts (Z.to_nat offset) (to_le_bytes n value) bytes).

Definition put_u32 : list Z -> Z -> Z -> msg (list Z) := put_uint 4 "HIPC output word is out of bounds".
Definition put_u64 : list Z -> Z -> Z -> msg (list Z) := put_uint 8 "HIPC output doubleword is out of bounds".

Definition bounded_count (count maximum : Z) (reason : MessageError) : msg unit :=
  if count <=? maximum then Ok tt else Err reason.

Definition field (value shift width : Z) : Z :=
  Z.land (Z.shiftr value shift) (Z.shiftl 1 width - 1).

(** ** Descriptor tables

    [for _ in 0..count]: one entry at a time, each returning the offset after
    it. *)
Fixpoint decode_table {A} (entry : Z -> msg (A * Z)) (count : nat) (offset : Z) : msg (list A * Z) :=
  match count with
  | O => Ok ([], offset)
  | S count =>
      '(value, offset) ← entry offset;
      '(values, offset) ← decode_table entry count offset;
      Ok (value :: values, offset)
  end.

Definition word_entry (bytes : list Z) (offset : Z) : msg (Z * Z) :=
  value ← get_u32 bytes offset;
  offset ← checked_add offset 4;
  Ok (value, offset).

Definition decode_words (bytes : list Z) (offset count : Z) : msg (list Z * Z) :=
  _ ← bounded_count count (Z.max MAX_HANDLE_COUNT 0xff) "too many HIPC words"%string;
  decode_table (word_entry bytes) (Z.to_nat count) offset.

Definition send_static_entry (bytes : list Z) (offset : Z) : msg (SendStaticDescriptor * Z) :=
  first ← get_u32 bytes offset;
  low_offset ← checked_add offset 4;
  low ← get_u32 bytes low_offset;
  next ← checked_add offset 8;
  Ok (mkSendStatic
        (Z.lor (Z.lor low (Z.shiftl (field first 12 4) 32)) (Z.shiftl (field first 6 6) 36))
        (wrap 16 (Z.shiftr first 16)) (Z.land first 0x3f), next).

Definition decode_send_statics (bytes : list Z) (offset count : Z) : msg (list SendStaticDescriptor * Z) :=
  _ ← bounded_count count MAX_DESCRIPTOR_COUNT "too many send statics"%string;
  decode_table (send_static_entry bytes) (Z.to_nat count) offset.

Definition buffer_entry (bytes : list Z) (offset : Z) : msg (BufferDescriptor * Z) :=
  size_low ← get_u32 bytes offset;
  address_offset ← checked_add offset 4;
  address_low ← get_u32 bytes address_offset;
  high_offset ← checked_add offset 8;
  high ← get_u32 bytes high_offset;
  mode ← BufferMode_from_raw (field high 0 2);
  next ← checked_add offset 12;
  Ok (mkBuffer
        (Z.lor (Z.lor address_low (Z.shiftl (field high 28 4) 32)) (Z.shiftl (field high 2 22) 36))
        (Z.lor size_low (Z.shiftl (field high 24 4) 32)) mode, next).

Definition decode_buffers (bytes : list Z) (offset count : Z) : msg (list BufferDescriptor * Z) :=
  _ ← bounded_count count MAX_DESCRIPTOR_COUNT "too many HIPC buffers"%string;
  decode_table (buffer_entry bytes) (Z.to_nat count) offset.

Definition receive_static_entry (bytes : list Z) (offset : Z) : msg (ReceiveStaticDescriptor * Z) :=
  low ← get_u32 bytes offset;
  high_offset ← checked_add offset 4;
  high ← get_u32 bytes high_offset;
  next ← checked_add offset 8;
  Ok (mkReceiveStatic (Z.lor low (Z.shiftl (Z.land high 0xffff) 32)) (wrap 16 (Z.shiftr high 16)), next).

Definition decode_receive_statics (bytes : list Z) (offset count : Z) :
    msg (list ReceiveStaticDescriptor * Z) :=
  _ ← bounded_count count 13 "too many receive statics"%string;
  decode_table (receive_static_entry bytes) (Z.to_nat count) offset.

(** ** Requests *)

(** [pid], the counts of copied and moved handles, and the offset after the
    special header. *)
Definition special_header (raw : list Z) (has_special_header : bool) (offset : Z) :
    msg (option Z * Z * Z * Z) :=
  if has_special_header then
    special ← get_u32 raw offset;
    offset ← checked_add offset 4;
    if negb (Z.shiftr special 9 =? 0) then Err "HIPC special-header padding is nonzero"%string
    else
      let sends_pid := negb (Z.land special 1 =? 0) in
      let copy_count := field special 1 4 in
      let move_count := field special 5 4 in
      if sends_pid then
        value ← get_u64 raw offset;
        offset ← checked_add offset 8;
        Ok (Some value, copy_count, move_count, offset)
      else Ok (None, copy_count, move_count, offset)
  else Ok (None, 0, 0, offset).

Definition decode_receive_mode (raw : list Z) (receive_static_mode offset : Z) : msg (ReceiveStatics * Z) :=
  if receive_static_mode =? 0 then Ok (ReceiveNone, offset)
  else if receive_static_mode =? 1 then Err "HIPC receive-static mode 1 is reserved"%string
  else if receive_static_mode =? 2 then Ok (ReceiveAuto, offset)
  else
    '(entries, next) ← decode_receive_statics raw offset (receive_static_mode - 2);
    Ok (ReceiveEntries entries, next).

Definition HipcRequest_decode (raw : list Z) : msg HipcRequest :=
  if COMMAND_BUFFER_SIZE <? len raw then Err "HIPC command buffer exceeds 0x100 bytes"%string
  else
    word0 ← get_u32 raw 0;
    word1 ← get_u32 raw 4;
    let command_type := wrap 16 word0 in
    let send_static_count := field word0 16 4 in
    let send_buffer_count := field word0 20 4 in
    let receive_buffer_count := field word0 24 4 in
    let exchange_buffer_count := field word0 28 4 in
    let data_word_count := field word1 0 10 in
    let receive_static_mode := field word1 10 4 in
    if negb (field word1 14 6 =? 0) then Err "HIPC header padding is nonzero"%string
    else
      let has_special_header := negb (Z.shiftr word1 31 =? 0) in
      '(pid, copy_handle_count, move_handle_count, offset) ← special_header raw has_special_header 8;
      let handle_offset := offset in
      '(copy_handles, offset) ← decode_words raw offset copy_handle_count;
      '(move_handles, offset) ← decode_words raw offset move_handle_count;
      '(send_statics, offset) ← decode_send_statics raw offset send_static_count;
      '(send_buffers, offset) ← decode_buffers raw offset send_buffer_count;
      '(receive_buffers, offset) ← decode_buffers raw offset receive_buffer_count;
      '(exchange_buffers, offset) ← decode_buffers raw offset exchange_buffer_count;
      data_size ← checked_mul data_word_count 4;
      data_end ← checked_add offset data_size;
      if len raw <? data_end then Err "HIPC data words exceed the command buffer"%string
      else
        let offset := data_end in
        '(receive_statics, offset) ← decode_receive_mode raw receive_static_mode offset;
        if len raw <? offset then Err "HIPC receive-static list exceeds the command buffer"%string
        else
          Ok (mkHipc command_type pid copy_handles move_handles send_statics send_buffers
                receive_buffers exchange_buffers receive_statics raw handle_offset
                (data_end - data_size) data_end).

Definition aligned_data (hipc : HipcRequest) : msg (list Z) :=
  start ← align_up (data_offset hipc) 16;
  ok_or (get_range (raw_bytes hipc) start (data_end hipc))
    "aligned CMIF data exceeds HIPC data words"%string.

Definition data_word_bytes (hipc : HipcRequest) : Z := data_end hipc - data_offset hipc.

(** ** The CMIF layer *)

Definition decode_in_header (bytes : list Z) (offset : Z) : msg CmifInHeader :=
  magic ← get_u32 bytes offset;
  if negb (magic =? CMIF_IN_MAGIC) then Err "invalid CMIF input-header magic"%string
  else
    version_offset ← checked_add offset 4;
    version ← get_u32 bytes version_offset;
    command_offset ← checked_add offset 8;
    command_id ← get_u32 bytes command_offset;
    token_offset ← checked_add offset 12;
    token ← get_u32 bytes token_offset;
    Ok (mkInHeader version command_id token).

Definition validate_version (version : Z) (has_context : bool) : msg unit :=
  let expected := Z.b2z has_context in
  if version =? expected then Ok tt else Err "CMIF input-header version does not match command type"%string.

Definition decode_plain (command_type : Z) (bytes : list Z) : msg CmifRequest :=
  header ← decode_in_header bytes 0;
  let has_context := (command_type =? CMIF_COMMAND_REQUEST_WITH_CONTEXT)
                     || (command_type =? CMIF_COMMAND_CONTROL_WITH_CONTEXT) in
  _ ← validate_version (in_version header) has_context;
  data ← ok_or (get_range bytes 16 (len bytes)) "truncated CMIF input header"%string;
  Ok (mkCmif command_type (in_command_id header) (in_token header)
        (if has_context then Some (in_token header) else None) data None).

Definition decode_domain (command_type : Z) (bytes : list Z) : msg CmifRequest :=
  domain_type ← ok_or (head bytes) "truncated CMIF domain header"%string;
  input_object_count ← ok_or (bytes !! 1%nat) "truncated CMIF domain input-object count"%string;
  data_size ← get_u16 bytes 2;
  object_id ← get_u32 bytes 4;
  padding ← get_u32 bytes 8;
  if negb (padding =? 0) then Err "CMIF domain-header padding is nonzero"%string
  else
    domain_token ← get_u32 bytes 12;
    if domain_type =? CMIF_DOMAIN_CLOSE then
      if negb (input_object_count =? 0) || negb (data_size =? 0)
      then Err "CMIF domain close contains payload or objects"%string
      else Ok (mkCmif command_type 0 0 None [] (Some (CloseObject object_id)))
    else if domain_type =? CMIF_DOMAIN_SEND_MESSAGE then
      if data_size <? 16 then Err "CMIF domain payload omits its input header"%string
      else
        payload_end ← checked_add 16 data_size;
        if len bytes <? payload_end then Err "CMIF domain payload exceeds HIPC data words"%string
        else
          header ← decode_in_header bytes 16;
          let has_context := command_type =? CMIF_COMMAND_REQUEST_WITH_CONTEXT in
          _ ← validate_version (in_version header) has_context;
          if negb (in_token header =? 0) then Err "domain CMIF input-header token is nonzero"%string
          else
            '(input_objects, objects_end) ← decode_words bytes payload_end input_object_count;
            if len bytes <? objects_end then Err "CMIF domain object list exceeds data words"%string
            else
              data ← expect (get_range bytes 32 payload_end);
              Ok (mkCmif command_type (in_command_id header) domain_token
                    (if has_context then Some domain_token else None) data
                    (Some (SendMessage object_id input_objects)))
    else Err "invalid CMIF domain request type"%string.

Definition CmifRequest_decode (hipc : HipcRequest) (is_domain : bool) : msg CmifRequest :=
  let command_type := command_type hipc in
  if command_type =? CMIF_COMMAND_CLOSE then
    if negb (data_word_bytes hipc =? 0) then Err "CMIF session close contains data words"%string
    else Ok (mkCmif command_type 0 0 None [] None)
  else if negb ((command_type =? CMIF_COMMAND_LEGACY_REQUEST)
                || (command_type =? CMIF_COMMAND_LEGACY_CONTROL)
                || (command_type =? CMIF_COMMAND_REQUEST)
                || (command_type =? CMIF_COMMAND_CONTROL)
                || (command_type =? CMIF_COMMAND_REQUEST_WITH_CONTEXT)
                || (command_type =? CMIF_COMMAND_CONTROL_WITH_CONTEXT))
  then Err "unsupported HIPC command type for CMIF"%string
  else
    data_words ← aligned_data hipc;
    if is_domain && ((command_type =? CMIF_COMMAND_REQUEST)
                     || (command_type =? CMIF_COMMAND_REQUEST_WITH_CONTEXT))
    then decode_domain command_type data_words
    else decode_plain command_type data_words.

(** ** Responses *)

Definition encode_send_static (bytes : list Z) (offset : Z) (descriptor : SendStaticDescriptor) :
    msg (list Z) :=
  if negb (Z.shiftr (send_address descriptor) 42 =? 0) || (0x3f <? send_index descriptor)
  then Err "send-static descriptor field is out of range"%string
  else
    let first :=
      Z.lor (Z.lor (Z.lor (send_index descriptor)
        (shl_w 32 (Z.land (wrap 32 (Z.shiftr (send_address descriptor) 36)) 0x3f) 6))
        (shl_w 32 (Z.land (wrap 32 (Z.shiftr (send_address descriptor) 32)) 0xf) 12))
        (shl_w 32 (send_size descriptor) 16) in
    bytes ← put_u32 bytes offset first;
    put_u32 bytes (offset + 4) (wrap 32 (send_address descriptor)).

(** [for value in values { put(output, offset, value)?; offset += stride }]. *)
Fixpoint put_each {A} (put : list Z -> Z -> A -> msg (list Z)) (stride : Z) (output : list Z) (offset : Z)
    (values : list A) : msg (list Z * Z) :=
  match values with
  | [] => Ok (output, offset)
  | value :: values =>
      output ← put output offset value;
      put_each put stride output (offset + stride) values
  end.

(** [u32::try_from(n)]. *)
Definition try_u32 (n : Z) : option Z := if n <? 2 ^ 32 then Some n else None.

(** [encode] checks the lengths and computes the layout: whether there is a
    special header, the data offset, its aligned start, the data-word count and
    the total size. *)
Record ResponseLayout : Set := mkLayout {
  has_special : bool; layout_data_offset : Z; layout_data_start : Z; layout_data_words : Z; layout_total : Z }.

Definition response_layout (r : CmifResponse) : msg ResponseLayout :=
  if negb (is_domain r) && negb (bool_decide (domain_objects r = []))
  then Err "non-domain CMIF response contains domain objects"%string
  else
    _ ← bounded_count (len (response_copy_handles r)) MAX_HANDLE_COUNT "too many copied handles"%string;
    _ ← bounded_count (len (response_move_handles r)) MAX_HANDLE_COUNT "too many moved handles"%string;
    _ ← bounded_count (len (response_send_statics r)) MAX_DESCRIPTOR_COUNT "too many send statics"%string;
    let has_special := bool_decide (is_Some (response_pid r)) || negb (bool_decide (response_copy_handles r = []))
                       || negb (bool_decide (response_move_handles r = [])) in
    special_size ←
      (if has_special then
         handle_size ← checked_mul (len (response_copy_handles r) + len (response_move_handles r)) 4;
         Ok (4 + Z.b2z (bool_decide (is_Some (response_pid r))) * 8 + handle_size)
       else Ok 0);
    descriptor_size ← checked_mul (len (response_send_statics r)) 8;
    header_size ← checked_add special_size descriptor_size;
    data_offset ← checked_add 8 header_size;
    data_start ← align_up data_offset 16;
    let domain_header_size := Z.b2z (is_domain r) * 16 in
    header_size ← checked_add domain_header_size 16;
    object_size ← checked_mul (len (domain_objects r)) 4;
    payload_size ← checked_add (len (response_data r)) object_size;
    body_size ← checked_add header_size payload_size;
    reserved_size ← checked_add 16 body_size;
    data_word_bytes ← align_up reserved_size 4;
    let data_words := data_word_bytes / 4 in
    if 0x3ff <? data_words then Err "CMIF response exceeds HIPC data-word limit"%string
    else
      total ← checked_add data_offset data_word_bytes;
      if COMMAND_BUFFER_SIZE <? total then Err "CMIF response exceeds the TLS command buffer"%string
      else Ok (mkLayout has_special data_offset data_start data_words total).

(** The special header and the handles, and the offset after them. *)
Definition put_special (r : CmifResponse) (output : list Z) (offset : Z) : msg (list Z * Z) :=
  copy_count ← expect (try_u32 (len (response_copy_handles r)));
  move_count ← expect (try_u32 (len (response_move_handles r)));
  let special := Z.lor (Z.lor (Z.b2z (bool_decide (is_Some (response_pid r)))) (shl_w 32 copy_count 1))
                   (shl_w 32 move_count 5) in
  output ← put_u32 output offset special;
  let offset := offset + 4 in
  '(output, offset) ←
    match response_pid r with
    | Some pid => output ← put_u64 output offset pid; Ok (output, offset + 8)
    | None => Ok (output, offset)
    end;
  put_each put_u32 4 output offset (response_copy_handles r ++ response_move_handles r).

(** The CMIF header, the payload and the objects, from the aligned start. *)
Definition put_body (r : CmifResponse) (output : list Z) (cmif_offset : Z) : msg (list Z) :=
  '(output, cmif_offset) ←
    (if is_domain r then
       count ← ok_or (try_u32 (len (domain_objects r))) "domain object count overflows"%string;
       output ← put_u32 output cmif_offset count;
       Ok (output, cmif_offset + 16)
     else Ok (output, cmif_offset));
  output ← put_u32 output cmif_offset CMIF_OUT_MAGIC;
  output ← put_u32 output (cmif_offset + 4) 0;
  output ← put_u32 output (cmif_offset + 8) (response_result r);
  output ← put_u32 output (cmif_offset + 12) (response_token r);
  let payload_start := cmif_offset + 16 in
  payload_end ← checked_add payload_start (len (response_data r));
  _ ← expect (get_range output payload_start payload_end);
  let output := list_inserts (Z.to_nat payload_start) (response_data r) output in
  '(output, _) ← put_each put_u32 4 output payload_end (domain_objects r);
  Ok output.

Definition CmifResponse_encode (r : CmifResponse) : msg (list Z) :=
  layout ← response_layout r;
  let output := replicate (Z.to_nat (layout_total layout)) 0 in
  static_count ← expect (try_u32 (len (response_send_statics r)));
  let word0 := shl_w 32 static_count 16 in
  data_words ← expect (try_u32 (layout_data_words layout));
  let word1 := Z.lor data_words (shl_w 32 (Z.b2z (has_special layout)) 31) in
  output ← put_u32 output 0 word0;
  output ← put_u32 output 4 word1;
  '(output, offset) ← (if has_special layout then put_special r output 8 else Ok (output, 8));
  '(output, offset) ← put_each encode_send_static 8 output offset (response_send_statics r);
  if negb (offset =? layout_data_offset layout) then Panic
  else put_body r output (layout_data_start layout).
