(* ===== verification/HipcProps.v ===== *)
(** * HIPC requests: the wire format and what decoding accepts

    [reads raw o piece] says that the bytes at offset [o] of [raw] are [piece];
    each decoder of [HipcMessage] succeeds exactly when the bytes of its value are
    there.  Writing fills a zeroed buffer from the left. *)

From Stdlib Require Import ZArith Lia Bool.
From stdpp Require Import base numbers list option strings.
From S2P Require Import Prelude RustInt Bytes HipcMessage.
Local Open Scope Z_scope.

(** ** Pieces of a message *)

Definition reads (raw : list Z) (o : Z) (piece : list Z) : Prop := piece `prefix_of` drop (Z.to_nat o) raw.

Lemma reads_nil raw o : reads raw o [].
Proof. apply prefix_nil. Qed.

Lemma reads_app raw o a b : 0 <= o -> reads raw o (a ++ b) <-> reads raw o a /\ reads raw (o + len a) b.
Proof.
  intros Ho. unfold reads, len. rewrite Z2Nat.inj_add, Nat2Z.id, <- drop_drop by lia.
  generalize (drop (Z.to_nat o) raw) as l. intros l. split.
  - intros [k ->]. rewrite <- app_assoc. split; [by exists (b ++ k)|].
    rewrite drop_app_length. by exists k.
  - intros [[k ->] H]. rewrite drop_app_length in H. destruct H as [k' ->]. exists k'. by rewrite app_assoc.
Qed.

Lemma reads_length raw o piece : 0 <= o -> piece <> [] -> reads raw o piece -> o + len piece <= len raw.
Proof.
  intros Ho Hne H. apply prefix_length in H. rewrite length_drop in H. unfold len.
  destruct piece; [done|]. simpl in *. lia.
Qed.

(** A message that starts with its pieces. *)
Lemma reads_all raw piece : reads raw 0 piece <-> exists rest, raw = piece ++ rest.
Proof. done. Qed.

(** ** Integers *)

Lemma get_uint_spec n reason raw o v :
  (0 < n)%nat -> bytes_ok raw -> 0 <= o < 2 ^ 40 -> Z.of_nat n <= 16 ->
  get_uint n reason raw o = Ok v <-> fits (8 * Z.of_nat n) v /\ reads raw o (to_le_bytes n v).
Proof.
  intros Hn Hraw Ho Hn'. unfold get_uint, checked_add, RustInt.checked_add.
  rewrite (proj2 (Z.ltb_lt _ _)) by lia. cbn [ok_or mbind res_bind]. unfold get_range, reads.
  rewrite (proj2 (Z.leb_le o _)) by lia. cbn [andb].
  replace (Z.to_nat (o + Z.of_nat n - o)) with n by lia.
  destruct (Z.leb_spec (o + Z.of_nat n) (len raw)) as [Hle|Hgt]; cbn [ok_or mbind res_bind].
  - unfold try_into. rewrite decide_True by (apply slice_length; unfold len in Hle; lia).
    cbn [expect mbind res_bind]. pose proof (bytes_ok_slice raw (Z.to_nat o) n Hraw) as Hs.
    assert (length (slice raw (Z.to_nat o) n) = n) as Hl by (apply slice_length; unfold len in Hle; lia). split.
    + intros [= <-]. split.
      * rewrite <- Hl at 1. by apply from_le_bytes_fits.
      * rewrite <- Hl at 1. rewrite to_from_le_bytes by done. apply prefix_take.
    + intros [Hv Hp]. f_equal. unfold slice. destruct Hp as [k ->].
      rewrite take_app_le by (rewrite to_le_bytes_length; lia).
      rewrite take_to_le_bytes by lia. rewrite from_to_le_bytes. by apply wrap_small.
  - split; [done|]. intros [_ Hp]. apply prefix_length in Hp.
    rewrite to_le_bytes_length, length_drop in Hp. unfold len in Hgt. lia.
Qed.

Lemma get_uint_no_panic n reason raw o : 0 <= o -> get_uint n reason raw o <> Panic.
Proof.
  intros Ho. unfold get_uint, checked_add, RustInt.checked_add. case_match; cbn [ok_or mbind res_bind]; [|done].
  unfold get_range. case_match eqn:E; cbn [ok_or mbind res_bind]; [|done]. unfold try_into.
  apply andb_prop in E as [_ E%Z.leb_le]. unfold len in E.
  rewrite decide_True; [done|]. rewrite slice_length; lia.
Qed.

(** ** Sequences of steps *)

Lemma bind_ok {A B} (m : msg A) (f : A -> msg B) b : m ≫= f = Ok b <-> exists a, m = Ok a /\ f a = Ok b.
Proof. destruct m; cbn; naive_solver. Qed.

Lemma bind_no_panic {A B} (m : msg A) (f : A -> msg B) :
  m <> Panic -> (forall a, m = Ok a -> f a <> Panic) -> m ≫= f <> Panic.
Proof. destruct m; cbn; naive_solver. Qed.

Lemma checked_add_ok a b : 0 <= a < 2 ^ 40 -> 0 <= b < 2 ^ 40 -> checked_add a b = Ok (a + b).
Proof. intros. unfold checked_add, RustInt.checked_add. by rewrite (proj2 (Z.ltb_lt _ _)) by lia. Qed.

Lemma checked_add_inv a b c : checked_add a b = Ok c -> c = a + b.
Proof. unfold checked_add, RustInt.checked_add. case_match; cbn; congruence. Qed.

Lemma checked_add_no_panic a b : checked_add a b <> Panic.
Proof. unfold checked_add, RustInt.checked_add. by case_match. Qed.

(** A table whose entries are [stride] bytes long and decode exactly the bytes
    [words] of a good value. *)
Section Table.
Context {A : Type} (raw : list Z) (entry : Z -> msg (A * Z)) (words : A -> list Z) (good : A -> Prop) (stride : Z).
Context (Hstride : 0 < stride <= 16) (Hwords : forall a, len (words a) = stride).
Context (Hentry : forall o a next, 0 <= o < 2 ^ 30 ->
  entry o = Ok (a, next) <-> good a /\ reads raw o (words a) /\ next = o + stride).
Context (Hsafe : forall o, 0 <= o -> entry o <> Panic).

Lemma decode_table_spec n o values next : 0 <= o -> o + stride * Z.of_nat n < 2 ^ 30 ->
  decode_table entry n o = Ok (values, next) <->
  length values = n /\ Forall good values /\ reads raw o (mjoin (words <$> values)) /\ next = o + stride * len values.
Proof.
  revert o values next. induction n as [|n IH]; intros o values next Ho Hb; cbn [decode_table].
  { unfold len. split.
    - intros [= <- <-]. cbn. split_and!; [done|by constructor|apply reads_nil|lia].
    - intros (Hl & _ & _ & ->). apply nil_length_inv in Hl as ->. cbn. do 2 f_equal. lia. }
  rewrite bind_ok. split.
  - intros ([a o'] & Ha & H). apply Hentry in Ha as (Hg & Hr & ->); [|lia].
    apply bind_ok in H as ([l o'] & Hl & [= <- <-]). apply IH in Hl as (<- & Hgs & Hrs & ->); [|lia..].
    cbn. split_and!; [done|by constructor| |unfold len; cbn; lia].
    apply reads_app; [done|]. by rewrite Hwords.
  - intros (Hl & Hgs & Hr & ->). destruct values as [|a l]; [done|]. apply Forall_cons in Hgs as [Hg Hgs].
    cbn in Hr. apply reads_app in Hr as [Hr Hrs]; [|done]. rewrite Hwords in Hrs.
    exists (a, o + stride). split; [apply Hentry; [lia|done]|].
    apply bind_ok. exists (l, o + stride + stride * len l). split; [|do 2 f_equal; unfold len; cbn; lia].
    apply IH; [lia..|]. split_and!; [cbn in Hl; lia|done..].
Qed.

Lemma decode_table_no_panic n o : 0 <= o -> o + stride * Z.of_nat n < 2 ^ 30 -> decode_table entry n o <> Panic.
Proof.
  revert o. induction n as [|n IH]; intros o Ho Hb; cbn [decode_table]; [done|].
  apply bind_no_panic; [by apply Hsafe|]. intros [a o'] Ha. apply Hentry in Ha as (_ & _ & ->); [|lia].
  apply bind_no_panic; [apply IH; lia|]. by intros [].
Qed.
End Table.

(** ** Fields of a word *)

Lemma field_div v s w : 0 <= s -> 0 <= w -> field v s w = (v / 2 ^ s) mod 2 ^ w.
Proof.
  intros. unfold field. rewrite Z.shiftr_div_pow2 by done.
  replace (Z.shiftl 1 w - 1) with (Z.ones w) by (rewrite Z.ones_equiv, Z.shiftl_1_l; lia).
  by rewrite Z.land_ones.
Qed.

Lemma field_bounds v s w : 0 <= s -> 0 <= w -> 0 <= field v s w < 2 ^ w.
Proof. intros. rewrite field_div by done. apply Z.mod_pos_bound, pow2_pos. done. Qed.

Lemma lor_shift w a b : 0 <= w -> fits w a -> Z.lor a (Z.shiftl b w) = a + b * 2 ^ w.
Proof. intros. by rewrite add_high. Qed.

(** ** Writing *)

Lemma list_inserts_app {A} (w k l : list A) :
  (length k <= length l)%nat -> list_inserts (length w) k (w ++ l) = w ++ k ++ drop (length k) l.
Proof.
  intros H. apply list_eq. intros i. destruct (decide (i < length w)%nat) as [Hi|Hi].
  { rewrite list_lookup_inserts_lt by done. by rewrite !lookup_app_l. }
  rewrite (lookup_app_r w) by lia. destruct (decide (i < length w + length k)%nat) as [Hk|Hk].
  - rewrite list_lookup_inserts by (rewrite ?length_app; lia). by rewrite lookup_app_l by lia.
  - rewrite list_lookup_inserts_ge by lia. rewrite !lookup_app_r by lia. rewrite lookup_drop. f_equal. lia.
Qed.

(** The buffer after [w] has been written: the rest is still zero. *)
Definition filled (w : list Z) (total : Z) : list Z := w ++ replicate (Z.to_nat (total - len w)) 0.

Lemma len_filled w total : len w <= total -> len (filled w total) = total.
Proof. intros. unfold filled. rewrite len_app, len_replicate. pose proof (len_nonneg w). lia. Qed.

Lemma get_range_filled w total a b : 0 <= a <= b -> b <= total -> len w <= total -> is_Some (get_range (filled w total) a b).
Proof.
  intros. unfold get_range. rewrite len_filled by done.
  rewrite !(proj2 (Z.leb_le _ _)) by lia. by eexists.
Qed.

(** Writing the next bytes. *)
Lemma inserts_filled w total k : len w + len k <= total ->
  list_inserts (Z.to_nat (len w)) k (filled w total) = filled (w ++ k) total.
Proof.
  intros H. unfold filled. unfold len at 1. rewrite Nat2Z.id, list_inserts_app.
  - rewrite drop_replicate, <- app_assoc. do 3 f_equal. rewrite len_app. unfold len in *. lia.
  - rewrite length_replicate. unfold len in *. lia.
Qed.

(** Leaving a gap of zeros. *)
Lemma filled_skip w total gap : 0 <= gap -> len w + gap <= total ->
  filled w total = filled (w ++ replicate (Z.to_nat gap) 0) total.
Proof.
  intros. unfold filled. rewrite <- app_assoc, <- replicate_add. do 2 f_equal.
  rewrite len_app, len_replicate. lia.
Qed.

Lemma put_uint_filled n reason w total o v : o = len w -> len w + Z.of_nat n <= total -> total < 2 ^ 30 ->
  put_uint n reason (filled w total) o v = Ok (filled (w ++ to_le_bytes n v) total).
Proof.
  intros -> Hn Ht. pose proof (len_nonneg w). unfold put_uint. rewrite checked_add_ok by lia. cbn [mbind res_bind].
  edestruct (get_range_filled w total (len w) (len w + Z.of_nat n)) as [? E]; [lia..|].
  rewrite E. cbn [ok_or mbind res_bind]. rewrite inserts_filled; [done|]. rewrite len_to_le_bytes. lia.
Qed.

Lemma put_u32_filled w total o v : o = len w -> len w + 4 <= total -> total < 2 ^ 30 ->
  put_u32 (filled w total) o v = Ok (filled (w ++ to_le_bytes 4 v) total).
Proof. intros. apply put_uint_filled; lia. Qed.

Lemma put_u64_filled w total o v : o = len w -> len w + 8 <= total -> total < 2 ^ 30 ->
  put_u64 (filled w total) o v = Ok (filled (w ++ to_le_bytes 8 v) total).
Proof. intros. apply put_uint_filled; lia. Qed.

(** A sequence of values, each written as [words] when [good], and rejected with
    the same error otherwise. *)
Section PutEach.
Context {A : Type} (put : list Z -> Z -> A -> msg (list Z)) (words : A -> list Z) (stride total : Z).
Context (Hstride : 0 <= stride) (Hwords : forall a, len (words a) = stride).
Context (pre : A -> Prop) (good : A -> bool) (reason : MessageError).
Context (Hput : forall w a, pre a -> len w + stride <= total ->
  put (filled w total) (len w) a = if good a then Ok (filled (w ++ words a) total) else Err reason).

Lemma put_each_filled w o values : Forall pre values -> o = len w -> len w + stride * len values <= total ->
  put_each put stride (filled w total) o values =
    if forallb good values then Ok (filled (w ++ mjoin (words <$> values)) total, o + stride * len values)
    else Err reason.
Proof.
  intros Hpre. revert w o. induction Hpre as [|a l Ha _ IH]; intros w o -> Hb; cbn [put_each forallb].
  { cbn. rewrite app_nil_r. unfold len. cbn. do 2 f_equal. lia. }
  assert (len (a :: l) = len l + 1) as E by (unfold len; cbn; lia). rewrite E in *. pose proof (len_nonneg l).
  rewrite Hput by (done || nia). destruct (good a); cbn [mbind res_bind andb]; [|done].
  rewrite IH; [|rewrite len_app, Hwords; lia..]. cbn. rewrite app_assoc.
  destruct (forallb good l); [|done]. do 2 f_equal. lia.
Qed.
End PutEach.

(** ** The layout of HIPC descriptors, tables and the special header

    Each is written out as bytes, and its decoder succeeds on exactly those. *)

Abbreviation le4 := (to_le_bytes 4).
Abbreviation le8 := (to_le_bytes 8).

(** ** The layout of descriptors *)

Definition send_static_words (d : SendStaticDescriptor) : list Z :=
  le4 (send_index d + send_address d / 2 ^ 36 * 2 ^ 6 + send_address d / 2 ^ 32 mod 2 ^ 4 * 2 ^ 12 + send_size d * 2 ^ 16)
  ++ le4 (send_address d mod 2 ^ 32).

Definition send_static_ok (d : SendStaticDescriptor) : Prop :=
  fits 42 (send_address d) /\ fits 16 (send_size d) /\ fits 6 (send_index d).

Definition mode_bits (m : BufferMode) : Z :=
  match m with Normal => 0 | NonSecure => 1 | Invalid => 2 | NonDevice => 3 end.

Definition buffer_words (b : BufferDescriptor) : list Z :=
  le4 (buffer_size b mod 2 ^ 32) ++ le4 (buffer_address b mod 2 ^ 32) ++
  le4 (mode_bits (buffer_mode b) + buffer_address b / 2 ^ 36 * 2 ^ 2 + buffer_size b / 2 ^ 32 * 2 ^ 24 +
       buffer_address b / 2 ^ 32 mod 2 ^ 4 * 2 ^ 28).

Definition buffer_ok (b : BufferDescriptor) : Prop := fits 58 (buffer_address b) /\ fits 36 (buffer_size b).

Definition receive_static_words (d : ReceiveStaticDescriptor) : list Z :=
  le4 (receive_address d mod 2 ^ 32) ++ le4 (receive_address d / 2 ^ 32 + receive_size d * 2 ^ 16).

Definition receive_static_ok (d : ReceiveStaticDescriptor) : Prop :=
  fits 48 (receive_address d) /\ fits 16 (receive_size d).

Lemma len_descriptor_words : (forall d, len (send_static_words d) = 8) /\ (forall b, len (buffer_words b) = 12) /\
  (forall d, len (receive_static_words d) = 8) /\ (forall v, len (le4 v) = 4).
Proof. done. Qed.

(** ** Entries *)

Section Entries.
Context (raw : list Z) (Hraw : bytes_ok raw).

Lemma get_u32_spec o v : 0 <= o < 2 ^ 30 + 16 -> get_u32 raw o = Ok v <-> fits 32 v /\ reads raw o (le4 v).
Proof. intros. apply get_uint_spec; [lia|done|lia|done]. Qed.

Lemma get_u32_ok o v : fits 32 v -> reads raw o (le4 v) -> 0 <= o < 2 ^ 30 + 16 -> get_u32 raw o = Ok v.
Proof. intros. by apply get_u32_spec. Qed.

(** Two words in a row. *)
Lemma reads_le4_2 o a b : 0 <= o -> reads raw o (le4 a ++ le4 b) <-> reads raw o (le4 a) /\ reads raw (o + 4) (le4 b).
Proof. intros. by rewrite reads_app. Qed.

Lemma reads_le4_3 o a b c : 0 <= o ->
  reads raw o (le4 a ++ le4 b ++ le4 c) <-> reads raw o (le4 a) /\ reads raw (o + 4) (le4 b) /\ reads raw (o + 8) (le4 c).
Proof.
  intros. rewrite reads_app by done. change (len (le4 a)) with 4. rewrite reads_le4_2 by lia.
  by replace (o + 4 + 4) with (o + 8) by lia.
Qed.

Lemma word_entry_spec o v next : 0 <= o < 2 ^ 30 ->
  word_entry raw o = Ok (v, next) <-> fits 32 v /\ reads raw o (le4 v) /\ next = o + 4.
Proof.
  intros Ho. unfold word_entry. rewrite checked_add_ok by lia. cbn [mbind res_bind]. rewrite bind_ok.
  setoid_rewrite get_u32_spec; [|lia]. naive_solver.
Qed.

Ltac field_arith := rewrite ?field_div, ?Z.shiftr_div_pow2, ?Z.shiftl_mul_pow2 by lia; unfold wrap; unfold fits in *;
  Z.to_euclidean_division_equations; lia.

(** Fields and the words they are packed in. *)
Lemma send_static_fields first low : fits 32 first -> fits 32 low ->
  let d := mkSendStatic (Z.lor (Z.lor low (Z.shiftl (field first 12 4) 32)) (Z.shiftl (field first 6 6) 36))
             (wrap 16 (Z.shiftr first 16)) (Z.land first 0x3f) in
  send_static_ok d /\ send_static_words d = le4 first ++ le4 low.
Proof.
  intros Hf Hl d. unfold d. pose proof (field_bounds first 12 4). pose proof (field_bounds first 6 6).
  change 0x3f with (Z.ones 6). rewrite Z.land_ones by lia.
  rewrite (lor_shift 32) by done. rewrite (lor_shift 36) by (unfold fits in *; lia).
  unfold send_static_ok, send_static_words. cbn [send_address send_size send_index]. split.
  - split_and!; field_arith.
  - f_equal; f_equal; field_arith.
Qed.

Lemma send_static_of_fields d : send_static_ok d ->
  let first := send_index d + send_address d / 2 ^ 36 * 2 ^ 6 + send_address d / 2 ^ 32 mod 2 ^ 4 * 2 ^ 12 + send_size d * 2 ^ 16 in
  let low := send_address d mod 2 ^ 32 in
  fits 32 first /\ fits 32 low /\
  d = mkSendStatic (Z.lor (Z.lor low (Z.shiftl (field first 12 4) 32)) (Z.shiftl (field first 6 6) 36))
        (wrap 16 (Z.shiftr first 16)) (Z.land first 0x3f).
Proof.
  destruct d as [a s i]. intros (Ha & Hs & Hi) first low. cbn [send_address send_size send_index] in *.
  assert (fits 32 first) as Hf by (unfold first; field_arith).
  assert (fits 32 low) as Hl by (by apply wrap_fits). split_and!; [done..|].
  pose proof (field_bounds first 12 4). pose proof (field_bounds first 6 6).
  change 0x3f with (Z.ones 6). rewrite Z.land_ones by lia.
  rewrite (lor_shift 32) by done. rewrite (lor_shift 36) by (unfold fits in *; lia).
  unfold first, low. f_equal; field_arith.
Qed.

Lemma send_static_entry_spec o d next : 0 <= o < 2 ^ 30 ->
  send_static_entry raw o = Ok (d, next) <-> send_static_ok d /\ reads raw o (send_static_words d) /\ next = o + 8.
Proof.
  intros Ho. unfold send_static_entry. rewrite !checked_add_ok by lia. cbn [mbind res_bind]. split.
  - intros (first & [Hf Hr]%get_u32_spec & (low & [Hl Hr']%get_u32_spec & [= <- <-])%bind_ok)%bind_ok; [|lia..].
    destruct (send_static_fields first low Hf Hl) as [Hok ->]. rewrite reads_le4_2 by lia. done.
  - intros (Hok & Hr & ->). destruct (send_static_of_fields d Hok) as (Hf & Hl & E).
    unfold send_static_words in Hr. rewrite reads_le4_2 in Hr by lia. destruct Hr as [Hr1 Hr2].
    rewrite (get_u32_ok _ _ Hf Hr1), (get_u32_ok _ _ Hl Hr2) by lia. cbn [mbind res_bind]. by rewrite <- E.
Qed.

Lemma mode_from_raw m v : BufferMode_from_raw v = Ok m <-> v = mode_bits m.
Proof.
  unfold BufferMode_from_raw. destruct m; cbn; split; try (by intros ->); repeat case_match; naive_solver.
Qed.

Lemma buffer_fields size_low address_low high m : fits 32 size_low -> fits 32 address_low -> fits 32 high ->
  field high 0 2 = mode_bits m ->
  let b := mkBuffer
    (Z.lor (Z.lor address_low (Z.shiftl (field high 28 4) 32)) (Z.shiftl (field high 2 22) 36))
    (Z.lor size_low (Z.shiftl (field high 24 4) 32)) m in
  buffer_ok b /\ buffer_words b = le4 size_low ++ le4 address_low ++ le4 high.
Proof.
  intros Hs Ha Hh Hm b. unfold b. pose proof (field_bounds high 28 4). pose proof (field_bounds high 2 22).
  rewrite !(lor_shift 32) by done. rewrite (lor_shift 36) by (unfold fits in *; lia).
  unfold buffer_ok, buffer_words. cbn [buffer_address buffer_size buffer_mode]. rewrite <- Hm. clear Hm b. split.
  - split; field_arith.
  - f_equal; [|f_equal]; f_equal; field_arith.
Qed.

Lemma buffer_of_fields b : buffer_ok b ->
  let size_low := buffer_size b mod 2 ^ 32 in
  let address_low := buffer_address b mod 2 ^ 32 in
  let high := mode_bits (buffer_mode b) + buffer_address b / 2 ^ 36 * 2 ^ 2 + buffer_size b / 2 ^ 32 * 2 ^ 24 +
              buffer_address b / 2 ^ 32 mod 2 ^ 4 * 2 ^ 28 in
  fits 32 size_low /\ fits 32 address_low /\ fits 32 high /\ field high 0 2 = mode_bits (buffer_mode b) /\
  b = mkBuffer
    (Z.lor (Z.lor address_low (Z.shiftl (field high 28 4) 32)) (Z.shiftl (field high 2 22) 36))
    (Z.lor size_low (Z.shiftl (field high 24 4) 32)) (buffer_mode b).
Proof.
  destruct b as [a s m]. intros (Ha & Hs) size_low address_low high. cbn [buffer_address buffer_size buffer_mode] in *.
  assert (0 <= mode_bits m <= 3) as Hm by (by destruct m).
  assert (fits 32 size_low) as H1 by (by apply wrap_fits).
  assert (fits 32 address_low) as H2 by (by apply wrap_fits).
  assert (fits 32 high) as H3 by (unfold high; field_arith). split_and!; [done..| |].
  - unfold high. field_arith.
  - pose proof (field_bounds high 28 4). pose proof (field_bounds high 2 22).
    rewrite !(lor_shift 32) by done. rewrite (lor_shift 36) by (unfold fits in *; lia).
    unfold high, size_low, address_low. f_equal; field_arith.
Qed.

Lemma buffer_entry_spec o b next : 0 <= o < 2 ^ 30 ->
  buffer_entry raw o = Ok (b, next) <-> buffer_ok b /\ reads raw o (buffer_words b) /\ next = o + 12.
Proof.
  intros Ho. unfold buffer_entry. rewrite !checked_add_ok by lia. cbn [mbind res_bind].
  split.
  - intros (size_low & [Hs Hr]%get_u32_spec & (low & [Hl Hr']%get_u32_spec & (high & [Hh Hr'']%get_u32_spec &
      (m & Hm%mode_from_raw & [= <- <-])%bind_ok)%bind_ok)%bind_ok)%bind_ok; [|lia..].
    destruct (buffer_fields size_low low high m Hs Hl Hh Hm) as [Hok ->].
    by rewrite reads_le4_3 by lia.
  - intros (Hok & Hr & ->). destruct (buffer_of_fields b Hok) as (Hs & Hl & Hh & Hm & E).
    unfold buffer_words in Hr. rewrite reads_le4_3 in Hr by lia. destruct Hr as (Hr1 & Hr2 & Hr).
    rewrite (get_u32_ok _ _ Hs Hr1), (get_u32_ok _ _ Hl Hr2), (get_u32_ok _ _ Hh Hr) by lia. cbn [mbind res_bind].
    rewrite (proj2 (mode_from_raw _ _) Hm). cbn [mbind res_bind]. by rewrite <- E.
Qed.

Lemma receive_fields low high : fits 32 low -> fits 32 high ->
  let d := mkReceiveStatic (Z.lor low (Z.shiftl (Z.land high 0xffff) 32)) (wrap 16 (Z.shiftr high 16)) in
  receive_static_ok d /\ receive_static_words d = le4 low ++ le4 high.
Proof.
  intros Hl Hh d. unfold d. change 0xffff with (Z.ones 16). rewrite Z.land_ones by lia.
  rewrite (lor_shift 32) by done. unfold receive_static_ok, receive_static_words.
  cbn [receive_address receive_size]. split.
  - split; field_arith.
  - f_equal; f_equal; field_arith.
Qed.

Lemma receive_of_fields d : receive_static_ok d ->
  let low := receive_address d mod 2 ^ 32 in
  let high := receive_address d / 2 ^ 32 + receive_size d * 2 ^ 16 in
  fits 32 low /\ fits 32 high /\
  d = mkReceiveStatic (Z.lor low (Z.shiftl (Z.land high 0xffff) 32)) (wrap 16 (Z.shiftr high 16)).
Proof.
  destruct d as [a s]. intros (Ha & Hs) low high. cbn [receive_address receive_size] in *.
  assert (fits 32 low) as Hl by (by apply wrap_fits).
  assert (fits 32 high) as Hh by (unfold high; field_arith). split_and!; [done..|].
  change 0xffff with (Z.ones 16). rewrite Z.land_ones by lia. rewrite (lor_shift 32) by done.
  unfold high, low. f_equal; field_arith.
Qed.

Lemma receive_static_entry_spec o d next : 0 <= o < 2 ^ 30 ->
  receive_static_entry raw o = Ok (d, next) <->
  receive_static_ok d /\ reads raw o (receive_static_words d) /\ next = o + 8.
Proof.
  intros Ho. unfold receive_static_entry. rewrite !checked_add_ok by lia. cbn [mbind res_bind]. split.
  - intros (low & [Hf Hr]%get_u32_spec & (high & [Hl Hr']%get_u32_spec & [= <- <-])%bind_ok)%bind_ok; [|lia..].
    destruct (receive_fields low high Hf Hl) as [Hok ->]. rewrite reads_le4_2 by lia. done.
  - intros (Hok & Hr & ->). destruct (receive_of_fields d Hok) as (Hf & Hl & E).
    unfold receive_static_words in Hr. rewrite reads_le4_2 in Hr by lia. destruct Hr as [Hr1 Hr2].
    rewrite (get_u32_ok _ _ Hf Hr1), (get_u32_ok _ _ Hl Hr2) by lia. cbn [mbind res_bind]. by rewrite <- E.
Qed.

(** ** Tables *)

Lemma bounded_count_ok count maximum reason : bounded_count count maximum reason = Ok tt <-> count <= maximum.
Proof. unfold bounded_count. destruct (Z.leb_spec count maximum); split; done || lia. Qed.

Lemma entries_no_panic o : 0 <= o ->
  word_entry raw o <> Panic /\ send_static_entry raw o <> Panic /\ buffer_entry raw o <> Panic /\
  receive_static_entry raw o <> Panic.
Proof.
  intros Ho.
  assert (forall x, 0 <= x -> get_u32 raw x <> Panic) as Hg by (intros; by apply get_uint_no_panic).
  assert (forall h, BufferMode_from_raw (field h 0 2) <> Panic) as Hm.
  { intros h. pose proof (field_bounds h 0 2 ltac:(lia) ltac:(lia)) as Hb. unfold BufferMode_from_raw.
    assert (field h 0 2 = 0 \/ field h 0 2 = 1 \/ field h 0 2 = 2 \/ field h 0 2 = 3) as C by lia.
    destruct C as [->|[->|[->| ->]]]; done. }
  split_and!; unfold word_entry, send_static_entry, buffer_entry, receive_static_entry;
  repeat (apply bind_no_panic; [by (apply Hg; lia) || apply checked_add_no_panic || apply Hm|];
    intros ? ?; try match goal with H : checked_add _ _ = Ok _ |- _ => apply checked_add_inv in H; subst end); done.
Qed.
End Entries.

Definition words_of : list Z -> list Z := fun l => mjoin (le4 <$> l).

Lemma len_mjoin {A} (words : A -> list Z) stride l : (forall a, len (words a) = stride) -> len (mjoin (words <$> l)) = stride * len l.
Proof.
  intros Hw. induction l as [|a l IH]; [unfold len; cbn; lia|].
  change (mjoin (words <$> a :: l)) with (words a ++ mjoin (words <$> l)). rewrite len_app, Hw, IH. unfold len. cbn. lia.
Qed.

Section Tables.
Context (raw : list Z) (Hraw : bytes_ok raw).

(** A table decoder after its count check. *)
Lemma bounded_table {A} (entry : Z -> msg (A * Z)) (words : A -> list Z) (good : A -> Prop) stride maximum reason count o l next :
  0 < stride <= 16 -> (forall a, len (words a) = stride) ->
  (forall o a next, 0 <= o < 2 ^ 30 -> entry o = Ok (a, next) <-> good a /\ reads raw o (words a) /\ next = o + stride) ->
  0 <= count <= maximum -> maximum <= 2 ^ 20 -> 0 <= o < 2 ^ 20 ->
  (_ ← bounded_count count maximum reason; decode_table entry (Z.to_nat count) o) = Ok (l, next) <->
  len l = count /\ Forall good l /\ reads raw o (mjoin (words <$> l)) /\ next = o + stride * len l.
Proof.
  intros Hs Hw He Hc Hm Ho. rewrite (proj2 (bounded_count_ok count maximum reason)) by lia. cbn [mbind res_bind].
  rewrite (decode_table_spec raw entry words good stride) by (done || nia). unfold len.
  split; intros (Hl & H); (split; [lia|done]).
Qed.

Lemma decode_words_spec o count l next : 0 <= count <= 255 -> 0 <= o < 2 ^ 20 ->
  decode_words raw o count = Ok (l, next) <->
  len l = count /\ Forall (fits 32) l /\ reads raw o (words_of l) /\ next = o + 4 * len l.
Proof. intros. apply bounded_table; [done|done|intros; by apply word_entry_spec|done..]. Qed.

Lemma decode_send_statics_spec o count l next : 0 <= count <= 15 -> 0 <= o < 2 ^ 20 ->
  decode_send_statics raw o count = Ok (l, next) <->
  len l = count /\ Forall send_static_ok l /\ reads raw o (mjoin (send_static_words <$> l)) /\ next = o + 8 * len l.
Proof. intros. apply bounded_table; [done|done|intros; by apply send_static_entry_spec|done..]. Qed.

Lemma decode_buffers_spec o count l next : 0 <= count <= 15 -> 0 <= o < 2 ^ 20 ->
  decode_buffers raw o count = Ok (l, next) <->
  len l = count /\ Forall buffer_ok l /\ reads raw o (mjoin (buffer_words <$> l)) /\ next = o + 12 * len l.
Proof. intros. apply bounded_table; [done|done|intros; by apply buffer_entry_spec|done..]. Qed.

Lemma decode_receive_statics_spec o count l next : 0 <= count <= 13 -> 0 <= o < 2 ^ 20 ->
  decode_receive_statics raw o count = Ok (l, next) <->
  len l = count /\ Forall receive_static_ok l /\ reads raw o (mjoin (receive_static_words <$> l)) /\ next = o + 8 * len l.
Proof. intros. apply bounded_table; [done|done|intros; by apply receive_static_entry_spec|done..]. Qed.

(** The same, as equations for a table that is there. *)
Lemma decode_words_ok o l : len l <= 255 -> 0 <= o < 2 ^ 20 -> Forall (fits 32) l -> reads raw o (words_of l) ->
  decode_words raw o (len l) = Ok (l, o + 4 * len l).
Proof. intros. apply decode_words_spec; [split; [apply len_nonneg|done]|done|done]. Qed.

Lemma decode_send_statics_ok o l : len l <= 15 /\ Forall send_static_ok l -> 0 <= o < 2 ^ 20 ->
  reads raw o (mjoin (send_static_words <$> l)) -> decode_send_statics raw o (len l) = Ok (l, o + 8 * len l).
Proof. intros []. intros. apply decode_send_statics_spec; [split; [apply len_nonneg|done]|done|done]. Qed.

Lemma decode_buffers_ok o l : len l <= 15 /\ Forall buffer_ok l -> 0 <= o < 2 ^ 20 ->
  reads raw o (mjoin (buffer_words <$> l)) -> decode_buffers raw o (len l) = Ok (l, o + 12 * len l).
Proof. intros []. intros. apply decode_buffers_spec; [split; [apply len_nonneg|done]|done|done]. Qed.

(** No table decoder panics, whatever the bytes. *)
Lemma tables_no_panic o count : 0 <= o < 2 ^ 20 -> 0 <= count <= 255 ->
  decode_words raw o count <> Panic /\ decode_send_statics raw o count <> Panic /\
  decode_buffers raw o count <> Panic /\ decode_receive_statics raw o count <> Panic.
Proof.
  intros Ho Hc. pose proof (entries_no_panic raw) as He.
  split_and!; (apply bind_no_panic; [unfold bounded_count; by case_match|]; intros _ _).
  - apply (decode_table_no_panic raw _ le4 (fits 32) 4); [done|intros; by apply word_entry_spec|intros; by apply He|lia..].
  - apply (decode_table_no_panic raw _ send_static_words send_static_ok 8);
      [done|intros; by apply send_static_entry_spec|intros; by apply He|lia..].
  - apply (decode_table_no_panic raw _ buffer_words buffer_ok 12);
      [done|intros; by apply buffer_entry_spec|intros; by apply He|lia..].
  - apply (decode_table_no_panic raw _ receive_static_words receive_static_ok 8);
      [done|intros; by apply receive_static_entry_spec|intros; by apply He|lia..].
Qed.

(** ** The special header *)

Definition special_words (special : bool) (p : option Z) (copies moves : Z) : list Z :=
  if special then le4 (Z.b2z (bool_decide (is_Some p)) + copies * 2 ^ 1 + moves * 2 ^ 5) ++ from_option le8 [] p else [].

Definition special_ok (special : bool) (p : option Z) (copies moves : Z) : Prop :=
  0 <= copies <= 15 /\ 0 <= moves <= 15 /\ from_option (fits 64) True p /\
  (special = false -> p = None /\ copies = 0 /\ moves = 0).

Lemma special_fields w : fits 32 w -> Z.shiftr w 9 = 0 ->
  w = Z.b2z (negb (Z.land w 1 =? 0)) + field w 1 4 * 2 ^ 1 + field w 5 4 * 2 ^ 5.
Proof.
  intros Hw H9. rewrite Z.shiftr_div_pow2 in H9 by lia. change (Z.land w 1) with (Z.land w (Z.ones 1)).
  rewrite Z.land_ones, !field_div by lia. unfold fits in *. destruct (Z.eqb_spec (w mod 2 ^ 1) 0); cbn [negb Z.b2z];
    Z.to_euclidean_division_equations; lia.
Qed.

Lemma special_of_fields (b : bool) copies moves : 0 <= copies <= 15 -> 0 <= moves <= 15 ->
  let w := Z.b2z b + copies * 2 ^ 1 + moves * 2 ^ 5 in
  fits 32 w /\ Z.shiftr w 9 = 0 /\ negb (Z.land w 1 =? 0) = b /\ field w 1 4 = copies /\ field w 5 4 = moves.
Proof.
  intros Hc Hm w. assert (0 <= Z.b2z b <= 1) as Hb by (by destruct b).
  change (Z.land w 1) with (Z.land w (Z.ones 1)). rewrite Z.shiftr_div_pow2, Z.land_ones, !field_div by lia.
  unfold w, fits. assert ((Z.b2z b + copies * 2 ^ 1 + moves * 2 ^ 5) mod 2 ^ 1 = Z.b2z b) as ->
    by (Z.to_euclidean_division_equations; lia).
  split_and!; try (by destruct b); Z.to_euclidean_division_equations; lia.
Qed.

Lemma get_u64_spec o v : 0 <= o < 2 ^ 30 -> get_u64 raw o = Ok v <-> fits 64 v /\ reads raw o (le8 v).
Proof. intros. apply get_uint_spec; [lia|done|lia|done]. Qed.

Lemma special_header_spec special p copies moves next :
  special_header raw special 8 = Ok (p, copies, moves, next) <->
  special_ok special p copies moves /\ reads raw 8 (special_words special p copies moves) /\
  next = 8 + len (special_words special p copies moves).
Proof.
  unfold special_header, special_ok, special_words. destruct special; [|split].
  2: { intros [= <- <- <- <-]. split_and!; try done. apply reads_nil. }
  2: { intros ((_ & _ & _ & H) & _ & ->). by destruct H as (-> & -> & ->). }
  rewrite checked_add_ok by lia. cbn [mbind res_bind]. split.
  - intros (w & [Hw Hr]%get_u32_spec & H)%bind_ok; [|done..].
    destruct (Z.eqb_spec (Z.shiftr w 9) 0) as [H9|]; [|done]. cbn [negb] in H.
    pose proof (special_fields w Hw H9) as E. pose proof (field_bounds w 1 4). pose proof (field_bounds w 5 4).
    destruct (negb (Z.land w 1 =? 0)); cbn [Z.b2z] in E.
    + apply bind_ok in H as (v & [Hv Hr']%get_u64_spec & H); [|done..].
      rewrite checked_add_ok in H by lia. injection H as <- <- <- <-. rewrite bool_decide_true by done.
      cbn [Z.b2z from_option]. rewrite <- E. split_and!; [lia|lia|lia|lia|done|done|by apply reads_app|].
      by rewrite len_app, !len_to_le_bytes.
    + injection H as <- <- <- <-. rewrite bool_decide_false by (by intros []).
      cbn [Z.b2z from_option]. rewrite app_nil_r. rewrite <- E. split_and!; [lia|lia|lia|lia|done|done|done|].
      by rewrite len_to_le_bytes.
  - intros ((Hc & Hm & Hp & _) & Hr & ->). apply reads_app in Hr as [Hr Hr']; [|done].
    rewrite len_to_le_bytes in Hr'. rewrite len_app, len_to_le_bytes.
    destruct (special_of_fields (bool_decide (is_Some p)) copies moves Hc Hm) as (Hw & E9 & E1 & E2 & E3).
    rewrite (get_u32_ok raw Hraw _ _ Hw Hr) by done. cbn [mbind res_bind]. rewrite E9, E1, E2, E3.
    change (negb (0 =? 0)) with false. cbv iota. destruct p as [v|]; [|done].
    rewrite bool_decide_true by done. rewrite (proj2 (get_u64_spec (8 + 4) v ltac:(lia)) (conj Hp Hr')). done.
Qed.
End Tables.

(** ** HIPC requests are decoded exactly

    The wire layout of a message is written out once, as bytes ([hipc_layout]);
    decoding succeeds on exactly the messages with that layout. *)

(** ** The layout of a message *)

Definition receive_mode (r : ReceiveStatics) : Z :=
  match r with ReceiveNone => 0 | ReceiveAuto => 2 | ReceiveEntries l => 2 + len l end.

Definition receive_words (r : ReceiveStatics) : list Z :=
  match r with ReceiveEntries l => mjoin (receive_static_words <$> l) | _ => [] end.

Definition receive_ok (r : ReceiveStatics) : Prop :=
  match r with ReceiveEntries l => 1 <= len l <= 13 /\ Forall receive_static_ok l | _ => True end.

Definition header_words (h : HipcRequest) (special : bool) (ignored data_words : Z) : list Z :=
  le4 (command_type h + len (send_statics h) * 2 ^ 16 + len (send_buffers h) * 2 ^ 20 +
       len (receive_buffers h) * 2 ^ 24 + len (exchange_buffers h) * 2 ^ 28) ++
  le4 (data_words + receive_mode (receive_statics h) * 2 ^ 10 + ignored * 2 ^ 20 + Z.b2z special * 2 ^ 31).

(** What lies between the header words and the data words. *)
Definition table_words (h : HipcRequest) : list Z :=
  words_of (copy_handles h) ++ words_of (move_handles h) ++ mjoin (send_static_words <$> send_statics h) ++
  mjoin (buffer_words <$> send_buffers h) ++ mjoin (buffer_words <$> receive_buffers h) ++
  mjoin (buffer_words <$> exchange_buffers h).

Definition special_of (h : HipcRequest) (special : bool) : list Z :=
  special_words special (pid h) (len (copy_handles h)) (len (move_handles h)).

(** A message with [data] in its data words; [ignored] are the eleven header bits
    the decoder does not look at. *)
Definition hipc_layout (h : HipcRequest) (special : bool) (ignored : Z) (data : list Z) : list Z :=
  header_words h special ignored (len data / 4) ++ special_of h special ++ table_words h ++ data ++
  receive_words (receive_statics h).

Record hipc_ok (h : HipcRequest) (special : bool) (ignored : Z) (data : list Z) : Prop := {
  ok_type : fits 16 (command_type h);
  ok_special : special_ok special (pid h) (len (copy_handles h)) (len (move_handles h));
  ok_copies : Forall (fits 32) (copy_handles h);
  ok_moves : Forall (fits 32) (move_handles h);
  ok_statics : len (send_statics h) <= 15 /\ Forall send_static_ok (send_statics h);
  ok_send : len (send_buffers h) <= 15 /\ Forall buffer_ok (send_buffers h);
  ok_receive : len (receive_buffers h) <= 15 /\ Forall buffer_ok (receive_buffers h);
  ok_exchange : len (exchange_buffers h) <= 15 /\ Forall buffer_ok (exchange_buffers h);
  ok_receive_statics : receive_ok (receive_statics h);
  ok_ignored : fits 11 ignored;
  ok_data : len data mod 4 = 0 /\ len data < 2 ^ 12 }.

(** Where the decoder says the parts are. *)
Record hipc_offsets (raw : list Z) (h : HipcRequest) (special : bool) (data : list Z) : Prop := {
  at_raw : raw_bytes h = raw;
  at_handles : handle_offset h = 8 + len (special_of h special);
  at_data : data_offset h = handle_offset h + len (table_words h);
  at_end : data_end h = data_offset h + len data }.

(** ** Header words *)

Lemma word0_fields w : fits 32 w ->
  w = wrap 16 w + field w 16 4 * 2 ^ 16 + field w 20 4 * 2 ^ 20 + field w 24 4 * 2 ^ 24 + field w 28 4 * 2 ^ 28.
Proof. intros Hw. rewrite !field_div by lia. unfold wrap, fits in *. Z.to_euclidean_division_equations. lia. Qed.

Lemma word0_of_fields t a b c d : fits 16 t -> 0 <= a <= 15 -> 0 <= b <= 15 -> 0 <= c <= 15 -> 0 <= d <= 15 ->
  let w := t + a * 2 ^ 16 + b * 2 ^ 20 + c * 2 ^ 24 + d * 2 ^ 28 in
  fits 32 w /\ wrap 16 w = t /\ field w 16 4 = a /\ field w 20 4 = b /\ field w 24 4 = c /\ field w 28 4 = d.
Proof.
  intros Ht Ha Hb Hc Hd w. rewrite !field_div by lia. unfold w, wrap, fits in *.
  split_and!; Z.to_euclidean_division_equations; lia.
Qed.

Lemma word1_fields w : fits 32 w -> field w 14 6 = 0 ->
  exists ignored, fits 11 ignored /\
    w = field w 0 10 + field w 10 4 * 2 ^ 10 + ignored * 2 ^ 20 + Z.b2z (negb (Z.shiftr w 31 =? 0)) * 2 ^ 31.
Proof.
  intros Hw H14. exists (field w 20 11). split; [by apply field_bounds|].
  rewrite Z.shiftr_div_pow2 by lia. rewrite !field_div in * by lia. unfold fits in *.
  destruct (Z.eqb_spec (w / 2 ^ 31) 0); cbn [negb Z.b2z]; Z.to_euclidean_division_equations; lia.
Qed.

Lemma word1_of_fields n m i (s : bool) : fits 10 n -> 0 <= m <= 15 -> fits 11 i ->
  let w := n + m * 2 ^ 10 + i * 2 ^ 20 + Z.b2z s * 2 ^ 31 in
  fits 32 w /\ field w 0 10 = n /\ field w 10 4 = m /\ field w 14 6 = 0 /\ negb (Z.shiftr w 31 =? 0) = s.
Proof.
  intros Hn Hm Hi w. rewrite Z.shiftr_div_pow2, !field_div by lia. unfold w, fits in *.
  destruct s; cbn [Z.b2z]; (split_and!; [Z.to_euclidean_division_equations; lia..|]).
  - destruct (Z.eqb_spec ((n + m * 2 ^ 10 + i * 2 ^ 20 + 1 * 2 ^ 31) / 2 ^ 31) 0); [|done].
    Z.to_euclidean_division_equations; lia.
  - destruct (Z.eqb_spec ((n + m * 2 ^ 10 + i * 2 ^ 20 + 0 * 2 ^ 31) / 2 ^ 31) 0); [done|].
    Z.to_euclidean_division_equations; lia.
Qed.

Lemma decode_receive_mode_spec raw mode o r next : bytes_ok raw -> 0 <= mode <= 15 -> 0 <= o < 2 ^ 20 ->
  decode_receive_mode raw mode o = Ok (r, next) <->
  receive_mode r = mode /\ receive_ok r /\ reads raw o (receive_words r) /\ next = o + len (receive_words r).
Proof.
  intros Hraw Hm Ho. unfold decode_receive_mode.
  assert (forall l, len (mjoin (receive_static_words <$> l)) = 8 * len l) as Hlen by (intros; by apply len_mjoin).
  destruct (Z.eqb_spec mode 0); [|destruct (Z.eqb_spec mode 1); [|destruct (Z.eqb_spec mode 2)]]; subst.
  - split.
    + intros [= <- <-]. split_and!; [done..|apply reads_nil|cbn; rewrite len_nil; lia].
    + intros (Hr & Hok & _ & ->). destruct r as [| |l]; cbn in *; [rewrite len_nil; do 2 f_equal; lia|done|]. pose proof (len_nonneg l). lia.
  - split; [done|]. intros (Hr & Hok & _). destruct r as [| |l]; cbn in *; lia.
  - split.
    + intros [= <- <-]. split_and!; [done..|apply reads_nil|cbn; rewrite len_nil; lia].
    + intros (Hr & Hok & _ & ->). destruct r as [| |l]; cbn in *; [done|rewrite len_nil; do 2 f_equal; lia|lia].
  - rewrite bind_ok. split.
    + intros ([l o'] & Hl & [= <- <-]). apply decode_receive_statics_spec in Hl as (Hl & Hf & Hr & ->); [|done|lia..].
      cbn. rewrite Hlen. split_and!; [lia|lia|lia|done..].
    + intros (Hr & Hok & Hreads & ->). destruct r as [| |l]; cbn in *; [lia..|]. rewrite Hlen in *.
      exists (l, o + 8 * len l). split; [|done]. apply decode_receive_statics_spec; [done|lia..|].
      split_and!; [lia|by apply Hok|done..].
Qed.

(** ** Tables in a row *)

Lemma len_tables h : len (table_words h) = 4 * len (copy_handles h) + 4 * len (move_handles h) + 8 * len (send_statics h) +
  12 * (len (send_buffers h) + len (receive_buffers h) + len (exchange_buffers h)).
Proof.
  unfold table_words, words_of.
  rewrite !len_app, !(len_mjoin le4 4), (len_mjoin send_static_words 8), !(len_mjoin buffer_words 12) by done. lia.
Qed.

Lemma reads_tables raw o h : 0 <= o ->
  let o2 := o + 4 * len (copy_handles h) in
  let o3 := o2 + 4 * len (move_handles h) in
  let o4 := o3 + 8 * len (send_statics h) in
  let o5 := o4 + 12 * len (send_buffers h) in
  let o6 := o5 + 12 * len (receive_buffers h) in
  reads raw o (table_words h) <->
  reads raw o (words_of (copy_handles h)) /\ reads raw o2 (words_of (move_handles h)) /\
  reads raw o3 (mjoin (send_static_words <$> send_statics h)) /\
  reads raw o4 (mjoin (buffer_words <$> send_buffers h)) /\
  reads raw o5 (mjoin (buffer_words <$> receive_buffers h)) /\
  reads raw o6 (mjoin (buffer_words <$> exchange_buffers h)).
Proof.
  intros Ho o2 o3 o4 o5 o6. unfold table_words, words_of. subst o2 o3 o4 o5 o6.
  pose proof (len_nonneg (copy_handles h)). pose proof (len_nonneg (move_handles h)).
  pose proof (len_nonneg (send_statics h)). pose proof (len_nonneg (send_buffers h)).
  pose proof (len_nonneg (receive_buffers h)).
  rewrite reads_app by lia. rewrite (len_mjoin le4 4) by done.
  rewrite reads_app by lia. rewrite (len_mjoin le4 4) by done.
  rewrite reads_app by lia. rewrite (len_mjoin send_static_words 8) by done.
  rewrite reads_app by lia. rewrite (len_mjoin buffer_words 12) by done.
  rewrite reads_app by lia. rewrite (len_mjoin buffer_words 12) by done. done.
Qed.

(** The pieces of a layout, each at its offset. *)
Lemma reads_layout raw h special ignored data : let n := len data / 4 in
  let o := 8 + len (special_of h special) in
  let d := o + len (table_words h) in
  reads raw 0 (hipc_layout h special ignored data) <->
  reads raw 0 (header_words h special ignored n) /\ reads raw 8 (special_of h special) /\
  reads raw o (table_words h) /\ reads raw d data /\ reads raw (d + len data) (receive_words (receive_statics h)).
Proof.
  intros n o d. unfold hipc_layout. fold n. subst o d. pose proof (len_nonneg (special_of h special)).
  pose proof (len_nonneg (table_words h)). pose proof (len_nonneg data).
  rewrite reads_app by lia. replace (0 + len (header_words h special ignored n)) with 8 by done.
  rewrite reads_app by lia. rewrite reads_app by lia. by rewrite reads_app by lia.
Qed.

Lemma len_special h special : special_ok special (pid h) (len (copy_handles h)) (len (move_handles h)) ->
  0 <= len (special_of h special) <= 12.
Proof.
  intros _. unfold special_of, special_words. destruct special; [|done].
  rewrite len_app, len_to_le_bytes. by destruct (pid h).
Qed.

Lemma slice_reads raw o n : 0 <= o -> 0 <= n -> o + n <= len raw ->
  exists data, len data = n /\ reads raw o data.
Proof.
  intros. exists (slice raw (Z.to_nat o) (Z.to_nat n)). split.
  - unfold len in *. rewrite slice_length; lia.
  - apply prefix_take.
Qed.

(** Every byte of a layout is inside the buffer. *)
Lemma layout_length raw h special ignored data : reads raw 0 (hipc_layout h special ignored data) ->
  8 + len (special_of h special) + len (table_words h) + len data + len (receive_words (receive_statics h)) <= len raw.
Proof.
  rewrite reads_all. intros [rest ->]. rewrite len_app. pose proof (len_nonneg rest). unfold hipc_layout, header_words.
  rewrite !len_app, !len_to_le_bytes. lia.
Qed.

(** ** Decoding *)

Section Decode.
Context (raw : list Z) (Hraw : bytes_ok raw).

Lemma decode_gives_layout h : HipcRequest_decode raw = Ok h ->
  len raw <= 256 /\ exists special ignored data,
    reads raw 0 (hipc_layout h special ignored data) /\ hipc_ok h special ignored data /\ hipc_offsets raw h special data.
Proof.
  unfold HipcRequest_decode. destruct (Z.ltb_spec COMMAND_BUFFER_SIZE (len raw)) as [|Hlen]; [done|].
  unfold COMMAND_BUFFER_SIZE in Hlen.
  intros (w0 & [Hw0 R0]%get_u32_spec & (w1 & [Hw1 R1]%get_u32_spec & H)%bind_ok)%bind_ok; [|done..].
  destruct (Z.eqb_spec (field w1 14 6) 0) as [H14|]; [|done]. cbn [negb] in H.
  destruct (word1_fields w1 Hw1 H14) as (ignored & Hi & E1). pose proof (word0_fields w0 Hw0) as E0.
  set (special := negb (Z.shiftr w1 31 =? 0)) in *.
  pose proof (field_bounds w0 16 4). pose proof (field_bounds w0 20 4). pose proof (field_bounds w0 24 4).
  pose proof (field_bounds w0 28 4). pose proof (field_bounds w1 0 10) as Hn. pose proof (field_bounds w1 10 4).
  apply bind_ok in H as ([[[p nc] nm] o1] & Hs%special_header_spec & H); [|done].
  destruct Hs as (Hs & Rs & E). pose proof Hs as (Hnc & Hnm & _).
  assert (8 <= o1 <= 20) as Ho1.
  { subst o1. unfold special_words. destruct special; [|by rewrite len_nil].
    rewrite len_app, len_to_le_bytes. by destruct p. }
  apply bind_ok in H as ([copies o2] & (Lc & Fc & Rc & E2)%decode_words_spec & H); [|done|lia..].
  apply bind_ok in H as ([moves o3] & (Lm & Fm & Rm & E3)%decode_words_spec & H); [|done|lia..].
  apply bind_ok in H as ([statics o4] & (Ls & Fs & Rss & E4)%decode_send_statics_spec & H); [|done|lia..].
  apply bind_ok in H as ([sends o5] & (Lb & Fb & Rb & E5)%decode_buffers_spec & H); [|done|lia..].
  apply bind_ok in H as ([receives o6] & (Lr & Fr & Rr & E6)%decode_buffers_spec & H); [|done|lia..].
  apply bind_ok in H as ([exchanges o7] & (Lx & Fx & Rx & E7)%decode_buffers_spec & H); [|done|lia..].
  unfold checked_mul in H. rewrite (proj2 (Z.ltb_lt _ _)) in H by lia. cbn [mbind res_bind] in H.
  rewrite checked_add_ok in H by lia. cbn [mbind res_bind] in H.
  destruct (Z.ltb_spec (len raw) (o7 + field w1 0 10 * 4)) as [|Hend]; [done|].
  apply bind_ok in H as ([r o8] & (Em & Hr & Rrs & E8)%decode_receive_mode_spec & H); [|done|lia..].
  destruct (Z.ltb_spec (len raw) o8); [done|]. injection H as <-. split; [done|].
  destruct (slice_reads raw o7 (field w1 0 10 * 4)) as (data & Ld & Rd); [lia..|].
  exists special, ignored, data.
  match goal with |- reads _ _ (hipc_layout ?x _ _ _) /\ _ => set (h := x) end.
  assert (o1 = 8 + len (special_of h special)) as X1 by (unfold special_of, h; cbn; by rewrite Lc, Lm).
  assert (o7 = o1 + len (table_words h)) as X7 by (rewrite len_tables; unfold h; cbn; lia).
  split; [|split].
  - apply reads_layout. rewrite <- X1, <- X7, Ld. split_and!; [| | |done..].
    + unfold header_words, h. cbn. rewrite Ls, Lb, Lr, Lx, Em, Z.div_mul, <- E0, <- E1 by done. by apply reads_le4_2.
    + unfold special_of, h. cbn. by rewrite Lc, Lm.
    + apply reads_tables; [lia|]. unfold h. cbn. rewrite <- E2, <- E3, <- E4, <- E5, <- E6. done.
  - unfold h. split; cbn; rewrite ?Lc, ?Lm, ?Ls, ?Lb, ?Lr, ?Lx, ?Ld; try done; try (split; [lia|done]).
    + by apply wrap_fits.
    + rewrite Z.mod_mul by done. split; [done|]. lia.
  - split; unfold h in *; cbn in *; lia || done.
Qed.

Lemma layout_decodes h special ignored data : len raw <= 256 ->
  reads raw 0 (hipc_layout h special ignored data) -> hipc_ok h special ignored data -> hipc_offsets raw h special data ->
  HipcRequest_decode raw = Ok h.
Proof.
  intros Hlen Hl Hok Hoff. pose proof (layout_length _ _ _ _ _ Hl) as Hll.
  apply reads_layout in Hl as (R0 & Rs & Rt & Rd & Rr). destruct Hok, Hoff.
  pose proof (len_special h special ok_special0) as Hsp. pose proof ok_special0 as (Hnc & Hnm & Hp & Hns).
  rewrite <- at_handles0, <- at_data0, <- at_end0 in *. apply reads_tables in Rt as (Rc & Rm & Rss & Rb & Rrb & Rx); [|lia].
  unfold header_words in R0. apply reads_le4_2 in R0 as [R0 R1]; [|done].
  change (0 + 4) with 4 in R1.
  pose proof (len_nonneg data). pose proof (len_nonneg (receive_words (receive_statics h))).
  destruct (word0_of_fields (command_type h) (len (send_statics h)) (len (send_buffers h)) (len (receive_buffers h))
    (len (exchange_buffers h))) as (Hw0 & T0 & T1 & T2 & T3 & T4); [done|split; [apply len_nonneg|lia]..|].
  assert (0 <= receive_mode (receive_statics h) <= 15) as Hm.
  { destruct (receive_statics h); cbn in *; lia. }
  assert (len data = len data / 4 * 4) as Ed by (Z.to_euclidean_division_equations; lia).
  destruct (word1_of_fields (len data / 4) (receive_mode (receive_statics h)) ignored special)
    as (Hw1 & U0 & U1 & U2 & U3); [unfold fits; lia|done|done|].
  unfold HipcRequest_decode, COMMAND_BUFFER_SIZE. rewrite (proj2 (Z.ltb_ge _ _)) by lia.
  rewrite (get_u32_ok raw Hraw _ _ Hw0 R0) by done. cbn [mbind res_bind].
  rewrite (get_u32_ok raw Hraw _ _ Hw1 R1) by done. cbn [mbind res_bind].
  rewrite T0, T1, T2, T3, T4, U0, U1, U2, U3. change (negb (0 =? 0)) with false. cbv iota.
  rewrite (proj2 (special_header_spec raw Hraw special _ _ _ _)) by done. cbn [mbind res_bind].
  rewrite len_tables in *.
  pose proof (len_nonneg (send_statics h)). pose proof (len_nonneg (send_buffers h)).
  pose proof (len_nonneg (receive_buffers h)). pose proof (len_nonneg (exchange_buffers h)).
  rewrite (decode_words_ok raw Hraw) by (done || lia). cbn [mbind res_bind].
  rewrite (decode_words_ok raw Hraw) by (done || lia). cbn [mbind res_bind].
  rewrite (decode_send_statics_ok raw Hraw) by (done || lia). cbn [mbind res_bind].
  rewrite (decode_buffers_ok raw Hraw) by (done || lia). cbn [mbind res_bind].
  rewrite (decode_buffers_ok raw Hraw) by (done || lia). cbn [mbind res_bind].
  rewrite (decode_buffers_ok raw Hraw) by (done || lia). cbn [mbind res_bind].
  unfold checked_mul. rewrite (proj2 (Z.ltb_lt _ _)) by lia. cbn [mbind res_bind]. rewrite <- Ed.
  rewrite checked_add_ok by lia. cbn [mbind res_bind].
  match goal with |- context [len raw <? ?x] => replace x with (data_end h) by lia end.
  rewrite (proj2 (Z.ltb_ge _ _)) by lia.
  assert (0 <= data_end h < 2 ^ 20) as Hde by lia.
  rewrite (proj2 (decode_receive_mode_spec raw _ _ (receive_statics h) (data_end h + len (receive_words (receive_statics h)))
    Hraw Hm Hde)) by done. cbn [mbind res_bind].
  rewrite (proj2 (Z.ltb_ge _ _)) by lia. replace (data_end h - len data) with (data_offset h) by lia.
  rewrite <- at_raw0. by destruct h.
Qed.

Lemma special_header_no_panic special : special_header raw special 8 <> Panic.
Proof.
  unfold special_header. destruct special; [|done].
  apply bind_no_panic; [by apply get_uint_no_panic|]. intros w _. rewrite checked_add_ok by lia. cbn [mbind res_bind].
  case_match; [done|]. case_match; [|done]. apply bind_no_panic; [by apply get_uint_no_panic|]. done.
Qed.

Lemma special_header_next special p copies moves next : special_header raw special 8 = Ok (p, copies, moves, next) ->
  8 <= next <= 20 /\ 0 <= copies <= 15 /\ 0 <= moves <= 15.
Proof.
  intros ((Hc & Hm & _) & _ & ->)%special_header_spec; [|done]. split_and!; [| |lia..];
    unfold special_words; destruct special; rewrite ?len_app, ?len_to_le_bytes; cbn; rewrite ?len_nil; destruct p; done.
Qed.

Lemma hipc_no_panic : HipcRequest_decode raw <> Panic.
Proof.
  unfold HipcRequest_decode. destruct (COMMAND_BUFFER_SIZE <? len raw); [done|].
  apply bind_no_panic; [by apply get_uint_no_panic|]. intros w0 _.
  apply bind_no_panic; [by apply get_uint_no_panic|]. intros w1 _.
  pose proof (field_bounds w0 16 4). pose proof (field_bounds w0 20 4). pose proof (field_bounds w0 24 4).
  pose proof (field_bounds w0 28 4). pose proof (field_bounds w1 0 10). pose proof (field_bounds w1 10 4).
  destruct (negb (field w1 14 6 =? 0)); [done|].
  apply bind_no_panic; [apply special_header_no_panic|]. intros [[[p nc] nm] o1] (Ho1 & Hnc & Hnm)%special_header_next.
  apply bind_no_panic; [apply (tables_no_panic raw Hraw); lia|].
  intros [copies o2] (Lc & _ & _ & ->)%decode_words_spec; [|done|lia..].
  apply bind_no_panic; [apply (tables_no_panic raw Hraw); lia|].
  intros [moves o3] (Lm & _ & _ & ->)%decode_words_spec; [|done|lia..].
  apply bind_no_panic; [apply (tables_no_panic raw Hraw); lia|].
  intros [statics o4] (Ls & _ & _ & ->)%decode_send_statics_spec; [|done|lia..].
  apply bind_no_panic; [apply (tables_no_panic raw Hraw); lia|].
  intros [sends o5] (Lb & _ & _ & ->)%decode_buffers_spec; [|done|lia..].
  apply bind_no_panic; [apply (tables_no_panic raw Hraw); lia|].
  intros [receives o6] (Lr & _ & _ & ->)%decode_buffers_spec; [|done|lia..].
  apply bind_no_panic; [apply (tables_no_panic raw Hraw); lia|].
  intros [exchanges o7] (Lx & _ & _ & ->)%decode_buffers_spec; [|done|lia..].
  unfold checked_mul. rewrite (proj2 (Z.ltb_lt _ _)) by lia. cbn [mbind res_bind].
  rewrite checked_add_ok by lia. cbn [mbind res_bind]. case_match; [done|].
  apply bind_no_panic; [|intros [] _; by case_match].
  unfold decode_receive_mode. repeat (case_match; [done|]).
  apply bind_no_panic; [apply (tables_no_panic raw Hraw); lia|]. by intros [].
Qed.
End Decode.

(** C10: HIPC requests are decoded exactly.  Decoding any bytes returns or reports
    an error, it never panics or reads outside the buffer; and it returns a
    request exactly when the buffer, of at most 256 bytes, begins with that
    request's wire layout: the header words with its counts, the special header,
    handles, descriptors, data words and receive list, at the offsets it
    records. *)
Theorem hipc_decode_exact raw h : bytes_ok raw ->
  HipcRequest_decode raw <> Panic /\
  (HipcRequest_decode raw = Ok h <->
   len raw <= 256 /\ exists special ignored data rest,
     raw = hipc_layout h special ignored data ++ rest /\ hipc_ok h special ignored data /\ hipc_offsets raw h special data).
Proof.
  intros Hraw. split; [by apply hipc_no_panic|]. split.
  - intros (Hlen & special & ignored & data & R & Hok & Hoff)%decode_gives_layout; [|done].
    split; [done|]. apply reads_all in R as [rest R]. by exists special, ignored, data, rest.
  - intros (Hlen & special & ignored & data & rest & E & Hok & Hoff).
    apply (layout_decodes raw Hraw h special ignored data); [done| |done|done]. apply reads_all. by exists rest.
Qed.

(** ** Instance: one of each descriptor, a process id and two handles *)

Definition sample_request : list Z :=
  le4 (4 + 2 ^ 16 + 2 ^ 20 + 2 ^ 24 + 2 ^ 28) ++ le4 (2 + 3 * 2 ^ 10 + 2 ^ 31) ++ le4 (1 + 2 ^ 1 + 2 ^ 5) ++
  le8 0x1122_3344_5566_7788 ++ le4 0x31 ++ le4 0x32 ++
  le4 (3 + 0x12 * 2 ^ 6 + 3 * 2 ^ 12 + 0x44 * 2 ^ 16) ++ le4 0x4567_89ab ++
  (le4 0x89ab_cdef ++ le4 0x7654_3210 ++ le4 (3 + 0x12345 * 2 ^ 2 + 7 * 2 ^ 24 + 4 * 2 ^ 28)) ++
  (le4 0x89ab_cdef ++ le4 0x7654_3210 ++ le4 (3 + 0x12345 * 2 ^ 2 + 7 * 2 ^ 24 + 4 * 2 ^ 28)) ++
  (le4 0x89ab_cdef ++ le4 0x7654_3210 ++ le4 (3 + 0x12345 * 2 ^ 2 + 7 * 2 ^ 24 + 4 * 2 ^ 28)) ++
  le4 1 ++ le4 2 ++ (le4 0x7654_3210 ++ le4 (0x20 + 0x1234 * 2 ^ 16)).

Definition sample_decoded : HipcRequest :=
  mkHipc 4 (Some 0x1122_3344_5566_7788) [0x31] [0x32]
    [mkSendStatic 0x0123_4567_89ab 0x44 3]
    [mkBuffer 0x1_2345_4_7654_3210 0x7_89ab_cdef NonDevice] [mkBuffer 0x1_2345_4_7654_3210 0x7_89ab_cdef NonDevice]
    [mkBuffer 0x1_2345_4_7654_3210 0x7_89ab_cdef NonDevice]
    (ReceiveEntries [mkReceiveStatic 0x0020_7654_3210 0x1234]) sample_request 20 72 80.

Lemma sample_request_ok : bytes_ok sample_request.
Proof. apply (bool_decide_unpack _). vm_compute. exact I. Qed.

Lemma hipc_decode_exact_witness : bytes_ok sample_request /\ HipcRequest_decode sample_request = Ok sample_decoded /\
  exists special ignored data rest, sample_request = hipc_layout sample_decoded special ignored data ++ rest.
Proof.
  assert (HipcRequest_decode sample_request = Ok sample_decoded) as E by (vm_compute; reflexivity).
  split; [exact sample_request_ok|]. split; [exact E|].
  destruct (proj1 (proj2 (hipc_decode_exact sample_request sample_decoded sample_request_ok)) E)
    as (_ & special & ignored & data & rest & H & _).
  exists special, ignored, data, rest. exact H.
Defined.
