(* ===== verification/HipcResponse.v ===== *)
(** * The CMIF layer: requests are decoded exactly, responses are read back *)

From Stdlib Require Import ZArith Lia Bool.
From stdpp Require Import base numbers list option strings.
From S2P Require Import Prelude RustInt Bytes HipcMessage HipcProps.
Local Open Scope Z_scope.

(** ** The grammar of a request *)

Definition in_header_words (version id tok : Z) : list Z := le4 CMIF_IN_MAGIC ++ le4 version ++ le4 id ++ le4 tok.

(** The sixteen bytes before the header of a domain request. *)
Definition domain_header_words (kind objects size object tok : Z) : list Z :=
  [kind; objects] ++ to_le_bytes 2 size ++ le4 object ++ le4 0 ++ le4 tok.

Definition has_context (type : Z) : bool :=
  (type =? CMIF_COMMAND_REQUEST_WITH_CONTEXT) || (type =? CMIF_COMMAND_CONTROL_WITH_CONTEXT).

Definition context_of (type tok : Z) : option Z := if has_context type then Some tok else None.

(** [cmif_message type framed request bytes]: [bytes] carry [request]; [framed]
    says whether a domain header comes first. *)
Inductive cmif_message (type : Z) : bool -> CmifRequest -> list Z -> Prop :=
  | plain_message id tok data : fits 32 id -> fits 32 tok ->
      cmif_message type false (mkCmif type id tok (context_of type tok) data None)
        (in_header_words (Z.b2z (has_context type)) id tok ++ data)
  | domain_close object tok rest : fits 32 object -> fits 32 tok ->
      cmif_message type true (mkCmif type 0 0 None [] (Some (CloseObject object)))
        (domain_header_words CMIF_DOMAIN_CLOSE 0 0 object tok ++ rest)
  | domain_send object tok id data objects rest :
      fits 32 object -> fits 32 tok -> fits 32 id -> 16 + len data < 2 ^ 16 -> len objects < 2 ^ 8 ->
      Forall (fits 32) objects ->
      cmif_message type true (mkCmif type id tok (context_of type tok) data (Some (SendMessage object objects)))
        (domain_header_words CMIF_DOMAIN_SEND_MESSAGE (len objects) (16 + len data) object tok ++
         in_header_words (Z.b2z (has_context type)) id 0 ++ data ++ words_of objects ++ rest).

Section Requests.
Context (bytes : list Z) (Hbytes : bytes_ok bytes).

Lemma decode_in_header_spec o hd : 0 <= o < 2 ^ 20 ->
  decode_in_header bytes o = Ok hd <->
  fits 32 (in_version hd) /\ fits 32 (in_command_id hd) /\ fits 32 (in_token hd) /\
  reads bytes o (in_header_words (in_version hd) (in_command_id hd) (in_token hd)).
Proof.
  intros Ho. unfold decode_in_header, in_header_words. rewrite !checked_add_ok by lia. cbn [mbind res_bind].
  rewrite reads_app by lia. change (len (le4 CMIF_IN_MAGIC)) with 4. rewrite reads_le4_3 by lia.
  replace (o + 4 + 4) with (o + 8) by lia. replace (o + 4 + 8) with (o + 12) by lia. split.
  - intros (magic & [_ Rm]%get_u32_spec & H)%bind_ok; [|done|lia..].
    destruct (Z.eqb_spec magic CMIF_IN_MAGIC) as [->|]; [|done]. cbn [negb] in H.
    apply bind_ok in H as (v & [Hv Rv]%get_u32_spec & H); [|done|lia..].
    apply bind_ok in H as (i & [Hi Ri]%get_u32_spec & H); [|done|lia..].
    apply bind_ok in H as (t & [Ht Rt]%get_u32_spec & H); [|done|lia..].
    injection H as <-. done.
  - intros (Hv & Hi & Ht & Rm & Rv & Ri & Rt).
    rewrite (get_u32_ok bytes Hbytes o CMIF_IN_MAGIC) by (done || lia). cbn [mbind res_bind].
    rewrite Z.eqb_refl. cbn [negb].
    rewrite (get_u32_ok bytes Hbytes _ _ Hv Rv), (get_u32_ok bytes Hbytes _ _ Hi Ri), (get_u32_ok bytes Hbytes _ _ Ht Rt) by lia.
    by destruct hd.
Qed.

Lemma decode_in_header_no_panic o : 0 <= o < 2 ^ 20 -> decode_in_header bytes o <> Panic.
Proof.
  intros Ho. unfold decode_in_header. rewrite !checked_add_ok by lia. cbn [mbind res_bind].
  apply bind_no_panic; [apply get_uint_no_panic; lia|]. intros m _. case_match; [done|].
  repeat (apply bind_no_panic; [apply get_uint_no_panic; lia|]; intros ? _). done.
Qed.

Lemma validate_version_ok version context : validate_version version context = Ok tt <-> version = Z.b2z context.
Proof. unfold validate_version. destruct (Z.eqb_spec version (Z.b2z context)); split; done. Qed.

End Requests.

Lemma decode_plain_spec bytes type q : bytes_ok bytes ->
  decode_plain type bytes = Ok q <-> cmif_message type false q bytes.
Proof.
  intros Hbytes. unfold decode_plain. fold (has_context type). split.
  - intros (hd & (Hv & Hi & Ht & R)%decode_in_header_spec & H)%bind_ok; [|done..].
    destruct (proj1 (reads_all _ _) R) as [rest E].
    apply bind_ok in H as ([] & Ev%validate_version_ok & H). rewrite Ev in E.
    apply bind_ok in H as (data & Hd & [= <-]). subst bytes.
    change 16 with (len (in_header_words (Z.b2z (has_context type)) (in_command_id hd) (in_token hd))) in Hd.
    rewrite get_range_rest in Hd. injection Hd as <-. by constructor.
  - intros H. inversion H as [id tok data Hi Ht| |]; subst.
    rewrite (proj2 (decode_in_header_spec _ Hbytes 0 (mkInHeader (Z.b2z (has_context type)) id tok) ltac:(lia))).
    2: { cbn. split_and!; [by destruct (has_context type)|done|done|]. apply reads_all. by eexists. }
    cbn [mbind res_bind in_version in_command_id in_token]. rewrite (proj2 (validate_version_ok _ _)) by done.
    cbn [mbind res_bind].
    change 16 with (len (in_header_words (Z.b2z (has_context type)) id tok)). by rewrite get_range_rest.
Qed.

(** ** Domain framing *)

(** The fields of the domain header and what follows it. *)
Lemma domain_header_reads bytes kind objects size object tok :
  reads bytes 0 (domain_header_words kind objects size object tok) <->
  head bytes = Some kind /\ bytes !! 1%nat = Some objects /\ reads bytes 2 (to_le_bytes 2 size) /\
  reads bytes 4 (le4 object) /\ reads bytes 8 (le4 0) /\ reads bytes 12 (le4 tok).
Proof.
  unfold domain_header_words. rewrite reads_app by done. change (0 + len [kind; objects]) with 2.
  rewrite reads_app by done. rewrite len_to_le_bytes. change (2 + Z.of_nat 2) with 4. rewrite reads_le4_3 by done.
  change (4 + 4) with 8. change (4 + 8) with 12.
  assert (reads bytes 0 [kind; objects] <-> head bytes = Some kind /\ bytes !! 1%nat = Some objects) as ->; [|tauto].
  rewrite reads_all. split.
  - by intros [rest ->].
  - destruct bytes as [|a [|b rest]]; cbn; [naive_solver..|]. intros [[= ->] [= ->]]. by exists rest.
Qed.

Lemma get_u16_spec bytes o v : bytes_ok bytes -> 0 <= o < 2 ^ 30 -> get_u16 bytes o = Ok v <-> fits 16 v /\ reads bytes o (to_le_bytes 2 v).
Proof. intros. apply get_uint_spec; [lia|done|lia|done]. Qed.

Lemma len_words_of l : len (words_of l) = 4 * len l.
Proof. by apply len_mjoin. Qed.

(** A domain type has no control with context. *)
Lemma has_context_request type : type <> CMIF_COMMAND_CONTROL_WITH_CONTEXT ->
  has_context type = (type =? CMIF_COMMAND_REQUEST_WITH_CONTEXT).
Proof. intros H. unfold has_context. rewrite (proj2 (Z.eqb_neq _ _) H). apply orb_false_r. Qed.

Lemma byte_fits bytes i b : bytes_ok bytes -> bytes !! i = Some b -> fits 8 b.
Proof. intros H Hi. by apply (Forall_lookup_1 _ _ _ _ H Hi). Qed.

Lemma get_range_reads bytes a b d : 0 <= a -> get_range bytes a b = Some d -> reads bytes a d /\ len d = b - a.
Proof.
  intros Ha. unfold get_range. destruct (_ && _) eqn:E; [|done]. intros [= <-].
  apply andb_prop in E as [E1%Z.leb_le E2%Z.leb_le]. split; [apply prefix_take|].
  unfold len in *. rewrite slice_length; lia.
Qed.

(** The four pieces of a framed request, in a row. *)
Lemma reads_domain_send bytes dh ih data objects :
  reads bytes 0 dh -> reads bytes 16 ih -> reads bytes 32 data -> reads bytes (32 + len data) objects ->
  len dh = 16 -> len ih = 16 ->
  exists rest, bytes = dh ++ ih ++ data ++ objects ++ rest.
Proof.
  intros R0 R1 R2 R3 Hd Hi. pose proof (len_nonneg data).
  assert (reads bytes 0 (dh ++ ih ++ data ++ objects)) as H'.
  { rewrite !reads_app by lia. rewrite Hd, Hi. change (0 + 16) with 16. change (16 + 16) with 32. done. }
  destruct (proj1 (reads_all _ _) H') as [rest ->]. exists rest. by rewrite <- !app_assoc.
Qed.

Lemma decode_domain_gives bytes type q : bytes_ok bytes -> type <> CMIF_COMMAND_CONTROL_WITH_CONTEXT ->
  decode_domain type bytes = Ok q -> cmif_message type true q bytes.
Proof.
  intros Hb Ht. unfold decode_domain. rewrite <- has_context_request by done.
  destruct (head bytes) as [kind|] eqn:Ek; [|done]. cbn [ok_or mbind res_bind].
  destruct (bytes !! 1%nat) as [count|] eqn:Ec; [|done]. cbn [ok_or mbind res_bind].
  pose proof (byte_fits _ _ _ Hb Ec) as Hc.
  intros (size & [Hs Rs]%get_u16_spec & H)%bind_ok; [|done..].
  apply bind_ok in H as (object & [Ho Ro]%get_u32_spec & H); [|done..].
  apply bind_ok in H as (padding & [_ Rp]%get_u32_spec & H); [|done..].
  destruct (Z.eqb_spec padding 0) as [->|]; [|done]. cbn [negb] in H.
  apply bind_ok in H as (tok & [Htok Rt]%get_u32_spec & H); [|done..].
  assert (reads bytes 0 (domain_header_words kind count size object tok)) as R0 by (by apply domain_header_reads).
  destruct (Z.eqb_spec kind CMIF_DOMAIN_CLOSE) as [->|].
  - destruct (Z.eqb_spec count 0) as [->|]; [|done]. destruct (Z.eqb_spec size 0) as [->|]; [|done].
    injection H as <-. destruct (proj1 (reads_all _ _) R0) as [rest ->]. by constructor.
  - destruct (Z.eqb_spec kind CMIF_DOMAIN_SEND_MESSAGE) as [->|]; [|done].
    destruct (Z.ltb_spec size 16); [done|]. unfold fits in Hs, Hc. rewrite checked_add_ok in H by lia.
    cbn [mbind res_bind] in H. destruct (Z.ltb_spec (len bytes) (16 + size)); [done|].
    apply bind_ok in H as (hd & (Hv & Hi & Htk & Rh)%decode_in_header_spec & H); [|done..].
    apply bind_ok in H as ([] & Ev%validate_version_ok & H).
    destruct (Z.eqb_spec (in_token hd) 0) as [Etk|]; [|done]. cbn [negb] in H. rewrite Ev, Etk in Rh.
    apply bind_ok in H as ([objects next] & (Lo & Fo & Robj & ->)%decode_words_spec & H); [|done|lia..].
    destruct (Z.ltb_spec (len bytes) (16 + size + 4 * len objects)); [done|].
    destruct (get_range bytes 32 (16 + size)) as [data|] eqn:Ed; [|done]. injection H as <-.
    apply get_range_reads in Ed as [Rd Ld]; [|done].
    replace (16 + size) with (32 + len data) in Robj by lia.
    destruct (reads_domain_send _ _ _ _ _ R0 Rh Rd Robj) as [rest E]; [done..|].
    replace size with (16 + len data) in E by lia. rewrite E. subst count. apply domain_send; done || lia.
Qed.

(** Decoding up to the kind of the request. *)
Lemma decode_domain_header bytes kind count size object tok : bytes_ok bytes ->
  reads bytes 0 (domain_header_words kind count size object tok) -> fits 16 size -> fits 32 object -> fits 32 tok ->
  head bytes = Some kind /\ bytes !! 1%nat = Some count /\ get_u16 bytes 2 = Ok size /\ get_u32 bytes 4 = Ok object /\
  get_u32 bytes 8 = Ok 0 /\ get_u32 bytes 12 = Ok tok.
Proof.
  intros Hb (Ek & Ec & Rs & Ro & Rp & Rt)%domain_header_reads Hs Ho Ht.
  split_and!; [done|done|by apply get_u16_spec|by apply get_u32_ok..].
Qed.

Lemma domain_decodes bytes type q : bytes_ok bytes -> type <> CMIF_COMMAND_CONTROL_WITH_CONTEXT ->
  cmif_message type true q bytes -> decode_domain type bytes = Ok q.
Proof.
  intros Hb Ht H. unfold decode_domain. rewrite <- has_context_request by done.
  inversion H as [|object tok rest Ho Htok|object tok id data objects rest Ho Htok Hid Hdata Hobj Fobj]; subst.
  - edestruct (decode_domain_header _ CMIF_DOMAIN_CLOSE 0 0 object tok Hb) as (E1 & E2 & E3 & E4 & E5 & E6);
      [apply reads_all; by eexists|done..|].
    rewrite E1, E2. cbn [ok_or mbind res_bind]. rewrite E3, E4, E5, E6. done.
  - pose proof (len_nonneg data). pose proof (len_nonneg objects). pose proof (len_nonneg rest).
    set (dh := domain_header_words _ _ _ _ _) in *. set (ih := in_header_words _ _ _) in *.
    set (bytes := dh ++ ih ++ data ++ words_of objects ++ rest) in *.
    assert (len bytes = 32 + len data + 4 * len objects + len rest) as Hlen.
    { unfold bytes. rewrite !len_app, len_words_of. change (len dh) with 16. change (len ih) with 16. lia. }
    assert (reads bytes 0 (dh ++ ih ++ data ++ words_of objects)) as R.
    { apply reads_all. exists rest. unfold bytes. by rewrite <- !app_assoc. }
    rewrite !reads_app in R by (change (len dh) with 16; change (len ih) with 16; lia).
    destruct R as (R0 & Rh & Rd & Ro).
    edestruct (decode_domain_header bytes CMIF_DOMAIN_SEND_MESSAGE) as (E1 & E2 & E3 & E4 & E5 & E6);
      [done|exact R0|unfold fits; lia|done|done|].
    rewrite E1, E2. cbn [ok_or mbind res_bind]. rewrite E3, E4, E5, E6.
    change (negb (0 =? 0)) with false. cbn [mbind res_bind].
    change (CMIF_DOMAIN_SEND_MESSAGE =? CMIF_DOMAIN_CLOSE) with false. rewrite Z.eqb_refl. cbv iota.
    rewrite (proj2 (Z.ltb_ge _ _)) by lia. rewrite checked_add_ok by lia. cbn [mbind res_bind].
    rewrite (proj2 (Z.ltb_ge _ _)) by lia.
    rewrite (proj2 (decode_in_header_spec bytes Hb 16 (mkInHeader (Z.b2z (has_context type)) id 0) ltac:(lia))).
    2: { cbn [in_version in_command_id in_token]. split_and!; [by destruct (has_context type)|done|done|exact Rh]. }
    cbn [mbind res_bind in_version in_command_id in_token]. rewrite (proj2 (validate_version_ok _ _)) by done.
    cbn [mbind res_bind]. rewrite Z.eqb_refl. cbn [negb].
    replace (16 + (16 + len data)) with (0 + len dh + len ih + len data)
      by (change (len dh) with 16; change (len ih) with 16; lia).
    rewrite (decode_words_ok bytes Hb) by (done || (change (len dh) with 16; change (len ih) with 16; lia)).
    cbn [mbind res_bind]. change (0 + len dh + len ih) with 32. rewrite (proj2 (Z.ltb_ge _ _)) by lia.
    unfold bytes. rewrite app_assoc, get_range_middle; [done|by rewrite len_app|by rewrite len_app].
Qed.

(** ** No decoder panics *)

Lemma decode_plain_no_panic bytes type : bytes_ok bytes -> decode_plain type bytes <> Panic.
Proof.
  intros Hb. unfold decode_plain. apply bind_no_panic; [by apply decode_in_header_no_panic|]. intros hd _.
  apply bind_no_panic; [unfold validate_version; by case_match|]. intros [] _.
  apply bind_no_panic; [by destruct (get_range _ _ _)|]. done.
Qed.

Lemma decode_domain_no_panic bytes type : bytes_ok bytes -> decode_domain type bytes <> Panic.
Proof.
  intros Hb. unfold decode_domain.
  apply bind_no_panic; [by destruct (head bytes)|]. intros kind _.
  destruct (bytes !! 1%nat) as [count|] eqn:Ec; [|done]. cbn [ok_or mbind res_bind].
  pose proof (byte_fits _ _ _ Hb Ec) as Hc.
  apply bind_no_panic; [by apply get_uint_no_panic|]. intros size [Hs _]%get_u16_spec; [|done..].
  do 2 (apply bind_no_panic; [by apply get_uint_no_panic|]; intros ? _). case_match; [done|].
  apply bind_no_panic; [by apply get_uint_no_panic|]. intros tok _. case_match; [by case_match|].
  case_match; [|done]. destruct (Z.ltb_spec size 16); [done|]. unfold fits in Hs, Hc.
  rewrite checked_add_ok by lia. cbn [mbind res_bind]. destruct (Z.ltb_spec (len bytes) (16 + size)) as [|Hle]; [done|].
  apply bind_no_panic; [by apply decode_in_header_no_panic|]. intros hd _.
  apply bind_no_panic; [unfold validate_version; by case_match|]. intros [] _. case_match; [done|].
  apply bind_no_panic; [apply (tables_no_panic bytes Hb); lia|]. intros [objects next] _. case_match; [done|].
  unfold get_range. rewrite !(proj2 (Z.leb_le _ _)) by lia. done.
Qed.

Lemma aligned_data_ok h bytes : bytes_ok (raw_bytes h) -> aligned_data h = Ok bytes -> bytes_ok bytes.
Proof.
  intros Hb (start & _ & H)%bind_ok. unfold get_range in H. case_match; [|done]. injection H as <-. by apply bytes_ok_slice.
Qed.

Lemma cmif_no_panic h domain : bytes_ok (raw_bytes h) -> CmifRequest_decode h domain <> Panic.
Proof.
  intros Hb. unfold CmifRequest_decode. case_match; [by case_match|]. case_match; [done|].
  apply bind_no_panic.
  - unfold aligned_data, align_up. apply bind_no_panic; [by case_match|]. intros start _. by destruct (get_range _ _ _).
  - intros bytes Ha%aligned_data_ok; [|done]. case_match; [by apply decode_domain_no_panic|by apply decode_plain_no_panic].
Qed.

(** The command types that carry a message. *)
Definition cmif_type (type : Z) : bool := (type =? 1) || (3 <=? type) && (type <=? 7).

Definition domain_framed (type : Z) (domain : bool) : bool := domain && ((type =? 4) || (type =? 6)).

Lemma cmif_decode_message h domain bytes q : bytes_ok (raw_bytes h) -> cmif_type (command_type h) = true ->
  aligned_data h = Ok bytes ->
  CmifRequest_decode h domain = Ok q <-> cmif_message (command_type h) (domain_framed (command_type h) domain) q bytes.
Proof.
  intros Hb Ht Ha. pose proof (aligned_data_ok _ _ Hb Ha) as Hbytes. unfold CmifRequest_decode, domain_framed. rewrite Ha.
  assert (command_type h = 1 \/ command_type h = 3 \/ command_type h = 4 \/ command_type h = 5 \/ command_type h = 6 \/
    command_type h = 7) as C.
  { unfold cmif_type in Ht. destruct (Z.eqb_spec (command_type h) 1), (Z.leb_spec 3 (command_type h)),
      (Z.leb_spec (command_type h) 7); cbn in Ht; done || lia. }
  destruct C as [->|[->|[->|[->|[->| ->]]]]]; cbn; destruct domain; cbn;
    (by apply decode_plain_spec) || (split; [by apply decode_domain_gives|by apply domain_decodes]).
Qed.

(** C15: CMIF requests are decoded exactly.  Whatever the message, decoding its
    CMIF layer returns or reports an error, it never panics; and for the command
    types that carry a message, it returns a request exactly when the aligned
    data words are that request: an input header, or under domain framing a
    domain header, an input header, the payload and the input objects, or a
    close. *)
Theorem cmif_decode_exact h domain bytes q : bytes_ok (raw_bytes h) ->
  CmifRequest_decode h domain <> Panic /\
  (cmif_type (command_type h) = true -> aligned_data h = Ok bytes ->
   (CmifRequest_decode h domain = Ok q <-> cmif_message (command_type h) (domain_framed (command_type h) domain) q bytes)).
Proof. intros Hb. split; [by apply cmif_no_panic|]. intros. by apply cmif_decode_message. Qed.

(** ** Instance: a domain request with two input objects *)

Definition sample_domain_bytes : list Z :=
  [1; 2] ++ to_le_bytes 2 20 ++ le4 0x44 ++ le4 0 ++ le4 0x55 ++ (le4 CMIF_IN_MAGIC ++ le4 1 ++ le4 8 ++ le4 0) ++
  le4 0x99 ++ le4 0x66 ++ le4 0x77.

Definition sample_domain : HipcRequest :=
  mkHipc 6 None [] [] [] [] [] [] ReceiveNone (replicate 16 0 ++ sample_domain_bytes) 8 8 60.

Definition sample_domain_request : CmifRequest :=
  mkCmif 6 8 0x55 (Some 0x55) [0x99; 0; 0; 0] (Some (SendMessage 0x44 [0x66; 0x77])).

Lemma cmif_decode_exact_witness : CmifRequest_decode sample_domain true = Ok sample_domain_request /\
  cmif_message 6 true sample_domain_request sample_domain_bytes.
Proof.
  assert (bytes_ok (raw_bytes sample_domain)) as Hb by (apply (bool_decide_unpack _); vm_compute; exact I).
  assert (CmifRequest_decode sample_domain true = Ok sample_domain_request) as E by (vm_compute; reflexivity).
  split; [exact E|].
  exact (proj1 (proj2 (cmif_decode_exact sample_domain true sample_domain_bytes sample_domain_request Hb) eq_refl
    ltac:(vm_compute; reflexivity)) E).
Defined.

(** ** Encoded responses

    A response is encoded exactly when it fits the command buffer; its bytes have
    the layout of a HIPC message whose data words hold the CMIF reply. *)

(** ** Sizes *)

Definition special_needed (r : CmifResponse) : bool :=
  bool_decide (is_Some (response_pid r)) || negb (bool_decide (response_copy_handles r = []))
  || negb (bool_decide (response_move_handles r = [])).

Definition special_bytes (r : CmifResponse) : Z :=
  if special_needed r then
    4 + Z.b2z (bool_decide (is_Some (response_pid r))) * 8
    + (len (response_copy_handles r) + len (response_move_handles r)) * 4
  else 0.

Definition offset_of (r : CmifResponse) : Z := 8 + (special_bytes r + len (response_send_statics r) * 8).

(** Rounded up to a multiple of [a]. *)
Definition aligned (x a : Z) : Z := (x + (a - 1)) / a * a.

Definition body_bytes (r : CmifResponse) : Z :=
  Z.b2z (is_domain r) * 16 + 16 + (len (response_data r) + len (domain_objects r) * 4).

Definition data_bytes (r : CmifResponse) : Z := aligned (16 + body_bytes r) 4.

Definition total_of (r : CmifResponse) : Z := offset_of r + data_bytes r.

Definition layout_of (r : CmifResponse) : ResponseLayout :=
  mkLayout (special_needed r) (offset_of r) (aligned (offset_of r) 16) (data_bytes r / 4) (total_of r).

Definition shape_fits (r : CmifResponse) : bool :=
  (is_domain r || bool_decide (domain_objects r = [])) && (len (response_copy_handles r) <=? 15) &&
  (len (response_move_handles r) <=? 15) && (len (response_send_statics r) <=? 15) && (total_of r <=? 256).

Lemma align_up_ok v k : 0 <= k <= 20 -> 0 <= v < 2 ^ 40 -> align_up v (2 ^ k) = Ok (aligned v (2 ^ k)).
Proof.
  intros Hk Hv. pose proof (pow2_le k 20 ltac:(lia)). pose proof (pow2_pos k ltac:(lia)).
  unfold align_up, RustInt.checked_add. rewrite (proj2 (Z.ltb_lt _ _)) by lia. rewrite clear_low by lia. done.
Qed.

Lemma align_up_16 v : 0 <= v < 2 ^ 40 -> align_up v 16 = Ok (aligned v 16).
Proof. by apply (align_up_ok v 4). Qed.

Lemma align_up_4 v : 0 <= v < 2 ^ 40 -> align_up v 4 = Ok (aligned v 4).
Proof. by apply (align_up_ok v 2). Qed.

Lemma align_up_inv v k x : 0 <= k <= 20 -> 0 <= v -> align_up v (2 ^ k) = Ok x -> x = aligned v (2 ^ k).
Proof.
  intros Hk Hv. pose proof (pow2_pos k ltac:(lia)). unfold align_up, RustInt.checked_add.
  destruct (Z.ltb_spec (v + (2 ^ k - 1)) (2 ^ 64)); [|done]. rewrite clear_low by lia. by intros [= <-].
Qed.

Lemma checked_mul_inv a b c : checked_mul a b = Ok c -> c = a * b.
Proof. unfold checked_mul. case_match; congruence. Qed.

Lemma checked_mul_ok a b : a * b < 2 ^ 64 -> checked_mul a b = Ok (a * b).
Proof. intros. unfold checked_mul. by rewrite (proj2 (Z.ltb_lt _ _)). Qed.

Lemma sizes_nonneg r : 0 <= special_bytes r /\ 0 <= body_bytes r /\ 16 + body_bytes r <= data_bytes r < 16 + body_bytes r + 4.
Proof.
  pose proof (len_nonneg (response_copy_handles r)). pose proof (len_nonneg (response_move_handles r)).
  pose proof (len_nonneg (response_data r)). pose proof (len_nonneg (domain_objects r)).
  unfold special_bytes, data_bytes, aligned, body_bytes.
  assert (0 <= Z.b2z (bool_decide (is_Some (response_pid r))) <= 1) by (by case_bool_decide).
  assert (0 <= Z.b2z (is_domain r) <= 1) by (by destruct (is_domain r)).
  split_and!; [destruct (special_needed r); lia|lia|Z.to_euclidean_division_equations; lia..].
Qed.

(** The layout is computed exactly when the response fits. *)
Lemma response_layout_gives r L : response_layout r = Ok L -> shape_fits r = true /\ L = layout_of r.
Proof.
  unfold response_layout. destruct (negb (is_domain r) && negb (bool_decide (domain_objects r = []))) eqn:Ed; [done|].
  fold (special_needed r). destruct (sizes_nonneg r) as (S1 & S2 & S3).
  pose proof (len_nonneg (response_send_statics r)) as Ls. pose proof (len_nonneg (response_data r)) as Ld.
  pose proof (len_nonneg (domain_objects r)) as Lo.
  intros ([] & C1%bounded_count_ok & H)%bind_ok. apply bind_ok in H as ([] & C2%bounded_count_ok & H).
  apply bind_ok in H as ([] & C3%bounded_count_ok & H).
  apply bind_ok in H as (special & Es & H).
  assert (special = special_bytes r) as ->.
  { unfold special_bytes. destruct (special_needed r); [|congruence].
    apply bind_ok in Es as (x & ->%checked_mul_inv & [= <-]). done. }
  apply bind_ok in H as (? & ->%checked_mul_inv & H). apply bind_ok in H as (? & ->%checked_add_inv & H).
  apply bind_ok in H as (? & ->%checked_add_inv & H). fold (offset_of r) in H.
  assert (0 <= offset_of r) as Ho by (unfold offset_of; lia).
  apply bind_ok in H as (? & ->%(align_up_inv _ 4) & H); [|done..]. change (2 ^ 4) with 16 in H.
  apply bind_ok in H as (? & ->%checked_add_inv & H). apply bind_ok in H as (? & ->%checked_mul_inv & H).
  apply bind_ok in H as (? & ->%checked_add_inv & H). apply bind_ok in H as (? & ->%checked_add_inv & H).
  fold (body_bytes r) in H. apply bind_ok in H as (? & ->%checked_add_inv & H).
  apply bind_ok in H as (? & ->%(align_up_inv _ 2) & H); [|lia..]. change (2 ^ 2) with 4 in H. fold (data_bytes r) in H.
  destruct (0x3ff <? data_bytes r / 4); [done|]. apply bind_ok in H as (? & ->%checked_add_inv & H). fold (total_of r) in H.
  destruct (Z.ltb_spec COMMAND_BUFFER_SIZE (total_of r)) as [|Ht]; [done|]. injection H as <-. split; [|done].
  unfold shape_fits. unfold MAX_HANDLE_COUNT, MAX_DESCRIPTOR_COUNT, COMMAND_BUFFER_SIZE in *.
  rewrite !(proj2 (Z.leb_le _ _)) by lia. rewrite !andb_true_r.
  by destruct (is_domain r), (bool_decide (domain_objects r = [])).
Qed.

Lemma shape_fits_bounds r : shape_fits r = true ->
  (is_domain r = true \/ domain_objects r = []) /\ len (response_copy_handles r) <= 15 /\ len (response_move_handles r) <= 15 /\
  len (response_send_statics r) <= 15 /\ total_of r <= 256 /\ len (response_data r) <= 256 /\ len (domain_objects r) <= 64 /\
  8 <= offset_of r <= 256 /\ data_bytes r <= 256.
Proof.
  unfold shape_fits. intros ((((Hd & H1%Z.leb_le)%andb_prop & H2%Z.leb_le)%andb_prop & H3%Z.leb_le)%andb_prop &
    H4%Z.leb_le)%andb_prop.
  destruct (sizes_nonneg r) as (S1 & S2 & S3). pose proof (len_nonneg (response_data r)).
  pose proof (len_nonneg (domain_objects r)). pose proof (len_nonneg (response_send_statics r)).
  assert (0 <= Z.b2z (is_domain r)) by (by destruct (is_domain r)).
  unfold total_of, offset_of, body_bytes in *. apply orb_prop in Hd. rewrite bool_decide_eq_true in Hd.
  split_and!; done || lia.
Qed.

Lemma response_layout_ok r : shape_fits r = true -> response_layout r = Ok (layout_of r).
Proof.
  intros (Hd & C1 & C2 & C3 & Ht & Ldata & Lobj & Hoff & Hdb)%shape_fits_bounds. unfold response_layout.
  assert (negb (is_domain r) && negb (bool_decide (domain_objects r = [])) = false) as ->.
  { destruct Hd as [->| ->]; [done|]. by rewrite bool_decide_true, andb_false_r. }
  fold (special_needed r). destruct (sizes_nonneg r) as (S1 & S2 & S3).
  pose proof (len_nonneg (response_send_statics r)). pose proof (len_nonneg (response_data r)).
  pose proof (len_nonneg (domain_objects r)). pose proof (len_nonneg (response_copy_handles r)).
  pose proof (len_nonneg (response_move_handles r)).
  rewrite !(proj2 (bounded_count_ok _ _ _)) by done. cbn [mbind res_bind].
  assert (special_bytes r <= 256) by (unfold offset_of in Hoff; lia).
  match goal with |- mbind ?f ?m = _ => replace m with (Ok (special_bytes r) : msg Z) end.
  2: { unfold special_bytes. destruct (special_needed r); [|done]. by rewrite checked_mul_ok by lia. }
  cbn [mbind res_bind]. rewrite (checked_mul_ok (len (response_send_statics r))) by lia. cbn [mbind res_bind].
  rewrite (checked_add_ok (special_bytes r)) by lia. cbn [mbind res_bind].
  rewrite (checked_add_ok 8) by lia. cbn [mbind res_bind].
  fold (offset_of r). rewrite align_up_16 by lia. cbn [mbind res_bind].
  rewrite checked_add_ok by (destruct (is_domain r); cbn; lia). cbn [mbind res_bind].
  rewrite checked_mul_ok by lia. cbn [mbind res_bind].
  rewrite (checked_add_ok (len (response_data r))) by lia. cbn [mbind res_bind].
  rewrite checked_add_ok by (destruct (is_domain r); cbn; lia). cbn [mbind res_bind]. fold (body_bytes r).
  rewrite checked_add_ok by lia. cbn [mbind res_bind]. rewrite align_up_4 by lia. cbn [mbind res_bind].
  fold (data_bytes r).
  rewrite (proj2 (Z.ltb_ge _ _)) by (Z.to_euclidean_division_equations; lia).
  rewrite checked_add_ok by lia. cbn [mbind res_bind]. fold (total_of r). unfold COMMAND_BUFFER_SIZE.
  by rewrite (proj2 (Z.ltb_ge _ _)) by lia.
Qed.

Lemma response_layout_no_panic r : response_layout r <> Panic.
Proof.
  unfold response_layout. case_match; [done|].
  assert (forall a b, checked_mul a b <> Panic) as Hm by (intros; unfold checked_mul; by case_match).
  assert (forall a b, align_up a b <> Panic) as Ha by (intros; unfold align_up; by case_match).
  assert (forall a b c, bounded_count a b c <> Panic) as Hb by (intros; unfold bounded_count; by case_match).
  repeat (apply bind_no_panic; [apply Hb || apply Hm || apply Ha || apply checked_add_no_panic ||
    (case_match; [apply bind_no_panic; [apply Hm|done]|done])|]; intros ? _).
  case_match; [done|]. apply bind_no_panic; [apply checked_add_no_panic|]. intros ? _. by case_match.
Qed.

(** ** Writing *)

(** What the Rust types guarantee of a response. *)
Record response_ok (r : CmifResponse) : Prop := {
  rok_token : fits 32 (response_token r);
  rok_result : fits 32 (response_result r);
  rok_data : bytes_ok (response_data r);
  rok_pid : from_option (fits 64) True (response_pid r);
  rok_copies : Forall (fits 32) (response_copy_handles r);
  rok_moves : Forall (fits 32) (response_move_handles r);
  rok_statics : Forall (fun d => fits 64 (send_address d) /\ fits 16 (send_size d) /\ fits 8 (send_index d)) (response_send_statics r);
  rok_objects : Forall (fits 32) (domain_objects r) }.

Definition static_in_range (d : SendStaticDescriptor) : bool := (send_address d <? 2 ^ 42) && (send_index d <? 2 ^ 6).

Lemma encode_send_static_filled total w d : total < 2 ^ 20 ->
  fits 64 (send_address d) /\ fits 16 (send_size d) /\ fits 8 (send_index d) -> len w + 8 <= total ->
  encode_send_static (filled w total) (len w) d =
    if static_in_range d then Ok (filled (w ++ send_static_words d) total)
    else Err "send-static descriptor field is out of range"%string.
Proof.
  intros Ht (Ha & Hs & Hi) Hw. unfold encode_send_static, static_in_range. unfold fits in *.
  rewrite Z.shiftr_div_pow2 by lia.
  assert (negb (send_address d / 2 ^ 42 =? 0) || (0x3f <? send_index d) =
    negb ((send_address d <? 2 ^ 42) && (send_index d <? 2 ^ 6))) as ->.
  { rewrite negb_andb. f_equal.
    - f_equal. apply eq_bool_prop_intro. rewrite !Is_true_true, Z.eqb_eq, Z.ltb_lt. Z.to_euclidean_division_equations; lia.
    - rewrite <- Z.leb_antisym. apply eq_bool_prop_intro. rewrite !Is_true_true, Z.leb_le, Z.ltb_lt. lia. }
  destruct (Z.ltb_spec (send_address d) (2 ^ 42)) as [Ha'|]; [|done].
  destruct (Z.ltb_spec (send_index d) (2 ^ 6)) as [Hi'|]; [|done]. cbn [andb negb].
  pose proof (len_nonneg w).
  rewrite put_u32_filled by (done || lia). cbn [mbind res_bind].
  rewrite put_u32_filled by (rewrite ?len_app, ?len_to_le_bytes; lia). rewrite <- app_assoc.
  unfold send_static_words, wrap. do 5 f_equal.
  change 0x3f with (Z.ones 6). change 0xf with (Z.ones 4). rewrite !Z.shiftr_div_pow2, !Z.land_ones by lia.
  unfold shl_w. rewrite !Z.shiftl_mul_pow2 by lia. unfold wrap.
  rewrite !(Z.mod_small (_ * _)) by (Z.to_euclidean_division_equations; lia).
  rewrite <- !Z.shiftl_mul_pow2 by lia.
  rewrite (lor_shift 6) by (unfold fits; lia).
  rewrite (lor_shift 12) by (unfold fits; Z.to_euclidean_division_equations; lia).
  rewrite (lor_shift 16) by (unfold fits; Z.to_euclidean_division_equations; lia).
  rewrite !Z.shiftl_mul_pow2 by lia. Z.to_euclidean_division_equations; lia.
Qed.

Lemma put_words_filled total w o l : total < 2 ^ 20 -> o = len w -> len w + 4 * len l <= total ->
  put_each put_u32 4 (filled w total) o l = Ok (filled (w ++ words_of l) total, o + 4 * len l).
Proof.
  intros Ht Ho Hl. rewrite (put_each_filled put_u32 le4 4 total ltac:(lia) ltac:(done) (fun _ => True) (fun _ => true) EmptyString).
  - assert (forallb (fun _ : Z => true) l = true) as -> by (clear; induction l; done). done.
  - intros w' a _ Hw. by rewrite put_u32_filled by (done || lia).
  - by apply Forall_true.
  - done.
  - done.
Qed.

Lemma special_needed_handles r : special_needed r = false ->
  response_pid r = None /\ response_copy_handles r = [] /\ response_move_handles r = [].
Proof.
  unfold special_needed. intros [[H1 H2]%orb_false_iff H3]%orb_false_iff.
  apply negb_false_iff, bool_decide_eq_true in H2, H3. apply bool_decide_eq_false in H1.
  by rewrite <- eq_None_not_Some in H1.
Qed.

Definition response_special (r : CmifResponse) : list Z :=
  special_words (special_needed r) (response_pid r) (len (response_copy_handles r)) (len (response_move_handles r)) ++
  words_of (response_copy_handles r) ++ words_of (response_move_handles r).

Lemma words_of_app l k : words_of (l ++ k) = words_of l ++ words_of k.
Proof. unfold words_of. by rewrite fmap_app, join_app. Qed.

Lemma len_response_special r : len (response_special r) = special_bytes r.
Proof.
  unfold response_special, special_bytes, special_words. rewrite !len_app, !len_words_of.
  destruct (special_needed r) eqn:E.
  - rewrite len_app, len_to_le_bytes. destruct (response_pid r); [rewrite bool_decide_true by done|rewrite bool_decide_false by (by intros [])];
      cbn [from_option Z.b2z]; rewrite ?len_to_le_bytes, ?len_nil; lia.
  - destruct (special_needed_handles r E) as (_ & -> & ->). done.
Qed.

Lemma put_special_filled total r w : total < 2 ^ 20 -> special_needed r = true ->
  len (response_copy_handles r) <= 15 -> len (response_move_handles r) <= 15 -> len w + special_bytes r <= total ->
  put_special r (filled w total) (len w) = Ok (filled (w ++ response_special r) total, len w + special_bytes r).
Proof.
  intros Ht Es Hc Hm Hw. unfold put_special, response_special, special_words. unfold special_bytes in *. rewrite Es in *.
  pose proof (len_nonneg (response_copy_handles r)). pose proof (len_nonneg (response_move_handles r)).
  pose proof (len_nonneg w). unfold try_u32. rewrite !(proj2 (Z.ltb_lt _ _)) by lia. cbn [expect mbind res_bind].
  set (b := Z.b2z (bool_decide (is_Some (response_pid r)))) in *. assert (0 <= b <= 1) as Hb by (unfold b; by case_bool_decide).
  assert (Z.lor (Z.lor b (shl_w 32 (len (response_copy_handles r)) 1)) (shl_w 32 (len (response_move_handles r)) 5) =
    b + len (response_copy_handles r) * 2 ^ 1 + len (response_move_handles r) * 2 ^ 5) as ->.
  { unfold shl_w. rewrite !wrap_small by (rewrite Z.shiftl_mul_pow2 by lia; unfold fits; lia).
    rewrite (lor_shift 1) by (unfold fits; lia). by rewrite (lor_shift 5) by (unfold fits; lia). }
  rewrite put_u32_filled by (done || lia). cbn [mbind res_bind].
  destruct (response_pid r) as [v|]; subst b;
    [rewrite bool_decide_true in * by done|rewrite bool_decide_false in * by (by intros [])]; cbn [Z.b2z] in *.
  - rewrite put_u64_filled by (rewrite ?len_app, ?len_to_le_bytes; lia). cbn [mbind res_bind].
    rewrite put_words_filled by (rewrite ?len_app, ?len_to_le_bytes; lia). rewrite words_of_app, len_app.
    cbn [from_option]. rewrite <- !app_assoc. do 2 f_equal. lia.
  - cbn [mbind res_bind]. rewrite put_words_filled by (rewrite ?len_app, ?len_to_le_bytes; lia).
    rewrite words_of_app, len_app. cbn [from_option]. rewrite app_nil_r, <- !app_assoc. do 2 f_equal. lia.
Qed.

(** The CMIF reply. *)
Definition response_body (r : CmifResponse) : list Z :=
  (if is_domain r then le4 (len (domain_objects r)) ++ replicate 12 0 else []) ++
  le4 CMIF_OUT_MAGIC ++ le4 0 ++ le4 (response_result r) ++ le4 (response_token r) ++
  response_data r ++ words_of (domain_objects r).

Lemma len_response_body r : len (response_body r) = body_bytes r.
Proof.
  unfold response_body, body_bytes. rewrite !len_app, !len_to_le_bytes, len_words_of.
  destruct (is_domain r); rewrite ?len_app, ?len_to_le_bytes, ?len_replicate, ?len_nil; cbn [Z.b2z]; lia.
Qed.

(** The payload and the objects after the output header. *)
Lemma put_payload_filled total r w : total < 2 ^ 20 -> len w + len (response_data r) + 4 * len (domain_objects r) <= total ->
  (payload_end ← checked_add (len w) (len (response_data r));
   _ ← expect (get_range (filled w total) (len w) payload_end);
   let output := list_inserts (Z.to_nat (len w)) (response_data r) (filled w total) in
   '(output, _) ← put_each put_u32 4 output payload_end (domain_objects r);
   Ok output) = (Ok (filled (w ++ response_data r ++ words_of (domain_objects r)) total) : msg (list Z)).
Proof.
  intros Ht Hw. pose proof (len_nonneg w). pose proof (len_nonneg (response_data r)). pose proof (len_nonneg (domain_objects r)).
  rewrite checked_add_ok by lia. cbn [mbind res_bind].
  edestruct (get_range_filled w total (len w) (len w + len (response_data r))) as [x E]; [lia..|]. rewrite E.
  cbn [expect mbind res_bind]. rewrite inserts_filled by lia.
  rewrite put_words_filled by (rewrite ?len_app; lia). cbn [mbind res_bind]. by rewrite <- app_assoc.
Qed.

Lemma put_body_filled total r w : total < 2 ^ 20 -> len w + body_bytes r <= total -> len (domain_objects r) < 2 ^ 32 ->
  put_body r (filled w total) (len w) = Ok (filled (w ++ response_body r) total).
Proof.
  intros Ht Hw Hobj. pose proof (len_nonneg w). pose proof (len_nonneg (response_data r)).
  pose proof (len_nonneg (domain_objects r)). unfold put_body, response_body, body_bytes in *.
  set (w' := w ++ (if is_domain r then le4 (len (domain_objects r)) ++ replicate 12 0 else [])).
  assert (len w' = len w + Z.b2z (is_domain r) * 16) as Hw'.
  { unfold w'. rewrite len_app. destruct (is_domain r); rewrite ?len_app, ?len_to_le_bytes, ?len_replicate, ?len_nil; done. }
  match goal with |- mbind ?f ?m = _ => replace m with (Ok (filled w' total, len w') : msg (list Z * Z)) end.
  2: { rewrite Hw'. unfold w'. destruct (is_domain r); cbn [Z.b2z] in *; [|by rewrite app_nil_r, Z.add_0_r].
       unfold try_u32. rewrite (proj2 (Z.ltb_lt _ _)) by done. cbn [ok_or mbind res_bind].
       rewrite put_u32_filled by lia. cbn [mbind res_bind].
       rewrite (filled_skip (w ++ le4 (len (domain_objects r))) total 12) by (rewrite ?len_app, ?len_to_le_bytes; lia). by rewrite <- app_assoc. }
  cbn [mbind res_bind]. rewrite put_u32_filled by lia. cbn [mbind res_bind].
  rewrite put_u32_filled by (rewrite ?len_app, ?len_to_le_bytes; lia). cbn [mbind res_bind].
  rewrite put_u32_filled by (rewrite ?len_app, ?len_to_le_bytes; lia). cbn [mbind res_bind].
  rewrite put_u32_filled by (rewrite ?len_app, ?len_to_le_bytes; lia). cbn [mbind res_bind].
  set (v := (((w' ++ _) ++ _) ++ _) ++ _). replace (len w' + 16) with (len v) by (unfold v; rewrite !len_app, !len_to_le_bytes; lia).
  assert (len v = len w + Z.b2z (is_domain r) * 16 + 16) as Hv by (unfold v; rewrite !len_app, !len_to_le_bytes; lia).
  etransitivity; [apply (put_payload_filled total r v); lia|]. unfold v, w'. by rewrite <- !app_assoc.
Qed.

(** ** The encoded bytes *)

Definition gap_of (r : CmifResponse) : Z := aligned (offset_of r) 16 - offset_of r.

(** The data words: the gap to the aligned start, the reply and the padding. *)
Definition response_words (r : CmifResponse) : list Z :=
  replicate (Z.to_nat (gap_of r)) 0 ++ response_body r ++
  replicate (Z.to_nat (data_bytes r - gap_of r - body_bytes r)) 0.

Lemma gap_bounds r : 0 <= gap_of r < 16.
Proof. unfold gap_of, aligned. destruct (sizes_nonneg r). Z.to_euclidean_division_equations; lia. Qed.

Lemma len_response_words r : len (response_words r) = data_bytes r.
Proof.
  pose proof (gap_bounds r). destruct (sizes_nonneg r) as (? & ? & ?).
  unfold response_words. rewrite !len_app, !len_replicate, len_response_body. lia.
Qed.

(** The head of the response: its header words. *)
Definition response_head (r : CmifResponse) : list Z :=
  le4 (len (response_send_statics r) * 2 ^ 16) ++ le4 (data_bytes r / 4 + Z.b2z (special_needed r) * 2 ^ 31).

(** The words before the special header. *)
Lemma put_head_filled r total : total = total_of r -> shape_fits r = true ->
  let word0 := shl_w 32 (len (response_send_statics r)) 16 in
  put_u32 (replicate (Z.to_nat total) 0) 0 word0 = Ok (filled (le4 word0) total) /\
  put_u32 (filled (le4 word0) total) 4 (Z.lor (data_bytes r / 4) (shl_w 32 (Z.b2z (special_needed r)) 31)) =
    Ok (filled (response_head r) total).
Proof.
  intros Etot (Hd & C1 & C2 & C3 & Ht & Ldata & Lobj & Hoff & Hdb)%shape_fits_bounds.
  destruct (sizes_nonneg r) as (S1 & S2 & S3). pose proof (len_nonneg (response_send_statics r)) as Ls.
  assert (0 <= data_bytes r / 4 <= 64) by (Z.to_euclidean_division_equations; lia).
  change (replicate (Z.to_nat total) 0) with ([] ++ replicate (Z.to_nat total) 0).
  replace (Z.to_nat total) with (Z.to_nat (total - len (@nil Z))) by (rewrite len_nil; lia).
  fold (filled [] total). unfold total_of in Etot.
  intros word0. split; [by rewrite put_u32_filled by (done || (rewrite len_nil; lia) || lia)|].
  rewrite put_u32_filled by (rewrite ?len_to_le_bytes; lia).
  unfold response_head, word0. do 4 f_equal.
  - unfold shl_w. rewrite Z.shiftl_mul_pow2 by lia. apply wrap_small. unfold fits. lia.
  - rewrite <- lor_shift by (unfold fits; lia). do 2 f_equal. apply wrap_small. by destruct (special_needed r).
Qed.

(** The special header, when there is one. *)
Lemma put_handles_filled r total : total = total_of r -> shape_fits r = true ->
  (if special_needed r then put_special r (filled (response_head r) total) 8 else Ok (filled (response_head r) total, 8)) =
  Ok (filled (response_head r ++ response_special r) total, 8 + special_bytes r).
Proof.
  intros Etot (Hd & C1 & C2 & C3 & Ht & _ & _ & Hoff & _)%shape_fits_bounds.
  destruct (sizes_nonneg r) as (S1 & S2 & S3). pose proof (len_nonneg (response_send_statics r)) as Ls.
  assert (len (response_head r) = 8) as Eh by done. destruct (special_needed r) eqn:En.
  - change 8 with (len (response_head r)) at 1. rewrite put_special_filled; [by rewrite Eh|lia|done|done|done|].
    unfold total_of, offset_of in *. rewrite Eh. lia.
  - unfold response_special, special_bytes, special_words. rewrite En.
    destruct (special_needed_handles r En) as (_ & -> & ->). by rewrite app_nil_r.
Qed.

Lemma put_statics_filled r total w : total = total_of r -> shape_fits r = true -> response_ok r ->
  len w = 8 + special_bytes r ->
  put_each encode_send_static 8 (filled w total) (len w) (response_send_statics r) =
    if forallb static_in_range (response_send_statics r)
    then Ok (filled (w ++ mjoin (send_static_words <$> response_send_statics r)) total, offset_of r)
    else Err "send-static descriptor field is out of range"%string.
Proof.
  intros Etot (_ & _ & _ & _ & Ht & _ & _ & Hoff & _)%shape_fits_bounds Hok Hw. destruct (sizes_nonneg r) as (S1 & S2 & S3).
  rewrite (put_each_filled encode_send_static send_static_words 8 total ltac:(lia) ltac:(done)
    (fun d => fits 64 (send_address d) /\ fits 16 (send_size d) /\ fits 8 (send_index d)) static_in_range
    "send-static descriptor field is out of range"%string).
  - replace (len w + 8 * len (response_send_statics r)) with (offset_of r) by (unfold offset_of; lia). done.
  - intros. apply encode_send_static_filled; done || lia.
  - apply Hok.
  - done.
  - unfold total_of, offset_of in *. lia.
Qed.

Lemma encode_bytes r : response_ok r ->
  CmifResponse_encode r =
    match response_layout r with
    | Ok _ =>
        if forallb static_in_range (response_send_statics r)
        then Ok (response_head r ++ response_special r ++ mjoin (send_static_words <$> response_send_statics r) ++ response_words r)
        else Err "send-static descriptor field is out of range"%string
    | Err e => Err e
    | Panic => Panic
    end.
Proof.
  intros Hok. unfold CmifResponse_encode. destruct (response_layout r) as [L|e|] eqn:E; [|done..].
  apply response_layout_gives in E as [Hs ->]. cbn [mbind res_bind].
  destruct (shape_fits_bounds r Hs) as (Hd & C1 & C2 & C3 & Ht & Ldata & Lobj & Hoff & Hdb).
  destruct (sizes_nonneg r) as (S1 & S2 & S3). pose proof (gap_bounds r) as Hgap.
  unfold layout_of. cbn [layout_total layout_data_words has_special layout_data_offset layout_data_start].
  assert (0 <= data_bytes r / 4 <= 64) by (Z.to_euclidean_division_equations; lia).
  unfold try_u32. rewrite !(proj2 (Z.ltb_lt _ _)) by lia. cbn [expect mbind res_bind].
  destruct (put_head_filled r _ eq_refl Hs) as [-> H2]. cbn [mbind res_bind]. rewrite H2. cbn [mbind res_bind].
  rewrite (put_handles_filled r _ eq_refl Hs). cbn [mbind res_bind].
  assert (len (response_head r ++ response_special r) = 8 + special_bytes r) as Hw by (by rewrite len_app, len_response_special).
  rewrite <- Hw, (put_statics_filled r _ _ eq_refl Hs Hok Hw).
  destruct (forallb static_in_range (response_send_statics r)); [|done]. cbn [mbind res_bind].
  rewrite Z.eqb_refl. cbn [negb]. set (w := (response_head r ++ response_special r) ++ _).
  assert (len w = offset_of r) as Hw2.
  { unfold w. rewrite len_app, Hw, (len_mjoin send_static_words 8) by done. unfold offset_of. lia. }
  assert (total_of r = offset_of r + data_bytes r) as Etot by done.
  rewrite (filled_skip w (total_of r) (gap_of r)) by lia. set (w' := w ++ _).
  assert (len w' = offset_of r + gap_of r) as Hw' by (unfold w'; rewrite len_app, len_replicate; lia).
  replace (aligned (offset_of r) 16) with (len w') by (unfold gap_of in *; lia).
  rewrite put_body_filled by lia. unfold filled, response_words. f_equal.
  rewrite len_app, Hw', len_response_body, Etot. unfold w', w. rewrite <- !app_assoc. do 6 f_equal. lia.
Qed.

(** ** Reading a response *)

(** The message a client reads in the bytes [out] of a response. *)
Definition response_message (r : CmifResponse) (out : list Z) : HipcRequest :=
  mkHipc 0 (response_pid r) (response_copy_handles r) (response_move_handles r) (response_send_statics r) [] [] []
    ReceiveNone out
    (8 + len (special_words (special_needed r) (response_pid r) (len (response_copy_handles r)) (len (response_move_handles r))))
    (offset_of r) (total_of r).

Definition response_out (r : CmifResponse) : list Z :=
  response_head r ++ response_special r ++ mjoin (send_static_words <$> response_send_statics r) ++ response_words r.

Lemma response_out_layout r out : response_out r = hipc_layout (response_message r out) (special_needed r) 0 (response_words r).
Proof.
  unfold response_out, hipc_layout, header_words, special_of, table_words, response_special, response_head.
  cbn [response_message command_type pid copy_handles move_handles send_statics send_buffers receive_buffers
    exchange_buffers receive_statics receive_mode receive_words].
  change (mjoin (buffer_words <$> [])) with (@nil Z). change (len (@nil BufferDescriptor)) with 0.
  rewrite len_response_words, !app_nil_r.
  assert (forall a b : Z, 0 + a + 0 * 2 ^ 20 + 0 * 2 ^ 24 + 0 * 2 ^ 28 = a /\ data_bytes r / 4 + 0 * 2 ^ 10 + 0 * 2 ^ 20 + b =
    data_bytes r / 4 + b) as E by lia.
  destruct (E (len (response_send_statics r) * 2 ^ 16) (Z.b2z (special_needed r) * 2 ^ 31)) as [-> ->].
  by rewrite <- !app_assoc.
Qed.

Lemma bytes_ok_app l k : bytes_ok l -> bytes_ok k -> bytes_ok (l ++ k).
Proof. intros. apply Forall_app. by split. Qed.

Lemma bytes_ok_mjoin {A} (words : A -> list Z) l : (forall a, bytes_ok (words a)) -> bytes_ok (mjoin (words <$> l)).
Proof. intros Hw. induction l as [|a l IH]; [by constructor|]. by apply bytes_ok_app. Qed.

Lemma bytes_ok_words_of l : bytes_ok (words_of l).
Proof. apply bytes_ok_mjoin, to_le_bytes_ok. Qed.

Lemma response_out_ok r : response_ok r -> bytes_ok (response_out r).
Proof.
  intros Hok. unfold response_out, response_head, response_special, special_words, response_words, response_body.
  assert (forall n v, bytes_ok (to_le_bytes n v)) as Hle by (intros; apply to_le_bytes_ok).
  assert (forall n, bytes_ok (replicate n 0)) as Hz by (intros; apply bytes_ok_zeros).
  assert (bytes_ok []) as Hnil by constructor. pose proof bytes_ok_words_of as Hws. pose proof (rok_data r Hok) as Hd.
  assert (bytes_ok (mjoin (send_static_words <$> response_send_statics r))) as Hss.
  { apply bytes_ok_mjoin. intros d. by apply bytes_ok_app. }
  assert (bytes_ok (from_option le8 [] (response_pid r))) as Hp by (destruct (response_pid r); [apply Hle|apply Hnil]).
  repeat first [apply Hle | apply Hp | apply Hz | apply Hnil | apply Hws | apply Hd | apply Hss | apply bytes_ok_app | case_match].
Qed.

Lemma statics_ok r : response_ok r -> forallb static_in_range (response_send_statics r) = true ->
  Forall send_static_ok (response_send_statics r).
Proof.
  intros Hok Hs. pose proof (rok_statics r Hok) as Hp. revert Hs Hp. generalize (response_send_statics r) as l.
  intros l. induction l as [|d l IH]; [by constructor|]. cbn [forallb].
  intros ((H1%Z.ltb_lt & H2%Z.ltb_lt)%andb_prop & Hs)%andb_prop Hp. apply Forall_cons in Hp as ((Ha & Hz & Hi) & Hp).
  constructor; [|by apply IH]. unfold send_static_ok, fits in *. lia.
Qed.

Lemma response_decodes r : response_ok r -> shape_fits r = true -> forallb static_in_range (response_send_statics r) = true ->
  HipcRequest_decode (response_out r) = Ok (response_message r (response_out r)) /\
  aligned_data (response_message r (response_out r)) =
    Ok (response_body r ++ replicate (Z.to_nat (data_bytes r - gap_of r - body_bytes r)) 0).
Proof.
  intros Hok Hs Hst. destruct (shape_fits_bounds r Hs) as (Hd & C1 & C2 & C3 & Ht & Ldata & Lobj & Hoff & Hdb).
  pose proof (len_nonneg (response_copy_handles r)). pose proof (len_nonneg (response_move_handles r)).
  pose proof (gap_bounds r). destruct (sizes_nonneg r) as (S1 & S2 & S3).
  assert (len (response_head r) = 8) as Eh by done.
  assert (len (response_out r) = total_of r) as Hlen.
  { unfold response_out. rewrite !len_app, Eh, len_response_special, (len_mjoin send_static_words 8), len_response_words by done.
    unfold total_of, offset_of. lia. }
  split.
  - apply (layout_decodes _ (response_out_ok r Hok) _ (special_needed r) 0 (response_words r)); [lia| | |].
    + rewrite (response_out_layout r (response_out r)). apply reads_all. exists []. by rewrite app_nil_r.
    + destruct Hok. split; cbn; try done; rewrite ?len_nil; try (split; [done|by constructor]).
      * split_and!; [lia|lia|lia|lia|done|]. intros En. destruct (special_needed_handles r En) as (-> & -> & ->). done.
      * split; [done|]. by apply statics_ok.
      * rewrite len_response_words. split; [|lia]. unfold data_bytes, aligned. by rewrite Z.mod_mul.
    + split; [done|done| |].
      * rewrite len_tables. cbn [response_message data_offset handle_offset copy_handles move_handles send_statics
          send_buffers receive_buffers exchange_buffers]. change (len (@nil BufferDescriptor)) with 0.
        pose proof (len_response_special r) as E. unfold response_special in E. rewrite !len_app, !len_words_of in E.
        unfold offset_of. lia.
      * cbn [response_message data_end data_offset]. by rewrite len_response_words.
  - unfold aligned_data. cbn [response_message data_offset]. rewrite align_up_16 by lia.
    cbn [mbind res_bind response_message raw_bytes data_end]. set (pad := replicate (Z.to_nat (data_bytes r - _ - _)) 0).
    assert (response_out r = ((response_head r ++ response_special r ++ mjoin (send_static_words <$> response_send_statics r)) ++
      replicate (Z.to_nat (gap_of r)) 0) ++ (response_body r ++ pad) ++ []) as ->.
    { unfold response_out, response_words, pad. by rewrite app_nil_r, <- !app_assoc. }
    assert (len pad = data_bytes r - gap_of r - body_bytes r) as Hpad by (unfold pad; rewrite len_replicate; lia).
    rewrite get_range_middle; [done| |]; rewrite !len_app, Eh, len_response_special, (len_mjoin send_static_words 8),
      len_replicate by done; rewrite ?len_response_body, ?Hpad; clearbody pad; unfold total_of, gap_of in *; unfold offset_of in *; lia.
Qed.

(** C16: responses are read back.  A response whose handles, descriptors and bytes
    fit the command buffer, with pointers in range, is encoded; decoding the
    bytes gives a message with its process id, handles and descriptors and no
    others, whose aligned data words are the CMIF reply, the output header with
    result and token, the payload and the domain objects, followed by zeros.  Any
    other response is an error. *)
Theorem response_read_back r : response_ok r ->
  if shape_fits r && forallb static_in_range (response_send_statics r) then
    exists out h pad, CmifResponse_encode r = Ok out /\ len out <= 256 /\ HipcRequest_decode out = Ok h /\
      command_type h = 0 /\ pid h = response_pid r /\ copy_handles h = response_copy_handles r /\
      move_handles h = response_move_handles r /\ send_statics h = response_send_statics r /\
      send_buffers h = [] /\ receive_buffers h = [] /\ exchange_buffers h = [] /\ receive_statics h = ReceiveNone /\
      aligned_data h = Ok (response_body r ++ replicate pad 0)
  else exists e, CmifResponse_encode r = Err e.
Proof.
  intros Hok. rewrite encode_bytes by done. destruct (shape_fits r) eqn:Hs; cbn [andb].
  - rewrite (response_layout_ok r Hs). destruct (forallb static_in_range (response_send_statics r)) eqn:Hst; [|by eexists].
    destruct (response_decodes r Hok Hs Hst) as [E1 E2].
    destruct (decode_gives_layout _ (response_out_ok r Hok) _ E1) as [Hlen _].
    exists (response_out r), (response_message r (response_out r)). eexists. split_and!; try done.
  - destruct (response_layout r) eqn:E; [|by eexists|].
    + apply response_layout_gives in E as [E _]. congruence.
    + by apply response_layout_no_panic in E.
Qed.

(** ** Instance: a domain reply *)

Definition sample_response : CmifResponse :=
  mkResponse 7 0 [0; 1] (Some 0x1234) [0x41] [0x42] [mkSendStatic 0x1234_5678 0x20 1] true [0x51; 0x52].

Lemma response_read_back_witness : response_ok sample_response /\ exists out h,
  CmifResponse_encode sample_response = Ok out /\ HipcRequest_decode out = Ok h /\ copy_handles h = [0x41].
Proof.
  assert (response_ok sample_response) as Hok.
  { constructor; try (apply (bool_decide_unpack _); vm_compute; exact I). }
  split; [exact Hok|]. pose proof (response_read_back sample_response Hok) as H.
  assert (shape_fits sample_response && forallb static_in_range (response_send_statics sample_response) = true) as E
    by (vm_compute; reflexivity).
  rewrite E in H. destruct H as (out & h & pad & H1 & _ & H2 & _ & _ & H3 & _). exists out, h. auto.
Defined.
