(* ===== verification/Parcel.v ===== *)
(** * Binder parcels: [crates/horizon/src/parcel.rs]

    The bounded codec of the Binder relay.  A reader keeps its payload and a
    cursor; a writer is the payload written so far.  [i32] values are signed
    integers, a [&str] is the list of its characters' code points, which
    [encode_utf16] turns into code units.  [usize] is 64 bits wide. *)

From Stdlib Require Import ZArith Lia Bool.
From stdpp Require Import base numbers list option strings.
From S2P Require Import Prelude RustInt Bytes.
Local Open Scope Z_scope.

Definition HEADER_SIZE : Z := 16.
Definition MAX_PARCEL_BYTES : Z := 0x4000.

Inductive ParcelError : Set := Malformed (reason : string) | Unsupported (reason : string).

Definition reason (e : ParcelError) : string := match e with Malformed r | Unsupported r => r end.

Record ParcelReader : Set := mkReader { payload : list Z; position : Z }.

Definition set_position (p : Z) (r : ParcelReader) : ParcelReader := mkReader (payload r) p.

Abbreviation reading := (M ParcelReader ParcelError).

(** [try_into().unwrap()] of a slice into four bytes, read as little endian. *)
Definition word_of (bytes : list Z) : res ParcelError Z :=
  value ← expect (try_into 4 bytes);
  Ok (from_le_bytes value).

Definition header_u32 (bytes : list Z) (offset : Z) : res ParcelError Z :=
  value ← ok_or (get_range bytes offset (offset + 4)) (Malformed "Parcel header is truncated");
  word_of value.

Definition decode (encoded : list Z) : res ParcelError ParcelReader :=
  if (len encoded <? HEADER_SIZE) || (MAX_PARCEL_BYTES <? len encoded)
  then Err (Malformed "Parcel has an invalid total size")
  else
    payload_size ← header_u32 encoded 0;
    payload_offset ← header_u32 encoded 4;
    objects_size ← header_u32 encoded 8;
    objects_offset ← header_u32 encoded 12;
    payload_end ← ok_or (checked_add 64 payload_offset payload_size) (Malformed "Parcel payload range overflows");
    objects_end ← ok_or (checked_add 64 objects_offset objects_size) (Malformed "Parcel object range overflows");
    if (payload_offset <? HEADER_SIZE) || (len encoded <? payload_end) || (len encoded <? objects_end)
    then Err (Malformed "Parcel range exceeds its buffer")
    else if negb (objects_size =? 0) then Err (Unsupported "Parcel Binder objects are not supported")
    else
      payload ← expect (get_range encoded payload_offset payload_end);
      Ok (mkReader payload 0).

(** ** Reading *)

Definition read_exact (size : Z) : reading (list Z) :=
  aligned ← lift (ok_or (option_map (fun size => Z.land size (not_w 64 3)) (checked_add 64 size 3))
                    (Malformed "Parcel read size overflows"));
  cursor ← gets position;
  last ← lift (ok_or (checked_add 64 cursor aligned) (Malformed "Parcel cursor overflows"));
  data_end ← lift (ok_or (checked_add 64 cursor size) (Malformed "Parcel cursor overflows"));
  bytes ← gets payload;
  data ← lift (ok_or (get_range bytes cursor data_end) (Malformed "Parcel payload is truncated"));
  _ ← guard_err (len bytes <? last) (Malformed "Parcel alignment exceeds payload");
  _ ← modify (set_position last);
  mret data.

Definition read_u32 : reading Z := bytes ← read_exact 4; lift (word_of bytes).

Definition read_i32 : reading Z := bytes ← read_exact 4; value ← lift (word_of bytes); mret (as_signed 32 value).

Definition read_flattened : reading (list Z) :=
  size ← read_i32;
  fd_count ← read_i32;
  _ ← guard_err ((size <? 0) || negb (fd_count =? 0)) (Malformed "flattened Parcel object header is invalid");
  read_exact size.

(** [str::encode_utf16]. *)
Definition encode_utf16 (text : list Z) : list Z :=
  flat_map (fun c => if c <? 0x10000 then [c]
                     else [0xd800 + (c - 0x10000) / 2 ^ 10; 0xdc00 + (c - 0x10000) mod 2 ^ 10]) text.

(** [chunks_exact(2)] with [u16::from_le_bytes]; [bytes] has even length. *)
Fixpoint units_of (bytes : list Z) : list Z :=
  match bytes with a :: b :: bytes => from_le_bytes [a; b] :: units_of bytes | _ => [] end.

Definition read_interface_token (expected : list Z) : reading unit :=
  policy ← read_u32;
  _ ← guard_err (negb (policy =? 0x100)) (Malformed "Binder interface token policy is invalid");
  length ← read_i32;
  _ ← guard_err (length <? 0) (Malformed "Binder interface token length is negative");
  encoded_bytes ← lift (ok_or (units ← checked_add 64 length 1; if units * 2 <? 2 ^ 64 then Some (units * 2) else None)
                          (Malformed "interface token size overflows"));
  encoded ← read_exact encoded_bytes;
  guard_err (negb (bool_decide (take (Z.to_nat length) (units_of encoded) = encode_utf16 expected))
             || negb (bool_decide (get_range encoded (length * 2) (length * 2 + 2) = Some [0; 0])))
    (Malformed "Binder interface token does not match").

(** ** Writing *)

Definition write_u32 (value : Z) (writer : list Z) : list Z := writer ++ to_le_bytes 4 value.

Definition write_i32 (value : Z) (writer : list Z) : list Z := writer ++ to_le_bytes 4 (wrap 32 value).

(** [Vec::resize(n, 0)] to a length that is not smaller. *)
Definition pad_to (n : Z) (writer : list Z) : list Z := writer ++ replicate (Z.to_nat n - length writer) 0.

Definition write_flattened (value : list Z) (writer : list Z) : res ParcelError (list Z) :=
  size ← ok_or (if len value <? 2 ^ 31 then Some (len value) else None)
           (Malformed "flattened Parcel object is too large");
  let writer := write_i32 size writer in
  let writer := write_i32 0 writer in
  let writer := writer ++ value in
  Ok (pad_to (Z.land (len writer + 3) (not_w 64 3)) writer).

Definition try_u32 (n : Z) : option Z := if n <? 2 ^ 32 then Some n else None.

Definition finish (writer : list Z) : res ParcelError (list Z) :=
  payload_size ← ok_or (try_u32 (len writer)) (Malformed "Parcel response size overflows");
  total ← ok_or (checked_add 64 HEADER_SIZE (len writer)) (Malformed "Parcel response size overflows");
  total_u32 ← ok_or (try_u32 total) (Malformed "Parcel response size overflows");
  Ok (to_le_bytes 4 payload_size ++ to_le_bytes 4 HEADER_SIZE ++ to_le_bytes 4 0 ++ to_le_bytes 4 total_u32 ++ writer).

(** ** Parcels are read back as they were written, and reading is safe *)

(** Rounded up to a multiple of four, as the cursor moves. *)
Definition padded (n : Z) : Z := (n + 3) / 4 * 4.

Lemma clear_low_2 v : 0 <= v < 2 ^ 64 -> Z.land v (not_w 64 3) = v / 4 * 4.
Proof. by apply (clear_low v 2). Qed.

Lemma padded_bounds n : n <= padded n < n + 4.
Proof. unfold padded. Z.to_euclidean_division_equations; lia. Qed.

(** ** Reading one run of bytes *)

Definition reader_ok (r : ParcelReader) : Prop := bytes_ok (payload r) /\ 0 <= position r <= len (payload r) /\ len (payload r) < 2 ^ 32.

Lemma read_exact_eq size r : 0 <= size < 2 ^ 40 -> reader_ok r ->
  read_exact size r =
    if position r + padded size <=? len (payload r)
    then (set_position (position r + padded size) r, Ok (slice (payload r) (Z.to_nat (position r)) (Z.to_nat size)))
    else if position r + size <=? len (payload r) then (r, Err (Malformed "Parcel alignment exceeds payload"))
    else (r, Err (Malformed "Parcel payload is truncated")).
Proof.
  intros Hs (Hb & Hp & Hl). pose proof (padded_bounds size).
  unfold read_exact, checked_add, mbind, M_bind, lift, gets, modify, guard_err, mret, M_ret.
  rewrite (proj2 (Z.ltb_lt (size + 3) _)) by lia. cbn [option_map ok_or]. rewrite clear_low_2 by lia. fold (padded size).
  rewrite !(proj2 (Z.ltb_lt _ _)) by lia. cbn [ok_or]. unfold get_range.
  rewrite (proj2 (Z.leb_le (position r) _)) by lia. cbn [andb].
  replace (position r + size - position r) with size by lia.
  destruct (Z.leb_spec (position r + size) (len (payload r))), (Z.leb_spec (position r + padded size) (len (payload r)));
    cbn [ok_or]; try lia; try done.
  - by rewrite (proj2 (Z.ltb_ge _ _)) by lia.
  - by rewrite (proj2 (Z.ltb_lt _ _)) by lia.
Qed.

(** What a read can do: it keeps the payload, moves the cursor forwards inside it,
    and on an error still leaves a reader. *)
Definition reads_on {A} (m : reading A) (Q : A -> Prop) : Prop := forall r, reader_ok r ->
  match m r with
  | (r', Ok a) => Q a /\ reader_ok r' /\ payload r' = payload r /\ position r <= position r'
  | (r', Err _) => reader_ok r' /\ payload r' = payload r /\ position r <= position r'
  | (_, Panic) => False
  end.

Lemma reads_on_bind {A B} (m : reading A) (f : A -> reading B) Q R :
  reads_on m Q -> (forall a, Q a -> reads_on (f a) R) -> reads_on (m ≫= f) R.
Proof.
  intros Hm Hf r Hr. specialize (Hm r Hr). unfold mbind, M_bind. destruct (m r) as [r1 [a|e|]]; [|done..].
  destruct Hm as (Ha & Hr1 & Hp & Hpos). specialize (Hf a Ha r1 Hr1). destruct (f a r1) as [r2 [b|e|]]; [| |done].
  - destruct Hf as (? & ? & -> & ?). split_and!; try done. lia.
  - destruct Hf as (? & -> & ?). split_and!; try done. lia.
Qed.

Lemma reads_on_ret {A} (a : A) (Q : A -> Prop) : Q a -> reads_on (mret a) Q.
Proof. intros Ha r Hr. cbn. split_and!; done || lia. Qed.

Lemma reads_on_lift {A} (x : res ParcelError A) (Q : A -> Prop) :
  match x with Ok a => Q a | Err _ => True | Panic => False end -> reads_on (lift x) Q.
Proof. intros Hx r Hr. unfold lift. destruct x; cbn; [..|done]; split_and!; done || lia. Qed.

Lemma reads_on_guard b e (Q : unit -> Prop) : Q tt -> reads_on (guard_err b e) Q.
Proof. intros HQ r Hr. unfold guard_err. destruct b; cbn; split_and!; done || lia. Qed.

(** What follows a guard may assume that it passed. *)
Lemma reads_on_guarded {A} b e (f : unit -> reading A) Q : (b = false -> reads_on (f tt) Q) -> reads_on (guard_err b e ≫= f) Q.
Proof.
  intros Hf. destruct b; [|exact (Hf eq_refl)]. intros r Hr. unfold mbind, M_bind, guard_err. split_and!; done || lia.
Qed.

Lemma reads_on_exact size : 0 <= size < 2 ^ 40 -> reads_on (read_exact size) (fun v => len v = size /\ bytes_ok v).
Proof.
  intros Hs r Hr. rewrite read_exact_eq by done. pose proof Hr as (Hb & Hp & Hl). pose proof (padded_bounds size).
  destruct (Z.leb_spec (position r + padded size) (len (payload r))); 
    [|destruct (position r + size <=? len (payload r)); split_and!; done || lia].
  unfold reader_ok. cbn. split_and!; try done; try lia; [|by apply bytes_ok_slice].
  unfold len in *. rewrite slice_length; lia.
Qed.

Lemma word_of_ok v : len v = 4 -> word_of v = Ok (from_le_bytes v).
Proof. unfold len, word_of, try_into. intros. by rewrite decide_True by lia. Qed.

Lemma reads_on_u32 : reads_on read_u32 (fits 32).
Proof.
  eapply reads_on_bind; [by apply reads_on_exact|]. intros v [Hl Hb]. apply reads_on_lift. rewrite word_of_ok by done.
  pose proof (from_le_bytes_fits v Hb) as H. unfold len in Hl. by replace (8 * Z.of_nat (length v)) with 32 in H by lia.
Qed.

Lemma reads_on_i32 : reads_on read_i32 (fun v => - 2 ^ 31 <= v < 2 ^ 31).
Proof.
  eapply reads_on_bind; [by apply reads_on_exact|]. intros v [Hl Hb].
  eapply (reads_on_bind _ _ (fun _ => True)); [apply reads_on_lift; by rewrite word_of_ok|].
  intros w _. apply reads_on_ret. by apply (as_signed_range 32).
Qed.

Lemma reads_on_flattened : reads_on read_flattened bytes_ok.
Proof.
  eapply reads_on_bind; [apply reads_on_i32|]. intros size Hs. eapply reads_on_bind; [apply reads_on_i32|]. intros fds _.
  apply reads_on_guarded. intros [Hn%Z.ltb_ge _]%orb_false_iff. cbn in Hs.
  intros r Hr. pose proof (reads_on_exact size ltac:(lia) r Hr) as H. by destruct (read_exact size r) as [r' [v|e|]]; naive_solver.
Qed.

Lemma reads_on_token expected : reads_on (read_interface_token expected) (fun _ => True).
Proof.
  eapply reads_on_bind; [apply reads_on_u32|]. intros policy _. apply reads_on_guarded. intros _.
  eapply reads_on_bind; [apply reads_on_i32|]. intros n Hn. apply reads_on_guarded. intros Hn'%Z.ltb_ge. cbn in Hn.
  apply (reads_on_bind _ _ (fun size => size = (n + 1) * 2)).
  - apply reads_on_lift. unfold checked_add. rewrite (proj2 (Z.ltb_lt (n + 1) _)) by lia. cbn [mbind option_bind].
    by rewrite (proj2 (Z.ltb_lt ((n + 1) * 2) _)) by lia.
  - intros size ->. eapply reads_on_bind; [apply reads_on_exact; lia|]. intros bytes _. by apply reads_on_guard.
Qed.

(** ** Decoding a parcel *)

Lemma header_u32_spec encoded o : bytes_ok encoded -> 16 <= len encoded < 2 ^ 32 -> 0 <= o <= 12 ->
  exists v, header_u32 encoded o = Ok v /\ fits 32 v /\ v = from_le_bytes (slice encoded (Z.to_nat o) 4).
Proof.
  intros Hb Hl Ho. unfold header_u32, get_range. rewrite !(proj2 (Z.leb_le _ _)) by lia. cbn [andb ok_or mbind res_bind].
  replace (o + 4 - o) with 4 by lia. change (Z.to_nat 4) with 4%nat.
  assert (length (slice encoded (Z.to_nat o) 4) = 4%nat) as Hs by (unfold len in Hl; rewrite slice_length; lia).
  rewrite word_of_ok by (unfold len; lia). eexists. split; [done|]. split; [|done].
  pose proof (from_le_bytes_fits _ (bytes_ok_slice encoded (Z.to_nat o) 4 Hb)) as H. by rewrite Hs in H.
Qed.

(** A decoded parcel is a reader at the start of a payload inside the bytes. *)
Lemma decode_spec encoded : bytes_ok encoded ->
  match decode encoded with
  | Ok r => reader_ok r /\ position r = 0 /\ exists before after, encoded = before ++ payload r ++ after /\ 16 <= len before
  | Err _ => True
  | Panic => False
  end.
Proof.
  intros Hb. unfold decode, HEADER_SIZE, MAX_PARCEL_BYTES.
  destruct (Z.ltb_spec (len encoded) 16); [done|]. destruct (Z.ltb_spec 0x4000 (len encoded)); [done|]. cbn [orb].
  destruct (header_u32_spec encoded 0) as (n & -> & Hn & _); [done|lia..|].
  destruct (header_u32_spec encoded 4) as (o & -> & Ho & _); [done|lia..|].
  destruct (header_u32_spec encoded 8) as (on & -> & Hon & _); [done|lia..|].
  destruct (header_u32_spec encoded 12) as (oo & -> & Hoo & _); [done|lia..|].
  unfold fits, checked_add in *. cbn [mbind res_bind]. rewrite !(proj2 (Z.ltb_lt _ (2 ^ 64))) by lia. cbn [ok_or mbind res_bind].
  destruct (Z.ltb_spec o 16); [done|]. destruct (Z.ltb_spec (len encoded) (o + n)); [done|].
  destruct (Z.ltb_spec (len encoded) (oo + on)); [done|]. cbn [orb]. destruct (negb (on =? 0)); [done|].
  unfold get_range. rewrite !(proj2 (Z.leb_le _ _)) by lia. cbn [andb expect mbind res_bind].
  replace (o + n - o) with n by lia. unfold reader_ok. cbn [payload position]. split_and!.
  - by apply bytes_ok_slice.
  - done.
  - apply len_nonneg.
  - unfold len in *. rewrite slice_length; lia.
  - done.
  - exists (take (Z.to_nat o) encoded), (drop (Z.to_nat o + Z.to_nat n) encoded). unfold slice. split.
    + by rewrite <- drop_drop, take_drop, take_drop.
    + unfold len in *. rewrite length_take. lia.
Qed.

(** ** Items *)

Inductive ParcelItem : Set := ItemI32 (value : Z) | ItemU32 (value : Z) | ItemFlattened (bytes : list Z).

Definition item_ok (i : ParcelItem) : Prop :=
  match i with
  | ItemI32 v => - 2 ^ 31 <= v < 2 ^ 31
  | ItemU32 v => fits 32 v
  | ItemFlattened bytes => bytes_ok bytes /\ len bytes < 2 ^ 31
  end.

Definition write_item (i : ParcelItem) (writer : list Z) : res ParcelError (list Z) :=
  match i with
  | ItemI32 v => Ok (write_i32 v writer)
  | ItemU32 v => Ok (write_u32 v writer)
  | ItemFlattened bytes => write_flattened bytes writer
  end.

(** Reading an item of the same kind. *)
Definition read_item (i : ParcelItem) : reading ParcelItem :=
  match i with
  | ItemI32 _ => v ← read_i32; mret (ItemI32 v)
  | ItemU32 _ => v ← read_u32; mret (ItemU32 v)
  | ItemFlattened _ => v ← read_flattened; mret (ItemFlattened v)
  end.

Fixpoint write_items (items : list ParcelItem) (writer : list Z) : res ParcelError (list Z) :=
  match items with
  | [] => Ok writer
  | i :: items => writer ← write_item i writer; write_items items writer
  end.

Fixpoint read_items (items : list ParcelItem) : reading (list ParcelItem) :=
  match items with
  | [] => mret []
  | i :: items => v ← read_item i; vs ← read_items items; mret (v :: vs)
  end.

Definition padding (bytes : list Z) : list Z := replicate (Z.to_nat (padded (len bytes) - len bytes)) 0.

Definition item_words (i : ParcelItem) : list Z :=
  match i with
  | ItemI32 v => to_le_bytes 4 (wrap 32 v)
  | ItemU32 v => to_le_bytes 4 v
  | ItemFlattened bytes => to_le_bytes 4 (len bytes) ++ to_le_bytes 4 0 ++ bytes ++ padding bytes
  end.

Lemma len_padding bytes : len (padding bytes) = padded (len bytes) - len bytes.
Proof. unfold padding. rewrite len_replicate. pose proof (padded_bounds (len bytes)). lia. Qed.

Lemma len_item_words i : len (item_words i) mod 4 = 0.
Proof.
  destruct i; cbn [item_words]; rewrite ?len_app, ?len_to_le_bytes, ?len_padding; [done|done|].
  unfold padded. Z.to_euclidean_division_equations; lia.
Qed.

Lemma write_item_words i w : item_ok i -> len w mod 4 = 0 -> len w < 2 ^ 40 -> write_item i w = Ok (w ++ item_words i).
Proof.
  intros Hi Hw Hl. destruct i as [v|v|bytes]; cbn [write_item item_words]; [done..|]. destruct Hi as [Hb Hlen].
  unfold write_flattened. rewrite (proj2 (Z.ltb_lt _ _)) by done. cbn [ok_or mbind res_bind]. f_equal.
  unfold write_i32, pad_to. rewrite wrap_small by (unfold fits; pose proof (len_nonneg bytes); lia).
  change (wrap 32 0) with 0. rewrite <- !app_assoc. do 4 f_equal. unfold padding. f_equal.
  pose proof (len_nonneg bytes). pose proof (len_nonneg w). pose proof (padded_bounds (len bytes)).
  rewrite clear_low_2 by (rewrite !len_app, !len_to_le_bytes; lia).
  assert ((len (w ++ to_le_bytes 4 (len bytes) ++ to_le_bytes 4 0 ++ bytes) + 3) / 4 * 4 = len w + 8 + padded (len bytes)) as ->.
  { rewrite !len_app, !len_to_le_bytes. unfold padded. Z.to_euclidean_division_equations; lia. }
  rewrite !length_app, !to_le_bytes_length. unfold len in *. lia.
Qed.

Definition items_words (items : list ParcelItem) : list Z := mjoin (item_words <$> items).

Lemma items_bytes_ok items : Forall item_ok items -> bytes_ok (items_words items).
Proof.
  induction 1 as [|i items Hi _ IH]; [constructor|]. apply Forall_app. split; [|done].
  destruct i as [v|v|bytes]; cbn [item_words]; [apply to_le_bytes_ok..|]. destruct Hi as [Hb _].
  repeat (apply Forall_app; split); try apply to_le_bytes_ok; [done|apply bytes_ok_zeros].
Qed.

Lemma items_words_cons i items : items_words (i :: items) = item_words i ++ items_words items.
Proof. done. Qed.

Lemma write_items_words items w : Forall item_ok items -> len w mod 4 = 0 -> len (w ++ items_words items) < 2 ^ 40 ->
  write_items items w = Ok (w ++ items_words items).
Proof.
  intros Hi. revert w. induction Hi as [|i items Hi _ IH]; intros w Hw Hl; cbn [write_items].
  { by rewrite app_nil_r. }
  rewrite items_words_cons, app_assoc in *. rewrite write_item_words; [|done|done|].
  - cbn [mbind res_bind]. apply IH; [|done]. rewrite len_app. pose proof (len_item_words i).
    Z.to_euclidean_division_equations; lia.
  - rewrite !len_app in Hl. pose proof (len_nonneg (item_words i)). pose proof (len_nonneg (items_words items)). lia.
Qed.

(** ** Reading items *)

Lemma read_exact_piece r before v after : reader_ok r -> len v < 2 ^ 32 ->
  payload r = before ++ v ++ padding v ++ after -> position r = len before ->
  read_exact (len v) r = (set_position (len before + padded (len v)) r, Ok v).
Proof.
  intros Hr Hv E Hp. pose proof (len_nonneg v). rewrite read_exact_eq by (done || lia). rewrite Hp, E.
  rewrite !len_app, len_padding. pose proof (len_nonneg after). rewrite (proj2 (Z.leb_le _ _)) by lia.
  do 2 f_equal. unfold slice, len. rewrite !Nat2Z.id, drop_app_length. apply take_app_length.
Qed.

Lemma read_word_piece r before v after : reader_ok r -> fits 32 v ->
  payload r = before ++ to_le_bytes 4 v ++ after -> position r = len before ->
  read_exact 4 r = (set_position (len before + 4) r, Ok (to_le_bytes 4 v)).
Proof. intros Hr Hv E Hp. by apply (read_exact_piece r before (to_le_bytes 4 v) after). Qed.

Lemma word_of_le v : fits 32 v -> word_of (to_le_bytes 4 v) = Ok v.
Proof. intros Hv. rewrite word_of_ok by done. rewrite from_to_le_bytes. by rewrite wrap_small. Qed.

Lemma read_i32_piece r before v after : reader_ok r -> - 2 ^ 31 <= v < 2 ^ 31 ->
  payload r = before ++ to_le_bytes 4 (wrap 32 v) ++ after -> position r = len before ->
  read_i32 r = (set_position (len before + 4) r, Ok v).
Proof.
  intros Hr Hv E Hp. assert (fits 32 (wrap 32 v)) as Hf by (by apply wrap_fits).
  unfold read_i32, mbind, M_bind. rewrite (read_word_piece r before _ after Hr Hf E Hp).
  unfold lift, mret, M_ret. rewrite word_of_le by done. by rewrite as_signed_wrap, as_signed_small.
Qed.

(** The reader after a piece. *)
Lemma reader_ok_next r p : reader_ok r -> 0 <= p <= len (payload r) -> reader_ok (set_position p r).
Proof. intros (H1 & H2 & H3) Hp. unfold reader_ok. cbn. split_and!; done || lia. Qed.

Lemma read_item_piece r i before after : reader_ok r -> item_ok i ->
  payload r = before ++ item_words i ++ after -> position r = len before ->
  read_item i r = (set_position (len before + len (item_words i)) r, Ok i).
Proof.
  intros Hr Hi E Hp. pose proof (len_nonneg before). pose proof (len_nonneg after).
  destruct i as [v|v|bytes]; cbn [read_item item_words] in *; unfold mbind at 1, M_bind at 1.
  - by rewrite (read_i32_piece r before v after).
  - unfold read_u32, mbind, M_bind. rewrite (read_word_piece r before v after Hr Hi E Hp).
    unfold lift. by rewrite word_of_le.
  - destruct Hi as [Hb Hl]. pose proof (len_nonneg bytes). pose proof (padded_bounds (len bytes)).
    assert (len (payload r) = len before + 8 + padded (len bytes) + len after) as Hpl.
    { rewrite E, !len_app, !len_to_le_bytes, len_padding. lia. }
    unfold read_flattened. unfold mbind at 1, M_bind at 1.
    rewrite (read_i32_piece r before (len bytes) (to_le_bytes 4 0 ++ bytes ++ padding bytes ++ after)); [|done|lia| |done].
    2: { rewrite E, wrap_small by (unfold fits; lia). by rewrite <- !app_assoc. }
    set (r1 := set_position _ r). assert (reader_ok r1) as Hr1 by (apply reader_ok_next; [done|lia]).
    unfold mbind at 1, M_bind at 1.
    rewrite (read_i32_piece r1 (before ++ to_le_bytes 4 (len bytes)) 0 (bytes ++ padding bytes ++ after)); [|done|lia| |].
    2: { cbn. rewrite E. by rewrite <- !app_assoc. }
    2: { cbn [r1 position set_position]. by rewrite len_app. }
    set (r2 := set_position _ r1). assert (reader_ok r2) as Hr2.
    { apply reader_ok_next; [done|]. rewrite len_app, len_to_le_bytes. cbn [r1 set_position payload]. lia. }
    unfold mbind at 1, M_bind at 1, guard_err. rewrite (proj2 (Z.ltb_ge _ _)) by lia. change (negb (0 =? 0)) with false. cbn [orb].
    rewrite (read_exact_piece r2 (before ++ to_le_bytes 4 (len bytes) ++ to_le_bytes 4 0) bytes after); [|done|lia| |].
    + unfold mret, M_ret. unfold r2, r1, set_position. cbn [payload]. do 2 f_equal.
      rewrite !len_app, !len_to_le_bytes, len_padding. lia.
    + cbn. rewrite E. by rewrite <- !app_assoc.
    + cbn [r2 position set_position]. rewrite !len_app, !len_to_le_bytes. lia.
Qed.

Lemma read_items_piece items r before after : reader_ok r -> Forall item_ok items ->
  payload r = before ++ items_words items ++ after -> position r = len before ->
  read_items items r = (set_position (len before + len (items_words items)) r, Ok items).
Proof.
  intros Hr Hi. revert r before Hr. induction Hi as [|i items Hi _ IH]; intros r before Hr E Hp; cbn [read_items].
  - destruct r. cbn in *. subst. unfold set_position, items_words. cbn. by rewrite Z.add_0_r.
  - rewrite items_words_cons in *. rewrite <- app_assoc in E. unfold mbind at 1, M_bind at 1.
    rewrite (read_item_piece r i before (items_words items ++ after)) by done.
    unfold mbind, M_bind. rewrite (IH _ (before ++ item_words i)).
    + unfold mret, M_ret, set_position. cbn [payload]. do 2 f_equal. rewrite !len_app. lia.
    + apply reader_ok_next; [done|]. rewrite E, !len_app. pose proof (len_nonneg before).
      pose proof (len_nonneg (item_words i)). pose proof (len_nonneg (items_words items)). pose proof (len_nonneg after). lia.
    + cbn. by rewrite E, <- app_assoc.
    + cbn. by rewrite len_app.
Qed.

(** ** A finished parcel *)

Lemma header_u32_piece a v b o : fits 32 v -> o = len a -> header_u32 (a ++ to_le_bytes 4 v ++ b) o = Ok v.
Proof.
  intros Hv ->. unfold header_u32. rewrite get_range_middle by (rewrite ?len_to_le_bytes; done).
  cbn [ok_or mbind res_bind]. by apply word_of_le.
Qed.

Definition parcel_bytes (writer : list Z) : list Z :=
  to_le_bytes 4 (len writer) ++ to_le_bytes 4 HEADER_SIZE ++ to_le_bytes 4 0 ++ to_le_bytes 4 (HEADER_SIZE + len writer) ++ writer.

Lemma finish_bytes writer : HEADER_SIZE + len writer < 2 ^ 32 -> finish writer = Ok (parcel_bytes writer).
Proof.
  intros Hl. pose proof (len_nonneg writer). unfold finish, try_u32, checked_add, HEADER_SIZE in *.
  rewrite (proj2 (Z.ltb_lt (len writer) _)) by lia. cbn [ok_or mbind res_bind].
  rewrite (proj2 (Z.ltb_lt _ (2 ^ 64))) by lia. cbn [ok_or mbind res_bind].
  rewrite (proj2 (Z.ltb_lt _ (2 ^ 32))) by lia. done.
Qed.

Lemma decode_parcel_bytes writer :
  decode (parcel_bytes writer) =
    if len writer + HEADER_SIZE <=? MAX_PARCEL_BYTES then Ok (mkReader writer 0)
    else Err (Malformed "Parcel has an invalid total size").
Proof.
  pose proof (len_nonneg writer). unfold decode, HEADER_SIZE, MAX_PARCEL_BYTES in *.
  assert (len (parcel_bytes writer) = 16 + len writer) as Hl.
  { unfold parcel_bytes. rewrite !len_app, !len_to_le_bytes. lia. }
  rewrite Hl. rewrite (proj2 (Z.ltb_ge (16 + len writer) 16)) by lia. cbn [orb].
  destruct (Z.ltb_spec 0x4000 (16 + len writer)), (Z.leb_spec (len writer + 16) 0x4000); try lia; [done|].
  assert (header_u32 (parcel_bytes writer) 0 = Ok (len writer)) as ->.
  { unfold parcel_bytes. apply (header_u32_piece []); [unfold fits; lia|done]. }
  assert (header_u32 (parcel_bytes writer) 4 = Ok 16) as ->.
  { unfold parcel_bytes. by apply header_u32_piece. }
  assert (header_u32 (parcel_bytes writer) 8 = Ok 0) as ->.
  { unfold parcel_bytes. rewrite app_assoc. by apply header_u32_piece. }
  assert (header_u32 (parcel_bytes writer) 12 = Ok (16 + len writer)) as ->.
  { unfold parcel_bytes. rewrite app_assoc, (app_assoc (_ ++ _)). apply header_u32_piece; [unfold fits, HEADER_SIZE; lia|done]. }
  unfold checked_add. cbn [mbind res_bind]. rewrite !(proj2 (Z.ltb_lt _ (2 ^ 64))) by lia. cbn [ok_or mbind res_bind].
  rewrite (proj2 (Z.ltb_ge 16 16)) by lia. rewrite !(proj2 (Z.ltb_ge (16 + len writer) _)) by lia. cbn [orb].
  change (negb (0 =? 0)) with false. cbv iota. unfold parcel_bytes.
  rewrite !app_assoc. rewrite <- (app_nil_r (_ ++ writer)), <- app_assoc, get_range_middle; [done|done|].
  by rewrite !len_app, !len_to_le_bytes.
Qed.

(** ** Interface tokens *)

Definition token_bytes (text : list Z) : list Z :=
  mjoin (to_le_bytes 2 <$> encode_utf16 text) ++ [0; 0].

(** The token of an interface name, with the padding of its bytes. *)
Definition token_words (text : list Z) : list Z :=
  to_le_bytes 4 0x100 ++ to_le_bytes 4 (len (encode_utf16 text)) ++ token_bytes text ++ padding (token_bytes text).

Definition scalar_ok (c : Z) : Prop := 0 <= c < 0xd800 \/ 0xe000 <= c < 0x110000.

Lemma encode_utf16_cons c text : encode_utf16 (c :: text) =
  (if c <? 0x10000 then [c] else [0xd800 + (c - 0x10000) / 2 ^ 10; 0xdc00 + (c - 0x10000) mod 2 ^ 10]) ++ encode_utf16 text.
Proof. done. Qed.

Lemma encode_utf16_fits text : Forall scalar_ok text -> Forall (fits 16) (encode_utf16 text).
Proof.
  induction 1 as [|c text Hc _ IH]; [constructor|]. rewrite encode_utf16_cons. apply Forall_app. split; [|done].
  unfold scalar_ok in Hc. destruct (Z.ltb_spec c 0x10000); repeat constructor; Z.to_euclidean_division_equations; lia.
Qed.

Lemma encode_utf16_inj a b : Forall scalar_ok a -> Forall scalar_ok b -> encode_utf16 a = encode_utf16 b -> a = b.
Proof.
  intros Ha. revert b. induction Ha as [|c a Hc _ IH]; intros b Hb E.
  - destruct Hb as [|d b Hd _]; [done|]. rewrite encode_utf16_cons in E. by destruct (d <? 0x10000).
  - destruct Hb as [|d b Hd Hb]; rewrite ?encode_utf16_cons in E; [by destruct (c <? 0x10000)|].
    unfold scalar_ok in *. destruct (Z.ltb_spec c 0x10000), (Z.ltb_spec d 0x10000); cbn in E.
    + injection E as -> E. f_equal. by apply IH.
    + injection E as -> E. exfalso. Z.to_euclidean_division_equations; lia.
    + injection E as E1 E. exfalso. Z.to_euclidean_division_equations; lia.
    + injection E as E1 E2 E. f_equal; [Z.to_euclidean_division_equations; lia|by apply IH].
Qed.

Lemma units_of_bytes units : Forall (fits 16) units -> forall rest,
  units_of (mjoin (to_le_bytes 2 <$> units) ++ rest) = units ++ units_of rest.
Proof.
  induction 1 as [|u units Hu _ IH]; intros rest; [done|].
  change (mjoin (to_le_bytes 2 <$> u :: units) ++ rest) with (to_le_bytes 2 u ++ mjoin (to_le_bytes 2 <$> units) ++ rest).
  cbn [to_le_bytes app units_of]. rewrite IH. f_equal.
  change [wrap 8 u; wrap 8 (u / 2 ^ 8)] with (to_le_bytes 2 u). rewrite from_to_le_bytes. by apply wrap_small.
Qed.

Lemma len_token_bytes text : len (token_bytes text) = 2 * (len (encode_utf16 text) + 1).
Proof.
  unfold token_bytes. generalize (encode_utf16 text) as l. intros l.
  assert (len (mjoin (to_le_bytes 2 <$> l)) = 2 * len l) as E.
  { induction l as [|u l IH]; [done|]. change (mjoin (to_le_bytes 2 <$> u :: l)) with (to_le_bytes 2 u ++ mjoin (to_le_bytes 2 <$> l)).
    rewrite len_app, len_to_le_bytes, IH. unfold len. cbn. lia. }
  rewrite len_app, E. change (len [0; 0]) with 2. lia.
Qed.

Lemma read_u32_piece r before v after : reader_ok r -> fits 32 v ->
  payload r = before ++ to_le_bytes 4 v ++ after -> position r = len before ->
  read_u32 r = (set_position (len before + 4) r, Ok v).
Proof.
  intros Hr Hv E Hp. unfold read_u32. rewrite (M_bind_ok _ _ _ _ _ (read_word_piece r before v after Hr Hv E Hp)).
  unfold lift. by rewrite word_of_le.
Qed.

Lemma guard_passes {A} (e : ParcelError) (f : unit -> reading A) r : (guard_err false e ≫= f) r = f tt r.
Proof. done. Qed.

(** Comparing a token's bytes with the expected name. *)
Lemma token_matches text expected : Forall scalar_ok text -> let n := len (encode_utf16 text) in
  negb (bool_decide (take (Z.to_nat n) (units_of (token_bytes text)) = encode_utf16 expected))
  || negb (bool_decide (get_range (token_bytes text) (n * 2) (n * 2 + 2) = Some [0; 0])) =
  negb (bool_decide (encode_utf16 text = encode_utf16 expected)).
Proof.
  intros Ht n. pose proof (len_token_bytes text) as Hl. fold n in Hl.
  assert (get_range (token_bytes text) (n * 2) (n * 2 + 2) = Some [0; 0]) as ->.
  { unfold token_bytes in *. set (u := mjoin (to_le_bytes 2 <$> encode_utf16 text)) in *.
    rewrite <- (app_nil_r (u ++ _)), <- app_assoc. rewrite len_app in Hl. change (len [0; 0]) with 2 in Hl.
    apply get_range_middle; [lia|]. change (len [0; 0]) with 2. lia. }
  rewrite (bool_decide_true (Some [0; 0] = _)) by done. rewrite orb_false_r. unfold token_bytes.
  rewrite units_of_bytes by (by apply encode_utf16_fits). unfold n, len. by rewrite Nat2Z.id, take_app_length.
Qed.

(** Reading the three parts of a token, for whatever name is expected. *)
Lemma read_token_parts r before text expected after : reader_ok r -> Forall scalar_ok text -> len (encode_utf16 text) < 2 ^ 30 ->
  payload r = before ++ token_words text ++ after -> position r = len before ->
  read_interface_token expected r =
    (set_position (len before + len (token_words text)) r,
     if bool_decide (encode_utf16 text = encode_utf16 expected) then Ok tt
     else Err (Malformed "Binder interface token does not match")).
Proof.
  intros Hr Ht Hn E Hp. pose proof (token_matches text expected Ht) as Hm. pose proof (len_token_bytes text) as Htb.
  pose proof (len_nonneg (encode_utf16 text)) as Hn0. set (n := len (encode_utf16 text)) in *. cbv zeta in Hm.
  pose proof (len_nonneg before). pose proof (len_nonneg after). pose proof (padded_bounds (len (token_bytes text))).
  assert (len (token_words text) = 8 + padded (len (token_bytes text))) as Htw.
  { unfold token_words. rewrite !len_app, !len_to_le_bytes, len_padding. lia. }
  assert (len (payload r) = len before + 8 + padded (len (token_bytes text)) + len after) as Hpl.
  { rewrite E, !len_app, Htw. lia. }
  unfold token_words in E. fold n in E. rewrite <- !app_assoc in E. unfold read_interface_token.
  assert (fits 32 0x100) as H256 by done.
  rewrite (M_bind_ok _ _ _ _ _ (read_u32_piece r before 0x100 _ Hr H256 E Hp)).
  change (negb (0x100 =? 0x100)) with false. rewrite guard_passes.
  set (r1 := set_position _ r). assert (reader_ok r1) as Hr1 by (apply reader_ok_next; [done|lia]).
  rewrite (M_bind_ok _ _ _ _ _ (read_i32_piece r1 (before ++ to_le_bytes 4 0x100) n
    (token_bytes text ++ padding (token_bytes text) ++ after) Hr1 ltac:(lia)
    ltac:(rewrite wrap_small by (unfold fits; lia); cbn [r1 payload set_position]; by rewrite E, <- !app_assoc)
    ltac:(cbn [r1 position set_position]; by rewrite len_app))).
  rewrite (proj2 (Z.ltb_ge n 0)) by lia. rewrite guard_passes. unfold checked_add.
  rewrite (proj2 (Z.ltb_lt (n + 1) _)) by lia. cbn [mbind option_bind].
  rewrite (proj2 (Z.ltb_lt ((n + 1) * 2) _)) by lia. cbn [ok_or]. rewrite (M_bind_lift_ok _ _ _ _ eq_refl).
  replace ((n + 1) * 2) with (len (token_bytes text)) by lia.
  set (r2 := set_position _ r1). assert (reader_ok r2) as Hr2.
  { apply reader_ok_next; [done|]. rewrite len_app, len_to_le_bytes. cbn [r1 set_position payload]. lia. }
  rewrite (M_bind_ok _ _ _ _ _ (read_exact_piece r2 (before ++ to_le_bytes 4 0x100 ++ to_le_bytes 4 n) (token_bytes text) after
    Hr2 ltac:(lia) ltac:(cbn [r2 r1 payload set_position]; by rewrite E, <- !app_assoc)
    ltac:(cbn [r2 position set_position]; rewrite !len_app, !len_to_le_bytes; lia))).
  rewrite Hm. unfold guard_err. unfold r2, r1, set_position. cbn [payload].
  replace (len (before ++ to_le_bytes 4 256 ++ to_le_bytes 4 n) + padded (len (token_bytes text)))
    with (len before + len (token_words text)) by (rewrite !len_app, !len_to_le_bytes; lia).
  by destruct (bool_decide (encode_utf16 text = encode_utf16 expected)).
Qed.

(** ** What reading and writing guarantee *)

(** C17: parcels are read back.  Any sequence of integers and byte blocks written
    one after the other makes a parcel; if it is no longer than the limit of
    0x4000 bytes, decoding it and reading the same kinds in the same order gives
    the values back and leaves the cursor at the end, and otherwise, up to the
    2^31 bytes its size fields can name, decoding rejects it. *)
Theorem parcel_round_trip items : Forall item_ok items -> len (items_words items) < 2 ^ 31 ->
  exists writer encoded, write_items items [] = Ok writer /\ finish writer = Ok encoded /\
    if len writer + HEADER_SIZE <=? MAX_PARCEL_BYTES then
      exists r, decode encoded = Ok r /\ read_items items r = (set_position (len (payload r)) r, Ok items)
    else decode encoded = Err (Malformed "Parcel has an invalid total size").
Proof.
  intros Hi Hl. exists (items_words items), (parcel_bytes (items_words items)).
  split; [by rewrite write_items_words by (done || (cbn; lia))|].
  split; [apply finish_bytes; unfold HEADER_SIZE; lia|]. rewrite decode_parcel_bytes. unfold HEADER_SIZE.
  destruct (len (items_words items) + 16 <=? MAX_PARCEL_BYTES); [|done]. eexists. split; [done|].
  rewrite (read_items_piece items _ [] []).
  - done.
  - unfold reader_ok. cbn. pose proof (len_nonneg (items_words items)).
    split_and!; [|done|done|lia]. apply items_bytes_ok. done.
  - done.
  - cbn. by rewrite app_nil_r.
  - done.
Qed.

Lemma parcel_round_trip_witness : exists writer encoded,
  write_items [ItemI32 (-7); ItemFlattened [1; 2; 3]; ItemU32 9] [] = Ok writer /\ finish writer = Ok encoded /\
  exists r, decode encoded = Ok r /\
    read_items [ItemI32 (-7); ItemFlattened [1; 2; 3]; ItemU32 9] r =
      (set_position (len (payload r)) r, Ok [ItemI32 (-7); ItemFlattened [1; 2; 3]; ItemU32 9]).
Proof.
  assert (Forall item_ok [ItemI32 (-7); ItemFlattened [1; 2; 3]; ItemU32 9]) as Hi.
  { repeat constructor; cbn; try done. }
  destruct (parcel_round_trip _ Hi ltac:(done)) as (w & e & H1 & H2 & H3). exists w, e. split; [exact H1|]. split; [exact H2|].
  vm_compute in H1. injection H1 as <-. exact H3.
Defined.

(** Reading a parcel is safe.  Decoding any bytes gives an error or a reader on
    a payload inside them; from any reader every read returns a value in its
    range or an error, never panics, and leaves a reader of the same payload
    whose cursor has not moved back and is still inside it. *)
Theorem parcel_reading_safe encoded expected size : bytes_ok encoded -> 0 <= size < 2 ^ 40 ->
  match decode encoded with
  | Ok r => reader_ok r /\ position r = 0 /\ exists before after, encoded = before ++ payload r ++ after /\ 16 <= len before
  | Err _ => True
  | Panic => False
  end /\
  reads_on (read_exact size) (fun v => len v = size /\ bytes_ok v) /\ reads_on read_u32 (fits 32) /\
  reads_on read_i32 (fun v => - 2 ^ 31 <= v < 2 ^ 31) /\ reads_on read_flattened bytes_ok /\
  reads_on (read_interface_token expected) (fun _ => True).
Proof.
  intros Hb Hs. split_and!; [by apply decode_spec|by apply reads_on_exact|apply reads_on_u32|apply reads_on_i32|
    apply reads_on_flattened|apply reads_on_token].
Qed.

Lemma parcel_reading_safe_witness : bytes_ok (parcel_bytes [1; 0; 0; 0]) /\ reads_on read_u32 (fits 32).
Proof.
  assert (bytes_ok (parcel_bytes [1; 0; 0; 0])) as Hb by (apply (bool_decide_unpack _); vm_compute; exact I).
  split; [exact Hb|]. exact (proj1 (proj2 (proj2 (parcel_reading_safe _ [] 4 Hb ltac:(lia))))).
Defined.

(** C21: an interface token names one interface.  Where a payload holds the token of
    a name, reading it consumes the token and succeeds exactly when the expected
    name is that name, surrogate pairs included. *)
Theorem interface_token_exact r before text expected after : reader_ok r ->
  Forall scalar_ok text -> Forall scalar_ok expected -> len (encode_utf16 text) < 2 ^ 30 ->
  payload r = before ++ token_words text ++ after -> position r = len before ->
  exists r', position r' = len before + len (token_words text) /\ payload r' = payload r /\
    read_interface_token expected r =
      (r', if decide (text = expected) then Ok tt else Err (Malformed "Binder interface token does not match")).
Proof.
  intros Hr Ht He Hn E Hp. exists (set_position (len before + len (token_words text)) r). split; [done|]. split; [done|].
  rewrite (read_token_parts r before text expected after) by done. f_equal.
  destruct (decide (text = expected)) as [->|Hne]; [by rewrite bool_decide_true|].
  rewrite bool_decide_false; [done|]. intros Eq. by apply encode_utf16_inj in Eq.
Qed.

(** "IGBP" with a character outside the basic plane. *)
Definition sample_name : list Z := [0x49; 0x47; 0x42; 0x50; 0x1f3ae].

Lemma interface_token_exact_witness :
  exists r', read_interface_token sample_name (mkReader (token_words sample_name) 0) = (r', Ok tt).
Proof.
  assert (Forall scalar_ok sample_name) as Hs by (repeat constructor; unfold scalar_ok; lia).
  assert (reader_ok (mkReader (token_words sample_name) 0)) as Hr.
  { split; [apply (bool_decide_unpack _); vm_compute; exact I|split; [split|]; vm_compute; congruence]. }
  destruct (interface_token_exact (mkReader (token_words sample_name) 0) [] sample_name sample_name [] Hr Hs Hs
    ltac:(vm_compute; reflexivity) ltac:(cbn [payload app]; symmetry; apply app_nil_r) eq_refl) as (r' & _ & _ & H).
  exists r'. rewrite H. by rewrite decide_True.
Defined.
