(* ===== verification/Events.v ===== *)
(** * Runtime events: [crates/runtime/src/handle/event.rs]

    An event is an atomic flag, a generation behind a lock, the observers to call
    at the next signal, and a condition variable.  The condition variable is the
    set of host threads asleep on it.  Each definition is one section of a method
    that other threads cannot interrupt: one access to the flag, or one section
    under the lock.  [EventSystem] runs such sections of many threads in any
    order.  Times are integers; [W] is the type of observers. *)

From Stdlib Require Import ZArith Lia Bool.
From stdpp Require Import base gmap list numbers option relations sorting.
From S2P Require Import Prelude RustInt RustList.
Local Open Scope Z_scope.

(** [external_event.rs]: what an event comes from. *)
Inductive ExternalEventSource : Set :=
  | Timer | Device | GpuCompletion | Display | Input | Ipc | Worker.

Abbreviation HostThread := Z.

Inductive EventWaitOutcome : Set := Signalled | TimedOut.

Section Event.
Context {W : Type}.

Record EventGeneration : Type := mkGeneration {
  value : Z; next_watcher_id : Z; watchers : gmap Z W }.

Record EventState : Type := mkEvent {
  signalled : bool;
  source : option ExternalEventSource;
  generation : EventGeneration;
  changed : gset HostThread }.

Definition with_source (source : option ExternalEventSource) : EventState :=
  mkEvent false source (mkGeneration 0 1 ∅) ∅.

Definition new_event : EventState := with_source None.

Definition is_signalled (s : EventState) : bool := signalled s.

Definition store_signalled (b : bool) (s : EventState) : EventState :=
  mkEvent b (source s) (generation s) (changed s).

Definition set_generation (g : EventGeneration) (s : EventState) : EventState :=
  mkEvent (signalled s) (source s) g (changed s).

Definition set_changed (threads : gset HostThread) (s : EventState) : EventState :=
  mkEvent (signalled s) (source s) (generation s) threads.

(** The locked section of [signal], with the observers it calls afterwards:
    [mem::take] and [notify_all]. *)
Definition publish (s : EventState) : EventState * list (Z * W) :=
  let g := generation s in
  let taken := in_key_order (watchers g) in
  let g := mkGeneration (wrapping_add 64 (value g) 1) (next_watcher_id g) ∅ in
  (set_changed ∅ (set_generation g s), taken).

Definition signal (s : EventState) : EventState * list (Z * W) := publish (store_signalled true s).

Definition clear (s : EventState) : EventState := store_signalled false s.

(** [watch]: the registration's identity, and whether the observer is called now. *)
Definition watch (watcher : W) (s : EventState) : EventState * Z * bool :=
  let g := generation s in
  let id := next_watcher_id g in
  let next := Z.max (wrapping_add 64 (next_watcher_id g) 1) 1 in
  let notify_now := is_signalled s in
  let kept := if notify_now then watchers g else <[id := watcher]> (watchers g) in
  (set_generation (mkGeneration (value g) next kept) s, id, notify_now).

(** [EventWatchRegistration::drop]. *)
Definition drop_registration (id : Z) (s : EventState) : EventState :=
  let g := generation s in
  set_generation (mkGeneration (value g) (next_watcher_id g) (delete id (watchers g))) s.

(** ** The parts of [wait_until] *)

(** The condition at the top of the loop. *)
Definition wait_ready (observed : Z) (s : EventState) : bool :=
  is_signalled s || negb (value (generation s) =? observed).

(** [now >= deadline]; no deadline never passes. *)
Definition deadline_passed (deadline : option Z) (now : Z) : bool :=
  match deadline with Some deadline => deadline <=? now | None => false end.

(** The check after [wait_timeout]; [wait] reports no timeout. *)
Definition gives_up (deadline : option Z) (timed_out : bool) (now : Z) : bool :=
  timed_out && deadline_passed deadline now.

(** [Condvar::wait] and [wait_timeout] go to sleep and come back. *)
Definition fall_asleep (t : HostThread) (s : EventState) : EventState := set_changed (changed s ∪ {[t]}) s.
Definition wake_up (t : HostThread) (s : EventState) : EventState := set_changed (changed s ∖ {[t]}) s.

(** ** Threads

    Where a thread is in [signal] or [wait_until]. *)
Inductive Phase : Set :=
  | Idle
  | Signalling
  | Entering (deadline : option Z)
  | Looping (observed : Z) (deadline : option Z)
  | Checked (observed : Z) (deadline : option Z)
  | Sleeping (observed : Z) (deadline : option Z)
  | Returned (outcome : EventWaitOutcome) (deadline : option Z).

Record EventSystem : Type := mkSystem {
  event : EventState; lock : option HostThread; phases : gmap HostThread Phase; clock : Z }.

Definition phase (sys : EventSystem) (t : HostThread) : Phase := default Idle (phases sys !! t).

Definition move (t : HostThread) (p : Phase) (holder : option HostThread) (e : EventState) (sys : EventSystem) : EventSystem :=
  mkSystem e holder (<[t := p]> (phases sys)) (clock sys).

Definition with_event (e : EventState) (sys : EventSystem) : EventSystem :=
  mkSystem e (lock sys) (phases sys) (clock sys).

Inductive event_step (sys : EventSystem) : EventSystem -> Prop :=
  | signal_store t : phase sys t = Idle ->
      event_step sys (move t Signalling (lock sys) (store_signalled true (event sys)) sys)
  | signal_publish t : phase sys t = Signalling -> lock sys = None ->
      event_step sys (move t Idle None (fst (publish (event sys))) sys)
  | clear_flag : event_step sys (with_event (clear (event sys)) sys)
  | add_watch w : lock sys = None ->
      event_step sys (with_event (fst (fst (watch w (event sys)))) sys)
  | drop_watch id : lock sys = None ->
      event_step sys (with_event (drop_registration id (event sys)) sys)
  | wait_at_once t deadline : phase sys t = Idle -> is_signalled (event sys) = true ->
      event_step sys (move t (Returned Signalled deadline) (lock sys) (event sys) sys)
  | wait_enter t deadline : phase sys t = Idle -> is_signalled (event sys) = false ->
      event_step sys (move t (Entering deadline) (lock sys) (event sys) sys)
  | wait_lock t deadline : phase sys t = Entering deadline -> lock sys = None ->
      event_step sys (move t (Looping (value (generation (event sys))) deadline) (Some t) (event sys) sys)
  | wait_seen t observed deadline : phase sys t = Looping observed deadline ->
      wait_ready observed (event sys) = true ->
      event_step sys (move t (Returned Signalled deadline) None (event sys) sys)
  | wait_unseen t observed deadline : phase sys t = Looping observed deadline ->
      wait_ready observed (event sys) = false ->
      event_step sys (move t (Checked observed deadline) (lock sys) (event sys) sys)
  | wait_late t observed deadline : phase sys t = Checked observed deadline ->
      deadline_passed deadline (clock sys) = true ->
      event_step sys (move t (Returned TimedOut deadline) None (event sys) sys)
  | wait_sleep t observed deadline : phase sys t = Checked observed deadline ->
      deadline_passed deadline (clock sys) = false ->
      event_step sys (move t (Sleeping observed deadline) None (fall_asleep t (event sys)) sys)
  | wait_give_up t observed deadline timed_out : phase sys t = Sleeping observed deadline -> lock sys = None ->
      gives_up deadline timed_out (clock sys) = true ->
      event_step sys (move t (Returned TimedOut deadline) None (wake_up t (event sys)) sys)
  | wait_again t observed deadline timed_out : phase sys t = Sleeping observed deadline -> lock sys = None ->
      gives_up deadline timed_out (clock sys) = false ->
      event_step sys (move t (Looping observed deadline) (Some t) (wake_up t (event sys)) sys)
  | wait_done t outcome deadline : phase sys t = Returned outcome deadline ->
      event_step sys (move t Idle (lock sys) (event sys) sys)
  | time_passes later : clock sys <= later ->
      event_step sys (mkSystem (event sys) (lock sys) (phases sys) later).

Definition initial_system (source : option ExternalEventSource) (now : Z) : EventSystem :=
  mkSystem (with_source source) None ∅ now.

(** ** One event's operations in the order they happen *)

Inductive EventAction : Type :=
  | StoreFlag (b : bool)
  | Publish
  | Watch (watcher : W)
  | DropRegistration (id : Z).

(** The state and the observers called. *)
Definition act (a : EventAction) (s : EventState) : EventState * list (Z * W) :=
  match a with
  | StoreFlag b => (store_signalled b s, [])
  | Publish => publish s
  | Watch w => let '(s, id, now) := watch w s in (s, if now then [(id, w)] else [])
  | DropRegistration id => (drop_registration id s, [])
  end.

Fixpoint act_all (actions : list EventAction) (s : EventState) : EventState * list (Z * W) :=
  match actions with
  | [] => (s, [])
  | a :: actions =>
      let '(s, called) := act a s in
      let '(s, more) := act_all actions s in
      (s, called ++ more)
  end.
End Event.
Arguments EventGeneration : clear implicits.
Arguments EventState : clear implicits.
Arguments EventSystem : clear implicits.
Arguments EventAction : clear implicits.

(** ** No signal is lost

    The invariant of [EventSystem]: a thread that has seen the flag down, and
    would sleep through it, is owed a wake-up by some thread inside [signal]. *)

Section Threads.
Context {W : Type}.
Implicit Types (sys : EventSystem W) (t u : HostThread).

Lemma phase_move t p holder e sys u : phase (move t p holder e sys) u = if decide (t = u) then p else phase sys u.
Proof.
  unfold phase, move. cbn. destruct (decide (t = u)) as [<-|Hne]; [by rewrite lookup_insert_eq|by rewrite lookup_insert_ne].
Qed.

(** A thread past the check of the loop that no [notify_all] has reached. *)
Definition unnotified sys t : Prop :=
  (exists o d, phase sys t = Checked o d) \/ (exists o d, phase sys t = Sleeping o d /\ t ∈ changed (event sys)).

(** The generation a waiting thread saw. *)
Definition observes (p : Phase) (o : Z) : Prop :=
  exists d, p = Looping o d \/ p = Checked o d \/ p = Sleeping o d.

Record event_inv (n : Z) sys : Prop := {
  inv_lock : forall t o d, phase sys t = Looping o d \/ phase sys t = Checked o d -> lock sys = Some t;
  inv_value : 0 <= value (generation (event sys)) <= n;
  inv_observed : forall t o, observes (phase sys t) o -> o <= value (generation (event sys));
  inv_notified : forall t o d, phase sys t = Sleeping o d -> t ∉ changed (event sys) -> o < value (generation (event sys));
  inv_owed : signalled (event sys) = true -> forall t, unnotified sys t -> exists u, phase sys u = Signalling;
  inv_late : forall t d, phase sys t = Returned TimedOut d -> deadline_passed d (clock sys) = true }.

Lemma initial_inv source now : event_inv 0 (initial_system source now).
Proof.
  split; unfold phase, unnotified, observes, initial_system; cbn; try setoid_rewrite lookup_empty; cbn; [naive_solver|lia|naive_solver..].
Qed.

Lemma deadline_monotone d now later : now <= later -> deadline_passed d now = true -> deadline_passed d later = true.
Proof. destruct d; cbn; [|done]. intros ? ?%Z.leb_le. apply Z.leb_le. lia. Qed.

(** Steps that leave the phases alone. *)
Lemma frame_inv n sys e now :
  event_inv n sys -> value (generation e) = value (generation (event sys)) -> changed e = changed (event sys) ->
  (signalled e = true -> signalled (event sys) = true) -> clock sys <= now ->
  event_inv (n + 1) (mkSystem e (lock sys) (phases sys) now).
Proof.
  intros [H1 H2 H3 H4 H5 H6] Ev Ec Es Ht.
  split; unfold unnotified, phase in *; cbn; rewrite ?Ev, ?Ec; [done|lia|done|done|naive_solver|].
  intros t d H. eapply deadline_monotone; [done|]. by apply (H6 t).
Qed.

(** A thread moves on.  [H1]: who holds the lock; [H2]: what the event does to
    the generation and the condition variable. *)
Lemma move_inv n sys t p holder e :
  event_inv n sys ->
  (forall o d, p = Looping o d \/ p = Checked o d -> holder = Some t) ->
  (forall u, u <> t -> lock sys = Some u -> holder = Some u) ->
  value (generation e) = value (generation (event sys)) ->
  (forall u, u <> t -> u ∈ changed e <-> u ∈ changed (event sys)) ->
  (forall o, observes p o -> o <= value (generation e)) ->
  (forall o d, p = Sleeping o d -> t ∈ changed e) ->
  (signalled e = true -> p = Signalling \/ signalled (event sys) = true /\ phase sys t <> Signalling) ->
  ((exists o d, p = Checked o d) \/ (exists o d, p = Sleeping o d) -> signalled e = true -> unnotified sys t) ->
  (forall d, p = Returned TimedOut d -> deadline_passed d (clock sys) = true) ->
  event_inv (n + 1) (move t p holder e sys).
Proof.
  intros [H1 H2 H3 H4 H5 H6] Hp Hh Ev Ec Ho Hs Hf Hu Hl.
  split; [|cbn; rewrite Ev; lia|..].
  - intros u o d. rewrite phase_move. cbn. case_decide as E; [subst; apply Hp|]. intros Hx. apply Hh; [done|]. by eapply H1.
  - intros u o. rewrite phase_move. cbn. case_decide as E; [apply Ho|]. rewrite Ev. apply H3.
  - intros u o d. rewrite phase_move. cbn. case_decide as E.
    + subst u. intros Hp' Hn. by destruct (Hn (Hs o d Hp')).
    + intros Hp'. rewrite Ev, Ec by done. by apply H4 with (d := d).
  - cbn. intros Hflag u Hun. destruct (Hf Hflag) as [->|[Hold Hnt]]; [exists t; by rewrite phase_move, decide_True|].
    assert (unnotified sys u) as Hun'.
    { unfold unnotified in *. rewrite phase_move in Hun. case_decide as E; [subst u; apply Hu; naive_solver|].
      cbn in Hun. setoid_rewrite Ec in Hun; [done|done]. }
    destruct (H5 Hold u Hun') as [v Hv]. exists v. rewrite phase_move, decide_False; [done|]. by intros ->.
  - intros u d. rewrite phase_move. cbn. case_decide as E; [apply Hl|apply H6].
Qed.

(** [notify_all] under the lock: nobody is past the check, and nobody stays asleep. *)
Lemma publish_inv n sys t :
  event_inv n sys -> n + 1 < 2 ^ 64 -> phase sys t = Signalling -> lock sys = None ->
  event_inv (n + 1) (move t Idle None (fst (publish (event sys))) sys).
Proof.
  intros [H1 H2 H3 H4 H5 H6] Hn Ht Hlock.
  assert (value (generation (fst (publish (event sys)))) = value (generation (event sys)) + 1) as Ev.
  { change (wrapping_add 64 (value (generation (event sys))) 1 = value (generation (event sys)) + 1).
    unfold wrapping_add. apply wrap_small. unfold fits. lia. }
  split; [|cbn [event move]; rewrite Ev; lia|..].
  - intros u o d. rewrite phase_move. case_decide; [naive_solver|]. intros Hx. apply H1 in Hx. congruence.
  - intros u o. rewrite phase_move. cbn [event move]. rewrite Ev. case_decide; [intros (? & ?); naive_solver|].
    intros Hx%H3. lia.
  - intros u o d. rewrite phase_move. cbn [event move]. rewrite Ev. case_decide; [done|]. intros Hx _.
    enough (o <= value (generation (event sys))) by lia. apply (H3 u). exists d. auto.
  - intros _ u [(o & d & Hx)|(o & d & _ & Hx)]; [|cbn in Hx; set_solver].
    rewrite phase_move in Hx. case_decide; [done|]. assert (lock sys = Some u) by (apply (H1 u o d); auto). congruence.
  - intros u d. rewrite phase_move. cbn. case_decide; [done|apply H6].
Qed.

Lemma publish_signalled sys : signalled (fst (publish (event sys))) = signalled (event sys).
Proof. done. Qed.

Lemma watch_frame w (e : EventState W) :
  value (generation (fst (fst (watch w e)))) = value (generation e) /\ changed (fst (fst (watch w e))) = changed e /\
  signalled (fst (fst (watch w e))) = signalled e.
Proof. done. Qed.

Lemma fall_asleep_other t u (e : EventState W) : u <> t -> u ∈ changed (fall_asleep t e) <-> u ∈ changed e.
Proof. intros Hu. unfold fall_asleep, set_changed. cbn [changed]. rewrite elem_of_union, elem_of_singleton. tauto. Qed.

Lemma asleep t (e : EventState W) : t ∈ changed (fall_asleep t e).
Proof. unfold fall_asleep, set_changed. cbn [changed]. rewrite elem_of_union, elem_of_singleton. tauto. Qed.

Lemma wake_up_other t u (e : EventState W) : u <> t -> u ∈ changed (wake_up t e) <-> u ∈ changed e.
Proof. intros Hu. unfold wake_up, set_changed. cbn [changed]. rewrite elem_of_difference, elem_of_singleton. tauto. Qed.

(** Whoever holds the lock is the thread in the loop. *)
Ltac holder_goal H1 Ht :=
  intros u Hu Hl'; assert (lock _ = Some _) by (eapply H1; rewrite Ht; eauto); congruence.

Ltac move_goals H1 H3 Ht :=
  apply move_inv; try done;
  try solve [ intros ? ? [?|?]; congruence | intros ? ?; congruence | intros ?; congruence | holder_goal H1 Ht
            | intros ? [? [?|[?|?]]]; congruence | intros ? [? [?|[?|?]]]; simplify_eq; eapply H3; rewrite Ht; unfold observes; eauto
            | intros [(? & ? & ?)|(? & ? & ?)]; congruence | intros ?; by left | intros ?; right; split; [done|congruence]
            | intros ? ?; by apply fall_asleep_other | intros ? ?; by apply wake_up_other ].

Lemma step_inv n sys sys' : event_inv n sys -> n + 1 < 2 ^ 64 -> event_step sys sys' -> event_inv (n + 1) sys'.
Proof.
  intros I Hn Hstep. pose proof I as [H1 H2 H3 H4 H5 H6].
  destruct Hstep as [t Ht|t Ht Hl| |w Hl|id Hl|t d Ht Hf|t d Ht Hf|t d Ht Hl|t o d Ht Hr|t o d Ht Hr|t o d Ht Hp|t o d Ht Hp
                    |t o d b Ht Hl Hg|t o d b Ht Hl Hg|t o d Ht|later Hle].
  - move_goals H1 H3 Ht.
  - by apply publish_inv.
  - apply frame_inv; done.
  - destruct (watch_frame w (event sys)) as (E1 & E2 & E3). apply frame_inv; rewrite ?E1, ?E2, ?E3; done.
  - apply frame_inv; done.
  - move_goals H1 H3 Ht.
  - move_goals H1 H3 Ht.
  - move_goals H1 H3 Ht. intros o [d' [[= -> ->]|[?|?]]]; done.
  - move_goals H1 H3 Ht.
  - move_goals H1 H3 Ht. intros _ Hon. apply orb_false_iff in Hr as [Hr _]. unfold is_signalled in Hr. congruence.
  - move_goals H1 H3 Ht.
  - move_goals H1 H3 Ht.
    + intros _ _ _. apply asleep.
    + intros _ _. left. eauto.
  - move_goals H1 H3 Ht. intros d0 [= <-]. by apply andb_true_iff in Hg as [_ ?].
  - move_goals H1 H3 Ht.
  - move_goals H1 H3 Ht.
  - apply frame_inv; done.
Qed.

Lemma reachable_inv n source now sys :
  nsteps event_step n (initial_system source now) sys -> Z.of_nat n < 2 ^ 64 -> event_inv (Z.of_nat n) sys.
Proof.
  revert sys. induction n as [|n IH]; intros sys Hsteps Hn.
  - inversion Hsteps. subst. apply initial_inv.
  - apply nsteps_inv_r in Hsteps as (mid & Hmid & Hstep). replace (Z.of_nat (S n)) with (Z.of_nat n + 1) by lia.
    eapply step_inv; [apply IH; [done|lia]|lia|done].
Qed.
End Threads.

(** C7: No signal is lost, for any number of threads that signal, clear, watch
    and wait in any interleaving of their sections (fewer than 2^64 of them):
    when the flag is up and no thread is between the two halves of [signal],
    every thread asleep in [wait] has been woken; a woken thread finds its
    condition true even if the flag was cleared since; and [TimedOut] is only
    returned once the deadline has passed. *)
Theorem no_lost_wakeup {W} n source now (sys : EventSystem W) :
  nsteps event_step n (initial_system source now) sys -> Z.of_nat n < 2 ^ 64 ->
  (signalled (event sys) = true -> (forall t, phase sys t <> Signalling) ->
   forall t o d, phase sys t = Sleeping o d -> t ∉ changed (event sys)) /\
  (forall t o d, phase sys t = Sleeping o d -> t ∉ changed (event sys) -> wait_ready o (event sys) = true) /\
  (forall t d, phase sys t = Returned TimedOut d -> exists limit, d = Some limit /\ limit <= clock sys).
Proof.
  intros Hsteps Hn. destruct (reachable_inv _ _ _ _ Hsteps Hn) as [_ _ _ Hnotified Howed Hlate]. split; [|split].
  - intros Hon Hnone t o d Ht Hin. destruct (Howed Hon t) as [u Hu]; [right; eauto|]. by destruct (Hnone u).
  - intros t o d Ht Hin. pose proof (Hnotified t o d Ht Hin). unfold wait_ready. rewrite (proj2 (Z.eqb_neq _ o)) by lia.
    by rewrite orb_true_r.
  - intros t d Ht. specialize (Hlate t d Ht). destruct d as [limit|]; [|done]. exists limit. split; [done|]. by apply Z.leb_le.
Qed.

(** Thread 1 goes to sleep, thread 2 signals. *)
Definition woken_run : EventSystem Z :=
  let asleep := mkSystem (fall_asleep 1 new_event) None {[1 := Sleeping 0 None]} 0 in
  move 2 Idle None (fst (publish (store_signalled true (event asleep))))
    (move 2 Signalling None (store_signalled true (event asleep)) asleep).

Lemma no_lost_wakeup_witness :
  nsteps event_step 6 (initial_system None 0) woken_run /\ phase woken_run 1 = Sleeping 0 None /\
  ~ 1 ∈ changed (event woken_run) /\ wait_ready 0 (event woken_run) = true.
Proof.
  assert (nsteps event_step 6 (initial_system None 0) woken_run) as Hrun.
  { eapply nsteps_l; [apply (wait_enter _ 1 None); reflexivity|].
    eapply nsteps_l; [eapply (wait_lock _ 1 None); reflexivity|].
    eapply nsteps_l; [eapply (wait_unseen _ 1 0 None); reflexivity|].
    eapply nsteps_l; [eapply (wait_sleep _ 1 0 None); reflexivity|].
    eapply nsteps_l; [eapply (signal_store _ 2); reflexivity|].
    eapply nsteps_l; [eapply (signal_publish _ 2); reflexivity|apply nsteps_O]. }
  split; [exact Hrun|]. split; [reflexivity|].
  destruct (no_lost_wakeup 6 None 0 _ Hrun ltac:(lia)) as (H1 & H2 & _).
  assert (1 ∉ changed (event woken_run)) as Hn.
  { apply (H1 eq_refl) with (o := 0) (d := None); [|reflexivity].
    intros t. unfold woken_run. rewrite !phase_move. repeat case_decide; [done|].
    unfold phase. cbn [phases]. destruct (decide (1 = t)) as [<-|Hne]; [done|]. by rewrite lookup_singleton_ne. }
  split; [exact Hn|]. exact (H2 1 0 None eq_refl Hn).
Defined.

(** ** Observers *)

Section Watchers.
Context {W : Type}.
Implicit Types (s : EventState W) (actions : list (EventAction W)).

Definition is_publish (a : EventAction W) : bool := match a with Publish => true | _ => false end.

Definition calls_of (i : Z) (called : list (Z * W)) : list (Z * W) := base.filter (fun c => c.1 = i) called.

Definition watcher_of (s : EventState W) (i : Z) : option W := watchers (generation s) !! i.

(** The registrations are older than the next one. *)
Definition ids_below s : Prop :=
  1 <= next_watcher_id (generation s) /\ forall i, is_Some (watcher_of s i) -> 1 <= i < next_watcher_id (generation s).

Lemma act_ids a s :
  ids_below s -> next_watcher_id (generation s) + 1 < 2 ^ 64 ->
  let s' := fst (act a s) in
  ids_below s' /\ next_watcher_id (generation s) <= next_watcher_id (generation s') <= next_watcher_id (generation s) + 1.
Proof.
  intros [H1 Hids] Hn. unfold ids_below, watcher_of in *. destruct a as [b| |w|i]; cbn -[Z.max wrapping_add].
  - split; [done|lia].
  - split; [|lia]. split; [done|]. intros i [x Hx]. by rewrite lookup_empty in Hx.
  - unfold wrapping_add. rewrite wrap_small by (unfold fits; lia). split; [|lia]. split; [lia|]. intros i.
    destruct (is_signalled s); [intros Hi%Hids; lia|]. rewrite lookup_insert_is_Some. intros [<-|[_ Hi%Hids]]; lia.
  - split; [|lia]. split; [done|]. intros j. rewrite lookup_delete_is_Some. intros [_ Hj]. by apply Hids.
Qed.

(** One action, for a registration that already exists: it is called exactly
    when the action publishes and it is registered. *)
Lemma act_old a s i :
  i < next_watcher_id (generation s) -> (forall j, a = DropRegistration j -> j <> i) ->
  calls_of i (snd (act a s)) = (if is_publish a then option_list ((i,.) <$> watcher_of s i) else []) /\
  watcher_of (fst (act a s)) i = (if is_publish a then None else watcher_of s i).
Proof.
  intros Hi Hdrop. unfold watcher_of, calls_of. destruct a as [b| |w|j]; cbn -[Z.max wrapping_add]; [done| |..].
  - rewrite in_key_order_filter, lookup_empty. by destruct (_ !! i).
  - split.
    + destruct (is_signalled s); [|done]. rewrite filter_cons_False; [done|cbn; lia].
    + destruct (is_signalled s); [done|]. apply lookup_insert_ne. lia.
  - split; [done|]. apply lookup_delete_ne. by apply Hdrop.
Qed.

Lemma act_all_cons a actions s :
  act_all (a :: actions) s = (fst (act_all actions (fst (act a s))), snd (act a s) ++ snd (act_all actions (fst (act a s)))).
Proof. cbn. destruct (act a s) as [s1 c1]. cbn. by destruct (act_all actions s1). Qed.

Lemma act_all_app l k s :
  act_all (l ++ k) s = (fst (act_all k (fst (act_all l s))), snd (act_all l s) ++ snd (act_all k (fst (act_all l s)))).
Proof.
  revert s. induction l as [|a l IH]; intros s; [cbn; by destruct (act_all k s)|].
  rewrite <- app_comm_cons, !act_all_cons, IH. cbn. by rewrite app_assoc.
Qed.

Lemma act_all_ids actions s :
  ids_below s -> next_watcher_id (generation s) + Z.of_nat (length actions) < 2 ^ 64 ->
  let s' := fst (act_all actions s) in
  ids_below s' /\ next_watcher_id (generation s) <= next_watcher_id (generation s') <= next_watcher_id (generation s) + Z.of_nat (length actions).
Proof.
  revert s. induction actions as [|a actions IH]; intros s Hs Hn; [cbn; split; [done|lia]|].
  cbn [length] in Hn. rewrite act_all_cons. cbn [fst length]. destruct (act_ids a s Hs ltac:(lia)) as [H1 H2].
  destruct (IH _ H1 ltac:(lia)) as [H3 H4]. split; [done|lia].
Qed.

(** Only registrations that exist are called. *)
Lemma act_called a s i :
  ids_below s -> next_watcher_id (generation s) + 1 < 2 ^ 64 -> next_watcher_id (generation (fst (act a s))) <= i ->
  calls_of i (snd (act a s)) = [].
Proof.
  intros [H1 Hids] Hn Hi. unfold calls_of, watcher_of in *. destruct a as [b| |w|j]; cbn -[Z.max wrapping_add] in *; try done.
  - rewrite in_key_order_filter. destruct (_ !! i) eqn:E; [|done]. specialize (Hids i (mk_is_Some _ _ E)). lia.
  - destruct (is_signalled s); [|done]. unfold wrapping_add in Hi. rewrite wrap_small in Hi by (unfold fits; lia).
    rewrite filter_cons_False; [done|cbn; lia].
Qed.

Lemma act_all_called actions s i :
  ids_below s -> next_watcher_id (generation s) + Z.of_nat (length actions) < 2 ^ 64 ->
  next_watcher_id (generation (fst (act_all actions s))) <= i -> calls_of i (snd (act_all actions s)) = [].
Proof.
  revert s. induction actions as [|a actions IH]; intros s Hs Hn Hi; [done|].
  cbn [length] in Hn. rewrite act_all_cons in *. cbn [fst snd] in *. destruct (act_ids a s Hs ltac:(lia)) as [H1 H2].
  destruct (act_all_ids actions _ H1 ltac:(lia)) as [_ H3]. unfold calls_of in *. rewrite filter_app.
  rewrite IH by (done || lia). rewrite app_nil_r. apply act_called; [done|lia|lia].
Qed.

(** A registration is called by the first publication and never again. *)
Lemma act_all_old actions s i :
  ids_below s -> next_watcher_id (generation s) + Z.of_nat (length actions) < 2 ^ 64 ->
  i < next_watcher_id (generation s) -> DropRegistration i ∉ actions ->
  calls_of i (snd (act_all actions s)) = if existsb is_publish actions then option_list ((i,.) <$> watcher_of s i) else [].
Proof.
  revert s. induction actions as [|a actions IH]; intros s Hs Hn Hi Hdrop; [done|].
  cbn [length] in Hn. rewrite not_elem_of_cons in Hdrop. destruct Hdrop as [Ha Hdrop].
  rewrite act_all_cons. cbn [snd existsb]. destruct (act_ids a s Hs ltac:(lia)) as [H1 H2].
  destruct (act_old a s i Hi) as [Hc Hw]; [naive_solver|].
  specialize (IH _ H1 ltac:(lia) ltac:(lia) Hdrop). unfold calls_of in *. rewrite filter_app, Hc, IH, Hw.
  destruct (is_publish a); cbn; [|done]. by destruct (existsb _ _); rewrite app_nil_r.
Qed.
End Watchers.

(** C19: An observer is called exactly once, by [watch] itself when the event is
    signalled at that moment and otherwise by the first [signal] that takes the
    lock afterwards, and not at all when there is none; whatever else happens
    before and after, short of dropping its registration, and in whatever order
    the halves of [signal] interleave with it. *)
Theorem watch_called_once {W} source (before after : list (EventAction W)) w :
  let s := fst (act_all before (with_source source)) in
  let i := next_watcher_id (generation s) in
  Z.of_nat (length (before ++ Watch w :: after)) < 2 ^ 64 - 1 -> DropRegistration i ∉ after ->
  calls_of i (snd (act_all (before ++ Watch w :: after) (with_source source))) =
  if signalled s || existsb is_publish after then [(i, w)] else [].
Proof.
  intros s i Hlen Hdrop. rewrite length_app in Hlen. cbn [length] in Hlen.
  assert (ids_below (with_source (W := W) source)) as H0.
  { split; [cbn; lia|]. intros j [x Hx]. unfold watcher_of in Hx. cbn in Hx. by rewrite lookup_empty in Hx. }
  destruct (act_all_ids before _ H0) as [H1 H2]; [cbn; lia|]. fold s in H1, H2. cbn [with_source generation next_watcher_id] in H2.
  destruct (act_ids (Watch w) s H1) as [H3 H4]; [lia|].
  rewrite act_all_app. cbn [snd]. fold s. rewrite act_all_cons. cbn [snd]. unfold calls_of. rewrite !filter_app.
  pose proof (act_all_called before (with_source source) i H0 ltac:(cbn; lia) ltac:(fold s; unfold i; lia)) as E.
  unfold calls_of in E. rewrite E. cbn [app].
  assert (i < next_watcher_id (generation (fst (act (Watch w) s)))) as Hi.
  { cbn -[Z.max wrapping_add]. unfold wrapping_add. fold i. rewrite wrap_small by (unfold fits; lia). lia. }
  pose proof (act_all_old after _ i H3 ltac:(lia) Hi Hdrop) as E2. unfold calls_of in E2. rewrite E2. clear E E2.
  unfold watcher_of. cbn -[Z.max wrapping_add]. fold i. unfold is_signalled. destruct (signalled s) eqn:Hs; cbn.
  - rewrite decide_True by done. cbn. unfold i. 
    destruct (watchers (generation s) !! _) eqn:Ew; [|by destruct (existsb _ _)].
    destruct H1 as [_ Hids]. specialize (Hids _ (mk_is_Some _ _ Ew)). lia.
  - by rewrite lookup_insert_eq.
Qed.

Lemma watch_called_once_witness :
  snd (act_all [Watch 10; StoreFlag true; Watch 20; Publish; DropRegistration 1; Publish] (with_source None)) = [(2, 20); (1, 10)] /\
  calls_of 2 (snd (act_all ([Watch 10; StoreFlag true] ++ Watch 20 :: [Publish; DropRegistration 1; Publish]) (with_source None))) = [(2, 20)].
Proof.
  split; [reflexivity|].
  apply (watch_called_once None [Watch 10; StoreFlag true] [Publish; DropRegistration 1; Publish] 20); [cbn; lia|].
  cbn. intros H. repeat (apply elem_of_cons in H as [H|H]; [discriminate|]). by apply not_elem_of_nil in H.
Defined.
