(* ===== verification/Handles.v ===== *)
(** * The process handle table: [crates/runtime/src/handle.rs]

    Handles are 32-bit numbers.  An object is a value of type [O], shared by the
    handles that name it, so [clone] is the value itself.  [BTreeMap] is a [gmap],
    [BTreeSet] its sorted list.  [called] collects the observers of the change
    event as [signal] calls them. *)

From Stdlib Require Import ZArith Lia Bool.
From stdpp Require Import base gmap list numbers option sorting.
From S2P Require Import Prelude RustInt RustList Events.
Local Open Scope Z_scope.

Definition FIRST_HANDLE : Z := 1.
Definition LAST_HANDLE : Z := 0x7fff_ffff.

Inductive HandleError : Set :=
  | Exhausted
  | AllocationFailed
  | InvalidHandle (handle : Z)
  | ObjectTooLarge (size : Z)
  | InvalidRange
  | BackingAccess.

(** [BTreeSet::insert] and [BTreeSet::pop_first] on the sorted list. *)
Fixpoint set_insert (x : Z) (l : list Z) : list Z :=
  match l with
  | [] => [x]
  | y :: l' => if x <? y then x :: l else if x =? y then l else y :: set_insert x l'
  end.

Definition pop_first (l : list Z) : option (Z * list Z) :=
  match l with [] => None | x :: l => Some (x, l) end.

Section Table.
Context {O W : Type}.

Record HandleTable : Type := mkTable {
  objects : gmap Z O;
  recycled : list Z;
  next_handle : Z;
  capacity_limit : Z;
  table_changed : EventState W;
  called : list (Z * W) }.

Definition with_capacity_limit (capacity_limit : Z) : HandleTable :=
  mkTable ∅ [] FIRST_HANDLE capacity_limit new_event [].

Definition new_table : HandleTable := with_capacity_limit (LAST_HANDLE - FIRST_HANDLE + 1).

Definition set_objects (m : gmap Z O) (t : HandleTable) : HandleTable :=
  mkTable m (recycled t) (next_handle t) (capacity_limit t) (table_changed t) (called t).
Definition set_recycled (l : list Z) (t : HandleTable) : HandleTable :=
  mkTable (objects t) l (next_handle t) (capacity_limit t) (table_changed t) (called t).
Definition set_next (h : Z) (t : HandleTable) : HandleTable :=
  mkTable (objects t) (recycled t) h (capacity_limit t) (table_changed t) (called t).

(** [self.changed.signal()]. *)
Definition signal_changed (t : HandleTable) : HandleTable :=
  let '(e, observers) := signal (table_changed t) in
  mkTable (objects t) (recycled t) (next_handle t) (capacity_limit t) e (called t ++ observers).

Definition table_len (t : HandleTable) : Z := Z.of_nat (size (objects t)).

Abbreviation table := (M HandleTable HandleError).

(** The handle of the next object: the lowest recycled one, or a new one. *)
Definition take_handle : table Z :=
  free ← gets recycled;
  match pop_first free with
  | Some (handle, rest) => _ ← modify (set_recycled rest); mret handle
  | None =>
      handle ← gets next_handle;
      _ ← guard_err (LAST_HANDLE <? handle) Exhausted;
      _ ← modify (set_next (Z.min (handle + 1) (2 ^ 32 - 1)));
      mret handle
  end.

Definition insert_object (object : O) : table Z :=
  t ← gets id;
  _ ← guard_err (capacity_limit t <=? table_len t) Exhausted;
  handle ← take_handle;
  _ ← modify (fun t => set_objects (<[handle := object]> (objects t)) t);
  _ ← modify signal_changed;
  mret handle.

Definition get (handle : Z) (t : HandleTable) : option O := objects t !! handle.

Definition duplicate (handle : Z) : table Z :=
  t ← gets id;
  object ← lift (ok_or (get handle t) (InvalidHandle handle));
  insert_object object.

Definition close (handle : Z) : table O :=
  t ← gets id;
  object ← lift (ok_or (objects t !! handle) (InvalidHandle handle));
  _ ← modify (fun t => set_objects (delete handle (objects t)) t);
  _ ← modify (fun t => set_recycled (set_insert handle (recycled t)) t);
  _ ← modify signal_changed;
  mret object.

(** [transfer_to]: [self], [destination] and the outcome. *)
Definition transfer_to (handle : Z) (self destination : HandleTable) : HandleTable * HandleTable * res HandleError Z :=
  if negb (bool_decide (is_Some (objects self !! handle))) then (self, destination, Err (InvalidHandle handle))
  else if (capacity_limit destination <=? table_len destination)
          || ((LAST_HANDLE <? next_handle destination) && bool_decide (recycled destination = []))
  then (self, destination, Err Exhausted)
  else
    match close handle self with
    | (self, Ok object) =>
        match insert_object object destination with
        | (destination, Ok inserted) => (self, destination, Ok inserted)
        | (destination, _) => (self, destination, Panic)
        end
    | (self, Err e) => (self, destination, Err e)
    | (self, Panic) => (self, destination, Panic)
    end.
End Table.
Arguments HandleTable : clear implicits.

(** ** What the handle table promises

    A handle table is a map that gives every new object the lowest handle not in
    use.  [spec_step] says this without the recycling set; the table refines it. *)

Section Spec.
Context {O W : Type}.
Implicit Types (m : gmap Z O) (t : HandleTable O W).

(** ** The specification *)

Definition lowest_free m (h : Z) : Prop :=
  FIRST_HANDLE <= h /\ m !! h = None /\ forall k, FIRST_HANDLE <= k < h -> is_Some (m !! k).

Inductive TableOp : Type := OpInsert (object : O) | OpDuplicate (handle : Z) | OpClose (handle : Z).

Inductive TableAnswer : Type := Handle (handle : Z) | Object (object : O).

(** No handle is left: the table is at its capacity or every number is taken. *)
Definition full (capacity : Z) m : Prop :=
  capacity <= Z.of_nat (size m) \/ forall h, FIRST_HANDLE <= h <= LAST_HANDLE -> is_Some (m !! h).

Inductive spec_step (capacity : Z) m : TableOp -> gmap Z O -> res HandleError TableAnswer -> Prop :=
  | spec_insert o h : ~ full capacity m -> lowest_free m h -> h <= LAST_HANDLE ->
      spec_step capacity m (OpInsert o) (<[h := o]> m) (Ok (Handle h))
  | spec_insert_full o : full capacity m -> spec_step capacity m (OpInsert o) m (Err Exhausted)
  | spec_duplicate k o h : m !! k = Some o -> ~ full capacity m -> lowest_free m h -> h <= LAST_HANDLE ->
      spec_step capacity m (OpDuplicate k) (<[h := o]> m) (Ok (Handle h))
  | spec_duplicate_full k o : m !! k = Some o -> full capacity m -> spec_step capacity m (OpDuplicate k) m (Err Exhausted)
  | spec_duplicate_invalid k : m !! k = None -> spec_step capacity m (OpDuplicate k) m (Err (InvalidHandle k))
  | spec_close k o : m !! k = Some o -> spec_step capacity m (OpClose k) (delete k m) (Ok (Object o))
  | spec_close_invalid k : m !! k = None -> spec_step capacity m (OpClose k) m (Err (InvalidHandle k)).

Definition run_op (op : TableOp) : M (HandleTable O W) HandleError TableAnswer :=
  match op with
  | OpInsert o => h ← insert_object o; mret (Handle h)
  | OpDuplicate k => h ← duplicate k; mret (Handle h)
  | OpClose k => o ← close k; mret (Object o)
  end.

(** ** The invariant *)

Record table_wf t : Prop := {
  wf_next : FIRST_HANDLE <= next_handle t <= LAST_HANDLE + 1;
  wf_sorted : StronglySorted Z.lt (recycled t);
  wf_used : forall h, is_Some (objects t !! h) -> FIRST_HANDLE <= h < next_handle t;
  wf_recycled : forall h, h ∈ recycled t <-> FIRST_HANDLE <= h < next_handle t /\ objects t !! h = None }.

Lemma set_insert_elem x l y : y ∈ set_insert x l <-> y = x \/ y ∈ l.
Proof.
  induction l as [|z l IH]; cbn; [rewrite elem_of_cons, elem_of_nil; tauto|].
  destruct (x <? z) eqn:?; [by rewrite elem_of_cons|]. destruct (x =? z) eqn:E.
  - apply Z.eqb_eq in E as ->. rewrite elem_of_cons. tauto.
  - rewrite !elem_of_cons, IH. tauto.
Qed.

Lemma set_insert_sorted x l : StronglySorted Z.lt l -> StronglySorted Z.lt (set_insert x l).
Proof.
  induction 1 as [|z l Hl IH Hz]; cbn; [by repeat constructor|].
  destruct (x <? z) eqn:E1; [|destruct (x =? z) eqn:E2]; [|by constructor|].
  - apply Z.ltb_lt in E1. constructor; [by constructor|]. constructor; [done|].
    eapply Forall_impl; [exact Hz|]. cbn. lia.
  - constructor; [done|]. apply Forall_forall. intros y [->|Hy]%set_insert_elem; [lia|]. by eapply Forall_forall in Hz.
Qed.

Lemma new_table_wf cap : table_wf (with_capacity_limit cap).
Proof.
  split; cbn; [unfold FIRST_HANDLE, LAST_HANDLE; lia|constructor|..].
  - intros h [x Hx]. by rewrite lookup_empty in Hx.
  - intros h. rewrite elem_of_nil. unfold FIRST_HANDLE. lia.
Qed.

(** The next handle is the lowest free one, and there is none when it is out of range. *)
Lemma recycled_lowest t h rest : table_wf t -> recycled t = h :: rest -> lowest_free (objects t) h /\ h <= LAST_HANDLE.
Proof.
  intros [Hn Hs Hu Hr] E. destruct (proj1 (Hr h)) as [Hb Hf]; [rewrite E; left|]. split; [|lia]. split; [lia|]. split; [done|].
  intros k Hk. apply not_eq_None_Some. intros Hk'. assert (k ∈ recycled t) as Hin by (apply Hr; split; [lia|done]).
  rewrite E in Hin. rewrite E in Hs. apply StronglySorted_inv in Hs as [_ Hs]. apply elem_of_cons in Hin as [->|Hin]; [lia|].
  eapply Forall_forall in Hs; [|done]. lia.
Qed.

Lemma next_lowest t : table_wf t -> recycled t = [] -> lowest_free (objects t) (next_handle t).
Proof.
  intros [Hn Hs Hu Hr] E. split; [lia|]. split.
  - apply eq_None_not_Some. intros Hx%Hu. lia.
  - intros k Hk. apply not_eq_None_Some. intros Hx. assert (k ∈ recycled t) as Hin by (apply Hr; split; [lia|done]).
    rewrite E in Hin. by apply elem_of_nil in Hin.
Qed.

Lemma lowest_not_full m cap h : lowest_free m h -> h <= LAST_HANDLE -> Z.of_nat (size m) < cap -> ~ full cap m.
Proof. intros (H1 & H2 & _) Hh Hc [?|Hall]; [lia|]. destruct (Hall h) as [x Hx]; [lia|]. congruence. Qed.

Lemma next_full t : table_wf t -> recycled t = [] -> LAST_HANDLE < next_handle t -> full (capacity_limit t) (objects t).
Proof. intros Hwf E Hn. right. intros h Hh. destruct (next_lowest t Hwf E) as (_ & _ & Hall). apply Hall. lia. Qed.

(** What an insertion that succeeds leaves. *)
Definition inserted t o h t' : Prop :=
  lowest_free (objects t) h /\ h <= LAST_HANDLE /\ objects t' = <[h := o]> (objects t) /\
  capacity_limit t' = capacity_limit t /\ table_wf t'.

Lemma fill_wf t h o e c rest next :
  table_wf t -> lowest_free (objects t) h -> h <= LAST_HANDLE -> StronglySorted Z.lt rest ->
  (forall k, k ∈ rest <-> k ∈ recycled t /\ k <> h) -> next = Z.max (next_handle t) (h + 1) ->
  (forall k, next_handle t <= k < h -> False) ->
  table_wf (mkTable (<[h := o]> (objects t)) rest next (capacity_limit t) e c).
Proof.
  intros [Hn Hs Hu Hr] (Hl & Hfree & _) Hh Hsorted Hrest -> Hgap. split; cbn; [lia|done|..].
  - intros k. rewrite lookup_insert_is_Some. intros [<-|[_ Hk%Hu]]; lia.
  - intros k. rewrite Hrest, Hr. destruct (decide (h = k)) as [<-|Hne].
    + rewrite lookup_insert_eq. naive_solver.
    + rewrite lookup_insert_ne by done. split; [naive_solver lia|]. intros [Hk Hx]. split; [|done]. split; [|done].
      destruct (decide (k < next_handle t)); [lia|]. destruct (Hgap k). lia.
Qed.

Lemma insert_object_runs t o :
  table_wf t ->
  (full (capacity_limit t) (objects t) /\ insert_object o t = (t, Err Exhausted)) \/
  exists h t', insert_object o t = (t', Ok h) /\ ~ full (capacity_limit t) (objects t) /\ inserted t o h t'.
Proof.
  intros Hwf. unfold insert_object, mbind, M_bind, gets, guard_err, take_handle, modify, mret, M_ret, table_len. cbn [id].
  destruct (capacity_limit t <=? _) eqn:Ec; [left; apply Z.leb_le in Ec; split; [by left|done]|]. apply Z.leb_gt in Ec.
  unfold mbind, M_bind, gets, mret, M_ret, modify, guard_err. destruct (recycled t) as [|h rest] eqn:Er; cbn [pop_first].
  - destruct (LAST_HANDLE <? next_handle t) eqn:El.
    { apply Z.ltb_lt in El. left. split; [by apply next_full|done]. }
    apply Z.ltb_ge in El. right. pose proof (next_lowest t Hwf Er) as Hlow. do 2 eexists. split; [reflexivity|].
    split; [by eapply lowest_not_full|]. refine (conj Hlow (conj _ (conj eq_refl (conj eq_refl _)))); [done|].
    cbn. pose proof (wf_next t Hwf). apply fill_wf; try done.
    + apply Hwf.
    + intros k. rewrite Er, elem_of_nil. naive_solver.
    + unfold LAST_HANDLE in *. lia.
    + lia.
  - right. destruct (recycled_lowest t h rest Hwf Er) as [Hlow Hh]. do 2 eexists. split; [reflexivity|].
    split; [by eapply lowest_not_full|]. refine (conj Hlow (conj _ (conj eq_refl (conj eq_refl _)))); [done|].
    pose proof (wf_sorted t Hwf) as Hs. rewrite Er in Hs. apply StronglySorted_inv in Hs as [Hs Hlt].
    destruct (proj1 (wf_recycled t Hwf h)) as [Hb _]; [rewrite Er; left|].
    cbn. apply fill_wf; try done; [|lia..].
    intros k. rewrite Er, elem_of_cons. split; [|naive_solver]. intros Hk. split; [by right|]. intros ->.
    eapply Forall_forall in Hlt; [|done]. lia.
Qed.

Lemma close_runs t h :
  table_wf t ->
  match objects t !! h with
  | None => close h t = (t, Err (InvalidHandle h))
  | Some o => exists t', close h t = (t', Ok o) /\ objects t' = delete h (objects t) /\
                         capacity_limit t' = capacity_limit t /\ table_wf t'
  end.
Proof.
  intros [Hn Hs Hu Hr]. unfold close, mbind, M_bind, gets, lift, ok_or, modify, mret, M_ret. cbn [id].
  destruct (objects t !! h) as [o|] eqn:E; [|done]. eexists. split; [reflexivity|]. split; [done|]. split; [done|]. split; cbn.
  - done.
  - by apply set_insert_sorted.
  - intros k. rewrite lookup_delete_is_Some. intros [_ Hk]. by apply Hu.
  - intros k. rewrite set_insert_elem, Hr. destruct (decide (h = k)) as [<-|Hne].
    + rewrite lookup_delete_eq. pose proof (Hu h (mk_is_Some _ _ E)). tauto.
    + rewrite lookup_delete_ne by done. naive_solver.
Qed.

Lemma duplicate_runs t k :
  duplicate k t = match objects t !! k with Some o => insert_object o t | None => (t, Err (InvalidHandle k)) end.
Proof. unfold duplicate, get, mbind, M_bind, gets, lift, ok_or. cbn [id]. by destruct (objects t !! k). Qed.

(** Every operation is a step of the specification and keeps the invariant. *)
Lemma run_op_refines op t :
  table_wf t ->
  spec_step (capacity_limit t) (objects t) op (objects (fst (run_op op t))) (snd (run_op op t)) /\ table_wf (fst (run_op op t)).
Proof.
  intros Hwf. destruct op as [o|k|k]; cbn [run_op]; unfold mbind, M_bind.
  - destruct (insert_object_runs t o Hwf) as [[Hf ->]|(h & t' & -> & Hf & H1 & H2 & H3 & _ & H4)]; cbn.
    + split; [by constructor|done].
    + rewrite H3. split; [by constructor|done].
  - rewrite duplicate_runs. destruct (objects t !! k) as [o|] eqn:E; [|split; [by constructor|done]].
    destruct (insert_object_runs t o Hwf) as [[Hf ->]|(h & t' & -> & Hf & H1 & H2 & H3 & _ & H4)]; cbn.
    + split; [by eapply spec_duplicate_full|done].
    + rewrite H3. split; [by eapply spec_duplicate|done].
  - pose proof (close_runs t k Hwf) as Hc. destruct (objects t !! k) as [o|] eqn:E.
    + destruct Hc as (t' & -> & H1 & _ & H2). cbn. rewrite H1. split; [by constructor|done].
    + rewrite Hc. split; [by constructor|done].
Qed.

Lemma transfer_runs h src dst :
  table_wf src -> table_wf dst ->
  match objects src !! h with
  | None => transfer_to h src dst = (src, dst, Err (InvalidHandle h))
  | Some o =>
      (full (capacity_limit dst) (objects dst) /\ transfer_to h src dst = (src, dst, Err Exhausted)) \/
      exists src' dst' k, transfer_to h src dst = (src', dst', Ok k) /\
        objects src' = delete h (objects src) /\ table_wf src' /\ inserted dst o k dst'
  end.
Proof.
  intros Hs Hd. unfold transfer_to. destruct (objects src !! h) as [o|] eqn:E.
  2: { rewrite bool_decide_false by (intros [? ?]; congruence). done. }
  rewrite bool_decide_true by eauto. cbn [negb].
  pose proof (close_runs src h Hs) as Hc. rewrite E in Hc.
  destruct Hc as (src' & Hclose & H1 & H2 & H3).
  destruct (insert_object_runs dst o Hd) as [[Hf Hi]|(k & dst' & Hi & Hf & Hin)].
  - left. split; [done|]. case_match eqn:Eg; [done|]. exfalso. apply orb_false_iff in Eg as [Ea Eb]. apply Z.leb_gt in Ea.
    destruct (recycled dst) as [|x rest] eqn:Er.
    + rewrite andb_true_r in Eb. apply Z.ltb_ge in Eb. pose proof (next_lowest dst Hd Er) as Hl.
      by eapply lowest_not_full in Hf.
    + destruct (recycled_lowest dst x rest Hd Er) as [Hl Hx]. by eapply lowest_not_full in Hf.
  - right. exists src', dst', k. rewrite Hclose, Hi. case_match eqn:Eg; [|done]. exfalso. apply Hf.
    apply orb_true_iff in Eg as [Ea|[Ea Eb]%andb_true_iff]; [left; by apply Z.leb_le|].
    apply next_full; [done|by apply bool_decide_eq_true in Eb|by apply Z.ltb_lt].
Qed.

(** ** Tables a process can have *)

Inductive reachable_table : HandleTable O W -> Prop :=
  | reach_table cap : reachable_table (with_capacity_limit cap)
  | reach_run t op : reachable_table t -> reachable_table (fst (run_op op t))
  | reach_event t e c : reachable_table t ->
      reachable_table (mkTable (objects t) (recycled t) (next_handle t) (capacity_limit t) e c)
  | reach_source h src dst : reachable_table src -> reachable_table dst -> reachable_table (fst (fst (transfer_to h src dst)))
  | reach_destination h src dst : reachable_table src -> reachable_table dst -> reachable_table (snd (fst (transfer_to h src dst))).

Lemma reachable_wf t : reachable_table t -> table_wf t.
Proof.
  induction 1 as [cap|t op _ IH|t e c _ IH|h src dst _ IHs _ IHd|h src dst _ IHs _ IHd].
  - apply new_table_wf.
  - by apply run_op_refines.
  - by destruct IH as [? ? ? ?].
  - pose proof (transfer_runs h src dst IHs IHd) as H. destruct (objects src !! h) as [o|].
    + by destruct H as [[_ ->]|(? & ? & ? & -> & _ & ? & _)].
    + by rewrite H.
  - pose proof (transfer_runs h src dst IHs IHd) as H. destruct (objects src !! h) as [o|].
    + by destruct H as [[_ ->]|(? & ? & ? & -> & _ & _ & _ & _ & _ & _ & ?)].
    + by rewrite H.
Qed.
End Spec.
Arguments TableOp : clear implicits.

(** C9: The handle table refines a map that gives each object the lowest free
    handle: on every table a process can have, inserting, duplicating and closing
    take a step of the specification.  In particular a handle is refused exactly
    when the capacity is used up or no number is left, a handle in use is never
    given out again, and a rejected call changes no handle. *)
Theorem handle_table_refines {O W} (t : HandleTable O W) op :
  reachable_table t ->
  spec_step (capacity_limit t) (objects t) op (objects (fst (run_op op t))) (snd (run_op op t)).
Proof. intros Hr%reachable_wf. by apply run_op_refines. Qed.

(** C18: A transfer moves an object in full or not at all.  It removes the handle
    from the source and gives the object the lowest free handle of the
    destination; it is refused, with both tables unchanged, when the handle is
    unknown or the destination is full; and the [expect] after the removal is
    never reached. *)
Theorem transfer_all_or_nothing {O W} h (src dst : HandleTable O W) :
  reachable_table src -> reachable_table dst ->
  match transfer_to h src dst with
  | (src', dst', Ok k) =>
      exists o, objects src !! h = Some o /\ objects src' = delete h (objects src) /\
        lowest_free (objects dst) k /\ k <= LAST_HANDLE /\ objects dst' = <[k := o]> (objects dst)
  | (src', dst', Err e) =>
      src' = src /\ dst' = dst /\
      ((e = InvalidHandle h /\ objects src !! h = None) \/ (e = Exhausted /\ full (capacity_limit dst) (objects dst)))
  | (_, _, Panic) => False
  end.
Proof.
  intros Hs%reachable_wf Hd%reachable_wf. pose proof (transfer_runs h src dst Hs Hd) as H.
  destruct (objects src !! h) as [o|]; [|rewrite H; auto].
  destruct H as [[Hf ->]|(src' & dst' & k & -> & H1 & _ & H2 & H3 & H4 & _)]; [auto|]. by exists o.
Qed.

(** Two objects are inserted and the first handle is closed. *)
Definition sample_table : HandleTable Z Z :=
  fst (run_op (OpClose 1) (fst (run_op (OpInsert 20) (fst (run_op (OpInsert 10) (with_capacity_limit 4)))))).

Lemma handle_table_refines_witness :
  snd (run_op (OpInsert 30) sample_table) = Ok (Handle 1) /\
  spec_step 4 (objects sample_table) (OpInsert 30) (objects (fst (run_op (OpInsert 30) sample_table))) (Ok (Handle 1)).
Proof.
  split; [reflexivity|]. apply (handle_table_refines sample_table (OpInsert 30)).
  apply reach_run, reach_run, reach_run, reach_table.
Defined.

Lemma transfer_all_or_nothing_witness :
  snd (transfer_to 2 sample_table (with_capacity_limit 1)) = Ok 1 /\
  exists o, objects sample_table !! 2 = Some o /\ objects (fst (fst (transfer_to 2 sample_table (with_capacity_limit 1)))) = delete 2 (objects sample_table).
Proof.
  split; [reflexivity|].
  pose proof (transfer_all_or_nothing 2 sample_table (with_capacity_limit 1)
    (reach_run _ _ (reach_run _ _ (reach_run _ _ (reach_table 4)))) (reach_table 1)) as H.
  assert (snd (transfer_to 2 sample_table (with_capacity_limit 1)) = Ok 1) as E by reflexivity.
  destruct (transfer_to 2 sample_table (with_capacity_limit 1)) as [[s d] r]. cbn in E. subst r.
  destruct H as (o & H1 & H2 & _). by exists o.
Defined.
