(* ===== verification/Sessions.v ===== *)
(** * Sessions: [crates/runtime/src/handle/session.rs]

    A session carries requests of client threads to one server and its replies
    back.  Each definition is one section under the session's lock together with
    the wake-up that follows it; [request] takes the lock twice, and other calls
    may come in between.  [O] is the type of runtime objects a message can carry,
    [W] that of event observers; [woken] collects the observers called.
    [owning_port], read only when the last reference goes, is left out with the
    ports. *)

From Stdlib Require Import ZArith Lia Bool.
From stdpp Require Import base gmap list numbers option.
From S2P Require Import Prelude RustInt RustList Events.
Local Open Scope Z_scope.

Inductive SessionEndpoint : Set := Server | Client.

#[export] Instance SessionEndpoint_eq_dec : EqDecision SessionEndpoint.
Proof. solve_decision. Defined.

Definition MAX_SESSION_REQUESTS : Z := 0x40.

Inductive SessionError : Set :=
  | WrongEndpoint
  | PeerClosed
  | QueueFull
  | NoRequest
  | ReplyPending
  | MessageKindMismatch.

(** [process_id] and [thread_id]. *)
Definition SessionRequestOwner : Set := (Z * Z)%type.

Section Session.
Context {O W : Type}.

Inductive SessionMessage : Type :=
  | Buffer (bytes : list Z)
  | TransportedBuffer (bytes : list Z) (copy_handles move_handles : list (option O))
  | Light (words : list Z).

Definition is_light (m : SessionMessage) : bool := match m with Light _ => true | _ => false end.

Record SessionRequest : Type := mkRequest {
  request_id : Z; request_owner : SessionRequestOwner; request_message : SessionMessage }.

Record SessionState : Type := mkSession {
  server_open : bool;
  client_open : bool;
  next_request_id : Z;
  queued : list SessionRequest;
  current : option SessionRequest;
  pending_by_owner : gmap SessionRequestOwner Z;
  responses : gmap Z SessionMessage }.

Record SessionIdentity : Type := mkIdentity {
  state : SessionState; wake_generation : Z; wake_event : EventState W; woken : list (Z * W) }.

Inductive SessionRequestResult : Type := Submitted | Waiting | Response (m : SessionMessage).

Definition new_session : SessionIdentity :=
  mkIdentity (mkSession true true 1 [] None ∅ ∅) 0 new_event [].

Abbreviation session := (M SessionIdentity SessionError).

Definition set_state (f : SessionState -> SessionState) (s : SessionIdentity) : SessionIdentity :=
  mkIdentity (f (state s)) (wake_generation s) (wake_event s) (woken s).

(** [wake_generation.fetch_add(1)] and [wake_event.signal()]. *)
Definition wake : session unit :=
  modify (fun s =>
    let '(e, observers) := signal (wake_event s) in
    mkIdentity (state s) (wrapping_add 64 (wake_generation s) 1) e (woken s ++ observers)).

Definition forget_owner (owner : SessionRequestOwner) (s : SessionState) : SessionState :=
  mkSession (server_open s) (client_open s) (next_request_id s) (queued s) (current s)
    (delete owner (pending_by_owner s)) (responses s).

Definition take_response (owner : SessionRequestOwner) (id : Z) (s : SessionState) : SessionState :=
  mkSession (server_open s) (client_open s) (next_request_id s) (queued s) (current s)
    (delete owner (pending_by_owner s)) (delete id (responses s)).

Definition poll_request (endpoint : SessionEndpoint) (owner : SessionRequestOwner) :
    session (option SessionRequestResult) :=
  _ ← guard_err (negb (bool_decide (endpoint = Client))) WrongEndpoint;
  s ← gets state;
  match pending_by_owner s !! owner with
  | None => mret None
  | Some request_id =>
      match responses s !! request_id with
      | Some response =>
          _ ← modify (set_state (take_response owner request_id));
          _ ← wake;
          mret (Some (Response response))
      | None =>
          if negb (server_open s) then
            _ ← modify (set_state (forget_owner owner));
            _ ← wake;
            throw PeerClosed
          else mret (Some Waiting)
      end
  end.

(** The first section of [request]: its checks and the poll. *)
Definition begin_request (endpoint : SessionEndpoint) (light : bool) (owner : SessionRequestOwner)
    (message : SessionMessage) : session (option SessionRequestResult) :=
  _ ← guard_err (negb (bool_decide (endpoint = Client))) WrongEndpoint;
  _ ← guard_err (negb (Bool.eqb light (is_light message))) MessageKindMismatch;
  poll_request endpoint owner.

Definition enqueue_request (owner : SessionRequestOwner) (message : SessionMessage) (s : SessionState) : SessionState :=
  let id := next_request_id s in
  mkSession (server_open s) (client_open s) (Z.min (id + 1) (2 ^ 64 - 1))
    (queued s ++ [mkRequest id owner message]) (current s) (<[owner := id]> (pending_by_owner s)) (responses s).

(** The second section of [request], when the poll found nothing. *)
Definition submit_request (owner : SessionRequestOwner) (message : SessionMessage) : session SessionRequestResult :=
  s ← gets state;
  _ ← guard_err (negb (server_open s)) PeerClosed;
  _ ← guard_err (MAX_SESSION_REQUESTS <=? Z.of_nat (size (pending_by_owner s))) QueueFull;
  _ ← modify (set_state (enqueue_request owner message));
  _ ← wake;
  mret Submitted.

Definition request (endpoint : SessionEndpoint) (light : bool) (owner : SessionRequestOwner)
    (message : SessionMessage) : session SessionRequestResult :=
  result ← begin_request endpoint light owner message;
  match result with Some result => mret result | None => submit_request owner message end.

Definition set_current (r : option SessionRequest) (rest : list SessionRequest) (s : SessionState) : SessionState :=
  mkSession (server_open s) (client_open s) (next_request_id s) rest r (pending_by_owner s) (responses s).

Definition receive (endpoint : SessionEndpoint) : session SessionMessage :=
  _ ← guard_err (negb (bool_decide (endpoint = Server))) WrongEndpoint;
  s ← gets state;
  _ ← guard_err (bool_decide (is_Some (current s))) ReplyPending;
  match queued s with
  | [] => throw (if client_open s then NoRequest else PeerClosed)
  | request :: rest =>
      _ ← modify (set_state (set_current (Some request) rest));
      _ ← wake;
      mret (request_message request)
  end.

Definition add_response (id : Z) (message : SessionMessage) (s : SessionState) : SessionState :=
  mkSession (server_open s) (client_open s) (next_request_id s) (queued s) None
    (pending_by_owner s) (<[id := message]> (responses s)).

Definition reply (endpoint : SessionEndpoint) (light : bool) (message : SessionMessage) : session unit :=
  _ ← guard_err (negb (bool_decide (endpoint = Server))) WrongEndpoint;
  _ ← guard_err (negb (Bool.eqb light (is_light message))) MessageKindMismatch;
  s ← gets state;
  _ ← guard_err (negb (client_open s)) PeerClosed;
  request ← lift (ok_or (current s) NoRequest);
  _ ← lift (if bool_decide (pending_by_owner s !! request_owner request = Some (request_id request)) then Ok tt else Panic);
  _ ← modify (set_state (add_response (request_id request) message));
  wake.

(** [SessionEndpointLease::drop]. *)
Definition close_endpoint (endpoint : SessionEndpoint) : session unit :=
  _ ← modify (set_state (fun s =>
        mkSession (match endpoint with Server => false | Client => server_open s end)
          (match endpoint with Server => client_open s | Client => false end)
          (next_request_id s) [] None ∅ ∅));
  wake.

Definition session_is_signalled (endpoint : SessionEndpoint) (s : SessionIdentity) : bool :=
  match endpoint with
  | Server => negb (bool_decide (queued (state s) = [])) || negb (client_open (state s))
  | Client => negb (bool_decide (responses (state s) = ∅)) || negb (server_open (state s))
  end.

(** ** Calls, one lock section each *)

Inductive SessionOp : Type :=
  | Begin (endpoint : SessionEndpoint) (owner : SessionRequestOwner) (message : SessionMessage)
  | Submit (owner : SessionRequestOwner) (message : SessionMessage)
  | Poll (endpoint : SessionEndpoint) (owner : SessionRequestOwner)
  | Receive (endpoint : SessionEndpoint)
  | Reply (endpoint : SessionEndpoint) (message : SessionMessage)
  | Close (endpoint : SessionEndpoint)
  | Peek (endpoint : SessionEndpoint).

Inductive SessionAnswer : Type :=
  | Polled (result : option SessionRequestResult)
  | Received (message : SessionMessage)
  | Signal (b : bool)
  | Done.

Definition session_op (light : bool) (op : SessionOp) : session SessionAnswer :=
  match op with
  | Begin e o m => r ← begin_request e light o m; mret (Polled r)
  | Submit o m => r ← submit_request o m; mret (Polled (Some r))
  | Poll e o => r ← poll_request e o; mret (Polled r)
  | Receive e => m ← receive e; mret (Received m)
  | Reply e m => _ ← reply e light m; mret Done
  | Close e => _ ← close_endpoint e; mret Done
  | Peek e => b ← gets (session_is_signalled e); mret (Signal b)
  end.

(** ** What a session promises

    Requests wait in the order they were submitted, one is served at a time, and
    a reply belongs to the owner of the request being served. *)

Record SessionSpec : Type := mkSpec {
  spec_server : bool;
  spec_client : bool;
  waiting : list (SessionRequestOwner * SessionMessage);
  serving : option SessionRequestOwner;
  answered : gmap SessionRequestOwner SessionMessage }.

Definition new_spec : SessionSpec := mkSpec true true [] None ∅.

Definition in_flight (o : SessionRequestOwner) (a : SessionSpec) : bool :=
  bool_decide (o ∈ (waiting a).*1) || bool_decide (serving a = Some o) || bool_decide (is_Some (answered a !! o)).

Definition flight_count (a : SessionSpec) : Z :=
  Z.of_nat (length (waiting a)) + Z.b2z (bool_decide (is_Some (serving a))) + Z.of_nat (size (answered a)).

Definition spec_poll (o : SessionRequestOwner) (a : SessionSpec) : SessionSpec * res SessionError SessionAnswer :=
  match answered a !! o with
  | Some m => (mkSpec (spec_server a) (spec_client a) (waiting a) (serving a) (delete o (answered a)), Ok (Polled (Some (Response m))))
  | None => (a, Ok (Polled (if in_flight o a then Some Waiting else None)))
  end.

Definition spec_op (light : bool) (op : SessionOp) (a : SessionSpec) : SessionSpec * res SessionError SessionAnswer :=
  match op with
  | Begin Server _ _ | Poll Server _ | Receive Client | Reply Client _ => (a, Err WrongEndpoint)
  | Begin Client o m => if Bool.eqb light (is_light m) then spec_poll o a else (a, Err MessageKindMismatch)
  | Poll Client o => spec_poll o a
  | Submit o m =>
      if negb (spec_server a) then (a, Err PeerClosed)
      else if MAX_SESSION_REQUESTS <=? flight_count a then (a, Err QueueFull)
      else (mkSpec (spec_server a) (spec_client a) (waiting a ++ [(o, m)]) (serving a) (answered a), Ok (Polled (Some Submitted)))
  | Receive Server =>
      match serving a, waiting a with
      | Some _, _ => (a, Err ReplyPending)
      | None, [] => (a, Err (if spec_client a then NoRequest else PeerClosed))
      | None, (o, m) :: rest => (mkSpec (spec_server a) (spec_client a) rest (Some o) (answered a), Ok (Received m))
      end
  | Reply Server m =>
      if negb (Bool.eqb light (is_light m)) then (a, Err MessageKindMismatch)
      else if negb (spec_client a) then (a, Err PeerClosed)
      else match serving a with
           | None => (a, Err NoRequest)
           | Some o => (mkSpec (spec_server a) (spec_client a) (waiting a) None (<[o := m]> (answered a)), Ok Done)
           end
  | Close e =>
      (mkSpec (match e with Server => false | Client => spec_server a end)
         (match e with Server => spec_client a | Client => false end) [] None ∅, Ok Done)
  | Peek Server => (a, Ok (Signal (negb (bool_decide (waiting a = [])) || negb (spec_client a))))
  | Peek Client => (a, Ok (Signal (negb (bool_decide (answered a = ∅)) || negb (spec_server a))))
  end.

(** The outcomes of a sequence of calls. *)
Fixpoint outcomes {S} (step : SessionOp -> S -> S * res SessionError SessionAnswer) (ops : list SessionOp) (s : S) :
    list (res SessionError SessionAnswer) :=
  match ops with
  | [] => []
  | op :: ops => snd (step op s) :: outcomes step ops (fst (step op s))
  end.

(** A thread submits after its own poll found no request of its own. *)
Fixpoint polled_first (light : bool) (ops : list SessionOp) (free : gset SessionRequestOwner) (a : SessionSpec) : Prop :=
  match ops with
  | [] => True
  | op :: ops =>
      match op with Submit o _ => o ∈ free | _ => True end /\
      polled_first light ops
        (match op, snd (spec_op light op a) with
         | Submit o _, _ => free ∖ {[o]}
         | Begin _ o _, Ok (Polled None) | Poll _ o, Ok (Polled None) => free ∪ {[o]}
         | _, _ => free
         end) (fst (spec_op light op a))
  end.
End Session.
Arguments SessionMessage : clear implicits.
Arguments SessionOp : clear implicits.
Arguments SessionIdentity : clear implicits.
Arguments SessionState : clear implicits.
Arguments SessionSpec : clear implicits.

(** ** The session refines its specification *)

Section Refinement.
Context {O W : Type}.
Implicit Types (s : SessionState O) (a : SessionSpec O) (r : SessionRequest (O := O)).

(** The request being served and those waiting, oldest first. *)
Definition requests s : list (SessionRequest (O := O)) := option_list (current s) ++ queued s.

Record session_rel (n : Z) s a : Prop := {
  rel_server : server_open s = spec_server a;
  rel_client : client_open s = spec_client a;
  rel_waiting : waiting a = map (fun r => (request_owner r, request_message r)) (queued s);
  rel_serving : serving a = request_owner <$> current s;
  rel_next : 0 < next_request_id s <= n + 1;
  rel_closed : server_open s = false -> pending_by_owner s = ∅;
  rel_request : forall r, r ∈ requests s -> pending_by_owner s !! request_owner r = Some (request_id r) /\ responses s !! request_id r = None;
  rel_ids : NoDup (map request_id (requests s));
  rel_pending : forall o i, pending_by_owner s !! o = Some i ->
    i < next_request_id s /\ ((exists r, r ∈ requests s /\ request_owner r = o) \/ is_Some (responses s !! i));
  rel_inj : forall o o' i, pending_by_owner s !! o = Some i -> pending_by_owner s !! o' = Some i -> o = o';
  rel_response : forall i, is_Some (responses s !! i) -> exists o, pending_by_owner s !! o = Some i;
  rel_answered : forall o, answered a !! o = (i ← pending_by_owner s !! o; responses s !! i);
  rel_count : Z.of_nat (size (pending_by_owner s)) = flight_count a }.

Lemma new_session_rel : session_rel 0 (state (new_session (O := O) (W := W))) new_spec.
Proof.
  split; try done; try (cbn; lia).
  - intros r Hr. by apply elem_of_nil in Hr.
  - constructor.
  - intros i [m Hm]. done.
Qed.

(** Owners of requests in flight are those the session knows. *)
Lemma rel_flight n s a o : session_rel n s a -> in_flight o a = bool_decide (is_Some (pending_by_owner s !! o)).
Proof.
  intros R. unfold in_flight. rewrite (rel_waiting _ _ _ R), (rel_serving _ _ _ R), (rel_answered _ _ _ R).
  apply eq_true_iff_eq. rewrite !orb_true_iff, !bool_decide_eq_true, <- list_fmap_compose. split.
  - intros [[Hin|Hs]|Ha].
    + apply list_elem_of_fmap in Hin as (r & -> & Hin). cbn. eexists. apply R. unfold requests. by apply elem_of_app; right.
    + apply fmap_Some in Hs as (r & Hr & ->). eexists. apply R. unfold requests. rewrite Hr. by left.
    + destruct (pending_by_owner s !! o); [done|by destruct Ha].
  - intros [i Hi]. destruct (rel_pending _ _ _ R o i Hi) as [_ [(r & Hr & <-)|Hx]].
    + unfold requests in Hr. apply elem_of_app in Hr as [Hr|Hr].
      * left. right. destruct (current s); [|by apply elem_of_nil in Hr]. apply list_elem_of_singleton in Hr as ->. done.
      * left. left. apply list_elem_of_fmap. by exists r.
    + right. by rewrite Hi.
Qed.

(** ** What the sections do to the state *)

Lemma enqueue_rel n s a o m :
  session_rel n s a -> n + 2 < 2 ^ 64 -> server_open s = true -> in_flight o a = false ->
  session_rel (n + 1) (enqueue_request o m s)
    (mkSpec (spec_server a) (spec_client a) (waiting a ++ [(o, m)]) (serving a) (answered a)).
Proof.
  intros R Hn Hopen Hfree. rewrite (rel_flight _ _ _ _ R) in Hfree. apply bool_decide_eq_false, eq_None_not_Some in Hfree.
  assert (requests (enqueue_request o m s) = requests s ++ [mkRequest (next_request_id s) o m]) as Er.
  { unfold requests. cbn. by rewrite app_assoc. }
  destruct R as [R1 R2 R3 R4 R5 R6 R7 R8 R9 R10 R11 R12 R13].
  assert (forall i, is_Some (responses s !! i) -> i < next_request_id s) as Hbelow.
  { intros i [o' Ho]%R11. by apply R9 in Ho as [? _]. }
  assert (responses s !! next_request_id s = None) as Hnew.
  { apply eq_None_not_Some. intros Hx%Hbelow. lia. }
  assert (forall o' i, <[o := next_request_id s]> (pending_by_owner s) !! o' = Some i ->
            o' = o /\ i = next_request_id s \/ o' <> o /\ pending_by_owner s !! o' = Some i /\ i < next_request_id s) as Hpend.
  { intros o' i. rewrite lookup_insert_Some. intros [[-> <-]|[? Ho]]; [by left|right]. split; [done|]. split; [done|]. by apply R9 in Ho as [? _]. }
  split; rewrite ?Er; cbn; try done.
  - rewrite R3, map_app. done.
  - lia.
  - congruence.
  - intros r Hr. apply elem_of_app in Hr as [Hr|Hr%list_elem_of_singleton].
    + destruct (R7 r Hr) as [Hp ?]. rewrite lookup_insert_ne; [done|]. intros ->. congruence.
    + subst r. cbn. by rewrite lookup_insert_eq.
  - rewrite map_app. apply list.NoDup_app. split; [done|]. split; [|repeat constructor; apply not_elem_of_nil].
    intros i (r & -> & Hr)%list_elem_of_fmap [Hi|Hi]%elem_of_cons; [|by apply elem_of_nil in Hi]. cbn in Hi.
    destruct (R7 r Hr) as [Hp _]. apply R9 in Hp as [? _]. lia.
  - intros o' i [[-> ->]|(Hne & Ho & Hi)]%Hpend.
    + split; [lia|]. left. eexists. split; [apply elem_of_app; right; left|done].
    + split; [lia|]. destruct (R9 o' i Ho) as [_ [(r & Hr & <-)|?]]; [left|by right]. exists r. split; [|done]. by apply elem_of_app; left.
  - intros o1 o2 i H1%Hpend H2%Hpend. destruct H1 as [[-> ->]|(? & H1 & ?)], H2 as [[-> ?]|(? & H2 & ?)]; try done; try lia.
    by apply (R10 o1 o2 i).
  - intros i Hi. destruct (R11 i Hi) as [o' Ho]. exists o'. rewrite lookup_insert_ne; [done|]. intros ->. congruence.
  - intros o'. rewrite R12. destruct (decide (o = o')) as [<-|Hne]; [rewrite Hfree, lookup_insert_eq; cbn; done|by rewrite lookup_insert_ne].
  - rewrite map_size_insert_None by done. unfold flight_count in *. cbn. rewrite length_app. cbn. lia.
Qed.

Lemma rel_later n s a : session_rel n s a -> session_rel (n + 1) s a.
Proof. intros R. destruct R. split; try done. lia. Qed.

Lemma take_rel n s a o i m :
  session_rel n s a -> pending_by_owner s !! o = Some i -> responses s !! i = Some m ->
  session_rel (n + 1) (take_response o i s)
    (mkSpec (spec_server a) (spec_client a) (waiting a) (serving a) (delete o (answered a))).
Proof.
  intros [R1 R2 R3 R4 R5 R6 R7 R8 R9 R10 R11 R12 R13] Hi Hm.
  assert (answered a !! o = Some m) as Ha by (rewrite R12, Hi; done).
  assert (forall o' j, delete o (pending_by_owner s) !! o' = Some j -> o' <> o /\ pending_by_owner s !! o' = Some j /\ j <> i) as Hpend.
  { intros o' j [Hne Ho]%lookup_delete_Some. split; [done|]. split; [done|]. intros ->. by apply Hne, (R10 o o' i). }
  split; cbn; try done.
  - lia.
  - intros Hc. by rewrite (R6 Hc) in Hi.
  - intros r Hr. destruct (R7 r Hr) as [Hp Hn]. assert (request_owner r <> o) as Hne by (intros E; rewrite E in Hp; congruence).
    rewrite lookup_delete_ne by done. split; [done|]. by apply lookup_delete_None; right.
  - intros o' j (Hne & Ho & Hj)%Hpend. destruct (R9 o' j Ho) as [Hlt Hr]. split; [done|].
    by rewrite lookup_delete_ne by done.
  - intros o1 o2 j (_ & H1 & _)%Hpend (_ & H2 & _)%Hpend. by apply (R10 o1 o2 j).
  - intros j [Hne Hj]%lookup_delete_is_Some. destruct (R11 j Hj) as [o' Ho]. exists o'. apply lookup_delete_Some. split; [|done].
    intros <-. congruence.
  - intros o'. destruct (decide (o = o')) as [<-|Hne]; [by rewrite !lookup_delete_eq|]. rewrite !lookup_delete_ne by done.
    rewrite R12. destruct (pending_by_owner s !! o') as [j|] eqn:Ho; [|done]. cbn. rewrite lookup_delete_ne; [done|].
    intros ->. by apply Hne, (R10 o o' j).
  - rewrite map_size_delete_Some by done. unfold flight_count in *. cbn. rewrite map_size_delete_Some by done.
    assert (size (pending_by_owner s) <> 0%nat) by (intros E%map_size_empty_inv; rewrite E in Hi; done).
    assert (size (answered a) <> 0%nat) by (intros E%map_size_empty_inv; rewrite E in Ha; done). lia.
Qed.

Lemma receive_rel n s a r rest :
  session_rel n s a -> current s = None -> queued s = r :: rest ->
  session_rel (n + 1) (set_current (Some r) rest s)
    (mkSpec (spec_server a) (spec_client a) (tail (waiting a)) (Some (request_owner r)) (answered a)).
Proof.
  intros [R1 R2 R3 R4 R5 R6 R7 R8 R9 R10 R11 R12 R13] Hc Hq.
  assert (requests (set_current (Some r) rest s) = requests s) as Er by (unfold requests; cbn; by rewrite Hc, Hq).
  split; rewrite ?Er; cbn; try done.
  - by rewrite R3, Hq.
  - lia.
  - rewrite R13. unfold flight_count. cbn. rewrite R4, Hc, R3, Hq. cbn. lia.
Qed.

Lemma reply_rel n s a r m :
  session_rel n s a -> current s = Some r ->
  session_rel (n + 1) (add_response (request_id r) m s)
    (mkSpec (spec_server a) (spec_client a) (waiting a) None (<[request_owner r := m]> (answered a))).
Proof.
  intros [R1 R2 R3 R4 R5 R6 R7 R8 R9 R10 R11 R12 R13] Hc.
  assert (requests s = r :: queued s) as Er by (unfold requests; by rewrite Hc).
  rewrite Er in R7, R8, R9. destruct (R7 r) as [Hp Hn]; [left|].
  assert (answered a !! request_owner r = None) as Ha by (rewrite R12, Hp; done).
  apply list.NoDup_cons in R8 as [Hnew Hids].
  split; cbn; try done.
  - lia.
  - intros r' Hr. destruct (R7 r') as [Hp' Hn']; [by right|]. split; [done|]. rewrite lookup_insert_ne; [done|].
    intros E. apply Hnew. apply list_elem_of_fmap. by exists r'.
  - intros o i Ho. destruct (R9 o i Ho) as [Hlt Hr]. split; [done|]. destruct Hr as [(r' & [->|Hr]%elem_of_cons & Hr')|Hr].
    + right. subst o. replace i with (request_id r) by congruence. by rewrite lookup_insert_eq.
    + left. exists r'. done.
    + right. apply lookup_insert_is_Some'. by right.
  - intros i [<-|Hi]%lookup_insert_is_Some'; [by eexists|]. by apply R11.
  - intros o. destruct (decide (request_owner r = o)) as [<-|Hne].
    + rewrite lookup_insert_eq, Hp. cbn. by rewrite lookup_insert_eq.
    + rewrite lookup_insert_ne, R12 by done. destruct (pending_by_owner s !! o) as [i|] eqn:Ho; [|done]. cbn.
      rewrite lookup_insert_ne; [done|]. intros <-. by apply Hne, (R10 _ _ (request_id r)).
  - rewrite R13. unfold flight_count. cbn. rewrite R4, Hc, map_size_insert_None by done. cbn. lia.
Qed.

Lemma close_rel n s a server client :
  session_rel n s a ->
  session_rel (n + 1) (mkSession server client (next_request_id s) [] None ∅ ∅) (mkSpec server client [] None ∅).
Proof.
  intros R. pose proof (rel_next _ _ _ R). split; try done; try (cbn; lia).
  - intros r Hr. by apply elem_of_nil in Hr.
  - constructor.
  - intros i [m Hm]. done.
Qed.

Lemma wake_state (s : SessionIdentity O W) : state (fst (wake s)) = state s.
Proof. done. Qed.

(** One call and one step of the specification. *)
Definition simulates (n : Z) (s' : SessionIdentity O W) (x : res SessionError (SessionAnswer (O := O)))
    (y : SessionSpec O * res SessionError (SessionAnswer (O := O))) : Prop :=
  x = snd y /\ session_rel (n + 1) (state s') (fst y).

Lemma poll_refines n o (s : SessionIdentity O W) a :
  session_rel n (state s) a ->
  let '(s', x) := (r ← poll_request Client o; mret (Polled r)) s in simulates n s' x (spec_poll o a).
Proof.
  intros R. unfold spec_poll, simulates. rewrite (rel_answered _ _ _ R), (rel_flight _ _ _ _ R).
  unfold poll_request, mbind, M_bind, guard_err, gets, throw, lift, ok_or, modify, mret, M_ret.
  rewrite ?(bool_decide_true (Client = Client)), ?(bool_decide_true (Server = Server)) by done. cbn.
  destruct (pending_by_owner (state s) !! o) as [i|] eqn:Hi; cbn; [|split; [done|by apply rel_later]].
  destruct (responses (state s) !! i) as [m|] eqn:Hm; cbn.
  - split; [done|]. by eapply take_rel.
  - destruct (server_open (state s)) eqn:Hs; cbn; [split; [done|by apply rel_later]|].
    rewrite (rel_closed _ _ _ R Hs) in Hi. done.
Qed.

Lemma submit_refines n o m (s : SessionIdentity O W) a light :
  session_rel n (state s) a -> n + 2 < 2 ^ 64 -> in_flight o a = false ->
  let '(s', x) := session_op light (Submit o m) s in simulates n s' x (spec_op light (Submit o m) a).
Proof.
  intros R Hn Hf. unfold simulates. cbn [session_op spec_op]. unfold submit_request, mbind, M_bind, guard_err, gets, throw, lift, ok_or, modify, mret, M_ret.
  rewrite ?(bool_decide_true (Client = Client)), ?(bool_decide_true (Server = Server)) by done. cbn -[Z.leb].
  rewrite <- (rel_server _ _ _ R), <- (rel_count _ _ _ R). destruct (server_open (state s)) eqn:Hs; cbn -[Z.leb].
  2: { split; [done|by apply rel_later]. }
  destruct (MAX_SESSION_REQUESTS <=? _); cbn -[Z.leb]; [split; [done|by apply rel_later]|].
  split; [done|]. rewrite <- Hs, (rel_server _ _ _ R). by apply enqueue_rel.
Qed.

Lemma receive_refines n (s : SessionIdentity O W) a light :
  session_rel n (state s) a ->
  let '(s', x) := session_op light (Receive Server) s in simulates n s' x (spec_op light (Receive Server) a).
Proof.
  intros R. unfold simulates. cbn [session_op spec_op]. unfold receive, mbind, M_bind, guard_err, gets, throw, lift, ok_or, modify, mret, M_ret.
  rewrite ?(bool_decide_true (Client = Client)), ?(bool_decide_true (Server = Server)) by done. cbn.
  rewrite (rel_serving _ _ _ R), (rel_waiting _ _ _ R), <- (rel_client _ _ _ R).
  destruct (current (state s)) as [r|] eqn:Hc; cbn; [split; [done|by apply rel_later]|].
  destruct (queued (state s)) as [|r rest] eqn:Hq; cbn; [split; [done|by apply rel_later]|].
  split; [done|]. pose proof (receive_rel _ _ _ _ _ R Hc Hq) as Hr. rewrite (rel_waiting _ _ _ R), Hq, <- (rel_client _ _ _ R) in Hr. done.
Qed.

Lemma reply_refines n m (s : SessionIdentity O W) a light :
  session_rel n (state s) a ->
  let '(s', x) := session_op light (Reply Server m) s in simulates n s' x (spec_op light (Reply Server m) a).
Proof.
  intros R. unfold simulates. cbn [session_op spec_op]. unfold reply, mbind, M_bind, guard_err, gets, throw, lift, ok_or, modify, mret, M_ret.
  rewrite ?(bool_decide_true (Client = Client)), ?(bool_decide_true (Server = Server)) by done. cbn.
  rewrite (rel_serving _ _ _ R). destruct (Bool.eqb light (is_light m)); cbn; [|split; [done|by apply rel_later]].
  rewrite <- (rel_client _ _ _ R). destruct (client_open (state s)) eqn:Ho; cbn; [|split; [done|by apply rel_later]].
  destruct (current (state s)) as [r|] eqn:Hc; cbn; [|split; [done|by apply rel_later]].
  destruct (rel_request _ _ _ R r) as [Hp _]; [unfold requests; rewrite Hc; left|]. rewrite bool_decide_true by done. cbn.
  split; [done|]. rewrite <- Ho, (rel_client _ _ _ R). by apply reply_rel.
Qed.

Lemma peek_refines n e (s : SessionIdentity O W) a light :
  session_rel n (state s) a ->
  let '(s', x) := session_op light (Peek e) s in simulates n s' x (spec_op light (Peek e) a).
Proof.
  intros R. unfold simulates. destruct e; cbn; unfold session_is_signalled; rewrite <- ?(rel_server _ _ _ R), <- ?(rel_client _ _ _ R); (split; [|by apply rel_later]).
  - rewrite (rel_waiting _ _ _ R).
    rewrite (bool_decide_ext (queued (state s) = []) (map (fun r => (request_owner r, request_message r)) (queued (state s)) = [])); [done|].
    by destruct (queued (state s)).
  - rewrite (bool_decide_ext (responses (state s) = ∅) (answered a = ∅)); [done|]. split; intros E.
    + apply map_empty. intros o. rewrite (rel_answered _ _ _ R), E. by destruct (_ !! o).
    + apply map_empty. intros i. apply eq_None_not_Some. intros Hi. destruct (rel_response _ _ _ R i Hi) as [o Ho].
      pose proof (rel_answered _ _ _ R o) as Ha. rewrite E, Ho, lookup_empty in Ha. cbn in Ha. rewrite <- Ha in Hi. by destruct Hi.
Qed.

Lemma op_refines light n op (s : SessionIdentity O W) a :
  session_rel n (state s) a -> n + 2 < 2 ^ 64 ->
  match op with Submit o _ => in_flight o a = false | _ => True end ->
  let '(s', x) := session_op light op s in simulates n s' x (spec_op light op a).
Proof.
  intros R Hn Hf. destruct op as [[] o m|o m|[] o|[]|[] m|e|e].
  - split; [done|by apply rel_later].
  - cbn [session_op spec_op]. pose proof (poll_refines n o s a R) as H. unfold begin_request, poll_request, mbind, M_bind, guard_err, gets, throw, modify, mret, M_ret in *.
    rewrite !(bool_decide_true (Client = Client)) in * by done. cbn in *.
    destruct (Bool.eqb light (is_light m)); cbn in *; [exact H|]. split; [done|by apply rel_later].
  - by apply submit_refines.
  - split; [done|by apply rel_later].
  - by apply poll_refines.
  - by apply receive_refines.
  - split; [done|by apply rel_later].
  - by apply reply_refines.
  - split; [done|by apply rel_later].
  - cbn. split; [done|]. cbn. rewrite <- (rel_server _ _ _ R), <- (rel_client _ _ _ R). by apply (close_rel _ _ _ _ _ R).
  - by apply peek_refines.
Qed.

(** ** Sequences of calls *)

Lemma idle_iff o a : in_flight o a = false <-> (o ∉ (waiting a).*1) /\ serving a <> Some o /\ answered a !! o = None.
Proof.
  unfold in_flight. rewrite !orb_false_iff, !bool_decide_eq_false, <- eq_None_not_Some. tauto.
Qed.

(** Only its own submission puts an owner in flight. *)
Lemma poll_idle o o' a : in_flight o a = false -> in_flight o (fst (spec_poll o' a)) = false.
Proof.
  intros (H1 & H2 & H3)%idle_iff. unfold spec_poll. destruct (answered a !! o') as [m|]; apply idle_iff; cbn; [|done].
  split; [done|]. split; [done|]. apply lookup_delete_None. by right.
Qed.

Lemma op_idle light op o a :
  in_flight o a = false -> (forall m, op <> Submit o m) -> in_flight o (fst (spec_op light op a)) = false.
Proof.
  intros Hi Hop. pose proof (poll_idle o) as Hpoll. pose proof Hi as (H1 & H2 & H3)%idle_iff.
  destruct op as [[] o' m|o' m|[] o'|[]|[] m|e|[]]; cbn; try done.
  - case_match; [by apply Hpoll|done].
  - case_match; [done|]. case_match; [done|]. apply idle_iff. cbn. split; [|done].
    rewrite fmap_app. intros [Hin|Hin]%elem_of_app; [done|]. cbn in Hin. apply list_elem_of_singleton in Hin as ->. by destruct (Hop m).
  - by apply Hpoll.
  - destruct (serving a) eqn:Es; [done|]. destruct (waiting a) as [|[o' m] rest] eqn:Ew; [done|]. apply idle_iff. cbn in *.
    rewrite not_elem_of_cons in H1. destruct H1 as [Hne H1]. split; [done|]. split; [congruence|done].
  - case_match; [done|]. case_match; [done|]. destruct (serving a) as [o'|] eqn:Es; [|done]. apply idle_iff. cbn.
    split; [done|]. split; [done|]. rewrite lookup_insert_ne; [done|congruence].
Qed.

Lemma polled_none o a : snd (spec_poll o a) = Ok (Polled None) -> in_flight o a = false /\ fst (spec_poll o a) = a.
Proof. unfold spec_poll. destruct (answered a !! o); [done|]. by destruct (in_flight o a). Qed.

Lemma outcomes_refine light ops free n (s : SessionIdentity O W) a :
  session_rel n (state s) a -> n + Z.of_nat (length ops) + 1 < 2 ^ 64 -> (forall o, o ∈ free -> in_flight o a = false) ->
  polled_first light ops free a -> outcomes (session_op light) ops s = outcomes (spec_op light) ops a.
Proof.
  revert free n s a. induction ops as [|op ops IH]; intros free n s a R Hn Hfree Hpf; [done|]. destruct Hpf as [Hop Hrest]. cbn [length] in Hn. cbn [outcomes].
  pose proof (op_refines light n op s a R ltac:(lia)) as Hsim. destruct (session_op light op s) as [s' x].
  destruct Hsim as [-> R']; [by destruct op; try apply Hfree|]. cbn [fst snd]. f_equal.
  eapply IH; [exact R'|lia| |exact Hrest]. intros o Ho.
  assert (in_flight o a = false -> (forall m, op <> Submit o m) -> in_flight o (fst (spec_op light op a)) = false) as Hkeep by apply op_idle.
  destruct op as [e o' m|o' m|e o'|e|e m|e|e]; try (apply Hkeep; [by apply Hfree|done]).
  - destruct (snd (spec_op light (Begin e o' m) a)) as [[[]| | |]| |] eqn:Ea; try (apply Hkeep; [by apply Hfree|done]).
    apply elem_of_union in Ho as [Ho|Ho]; [apply Hkeep; [by apply Hfree|done]|]. apply elem_of_singleton in Ho as ->. destruct e; [done|]. cbn in *.
    destruct (Bool.eqb light (is_light m)); [|done]. apply polled_none in Ea as [? ->]. done.
  - apply elem_of_difference in Ho as [Ho Hne]. apply Hkeep; [by apply Hfree|]. intros m' [= -> ->]. by apply Hne, elem_of_singleton.
  - destruct (snd (spec_op light (Poll e o') a)) as [[[]| | |]| |] eqn:Ea; try (apply Hkeep; [by apply Hfree|done]).
    apply elem_of_union in Ho as [Ho|Ho]; [apply Hkeep; [by apply Hfree|done]|]. apply elem_of_singleton in Ho as ->. destruct e; [done|]. cbn in *.
    apply polled_none in Ea as [? ->]. done.
Qed.

Lemma spec_never_panics light op a : snd (spec_op light op a) <> Panic.
Proof.
  assert (forall o, snd (spec_poll o a) <> Panic) as Hp by (intros o; unfold spec_poll; by destruct (answered a !! o)).
  destruct op as [[] o m|o m|[] o|[]|[] m|e|[]]; cbn; try done; try apply Hp; repeat case_match; try done; apply Hp.
Qed.
End Refinement.

(** C8: A session behaves as its specification: along any interleaving of the
    lock sections of its calls, in which a thread submits only after its own
    poll found nothing of its own, every call returns what the specification
    returns.  So requests are served first come first served, one at a time; a
    reply reaches the owner of the request it answers, once; at most 64 requests
    are in flight; after an endpoint closes nothing old is delivered; and the
    [debug_assert] in [reply] never fails. *)
Theorem session_refines {O W} light (ops : list (SessionOp O)) :
  Z.of_nat (length ops) + 1 < 2 ^ 64 -> polled_first light ops ∅ new_spec ->
  outcomes (session_op light) ops (new_session (W := W)) = outcomes (spec_op light) ops new_spec /\
  Panic ∉ outcomes (session_op light) ops (new_session (W := W)).
Proof.
  intros Hn Hpoll.
  assert (outcomes (session_op light) ops (new_session (W := W)) = outcomes (spec_op light) ops new_spec) as E.
  { eapply outcomes_refine; [apply new_session_rel|lia| |exact Hpoll]. intros o Ho. by apply elem_of_empty in Ho. }
  split; [done|]. rewrite E. clear. generalize (new_spec (O := O)). induction ops as [|op ops IH]; intros a; cbn; [apply not_elem_of_nil|].
  rewrite not_elem_of_cons. split; [|apply IH]. intros H. by apply (spec_never_panics light op a).
Qed.

(** Two threads of process 1 ask; the server answers in order. *)
Definition sample_calls : list (SessionOp Z) :=
  [Begin Client (1, 7) (Buffer [1]); Begin Client (1, 8) (Buffer [2]); Submit (1, 8) (Buffer [2]); Submit (1, 7) (Buffer [1]);
   Receive Server; Reply Server (Buffer [20]); Receive Server; Poll Client (1, 7); Poll Client (1, 8); Reply Server (Buffer [10]); Poll Client (1, 7)].

Lemma session_refines_witness :
  outcomes (session_op false) sample_calls (new_session (W := Z)) =
    [Ok (Polled None); Ok (Polled None); Ok (Polled (Some Submitted)); Ok (Polled (Some Submitted)); Ok (Received (Buffer [2])); Ok Done;
     Ok (Received (Buffer [1])); Ok (Polled (Some Waiting)); Ok (Polled (Some (Response (Buffer [20])))); Ok Done;
     Ok (Polled (Some (Response (Buffer [10]))))] /\
  outcomes (session_op false) sample_calls (new_session (W := Z)) = outcomes (spec_op false) sample_calls new_spec.
Proof.
  split; [vm_compute; reflexivity|]. apply (session_refines (W := Z) false sample_calls); [cbn; lia|].
  repeat (split; [first [exact I|vm_compute; repeat split; set_solver|by apply (bool_decide_unpack _); vm_compute]|]). exact I.
Defined.
