(* ===== verification/AddressWait.v ===== *)
(** * Address wait queues: [crates/runtime/src/address_wait.rs]

    Waiters queue at an address in the order they come; each has an event of its
    own, which the waiting thread and the registry share.  Events are therefore a
    store indexed by identity, beside the registry.  [W] is the type of event
    observers; [notified] collects those that are called. *)

From Stdlib Require Import ZArith Lia Bool.
From stdpp Require Import base gmap list numbers option.
From S2P Require Import Prelude RustInt RustList Events.
Local Open Scope Z_scope.

Abbreviation GuestThreadId := Z.

Record AddressWaiter : Set := mkWaiter { waiter_thread : GuestThreadId; waiter_value : Z; waiter_event : Z }.

Section Registry.
Context {W : Type}.

Record AddressWaitRegistry : Type := mkRegistry {
  waiters : gmap Z (list AddressWaiter);
  owners : gmap Z GuestThreadId;
  events : gmap Z (EventState W);
  next_event : Z;
  notified : list (Z * W) }.

Definition empty_registry : AddressWaitRegistry := mkRegistry ∅ ∅ ∅ 0 [].

Definition set_waiters (m : gmap Z (list AddressWaiter)) (g : AddressWaitRegistry) : AddressWaitRegistry :=
  mkRegistry m (owners g) (events g) (next_event g) (notified g).
Definition set_owners (m : gmap Z GuestThreadId) (g : AddressWaitRegistry) : AddressWaitRegistry :=
  mkRegistry (waiters g) m (events g) (next_event g) (notified g).

(** The queue at an address; an address without waiters has no entry. *)
Definition queue (g : AddressWaitRegistry) (address : Z) : list AddressWaiter := default [] (waiters g !! address).

Definition is_thread (thread : GuestThreadId) (w : AddressWaiter) : bool := waiter_thread w =? thread.

Definition contains (address : Z) (thread : GuestThreadId) (g : AddressWaitRegistry) : bool :=
  existsb (is_thread thread) (queue g address).

(** [enqueue], with the identity of the readable event it returns. *)
Definition enqueue (address : Z) (thread : GuestThreadId) (value : Z) (g : AddressWaitRegistry) : AddressWaitRegistry * Z :=
  let e := next_event g in
  (mkRegistry (<[address := queue g address ++ [mkWaiter thread value e]]> (waiters g)) (owners g)
     (<[e := new_event]> (events g)) (e + 1) (notified g), e).

Definition event_signalled (g : AddressWaitRegistry) (e : Z) : bool :=
  match events g !! e with Some s => is_signalled s | None => false end.

Definition wait_signalled (address : Z) (thread : GuestThreadId) (g : AddressWaitRegistry) : bool :=
  match find (is_thread thread) (queue g address) with
  | Some w => event_signalled g (waiter_event w)
  | None => false
  end.

Definition wait_value (address : Z) (thread : GuestThreadId) (g : AddressWaitRegistry) : option Z :=
  option_map waiter_value (find (is_thread thread) (queue g address)).

(** [VecDeque::remove] at the first position of the thread. *)
Fixpoint remove_first (thread : GuestThreadId) (l : list AddressWaiter) : list AddressWaiter :=
  match l with
  | [] => []
  | w :: l => if is_thread thread w then l else w :: remove_first thread l
  end.

Definition remove (address : Z) (thread : GuestThreadId) (g : AddressWaitRegistry) : AddressWaitRegistry :=
  match waiters g !! address with
  | None => g
  | Some l =>
      match remove_first thread l with
      | [] => set_waiters (delete address (waiters g)) g
      | l => set_waiters (<[address := l]> (waiters g)) g
      end
  end.

(** [waiter.writable.signal()]. *)
Definition signal_event (g : AddressWaitRegistry) (w : AddressWaiter) : AddressWaitRegistry :=
  match events g !! waiter_event w with
  | None => g
  | Some s =>
      let '(s, observers) := Events.signal s in
      mkRegistry (waiters g) (owners g) (<[waiter_event w := s]> (events g)) (next_event g) (notified g ++ observers)
  end.

Definition signal (address count : Z) (g : AddressWaitRegistry) : AddressWaitRegistry :=
  foldl signal_event g (take (Z.to_nat count) (queue g address)).

Definition signal_one (address : Z) (g : AddressWaitRegistry) : AddressWaitRegistry := signal address 1 g.

Definition set_owner (address : Z) (thread : GuestThreadId) (g : AddressWaitRegistry) : AddressWaitRegistry :=
  set_owners (<[address := thread]> (owners g)) g.

Definition remove_owner (address : Z) (g : AddressWaitRegistry) : AddressWaitRegistry * option GuestThreadId :=
  (set_owners (delete address (owners g)) g, owners g !! address).

Definition owned_by (thread : GuestThreadId) (g : AddressWaitRegistry) : list Z :=
  map fst (List.filter (fun p => snd p =? thread) (in_key_order (owners g))).

Definition release_thread (thread : GuestThreadId) (g : AddressWaitRegistry) : AddressWaitRegistry :=
  let addresses := map fst (in_key_order (waiters g)) in
  let g := foldl (fun g address => remove address thread g) g addresses in
  foldl (fun g address => signal_one address (fst (remove_owner address g))) g (owned_by thread g).

Definition waiter_count (g : AddressWaitRegistry) : Z :=
  foldr Z.add 0 (map (fun p => Z.of_nat (length (snd p))) (in_key_order (waiters g))).
End Registry.
Arguments AddressWaitRegistry : clear implicits.

(** ** What signalling and releasing do *)

Section Props.
Context {W : Type}.
Implicit Types (g : AddressWaitRegistry W) (t : GuestThreadId).

(** Every waiter's event is in the store, as [enqueue] leaves it. *)
Definition events_known g : Prop := forall a w, w ∈ queue g a -> is_Some (events g !! waiter_event w).

Lemma signal_event_spec g w :
  is_Some (events g !! waiter_event w) ->
  waiters (signal_event g w) = waiters g /\ owners (signal_event g w) = owners g /\
  (forall e, is_Some (events g !! e) -> is_Some (events (signal_event g w) !! e)) /\
  (forall e, event_signalled (signal_event g w) e = event_signalled g e || bool_decide (e = waiter_event w)).
Proof.
  intros [s Hs]. unfold signal_event. rewrite Hs. cbn. split; [done|]. split; [done|]. split.
  - intros e He. apply lookup_insert_is_Some'. by right.
  - intros e. unfold event_signalled. cbn. destruct (decide (e = waiter_event w)) as [->|Hne].
    + rewrite lookup_insert_eq, Hs, bool_decide_true by done. cbn. by rewrite orb_true_r.
    + rewrite lookup_insert_ne, bool_decide_false, orb_false_r by done. done.
Qed.

Lemma signal_events_spec l g :
  (forall w, w ∈ l -> is_Some (events g !! waiter_event w)) ->
  waiters (foldl signal_event g l) = waiters g /\ owners (foldl signal_event g l) = owners g /\
  (forall e, is_Some (events g !! e) -> is_Some (events (foldl signal_event g l) !! e)) /\
  (forall e, event_signalled (foldl signal_event g l) e = event_signalled g e || bool_decide (e ∈ map waiter_event l)).
Proof.
  revert g. induction l as [|w l IH]; intros g Hk; cbn.
  - split; [done|]. split; [done|]. split; [done|]. intros e. by rewrite orb_false_r.
  - destruct (signal_event_spec g w) as (E1 & E2 & E3 & E4); [apply Hk; left|].
    destruct (IH (signal_event g w)) as (F1 & F2 & F3 & F4); [intros v Hv; apply E3, Hk; by right|].
    split; [congruence|]. split; [congruence|]. split; [auto|]. intros e. rewrite F4, E4, <- orb_assoc. f_equal.
    apply eq_true_iff_eq. rewrite orb_true_iff, !bool_decide_eq_true, elem_of_cons. done.
Qed.

Lemma signal_spec address count g :
  events_known g ->
  waiters (signal address count g) = waiters g /\ owners (signal address count g) = owners g /\ events_known (signal address count g) /\
  (forall e, event_signalled (signal address count g) e =
             event_signalled g e || bool_decide (e ∈ map waiter_event (take (Z.to_nat count) (queue g address)))).
Proof.
  intros Hk. unfold signal. set (l := take _ _).
  destruct (signal_events_spec l g) as (E1 & E2 & E3 & E4); [intros w Hw; apply (Hk address); rewrite <- (take_drop (Z.to_nat count)); apply elem_of_app; by left|].
  split; [done|]. split; [done|]. split; [|done]. intros a w. unfold queue. rewrite E1. intros Hw. apply E3. by apply (Hk a).
Qed.

(** ** Removing a thread *)

Lemma remove_first_subset t l w : w ∈ remove_first t l -> w ∈ l.
Proof.
  induction l as [|v l IH]; cbn; [done|]. destruct (is_thread t v); rewrite !elem_of_cons; tauto.
Qed.

Lemma remove_spec a t g :
  owners (remove a t g) = owners g /\ events (remove a t g) = events g /\
  forall b, queue (remove a t g) b = if decide (b = a) then remove_first t (queue g b) else queue g b.
Proof.
  unfold remove, queue. destruct (waiters g !! a) as [l|] eqn:E.
  - destruct (remove_first t l) as [|w l'] eqn:El; (split; [done|]); (split; [done|]); intros b; cbn.
    + case_decide as Hb; [subst b; rewrite lookup_delete_eq, E; cbn; by rewrite El|by rewrite lookup_delete_ne].
    + case_decide as Hb; [subst b; rewrite lookup_insert_eq, E; cbn; by rewrite El|by rewrite lookup_insert_ne].
  - split; [done|]. split; [done|]. intros b. case_decide as Hb; [subst b; by rewrite E|done].
Qed.

Lemma remove_all_spec t l g :
  NoDup l ->
  let g' := foldl (fun g address => remove address t g) g l in
  owners g' = owners g /\ events g' = events g /\
  forall b, queue g' b = if decide (b ∈ l) then remove_first t (queue g b) else queue g b.
Proof.
  revert g. induction l as [|a l IH]; intros g Hnd; cbn.
  - split; [done|]. split; [done|]. intros b. rewrite decide_False; [done|apply not_elem_of_nil].
  - apply list.NoDup_cons in Hnd as [Ha Hnd]. destruct (remove_spec a t g) as (E1 & E2 & E3).
    destruct (IH (remove a t g) Hnd) as (F1 & F2 & F3). split; [congruence|]. split; [congruence|]. intros b. rewrite F3, E3.
    destruct (decide (b = a)) as [->|Hb].
    + rewrite decide_False, decide_True by (done || left). done.
    + destruct (decide (b ∈ l)); [rewrite decide_True by (by right); done|]. rewrite decide_False; [done|]. by intros [?|?]%elem_of_cons.
Qed.

Lemma keys_nodup {A} (m : gmap Z A) : NoDup (map fst (in_key_order m)).
Proof. unfold in_key_order. rewrite sort_by_key_perm. apply NoDup_fst_map_to_list. Qed.

Lemma owned_spec t g : NoDup (owned_by t g) /\ forall a, a ∈ owned_by t g <-> owners g !! a = Some t.
Proof.
  unfold owned_by. split.
  - pose proof (keys_nodup (owners g)) as Hnd. induction (in_key_order (owners g)) as [|[a o] l IH]; cbn; [constructor|].
    cbn in Hnd. apply list.NoDup_cons in Hnd as [Ha Hnd]. destruct (o =? t); [|by apply IH]. cbn. constructor; [|by apply IH].
    intros Hin. apply Ha. apply list_elem_of_fmap in Hin as ([b p] & -> & Hin). apply list_elem_of_In, filter_In in Hin as [Hin _].
    apply list_elem_of_fmap. exists (b, p). split; [done|]. by apply list_elem_of_In.
  - intros a. rewrite list_elem_of_fmap. split.
    + intros ([b o] & -> & Hin). apply list_elem_of_In, filter_In in Hin as [Hin Ho]. apply list_elem_of_In, in_key_order_elem in Hin.
      cbn in *. apply Z.eqb_eq in Ho. by subst.
    + intros Ha. exists (a, t). split; [done|]. apply list_elem_of_In, filter_In. cbn. rewrite Z.eqb_refl. split; [|done].
      by apply list_elem_of_In, in_key_order_elem.
Qed.

(** Handing over the mutexes at the addresses [l]. *)
Lemma hand_off_spec l g :
  events_known g -> NoDup l ->
  let g' := foldl (fun g address => signal_one address (fst (remove_owner address g))) g l in
  events_known g' /\ waiters g' = waiters g /\
  (forall a, owners g' !! a = if decide (a ∈ l) then None else owners g !! a) /\
  (forall e, event_signalled g' e = true <->
             event_signalled g e = true \/ exists a w, a ∈ l /\ head (queue g a) = Some w /\ waiter_event w = e).
Proof.
  revert g. induction l as [|a l IH]; intros g Hk Hnd; cbn [foldl].
  - split; [done|]. split; [done|]. split; [intros a; rewrite decide_False; [done|apply not_elem_of_nil]|]. intros e. split; [by left|].
    intros [?|(a & w & Ha & _)]; [done|]. by apply elem_of_nil in Ha.
  - apply list.NoDup_cons in Hnd as [Ha Hnd]. set (g1 := fst (remove_owner a g)).
    destruct (signal_spec a 1 g1) as (E1 & E2 & E3 & E4); [exact Hk|]. fold (signal_one a g1) in *.
    destruct (IH (signal_one a g1) E3 Hnd) as (F0 & F1 & F2 & F3). split; [done|]. split; [by rewrite F1, E1|]. split.
    + intros b. rewrite F2, E2. cbn. destruct (decide (b = a)) as [->|Hb].
      * rewrite (decide_True (P := a ∈ a :: l)) by left. rewrite lookup_delete_eq. by case_decide.
      * rewrite lookup_delete_ne by done. destruct (decide (b ∈ l)); [rewrite decide_True by (by right); done|].
        rewrite decide_False; [done|]. by intros [?|?]%elem_of_cons.
    + intros e. rewrite F3, E4, orb_true_iff, bool_decide_eq_true. unfold queue. rewrite E1. cbn [g1 fst remove_owner set_owners waiters].
      change (event_signalled g1 e) with (event_signalled g e). fold (queue g a).
      assert (e ∈ map waiter_event (take (Z.to_nat 1) (queue g a)) <-> exists w, head (queue g a) = Some w /\ waiter_event w = e) as ->.
      { destruct (queue g a) as [|w q].
        - change (map waiter_event (take (Z.to_nat 1) [])) with (@nil Z). rewrite elem_of_nil. split; [done|by intros (? & ? & _)].
        - change (take (Z.to_nat 1) (w :: q)) with [w]. cbn [map]. rewrite elem_of_cons, elem_of_nil.
          split; [intros [->|[]]; by exists w|intros (? & [= <-] & <-); by left]. }
      setoid_rewrite elem_of_cons. unfold queue. split.
      * intros [[?|(w & Hw & He)]|(b & w & Hb & Hw & He)]; [by left|right; exists a, w; auto|right; exists b, w; auto].
      * intros [?|(b & w & [->|Hb] & Hw & He)]; [by left; left|left; right; by exists w|right; by exists b, w].
Qed.
End Props.

(** A thread waits at most once at an address. *)
Definition waits_once {W} (t : GuestThreadId) (g : AddressWaitRegistry W) : Prop :=
  forall a, (length (List.filter (is_thread t) (queue g a)) <= 1)%nat.

Lemma remove_first_gone t l : (length (List.filter (is_thread t) l) <= 1)%nat -> existsb (is_thread t) (remove_first t l) = false.
Proof.
  induction l as [|w l IH]; cbn; [done|]. destruct (is_thread t w) eqn:E; cbn.
  - intros Hl. destruct (List.filter _ l) as [|v k] eqn:Ef; [|cbn in Hl; lia]. apply not_true_iff_false. intros (v & Hv & Ht)%existsb_exists.
    assert (In v (List.filter (is_thread t) l)) as Hin by (by apply filter_In). rewrite Ef in Hin. done.
  - rewrite E. apply IH.
Qed.

Lemma release_thread_spec {W} t (g : AddressWaitRegistry W) :
  events_known g -> waits_once t g ->
  let g' := release_thread t g in
  events_known g' /\ (forall a, contains a t g' = false) /\
  (forall a, queue g' a = remove_first t (queue g a)) /\
  (forall a, owners g' !! a = if decide (owners g !! a = Some t) then None else owners g !! a) /\
  (forall e, event_signalled g' e = true <->
             event_signalled g e = true \/ exists a w, owners g !! a = Some t /\ head (queue g' a) = Some w /\ waiter_event w = e).
Proof.
  intros Hk Honce. unfold release_thread.
  destruct (remove_all_spec t (map fst (in_key_order (waiters g))) g (keys_nodup _)) as (E1 & E2 & E3). cbn zeta in E1, E2, E3.
  set (g1 := foldl _ g _) in *.
  assert (forall b, queue g1 b = remove_first t (queue g b)) as Hq.
  { intros b. rewrite E3. case_decide as Hb; [done|]. unfold queue. destruct (waiters g !! b) as [l|] eqn:El; [|done].
    destruct Hb. apply in_key_order_key. by eexists. }
  destruct (owned_spec t g1) as [Hnd Howned]. rewrite E1 in Howned.
  destruct (hand_off_spec (owned_by t g1) g1) as (F0 & F1 & F2 & F3); [|done|].
  { intros a w Hw. rewrite Hq in Hw. rewrite E2. apply (Hk a). by eapply remove_first_subset. }
  cbn zeta in F0, F1, F2, F3. set (g2 := foldl _ g1 _) in *. change (foldl _ g1 (owned_by t g1)) with g2.
  assert (forall a, queue g2 a = remove_first t (queue g a)) as Hq2 by (intros a; unfold queue in *; by rewrite F1).
  split; [done|]. split; [|split; [done|split]].
  - intros a. unfold contains. rewrite Hq2. apply remove_first_gone, Honce.
  - intros a. rewrite F2, E1. by rewrite (decide_ext (a ∈ owned_by t g1) (owners g !! a = Some t)).
  - intros e. rewrite F3. unfold event_signalled. rewrite E2. setoid_rewrite Howned. unfold queue. by rewrite F1.
Qed.


(** ** Every registry its callers make *)

(** What the rest of the runtime does to a registry.  A thread is queued at an
    address only when it is not there already: both callers of [enqueue]
    ([crates/horizon/src/svc_dispatch/synchronization.rs], waiting for a process-wide key and
    locking a mutex) test [contains] first.  [step_event] is
    whatever the holder of a waiter's readable end does to that event. *)
Inductive registry_step {W} : AddressWaitRegistry W -> AddressWaitRegistry W -> Prop :=
  | step_enqueue a t v g : contains a t g = false -> registry_step g (fst (enqueue a t v g))
  | step_remove a t g : registry_step g (remove a t g)
  | step_signal a n g : registry_step g (signal a n g)
  | step_set_owner a t g : registry_step g (set_owner a t g)
  | step_remove_owner a g : registry_step g (fst (remove_owner a g))
  | step_release t g : registry_step g (release_thread t g)
  | step_event e old new g : events g !! e = Some old ->
      registry_step g (mkRegistry (waiters g) (owners g) (<[e := new]> (events g)) (next_event g) (notified g)).

Definition reachable_registry {W} : AddressWaitRegistry W -> Prop := rtc registry_step empty_registry.

Definition registry_ok {W} (g : AddressWaitRegistry W) : Prop := events_known g /\ forall t, waits_once t g.

Lemma remove_first_count t u l :
  (length (List.filter (is_thread u) (remove_first t l)) <= length (List.filter (is_thread u) l))%nat.
Proof.
  induction l as [|w l IH]; cbn; [done|]. destruct (is_thread t w), (is_thread u w) eqn:E; cbn; rewrite ?E; cbn; lia.
Qed.

(** Fewer waiters and no lost event keep the invariant. *)
Lemma registry_ok_remove {W} t (g g' : AddressWaitRegistry W) :
  registry_ok g -> (forall e, is_Some (events g !! e) -> is_Some (events g' !! e)) ->
  (forall b, queue g' b = queue g b \/ queue g' b = remove_first t (queue g b)) -> registry_ok g'.
Proof.
  intros [Hk Ho] He Hq. split.
  - intros a w Hw. apply He, (Hk a). destruct (Hq a) as [E|E]; rewrite E in Hw; [done|by eapply remove_first_subset].
  - intros u a. specialize (Ho u a). pose proof (remove_first_count t u (queue g a)). destruct (Hq a) as [->| ->]; lia.
Qed.

Lemma enqueue_ok {W} a t v (g : AddressWaitRegistry W) :
  contains a t g = false -> registry_ok g -> registry_ok (fst (enqueue a t v g)).
Proof.
  intros Hc [Hk Ho].
  assert (forall b, queue (fst (enqueue a t v g)) b = if decide (b = a) then queue g b ++ [mkWaiter t v (next_event g)] else queue g b) as Hq.
  { intros b. unfold enqueue, queue. cbn. case_decide as Hb; [subst b; by rewrite lookup_insert_eq|by rewrite lookup_insert_ne]. }
  split.
  - intros b w. rewrite Hq. cbn. case_decide as Hb; [rewrite elem_of_app, list_elem_of_singleton; intros [Hw| ->]|intros Hw];
      apply lookup_insert_is_Some'; [right; by apply (Hk b)|by left|right; by apply (Hk b)].
  - intros u b. rewrite Hq. case_decide as Hb; [|apply Ho]. subst b. rewrite filter_app, length_app. cbn.
    unfold is_thread at 2. cbn. destruct (Z.eqb_spec t u) as [<-|]; cbn; [|rewrite Nat.add_0_r; apply Ho].
    destruct (List.filter (is_thread t) (queue g a)) as [|w l] eqn:Ef; [cbn; lia|].
    assert (In w (List.filter (is_thread t) (queue g a))) as [Hin Ht]%filter_In by (rewrite Ef; by left).
    unfold contains in Hc. apply not_true_iff_false in Hc. destruct Hc. apply existsb_exists. by exists w.
Qed.

Lemma registry_step_ok {W} (g g' : AddressWaitRegistry W) : registry_step g g' -> registry_ok g -> registry_ok g'.
Proof.
  intros Hs Hok. destruct Hs as [a t v g Hc|a t g|a n g|a t g|a g|t g|e old new g He].
  - by apply enqueue_ok.
  - destruct (remove_spec a t g) as (_ & E & Hq). apply (registry_ok_remove t g); [done|by rewrite E|].
    intros b. rewrite Hq. case_decide; [by right|by left].
  - destruct (signal_spec a n g (proj1 Hok)) as (Ew & _ & Hk & _). split; [done|]. intros t b.
    unfold queue. rewrite Ew. apply Hok.
  - exact Hok.
  - exact Hok.
  - destruct (release_thread_spec t g (proj1 Hok) (proj2 Hok t)) as (Hk & _ & Hq & _). split; [done|].
    intros u a. rewrite Hq. pose proof (remove_first_count t u (queue g a)). pose proof (proj2 Hok u a). lia.
  - apply (registry_ok_remove 0 g); [done| |by left]. intros e' He'. apply lookup_insert_is_Some'. by right.
Qed.

Lemma reachable_registry_ok {W} (g : AddressWaitRegistry W) : reachable_registry g -> registry_ok g.
Proof.
  intros Hr. assert (registry_ok (empty_registry (W := W))) as Hok.
  { assert (forall a, queue (empty_registry (W := W)) a = []) as Hq by done.
    split; [intros a w Hw; rewrite Hq in Hw; by apply elem_of_nil in Hw|intros t a; rewrite Hq; cbn; lia]. }
  unfold reachable_registry in Hr. revert Hok. generalize (empty_registry (W := W)), g, Hr. clear g Hr.
  induction 1 as [|g0 g1 g2 Hs _ IH]; [done|]. intros Hok. by eapply IH, registry_step_ok.
Qed.

(** C20: A thread that ends leaves no trace and hands its mutexes on.  On every
    registry the callers can make from the empty one ([registry_step]: every
    operation of the registry, where a thread is queued at an address only if
    [contains] says it is not there, as both callers check): after
    [release_thread] it waits nowhere and owns nothing, other queues and owners
    are as before, and exactly the first remaining waiter at each address it
    owned is signalled, beside those signalled already. *)
Theorem release_thread_hands_off {W} t (g : AddressWaitRegistry W) :
  reachable_registry g ->
  let g' := release_thread t g in
  (forall a, contains a t g' = false) /\
  (forall a, queue g' a = remove_first t (queue g a)) /\
  (forall a, owners g' !! a = if decide (owners g !! a = Some t) then None else owners g !! a) /\
  (forall e, event_signalled g' e = true <->
             event_signalled g e = true \/ exists a w, owners g !! a = Some t /\ head (queue g' a) = Some w /\ waiter_event w = e).
Proof. intros [Hk Ho]%reachable_registry_ok. exact (proj2 (release_thread_spec t g Hk (Ho t))). Qed.

(** Thread 1 owns the mutex at 4096; threads 2 and 3 wait for it. *)
Definition contended : AddressWaitRegistry Z :=
  fst (enqueue 4096 3 30 (fst (enqueue 4096 2 20 (set_owner 4096 1 empty_registry)))).

Lemma contended_queue a : queue contended a = if decide (a = 4096) then [mkWaiter 2 20 0; mkWaiter 3 30 1] else [].
Proof.
  unfold contended, enqueue, queue. cbn. destruct (decide (a = 4096)) as [->|Hne]; [reflexivity|].
  rewrite !lookup_insert_ne by done. by rewrite lookup_empty.
Qed.

Lemma contended_known : events_known contended.
Proof.
  intros a w. rewrite contended_queue. case_decide; [|intros H'; by apply elem_of_nil in H'].
  intros [->|[->|H']%elem_of_cons]%elem_of_cons; [by eexists|by eexists|by apply elem_of_nil in H'].
Qed.

Lemma release_thread_hands_off_witness :
  wait_signalled 4096 2 (release_thread 1 contended) = true /\
  forall a, owners (release_thread 1 contended) !! a = if decide (owners contended !! a = Some 1) then None else owners contended !! a.
Proof.
  destruct (release_thread_hands_off 1 contended) as (_ & _ & H & _).
  - eapply rtc_l; [apply (step_set_owner 4096 1)|]. eapply rtc_l; [by apply (step_enqueue 4096 2 20)|].
    eapply rtc_l; [by apply (step_enqueue 4096 3 30)|]. apply rtc_refl.
  - split; [reflexivity|exact H].
Defined.

(** C40: Signals can be lost.  A waiter stays in the queue until its thread runs
    again and removes it, so a second [signal_one] before that signals the same
    waiter: the next one is not woken, however often the address is signalled. *)
Theorem repeated_signal_one_lost {W} a (g : AddressWaitRegistry W) first second rest n :
  events_known g -> queue g a = first :: second :: rest -> waiter_event first <> waiter_event second ->
  let g' := Nat.iter n (signal_one a) g in
  queue g' a = queue g a /\ event_signalled g' (waiter_event second) = event_signalled g (waiter_event second).
Proof.
  intros Hk Hq Hne. cbn zeta.
  apply (proj2 (A := events_known (Nat.iter n (signal_one a) g))).
  induction n as [|n (IH1 & IH2 & IH3)]; [done|].
  change (Nat.iter (S n) (signal_one a) g) with (signal_one a (Nat.iter n (signal_one a) g)).
  set (h := Nat.iter n (signal_one a) g) in *.
  destruct (signal_spec a 1 h IH1) as (E1 & _ & E3 & E4). fold (signal_one a h) in *. split; [done|]. split; [unfold queue in *; by rewrite E1|].
  rewrite E4, IH3, IH2, Hq. change (take (Z.to_nat 1) (first :: second :: rest)) with [first]. cbn [map].
  rewrite bool_decide_false; [by rewrite orb_false_r|]. intros [E|E]%elem_of_cons; [congruence|by apply elem_of_nil in E].
Qed.

Lemma repeated_signal_one_lost_witness :
  let g' := signal_one 4096 (signal_one 4096 contended) in
  wait_signalled 4096 2 g' = true /\ event_signalled g' 1 = event_signalled contended 1 /\ wait_signalled 4096 3 g' = false.
Proof.
  split; [reflexivity|]. split; [|reflexivity].
  apply (repeated_signal_one_lost 4096 contended (mkWaiter 2 20 0) (mkWaiter 3 30 1) [] 2 contended_known); [reflexivity|discriminate].
Defined.
